(* ===== verification/_CoqProject ===== *)
-Q . S2P
Prelude.v
Tx.v
GoStrings.v
Calendar.v
Digest.v
Money.v
Rational.v
PlanRules.v
Schema.v
Wallet.v
Plans.v
Quota.v
Purchases.v
Refunds.v
Payments.v
Commerce.v
Scenarios.v
Effects.v
Claims.v
Guarantees.v
AgentState.v
AgentCredits.v
AgentStore.v
AgentScenarios.v
AgentGuarantees.v
Bytes.v
AgentWAL.v
AgentFiles.v
AgentDurability.v
Datagrams.v
DatagramInv.v
DatagramTrip.v
DatagramGuarantees.v
Policy.v
PolicyGuarantees.v
Desk.v
DeskInv.v
DeskSystem.v
DeskScenarios.v
DeskProgress.v
DeskRefresh.v
DeskEvolve.v
DeskGuarantees.v
NodeConfig.v
FleetBooks.v
FleetEvents.v
FleetStore.v
FleetWriter.v
FleetCredits.v
FleetPanel.v
Fleet.v
FleetScenarios.v
FleetGuarantees.v
Streams.v
StreamLaws.v
StreamTrip.v
StreamGuarantees.v
Failover.v
FailoverGuarantees.v
WriteQueue.v
MuxPool.v
MuxPoolInv.v
Slots.v
Addresses.v
Ports.v
PortsInv.v
PortGuarantees.v
Webhooks.v
WebhookGuarantees.v
Tasks.v
TaskInv.v
TaskGuarantees.v
Findings.v
