(* ===== verification/Prelude.v ===== *)
(** * Traffic-Forwarding-Panel: a verification development

    The program is a panel that sells traffic and a fleet of agents that
    forward it.  The panel keeps accounts, money and quota in SQL tables
    (src/internal/commerce over src/internal/storage).  It publishes leases,
    each a budget of bytes for one user on one node; an agent
    (src/internal/agent) may forward only what a lease pays for, logs what it
    forwards to its own disk before it counts, and reports it back as usage
    records, which the panel settles against the lease.  Traffic between nodes
    travels in tunnels (src/internal/tunnel), and what a tunnel may carry is
    decided by inbound policies (src/internal/policy).

    The development is a shallow embedding: Go functions are Rocq functions
    with the source's names, structs are records, tables and maps are finite
    maps, errors are values.  Everything computes; the scenarios and witnesses
    run the definitions on concrete inputs.

    ** Files

    Shared:
    - Prelude: int64 with wrap-around, sums over maps and lists, automation;
    - GoStrings, Bytes: what is used of strings, strconv, encoding/binary and
      hash/crc32;
    - Calendar, Digest, Money, Rational: time arithmetic in Asia/Shanghai and
      RFC 3339 stamps, SHA-256, contract/money.go, math/big.Rat.

    Commerce (the panel's money and quota):
    - Tx: Store.transaction as a function from a database to a result and a
      new database, or an error; the clock and random identifiers are an
      environment, and identifiers are not assumed to be new;
    - WriteQueue: the priority queues of Store.Write and their single writer
      (storage/store.go);
    - Schema: the tables with their keys and constraints;
    - Wallet: post, the ledger, fund sources and events (service.go,
      funding.go, events.go);
    - PlanRules, Plans: plans.go, plan_units.go, duration.go, limits.go,
      accounts.go;
    - Quota: leases, retirement and settlement (quota.go, usage_batch.go);
    - Purchases: purchases, add-ons, redeem codes, referrals, renewal
      (service.go, plans.go, lifecycle.go, accounts.go);
    - Refunds: refunds of purchases and commissions (funding.go, lifecycle.go);
    - Payments: orders, confirmation, gateway refunds, reconciliation
      (orders.go, manual.go, refunds.go, reconciliation.go, app.go);
    - Commerce: every exported mutation as one step; the reachable databases;
    - Effects, Claims, Guarantees, Scenarios: the theorems and their runs.

    The agent:
    - AgentState: the durable state and its events (state.go,
      durable_bounds.go);
    - AgentCredits: credit windows and the writer's side of them (credits.go,
      lease_set.go, continuity.go);
    - AgentStore: the writer, crashes and recovery; the reachable stores;
    - AgentGuarantees, AgentScenarios: the theorems and their runs;
    - AgentWAL, AgentFiles, AgentDurability: the bytes of the checkpoint and
      the log (wal.go), what they hold, and that they implement the ledger;
    - Failover, FailoverGuarantees: choosing and dialling one of the routes of
      a rule (failover.go);
    - Slots: connections and addresses per account (limits.go).

    The lease desk, between the two:
    - Desk: publishing, prefetching and retiring leases, taking in usage and
      funding a rule (platform/leases.go, lease_set.go, usage_batch.go,
      resource_limits.go, the end of saveRuleTx in resources.go); a panel is
      the shop's database with the control plane's tables;
    - DeskInv, DeskProgress, DeskRefresh: its invariant, that it accepts what
      it should, and what a refresh leaves behind;
    - DeskSystem: the shop, the desk and the rest of the control plane as
      steps; the reachable panels;
    - DeskGuarantees, DeskScenarios: the theorems and a run.

    Panel and node together:
    - NodeConfig: the configuration a node is sent and what its agent checks
      of it, usage reports and retirements (platform/agents.go, shared_tls.go,
      agent/runtime.go, client.go);
    - FleetBooks: what panel and node may believe of each other's books;
      FleetStore, FleetEvents, FleetWriter, FleetCredits: every write of the
      agent keeps it; FleetPanel: every step of the panel does;
    - Fleet: panel, network and agent as one system with messages that may be
      lost, repeated or late; FleetGuarantees, FleetScenarios: the theorems
      and a run.

    Background tasks of the panel:
    - Tasks: imports and exports of rules, their workers and tokens
      (platform/tasks.go); TaskInv: how their rows change, and the invariant;
      TaskGuarantees: the theorems and a run.

    Ports of nodes:
    - Addresses: host:port strings;
    - Ports: saving and deleting rules, exits and groups, shared TLS
      ingresses, registration, acknowledgement and uninstallation, as far as
      they decide about ports (platform/resources.go, shared_tls.go,
      tls_ingress.go, exits.go, exit_ports.go, groups_delete.go, agents.go,
      operations.go), and the migration of storage/exit_ports.go; PortsInv:
      these steps with the configurations that were sent, where they start,
      and the invariant; PortGuarantees: the theorems and a run.

    Webhooks:
    - Webhooks: subscriptions, and the worker that claims, calls and retries
      deliveries (commerce/events.go, webhook_settings.go);
      WebhookGuarantees: the theorems and a run.

    Tunnels and policy:
    - Datagrams, DatagramInv, DatagramTrip, DatagramGuarantees: UDP flows over
      QUIC datagrams (tunnel/datagram.go);
    - Streams: frames, sessions, obfuscation and the relay (tunnel/tunnel.go,
      obfuscation.go); StreamLaws: what a reader promises, as a class whose
      instances are the carrier, the obfuscated connection and the session;
      StreamTrip: the same for writers, and that decoding inverts encoding
      layer by layer; StreamGuarantees: the theorems;
    - MuxPool, MuxPoolInv: the pool of multiplexed carriers (tunnel/mux.go);
    - Policy, PolicyGuarantees: host and path rules (policy/match.go).

    Findings: behaviours that contradict what the code means to do.

    ** What is proved

    - FleetGuarantees holds in every state that panel, network and one agent
      can reach together, the agent crashing at any point and messages getting
      lost, repeated or late: what a node forwards was paid for before,
      nothing it counted is lost or counted twice, the panel accepts every
      report that is in time and every retirement, and a lease that was given
      back cannot be spent any more.
    - Guarantees holds in every database the service can reach, through
      any sequence of operations, clocks, identifiers and changes of the
      platform's own tables: balances are the ledger, money keeps its
      provenance, no reference is posted twice, quota is never oversold,
      metering is exact, open leases are bounded, an order is credited exactly
      when it is settled, refunds never exceed payments, one receipt pays one
      order, the referral graph has no cycle.
    - DeskGuarantees holds in every panel the shop and the control plane can
      reach together: their books agree byte for byte, a node is only told of
      leases that are paid for, usage within a lease is counted once and is
      settled exactly if it is on time, retirement gives back exactly what was not used, and a
      refresh leaves no served rule on a retired lease.
    - Claims says what single operations of the shop do, errors and repeated
      requests included.
    - AgentGuarantees holds in every store the agent can reach, with
      any clock, any failing write and any crash: no lease is overspent, a
      crash counts all forwarded traffic, the log is enough to rebuild the
      state, windows are bounded, a charge debits exactly its size, and a
      restart succeeds.
    - AgentDurability is about the files.  Appends and checkpoints over bytes,
      with every call failing at any byte, implement the commits of the
      ledger; a torn write costs no complete record, or, in one case that is
      described exactly, the start; intact files give the ledger back; any one changed byte of a log is refused; replay ends on
      every file.
    - DatagramGuarantees is about datagram links.  A packet whose frames
      arrive, in any order and with duplicates, while the link does anything
      else, is delivered whole and once; memory and tables stay bounded in every interleaving; what is sent is a
      whole packet.
    - StreamGuarantees is about sessions over carriers that take and deliver
      bytes in any pieces, with any strategy of obfuscation: streams arrive
      unchanged with their half close, packets with their boundaries, a broken
      connection yields a prefix, and a relay sends only what it has charged
      and stops only for a reason.
    - MuxPoolInv bounds the pool of carriers in every interleaving and shows
      that no carrier is leaked and no waiter left alone.
    - FailoverGuarantees: routes are chosen in proportion to their weights,
      a dial tries all that can be tried, a failed route is left alone.
    - TaskGuarantees holds with any number of workers that stall, die and
      overlap: an item of an import is applied at most once, a completed
      import is complete, a canceled one stops, and an undisturbed worker
      finishes what it takes up.
    - PortGuarantees holds however rules, exits, groups and nodes come and go:
      a port has one owner, or those it had when the panel was upgraded, it is
      not given away while the node may be using it, rules on one port can be told apart, and a free port is found if
      there is one.
    - WebhookGuarantees holds with any number of workers that die anywhere: no
      attempt of a delivery is made twice and none has more than twelve, what
      was removed, suppressed or reported as delivered in time is not called
      again, and an
      undisturbed round delivers what is due.
    - WriteQueue: transactions are serial and none starves.  Slots: the
      counters of an account are its open connections.
    - PolicyGuarantees holds path patterns against the declarative meaning of
      a glob and says exactly which requests pass.

    ** Bounds and fuel

    Loops that are not structural take fuel that is computed from their input
    and proved or seen to be enough: log replay takes the file's length plus
    one (every iteration consumes a header; log_start_ends), write_all the length of the
    batch, match_loop the product of the lengths (glob_bounded); FormatInt and the
    digit loops take the number of digits of an int64; the walk up the
    referral graph is the source's own limit of 1000; the back-off loop takes
    the number of attempts, capped as in the source; io.ReadFull and writeAll
    take the number of bytes, since every round moves one; a session's reader
    and a relay take more than the bytes on the wire, which the theorems ask
    for; a dial takes the number of routes, since it tries each once; a job
    takes one access per item and eight more (tasks_finish); the scan for a
    free port takes the size of the range (listen_found).

    ** Parameters and hypotheses

    - encoding/json is a class with laws (decoding inverts encoding, encodings
      of the state's documents are not empty); a table codec instantiates it.
      Of Go's codec the first holds for events whose strings are UTF-8.
    - math/big.Rat parsing is a class with an executable instance.
    - policy.Host (IDNA) is what it makes of the request's host.
    - QUIC is what SendDatagram answers and which datagrams arrive.
    - A carrier (TLS, WebSocket, yamux stream) is a reader that delivers any
      chunks and a writer that takes any part; padding is what crypto/rand
      gave.  Under random padding the stream theorems ask for frames that the
      reader can index (payloads of at most 65528 bytes; see Findings).
    - What saving a rule, an exit or a group asks of the rest of the panel (the
      choice of an exit, authorization, capabilities, leases, the checks that
      are not about ports) and of net, net/url and idna is a class
      ([Surroundings]); it reads the tables.  The identifier of an ingress is
      the truncated SHA-256 of group and node, as in the source; that those of
      the group and node identifiers the panel draws do not collide between
      nodes is an assumption ([KnownIDs]).
    - Whether the owner of a webhook may see an event is a function of the
      database ([EventVisible]), which URLs may be called are predicates, and
      what a call answers is an argument; identifiers of events are new.
    - What importing one rule does to the panel is a class of operations
      ([RuleService]), and the documents of tasks have a codec with laws
      ([TaskJSON]); the theorems hold for any.  A call whose context ends
      while it commits has committed before the worker goes on.
    - What other goroutines do to the table of routes during a dial is a
      function given with each attempt; dial_complete is for a dial alone.
    - Disk and gateway calls take their outcome as an argument, and the
      theorems quantify over it.
    - To tell a torn tail from a damaged file the source searches behind the
      torn record's first byte for the magic and a header that parses, and
      refuses the log when it finds one.  When the torn piece itself has such
      bytes, in its length, sequence number or checksums, a start is refused
      that need not be ([misread] in AgentWAL); log_torn_write has both
      cases, and [quiet_log] is a condition under which the second does not
      arise.  The theorems about the log ask for sequence numbers below
      2^64 - 1.
    - Steps of the control plane outside the desk may change users, nodes,
      groups and rules in any way, and drop leases from rules, but add none
      ([control] in DeskSystem): only the desk writes them.
    - What nodeConfig makes of the parts of a rule that carry no lease is a
      record of functions ([compiler]); the theorems hold for any.
    - In [Fleet] the agent's clock does not go back, the random identifiers an
      agent draws were not drawn before, and its configurations come from the
      panel.  That the panel accepts reports is proved for a panel whose clock
      is at most a minute behind the agent's, when no other node has used one
      of the identifiers of the batch, and when its direct charges ended before
      their leases expired: every check of a lease and every stamp of a record
      reads the clock by itself ([readings], [timing] in AgentCredits), and
      what happens when a lease expires in between is in Findings.
    - Go's map iteration order, where the outcome depends on it, is an
      argument.

    ** Not modelled

    - SQL drivers, migrations and backups: transactions are serial, as the
      single writer makes them on SQLite and row locks elsewhere.
    - HTTP handlers and the HTTP client of webhooks, listings, message
      formats, the Telegram bot, mail: they
      decode requests and render results around the operations modelled here.
    - Payment gateway protocols: their answers are arguments.
    - Listeners and sockets, TLS, WebSocket and QUIC connections, the
      handshake and serving side of tunnels, protocol inspection, service
      management and upgrades of the agent: input and output around the parts
      that are modelled.
    - The token bucket of an account: it computes with floating-point numbers.
    - The administration of users, nodes and groups beyond what decides about
      leases and ports, and the selection of exits by rendezvous hashing,
      which computes with floating-point logarithms.

    ** Plan

    Next: policy normalization and the inspectors; the desk and the ports as
    one control plane, so that saveRuleTx funds the rules it places. *)

From stdpp Require Import base gmap strings list fin_maps sorting.
From Stdlib Require Import ZArith Lia.

Local Open Scope Z_scope.

(** ** Machine integers

    A Go [int64] is a [Z]; arithmetic whose overflow the program could
    observe is wrapped explicitly. *)

Definition MaxInt64 : Z := 2 ^ 63 - 1.
Definition MinInt64 : Z := - 2 ^ 63.
Definition wrap64 (z : Z) : Z := (z + 2 ^ 63) mod 2 ^ 64 - 2 ^ 63.
Definition in_int64 (z : Z) : Prop := MinInt64 <= z <= MaxInt64.

Lemma wrap64_id z : in_int64 z -> wrap64 z = z.
Proof. unfold in_int64, wrap64, MinInt64, MaxInt64. intros. rewrite Z.mod_small; lia. Qed.

Lemma wrap64_range z : in_int64 (wrap64 z).
Proof.
  unfold in_int64, wrap64, MinInt64, MaxInt64.
  pose proof (Z.mod_pos_bound (z + 2 ^ 63) (2 ^ 64) ltac:(lia)). lia.
Qed.

(** A closed statement that holds by evaluation. *)
Ltac evaluates := vm_compute; reflexivity.

(** Boolean comparisons to propositions, everywhere. *)
Ltac bool_to_prop :=
  repeat match goal with
  | H : _ && _ = true |- _ => apply andb_prop in H as [? ?]
  | H : _ && _ = false |- _ => apply andb_false_iff in H
  | H : _ || _ = false |- _ => apply orb_false_elim in H as [? ?]
  | H : _ || _ = true |- _ => apply orb_prop in H
  | H : negb _ = true |- _ => apply negb_true_iff in H
  | H : negb _ = false |- _ => apply negb_false_iff in H
  | H : (_ =? _) = true |- _ => apply Z.eqb_eq in H
  | H : (_ =? _) = false |- _ => apply Z.eqb_neq in H
  | H : (_ <? _) = true |- _ => apply Z.ltb_lt in H
  | H : (_ <? _) = false |- _ => apply Z.ltb_ge in H
  | H : (_ <=? _) = true |- _ => apply Z.leb_le in H
  | H : (_ <=? _) = false |- _ => apply Z.leb_gt in H
  | H : String.eqb _ _ = true |- _ => apply String.eqb_eq in H
  | H : String.eqb _ _ = false |- _ => apply String.eqb_neq in H
  | H : bool_decide _ = true |- _ => apply bool_decide_eq_true in H
  | H : bool_decide _ = false |- _ => apply bool_decide_eq_false in H
  end.

(** ** Sums over finite maps and lists

    [map_sum f m] is SQL's [SUM(f)] over the rows of a table [m]. *)

Definition map_sum `{Countable K} {V} (f : K -> V -> Z) (m : gmap K V) : Z :=
  map_fold (fun k v acc => f k v + acc) 0 m.

Fixpoint sum_over {A} (f : A -> Z) (l : list A) : Z :=
  match l with
  | [] => 0
  | x :: xs => f x + sum_over f xs
  end.

Section MapSum.
Context `{Countable K} {V : Type}.
Implicit Types (m : gmap K V) (f g : K -> V -> Z).

Lemma map_sum_empty f : map_sum f (∅ : gmap K V) = 0.
Proof. apply map_fold_empty. Qed.

Lemma map_sum_insert_None f m k v :
  m !! k = None -> map_sum f (<[k:=v]> m) = f k v + map_sum f m.
Proof.
  intros Hk. unfold map_sum. rewrite map_fold_insert_L; [done| |done].
  intros. lia.
Qed.

Lemma map_sum_delete f m k v :
  m !! k = Some v -> map_sum f (delete k m) = map_sum f m - f k v.
Proof.
  intros Hk. rewrite <- (insert_delete_id m k v Hk) at 2.
  rewrite map_sum_insert_None; [lia|]. apply lookup_delete_eq.
Qed.

(** The change of a sum when the row [k] becomes [v]. *)
Lemma map_sum_insert f m k v :
  map_sum f (<[k:=v]> m) = map_sum f m + f k v - from_option (f k) 0 (m !! k).
Proof.
  destruct (m !! k) as [w|] eqn:Hk; simpl.
  - rewrite <- insert_delete_eq, map_sum_insert_None by apply lookup_delete_eq.
    rewrite (map_sum_delete f m k w Hk). lia.
  - rewrite map_sum_insert_None by done. lia.
Qed.

Lemma map_sum_le f g m :
  (forall k v, m !! k = Some v -> f k v <= g k v) -> map_sum f m <= map_sum g m.
Proof.
  induction m as [|k v m Hk IH] using map_ind; intros Hfg.
  - by rewrite !map_sum_empty.
  - rewrite !map_sum_insert_None by done. apply Z.add_le_mono.
    + apply Hfg. apply lookup_insert_eq.
    + apply IH. intros k' v' Hk'. apply Hfg.
      rewrite lookup_insert_ne; [done|]. congruence.
Qed.

Lemma map_sum_ext f g m :
  (forall k v, m !! k = Some v -> f k v = g k v) -> map_sum f m = map_sum g m.
Proof. intros Hfg. apply Z.le_antisymm; apply map_sum_le; intros; rewrite (Hfg k v); done. Qed.

Lemma map_sum_zero m : map_sum (fun _ _ => 0) m = 0.
Proof.
  induction m as [|k v m Hk IH] using map_ind; [apply map_sum_empty|].
  by rewrite map_sum_insert_None, IH by done.
Qed.

Lemma map_sum_all_zero f m : (forall k v, m !! k = Some v -> f k v = 0) -> map_sum f m = 0.
Proof. intros Hf. rewrite <- (map_sum_zero m). by apply map_sum_ext. Qed.

Lemma map_sum_nonneg f m :
  (forall k v, m !! k = Some v -> 0 <= f k v) -> 0 <= map_sum f m.
Proof. intros. rewrite <- (map_sum_zero m). by apply map_sum_le. Qed.

Lemma map_sum_elem_le f m k v :
  (forall k v, m !! k = Some v -> 0 <= f k v) -> m !! k = Some v -> f k v <= map_sum f m.
Proof.
  intros Hf Hk. rewrite <- (insert_delete_id m k v Hk).
  rewrite map_sum_insert_None by apply lookup_delete_eq.
  assert (0 <= map_sum f (delete k m)); [|lia].
  apply map_sum_nonneg. intros k' v' [_ ?]%lookup_delete_Some. eauto.
Qed.

Lemma map_sum_add f g m :
  map_sum (fun k v => f k v + g k v) m = map_sum f m + map_sum g m.
Proof.
  induction m as [|k v m Hk IH] using map_ind; [by rewrite !map_sum_empty|].
  rewrite !map_sum_insert_None by done. lia.
Qed.

(** Two summands that differ at one row only. *)
Lemma map_sum_change f g m k v :
  m !! k = Some v -> (forall k' v', k' <> k -> m !! k' = Some v' -> g k' v' = f k' v') ->
  map_sum g m = map_sum f m + g k v - f k v.
Proof.
  intros Hk Hfg. pose proof (map_sum_delete f m k v Hk). pose proof (map_sum_delete g m k v Hk).
  assert (map_sum g (delete k m) = map_sum f (delete k m)); [|lia].
  apply map_sum_ext. intros k' v' [Hne Hv]%lookup_delete_Some. eauto.
Qed.

Lemma map_sum_to_list f m : map_sum f m = sum_over (fun kv => f kv.1 kv.2) (map_to_list m).
Proof.
  induction m as [|k v m Hk IH] using map_ind.
  - rewrite map_sum_empty, map_to_list_empty. done.
  - rewrite map_sum_insert_None by done.
    assert (Hperm : forall l l' : list (K * V), l ≡ₚ l' ->
      sum_over (fun kv => f kv.1 kv.2) l = sum_over (fun kv => f kv.1 kv.2) l').
    { induction 1; simpl; lia. }
    rewrite (Hperm _ _ (map_to_list_insert m k v Hk)). simpl. by rewrite IH.
Qed.
End MapSum.

Lemma sum_over_perm {A} (f : A -> Z) (l l' : list A) :
  l ≡ₚ l' -> sum_over f l = sum_over f l'.
Proof. induction 1; simpl; lia. Qed.

Lemma sum_over_app {A} (f : A -> Z) (l l' : list A) :
  sum_over f (l ++ l') = sum_over f l + sum_over f l'.
Proof. induction l; simpl; lia. Qed.
Lemma sum_over_set {A} (f : A -> Z) (l : list A) i x y : l !! i = Some x -> sum_over f (<[i := y]> l) = sum_over f l - f x + f y.
Proof. intros Hi. rewrite <- (take_drop_middle l i x Hi) at 2. rewrite insert_take_drop by (by eapply lookup_lt_Some). rewrite !sum_over_app. cbn. lia. Qed.
Lemma sum_over_delete {A} (f : A -> Z) (l : list A) i x : l !! i = Some x -> sum_over f (delete i l) = sum_over f l - f x.
Proof. intros Hi. rewrite <- (take_drop_middle l i x Hi) at 2. rewrite delete_take_drop, !sum_over_app. cbn. lia. Qed.

Lemma sum_over_ext {A} (f g : A -> Z) (l : list A) :
  (forall x, x ∈ l -> f x = g x) -> sum_over f l = sum_over g l.
Proof.
  induction l as [|a l IH]; intros Hfg; simpl; [done|].
  rewrite Hfg, IH; set_solver.
Qed.

Lemma sum_over_zero {A} (l : list A) : sum_over (fun _ => 0) l = 0.
Proof. induction l; simpl; lia. Qed.

Lemma sum_over_nonneg {A} (f : A -> Z) (l : list A) :
  (forall x, x ∈ l -> 0 <= f x) -> 0 <= sum_over f l.
Proof.
  induction l as [|a l IH]; intros Hf; simpl; [done|].
  assert (0 <= f a) by set_solver. assert (0 <= sum_over f l) by set_solver. lia.
Qed.

(** Case analysis on the condition of the outermost [if] of the goal. *)
Ltac if_case :=
  match goal with
  | |- context [if ?b then _ else _] => let E := fresh "Hif" in destruct b eqn:E
  end.

(** The same in a hypothesis, where the guard's [then] branch is an error. *)
Ltac pass H E :=
  match type of H with
  | (if ?b then _ else _) = _ => destruct b eqn:E; [discriminate H|]
  end.

(** A guarded sum over all rows is the sum over the selected rows. *)
Lemma sum_over_filter {A} (p : A -> bool) (f : A -> Z) (l : list A) :
  sum_over f (filter (fun x => Is_true (p x)) l) = sum_over (fun x => if p x then f x else 0) l.
Proof.
  induction l as [|a l IH]; simpl; [done|].
  destruct (p a) eqn:Hp.
  - rewrite filter_cons_True by (rewrite Hp; done). simpl. lia.
  - rewrite filter_cons_False by (rewrite Hp; auto). lia.
Qed.

(** Keys stay distinct in a selection. *)
Lemma NoDup_fst_filter {A B} (P : A * B -> Prop) `{!forall x, Decision (P x)} (l : list (A * B)) :
  NoDup l.*1 -> NoDup (filter P l).*1.
Proof.
  induction l as [|[a b] l IH]; simpl; [done|]. intros [Ha Hl]%NoDup_cons.
  destruct (decide (P (a, b))).
  - rewrite filter_cons_True by done. simpl. apply NoDup_cons. split; [|auto].
    intros (x & -> & Hx)%list_elem_of_fmap. apply list_elem_of_filter in Hx as [_ Hx].
    apply Ha. apply list_elem_of_fmap. eauto.
  - rewrite filter_cons_False by done. auto.
Qed.
