(* ===== verification/Tx.v ===== *)
(** * Transactions

    The panel runs every mutation inside [storage.Store.Write]: a function
    receives a transaction, and an error rolls the whole transaction back.
    [Tx S A] is such a function over a database of type [S]: it returns a
    result and a new database, or an error and no database at all.

    Two things a transaction consumes are not rolled back: the clock
    ([Service.Now]) and the random identifiers ([id()], 16 random bytes in
    hex).  Both are read from an environment at a position that only moves
    forward, so two reads in one transaction may differ, and no theorem may
    assume that an identifier is fresh. *)

From S2P Require Import Prelude.
From stdpp Require Import base gmap strings list.

(** The errors the commerce code distinguishes; every other [errors.New]
    is [ErrMsg] with its text.  [ErrConstraint] is the database refusing a
    duplicate primary or unique key. *)
Inductive error :=
  | ErrConflict
  | ErrFunds
  | ErrNoRows
  | ErrAccountDisabled
  | ErrEntitlementUnavailable
  | ErrConstraint
  | ErrMsg (s : string).

#[export] Instance error_eq_dec : EqDecision error.
Proof. solve_decision. Defined.

Inductive res (A : Type) :=
  | Ok (a : A)
  | Err (e : error).
Arguments Ok {A} a.
Arguments Err {A} e.

#[export] Instance res_eq_dec {A} `{EqDecision A} : EqDecision (res A).
Proof. solve_decision. Defined.

Record Env := { env_now : nat -> Z; env_rand : nat -> string }.

Definition Tx (S A : Type) : Type := Env -> S -> nat -> res (A * S) * nat.

#[export] Instance tx_ret {S} : MRet (Tx S) := fun A a _ d t => (Ok (a, d), t).
#[export] Instance tx_bind {S} : MBind (Tx S) := fun A B k m env d t =>
  match m env d t with
  | (Ok (a, d'), t') => k a env d' t'
  | (Err e, t') => (Err e, t')
  end.

Definition fail {S A} (e : error) : Tx S A := fun _ _ t => (Err e, t).
Definition gets {S A} (f : S -> A) : Tx S A := fun _ d t => (Ok (f d, d), t).
Definition modify {S} (f : S -> S) : Tx S unit := fun _ d t => (Ok (tt, f d), t).
Definition Now {S} : Tx S Z := fun env d t => (Ok (env_now env t, d), Datatypes.S t).
Definition id {S} : Tx S string := fun env d t => (Ok (env_rand env t, d), Datatypes.S t).

Definition guard_err {S} (b : bool) (e : error) : Tx S unit :=
  if b then mret tt else fail e.
Definition or_fail {S A} (o : option A) (e : error) : Tx S A :=
  match o with Some a => mret a | None => fail e end.

Definition of_res {S A} (r : res A) : Tx S A :=
  match r with Ok a => mret a | Err e => fail e end.

(** [SAVEPOINT] ... [ROLLBACK TO SAVEPOINT] on error: the error becomes a
    value, and the database is the one before. *)
Definition savepoint {S A} (m : Tx S A) : Tx S (res A) := fun env d t =>
  match m env d t with
  | (Ok (a, d'), t') => (Ok (Ok a, d'), t')
  | (Err e, t') => (Ok (Err e, d), t')
  end.

Fixpoint for_each {S A} (l : list A) (f : A -> Tx S unit) : Tx S unit :=
  match l with
  | [] => mret tt
  | x :: xs => f x ;; for_each xs f
  end.

(** [storage.Store.Write]: commit on success, keep the old database
    otherwise. *)
Definition Write {S A} (m : Tx S A) (env : Env) (d : S) : res A * S :=
  match m env d 0%nat with
  | (Ok (a, d'), _) => (Ok a, d')
  | (Err e, _) => (Err e, d)
  end.

(** ** Program logic

    [hoare P m Q]: when [m] succeeds from a database satisfying [P], its
    result and the database it leaves satisfy [Q]. *)
Definition hoare {S A} (P : S -> Prop) (m : Tx S A) (Q : A -> S -> Prop) : Prop :=
  forall env d t a d' t', m env d t = (Ok (a, d'), t') -> P d -> Q a d'.

(** [preserves I m R]: [m] keeps [I] and its result satisfies [R]. *)
Abbreviation preserves I m R := (hoare I%function m (fun a d => I%function d /\ R%function a)).
Abbreviation keeps I m := (hoare I%function m (fun _ d => I%function d)).

Section Rules.
Context {S : Type}.
Implicit Types (P : S -> Prop).

Lemma hoare_ret {A} P (a : A) (Q : A -> S -> Prop) :
  (forall d, P d -> Q a d) -> hoare P (mret a) Q.
Proof. intros HQ env d t a' d' t' [= <- <- <-]. auto. Qed.

Lemma hoare_fail {A} P e (Q : A -> S -> Prop) : hoare P (fail e) Q.
Proof. intros env d t a' d' t' [=]. Qed.

Lemma hoare_bind {A B} P (m : Tx S A) (k : A -> Tx S B) R Q :
  hoare P m R -> (forall a, hoare (R a) (k a) Q) -> hoare P (mbind k m) Q.
Proof.
  intros Hm Hk env d t b d' t' Hrun HP. unfold mbind, tx_bind in Hrun.
  destruct (m env d t) as [[[a d1]|e] t1] eqn:E; [|discriminate].
  eapply Hk; [exact Hrun|]. eapply Hm; eauto.
Qed.

Lemma hoare_conseq {A} P P' (m : Tx S A) (Q Q' : A -> S -> Prop) :
  hoare P' m Q' -> (forall d, P d -> P' d) -> (forall a d, Q' a d -> Q a d) -> hoare P m Q.
Proof. intros Hm HP HQ env d t a d' t' Hrun Hd. eapply HQ, Hm; eauto. Qed.

Lemma hoare_gets {A} P (f : S -> A) (Q : A -> S -> Prop) :
  (forall d, P d -> Q (f d) d) -> hoare P (gets f) Q.
Proof. intros HQ env d t a' d' t' [= <- <- <-]. auto. Qed.

Lemma hoare_modify P f (Q : unit -> S -> Prop) :
  (forall d, P d -> Q tt (f d)) -> hoare P (modify f) Q.
Proof. intros HQ env d t a' d' t' [= <- <- <-]. auto. Qed.

Lemma hoare_now P (Q : Z -> S -> Prop) :
  (forall z d, P d -> Q z d) -> hoare P Now Q.
Proof. intros HQ env d t a' d' t' [= <- <- <-]. auto. Qed.

Lemma hoare_id P (Q : string -> S -> Prop) :
  (forall s d, P d -> Q s d) -> hoare P id Q.
Proof. intros HQ env d t a' d' t' [= <- <- <-]. auto. Qed.

Lemma hoare_guard P b e (Q : unit -> S -> Prop) :
  (b = true -> forall d, P d -> Q tt d) -> hoare P (guard_err b e) Q.
Proof. destruct b; intros HQ; [apply hoare_ret; auto|apply hoare_fail]. Qed.

Lemma hoare_or_fail {A} P (o : option A) e (Q : A -> S -> Prop) :
  (forall a, o = Some a -> forall d, P d -> Q a d) -> hoare P (or_fail o e) Q.
Proof. destruct o; intros HQ; [apply hoare_ret; eauto|apply hoare_fail]. Qed.

Lemma hoare_of_res {A} P (r : res A) (Q : A -> S -> Prop) :
  (forall a, r = Ok a -> forall d, P d -> Q a d) -> hoare P (of_res r) Q.
Proof. destruct r; intros HQ; [apply hoare_ret; eauto|apply hoare_fail]. Qed.

Lemma hoare_savepoint {A} P (m : Tx S A) (Q : A -> S -> Prop) :
  hoare P m Q ->
  hoare P (savepoint m) (fun r d => match r with Ok a => Q a d | Err _ => P d end).
Proof.
  intros Hm env d t r d' t' Hrun HP. unfold savepoint in Hrun.
  destruct (m env d t) as [[[a d1]|e] t1] eqn:E; inversion Hrun; subst; eauto.
Qed.

Lemma keeps_savepoint {A} P (m : Tx S A) : keeps P m -> keeps P (savepoint m).
Proof.
  intros Hm. eapply hoare_conseq; [by apply (hoare_savepoint P m (fun _ => P))|done|].
  by intros [a|e] d.
Qed.

Lemma keeps_for_each {A} P (l : list A) (f : A -> Tx S unit) :
  (forall a, a ∈ l -> keeps P (f a)) -> keeps P (for_each l f).
Proof.
  induction l as [|x xs IH]; intros Hf; simpl; [by apply hoare_ret|].
  eapply hoare_bind; [apply Hf; set_solver|]. intros []. apply IH. set_solver.
Qed.

(** A pure fact about the precondition may be pulled out of a triple. *)
Lemma hoare_pure {A} P (X : Prop) (m : Tx S A) Q :
  (X -> hoare P m Q) -> hoare (fun d => P d /\ X) m Q.
Proof. intros Hm env d t a d' t' Hrun [HP HX]. eapply Hm; eauto. Qed.

Lemma keeps_bind {A B} P (m : Tx S A) (k : A -> Tx S B) R :
  preserves P m R -> (forall a, R a -> keeps P (k a)) -> keeps P (mbind k m).
Proof.
  intros Hm Hk. eapply hoare_bind; [exact Hm|].
  intros a. apply hoare_pure. apply Hk.
Qed.

Lemma hoare_bind_inv {A B} P (m : Tx S A) (k : A -> Tx S B) Q :
  keeps P m -> (forall a, hoare P (k a) Q) -> hoare P (mbind k m) Q.
Proof. intros Hm Hk. eapply hoare_bind; [exact Hm|exact Hk]. Qed.

Lemma hoare_and {A} P P' (m : Tx S A) (Q Q' : A -> S -> Prop) :
  hoare P m Q -> hoare P' m Q' -> hoare (fun d => P d /\ P' d) m (fun a d => Q a d /\ Q' a d).
Proof. intros H1 H2 env d t a d' t' Hrun [HP HP']. split; [eapply H1|eapply H2]; eauto. Qed.

Lemma keeps_Write {A} P (m : Tx S A) env d :
  keeps P m -> P d -> P (Write m env d).2.
Proof.
  intros Hm HP. unfold Write. destruct (m env d 0%nat) as [[[a d1]|e] t1] eqn:E; [|done].
  simpl. eapply Hm; eauto.
Qed.

Lemma Write_Ok {A} (m : Tx S A) env d a d' :
  Write m env d = (Ok a, d') <-> exists t, m env d 0%nat = (Ok (a, d'), t).
Proof.
  unfold Write. destruct (m env d 0%nat) as [[[a1 d1]|e] t1]; split; intros Hw.
  - inversion Hw; subst. eauto.
  - destruct Hw as [t [= -> -> ->]]. done.
  - discriminate.
  - by destruct Hw.
Qed.

(** The rollback of [Write]: an error leaves the database as it was. *)
Lemma Write_Err {A} (m : Tx S A) env d e d' :
  Write m env d = (Err e, d') -> d' = d.
Proof.
  unfold Write. destruct (m env d 0%nat) as [[[a1 d1]|e1] t1]; congruence.
Qed.
End Rules.

(** Reading a successful run. *)
Lemma tx_bind_Ok {S A B} (m : Tx S A) (k : A -> Tx S B) env d t b d' t' :
  mbind k m env d t = (Ok (b, d'), t') <->
  exists a d1 t1, m env d t = (Ok (a, d1), t1) /\ k a env d1 t1 = (Ok (b, d'), t').
Proof.
  unfold mbind, tx_bind. split.
  - destruct (m env d t) as [[[a d1]|e] t1]; intros; [eauto 6|discriminate].
  - intros (a & d1 & t1 & -> & ->). done.
Qed.

Section Inversion.
Context {S : Type}.
Implicit Types (d : S).

Lemma mret_Ok {A} (a a' : A) env d t d' t' :
  mret (M := Tx S) a env d t = (Ok (a', d'), t') -> a' = a /\ d' = d /\ t' = t.
Proof. by intros [= <- <- <-]. Qed.
Lemma gets_Ok {A} (f : S -> A) a' env d t d' t' :
  gets f env d t = (Ok (a', d'), t') -> a' = f d /\ d' = d /\ t' = t.
Proof. by intros [= <- <- <-]. Qed.
Lemma modify_Ok f u env d t d' t' :
  modify f env d t = (Ok (u, d'), t') -> d' = f d /\ t' = t.
Proof. by intros [= <- <- <-]. Qed.
Lemma Now_Ok z env d t d' t' :
  Now env d t = (Ok (z, d'), t') -> d' = d.
Proof. by intros [= <- <- <-]. Qed.
Lemma id_Ok z env d t d' t' :
  id env d t = (Ok (z, d'), t') -> d' = d.
Proof. by intros [= <- <- <-]. Qed.
Lemma guard_Ok b e u env d t d' t' :
  guard_err b e env d t = (Ok (u, d'), t') -> b = true /\ d' = d /\ t' = t.
Proof. destruct b; [|done]. by intros [= <- <- <-]. Qed.
Lemma or_fail_Ok {A} (o : option A) a e env d t d' t' :
  or_fail o e env d t = (Ok (a, d'), t') -> o = Some a /\ d' = d /\ t' = t.
Proof. destruct o; [|done]. by intros [= <- <- <-]. Qed.
Lemma of_res_Ok {A} (r : res A) a env d t d' t' :
  of_res r env d t = (Ok (a, d'), t') -> r = Ok a /\ d' = d /\ t' = t.
Proof. destruct r; [|done]. by intros [= <- <- <-]. Qed.
End Inversion.

(** ** Progress

    [runs m env d t Q]: the transaction succeeds, with [Q] of its result. *)
Definition runs {S A} (m : Tx S A) (env : Env) (d : S) (t : nat) (Q : A -> S -> Prop) : Prop :=
  exists a d' t', m env d t = (Ok (a, d'), t') /\ Q a d'.

Section Progress.
Context {S : Type}.

Lemma runs_ret {A} (a : A) env (d : S) t (Q : A -> S -> Prop) : Q a d -> runs (mret a) env d t Q.
Proof. intros HQ. exists a, d, t. done. Qed.

Lemma runs_bind {A B} (m : Tx S A) (k : A -> Tx S B) env d t R Q :
  runs m env d t R -> (forall a d' t', R a d' -> runs (k a) env d' t' Q) -> runs (mbind k m) env d t Q.
Proof.
  intros (a & d' & t' & Hm & HR) Hk. destruct (Hk a d' t' HR) as (b & d2 & t2 & Hk' & HQ).
  exists b, d2, t2. split; [|done]. apply tx_bind_Ok. eauto 6.
Qed.

Lemma runs_gets {A} (f : S -> A) env d t (Q : A -> S -> Prop) : Q (f d) d -> runs (gets f) env d t Q.
Proof. intros HQ. exists (f d), d, t. done. Qed.

Lemma runs_modify f env (d : S) t (Q : unit -> S -> Prop) : Q tt (f d) -> runs (modify f) env d t Q.
Proof. intros HQ. exists tt, (f d), t. done. Qed.

Lemma runs_now env (d : S) t (Q : Z -> S -> Prop) : (forall z, Q z d) -> runs Now env d t Q.
Proof. intros HQ. eexists _, d, _. split; [reflexivity|]. apply HQ. Qed.

Lemma runs_id env (d : S) t (Q : string -> S -> Prop) :
  (forall n, Q (env_rand env n) d) -> runs id env d t Q.
Proof. intros HQ. eexists _, d, _. split; [reflexivity|]. apply HQ. Qed.

Lemma runs_guard b e env (d : S) t (Q : unit -> S -> Prop) :
  b = true -> Q tt d -> runs (guard_err b e) env d t Q.
Proof. intros -> HQ. by apply runs_ret. Qed.

Lemma runs_or_fail {A} (o : option A) a e env (d : S) t (Q : A -> S -> Prop) :
  o = Some a -> Q a d -> runs (or_fail o e) env d t Q.
Proof. intros -> HQ. by apply runs_ret. Qed.

Lemma runs_hoare {A} P (m : Tx S A) env d t Q R :
  runs m env d t Q -> hoare P m R -> P d -> runs m env d t (fun a d => Q a d /\ R a d).
Proof. intros (a & d' & t' & Hm & HQ) HR HP. exists a, d', t'. eauto 6. Qed.

Lemma runs_conseq {A} (m : Tx S A) env d t (Q Q' : A -> S -> Prop) :
  runs m env d t Q' -> (forall a d, Q' a d -> Q a d) -> runs m env d t Q.
Proof. intros (a & d' & t' & Hm & HQ) HR. exists a, d', t'. eauto. Qed.
End Progress.

(** Split a triple at its outermost construct; the goals left are the
    database updates and the values read. *)
Ltac hoare_step :=
  lazymatch goal with
  | |- hoare _ (mret _) _ => apply hoare_ret; intros
  | |- hoare _ (fail _) _ => apply hoare_fail
  | |- hoare _ (gets _) _ => apply hoare_gets; intros
  | |- hoare _ (modify _) _ => apply hoare_modify; intros
  | |- hoare _ Now _ => apply hoare_now; intros
  | |- hoare _ id _ => apply hoare_id; intros
  | |- hoare _ (guard_err _ _) _ => apply hoare_guard; intros
  | |- hoare _ (or_fail _ _) _ => apply hoare_or_fail; intros
  | |- hoare _ (of_res _) _ => apply hoare_of_res; intros
  end.

(** Peel binds, guards and lookups off an equation
    [m env d t = (Ok ..., _)]. *)
Ltac tx_inv H :=
  lazymatch type of H with
  | mbind _ _ _ _ _ = _ =>
      let Hm := fresh "Hm" in let Hk := fresh "Hk" in
      apply tx_bind_Ok in H as (? & ? & ? & Hm & Hk); tx_inv Hm; tx_inv Hk
  | mret _ _ _ _ = _ => apply mret_Ok in H as (? & ? & ?); subst
  | gets _ _ _ _ = _ => apply gets_Ok in H as (? & ? & ?); subst
  | modify _ _ _ _ = _ => apply modify_Ok in H as (? & ?); subst
  | Now _ _ _ = _ => apply Now_Ok in H; subst
  | id _ _ _ = _ => apply id_Ok in H; subst
  | fail _ _ _ _ = _ => discriminate H
  | guard_err _ _ _ _ _ = _ =>
      let E := fresh "Hg" in apply guard_Ok in H as (E & ? & ?); subst
  | or_fail _ _ _ _ _ = _ =>
      let E := fresh "Ho" in apply or_fail_Ok in H as (E & ? & ?); subst
  | of_res _ _ _ _ = _ =>
      let E := fresh "Hr" in apply of_res_Ok in H as (E & ? & ?); subst
  | _ => idtac
  end.
