(* ===== verification/GoStrings.v ===== *)
(** * Strings

    What the panel uses of Go's [strings] and [strconv] packages.  A Go
    string is a sequence of bytes, here a Rocq [string]. *)

From S2P Require Import Prelude.
From stdpp Require Import base strings list.
From Stdlib Require Import Ascii String.
Local Open Scope string_scope.
Local Open Scope Z_scope.

Definition byte_char (n : nat) : ascii := ascii_of_nat n.

Fixpoint has_prefix (p s : string) : bool :=
  match p, s with
  | "", _ => true
  | String a p, String b s => Ascii.eqb a b && has_prefix p s
  | _, "" => false
  end.

Fixpoint str_drop (n : nat) (s : string) : string :=
  match n, s with
  | O, _ => s
  | _, "" => ""
  | S n, String _ s => str_drop n s
  end.

Definition TrimPrefix (s p : string) : string :=
  if has_prefix p s then str_drop (String.length p) s else s.

Lemma TrimPrefix_app (p s : string) : TrimPrefix (p ++ s) p = s.
Proof.
  unfold TrimPrefix.
  assert (has_prefix p (p ++ s) = true) as ->.
  { induction p as [|a p IH]; simpl; [by destruct s|]. by rewrite Ascii.eqb_refl, IH. }
  induction p as [|a p IH]; simpl; [by destruct s|done].
Qed.

(** UTF-8 encodings of the code points of [unicode.IsSpace]. *)
Definition utf8 (l : list nat) : string :=
  fold_right (fun n s => String (byte_char n) s) "" l.
Definition spaces : list string :=
  List.map (fun n => utf8 [n]) [9; 10; 11; 12; 13; 32]%nat.
Definition wide_spaces : list string :=
  List.map utf8 (app
    [[194; 133]; [194; 160]; [225; 154; 128]; [226; 128; 168]; [226; 128; 169];
     [226; 128; 175]; [226; 129; 159]; [227; 128; 128]]
    (List.map (fun n => [226; 128; n]) (seq 128 11)))%nat.

Fixpoint rev_string (s : string) : string :=
  match s with "" => "" | String a s => rev_string s ++ String a "" end.

(** Remove from the front as long as some pattern of [ps] is a prefix. *)
Fixpoint trim_left (fuel : nat) (ps : list string) (s : string) : string :=
  match fuel with
  | O => s
  | S f => match list_find (fun p => Is_true (has_prefix p s)) ps with
           | Some (_, p) => trim_left f ps (str_drop (String.length p) s)
           | None => s
           end
  end.

(** [strings.TrimSpace]; every round drops at least one byte, so the length
    of the string is enough fuel. *)
Definition TrimSpace (s : string) : string :=
  let ps := app spaces wide_spaces in
  let s := trim_left (String.length s) ps s in
  rev_string (trim_left (String.length s) (List.map rev_string ps) (rev_string s)).

(** [strings.Cut s "."] *)
Fixpoint Cut (sep : ascii) (s : string) : string * string * bool :=
  match s with
  | "" => ("", "", false)
  | String a s' =>
      if Ascii.eqb a sep then ("", s', true)
      else let '(before, after, found) := Cut sep s' in (String a before, after, found)
  end.

Fixpoint Split (sep : ascii) (s : string) : list string :=
  match s with
  | "" => [""]
  | String a s' =>
      if Ascii.eqb a sep then "" :: Split sep s'
      else match Split sep s' with
           | [] => [String a ""]
           | w :: ws => String a w :: ws
           end
  end.

(** ** Decimal integers *)

Definition is_digit (c : ascii) : bool := (48 <=? nat_of_ascii c)%nat && (nat_of_ascii c <=? 57)%nat.
Definition digit_val (c : ascii) : Z := Z.of_nat (nat_of_ascii c) - 48.
Definition digit_char (n : Z) : ascii := ascii_of_nat (Z.to_nat (48 + n)).

Fixpoint all_digits (s : string) : bool :=
  match s with "" => true | String c s => is_digit c && all_digits s end.

Fixpoint digits_val (acc : Z) (s : string) : Z :=
  match s with "" => acc | String c s => digits_val (10 * acc + digit_val c) s end.

(** [strconv.ParseInt s 10 64] on a string of ASCII digits; an empty string
    or a value beyond [int64] is an error. *)
Definition ParseInt (s : string) : option Z :=
  if String.eqb s "" || negb (all_digits s) then None
  else let v := digits_val 0 s in if v <=? MaxInt64 then Some v else None.

(** [strconv.FormatInt n 10]; twenty digits hold every [int64]. *)
Fixpoint dec_digits (fuel : nat) (n : Z) : string :=
  match fuel with
  | O => ""
  | S f => if n <? 10 then String (digit_char n) ""
           else dec_digits f (n / 10) ++ String (digit_char (n mod 10)) ""
  end.
Definition FormatInt (n : Z) : string :=
  if n <? 0 then "-" ++ dec_digits 20 (- n) else dec_digits 20 n.

(** ** Lemmas *)

Lemma string_app_cons c s s' : String c s ++ s' = String c (s ++ s').
Proof. reflexivity. Qed.

Lemma string_app_nil_r s : s ++ "" = s.
Proof. induction s as [|c s IH]; [done|]. by rewrite string_app_cons, IH. Qed.

Lemma string_app_assoc s1 s2 s3 : s1 ++ (s2 ++ s3) = (s1 ++ s2) ++ s3.
Proof. induction s1 as [|c s IH]; [done|]. by rewrite !string_app_cons, IH. Qed.

Lemma string_app_inv_head s s1 s2 : s ++ s1 = s ++ s2 -> s1 = s2.
Proof. induction s as [|c s IH]; [done|]. rewrite !string_app_cons. intros [= ?]. auto. Qed.

Lemma digit_char_spec n : 0 <= n <= 9 -> is_digit (digit_char n) = true /\ digit_val (digit_char n) = n.
Proof.
  intros Hn. unfold is_digit, digit_val, digit_char. rewrite nat_ascii_embedding by lia.
  split; [apply andb_true_iff; rewrite !Nat.leb_le; lia|lia].
Qed.

Lemma is_digit_val c : is_digit c = true -> 0 <= digit_val c <= 9.
Proof.
  unfold is_digit, digit_val. intros H. bool_to_prop.
  apply Nat.leb_le in H, H0. lia.
Qed.

Lemma all_digits_app s s' : all_digits (s ++ s') = all_digits s && all_digits s'.
Proof. induction s as [|c s IH]; simpl; [done|]. by rewrite IH, andb_assoc. Qed.

Lemma digits_val_app acc s s' : digits_val acc (s ++ s') = digits_val (digits_val acc s) s'.
Proof. revert acc. induction s as [|c s IH]; intros acc; simpl; [done|]. apply IH. Qed.

Lemma length_string_app s s' : String.length (s ++ s') = (String.length s + String.length s')%nat.
Proof. induction s; simpl; [done|]. by f_equal. Qed.

Lemma digits_val_bound s acc :
  all_digits s = true -> 0 <= acc ->
  0 <= digits_val acc s < (acc + 1) * 10 ^ Z.of_nat (String.length s).
Proof.
  revert acc. induction s as [|c s IH]; intros acc Hd Hacc; simpl in *; [lia|].
  apply andb_prop in Hd as [Hc Hs]. apply is_digit_val in Hc.
  specialize (IH (10 * acc + digit_val c) Hs ltac:(lia)).
  rewrite Nat2Z.inj_succ, Z.pow_succ_r by lia. nia.
Qed.

(** Digits written are digits read back. *)
Lemma dec_digits_spec fuel n :
  0 <= n < 10 ^ Z.of_nat fuel -> (0 < fuel)%nat ->
  all_digits (dec_digits fuel n) = true /\ digits_val 0 (dec_digits fuel n) = n
  /\ dec_digits fuel n <> "".
Proof.
  revert n. induction fuel as [|f IH]; intros n Hn Hf; [lia|]. simpl.
  destruct (n <? 10) eqn:E; bool_to_prop.
  - destruct (digit_char_spec n ltac:(lia)) as [H1 H2]. simpl. rewrite H1, H2. split; [done|].
    split; [lia|done].
  - rewrite Nat2Z.inj_succ, Z.pow_succ_r in Hn by lia.
    assert (Hf' : (0 < f)%nat).
    { destruct f; [simpl in Hn; lia|lia]. }
    destruct (IH (n / 10)) as (H1 & H2 & H3); [split; [apply Z.div_pos; lia|apply Z.div_lt_upper_bound; lia]|done|].
    destruct (digit_char_spec (n mod 10)) as [H4 H5]; [pose proof (Z.mod_pos_bound n 10); lia|].
    rewrite all_digits_app, digits_val_app, H1, H2. simpl. rewrite H4, H5.
    split; [done|]. split; [pose proof (Z.div_mod n 10); lia|].
    destruct (dec_digits f (n / 10)); [done|]. done.
Qed.

Lemma dec_digits_length fuel n k :
  0 <= n < 10 ^ Z.of_nat k -> (0 < k)%nat -> (String.length (dec_digits fuel n) <= k)%nat.
Proof.
  revert n k. induction fuel as [|f IH]; intros n k Hn Hk; simpl; [lia|].
  destruct (n <? 10) eqn:E; bool_to_prop; simpl; [lia|].
  rewrite length_string_app. simpl. destruct k as [|k]; [lia|].
  rewrite Nat2Z.inj_succ, Z.pow_succ_r in Hn by lia.
  assert (0 < k)%nat by (destruct k; [simpl in Hn; lia|lia]).
  assert (String.length (dec_digits f (n / 10)) <= k)%nat; [|lia].
  apply IH; [|done]. split; [apply Z.div_pos; lia|apply Z.div_lt_upper_bound; lia].
Qed.

Lemma ParseInt_FormatInt n : 0 <= n <= MaxInt64 -> ParseInt (FormatInt n) = Some n.
Proof.
  intros Hn. unfold FormatInt, ParseInt. replace (n <? 0) with false by lia.
  destruct (dec_digits_spec 20 n) as (H1 & H2 & H3).
  { unfold MaxInt64 in Hn. change (10 ^ Z.of_nat 20) with 100000000000000000000. lia. }
  { lia. }
  rewrite H1, H2. destruct (dec_digits 20 n); [done|]. simpl.
  by replace (n <=? MaxInt64) with true by lia.
Qed.
