(* ===== verification/Calendar.v ===== *)
(** * Calendar arithmetic

    What the panel uses of Go's [time] package: an instant ([time.Time]) is
    the number of nanoseconds since the Unix epoch, and the proleptic
    Gregorian calendar gives its date.  [AddMonths] and [stamp] are the
    panel's own functions (internal/commerce/service.go).

    The zone Asia/Shanghai is the fixed offset +08:00, which is what the
    time-zone database has for every instant since 1991-09-15. *)

From S2P Require Import Prelude.
From stdpp Require Import base strings list pretty.
Local Open Scope Z_scope.

Definition second : Z := 1000000000.
Definition minute : Z := 60 * second.
Definition hour : Z := 3600 * second.
Definition day : Z := 86400 * second.
Definition shanghai : Z := 8 * hour.

(** [time.Time{}], the zero instant: 0001-01-01 00:00:00 UTC. *)
Definition zeroTime : Z := -62135596800 * second.
Definition IsZero (t : Z) : bool := t =? zeroTime.
Definition UnixMilli (t : Z) : Z := t / 1000000.

Definition minTime (a b : Z) : Z := if b <? a then b else a.

Lemma minTime_le a b : minTime a b <= a /\ minTime a b <= b.
Proof. unfold minTime. destruct (b <? a) eqn:E; bool_to_prop; lia. Qed.

(** ** Years, months, days *)

Definition leap (y : Z) : bool :=
  (y mod 4 =? 0) && (negb (y mod 100 =? 0) || (y mod 400 =? 0)).

(** Days from 0001-01-01 to January 1st of year [y]. *)
Definition days_before_year (y : Z) : Z :=
  365 * (y - 1) + (y - 1) / 4 - (y - 1) / 100 + (y - 1) / 400.

(** Days from January 1st to the first of month [m] (0 = January). *)
Definition days_before_month (lp : bool) (m : Z) : Z :=
  let l := if lp then 1 else 0 in
  if m =? 0 then 0 else if m =? 1 then 31 else
  if m =? 2 then 59 + l else if m =? 3 then 90 + l else
  if m =? 4 then 120 + l else if m =? 5 then 151 + l else
  if m =? 6 then 181 + l else if m =? 7 then 212 + l else
  if m =? 8 then 243 + l else if m =? 9 then 273 + l else
  if m =? 10 then 304 + l else if m =? 11 then 334 + l else 365 + l.

Definition days_in_month (lp : bool) (m : Z) : Z :=
  days_before_month lp (m + 1) - days_before_month lp m.

(** A month is numbered [12 * year + month]; [time.Date] carries a month
    outside 1..12 into the year exactly by this division. *)
Definition first_of_month (k : Z) : Z :=
  days_before_year (k / 12) + days_before_month (leap (k / 12)) (k mod 12).
Definition month_length (k : Z) : Z := days_in_month (leap (k / 12)) (k mod 12).

Definition unix_epoch_days : Z := 719162.

(** Year and day of the year from a day count since 0001-01-01, by cycles
    of 400, 100, 4 and 1 years (Go's [time.absDate]). *)
Definition year_of_days (d : Z) : Z * Z :=
  let n400 := d / 146097 in let d := d mod 146097 in
  let n100 := Z.min (d / 36524) 3 in let d := d - 36524 * n100 in
  let n4 := d / 1461 in let d := d mod 1461 in
  let n1 := Z.min (d / 365) 3 in
  (400 * n400 + 100 * n100 + 4 * n4 + n1 + 1, d - 365 * n1).

(** Month (0 = January) from the day of the year. *)
Definition month_of_yday (lp : bool) (yd : Z) : Z :=
  let before m := yd <? days_before_month lp m in
  if before 1 then 0 else if before 2 then 1 else if before 3 then 2 else
  if before 4 then 3 else if before 5 then 4 else if before 6 then 5 else
  if before 7 then 6 else if before 8 then 7 else if before 9 then 8 else
  if before 10 then 9 else if before 11 then 10 else 11.

(** Month number and day of month (from 1) of a day count. *)
Definition civil (d : Z) : Z * Z :=
  let '(y, yd) := year_of_days d in
  let m := month_of_yday (leap y) yd in
  (12 * y + m, yd - days_before_month (leap y) m + 1).

(** The day count of a month number and a day of month; the day may lie
    outside the month, as in [time.Date]. *)
Definition date (k dom : Z) : Z := first_of_month k + dom - 1.

Ltac zdiv := Z.to_euclidean_division_equations; lia.

Lemma days_before_month_cases lp m :
  0 <= m <= 11 -> 28 <= days_in_month lp m <= 31 /\ 0 <= days_before_month lp m.
Proof.
  intros Hm. unfold days_in_month.
  assert (Hc : m = 0 \/ m = 1 \/ m = 2 \/ m = 3 \/ m = 4 \/ m = 5 \/ m = 6 \/ m = 7
    \/ m = 8 \/ m = 9 \/ m = 10 \/ m = 11) by lia.
  repeat destruct Hc as [-> | Hc]; try rewrite Hc; destruct lp; vm_compute; intuition discriminate.
Qed.

Lemma days_before_year_succ y :
  days_before_year (y + 1) = days_before_year y + 365 + (if leap y then 1 else 0).
Proof.
  unfold days_before_year, leap. replace (y + 1 - 1) with y by lia.
  destruct (y mod 4 =? 0) eqn:E4, (y mod 100 =? 0) eqn:E100, (y mod 400 =? 0) eqn:E400;
    simpl; bool_to_prop; zdiv.
Qed.

Lemma first_of_month_succ k : first_of_month (k + 1) = first_of_month k + month_length k.
Proof.
  unfold first_of_month, month_length, days_in_month.
  destruct (decide (k mod 12 = 11)) as [E|E].
  - replace ((k + 1) / 12) with (k / 12 + 1) by zdiv.
    replace ((k + 1) mod 12) with 0 by zdiv. rewrite E, days_before_year_succ.
    change (11 + 1) with 12. unfold days_before_month; simpl.
    destruct (leap (k / 12)), (leap (k / 12 + 1)); lia.
  - replace ((k + 1) / 12) with (k / 12) by zdiv.
    replace ((k + 1) mod 12) with (k mod 12 + 1) by zdiv. lia.
Qed.

Lemma month_length_bounds k : 28 <= month_length k <= 31.
Proof.
  apply days_before_month_cases.
  pose proof (Z.mod_pos_bound k 12). lia.
Qed.

Lemma first_of_month_mono k n : 0 <= n -> first_of_month k + 28 * n <= first_of_month (k + n) <= first_of_month k + 31 * n.
Proof.
  intros Hn. pattern n. apply natlike_ind; [| |done].
  - rewrite !Z.mul_0_r, !Z.add_0_r. lia.
  - intros m Hm IH. rewrite <- Z.add_1_r, Z.add_assoc, first_of_month_succ.
    pose proof (month_length_bounds (k + m)). lia.
Qed.

(** ** The calendar is a bijection *)

Lemma year_of_days_spec d :
  let '(y, yd) := year_of_days d in
  d = days_before_year y + yd /\ 0 <= yd < 365 + (if leap y then 1 else 0).
Proof.
  unfold year_of_days, days_before_year, leap. cbn zeta.
  set (n400 := d / 146097). set (r := d mod 146097).
  assert (Hr : 0 <= r < 146097) by (subst r; zdiv).
  assert (Hd : d = 146097 * n400 + r) by (subst n400 r; zdiv).
  clearbody n400 r.
  set (n100 := Z.min (r / 36524) 3).
  assert (H100 : 0 <= n100 <= 3 /\ 0 <= r - 36524 * n100 < 36524 + (if n100 =? 3 then 1 else 0)).
  { subst n100. destruct (Z.min_spec (r / 36524) 3) as [[? ->]|[? ->]];
      destruct (_ =? 3) eqn:?; bool_to_prop; zdiv. }
  clearbody n100. set (q := r - 36524 * n100) in *.
  assert (Hrq : r = 36524 * n100 + q) by (subst q; lia). clearbody q.
  assert (Hq0 : 0 <= q < 36525) by (destruct H100 as [_ H100]; destruct (n100 =? 3); lia).
  set (n4 := q / 1461). set (s := q mod 1461).
  assert (Hq : q = 1461 * n4 + s /\ 0 <= s < 1461 /\ 0 <= n4 <= 24) by
    (subst n4 s; clear - Hq0; zdiv).
  clearbody n4 s.
  set (n1 := Z.min (s / 365) 3).
  assert (H1 : 0 <= n1 <= 3 /\ 0 <= s - 365 * n1 < 365 + (if n1 =? 3 then 1 else 0)).
  { subst n1. clear - Hq. destruct Hq as (_ & Hs & _). destruct (Z.min_spec (s / 365) 3) as [[? ->]|[? ->]];
      destruct (_ =? 3) eqn:?; bool_to_prop; zdiv. }
  clearbody n1.
  set (y := 400 * n400 + 100 * n100 + 4 * n4 + n1 + 1).
  assert (E4 : (y - 1) / 4 = 100 * n400 + 25 * n100 + n4) by (subst y; zdiv).
  assert (E100 : (y - 1) / 100 = 4 * n400 + n100) by (subst y; zdiv).
  assert (E400 : (y - 1) / 400 = n400) by (subst y; zdiv).
  rewrite E4, E100, E400.
  assert (L4 : (y mod 4 =? 0) = (n1 =? 3)).
  { apply eq_true_iff_eq. rewrite !Z.eqb_eq. subst y. zdiv. }
  split; [subst y; lia|]. rewrite L4.
  destruct (n1 =? 3) eqn:E1; simpl; [|lia].
  destruct (y mod 100 =? 0) eqn:Ey; simpl; [|lia].
  destruct (y mod 400 =? 0) eqn:Ey4; simpl; [lia|].
  bool_to_prop. destruct (n100 =? 3) eqn:E3; bool_to_prop; subst y; zdiv.
Qed.

Lemma month_of_yday_spec (lp : bool) (yd : Z) :
  0 <= yd < 365 + (if lp then 1 else 0) ->
  let m := month_of_yday lp yd in
  0 <= m <= 11 /\ days_before_month lp m <= yd < days_before_month lp (m + 1).
Proof.
  intros Hyd. cbn zeta. unfold month_of_yday.
  repeat match goal with
  | |- context [yd <? ?x] => destruct (yd <? x) eqn:?; bool_to_prop
  end; destruct lp; unfold days_before_month in *; simpl in *; lia.
Qed.

Lemma civil_spec d :
  date (civil d).1 (civil d).2 = d /\ 1 <= (civil d).2 <= month_length (civil d).1.
Proof.
  unfold civil. pose proof (year_of_days_spec d) as Hy.
  destruct (year_of_days d) as [y yd]. destruct Hy as [Hd Hyd].
  pose proof (month_of_yday_spec (leap y) yd Hyd) as [Hm Hb].
  set (m := month_of_yday (leap y) yd) in *. clearbody m. simpl.
  unfold date, first_of_month, month_length, days_in_month.
  replace ((12 * y + m) / 12) with y by zdiv.
  replace ((12 * y + m) mod 12) with m by zdiv. lia.
Qed.

Lemma first_of_month_lt k k' : k < k' -> first_of_month k + month_length k <= first_of_month k'.
Proof.
  intros Hk. rewrite <- first_of_month_succ.
  replace k' with (k + 1 + (k' - (k + 1))) by lia.
  pose proof (first_of_month_mono (k + 1) (k' - (k + 1))). lia.
Qed.

Lemma civil_date k dom : 1 <= dom <= month_length k -> civil (date k dom) = (k, dom).
Proof.
  intros Hdom. pose proof (civil_spec (date k dom)) as [He Hb].
  destruct (civil (date k dom)) as [k' dom']; simpl in *. unfold date in He.
  assert (k' = k) as ->.
  { destruct (Z.lt_trichotomy k' k) as [Hlt|[|Hlt]]; [|done|];
      apply first_of_month_lt in Hlt; lia. }
  f_equal; lia.
Qed.

(** ** [AddMonths] *)

(** The local day and the time of day of an instant. *)
Definition local_day (t : Z) : Z := (t + shanghai) / day + unix_epoch_days.
Definition local_tod (t : Z) : Z := (t + shanghai) mod day.
Definition from_local (d tod : Z) : Z := (d - unix_epoch_days) * day + tod - shanghai.

Definition AddMonths (t months : Z) : Z :=
  let '(k, d) := civil (local_day t) in
  let first := date (k + months) 1 in
  let fk := (civil first).1 in
  let last := (civil (date (fk + 1) 0)).2 in
  let d := if last <? d then last else d in
  from_local (date fk d) (local_tod t).

(** [t.In(loc).AddDate(0, 0, days).UTC()] in a zone of fixed offset. *)
Definition AddDays (t days : Z) : Z :=
  from_local (date (civil (local_day t)).1 ((civil (local_day t)).2 + days)) (local_tod t).

Lemma local_day_from_local d tod : 0 <= tod < day -> local_day (from_local d tod) = d.
Proof.
  intros Ht. unfold local_day, from_local.
  replace ((d - unix_epoch_days) * day + tod - shanghai + shanghai)
    with (tod + (d - unix_epoch_days) * day) by lia.
  rewrite Z.div_add, Z.div_small; [lia|lia|unfold day, second; lia].
Qed.

Lemma local_tod_from_local d tod : 0 <= tod < day -> local_tod (from_local d tod) = tod.
Proof.
  intros Ht. unfold local_tod, from_local.
  replace ((d - unix_epoch_days) * day + tod - shanghai + shanghai)
    with (tod + (d - unix_epoch_days) * day) by lia.
  rewrite Z.mod_add by (unfold day, second; lia). by apply Z.mod_small.
Qed.

Lemma local_tod_bound t : 0 <= local_tod t < day.
Proof. apply Z.mod_pos_bound. unfold day, second; lia. Qed.

Lemma from_local_id t : from_local (local_day t) (local_tod t) = t.
Proof.
  unfold from_local, local_day, local_tod.
  pose proof (Z.div_mod (t + shanghai) day ltac:(unfold day, second; lia)). lia.
Qed.

Lemma from_local_add d n tod : from_local (d + n) tod = from_local d tod + n * day.
Proof. unfold from_local. generalize day. intros. nia. Qed.

Lemma date_add k dom n : date k (dom + n) = date k dom + n.
Proof. unfold date. lia. Qed.

Lemma AddDays_eq t days : AddDays t days = t + days * day.
Proof.
  unfold AddDays. rewrite date_add, from_local_add.
  rewrite (proj1 (civil_spec (local_day t))). by rewrite from_local_id.
Qed.

Lemma AddMonths_unfold t months :
  let '(k, d) := civil (local_day t) in
  AddMonths t months =
    from_local (date (k + months) (Z.min d (month_length (k + months)))) (local_tod t).
Proof.
  unfold AddMonths. destruct (civil (local_day t)) as [k d] eqn:E.
  pose proof (month_length_bounds (k + months)).
  rewrite (civil_date (k + months) 1) by lia. cbn [fst].
  replace (date (k + months + 1) 0) with (date (k + months) (month_length (k + months)))
    by (unfold date; rewrite first_of_month_succ; lia).
  rewrite civil_date by lia. cbn [snd].
  destruct (_ <? d) eqn:El; bool_to_prop; repeat f_equal; lia.
Qed.

(** The date [AddMonths] returns: the same time of day, in the month
    [months] later, on the same day of the month or, when that month is
    shorter, on its last day. *)
Lemma AddMonths_civil t months :
  let '(k, d) := civil (local_day t) in
  civil (local_day (AddMonths t months)) = (k + months, Z.min d (month_length (k + months)))
  /\ local_tod (AddMonths t months) = local_tod t.
Proof.
  pose proof (AddMonths_unfold t months) as HA.
  pose proof (civil_spec (local_day t)) as [_ Hd].
  destruct (civil (local_day t)) as [k d] eqn:E. simpl in *.
  pose proof (month_length_bounds (k + months)). pose proof (local_tod_bound t).
  rewrite HA, local_day_from_local, local_tod_from_local by done. split; [|done].
  apply civil_date. lia.
Qed.

Lemma AddMonths_bounds t months :
  1 <= months -> t < AddMonths t months <= t + (31 * months + 31) * day.
Proof.
  intros Hm. pose proof (AddMonths_unfold t months) as HA.
  pose proof (civil_spec (local_day t)) as [Hdate Hd].
  destruct (civil (local_day t)) as [k d] eqn:E. simpl in *.
  pose proof (first_of_month_lt k (k + months) ltac:(lia)).
  pose proof (first_of_month_mono k months ltac:(lia)).
  pose proof (month_length_bounds (k + months)).
  set (n := date (k + months) (Z.min d (month_length (k + months))) - local_day t) in *.
  assert (Hn : 1 <= n <= 31 * months + 31) by (subst n; unfold date in *; lia).
  replace (date (k + months) (Z.min d (month_length (k + months)))) with (local_day t + n) in HA
    by (subst n; lia).
  rewrite from_local_add, from_local_id in HA. rewrite HA.
  assert (0 < day) by done. clear - Hn H2. clearbody n. revert H2. generalize day. intros. nia.
Qed.

(** ** Time stamps

    [stamp] writes an instant as RFC 3339 with nanoseconds, the trailing
    zeros of the fraction removed; the tables store and order these
    strings. *)
Fixpoint zeros (n : nat) : string :=
  match n with O => "" | Datatypes.S n => ("0" +:+ zeros n)%string end.
Definition pad (width : nat) (z : Z) : string :=
  let s := pretty z in (zeros (width - String.length s) ++ s)%string.
Fixpoint strip_zeros (fuel : nat) (digits : nat) (n : Z) : nat * Z :=
  match fuel with
  | O => (digits, n)
  | Datatypes.S f => if n mod 10 =? 0 then strip_zeros f (pred digits) (n / 10) else (digits, n)
  end.
Definition nanos (n : Z) : string :=
  if n =? 0 then "" else
  let '(digits, n) := strip_zeros 9 9 n in ("." ++ pad digits n)%string.

Definition stamp (t : Z) : string :=
  let '(k, d) := civil (t / day + unix_epoch_days) in
  let tod := t mod day in
  (pad 4 (k / 12) ++ "-" ++ pad 2 (k mod 12 + 1) ++ "-" ++ pad 2 d ++ "T" ++
   pad 2 (tod / hour) ++ ":" ++ pad 2 (tod / minute mod 60) ++ ":" ++
   pad 2 (tod / second mod 60) ++ nanos (tod mod second) ++ "Z")%string.

Example stamp_epoch : stamp 0 = "1970-01-01T00:00:00Z".
Proof. vm_compute. reflexivity. Qed.
Example stamp_fraction : stamp (1700000000 * second + 120000000) = "2023-11-14T22:13:20.12Z".
Proof. vm_compute. reflexivity. Qed.
(** January 31st plus one month is the last day of February. *)
Example AddMonths_clamps :
  stamp (AddMonths (from_local (date (12 * 2024) 31) (3 * hour)) 1) = "2024-02-28T19:00:00Z".
Proof. vm_compute. reflexivity. Qed.
