(* ===== verification/Digest.v ===== *)
(** * Code digests (internal/commerce/lifecycle.go [digestCode])

    Redeem and referral codes are stored as the hexadecimal SHA-256 of the
    trimmed, upper-cased code.  SHA-256 (FIPS 180-4) is written out on
    32-bit words held in [Z], so that the operations on codes evaluate. *)

From S2P Require Import Prelude GoStrings.
From stdpp Require Import base strings list.
From Stdlib Require Import Ascii String.
Local Open Scope Z_scope.

Definition mask32 : Z := 4294967295.
Definition add32 (x y : Z) : Z := Z.land (x + y) mask32.
Definition rotr (n x : Z) : Z := Z.lor (Z.shiftr x n) (Z.land (Z.shiftl x (32 - n)) mask32).
Definition not32 (x : Z) : Z := Z.lxor x mask32.

Definition Ch (x y z : Z) : Z := Z.lxor (Z.land x y) (Z.land (not32 x) z).
Definition Maj (x y z : Z) : Z := Z.lxor (Z.lxor (Z.land x y) (Z.land x z)) (Z.land y z).
Definition Sigma0 (x : Z) : Z := Z.lxor (Z.lxor (rotr 2 x) (rotr 13 x)) (rotr 22 x).
Definition Sigma1 (x : Z) : Z := Z.lxor (Z.lxor (rotr 6 x) (rotr 11 x)) (rotr 25 x).
Definition sigma0 (x : Z) : Z := Z.lxor (Z.lxor (rotr 7 x) (rotr 18 x)) (Z.shiftr x 3).
Definition sigma1 (x : Z) : Z := Z.lxor (Z.lxor (rotr 17 x) (rotr 19 x)) (Z.shiftr x 10).

(** The constants are the first 32 bits of the fractional parts of the cube
    roots (rounds) and square roots (initial value) of the first primes. *)
Definition divides_none (l : list Z) (n : Z) : bool := forallb (fun p => negb (n mod p =? 0)) l.
Fixpoint primes (fuel : nat) (n : Z) (found : list Z) : list Z :=
  match fuel with
  | O => found
  | S fuel => primes fuel (n + 1) (if divides_none found n then found ++ [n] else found)%list
  end.
Fixpoint cube_root (bits : nat) (n r : Z) : Z :=
  match bits with
  | O => r
  | S b => let c := r + 2 ^ Z.of_nat b in cube_root b n (if c * c * c <=? n then c else r)
  end.
Definition round_constants : list Z :=
  Eval vm_compute in map (fun p => Z.land (cube_root 36 (p * 2 ^ 96) 0) mask32) (primes 310 2 []).

Definition initial_hash : list Z :=
  Eval vm_compute in map (fun p => Z.land (Z.sqrt (p * 2 ^ 64)) mask32) (take 8 (primes 310 2 [])).

(** The message schedule, last word first. *)
Fixpoint extend (n : nat) (w : list Z) : list Z :=
  match n with
  | O => w
  | S n => extend n
      (add32 (add32 (sigma1 (nth 1 w 0)) (nth 6 w 0)) (add32 (sigma0 (nth 14 w 0)) (nth 15 w 0)) :: w)
  end.

Definition step_round (h : list Z) (kw : Z * Z) : list Z :=
  match h with
  | [a; b; c; d; e; f; g; i] =>
      let t1 := add32 (add32 i (Sigma1 e)) (add32 (Ch e f g) (add32 kw.1 kw.2)) in
      let t2 := add32 (Sigma0 a) (Maj a b c) in
      [add32 t1 t2; a; b; c; add32 d t1; e; f; g]
  | _ => h
  end.

Definition compress (h block : list Z) : list Z :=
  let w := rev (extend 48 (rev block)) in
  zip_with add32 h (foldl step_round h (zip round_constants w)).

Fixpoint words (bytes : list Z) : list Z :=
  match bytes with
  | a :: b :: c :: d :: rest => (((a * 256 + b) * 256 + c) * 256 + d) :: words rest
  | _ => []
  end.

Definition be_bytes (n : nat) (x : Z) : list Z :=
  rev (map (fun i => Z.land (Z.shiftr x (8 * Z.of_nat i)) 255) (seq 0 n)).

Definition pad (bytes : list Z) : list Z :=
  let len := Z.of_nat (List.length bytes) in
  let zeros := Z.to_nat ((55 - len) mod 64) in
  (bytes ++ [128] ++ replicate zeros 0 ++ be_bytes 8 (8 * len))%list.

Fixpoint blocks (fuel : nat) (ws h : list Z) : list Z :=
  match fuel, ws with
  | S fuel, _ :: _ => blocks fuel (drop 16 ws) (compress h (take 16 ws))
  | _, _ => h
  end.

Definition bytes_of (s : string) : list Z :=
  map (fun c => Z.of_nat (nat_of_ascii c)) (list_ascii_of_string s).

Definition Sum256 (s : string) : list Z :=
  let ws := words (pad (bytes_of s)) in
  flat_map (be_bytes 4) (blocks (List.length ws) ws initial_hash).

Definition hex_digit (x : Z) : ascii :=
  ascii_of_nat (Z.to_nat (if x <? 10 then 48 + x else 87 + x)).
Definition EncodeToString (bytes : list Z) : string :=
  string_of_list_ascii (flat_map (fun b => [hex_digit (Z.shiftr b 4); hex_digit (Z.land b 15)]) bytes).

(** [strings.ToUpper] on the ASCII letters; the codes the panel issues are
    ASCII. *)
Definition upper (c : ascii) : ascii :=
  let n := nat_of_ascii c in
  if (97 <=? n)%nat && (n <=? 122)%nat then ascii_of_nat (n - 32) else c.
Definition ToUpper (s : string) : string :=
  string_of_list_ascii (map upper (list_ascii_of_string s)).

Definition digestCode (code : string) : string := EncodeToString (Sum256 (ToUpper (TrimSpace code))).

(** The published test vectors. *)
Example sha256_abc : EncodeToString (Sum256 "abc") =
  "ba7816bf8f01cfea414140de5dae2223b00361a396177a9cb410ff61f20015ad"%string.
Proof. vm_compute. reflexivity. Qed.
Example sha256_two_blocks :
  EncodeToString (Sum256 "abcdbcdecdefdefgefghfghighijhijkijkljklmklmnlmnomnopnopq") =
  "248d6a61d20638b8e5c026930c3e6039a33ce45964ff2167f6ecedd419db06c1"%string.
Proof. vm_compute. reflexivity. Qed.

Lemma upper_idem c : upper (upper c) = upper c.
Proof. destruct c as [[] [] [] [] [] [] [] []]; reflexivity. Qed.

(** Case does not matter to a code. *)
Lemma ToUpper_idem s : ToUpper (ToUpper s) = ToUpper s.
Proof.
  unfold ToUpper. rewrite list_ascii_of_string_of_list_ascii, map_map. f_equal.
  apply map_ext. exact upper_idem.
Qed.
