(* ===== verification/Money.v ===== *)
(** * Amounts of money (internal/contract/money.go)

    The panel's interfaces carry amounts in yuan as decimal strings; the
    ledger counts integer cents.  [ParseAmount] and [FormatAmount] are the
    only conversion between the two. *)

From S2P Require Import Prelude Tx GoStrings.
From stdpp Require Import base strings list.
From Stdlib Require Import Ascii String.
Local Open Scope string_scope.
Local Open Scope Z_scope.

Definition MaxAmountCents : Z := 1000000000000.
Definition maxAmountDigits : nat := 13.
Definition ErrAmount : error := ErrMsg "amount".

Fixpoint Repeat (s : string) (n : nat) : string :=
  match n with O => "" | S n => s ++ Repeat s n end.

Definition ParseAmount (v : string) : res Z :=
  let s := TrimSpace v in
  if String.eqb s "" then Err ErrAmount else
  let '(whole, frac, hasFrac) := Cut "." s in
  if hasFrac && (2 <? String.length frac)%nat then Err ErrAmount else
  if String.eqb whole "" || (maxAmountDigits <? String.length whole)%nat then Err ErrAmount else
  if negb (all_digits whole) then Err ErrAmount else
  if negb (all_digits frac) then Err ErrAmount else
  let frac := frac ++ Repeat "0" (2 - String.length frac) in
  match ParseInt whole with
  | None => Err ErrAmount
  | Some units =>
    match ParseInt frac with
    | None => Err ErrAmount
    | Some cents =>
      if MaxAmountCents / 100 <? units then Err ErrAmount else
      let total := units * 100 + cents in
      if MaxAmountCents <? total then Err ErrAmount else Ok total
    end
  end.

(** [cents/100] and [cents%100] are Go's truncated division; the negation
    of the smallest [int64] wraps. *)
Definition FormatAmount (cents : Z) : string :=
  let neg := cents <? 0 in
  let cents := if neg then wrap64 (- cents) else cents in
  let s := FormatInt (Z.quot cents 100) ++ "." ++ str_drop 1 (FormatInt (Z.rem cents 100 + 100)) in
  if neg then "-" ++ s else s.

(** ** Trimming does nothing to a string of digits and dots *)

Definition amount_char (c : ascii) : bool := is_digit c || Ascii.eqb c ".".
Fixpoint all_amount (s : string) : bool :=
  match s with "" => true | String c s => amount_char c && all_amount s end.

(** No white-space encoding starts, or ends, with such a character. *)
Definition starts_foreign (p : string) : bool :=
  match p with "" => false | String c _ => negb (amount_char c) end.

Lemma list_find_foreign (ps : list string) (s : string) :
  forallb starts_foreign ps = true -> all_amount s = true ->
  list_find (fun p => Is_true (has_prefix p s)) ps = None.
Proof.
  intros Hps Hs. apply list_find_None. rewrite Forall_forall. intros p Hp Hpre.
  apply list_elem_of_In in Hp. rewrite List.forallb_forall in Hps. specialize (Hps p Hp).
  destruct p as [|c p]; [done|]. destruct s as [|d s]; [done|]. simpl in *.
  apply Is_true_eq_true, andb_prop in Hpre as [Hcd _]. apply Ascii.eqb_eq in Hcd as ->.
  apply andb_prop in Hs as [Hd _]. rewrite Hd in Hps. done.
Qed.

Lemma trim_left_amount fuel ps s :
  forallb starts_foreign ps = true -> all_amount s = true -> trim_left fuel ps s = s.
Proof. intros Hps Hs. destruct fuel; simpl; [done|]. by rewrite list_find_foreign. Qed.

Lemma all_amount_app s s' : all_amount (s ++ s') = all_amount s && all_amount s'.
Proof. induction s as [|c s IH]; simpl; [done|]. by rewrite IH, andb_assoc. Qed.

Lemma all_amount_rev s : all_amount (rev_string s) = all_amount s.
Proof.
  induction s as [|c s IH]; simpl; [done|].
  rewrite all_amount_app, IH. simpl. rewrite andb_true_r. apply andb_comm.
Qed.

Lemma rev_string_app s s' : rev_string (s ++ s') = rev_string s' ++ rev_string s.
Proof.
  induction s as [|c s IH]; simpl; [by rewrite string_app_nil_r|].
  by rewrite IH, string_app_assoc.
Qed.

Lemma rev_string_invol s : rev_string (rev_string s) = s.
Proof. induction s as [|c s IH]; simpl; [done|]. by rewrite rev_string_app, IH. Qed.

Lemma TrimSpace_amount s : all_amount s = true -> TrimSpace s = s.
Proof.
  intros Hs. unfold TrimSpace. rewrite (trim_left_amount _ _ s) by done.
  rewrite trim_left_amount; [apply rev_string_invol|done|by rewrite all_amount_rev].
Qed.

Lemma all_digits_amount s : all_digits s = true -> all_amount s = true.
Proof.
  induction s as [|c s IH]; simpl; [done|]. intros [Hc Hs]%andb_prop.
  unfold amount_char. by rewrite Hc, IH.
Qed.

Lemma Cut_digits s s' : all_digits s = true -> Cut "." (s ++ String "." s') = (s, s', true).
Proof.
  induction s as [|c s IH]; intros Hs; simpl in *; [done|].
  apply andb_prop in Hs as [Hc Hs]. rewrite IH by done.
  destruct (Ascii.eqb c ".") eqn:E; [|done].
  apply Ascii.eqb_eq in E as ->. done.
Qed.

(** The two digits after the point. *)
Lemma two_digits n : 0 <= n < 100 ->
  str_drop 1 (FormatInt (n + 100)) =
    String (digit_char (n / 10)) (String (digit_char (n mod 10)) "").
Proof.
  intros Hn. unfold FormatInt. replace (n + 100 <? 0) with false by lia.
  assert (Hd : dec_digits 20 (n + 100) = String (digit_char 1)
    (String (digit_char (n / 10)) (String (digit_char (n mod 10)) ""))); [|by rewrite Hd].
  change (dec_digits 20 (n + 100)) with (
    if n + 100 <? 10 then String (digit_char (n + 100)) "" else
    (if (n + 100) / 10 <? 10 then String (digit_char ((n + 100) / 10)) "" else
     dec_digits 18 ((n + 100) / 10 / 10) ++ String (digit_char ((n + 100) / 10 mod 10)) "")
     ++ String (digit_char ((n + 100) mod 10)) "").
  replace (n + 100 <? 10) with false by lia.
  assert (E1 : (n + 100) / 10 = n / 10 + 10) by (Z.to_euclidean_division_equations; lia).
  assert (E2 : (n + 100) mod 10 = n mod 10) by (Z.to_euclidean_division_equations; lia).
  assert (0 <= n / 10 < 10) by (Z.to_euclidean_division_equations; lia).
  rewrite E1, E2. replace (n / 10 + 10 <? 10) with false by lia.
  replace ((n / 10 + 10) / 10) with 1 by (Z.to_euclidean_division_equations; lia).
  replace ((n / 10 + 10) mod 10) with (n / 10) by (Z.to_euclidean_division_equations; lia).
  done.
Qed.

Lemma FormatAmount_nonneg c : 0 <= c ->
  FormatAmount c = FormatInt (c / 100) ++ String "."
    (String (digit_char (c mod 100 / 10)) (String (digit_char (c mod 100 mod 10)) "")).
Proof.
  intros Hc. unfold FormatAmount. replace (c <? 0) with false by lia.
  cbv zeta. cbn match. rewrite Z.quot_div_nonneg, Z.rem_mod_nonneg by lia.
  rewrite two_digits; [done|]. apply Z.mod_pos_bound. lia.
Qed.

(** Every accepted amount lies between 0 and the limit. *)
Lemma ParseAmount_range v c : ParseAmount v = Ok c -> 0 <= c <= MaxAmountCents.
Proof.
  unfold ParseAmount. destruct (String.eqb _ ""); [done|].
  destruct (Cut "." _) as [[whole frac] hasFrac].
  destruct (_ && _); [done|]. destruct (_ || _); [done|].
  destruct (negb (all_digits whole)) eqn:Hw; [done|].
  destruct (negb (all_digits frac)) eqn:Hf; [done|]. bool_to_prop.
  set (frac' := frac ++ _).
  assert (Hnn : forall s n, ParseInt s = Some n -> 0 <= n).
  { intros s n. unfold ParseInt. destruct (_ || _) eqn:E; [done|]. bool_to_prop.
    pose proof (digits_val_bound s 0 H0 ltac:(lia)). destruct (_ <=? _); [|done].
    intros [= <-]. lia. }
  destruct (ParseInt whole) as [u|] eqn:E1; [|done]. apply Hnn in E1.
  destruct (ParseInt frac') as [f|] eqn:E2; [|done]. apply Hnn in E2.
  destruct (_ <? u); [done|]. destruct (MaxAmountCents <? _) eqn:E3; [done|].
  intros [= <-]. bool_to_prop. lia.
Qed.

(** What is formatted parses back to the same number of cents. *)
Lemma parse_format_amount c :
  0 <= c <= MaxAmountCents -> ParseAmount (FormatAmount c) = Ok c.
Proof.
  intros Hc. unfold MaxAmountCents in Hc.
  rewrite FormatAmount_nonneg by lia.
  set (w := FormatInt (c / 100)). set (d1 := digit_char _). set (d2 := digit_char _).
  assert (Hq : 0 <= c / 100 <= 10000000000) by (Z.to_euclidean_division_equations; lia).
  assert (Hr : 0 <= c mod 100 < 100) by (apply Z.mod_pos_bound; lia).
  assert (Hw : all_digits w = true /\ digits_val 0 w = c / 100 /\ w <> "" /\
               (String.length w <= 13)%nat).
  { unfold w, FormatInt. replace (c / 100 <? 0) with false by lia.
    destruct (dec_digits_spec 20 (c / 100)) as (?&?&?).
    - change (10 ^ Z.of_nat 20) with 100000000000000000000. lia.
    - lia.
    - repeat split; try done. apply dec_digits_length; [|lia].
      change (10 ^ Z.of_nat 13) with 10000000000000. lia. }
  destruct Hw as (Hw1 & Hw2 & Hw3 & Hw4). clearbody w.
  destruct (digit_char_spec (c mod 100 / 10)) as [D1 V1]; [Z.to_euclidean_division_equations; lia|].
  destruct (digit_char_spec (c mod 100 mod 10)) as [D2 V2]; [Z.to_euclidean_division_equations; lia|].
  fold d1 in D1, V1. fold d2 in D2, V2. clearbody d1 d2.
  unfold ParseAmount. rewrite TrimSpace_amount.
  2: { rewrite all_amount_app, (all_digits_amount w) by done. simpl.
       unfold amount_char. by rewrite D1, D2. }
  rewrite Cut_digits by done.
  replace (String.eqb (w ++ _) "") with false by (destruct w; done).
  replace (String.eqb w "") with false by (destruct w; done).
  replace (maxAmountDigits <? String.length w)%nat with false
    by (symmetry; apply Nat.ltb_ge; unfold maxAmountDigits; lia).
  cbn [String.length Nat.ltb Nat.leb andb orb].
  rewrite Hw1. cbn [all_digits]. rewrite D1, D2. cbn [andb negb Nat.sub Repeat].
  rewrite string_app_nil_r.
  unfold ParseInt at 1. rewrite Hw1, Hw2.
  replace (String.eqb w "") with false by (destruct w; done). cbn [orb negb].
  replace (c / 100 <=? MaxInt64) with true by (unfold MaxInt64; lia).
  unfold ParseInt. cbn [all_digits String.eqb orb]. rewrite D1, D2. cbn [andb negb digits_val].
  rewrite V1, V2.
  replace (_ <=? MaxInt64) with true by (unfold MaxInt64; Z.to_euclidean_division_equations; lia).
  change (MaxAmountCents / 100) with 10000000000.
  replace (10000000000 <? c / 100) with false by lia.
  replace (c / 100 * 100 + _) with c by (Z.to_euclidean_division_equations; lia).
  cbv zeta. replace (MaxAmountCents <? c) with false by (unfold MaxAmountCents; lia). done.
Qed.
