(* ===== verification/Rational.v ===== *)
(** * Rational multipliers

    The panel parses traffic multipliers, prices and quotas with
    [math/big]'s [Rat.SetString] and stores a multiplier as
    [Rat.RatString].  The syntax [SetString] accepts is large (fractions,
    decimals, exponents, base prefixes); the components that use it only
    rely on the laws below, so it is an interface.  [fraction_syntax] is
    an implementation for fractions and plain decimals, used to run
    concrete inputs. *)

From S2P Require Import Prelude GoStrings.
From stdpp Require Import base strings list.
From Stdlib Require Import Ascii String.
Local Open Scope string_scope.
Local Open Scope Z_scope.

(** A [big.Rat] is kept reduced: [Num()], [Denom()] with a positive
    denominator. *)
Class RatSyntax := {
  SetString : string -> option (Z * Z);
  RatString : Z * Z -> string;
  SetString_reduced s n d : SetString s = Some (n, d) -> 0 < d /\ Z.gcd n d = 1;
  SetString_RatString n d :
    0 < n -> 0 < d -> Z.gcd n d = 1 -> SetString (RatString (n, d)) = Some (n, d)
}.

(** ** Rounding a charge

    The panel charges [v] bytes at multiplier [n/d] as the ceiling of
    [v * n / d]; [big.Int.Quo] truncates, and all operands are
    non-negative. *)
Definition ceil_charge (v : Z) (m : Z * Z) : Z := Z.quot (v * m.1 + (m.2 - 1)) m.2.

Section Charge.
Context (n d : Z) (Hn : 0 < n) (Hd : 0 < d).

Lemma ceil_charge_div v : 0 <= v -> ceil_charge v (n, d) = (v * n + (d - 1)) / d.
Proof. intros. unfold ceil_charge. simpl. apply Z.quot_div_nonneg; nia. Qed.

Lemma ceil_charge_mono v w : 0 <= v <= w -> ceil_charge v (n, d) <= ceil_charge w (n, d).
Proof. intros. rewrite !ceil_charge_div by lia. apply Z.div_le_mono; nia. Qed.

Lemma ceil_charge_nonneg v : 0 <= v -> 0 <= ceil_charge v (n, d).
Proof. intros. rewrite ceil_charge_div by lia. apply Z.div_pos; nia. Qed.

Lemma ceil_charge_0 : ceil_charge 0 (n, d) = 0.
Proof. rewrite ceil_charge_div by lia. apply Z.div_small. lia. Qed.

(** A budget of [b] charged bytes covers every raw amount up to the
    quotient the panel grants for it. *)
Lemma ceil_charge_budget b v :
  0 <= b -> 0 <= v <= Z.quot (b * d) n -> ceil_charge v (n, d) <= b.
Proof.
  intros Hb Hv. rewrite Z.quot_div_nonneg in Hv by nia. rewrite ceil_charge_div by lia.
  apply Z.lt_succ_r, Z.div_lt_upper_bound; [lia|].
  assert (n * (b * d / n) <= b * d) by (apply Z.mul_div_le; lia). nia.
Qed.
End Charge.

(** ** An implementation *)

Definition print_nat (n : Z) : string := dec_digits (S (S (Z.to_nat (Z.log2 n)))) n.

Definition reduce (n d : Z) : Z * Z := let g := Z.gcd n d in (n / g, d / g).

Definition parse_nat (s : string) : option Z :=
  if String.eqb s "" || negb (all_digits s) then None else Some (digits_val 0 s).

Definition fraction_of (s : string) : option (Z * Z) :=
  let '(a, b, slash) := Cut "/" s in
  if slash then
    match parse_nat a, parse_nat b with
    | Some n, Some d => if d =? 0 then None else Some (reduce n d)
    | _, _ => None
    end
  else
    let '(w, f, dot) := Cut "." s in
    if dot then
      match parse_nat w, parse_nat f with
      | Some n, Some m =>
          let p := 10 ^ Z.of_nat (String.length f) in Some (reduce (n * p + m) p)
      | _, _ => None
      end
    else match parse_nat s with Some n => Some (n, 1) | None => None end.

Definition fraction_print (q : Z * Z) : string :=
  if q.2 =? 1 then print_nat q.1 else print_nat q.1 ++ String "/" (print_nat q.2).

Lemma print_nat_spec n : 0 <= n ->
  all_digits (print_nat n) = true /\ digits_val 0 (print_nat n) = n /\ print_nat n <> "".
Proof.
  intros Hn. apply dec_digits_spec; [|lia]. split; [done|].
  destruct (decide (n = 0)) as [->|]; [apply Z.pow_pos_nonneg; lia|].
  pose proof (Z.log2_nonneg n). pose proof (Z.log2_spec n ltac:(lia)) as [_ Hl].
  rewrite !Nat2Z.inj_succ, Z2Nat.id by lia.
  eapply Z.lt_le_trans; [exact Hl|].
  eapply Z.le_trans; [apply Z.pow_le_mono_l with (b := 10); lia|].
  apply Z.pow_le_mono_r; lia.
Qed.

Lemma parse_print_nat n : 0 <= n -> parse_nat (print_nat n) = Some n.
Proof.
  intros Hn. destruct (print_nat_spec n Hn) as (H1 & H2 & H3). unfold parse_nat.
  rewrite H1, H2. destruct (print_nat n); done.
Qed.

Lemma Cut_print c s s' :
  is_digit c = false -> all_digits s = true -> Cut c (s ++ String c s') = (s, s', true).
Proof.
  intros Hc. induction s as [|a s IH]; intros Hs.
  - simpl. rewrite Ascii.eqb_refl. done.
  - rewrite string_app_cons. simpl in *. apply andb_prop in Hs as [Ha Hs]. rewrite IH by done.
    destruct (Ascii.eqb a c) eqn:E; [|done]. apply Ascii.eqb_eq in E as ->. congruence.
Qed.

Lemma Cut_absent c s : is_digit c = false -> all_digits s = true -> Cut c s = (s, "", false).
Proof.
  intros Hc. induction s as [|a s IH]; intros Hs; simpl in *; [done|].
  apply andb_prop in Hs as [Ha Hs]. rewrite IH by done.
  destruct (Ascii.eqb a c) eqn:E; [|done]. apply Ascii.eqb_eq in E as ->. congruence.
Qed.

Lemma reduce_reduced n d : 0 < d -> 0 < (reduce n d).2 /\ Z.gcd (reduce n d).1 (reduce n d).2 = 1.
Proof.
  intros Hd. unfold reduce. cbn [fst snd].
  assert (Hg : 0 < Z.gcd n d).
  { pose proof (Z.gcd_nonneg n d). assert (Z.gcd n d <> 0); [|lia].
    intros [_ ->]%Z.gcd_eq_0. lia. }
  split.
  - destruct (Z.gcd_divide_r n d) as [q Hq]. rewrite Hq at 1. rewrite Z.div_mul by lia. nia.
  - apply Z.gcd_div_gcd; lia.
Qed.

#[export] Program Instance fraction_syntax : RatSyntax := {|
  SetString := fraction_of;
  RatString := fraction_print
|}.
Next Obligation.
  intros s n d. unfold fraction_of.
  destruct (Cut "/" s) as [[a b] []].
  - destruct (parse_nat a) as [x|]; [|done]. destruct (parse_nat b) as [y|] eqn:Ey; [|done].
    destruct (y =? 0) eqn:E0; [done|]. intros Hr. bool_to_prop.
    assert (Hy : 0 < y).
    { unfold parse_nat in Ey. destruct (_ || _) eqn:Eo; [done|]. injection Ey as <-.
      bool_to_prop. pose proof (digits_val_bound b 0 ltac:(done) ltac:(lia)). lia. }
    pose proof (reduce_reduced x y Hy) as Hrr. assert (reduce x y = (n, d)) as E by congruence.
    by rewrite E in Hrr.
  - destruct (Cut "." s) as [[w f] []].
    + destruct (parse_nat w) as [x|]; [|done]. destruct (parse_nat f) as [y|]; [|done].
      intros Hr.
      pose proof (reduce_reduced (x * 10 ^ Z.of_nat (String.length f) + y)
        (10 ^ Z.of_nat (String.length f)) ltac:(apply Z.pow_pos_nonneg; lia)) as Hrr.
      match type of Hrr with 0 < (?r).2 /\ _ => assert (r = (n, d)) as E by congruence end.
      by rewrite E in Hrr.
    + destruct (parse_nat s) as [x|]; [|done]. intros [= <- <-]. split; [lia|].
      apply Z.gcd_1_r.
Qed.
Next Obligation.
  intros n d Hn Hd Hg. unfold fraction_of, fraction_print. cbn [fst snd].
  destruct (print_nat_spec n ltac:(lia)) as (Hn1 & _ & _).
  destruct (d =? 1) eqn:E1; bool_to_prop.
  - rewrite !Cut_absent by done. rewrite parse_print_nat by lia. by subst d.
  - rewrite Cut_print by done. rewrite !parse_print_nat by lia.
    replace (d =? 0) with false by lia. unfold reduce. rewrite Hg, !Z.div_1_r. done.
Qed.

Example fraction_half : SetString "1.50" = Some (3, 2).
Proof. vm_compute. reflexivity. Qed.
