(* ===== verification/PlanRules.v ===== *)
(** * Plans: units, durations and validation
    (internal/commerce/duration.go, plan_units.go, plans.go, limits.go) *)

From S2P Require Import Prelude Tx GoStrings Calendar Rational.
From stdpp Require Import base strings list.
From Stdlib Require Import Ascii String.
Local Open Scope string_scope.
Local Open Scope Z_scope.

(** [contract.PlanLimits]; its only field is the number of rules. *)
Record PlanLimits := { MaxRules : Z }.

#[export] Instance PlanLimits_eq_dec : EqDecision PlanLimits.
Proof. solve_decision. Defined.

Definition PlanLimits_Validate (l : PlanLimits) : res unit :=
  if (MaxRules l <? 0) || (100000 <? MaxRules l) then Err (ErrMsg "invalid plan limits") else Ok tt.

Definition ruleOnlyLimits (l : PlanLimits) : PlanLimits := {| MaxRules := MaxRules l |}.

Record Plan := {
  P_Limits : PlanLimits;
  P_ID : string;
  P_Name : string;
  P_Price : Z;
  P_Quota : Z;
  P_PriceYuan : option string;
  P_QuotaGB : option string;
  P_Months : Z;
  P_DurationUnit : string;
  P_DurationValue : Z;
  P_Active : bool;
  P_Version : Z;
  P_Kind : string
}.

#[export] Instance Plan_eq_dec : EqDecision Plan.
Proof. solve_decision. Defined.

Definition with_duration (p : Plan) (unit : string) (value months : Z) : Plan :=
  {| P_Limits := P_Limits p; P_ID := P_ID p; P_Name := P_Name p; P_Price := P_Price p;
     P_Quota := P_Quota p; P_PriceYuan := P_PriceYuan p; P_QuotaGB := P_QuotaGB p;
     P_Months := months; P_DurationUnit := unit; P_DurationValue := value;
     P_Active := P_Active p; P_Version := P_Version p; P_Kind := P_Kind p |}.

Definition with_price (p : Plan) (price : Z) (yuan : option string) : Plan :=
  {| P_Limits := P_Limits p; P_ID := P_ID p; P_Name := P_Name p; P_Price := price;
     P_Quota := P_Quota p; P_PriceYuan := yuan; P_QuotaGB := P_QuotaGB p;
     P_Months := P_Months p; P_DurationUnit := P_DurationUnit p; P_DurationValue := P_DurationValue p;
     P_Active := P_Active p; P_Version := P_Version p; P_Kind := P_Kind p |}.

Definition with_quota (p : Plan) (quota : Z) (gb : option string) : Plan :=
  {| P_Limits := P_Limits p; P_ID := P_ID p; P_Name := P_Name p; P_Price := P_Price p;
     P_Quota := quota; P_PriceYuan := P_PriceYuan p; P_QuotaGB := gb;
     P_Months := P_Months p; P_DurationUnit := P_DurationUnit p; P_DurationValue := P_DurationValue p;
     P_Active := P_Active p; P_Version := P_Version p; P_Kind := P_Kind p |}.

Definition with_state (p : Plan) (id : string) (active : bool) (version : Z) (kind : string) : Plan :=
  {| P_Limits := P_Limits p; P_ID := id; P_Name := P_Name p; P_Price := P_Price p;
     P_Quota := P_Quota p; P_PriceYuan := P_PriceYuan p; P_QuotaGB := P_QuotaGB p;
     P_Months := P_Months p; P_DurationUnit := P_DurationUnit p; P_DurationValue := P_DurationValue p;
     P_Active := active; P_Version := version; P_Kind := kind |}.

(** ** Durations *)

(** The largest value of each unit, [None] for an unknown unit. *)
Definition duration_max (unit : string) : option Z :=
  if String.eqb unit "day" then Some 3650
  else if String.eqb unit "week" then Some 520
  else if String.eqb unit "month" then Some 120
  else if String.eqb unit "year" then Some 10
  else None.

Definition normalizePlanDuration (p : Plan) : res Plan :=
  if String.eqb (P_Kind p) "addon" then
    if negb (P_Months p =? 0) || negb (String.eqb (P_DurationUnit p) "")
       || negb (P_DurationValue p =? 0)
    then Err (ErrMsg "add-ons cannot set a duration") else Ok p
  else if negb (String.eqb (P_Kind p) "period") then Err (ErrMsg "invalid plan kind")
  else
    let '(unit, value) :=
      if String.eqb (P_DurationUnit p) "" && (P_DurationValue p =? 0)
      then ("month", P_Months p) else (P_DurationUnit p, P_DurationValue p) in
    match duration_max unit with
    | None => Err (ErrMsg "invalid plan duration unit")
    | Some max =>
        if (value <? 1) || (max <? value) then Err (ErrMsg "invalid plan duration value") else
        let months := if String.eqb unit "month" then value
                      else if String.eqb unit "year" then value * 12 else 0 in
        if negb (P_Months p =? 0) && negb (P_Months p =? months)
        then Err (ErrMsg "conflicting plan duration")
        else Ok (with_duration p unit value months)
    end.

Definition planExpiry (start : Z) (p : Plan) : res Z :=
  match normalizePlanDuration p with
  | Err e => Err e
  | Ok p =>
    if negb (String.eqb (P_Kind p) "period") then Err (ErrMsg "period plan required") else
    if String.eqb (P_DurationUnit p) "month" || String.eqb (P_DurationUnit p) "year"
    then Ok (AddMonths start (P_Months p))
    else
      let days := if String.eqb (P_DurationUnit p) "week"
                  then P_DurationValue p * 7 else P_DurationValue p in
      Ok (AddDays start days)
  end.

(** ** Human-facing units *)

Definition gigabyte : Z := 2 ^ 30.

Section Units.
Context {RS : RatSyntax}.

(** A reduced rational times a scale is an integer exactly when the
    denominator divides numerator times scale. *)
Definition scaledInteger (raw : string) (scale : Z) : res Z :=
  match SetString (TrimSpace raw) with
  | None => Err (ErrMsg "invalid decimal")
  | Some (n, d) =>
      if n <? 0 then Err (ErrMsg "invalid decimal") else
      if negb ((n * scale) mod d =? 0) || negb (n * scale / d <=? MaxInt64)
      then Err (ErrMsg "decimal precision exceeds storage unit")
      else Ok (n * scale / d)
  end.

Definition applyPlanUnits (p : Plan) : res Plan :=
  match (match P_PriceYuan p with
         | Some y => match scaledInteger y 100 with
                     | Err _ => Err (ErrMsg "invalid plan price")
                     | Ok v => Ok (with_price p v None)
                     end
         | None => Ok p
         end) with
  | Err e => Err e
  | Ok p =>
      match P_QuotaGB p with
      | None => Ok p
      | Some g =>
          let raw := TrimSpace g in
          if String.eqb raw "" then Ok (with_quota p 0 None)
          else match scaledInteger raw gigabyte with
               | Err _ => Err (ErrMsg "invalid plan quota")
               | Ok v => Ok (with_quota p v None)
               end
      end
  end.

(** The conversion is exact: a stored amount is the rational written,
    times the scale, and never negative. *)
Lemma scaledInteger_exact raw scale v :
  0 < scale -> scaledInteger raw scale = Ok v ->
  exists n d, SetString (TrimSpace raw) = Some (n, d) /\ n * scale = v * d /\ 0 <= v <= MaxInt64.
Proof.
  intros Hs. unfold scaledInteger. destruct (SetString (TrimSpace raw)) as [[n d]|] eqn:E; [|done].
  pose proof (SetString_reduced _ _ _ E) as [Hd _].
  destruct (n <? 0) eqn:En; [done|].
  destruct (negb _ || negb _) eqn:Eo; [done|]. bool_to_prop. intros [= <-].
  exists n, d. split; [done|]. split.
  - pose proof (Z.div_mod (n * scale) d ltac:(lia)). nia.
  - split; [apply Z.div_pos; nia|done].
Qed.
End Units.

Definition validatePlan (p : Plan) : res unit :=
  let limits := ruleOnlyLimits (P_Limits p) in
  match PlanLimits_Validate limits with
  | Err e => Err e
  | Ok _ =>
    if String.eqb (P_Kind p) "addon" && negb (bool_decide (limits = {| MaxRules := 0 |}))
    then Err (ErrMsg "add-ons cannot change limits") else
    if String.eqb (TrimSpace (P_Name p)) "" || (200 <? Z.of_nat (String.length (P_Name p)))
       || (P_Price p <=? 0) || (100000000 <? P_Price p) || (P_Quota p <? 0)
    then Err (ErrMsg "invalid plan")
    else match normalizePlanDuration p with Err e => Err e | Ok _ => Ok tt end
  end.

(** ** Properties *)

Lemma duration_max_known unit max :
  duration_max unit = Some max ->
  (unit = "day" /\ max = 3650) \/ (unit = "week" /\ max = 520)
  \/ (unit = "month" /\ max = 120) \/ (unit = "year" /\ max = 10).
Proof.
  unfold duration_max. intros Hmax.
  repeat match type of Hmax with context [String.eqb unit ?u] => destruct (String.eqb unit u) eqn:? end;
    bool_to_prop; simplify_eq; auto.
Qed.

(** What a normalised period plan looks like: a known unit, a value within
    the ten-year range, and [Months] derived from it. *)
Lemma normalize_period p q :
  normalizePlanDuration p = Ok q -> P_Kind q = "period" ->
  P_Kind p = "period" /\
  exists max, duration_max (P_DurationUnit q) = Some max /\ 1 <= P_DurationValue q <= max /\
  P_Months q = (if String.eqb (P_DurationUnit q) "month" then P_DurationValue q
                else if String.eqb (P_DurationUnit q) "year" then P_DurationValue q * 12 else 0).
Proof.
  unfold normalizePlanDuration.
  destruct (String.eqb (P_Kind p) "addon") eqn:Ea; bool_to_prop.
  { destruct (_ || _); [done|]. intros [= <-] Hk. congruence. }
  destruct (negb _) eqn:Ep; [done|]. bool_to_prop.
  destruct (if _ && _ then _ else _) as [unit value].
  destruct (duration_max unit) as [max|] eqn:Em; [|done].
  destruct (_ || _) eqn:Ev; [done|].
  destruct (_ && _) eqn:Ec; [done|]. intros [= <-] _. bool_to_prop.
  split; [done|]. exists max. simpl. auto with lia.
Qed.

(** Normalising twice changes nothing more: stored plans are read back
    through the same function. *)
Lemma normalize_idempotent p q :
  normalizePlanDuration p = Ok q -> normalizePlanDuration q = Ok q.
Proof.
  unfold normalizePlanDuration at 1.
  destruct (String.eqb (P_Kind p) "addon") eqn:Ea.
  { destruct (_ || _) eqn:Eo; [done|]. intros [= <-]. unfold normalizePlanDuration. by rewrite Ea, Eo. }
  destruct (negb (String.eqb (P_Kind p) "period")) eqn:Ep; [done|].
  destruct (if _ && _ then _ else _) as [unit value].
  destruct (duration_max unit) as [max|] eqn:Em; [|done].
  destruct (_ || _) eqn:Ev; [done|]. cbv zeta.
  set (months := if String.eqb unit "month" then _ else _).
  destruct (_ && _) eqn:Ec; [done|]. intros [= <-].
  unfold normalizePlanDuration, with_duration; simpl. rewrite Ea, Ep.
  assert (Hv : (value =? 0) = false) by (bool_to_prop; lia).
  rewrite Hv, andb_false_r, Em, Ev. fold months. rewrite Z.eqb_refl, andb_false_r. done.
Qed.

(** An accepted period ends after it starts, and at most ten years and
    about four months later (twelve times ten months of 31 days). *)
Lemma planExpiry_bounds start p e :
  planExpiry start p = Ok e -> start < e <= start + 3751 * day.
Proof.
  unfold planExpiry. destruct (normalizePlanDuration p) as [q|] eqn:En; [|done].
  destruct (negb _) eqn:Ek; [done|]. bool_to_prop.
  destruct (normalize_period p q En Ek) as (_ & max & Hmax & Hv & Hm).
  assert (Hday : 0 < day) by done.
  apply duration_max_known in Hmax.
  assert (Hmonths : forall n, 1 <= n <= 120 -> start < AddMonths start n <= start + 3751 * day).
  { intros n Hn. pose proof (AddMonths_bounds start n ltac:(lia)).
    generalize dependent day. intros. nia. }
  assert (Hdays : forall n, 1 <= n <= 3650 -> start < AddDays start n <= start + 3751 * day).
  { intros n Hn. rewrite AddDays_eq. generalize dependent day. intros. nia. }
  destruct Hmax as [[Hu ->]|[[Hu ->]|[[Hu ->]|[Hu ->]]]]; rewrite Hu in Hm |- *;
    cbn [String.eqb Ascii.eqb Bool.eqb orb] in Hm |- *; intros He; injection He as <-;
    [apply Hdays|apply Hdays|apply Hmonths|apply Hmonths]; clear - Hm Hv; lia.
Qed.

(** A plan the panel stores has a positive price of at most a million yuan
    and a non-negative quota. *)
Lemma validatePlan_bounds p :
  validatePlan p = Ok tt ->
  0 < P_Price p <= 100000000 /\ 0 <= P_Quota p /\ 0 <= MaxRules (P_Limits p) <= 100000.
Proof.
  unfold validatePlan, PlanLimits_Validate. simpl.
  destruct (_ || _) eqn:E1; [done|]. destruct (_ && _); [done|].
  destruct (_ || _ || _ || _ || _) eqn:E2; [done|]. bool_to_prop. lia.
Qed.
