(* ===== verification/Schema.v ===== *)
(** * The commerce database

    One finite map per SQL table of internal/commerce (the [CREATE TABLE]
    statements of service.go, lifecycle.go, funding.go, limits.go,
    accounts.go, events.go and reconciliation.go), the account table
    [cp_users] and the columns of [cp_rules] and [cp_nodes] that account
    changes read and write, keyed by the primary key; a row is a record of the other
    columns.  A time column holds the instant itself; the strings the
    program stores are [stamp] of it.  A JSON column holds the value that
    was encoded.

    [INSERT] refuses a duplicate primary key and a duplicate of a unique
    constraint ([t_clash]); [UPDATE] changes at most the row of its key and
    reports whether it matched. *)

From S2P Require Import Prelude Tx GoStrings Calendar Rational PlanRules.
From stdpp Require Import base gmap strings list sorting.
From Stdlib Require Import Ascii String.
Local Open Scope string_scope.
Local Open Scope Z_scope.

(** ** Rows *)

Record Entitlement := {
  E_Limits : PlanLimits;
  E_ID : string;
  E_UserID : string;
  E_PlanID : string;
  E_Version : Z;
  E_StartsAt : Z;
  E_ExpiresAt : Z;
  E_Quota : Z;
  E_Used : Z
}.

Record UsageRecord := {
  U_ID : string;
  U_NodeID : string;
  U_RuleID : string;
  U_LeaseID : string;
  U_EntitlementID : string;
  U_StartedAt : Z;
  U_EndedAt : Z;
  U_UploadBytes : Z;
  U_DownloadBytes : Z;
  U_Kind : string;
  U_WindowID : string;
  U_WindowSequence : Z
}.

#[export] Instance Entitlement_eq_dec : EqDecision Entitlement.
Proof. solve_decision. Defined.
#[export] Instance UsageRecord_eq_dec : EqDecision UsageRecord.
Proof. solve_decision. Defined.

Record wallet_row := {
  w_balance : Z;
  w_version : Z
}.

Record ledger_row := {
  l_user : string;
  l_amount : Z;
  l_balance : Z;
  l_kind : string;
  l_reference : string;
  l_created : Z
}.

Record source_row := {
  f_user : string;
  f_order : string;
  f_amount : Z;
  f_remaining : Z;
  f_created : Z
}.

Record alloc_row := {
  a_amount : Z;
  a_restored : Z
}.

Record ent_row := {
  e_user : string;
  e_plan : string;
  e_version : Z;
  e_starts : Z;
  e_expires : Z;
  e_quota : Z;
  e_used : Z;
  e_allocated : Z
}.

Record plan_row := {
  pl_name : string;
  pl_price : Z;
  pl_quota : Z;
  pl_months : Z;
  pl_unit : string;
  pl_value : Z
}.

Record plan_state_row := {
  st_active : bool;
  st_version : Z;
  st_kind : string;
  st_updated : Z
}.

Record purchase_row := {
  pu_plan : string;
  pu_expected : Z;
  pu_ent : string
}.

Record snapshot_row := {
  ps_user : string;
  ps_plan_version : Z;
  ps_payload : Plan;
  ps_created : Z
}.

Record addon_row := {
  ap_user : string;
  ap_key : string;
  ap_plan : string;
  ap_expected : Z;
  ap_plan_version : Z;
  ap_ent : string;
  ap_payload : Plan;
  ap_result : Entitlement;
  ap_created : Z
}.

Record order_row := {
  o_user : string;
  o_channel : string;
  o_amount : Z;
  o_payable : Z;
  o_status : string;
  o_url : string;
  o_created : Z;
  o_key : string;
  o_tx : option string
}.

Record attempt_row := {
  at_state : string;
  at_provider : string;
  at_updated : Z
}.

Record lease_row := {
  le_user : string;
  le_node : string;
  le_rule : string;
  le_ent : string;
  le_expires : Z;
  le_bytes : Z;
  le_used : Z;
  le_mult : string
}.

Record reservation_row := {
  rs_budget : Z;
  rs_closed : Z
}.

Record usage_row := {
  us_lease : string;
  us_payload : UsageRecord;
  us_charged : Z
}.

Record refund_row := {
  rf_order : string;
  rf_user : string;
  rf_amount : Z;
  rf_status : string;
  rf_reason : string;
  rf_actor : string;
  rf_key : string;
  rf_evidence : string;
  rf_resolved_by : string;
  rf_created : Z;
  rf_updated : Z
}.

Record purchase_refund_row := {
  pr_user : string;
  pr_purchase : string;
  pr_amount : Z;
  pr_removed : Z;
  pr_actor : string;
  pr_reason : string;
  pr_key : string;
  pr_created : Z
}.

Record redeem_row := {
  rc_hint : string;
  rc_amount : Z;
  rc_plan : string;
  rc_max : Z;
  rc_used : Z;
  rc_expires : option Z;
  rc_enabled : bool;
  rc_created : Z
}.

Record claim_row := {
  rl_amount : Z;
  rl_plan : string;
  rl_ent : option string;
  rl_created : Z
}.

Record renew_row := {
  ar_enabled : bool;
  ar_plan : string;
  ar_next : Z;
  ar_error : string;
  ar_updated : Z
}.

Record referral_code_row := {
  rr_owner : string;
  rr_hint : string;
  rr_created : Z
}.

Record binding_row := {
  b_inviter : string;
  b_code : string;
  b_created : Z
}.

Record commission_row := {
  c_inviter : string;
  c_invitee : string;
  c_source : string;
  c_amount : Z;
  c_status : string;
  c_created : Z
}.

Record adjustment_row := {
  ca_commission : string;
  ca_action : string;
  ca_actor : string;
  ca_reason : string;
  ca_created : Z
}.

Record admin_row := {
  ad_user : string;
  ad_actor : string;
  ad_kind : string;
  ad_amount : Z;
  ad_rules : option Z;
  ad_key : string;
  ad_reason : string;
  ad_created : Z
}.

Record rule_limit_row := {
  ul_max : Z;
  ul_actor : string;
  ul_reason : string;
  ul_updated : Z
}.

Record event_row := {
  ev_user : string;
  ev_kind : string;
  ev_data : list (string * string);
  ev_created : Z
}.

(** A subscription with its rows of commerce_webhook_settings and
    commerce_notification_formats, which are written with it. *)
Record webhook_row := {
  wh_user : string;
  wh_url : string;
  wh_secret : string;
  wh_events : string;
  wh_enabled : bool;
  wh_format : string;
  wh_muted_until : Z;
  wh_version : Z;
  wh_admin : bool
}.

Record delivery_row := {
  dl_attempts : Z;
  dl_next : Z;
  dl_error : string;
  dl_delivered : option string
}.

Record reconcile_row := {
  rk_attempts : Z;
  rk_next : Z
}.

Record user_row := {
  u_disabled : bool;
  u_role : string
}.

Record rule_row := {
  ru_user : string;
  ru_node : string;
  ru_deleted : bool
}.

(** ** The database *)

Record DB := {
  wallets : gmap string wallet_row;
  ledger : gmap string ledger_row;
  fund_accounts : gmap string unit;
  fund_sources : gmap string source_row;
  fund_allocs : gmap (string * string) alloc_row;
  entitlements : gmap string ent_row;
  ent_limits : gmap string PlanLimits;
  plans : gmap string plan_row;
  plan_states : gmap string plan_state_row;
  plan_limits : gmap string PlanLimits;
  purchases : gmap (string * string) purchase_row;
  snapshots : gmap string snapshot_row;
  addons : gmap string addon_row;
  orders : gmap string order_row;
  attempts : gmap string attempt_row;
  leases : gmap string lease_row;
  reservations : gmap string reservation_row;
  usage : gmap string usage_row;
  refunds : gmap string refund_row;
  purchase_refunds : gmap string purchase_refund_row;
  redeem_codes : gmap string redeem_row;
  redeem_claims : gmap (string * string) claim_row;
  auto_renew : gmap string renew_row;
  referral_policy : gmap Z Z;
  referral_codes : gmap string referral_code_row;
  referral_bindings : gmap string binding_row;
  commissions : gmap string commission_row;
  commission_refunds : gmap string Z;
  commission_adjustments : gmap string adjustment_row;
  admin_adjustments : gmap string admin_row;
  rule_limits : gmap string rule_limit_row;
  events : gmap string event_row;
  webhooks : gmap string webhook_row;
  deliveries : gmap (string * string) delivery_row;
  reconciliation : gmap string reconcile_row;
  cp_users : gmap string user_row;
  cp_rules : gmap string rule_row;
  cp_nodes : gmap string Z
}.

Definition empty_db : DB := {|
  wallets := ∅;
  ledger := ∅;
  fund_accounts := ∅;
  fund_sources := ∅;
  fund_allocs := ∅;
  entitlements := ∅;
  ent_limits := ∅;
  plans := ∅;
  plan_states := ∅;
  plan_limits := ∅;
  purchases := ∅;
  snapshots := ∅;
  addons := ∅;
  orders := ∅;
  attempts := ∅;
  leases := ∅;
  reservations := ∅;
  usage := ∅;
  refunds := ∅;
  purchase_refunds := ∅;
  redeem_codes := ∅;
  redeem_claims := ∅;
  auto_renew := ∅;
  referral_policy := ∅;
  referral_codes := ∅;
  referral_bindings := ∅;
  commissions := ∅;
  commission_refunds := ∅;
  commission_adjustments := ∅;
  admin_adjustments := ∅;
  rule_limits := ∅;
  events := ∅;
  webhooks := ∅;
  deliveries := ∅;
  reconciliation := ∅;
  cp_users := ∅;
  cp_rules := ∅;
  cp_nodes := ∅
|}.

(** ** Tables *)

Record Table (K R : Type) `{Countable K} := {
  t_get : DB -> gmap K R;
  t_set : (gmap K R -> gmap K R) -> DB -> DB;
  t_clash : R -> R -> bool
}.
Arguments t_get {K R _ _} t d : simpl nomatch.
Arguments t_set {K R _ _} t f d : simpl nomatch.
Arguments t_clash {K R _ _} t r r'.

(** [commerce_wallets] *)
Definition Wallets : Table string wallet_row := {|
  t_get := wallets;
  t_set := fun f d => {| wallets := f (wallets d); ledger := ledger d; fund_accounts := fund_accounts d; fund_sources := fund_sources d; fund_allocs := fund_allocs d; entitlements := entitlements d; ent_limits := ent_limits d; plans := plans d; plan_states := plan_states d; plan_limits := plan_limits d; purchases := purchases d; snapshots := snapshots d; addons := addons d; orders := orders d; attempts := attempts d; leases := leases d; reservations := reservations d; usage := usage d; refunds := refunds d; purchase_refunds := purchase_refunds d; redeem_codes := redeem_codes d; redeem_claims := redeem_claims d; auto_renew := auto_renew d; referral_policy := referral_policy d; referral_codes := referral_codes d; referral_bindings := referral_bindings d; commissions := commissions d; commission_refunds := commission_refunds d; commission_adjustments := commission_adjustments d; admin_adjustments := admin_adjustments d; rule_limits := rule_limits d; events := events d; webhooks := webhooks d; deliveries := deliveries d; reconciliation := reconciliation d; cp_users := cp_users d; cp_rules := cp_rules d; cp_nodes := cp_nodes d |};
  t_clash := fun _ _ => false
|}.

(** [commerce_ledger] *)
Definition Ledger : Table string ledger_row := {|
  t_get := ledger;
  t_set := fun f d => {| wallets := wallets d; ledger := f (ledger d); fund_accounts := fund_accounts d; fund_sources := fund_sources d; fund_allocs := fund_allocs d; entitlements := entitlements d; ent_limits := ent_limits d; plans := plans d; plan_states := plan_states d; plan_limits := plan_limits d; purchases := purchases d; snapshots := snapshots d; addons := addons d; orders := orders d; attempts := attempts d; leases := leases d; reservations := reservations d; usage := usage d; refunds := refunds d; purchase_refunds := purchase_refunds d; redeem_codes := redeem_codes d; redeem_claims := redeem_claims d; auto_renew := auto_renew d; referral_policy := referral_policy d; referral_codes := referral_codes d; referral_bindings := referral_bindings d; commissions := commissions d; commission_refunds := commission_refunds d; commission_adjustments := commission_adjustments d; admin_adjustments := admin_adjustments d; rule_limits := rule_limits d; events := events d; webhooks := webhooks d; deliveries := deliveries d; reconciliation := reconciliation d; cp_users := cp_users d; cp_rules := cp_rules d; cp_nodes := cp_nodes d |};
  t_clash := fun r r' => String.eqb (l_reference r) (l_reference r')
|}.

(** [commerce_fund_accounts] *)
Definition FundAccounts : Table string unit := {|
  t_get := fund_accounts;
  t_set := fun f d => {| wallets := wallets d; ledger := ledger d; fund_accounts := f (fund_accounts d); fund_sources := fund_sources d; fund_allocs := fund_allocs d; entitlements := entitlements d; ent_limits := ent_limits d; plans := plans d; plan_states := plan_states d; plan_limits := plan_limits d; purchases := purchases d; snapshots := snapshots d; addons := addons d; orders := orders d; attempts := attempts d; leases := leases d; reservations := reservations d; usage := usage d; refunds := refunds d; purchase_refunds := purchase_refunds d; redeem_codes := redeem_codes d; redeem_claims := redeem_claims d; auto_renew := auto_renew d; referral_policy := referral_policy d; referral_codes := referral_codes d; referral_bindings := referral_bindings d; commissions := commissions d; commission_refunds := commission_refunds d; commission_adjustments := commission_adjustments d; admin_adjustments := admin_adjustments d; rule_limits := rule_limits d; events := events d; webhooks := webhooks d; deliveries := deliveries d; reconciliation := reconciliation d; cp_users := cp_users d; cp_rules := cp_rules d; cp_nodes := cp_nodes d |};
  t_clash := fun _ _ => false
|}.

(** [commerce_fund_sources] *)
Definition FundSources : Table string source_row := {|
  t_get := fund_sources;
  t_set := fun f d => {| wallets := wallets d; ledger := ledger d; fund_accounts := fund_accounts d; fund_sources := f (fund_sources d); fund_allocs := fund_allocs d; entitlements := entitlements d; ent_limits := ent_limits d; plans := plans d; plan_states := plan_states d; plan_limits := plan_limits d; purchases := purchases d; snapshots := snapshots d; addons := addons d; orders := orders d; attempts := attempts d; leases := leases d; reservations := reservations d; usage := usage d; refunds := refunds d; purchase_refunds := purchase_refunds d; redeem_codes := redeem_codes d; redeem_claims := redeem_claims d; auto_renew := auto_renew d; referral_policy := referral_policy d; referral_codes := referral_codes d; referral_bindings := referral_bindings d; commissions := commissions d; commission_refunds := commission_refunds d; commission_adjustments := commission_adjustments d; admin_adjustments := admin_adjustments d; rule_limits := rule_limits d; events := events d; webhooks := webhooks d; deliveries := deliveries d; reconciliation := reconciliation d; cp_users := cp_users d; cp_rules := cp_rules d; cp_nodes := cp_nodes d |};
  t_clash := fun _ _ => false
|}.

(** [commerce_fund_allocations] *)
Definition FundAllocs : Table (string * string) alloc_row := {|
  t_get := fund_allocs;
  t_set := fun f d => {| wallets := wallets d; ledger := ledger d; fund_accounts := fund_accounts d; fund_sources := fund_sources d; fund_allocs := f (fund_allocs d); entitlements := entitlements d; ent_limits := ent_limits d; plans := plans d; plan_states := plan_states d; plan_limits := plan_limits d; purchases := purchases d; snapshots := snapshots d; addons := addons d; orders := orders d; attempts := attempts d; leases := leases d; reservations := reservations d; usage := usage d; refunds := refunds d; purchase_refunds := purchase_refunds d; redeem_codes := redeem_codes d; redeem_claims := redeem_claims d; auto_renew := auto_renew d; referral_policy := referral_policy d; referral_codes := referral_codes d; referral_bindings := referral_bindings d; commissions := commissions d; commission_refunds := commission_refunds d; commission_adjustments := commission_adjustments d; admin_adjustments := admin_adjustments d; rule_limits := rule_limits d; events := events d; webhooks := webhooks d; deliveries := deliveries d; reconciliation := reconciliation d; cp_users := cp_users d; cp_rules := cp_rules d; cp_nodes := cp_nodes d |};
  t_clash := fun _ _ => false
|}.

(** [commerce_entitlements] *)
Definition Entitlements : Table string ent_row := {|
  t_get := entitlements;
  t_set := fun f d => {| wallets := wallets d; ledger := ledger d; fund_accounts := fund_accounts d; fund_sources := fund_sources d; fund_allocs := fund_allocs d; entitlements := f (entitlements d); ent_limits := ent_limits d; plans := plans d; plan_states := plan_states d; plan_limits := plan_limits d; purchases := purchases d; snapshots := snapshots d; addons := addons d; orders := orders d; attempts := attempts d; leases := leases d; reservations := reservations d; usage := usage d; refunds := refunds d; purchase_refunds := purchase_refunds d; redeem_codes := redeem_codes d; redeem_claims := redeem_claims d; auto_renew := auto_renew d; referral_policy := referral_policy d; referral_codes := referral_codes d; referral_bindings := referral_bindings d; commissions := commissions d; commission_refunds := commission_refunds d; commission_adjustments := commission_adjustments d; admin_adjustments := admin_adjustments d; rule_limits := rule_limits d; events := events d; webhooks := webhooks d; deliveries := deliveries d; reconciliation := reconciliation d; cp_users := cp_users d; cp_rules := cp_rules d; cp_nodes := cp_nodes d |};
  t_clash := fun r r' => String.eqb (e_user r) (e_user r') && (e_version r =? e_version r')
|}.

(** [commerce_entitlement_limits] *)
Definition EntLimits : Table string PlanLimits := {|
  t_get := ent_limits;
  t_set := fun f d => {| wallets := wallets d; ledger := ledger d; fund_accounts := fund_accounts d; fund_sources := fund_sources d; fund_allocs := fund_allocs d; entitlements := entitlements d; ent_limits := f (ent_limits d); plans := plans d; plan_states := plan_states d; plan_limits := plan_limits d; purchases := purchases d; snapshots := snapshots d; addons := addons d; orders := orders d; attempts := attempts d; leases := leases d; reservations := reservations d; usage := usage d; refunds := refunds d; purchase_refunds := purchase_refunds d; redeem_codes := redeem_codes d; redeem_claims := redeem_claims d; auto_renew := auto_renew d; referral_policy := referral_policy d; referral_codes := referral_codes d; referral_bindings := referral_bindings d; commissions := commissions d; commission_refunds := commission_refunds d; commission_adjustments := commission_adjustments d; admin_adjustments := admin_adjustments d; rule_limits := rule_limits d; events := events d; webhooks := webhooks d; deliveries := deliveries d; reconciliation := reconciliation d; cp_users := cp_users d; cp_rules := cp_rules d; cp_nodes := cp_nodes d |};
  t_clash := fun _ _ => false
|}.

(** [commerce_plans] *)
Definition Plans : Table string plan_row := {|
  t_get := plans;
  t_set := fun f d => {| wallets := wallets d; ledger := ledger d; fund_accounts := fund_accounts d; fund_sources := fund_sources d; fund_allocs := fund_allocs d; entitlements := entitlements d; ent_limits := ent_limits d; plans := f (plans d); plan_states := plan_states d; plan_limits := plan_limits d; purchases := purchases d; snapshots := snapshots d; addons := addons d; orders := orders d; attempts := attempts d; leases := leases d; reservations := reservations d; usage := usage d; refunds := refunds d; purchase_refunds := purchase_refunds d; redeem_codes := redeem_codes d; redeem_claims := redeem_claims d; auto_renew := auto_renew d; referral_policy := referral_policy d; referral_codes := referral_codes d; referral_bindings := referral_bindings d; commissions := commissions d; commission_refunds := commission_refunds d; commission_adjustments := commission_adjustments d; admin_adjustments := admin_adjustments d; rule_limits := rule_limits d; events := events d; webhooks := webhooks d; deliveries := deliveries d; reconciliation := reconciliation d; cp_users := cp_users d; cp_rules := cp_rules d; cp_nodes := cp_nodes d |};
  t_clash := fun _ _ => false
|}.

(** [commerce_plan_states] *)
Definition PlanStates : Table string plan_state_row := {|
  t_get := plan_states;
  t_set := fun f d => {| wallets := wallets d; ledger := ledger d; fund_accounts := fund_accounts d; fund_sources := fund_sources d; fund_allocs := fund_allocs d; entitlements := entitlements d; ent_limits := ent_limits d; plans := plans d; plan_states := f (plan_states d); plan_limits := plan_limits d; purchases := purchases d; snapshots := snapshots d; addons := addons d; orders := orders d; attempts := attempts d; leases := leases d; reservations := reservations d; usage := usage d; refunds := refunds d; purchase_refunds := purchase_refunds d; redeem_codes := redeem_codes d; redeem_claims := redeem_claims d; auto_renew := auto_renew d; referral_policy := referral_policy d; referral_codes := referral_codes d; referral_bindings := referral_bindings d; commissions := commissions d; commission_refunds := commission_refunds d; commission_adjustments := commission_adjustments d; admin_adjustments := admin_adjustments d; rule_limits := rule_limits d; events := events d; webhooks := webhooks d; deliveries := deliveries d; reconciliation := reconciliation d; cp_users := cp_users d; cp_rules := cp_rules d; cp_nodes := cp_nodes d |};
  t_clash := fun _ _ => false
|}.

(** [commerce_plan_limits] *)
Definition PlanLimitsT : Table string PlanLimits := {|
  t_get := plan_limits;
  t_set := fun f d => {| wallets := wallets d; ledger := ledger d; fund_accounts := fund_accounts d; fund_sources := fund_sources d; fund_allocs := fund_allocs d; entitlements := entitlements d; ent_limits := ent_limits d; plans := plans d; plan_states := plan_states d; plan_limits := f (plan_limits d); purchases := purchases d; snapshots := snapshots d; addons := addons d; orders := orders d; attempts := attempts d; leases := leases d; reservations := reservations d; usage := usage d; refunds := refunds d; purchase_refunds := purchase_refunds d; redeem_codes := redeem_codes d; redeem_claims := redeem_claims d; auto_renew := auto_renew d; referral_policy := referral_policy d; referral_codes := referral_codes d; referral_bindings := referral_bindings d; commissions := commissions d; commission_refunds := commission_refunds d; commission_adjustments := commission_adjustments d; admin_adjustments := admin_adjustments d; rule_limits := rule_limits d; events := events d; webhooks := webhooks d; deliveries := deliveries d; reconciliation := reconciliation d; cp_users := cp_users d; cp_rules := cp_rules d; cp_nodes := cp_nodes d |};
  t_clash := fun _ _ => false
|}.

(** [commerce_purchases] *)
Definition Purchases : Table (string * string) purchase_row := {|
  t_get := purchases;
  t_set := fun f d => {| wallets := wallets d; ledger := ledger d; fund_accounts := fund_accounts d; fund_sources := fund_sources d; fund_allocs := fund_allocs d; entitlements := entitlements d; ent_limits := ent_limits d; plans := plans d; plan_states := plan_states d; plan_limits := plan_limits d; purchases := f (purchases d); snapshots := snapshots d; addons := addons d; orders := orders d; attempts := attempts d; leases := leases d; reservations := reservations d; usage := usage d; refunds := refunds d; purchase_refunds := purchase_refunds d; redeem_codes := redeem_codes d; redeem_claims := redeem_claims d; auto_renew := auto_renew d; referral_policy := referral_policy d; referral_codes := referral_codes d; referral_bindings := referral_bindings d; commissions := commissions d; commission_refunds := commission_refunds d; commission_adjustments := commission_adjustments d; admin_adjustments := admin_adjustments d; rule_limits := rule_limits d; events := events d; webhooks := webhooks d; deliveries := deliveries d; reconciliation := reconciliation d; cp_users := cp_users d; cp_rules := cp_rules d; cp_nodes := cp_nodes d |};
  t_clash := fun _ _ => false
|}.

(** [commerce_purchase_snapshots] *)
Definition Snapshots : Table string snapshot_row := {|
  t_get := snapshots;
  t_set := fun f d => {| wallets := wallets d; ledger := ledger d; fund_accounts := fund_accounts d; fund_sources := fund_sources d; fund_allocs := fund_allocs d; entitlements := entitlements d; ent_limits := ent_limits d; plans := plans d; plan_states := plan_states d; plan_limits := plan_limits d; purchases := purchases d; snapshots := f (snapshots d); addons := addons d; orders := orders d; attempts := attempts d; leases := leases d; reservations := reservations d; usage := usage d; refunds := refunds d; purchase_refunds := purchase_refunds d; redeem_codes := redeem_codes d; redeem_claims := redeem_claims d; auto_renew := auto_renew d; referral_policy := referral_policy d; referral_codes := referral_codes d; referral_bindings := referral_bindings d; commissions := commissions d; commission_refunds := commission_refunds d; commission_adjustments := commission_adjustments d; admin_adjustments := admin_adjustments d; rule_limits := rule_limits d; events := events d; webhooks := webhooks d; deliveries := deliveries d; reconciliation := reconciliation d; cp_users := cp_users d; cp_rules := cp_rules d; cp_nodes := cp_nodes d |};
  t_clash := fun _ _ => false
|}.

(** [commerce_addon_purchases] *)
Definition Addons : Table string addon_row := {|
  t_get := addons;
  t_set := fun f d => {| wallets := wallets d; ledger := ledger d; fund_accounts := fund_accounts d; fund_sources := fund_sources d; fund_allocs := fund_allocs d; entitlements := entitlements d; ent_limits := ent_limits d; plans := plans d; plan_states := plan_states d; plan_limits := plan_limits d; purchases := purchases d; snapshots := snapshots d; addons := f (addons d); orders := orders d; attempts := attempts d; leases := leases d; reservations := reservations d; usage := usage d; refunds := refunds d; purchase_refunds := purchase_refunds d; redeem_codes := redeem_codes d; redeem_claims := redeem_claims d; auto_renew := auto_renew d; referral_policy := referral_policy d; referral_codes := referral_codes d; referral_bindings := referral_bindings d; commissions := commissions d; commission_refunds := commission_refunds d; commission_adjustments := commission_adjustments d; admin_adjustments := admin_adjustments d; rule_limits := rule_limits d; events := events d; webhooks := webhooks d; deliveries := deliveries d; reconciliation := reconciliation d; cp_users := cp_users d; cp_rules := cp_rules d; cp_nodes := cp_nodes d |};
  t_clash := fun r r' => String.eqb (ap_user r) (ap_user r') && String.eqb (ap_key r) (ap_key r')
|}.

(** [commerce_orders] *)
Definition Orders : Table string order_row := {|
  t_get := orders;
  t_set := fun f d => {| wallets := wallets d; ledger := ledger d; fund_accounts := fund_accounts d; fund_sources := fund_sources d; fund_allocs := fund_allocs d; entitlements := entitlements d; ent_limits := ent_limits d; plans := plans d; plan_states := plan_states d; plan_limits := plan_limits d; purchases := purchases d; snapshots := snapshots d; addons := addons d; orders := f (orders d); attempts := attempts d; leases := leases d; reservations := reservations d; usage := usage d; refunds := refunds d; purchase_refunds := purchase_refunds d; redeem_codes := redeem_codes d; redeem_claims := redeem_claims d; auto_renew := auto_renew d; referral_policy := referral_policy d; referral_codes := referral_codes d; referral_bindings := referral_bindings d; commissions := commissions d; commission_refunds := commission_refunds d; commission_adjustments := commission_adjustments d; admin_adjustments := admin_adjustments d; rule_limits := rule_limits d; events := events d; webhooks := webhooks d; deliveries := deliveries d; reconciliation := reconciliation d; cp_users := cp_users d; cp_rules := cp_rules d; cp_nodes := cp_nodes d |};
  t_clash := fun r r' => String.eqb (o_user r) (o_user r') && String.eqb (o_key r) (o_key r')
|}.

(** [commerce_attempts] *)
Definition Attempts : Table string attempt_row := {|
  t_get := attempts;
  t_set := fun f d => {| wallets := wallets d; ledger := ledger d; fund_accounts := fund_accounts d; fund_sources := fund_sources d; fund_allocs := fund_allocs d; entitlements := entitlements d; ent_limits := ent_limits d; plans := plans d; plan_states := plan_states d; plan_limits := plan_limits d; purchases := purchases d; snapshots := snapshots d; addons := addons d; orders := orders d; attempts := f (attempts d); leases := leases d; reservations := reservations d; usage := usage d; refunds := refunds d; purchase_refunds := purchase_refunds d; redeem_codes := redeem_codes d; redeem_claims := redeem_claims d; auto_renew := auto_renew d; referral_policy := referral_policy d; referral_codes := referral_codes d; referral_bindings := referral_bindings d; commissions := commissions d; commission_refunds := commission_refunds d; commission_adjustments := commission_adjustments d; admin_adjustments := admin_adjustments d; rule_limits := rule_limits d; events := events d; webhooks := webhooks d; deliveries := deliveries d; reconciliation := reconciliation d; cp_users := cp_users d; cp_rules := cp_rules d; cp_nodes := cp_nodes d |};
  t_clash := fun _ _ => false
|}.

(** [commerce_leases] *)
Definition Leases : Table string lease_row := {|
  t_get := leases;
  t_set := fun f d => {| wallets := wallets d; ledger := ledger d; fund_accounts := fund_accounts d; fund_sources := fund_sources d; fund_allocs := fund_allocs d; entitlements := entitlements d; ent_limits := ent_limits d; plans := plans d; plan_states := plan_states d; plan_limits := plan_limits d; purchases := purchases d; snapshots := snapshots d; addons := addons d; orders := orders d; attempts := attempts d; leases := f (leases d); reservations := reservations d; usage := usage d; refunds := refunds d; purchase_refunds := purchase_refunds d; redeem_codes := redeem_codes d; redeem_claims := redeem_claims d; auto_renew := auto_renew d; referral_policy := referral_policy d; referral_codes := referral_codes d; referral_bindings := referral_bindings d; commissions := commissions d; commission_refunds := commission_refunds d; commission_adjustments := commission_adjustments d; admin_adjustments := admin_adjustments d; rule_limits := rule_limits d; events := events d; webhooks := webhooks d; deliveries := deliveries d; reconciliation := reconciliation d; cp_users := cp_users d; cp_rules := cp_rules d; cp_nodes := cp_nodes d |};
  t_clash := fun _ _ => false
|}.

(** [commerce_lease_reservations] *)
Definition Reservations : Table string reservation_row := {|
  t_get := reservations;
  t_set := fun f d => {| wallets := wallets d; ledger := ledger d; fund_accounts := fund_accounts d; fund_sources := fund_sources d; fund_allocs := fund_allocs d; entitlements := entitlements d; ent_limits := ent_limits d; plans := plans d; plan_states := plan_states d; plan_limits := plan_limits d; purchases := purchases d; snapshots := snapshots d; addons := addons d; orders := orders d; attempts := attempts d; leases := leases d; reservations := f (reservations d); usage := usage d; refunds := refunds d; purchase_refunds := purchase_refunds d; redeem_codes := redeem_codes d; redeem_claims := redeem_claims d; auto_renew := auto_renew d; referral_policy := referral_policy d; referral_codes := referral_codes d; referral_bindings := referral_bindings d; commissions := commissions d; commission_refunds := commission_refunds d; commission_adjustments := commission_adjustments d; admin_adjustments := admin_adjustments d; rule_limits := rule_limits d; events := events d; webhooks := webhooks d; deliveries := deliveries d; reconciliation := reconciliation d; cp_users := cp_users d; cp_rules := cp_rules d; cp_nodes := cp_nodes d |};
  t_clash := fun _ _ => false
|}.

(** [commerce_usage] *)
Definition Usage : Table string usage_row := {|
  t_get := usage;
  t_set := fun f d => {| wallets := wallets d; ledger := ledger d; fund_accounts := fund_accounts d; fund_sources := fund_sources d; fund_allocs := fund_allocs d; entitlements := entitlements d; ent_limits := ent_limits d; plans := plans d; plan_states := plan_states d; plan_limits := plan_limits d; purchases := purchases d; snapshots := snapshots d; addons := addons d; orders := orders d; attempts := attempts d; leases := leases d; reservations := reservations d; usage := f (usage d); refunds := refunds d; purchase_refunds := purchase_refunds d; redeem_codes := redeem_codes d; redeem_claims := redeem_claims d; auto_renew := auto_renew d; referral_policy := referral_policy d; referral_codes := referral_codes d; referral_bindings := referral_bindings d; commissions := commissions d; commission_refunds := commission_refunds d; commission_adjustments := commission_adjustments d; admin_adjustments := admin_adjustments d; rule_limits := rule_limits d; events := events d; webhooks := webhooks d; deliveries := deliveries d; reconciliation := reconciliation d; cp_users := cp_users d; cp_rules := cp_rules d; cp_nodes := cp_nodes d |};
  t_clash := fun _ _ => false
|}.

(** [commerce_refunds] *)
Definition Refunds : Table string refund_row := {|
  t_get := refunds;
  t_set := fun f d => {| wallets := wallets d; ledger := ledger d; fund_accounts := fund_accounts d; fund_sources := fund_sources d; fund_allocs := fund_allocs d; entitlements := entitlements d; ent_limits := ent_limits d; plans := plans d; plan_states := plan_states d; plan_limits := plan_limits d; purchases := purchases d; snapshots := snapshots d; addons := addons d; orders := orders d; attempts := attempts d; leases := leases d; reservations := reservations d; usage := usage d; refunds := f (refunds d); purchase_refunds := purchase_refunds d; redeem_codes := redeem_codes d; redeem_claims := redeem_claims d; auto_renew := auto_renew d; referral_policy := referral_policy d; referral_codes := referral_codes d; referral_bindings := referral_bindings d; commissions := commissions d; commission_refunds := commission_refunds d; commission_adjustments := commission_adjustments d; admin_adjustments := admin_adjustments d; rule_limits := rule_limits d; events := events d; webhooks := webhooks d; deliveries := deliveries d; reconciliation := reconciliation d; cp_users := cp_users d; cp_rules := cp_rules d; cp_nodes := cp_nodes d |};
  t_clash := fun r r' => String.eqb (rf_order r) (rf_order r') && String.eqb (rf_key r) (rf_key r')
|}.

(** [commerce_purchase_refunds] *)
Definition PurchaseRefunds : Table string purchase_refund_row := {|
  t_get := purchase_refunds;
  t_set := fun f d => {| wallets := wallets d; ledger := ledger d; fund_accounts := fund_accounts d; fund_sources := fund_sources d; fund_allocs := fund_allocs d; entitlements := entitlements d; ent_limits := ent_limits d; plans := plans d; plan_states := plan_states d; plan_limits := plan_limits d; purchases := purchases d; snapshots := snapshots d; addons := addons d; orders := orders d; attempts := attempts d; leases := leases d; reservations := reservations d; usage := usage d; refunds := refunds d; purchase_refunds := f (purchase_refunds d); redeem_codes := redeem_codes d; redeem_claims := redeem_claims d; auto_renew := auto_renew d; referral_policy := referral_policy d; referral_codes := referral_codes d; referral_bindings := referral_bindings d; commissions := commissions d; commission_refunds := commission_refunds d; commission_adjustments := commission_adjustments d; admin_adjustments := admin_adjustments d; rule_limits := rule_limits d; events := events d; webhooks := webhooks d; deliveries := deliveries d; reconciliation := reconciliation d; cp_users := cp_users d; cp_rules := cp_rules d; cp_nodes := cp_nodes d |};
  t_clash := fun r r' => String.eqb (pr_purchase r) (pr_purchase r') && String.eqb (pr_key r) (pr_key r')
|}.

(** [commerce_redeem_codes] *)
Definition RedeemCodes : Table string redeem_row := {|
  t_get := redeem_codes;
  t_set := fun f d => {| wallets := wallets d; ledger := ledger d; fund_accounts := fund_accounts d; fund_sources := fund_sources d; fund_allocs := fund_allocs d; entitlements := entitlements d; ent_limits := ent_limits d; plans := plans d; plan_states := plan_states d; plan_limits := plan_limits d; purchases := purchases d; snapshots := snapshots d; addons := addons d; orders := orders d; attempts := attempts d; leases := leases d; reservations := reservations d; usage := usage d; refunds := refunds d; purchase_refunds := purchase_refunds d; redeem_codes := f (redeem_codes d); redeem_claims := redeem_claims d; auto_renew := auto_renew d; referral_policy := referral_policy d; referral_codes := referral_codes d; referral_bindings := referral_bindings d; commissions := commissions d; commission_refunds := commission_refunds d; commission_adjustments := commission_adjustments d; admin_adjustments := admin_adjustments d; rule_limits := rule_limits d; events := events d; webhooks := webhooks d; deliveries := deliveries d; reconciliation := reconciliation d; cp_users := cp_users d; cp_rules := cp_rules d; cp_nodes := cp_nodes d |};
  t_clash := fun _ _ => false
|}.

(** [commerce_redeem_claims] *)
Definition RedeemClaims : Table (string * string) claim_row := {|
  t_get := redeem_claims;
  t_set := fun f d => {| wallets := wallets d; ledger := ledger d; fund_accounts := fund_accounts d; fund_sources := fund_sources d; fund_allocs := fund_allocs d; entitlements := entitlements d; ent_limits := ent_limits d; plans := plans d; plan_states := plan_states d; plan_limits := plan_limits d; purchases := purchases d; snapshots := snapshots d; addons := addons d; orders := orders d; attempts := attempts d; leases := leases d; reservations := reservations d; usage := usage d; refunds := refunds d; purchase_refunds := purchase_refunds d; redeem_codes := redeem_codes d; redeem_claims := f (redeem_claims d); auto_renew := auto_renew d; referral_policy := referral_policy d; referral_codes := referral_codes d; referral_bindings := referral_bindings d; commissions := commissions d; commission_refunds := commission_refunds d; commission_adjustments := commission_adjustments d; admin_adjustments := admin_adjustments d; rule_limits := rule_limits d; events := events d; webhooks := webhooks d; deliveries := deliveries d; reconciliation := reconciliation d; cp_users := cp_users d; cp_rules := cp_rules d; cp_nodes := cp_nodes d |};
  t_clash := fun _ _ => false
|}.

(** [commerce_auto_renew] *)
Definition AutoRenews : Table string renew_row := {|
  t_get := auto_renew;
  t_set := fun f d => {| wallets := wallets d; ledger := ledger d; fund_accounts := fund_accounts d; fund_sources := fund_sources d; fund_allocs := fund_allocs d; entitlements := entitlements d; ent_limits := ent_limits d; plans := plans d; plan_states := plan_states d; plan_limits := plan_limits d; purchases := purchases d; snapshots := snapshots d; addons := addons d; orders := orders d; attempts := attempts d; leases := leases d; reservations := reservations d; usage := usage d; refunds := refunds d; purchase_refunds := purchase_refunds d; redeem_codes := redeem_codes d; redeem_claims := redeem_claims d; auto_renew := f (auto_renew d); referral_policy := referral_policy d; referral_codes := referral_codes d; referral_bindings := referral_bindings d; commissions := commissions d; commission_refunds := commission_refunds d; commission_adjustments := commission_adjustments d; admin_adjustments := admin_adjustments d; rule_limits := rule_limits d; events := events d; webhooks := webhooks d; deliveries := deliveries d; reconciliation := reconciliation d; cp_users := cp_users d; cp_rules := cp_rules d; cp_nodes := cp_nodes d |};
  t_clash := fun _ _ => false
|}.

(** [commerce_referral_policy] *)
Definition ReferralPolicy : Table Z Z := {|
  t_get := referral_policy;
  t_set := fun f d => {| wallets := wallets d; ledger := ledger d; fund_accounts := fund_accounts d; fund_sources := fund_sources d; fund_allocs := fund_allocs d; entitlements := entitlements d; ent_limits := ent_limits d; plans := plans d; plan_states := plan_states d; plan_limits := plan_limits d; purchases := purchases d; snapshots := snapshots d; addons := addons d; orders := orders d; attempts := attempts d; leases := leases d; reservations := reservations d; usage := usage d; refunds := refunds d; purchase_refunds := purchase_refunds d; redeem_codes := redeem_codes d; redeem_claims := redeem_claims d; auto_renew := auto_renew d; referral_policy := f (referral_policy d); referral_codes := referral_codes d; referral_bindings := referral_bindings d; commissions := commissions d; commission_refunds := commission_refunds d; commission_adjustments := commission_adjustments d; admin_adjustments := admin_adjustments d; rule_limits := rule_limits d; events := events d; webhooks := webhooks d; deliveries := deliveries d; reconciliation := reconciliation d; cp_users := cp_users d; cp_rules := cp_rules d; cp_nodes := cp_nodes d |};
  t_clash := fun _ _ => false
|}.

(** [commerce_referral_codes] *)
Definition ReferralCodes : Table string referral_code_row := {|
  t_get := referral_codes;
  t_set := fun f d => {| wallets := wallets d; ledger := ledger d; fund_accounts := fund_accounts d; fund_sources := fund_sources d; fund_allocs := fund_allocs d; entitlements := entitlements d; ent_limits := ent_limits d; plans := plans d; plan_states := plan_states d; plan_limits := plan_limits d; purchases := purchases d; snapshots := snapshots d; addons := addons d; orders := orders d; attempts := attempts d; leases := leases d; reservations := reservations d; usage := usage d; refunds := refunds d; purchase_refunds := purchase_refunds d; redeem_codes := redeem_codes d; redeem_claims := redeem_claims d; auto_renew := auto_renew d; referral_policy := referral_policy d; referral_codes := f (referral_codes d); referral_bindings := referral_bindings d; commissions := commissions d; commission_refunds := commission_refunds d; commission_adjustments := commission_adjustments d; admin_adjustments := admin_adjustments d; rule_limits := rule_limits d; events := events d; webhooks := webhooks d; deliveries := deliveries d; reconciliation := reconciliation d; cp_users := cp_users d; cp_rules := cp_rules d; cp_nodes := cp_nodes d |};
  t_clash := fun r r' => String.eqb (rr_owner r) (rr_owner r')
|}.

(** [commerce_referral_bindings] *)
Definition ReferralBindings : Table string binding_row := {|
  t_get := referral_bindings;
  t_set := fun f d => {| wallets := wallets d; ledger := ledger d; fund_accounts := fund_accounts d; fund_sources := fund_sources d; fund_allocs := fund_allocs d; entitlements := entitlements d; ent_limits := ent_limits d; plans := plans d; plan_states := plan_states d; plan_limits := plan_limits d; purchases := purchases d; snapshots := snapshots d; addons := addons d; orders := orders d; attempts := attempts d; leases := leases d; reservations := reservations d; usage := usage d; refunds := refunds d; purchase_refunds := purchase_refunds d; redeem_codes := redeem_codes d; redeem_claims := redeem_claims d; auto_renew := auto_renew d; referral_policy := referral_policy d; referral_codes := referral_codes d; referral_bindings := f (referral_bindings d); commissions := commissions d; commission_refunds := commission_refunds d; commission_adjustments := commission_adjustments d; admin_adjustments := admin_adjustments d; rule_limits := rule_limits d; events := events d; webhooks := webhooks d; deliveries := deliveries d; reconciliation := reconciliation d; cp_users := cp_users d; cp_rules := cp_rules d; cp_nodes := cp_nodes d |};
  t_clash := fun _ _ => false
|}.

(** [commerce_commissions] *)
Definition Commissions : Table string commission_row := {|
  t_get := commissions;
  t_set := fun f d => {| wallets := wallets d; ledger := ledger d; fund_accounts := fund_accounts d; fund_sources := fund_sources d; fund_allocs := fund_allocs d; entitlements := entitlements d; ent_limits := ent_limits d; plans := plans d; plan_states := plan_states d; plan_limits := plan_limits d; purchases := purchases d; snapshots := snapshots d; addons := addons d; orders := orders d; attempts := attempts d; leases := leases d; reservations := reservations d; usage := usage d; refunds := refunds d; purchase_refunds := purchase_refunds d; redeem_codes := redeem_codes d; redeem_claims := redeem_claims d; auto_renew := auto_renew d; referral_policy := referral_policy d; referral_codes := referral_codes d; referral_bindings := referral_bindings d; commissions := f (commissions d); commission_refunds := commission_refunds d; commission_adjustments := commission_adjustments d; admin_adjustments := admin_adjustments d; rule_limits := rule_limits d; events := events d; webhooks := webhooks d; deliveries := deliveries d; reconciliation := reconciliation d; cp_users := cp_users d; cp_rules := cp_rules d; cp_nodes := cp_nodes d |};
  t_clash := fun r r' => String.eqb (c_source r) (c_source r')
|}.

(** [commerce_commission_refunds] *)
Definition CommissionRefunds : Table string Z := {|
  t_get := commission_refunds;
  t_set := fun f d => {| wallets := wallets d; ledger := ledger d; fund_accounts := fund_accounts d; fund_sources := fund_sources d; fund_allocs := fund_allocs d; entitlements := entitlements d; ent_limits := ent_limits d; plans := plans d; plan_states := plan_states d; plan_limits := plan_limits d; purchases := purchases d; snapshots := snapshots d; addons := addons d; orders := orders d; attempts := attempts d; leases := leases d; reservations := reservations d; usage := usage d; refunds := refunds d; purchase_refunds := purchase_refunds d; redeem_codes := redeem_codes d; redeem_claims := redeem_claims d; auto_renew := auto_renew d; referral_policy := referral_policy d; referral_codes := referral_codes d; referral_bindings := referral_bindings d; commissions := commissions d; commission_refunds := f (commission_refunds d); commission_adjustments := commission_adjustments d; admin_adjustments := admin_adjustments d; rule_limits := rule_limits d; events := events d; webhooks := webhooks d; deliveries := deliveries d; reconciliation := reconciliation d; cp_users := cp_users d; cp_rules := cp_rules d; cp_nodes := cp_nodes d |};
  t_clash := fun _ _ => false
|}.

(** [commerce_commission_adjustments] *)
Definition CommissionAdjustments : Table string adjustment_row := {|
  t_get := commission_adjustments;
  t_set := fun f d => {| wallets := wallets d; ledger := ledger d; fund_accounts := fund_accounts d; fund_sources := fund_sources d; fund_allocs := fund_allocs d; entitlements := entitlements d; ent_limits := ent_limits d; plans := plans d; plan_states := plan_states d; plan_limits := plan_limits d; purchases := purchases d; snapshots := snapshots d; addons := addons d; orders := orders d; attempts := attempts d; leases := leases d; reservations := reservations d; usage := usage d; refunds := refunds d; purchase_refunds := purchase_refunds d; redeem_codes := redeem_codes d; redeem_claims := redeem_claims d; auto_renew := auto_renew d; referral_policy := referral_policy d; referral_codes := referral_codes d; referral_bindings := referral_bindings d; commissions := commissions d; commission_refunds := commission_refunds d; commission_adjustments := f (commission_adjustments d); admin_adjustments := admin_adjustments d; rule_limits := rule_limits d; events := events d; webhooks := webhooks d; deliveries := deliveries d; reconciliation := reconciliation d; cp_users := cp_users d; cp_rules := cp_rules d; cp_nodes := cp_nodes d |};
  t_clash := fun r r' => String.eqb (ca_commission r) (ca_commission r') && String.eqb (ca_action r) (ca_action r')
|}.

(** [commerce_admin_adjustments] *)
Definition AdminAdjustments : Table string admin_row := {|
  t_get := admin_adjustments;
  t_set := fun f d => {| wallets := wallets d; ledger := ledger d; fund_accounts := fund_accounts d; fund_sources := fund_sources d; fund_allocs := fund_allocs d; entitlements := entitlements d; ent_limits := ent_limits d; plans := plans d; plan_states := plan_states d; plan_limits := plan_limits d; purchases := purchases d; snapshots := snapshots d; addons := addons d; orders := orders d; attempts := attempts d; leases := leases d; reservations := reservations d; usage := usage d; refunds := refunds d; purchase_refunds := purchase_refunds d; redeem_codes := redeem_codes d; redeem_claims := redeem_claims d; auto_renew := auto_renew d; referral_policy := referral_policy d; referral_codes := referral_codes d; referral_bindings := referral_bindings d; commissions := commissions d; commission_refunds := commission_refunds d; commission_adjustments := commission_adjustments d; admin_adjustments := f (admin_adjustments d); rule_limits := rule_limits d; events := events d; webhooks := webhooks d; deliveries := deliveries d; reconciliation := reconciliation d; cp_users := cp_users d; cp_rules := cp_rules d; cp_nodes := cp_nodes d |};
  t_clash := fun _ _ => false
|}.

(** [commerce_user_rule_limits] *)
Definition RuleLimits : Table string rule_limit_row := {|
  t_get := rule_limits;
  t_set := fun f d => {| wallets := wallets d; ledger := ledger d; fund_accounts := fund_accounts d; fund_sources := fund_sources d; fund_allocs := fund_allocs d; entitlements := entitlements d; ent_limits := ent_limits d; plans := plans d; plan_states := plan_states d; plan_limits := plan_limits d; purchases := purchases d; snapshots := snapshots d; addons := addons d; orders := orders d; attempts := attempts d; leases := leases d; reservations := reservations d; usage := usage d; refunds := refunds d; purchase_refunds := purchase_refunds d; redeem_codes := redeem_codes d; redeem_claims := redeem_claims d; auto_renew := auto_renew d; referral_policy := referral_policy d; referral_codes := referral_codes d; referral_bindings := referral_bindings d; commissions := commissions d; commission_refunds := commission_refunds d; commission_adjustments := commission_adjustments d; admin_adjustments := admin_adjustments d; rule_limits := f (rule_limits d); events := events d; webhooks := webhooks d; deliveries := deliveries d; reconciliation := reconciliation d; cp_users := cp_users d; cp_rules := cp_rules d; cp_nodes := cp_nodes d |};
  t_clash := fun _ _ => false
|}.

(** [commerce_events] *)
Definition Events : Table string event_row := {|
  t_get := events;
  t_set := fun f d => {| wallets := wallets d; ledger := ledger d; fund_accounts := fund_accounts d; fund_sources := fund_sources d; fund_allocs := fund_allocs d; entitlements := entitlements d; ent_limits := ent_limits d; plans := plans d; plan_states := plan_states d; plan_limits := plan_limits d; purchases := purchases d; snapshots := snapshots d; addons := addons d; orders := orders d; attempts := attempts d; leases := leases d; reservations := reservations d; usage := usage d; refunds := refunds d; purchase_refunds := purchase_refunds d; redeem_codes := redeem_codes d; redeem_claims := redeem_claims d; auto_renew := auto_renew d; referral_policy := referral_policy d; referral_codes := referral_codes d; referral_bindings := referral_bindings d; commissions := commissions d; commission_refunds := commission_refunds d; commission_adjustments := commission_adjustments d; admin_adjustments := admin_adjustments d; rule_limits := rule_limits d; events := f (events d); webhooks := webhooks d; deliveries := deliveries d; reconciliation := reconciliation d; cp_users := cp_users d; cp_rules := cp_rules d; cp_nodes := cp_nodes d |};
  t_clash := fun _ _ => false
|}.

(** [commerce_webhook_subscriptions] *)
Definition Webhooks : Table string webhook_row := {|
  t_get := webhooks;
  t_set := fun f d => {| wallets := wallets d; ledger := ledger d; fund_accounts := fund_accounts d; fund_sources := fund_sources d; fund_allocs := fund_allocs d; entitlements := entitlements d; ent_limits := ent_limits d; plans := plans d; plan_states := plan_states d; plan_limits := plan_limits d; purchases := purchases d; snapshots := snapshots d; addons := addons d; orders := orders d; attempts := attempts d; leases := leases d; reservations := reservations d; usage := usage d; refunds := refunds d; purchase_refunds := purchase_refunds d; redeem_codes := redeem_codes d; redeem_claims := redeem_claims d; auto_renew := auto_renew d; referral_policy := referral_policy d; referral_codes := referral_codes d; referral_bindings := referral_bindings d; commissions := commissions d; commission_refunds := commission_refunds d; commission_adjustments := commission_adjustments d; admin_adjustments := admin_adjustments d; rule_limits := rule_limits d; events := events d; webhooks := f (webhooks d); deliveries := deliveries d; reconciliation := reconciliation d; cp_users := cp_users d; cp_rules := cp_rules d; cp_nodes := cp_nodes d |};
  t_clash := fun _ _ => false
|}.

(** [commerce_event_deliveries] *)
Definition Deliveries : Table (string * string) delivery_row := {|
  t_get := deliveries;
  t_set := fun f d => {| wallets := wallets d; ledger := ledger d; fund_accounts := fund_accounts d; fund_sources := fund_sources d; fund_allocs := fund_allocs d; entitlements := entitlements d; ent_limits := ent_limits d; plans := plans d; plan_states := plan_states d; plan_limits := plan_limits d; purchases := purchases d; snapshots := snapshots d; addons := addons d; orders := orders d; attempts := attempts d; leases := leases d; reservations := reservations d; usage := usage d; refunds := refunds d; purchase_refunds := purchase_refunds d; redeem_codes := redeem_codes d; redeem_claims := redeem_claims d; auto_renew := auto_renew d; referral_policy := referral_policy d; referral_codes := referral_codes d; referral_bindings := referral_bindings d; commissions := commissions d; commission_refunds := commission_refunds d; commission_adjustments := commission_adjustments d; admin_adjustments := admin_adjustments d; rule_limits := rule_limits d; events := events d; webhooks := webhooks d; deliveries := f (deliveries d); reconciliation := reconciliation d; cp_users := cp_users d; cp_rules := cp_rules d; cp_nodes := cp_nodes d |};
  t_clash := fun _ _ => false
|}.

(** [commerce_reconciliation] *)
Definition Reconciliation : Table string reconcile_row := {|
  t_get := reconciliation;
  t_set := fun f d => {| wallets := wallets d; ledger := ledger d; fund_accounts := fund_accounts d; fund_sources := fund_sources d; fund_allocs := fund_allocs d; entitlements := entitlements d; ent_limits := ent_limits d; plans := plans d; plan_states := plan_states d; plan_limits := plan_limits d; purchases := purchases d; snapshots := snapshots d; addons := addons d; orders := orders d; attempts := attempts d; leases := leases d; reservations := reservations d; usage := usage d; refunds := refunds d; purchase_refunds := purchase_refunds d; redeem_codes := redeem_codes d; redeem_claims := redeem_claims d; auto_renew := auto_renew d; referral_policy := referral_policy d; referral_codes := referral_codes d; referral_bindings := referral_bindings d; commissions := commissions d; commission_refunds := commission_refunds d; commission_adjustments := commission_adjustments d; admin_adjustments := admin_adjustments d; rule_limits := rule_limits d; events := events d; webhooks := webhooks d; deliveries := deliveries d; reconciliation := f (reconciliation d); cp_users := cp_users d; cp_rules := cp_rules d; cp_nodes := cp_nodes d |};
  t_clash := fun _ _ => false
|}.

(** [cp_users] *)
Definition Users : Table string user_row := {|
  t_get := cp_users;
  t_set := fun f d => {| wallets := wallets d; ledger := ledger d; fund_accounts := fund_accounts d; fund_sources := fund_sources d; fund_allocs := fund_allocs d; entitlements := entitlements d; ent_limits := ent_limits d; plans := plans d; plan_states := plan_states d; plan_limits := plan_limits d; purchases := purchases d; snapshots := snapshots d; addons := addons d; orders := orders d; attempts := attempts d; leases := leases d; reservations := reservations d; usage := usage d; refunds := refunds d; purchase_refunds := purchase_refunds d; redeem_codes := redeem_codes d; redeem_claims := redeem_claims d; auto_renew := auto_renew d; referral_policy := referral_policy d; referral_codes := referral_codes d; referral_bindings := referral_bindings d; commissions := commissions d; commission_refunds := commission_refunds d; commission_adjustments := commission_adjustments d; admin_adjustments := admin_adjustments d; rule_limits := rule_limits d; events := events d; webhooks := webhooks d; deliveries := deliveries d; reconciliation := reconciliation d; cp_users := f (cp_users d); cp_rules := cp_rules d; cp_nodes := cp_nodes d |};
  t_clash := fun _ _ => false
|}.

(** [cp_rules] *)
Definition Rules : Table string rule_row := {|
  t_get := cp_rules;
  t_set := fun f d => {| wallets := wallets d; ledger := ledger d; fund_accounts := fund_accounts d; fund_sources := fund_sources d; fund_allocs := fund_allocs d; entitlements := entitlements d; ent_limits := ent_limits d; plans := plans d; plan_states := plan_states d; plan_limits := plan_limits d; purchases := purchases d; snapshots := snapshots d; addons := addons d; orders := orders d; attempts := attempts d; leases := leases d; reservations := reservations d; usage := usage d; refunds := refunds d; purchase_refunds := purchase_refunds d; redeem_codes := redeem_codes d; redeem_claims := redeem_claims d; auto_renew := auto_renew d; referral_policy := referral_policy d; referral_codes := referral_codes d; referral_bindings := referral_bindings d; commissions := commissions d; commission_refunds := commission_refunds d; commission_adjustments := commission_adjustments d; admin_adjustments := admin_adjustments d; rule_limits := rule_limits d; events := events d; webhooks := webhooks d; deliveries := deliveries d; reconciliation := reconciliation d; cp_users := cp_users d; cp_rules := f (cp_rules d); cp_nodes := cp_nodes d |};
  t_clash := fun _ _ => false
|}.

(** [cp_nodes (the desired version)] *)
Definition Nodes : Table string Z := {|
  t_get := cp_nodes;
  t_set := fun f d => {| wallets := wallets d; ledger := ledger d; fund_accounts := fund_accounts d; fund_sources := fund_sources d; fund_allocs := fund_allocs d; entitlements := entitlements d; ent_limits := ent_limits d; plans := plans d; plan_states := plan_states d; plan_limits := plan_limits d; purchases := purchases d; snapshots := snapshots d; addons := addons d; orders := orders d; attempts := attempts d; leases := leases d; reservations := reservations d; usage := usage d; refunds := refunds d; purchase_refunds := purchase_refunds d; redeem_codes := redeem_codes d; redeem_claims := redeem_claims d; auto_renew := auto_renew d; referral_policy := referral_policy d; referral_codes := referral_codes d; referral_bindings := referral_bindings d; commissions := commissions d; commission_refunds := commission_refunds d; commission_adjustments := commission_adjustments d; admin_adjustments := admin_adjustments d; rule_limits := rule_limits d; events := events d; webhooks := webhooks d; deliveries := deliveries d; reconciliation := reconciliation d; cp_users := cp_users d; cp_rules := cp_rules d; cp_nodes := f (cp_nodes d) |};
  t_clash := fun _ _ => false
|}.

(** ** Statements *)

Section Statements.
Context `{Countable K} {R : Type} (T : Table K R).

(** [SELECT ... WHERE key=?] *)
Definition SELECT (k : K) : Tx DB (option R) := gets (fun d => t_get T d !! k).

(** [SELECT ... WHERE p], in no particular order *)
Definition rows_where (p : K -> R -> bool) (d : DB) : list (K * R) :=
  filter (fun kr => Is_true (p kr.1 kr.2)) (map_to_list (t_get T d)).
Definition SELECT_where (p : K -> R -> bool) : Tx DB (list (K * R)) := gets (rows_where p).

(** [SELECT ... WHERE p] read with [QueryRow]: one matching row *)
Definition SELECT_one (p : K -> R -> bool) : Tx DB (option (K * R)) :=
  gets (fun d => head (rows_where p d)).

Definition clashes (r : R) (m : gmap K R) : bool :=
  existsb (fun kr => t_clash T r kr.2) (map_to_list m).

Definition INSERT (k : K) (r : R) : Tx DB unit :=
  m ← gets (t_get T);
  guard_err (negb (bool_decide (is_Some (m !! k))) && negb (clashes r m)) ErrConstraint ;;
  modify (t_set T (<[k:=r]>)).

(** [INSERT ... ON CONFLICT(key) DO NOTHING] *)
Definition INSERT_ignore (k : K) (r : R) : Tx DB unit :=
  m ← gets (t_get T);
  match m !! k with Some _ => mret tt | None => INSERT k r end.

(** [INSERT ... ON CONFLICT(key) DO UPDATE], every column replaced *)
Definition UPSERT (k : K) (r : R) : Tx DB unit := modify (t_set T (<[k:=r]>)).

(** [UPDATE ... SET f WHERE key=? AND p], the number of rows matched *)
Definition UPDATE (k : K) (p : R -> bool) (f : R -> R) : Tx DB Z :=
  m ← gets (t_get T);
  match m !! k with
  | Some r => if p r then modify (t_set T (<[k:=f r]>)) ;; mret 1 else mret 0
  | None => mret 0
  end.

(** [UPDATE ... SET f WHERE p], any number of rows *)
Definition UPDATE_all (p : K -> R -> bool) (f : R -> R) : Tx DB unit :=
  modify (t_set T (map_imap (fun k r => Some (if p k r then f r else r)))).

Definition DELETE (k : K) : Tx DB unit := modify (t_set T (delete k)).

Lemma clashes_false r m k r' : clashes r m = false -> m !! k = Some r' -> t_clash T r r' = false.
Proof.
  intros Hc Hk. apply not_true_iff_false. intros Ht. apply not_true_iff_false in Hc. apply Hc.
  apply existsb_exists. exists (k, r'). split; [|done].
  apply list_elem_of_In, elem_of_map_to_list. done.
Qed.

Lemma hoare_SELECT P k Q :
  (forall d, P d -> Q (t_get T d !! k) d) -> hoare P (SELECT k) Q.
Proof. apply hoare_gets. Qed.

Lemma hoare_SELECT_where P p Q :
  (forall d, P d -> Q (rows_where p d) d) -> hoare P (SELECT_where p) Q.
Proof. apply hoare_gets. Qed.

Lemma hoare_SELECT_one P p Q :
  (forall d, P d -> Q (head (rows_where p d)) d) -> hoare P (SELECT_one p) Q.
Proof. apply hoare_gets. Qed.

Lemma head_rows_where (p : K -> R -> bool) d k r :
  head (rows_where p d) = Some (k, r) -> t_get T d !! k = Some r /\ p k r = true.
Proof.
  unfold rows_where. intros Hh. apply head_Some_elem_of, list_elem_of_filter in Hh as [Hp Hin].
  apply elem_of_map_to_list in Hin. split; [done|]. by apply Is_true_eq_true.
Qed.

Lemma head_rows_where_None (p : K -> R -> bool) d k r :
  head (rows_where p d) = None -> t_get T d !! k = Some r -> p k r = false.
Proof.
  unfold rows_where. intros Hh Hk. apply not_true_iff_false. intros Hp. apply head_None in Hh.
  assert (Hin : (k, r) ∈ filter (fun kr : K * R => Is_true (p kr.1 kr.2)) (map_to_list (t_get T d))).
  { apply list_elem_of_filter. split; [by apply Is_true_eq_left|]. by apply elem_of_map_to_list. }
  rewrite Hh in Hin. set_solver.
Qed.

Lemma hoare_UPDATE_all P (p : K -> R -> bool) (f : R -> R) Q :
  (forall d, P d -> Q tt (t_set T (map_imap (fun k r => Some (if p k r then f r else r))) d)) ->
  hoare P (UPDATE_all p f) Q.
Proof. apply hoare_modify. Qed.

Lemma hoare_INSERT P k r Q :
  (forall d, P d -> t_get T d !! k = None -> clashes r (t_get T d) = false ->
    Q tt (t_set T (<[k:=r]>) d)) -> hoare P (INSERT k r) Q.
Proof.
  intros HQ. unfold INSERT.
  eapply hoare_bind with (R := fun m d => m = t_get T d /\ P d); [apply hoare_gets; auto|].
  intros m. eapply hoare_bind with (R := fun _ d => P d /\ t_get T d !! k = None /\ clashes r (t_get T d) = false).
  - apply hoare_guard. intros Hg d [-> HP]. bool_to_prop. split; [done|]. split; [|done].
    destruct (t_get T d !! k) eqn:E; [|done]. exfalso. eauto.
  - intros _. apply hoare_modify. intros d (HP & H1 & H2). auto.
Qed.

Lemma hoare_INSERT_ignore P k r Q :
  (forall d, P d -> is_Some (t_get T d !! k) -> Q tt d) ->
  (forall d, P d -> t_get T d !! k = None -> Q tt (t_set T (<[k:=r]>) d)) ->
  hoare P (INSERT_ignore k r) Q.
Proof.
  intros H1 H2. unfold INSERT_ignore.
  eapply hoare_bind with (R := fun m d => m = t_get T d /\ P d); [apply hoare_gets; auto|].
  intros m. destruct (m !! k) eqn:E.
  - apply hoare_ret. intros d [-> HP]. apply H1; [done|]. rewrite E. eauto.
  - apply hoare_INSERT. intros d [-> HP] Hn _. auto.
Qed.

Lemma hoare_UPSERT P k r Q :
  (forall d, P d -> Q tt (t_set T (<[k:=r]>) d)) -> hoare P (UPSERT k r) Q.
Proof. apply hoare_modify. Qed.

Lemma hoare_DELETE P k Q :
  (forall d, P d -> Q tt (t_set T (delete k) d)) -> hoare P (DELETE k) Q.
Proof. apply hoare_modify. Qed.

Lemma hoare_UPDATE P k p f Q :
  (forall d r, P d -> t_get T d !! k = Some r -> p r = true -> Q 1 (t_set T (<[k:=f r]>) d)) ->
  (forall d, P d -> (forall r, t_get T d !! k = Some r -> p r = false) -> Q 0 d) ->
  hoare P (UPDATE k p f) Q.
Proof.
  intros H1 H0. unfold UPDATE.
  eapply hoare_bind with (R := fun m d => m = t_get T d /\ P d); [apply hoare_gets; auto|].
  intros m. destruct (m !! k) as [r|] eqn:E; [destruct (p r) eqn:Ep|].
  - eapply hoare_bind with (R := fun _ d' => Q 1 d').
    + apply hoare_modify. intros d [-> HP]. auto.
    + intros _. by apply hoare_ret.
  - apply hoare_ret. intros d [-> HP]. apply H0; [done|]. intros r' Hr'. congruence.
  - apply hoare_ret. intros d [-> HP]. apply H0; [done|]. intros r' Hr'. congruence.
Qed.

Lemma runs_SELECT k env d t (Q : option R -> DB -> Prop) :
  Q (t_get T d !! k) d -> runs (SELECT k) env d t Q.
Proof. exact (runs_gets (fun d => t_get T d !! k) env d t Q). Qed.

Lemma runs_SELECT_where p env d t (Q : list (K * R) -> DB -> Prop) :
  Q (rows_where p d) d -> runs (SELECT_where p) env d t Q.
Proof. exact (runs_gets (rows_where p) env d t Q). Qed.

Lemma runs_INSERT k r env d t (Q : unit -> DB -> Prop) :
  t_get T d !! k = None -> clashes r (t_get T d) = false ->
  Q tt (t_set T (<[k:=r]>) d) -> runs (INSERT k r) env d t Q.
Proof.
  intros Hk Hc HQ. unfold INSERT.
  eapply runs_bind with (R := fun m d' => m = t_get T d /\ d' = d); [by apply runs_gets|].
  intros m d' t' [-> ->]. eapply runs_bind with (R := fun _ d' => d' = d).
  - apply runs_guard; [|done]. rewrite Hc, Hk, bool_decide_eq_false_2; [done|]. by intros [].
  - intros _ d' t2 ->. by apply runs_modify.
Qed.

Lemma runs_INSERT_ignore k r env d t (Q : unit -> DB -> Prop) :
  (t_get T d !! k = None -> clashes r (t_get T d) = false) ->
  (is_Some (t_get T d !! k) -> Q tt d) ->
  (t_get T d !! k = None -> Q tt (t_set T (<[k:=r]>) d)) -> runs (INSERT_ignore k r) env d t Q.
Proof.
  intros Hc H1 H2. unfold INSERT_ignore.
  eapply runs_bind with (R := fun m d' => m = t_get T d /\ d' = d); [by apply runs_gets|].
  intros m d' t' [-> ->]. destruct (t_get T d !! k) eqn:E.
  - apply runs_ret. eauto.
  - apply runs_INSERT; auto.
Qed.

Lemma runs_UPDATE k p f r env d t (Q : Z -> DB -> Prop) :
  t_get T d !! k = Some r -> p r = true -> Q 1 (t_set T (<[k:=f r]>) d) ->
  runs (UPDATE k p f) env d t Q.
Proof.
  intros Hr Hp HQ. unfold UPDATE.
  eapply runs_bind with (R := fun m d' => m = t_get T d /\ d' = d); [by apply runs_gets|].
  intros m d' t' [-> ->]. rewrite Hr, Hp.
  eapply runs_bind with (R := fun _ d' => d' = t_set T (<[k:=f r]>) d); [by apply runs_modify|].
  intros _ d' t2 ->. by apply runs_ret.
Qed.

(** *** Reading a successful statement *)
Lemma SELECT_Ok k env d t a d' t' :
  SELECT k env d t = (Ok (a, d'), t') -> a = t_get T d !! k /\ d' = d.
Proof. unfold SELECT, gets. intros [= <- <- <-]. done. Qed.

Lemma SELECT_where_Ok p env d t a d' t' :
  SELECT_where p env d t = (Ok (a, d'), t') -> a = rows_where p d /\ d' = d.
Proof. unfold SELECT_where, gets. intros [= <- <- <-]. done. Qed.

Lemma SELECT_one_Ok p env d t a d' t' :
  SELECT_one p env d t = (Ok (a, d'), t') -> a = head (rows_where p d) /\ d' = d.
Proof. unfold SELECT_one, gets. intros [= <- <- <-]. done. Qed.

Lemma INSERT_Ok k r env d t a d' t' :
  INSERT k r env d t = (Ok (a, d'), t') ->
  t_get T d !! k = None /\ clashes r (t_get T d) = false /\ d' = t_set T (<[k:=r]>) d.
Proof.
  intros Hrun. refine (hoare_INSERT (fun d0 => d0 = d) k r (fun _ d' => t_get T d !! k = None /\
    clashes r (t_get T d) = false /\ d' = t_set T (<[k:=r]>) d) _ _ _ _ _ _ _ Hrun eq_refl).
  by intros d0 ->.
Qed.

Lemma INSERT_ignore_Ok k r env d t a d' t' :
  INSERT_ignore k r env d t = (Ok (a, d'), t') ->
  (is_Some (t_get T d !! k) /\ d' = d) \/ (t_get T d !! k = None /\ d' = t_set T (<[k:=r]>) d).
Proof.
  intros Hrun. refine (hoare_INSERT_ignore (fun d0 => d0 = d) k r (fun _ d' =>
    (is_Some (t_get T d !! k) /\ d' = d) \/ (t_get T d !! k = None /\ d' = t_set T (<[k:=r]>) d))
    _ _ _ _ _ _ _ _ Hrun eq_refl); intros d0 ->; auto.
Qed.

Lemma UPSERT_Ok k r env d t a d' t' :
  UPSERT k r env d t = (Ok (a, d'), t') -> d' = t_set T (<[k:=r]>) d.
Proof. unfold UPSERT, modify. intros [= <- <- <-]. done. Qed.

Lemma DELETE_Ok k env d t a d' t' :
  DELETE k env d t = (Ok (a, d'), t') -> d' = t_set T (delete k) d.
Proof. unfold DELETE, modify. intros [= <- <- <-]. done. Qed.

Lemma UPDATE_all_Ok p f env d t a d' t' :
  UPDATE_all p f env d t = (Ok (a, d'), t') ->
  d' = t_set T (map_imap (fun k r => Some (if p k r then f r else r))) d.
Proof. unfold UPDATE_all, modify. intros [= <- <- <-]. done. Qed.

Lemma UPDATE_Ok k p f env d t a d' t' :
  UPDATE k p f env d t = (Ok (a, d'), t') ->
  (exists r, t_get T d !! k = Some r /\ p r = true /\ a = 1 /\ d' = t_set T (<[k:=f r]>) d) \/
  ((forall r, t_get T d !! k = Some r -> p r = false) /\ a = 0 /\ d' = d).
Proof.
  intros Hrun. refine (hoare_UPDATE (fun d0 => d0 = d) k p f (fun a d' =>
    (exists r, t_get T d !! k = Some r /\ p r = true /\ a = 1 /\ d' = t_set T (<[k:=f r]>) d) \/
    ((forall r, t_get T d !! k = Some r -> p r = false) /\ a = 0 /\ d' = d))
    _ _ _ _ _ _ _ _ Hrun eq_refl); intros d0; [intros r|]; intros ->; eauto 8.
Qed.
End Statements.

(** Unfold a successful run into the facts its statements leave: one
    hypothesis per read or guard, and the final database as updates of the
    first.  Branches are left to the caller as [match] equations. *)
Ltac sql_inv H :=
  lazymatch type of H with
  | mbind _ _ _ _ _ = _ =>
      let Hm := fresh "Hm" in let Hk := fresh "Hk" in
      apply tx_bind_Ok in H as (? & ? & ? & Hm & Hk); sql_inv Hm; sql_inv Hk
  | SELECT _ _ _ _ _ = _ => apply SELECT_Ok in H as [? ?]; subst
  | SELECT_where _ _ _ _ _ = _ => apply SELECT_where_Ok in H as [? ?]; subst
  | SELECT_one _ _ _ _ _ = _ => apply SELECT_one_Ok in H as [? ?]; subst
  | INSERT _ _ _ _ _ _ = _ =>
      let H1 := fresh "Hnew" in let H2 := fresh "Hclash" in
      apply INSERT_Ok in H as (H1 & H2 & ?); subst
  | UPSERT _ _ _ _ _ _ = _ => apply UPSERT_Ok in H; subst
  | DELETE _ _ _ _ _ = _ => apply DELETE_Ok in H; subst
  | UPDATE_all _ _ _ _ _ _ = _ => apply UPDATE_all_Ok in H; subst
  | UPDATE _ _ _ _ _ _ _ = _ =>
      let H1 := fresh "Hrow" in let H2 := fresh "Hcond" in
      apply UPDATE_Ok in H as [(? & H1 & H2 & ? & ?)|(H1 & ? & ?)]; subst
  | _ => tx_inv H
  end.

(** The same, splitting the branches of the program too.  [sql_call] is
    extended by the files that define the operations called. *)
Ltac sql_call H := idtac.
Ltac sql_run H :=
  lazymatch type of H with
  | mbind _ _ _ _ _ = _ =>
      let Hm := fresh "Hm" in let Hk := fresh "Hk" in
      apply tx_bind_Ok in H as (? & ? & ? & Hm & Hk); sql_run Hm; sql_run Hk
  | (match ?x with _ => _ end) _ _ _ = _ =>
      let E := fresh "Hif" in destruct x eqn:E; sql_run H
  | _ => sql_inv H; try sql_call H
  end.

(** Every statement that is not an insertion into, or a change of, the
    tables an invariant speaks of keeps it; [tx_frame] closes these goals
    by computation. *)
Ltac hoare_sql :=
  lazymatch goal with
  | |- hoare _ (SELECT _ _) _ => apply hoare_SELECT; intros
  | |- hoare _ (SELECT_where _ _) _ => apply hoare_SELECT_where; intros
  | |- hoare _ (SELECT_one _ _) _ => apply hoare_SELECT_one; intros
  | |- hoare _ (UPDATE_all _ _ _) _ => apply hoare_UPDATE_all; intros
  | |- hoare _ (INSERT _ _ _) _ => apply hoare_INSERT; intros
  | |- hoare _ (INSERT_ignore _ _ _) _ => apply hoare_INSERT_ignore; intros
  | |- hoare _ (UPSERT _ _ _) _ => apply hoare_UPSERT; intros
  | |- hoare _ (UPDATE _ _ _ _) _ => apply hoare_UPDATE; intros
  | |- hoare _ (DELETE _ _) _ => apply hoare_DELETE; intros
  | |- _ => hoare_step
  end.

(** Skip a statement that only reads (or whose writes the precondition
    does not see). *)
Ltac read_bind := eapply hoare_bind_inv; [solve [hoare_sql; auto] | intros ?].
