(* ===== verification/Wallet.v ===== *)
(** * Wallets, the ledger and funding
    (internal/commerce/service.go [walletTx], [post]; funding.go
    [trackFunds], [restoreFunds]; events.go [emitEventTx]; app.go
    [CheckAccount])

    Every change of a balance goes through [post].  It moves the wallet,
    writes one ledger line and keeps the provenance of the money: each
    credit is a fund source, each debit allocates amounts of fund sources,
    and a refund restores exactly what a debit allocated. *)

From S2P Require Import Prelude Tx GoStrings Calendar Rational PlanRules Schema.
From stdpp Require Import base gmap strings list sorting.
From Stdlib Require Import Ascii String.
Local Open Scope string_scope.
Local Open Scope Z_scope.

(** ** [ORDER BY] on time stamps

    Rows are ordered by the stored strings, byte by byte, then by id. *)
Definition stamp_leb (x y : string * string) : bool :=
  if String.eqb x.1 y.1 then String.leb x.2 y.2 else String.leb x.1 y.1.

Definition order_by {A} (key : A -> string * string) (l : list A) : list A :=
  merge_sort (fun x y => Is_true (stamp_leb (key x) (key y))) l.

Lemma order_by_perm {A} (key : A -> string * string) l : order_by key l ≡ₚ l.
Proof. apply merge_sort_Permutation. Qed.

(** ** Accounts (app.go) *)
Definition CheckAccount (user : string) : Tx DB unit :=
  row ← SELECT Users user;
  match row with
  | None => fail ErrAccountDisabled
  | Some u => guard_err (negb (u_disabled u)) ErrAccountDisabled
  end.

(** ** Events (events.go) *)
Definition eventAllowed (events kind : string) : bool :=
  existsb (fun v => String.eqb (TrimSpace v) kind) (Split "," events).

Definition deliver (event : string) (kind : string) (sub : string * webhook_row) : Tx DB unit :=
  if negb (String.eqb (wh_events sub.2) "*") && negb (eventAllowed (wh_events sub.2) kind)
  then mret tt
  else INSERT_ignore Deliveries (event, sub.1) {| dl_attempts := 0; dl_next := 0; dl_error := ""; dl_delivered := None |}.

Definition emitEventTx (user kind : string) (data : list (string * string)) : Tx DB unit :=
  if String.eqb user "" || String.eqb (TrimSpace kind) "" then mret tt else
  event ← id;
  created ← Now;
  INSERT Events event {| ev_user := user; ev_kind := kind; ev_data := data; ev_created := created |} ;;
  now ← Now;
  subs ← SELECT_where Webhooks (fun _ w => String.eqb (wh_user w) user && wh_enabled w
                                           && (wh_muted_until w <=? UnixMilli now));
  for_each subs (deliver event kind).

(** ** Funding (funding.go) *)

Definition new_source (user order : string) (amount created : Z) : source_row :=
  {| f_user := user; f_order := order; f_amount := amount; f_remaining := amount; f_created := created |}.

Definition source_remaining (r : Z) (s : source_row) : source_row :=
  {| f_user := f_user s; f_order := f_order s; f_amount := f_amount s; f_remaining := r;
     f_created := f_created s |}.

Definition alloc_restored (r : Z) (a : alloc_row) : alloc_row :=
  {| a_amount := a_amount a; a_restored := r |}.

Definition source_key (kr : string * source_row) : string * string :=
  (stamp (f_created kr.2), kr.1).

(** The loop that takes [left] from the listed sources. *)
Fixpoint spend (reference : string) (list : list (string * source_row)) (left : Z) : Tx DB Z :=
  match list with
  | [] => mret left
  | (sid, v) :: rest =>
      let amount := Z.min left (f_remaining v) in
      if amount =? 0 then mret left else
      UPDATE FundSources sid (fun s => amount <=? f_remaining s)
             (fun s => source_remaining (f_remaining s - amount) s) ;;
      INSERT FundAllocs (reference, sid) {| a_amount := amount; a_restored := 0 |} ;;
      spend reference rest (left - amount)
  end.

(** The loop that gives [left] back to the allocations of a reference. *)
Fixpoint restore (reference : string) (list : list (string * Z)) (left : Z) : Tx DB Z :=
  match list with
  | [] => mret left
  | (sid, available) :: rest =>
      let n := Z.min left available in
      if n =? 0 then restore reference rest left else
      UPDATE FundAllocs (reference, sid) (fun _ => true)
             (fun a => alloc_restored (a_restored a + n) a) ;;
      UPDATE FundSources sid (fun _ => true)
             (fun s => source_remaining (f_remaining s + n) s) ;;
      let left := left - n in
      if left =? 0 then mret left else restore reference rest left
  end.

(** The join of a reference's allocations with this user's sources, in the
    order the sources were funded. *)
Definition refund_pick (user reference : string) (d : DB)
    (kr : (string * string) * alloc_row) : option ((string * Z) * (string * string)) :=
  let '((ref, sid), a) := kr in
  if String.eqb ref reference then
    match fund_sources d !! sid with
    | Some s => if String.eqb (f_user s) user
                then Some ((sid, a_amount a - a_restored a), (stamp (f_created s), sid))
                else None
    | None => None
    end
  else None.
Definition refundable (user reference : string) (d : DB) : list ((string * Z) * (string * string)) :=
  omap (refund_pick user reference d) (map_to_list (fund_allocs d)).

Definition restoreFunds (user reference : string) (amount : Z) (legacy : bool) : Tx DB unit :=
  list ← gets (fun d => (order_by snd (refundable user reference d)).*1);
  match list with
  | [] =>
      if legacy then
        now ← Now;
        INSERT FundSources ("release:" ++ reference) (new_source user "" amount now)
      else guard_err (amount =? 0) (ErrMsg "purchase lacks verified refundable funding history")
  | _ =>
      left ← restore reference list amount;
      guard_err (left =? 0) (ErrMsg "purchase lacks verified refundable funding history")
  end.

(** The first movement of a wallet that predates funding creates one source
    for the balance it has. *)
Definition openFunds (user : string) (balance : Z) : Tx DB unit :=
  marker ← SELECT FundAccounts user;
  match marker with
  | Some _ => mret tt
  | None =>
      INSERT FundAccounts user tt ;;
      if 0 <? balance then
        now ← Now;
        INSERT FundSources ("legacy:" ++ user) (new_source user "" balance now)
      else mret tt
  end.

(** The credit branch of [trackFunds]. *)
Definition creditFunds (user : string) (delta : Z) (kind reference : string) : Tx DB unit :=
  let target := if String.eqb kind "refund_release"
                then "refund-reserve:" ++ TrimPrefix reference "refund-release:" else "" in
  target ← (if String.eqb kind "purchase_refund" then
              row ← SELECT PurchaseRefunds reference;
              r ← or_fail row ErrNoRows;
              mret (pr_purchase r)
            else mret target);
  if negb (String.eqb target "") then
    restoreFunds user target delta (String.eqb kind "refund_release")
  else
    now ← Now;
    INSERT FundSources reference
      (new_source user (if String.eqb kind "recharge" then TrimPrefix reference "payment:" else "") delta now).

(** The debit branch of [trackFunds]: a refund reservation may only take
    the money of its own order, when that order has any source. *)
Definition debitFunds (user : string) (amount : Z) (kind reference : string) : Tx DB unit :=
  only ← (if String.eqb kind "refund_reserve" then
            row ← SELECT Refunds (TrimPrefix reference "refund-reserve:");
            r ← or_fail row ErrNoRows;
            sources ← SELECT_where FundSources
              (fun _ s => String.eqb (f_user s) user && String.eqb (f_order s) (rf_order r));
            mret (if bool_decide (sources = []) then None else Some (rf_order r))
          else mret None);
  list ← SELECT_where FundSources
    (fun _ s => String.eqb (f_user s) user && (0 <? f_remaining s)
                && match only with Some o => String.eqb (f_order s) o | None => true end);
  left ← spend reference (order_by source_key list) amount;
  guard_err (left =? 0)
    (ErrMsg "original recharge funds are spent; refund the associated purchase to wallet first").

Definition trackFunds (user : string) (balance delta : Z) (kind reference : string) : Tx DB unit :=
  openFunds user balance ;;
  if delta =? 0 then mret tt else
  if 0 <? delta then creditFunds user delta kind reference
  else debitFunds user (wrap64 (- delta)) kind reference.

(** ** Wallets *)

(** The wallet row, created empty when missing, locked for the rest of the
    transaction. *)
Definition walletTx (user : string) : Tx DB (Z * Z) :=
  INSERT_ignore Wallets user {| w_balance := 0; w_version := 0 |} ;;
  row ← SELECT Wallets user;
  w ← or_fail row ErrNoRows;
  mret (w_balance w, w_version w).

Definition post (user : string) (delta : Z) (kind reference : string) : Tx DB unit :=
  '(balance, v) ← walletTx user;
  if (0 <? delta) && (MaxInt64 - delta <? balance) then fail (ErrMsg "balance overflow") else
  if (delta <? 0) && (balance <? wrap64 (- delta)) then fail ErrFunds else
  trackFunds user balance delta kind reference ;;
  n ← UPDATE Wallets user (fun w => w_version w =? v)
        (fun w => {| w_balance := wrap64 (balance + delta); w_version := w_version w + 1 |});
  guard_err (n =? 1) ErrConflict ;;
  lid ← id;
  now ← Now;
  INSERT Ledger lid {| l_user := user; l_amount := delta; l_balance := wrap64 (balance + delta);
                       l_kind := kind; l_reference := reference; l_created := now |} ;;
  emitEventTx user ("wallet." ++ kind)
    [("amount_cents", FormatInt delta); ("balance_cents", FormatInt (wrap64 (balance + delta)));
     ("reference", reference)].

(** [Service.Wallet]: the balance, zero without a row. *)
Definition balance_in (m : gmap string wallet_row) (user : string) : Z :=
  match m !! user with Some w => w_balance w | None => 0 end.
Definition Wallet (d : DB) (user : string) : Z := balance_in (wallets d) user.

(** ** The books

    [books bal d]: the fund sources of every tracked user add up to his
    balance [bal], every source splits into what remains of it and what is
    allocated and not restored, and no allocation is restored beyond its
    amount. *)
Definition mine (user : string) (s : source_row) : Z :=
  if String.eqb (f_user s) user then f_remaining s else 0.
Definition funds (user : string) (m : gmap string source_row) : Z :=
  map_sum (fun _ => mine user) m.
Definition out_of (sid : string) (k : string * string) (a : alloc_row) : Z :=
  if String.eqb k.2 sid then a_amount a - a_restored a else 0.
Definition outstanding (sid : string) (m : gmap (string * string) alloc_row) : Z :=
  map_sum (out_of sid) m.

Record books_on (bal : string -> Z) (accounts : gmap string unit)
    (sources : gmap string source_row) (allocs : gmap (string * string) alloc_row) : Prop := {
  b_balance user : is_Some (accounts !! user) -> funds user sources = bal user;
  b_account sid s : sources !! sid = Some s -> is_Some (accounts !! f_user s);
  b_remaining sid s : sources !! sid = Some s -> 0 <= f_remaining s;
  b_restored k a : allocs !! k = Some a -> 0 <= a_restored a <= a_amount a;
  b_split sid s : sources !! sid = Some s -> f_amount s = f_remaining s + outstanding sid allocs;
  b_source ref sid a : allocs !! (ref, sid) = Some a -> is_Some (sources !! sid)
}.
Definition books (bal : string -> Z) (d : DB) : Prop :=
  books_on bal (fund_accounts d) (fund_sources d) (fund_allocs d).

(** A balance function changed at one user. *)
Definition move (bal : string -> Z) (user : string) (x : Z) : string -> Z :=
  fun u => if String.eqb u user then bal u + x else bal u.

Lemma books_ext bal bal' d : (forall u, bal u = bal' u) -> books bal d -> books bal' d.
Proof. intros He []. split; try done. intros u Hu. rewrite <- He. auto. Qed.

Lemma move_move bal user x y u : move (move bal user x) user y u = move bal user (x + y) u.
Proof. unfold move. destruct (String.eqb u user); lia. Qed.

Lemma move_0 bal user u : move bal user 0 u = bal u.
Proof. unfold move. destruct (String.eqb u user); lia. Qed.

Lemma funds_insert (user sid : string) (s : source_row) (m : gmap string source_row) :
  funds user (<[sid:=s]> m) = funds user m + mine user s - from_option (mine user) 0 (m !! sid).
Proof. exact (map_sum_insert (fun _ => mine user) m sid s). Qed.

Lemma outstanding_insert (sid : string) (k : string * string) (a : alloc_row) (m : gmap (string * string) alloc_row) :
  outstanding sid (<[k:=a]> m) =
    outstanding sid m + out_of sid k a - from_option (out_of sid k) 0 (m !! k).
Proof. exact (map_sum_insert (out_of sid) m k a). Qed.

Lemma outstanding_absent bal accounts sources allocs sid :
  books_on bal accounts sources allocs -> sources !! sid = None -> outstanding sid allocs = 0.
Proof.
  intros Hb Hn. apply map_sum_all_zero. intros [ref sid'] a Ha. unfold out_of. simpl.
  destruct (String.eqb sid' sid) eqn:E; [|done]. apply String.eqb_eq in E as ->.
  destruct (b_source _ _ _ _ Hb _ _ _ Ha). congruence.
Qed.

(** A new source of a tracked user. *)
Lemma books_new_source bal d sid user order amount created :
  books bal d -> is_Some (fund_accounts d !! user) -> fund_sources d !! sid = None -> 0 <= amount ->
  books (move bal user amount) (t_set FundSources (<[sid:=new_source user order amount created]>) d).
Proof.
  intros Hb Hacc Hn Ham. destruct Hb eqn:EHb. clear EHb. constructor; simpl in *.
  - intros u Hu. rewrite funds_insert, Hn, b_balance0 by done. simpl. unfold mine, move. simpl.
    rewrite (String.eqb_sym u user). destruct (String.eqb user u); lia.
  - intros sid' s'. destruct (decide (sid' = sid)) as [->|].
    + rewrite lookup_insert_eq. intros [= <-]. done.
    + rewrite lookup_insert_ne by done. eauto.
  - intros sid' s'. destruct (decide (sid' = sid)) as [->|].
    + rewrite lookup_insert_eq. intros [= <-]. done.
    + rewrite lookup_insert_ne by done. eauto.
  - done.
  - intros sid' s'. destruct (decide (sid' = sid)) as [->|].
    + rewrite lookup_insert_eq. intros [= <-]. simpl.
      rewrite (outstanding_absent _ _ _ _ _ Hb Hn). lia.
    + rewrite lookup_insert_ne by done. eauto.
  - intros ref sid' a Ha. apply lookup_insert_is_Some'. eauto.
Qed.

(** Changing the remainder of one source together with one allocation. *)
Lemma books_shift bal d (sid ref : string) (s : source_row) (a : alloc_row) x :
  books bal d -> fund_sources d !! sid = Some s ->
  0 <= f_remaining s + x ->
  0 <= a_restored a <= a_amount a ->
  out_of sid (ref, sid) a - from_option (out_of sid (ref, sid)) 0 (fund_allocs d !! (ref, sid)) = - x ->
  books (move bal (f_user s) x)
    (t_set FundAllocs (<[(ref, sid):=a]>)
      (t_set FundSources (<[sid:=source_remaining (f_remaining s + x) s]>) d)).
Proof.
  intros [] Hs Hx Ha Hout. constructor; simpl in *.
  - intros u Hu. rewrite funds_insert, Hs, b_balance0 by done. simpl. unfold mine, move. simpl.
    rewrite (String.eqb_sym u). destruct (String.eqb (f_user s) u); lia.
  - intros sid' s'. destruct (decide (sid' = sid)) as [->|].
    + rewrite lookup_insert_eq. intros [= <-]. simpl. eauto.
    + rewrite lookup_insert_ne by done. eauto.
  - intros sid' s'. destruct (decide (sid' = sid)) as [->|].
    + rewrite lookup_insert_eq. intros [= <-]. done.
    + rewrite lookup_insert_ne by done. eauto.
  - intros k a'. destruct (decide (k = (ref, sid))) as [->|].
    + rewrite lookup_insert_eq. by intros [= <-].
    + rewrite lookup_insert_ne by done. eauto.
  - intros sid' s'. rewrite outstanding_insert. destruct (decide (sid' = sid)) as [->|].
    + rewrite lookup_insert_eq. intros [= <-]. simpl. specialize (b_split0 sid s Hs). lia.
    + rewrite lookup_insert_ne by done. intros Hs'. rewrite (b_split0 sid' s' Hs').
      assert (Hz : forall a', out_of sid' (ref, sid) a' = 0).
      { intros a'. unfold out_of. simpl. destruct (String.eqb sid sid') eqn:E; [|done].
        apply String.eqb_eq in E. congruence. }
      rewrite Hz. destruct (fund_allocs d !! (ref, sid)); simpl; rewrite ?Hz; lia.
  - intros ref' sid' a'. destruct (decide (sid' = sid)) as [->|].
    + intros _. rewrite lookup_insert_eq. eauto.
    + rewrite lookup_insert_ne by congruence. intros Ha'. rewrite lookup_insert_ne by done. eauto.
Qed.

(** ** Spending and restoring *)

(** What the other tables see of a funding operation: nothing.  [rest]
    is the database without the tables of money, events and deliveries. *)
Definition rest (d : DB) : DB :=
  t_set Wallets (fun _ => ∅) (t_set Ledger (fun _ => ∅) (t_set FundAccounts (fun _ => ∅)
    (t_set FundSources (fun _ => ∅) (t_set FundAllocs (fun _ => ∅) (t_set Events (fun _ => ∅)
      (t_set Deliveries (fun _ => ∅) d)))))).
Definition untouched (d0 d : DB) : Prop := rest d = rest d0.

(** Wallet rows and ledger as they are while the sources move. *)
Definition ledger_at (W : gmap string wallet_row) (L : gmap string ledger_row) (d : DB) : Prop :=
  wallets d = W /\ ledger d = L.

Definition listed (user : string) (l : list (string * source_row)) (d : DB) : Prop :=
  NoDup l.*1 /\
  Forall (fun kr => fund_sources d !! kr.1 = Some kr.2 /\ f_user kr.2 = user) l.

Lemma listed_tail user sid v l s' (d : DB) :
  listed user ((sid, v) :: l) d -> listed user l (t_set FundSources (<[sid:=s']>) d).
Proof.
  intros [Hn Hf]. apply NoDup_cons in Hn as [Hni Hn]. apply Forall_cons in Hf as [_ Hf].
  split; [done|]. rewrite Forall_forall in *. intros [sid' v'] Hin. simpl in *.
  rewrite lookup_insert_ne; [by apply (Hf (sid', v'))|].
  intros ->. apply Hni. apply list_elem_of_fmap. by exists (sid', v').
Qed.

Section Spend.
Context (W : gmap string wallet_row) (L : gmap string ledger_row).

Lemma spend_spec user reference l left bal :
  0 <= left ->
  hoare (fun d => books bal d /\ ledger_at W L d /\ listed user l d)
    (spend reference l left)
    (fun left' d => 0 <= left' <= left /\ books (move bal user (left' - left)) d /\ ledger_at W L d).
Proof.
  revert left bal. induction l as [|[sid v] l IH]; intros left bal Hleft; simpl.
  { apply hoare_ret. intros d (Hb & HL & _). split; [lia|]. split; [|done].
    apply (books_ext bal); [|done]. intros u. by rewrite Z.sub_diag, move_0. }
  set (amount := Z.min left (f_remaining v)).
  assert (Hmin : amount <= left /\ amount <= f_remaining v /\ (0 <= f_remaining v -> 0 <= amount))
    by (unfold amount; lia). clearbody amount.
  destruct (amount =? 0) eqn:Ez; bool_to_prop.
  { apply hoare_ret. intros d (Hb & HL & _). split; [lia|]. split; [|done].
    apply (books_ext bal); [|done]. intros u. by rewrite Z.sub_diag, move_0. }
  eapply hoare_bind with (R := fun _ d =>
    exists d0, d = t_set FundSources (<[sid:=source_remaining (f_remaining v - amount) v]>) d0 /\
    books bal d0 /\ ledger_at W L d0 /\ listed user ((sid, v) :: l) d0).
  { apply hoare_UPDATE.
    - intros d r (Hb & HL & Hl) Hr Hp. exists d. split; [|done].
      destruct Hl as [_ Hl]. apply Forall_cons in Hl as [[Hs _] _]. simpl in *.
      assert (r = v) as -> by congruence. done.
    - intros d (Hb & HL & Hl) Hp. exfalso. destruct Hl as [_ Hl].
      apply Forall_cons in Hl as [[Hs _] _]. simpl in *. specialize (Hp _ Hs).
      bool_to_prop. lia. }
  intros _. eapply hoare_bind with (R := fun _ d =>
    (books (move bal user (- amount)) d /\ ledger_at W L d /\ listed user l d) /\ 0 <= amount).
  { apply hoare_INSERT. intros d (d0 & -> & Hb & HL & Hl) Hn _. simpl in Hn.
    pose proof Hl as [Hnd Hf]. apply Forall_cons in Hf as [[Hs Hu] _]. simpl in Hs, Hu.
    pose proof (b_remaining _ _ _ _ Hb _ _ Hs) as Hr.
    split; [|lia]. split; [|split; [done|]].
    - rewrite <- Hu. replace (f_remaining v - amount) with (f_remaining v + - amount) by lia.
      apply books_shift; simpl; [done|done|lia|lia|].
      rewrite Hn. simpl. unfold out_of. simpl. rewrite String.eqb_refl. simpl. lia.
    - exact (listed_tail user sid v l _ d0 Hl). }
  intros _. apply hoare_pure. intros Hpos.
  eapply hoare_conseq; [apply (IH (left - amount) (move bal user (- amount))); lia|auto|].
  intros left' d (Hle & Hb & HL). split; [lia|]. split; [|done].
  eapply books_ext; [|exact Hb]. intros u. rewrite move_move. f_equal. lia.
Qed.

Definition restorable (user reference : string) (l : list (string * Z)) (d : DB) : Prop :=
  NoDup l.*1 /\
  Forall (fun kr => exists a s, fund_allocs d !! (reference, kr.1) = Some a
    /\ kr.2 = a_amount a - a_restored a /\ fund_sources d !! kr.1 = Some s /\ f_user s = user) l.

Lemma restorable_tail user reference sid x l s' a' (d : DB) :
  restorable user reference ((sid, x) :: l) d ->
  restorable user reference l
    (t_set FundAllocs (<[(reference, sid):=a']>) (t_set FundSources (<[sid:=s']>) d)).
Proof.
  intros [Hn Hf]. apply NoDup_cons in Hn as [Hni Hn]. apply Forall_cons in Hf as [_ Hf].
  split; [done|]. rewrite Forall_forall in *. intros [sid' x'] Hin. simpl in *.
  assert (sid' <> sid) by (intros ->; apply Hni, list_elem_of_fmap; by exists (sid, x')).
  rewrite !lookup_insert_ne by congruence. by apply (Hf (sid', x')).
Qed.

Lemma restore_spec user reference l left bal :
  0 <= left ->
  hoare (fun d => books bal d /\ ledger_at W L d /\ restorable user reference l d)
    (restore reference l left)
    (fun left' d => 0 <= left' <= left /\ books (move bal user (left - left')) d /\ ledger_at W L d).
Proof.
  revert left bal. induction l as [|[sid x] l IH]; intros left bal Hleft; simpl.
  { apply hoare_ret. intros d (Hb & HL & _). split; [lia|]. split; [|done].
    apply (books_ext bal); [|done]. intros u. by rewrite Z.sub_diag, move_0. }
  set (n := Z.min left x).
  assert (Hmin : n <= left /\ n <= x /\ (0 <= x -> 0 <= n)) by (unfold n; lia). clearbody n.
  destruct (n =? 0) eqn:Ez; bool_to_prop.
  { eapply hoare_conseq; [apply (IH left bal Hleft)| |auto]. intros d (Hb & HL & Hn & Hf).
    split; [done|]. split; [done|]. split; [by apply NoDup_cons in Hn as [_ Hn]|].
    by apply Forall_cons in Hf as [_ Hf]. }
  eapply hoare_bind with (R := fun _ d => exists d0 a,
    d = t_set FundAllocs (<[(reference, sid):=alloc_restored (a_restored a + n) a]>) d0 /\
    fund_allocs d0 !! (reference, sid) = Some a /\
    books bal d0 /\ ledger_at W L d0 /\ restorable user reference ((sid, x) :: l) d0).
  { apply hoare_UPDATE.
    - intros d a (Hb & HL & Hl) Ha _. exists d, a. done.
    - intros d (Hb & HL & Hn & Hf) Hp. exfalso. apply Forall_cons in Hf as [(a & s & Ha & _) _].
      by specialize (Hp _ Ha). }
  intros _. eapply hoare_bind with (R := fun _ d =>
    (books (move bal user n) d /\ ledger_at W L d /\ restorable user reference l d) /\ 0 <= n).
  { apply hoare_UPDATE.
    - intros d s (d0 & a & -> & Ha & Hb & HL & Hl) Hs _. simpl in Hs.
      pose proof Hl as [_ Hf]. apply Forall_cons in Hf as [(a' & s' & Ha' & Hx & Hs' & Hu) _].
      simpl in *. simplify_eq.
      pose proof (b_remaining _ _ _ _ Hb _ _ Hs). pose proof (b_restored _ _ _ _ Hb _ _ Ha).
      split; [|lia]. split; [|split; [done|]].
      + apply (books_shift bal d0 sid reference s (alloc_restored (a_restored a + n) a) n);
          simpl; [done|done|lia|lia|].
        rewrite Ha. unfold out_of. simpl. rewrite String.eqb_refl. simpl. lia.
      + exact (restorable_tail _ reference sid _ l _ _ d0 Hl).
    - intros d (d0 & a & -> & Ha & Hb & HL & Hl) Hp. exfalso. destruct Hl as [_ Hf].
      apply Forall_cons in Hf as [(a' & s' & _ & _ & Hs' & _) _]. by specialize (Hp _ Hs'). }
  intros _. apply hoare_pure. intros Hpos. destruct (left - n =? 0) eqn:E0; bool_to_prop.
  { apply hoare_ret. intros d (Hb & HL & _). split; [lia|]. split; [|done].
    eapply books_ext; [|exact Hb]. intros u. f_equal. lia. }
  eapply hoare_conseq; [apply (IH (left - n) (move bal user n)); lia|auto|].
  intros left' d (Hle & Hb & HL). split; [lia|]. split; [|done].
  eapply books_ext; [|exact Hb]. intros u. rewrite move_move. f_equal. lia.
Qed.
End Spend.

Lemma refund_pick_Some user reference d ref sid a sid' x k :
  refund_pick user reference d ((ref, sid), a) = Some ((sid', x), k) ->
  ref = reference /\ sid' = sid /\ x = a_amount a - a_restored a /\
  exists s, fund_sources d !! sid = Some s /\ f_user s = user.
Proof.
  unfold refund_pick. destruct (String.eqb ref reference) eqn:Er; [|done].
  destruct (fund_sources d !! sid) as [s|] eqn:Es; [|done].
  destruct (String.eqb (f_user s) user) eqn:Eu; [|done].
  intros [= <- <- <-]. bool_to_prop. eauto 6.
Qed.

Lemma refund_pick_NoDup user reference d (l : list ((string * string) * alloc_row)) :
  NoDup l.*1 -> NoDup ((omap (refund_pick user reference d) l).*1.*1).
Proof.
  induction l as [|[[ref sid] a] l IH]; [constructor|]. intros [Hni Hn]%NoDup_cons.
  cbn [omap list_omap]. destruct (refund_pick user reference d (ref, sid, a)) as [[[sid' x] k]|] eqn:E; [|auto].
  apply refund_pick_Some in E as (-> & -> & _). cbn. apply NoDup_cons. split; [|auto].
  intros Hin. apply list_elem_of_fmap in Hin as ([sid1 x1] & -> & Hin).
  apply list_elem_of_fmap in Hin as ([[sid2 x2] k2] & [= -> ->] & Hin).
  apply list_elem_of_omap in Hin as ([[ref3 sid3] a3] & Hin & E3).
  apply refund_pick_Some in E3 as (-> & -> & _).
  apply Hni. apply list_elem_of_fmap. by exists ((reference, sid3), a3).
Qed.

Lemma refundable_restorable user reference d :
  restorable user reference ((order_by snd (refundable user reference d)).*1) d.
Proof.
  assert (Hp : ((order_by snd (refundable user reference d)).*1) ≡ₚ
               (refundable user reference d).*1).
  { by rewrite order_by_perm. }
  split.
  - rewrite Hp. apply refund_pick_NoDup, NoDup_fst_map_to_list.
  - rewrite Hp. apply Forall_forall. intros [sid x] Hin.
    apply list_elem_of_fmap in Hin as ([[sid2 x2] k2] & [= -> ->] & Hin).
    apply list_elem_of_omap in Hin as ([[ref3 sid3] a3] & Hin & E3).
    apply refund_pick_Some in E3 as (-> & -> & -> & s & Hs & Hu).
    apply elem_of_map_to_list in Hin. eauto 6.
Qed.

Lemma listed_rows user p (d : DB) :
  (forall k s, p k s = true -> f_user s = user) ->
  listed user (order_by source_key (rows_where FundSources p d)) d.
Proof.
  intros Hp. pose proof (order_by_perm source_key (rows_where FundSources p d)) as Hperm.
  split.
  - rewrite Hperm. apply NoDup_fst_filter, NoDup_fst_map_to_list.
  - rewrite Hperm. apply Forall_forall. intros [sid s] Hin.
    apply list_elem_of_filter in Hin as [Hpx Hin]. apply elem_of_map_to_list in Hin.
    split; [done|]. apply (Hp sid). by apply Is_true_eq_true.
Qed.

(** ** [trackFunds] keeps the books *)

Definition tracked (user : string) (d : DB) : Prop := is_Some (fund_accounts d !! user).

Section Track.
Context (W : gmap string wallet_row) (L : gmap string ledger_row) (bal : string -> Z).

Lemma openFunds_spec user :
  0 <= bal user ->
  hoare (fun d => books bal d /\ ledger_at W L d) (openFunds user (bal user))
    (fun _ d => (books bal d /\ ledger_at W L d) /\ tracked user d).
Proof.
  intros Hnn. unfold openFunds.
  eapply hoare_bind with (R := fun m d => m = fund_accounts d !! user /\ books bal d /\ ledger_at W L d);
    [by apply hoare_SELECT|].
  intros [[]|]; [apply hoare_ret; intros d (Hm & HB); split; [done|]; unfold tracked; rewrite <- Hm; eauto|].
  set (untracked := fun u => if String.eqb u user then 0 else bal u).
  eapply hoare_bind with (R := fun _ d => (books untracked d /\ ledger_at W L d) /\ tracked user d).
  { apply hoare_INSERT. intros d (Hm & Hb & HL) _ _.
    assert (Hmine : forall sid s, fund_sources d !! sid = Some s -> String.eqb (f_user s) user = false).
    { intros sid s Hs. apply String.eqb_neq. intros <-.
      destruct (b_account _ _ _ _ Hb _ _ Hs). congruence. }
    split; [split; [|done]|unfold tracked; simpl; rewrite lookup_insert_eq; eauto].
    destruct Hb. constructor; simpl; try done.
    - intros u. unfold untracked. destruct (String.eqb u user) eqn:E; bool_to_prop; subst.
      + intros _. apply map_sum_all_zero. intros sid s Hs. unfold mine. by rewrite (Hmine sid s Hs).
      + rewrite lookup_insert_ne by done. auto.
    - intros sid s Hs. apply lookup_insert_is_Some'. eauto. }
  intros _. destruct (0 <? bal user) eqn:Ep; bool_to_prop.
  - read_bind. apply hoare_INSERT. intros d [[Hb HL] Ht] Hn _.
    split; [split; [|done]|done].
    eapply books_ext; [|apply books_new_source; [exact Hb|done|done|lia]].
    intros u. unfold move, untracked. destruct (String.eqb u user) eqn:E; [|done].
    bool_to_prop. subst. lia.
  - apply hoare_ret. intros d [[Hb HL] Ht]. split; [split; [|done]|done].
    eapply books_ext; [|exact Hb]. intros u. unfold untracked.
    destruct (String.eqb u user) eqn:E; [|done]. bool_to_prop. subst. lia.
Qed.

Lemma new_source_spec user sid order amount :
  0 <= amount ->
  hoare (fun d => (books bal d /\ ledger_at W L d) /\ tracked user d)
    (now ← Now; INSERT FundSources sid (new_source user order amount now))
    (fun _ d => books (move bal user amount) d /\ ledger_at W L d).
Proof.
  intros Ham. read_bind. apply hoare_INSERT. intros d [[Hb HL] Ht] Hn _. split; [|done].
  by apply books_new_source.
Qed.

Lemma restoreFunds_spec user reference amount legacy :
  0 <= amount ->
  hoare (fun d => (books bal d /\ ledger_at W L d) /\ tracked user d)
    (restoreFunds user reference amount legacy)
    (fun _ d => books (move bal user amount) d /\ ledger_at W L d).
Proof.
  intros Ham. unfold restoreFunds.
  eapply hoare_bind with (R := fun l d => (books bal d /\ ledger_at W L d /\ restorable user reference l d)
    /\ tracked user d).
  { apply hoare_gets. intros d [[Hb HL] Ht]. split; [|done]. split; [done|]. split; [done|].
    apply refundable_restorable. }
  intros l. assert (Hloop : hoare
    (fun d => (books bal d /\ ledger_at W L d /\ restorable user reference l d) /\ tracked user d)
    (left ← restore reference l amount;
     guard_err (left =? 0) (ErrMsg "purchase lacks verified refundable funding history"))
    (fun _ d => books (move bal user amount) d /\ ledger_at W L d)).
  { eapply hoare_bind.
    - eapply hoare_conseq; [apply (restore_spec W L user reference l amount bal Ham)| |].
      + intros d [H _]. exact H.
      + intros left d H. exact H.
    - intros left. apply hoare_guard. intros E d (Hle & Hb & HL). bool_to_prop. subst left.
      rewrite Z.sub_0_r in Hb. done. }
  destruct l as [|x l]; [|exact Hloop].
  destruct legacy.
  - eapply hoare_conseq; [apply new_source_spec; exact Ham| |auto]. intros d [(Hb & HL & _) Ht]. auto.
  - apply hoare_guard. intros E d [(Hb & HL & _) _]. bool_to_prop. subst amount. split; [|done].
    eapply books_ext; [|exact Hb]. intros u. by rewrite move_0.
Qed.

Lemma creditFunds_spec user delta kind reference :
  0 <= delta ->
  hoare (fun d => (books bal d /\ ledger_at W L d) /\ tracked user d)
    (creditFunds user delta kind reference)
    (fun _ d => books (move bal user delta) d /\ ledger_at W L d).
Proof.
  intros Hd. unfold creditFunds.
  eapply hoare_bind with (R := fun _ d => (books bal d /\ ledger_at W L d) /\ tracked user d).
  { destruct (String.eqb kind "purchase_refund"); [|by apply hoare_ret].
    do 2 read_bind. by apply hoare_ret. }
  intros target. destruct (negb (String.eqb target "")).
  - by apply restoreFunds_spec.
  - by apply new_source_spec.
Qed.

Lemma debitFunds_spec user amount kind reference :
  0 <= amount ->
  hoare (fun d => (books bal d /\ ledger_at W L d) /\ tracked user d)
    (debitFunds user amount kind reference)
    (fun _ d => books (move bal user (- amount)) d /\ ledger_at W L d).
Proof.
  intros Ham. unfold debitFunds.
  eapply hoare_bind with (R := fun _ d => books bal d /\ ledger_at W L d).
  { destruct (String.eqb kind "refund_reserve"); [|apply hoare_ret; tauto].
    do 3 read_bind. apply hoare_ret; tauto. }
  intros only. eapply hoare_bind with (R := fun l d =>
    books bal d /\ ledger_at W L d /\ listed user (order_by source_key l) d).
  { apply hoare_SELECT_where. intros d [Hb HL]. split; [done|]. split; [done|].
    apply listed_rows. intros k s Hp. by bool_to_prop. }
  intros l. eapply hoare_bind; [apply (spend_spec W L); exact Ham|].
  intros left. apply hoare_guard. intros E d (Hle & Hb & HL). bool_to_prop. subst left. done.
Qed.

Lemma trackFunds_spec user delta kind reference :
  0 <= bal user -> - MaxInt64 <= delta <= MaxInt64 ->
  hoare (fun d => books bal d /\ ledger_at W L d)
    (trackFunds user (bal user) delta kind reference)
    (fun _ d => books (move bal user delta) d /\ ledger_at W L d).
Proof.
  intros Hnn Hdelta. unfold trackFunds.
  eapply hoare_bind; [by apply openFunds_spec|]. intros ?.
  destruct (delta =? 0) eqn:E0; bool_to_prop.
  { subst delta. apply hoare_ret. intros d [[Hb HL] _]. split; [|done].
    eapply books_ext; [|exact Hb]. intros u. by rewrite move_0. }
  destruct (0 <? delta) eqn:Ep; bool_to_prop.
  { apply creditFunds_spec. lia. }
  rewrite wrap64_id by (unfold in_int64, MinInt64, MaxInt64 in *; lia).
  eapply hoare_conseq; [apply debitFunds_spec; lia|auto|].
  intros ? d H. by rewrite Z.opp_involutive in H.
Qed.
End Track.

(** ** [post]

    The invariant of the money tables: balances lie in [0, MaxInt64], each
    is the sum of its owner's ledger lines, and the books agree with it. *)
Definition ledger_sum (user : string) (m : gmap string ledger_row) : Z :=
  map_sum (fun _ l => if String.eqb (l_user l) user then l_amount l else 0) m.

Record wallet_inv_on (W : gmap string wallet_row) (L : gmap string ledger_row)
    (accounts : gmap string unit) (sources : gmap string source_row)
    (allocs : gmap (string * string) alloc_row) : Prop := {
  wi_range user w : W !! user = Some w -> 0 <= w_balance w <= MaxInt64;
  wi_ledger user : balance_in W user = ledger_sum user L;
  wi_reference k r k' r' : L !! k = Some r -> L !! k' = Some r' -> l_reference r = l_reference r' -> k = k';
  wi_books : books_on (balance_in W) accounts sources allocs
}.
Definition wallet_inv (d : DB) : Prop :=
  wallet_inv_on (wallets d) (ledger d) (fund_accounts d) (fund_sources d) (fund_allocs d).

Lemma Wallet_range d user : wallet_inv d -> 0 <= Wallet d user <= MaxInt64.
Proof.
  intros Hi. unfold Wallet, balance_in. destruct (wallets d !! user) as [w|] eqn:E; [|done].
  by apply (wi_range _ _ _ _ _ Hi) in E.
Qed.

(** An event changes no table of the invariants. *)
Lemma emitEventTx_keeps (P : DB -> Prop) user kind data :
  (forall d f, P d -> P (t_set Events f d)) -> (forall d f, P d -> P (t_set Deliveries f d)) ->
  keeps P (emitEventTx user kind data).
Proof.
  intros He Hd. unfold emitEventTx. destruct (_ || _); [by apply hoare_ret|].
  do 2 read_bind. eapply hoare_bind_inv; [apply hoare_INSERT; auto|]. intros _.
  do 2 read_bind. apply keeps_for_each. intros sub _. unfold deliver.
  destruct (_ && _); [by apply hoare_ret|]. apply hoare_INSERT_ignore; auto.
Qed.

(** The wallet row exists afterwards, and only an absent row changed. *)
Lemma walletTx_spec user d0 :
  hoare (fun d => d = d0) (walletTx user)
    (fun r d => exists w, wallets d = <[user:=w]> (wallets d0) /\ r = (w_balance w, w_version w) /\
      (d = d0 \/ d = t_set Wallets (<[user:=w]>) d0) /\ w_balance w = Wallet d0 user).
Proof.
  unfold walletTx.
  eapply hoare_bind with (R := fun _ d => exists w, wallets d = <[user:=w]> (wallets d0) /\
      (d = d0 \/ d = t_set Wallets (<[user:=w]>) d0) /\ w_balance w = Wallet d0 user).
  { apply hoare_INSERT_ignore.
    - intros d -> [w Hw]. exists w. simpl in Hw. rewrite insert_id by done. split; [done|].
      split; [by left|]. unfold Wallet, balance_in. by rewrite Hw.
    - intros d -> Hn. eexists. split; [done|]. split; [by right|]. unfold Wallet, balance_in. simpl in *. by rewrite Hn. }
  intros _. eapply hoare_bind with (R := fun row d => row = wallets d !! user /\ exists w,
      wallets d = <[user:=w]> (wallets d0) /\
      (d = d0 \/ d = t_set Wallets (<[user:=w]>) d0) /\ w_balance w = Wallet d0 user).
  { apply hoare_SELECT. auto. }
  intros row. eapply hoare_bind with (R := fun w d => wallets d = <[user:=w]> (wallets d0) /\
      (d = d0 \/ d = t_set Wallets (<[user:=w]>) d0) /\ w_balance w = Wallet d0 user).
  { apply hoare_or_fail. intros w Hrow d (-> & w' & Hw & Hd & Hb). rewrite Hw, lookup_insert_eq in Hrow.
    injection Hrow as ->. done. }
  intros w. apply hoare_ret. intros d (Hw & Hd & Hb). eauto 6.
Qed.

Lemma balance_in_insert m user w u :
  balance_in (<[user:=w]> m) u = if String.eqb u user then w_balance w else balance_in m u.
Proof.
  unfold balance_in. destruct (String.eqb u user) eqn:E; bool_to_prop.
  - subst. by rewrite lookup_insert_eq.
  - by rewrite lookup_insert_ne by congruence.
Qed.

Lemma wallet_inv_open d user w :
  wallet_inv d -> w_balance w = Wallet d user -> wallet_inv (t_set Wallets (<[user:=w]>) d).
Proof.
  intros Hi Hw. pose proof (Wallet_range d user Hi) as Hr. destruct Hi.
  assert (He : forall u, balance_in (<[user:=w]> (wallets d)) u = balance_in (wallets d) u).
  { intros u. rewrite balance_in_insert. destruct (String.eqb u user) eqn:E; [|done].
    bool_to_prop. by subst. }
  split; simpl.
  - intros u w'. destruct (decide (u = user)) as [->|].
    + rewrite lookup_insert_eq. intros [= <-]. by rewrite Hw.
    + rewrite lookup_insert_ne by done. eauto.
  - intros u. by rewrite He.
  - done.
  - apply (books_ext (Wallet d) _ d); [|exact wi_books0]. intros u. by rewrite He.
Qed.

Lemma walletTx_keeps user : keeps wallet_inv (walletTx user).
Proof.
  intros env d t r d' t' Hrun Hi.
  destruct (walletTx_spec user d _ _ _ _ _ _ Hrun eq_refl) as (w & _ & _ & [-> | ->] & Hw); [done|].
  by apply wallet_inv_open.
Qed.

(** The ledger line [post] writes. *)
Definition posted (user : string) (delta : Z) (kind reference : string) (d0 d : DB) : Prop :=
  exists lid row,
    ledger d0 !! lid = None /\ ledger d = <[lid:=row]> (ledger d0) /\
    l_user row = user /\ l_amount row = delta /\ l_balance row = Wallet d0 user + delta /\
    l_kind row = kind /\ l_reference row = reference /\
    (forall k r, ledger d0 !! k = Some r -> l_reference r <> reference).

Lemma ledger_sum_insert user lid row (m : gmap string ledger_row) :
  m !! lid = None ->
  ledger_sum user (<[lid:=row]> m) =
    ledger_sum user m + (if String.eqb (l_user row) user then l_amount row else 0).
Proof. intros Hn. unfold ledger_sum. rewrite map_sum_insert_None by done. lia. Qed.

(** The tables after the wallet and the ledger have been written. *)
Lemma wallet_inv_post d0 d user delta w lid row :
  wallet_inv d0 -> books (move (Wallet d0) user delta) d ->
  wallets d = <[user:=w]> (wallets d0) -> w_balance w = Wallet d0 user + delta ->
  0 <= Wallet d0 user + delta <= MaxInt64 ->
  ledger d = <[lid:=row]> (ledger d0) -> ledger d0 !! lid = None ->
  l_user row = user -> l_amount row = delta ->
  (forall k r, ledger d0 !! k = Some r -> l_reference r <> l_reference row) ->
  wallet_inv d /\ (forall u, Wallet d u = move (Wallet d0) user delta u).
Proof.
  intros Hi Hb HW Hw Hr HL Hn Hu Ha Hnew.
  assert (HWu : forall u, Wallet d u = move (Wallet d0) user delta u).
  { intros u. unfold Wallet at 1, move. rewrite HW, balance_in_insert.
    destruct (String.eqb u user) eqn:E; bool_to_prop; [by subst|done]. }
  split; [|done]. destruct Hi. split.
  - intros u w'. rewrite HW. destruct (decide (u = user)) as [->|].
    + rewrite lookup_insert_eq. intros [= <-]. lia.
    + rewrite lookup_insert_ne by done. eauto.
  - intros u. change (balance_in (wallets d) u) with (Wallet d u).
    rewrite HWu, HL, ledger_sum_insert, <- wi_ledger0, Hu, Ha by done. unfold move, Wallet. rewrite (String.eqb_sym u user). destruct (String.eqb user u); lia.
  - rewrite HL. intros k r k' r' [[<- <-]|[Hk H1]]%lookup_insert_Some [[<- <-]|[Hk' H2]]%lookup_insert_Some He; [done| | |eauto].
    + exfalso. by apply (Hnew _ _ H2).
    + exfalso. by apply (Hnew _ _ H1).
  - apply (books_ext (move (Wallet d0) user delta) _ d); [|exact Hb]. intros u. by rewrite <- HWu.
Qed.

Lemma clashes_reference row m :
  clashes Ledger row m = false -> forall k r, m !! k = Some r -> l_reference r <> l_reference row.
Proof.
  intros Hc k r Hk Hr. apply (clashes_false Ledger _ _ _ _ Hc) in Hk. simpl in Hk.
  bool_to_prop. congruence.
Qed.

Lemma post_spec user delta kind reference d0 :
  - MaxInt64 <= delta <= MaxInt64 -> wallet_inv d0 ->
  hoare (fun d => d = d0) (post user delta kind reference)
    (fun _ d => wallet_inv d /\ (forall u, Wallet d u = move (Wallet d0) user delta u) /\
                posted user delta kind reference d0 d).
Proof.
  intros Hdelta Hi. pose proof (Wallet_range d0 user Hi) as Hr. unfold post.
  eapply hoare_bind; [apply walletTx_spec|]. intros [balance v]. cbn beta.
  destruct ((0 <? delta) && _) eqn:E1; [apply hoare_fail|].
  destruct ((delta <? 0) && _) eqn:E2; [apply hoare_fail|].
  set (W w := <[user:=w]> (wallets d0) : gmap string wallet_row).
  eapply hoare_bind with (R := fun _ d => exists w, (balance, v) = (w_balance w, w_version w) /\
    w_balance w = Wallet d0 user /\ 0 <= balance + delta <= MaxInt64 /\
    books (move (Wallet d0) user delta) d /\ ledger_at (W w) (ledger d0) d).
  { intros env d t a d' t' Hrun (w & HW & Hbv & Hd & Hw).
    injection Hbv as -> ->. rewrite Hw in *.
    rewrite wrap64_id in E2 by (unfold in_int64, MinInt64, MaxInt64 in *; lia).
    exists w. split; [congruence|]. split; [done|]. split; [bool_to_prop; lia|].
    eapply (trackFunds_spec (W w) (ledger d0) (Wallet d0)); [lia|lia|exact Hrun|].
    destruct Hi. destruct Hd as [-> | ->]; (split; [exact wi_books0|by split]). }
  intros _. eapply hoare_bind with (R := fun n d => exists w w', (n = 1 -> wallets d = W w') /\
    w_balance w' = Wallet d0 user + delta /\ balance = Wallet d0 user /\
    0 <= Wallet d0 user + delta <= MaxInt64 /\
    books (move (Wallet d0) user delta) d /\ ledger d = ledger d0 /\ W w = W w).
  { apply hoare_UPDATE.
    - intros d r (w & Hbv & Hw & Hrange & Hb & HW & HL) Hlk Hp.
      injection Hbv as -> ->. exists w. eexists. split; [intros _; simpl; rewrite HW; apply insert_insert_eq|].
      simpl. rewrite Hw in *. rewrite wrap64_id by (unfold in_int64, MinInt64, MaxInt64 in *; lia). auto 8.
    - intros d (w & Hbv & Hw & Hrange & Hb & HW & HL) _. injection Hbv as -> ->. rewrite Hw in *.
      exists w, {| w_balance := Wallet d0 user + delta; w_version := 0 |}. split; [done|]. auto 8. }
  intros n. eapply hoare_bind with (R := fun _ d => exists w', wallets d = W w' /\
    w_balance w' = Wallet d0 user + delta /\ balance = Wallet d0 user /\
    0 <= Wallet d0 user + delta <= MaxInt64 /\
    books (move (Wallet d0) user delta) d /\ ledger d = ledger d0).
  { apply hoare_guard. intros En d (w & w' & HW & Hrest). bool_to_prop.
    exists w'. split; [auto|]. intuition. }
  intros _. do 2 read_bind. eapply hoare_bind with (R := fun _ d => wallet_inv d /\
    (forall u, Wallet d u = move (Wallet d0) user delta u) /\ posted user delta kind reference d0 d).
  - apply hoare_INSERT. intros d (w' & HW & Hw & -> & Hrange & Hb & HL) Hn Hc. simpl in Hn, Hc.
    rewrite HL in Hn. rewrite wrap64_id in Hc |- * by (unfold in_int64, MinInt64, MaxInt64 in *; lia).
    match goal with |- context [t_set Ledger (<[?l:=?r]>) d] => set (lid := l) in *; set (row := r) in * end.
    destruct (wallet_inv_post d0 (t_set Ledger (<[lid:=row]>) d) user delta w' lid row) as [Hi' HWu];
      [done|exact Hb|exact HW|done|done|simpl; by rewrite HL|done|done|done| |].
    { intros k r Hk. rewrite HL in Hc. by apply (clashes_reference row _ Hc k). }
    split; [exact Hi'|]. split; [exact HWu|]. exists lid, row. simpl. rewrite HL. repeat split; try done.
    intros k r Hk. rewrite HL in Hc. by apply (clashes_reference row _ Hc k).
  - intros _. apply emitEventTx_keeps; done.
Qed.

Lemma post_keeps user delta kind reference :
  - MaxInt64 <= delta <= MaxInt64 -> keeps wallet_inv (post user delta kind reference).
Proof.
  intros Hdelta env d t a d' t' Hrun Hi.
  by apply (post_spec user delta kind reference d Hdelta Hi _ _ _ _ _ _ Hrun eq_refl).
Qed.

(** ** What [post] cannot see

    A predicate that does not look at the money tables, the events or the
    deliveries survives [post]. *)
Record blind (P : DB -> Prop) : Prop := {
  bl_wallets f d : P d -> P (t_set Wallets f d);
  bl_ledger f d : P d -> P (t_set Ledger f d);
  bl_accounts f d : P d -> P (t_set FundAccounts f d);
  bl_sources f d : P d -> P (t_set FundSources f d);
  bl_allocs f d : P d -> P (t_set FundAllocs f d);
  bl_events f d : P d -> P (t_set Events f d);
  bl_deliveries f d : P d -> P (t_set Deliveries f d)
}.
Ltac use_blind :=
  match goal with HP : blind _ |- _ =>
    repeat first [ apply (bl_wallets _ HP) | apply (bl_ledger _ HP) | apply (bl_accounts _ HP)
      | apply (bl_sources _ HP) | apply (bl_allocs _ HP) | apply (bl_events _ HP)
      | apply (bl_deliveries _ HP) ]; assumption
  end.
Create HintDb blind.
#[export] Hint Extern 5 => use_blind : blind.

(** Walk through a transaction, splitting binds, branches and loops. *)
Create HintDb keeps.
Ltac keeps_walk :=
  repeat (cbn beta; match goal with
  | |- hoare _ (mbind _ _) _ => eapply hoare_bind_inv; [|intros ?]
  | |- hoare _ (for_each _ _) _ => apply keeps_for_each; intros
  | |- hoare _ _ _ => solve [auto with keeps blind]
  | |- hoare _ _ _ => hoare_sql
  | |- hoare _ (match ?x with _ => _ end) _ => destruct x eqn:?
  end).

Lemma untouched_blind d0 : blind (untouched d0).
Proof. by split. Qed.
#[export] Hint Resolve untouched_blind : blind.

Section Blind.
Context (P : DB -> Prop) (HP : blind P).

Lemma emitEventTx_blind user kind data : keeps P (emitEventTx user kind data).
Proof. apply emitEventTx_keeps; intros; by apply HP. Qed.

Lemma walletTx_blind user : keeps P (walletTx user).
Proof. unfold walletTx. keeps_walk; auto with blind. Qed.

Lemma spend_blind reference l left : keeps P (spend reference l left).
Proof.
  revert left. induction l as [|[sid v] l IH]; intros left; simpl; keeps_walk; auto with blind.
Qed.

Lemma restore_blind reference l left : keeps P (restore reference l left).
Proof.
  revert left. induction l as [|[sid x] l IH]; intros left; simpl; keeps_walk; auto with blind.
Qed.

Lemma post_blind user delta kind reference : keeps P (post user delta kind reference).
Proof.
  pose proof emitEventTx_blind. pose proof walletTx_blind. pose proof spend_blind.
  pose proof restore_blind.
  unfold post, trackFunds, openFunds, creditFunds, debitFunds, restoreFunds.
  keeps_walk; auto with blind.
Qed.

Lemma CheckAccount_blind user : keeps P (CheckAccount user).
Proof. unfold CheckAccount. keeps_walk; auto. Qed.
End Blind.

(** ** Debits succeed

    [post] of a debit covered by the balance goes through: the sources
    always hold the money the wallet shows. *)

(** Every identifier the transaction may draw is new. *)
Definition new_ids (env : Env) (d : DB) : Prop :=
  forall n, ledger d !! env_rand env n = None /\ events d !! env_rand env n = None.

Lemma clashes_none `{Countable K} {R} (T : Table K R) r m :
  (forall r r', t_clash T r r' = false) -> clashes T r m = false.
Proof.
  intros Hc. unfold clashes. induction (map_to_list m) as [|x l IH]; simpl; [done|]. by rewrite Hc.
Qed.

Lemma clashes_ledger row (m : gmap string ledger_row) :
  (forall k r, m !! k = Some r -> l_reference r <> l_reference row) -> clashes Ledger row m = false.
Proof.
  intros Hc. apply not_true_iff_false. intros Ht. apply existsb_exists in Ht as ([k r] & Hin & He).
  apply list_elem_of_In, elem_of_map_to_list in Hin. simpl in He. apply String.eqb_eq in He.
  by apply (Hc k r Hin).
Qed.

Lemma spendable_sum user d bal only :
  books bal d ->
  (forall s, f_user s = user -> only s = true) ->
  sum_over (fun kr => f_remaining kr.2)
    (rows_where FundSources (fun _ s => String.eqb (f_user s) user && (0 <? f_remaining s) && only s) d)
  = funds user (fund_sources d).
Proof.
  intros Hb Honly. unfold rows_where, funds. rewrite sum_over_filter, map_sum_to_list.
  apply sum_over_ext. intros [sid s] Hin. apply elem_of_map_to_list in Hin. cbn [fst snd t_get FundSources] in *.
  pose proof (b_remaining _ _ _ _ Hb _ _ Hin). unfold mine.
  destruct (String.eqb (f_user s) user) eqn:E; [|done]. bool_to_prop. rewrite Honly by done.
  destruct (0 <? f_remaining s) eqn:E2; simpl; bool_to_prop; lia.
Qed.

Section Complete.
Context (env : Env).

Lemma spend_runs user reference l left d t :
  listed user l d -> Forall (fun kr => 0 < f_remaining kr.2) l ->
  (forall sid, sid ∈ l.*1 -> fund_allocs d !! (reference, sid) = None) ->
  0 <= left <= sum_over (fun kr => f_remaining kr.2) l ->
  runs (spend reference l left) env d t (fun left' d' => left' = 0).
Proof.
  revert left d t. induction l as [|[sid v] l IH]; intros left d t Hl Hpos Hnew Hleft; simpl in *.
  { apply runs_ret. lia. }
  apply Forall_cons in Hpos as [Hv Hpos]. simpl in Hv.
  assert (0 <= sum_over (fun kr => f_remaining kr.2) l).
  { apply sum_over_nonneg. intros kr Hin. rewrite Forall_forall in Hpos. specialize (Hpos kr Hin). lia. }
  destruct (Z.min left (f_remaining v) =? 0) eqn:E; bool_to_prop; [apply runs_ret; lia|].
  pose proof Hl as [_ Hf]. apply Forall_cons in Hf as [[Hs _] _]. simpl in Hs.
  set (d1 := t_set FundSources (<[sid:=source_remaining (f_remaining v - Z.min left (f_remaining v)) v]>) d).
  eapply runs_bind with (R := fun _ d' => d' = d1);
    [apply (runs_UPDATE FundSources sid _ _ v); [done|simpl; lia|done]|].
  intros n d' t1 ->.
  eapply runs_bind with (R := fun _ d' => d' = t_set FundAllocs
    (<[(reference, sid):={| a_amount := Z.min left (f_remaining v); a_restored := 0 |}]>) d1).
  { apply runs_INSERT; [|by apply clashes_none|done]. simpl. apply Hnew. set_solver. }
  intros [] d2 t2 ->. apply IH; [|done| |lia].
  - exact (listed_tail user sid v l _ d Hl).
  - intros sid' Hin. simpl. rewrite lookup_insert_ne; [apply Hnew; set_solver|].
    intros [= ->]. destruct Hl as [Hn _]. apply NoDup_cons in Hn as [Hn _]. done.
Qed.

Lemma deliver_runs event kind subs d t :
  runs (for_each subs (deliver event kind)) env d t (fun _ d' => wallets d' = wallets d).
Proof.
  revert d t. induction subs as [|sub subs IH]; intros d t; simpl; [by apply runs_ret|].
  eapply runs_bind with (R := fun _ d' => wallets d' = wallets d).
  - unfold deliver. destruct (_ && _); [by apply runs_ret|].
    apply runs_INSERT_ignore; [intros _; by apply clashes_none|done|done].
  - intros [] d' t' HW. eapply runs_conseq; [apply IH|]. simpl. congruence.
Qed.

Lemma emitEventTx_runs user kind data d t :
  (forall n, events d !! env_rand env n = None) ->
  runs (emitEventTx user kind data) env d t (fun _ d' => wallets d' = wallets d).
Proof.
  intros Hf. unfold emitEventTx. destruct (_ || _); [by apply runs_ret|].
  eapply runs_bind with (R := fun e d' => events d !! e = None /\ d' = d);
    [apply runs_id; auto|]. intros e d' t' [He ->].
  eapply runs_bind with (R := fun _ d' => d' = d); [by apply runs_now|]. intros z d' t2 ->.
  eapply runs_bind with (R := fun _ d' => wallets d' = wallets d).
  { apply runs_INSERT; [done|by apply clashes_none|done]. }
  intros _ d1 t3 HW. eapply runs_bind with (R := fun _ d' => d' = d1); [by apply runs_now|].
  intros now d' t4 ->. eapply runs_bind with (R := fun _ d' => d' = d1); [by apply runs_SELECT_where|].
  intros subs d' t5 ->. eapply runs_conseq; [apply deliver_runs|]. simpl. congruence.
Qed.

Lemma openFunds_runs user balance d t :
  fund_sources d !! ("legacy:" ++ user) = None ->
  runs (openFunds user balance) env d t (fun _ d' => ledger d' = ledger d /\ events d' = events d /\
    wallets d' = wallets d /\ fund_allocs d' = fund_allocs d).
Proof.
  intros Hleg. unfold openFunds.
  eapply runs_bind with (R := fun m d' => m = fund_accounts d !! user /\ d' = d); [by apply runs_SELECT|].
  intros m d' t' [-> ->]. destruct (fund_accounts d !! user) as [[]|] eqn:E; [by apply runs_ret|].
  eapply runs_bind with (R := fun _ d' => d' = t_set FundAccounts (<[user:=tt]>) d).
  { apply runs_INSERT; [done|by apply clashes_none|done]. }
  intros _ d' t2 ->. destruct (0 <? balance); [|by apply runs_ret].
  eapply runs_bind with (R := fun _ d' => d' = t_set FundAccounts (<[user:=tt]>) d); [by apply runs_now|].
  intros now d' t3 ->. apply runs_INSERT; [done|by apply clashes_none|done].
Qed.

Lemma debitFunds_runs user amount kind reference bal d t :
  books bal d -> tracked user d -> String.eqb kind "refund_reserve" = false ->
  (forall sid, fund_allocs d !! (reference, sid) = None) -> 0 <= amount <= bal user ->
  runs (debitFunds user amount kind reference) env d t (fun _ _ => True).
Proof.
  intros Hb Ht Hk Hnew Ham. unfold debitFunds. rewrite Hk.
  eapply runs_bind with (R := fun only d' => only = None /\ d' = d); [by apply runs_ret|].
  intros only d' t' [-> ->].
  eapply runs_bind with (R := fun l d' => l = rows_where FundSources _ d /\ d' = d);
    [by apply runs_SELECT_where|]. intros l d' t2 [-> ->].
  eapply runs_bind with (R := fun left _ => left = 0).
  - set (p := fun (_ : string) (s : source_row) => _). apply (spend_runs user).
    + apply listed_rows. intros k s Hp. unfold p in Hp. by bool_to_prop.
    + rewrite order_by_perm. apply Forall_forall. intros kr Hin.
      apply list_elem_of_filter in Hin as [Hp _]. apply Is_true_eq_true in Hp. unfold p in Hp. bool_to_prop. lia.
    + intros sid _. apply Hnew.
    + rewrite (sum_over_perm _ _ _ (order_by_perm source_key _)). unfold p.
      rewrite (spendable_sum user d bal (fun _ => true)) by done.
      rewrite (b_balance _ _ _ _ Hb user Ht). lia.
  - intros left d' t3 ->. by apply runs_guard.
Qed.

Lemma spend_events E reference l left : keeps (fun d => events d = E) (spend reference l left).
Proof. revert left. induction l as [|[sid v] l IH]; intros left; simpl; keeps_walk; auto. Qed.

Lemma restore_events E reference l left : keeps (fun d => events d = E) (restore reference l left).
Proof. revert left. induction l as [|[sid v] l IH]; intros left; simpl; keeps_walk; auto. Qed.

Lemma trackFunds_events E user balance delta kind reference :
  keeps (fun d => events d = E) (trackFunds user balance delta kind reference).
Proof.
  pose proof (spend_events E). pose proof (restore_events E).
  unfold trackFunds, openFunds, creditFunds, debitFunds, restoreFunds. keeps_walk; auto.
Qed.

Lemma walletTx_runs user d t : runs (walletTx user) env d t (fun _ _ => True).
Proof.
  unfold walletTx. eapply runs_bind with (R := fun _ d' => is_Some (wallets d' !! user)).
  { apply runs_INSERT_ignore; [intros _; by apply clashes_none|done|].
    intros _. simpl. rewrite lookup_insert_eq. eauto. }
  intros _ d' t' [w Hw].
  eapply runs_bind with (R := fun row _ => row = Some w); [by apply runs_SELECT|].
  intros row d2 t2 ->. eapply runs_bind with (R := fun _ _ => True); [by eapply runs_or_fail|].
  intros r d3 t3 _. by apply runs_ret.
Qed.

(** The debit branch of [trackFunds], from the wallet it was read with. *)
Lemma trackFunds_debit_runs user delta kind reference bal d t :
  books bal d -> - MaxInt64 <= delta <= 0 -> 0 <= bal user + delta -> 0 <= bal user ->
  String.eqb kind "refund_reserve" = false ->
  (forall sid, fund_allocs d !! (reference, sid) = None) ->
  fund_sources d !! ("legacy:" ++ user) = None ->
  runs (trackFunds user (bal user) delta kind reference) env d t (fun _ _ => True).
Proof.
  intros Hb Hdelta Hcov Hnn Hk Hnew Hleg. unfold trackFunds.
  eapply runs_bind.
  { eapply runs_hoare; [exact (openFunds_runs user (bal user) d t Hleg)| |].
    - exact (openFunds_spec (wallets d) (ledger d) bal user Hnn).
    - by split. }
  intros _ d1 t1 [(_ & _ & _ & Ha) [[Hb1 _] Ht]].
  destruct (delta =? 0) eqn:E0; [by apply runs_ret|].
  destruct (0 <? delta) eqn:Ep; bool_to_prop; [lia|].
  rewrite wrap64_id by (unfold in_int64, MinInt64, MaxInt64 in *; lia).
  eapply debitFunds_runs; [exact Hb1|exact Ht|by apply String.eqb_neq| |lia]. intros sid. by rewrite Ha.
Qed.
End Complete.

(** A debit within the balance always goes through. *)
Lemma post_debit_runs env user delta kind reference d t :
  wallet_inv d -> new_ids env d -> - MaxInt64 <= delta <= 0 -> 0 <= Wallet d user + delta ->
  String.eqb kind "refund_reserve" = false ->
  (forall k r, ledger d !! k = Some r -> l_reference r <> reference) ->
  (forall sid, fund_allocs d !! (reference, sid) = None) ->
  fund_sources d !! ("legacy:" ++ user) = None ->
  runs (post user delta kind reference) env d t (fun _ _ => True).
Proof.
  intros Hi Hf Hdelta Hcov Hk Hnew Halloc Hleg. pose proof (Wallet_range d user Hi) as Hr. unfold post.
  eapply runs_bind; [apply (runs_hoare _ _ _ _ _ _ _ (walletTx_runs env user d t) (walletTx_spec user d) eq_refl)|].
  intros [balance v] d1 t1 [_ (w & HW & Hbv & Hd & Hw)]. injection Hbv as -> ->. rewrite Hw.
  assert (wrap64 (- delta) = - delta) as Hwr
    by (rewrite wrap64_id; [lia|unfold in_int64, MinInt64, MaxInt64 in *; lia]).
  destruct ((0 <? delta) && _) eqn:E1; [bool_to_prop; lia|].
  destruct ((delta <? 0) && _) eqn:E2; [rewrite Hwr in E2; bool_to_prop; lia|].
  assert (Hsame : books (Wallet d) d1 /\ ledger_at (<[user:=w]> (wallets d)) (ledger d) d1 /\
    events d1 = events d /\ fund_allocs d1 = fund_allocs d /\ fund_sources d1 = fund_sources d).
  { pose proof (wi_books _ _ _ _ _ Hi) as Hb. destruct Hd as [-> | ->]; (split; [exact Hb|by repeat split]). }
  destruct Hsame as (Hb1 & HL1 & HE1 & HA1 & HS1).
  eapply runs_bind.
  { eapply runs_hoare; [eapply runs_hoare|..].
    - apply (trackFunds_debit_runs env user delta kind reference (Wallet d) d1 t1); try done; try lia.
      + intros sid. by rewrite HA1.
      + by rewrite HS1.
    - apply (trackFunds_events (events d)).
    - exact HE1.
    - apply (trackFunds_spec (<[user:=w]> (wallets d)) (ledger d) (Wallet d)); lia.
    - by split. }
  intros _ d2 t2 [[_ HE2] [_ [HW2 HL2]]].
  eapply runs_bind with (R := fun n d' => n = 1 /\ ledger d' = ledger d /\ events d' = events d).
  { apply (runs_UPDATE Wallets user _ _ w); [simpl; by rewrite HW2, lookup_insert_eq|by apply Z.eqb_eq|done]. }
  intros n d3 t3 (-> & HL3 & HE3).
  eapply runs_bind with (R := fun _ d' => d' = d3); [by apply runs_guard|]. intros _ d' t4 ->.
  eapply runs_bind with (R := fun l d' => (exists n, l = env_rand env n) /\ d' = d3); [apply runs_id; eauto|].
  intros lid d' t5 [[n' ->] ->].
  eapply runs_bind with (R := fun _ d' => d' = d3); [by apply runs_now|]. intros now d' t6 ->.
  eapply runs_bind with (R := fun _ d' => events d' = events d).
  { apply runs_INSERT; [simpl; rewrite HL3; apply (Hf n')| |done].
    apply clashes_ledger. simpl. rewrite HL3. exact Hnew. }
  intros _ d4 t7 HE4. eapply runs_conseq; [apply emitEventTx_runs; intros n; rewrite HE4; apply (Hf n)|done].
Qed.
