(* ===== verification/Plans.v ===== *)
(** * The plan catalogue and account limits
    (internal/commerce/plans.go, limits.go, accounts.go, service.go
    [CreatePlan], lifecycle.go [SetPlanActive])

    The catalogue invariant bounds every price and quota the purchases
    read; it is what makes the arithmetic of the wallet safe. *)

From S2P Require Import Prelude Tx GoStrings Calendar Rational PlanRules Schema Wallet.
From stdpp Require Import base gmap strings list.
From Stdlib Require Import Ascii String.
Local Open Scope string_scope.
Local Open Scope Z_scope.

(** ** Entitlement reads *)

(** [ORDER BY version DESC LIMIT 1] *)
Fixpoint newest (l : list (string * ent_row)) : option (string * ent_row) :=
  match l with
  | [] => None
  | kr :: rest =>
      match newest rest with
      | Some best => if e_version best.2 <? e_version kr.2 then Some kr else Some best
      | None => Some kr
      end
  end.
Definition latest (user : string) : Tx DB (option (string * ent_row)) :=
  gets (fun d => newest (rows_where Entitlements (fun _ e => String.eqb (e_user e) user) d)).

(** [scanEnt] *)
Definition scanEnt (kr : string * ent_row) : Entitlement :=
  {| E_Limits := {| MaxRules := 0 |}; E_ID := kr.1; E_UserID := e_user kr.2; E_PlanID := e_plan kr.2;
     E_Version := e_version kr.2; E_StartsAt := e_starts kr.2; E_ExpiresAt := e_expires kr.2;
     E_Quota := e_quota kr.2; E_Used := e_used kr.2 |}.
Definition with_limits (e : Entitlement) (l : PlanLimits) : Entitlement :=
  {| E_Limits := l; E_ID := E_ID e; E_UserID := E_UserID e; E_PlanID := E_PlanID e;
     E_Version := E_Version e; E_StartsAt := E_StartsAt e; E_ExpiresAt := E_ExpiresAt e;
     E_Quota := E_Quota e; E_Used := E_Used e |}.
Definition with_ent_quota (e : Entitlement) (q : Z) : Entitlement :=
  {| E_Limits := E_Limits e; E_ID := E_ID e; E_UserID := E_UserID e; E_PlanID := E_PlanID e;
     E_Version := E_Version e; E_StartsAt := E_StartsAt e; E_ExpiresAt := E_ExpiresAt e;
     E_Quota := q; E_Used := E_Used e |}.

(** Grants without a row carry no commercial restriction. *)
Definition entitlementLimits (ent : string) : Tx DB PlanLimits :=
  row ← SELECT EntLimits ent;
  match row with
  | None => mret {| MaxRules := 0 |}
  | Some l => of_res (PlanLimits_Validate l) ;; mret l
  end.

Definition snapshotLimits (ent : string) (l : PlanLimits) : Tx DB unit :=
  INSERT EntLimits ent (ruleOnlyLimits l).

Definition savePlanLimits (p : Plan) : Tx DB unit :=
  UPSERT PlanLimitsT (P_ID p) (ruleOnlyLimits (P_Limits p)).

(** ** Plans *)

Definition stored_plan (id : string) (pl : plan_row) (st : plan_state_row) : Plan :=
  {| P_Limits := {| MaxRules := 0 |}; P_ID := id; P_Name := pl_name pl; P_Price := pl_price pl;
     P_Quota := pl_quota pl; P_PriceYuan := None; P_QuotaGB := None; P_Months := pl_months pl;
     P_DurationUnit := pl_unit pl; P_DurationValue := pl_value pl; P_Active := st_active st;
     P_Version := st_version st; P_Kind := st_kind st |}.
Definition with_plan_limits (p : Plan) (l : PlanLimits) : Plan :=
  {| P_Limits := l; P_ID := P_ID p; P_Name := P_Name p; P_Price := P_Price p;
     P_Quota := P_Quota p; P_PriceYuan := P_PriceYuan p; P_QuotaGB := P_QuotaGB p;
     P_Months := P_Months p; P_DurationUnit := P_DurationUnit p; P_DurationValue := P_DurationValue p;
     P_Active := P_Active p; P_Version := P_Version p; P_Kind := P_Kind p |}.

Definition planTx (id : string) : Tx DB Plan :=
  pl ← SELECT Plans id;
  pl ← or_fail pl ErrNoRows;
  st ← SELECT PlanStates id;
  st ← or_fail st ErrNoRows;
  p ← of_res (normalizePlanDuration (stored_plan id pl st));
  limits ← SELECT PlanLimitsT id;
  match limits with
  | None => mret p
  | Some l => mret (with_plan_limits p (ruleOnlyLimits l))
  end.

Definition plan_columns (p : Plan) : plan_row :=
  {| pl_name := P_Name p; pl_price := P_Price p; pl_quota := P_Quota p; pl_months := P_Months p;
     pl_unit := P_DurationUnit p; pl_value := P_DurationValue p |}.

Section Catalogue.
Context {RS : RatSyntax}.

Definition CreatePlan (p : Plan) : Tx DB Plan :=
  let p := if String.eqb (P_Kind p) "" then with_state p (P_ID p) (P_Active p) (P_Version p) "period" else p in
  p ← of_res (applyPlanUnits p);
  p ← of_res (normalizePlanDuration p);
  match validatePlan p with
  | Err _ => fail (ErrMsg "invalid plan")
  | Ok _ =>
      pid ← id;
      let p := with_state p pid true 1 (P_Kind p) in
      INSERT Plans pid (plan_columns p) ;;
      savePlanLimits p ;;
      now ← Now;
      INSERT PlanStates pid {| st_active := true; st_version := 1; st_kind := P_Kind p; st_updated := now |} ;;
      mret p
  end.

Definition UpdatePlan (p : Plan) : Tx DB Plan :=
  let legacyDuration := String.eqb (P_Kind p) "period" && String.eqb (P_DurationUnit p) ""
                        && (P_DurationValue p =? 0) in
  p ← of_res (applyPlanUnits p);
  p ← of_res (normalizePlanDuration p);
  of_res (validatePlan p) ;;
  old ← planTx (P_ID p);
  if negb (P_Version p =? P_Version old) || negb (String.eqb (P_Kind p) (P_Kind old))
  then fail ErrConflict else
  if legacyDuration && negb (String.eqb (P_DurationUnit old) "month")
  then fail (ErrMsg "explicit duration required to edit this plan") else
  UPDATE Plans (P_ID p) (fun _ => true) (fun _ => plan_columns p) ;;
  savePlanLimits p ;;
  let p := with_state p (P_ID p) (P_Active old) (wrap64 (P_Version p + 1)) (P_Kind p) in
  now ← Now;
  UPDATE PlanStates (P_ID p) (fun _ => true)
    (fun st => {| st_active := st_active st; st_version := P_Version p; st_kind := st_kind st;
                  st_updated := now |}) ;;
  mret p.
End Catalogue.

Definition SetPlanActive (plan : string) (active : bool) : Tx DB unit :=
  if String.eqb (TrimSpace plan) "" then fail (ErrMsg "plan id required") else
  now ← Now;
  n ← UPDATE PlanStates plan (fun _ => true)
        (fun st => {| st_active := active; st_version := st_version st + 1; st_kind := st_kind st;
                      st_updated := now |});
  guard_err (n =? 1) ErrNoRows.

(** ** Account limits *)

Definition lockAccount (user : string) : Tx DB unit :=
  row ← SELECT Users user;
  match row with Some _ => mret tt | None => fail ErrNoRows end.

Definition userRuleLimit (user : string) : Tx DB (option Z) :=
  row ← SELECT RuleLimits user;
  mret (ul_max <$> row).

(** The rule limit in force: the account's override, else the snapshot of
    the newest entitlement, else none (zero). *)
Definition LimitsTx (user : string) : Tx DB Z :=
  ent ← latest user;
  limits ← match ent with
           | Some kr => entitlementLimits kr.1
           | None => mret {| MaxRules := 0 |}
           end;
  override ← userRuleLimit user;
  mret (match override with Some v => v | None => MaxRules limits end).

Definition set_rule_limit (user : string) (maximum : option Z) (actor reason : string) : Tx DB (string * Z) :=
  match maximum with
  | None => DELETE RuleLimits user ;; mret ("rule_limit_clear", 0)
  | Some v =>
      now ← Now;
      UPSERT RuleLimits user {| ul_max := v; ul_actor := actor; ul_reason := reason; ul_updated := now |} ;;
      mret ("rule_limit", v)
  end.

Definition SetUserRuleLimit (actor user : string) (maximum : option Z) (reason : string) : Tx DB unit :=
  let reason := TrimSpace reason in
  if match maximum with Some v => (v <? 0) || (100000 <? v) | None => false end
     || (Z.of_nat (String.length reason) =? 0) || (500 <? Z.of_nat (String.length reason))
  then fail (ErrMsg "invalid account rule limit") else
  lockAccount user ;;
  previous ← userRuleLimit user;
  if bool_decide (maximum = previous) then mret tt else
  adjustmentID ← id;
  '(kind, value) ← set_rule_limit user maximum actor reason;
  now ← Now;
  INSERT AdminAdjustments adjustmentID
    {| ad_user := user; ad_actor := actor; ad_kind := kind; ad_amount := 0; ad_rules := Some value;
       ad_key := ""; ad_reason := reason; ad_created := now |} ;;
  rules ← SELECT_where Rules (fun _ r => String.eqb (ru_user r) user && negb (ru_deleted r));
  UPDATE_all Nodes (fun node _ => existsb (fun kr => String.eqb (ru_node kr.2) node) rules) (fun v => v + 1).

(** ** The newest entitlement *)

Lemma newest_spec l k e :
  newest l = Some (k, e) ->
  (k, e) ∈ l /\ forall k' e', (k', e') ∈ l -> e_version e' <= e_version e.
Proof.
  revert k e. induction l as [|[k1 e1] l IH]; intros k e; simpl; [done|].
  destruct (newest l) as [[k2 e2]|] eqn:E.
  - destruct (IH k2 e2 eq_refl) as [Hin Hmax]. simpl.
    destruct (e_version e2 <? e_version e1) eqn:Ev; bool_to_prop; intros [= <- <-].
    + split; [set_solver|]. intros k' e' [[= -> ->]|Hin']%elem_of_cons; [lia|].
      specialize (Hmax _ _ Hin'). lia.
    + split; [set_solver|]. intros k' e' [[= -> ->]|Hin']%elem_of_cons; [lia|]. eauto.
  - intros [= <- <-]. split; [set_solver|].
    intros k' e' [[= -> ->]|Hin']%elem_of_cons; [lia|].
    destruct l as [|x l]; [set_solver|]. simpl in E. destruct (newest l) as [?|]; [|done].
    by destruct (_ <? _).
Qed.

Lemma newest_None l : newest l = None -> l = [].
Proof. destruct l as [|x l]; [done|]. simpl. destruct (newest l) as [?|]; [|done]. by destruct (_ <? _). Qed.

(** [latest] is the entitlement of the user with the highest version. *)
Definition is_latest (user : string) (m : gmap string ent_row) (o : option (string * ent_row)) : Prop :=
  match o with
  | Some (k, e) => m !! k = Some e /\ e_user e = user /\
      forall k' e', m !! k' = Some e' -> e_user e' = user -> e_version e' <= e_version e
  | None => forall k e, m !! k = Some e -> e_user e <> user
  end.

Lemma latest_Ok user env d t o d' t' :
  latest user env d t = (Ok (o, d'), t') -> is_latest user (entitlements d) o /\ d' = d.
Proof.
  unfold latest, gets. intros [= <- <- _]. split; [|done].
  assert (Hrow : forall k e, (k, e) ∈ rows_where Entitlements (fun _ e => String.eqb (e_user e) user) d <->
    entitlements d !! k = Some e /\ e_user e = user).
  { intros k e. unfold rows_where. rewrite list_elem_of_filter, elem_of_map_to_list. simpl.
    rewrite Is_true_true, String.eqb_eq. tauto. }
  unfold is_latest. destruct (newest _) as [[k e]|] eqn:E.
  - apply newest_spec in E as [Hin Hmax]. apply Hrow in Hin as [Hk Hu].
    split; [done|]. split; [done|]. intros k' e' Hk' Hu'. eapply Hmax, Hrow. eauto.
  - apply newest_None in E. intros k e Hk Hu. assert (Hin : (k, e) ∈ ([] : list (string * ent_row))).
    { rewrite <- E. by apply Hrow. }
    set_solver.
Qed.

(** ** The catalogue invariant *)

Record catalog_inv_on (ps : gmap string plan_row) (sts : gmap string plan_state_row)
    (ls : gmap string PlanLimits) : Prop := {
  ci_price id pl : ps !! id = Some pl -> 0 < pl_price pl <= 100000000 /\ 0 <= pl_quota pl <= MaxInt64;
  ci_readable id pl st : ps !! id = Some pl -> sts !! id = Some st ->
    normalizePlanDuration (stored_plan id pl st) = Ok (stored_plan id pl st);
  ci_state id : is_Some (ps !! id) <-> is_Some (sts !! id);
  ci_limits id l : ls !! id = Some l -> 0 <= MaxRules l <= 100000
}.
Definition catalog_inv (d : DB) : Prop := catalog_inv_on (plans d) (plan_states d) (plan_limits d).

Lemma catalog_inv_blind : blind catalog_inv.
Proof. by split. Qed.
#[export] Hint Resolve catalog_inv_blind : blind.

Lemma catalog_inv_empty : catalog_inv empty_db.
Proof. split; simpl; try (intros *; by rewrite ?lookup_empty). Qed.

(** The plan a catalogue row denotes. *)
Definition plan_of (id : string) (pl : plan_row) (st : plan_state_row) (l : option PlanLimits) : Plan :=
  match l with
  | Some l => with_plan_limits (stored_plan id pl st) (ruleOnlyLimits l)
  | None => stored_plan id pl st
  end.

Lemma plan_of_state id pl st l :
  P_Version (plan_of id pl st l) = st_version st /\ P_Active (plan_of id pl st l) = st_active st /\
  P_Kind (plan_of id pl st l) = st_kind st.
Proof. by destruct l. Qed.

(** Every catalogue entry can be read, and reads as it was stored. *)
Lemma planTx_runs id env d t pl st :
  catalog_inv d -> plans d !! id = Some pl -> plan_states d !! id = Some st ->
  planTx id env d t = (Ok (plan_of id pl st (plan_limits d !! id), d), t).
Proof.
  intros Hi Hpl Hst. unfold planTx, SELECT, mbind, tx_bind, gets, or_fail, mret, tx_ret, of_res.
  cbn [t_get Plans PlanStates PlanLimitsT]. rewrite Hpl, Hst, (ci_readable _ _ _ Hi _ _ _ Hpl Hst).
  unfold mret, tx_ret, plan_of. by destruct (plan_limits d !! id).
Qed.

Lemma planTx_Ok id env d t p d' t' :
  catalog_inv d -> planTx id env d t = (Ok (p, d'), t') ->
  d' = d /\ exists pl st, plans d !! id = Some pl /\ plan_states d !! id = Some st /\
    p = plan_of id pl st (plan_limits d !! id).
Proof.
  intros Hi Hrun.
  assert (Hboth : exists pl st, plans d !! id = Some pl /\ plan_states d !! id = Some st).
  { unfold planTx in Hrun. sql_inv Hrun. eauto. }
  destruct Hboth as (pl & st & Hpl & Hst). rewrite (planTx_runs id env d t pl st) in Hrun by done.
  simplify_eq. eauto 6.
Qed.

(** The bounds a purchase relies on. *)
Lemma planTx_bounds id env d t p d' t' :
  catalog_inv d -> planTx id env d t = (Ok (p, d'), t') ->
  d' = d /\ 0 < P_Price p <= 100000000 /\ 0 <= P_Quota p <= MaxInt64.
Proof.
  intros Hi Hrun. destruct (planTx_Ok _ _ _ _ _ _ _ Hi Hrun) as (-> & pl & st & Hpl & _ & ->).
  split; [done|]. unfold plan_of. destruct (plan_limits d !! id); exact (ci_price _ _ _ Hi _ _ Hpl).
Qed.

Lemma planTx_keeps (P : DB -> Prop) id : keeps P (planTx id).
Proof. unfold planTx. keeps_walk; auto. Qed.
Lemma entitlementLimits_keeps (P : DB -> Prop) ent : keeps P (entitlementLimits ent).
Proof. unfold entitlementLimits. keeps_walk; auto. Qed.
Lemma latest_keeps (P : DB -> Prop) user : keeps P (latest user).
Proof. unfold latest. by apply hoare_gets. Qed.
Lemma lockAccount_keeps (P : DB -> Prop) user : keeps P (lockAccount user).
Proof. unfold lockAccount. keeps_walk; auto. Qed.
Lemma userRuleLimit_keeps (P : DB -> Prop) user : keeps P (userRuleLimit user).
Proof. unfold userRuleLimit. keeps_walk; auto. Qed.
#[export] Hint Resolve planTx_keeps entitlementLimits_keeps latest_keeps lockAccount_keeps
  userRuleLimit_keeps : keeps.

(** Reads leave the database alone. *)
Lemma reads_same {A} (m : Tx DB A) env d t a d' t' :
  (forall P : DB -> Prop, keeps P m) -> m env d t = (Ok (a, d'), t') -> d' = d.
Proof. intros Hm Hrun. by apply (Hm (fun d0 => d0 = d) _ _ _ _ _ _ Hrun). Qed.
Ltac sql_read H :=
  match type of H with ?m ?env ?d ?t = (Ok (_, ?d'), _) =>
    let E := fresh in
    assert (E : d' = d) by (apply (fun Hm => reads_same m _ _ _ _ _ _ Hm H); auto with keeps); subst d'
  end.
Ltac sql_call H ::=
  lazymatch type of H with
  | planTx _ _ _ _ = _ => sql_read H
  | entitlementLimits _ _ _ _ = _ => sql_read H
  | lockAccount _ _ _ _ = _ => sql_read H
  | userRuleLimit _ _ _ _ = _ => sql_read H
  | latest _ _ _ _ = _ => let E := fresh "Hlatest" in apply latest_Ok in H as [E ?]; subst
  end.

Lemma LimitsTx_keeps (P : DB -> Prop) user : keeps P (LimitsTx user).
Proof. unfold LimitsTx. keeps_walk; auto. Qed.

Lemma SetUserRuleLimit_keeps (P : DB -> Prop) actor user maximum reason :
  (forall f d, P d -> P (t_set RuleLimits f d)) -> (forall f d, P d -> P (t_set AdminAdjustments f d)) ->
  (forall f d, P d -> P (t_set Nodes f d)) -> keeps P (SetUserRuleLimit actor user maximum reason).
Proof. intros H1 H2 H3. unfold SetUserRuleLimit, set_rule_limit. keeps_walk; auto. Qed.

(** ** Writing the catalogue *)

(** Unit conversion leaves no human-facing unit behind, and the columns it
    does not convert alone. *)
Lemma applyPlanUnits_fields {RS : RatSyntax} p q :
  applyPlanUnits p = Ok q -> P_Quota p <= MaxInt64 ->
  P_PriceYuan q = None /\ P_QuotaGB q = None /\ P_Quota q <= MaxInt64 /\
  P_ID q = P_ID p /\ P_Version q = P_Version p /\ P_Kind q = P_Kind p.
Proof.
  unfold applyPlanUnits. intros Hq Hm.
  destruct (P_PriceYuan p) eqn:Ey.
  - destruct (scaledInteger s 100) as [v|]; [|done]. simpl in Hq.
    destruct (P_QuotaGB p) eqn:Eg; [|by simplify_eq].
    destruct (String.eqb _ _); [by simplify_eq|].
    destruct (scaledInteger (TrimSpace s0) gigabyte) as [w|] eqn:Ew; [|done]. simplify_eq.
    apply scaledInteger_exact in Ew as (? & ? & _ & _ & Hw); [|done]. simpl. intuition.
  - destruct (P_QuotaGB p) eqn:Eg; [|by simplify_eq].
    destruct (String.eqb _ _); [by simplify_eq|].
    destruct (scaledInteger (TrimSpace s) gigabyte) as [w|] eqn:Ew; [|done]. simplify_eq.
    apply scaledInteger_exact in Ew as (? & ? & _ & _ & Hw); [|done]. simpl. intuition.
Qed.

Lemma normalize_shape p q :
  normalizePlanDuration p = Ok q ->
  q = with_duration p (P_DurationUnit q) (P_DurationValue q) (P_Months q).
Proof.
  unfold normalizePlanDuration. destruct (String.eqb (P_Kind p) "addon").
  { destruct (_ || _); [done|]. intros [= <-]. by destruct p. }
  destruct (negb _); [done|]. destruct (if _ && _ then _ else _) as [u v].
  destruct (duration_max u); [|done]. destruct (_ || _); [done|]. destruct (_ && _); [done|].
  intros [= <-]. done.
Qed.

(** Reading back what was written: the stored columns of a normalised plan
    give the plan itself. *)
Lemma stored_plan_columns p st :
  P_PriceYuan p = None -> P_QuotaGB p = None ->
  st_active st = P_Active p -> st_version st = P_Version p -> st_kind st = P_Kind p ->
  with_plan_limits (stored_plan (P_ID p) (plan_columns p) st) (ruleOnlyLimits (ruleOnlyLimits (P_Limits p))) = p.
Proof.
  destruct p as [[l] ? ? ? ? ? ? ? ? ? ? ? ?]. simpl. intros -> -> Ha Hv Hk.
  unfold with_plan_limits, stored_plan, ruleOnlyLimits. simpl. by rewrite Ha, Hv, Hk.
Qed.

(** Whether a plan is normalised depends on its kind and duration only. *)
Lemma normalize_same p q :
  P_Kind q = P_Kind p -> P_DurationUnit q = P_DurationUnit p -> P_DurationValue q = P_DurationValue p ->
  P_Months q = P_Months p -> normalizePlanDuration p = Ok p -> normalizePlanDuration q = Ok q.
Proof.
  intros Hk Hu Hv Hm Hn. unfold normalizePlanDuration in *. rewrite Hk, Hu, Hv, Hm.
  destruct (String.eqb (P_Kind p) "addon"); [by destruct (_ || _)|].
  destruct (negb _); [done|]. destruct (if _ && _ then _ else _) as [u v].
  destruct (duration_max u); [|done]. destruct (_ || _); [done|]. destruct (_ && _); [done|].
  injection Hn as Hn. unfold with_duration. f_equal.
  rewrite <- (f_equal P_DurationUnit Hn), <- (f_equal P_DurationValue Hn), <- (f_equal P_Months Hn) in *.
  simpl in *. destruct q; simpl in *. by subst.
Qed.

(** Replacing, or adding, one catalogue entry by a valid plan. *)
Lemma catalog_inv_write ps sts ls p st l :
  catalog_inv_on ps sts ls -> 0 < P_Price p <= 100000000 -> 0 <= P_Quota p <= MaxInt64 ->
  normalizePlanDuration p = Ok p -> st_kind st = P_Kind p -> 0 <= MaxRules l <= 100000 ->
  catalog_inv_on (<[P_ID p:=plan_columns p]> ps) (<[P_ID p:=st]> sts) (<[P_ID p:=l]> ls).
Proof.
  intros [] Hp Hq Hn Hk Hl. split.
  - intros i pl [[<- <-]|[_ H]]%lookup_insert_Some; [done|eauto].
  - intros i pl s [[<- <-]|[Hne H]]%lookup_insert_Some.
    + rewrite lookup_insert_eq. intros [= <-]. by apply (normalize_same p).
    + rewrite lookup_insert_ne by done. eauto.
  - intros i. rewrite !lookup_insert_is_Some. rewrite ci_state0. tauto.
  - intros i l' [[<- <-]|[_ H]]%lookup_insert_Some; [done|eauto].
Qed.

Section Writes.
Context {RS : RatSyntax}.

Lemma CreatePlan_Ok p env d t q d' t' :
  P_Quota p <= MaxInt64 -> CreatePlan p env d t = (Ok (q, d'), t') ->
  exists st, plans d !! P_ID q = None /\
    d' = t_set PlanStates (<[P_ID q:=st]>) (t_set PlanLimitsT (<[P_ID q:=ruleOnlyLimits (P_Limits q)]>)
           (t_set Plans (<[P_ID q:=plan_columns q]>) d)) /\
    P_PriceYuan q = None /\ P_QuotaGB q = None /\ P_Active q = true /\ P_Version q = 1 /\
    st_active st = true /\ st_version st = 1 /\ st_kind st = P_Kind q /\
    normalizePlanDuration q = Ok q /\ 0 < P_Price q <= 100000000 /\ 0 <= P_Quota q <= MaxInt64 /\
    0 <= MaxRules (P_Limits q) <= 100000.
Proof.
  intros Hm Hrun. unfold CreatePlan in Hrun. 
  match type of Hrun with context [applyPlanUnits ?x] => set (p0 := x) in Hrun end.
  assert (Hm0 : P_Quota p0 <= MaxInt64) by (unfold p0; by destruct (String.eqb _ _)).
  unfold savePlanLimits in Hrun. sql_run Hrun.
  match goal with
  | H1 : applyPlanUnits p0 = Ok ?a, H2 : normalizePlanDuration ?a = Ok ?b, H3 : validatePlan ?b = Ok ?u |- _ =>
      destruct u, (applyPlanUnits_fields _ _ H1 Hm0) as (Hy & Hg & Hq & _);
      pose proof (normalize_shape _ _ H2) as Hs; destruct (validatePlan_bounds _ H3) as (Hp & Hq0 & Hl);
      pose proof (normalize_idempotent _ _ H2) as Hn
  end.
  eexists. split; [done|]. split; [reflexivity|]. simpl in *.
  split; [by rewrite Hs|]. split; [by rewrite Hs|]. repeat (split; [done|]).
  split; [by refine (normalize_same _ _ _ _ _ _ Hn)|]. split; [done|]. split; [|done].
  split; [done|]. by rewrite Hs.
Qed.

Lemma CreatePlan_keeps p : P_Quota p <= MaxInt64 -> keeps catalog_inv (CreatePlan p).
Proof.
  intros Hm env d t q d' t' Hrun Hi.
  destruct (CreatePlan_Ok _ _ _ _ _ _ _ Hm Hrun) as (st & _ & -> & _ & _ & _ & _ & _ & _ & Hk & Hn & Hp & Hq & Hl).
  by apply catalog_inv_write.
Qed.

Lemma UpdatePlan_Ok p env d t q d' t' :
  catalog_inv d -> P_Quota p <= MaxInt64 -> UpdatePlan p env d t = (Ok (q, d'), t') ->
  exists pl st now, plans d !! P_ID p = Some pl /\ plan_states d !! P_ID p = Some st /\
    P_ID q = P_ID p /\ P_Version p = st_version st /\ P_Version q = wrap64 (st_version st + 1) /\
    P_Active q = st_active st /\ P_Kind q = st_kind st /\ P_PriceYuan q = None /\ P_QuotaGB q = None /\
    d' = t_set PlanStates (<[P_ID q:={| st_active := P_Active q; st_version := P_Version q;
                                        st_kind := P_Kind q; st_updated := now |}]>)
           (t_set PlanLimitsT (<[P_ID q:=ruleOnlyLimits (P_Limits q)]>)
             (t_set Plans (<[P_ID q:=plan_columns q]>) d)) /\
    normalizePlanDuration q = Ok q /\ 0 < P_Price q <= 100000000 /\ 0 <= P_Quota q <= MaxInt64 /\
    0 <= MaxRules (P_Limits q) <= 100000.
Proof.
  intros Hi Hm Hrun. unfold UpdatePlan, savePlanLimits in Hrun. sql_run Hrun;
  match goal with
  | H1 : applyPlanUnits p = Ok ?a, H2 : normalizePlanDuration ?a = Ok ?b, H3 : validatePlan ?b = Ok ?u,
    H4 : planTx _ _ _ _ = _ |- _ =>
      destruct u, (applyPlanUnits_fields _ _ H1 Hm) as (Hy & Hg & Hq & Eid & Ever & Ekind);
      pose proof (normalize_shape _ _ H2) as Hs; destruct (validatePlan_bounds _ H3) as (Hp & Hq0 & Hl);
      pose proof (normalize_idempotent _ _ H2) as Hn;
      destruct (planTx_Ok _ _ _ _ _ _ _ Hi H4) as (_ & pl & st & Hpl & Hst & ->)
  end.
  all: destruct (plan_of_state (P_ID x0) pl st (plan_limits d !! P_ID x0)) as (Ev & Ea & Ek);
    rewrite ?Ev, ?Ea, ?Ek in *; simpl in *.
  all: try (match goal with H : forall r, _ = Some r -> true = false |- _ => discriminate (H _ Hpl) || discriminate (H _ Hst) end).
  rewrite Hst in Hrow0. injection Hrow0 as <-. bool_to_prop. assert (Hid : P_ID x0 = P_ID p) by (by rewrite Hs).
  assert (Hver : P_Version x0 = P_Version p) by (by rewrite Hs).
  exists pl, st. eexists. rewrite <- Hid. split; [done|]. split; [done|]. simpl. split; [done|].
  split; [congruence|]. split; [congruence|]. split; [done|]. split; [done|].
  split; [by rewrite Hs|]. split; [by rewrite Hs|]. split; [do 3 f_equal; congruence|].
  split; [by refine (normalize_same _ _ _ _ _ _ Hn)|]. split; [done|]. split; [|done].
  split; [done|]. by rewrite Hs.
Qed.

Lemma UpdatePlan_keeps p : P_Quota p <= MaxInt64 -> keeps catalog_inv (UpdatePlan p).
Proof.
  intros Hm env d t q d' t' Hrun Hi.
  destruct (UpdatePlan_Ok _ _ _ _ _ _ _ Hi Hm Hrun)
    as (pl & st & now & _ & _ & _ & _ & _ & _ & _ & _ & _ & -> & Hn & Hp & Hq & Hl).
  by apply catalog_inv_write.
Qed.
End Writes.

Lemma SetPlanActive_keeps plan active : keeps catalog_inv (SetPlanActive plan active).
Proof.
  intros env d t [] d' t' Hrun Hi. unfold SetPlanActive in Hrun. sql_run Hrun; [|done]. simpl in *.
  destruct Hi. split; simpl.
  - done.
  - intros i pl st Hpl [[<- <-]|[_ H]]%lookup_insert_Some; [|eauto].
    by apply (normalize_same (stored_plan plan pl x4)), ci_readable0.
  - intros i. rewrite ci_state0, lookup_insert_is_Some'. split; [eauto|]. intros [<-|H]; eauto.
  - done.
Qed.

(** ** Reading the catalogue back *)

Section ReadBack.
Context {RS : RatSyntax}.

(** What the administrator created is what a purchase reads: [planTx]
    after [CreatePlan] returns the very plan the creation returned, active
    and at version 1. *)
Lemma CreatePlan_planTx p env d t q d' t' env2 t2 :
  catalog_inv d -> P_Quota p <= MaxInt64 -> CreatePlan p env d t = (Ok (q, d'), t') ->
  P_Active q = true /\ P_Version q = 1 /\ planTx (P_ID q) env2 d' t2 = (Ok (q, d'), t2).
Proof.
  intros Hi Hm Hrun. pose proof (CreatePlan_keeps p Hm _ _ _ _ _ _ Hrun Hi) as Hi'.
  destruct (CreatePlan_Ok _ _ _ _ _ _ _ Hm Hrun)
    as (st & _ & -> & Hy & Hg & Ha & Hv & Hsa & Hsv & Hk & _).
  split; [done|]. split; [done|].
  rewrite (planTx_runs (P_ID q) env2 _ t2 (plan_columns q) st) by (simpl; rewrite ?lookup_insert_eq; done).
  simpl. rewrite lookup_insert_eq. cbn [plan_of].
  by rewrite stored_plan_columns by congruence.
Qed.

(** An edit is accepted only at the version it was read at; it moves
    the version by one, keeps the plan's kind and availability, and is
    what the next purchase reads. *)
Lemma UpdatePlan_planTx p env d t q d' t' env2 t2 old :
  catalog_inv d -> P_Quota p <= MaxInt64 ->
  planTx (P_ID p) env2 d t2 = (Ok (old, d), t2) ->
  UpdatePlan p env d t = (Ok (q, d'), t') ->
  P_Version p = P_Version old /\ P_Version q = wrap64 (P_Version old + 1) /\
  P_Active q = P_Active old /\ P_Kind q = P_Kind old /\
  planTx (P_ID p) env2 d' t2 = (Ok (q, d'), t2).
Proof.
  intros Hi Hm Hold Hrun. pose proof (UpdatePlan_keeps p Hm _ _ _ _ _ _ Hrun Hi) as Hi'.
  destruct (UpdatePlan_Ok _ _ _ _ _ _ _ Hi Hm Hrun)
    as (pl & st & now & Hpl & Hst & Hid & Hv & Hvq & Ha & Hk & Hy & Hg & Hd & _).
  rewrite (planTx_runs _ _ _ _ pl st) in Hold by done. injection Hold as <-.
  destruct (plan_of_state (P_ID p) pl st (plan_limits d !! P_ID p)) as (-> & -> & ->).
  repeat (split; [congruence|]). rewrite <- Hid.
  rewrite (planTx_runs (P_ID q) env2 _ t2 (plan_columns q)
    {| st_active := P_Active q; st_version := P_Version q; st_kind := P_Kind q; st_updated := now |});
    [|done|rewrite Hd; apply lookup_insert_eq|rewrite Hd; apply lookup_insert_eq].
  rewrite Hd at 1. simpl. rewrite lookup_insert_eq. cbn [plan_of]. by rewrite stored_plan_columns.
Qed.
End ReadBack.
