(* ===== verification/Quota.v ===== *)
(** * Traffic quota: leases, retirement and settlement
    (internal/commerce/quota.go, usage_batch.go; storage/queries.go
    [BulkCounter]; contract/types.go [ValidWindowMetadata])

    A node spends quota through leases.  The panel reserves a budget from
    the newest entitlement when it publishes a lease, charges usage records
    against the lease, and gives the unused part back when the node retires
    it. *)

From S2P Require Import Prelude Tx GoStrings Calendar Rational PlanRules Schema Wallet Plans.
From stdpp Require Import base gmap strings list.
From Stdlib Require Import Ascii String.
Local Open Scope string_scope.
Local Open Scope Z_scope.

Record Lease := { L_ID : string; L_EntitlementID : string; L_Bytes : Z; L_ExpiresAt : Z }.

Definition mib : Z := 1048576.

Definition add_allocated (n : Z) (e : ent_row) : ent_row :=
  {| e_user := e_user e; e_plan := e_plan e; e_version := e_version e; e_starts := e_starts e;
     e_expires := e_expires e; e_quota := e_quota e; e_used := e_used e; e_allocated := e_allocated e + n |}.
Definition add_used (n : Z) (e : ent_row) : ent_row :=
  {| e_user := e_user e; e_plan := e_plan e; e_version := e_version e; e_starts := e_starts e;
     e_expires := e_expires e; e_quota := e_quota e; e_used := e_used e + n; e_allocated := e_allocated e |}.
Definition lease_used (n : Z) (l : lease_row) : lease_row :=
  {| le_user := le_user l; le_node := le_node l; le_rule := le_rule l; le_ent := le_ent l;
     le_expires := le_expires l; le_bytes := le_bytes l; le_used := n; le_mult := le_mult l |}.
Definition close_reservation (r : reservation_row) : reservation_row :=
  {| rs_budget := rs_budget r; rs_closed := 1 |}.

Section Quota.
Context {RS : RatSyntax}.

(** The budgets a user's open leases hold. *)
Definition open_budget (user : string) (ls : gmap string lease_row) (k : string) (r : reservation_row) : Z :=
  match ls !! k with
  | Some l => if String.eqb (le_user l) user && (rs_closed r =? 0) then rs_budget r else 0
  | None => 0
  end.
Definition outstanding_budget (user : string) (ls : gmap string lease_row)
    (rs : gmap string reservation_row) : Z := map_sum (open_budget user ls) rs.

(** The budget to reserve: what was asked for, what the entitlement has
    left (a zero quota is unlimited) and 512 MiB per user, whichever is
    least; [None] when nothing is left. *)
Definition lease_budget (quota allocated requested outstanding : Z) : option Z :=
  let remaining := if quota =? 0 then requested else wrap64 (quota - allocated) in
  if remaining <=? 0 then None else
  let budget := Z.min requested (wrap64 (512 * mib - outstanding)) in
  if budget <=? 0 then None else
  Some (if remaining <? budget then remaining else budget).

Definition lease_deadline (now expires : Z) : Z :=
  if expires <? now + 5 * minute then expires else now + 5 * minute.

Definition AllocateBudgetWithMultiplier (user rule node multiplier : string) (requested : Z) : Tx DB Lease :=
  if (requested <=? 0) || (256 * mib <? requested) then fail (ErrMsg "lease budget outside 1..256 MiB") else
  match SetString multiplier with
  | None => fail (ErrMsg "invalid multiplier")
  | Some m =>
    if m.1 <=? 0 then fail (ErrMsg "invalid multiplier") else
    ent ← latest user;
    kr ← or_fail ent ErrEntitlementUnavailable;
    let e := scanEnt kr in
    now ← Now;
    if negb (now <? E_ExpiresAt e) then fail ErrEntitlementUnavailable else
    row ← SELECT Entitlements (E_ID e);
    row ← or_fail row ErrNoRows;
    let allocated := e_allocated row in
    outstanding ← gets (fun d => outstanding_budget user (leases d) (reservations d));
    budget ← or_fail (lease_budget (E_Quota e) allocated requested outstanding) ErrEntitlementUnavailable;
    let raw := Z.quot (budget * m.2) m.1 in
    if negb (raw <=? MaxInt64) || (raw <=? 0) then fail ErrEntitlementUnavailable else
    let deadline := lease_deadline now (E_ExpiresAt e) in
    lid ← id;
    n ← UPDATE Entitlements (E_ID e) (fun x => e_allocated x =? allocated) (add_allocated budget);
    guard_err (n =? 1) ErrConflict ;;
    INSERT Leases lid
      {| le_user := user; le_node := node; le_rule := rule; le_ent := E_ID e; le_expires := deadline;
         le_bytes := raw; le_used := 0; le_mult := RatString m |} ;;
    INSERT Reservations lid {| rs_budget := budget; rs_closed := 0 |} ;;
    mret {| L_ID := lid; L_EntitlementID := E_ID e; L_Bytes := raw; L_ExpiresAt := deadline |}
  end.

Definition LeaseCurrent (user : string) (lease : option Lease) : Tx DB bool :=
  match lease with
  | None => mret false
  | Some l =>
      now ← Now;
      if negb (now <? L_ExpiresAt l) then mret false else
      current ← latest user;
      match current with
      | None => mret false
      | Some kr =>
          if negb (String.eqb kr.1 (L_EntitlementID l)) then mret false else
          r ← SELECT Reservations (L_ID l);
          mret (match r with None => true | Some r => rs_closed r =? 0 end)
      end
  end.

Definition RetireLease (node lease : string) (usedBytes : Z) : Tx DB unit :=
  if usedBytes <? 0 then fail (ErrMsg "invalid used bytes") else
  row ← SELECT Leases lease;
  l ← or_fail row ErrNoRows;
  if negb (String.eqb (le_node l) node) || negb (le_used l =? usedBytes) then fail ErrConflict else
  match SetString (le_mult l) with
  | None => fail (ErrMsg "invalid lease multiplier")
  | Some m =>
    if m.1 <=? 0 then fail (ErrMsg "invalid lease multiplier") else
    res ← SELECT Reservations lease;
    r ← match res with
        | Some r => mret r
        | None =>
            let r := {| rs_budget := wrap64 (ceil_charge (le_bytes l) m); rs_closed := 0 |} in
            INSERT Reservations lease r ;; mret r
        end;
    if negb (rs_closed r =? 0) then mret tt else
    let refund := wrap64 (rs_budget r - wrap64 (ceil_charge (le_used l) m)) in
    if refund <? 0 then fail (ErrMsg "invalid lease reservation") else
    n ← UPDATE Reservations lease (fun x => rs_closed x =? 0) close_reservation;
    guard_err (n =? 1) ErrConflict ;;
    if refund =? 0 then mret tt else
    n ← UPDATE Entitlements (le_ent l) (fun e => refund <=? e_allocated e) (add_allocated (- refund));
    guard_err (n =? 1) ErrConflict
  end.

(** ** Settlement *)

Definition ValidWindowMetadata (u : UsageRecord) : bool :=
  if String.eqb (U_Kind u) "" then String.eqb (U_WindowID u) "" && (U_WindowSequence u =? 0)
  else (String.eqb (U_Kind u) "normal" || String.eqb (U_Kind u) "recovery")
       && (Z.of_nat (String.length (U_WindowID u)) =? 32) && (0 <? U_WindowSequence u)
       && String.eqb (U_ID u) (U_WindowID u ++ ":" ++ FormatInt (U_WindowSequence u)).

Definition valid_usage (u : UsageRecord) : bool :=
  negb (String.eqb (U_ID u) "" || (128 <? Z.of_nat (String.length (U_ID u)))
        || (U_UploadBytes u <? 0) || (U_DownloadBytes u <? 0)
        || (MaxInt64 - U_DownloadBytes u <? U_UploadBytes u)
        || IsZero (U_StartedAt u) || (U_EndedAt u <? U_StartedAt u)).

(** The records of a batch, each id once. *)
Fixpoint distinct (records : list UsageRecord) (seen : gmap string UsageRecord) : res (list UsageRecord) :=
  match records with
  | [] => Ok []
  | u :: records =>
      if negb (ValidWindowMetadata u) then Err (ErrMsg "invalid window usage metadata") else
      if negb (valid_usage u) then Err (ErrMsg "invalid usage") else
      match seen !! U_ID u with
      | Some old => if negb (bool_decide (old = u)) then Err ErrConflict else distinct records seen
      | None =>
          match distinct records (<[U_ID u := u]> seen) with
          | Ok l => Ok (u :: l)
          | Err e => Err e
          end
      end
  end.

(** A lease while a batch is charged to it. *)
Record open_lease := { w_row : lease_row; w_mult : Z * Z; w_closed : Z; w_used : Z }.
Definition w_add (n : Z) (w : open_lease) : open_lease :=
  {| w_row := w_row w; w_mult := w_mult w; w_closed := w_closed w; w_used := w_used w + n |}.

Definition raw_bytes (u : UsageRecord) : Z := U_UploadBytes u + U_DownloadBytes u.

(** One record: the charge is the difference of the rounded totals. *)
Definition charge_record (u : UsageRecord) (acc : gmap string open_lease * gmap string Z * list (string * usage_row))
  : res (gmap string open_lease * gmap string Z * list (string * usage_row)) :=
  let '(open, charges, rows) := acc in
  match open !! U_LeaseID u with
  | None => Err (ErrMsg "usage outside lease")
  | Some w =>
      let l := w_row w in
      if negb (w_closed w =? 0) || negb (String.eqb (le_node l) (U_NodeID u))
         || negb (String.eqb (le_rule l) (U_RuleID u)) || negb (String.eqb (le_ent l) (U_EntitlementID u))
         || (le_expires l <? U_EndedAt u)
      then Err (ErrMsg "usage outside lease") else
      let raw := wrap64 (raw_bytes u) in
      if (w_used w <? 0) || (le_bytes l <? w_used w) || (le_bytes l - w_used w <? raw)
      then Err (ErrMsg "lease quota exceeded") else
      let delta := ceil_charge (w_used w + raw) (w_mult w) - ceil_charge (w_used w) (w_mult w) in
      let total := default 0 (charges !! le_ent l) in
      if negb (delta <=? MaxInt64) || (delta <? 0) || (MaxInt64 - delta <? total)
      then Err (ErrMsg "charge overflow") else
      Ok (<[U_LeaseID u := w_add raw w]> open, <[le_ent l := total + delta]> charges,
          rows ++ [(U_ID u, {| us_lease := U_LeaseID u; us_payload := u; us_charged := delta |})])%list
  end.

Fixpoint charge_all (records : list UsageRecord) (acc : gmap string open_lease * gmap string Z * list (string * usage_row))
  : res (gmap string open_lease * gmap string Z * list (string * usage_row)) :=
  match records with
  | [] => Ok acc
  | u :: records => match charge_record u acc with Ok acc => charge_all records acc | Err e => Err e end
  end.

(** The lease rows of the fresh records, with their parsed multipliers. *)
Definition lock_lease (ls : gmap string lease_row) (rs : gmap string reservation_row)
    (u : UsageRecord) (acc : res (gmap string open_lease)) : res (gmap string open_lease) :=
  match acc with
  | Err e => Err e
  | Ok open =>
      match ls !! U_LeaseID u with
      | None => Ok open
      | Some l =>
          match SetString (le_mult l) with
          | Some m =>
              if m.1 <=? 0 then Err (ErrMsg "invalid multiplier") else
              Ok (<[U_LeaseID u := {| w_row := l; w_mult := m;
                    w_closed := match rs !! U_LeaseID u with Some r => rs_closed r | None => 0 end;
                    w_used := le_used l |}]> open)
          | None => Err (ErrMsg "invalid multiplier")
          end
      end
  end.
Definition lock_leases (ls : gmap string lease_row) (rs : gmap string reservation_row)
    (fresh : list UsageRecord) : res (gmap string open_lease) :=
  foldr (lock_lease ls rs) (Ok ∅) fresh.

(** [BulkCounter] on [commerce_leases.used], with compare-and-swap, and on
    [commerce_entitlements.used]: every change must match its row. *)
Definition bump_lease (kw : string * open_lease) : Tx DB unit :=
  let before := le_used (w_row kw.2) in
  if w_used kw.2 =? before then mret tt else
  rs ← gets reservations;
  n ← UPDATE Leases kw.1
        (fun l => (le_used l =? before)
                  && match rs !! kw.1 with Some r => rs_closed r =? 0 | None => true end)
        (fun l => lease_used (le_used l + (w_used kw.2 - before)) l);
  guard_err (n =? 1) (ErrMsg "bulk counter conflict").
Definition bump_ent (kd : string * Z) : Tx DB unit :=
  if kd.2 <=? 0 then mret tt else
  n ← UPDATE Entitlements kd.1 (fun _ => true) (add_used kd.2);
  guard_err (n =? 1) (ErrMsg "bulk counter conflict").

Definition SettleUsageBatch (records : list UsageRecord) : Tx DB unit :=
  if 500 <? Z.of_nat (List.length records) then fail (ErrMsg "usage batch exceeds 500") else
  unique ← of_res (distinct records ∅);
  known ← gets usage;
  guard_err (forallb (fun u => match known !! U_ID u with
                               | Some row => bool_decide (us_payload row = u)
                               | None => true
                               end) unique) ErrConflict ;;
  let fresh := filter (fun u => known !! U_ID u = None) unique in
  if bool_decide (fresh = []) then mret tt else
  ls ← gets leases;
  rs ← gets reservations;
  open ← of_res (lock_leases ls rs fresh);
  '(open, charges, rows) ← of_res (charge_all fresh (open, ∅, []));
  for_each (map_to_list open) bump_lease ;;
  for_each (map_to_list charges) bump_ent ;;
  for_each rows (fun row => INSERT Usage row.1 row.2).
End Quota.

(** ** The accounts of quota

    [quota_on fe fr fc]: every lease belongs to an entitlement, has a
    reservation that covers its charge, and was never used beyond its
    bytes.  An entitlement's [allocated] is what its leases hold (the
    budget while open, the charge once closed); up to the pending amounts
    [fe], [fr], [fc] its [used] is what its leases were charged, and the
    usage records of a lease add up to its bytes and its charge. *)
Section Accounts.
Context {RS : RatSyntax}.

Definition at_key (k k' : string) (x : Z) : Z := if String.eqb k k' then x else 0.

Definition mult_of (l : lease_row) : Z * Z := default (1, 1) (SetString (le_mult l)).
Definition charge_of (l : lease_row) : Z := ceil_charge (le_used l) (mult_of l).
Definition held (rs : gmap string reservation_row) (k : string) (l : lease_row) : Z :=
  match rs !! k with
  | Some r => if rs_closed r =? 0 then rs_budget r else charge_of l
  | None => 0
  end.
Definition held_by (eid : string) (rs : gmap string reservation_row) (ls : gmap string lease_row) : Z :=
  map_sum (fun k l => at_key (le_ent l) eid (held rs k l)) ls.
Definition charged_to (eid : string) (ls : gmap string lease_row) : Z :=
  map_sum (fun _ l => at_key (le_ent l) eid (charge_of l)) ls.
Definition raw_of (k : string) (us : gmap string usage_row) : Z :=
  map_sum (fun _ u => at_key (us_lease u) k (raw_bytes (us_payload u))) us.
Definition recorded (k : string) (us : gmap string usage_row) : Z :=
  map_sum (fun _ u => at_key (us_lease u) k (us_charged u)) us.

Record lease_ok (es : gmap string ent_row) (rs : gmap string reservation_row) (k : string) (l : lease_row) : Prop := {
  lk_mult : exists n d, SetString (le_mult l) = Some (n, d) /\ 0 < n /\ 0 < d;
  lk_used : 0 <= le_used l <= le_bytes l;
  lk_bytes : le_bytes l <= MaxInt64;
  lk_ent : is_Some (es !! le_ent l);
  lk_budget : exists r, rs !! k = Some r /\ 0 < rs_budget r <= 512 * mib /\
              ceil_charge (le_bytes l) (mult_of l) <= rs_budget r
}.

Record quota_on (fe fr fc : string -> Z) (es : gmap string ent_row) (ls : gmap string lease_row)
    (rs : gmap string reservation_row) (us : gmap string usage_row) : Prop := {
  q_lease k l : ls !! k = Some l -> lease_ok es rs k l;
  q_res k r : rs !! k = Some r -> is_Some (ls !! k);
  q_alloc eid e : es !! eid = Some e -> e_allocated e = held_by eid rs ls;
  q_used eid e : es !! eid = Some e -> e_used e + fe eid = charged_to eid ls;
  q_quota eid e : es !! eid = Some e -> 0 <= e_quota e <= MaxInt64 /\ (e_quota e = 0 \/ e_allocated e <= e_quota e);
  q_user user : outstanding_budget user ls rs <= 512 * mib;
  q_usage k u : us !! k = Some u -> is_Some (ls !! us_lease u);
  q_raw k l : ls !! k = Some l -> le_used l = raw_of k us + fr k;
  q_charged k l : ls !! k = Some l -> charge_of l = recorded k us + fc k
}.
Definition zero (_ : string) : Z := 0.
Definition quota_inv (d : DB) : Prop :=
  quota_on zero zero zero (entitlements d) (leases d) (reservations d) (usage d).

Lemma mult_of_pos es rs k l : lease_ok es rs k l -> 0 < (mult_of l).1 /\ 0 < (mult_of l).2.
Proof. intros []. destruct lk_mult0 as (n & dd & Hs & Hn & Hd). unfold mult_of. by rewrite Hs. Qed.

Lemma charge_of_bounds es rs k l r :
  lease_ok es rs k l -> rs !! k = Some r -> 0 <= charge_of l <= rs_budget r.
Proof.
  intros Hok Hr. destruct (mult_of_pos _ _ _ _ Hok) as [Hn Hd]. destruct Hok.
  destruct lk_budget0 as (r' & Hr' & Hb & Hc). rewrite Hr in Hr'. injection Hr' as <-.
  unfold charge_of. destruct (mult_of l) as [n dd]. simpl in *. split.
  - apply ceil_charge_nonneg; lia.
  - transitivity (ceil_charge (le_bytes l) (n, dd)); [apply ceil_charge_mono; lia|done].
Qed.

Lemma held_bounds fe fr fc es ls rs us k l :
  quota_on fe fr fc es ls rs us -> ls !! k = Some l -> 0 <= charge_of l <= held rs k l.
Proof.
  intros Hq Hl. pose proof (q_lease _ _ _ _ _ _ _ Hq _ _ Hl) as Hok.
  destruct (lk_budget _ _ _ _ Hok) as (r & Hr & Hb & _).
  pose proof (charge_of_bounds _ _ _ _ _ Hok Hr). unfold held. rewrite Hr.
  destruct (rs_closed r =? 0); lia.
Qed.

(** What is used never exceeds what is allocated. *)
Lemma charged_held eid fe fr fc es ls rs us :
  quota_on fe fr fc es ls rs us -> 0 <= charged_to eid ls <= held_by eid rs ls.
Proof.
  intros Hq. split.
  - apply map_sum_nonneg. intros k l Hl. unfold at_key. destruct (String.eqb _ _); [|done].
    by apply (held_bounds _ _ _ _ _ _ _ _ _ Hq Hl).
  - apply map_sum_le. intros k l Hl. unfold at_key. destruct (String.eqb _ _); [|done].
    by apply (held_bounds _ _ _ _ _ _ _ _ _ Hq Hl).
Qed.

Lemma lease_ok_ents es es' rs k l :
  (forall eid, is_Some (es !! eid) -> is_Some (es' !! eid)) -> lease_ok es rs k l -> lease_ok es' rs k l.
Proof. intros He []. split; auto. Qed.

(** *** Entitlements *)

(** A new entitlement: nothing refers to it yet. *)
Lemma quota_new_ent es ls rs us eid e :
  quota_on zero zero zero es ls rs us -> es !! eid = None ->
  e_used e = 0 -> e_allocated e = 0 -> 0 <= e_quota e <= MaxInt64 ->
  quota_on zero zero zero (<[eid:=e]> es) ls rs us.
Proof.
  intros Hq Hn Hu Ha Hr.
  assert (Hnone : forall (f : string -> lease_row -> Z),
    map_sum (fun k l => at_key (le_ent l) eid (f k l)) ls = 0).
  { intros f. apply map_sum_all_zero. intros k l Hl. unfold at_key.
    destruct (String.eqb (le_ent l) eid) eqn:E; [|done]. bool_to_prop.
    destruct (lk_ent _ _ _ _ (q_lease _ _ _ _ _ _ _ Hq _ _ Hl)). congruence. }
  destruct Hq. split; try done.
  - intros k l Hl. eapply lease_ok_ents; [|by eauto]. intros x Hx. rewrite lookup_insert_is_Some'. auto.
  - intros x e' [[<- <-]|[_ H]]%lookup_insert_Some; [|eauto]. unfold held_by. by rewrite Hnone.
  - intros x e' [[<- <-]|[_ H]]%lookup_insert_Some; [|eauto]. unfold charged_to. rewrite Hnone. unfold zero. lia.
  - intros x e' [[<- <-]|[_ H]]%lookup_insert_Some; [|eauto]. lia.
Qed.

(** Changing the row of an entitlement. *)
Lemma quota_set_ent fe fe' fr fc es ls rs us eid e e' :
  quota_on fe fr fc es ls rs us -> es !! eid = Some e ->
  e_allocated e' = e_allocated e -> e_used e' + fe' eid = e_used e + fe eid ->
  (forall x, x <> eid -> fe' x = fe x) ->
  0 <= e_quota e' <= MaxInt64 -> (e_quota e' = 0 \/ e_allocated e <= e_quota e') ->
  quota_on fe' fr fc (<[eid:=e']> es) ls rs us.
Proof.
  intros Hq He Ha Hu Hfe Hr Hc. destruct Hq. split; try done.
  - intros k l Hl. eapply lease_ok_ents; [|by eauto]. intros x Hx. rewrite lookup_insert_is_Some'. auto.
  - intros x r [[<- <-]|[_ H]]%lookup_insert_Some; [|eauto]. rewrite Ha. eauto.
  - intros x r [[<- <-]|[Hne H]]%lookup_insert_Some; [rewrite Hu; eauto|]. rewrite Hfe by done. eauto.
  - intros x r [[<- <-]|[_ H]]%lookup_insert_Some; [|eauto]. split; [done|]. rewrite Ha. done.
Qed.

(** *** Leases *)

Lemma outstanding_new user ls rs k l r :
  ls !! k = None -> rs !! k = None -> (forall k r, rs !! k = Some r -> is_Some (ls !! k)) ->
  outstanding_budget user (<[k:=l]> ls) (<[k:=r]> rs) =
    outstanding_budget user ls rs + (if String.eqb (le_user l) user && (rs_closed r =? 0) then rs_budget r else 0).
Proof.
  intros Hl Hr Hres. unfold outstanding_budget. rewrite map_sum_insert_None by done.
  unfold open_budget at 1. rewrite lookup_insert_eq.
  rewrite (map_sum_ext (open_budget user (<[k:=l]> ls)) (open_budget user ls)); [lia|].
  intros k' r' Hk'. unfold open_budget. rewrite lookup_insert_ne; [done|]. congruence.
Qed.

(** A lease granted with its reservation. *)
Lemma quota_new_lease es ls rs us eid e lid l budget :
  quota_on zero zero zero es ls rs us -> es !! eid = Some e -> ls !! lid = None -> rs !! lid = None ->
  le_ent l = eid -> le_used l = 0 -> 0 < budget ->
  (e_quota e = 0 \/ e_allocated e + budget <= e_quota e) ->
  outstanding_budget (le_user l) ls rs + budget <= 512 * mib ->
  lease_ok (<[eid:=add_allocated budget e]> es) (<[lid:={| rs_budget := budget; rs_closed := 0 |}]> rs) lid l ->
  quota_on zero zero zero (<[eid:=add_allocated budget e]> es) (<[lid:=l]> ls)
    (<[lid:={| rs_budget := budget; rs_closed := 0 |}]> rs) us.
Proof.
  intros Hq He Hl Hr Hent Hu Hb Hc Ho Hok.
  assert (Hcharge : charge_of l = 0).
  { destruct (mult_of_pos _ _ _ _ Hok) as [Hn Hd]. unfold charge_of. rewrite Hu.
    destruct (mult_of l). by apply ceil_charge_0. }
  assert (Hnew : forall x, raw_of lid us = 0 /\ recorded lid us = 0 /\
    held_by x (<[lid:={| rs_budget := budget; rs_closed := 0 |}]> rs) (<[lid:=l]> ls) =
      held_by x rs ls + at_key eid x budget /\ charged_to x (<[lid:=l]> ls) = charged_to x ls).
  { intros x. split; [|split; [|split]].
    - apply map_sum_all_zero. intros k u Hk. unfold at_key. destruct (String.eqb _ _) eqn:E; [|done].
      bool_to_prop. destruct (q_usage _ _ _ _ _ _ _ Hq _ _ Hk). congruence.
    - apply map_sum_all_zero. intros k u Hk. unfold at_key. destruct (String.eqb _ _) eqn:E; [|done].
      bool_to_prop. destruct (q_usage _ _ _ _ _ _ _ Hq _ _ Hk). congruence.
    - unfold held_by. rewrite map_sum_insert_None by done. unfold held at 1. rewrite lookup_insert_eq. simpl.
      rewrite Hent. erewrite map_sum_ext; [apply Z.add_comm|].
      intros k' l' Hk'. unfold held. rewrite lookup_insert_ne; [done|]. congruence.
    - unfold charged_to. rewrite map_sum_insert_None by done. rewrite Hcharge. unfold at_key at 1.
      destruct (String.eqb _ _); lia. }
  destruct Hq. split.
  - intros k l' [[<- <-]|[Hne H]]%lookup_insert_Some; [done|]. destruct (q_lease0 _ _ H).
    split; auto; [apply lookup_insert_is_Some'; auto|].
    rewrite lookup_insert_ne by done. done.
  - intros k r [[<- <-]|[Hne H]]%lookup_insert_Some; apply lookup_insert_is_Some'; eauto.
  - intros x e'. destruct (Hnew x) as (_ & _ & -> & _). intros [[<- <-]|[Hne H]]%lookup_insert_Some.
    + simpl. unfold at_key. rewrite String.eqb_refl. rewrite (q_alloc0 _ _ He). done.
    + unfold at_key. replace (String.eqb eid x) with false by (symmetry; by apply String.eqb_neq).
      rewrite (q_alloc0 _ _ H). lia.
  - intros x e'. destruct (Hnew x) as (_ & _ & _ & ->). intros [[<- <-]|[Hne H]]%lookup_insert_Some; simpl; eauto.
  - intros x e' [[<- <-]|[Hne H]]%lookup_insert_Some; simpl; [|eauto]. destruct (q_quota0 _ _ He). lia.
  - intros user. rewrite outstanding_new by done. simpl. rewrite andb_true_r.
    destruct (String.eqb (le_user l) user) eqn:E; [bool_to_prop; subst user; lia|]. specialize (q_user0 user). lia.
  - intros k u Hk. apply lookup_insert_is_Some'. eauto.
  - intros k l' [[<- <-]|[Hne H]]%lookup_insert_Some; [|eauto]. destruct (Hnew lid) as (-> & _). unfold zero. lia.
  - intros k l' [[<- <-]|[Hne H]]%lookup_insert_Some; [|eauto]. destruct (Hnew lid) as (_ & -> & _). unfold zero. lia.
Qed.

Lemma outstanding_close user ls rs k r :
  rs !! k = Some r -> rs_closed r = 0 -> 0 <= rs_budget r ->
  outstanding_budget user ls (<[k:=close_reservation r]> rs) <= outstanding_budget user ls rs.
Proof.
  intros Hr Hc Hb. unfold outstanding_budget. rewrite map_sum_insert, Hr. simpl. unfold open_budget at 2 3.
  destruct (ls !! k); [|lia]. simpl. rewrite Hc. rewrite andb_false_r, andb_true_r.
  destruct (String.eqb _ _); lia.
Qed.

(** A retired lease keeps its charge and gives the rest back. *)
Lemma quota_close es ls rs us k l r e :
  quota_on zero zero zero es ls rs us -> ls !! k = Some l -> rs !! k = Some r -> rs_closed r = 0 ->
  es !! le_ent l = Some e ->
  quota_on zero zero zero (<[le_ent l:=add_allocated (- (rs_budget r - charge_of l)) e]> es) ls
    (<[k:=close_reservation r]> rs) us.
Proof.
  intros Hq Hl Hr Hc He. pose proof (q_lease _ _ _ _ _ _ _ Hq _ _ Hl) as Hok.
  pose proof (charge_of_bounds _ _ _ _ _ Hok Hr) as Hb.
  assert (Hheld : forall x, held_by x (<[k:=close_reservation r]> rs) ls =
    held_by x rs ls + at_key (le_ent l) x (charge_of l - rs_budget r)).
  { intros x. unfold held_by. rewrite (map_sum_change (fun k l => at_key (le_ent l) x (held rs k l)) _ ls k l Hl).
    - unfold held. rewrite lookup_insert_eq, Hr, Hc. simpl. unfold at_key. destruct (String.eqb _ _); lia.
    - intros k' l' Hne Hk'. unfold held. by rewrite lookup_insert_ne. }
  destruct Hq. split; try done.
  - intros k' l' Hk'. destruct (q_lease0 _ _ Hk'). split; auto; [apply lookup_insert_is_Some'; auto|].
    destruct (decide (k = k')) as [->|Hne]; [|by rewrite lookup_insert_ne].
    rewrite lookup_insert_eq. destruct lk_budget0 as (r' & Hr' & Hb' & Hcc). rewrite Hr in Hr'. injection Hr' as <-.
    by exists (close_reservation r).
  - intros k' r' [[<- <-]|[Hne H]]%lookup_insert_Some; eauto.
  - intros x e'. rewrite Hheld. intros [[<- <-]|[Hne H]]%lookup_insert_Some.
    + simpl. unfold at_key. rewrite String.eqb_refl, (q_alloc0 _ _ He). lia.
    + unfold at_key. replace (String.eqb (le_ent l) x) with false by (symmetry; by apply String.eqb_neq).
      rewrite (q_alloc0 _ _ H). lia.
  - intros x e' [[<- <-]|[Hne H]]%lookup_insert_Some; simpl; eauto.
  - intros x e' [[<- <-]|[Hne H]]%lookup_insert_Some; simpl; [|eauto]. destruct (q_quota0 _ _ He). lia.
  - intros user. transitivity (outstanding_budget user ls rs); [|done]. apply outstanding_close; [done|done|lia].
Qed.

(** *** Usage *)

Lemma outstanding_same_user user ls rs k l l' :
  ls !! k = Some l -> le_user l' = le_user l ->
  outstanding_budget user (<[k:=l']> ls) rs = outstanding_budget user ls rs.
Proof.
  intros Hl Hu. apply map_sum_ext. intros k' r' _. unfold open_budget.
  destruct (decide (k = k')) as [->|Hne]; [rewrite lookup_insert_eq, Hl; by rewrite Hu|].
  by rewrite lookup_insert_ne.
Qed.

(** Bytes charged to an open lease, before the entitlement and the
    records follow. *)
Lemma quota_bump_lease fe fr fc es ls rs us k l n :
  quota_on fe fr fc es ls rs us -> ls !! k = Some l ->
  (forall r, rs !! k = Some r -> rs_closed r = 0) -> 0 <= n <= le_bytes l ->
  let l' := lease_used n l in
  quota_on (fun x => fe x + at_key (le_ent l) x (charge_of l' - charge_of l))
           (fun x => fr x + at_key k x (n - le_used l))
           (fun x => fc x + at_key k x (charge_of l' - charge_of l))
           es (<[k:=l']> ls) rs us.
Proof.
  intros Hq Hl Hopen Hn l'. pose proof (q_lease _ _ _ _ _ _ _ Hq _ _ Hl) as Hok.
  assert (Hother : forall x, x <> k -> at_key k x = fun _ => 0).
  { intros x Hne. unfold at_key. by replace (String.eqb k x) with false by (symmetry; apply String.eqb_neq; congruence). }
  assert (Hheld : forall x, held_by x rs (<[k:=l']> ls) = held_by x rs ls).
  { intros x. unfold held_by. rewrite map_sum_insert, Hl. simpl.
    assert (held rs k l' = held rs k l); [|unfold at_key; destruct (String.eqb _ _); lia].
    unfold held. destruct (rs !! k) as [r|] eqn:Hr; [|done]. by rewrite (Hopen r eq_refl). }
  destruct Hq. split; try done.
  - intros k' l2 [[<- <-]|[Hne H]]%lookup_insert_Some; [|eauto]. destruct Hok. by split.
  - intros k' r' Hk'. apply lookup_insert_is_Some'. eauto.
  - intros x e Hx. rewrite Hheld. eauto.
  - intros x e Hx. unfold charged_to. rewrite map_sum_insert, Hl. simpl.
    specialize (q_used0 _ _ Hx). unfold charged_to in q_used0. unfold at_key in *. simpl. destruct (String.eqb _ _); lia.
  - intros user. rewrite (outstanding_same_user _ _ _ _ l) by done. done.
  - intros k' u Hk'. apply lookup_insert_is_Some'. eauto.
  - intros k' l2 [[<- <-]|[Hne H]]%lookup_insert_Some.
    + simpl. specialize (q_raw0 _ _ Hl). unfold at_key. rewrite String.eqb_refl. lia.
    + rewrite Hother by done. specialize (q_raw0 _ _ H). lia.
  - intros k' l2 [[<- <-]|[Hne H]]%lookup_insert_Some.
    + specialize (q_charged0 _ _ Hl). unfold at_key. rewrite String.eqb_refl. lia.
    + rewrite Hother by done. specialize (q_charged0 _ _ H). lia.
Qed.

Lemma quota_add_usage fe fr fc es ls rs us k u :
  quota_on fe fr fc es ls rs us -> us !! k = None -> is_Some (ls !! us_lease u) ->
  quota_on fe (fun x => fr x - at_key (us_lease u) x (raw_bytes (us_payload u)))
           (fun x => fc x - at_key (us_lease u) x (us_charged u)) es ls rs (<[k:=u]> us).
Proof.
  intros Hq Hn Hl. destruct Hq. split; try done.
  - intros k' u' [[<- <-]|[_ H]]%lookup_insert_Some; eauto.
  - intros x l Hx. unfold raw_of. rewrite map_sum_insert_None by done.
    specialize (q_raw0 _ _ Hx). unfold raw_of in q_raw0. lia.
  - intros x l Hx. unfold recorded. rewrite map_sum_insert_None by done.
    specialize (q_charged0 _ _ Hx). unfold recorded in q_charged0. lia.
Qed.

Lemma quota_ext fe fr fc fe' fr' fc' es ls rs us :
  quota_on fe fr fc es ls rs us ->
  (forall eid, is_Some (es !! eid) -> fe' eid = fe eid) ->
  (forall k, is_Some (ls !! k) -> fr' k = fr k) -> (forall k, is_Some (ls !! k) -> fc' k = fc k) ->
  quota_on fe' fr' fc' es ls rs us.
Proof.
  intros [] He Hr Hc. split; try done.
  - intros x e Hx. rewrite He by eauto. eauto.
  - intros x l Hx. rewrite Hr by eauto. eauto.
  - intros x l Hx. rewrite Hc by eauto. eauto.
Qed.
End Accounts.

(** ** Operations keep the accounts *)
Section Operations.
Context {RS : RatSyntax}.

Lemma held_by_nonneg fe fr fc es ls rs us eid :
  quota_on fe fr fc es ls rs us -> 0 <= held_by eid rs ls.
Proof. intros Hq. pose proof (charged_held eid _ _ _ _ _ _ _ Hq). lia. Qed.

Lemma outstanding_nonneg fe fr fc es ls rs us user :
  quota_on fe fr fc es ls rs us -> 0 <= outstanding_budget user ls rs.
Proof.
  intros Hq. apply map_sum_nonneg. intros k r Hr. unfold open_budget.
  destruct (ls !! k) as [l|] eqn:Hl; [|done]. destruct (_ && _); [|done].
  destruct (lk_budget _ _ _ _ (q_lease _ _ _ _ _ _ _ Hq _ _ Hl)) as (r' & Hr' & Hb & _).
  rewrite Hr in Hr'. injection Hr' as <-. lia.
Qed.

Lemma lease_budget_spec quota allocated requested outstanding b :
  0 <= quota <= MaxInt64 -> 0 <= allocated -> (quota = 0 \/ allocated <= quota) ->
  0 <= outstanding <= 512 * mib -> 0 < requested <= 256 * mib ->
  lease_budget quota allocated requested outstanding = Some b ->
  0 < b <= requested /\ (quota = 0 \/ allocated + b <= quota) /\ outstanding + b <= 512 * mib.
Proof.
  intros Hq Ha Hqa Ho Hr. unfold lease_budget.
  assert (Hw : wrap64 (512 * mib - outstanding) = 512 * mib - outstanding)
    by (apply wrap64_id; unfold in_int64, MinInt64, MaxInt64, mib in *; lia).
  rewrite Hw. cbv zeta. destruct (quota =? 0) eqn:E0; bool_to_prop.
  - destruct (requested <=? 0) eqn:E1; [done|]. destruct (Z.min _ _ <=? 0) eqn:E2; [done|]. bool_to_prop.
    intros Hs. injection Hs as <-. destruct (_ <? _) eqn:E3; bool_to_prop; lia.
  - rewrite (wrap64_id (quota - allocated)) by (unfold in_int64, MinInt64, MaxInt64 in *; lia).
    destruct (quota - allocated <=? 0) eqn:E1; [done|]. destruct (Z.min _ _ <=? 0) eqn:E2; [done|]. bool_to_prop.
    intros Hs. injection Hs as <-. destruct (_ <? _) eqn:E3; bool_to_prop; lia.
Qed.

Lemma lease_deadline_min now expires : lease_deadline now expires = Z.min expires (now + 5 * minute).
Proof. unfold lease_deadline. destruct (_ <? _) eqn:E; bool_to_prop; lia. Qed.

(** What a grant leaves in the tables. *)
Lemma Allocate_Ok user rule node multiplier requested env d t lease d' t' :
  quota_inv d -> AllocateBudgetWithMultiplier user rule node multiplier requested env d t = (Ok (lease, d'), t') ->
  exists eid e m budget now l,
    is_latest user (entitlements d) (Some (eid, e)) /\ now < e_expires e /\
    0 < budget <= requested /\ requested <= 256 * mib /\
    (e_quota e = 0 \/ e_allocated e + budget <= e_quota e) /\
    outstanding_budget user (leases d) (reservations d) + budget <= 512 * mib /\
    SetString multiplier = Some m /\ 0 < m.1 /\ 0 < m.2 /\
    L_Bytes lease = Z.quot (budget * m.2) m.1 /\ 0 < L_Bytes lease <= MaxInt64 /\
    L_EntitlementID lease = eid /\ L_ExpiresAt lease = Z.min (e_expires e) (now + 5 * minute) /\
    l = {| le_user := user; le_node := node; le_rule := rule; le_ent := eid;
           le_expires := L_ExpiresAt lease; le_bytes := L_Bytes lease; le_used := 0; le_mult := RatString m |} /\
    leases d !! L_ID lease = None /\ reservations d !! L_ID lease = None /\
    d' = t_set Reservations (<[L_ID lease:={| rs_budget := budget; rs_closed := 0 |}]>)
           (t_set Leases (<[L_ID lease:=l]>)
             (t_set Entitlements (<[eid:=add_allocated budget e]>) d)).
Proof.
  intros Hq Hrun. unfold AllocateBudgetWithMultiplier in Hrun. sql_run Hrun; try done.
  destruct x0 as [eid e]. pose proof Hlatest as (He & Hu & Hmax). simpl in *.
  rewrite He in *. repeat match goal with H : Some e = Some _ |- _ => injection H as <- end.
  subst user. destruct p as [n dd]. bool_to_prop. simpl in *.
  destruct (q_quota _ _ _ _ _ _ _ Hq _ _ He) as [Hr Hqa].
  destruct (lease_budget_spec (e_quota e) (e_allocated e) requested
    (outstanding_budget (e_user e) (leases d) (reservations d)) x4) as (Hb & Hc & Hout); try done.
  { rewrite (q_alloc _ _ _ _ _ _ _ Hq _ _ He). by eapply held_by_nonneg. }
  { split; [by eapply outstanding_nonneg|apply (q_user _ _ _ _ _ _ _ Hq)]. }
  destruct (SetString_reduced _ _ _ Hif0) as [Hd _].
  exists eid, e, (n, dd), x4, x. eexists. rewrite <- lease_deadline_min. simpl.
  repeat match goal with |- _ /\ _ => split | _ => done | _ => lia end.
Qed.

Lemma Allocate_keeps user rule node multiplier requested :
  keeps quota_inv (AllocateBudgetWithMultiplier user rule node multiplier requested).
Proof.
  intros env d t lease d' t' Hrun Hq.
  destruct (Allocate_Ok _ _ _ _ _ _ _ _ _ _ _ Hq Hrun)
    as (eid & e & [n dd] & b & now & l & (He & Hu & _) & _ & Hb & Hreq & Hc & Hout & Hm & Hn & Hd & Hbytes & Hbr & _ & _ & -> & Hl & Hr & ->).
  simpl in *. destruct (SetString_reduced _ _ _ Hm) as [_ Hg].
  apply (quota_new_lease (entitlements d) (leases d) (reservations d) (usage d)); try done; [lia|].
  split; simpl.
  - exists n, dd. by rewrite SetString_RatString.
  - lia.
  - lia.
  - rewrite lookup_insert_eq. eauto.
  - rewrite lookup_insert_eq. eexists. split; [done|]. simpl. split; [unfold mib in *; lia|].
    unfold mult_of. simpl. rewrite SetString_RatString by done. simpl. rewrite Hbytes.
    apply ceil_charge_budget; [done|done|lia|]. split; [|done]. lia.
Qed.

Lemma RetireLease_Ok node lease used env d t d' t' :
  quota_inv d -> RetireLease node lease used env d t = (Ok (tt, d'), t') ->
  exists l r e, leases d !! lease = Some l /\ reservations d !! lease = Some r /\
    entitlements d !! le_ent l = Some e /\ le_used l = used /\ le_node l = node /\
    ((rs_closed r <> 0 /\ d' = d) \/
     (rs_closed r = 0 /\ charge_of l = rs_budget r /\
       d' = t_set Reservations (<[lease:=close_reservation r]>) d) \/
     (rs_closed r = 0 /\ charge_of l < rs_budget r /\
       d' = t_set Entitlements (<[le_ent l:=add_allocated (- (rs_budget r - charge_of l)) e]>)
             (t_set Reservations (<[lease:=close_reservation r]>) d))).
Proof.
  intros Hq Hrun. unfold RetireLease in Hrun.
  destruct (used <? 0) eqn:Eu; [done|].
  apply tx_bind_Ok in Hrun as (row & d1 & t1 & Hsel & Hrun). sql_inv Hsel.
  apply tx_bind_Ok in Hrun as (l & d1 & t2 & Hor & Hrun). sql_inv Hor. simpl in Ho.
  pose proof (q_lease _ _ _ _ _ _ _ Hq _ _ Ho) as Hok.
  destruct (lk_budget _ _ _ _ Hok) as (r & Hr & Hb & _).
  destruct (lk_ent _ _ _ _ Hok) as [e He].
  destruct (lk_mult _ _ _ _ Hok) as (n & dd & Hm & Hn & Hd).
  pose proof (charge_of_bounds _ _ _ _ _ Hok Hr) as Hch.
  assert (Hcc : ceil_charge (le_used l) (n, dd) = charge_of l) by (unfold charge_of, mult_of; by rewrite Hm).
  destruct (negb _ || negb _) eqn:Ecas in Hrun; [done|]. bool_to_prop. rewrite Hm in Hrun. simpl in Hrun.
  destruct (n <=? 0) eqn:En; [done|].
  apply tx_bind_Ok in Hrun as (res & d1 & t3 & Hsel & Hrun). sql_inv Hsel. simpl in Hrun. rewrite Hr in Hrun.
  apply tx_bind_Ok in Hrun as (r' & d1 & t4 & Hret & Hrun). sql_inv Hret. rewrite Hcc in Hrun.
  rewrite (wrap64_id (charge_of l)), (wrap64_id (rs_budget r - charge_of l)) in Hrun
    by (unfold in_int64, MinInt64, MaxInt64, mib in *; lia).
  exists l, r, e. do 5 (split; [done|]).
  sql_run Hrun; simpl in * |-; bool_to_prop; try lia; rewrite ?Hr in *;
    try match goal with H : Some r = Some _ |- _ => injection H as <- end.
  - by left.
  - right. left. split; [done|]. split; [lia|done].
  - right. right. rewrite He in Hrow0. injection Hrow0 as <-. split; [done|]. split; [lia|done].
Qed.

Lemma RetireLease_keeps node lease used : keeps quota_inv (RetireLease node lease used).
Proof.
  intros env d t [] d' t' Hrun Hq.
  destruct (RetireLease_Ok _ _ _ _ _ _ _ _ Hq Hrun)
    as (l & r & e & Hl & Hr & He & _ & _ & [[_ ->]|[(Hc & Hf & ->)|(Hc & _ & ->)]]); [done| |].
  - pose proof (quota_close _ _ _ _ _ _ _ _ Hq Hl Hr Hc He) as Hcl. rewrite Hf, Z.sub_diag in Hcl.
    unfold quota_inv. simpl. rewrite <- (insert_id (entitlements d) (le_ent l) e) by done.
    replace e with (add_allocated (- 0) e) at 1; [done|].
    destruct e. unfold add_allocated. simpl. f_equal. lia.
  - exact (quota_close _ _ _ _ _ _ _ _ Hq Hl Hr Hc He).
Qed.
End Operations.

(** ** Settlement keeps the accounts *)
Section Settlement.
Context {RS : RatSyntax}.

Lemma at_key_eq k x : at_key k k x = x.
Proof. unfold at_key. by rewrite String.eqb_refl. Qed.
Lemma at_key_ne k k' x : k <> k' -> at_key k k' x = 0.
Proof. intros Hne. unfold at_key. by apply String.eqb_neq in Hne as ->. Qed.

Lemma map_sum_at_key {V} (f : string -> V -> Z) (m : gmap string V) k :
  map_sum (fun k' v => at_key k' k (f k' v)) m = from_option (f k) 0 (m !! k).
Proof.
  destruct (m !! k) as [v|] eqn:Hk; simpl.
  - rewrite (map_sum_change (fun _ _ => 0) _ m k v Hk).
    + rewrite map_sum_zero, at_key_eq. lia.
    + intros k' v' Hne _. by apply at_key_ne.
  - apply map_sum_all_zero. intros k' v' Hv. apply at_key_ne. congruence.
Qed.

(** What a batch has added to a lease. *)
Definition w_delta (w : open_lease) : Z := w_used w - le_used (w_row w).
Definition w_charge (w : open_lease) : Z := ceil_charge (w_used w) (w_mult w) - charge_of (w_row w).

Record open_ok (ls : gmap string lease_row) (rs : gmap string reservation_row) (k : string) (w : open_lease) : Prop := {
  ok_row : ls !! k = Some (w_row w);
  ok_mult : SetString (le_mult (w_row w)) = Some (w_mult w);
  ok_used : 0 <= le_used (w_row w) /\ le_used (w_row w) <= w_used w <= le_bytes (w_row w);
  ok_open : w_used w <> le_used (w_row w) -> forall r, rs !! k = Some r -> rs_closed r = 0
}.

Record batch_ok (ls : gmap string lease_row) (rs : gmap string reservation_row)
    (open : gmap string open_lease) (charges : gmap string Z) (rows : list (string * usage_row)) : Prop := {
  bo_open k w : open !! k = Some w -> open_ok ls rs k w;
  bo_closed k w r : open !! k = Some w -> rs !! k = Some r -> w_closed w = rs_closed r;
  bo_charges eid : default 0 (charges !! eid) = map_sum (fun _ w => at_key (le_ent (w_row w)) eid (w_charge w)) open;
  bo_nonneg eid c : charges !! eid = Some c -> 0 <= c;
  bo_raw k w : open !! k = Some w ->
    w_delta w = sum_over (fun r => at_key (us_lease r.2) k (raw_bytes (us_payload r.2))) rows;
  bo_recorded k w : open !! k = Some w ->
    w_charge w = sum_over (fun r => at_key (us_lease r.2) k (us_charged r.2)) rows;
  bo_lease r : r ∈ rows -> is_Some (open !! us_lease r.2)
}.

Lemma w_charge_same ls rs k w : open_ok ls rs k w -> w_used w = le_used (w_row w) -> w_charge w = 0.
Proof. intros [] He. unfold w_charge, charge_of, mult_of. rewrite ok_mult0, He. simpl. lia. Qed.

(** The leases as they are locked. *)
Lemma lock_leases_ok ls rs fresh open :
  (forall k l, ls !! k = Some l -> 0 <= le_used l <= le_bytes l) ->
  lock_leases ls rs fresh = Ok open ->
  batch_ok ls rs open ∅ [] /\ (forall k w, open !! k = Some w -> w_used w = le_used (w_row w)).
Proof.
  intros Hused. revert open. induction fresh as [|u fresh IH]; intros open; simpl.
  { intros [= <-]. split; [|intros k w; by rewrite lookup_empty].
    split; intros *; rewrite ?lookup_empty, ?map_sum_empty; try done. set_solver. }
  unfold lock_lease. fold (lock_lease ls rs). fold (lock_leases ls rs fresh).
  destruct (lock_leases ls rs fresh) as [o|]; [|done]. destruct (IH o eq_refl) as [Hb Hsame].
  destruct (ls !! U_LeaseID u) as [l|] eqn:Hl; [|by intros [= <-]].
  destruct (SetString (le_mult l)) as [m|] eqn:Hm; [|done]. destruct (m.1 <=? 0); [done|]. intros [= <-].
  set (w := {| w_row := l; w_mult := m; w_closed := _; w_used := le_used l |}).
  assert (Hw : open_ok ls rs (U_LeaseID u) w) by (split; simpl; auto; specialize (Hused _ _ Hl); lia).
  assert (Hz : w_charge w = 0) by (by eapply w_charge_same).
  assert (Hsame' : forall k w', <[U_LeaseID u:=w]> o !! k = Some w' -> w_used w' = le_used (w_row w')).
  { intros k w' [[<- <-]|[_ H]]%lookup_insert_Some; [done|eauto]. }
  split; [|done]. destruct Hb. split.
  - intros k w' [[<- <-]|[_ H]]%lookup_insert_Some; [done|eauto].
  - intros k w' r [[<- <-]|[_ H]]%lookup_insert_Some Hr; [|eauto]. simpl. by rewrite Hr.
  - intros eid. rewrite bo_charges0, map_sum_insert, Hz.
    assert (He : from_option (fun w0 => at_key (le_ent (w_row w0)) eid (w_charge w0)) 0 (o !! U_LeaseID u) = 0).
    { destruct (o !! U_LeaseID u) as [w0|] eqn:Ho; [|done]. simpl.
      rewrite (w_charge_same _ _ _ _ (bo_open0 _ _ Ho) (Hsame _ _ Ho)). unfold at_key. by destruct (String.eqb _ _). }
    rewrite He. unfold at_key. destruct (String.eqb _ _); lia.
  - intros eid c H. by rewrite lookup_empty in H.
  - intros k w' H. unfold w_delta. rewrite (Hsame' _ _ H). simpl. lia.
  - intros k w' [[<- <-]|[_ H]]%lookup_insert_Some; [done|eauto].
  - set_solver.
Qed.

(** Charging one record moves one lease, its entitlement's total and adds
    one row. *)
Lemma charge_record_ok ls rs u open charges rows open' charges' rows' :
  (forall k l, ls !! k = Some l -> exists n d, SetString (le_mult l) = Some (n, d) /\ 0 < n /\ 0 < d) ->
  0 <= raw_bytes u <= MaxInt64 ->
  batch_ok ls rs open charges rows ->
  charge_record u (open, charges, rows) = Ok (open', charges', rows') ->
  batch_ok ls rs open' charges' rows' /\
  exists c, rows' = (rows ++ [(U_ID u, {| us_lease := U_LeaseID u; us_payload := u; us_charged := c |})])%list.
Proof.
  intros Hmult Hraw Hb. unfold charge_record.
  destruct (open !! U_LeaseID u) as [w|] eqn:Hw; [|done].
  rewrite (wrap64_id (raw_bytes u)) by (unfold in_int64, MinInt64 in *; lia).
  cbv zeta. do 2 (if_case; [done|]). set (delta := ceil_charge _ _ - ceil_charge _ _).
  if_case; [done|]. intros [= <- <- <-]. bool_to_prop.
  pose proof (bo_open _ _ _ _ _ Hb _ _ Hw) as Hok. split; [|by eexists].
  set (raw := raw_bytes u) in *. set (w' := w_add raw w).
  assert (Hd : w_charge w' = w_charge w + delta) by (unfold w_charge, w', delta; simpl; lia).
  assert (Hdd : w_delta w' = w_delta w + raw) by (unfold w_delta, w'; simpl; lia).
  set (row := (U_ID u, {| us_lease := U_LeaseID u; us_payload := u; us_charged := delta |})).
  assert (Hat : forall k, k <> U_LeaseID u -> forall x, at_key (us_lease row.2) k x = 0)
    by (intros k Hne x; apply at_key_ne; simpl; congruence).
  destruct Hb. split.
  - intros k w0 [[<- <-]|[Hne Hx]]%lookup_insert_Some; [|eauto]. destruct Hok. split; simpl; try done; [lia|].
    intros _ r Hr. rewrite <- (bo_closed0 _ _ _ Hw Hr). done.
  - intros k w0 r [[<- <-]|[Hne Hx]]%lookup_insert_Some Hr; [|eauto]. simpl. eauto.
  - intros eid. rewrite map_sum_insert, Hw. simpl. rewrite <- bo_charges0, Hd.
    destruct (decide (le_ent (w_row w) = eid)) as [<-|Hne].
    + rewrite lookup_insert_eq, !at_key_eq. simpl. lia.
    + rewrite lookup_insert_ne, !at_key_ne by done. lia.
  - intros eid c [[<- <-]|[Hne Hx]]%lookup_insert_Some; [|eauto].
    destruct (charges !! le_ent (w_row w)) eqn:Hc; simpl; [|lia]. specialize (bo_nonneg0 _ _ Hc). lia.
  - intros k w0 [[<- <-]|[Hne Hx]]%lookup_insert_Some; rewrite sum_over_app; simpl.
    + rewrite at_key_eq, <- (bo_raw0 _ _ Hw). lia.
    + rewrite (Hat k) by congruence. rewrite <- (bo_raw0 _ _ Hx). lia.
  - intros k w0 [[<- <-]|[Hne Hx]]%lookup_insert_Some; rewrite sum_over_app; simpl.
    + rewrite at_key_eq, <- (bo_recorded0 _ _ Hw). lia.
    + rewrite (Hat k) by congruence. rewrite <- (bo_recorded0 _ _ Hx). lia.
  - intros r [Hr|Hr]%elem_of_app; apply lookup_insert_is_Some'; [eauto|].
    apply list_elem_of_singleton in Hr as ->. by left.
Qed.

Lemma charge_all_ok ls rs fresh :
  (forall k l, ls !! k = Some l -> exists n d, SetString (le_mult l) = Some (n, d) /\ 0 < n /\ 0 < d) ->
  Forall (fun u => 0 <= raw_bytes u <= MaxInt64) fresh ->
  forall open charges rows open' charges' rows',
  batch_ok ls rs open charges rows ->
  charge_all fresh (open, charges, rows) = Ok (open', charges', rows') ->
  batch_ok ls rs open' charges' rows' /\
  ((fun r => (r.1, us_payload r.2)) <$> rows' =
    ((fun r => (r.1, us_payload r.2)) <$> rows) ++ ((fun u => (U_ID u, u)) <$> fresh))%list.
Proof.
  intros Hmult. induction 1 as [|u fresh Hu Hf IH]; intros open charges rows open' charges' rows' Hb; cbn [charge_all].
  { intros [= <- <- <-]. split; [done|]. by rewrite app_nil_r. }
  destruct (charge_record u (open, charges, rows)) as [[[o c] r]|] eqn:E; [|done]. intros Hrun.
  destruct (charge_record_ok _ _ _ _ _ _ _ _ _ Hmult Hu Hb E) as [Hb' [x ->]].
  destruct (IH _ _ _ _ _ _ Hb' Hrun) as [Hb'' ->]. split; [done|].
  rewrite fmap_app, <- app_assoc. done.
Qed.

(** The bulk updates, one change at a time. *)
Definition quota_db (fe fr fc : string -> Z) (d : DB) : Prop :=
  quota_on fe fr fc (entitlements d) (leases d) (reservations d) (usage d).

Lemma bump_leases_spec l : forall fe fr fc env d t d' t' u,
  NoDup l.*1 -> Forall (fun kw => open_ok (leases d) (reservations d) kw.1 kw.2) l ->
  quota_db fe fr fc d -> for_each l bump_lease env d t = (Ok (u, d'), t') ->
  quota_db (fun x => fe x + sum_over (fun kw => at_key (le_ent (w_row kw.2)) x (w_charge kw.2)) l)
           (fun x => fr x + sum_over (fun kw => at_key kw.1 x (w_delta kw.2)) l)
           (fun x => fc x + sum_over (fun kw => at_key kw.1 x (w_charge kw.2)) l) d' /\
  usage d' = usage d /\ (forall k, is_Some (leases d' !! k) <-> is_Some (leases d !! k)).
Proof.
  induction l as [|[k w] l IH]; intros fe fr fc env d t d' t' u Hnd Hok Hq Hrun; cbn [for_each] in Hrun.
  { sql_inv Hrun. split; [|done]. eapply quota_ext; [exact Hq|..]; intros; simpl; lia. }
  apply tx_bind_Ok in Hrun as ([] & d1 & t1 & Hb & Hrun).
  apply NoDup_cons in Hnd as [Hni Hnd]. apply Forall_cons in Hok as [Hw Hok]. simpl in Hw, Hni.
  assert (Hstep : quota_db (fun x => fe x + at_key (le_ent (w_row w)) x (w_charge w))
    (fun x => fr x + at_key k x (w_delta w)) (fun x => fc x + at_key k x (w_charge w)) d1 /\
    usage d1 = usage d /\ reservations d1 = reservations d /\
    (forall k', k' <> k -> leases d1 !! k' = leases d !! k') /\ is_Some (leases d1 !! k)).
  { unfold bump_lease in Hb. simpl in Hb. destruct (w_used w =? le_used (w_row w)) eqn:E; bool_to_prop.
    - sql_inv Hb. rewrite (w_charge_same _ _ _ _ Hw E). split; [|destruct Hw; eauto].
      eapply quota_ext; [exact Hq|..]; intros x _; unfold w_delta, at_key; destruct (String.eqb _ _); lia.
    - sql_run Hb; [|done]. simpl in *. destruct Hw. rewrite Hrow in ok_row0. injection ok_row0 as ->.
      replace (le_used (w_row w) + (w_used w - le_used (w_row w))) with (w_used w) by lia.
      split; [|split; [done|split; [done|split; [intros; by apply lookup_insert_ne|rewrite lookup_insert_eq; eauto]]]].
      pose proof (quota_bump_lease _ _ _ _ _ _ _ k (w_row w) (w_used w) Hq Hrow (ok_open0 E) ltac:(lia)) as Hn.
      unfold quota_db. simpl.
      eapply quota_ext; [exact Hn|..]; intros x _; unfold w_delta, w_charge, charge_of, mult_of; simpl;
        by rewrite ?ok_mult0. }
  destruct Hstep as (Hq1 & Hu1 & Hr1 & Hl1 & Hk1).
  assert (Hok1 : Forall (fun kw => open_ok (leases d1) (reservations d1) kw.1 kw.2) l).
  { rewrite Forall_forall in Hok |- *. intros [k' w'] Hin. specialize (Hok _ Hin). simpl in *.
    assert (k' <> k). { intros ->. apply Hni. apply list_elem_of_fmap. by exists (k, w'). }
    destruct Hok. split; try done; [by rewrite Hl1|by rewrite Hr1]. }
  destruct (IH _ _ _ _ _ _ _ _ _ Hnd Hok1 Hq1 Hrun) as (Hq2 & Hu2 & Hl2).
  split; [|split; [congruence|]].
  - eapply quota_ext; [exact Hq2|..]; intros x _; simpl; lia.
  - intros k'. rewrite Hl2. destruct (decide (k' = k)) as [->|Hne]; [|by rewrite Hl1].
    destruct Hw. split; eauto.
Qed.

Lemma bump_ents_spec l : forall fe fr fc env d t d' t' u,
  Forall (fun kd => 0 <= kd.2) l ->
  quota_db fe fr fc d -> for_each l bump_ent env d t = (Ok (u, d'), t') ->
  quota_db (fun x => fe x - sum_over (fun kd => at_key kd.1 x kd.2) l) fr fc d' /\
  usage d' = usage d /\ leases d' = leases d.
Proof.
  induction l as [|[k c] l IH]; intros fe fr fc env d t d' t' u Hnn Hq Hrun; cbn [for_each] in Hrun.
  { sql_inv Hrun. split; [|done]. eapply quota_ext; [exact Hq|..]; intros; simpl; lia. }
  apply tx_bind_Ok in Hrun as ([] & d1 & t1 & Hb & Hrun). apply Forall_cons in Hnn as [Hc Hnn]. simpl in Hc.
  assert (Hstep : quota_db (fun x => fe x - at_key k x c) fr fc d1 /\ usage d1 = usage d /\ leases d1 = leases d).
  { unfold bump_ent in Hb. simpl in Hb. destruct (c <=? 0) eqn:E; bool_to_prop.
    - sql_inv Hb. split; [|done]. eapply quota_ext; [exact Hq|..]; intros x _; [|done|done].
      unfold at_key. destruct (String.eqb _ _); lia.
    - sql_run Hb; [|done]. simpl in *. split; [|done].
      destruct (q_quota _ _ _ _ _ _ _ Hq _ _ Hrow) as [H1 H2].
      eapply (quota_set_ent fe _ fr fc); [exact Hq|exact Hrow|done| | |done|done].
      + rewrite at_key_eq. simpl. lia.
      + intros x Hne. rewrite at_key_ne by done. lia. }
  destruct Hstep as (Hq1 & Hu1 & Hl1).
  destruct (IH _ _ _ _ _ _ _ _ _ Hnn Hq1 Hrun) as (Hq2 & Hu2 & Hl2).
  split; [|split; congruence]. eapply quota_ext; [exact Hq2|..]; intros x _; simpl; lia.
Qed.

Lemma add_rows_spec l : forall fe fr fc env d t d' t' u,
  Forall (fun r => is_Some (leases d !! us_lease r.2)) l ->
  quota_db fe fr fc d -> for_each l (fun row => INSERT Usage row.1 row.2) env d t = (Ok (u, d'), t') ->
  quota_db fe (fun x => fr x - sum_over (fun r => at_key (us_lease r.2) x (raw_bytes (us_payload r.2))) l)
    (fun x => fc x - sum_over (fun r => at_key (us_lease r.2) x (us_charged r.2)) l) d' /\
  leases d' = leases d /\ usage d ⊆ usage d' /\ (forall kr, kr ∈ l -> usage d' !! kr.1 = Some kr.2).
Proof.
  induction l as [|[k r] l IH]; intros fe fr fc env d t d' t' u Hl Hq Hrun; cbn [for_each] in Hrun.
  { sql_inv Hrun. split; [|split; [done|split; [done|set_solver]]].
    eapply quota_ext; [exact Hq|..]; intros; simpl; lia. }
  apply tx_bind_Ok in Hrun as ([] & d1 & t1 & Hb & Hrun). apply Forall_cons in Hl as [Hk Hl]. simpl in Hk, Hb.
  sql_inv Hb. simpl in Hnew.
  pose proof (quota_add_usage _ _ _ _ _ _ _ k r Hq Hnew Hk) as Hq1.
  destruct (IH _ _ _ _ (t_set Usage (<[k:=r]>) d) _ _ _ _ Hl Hq1 Hrun) as (Hq2 & Hl2 & Hu2 & Hr2).
  split; [|split; [done|split]].
  - eapply quota_ext; [exact Hq2|..]; intros x _; simpl; lia.
  - etransitivity; [|exact Hu2]. by apply insert_subseteq.
  - intros kr [->|Hin]%elem_of_cons; [|eauto]. simpl. eapply lookup_weaken; [|exact Hu2]. apply lookup_insert_eq.
Qed.

(** Every record that passes the checks moves a non-negative int64 of bytes. *)
Lemma distinct_ok records : forall seen l,
  distinct records seen = Ok l ->
  Forall (fun u => 0 <= raw_bytes u <= MaxInt64) l /\
  (forall u, u ∈ records -> u ∈ l \/ seen !! U_ID u = Some u) /\ (forall u, u ∈ l -> u ∈ records).
Proof.
  induction records as [|u records IH]; intros seen l; simpl; [intros [= <-]; split; [done|set_solver]|].
  destruct (negb (ValidWindowMetadata u)); [done|]. destruct (negb (valid_usage u)) eqn:Ev; [done|].
  destruct (seen !! U_ID u) as [old|] eqn:Hs.
  - destruct (negb (bool_decide (old = u))) eqn:Eo; [done|]. bool_to_prop. subst old.
    intros Hl. destruct (IH _ _ Hl) as (H1 & H2 & H3). split; [done|]. split; [|set_solver].
    intros u' [->|Hin]%elem_of_cons; auto.
  - destruct (distinct records (<[U_ID u:=u]> seen)) as [l'|] eqn:E; [|done]. intros [= <-].
    destruct (IH _ _ E) as (H1 & H2 & H3). split; [|split].
    + constructor; [|done]. unfold valid_usage, raw_bytes in *. bool_to_prop. lia.
    + intros u' [->|Hin]%elem_of_cons; [set_solver|]. destruct (H2 _ Hin) as [?|[[<- <-]|[_ ?]]%lookup_insert_Some]; set_solver.
    + set_solver.
Qed.

Lemma Settle_Ok records env d t d' t' u :
  quota_inv d -> SettleUsageBatch records env d t = (Ok (u, d'), t') ->
  quota_inv d' /\ usage d ⊆ usage d' /\
  (forall r, r ∈ records -> exists row, usage d' !! U_ID r = Some row /\ us_payload row = r).
Proof.
  intros Hq Hrun. unfold SettleUsageBatch in Hrun.
  destruct (500 <? _); [done|]. apply tx_bind_Ok in Hrun as (unique & d0 & t0 & Hu & Hrun). sql_inv Hu.
  destruct (distinct_ok _ _ _ Hr) as (Hraw & Hall & _).
  apply tx_bind_Ok in Hrun as (known & d0 & t1 & Hk & Hrun). sql_inv Hk.
  apply tx_bind_Ok in Hrun as ([] & d0 & t2 & Hgd & Hrun). sql_inv Hgd. rewrite forallb_forall in Hg.
  assert (Hold : forall r row, r ∈ unique -> usage d !! U_ID r = Some row -> us_payload row = r).
  { intros r row Hin Hrow. apply list_elem_of_In in Hin. specialize (Hg _ Hin). rewrite Hrow in Hg.
    by apply bool_decide_eq_true in Hg. }
  set (fresh := filter _ unique) in Hrun.
  assert (Hin : forall r, r ∈ records -> r ∈ fresh \/ exists row, usage d !! U_ID r = Some row /\ us_payload row = r).
  { intros r Hin. destruct (Hall _ Hin) as [Hin'|Hs]; [|by rewrite lookup_empty in Hs].
    destruct (usage d !! U_ID r) as [row|] eqn:Hrow; [right; eauto|]. left. by apply list_elem_of_filter. }
  destruct (bool_decide (fresh = [])) eqn:Ef.
  { sql_inv Hrun. apply bool_decide_eq_true in Ef. split; [done|]. split; [done|].
    intros r Hr'. destruct (Hin _ Hr') as [Hf|?]; [rewrite Ef in Hf; set_solver|done]. }
  apply tx_bind_Ok in Hrun as (ls & d0 & t3 & Hls & Hrun). sql_inv Hls.
  apply tx_bind_Ok in Hrun as (rs & d0 & t4 & Hrs & Hrun). sql_inv Hrs.
  apply tx_bind_Ok in Hrun as (open0 & d0 & t5 & Ho & Hrun). sql_inv Ho.
  apply tx_bind_Ok in Hrun as ([[open charges] rows] & d0 & t6 & Hc & Hrun). sql_inv Hc. cbn beta in Hrun.
  apply tx_bind_Ok in Hrun as ([] & d1 & t7 & Hbl & Hrun).
  apply tx_bind_Ok in Hrun as ([] & d2 & t8 & Hbe & Hbr).
  destruct (lock_leases_ok _ _ _ _ ltac:(intros k l Hl; apply (lk_used _ _ _ _ (q_lease _ _ _ _ _ _ _ Hq _ _ Hl))) Hr0) as [Hb0 _].
  destruct (charge_all_ok (leases d) (reservations d) fresh
    ltac:(intros k l Hl; apply (lk_mult _ _ _ _ (q_lease _ _ _ _ _ _ _ Hq _ _ Hl)))
    ltac:(apply Forall_forall; intros r Hf; apply list_elem_of_filter in Hf as [_ Hf];
          by rewrite Forall_forall in Hraw; apply Hraw) _ _ _ _ _ _ Hb0 Hr1) as [Hb Hrows].
  assert (Hopen : Forall (fun kw => open_ok (leases d) (reservations d) kw.1 kw.2) (map_to_list open)).
  { apply Forall_forall. intros [k w] Hkw. apply elem_of_map_to_list in Hkw. by apply (bo_open _ _ _ _ _ Hb). }
  assert (Hnn : Forall (fun kd : string * Z => 0 <= kd.2) (map_to_list charges)).
  { apply Forall_forall. intros [k c] Hkc. apply elem_of_map_to_list in Hkc. by apply (bo_nonneg _ _ _ _ _ Hb _ _ Hkc). }
  destruct (bump_leases_spec _ _ _ _ _ _ _ _ _ _ (NoDup_fst_map_to_list open) Hopen Hq Hbl) as (Hq1 & Hu1 & Hl1).
  destruct (bump_ents_spec _ _ _ _ _ _ _ _ _ _ Hnn Hq1 Hbe) as (Hq2 & Hu2 & Hl2).
  assert (Hlease : Forall (fun r => is_Some (leases d2 !! us_lease r.2)) rows).
  { apply Forall_forall. intros r Hr'. rewrite Hl2, Hl1. destruct (bo_lease _ _ _ _ _ Hb _ Hr') as [w Hw].
    destruct (bo_open _ _ _ _ _ Hb _ _ Hw). eauto. }
  destruct (add_rows_spec _ _ _ _ _ _ _ _ _ _ Hlease Hq2 Hbr) as (Hq3 & Hl3 & Hu3 & Hr3).
  split; [|split].
  - eapply quota_ext; [exact Hq3|..]; unfold zero.
    + intros eid _.
      rewrite <- (map_sum_to_list (fun _ w => at_key (le_ent (w_row w)) eid (w_charge w)) open), <- (bo_charges _ _ _ _ _ Hb).
      rewrite <- (map_sum_to_list (fun k c => at_key k eid c) charges), (map_sum_at_key (fun _ c => c)).
      destruct (charges !! eid); simpl; lia.
    + intros k _. rewrite <- (map_sum_to_list (fun k' w => at_key k' k (w_delta w)) open), (map_sum_at_key (fun _ w => w_delta w)).
      destruct (open !! k) as [w|] eqn:Hw; simpl; [rewrite <- (bo_raw _ _ _ _ _ Hb _ _ Hw); lia|].
      erewrite sum_over_ext, sum_over_zero; [lia|]. intros r Hr'. apply at_key_ne.
      destruct (bo_lease _ _ _ _ _ Hb _ Hr'). congruence.
    + intros k _. rewrite <- (map_sum_to_list (fun k' w => at_key k' k (w_charge w)) open), (map_sum_at_key (fun _ w => w_charge w)).
      destruct (open !! k) as [w|] eqn:Hw; simpl; [rewrite <- (bo_recorded _ _ _ _ _ Hb _ _ Hw); lia|].
      erewrite sum_over_ext, sum_over_zero; [lia|]. intros r Hr'. apply at_key_ne.
      destruct (bo_lease _ _ _ _ _ Hb _ Hr'). congruence.
  - by rewrite <- Hu1, <- Hu2.
  - intros r Hr'. destruct (Hin _ Hr') as [Hf|(row & Hrow & Hp)].
    + assert (Hx : (U_ID r, r) ∈ (fun x : string * usage_row => (x.1, us_payload x.2)) <$> rows).
      { rewrite Hrows. simpl. apply list_elem_of_fmap. eauto. }
      apply list_elem_of_fmap in Hx as ([k row] & [= Hk Hp] & Hx). exists row. rewrite Hk. split; [by apply (Hr3 _ Hx)|done].
    + exists row. split; [|done]. eapply lookup_weaken; [|exact Hu3]. congruence.
Qed.

(** Settlement is idempotent: a batch that was accepted is accepted
    again, at any later time of the same database, and changes nothing. *)
Lemma Settle_replay records env d t d' t' u env2 t2 :
  quota_inv d -> SettleUsageBatch records env d t = (Ok (u, d'), t') ->
  SettleUsageBatch records env2 d' t2 = (Ok (tt, d'), t2).
Proof.
  intros Hq Hrun. destruct (Settle_Ok _ _ _ _ _ _ _ Hq Hrun) as (_ & _ & Hrows).
  unfold SettleUsageBatch in Hrun |- *. destruct (500 <? _); [done|].
  apply tx_bind_Ok in Hrun as (unique & d0 & t0 & Hu & _). sql_inv Hu.
  destruct (distinct_ok _ _ _ Hr) as (_ & _ & Hin).
  unfold of_res, gets, mbind, tx_bind. rewrite Hr. unfold mret, tx_ret.
  rewrite (proj2 (forallb_forall _ _)).
  - simpl. rewrite (proj2 (bool_decide_eq_true _)); [done|].
    apply elem_of_nil_inv. intros r Hr'. apply list_elem_of_filter in Hr' as [Hn Hr'].
    destruct (Hrows r (Hin _ Hr')) as (row & Hrow & _). congruence.
  - intros r Hr'. apply list_elem_of_In in Hr'. destruct (Hrows r (Hin _ Hr')) as (row & -> & ?).
    by apply bool_decide_eq_true.
Qed.

Lemma Settle_keeps records : keeps quota_inv (SettleUsageBatch records).
Proof. intros env d t u d' t' Hrun Hq. by apply (Settle_Ok _ _ _ _ _ _ _ Hq Hrun). Qed.
End Settlement.
