(* ===== verification/Purchases.v ===== *)
(** * Purchases, add-ons, redemption and renewal
    (internal/commerce/service.go [PurchaseQuote], [purchaseTx]; plans.go
    [PurchaseAddon]; lifecycle.go [RedeemCode], [SetAutoRenew],
    [RunAutoRenew], [recordCommission], [SetCommissionRate]; accounts.go
    [AdjustUserBalance])

    Everything here that costs or credits money goes through [post]. *)

From S2P Require Import Prelude Tx GoStrings Calendar Digest Rational PlanRules Schema Wallet Plans Quota.
From stdpp Require Import base gmap strings list sorting.
From Stdlib Require Import Ascii String.
Local Open Scope string_scope.
Local Open Scope Z_scope.

Definition in_length (s : string) (lo hi : Z) : bool :=
  (lo <=? Z.of_nat (String.length s)) && (Z.of_nat (String.length s) <=? hi).

(** ** Commissions *)

(** [price/10000*rate + price%10000*rate/10000] *)
Definition commission_of (price rate : Z) : Z :=
  wrap64 (wrap64 (Z.quot price 10000 * rate) + Z.quot (wrap64 (Z.rem price 10000 * rate)) 10000).

Definition recordCommission (invitee source : string) (price : Z) : Tx DB unit :=
  if price <=? 0 then mret tt else
  rate ← SELECT ReferralPolicy 1;
  match rate with
  | None => mret tt
  | Some rate =>
      if rate =? 0 then mret tt else
      binding ← SELECT ReferralBindings invitee;
      match binding with
      | None => mret tt
      | Some b =>
          let amount := commission_of price rate in
          if amount =? 0 then mret tt else
          cid ← id;
          now ← Now;
          INSERT Commissions cid
            {| c_inviter := b_inviter b; c_invitee := invitee; c_source := source; c_amount := amount;
               c_status := "pending"; c_created := now |}
      end
  end.

(** ** Buying a period plan *)

Definition ent_columns (e : Entitlement) : ent_row :=
  {| e_user := E_UserID e; e_plan := E_PlanID e; e_version := E_Version e; e_starts := E_StartsAt e;
     e_expires := E_ExpiresAt e; e_quota := E_Quota e; e_used := 0; e_allocated := 0 |}.

(** A key seen before: the earlier result, when the request is the same. *)
Definition replayPurchase (prior : purchase_row) (plan : string) (expected planVersion : Z) : Tx DB Entitlement :=
  (if negb (planVersion =? 0) then
     snap ← SELECT Snapshots (pu_ent prior);
     s ← or_fail snap ErrNoRows;
     guard_err (ps_plan_version s =? planVersion) ErrConflict
   else mret tt) ;;
  guard_err (String.eqb (pu_plan prior) plan && (pu_expected prior =? expected)) ErrConflict ;;
  row ← SELECT Entitlements (pu_ent prior);
  e ← or_fail row ErrNoRows;
  limits ← entitlementLimits (pu_ent prior);
  mret (with_limits (scanEnt (pu_ent prior, e)) limits).

Definition purchaseTx (user plan key : string) (expected planVersion : Z) : Tx DB Entitlement :=
  CheckAccount user ;;
  walletTx user ;;
  prior ← SELECT Purchases (user, key);
  match prior with
  | Some prior => replayPurchase prior plan expected planVersion
  | None =>
      ent ← latest user;
      let current := match ent with Some kr => e_version kr.2 | None => 0 end in
      if negb (current =? expected) then fail ErrConflict else
      p ← planTx plan;
      if negb (P_Active p) || negb (String.eqb (P_Kind p) "period")
      then fail (ErrMsg "plan unavailable") else
      if negb (planVersion =? 0) && negb (P_Version p =? planVersion) then fail ErrConflict else
      eid ← id;
      start ← Now;
      expires ← of_res (planExpiry start p);
      let result := {| E_Limits := P_Limits p; E_ID := eid; E_UserID := user; E_PlanID := plan;
                       E_Version := wrap64 (current + 1); E_StartsAt := start; E_ExpiresAt := expires;
                       E_Quota := P_Quota p; E_Used := 0 |} in
      post user (- P_Price p) "purchase" eid ;;
      INSERT Entitlements eid (ent_columns result) ;;
      snapshotLimits eid (P_Limits p) ;;
      now ← Now;
      INSERT Snapshots eid {| ps_user := user; ps_plan_version := P_Version p; ps_payload := p; ps_created := now |} ;;
      recordCommission user eid (P_Price p) ;;
      emitEventTx user "entitlement.purchased"
        [("entitlement_id", eid); ("plan_id", plan); ("amount_cents", FormatInt (P_Price p))] ;;
      INSERT Purchases (user, key) {| pu_plan := plan; pu_expected := expected; pu_ent := eid |} ;;
      mret result
  end.

Definition PurchaseQuote (user plan key : string) (expected planVersion : Z) : Tx DB Entitlement :=
  if negb (in_length key 1 128) then fail (ErrMsg "invalid idempotency key") else
  purchaseTx user plan key expected planVersion.

(** ** Buying an add-on *)

Definition set_quota (q : Z) (e : ent_row) : ent_row :=
  {| e_user := e_user e; e_plan := e_plan e; e_version := e_version e; e_starts := e_starts e;
     e_expires := e_expires e; e_quota := q; e_used := e_used e; e_allocated := e_allocated e |}.

(** Unlimited stays unlimited, and an unlimited add-on makes it so. *)
Definition addon_quota (quota added : Z) : Z :=
  if added =? 0 then 0 else if negb (quota =? 0) then wrap64 (quota + added) else quota.

Definition PurchaseAddon (user plan key : string) (expected planVersion : Z) : Tx DB Entitlement :=
  if negb (in_length key 1 128) then fail (ErrMsg "invalid idempotency key") else
  CheckAccount user ;;
  walletTx user ;;
  prior ← SELECT_one Addons (fun _ a => String.eqb (ap_user a) user && String.eqb (ap_key a) key);
  match prior with
  | Some (_, a) =>
      if negb (String.eqb (ap_plan a) plan) || negb (expected =? ap_expected a)
         || (negb (planVersion =? 0) && negb (ap_plan_version a =? planVersion))
      then fail ErrConflict else mret (ap_result a)
  | None =>
      p ← planTx plan;
      if negb (String.eqb (P_Kind p) "addon") || negb (P_Active p)
      then fail (ErrMsg "add-on unavailable") else
      if negb (planVersion =? 0) && negb (planVersion =? P_Version p) then fail ErrConflict else
      ent ← latest user;
      kr ← or_fail ent ErrNoRows;
      limits ← entitlementLimits kr.1;
      let result := with_limits (scanEnt kr) limits in
      if negb (E_Version result =? expected) then fail ErrConflict else
      now ← Now;
      if negb (now <? E_ExpiresAt result) then fail (ErrMsg "active entitlement required") else
      if negb (E_Quota result =? 0) && negb (P_Quota p =? 0) && (MaxInt64 - P_Quota p <? E_Quota result)
      then fail (ErrMsg "quota overflow") else
      purchaseID ← id;
      post user (- P_Price p) "addon" purchaseID ;;
      let quota := addon_quota (E_Quota result) (P_Quota p) in
      let result := with_ent_quota result quota in
      UPDATE Entitlements (E_ID result) (fun _ => true) (set_quota quota) ;;
      created ← Now;
      INSERT Addons purchaseID
        {| ap_user := user; ap_key := key; ap_plan := plan; ap_expected := expected;
           ap_plan_version := P_Version p; ap_ent := E_ID result; ap_payload := p; ap_result := result;
           ap_created := created |} ;;
      emitEventTx user "entitlement.addon"
        [("purchase_id", purchaseID); ("entitlement_id", E_ID result); ("plan_id", plan)] ;;
      mret result
  end.

(** ** Redeem codes *)

(** An available period plan. *)
Definition period_available (plan : string) : Tx DB unit :=
  st ← SELECT PlanStates plan;
  match st with
  | Some s => if String.eqb (st_kind s) "period"
              then guard_err (st_active s) (ErrMsg "plan unavailable") else fail ErrNoRows
  | None => fail ErrNoRows
  end.

Definition CreateRedeemCode (amount : Z) (plan : string) (maxUses : Z) (expiresAt : option Z) : Tx DB string :=
  if (amount <? 0) || (100000000 <? amount) || (String.eqb (TrimSpace plan) "" && (amount =? 0))
     || (maxUses <? 1) || (1000000 <? maxUses)
  then fail (ErrMsg "invalid redeem code") else
  rand ← id;
  let plain := "TFP-" ++ ToUpper rand in
  created ← Now;
  match expiresAt with
  | Some e => now ← Now; guard_err (now <? e) (ErrMsg "redeem expiry must be in the future")
  | None => mret tt
  end ;;
  (if negb (String.eqb plan "") then period_available plan else mret tt) ;;
  INSERT RedeemCodes (digestCode plain)
    {| rc_hint := String.substring 0 8 plain; rc_amount := amount; rc_plan := plan; rc_max := maxUses;
       rc_used := 0; rc_expires := expiresAt; rc_enabled := true; rc_created := created |} ;;
  mret plain.

(** The plan a code grants. *)
Definition grantPlan (user plan : string) : Tx DB string :=
  p ← planTx plan;
  if negb (P_Active p) || negb (String.eqb (P_Kind p) "period")
  then fail (ErrMsg "plan is not available") else
  ent ← latest user;
  let current := match ent with Some kr => e_version kr.2 | None => 0 end in
  start ← Now;
  expires ← of_res (planExpiry start p);
  eid ← id;
  INSERT Entitlements eid
    {| e_user := user; e_plan := plan; e_version := wrap64 (current + 1); e_starts := start;
       e_expires := expires; e_quota := P_Quota p; e_used := 0; e_allocated := 0 |} ;;
  snapshotLimits eid (P_Limits p) ;;
  now ← Now;
  INSERT Snapshots eid {| ps_user := user; ps_plan_version := P_Version p; ps_payload := p; ps_created := now |} ;;
  emitEventTx user "entitlement.redeemed" [("entitlement_id", eid); ("plan_id", plan)] ;;
  mret eid.

Definition redeem_used (r : redeem_row) : redeem_row :=
  {| rc_hint := rc_hint r; rc_amount := rc_amount r; rc_plan := rc_plan r; rc_max := rc_max r;
     rc_used := rc_used r + 1; rc_expires := rc_expires r; rc_enabled := rc_enabled r; rc_created := rc_created r |}.

Definition redeem_revoked (r : redeem_row) : redeem_row :=
  {| rc_hint := rc_hint r; rc_amount := rc_amount r; rc_plan := rc_plan r; rc_max := rc_max r;
     rc_used := rc_used r; rc_expires := rc_expires r; rc_enabled := false; rc_created := rc_created r |}.

(** The result is the amount credited, the plan and the entitlement. *)
Definition RedeemCode (user plain : string) : Tx DB (Z * string * option string) :=
  let hash := digestCode plain in
  if String.eqb (TrimSpace plain) "" || (128 <? Z.of_nat (String.length plain))
  then fail (ErrMsg "redeem code required") else
  CheckAccount user ;;
  walletTx user ;;
  replay ← SELECT RedeemClaims (hash, user);
  match replay with
  | Some c => mret (rl_amount c, rl_plan c, rl_ent c)
  | None =>
      row ← SELECT RedeemCodes hash;
      r ← or_fail row ErrNoRows;
      expired ← match rc_expires r with
                | Some e => now ← Now; mret (negb (now <? e))
                | None => mret false
                end;
      if negb (rc_enabled r) || (rc_max r <=? rc_used r) || expired
      then fail (ErrMsg "redeem code unavailable") else
      n ← UPDATE RedeemCodes hash (fun x => (rc_used x =? rc_used r) && rc_enabled x) redeem_used;
      guard_err (n =? 1) ErrConflict ;;
      (if 0 <? rc_amount r
       then post user (rc_amount r) "redeem" ("redeem:" ++ digestCode (hash ++ ":" ++ user))
       else mret tt) ;;
      ent ← (if negb (String.eqb (rc_plan r) "")
             then eid ← grantPlan user (rc_plan r); mret (Some eid) else mret None);
      now ← Now;
      INSERT RedeemClaims (hash, user)
        {| rl_amount := rc_amount r; rl_plan := rc_plan r; rl_ent := ent; rl_created := now |} ;;
      mret (rc_amount r, rc_plan r, ent)
  end.

Definition RevokeRedeemCode (code : string) : Tx DB unit :=
  n ← UPDATE RedeemCodes code (fun _ => true) redeem_revoked;
  guard_err (n =? 1) ErrNoRows.

(** ** Referrals *)

Definition CreateReferralCode (user : string) : Tx DB string :=
  rand ← id;
  let plain := "INV-" ++ ToUpper rand in
  now ← Now;
  INSERT ReferralCodes (digestCode plain)
    {| rr_owner := user; rr_hint := String.substring 0 8 plain; rr_created := now |} ;;
  mret plain.

Definition SetCommissionRate (bps : Z) : Tx DB unit :=
  if (bps <? 0) || (10000 <? bps) then fail (ErrMsg "invalid commission rate") else
  UPSERT ReferralPolicy 1 bps.

(** The walk up the inviters; [fuel] is what is left of the depth limit. *)
Fixpoint climb (fuel : nat) (user current : string) : Tx DB unit :=
  if String.eqb current "" then mret tt else
  if String.eqb current user then fail (ErrMsg "referral cycle or depth limit") else
  match fuel with
  | O => fail (ErrMsg "referral cycle or depth limit")
  | S fuel =>
      parent ← SELECT ReferralBindings current;
      match parent with
      | None => mret tt
      | Some b => climb fuel user (b_inviter b)
      end
  end.

Definition BindReferral (user plain : string) : Tx DB unit :=
  INSERT_ignore ReferralPolicy 1 0 ;;
  rate ← SELECT ReferralPolicy 1;
  or_fail rate ErrNoRows ;;
  let hash := digestCode plain in
  code ← SELECT ReferralCodes hash;
  c ← or_fail code ErrNoRows;
  climb 1000 user (rr_owner c) ;;
  walletTx user ;;
  bought ← SELECT_where Purchases (fun k _ => String.eqb k.1 user);
  if negb (bool_decide (bought = [])) then fail (ErrMsg "referral must be bound before first purchase") else
  now ← Now;
  INSERT ReferralBindings user {| b_inviter := rr_owner c; b_code := hash; b_created := now |}.

(** ** Automatic renewal *)

Definition SetAutoRenew (user plan : string) (enabled : bool) : Tx DB unit :=
  CheckAccount user ;;
  walletTx user ;;
  plan ← (if enabled then period_available plan ;; mret plan else mret "");
  next ← Now;
  now ← Now;
  UPSERT AutoRenews user
    {| ar_enabled := enabled; ar_plan := plan; ar_next := UnixMilli next; ar_error := ""; ar_updated := now |}.

Definition renew_update (user : string) (now at_ : Z) (message : string) : Tx DB unit :=
  UPDATE AutoRenews user (fun _ => true)
    (fun r => {| ar_enabled := ar_enabled r; ar_plan := ar_plan r; ar_next := UnixMilli at_;
                 ar_error := message; ar_updated := now |}) ;;
  mret tt.

(** The transaction of one due user; the result says whether a purchase was
    attempted. *)
Definition renewUser (user : string) : Tx DB bool :=
  now ← Now;
  account ← savepoint (CheckAccount user);
  match account with
  | Err e => if bool_decide (e = ErrAccountDisabled) then mret tt else fail e
  | Ok _ => mret tt
  end ;;
  walletTx user ;;
  row ← SELECT AutoRenews user;
  r ← or_fail row ErrNoRows;
  if negb (ar_enabled r) || (UnixMilli now <? ar_next r) then mret false else
  match account with
  | Err _ => renew_update user now (now + hour) "account_disabled" ;; mret false
  | Ok _ =>
      ent ← latest user;
      match ent with
      | None => renew_update user now (now + hour) "" ;; mret false
      | Some kr =>
          if now <? e_expires kr.2
          then renew_update user now (e_expires kr.2) "" ;; mret false else
          renewed ← savepoint (purchaseTx user (ar_plan r) ("autorenew:" ++ kr.1) (e_version kr.2) 0);
          match renewed with
          | Err e => renew_update user now (now + hour)
                       (if bool_decide (e = ErrFunds) then "insufficient_funds" else "renewal_failed") ;;
                     mret true
          | Ok e => renew_update user now (E_ExpiresAt e) "" ;; mret true
          end
      end
  end.

(** ** Administrative adjustments *)

Definition AdjustUserBalance (actor user key reason : string) (delta : Z) : Tx DB unit :=
  let key := TrimSpace key in
  let reason := TrimSpace reason in
  if (delta =? 0) || (1000000000000 <? delta) || (delta <? -1000000000000)
     || negb (in_length key 1 128) || negb (in_length reason 1 500)
  then fail (ErrMsg "invalid balance adjustment") else
  lockAccount user ;;
  walletTx user ;;
  prior ← SELECT_one AdminAdjustments
    (fun _ a => String.eqb (ad_user a) user && String.eqb (ad_kind a) "balance" && String.eqb (ad_key a) key);
  match prior with
  | Some (_, a) =>
      if String.eqb (ad_actor a) actor && (ad_amount a =? delta) && String.eqb (ad_reason a) reason
      then mret tt else fail ErrConflict
  | None =>
      aid ← id;
      post user delta "adjustment" ("admin-adjustment:" ++ aid) ;;
      now ← Now;
      INSERT AdminAdjustments aid
        {| ad_user := user; ad_actor := actor; ad_kind := "balance"; ad_amount := delta; ad_rules := None;
           ad_key := key; ad_reason := reason; ad_created := now |}
  end.

(** The users due for renewal, oldest schedule first. *)
Definition due_leb (x y : string * renew_row) : bool :=
  if ar_next x.2 =? ar_next y.2 then String.leb x.1 y.1 else ar_next x.2 <? ar_next y.2.
Definition due_users (limit : Z) (now : Z) (d : DB) : list string :=
  let limit := if (limit <=? 0) || (100 <? limit) then 20 else limit in
  take (Z.to_nat limit)
    (merge_sort (fun x y => Is_true (due_leb x y))
       (rows_where AutoRenews (fun _ r => ar_enabled r && (ar_next r <=? UnixMilli now)) d)).*1.

(** [RunAutoRenew]: one [Write] per due user, each with its own clock and
    identifiers, stopping at the first error. *)
Fixpoint renew_each (users : list string) (envs : nat -> Env) (i : nat) (count : Z) (d : DB) : Z * option error * DB :=
  match users with
  | [] => (count, None, d)
  | user :: users =>
      match Write (renewUser user) (envs i) d with
      | (Ok attempted, d') => renew_each users envs (S i) (if attempted then count + 1 else count) d'
      | (Err e, d') => (count, Some e, d')
      end
  end.
Definition RunAutoRenew (limit now : Z) (envs : nat -> Env) (d : DB) : Z * option error * DB :=
  renew_each (due_users limit now d) envs 0 0 d.

(** ** The invariant of the shop

    Stored amounts are bounded, so that every balance movement stays within
    int64: plan snapshots and redeem codes cost at most a million yuan, a
    commission is at most the price and is never reversed beyond itself. *)

Definition plan_ok (p : Plan) : Prop := 0 < P_Price p <= 100000000 /\ 0 <= P_Quota p <= MaxInt64.

(** What was refunded of a purchase. *)
Definition refunded_of (purchase : string) (m : gmap string purchase_refund_row) : Z :=
  map_sum (fun _ r => at_key (pr_purchase r) purchase (pr_amount r)) m.

Record bought_on (snaps : gmap string snapshot_row) (adds : gmap string addon_row)
    (prs : gmap string purchase_refund_row) : Prop := {
  bt_snapshot k s : snaps !! k = Some s -> plan_ok (ps_payload s);
  bt_addon k a : adds !! k = Some a -> plan_ok (ap_payload a);
  bt_refund k r : prs !! k = Some r -> 0 < pr_amount r;
  bt_total purchase : refunded_of purchase prs <= 100000000
}.
Definition bought_inv (d : DB) : Prop := bought_on (snapshots d) (addons d) (purchase_refunds d).

Definition codes_on (codes : gmap string redeem_row) : Prop :=
  forall k r, codes !! k = Some r -> 0 <= rc_amount r <= 100000000 /\ 0 <= rc_used r <= rc_max r.
Definition codes_inv (d : DB) : Prop := codes_on (redeem_codes d).

Record commission_on (policy : gmap Z Z) (cs : gmap string commission_row) (rs : gmap string Z) : Prop := {
  cm_rate r : policy !! 1 = Some r -> 0 <= r <= 10000;
  cm_amount k c : cs !! k = Some c -> 0 < c_amount c <= 100000000;
  cm_reversed k r : rs !! k = Some r -> exists c, cs !! k = Some c /\ 0 <= r <= c_amount c
}.
Definition commission_inv (d : DB) : Prop :=
  commission_on (referral_policy d) (commissions d) (commission_refunds d).

(** The commission is the rounded-down share of the price. *)
Lemma commission_of_spec price rate :
  0 < price <= 100000000 -> 0 <= rate <= 10000 ->
  commission_of price rate = price * rate / 10000 /\ 0 <= commission_of price rate <= price.
Proof.
  intros Hp Hr. unfold commission_of.
  rewrite Z.quot_div_nonneg, Z.rem_mod_nonneg by lia.
  pose proof (Z.div_mod price 10000 ltac:(lia)) as Hdm. pose proof (Z.mod_pos_bound price 10000 ltac:(lia)) as Hm.
  set (q := price / 10000) in *. set (r := price mod 10000) in *.
  assert (Hq : 0 <= q <= 10000) by (unfold q; split; [apply Z.div_pos; lia|apply Z.div_le_upper_bound; lia]).
  rewrite (wrap64_id (r * rate)) by (unfold in_int64, MinInt64, MaxInt64; nia).
  rewrite (wrap64_id (q * rate)) by (unfold in_int64, MinInt64, MaxInt64; nia).
  rewrite Z.quot_div_nonneg by nia.
  assert (Hb : 0 <= r * rate / 10000 <= r).
  { split; [apply Z.div_pos; nia|]. apply Z.div_le_upper_bound; nia. }
  rewrite wrap64_id by (unfold in_int64, MinInt64, MaxInt64; nia).
  replace (price * rate / 10000) with (q * rate + r * rate / 10000).
  - split; [done|]. nia.
  - rewrite Hdm. replace ((10000 * q + r) * rate) with (q * rate * 10000 + r * rate) by lia.
    by rewrite Z.div_add_l by lia.
Qed.

Ltac shop_frame H :=
  let H1 := fresh "Hs" in let H2 := fresh "Hs" in let H3 := fresh "Hs" in
  let H4 := fresh "Hs" in let H5 := fresh "Hs" in let H6 := fresh "Hs" in
  destruct H as (H1 & H2 & H3 & H4 & H5 & H6);
  refine (conj _ (conj _ (conj _ (conj _ (conj _ _)))));
  [try exact H1|try exact H2|try exact H3|try exact H4|try exact H5|try exact H6].

Section Shop.
Context {RS : RatSyntax}.

Definition shop_inv (d : DB) : Prop :=
  wallet_inv d /\ catalog_inv d /\ bought_inv d /\ codes_inv d /\ commission_inv d /\ quota_inv d.

Definition shop_rest (d : DB) : Prop :=
  catalog_inv d /\ bought_inv d /\ codes_inv d /\ commission_inv d /\ quota_inv d.
Lemma shop_rest_blind : blind shop_rest.
Proof. by split. Qed.

Lemma shop_post user delta kind reference :
  - MaxInt64 <= delta <= MaxInt64 -> keeps shop_inv (post user delta kind reference).
Proof. intros Hd. exact (hoare_and _ _ _ _ _ (post_keeps _ _ _ _ Hd) (post_blind _ shop_rest_blind _ _ _ _)). Qed.
Lemma shop_walletTx user : keeps shop_inv (walletTx user).
Proof. exact (hoare_and _ _ _ _ _ (walletTx_keeps user) (walletTx_blind _ shop_rest_blind user)). Qed.
Lemma shop_emit user kind data : keeps shop_inv (emitEventTx user kind data).
Proof. by apply emitEventTx_keeps. Qed.
Lemma CheckAccount_keeps (P : DB -> Prop) user : keeps P (CheckAccount user).
Proof. unfold CheckAccount. keeps_walk; auto. Qed.

Lemma shop_planTx {A} plan (k : Plan -> Tx DB A) Q :
  (forall p, plan_ok p -> hoare shop_inv (k p) Q) -> hoare shop_inv (mbind k (planTx plan)) Q.
Proof.
  intros Hk. eapply hoare_bind with (R := fun p d => shop_inv d /\ plan_ok p).
  - intros env d t p d' t' Hrun Hi. pose proof Hi as (_ & Hc & _).
    destruct (planTx_bounds _ _ _ _ _ _ _ Hc Hrun) as (-> & Hp). done.
  - intros p. apply hoare_pure. apply Hk.
Qed.

Lemma shop_new_ent d eid e :
  shop_inv d -> entitlements d !! eid = None -> e_used e = 0 -> e_allocated e = 0 ->
  0 <= e_quota e <= MaxInt64 -> shop_inv (t_set Entitlements (<[eid:=e]>) d).
Proof.
  intros Hi Hn Hu Ha Hq. shop_frame Hi. by apply quota_new_ent.
Qed.

Lemma shop_snapshot d k s :
  shop_inv d -> plan_ok (ps_payload s) -> shop_inv (t_set Snapshots (<[k:=s]>) d).
Proof.
  intros Hi Hp. pose proof Hi as (_ & _ & Hb & _). shop_frame Hi. destruct Hb.
  split; simpl; try done. intros k' s' [[<- <-]|[_ H]]%lookup_insert_Some; eauto.
Qed.

Lemma shop_addon d k a :
  shop_inv d -> plan_ok (ap_payload a) -> shop_inv (t_set Addons (<[k:=a]>) d).
Proof.
  intros Hi Hp. pose proof Hi as (_ & _ & Hb & _). shop_frame Hi. destruct Hb.
  split; simpl; try done. intros k' s' [[<- <-]|[_ H]]%lookup_insert_Some; eauto.
Qed.

Lemma shop_code d k r :
  shop_inv d -> 0 <= rc_amount r <= 100000000 -> 0 <= rc_used r <= rc_max r ->
  shop_inv (t_set RedeemCodes (<[k:=r]>) d).
Proof.
  intros Hi Ha Hu. pose proof Hi as (_ & _ & _ & Hc & _). shop_frame Hi.
  intros k' r'. simpl. intros [[<- <-]|[_ H]]%lookup_insert_Some; eauto.
Qed.

Lemma recordCommission_shop invitee source price :
  0 < price <= 100000000 -> keeps shop_inv (recordCommission invitee source price).
Proof.
  intros Hp env d t [] d' t' Hrun Hi. pose proof Hi as (_ & _ & _ & _ & Hc & _).
  unfold recordCommission in Hrun. sql_run Hrun; try done. simpl in *. bool_to_prop.
  destruct (commission_of_spec price z Hp (cm_rate _ _ _ Hc _ Hif0)) as [_ Hb].
  shop_frame Hi. destruct Hc. split; simpl; [done| |].
  - intros k' c [[<- <-]|[_ H]]%lookup_insert_Some; [simpl; lia|eauto].
  - intros k' r Hr. destruct (cm_reversed0 _ _ Hr) as (c & Hc & Hb'). exists c.
    rewrite lookup_insert_ne; [done|]. congruence.
Qed.
End Shop.

Ltac shop_walk :=
  repeat (cbn beta; match goal with
  | |- hoare shop_inv (mbind _ (planTx _)) _ => apply shop_planTx; intros
  | |- hoare _ (mbind _ _) _ => eapply hoare_bind_inv; [|intros ?]
  | |- hoare _ (post _ _ _ _) _ => apply shop_post
  | |- hoare _ (recordCommission _ _ _) _ => apply recordCommission_shop
  | |- hoare _ _ _ => solve [auto using shop_walletTx, shop_emit, CheckAccount_keeps with keeps]
  | |- hoare _ _ _ => hoare_sql
  | |- hoare _ (match ?x with _ => _ end) _ => destruct x eqn:?
  end).

Create HintDb shop.
#[export] Hint Resolve shop_new_ent shop_snapshot shop_addon shop_code : shop.
#[export] Hint Extern 3 (_ <= _) => unfold plan_ok, MaxInt64 in *; simpl; lia : shop.
#[export] Hint Extern 3 (_ <= _ <= _) => unfold plan_ok, MaxInt64 in *; simpl; lia : shop.
#[export] Hint Extern 3 (_ < _ <= _) => unfold plan_ok, MaxInt64 in *; simpl; lia : shop.
#[export] Hint Extern 3 (_ = _ :> Z) => reflexivity : shop.
Ltac shop_solve := shop_walk; auto with shop.

Section ShopKeeps.
Context {RS : RatSyntax}.

Lemma purchaseTx_shop user plan key expected planVersion :
  keeps shop_inv (purchaseTx user plan key expected planVersion).
Proof.
  unfold purchaseTx, replayPurchase, snapshotLimits. shop_solve.
Qed.
Lemma PurchaseQuote_shop user plan key expected planVersion :
  keeps shop_inv (PurchaseQuote user plan key expected planVersion).
Proof. unfold PurchaseQuote. destruct (negb _); [apply hoare_fail|apply purchaseTx_shop]. Qed.

Lemma period_available_keeps (P : DB -> Prop) plan : keeps P (period_available plan).
Proof. unfold period_available. keeps_walk; auto. Qed.
Lemma climb_keeps (P : DB -> Prop) fuel user current : keeps P (climb fuel user current).
Proof. revert current. induction fuel; intros current; simpl; keeps_walk; auto. Qed.
Hint Resolve period_available_keeps climb_keeps : keeps.

Lemma CreateRedeemCode_shop amount plan maxUses expiresAt :
  keeps shop_inv (CreateRedeemCode amount plan maxUses expiresAt).
Proof. unfold CreateRedeemCode. shop_solve; apply shop_code; bool_to_prop; auto with shop. Qed.

Lemma grantPlan_shop user plan : keeps shop_inv (grantPlan user plan).
Proof. unfold grantPlan, snapshotLimits. shop_solve. Qed.

Lemma RevokeRedeemCode_shop code : keeps shop_inv (RevokeRedeemCode code).
Proof.
  unfold RevokeRedeemCode. shop_walk; auto. pose proof H as (_ & _ & _ & Hc & _).
  destruct (Hc _ _ H0). by apply shop_code.
Qed.

Lemma CreateReferralCode_shop user : keeps shop_inv (CreateReferralCode user).
Proof. unfold CreateReferralCode. shop_solve. Qed.

Lemma shop_policy d r :
  shop_inv d -> 0 <= r <= 10000 -> shop_inv (t_set ReferralPolicy (<[1:=r]>) d).
Proof.
  intros Hi Hr. pose proof Hi as (_ & _ & _ & _ & Hc & _). shop_frame Hi. destruct Hc.
  split; simpl; [|done|done]. intros r'. rewrite lookup_insert_eq. by intros [= <-].
Qed.

Lemma SetCommissionRate_shop bps : keeps shop_inv (SetCommissionRate bps).
Proof. unfold SetCommissionRate. shop_walk. apply shop_policy; [done|]. bool_to_prop. lia. Qed.

Lemma BindReferral_shop user plain : keeps shop_inv (BindReferral user plain).
Proof. unfold BindReferral. shop_walk; auto. by apply shop_policy. Qed.

Lemma SetAutoRenew_shop user plan enabled : keeps shop_inv (SetAutoRenew user plan enabled).
Proof. unfold SetAutoRenew. shop_solve. Qed.

Lemma AdjustUserBalance_shop actor user key reason delta :
  keeps shop_inv (AdjustUserBalance actor user key reason delta).
Proof.
  unfold AdjustUserBalance. shop_walk; auto. bool_to_prop. unfold MaxInt64. lia.
Qed.

Lemma SetUserRuleLimit_shop actor user maximum reason :
  keeps shop_inv (SetUserRuleLimit actor user maximum reason).
Proof. by apply SetUserRuleLimit_keeps. Qed.

Lemma RedeemCode_shop user plain : keeps shop_inv (RedeemCode user plain).
Proof.
  unfold RedeemCode. if_case; [apply hoare_fail|].
  eapply hoare_bind_inv; [apply CheckAccount_keeps|intros ?].
  eapply hoare_bind_inv; [apply shop_walletTx|intros ?]. read_bind.
  set (hash := digestCode plain).
  match goal with |- hoare _ (match ?r with _ => _ end) _ => destruct r end; [by apply hoare_ret|].
  eapply hoare_bind with (R := fun row d => shop_inv d /\ row = redeem_codes d !! hash);
    [by apply hoare_SELECT|]. intros row.
  eapply hoare_bind with (R := fun r d => shop_inv d /\ redeem_codes d !! hash = Some r).
  { apply hoare_or_fail. intros r -> d [Hi Hr]. by rewrite <- Hr. }
  intros r. eapply hoare_bind_inv.
  { destruct (rc_expires r); [read_bind|]; by apply hoare_ret. }
  intros expired. if_case; [apply hoare_fail|].
  eapply hoare_bind with (R := fun n d => shop_inv d /\ 0 <= rc_amount r <= 100000000).
  { apply hoare_UPDATE.
    - intros d x [Hi Hr] Hx Hc. simpl in Hx. rewrite Hr in Hx. injection Hx as <-.
      pose proof Hi as (_ & _ & _ & Hcodes & _). destruct (Hcodes _ _ Hr). split; [|done].
      bool_to_prop. apply shop_code; simpl; [done|done|lia].
    - intros d [Hi Hr] _. pose proof Hi as (_ & _ & _ & Hcodes & _). by destruct (Hcodes _ _ Hr). }
  intros n. apply hoare_pure. intros Hamt.
  eapply hoare_bind_inv; [hoare_sql; done|intros ?].
  eapply hoare_bind_inv; [if_case; [apply shop_post; unfold MaxInt64; lia|by apply hoare_ret]|intros ?].
  eapply hoare_bind_inv; [if_case; [eapply hoare_bind_inv; [apply grantPlan_shop|intros ?]|]; by apply hoare_ret|intros ?].
  shop_solve.
Qed.

Lemma renewUser_shop user : keeps shop_inv (renewUser user).
Proof.
  unfold renewUser, renew_update. shop_walk; auto;
    apply keeps_savepoint; auto using CheckAccount_keeps, purchaseTx_shop.
Qed.

Lemma renew_each_shop users envs i count d :
  shop_inv d -> shop_inv (renew_each users envs i count d).2.
Proof.
  revert i count d. induction users as [|user users IH]; intros i count d Hi; simpl; [done|].
  pose proof (keeps_Write _ _ (envs i) d (renewUser_shop user) Hi) as Hw.
  destruct (Write (renewUser user) (envs i) d) as [[a|e] d']; simpl in *; auto.
Qed.

(** An add-on changes the quota of the newest entitlement only upwards
    (or to unlimited). *)
Lemma shop_grow_quota d k e q :
  shop_inv d -> entitlements d !! k = Some e -> 0 <= q <= MaxInt64 -> (q = 0 \/ (e_quota e <> 0 /\ e_quota e <= q)) ->
  shop_inv (t_set Entitlements (<[k:=set_quota q e]>) d).
Proof.
  intros Hi He Hq Hc. pose proof Hi as (_ & _ & _ & _ & _ & Hquota). shop_frame Hi.
  destruct (q_quota _ _ _ _ _ _ _ Hquota _ _ He) as [H1 H2].
  eapply quota_set_ent; [exact Hquota|exact He|done|done|done|done|]. simpl. lia.
Qed.

Lemma row_blind k e : blind (fun d => entitlements d !! k = Some e).
Proof. by split. Qed.

Lemma addon_quota_spec quota added :
  0 <= quota <= MaxInt64 -> 0 <= added <= MaxInt64 ->
  negb (quota =? 0) && negb (added =? 0) && (MaxInt64 - added <? quota) = false ->
  0 <= addon_quota quota added <= MaxInt64 /\
  (addon_quota quota added = 0 \/ (quota <> 0 /\ addon_quota quota added = quota + added)).
Proof.
  intros Hq Ha. unfold addon_quota.
  destruct (added =? 0) eqn:E1, (quota =? 0) eqn:E2, (MaxInt64 - added <? quota) eqn:E3; simpl;
    intros Hg; try done; bool_to_prop; try lia.
  rewrite wrap64_id by (unfold in_int64, MinInt64; lia). lia.
Qed.

Lemma PurchaseAddon_shop user plan key expected planVersion :
  keeps shop_inv (PurchaseAddon user plan key expected planVersion).
Proof.
  unfold PurchaseAddon. if_case; [apply hoare_fail|].
  eapply hoare_bind_inv; [apply CheckAccount_keeps|intros ?].
  eapply hoare_bind_inv; [apply shop_walletTx|intros ?]. read_bind.
  match goal with |- hoare _ (match ?r with _ => _ end) _ => destruct r as [[? ?]|] end.
  { if_case; [apply hoare_fail|by apply hoare_ret]. }
  apply shop_planTx. intros p [Hprice Hquota]. do 2 (if_case; [apply hoare_fail|]).
  set (P := fun (kr : string * ent_row) d => shop_inv d /\ entitlements d !! kr.1 = Some kr.2).
  eapply hoare_bind with (R := fun o d => shop_inv d /\ forall kr, o = Some kr -> P kr d).
  { intros env d t o d' t' Hrun Hi. apply latest_Ok in Hrun as [Hl ->]. split; [done|].
    intros [k e] ->. by destruct Hl as (Hk & _). }
  intros o. eapply hoare_bind with (R := P).
  { apply hoare_or_fail. intros kr -> d [_ Hp]. by apply Hp. }
  intros [k e]. eapply hoare_bind_inv; [apply entitlementLimits_keeps|intros limits]. simpl.
  if_case; [apply hoare_fail|]. eapply hoare_bind_inv; [hoare_sql; done|intros now].
  if_case; [apply hoare_fail|]. if_case; [apply hoare_fail|].
  eapply hoare_bind_inv; [hoare_sql; done|intros pid].
  eapply hoare_bind_inv.
  { apply hoare_and; [apply shop_post; unfold MaxInt64; lia|apply post_blind, row_blind]. }
  intros ?. eapply hoare_bind with (R := fun _ => shop_inv).
  { apply hoare_UPDATE; [|by intros d [? _]]. intros d x [Hi He] Hx _. simpl in Hx, He. rewrite He in Hx. injection Hx as <-.
    pose proof Hi as (_ & _ & _ & _ & _ & Hq). destruct (q_quota _ _ _ _ _ _ _ Hq _ _ He) as [Hr _].
    destruct (addon_quota_spec (e_quota e) (P_Quota p)) as [H1 H2]; [done|done|done|].
    apply shop_grow_quota; [done|done|exact H1|]. lia. }
  intros ?. shop_walk; auto. apply shop_addon; [done|]. by split.
Qed.
End ShopKeeps.
