(* ===== verification/Refunds.v ===== *)
(** * Purchase refunds and commission resolution
    (internal/commerce/funding.go [RefundPurchase], [fraction],
    [reversedCommission], [reversePurchaseCommission]; lifecycle.go
    [ResolveCommission])

    A purchase may be refunded to the wallet in parts.  Each part takes its
    share of the plan's quota and of the inviter's commission with it; the
    shares are differences of one floor function, so parts add up to the
    whole. *)

From S2P Require Import Prelude Tx GoStrings Calendar Rational PlanRules Schema Wallet Plans Quota Purchases.
From stdpp Require Import base gmap strings list.
From Stdlib Require Import Ascii String.
Local Open Scope string_scope.
Local Open Scope Z_scope.

(** [big.Int.Quo] truncates; [Int64] keeps the low 64 bits. *)
Definition fraction (total n d : Z) : Z := wrap64 (Z.quot (total * n) d).

Definition reversedCommission (cid : string) : Tx DB Z :=
  row ← SELECT CommissionRefunds cid;
  mret (default 0 row).

Definition commission_status (s : string) (c : commission_row) : commission_row :=
  {| c_inviter := c_inviter c; c_invitee := c_invitee c; c_source := c_source c; c_amount := c_amount c;
     c_status := s; c_created := c_created c |}.

Definition reversePurchaseCommission (actor purchase : string) (refunded price : Z) (reason : string) : Tx DB unit :=
  row ← SELECT_one Commissions (fun _ c => String.eqb (c_source c) purchase);
  match row with
  | None => mret tt
  | Some (cid, c) =>
      if String.eqb (c_status c) "reversed" then mret tt else
      previous ← reversedCommission cid;
      let target := fraction (c_amount c) refunded price in
      let delta := wrap64 (target - previous) in
      if delta <=? 0 then mret tt else
      (if String.eqb (c_status c) "paid" then
         rid ← id;
         post (c_inviter c) (wrap64 (- delta)) "commission_reversal" rid
       else mret tt) ;;
      UPSERT CommissionRefunds cid target ;;
      (if target =? c_amount c
       then UPDATE Commissions cid (fun _ => true) (commission_status "reversed") ;; mret tt
       else mret tt) ;;
      emitEventTx (c_inviter c) "commission.refunded" [("commission_id", cid); ("purchase_id", purchase)]
  end.

Record PurchaseRefund := { PR_ID : string; PR_PurchaseID : string; PR_Amount : Z; PR_QuotaRemoved : Z }.

(** The snapshot a refund is computed from: a plan purchase, else an add-on. *)
Definition purchase_of (snaps : gmap string snapshot_row) (adds : gmap string addon_row) (purchase : string)
    : option (string * string * Plan) :=
  match snaps !! purchase with
  | Some s => Some (ps_user s, purchase, ps_payload s)
  | None => (fun a => (ap_user a, ap_ent a, ap_payload a)) <$> adds !! purchase
  end.
Definition purchaseSnapshot (purchase : string) : Tx DB (string * string * Plan) :=
  snap ← gets (fun d => purchase_of (snapshots d) (addons d) purchase);
  or_fail snap ErrNoRows.

Definition refunds_of (purchase : string) : Tx DB (list (string * purchase_refund_row)) :=
  SELECT_where PurchaseRefunds (fun _ r => String.eqb (pr_purchase r) purchase).

Definition RefundPurchase (actor purchase key reason : string) (amount : Z) : Tx DB PurchaseRefund :=
  if String.eqb actor "" || (amount <=? 0) || negb (in_length key 1 128)
     || String.eqb (TrimSpace reason) "" || negb (in_length reason 0 500)
  then fail (ErrMsg "refund amount, reason and idempotency key required") else
  '(user, ent, plan) ← purchaseSnapshot purchase;
  CheckAccount user ;;
  walletTx user ;;
  prior ← SELECT_one PurchaseRefunds (fun _ r => String.eqb (pr_purchase r) purchase && String.eqb (pr_key r) key);
  match prior with
  | Some (rid, r) =>
      if negb (pr_amount r =? amount) || negb (String.eqb (pr_reason r) reason) then fail ErrConflict else
      mret {| PR_ID := rid; PR_PurchaseID := purchase; PR_Amount := pr_amount r; PR_QuotaRemoved := pr_removed r |}
  | None =>
      if P_Price plan <=? 0 then fail (ErrMsg "free or redeemed plans have no refundable price") else
      rows ← refunds_of purchase;
      let refunded := sum_over (fun kr => pr_amount kr.2) rows in
      if wrap64 (P_Price plan - refunded) <? amount then fail (ErrMsg "refund exceeds purchase price") else
      let removed := wrap64 (fraction (P_Quota plan) (wrap64 (refunded + amount)) (P_Price plan)
                             - fraction (P_Quota plan) refunded (P_Price plan)) in
      n ← UPDATE Entitlements ent
            (fun e => (e_allocated e <=? e_quota e - removed) && (e_used e <=? e_quota e - removed))
            (fun e => set_quota (e_quota e - removed) e);
      if negb (n =? 1) && negb (removed =? 0) then fail (ErrMsg "refund would remove used or reserved quota") else
      rid ← id;
      now ← Now;
      INSERT PurchaseRefunds rid
        {| pr_user := user; pr_purchase := purchase; pr_amount := amount; pr_removed := removed;
           pr_actor := actor; pr_reason := reason; pr_key := key; pr_created := now |} ;;
      reversePurchaseCommission actor purchase (wrap64 (refunded + amount)) (P_Price plan) reason ;;
      post user amount "purchase_refund" rid ;;
      emitEventTx user "purchase.refunded" [("purchase_id", purchase); ("refund_id", rid)] ;;
      mret {| PR_ID := rid; PR_PurchaseID := purchase; PR_Amount := amount; PR_QuotaRemoved := removed |}
  end.

Definition ResolveCommission (actor cid action reason : string) : Tx DB unit :=
  if String.eqb actor "" || (negb (String.eqb action "settle") && negb (String.eqb action "reverse"))
     || String.eqb (TrimSpace reason) "" || negb (in_length reason 0 500)
  then fail (ErrMsg "invalid commission resolution") else
  row ← SELECT Commissions cid;
  c ← or_fail row ErrNoRows;
  reversed ← reversedCommission cid;
  let amount := wrap64 (c_amount c - reversed) in
  let target := if String.eqb action "reverse" then "reversed" else "paid" in
  if String.eqb (c_status c) target then mret tt else
  if String.eqb (c_status c) "reversed" then fail ErrConflict else
  (if String.eqb action "settle"
   then post (c_inviter c) amount "commission" ("commission:" ++ cid)
   else if String.eqb (c_status c) "paid"
   then post (c_inviter c) (wrap64 (- amount)) "commission_reversal" ("commission-reverse:" ++ cid)
   else mret tt) ;;
  UPDATE Commissions cid (fun _ => true) (commission_status target) ;;
  aid ← id;
  now ← Now;
  INSERT CommissionAdjustments aid
    {| ca_commission := cid; ca_action := action; ca_actor := actor; ca_reason := reason; ca_created := now |}.

(** ** Shares *)

(** Within the price no share overflows: it is the rounded-down part. *)
Lemma fraction_spec total n d :
  0 <= total <= MaxInt64 -> 0 <= n <= d -> 0 < d ->
  fraction total n d = total * n / d /\ 0 <= fraction total n d <= total.
Proof.
  intros Ht Hn Hd. unfold fraction. rewrite Z.quot_div_nonneg by nia.
  assert (Hb : 0 <= total * n / d <= total).
  { split; [apply Z.div_pos; nia|]. apply Z.div_le_upper_bound; nia. }
  rewrite wrap64_id by (unfold in_int64, MinInt64; lia). done.
Qed.

Lemma fraction_mono total n n' d :
  0 <= total <= MaxInt64 -> 0 <= n <= n' -> n' <= d -> 0 < d -> fraction total n d <= fraction total n' d.
Proof.
  intros Ht Hn Hn' Hd. destruct (fraction_spec total n d) as [-> _]; [lia|lia|lia|].
  destruct (fraction_spec total n' d) as [-> _]; [lia|lia|lia|]. apply Z.div_le_mono; nia.
Qed.

Lemma fraction_0 total d : 0 < d -> fraction total 0 d = 0.
Proof. intros. unfold fraction. rewrite Z.mul_0_r, Z.quot_0_l by lia. reflexivity. Qed.

Lemma fraction_full total d : 0 <= total <= MaxInt64 -> 0 < d -> fraction total d d = total.
Proof.
  intros Ht Hd. destruct (fraction_spec total d d) as [-> _]; [lia|lia|lia|]. apply Z.div_mul. lia.
Qed.

Section Shop.
Context {RS : RatSyntax}.

Lemma shop_reversed d k c r :
  shop_inv d -> commissions d !! k = Some c -> 0 <= r <= c_amount c ->
  shop_inv (t_set CommissionRefunds (<[k:=r]>) d).
Proof.
  intros Hi Hc Hr. pose proof Hi as (_ & _ & _ & _ & Hcm & _). shop_frame Hi. destruct Hcm.
  split; simpl; try done. intros k' r' [[<- <-]|[_ H]]%lookup_insert_Some; eauto.
Qed.

Lemma shop_commission_status d k c s :
  shop_inv d -> commissions d !! k = Some c -> shop_inv (t_set Commissions (<[k:=commission_status s c]>) d).
Proof.
  intros Hi Hc. pose proof Hi as (_ & _ & _ & _ & Hcm & _). shop_frame Hi. destruct Hcm.
  split; simpl; try done.
  - intros k' c' [[<- <-]|[_ H]]%lookup_insert_Some; [simpl|]; eauto.
  - intros k' r Hr. destruct (cm_reversed _ _ Hr) as (c' & Hc' & Hb).
    destruct (decide (k = k')) as [<-|Hne]; [|rewrite lookup_insert_ne by done; eauto].
    rewrite Hc in Hc'. injection Hc' as <-. rewrite lookup_insert_eq. by exists (commission_status s c).
Qed.

Lemma shop_purchase_refund d k r :
  shop_inv d -> purchase_refunds d !! k = None -> 0 < pr_amount r ->
  refunded_of (pr_purchase r) (purchase_refunds d) + pr_amount r <= 100000000 ->
  shop_inv (t_set PurchaseRefunds (<[k:=r]>) d).
Proof.
  intros Hi Hn Hr Ht. pose proof Hi as (_ & _ & Hb & _). shop_frame Hi. destruct Hb.
  split; simpl; try done.
  - intros k' r' [[<- <-]|[_ H]]%lookup_insert_Some; eauto.
  - intros purchase. unfold refunded_of. rewrite map_sum_insert_None by done. fold (refunded_of purchase (purchase_refunds d)).
    destruct (decide (pr_purchase r = purchase)) as [<-|Hne]; [rewrite at_key_eq; lia|].
    rewrite at_key_ne by done. specialize (bt_total purchase). lia.
Qed.

Lemma commission_row_blind k c : blind (fun d => commissions d !! k = Some c).
Proof. by split. Qed.

Lemma reversedCommission_Ok cid env d t r d' t' :
  shop_inv d -> reversedCommission cid env d t = (Ok (r, d'), t') ->
  d' = d /\ forall c, commissions d !! cid = Some c -> 0 <= r <= c_amount c.
Proof.
  intros Hi Hrun. pose proof Hi as (_ & _ & _ & _ & Hcm & _). unfold reversedCommission in Hrun. sql_inv Hrun.
  split; [done|]. intros c Hc. simpl. destruct (commission_refunds d !! cid) as [r|] eqn:Hr; simpl.
  - destruct (cm_reversed _ _ _ Hcm _ _ Hr) as (c' & Hc' & Hb). congruence.
  - destruct (cm_amount _ _ _ Hcm _ _ Hc). lia.
Qed.

Lemma reversePurchaseCommission_shop actor purchase refunded price reason :
  0 <= refunded <= price -> 0 < price ->
  keeps shop_inv (reversePurchaseCommission actor purchase refunded price reason).
Proof.
  intros Hr Hp. unfold reversePurchaseCommission.
  set (P := fun (kc : string * commission_row) d => shop_inv d /\ commissions d !! kc.1 = Some kc.2).
  eapply hoare_bind with (R := fun o d => shop_inv d /\ forall kc, o = Some kc -> P kc d).
  { apply hoare_SELECT_one. intros d Hi. split; [done|]. intros [k c] Hh.
    apply head_rows_where in Hh as [Hh _]. by split. }
  intros [[cid c]|]; [|apply hoare_ret; tauto].
  eapply hoare_conseq with (P' := P (cid, c)) (Q' := fun _ => shop_inv); [|intros d [_ HP]; by apply HP|done].
  if_case; [by apply hoare_ret; intros d []|].
  eapply hoare_bind with (R := fun r d => P (cid, c) d /\ (0 <= r <= c_amount c /\ 0 < c_amount c <= 100000000)).
  { intros env d t r d' t' Hrun [Hi Hc]. destruct (reversedCommission_Ok _ _ _ _ _ _ _ Hi Hrun) as [-> Hb].
    pose proof Hi as (_ & _ & _ & _ & Hcm & _). split; [done|]. split; [by apply Hb|]. apply (cm_amount _ _ _ Hcm _ _ Hc). }
  intros prev. apply hoare_pure. intros [Hprev Hamt].
  destruct (fraction_spec (c_amount c) refunded price) as [_ Hfr]; [unfold MaxInt64; lia|lia|lia|].
  rewrite (wrap64_id (_ - prev)) by (unfold in_int64, MinInt64, MaxInt64; lia).
  if_case; [by apply hoare_ret; intros d []|]. bool_to_prop.
  rewrite wrap64_id by (unfold in_int64, MinInt64, MaxInt64; lia).
  eapply hoare_bind_inv.
  { if_case; [|by apply hoare_ret]. eapply hoare_bind_inv; [hoare_sql; done|intros rid].
    apply hoare_and; [apply shop_post; unfold MaxInt64; lia|apply post_blind, commission_row_blind]. }
  intros ?. eapply hoare_bind_inv.
  { apply hoare_UPSERT. intros d [Hi Hc]. split; [|done]. by eapply shop_reversed. }
  intros ?. eapply hoare_bind with (R := fun _ => shop_inv); [|intros ?; apply shop_emit].
  if_case; [|by apply hoare_ret; intros d []].
  eapply hoare_bind with (R := fun _ => shop_inv); [|intros ?; by apply hoare_ret].
  apply hoare_UPDATE; [|by intros d []]. intros d x [Hi Hc] Hx _. by apply shop_commission_status.
Qed.

Lemma ResolveCommission_shop actor cid action reason :
  keeps shop_inv (ResolveCommission actor cid action reason).
Proof.
  unfold ResolveCommission. if_case; [apply hoare_fail|].
  eapply hoare_bind with (R := fun row d => shop_inv d /\ row = commissions d !! cid); [by apply hoare_SELECT|].
  intros row. set (P := fun (c : commission_row) d => shop_inv d /\ commissions d !! cid = Some c).
  eapply hoare_bind with (R := P).
  { apply hoare_or_fail. intros c -> d [Hi Hc]. by split. }
  intros c. eapply hoare_bind with (R := fun r d => P c d /\ (0 <= r <= c_amount c /\ 0 < c_amount c <= 100000000)).
  { intros env d t r d' t' Hrun [Hi Hc]. destruct (reversedCommission_Ok _ _ _ _ _ _ _ Hi Hrun) as [-> Hb].
    pose proof Hi as (_ & _ & _ & _ & Hcm & _). split; [done|]. split; [by apply Hb|]. apply (cm_amount _ _ _ Hcm _ _ Hc). }
  intros reversed. apply hoare_pure. intros [Hr Hamt].
  rewrite (wrap64_id (c_amount c - reversed)) by (unfold in_int64, MinInt64, MaxInt64; lia).
  rewrite wrap64_id by (unfold in_int64, MinInt64, MaxInt64; lia).
  cbv zeta. set (target := if String.eqb action "reverse" then _ else _).
  destruct (String.eqb (c_status c) target); [by apply hoare_ret; intros d []|].
  destruct (String.eqb (c_status c) "reversed"); [apply hoare_fail|].
  eapply hoare_bind_inv.
  { repeat if_case; [| |by apply hoare_ret];
      (apply hoare_and; [apply shop_post; unfold MaxInt64; lia|apply post_blind, commission_row_blind]). }
  intros ?. eapply hoare_bind with (R := fun _ => shop_inv).
  { apply hoare_UPDATE; [|by intros d []]. intros d x [Hi Hc] Hx _. by apply shop_commission_status. }
  intros ?. shop_solve.
Qed.

(** *** Purchase refunds *)

Lemma purchase_of_ok d purchase user ent plan :
  shop_inv d -> purchase_of (snapshots d) (addons d) purchase = Some (user, ent, plan) -> plan_ok plan.
Proof.
  intros (_ & _ & Hb & _). destruct Hb. unfold purchase_of.
  destruct (snapshots d !! purchase) eqn:Es; [intros [= <- <- <-]; eauto|].
  destruct (addons d !! purchase) eqn:Ea; [|done]. simpl. intros [= <- <- <-]. eauto.
Qed.

Definition removed_of (purchase : string) (m : gmap string purchase_refund_row) : Z :=
  map_sum (fun _ r => at_key (pr_purchase r) purchase (pr_removed r)) m.

Lemma refunds_sum purchase d :
  sum_over (fun kr => pr_amount kr.2) (rows_where PurchaseRefunds (fun _ r => String.eqb (pr_purchase r) purchase) d)
  = refunded_of purchase (purchase_refunds d).
Proof. unfold rows_where, refunded_of. by rewrite sum_over_filter, map_sum_to_list. Qed.

Lemma refunded_bounds purchase d :
  shop_inv d -> 0 <= refunded_of purchase (purchase_refunds d) <= 100000000.
Proof.
  intros (_ & _ & [] & _). split; [|done]. apply map_sum_nonneg. intros k r Hr. unfold at_key.
  destruct (String.eqb _ _); [|done]. specialize (bt_refund _ _ Hr). lia.
Qed.

(** Taking quota back leaves what is used or reserved. *)
Lemma shop_remove_quota d k e removed :
  shop_inv d -> entitlements d !! k = Some e -> 0 <= removed -> e_allocated e <= e_quota e - removed ->
  shop_inv (t_set Entitlements (<[k:=set_quota (e_quota e - removed) e]>) d).
Proof.
  intros Hi He Hr Hc. pose proof Hi as (_ & _ & _ & _ & _ & Hq). shop_frame Hi.
  destruct (q_quota _ _ _ _ _ _ _ Hq _ _ He) as [H1 _].
  assert (0 <= e_allocated e).
  { rewrite (q_alloc _ _ _ _ _ _ _ Hq _ _ He). by eapply held_by_nonneg. }
  eapply quota_set_ent; [exact Hq|exact He|done|done|done|simpl; lia|]. simpl. lia.
Qed.

Lemma refunds_blind X : blind (fun d => purchase_refunds d = X).
Proof. by split. Qed.

Lemma reversePurchaseCommission_refunds X actor purchase refunded price reason :
  keeps (fun d => purchase_refunds d = X) (reversePurchaseCommission actor purchase refunded price reason).
Proof.
  unfold reversePurchaseCommission, reversedCommission.
  pose proof (fun u dl k r => post_blind _ (refunds_blind X) u dl k r).
  pose proof (fun u k data => emitEventTx_blind _ (refunds_blind X) u k data). keeps_walk; auto.
Qed.

(** The table of refunds after a request: unchanged on a replay, else one
    row more, within the price and with its share of the quota. *)
Definition refund_step (purchase key reason : string) (amount : Z) (plan : Plan)
    (out : PurchaseRefund) (prs prs' : gmap string purchase_refund_row) : Prop :=
  (prs' = prs /\ exists r, prs !! PR_ID out = Some r /\ pr_purchase r = purchase /\ pr_key r = key /\
     pr_amount r = amount /\ pr_reason r = reason /\ pr_removed r = PR_QuotaRemoved out) \/
  (exists r, prs !! PR_ID out = None /\ prs' = <[PR_ID out := r]> prs /\ pr_purchase r = purchase /\
     pr_key r = key /\ pr_amount r = amount /\ pr_reason r = reason /\ 0 < amount /\
     pr_removed r = PR_QuotaRemoved out /\
     refunded_of purchase prs + amount <= P_Price plan /\
     pr_removed r = fraction (P_Quota plan) (refunded_of purchase prs + amount) (P_Price plan)
                    - fraction (P_Quota plan) (refunded_of purchase prs) (P_Price plan)).

Lemma RefundPurchase_spec actor purchase key reason amount d0 :
  hoare (fun d => shop_inv d /\ d = d0) (RefundPurchase actor purchase key reason amount)
    (fun out d => shop_inv d /\ exists user ent plan,
       purchase_of (snapshots d0) (addons d0) purchase = Some (user, ent, plan) /\
       refund_step purchase key reason amount plan out (purchase_refunds d0) (purchase_refunds d)).
Proof.
  unfold RefundPurchase. if_case; [apply hoare_fail|]. bool_to_prop.
  set (prs := purchase_refunds d0). set (P := fun d => shop_inv d /\ purchase_refunds d = prs).
  eapply hoare_bind with (R := fun upl d => P d /\
    purchase_of (snapshots d0) (addons d0) purchase = Some upl /\ plan_ok upl.2).
  { intros env d t upl d' t' Hrun [Hi ->]. unfold purchaseSnapshot in Hrun. sql_inv Hrun.
    split; [done|]. split; [done|]. destruct upl as [[? ?] ?]. by eapply purchase_of_ok. }
  intros [[user ent] plan]. cbn beta. simpl. apply hoare_pure. intros (Hof & Hprice & Hquota).
  eapply hoare_bind_inv; [apply CheckAccount_keeps|intros ?].
  eapply hoare_bind_inv; [apply hoare_and; [apply shop_walletTx|apply walletTx_blind, refunds_blind]|intros ?].
  eapply hoare_bind with (R := fun o d => P d /\ forall kr, o = Some kr -> prs !! kr.1 = Some kr.2 /\
    pr_purchase kr.2 = purchase /\ pr_key kr.2 = key).
  { apply hoare_SELECT_one. intros d [Hi Hd]. split; [done|]. intros [k r] Hh.
    apply head_rows_where in Hh as [Hk Hc]. simpl in Hk. rewrite Hd in Hk. by bool_to_prop. }
  intros [[rid r]|].
  { if_case; [apply hoare_fail|]. apply hoare_ret. intros d [[Hi Hd] Hkr].
    destruct (Hkr _ eq_refl) as (Hr1 & Hr2 & Hr3). bool_to_prop. split; [done|].
    exists user, ent, plan. split; [done|]. left. split; [done|]. by exists r. }
  eapply hoare_conseq with (P' := P); [|by intros d []|intros ? d HQ; exact HQ].
  if_case; [apply hoare_fail|]. bool_to_prop.
  eapply hoare_bind with (R := fun l d => P d /\ (sum_over (fun kr => pr_amount kr.2) l = refunded_of purchase prs /\
    0 <= refunded_of purchase prs <= 100000000)).
  { unfold refunds_of. apply hoare_SELECT_where. intros d [Hi Hd]. split; [done|].
    rewrite refunds_sum, Hd. split; [done|]. rewrite <- Hd. by apply refunded_bounds. }
  intros l. apply hoare_pure. intros [-> Hb]. set (refunded := refunded_of purchase prs) in *.
  rewrite (wrap64_id (P_Price plan - refunded)) by (unfold in_int64, MinInt64, MaxInt64; lia).
  if_case; [apply hoare_fail|]. bool_to_prop.
  rewrite (wrap64_id (refunded + amount)) by (unfold in_int64, MinInt64, MaxInt64; lia).
  pose proof (fraction_mono (P_Quota plan) refunded (refunded + amount) (P_Price plan)
    ltac:(lia) ltac:(lia) ltac:(lia) ltac:(lia)) as Hmono.
  destruct (fraction_spec (P_Quota plan) refunded (P_Price plan)) as [_ Hf1]; [lia|lia|lia|].
  destruct (fraction_spec (P_Quota plan) (refunded + amount) (P_Price plan)) as [_ Hf2]; [lia|lia|lia|].
  rewrite (wrap64_id (_ - _)) by (unfold in_int64, MinInt64, MaxInt64 in *; lia).
  set (removed := _ - fraction (P_Quota plan) refunded _) in *.
  eapply hoare_bind_inv.
  { apply hoare_UPDATE; [|done]. intros d e [Hi Hd] He Hc. bool_to_prop. split; [|done].
    apply shop_remove_quota; [done|done|lia|done]. }
  intros n. if_case; [apply hoare_fail|].
  eapply hoare_bind_inv; [hoare_sql; done|intros rid].
  eapply hoare_bind_inv; [hoare_sql; done|intros now].
  match goal with |- hoare _ (mbind _ (INSERT _ _ ?r)) _ => set (row := r) end.
  eapply hoare_bind with (R := fun _ d => (shop_inv d /\ purchase_refunds d = <[rid:=row]> prs) /\ prs !! rid = None).
  { apply hoare_INSERT. intros d [Hi Hd] Hn _. simpl in Hn. rewrite Hd in Hn. split; [|done].
    split; [|simpl; by rewrite Hd]. apply shop_purchase_refund; [done|by rewrite Hd|simpl; lia|].
    simpl. rewrite Hd. fold refunded. lia. }
  intros ?. apply hoare_pure. intros Hfresh. eapply hoare_bind_inv.
  { apply hoare_and; [apply reversePurchaseCommission_shop; lia|apply reversePurchaseCommission_refunds]. }
  intros ?. eapply hoare_bind_inv.
  { apply hoare_and; [apply shop_post; unfold MaxInt64; lia|apply post_blind, refunds_blind]. }
  intros ?. eapply hoare_bind_inv.
  { apply hoare_and; [apply shop_emit|apply emitEventTx_blind, refunds_blind]. }
  intros ?. apply hoare_ret. intros d [Hi Hd]. split; [done|]. exists user, ent, plan. split; [done|].
  right. exists row. simpl. rewrite Hd. do 6 (split; [done|]). split; [lia|]. split; [done|]. split; [lia|done].
Qed.

Lemma RefundPurchase_shop actor purchase key reason amount :
  keeps shop_inv (RefundPurchase actor purchase key reason amount).
Proof.
  intros env d t out d' t' Hrun Hi.
  exact (proj1 (RefundPurchase_spec actor purchase key reason amount d _ _ _ _ _ _ Hrun (conj Hi eq_refl))).
Qed.

(** Refunds of one purchase add up.  When the quota removed so far is
    the rounded share of the amount refunded so far, one more successful
    refund keeps it so: the total never exceeds the price, and once the
    whole price is refunded exactly the whole plan quota has been
    removed, however the refund was split. *)
Lemma RefundPurchase_telescopes actor purchase key reason amount env d t out d' t' user ent plan :
  shop_inv d -> purchase_of (snapshots d) (addons d) purchase = Some (user, ent, plan) ->
  refunded_of purchase (purchase_refunds d) <= P_Price plan ->
  removed_of purchase (purchase_refunds d)
    = fraction (P_Quota plan) (refunded_of purchase (purchase_refunds d)) (P_Price plan) ->
  RefundPurchase actor purchase key reason amount env d t = (Ok (out, d'), t') ->
  let total := refunded_of purchase (purchase_refunds d') in
  total <= P_Price plan /\
  removed_of purchase (purchase_refunds d') = fraction (P_Quota plan) total (P_Price plan) /\
  (total = P_Price plan -> removed_of purchase (purchase_refunds d') = P_Quota plan).
Proof.
  intros Hi Hof Hle Hshare Hrun total.
  destruct (purchase_of_ok _ _ _ _ _ Hi Hof) as [Hprice Hquota].
  assert (Hsum : total <= P_Price plan /\
    removed_of purchase (purchase_refunds d') = fraction (P_Quota plan) total (P_Price plan)).
  { destruct (RefundPurchase_spec _ _ _ _ _ d _ _ _ _ _ _ Hrun (conj Hi eq_refl)) as (_ & u & e & p & Hof' & Hstep).
    rewrite Hof in Hof'. injection Hof' as <- <- <-. unfold total.
    destruct Hstep as [[-> _]|(r & Hn & -> & Hp & _ & Ha & _ & Hpos & _ & Hcap & Hrem)]; [done|].
    unfold refunded_of, removed_of. rewrite !map_sum_insert_None, Hp, !at_key_eq by done.
    fold (refunded_of purchase (purchase_refunds d)) (removed_of purchase (purchase_refunds d)).
    rewrite Hshare, Hrem, Ha, (Z.add_comm amount). split; [lia|]. lia. }
  destruct Hsum as [H1 H2]. split; [done|]. split; [done|]. intros Hfull. rewrite H2, Hfull.
  apply fraction_full; [done|lia].
Qed.

(** A refund takes the removed quota from the purchase's entitlement and
    leaves every other entitlement alone. *)
Lemma RefundPurchase_quota actor purchase key reason amount env d t out d' t' :
  RefundPurchase actor purchase key reason amount env d t = (Ok (out, d'), t') ->
  exists user ent plan, purchase_of (snapshots d) (addons d) purchase = Some (user, ent, plan) /\
    (purchase_refunds d' = purchase_refunds d /\ entitlements d' = entitlements d \/
     (exists r, purchase_refunds d !! PR_ID out = None /\ purchase_refunds d' = <[PR_ID out := r]> (purchase_refunds d) /\
        pr_purchase r = purchase /\ entitlements d' = alter (fun e => set_quota (e_quota e - pr_removed r) e) ent (entitlements d))).
Proof.
  intros Hrun. assert (Hb : forall X Y, blind (fun d => purchase_refunds d = X /\ entitlements d = Y)) by (intros; by split).
  assert (Hrev : forall X Y a p n m r, keeps (fun d => purchase_refunds d = X /\ entitlements d = Y) (reversePurchaseCommission a p n m r)).
  { intros X Y *. unfold reversePurchaseCommission, reversedCommission. pose proof (fun u dl k r => post_blind _ (Hb X Y) u dl k r).
    pose proof (fun u k data => emitEventTx_blind _ (Hb X Y) u k data). keeps_walk; auto. }
  unfold RefundPurchase in Hrun. destruct (_ || _ || _ || _ || _) eqn:Hg; [done|].
  apply tx_bind_Ok in Hrun as ([[user ent] plan] & d1 & t1 & Hm & Hrun). unfold purchaseSnapshot in Hm. sql_run Hm. cbn beta iota in Hrun.
  apply tx_bind_Ok in Hrun as (u1 & d2 & t2 & Hm2 & Hrun). pose proof (CheckAccount_keeps (fun x => x = d) user _ _ _ _ _ _ Hm2 eq_refl) as ->.
  apply tx_bind_Ok in Hrun as (u2 & d3 & t3 & Hm3 & Hrun). pose proof (walletTx_blind _ (Hb (purchase_refunds d) (entitlements d)) _ _ _ _ _ _ _ Hm3 (conj eq_refl eq_refl)) as [Ep Ee].
  apply tx_bind_Ok in Hrun as (prior & d4 & t4 & Hm4 & Hrun). sql_inv Hm4. exists user, ent, plan. split; [done|].
  destruct (head _) as [[rid r]|]; [left; by sql_run Hrun|right]. destruct (P_Price plan <=? 0); [done|].
  apply tx_bind_Ok in Hrun as (rows & d5 & t5 & Hm5 & Hrun). unfold refunds_of in Hm5. sql_inv Hm5. destruct (_ <? amount); [done|].
  set (removed := wrap64 (_ - _)) in Hrun. apply tx_bind_Ok in Hrun as (n & d6 & t6 & Hm6 & Hrun). destruct (negb (n =? 1) && _) eqn:Hn; [done|].
  assert (E6 : purchase_refunds d6 = purchase_refunds d /\ entitlements d6 = alter (fun e => set_quota (e_quota e - removed) e) ent (entitlements d)).
  { apply UPDATE_Ok in Hm6 as [(e & He & _ & _ & ->)|(Hno & -> & ->)]; simpl in *; [rewrite Ee in He |- *|rewrite Ee].
    - split; [done|]. apply map_eq. intros k. destruct (decide (ent = k)) as [<-|Hne]; [by rewrite lookup_insert_eq, lookup_alter_eq, He|by rewrite lookup_insert_ne, lookup_alter_ne].
    - split; [done|]. bool_to_prop. symmetry. apply map_eq. intros k. destruct (decide (ent = k)) as [<-|Hne]; [|by rewrite lookup_alter_ne].
      rewrite lookup_alter_eq. replace removed with 0. destruct (entitlements d !! ent) as [e|]; [|done]. cbn. rewrite Z.sub_0_r. by destruct e. }
  clear Hm6 Hn. apply tx_bind_Ok in Hrun as (rid & d7 & t7 & Hm7 & Hrun). sql_inv Hm7. apply tx_bind_Ok in Hrun as (now & d8 & t8 & Hm8 & Hrun). sql_inv Hm8.
  apply tx_bind_Ok in Hrun as (u9 & d9 & t9 & Hm9 & Hrun). apply INSERT_Ok in Hm9 as (Hfree & _ & ->).
  apply tx_bind_Ok in Hrun as (u10 & d10 & t10 & Hm10 & Hrun). apply tx_bind_Ok in Hrun as (u11 & d11 & t11 & Hm11 & Hrun).
  apply tx_bind_Ok in Hrun as (u12 & d12 & t12 & Hm12 & Hrun). sql_inv Hrun. simpl in Hfree. destruct E6 as [Ep6 Ee6]. rewrite Ep6 in Hfree.
  set (row := Build_purchase_refund_row _ _ _ _ _ _ _ _) in Hm10. exists row. cbn [PR_ID]. split; [done|].
  set (X := <[rid:=row]> (purchase_refunds d)). set (Y := alter _ _ _).
  assert (E10 : purchase_refunds d10 = X /\ entitlements d10 = Y) by (refine (Hrev X Y _ _ _ _ _ _ _ _ _ _ _ Hm10 _); simpl; by rewrite Ep6).
  apply (post_blind _ (Hb X Y) _ _ _ _ _ _ _ _ _ _ Hm11) in E10.
  by destruct (emitEventTx_blind _ (Hb X Y) _ _ _ _ _ _ _ _ _ Hm12 E10) as [-> ->].
Qed.
End Shop.
