(* ===== verification/Payments.v ===== *)
(** * Recharge orders, confirmation, refunds and reconciliation
    (internal/commerce/orders.go, manual.go, channels.go, refunds.go,
    reconciliation.go, lifecycle.go [CloseOrder]; app.go [PaymentReceived])

    An order is credited at most once, whichever of the callback, the
    administrator or the reconciliation loop confirms it, and its refunds
    never exceed what was paid. *)

From S2P Require Import Prelude Tx GoStrings Calendar Money Rational PlanRules Schema Wallet Plans Quota Purchases.
From stdpp Require Import base gmap strings list.
From Stdlib Require Import Ascii String.
Local Open Scope string_scope.
Local Open Scope Z_scope.

(** ** Orders *)

Record Order := { O_ID : string; O_Channel : string; O_Amount : Z; O_Payable : Z; O_Fee : Z;
                  O_Status : string; O_URL : string; O_CreatedAt : Z }.

Definition scan_order (kr : string * order_row) : Order :=
  {| O_ID := kr.1; O_Channel := o_channel kr.2; O_Amount := o_amount kr.2; O_Payable := o_payable kr.2;
     O_Fee := 0; O_Status := o_status kr.2; O_URL := o_url kr.2; O_CreatedAt := o_created kr.2 |}.

(** [resolvePayable], without the display fields of the quote currency. *)
Definition resolvePayable (o : Order) : Order :=
  let payable := if O_Payable o <=? 0 then O_Amount o else O_Payable o in
  {| O_ID := O_ID o; O_Channel := O_Channel o; O_Amount := O_Amount o; O_Payable := payable;
     O_Fee := wrap64 (payable - O_Amount o); O_Status := O_Status o; O_URL := O_URL o; O_CreatedAt := O_CreatedAt o |}.

(** [Channel.Quote] *)
Definition Quote (feeBPS feeFixed amount : Z) : Z * Z :=
  let fee := wrap64 (Z.quot (wrap64 (amount * feeBPS)) 10000 + feeFixed) in
  let fee := if fee <? 0 then 0 else fee in
  (wrap64 (amount + fee), fee).

Definition reconciliationDelay : Z := 30 * second.
Definition reconciliationMaxDelay : Z := hour.

Definition scheduleReconciliation (order : string) : Tx DB unit :=
  now ← Now;
  INSERT Reconciliation order {| rk_attempts := 0; rk_next := UnixMilli (now + reconciliationDelay) |}.

Definition order_by_key (user key : string) : Tx DB (option (string * order_row)) :=
  SELECT_one Orders (fun _ o => String.eqb (o_user o) user && String.eqb (o_key o) key).

Definition new_order (user channel key url : string) (amount payable created : Z) : order_row :=
  {| o_user := user; o_channel := channel; o_amount := amount; o_payable := payable; o_status := "pending";
     o_url := url; o_created := created; o_key := key; o_tx := None |}.

(** [allowed] is the site's recharge gate ([PaymentAllowed]); [create] the
    gateway's URL for an order. *)
Definition CreateOrder (allowed : Z -> res unit) (create : string -> Z -> res string)
    (user channel key : string) (amount : Z) : Tx DB Order :=
  of_res (allowed amount) ;;
  if negb (String.eqb channel "epay") || (amount <=? 0) || (MaxAmountCents <? amount) || negb (in_length key 1 128)
  then fail (ErrMsg "invalid or unavailable channel/amount/key") else
  walletTx user ;;
  prior ← order_by_key user key;
  match prior with
  | Some kr =>
      if negb (String.eqb (o_channel kr.2) channel) || negb (o_amount kr.2 =? amount) then fail ErrConflict
      else mret (resolvePayable (scan_order kr))
  | None =>
      oid ← id;
      created ← Now;
      url ← of_res (create oid amount);
      let o := new_order user channel key url amount amount created in
      INSERT Orders oid o ;;
      scheduleReconciliation oid ;;
      mret (scan_order (oid, o))
  end.

(** The first transaction of [CreateAdapterOrder]: the order is durable
    before any gateway is called.  The flag says whether it is new. *)
Definition allocateOrder (feeBPS feeFixed : Z) (user channel key : string) (amount : Z) : Tx DB (Order * bool) :=
  if (amount <=? 0) || (MaxAmountCents <? amount) || negb (in_length key 1 128)
  then fail (ErrMsg "invalid or unavailable channel/amount/key") else
  let '(payable, fee) := Quote feeBPS feeFixed amount in
  walletTx user ;;
  prior ← order_by_key user key;
  match prior with
  | Some kr =>
      if negb (String.eqb (o_channel kr.2) channel) || negb (o_amount kr.2 =? amount) then fail ErrConflict
      else mret (resolvePayable (scan_order kr), false)
  | None =>
      oid ← id;
      created ← Now;
      let o := new_order user channel key "" amount payable created in
      INSERT Orders oid o ;;
      now ← Now;
      INSERT Attempts oid {| at_state := "creating"; at_provider := ""; at_updated := now |} ;;
      scheduleReconciliation oid ;;
      mret (resolvePayable (scan_order (oid, o)), true)
  end.

(** The second one, with what the gateway answered: its transaction and
    payment address, or nothing when the creation is uncertain. *)
Definition set_url (url : string) (o : order_row) : order_row :=
  {| o_user := o_user o; o_channel := o_channel o; o_amount := o_amount o; o_payable := o_payable o;
     o_status := o_status o; o_url := url; o_created := o_created o; o_key := o_key o; o_tx := o_tx o |}.
Definition recordAttempt (order : string) (created : option (string * string)) : Tx DB unit :=
  let state := match created with Some _ => "ready" | None => "uncertain" end in
  let provider := match created with Some (tx, _) => tx | None => "" end in
  now ← Now;
  UPDATE Attempts order (fun _ => true)
    (fun _ => {| at_state := state; at_provider := provider; at_updated := now |}) ;;
  match created with
  | Some (_, url) => UPDATE Orders order (fun _ => true) (set_url url) ;; mret tt
  | None => mret tt
  end.

(** [after] runs in the same transaction, for a new order only. *)
Definition CreateManualOrderAtomic (allowed : Z -> res unit) (after : Order -> Tx DB unit)
    (user channel key : string) (amount : Z) (address : string) : Tx DB Order :=
  if String.eqb user "" || negb (in_length channel 1 32) || negb (in_length key 1 128)
     || (amount <=? 0) || (MaxAmountCents <? amount) || String.eqb (TrimSpace address) ""
  then fail (ErrMsg "invalid manual payment") else
  of_res (allowed amount) ;;
  CheckAccount user ;;
  walletTx user ;;
  prior ← order_by_key user key;
  match prior with
  | Some kr =>
      if negb (String.eqb (o_channel kr.2) channel) || negb (o_amount kr.2 =? amount)
         || negb (String.eqb (o_url kr.2) address)
      then fail ErrConflict else mret (scan_order kr)
  | None =>
      oid ← id;
      created ← Now;
      let o := new_order user channel key address amount amount created in
      INSERT Orders oid o ;;
      now ← Now;
      INSERT Attempts oid {| at_state := "manual"; at_provider := ""; at_updated := now |} ;;
      after (scan_order (oid, o)) ;;
      mret (scan_order (oid, o))
  end.

(** ** Confirmation *)

Definition settled (status : string) : bool :=
  String.eqb status "paid" || String.eqb status "paid_late" || String.eqb status "refunded"
  || String.eqb status "partially_refunded".
Definition payable_status (status : string) : bool :=
  String.eqb status "pending" || String.eqb status "closed" || String.eqb status "expired".

Definition set_status (s : string) (o : order_row) : order_row :=
  {| o_user := o_user o; o_channel := o_channel o; o_amount := o_amount o; o_payable := o_payable o;
     o_status := s; o_url := o_url o; o_created := o_created o; o_key := o_key o; o_tx := o_tx o |}.
Definition set_paid (s tx : string) (o : order_row) : order_row :=
  {| o_user := o_user o; o_channel := o_channel o; o_amount := o_amount o; o_payable := o_payable o;
     o_status := s; o_url := o_url o; o_created := o_created o; o_key := o_key o; o_tx := Some tx |}.

(** Every enabled administrator hears of a payment. *)
Definition PaymentReceived (user order : string) (amount : Z) : Tx DB unit :=
  admins ← SELECT_where Users (fun _ u => String.eqb (u_role u) "admin" && negb (u_disabled u));
  for_each admins (fun kr => emitEventTx kr.1 "payment.received"
    [("user_id", user); ("order_id", order); ("amount_cents", FormatInt amount)]).

Definition ConfirmPaymentTx (channel order transaction : string) (amount : Z) : Tx DB unit :=
  if negb (in_length transaction 1 128) then fail (ErrMsg "invalid transaction") else
  row ← SELECT Orders order;
  o ← or_fail row ErrNoRows;
  let payable := if o_payable o <=? 0 then o_amount o else o_payable o in
  if negb (String.eqb (o_channel o) channel) || negb (payable =? amount) then fail (ErrMsg "payment mismatch") else
  if settled (o_status o)
  then guard_err (String.eqb (default "" (o_tx o)) transaction) ErrConflict else
  if negb (payable_status (o_status o)) then fail (ErrMsg "order is not payable") else
  existing ← SELECT_one Orders (fun _ x => String.eqb (o_channel x) channel && bool_decide (o_tx x = Some transaction));
  match existing with
  | Some _ => fail ErrConflict
  | None =>
      post (o_user o) (o_amount o) "recharge" ("payment:" ++ order) ;;
      let next := if String.eqb (o_status o) "pending" then "paid" else "paid_late" in
      n ← UPDATE Orders order (fun x => payable_status (o_status x)) (set_paid next transaction);
      guard_err (n =? 1) ErrConflict ;;
      DELETE Reconciliation order ;;
      PaymentReceived (o_user o) order (o_amount o)
  end.

Definition CloseOrder (user order : string) : Tx DB Order :=
  row ← SELECT Orders order;
  o ← or_fail row ErrNoRows;
  if negb (String.eqb user "") && negb (String.eqb (o_user o) user) then fail ErrNoRows else
  if String.eqb (o_status o) "pending" then
    UPDATE Orders order (fun x => String.eqb (o_status x) "pending") (set_status "closed") ;;
    mret (scan_order (order, set_status "closed" o))
  else mret (scan_order (order, o)).

(** ** Refunds to the provider *)

Definition resolve_refund (status evidence actor : string) (now : Z) (r : refund_row) : refund_row :=
  {| rf_order := rf_order r; rf_user := rf_user r; rf_amount := rf_amount r; rf_status := status;
     rf_reason := rf_reason r; rf_actor := rf_actor r; rf_key := rf_key r; rf_evidence := evidence;
     rf_resolved_by := actor; rf_created := rf_created r; rf_updated := now |}.

Definition RequestRefund (actor order key reason : string) (amount : Z) : Tx DB (string * refund_row) :=
  if String.eqb actor "" || negb (in_length key 1 128) || (amount <=? 0)
     || String.eqb (TrimSpace reason) "" || negb (in_length reason 0 500)
  then fail (ErrMsg "invalid refund request") else
  row ← SELECT Orders order;
  o ← or_fail row ErrNoRows;
  previous ← SELECT_one Refunds (fun _ r => String.eqb (rf_order r) order && String.eqb (rf_key r) key);
  match previous with
  | Some (rid, r) =>
      if negb (rf_amount r =? amount) || negb (String.eqb (rf_reason r) reason) then fail ErrConflict
      else mret (rid, r)
  | None =>
      if negb (String.eqb (o_status o) "paid") && negb (String.eqb (o_status o) "paid_late")
         && negb (String.eqb (o_status o) "partially_refunded")
      then fail (ErrMsg "order unavailable for refund") else
      rows ← SELECT_where Refunds (fun _ r => String.eqb (rf_order r) order && negb (String.eqb (rf_status r) "canceled"));
      let reserved := sum_over (fun kr => rf_amount kr.2) rows in
      if wrap64 (o_amount o - reserved) <? amount then fail (ErrMsg "refund exceeds unrefunded amount") else
      now ← Now;
      rid ← id;
      let r := {| rf_order := order; rf_user := o_user o; rf_amount := amount; rf_status := "pending_external";
                  rf_reason := reason; rf_actor := actor; rf_key := key; rf_evidence := "";
                  rf_resolved_by := ""; rf_created := now; rf_updated := now |} in
      INSERT Refunds rid r ;;
      post (o_user o) (wrap64 (- amount)) "refund_reserve" ("refund-reserve:" ++ rid) ;;
      mret (rid, r)
  end.

Definition ResolveRefund (actor rid evidence : string) (completed : bool) : Tx DB refund_row :=
  if String.eqb actor "" || String.eqb (TrimSpace evidence) "" || negb (in_length evidence 0 500)
  then fail (ErrMsg "resolution evidence required") else
  row ← SELECT Refunds rid;
  r ← or_fail row ErrNoRows;
  order ← SELECT Orders (rf_order r);
  o ← or_fail order ErrNoRows;
  let status := if completed then "completed" else "canceled" in
  if negb (String.eqb (rf_status r) "pending_external") then
    if String.eqb (rf_status r) status && String.eqb (rf_evidence r) evidence
    then mret r else fail ErrConflict
  else
  (if completed then mret tt else post (o_user o) (rf_amount r) "refund_release" ("refund-release:" ++ rid)) ;;
  now ← Now;
  UPDATE Refunds rid (fun _ => true) (resolve_refund status evidence actor now) ;;
  (if completed then
     rows ← SELECT_where Refunds (fun _ x => String.eqb (rf_order x) (rf_order r) && String.eqb (rf_status x) "completed");
     let total := sum_over (fun kr => rf_amount kr.2) rows in
     UPDATE Orders (rf_order r) (fun _ => true)
       (set_status (if total =? o_amount o then "refunded" else "partially_refunded")) ;;
     mret tt
   else mret tt) ;;
  emitEventTx (o_user o) ("refund." ++ status) [("refund_id", rid); ("order_id", rf_order r)] ;;
  mret (resolve_refund status evidence actor now r).

(** ** Reconciliation *)

(** The loop doubles at most until the ceiling; [Z.to_nat attempts] steps
    are more than it can take. *)
Fixpoint backoff_loop (fuel : nat) (attempts delay : Z) : Z :=
  match fuel with
  | O => delay
  | S fuel => if (1 <? attempts) && (delay <? reconciliationMaxDelay)
              then backoff_loop fuel (attempts - 1) (2 * delay) else delay
  end.
Definition reconciliationBackoff (attempts : Z) : Z :=
  let delay := backoff_loop 8 attempts reconciliationDelay in
  if reconciliationMaxDelay <? delay then reconciliationMaxDelay else delay.

(** The claim of one due order read with [attempts]. *)
Definition claimOrder (order : string) (attempts : Z) : Tx DB bool :=
  row ← SELECT Orders order;
  o ← or_fail row ErrNoRows;
  if negb (payable_status (o_status o)) then mret false else
  now ← Now;
  let next := if 2147483647 <=? attempts then 2147483647 else attempts + 1 in
  n ← UPDATE Reconciliation order (fun r => (rk_attempts r =? attempts) && (rk_next r <=? UnixMilli now))
        (fun _ => {| rk_attempts := next; rk_next := UnixMilli (now + reconciliationBackoff next) |});
  mret (n =? 1).

Definition repairOrders (missing : list string) : Tx DB unit :=
  for_each missing (fun order =>
    row ← SELECT Orders order;
    o ← or_fail row ErrNoRows;
    if negb (payable_status (o_status o)) then mret tt else
    INSERT_ignore Reconciliation order {| rk_attempts := 0; rk_next := 0 |}).

(** ** What the other operations see of orders: nothing

    [ext d0]: orders and refunds as in [d0], and no ledger line lost. *)
Definition ext (d0 d : DB) : Prop :=
  orders d = orders d0 /\ refunds d = refunds d0 /\ ledger d0 ⊆ ledger d.

Section Ext.
Context (d0 : DB).

Lemma ext_ledger k r d :
  ext d0 d -> ledger d !! k = None -> ext d0 (t_set Ledger (<[k:=r]>) d).
Proof.
  intros (H1 & H2 & H3) Hn. split; [done|]. split; [done|]. simpl.
  etransitivity; [exact H3|]. by apply insert_subseteq.
Qed.

Lemma spend_ext reference l left : keeps (ext d0) (spend reference l left).
Proof. revert left. induction l as [|[sid v] l IH]; intros left; simpl; keeps_walk; auto. Qed.
Lemma restore_ext reference l left : keeps (ext d0) (restore reference l left).
Proof. revert left. induction l as [|[sid v] l IH]; intros left; simpl; keeps_walk; auto. Qed.
Lemma emit_ext user kind data : keeps (ext d0) (emitEventTx user kind data).
Proof. by apply emitEventTx_keeps. Qed.
Lemma walletTx_ext user : keeps (ext d0) (walletTx user).
Proof. unfold walletTx. keeps_walk; auto. Qed.
Lemma post_ext user delta kind reference : keeps (ext d0) (post user delta kind reference).
Proof.
  pose proof spend_ext. pose proof restore_ext. pose proof emit_ext. pose proof walletTx_ext.
  unfold post, trackFunds, openFunds, creditFunds, debitFunds, restoreFunds.
  keeps_walk; auto using ext_ledger.
Qed.
End Ext.
#[export] Hint Resolve emit_ext walletTx_ext post_ext CheckAccount_keeps period_available_keeps climb_keeps : keeps.

(** ** The invariant of payments *)

Definition live (s : string) : bool := negb (String.eqb s "canceled").
Definition reserved_of (order : string) (m : gmap string refund_row) : Z :=
  map_sum (fun _ r => at_key (rf_order r) order (if live (rf_status r) then rf_amount r else 0)) m.
Definition completed_of (order : string) (m : gmap string refund_row) : Z :=
  map_sum (fun _ r => at_key (rf_order r) order (if String.eqb (rf_status r) "completed" then rf_amount r else 0)) m.

Record pay_on (os : gmap string order_row) (rs : gmap string refund_row) (L : gmap string ledger_row) : Prop := {
  py_amount k o : os !! k = Some o -> 0 < o_amount o <= MaxAmountCents;
  py_refund k r : rs !! k = Some r ->
    0 < rf_amount r /\ exists o, os !! rf_order r = Some o /\ settled (o_status o) = true;
  py_reserved k o : os !! k = Some o -> reserved_of k rs <= o_amount o;
  py_credited k o : os !! k = Some o -> settled (o_status o) = true ->
    exists tx lid l, o_tx o = Some tx /\ L !! lid = Some l /\ l_reference l = "payment:" ++ k /\
      l_user l = o_user o /\ l_amount l = o_amount o /\ l_kind l = "recharge";
  py_unsettled k o : os !! k = Some o -> settled (o_status o) = false -> o_tx o = None;
  py_receipt k o k' o' : os !! k = Some o -> os !! k' = Some o' -> o_channel o = o_channel o' ->
    is_Some (o_tx o) -> o_tx o = o_tx o' -> k = k'
}.
Definition pay_inv (d : DB) : Prop := pay_on (orders d) (refunds d) (ledger d).

Lemma pay_ext d0 d : pay_inv d0 -> ext d0 d -> pay_inv d.
Proof.
  intros [] (Ho & Hr & HL). unfold pay_inv. rewrite Ho, Hr. split; try done.
  intros k o Hk Hs. destruct (py_credited0 _ _ Hk Hs) as (tx & lid & l & H1 & H2 & H3).
  exists tx, lid, l. split; [done|]. split; [|done]. by eapply lookup_weaken.
Qed.

(** An operation that keeps [ext] keeps the invariant. *)
Lemma pay_keeps {A} (m : Tx DB A) : (forall d0, keeps (ext d0) m) -> keeps pay_inv m.
Proof.
  intros Hm env d t a d' t' Hrun Hi. eapply pay_ext; [exact Hi|]. eapply Hm; [exact Hrun|]. by repeat split.
Qed.

Lemma pay_empty : pay_inv empty_db.
Proof. split; simpl; intros *; by rewrite lookup_empty. Qed.

Section Orders.
Context {RS : RatSyntax}.
Definition money_inv (d : DB) : Prop := shop_inv d /\ pay_inv d.

Lemma money_post user delta kind reference :
  - MaxInt64 <= delta <= MaxInt64 -> keeps money_inv (post user delta kind reference).
Proof.
  intros Hd. apply hoare_and; [by apply shop_post|]. apply pay_keeps. intros d0. apply post_ext.
Qed.
Lemma money_walletTx user : keeps money_inv (walletTx user).
Proof. apply hoare_and; [by apply shop_walletTx|]. apply pay_keeps. intros d0. apply walletTx_ext. Qed.
Lemma money_emit user kind data : keeps money_inv (emitEventTx user kind data).
Proof. by apply emitEventTx_keeps. Qed.

Lemma settled_payable s : payable_status s = true -> settled s = false.
Proof.
  unfold payable_status, settled. intros H. bool_to_prop.
  destruct H as [H|H]; [apply orb_prop in H as [H|H]|]; apply String.eqb_eq in H; by subst.
Qed.

(** A new order owes nothing and has no refunds yet. *)
Lemma pay_new_order os rs L k o :
  pay_on os rs L -> os !! k = None -> 0 < o_amount o <= MaxAmountCents ->
  o_status o = "pending" -> o_tx o = None -> pay_on (<[k:=o]> os) rs L.
Proof.
  intros Hp Hn Ha Hs Ht.
  assert (Hz : reserved_of k rs = 0).
  { apply map_sum_all_zero. intros k' r Hr. apply at_key_ne. intros <-.
    destruct (py_refund _ _ _ Hp _ _ Hr) as (_ & ? & ? & _). congruence. }
  destruct Hp. split.
  - intros k' o' [[<- <-]|[_ H]]%lookup_insert_Some; eauto.
  - intros k' r Hr. destruct (py_refund0 _ _ Hr) as (Hpos & o' & Ho' & Hs'). split; [done|].
    exists o'. split; [|done]. rewrite lookup_insert_ne; [done|]. congruence.
  - intros k' o' [[<- <-]|[_ H]]%lookup_insert_Some; [lia|eauto].
  - intros k' o' [[<- <-]|[_ H]]%lookup_insert_Some; [by rewrite Hs|eauto].
  - intros k' o' [[<- <-]|[_ H]]%lookup_insert_Some; [done|eauto].
  - intros k1 o1 k2 o2 [[<- <-]|[_ H1]]%lookup_insert_Some [[<- <-]|[_ H2]]%lookup_insert_Some Hc [x Hx] He;
      [done|congruence|congruence|eauto].
Qed.

(** Changing the presentation of an order, not its money. *)
Lemma pay_set_order os rs L k o o' :
  pay_on os rs L -> os !! k = Some o -> o_user o' = o_user o -> o_amount o' = o_amount o ->
  o_channel o' = o_channel o -> o_tx o' = o_tx o -> settled (o_status o') = settled (o_status o) ->
  pay_on (<[k:=o']> os) rs L.
Proof.
  intros Hp Ho Hu Ha Hc Ht Hs. destruct Hp. split.
  - intros k' x [[<- <-]|[_ H]]%lookup_insert_Some; [rewrite Ha|]; eauto.
  - intros k' r Hr. destruct (py_refund0 _ _ Hr) as (Hpos & x & Hx & Hsx). split; [done|].
    destruct (decide (k = rf_order r)) as [->|Hne]; [|rewrite lookup_insert_ne by done; eauto].
    rewrite lookup_insert_eq. exists o'. split; [done|]. rewrite Hs. congruence.
  - intros k' x [[<- <-]|[_ H]]%lookup_insert_Some; [rewrite Ha|]; eauto.
  - intros k' x [[<- <-]|[_ H]]%lookup_insert_Some; [rewrite Hs, Ht, Hu, Ha|]; eauto.
  - intros k' x [[<- <-]|[_ H]]%lookup_insert_Some; [rewrite Hs, Ht|]; eauto.
  - intros k1 o1 k2 o2 [[<- <-]|[_ H1]]%lookup_insert_Some [[<- <-]|[_ H2]]%lookup_insert_Some;
      rewrite ?Hc, ?Ht; eauto.
Qed.

(** The confirmation of an unpaid order, once its line is written. *)
Lemma pay_confirm os rs L k o next tx lid l :
  pay_on os rs L -> os !! k = Some o -> settled (o_status o) = false -> settled next = true ->
  (forall k' o', os !! k' = Some o' -> o_channel o' = o_channel o -> o_tx o' <> Some tx) ->
  L !! lid = Some l -> l_reference l = "payment:" ++ k -> l_user l = o_user o -> l_amount l = o_amount o -> l_kind l = "recharge" ->
  pay_on (<[k:=set_paid next tx o]> os) rs L.
Proof.
  intros Hp Ho Hs Hn Hfree Hl H1 H2 H3 H4. destruct Hp. split.
  - intros k' x [[<- <-]|[_ H]]%lookup_insert_Some; simpl; eauto.
  - intros k' r Hr. destruct (py_refund0 _ _ Hr) as (Hpos & x & Hx & Hsx). split; [done|].
    destruct (decide (k = rf_order r)) as [->|Hne]; [|rewrite lookup_insert_ne by done; eauto].
    rewrite lookup_insert_eq. by exists (set_paid next tx o).
  - intros k' x [[<- <-]|[_ H]]%lookup_insert_Some; simpl; eauto.
  - intros k' x [[<- <-]|[_ H]]%lookup_insert_Some; simpl; [|eauto]. intros _. by exists tx, lid, l.
  - intros k' x [[<- <-]|[_ H]]%lookup_insert_Some; simpl; [by rewrite Hn|eauto].
  - intros k1 o1 k2 o2 [[<- <-]|[_ Hk1]]%lookup_insert_Some [[<- <-]|[_ Hk2]]%lookup_insert_Some; simpl; [done| | |eauto].
    + intros Hc _ He. exfalso. by apply (Hfree _ _ Hk2).
    + intros Hc _ He. exfalso. by apply (Hfree _ _ Hk1).
Qed.

Lemma reserved_insert order k r (m : gmap string refund_row) :
  reserved_of order (<[k:=r]> m) = reserved_of order m
    + at_key (rf_order r) order (if live (rf_status r) then rf_amount r else 0)
    - from_option (fun x => at_key (rf_order x) order (if live (rf_status x) then rf_amount x else 0)) 0 (m !! k).
Proof. apply (map_sum_insert (fun _ r => at_key (rf_order r) order (if live (rf_status r) then rf_amount r else 0))). Qed.

Lemma pay_new_refund os rs L k r o :
  pay_on os rs L -> rs !! k = None -> os !! rf_order r = Some o -> settled (o_status o) = true ->
  0 < rf_amount r -> reserved_of (rf_order r) rs + rf_amount r <= o_amount o ->
  pay_on os (<[k:=r]> rs) L.
Proof.
  intros Hp Hn Ho Hs Ha Hc. destruct Hp. split; try done.
  - intros k' x [[<- <-]|[_ H]]%lookup_insert_Some; eauto.
  - intros k' x Hx. rewrite reserved_insert, Hn. simpl.
    destruct (decide (rf_order r = k')) as [<-|Hne].
    + rewrite at_key_eq. rewrite Ho in Hx. injection Hx as <-. destruct (live _); lia.
    + rewrite at_key_ne by done. specialize (py_reserved0 _ _ Hx). lia.
Qed.

Lemma pay_resolve os rs L k r s evidence actor now :
  pay_on os rs L -> rs !! k = Some r -> live (rf_status r) = true ->
  pay_on os (<[k:=resolve_refund s evidence actor now r]> rs) L.
Proof.
  intros Hp Hr Hl. destruct Hp. split; try done.
  - intros k' x [[<- <-]|[_ H]]%lookup_insert_Some; simpl; eauto.
  - intros k' x Hx. rewrite reserved_insert, Hr. simpl. rewrite Hl.
    specialize (py_reserved0 _ _ Hx). destruct (py_refund0 _ _ Hr) as [Hpos _].
    unfold at_key. destruct (live s), (String.eqb _ _); lia.
Qed.
End Orders.

Ltac money_walk :=
  repeat (cbn beta; match goal with
  | |- hoare _ (mbind _ _) _ => eapply hoare_bind_inv; [|intros ?]
  | |- hoare _ (post _ _ _ _) _ => apply money_post
  | |- hoare _ (for_each _ _) _ => apply keeps_for_each; intros
  | |- hoare _ _ _ => solve [auto using money_walletTx, money_emit, CheckAccount_keeps with keeps]
  | |- hoare _ _ _ => hoare_sql
  | |- hoare _ (match ?x with _ => _ end) _ => destruct x eqn:?
  end).

Section OrderOps.
Context {RS : RatSyntax}.

Lemma scheduleReconciliation_money order : keeps money_inv (scheduleReconciliation order).
Proof. unfold scheduleReconciliation. money_walk; auto. Qed.
Hint Resolve scheduleReconciliation_money : keeps.

Lemma money_new_order d k user channel key url amount payable created :
  money_inv d -> orders d !! k = None -> (amount <=? 0) || (MaxAmountCents <? amount) = false ->
  money_inv (t_set Orders (<[k:=new_order user channel key url amount payable created]>) d).
Proof.
  intros [Hs Hp] Hn Hg. split; [exact Hs|]. bool_to_prop. by apply pay_new_order.
Qed.

Lemma CreateOrder_money allowed create user channel key amount :
  keeps money_inv (CreateOrder allowed create user channel key amount).
Proof.
  unfold CreateOrder, order_by_key. money_walk; auto. apply money_new_order; [done|done|].
  bool_to_prop. apply orb_false_intro; by apply Z.leb_gt + apply Z.ltb_ge.
Qed.

Lemma allocateOrder_money feeBPS feeFixed user channel key amount :
  keeps money_inv (allocateOrder feeBPS feeFixed user channel key amount).
Proof.
  unfold allocateOrder, order_by_key. money_walk; auto. apply money_new_order; [done|done|].
  bool_to_prop. apply orb_false_intro; by apply Z.leb_gt + apply Z.ltb_ge.
Qed.

Lemma recordAttempt_money order created : keeps money_inv (recordAttempt order created).
Proof.
  unfold recordAttempt. money_walk; auto. destruct H as [Hs Hp]. split; [exact Hs|].
  by eapply pay_set_order.
Qed.

Lemma CreateManualOrderAtomic_money allowed after user channel key amount address :
  (forall o, keeps money_inv (after o)) ->
  keeps money_inv (CreateManualOrderAtomic allowed after user channel key amount address).
Proof.
  intros Hafter. unfold CreateManualOrderAtomic, order_by_key. money_walk; auto. apply money_new_order; [done|done|].
  bool_to_prop. apply orb_false_intro; by apply Z.leb_gt + apply Z.ltb_ge.
Qed.

Lemma CloseOrder_money user order : keeps money_inv (CloseOrder user order).
Proof.
  unfold CloseOrder. money_walk; auto. destruct H as [Hs Hp]. split; [exact Hs|].
  eapply pay_set_order; [exact Hp|exact H0|done..|]. bool_to_prop. simpl. by rewrite H1.
Qed.

Lemma claimOrder_money order attempts : keeps money_inv (claimOrder order attempts).
Proof. unfold claimOrder. money_walk; auto. Qed.
Lemma repairOrders_money missing : keeps money_inv (repairOrders missing).
Proof. unfold repairOrders. money_walk; auto. Qed.

(** *** Confirmation *)

Lemma money_post_spec user delta kind reference d0 :
  - MaxInt64 <= delta <= MaxInt64 ->
  hoare (fun d => money_inv d /\ d = d0) (post user delta kind reference)
    (fun _ d => money_inv d /\ (orders d = orders d0 /\ refunds d = refunds d0) /\
      (forall u, Wallet d u = move (Wallet d0) user delta u) /\ posted user delta kind reference d0 d).
Proof.
  intros Hd env d t a d' t' Hrun [Hi ->]. pose proof Hi as [(Hw & _) _].
  destruct (post_ext d0 _ _ _ _ _ _ _ _ _ _ Hrun ltac:(by repeat split)) as (H1 & H2 & _).
  destruct (post_spec _ _ _ _ d0 Hd Hw _ _ _ _ _ _ Hrun eq_refl) as (_ & H3 & H4).
  split; [by eapply money_post|]. done.
Qed.

Lemma PaymentReceived_keeps (P : DB -> Prop) user order amount :
  (forall d f, P d -> P (t_set Events f d)) -> (forall d f, P d -> P (t_set Deliveries f d)) ->
  keeps P (PaymentReceived user order amount).
Proof.
  intros H1 H2. unfold PaymentReceived. eapply hoare_bind_inv; [by apply hoare_SELECT_where|intros admins].
  apply keeps_for_each. intros a _. by apply emitEventTx_keeps.
Qed.

Definition next_status (status : string) : string := if String.eqb status "pending" then "paid" else "paid_late".

(** What a successful confirmation has done: nothing when the order was
    paid by the same transaction before, else the credit of the order's
    amount, recorded once, and the order marked with its transaction. *)
Definition credited (order transaction : string) (o : order_row) (d0 d : DB) : Prop :=
  (forall u, Wallet d u = move (Wallet d0) (o_user o) (o_amount o) u) /\
  posted (o_user o) (o_amount o) "recharge" ("payment:" ++ order) d0 d /\
  orders d = <[order := set_paid (next_status (o_status o)) transaction o]> (orders d0) /\
  refunds d = refunds d0.
Definition confirmed (channel order transaction : string) (amount : Z) (d0 d : DB) : Prop :=
  exists o, orders d0 !! order = Some o /\ o_channel o = channel /\
    amount = (if o_payable o <=? 0 then o_amount o else o_payable o) /\
    ((settled (o_status o) = true /\ o_tx o = Some transaction /\ d = d0) \/
     (payable_status (o_status o) = true /\ credited order transaction o d0 d)).

Lemma ConfirmPayment_spec channel order transaction amount d0 :
  hoare (fun d => money_inv d /\ d = d0) (ConfirmPaymentTx channel order transaction amount)
    (fun _ d => money_inv d /\ confirmed channel order transaction amount d0 d).
Proof.
  unfold ConfirmPaymentTx. if_case; [apply hoare_fail|].
  eapply hoare_bind with (R := fun row d => (money_inv d /\ d = d0) /\ row = orders d0 !! order).
  { apply hoare_SELECT. by intros d [Hi ->]. }
  intros row. apply hoare_pure. intros Hrow.
  eapply hoare_bind with (R := fun o d => (money_inv d /\ d = d0) /\ orders d0 !! order = Some o).
  { apply hoare_or_fail. intros o -> d Hd. by rewrite <- Hrow. }
  intros o. apply hoare_pure. intros Ho. cbv zeta.
  destruct (negb _ || negb _) eqn:Em; [apply hoare_fail|].
  destruct (settled (o_status o)) eqn:Es.
  { apply hoare_guard. intros Hg d [Hi ->]. split; [done|]. bool_to_prop. exists o. split; [done|].
    split; [done|]. split; [done|]. left. split; [done|]. split; [|done].
    destruct Hi as [_ Hp]. destruct (py_credited _ _ _ Hp _ _ Ho Es) as (tx & _ & _ & Htx & _).
    rewrite Htx in Hg |- *. simpl in Hg. congruence. }
  destruct (negb (payable_status (o_status o))) eqn:Ep; [apply hoare_fail|].
  eapply hoare_bind with (R := fun ex d => (money_inv d /\ d = d0) /\
    (ex = None -> forall k' o', orders d0 !! k' = Some o' -> o_channel o' = channel -> o_tx o' <> Some transaction)).
  { apply hoare_SELECT_one. intros d [Hi ->]. split; [done|]. intros Hh k' o' Hk' Hc Ht.
    pose proof (head_rows_where_None Orders _ d0 k' o' Hh Hk') as Hf. simpl in Hf.
    rewrite (proj2 (String.eqb_eq _ _) Hc), (bool_decide_eq_true_2 _ Ht) in Hf. done. }
  intros [ex|]; [apply hoare_fail|]. apply hoare_pure. intros Hfree. specialize (Hfree eq_refl). bool_to_prop.
  subst channel amount. set (payable := if o_payable o <=? 0 then _ else _).
  intros env d t a d' t' Hrun [Hi ->].
  destruct Hi as [Hs Hp]. pose proof (py_amount _ _ _ Hp _ _ Ho) as Ham.
  apply tx_bind_Ok in Hrun as ([] & d1 & t1 & Hpost & Hrun).
  assert (Hb : - MaxInt64 <= o_amount o <= MaxInt64) by (unfold MaxAmountCents, MaxInt64 in *; lia).
  destruct (money_post_spec _ _ _ _ d0 Hb _ _ _ _ _ _ Hpost
    (conj (conj Hs Hp) eq_refl)) as ([Hs1 Hp1] & [Ho1 Hr1] & HW & Hposted).
  fold (next_status (o_status o)) in Hrun.
  apply tx_bind_Ok in Hrun as (n & d2 & t2 & Hup & Hrun). sql_inv Hup; [|by sql_inv Hrun].
  apply tx_bind_Ok in Hrun as ([] & d3 & t3 & Hg & Hrun). sql_inv Hg.
  apply tx_bind_Ok in Hrun as ([] & d4 & t4 & Hdel & Hrun). sql_inv Hdel.
  simpl in Hrow0. rewrite Ho1, Ho in Hrow0. injection Hrow0 as <-.
  set (d4 := t_set Reconciliation _ _) in Hrun.
  assert (Hd4 : money_inv d4 /\ credited order transaction o d0 d4).
  { split; [split; [exact Hs1|]|].
    - destruct Hposted as (lid & l & Hn & HL & H1 & H2 & _ & H4 & H3 & _).
      apply (pay_confirm (orders d1) (refunds d1) (ledger d1) order o _ transaction lid l); try done.
      + by rewrite Ho1.
      + unfold next_status. by destruct (String.eqb _ _).
      + by rewrite Ho1.
      + rewrite HL. apply lookup_insert_eq.
    - split; [exact HW|]. split; [exact Hposted|]. simpl. by rewrite Ho1. }
  destruct (PaymentReceived_keeps (fun d => money_inv d /\ credited order transaction o d0 d) _ _ _
    (fun _ _ H => H) (fun _ _ H => H) _ _ _ _ _ _ Hrun Hd4) as [Hi' Hc].
  split; [done|]. exists o. split; [done|]. split; [done|]. split; [done|]. right. done.
Qed.

Lemma ConfirmPayment_money channel order transaction amount :
  keeps money_inv (ConfirmPaymentTx channel order transaction amount).
Proof.
  intros env d t a d' t' Hrun Hi. by apply (ConfirmPayment_spec _ _ _ _ d _ _ _ _ _ _ Hrun).
Qed.

(** *** Refunds *)

Lemma reserved_sum order d :
  sum_over (fun kr => rf_amount kr.2)
    (rows_where Refunds (fun _ r => String.eqb (rf_order r) order && negb (String.eqb (rf_status r) "canceled")) d)
  = reserved_of order (refunds d).
Proof.
  unfold rows_where, reserved_of. rewrite sum_over_filter, map_sum_to_list. apply sum_over_ext.
  intros [k r] _. simpl. unfold at_key, live. by destruct (String.eqb (rf_order r) order).
Qed.

Lemma reserved_bounds order o d :
  money_inv d -> orders d !! order = Some o -> 0 <= reserved_of order (refunds d) <= MaxAmountCents.
Proof.
  intros [_ Hp] Ho. pose proof (py_amount _ _ _ Hp _ _ Ho). pose proof (py_reserved _ _ _ Hp _ _ Ho).
  split; [|lia]. apply map_sum_nonneg. intros k r Hr. unfold at_key.
  destruct (py_refund _ _ _ Hp _ _ Hr) as [Hpos _]. destruct (live (rf_status _)), (String.eqb _ _); lia.
Qed.

Lemma money_new_refund d k r o :
  money_inv d -> refunds d !! k = None -> orders d !! rf_order r = Some o -> settled (o_status o) = true ->
  0 < rf_amount r -> reserved_of (rf_order r) (refunds d) + rf_amount r <= o_amount o ->
  money_inv (t_set Refunds (<[k:=r]>) d).
Proof. intros [Hs Hp] Hn Ho Hset Ha Hc. split; [exact Hs|]. by eapply pay_new_refund. Qed.

Lemma RequestRefund_money actor order key reason amount :
  keeps money_inv (RequestRefund actor order key reason amount).
Proof.
  unfold RequestRefund. if_case; [apply hoare_fail|]. bool_to_prop.
  eapply hoare_bind with (R := fun row d => money_inv d /\ row = orders d !! order); [by apply hoare_SELECT|].
  intros row. eapply hoare_bind with (R := fun o d => money_inv d /\ orders d !! order = Some o).
  { apply hoare_or_fail. intros o -> d [Hi Ho]. done. }
  intros o. eapply hoare_bind_inv; [hoare_sql; done|]. intros [[rid r]|].
  { if_case; [apply hoare_fail|]. apply hoare_ret. by intros d []. }
  destruct (negb _ && negb _ && negb _) eqn:Es; [apply hoare_fail|].
  assert (Hset : settled (o_status o) = true).
  { unfold settled. destruct (String.eqb (o_status o) "paid"); [done|].
    destruct (String.eqb (o_status o) "paid_late"); [done|].
    destruct (String.eqb (o_status o) "partially_refunded"); [|done]. by rewrite orb_true_r. }
  eapply hoare_bind with (R := fun l d => (money_inv d /\ orders d !! order = Some o) /\
    sum_over (fun kr => rf_amount kr.2) l = reserved_of order (refunds d)).
  { apply hoare_SELECT_where. intros d Hd. split; [done|]. apply reserved_sum. }
  intros l. cbv zeta. destruct (wrap64 _ <? amount) eqn:Eg; [apply hoare_fail|].
  eapply hoare_bind_inv; [hoare_sql; done|intros now]. eapply hoare_bind_inv; [hoare_sql; done|intros rid].
  eapply hoare_bind with (R := fun _ d => money_inv d /\ 0 < amount <= MaxAmountCents).
  { apply hoare_INSERT. intros d [[Hi Ho] Hl] Hn _. simpl in Hn.
    pose proof (reserved_bounds _ _ _ Hi Ho) as Hb. pose proof Hi as [_ Hp]. pose proof (py_amount _ _ _ Hp _ _ Ho).
    rewrite Hl, wrap64_id in Eg by (unfold in_int64, MinInt64, MaxInt64, MaxAmountCents in *; lia). bool_to_prop.
    split; [|lia]. eapply money_new_refund; simpl; [done|done|exact Ho|done|lia|lia]. }
  intros ?. apply hoare_pure. intros Ham.
  rewrite wrap64_id by (unfold in_int64, MinInt64, MaxInt64, MaxAmountCents in *; lia).
  eapply hoare_bind_inv; [apply money_post; unfold MaxInt64, MaxAmountCents in *; lia|intros ?].
  by apply hoare_ret.
Qed.

Lemma ResolveRefund_money actor rid evidence completed :
  keeps money_inv (ResolveRefund actor rid evidence completed).
Proof.
  unfold ResolveRefund. if_case; [apply hoare_fail|].
  eapply hoare_bind with (R := fun row d => money_inv d /\ row = refunds d !! rid); [by apply hoare_SELECT|].
  intros row. eapply hoare_bind with (R := fun r d => money_inv d /\ refunds d !! rid = Some r).
  { apply hoare_or_fail. intros r -> d [Hi Hr]. done. }
  intros r. eapply hoare_bind with (R := fun row d => (money_inv d /\ refunds d !! rid = Some r) /\ row = orders d !! rf_order r);
    [by apply hoare_SELECT|]. intros orow.
  set (P := fun (o : order_row) d => money_inv d /\ refunds d !! rid = Some r /\ orders d !! rf_order r = Some o).
  eapply hoare_bind with (R := P).
  { apply hoare_or_fail. intros o -> d [[Hi Hr] Ho]. done. }
  intros o. cbv zeta. destruct (negb (String.eqb (rf_status r) _)) eqn:Est.
  { destruct (_ && _); [by apply hoare_ret; intros d []|apply hoare_fail]. }
  bool_to_prop. assert (Hlive : live (rf_status r) = true) by (by rewrite Est).
  eapply hoare_bind_inv.
  { destruct completed; [by apply hoare_ret|]. intros env d t a d' t' Hrun (Hi & Hr & Ho).
    pose proof Hi as [_ Hp]. pose proof (py_reserved _ _ _ Hp _ _ Ho) as Hres.
    pose proof (py_amount _ _ _ Hp _ _ Ho) as Ham. destruct (py_refund _ _ _ Hp _ _ Hr) as [Hpos _].
    assert (Hle : rf_amount r <= reserved_of (rf_order r) (refunds d)).
    { pose proof (map_sum_elem_le (fun _ x => at_key (rf_order x) (rf_order r) (if live (rf_status x) then rf_amount x else 0))
        (refunds d) rid r) as Hel. simpl in Hel. rewrite at_key_eq, Hlive in Hel. apply Hel; [|done].
      intros k x Hx. unfold at_key. destruct (py_refund _ _ _ Hp _ _ Hx) as [Hx0 _]. destruct (live (rf_status x)), (String.eqb (rf_order x) (rf_order r)); lia. }
    assert (Hb : - MaxInt64 <= rf_amount r <= MaxInt64) by (unfold MaxInt64, MaxAmountCents in *; lia).
    destruct (money_post_spec _ _ _ _ d Hb _ _ _ _ _ _ Hrun (conj Hi eq_refl)) as (Hi' & [Ho' Hr'] & _).
    split; [done|]. by rewrite Ho', Hr'. }
  intros ?. eapply hoare_bind_inv; [hoare_sql; done|intros now].
  set (Q := fun d => money_inv d /\ orders d !! rf_order r = Some o /\ settled (o_status o) = true).
  eapply hoare_bind with (R := fun _ => Q).
  { apply hoare_UPDATE.
    - intros d x (Hi & Hr & Ho) Hx _. simpl in Hx. rewrite Hr in Hx. injection Hx as <-. destruct Hi as [Hs Hp].
      destruct (py_refund _ _ _ Hp _ _ Hr) as (_ & o' & Ho' & Hset). rewrite Ho in Ho'. injection Ho' as <-.
      split; [|done]. split; [exact Hs|]. by apply pay_resolve.
    - intros d (Hi & Hr & Ho) Hno. simpl in Hno. specialize (Hno _ Hr). done. }
  intros ?. eapply hoare_bind with (R := fun _ => money_inv).
  { destruct completed; [|by apply hoare_ret; intros d []].
    eapply hoare_bind_inv; [hoare_sql; done|intros rows].
    eapply hoare_bind with (R := fun _ => money_inv); [|intros ?; by apply hoare_ret].
    apply hoare_UPDATE; [|by intros d []]. intros d x (Hi & Ho & Hset) Hx _. simpl in Hx. rewrite Ho in Hx. injection Hx as <-.
    destruct Hi as [Hs Hp]. split; [exact Hs|]. eapply pay_set_order; [exact Hp|exact Ho|done..|].
    rewrite Hset. simpl. by destruct (_ =? _). }
  intros ?. eapply hoare_bind_inv; [apply money_emit|intros ?]. by apply hoare_ret.
Qed.
End OrderOps.

(** ** Redelivery *)

Section Redelivery.
Context {RS : RatSyntax}.

(** A payment is credited once.  A confirmation that succeeded succeeds
    again when it is delivered again (callback retry, reconciliation), at
    any later clock, and changes nothing. *)
Lemma ConfirmPayment_replay channel order transaction amount env d t u d' t' env2 t2 :
  money_inv d -> ConfirmPaymentTx channel order transaction amount env d t = (Ok (u, d'), t') ->
  ConfirmPaymentTx channel order transaction amount env2 d' t2 = (Ok (tt, d'), t2).
Proof.
  intros Hi Hrun.
  destruct (ConfirmPayment_spec _ _ _ _ d _ _ _ _ _ _ Hrun (conj Hi eq_refl)) as [_ (o & Ho & Hc & Ha & Hcase)].
  assert (Hlen : negb (in_length transaction 1 128) = false).
  { unfold ConfirmPaymentTx in Hrun. by destruct (negb _). }
  assert (Hrow : exists o', orders d' !! order = Some o' /\ o_channel o' = channel /\ o_amount o' = o_amount o /\
    o_payable o' = o_payable o /\ settled (o_status o') = true /\ o_tx o' = Some transaction).
  { destruct Hcase as [(Hs & Ht & ->)|(Hp & _ & _ & -> & _)]; [by exists o|].
    rewrite lookup_insert_eq. eexists. split; [done|]. do 3 (split; [done|]). split; [|done].
    simpl. unfold next_status. by destruct (String.eqb _ _). }
  destruct Hrow as (o' & Ho' & Hc' & Ham & Hpay & Hs & Ht).
  unfold ConfirmPaymentTx. rewrite Hlen. unfold SELECT, mbind, tx_bind, gets. cbn [t_get Orders].
  rewrite Ho'. unfold or_fail, mret, tx_ret. rewrite Hc', String.eqb_refl, Ham, Hpay, <- Ha, Z.eqb_refl, Hs, Ht.
  simpl. by rewrite String.eqb_refl.
Qed.
End Redelivery.
