(* ===== verification/Commerce.v ===== *)
(** * The commerce service as a whole

    Every exported mutation of internal/commerce as one step on the
    database, run by [Store.Write]; the invariants of the components hold
    in every database the service can reach.  The platform's own tables
    (accounts, rules, nodes, webhook subscriptions) may change in any way
    between two steps. *)

From S2P Require Import Prelude Tx GoStrings Calendar Digest Money Rational PlanRules Schema Wallet Plans Quota Purchases Refunds Payments.
From stdpp Require Import base gmap strings list relations.
From Stdlib Require Import Ascii String.
Local Open Scope string_scope.
Local Open Scope Z_scope.

(** ** Orders do not see the other operations *)
Section ExtOps.
Context {RS : RatSyntax} (d0 : DB).

Lemma CreatePlan_ext p : keeps (ext d0) (CreatePlan p).
Proof. unfold CreatePlan, savePlanLimits. keeps_walk; auto. Qed.
Lemma UpdatePlan_ext p : keeps (ext d0) (UpdatePlan p).
Proof. unfold UpdatePlan, savePlanLimits. keeps_walk; auto. Qed.
Lemma SetPlanActive_ext plan active : keeps (ext d0) (SetPlanActive plan active).
Proof. unfold SetPlanActive. keeps_walk; auto. Qed.
Lemma recordCommission_ext invitee source price : keeps (ext d0) (recordCommission invitee source price).
Proof. unfold recordCommission. keeps_walk; auto. Qed.
Hint Resolve recordCommission_ext : keeps.
Lemma purchaseTx_ext user plan key expected version : keeps (ext d0) (purchaseTx user plan key expected version).
Proof. unfold purchaseTx, replayPurchase, snapshotLimits. keeps_walk; auto. Qed.
Hint Resolve purchaseTx_ext : keeps.
Lemma PurchaseQuote_ext user plan key expected version : keeps (ext d0) (PurchaseQuote user plan key expected version).
Proof. unfold PurchaseQuote. keeps_walk; auto. Qed.
Lemma PurchaseAddon_ext user plan key expected version : keeps (ext d0) (PurchaseAddon user plan key expected version).
Proof. unfold PurchaseAddon. keeps_walk; auto. Qed.
Lemma CreateRedeemCode_ext amount plan uses expires : keeps (ext d0) (CreateRedeemCode amount plan uses expires).
Proof. unfold CreateRedeemCode. keeps_walk; auto. Qed.
Lemma grantPlan_ext user plan : keeps (ext d0) (grantPlan user plan).
Proof. unfold grantPlan, snapshotLimits. keeps_walk; auto. Qed.
Hint Resolve grantPlan_ext : keeps.
Lemma RedeemCode_ext user plain : keeps (ext d0) (RedeemCode user plain).
Proof. unfold RedeemCode. keeps_walk; auto. Qed.
Lemma RevokeRedeemCode_ext code : keeps (ext d0) (RevokeRedeemCode code).
Proof. unfold RevokeRedeemCode. keeps_walk; auto. Qed.
Lemma CreateReferralCode_ext user : keeps (ext d0) (CreateReferralCode user).
Proof. unfold CreateReferralCode. keeps_walk; auto. Qed.
Lemma SetCommissionRate_ext bps : keeps (ext d0) (SetCommissionRate bps).
Proof. unfold SetCommissionRate. keeps_walk; auto. Qed.
Lemma BindReferral_ext user plain : keeps (ext d0) (BindReferral user plain).
Proof. unfold BindReferral. keeps_walk; auto. Qed.
Lemma SetAutoRenew_ext user plan enabled : keeps (ext d0) (SetAutoRenew user plan enabled).
Proof. unfold SetAutoRenew. keeps_walk; auto. Qed.
Lemma renewUser_ext user : keeps (ext d0) (renewUser user).
Proof.
  unfold renewUser, renew_update. keeps_walk; auto; apply keeps_savepoint; auto with keeps.
Qed.
Lemma AdjustUserBalance_ext actor user key reason delta : keeps (ext d0) (AdjustUserBalance actor user key reason delta).
Proof. unfold AdjustUserBalance. keeps_walk; auto. Qed.
Lemma SetUserRuleLimit_ext actor user maximum reason : keeps (ext d0) (SetUserRuleLimit actor user maximum reason).
Proof. by apply SetUserRuleLimit_keeps. Qed.
Lemma reversePurchaseCommission_ext actor purchase refunded price reason :
  keeps (ext d0) (reversePurchaseCommission actor purchase refunded price reason).
Proof. unfold reversePurchaseCommission, reversedCommission. keeps_walk; auto. Qed.
Hint Resolve reversePurchaseCommission_ext : keeps.
Lemma RefundPurchase_ext actor purchase key reason amount :
  keeps (ext d0) (RefundPurchase actor purchase key reason amount).
Proof. unfold RefundPurchase, purchaseSnapshot, refunds_of. keeps_walk; auto. Qed.
Lemma ResolveCommission_ext actor cid action reason : keeps (ext d0) (ResolveCommission actor cid action reason).
Proof. unfold ResolveCommission, reversedCommission. keeps_walk; auto. Qed.
Lemma Allocate_ext user rule node multiplier requested :
  keeps (ext d0) (AllocateBudgetWithMultiplier user rule node multiplier requested).
Proof. unfold AllocateBudgetWithMultiplier. keeps_walk; auto. Qed.
Lemma RetireLease_ext node lease used : keeps (ext d0) (RetireLease node lease used).
Proof. unfold RetireLease. keeps_walk; auto. Qed.
Lemma SettleUsageBatch_ext records : keeps (ext d0) (SettleUsageBatch records).
Proof. unfold SettleUsageBatch, bump_lease, bump_ent. keeps_walk; auto. Qed.
End ExtOps.

(** ** Plans and leases within the shop *)
Section ShopOps.
Context {RS : RatSyntax}.

Definition beside_quota (d : DB) : Prop :=
  wallet_inv d /\ catalog_inv d /\ bought_inv d /\ codes_inv d /\ commission_inv d.
Definition beside_catalog (d : DB) : Prop :=
  wallet_inv d /\ bought_inv d /\ codes_inv d /\ commission_inv d /\ quota_inv d.

Lemma shop_by_quota {A} (m : Tx DB A) : keeps beside_quota m -> keeps quota_inv m -> keeps shop_inv m.
Proof.
  intros H1 H2. eapply hoare_conseq; [exact (hoare_and _ _ _ _ _ H1 H2)| |];
    unfold shop_inv, beside_quota; tauto.
Qed.
Lemma shop_by_catalog {A} (m : Tx DB A) : keeps beside_catalog m -> keeps catalog_inv m -> keeps shop_inv m.
Proof.
  intros H1 H2. eapply hoare_conseq; [exact (hoare_and _ _ _ _ _ H1 H2)| |];
    unfold shop_inv, beside_catalog; tauto.
Qed.

Lemma Allocate_shop user rule node multiplier requested :
  keeps shop_inv (AllocateBudgetWithMultiplier user rule node multiplier requested).
Proof.
  apply shop_by_quota; [|apply Allocate_keeps]. unfold AllocateBudgetWithMultiplier. keeps_walk; auto.
Qed.
Lemma RetireLease_shop node lease used : keeps shop_inv (RetireLease node lease used).
Proof. apply shop_by_quota; [|apply RetireLease_keeps]. unfold RetireLease. keeps_walk; auto. Qed.
Lemma Settle_shop records : keeps shop_inv (SettleUsageBatch records).
Proof.
  apply shop_by_quota; [|apply Settle_keeps]. unfold SettleUsageBatch, bump_lease, bump_ent. keeps_walk; auto.
Qed.
Lemma CreatePlan_shop p : P_Quota p <= MaxInt64 -> keeps shop_inv (CreatePlan p).
Proof.
  intros Hq. apply shop_by_catalog; [|by apply CreatePlan_keeps]. unfold CreatePlan, savePlanLimits. keeps_walk; auto.
Qed.
Lemma UpdatePlan_shop p : P_Quota p <= MaxInt64 -> keeps shop_inv (UpdatePlan p).
Proof.
  intros Hq. apply shop_by_catalog; [|by apply UpdatePlan_keeps]. unfold UpdatePlan, savePlanLimits. keeps_walk; auto.
Qed.
Lemma SetPlanActive_shop plan active : keeps shop_inv (SetPlanActive plan active).
Proof. apply shop_by_catalog; [|apply SetPlanActive_keeps]. unfold SetPlanActive. keeps_walk; auto. Qed.
End ShopOps.

(** ** Referrals form a forest

    [invites m a b]: [a] was invited by [b]. *)
Definition invites (m : gmap string binding_row) (a b : string) : Prop :=
  exists row, m !! a = Some row /\ b_inviter row = b.
Record referral_on (m : gmap string binding_row) : Prop := {
  rf_anonymous : m !! "" = None;
  rf_acyclic user : ~ tc (invites m) user user
}.
Definition referral_inv (d : DB) : Prop := referral_on (referral_bindings d).

Lemma climb_Ok fuel : forall user current env d t u d' t',
  referral_bindings d !! "" = None -> user <> "" ->
  climb fuel user current env d t = (Ok (u, d'), t') ->
  d' = d /\ ~ rtc (invites (referral_bindings d)) current user.
Proof.
  induction fuel as [|fuel IH]; intros user current env d t u d' t' Hanon Hu Hrun; simpl in Hrun.
  - destruct (String.eqb current "") eqn:E0; [|by destruct (String.eqb current user)].
    sql_inv Hrun. split; [done|]. bool_to_prop. subst current.
    intros Hr. apply rtc_inv in Hr as [<-|(y & (row & Hrow & _) & _)]; congruence.
  - destruct (String.eqb current "") eqn:E0.
    { sql_inv Hrun. split; [done|]. bool_to_prop. subst current.
      intros Hr. apply rtc_inv in Hr as [<-|(y & (row & Hrow & _) & _)]; congruence. }
    destruct (String.eqb current user) eqn:E1; [done|]. bool_to_prop.
    apply tx_bind_Ok in Hrun as (parent & d1 & t1 & Hsel & Hrun). sql_inv Hsel. simpl in Hrun.
    destruct (referral_bindings d !! current) as [b|] eqn:Hb.
    + destruct (IH _ _ _ _ _ _ _ _ Hanon Hu Hrun) as [-> Hn]. split; [done|].
      intros Hr. apply rtc_inv in Hr as [->|(y & (row & Hrow & Hy) & Hr)]; [done|].
      rewrite Hb in Hrow. injection Hrow as <-. by subst y.
    + sql_inv Hrun. split; [done|].
      intros Hr. apply rtc_inv in Hr as [->|(y & (row & Hrow & _) & _)]; congruence.
Qed.

(** A new invitation from someone who does not descend from the invitee
    closes no cycle. *)
Lemma referral_bind m user row :
  referral_on m -> user <> "" -> m !! user = None -> ~ rtc (invites m) (b_inviter row) user ->
  referral_on (<[user:=row]> m).
Proof.
  intros [Hanon Hac] Hu Hn Hup. split; [by rewrite lookup_insert_ne|].
  set (m' := <[user:=row]> m).
  assert (Hold : forall a b, invites m' a b -> (a = user /\ b = b_inviter row) \/ invites m a b).
  { intros a b (r & [[<- <-]|[_ Hr]]%lookup_insert_Some & <-); [by left|right; by exists r]. }
  assert (Hreach : forall y, rtc (invites m') (b_inviter row) y -> rtc (invites m) (b_inviter row) y).
  { apply rtc_ind_r; [done|]. intros y z Hy Hz IH.
    destruct (Hold _ _ Hz) as [[-> ->]|Hz']; [by exfalso|]. by eapply rtc_r. }
  assert (Hsplit : forall x y, tc (invites m') x y ->
    tc (invites m) x y \/ (rtc (invites m') x user /\ rtc (invites m') (b_inviter row) y)).
  { intros x y Hxy. induction Hxy as [x y Hxy|x y z Hxy Hyz IH].
    - destruct (Hold _ _ Hxy) as [[-> ->]|H]; [right; split; constructor|left; by constructor].
    - destruct (Hold _ _ Hxy) as [[-> ->]|H]; [right; split; [constructor|by apply tc_rtc]|].
      destruct IH as [IH|[H1 H2]]; [left; by econstructor|right; split; [by econstructor|done]]. }
  intros x Hx. destruct (Hsplit _ _ Hx) as [H|[H1 H2]]; [by apply (Hac x)|].
  apply Hup, Hreach. by etransitivity.
Qed.

Lemma BindReferral_forest user plain : user <> "" -> keeps referral_inv (BindReferral user plain).
Proof.
  intros Hu. unfold BindReferral.
  eapply hoare_bind_inv; [apply hoare_INSERT_ignore; auto|intros ?]. do 2 read_bind.
  eapply hoare_bind_inv; [by apply hoare_SELECT|intros code].
  eapply hoare_bind_inv; [by apply hoare_or_fail|intros c].
  eapply hoare_bind with (R := fun _ d => referral_inv d /\ ~ rtc (invites (referral_bindings d)) (rr_owner c) user).
  { intros env d t u d' t' Hrun Hi. destruct (climb_Ok _ _ _ _ _ _ _ _ _ (rf_anonymous _ Hi) Hu Hrun) as [-> Hn]. done. }
  intros ?. eapply hoare_bind_inv; [apply walletTx_blind; by split|intros ?].
  eapply hoare_bind_inv; [by apply hoare_SELECT_where|intros bought].
  destruct (negb _); [apply hoare_fail|]. eapply hoare_bind_inv; [by apply hoare_now|intros now].
  apply hoare_INSERT. intros d [Hi Hup] Hn _. by apply referral_bind.
Qed.

(** ** The service as a transition system

    One constructor per exported mutation; what a payment gateway, the
    site's recharge gate or a callback of the platform contributes is an
    argument. *)
Inductive op :=
  | OpCreatePlan (p : Plan)
  | OpUpdatePlan (p : Plan)
  | OpSetPlanActive (plan : string) (active : bool)
  | OpSetUserRuleLimit (actor user : string) (maximum : option Z) (reason : string)
  | OpPurchase (user plan key : string) (expected version : Z)
  | OpPurchaseAddon (user plan key : string) (expected version : Z)
  | OpCreateRedeemCode (amount : Z) (plan : string) (uses : Z) (expires : option Z)
  | OpRedeemCode (user plain : string)
  | OpRevokeRedeemCode (code : string)
  | OpCreateReferralCode (user : string)
  | OpSetCommissionRate (bps : Z)
  | OpBindReferral (user plain : string)
  | OpSetAutoRenew (user plan : string) (enabled : bool)
  | OpRenew (user : string)
  | OpAdjustUserBalance (actor user key reason : string) (delta : Z)
  | OpRefundPurchase (actor purchase key reason : string) (amount : Z)
  | OpResolveCommission (actor cid action reason : string)
  | OpAllocate (user rule node multiplier : string) (requested : Z)
  | OpRetireLease (node lease : string) (used : Z)
  | OpSettleUsage (records : list UsageRecord)
  | OpCreateOrder (allowed : Z -> res unit) (create : string -> Z -> res string) (user channel key : string) (amount : Z)
  | OpAllocateOrder (feeBPS feeFixed : Z) (user channel key : string) (amount : Z)
  | OpRecordAttempt (order : string) (created : option (string * string))
  | OpCreateManualOrder (allowed : Z -> res unit) (after : Order -> Tx DB unit)
      (user channel key : string) (amount : Z) (address : string)
  | OpConfirmPayment (channel order transaction : string) (amount : Z)
  | OpCloseOrder (user order : string)
  | OpRequestRefund (actor order key reason : string) (amount : Z)
  | OpResolveRefund (actor rid evidence : string) (completed : bool)
  | OpClaimOrder (order : string) (attempts : Z)
  | OpRepairOrders (missing : list string).

Definition forget {A} (m : Tx DB A) : Tx DB unit := m ;; mret tt.

Lemma keeps_forget {A} (P : DB -> Prop) (m : Tx DB A) : keeps P m -> keeps P (forget m).
Proof. intros H. eapply hoare_bind_inv; [exact H|]. intros ?. by apply hoare_ret. Qed.

Ltac no_rows := simpl; intros *; rewrite ?lookup_empty; try done; try (intros [? ?]; done).

Section System.
Context {RS : RatSyntax}.

Definition exec (o : op) : Tx DB unit :=
  match o with
  | OpCreatePlan p => forget (CreatePlan p)
  | OpUpdatePlan p => forget (UpdatePlan p)
  | OpSetPlanActive plan active => SetPlanActive plan active
  | OpSetUserRuleLimit actor user maximum reason => SetUserRuleLimit actor user maximum reason
  | OpPurchase user plan key expected version => forget (PurchaseQuote user plan key expected version)
  | OpPurchaseAddon user plan key expected version => forget (PurchaseAddon user plan key expected version)
  | OpCreateRedeemCode amount plan uses expires => forget (CreateRedeemCode amount plan uses expires)
  | OpRedeemCode user plain => forget (RedeemCode user plain)
  | OpRevokeRedeemCode code => RevokeRedeemCode code
  | OpCreateReferralCode user => forget (CreateReferralCode user)
  | OpSetCommissionRate bps => SetCommissionRate bps
  | OpBindReferral user plain => BindReferral user plain
  | OpSetAutoRenew user plan enabled => SetAutoRenew user plan enabled
  | OpRenew user => forget (renewUser user)
  | OpAdjustUserBalance actor user key reason delta => AdjustUserBalance actor user key reason delta
  | OpRefundPurchase actor purchase key reason amount => forget (RefundPurchase actor purchase key reason amount)
  | OpResolveCommission actor cid action reason => ResolveCommission actor cid action reason
  | OpAllocate user rule node multiplier requested =>
      forget (AllocateBudgetWithMultiplier user rule node multiplier requested)
  | OpRetireLease node lease used => RetireLease node lease used
  | OpSettleUsage records => SettleUsageBatch records
  | OpCreateOrder allowed create user channel key amount => forget (CreateOrder allowed create user channel key amount)
  | OpAllocateOrder feeBPS feeFixed user channel key amount =>
      forget (allocateOrder feeBPS feeFixed user channel key amount)
  | OpRecordAttempt order created => recordAttempt order created
  | OpCreateManualOrder allowed after user channel key amount address =>
      forget (CreateManualOrderAtomic allowed after user channel key amount address)
  | OpConfirmPayment channel order transaction amount => ConfirmPaymentTx channel order transaction amount
  | OpCloseOrder user order => forget (CloseOrder user order)
  | OpRequestRefund actor order key reason amount => forget (RequestRefund actor order key reason amount)
  | OpResolveRefund actor rid evidence completed => forget (ResolveRefund actor rid evidence completed)
  | OpClaimOrder order attempts => forget (claimOrder order attempts)
  | OpRepairOrders missing => repairOrders missing
  end.

Definition service_inv (d : DB) : Prop := money_inv d /\ referral_inv d.

(** What the callers guarantee: a quota is a Go [int64], the user who binds
    a referral is signed in, and the callback of a manual order (the
    platform records its own rows) does not touch commerce's tables. *)
Definition op_ok (o : op) : Prop :=
  match o with
  | OpCreatePlan p | OpUpdatePlan p => P_Quota p <= MaxInt64
  | OpBindReferral user _ => user <> ""
  | OpCreateManualOrder _ after _ _ _ _ _ => forall P order, keeps P (after order)
  | _ => True
  end.

Lemma money_from {A} (m : Tx DB A) : keeps shop_inv m -> (forall d0, keeps (ext d0) m) -> keeps money_inv m.
Proof. intros Hs He. apply hoare_and; [exact Hs|by apply pay_keeps]. Qed.

Lemma exec_money o : op_ok o -> keeps money_inv (exec o).
Proof.
  destruct o; simpl; intros Hok; try apply keeps_forget;
    first [apply CreateOrder_money|apply allocateOrder_money|apply recordAttempt_money
          |apply CreateManualOrderAtomic_money|apply ConfirmPayment_money|apply CloseOrder_money
          |apply RequestRefund_money|apply ResolveRefund_money|apply claimOrder_money|apply repairOrders_money
          |apply money_from; [|intros d0]];
    auto using CreatePlan_shop, UpdatePlan_shop, SetPlanActive_shop, SetUserRuleLimit_shop, PurchaseQuote_shop,
      PurchaseAddon_shop, CreateRedeemCode_shop, RedeemCode_shop, RevokeRedeemCode_shop, CreateReferralCode_shop,
      SetCommissionRate_shop, BindReferral_shop, SetAutoRenew_shop, renewUser_shop, AdjustUserBalance_shop,
      RefundPurchase_shop, ResolveCommission_shop, Allocate_shop, RetireLease_shop, Settle_shop,
      CreatePlan_ext, UpdatePlan_ext, SetPlanActive_ext, SetUserRuleLimit_ext, PurchaseQuote_ext,
      PurchaseAddon_ext, CreateRedeemCode_ext, RedeemCode_ext, RevokeRedeemCode_ext, CreateReferralCode_ext,
      SetCommissionRate_ext, BindReferral_ext, SetAutoRenew_ext, renewUser_ext, AdjustUserBalance_ext,
      RefundPurchase_ext, ResolveCommission_ext, Allocate_ext, RetireLease_ext, SettleUsageBatch_ext.
Qed.

(** Only [BindReferral] writes the referral bindings. *)
Lemma referral_blind : blind referral_inv.
Proof. by split. Qed.
Hint Resolve referral_blind : blind.
Hint Resolve walletTx_blind post_blind emitEventTx_blind : keeps.
Lemma purchaseTx_referral user plan key expected version :
  keeps referral_inv (purchaseTx user plan key expected version).
Proof. unfold purchaseTx, replayPurchase, snapshotLimits, recordCommission. keeps_walk; auto. Qed.
Hint Resolve purchaseTx_referral : keeps.
Lemma grantPlan_referral user plan : keeps referral_inv (grantPlan user plan).
Proof. unfold grantPlan, snapshotLimits. keeps_walk; auto. Qed.
Lemma renewUser_referral user : keeps referral_inv (renewUser user).
Proof. unfold renewUser, renew_update. keeps_walk; auto; apply keeps_savepoint; auto using CheckAccount_keeps, purchaseTx_referral. Qed.
Hint Resolve grantPlan_referral renewUser_referral : keeps.

Lemma exec_referral o : op_ok o -> keeps referral_inv (exec o).
Proof.
  destruct o; simpl; intros Hok; try apply keeps_forget;
    first [by apply BindReferral_forest|by apply SetUserRuleLimit_keeps|idtac];
    unfold CreatePlan, UpdatePlan, savePlanLimits, SetPlanActive, PurchaseQuote, PurchaseAddon, CreateRedeemCode,
      RedeemCode, RevokeRedeemCode, CreateReferralCode, SetCommissionRate, SetAutoRenew, AdjustUserBalance,
      RefundPurchase, purchaseSnapshot, refunds_of, reversePurchaseCommission, ResolveCommission, reversedCommission,
      AllocateBudgetWithMultiplier, RetireLease, SettleUsageBatch, bump_lease, bump_ent, CreateOrder, allocateOrder,
      CreateManualOrderAtomic, order_by_key, scheduleReconciliation, recordAttempt, ConfirmPaymentTx, PaymentReceived,
      CloseOrder, RequestRefund, ResolveRefund, claimOrder, repairOrders;
    keeps_walk; auto.
Qed.

(** *** Reachable databases

    A step is one mutation in its transaction, or any change of the
    tables other parts of the panel own. *)
Definition platform (users : gmap string user_row) (rules : gmap string rule_row) (nodes : gmap string Z)
    (hooks : gmap string webhook_row) (deliv : gmap (string * string) delivery_row) (d : DB) : DB :=
  t_set Users (fun _ => users) (t_set Rules (fun _ => rules) (t_set Nodes (fun _ => nodes)
    (t_set Webhooks (fun _ => hooks) (t_set Deliveries (fun _ => deliv) d)))).

Inductive step : DB -> DB -> Prop :=
  | step_op o env d : op_ok o -> step d (Write (exec o) env d).2
  | step_platform users rules nodes hooks deliv d : step d (platform users rules nodes hooks deliv d).

Definition reachable (d : DB) : Prop := rtc step empty_db d.

Lemma wallet_empty : wallet_inv empty_db.
Proof. split; [..|split]; no_rows. Qed.
Lemma quota_empty : quota_inv empty_db.
Proof. split; no_rows. Qed.
Lemma bought_empty : bought_inv empty_db.
Proof. split; no_rows. Qed.
Lemma codes_empty : codes_inv empty_db.
Proof. intros k r. no_rows. Qed.
Lemma commission_empty : commission_inv empty_db.
Proof. split; no_rows. Qed.
Lemma invites_empty a b : ~ invites ∅ a b.
Proof. intros (row & Hr & _). by rewrite lookup_empty in Hr. Qed.
Lemma referral_empty : referral_inv empty_db.
Proof. split; [done|]. intros user Hc. inversion Hc; by eapply invites_empty. Qed.

Lemma service_empty : service_inv empty_db.
Proof.
  refine (conj (conj _ pay_empty) referral_empty).
  exact (conj wallet_empty (conj catalog_inv_empty (conj bought_empty (conj codes_empty (conj commission_empty quota_empty))))).
Qed.

Lemma step_inv d d' : step d d' -> service_inv d -> service_inv d'.
Proof.
  intros Hs [Hm Hr]. destruct Hs as [o env d Hok|users rules nodes hooks deliv d].
  - split; eapply keeps_Write; eauto using exec_money, exec_referral.
  - split; [|exact Hr]. exact Hm.
Qed.

Lemma reachable_inv d : reachable d -> service_inv d.
Proof.
  unfold reachable. revert d. apply rtc_ind_r; [apply service_empty|]. intros d d' _ Hs IH. by eapply step_inv.
Qed.

(** What every successful operation and the platform keep holds in every
    reachable database. *)
Lemma reachable_keeps (P : DB -> Prop) :
  P empty_db -> (forall o env d t a d' t', op_ok o -> exec o env d t = (Ok (a, d'), t') -> money_inv d -> P d -> P d') ->
  (forall users rules nodes hooks deliv d, P d -> P (platform users rules nodes hooks deliv d)) -> forall d, reachable d -> P d.
Proof.
  intros H0 Hop Hpl d Hd. enough (service_inv d /\ P d) as [_ ?] by done. revert d Hd. unfold reachable. apply rtc_ind_r.
  - split; [apply service_empty|done].
  - intros d d' _ Hs [Hi HP]. split; [by eapply step_inv|]. destruct Hs as [o env d Hok|]; [|by apply Hpl].
    unfold Write. destruct (exec o env d 0%nat) as [[[a d']|e] t] eqn:Hrun; [|done]. destruct Hi as [Hm _]. by eapply Hop.
Qed.

(** *** Recharges

    A ledger line of kind "recharge" is the credit of a settled order. *)
Definition recharges_on (os : gmap string order_row) (L : gmap string ledger_row) : Prop :=
  forall lid l, L !! lid = Some l -> l_kind l = "recharge" ->
    exists k o, l_reference l = "payment:" ++ k /\ os !! k = Some o /\ settled (o_status o) = true.
Definition recharges (d : DB) : Prop := recharges_on (orders d) (ledger d).

Lemma recharges_line d lid row : l_kind row <> "recharge" -> recharges d -> recharges (t_set Ledger (<[lid:=row]>) d).
Proof. intros Hk Hd i l. cbn. intros [[<- <-]|[_ Hl]]%lookup_insert_Some; [done|]. exact (Hd _ _ Hl). Qed.
Lemma recharges_order d k o : recharges d -> (forall o0, orders d !! k = Some o0 -> settled (o_status o0) = true -> settled (o_status o) = true) ->
  recharges (t_set Orders (<[k:=o]>) d).
Proof.
  intros Hd Hs i l Hl Hk. destruct (Hd i l Hl Hk) as (k' & o' & Hr & Ho & Hset). cbn. destruct (decide (k = k')) as [<-|Hne].
  - exists k, o. rewrite lookup_insert_eq. eauto.
  - exists k', o'. by rewrite lookup_insert_ne.
Qed.
Lemma spend_recharges reference l left : keeps recharges (spend reference l left).
Proof. revert left. induction l as [|[sid v] l IH]; intros left; simpl; keeps_walk; auto. Qed.
Lemma restore_recharges reference l left : keeps recharges (restore reference l left).
Proof. revert left. induction l as [|[sid v] l IH]; intros left; simpl; keeps_walk; auto. Qed.
Lemma emit_recharges user kind data : keeps recharges (emitEventTx user kind data).
Proof. by apply emitEventTx_keeps. Qed.
Lemma walletTx_recharges user : keeps recharges (walletTx user).
Proof. unfold walletTx. keeps_walk; auto. Qed.
Hint Resolve spend_recharges restore_recharges emit_recharges walletTx_recharges : keeps.
Lemma post_recharges user delta kind reference : kind <> "recharge" -> keeps recharges (post user delta kind reference).
Proof.
  intros Hk. unfold post, trackFunds, openFunds, creditFunds, debitFunds, restoreFunds.
  keeps_walk; auto using recharges_line.
Qed.
Hint Extern 1 (hoare recharges (post _ _ _ _) _) => (apply post_recharges; discriminate) : keeps.
Lemma purchaseTx_recharges user plan key expected version : keeps recharges (purchaseTx user plan key expected version).
Proof. unfold purchaseTx, replayPurchase, snapshotLimits, recordCommission. keeps_walk; auto. Qed.
Hint Resolve purchaseTx_recharges : keeps.
Lemma grantPlan_recharges user plan : keeps recharges (grantPlan user plan).
Proof. unfold grantPlan, snapshotLimits. keeps_walk; auto. Qed.
Lemma renewUser_recharges user : keeps recharges (renewUser user).
Proof. unfold renewUser, renew_update. keeps_walk; auto; apply keeps_savepoint; auto using CheckAccount_keeps, purchaseTx_recharges. Qed.
Hint Resolve grantPlan_recharges renewUser_recharges : keeps.

(** The credit of a confirmation and the order it settles. *)
Lemma ConfirmPayment_recharges channel order transaction amount d0 :
  money_inv d0 -> recharges d0 ->
  hoare (fun d => d = d0) (ConfirmPaymentTx channel order transaction amount) (fun _ d => recharges d).
Proof.
  intros Hm Hr env d t a d' t' Hrun ->.
  destruct (ConfirmPayment_spec _ _ _ _ d0 _ _ _ _ _ _ Hrun (conj Hm eq_refl)) as (_ & o & Ho & _ & _ & [(_ & _ & ->)|(_ & _ & Hp & Hos & _)]); [done|].
  destruct Hp as (lid & row & _ & HL & _ & _ & _ & _ & Href & _). intros i l. rewrite HL, Hos.
  intros [[<- <-]|[_ Hl]]%lookup_insert_Some Hk.
  - exists order. eexists. rewrite lookup_insert_eq. split; [done|]. split; [done|]. cbn. unfold next_status. by destruct (String.eqb _ _).
  - refine (recharges_order d0 order (set_paid (next_status (o_status o)) transaction o) Hr _ i l Hl Hk).
    intros o0 _ _. cbn. unfold next_status. by destruct (String.eqb _ _).
Qed.
Lemma ResolveRefund_recharges actor rid evidence completed : keeps recharges (ResolveRefund actor rid evidence completed).
Proof.
  unfold ResolveRefund. keeps_walk; auto. apply recharges_order; [done|]. intros _ _ _. cbn.
  by destruct (_ =? _).
Qed.
Hint Resolve ResolveRefund_recharges : keeps.
Lemma exec_recharges o env d t a d' t' : op_ok o -> exec o env d t = (Ok (a, d'), t') -> money_inv d -> recharges d -> recharges d'.
Proof.
  intros Hok Hrun Hm. assert ((exists c k tx n, o = OpConfirmPayment c k tx n) \/ forall c k tx n, o <> OpConfirmPayment c k tx n) as [(c & k & tx & n & ->)|Hno] by (destruct o; naive_solver).
  { intros Hr. by eapply ConfirmPayment_recharges. }
  clear Hm. revert env d t a d' t' Hrun. change (keeps recharges (exec o)).
  destruct o; simpl in *; try apply keeps_forget; try (by destruct (Hno channel order transaction amount));
    first [by apply SetUserRuleLimit_keeps|idtac];
    unfold CreatePlan, UpdatePlan, savePlanLimits, SetPlanActive, PurchaseQuote, PurchaseAddon, CreateRedeemCode,
      RedeemCode, RevokeRedeemCode, CreateReferralCode, SetCommissionRate, BindReferral, SetAutoRenew, AdjustUserBalance,
      RefundPurchase, purchaseSnapshot, refunds_of, reversePurchaseCommission, ResolveCommission, reversedCommission,
      AllocateBudgetWithMultiplier, RetireLease, SettleUsageBatch, bump_lease, bump_ent, CreateOrder, allocateOrder,
      CreateManualOrderAtomic, order_by_key, scheduleReconciliation, recordAttempt, 
      CloseOrder, RequestRefund, claimOrder, repairOrders;
    keeps_walk; auto.
  all: apply recharges_order; [done|]; intros o0 Ho0 Hs0; cbn in *; try congruence.
  match goal with H : orders d !! order = Some ?r, H' : String.eqb (o_status ?r) "pending" = true |- _ =>
    apply String.eqb_eq in H'; rewrite Ho0 in H; injection H as ->; by rewrite H' in Hs0 end.
Qed.
Lemma reachable_recharges d : reachable d -> recharges d.
Proof. apply reachable_keeps; [intros lid l; cbn; by rewrite lookup_empty|exact exec_recharges|done]. Qed.

(** *** Refunds of a purchase

    What was refunded of a purchase and the quota removed for it, whenever
    its identifier names a plan purchase or an add-on and not both. *)
Definition shares_on (snaps : gmap string snapshot_row) (adds : gmap string addon_row) (prs : gmap string purchase_refund_row) : Prop :=
  forall p, (is_Some (snaps !! p) -> adds !! p = None) ->
    (refunded_of p prs = 0 /\ removed_of p prs = 0) \/
    exists user ent plan, purchase_of snaps adds p = Some (user, ent, plan) /\ refunded_of p prs <= P_Price plan /\
      removed_of p prs = fraction (P_Quota plan) (refunded_of p prs) (P_Price plan).
Definition shares (d : DB) : Prop := shares_on (snapshots d) (addons d) (purchase_refunds d).

Lemma shares_snapshot d k s : snapshots d !! k = None -> shares d -> shares (t_set Snapshots (<[k:=s]>) d).
Proof.
  intros Hn Hd p. cbn. intros Hone. destruct (decide (p = k)) as [->|Hne].
  - specialize (Hone ltac:(rewrite lookup_insert_eq; eauto)). left.
    destruct (Hd k ltac:(done)) as [?|(u & e & plan & Hof & _)]; [done|]. unfold purchase_of in Hof. by rewrite Hn, Hone in Hof.
  - rewrite lookup_insert_ne in Hone by done. destruct (Hd p Hone) as [?|(u & e & plan & Hof & ?)]; [by left|]. right. exists u, e, plan.
    split; [|done]. unfold purchase_of in *. by rewrite lookup_insert_ne.
Qed.
Lemma shares_addon d k a : addons d !! k = None -> shares d -> shares (t_set Addons (<[k:=a]>) d).
Proof.
  intros Hn Hd p. cbn. intros Hone. destruct (decide (p = k)) as [->|Hne].
  - rewrite lookup_insert_eq in Hone. left. destruct (Hd k ltac:(done)) as [?|(u & e & plan & Hof & _)]; [done|]. unfold purchase_of in Hof.
    destruct (snapshots d !! k); [by specialize (Hone (mk_is_Some _ _ eq_refl))|]. by rewrite Hn in Hof.
  - rewrite lookup_insert_ne in Hone by done. destruct (Hd p Hone) as [?|(u & e & plan & Hof & ?)]; [by left|]. right. exists u, e, plan.
    split; [|done]. unfold purchase_of in *. destruct (snapshots d !! p); [done|]. by rewrite lookup_insert_ne.
Qed.
Lemma shares_blind : blind shares.
Proof. by split. Qed.
Hint Resolve shares_blind : blind.
Lemma purchaseTx_shares user plan key expected version : keeps shares (purchaseTx user plan key expected version).
Proof. unfold purchaseTx, replayPurchase, snapshotLimits, recordCommission. keeps_walk; auto using shares_snapshot. Qed.
Hint Resolve purchaseTx_shares : keeps.
Lemma grantPlan_shares user plan : keeps shares (grantPlan user plan).
Proof. unfold grantPlan, snapshotLimits. keeps_walk; auto using shares_snapshot. Qed.
Lemma renewUser_shares user : keeps shares (renewUser user).
Proof. unfold renewUser, renew_update. keeps_walk; auto; apply keeps_savepoint; auto using CheckAccount_keeps, purchaseTx_shares. Qed.
Hint Resolve grantPlan_shares renewUser_shares : keeps.

(** A refund touches neither the purchases nor any other purchase's refunds. *)
Lemma RefundPurchase_purchases S A actor purchase key reason amount :
  keeps (fun d => snapshots d = S /\ addons d = A) (RefundPurchase actor purchase key reason amount).
Proof.
  assert (Hb : blind (fun d => snapshots d = S /\ addons d = A)) by by split.
  unfold RefundPurchase, purchaseSnapshot, refunds_of, reversePurchaseCommission, reversedCommission. keeps_walk; auto.
Qed.
Lemma RefundPurchase_shares actor purchase key reason amount env d t out d' t' :
  shop_inv d -> RefundPurchase actor purchase key reason amount env d t = (Ok (out, d'), t') -> shares d -> shares d'.
Proof.
  intros Hi Hrun Hd. destruct (RefundPurchase_purchases (snapshots d) (addons d) _ _ _ _ _ _ _ _ _ _ _ Hrun (conj eq_refl eq_refl)) as [Es Ea].
  intros p. rewrite Es, Ea. intros Hone. specialize (Hd p Hone). destruct (decide (p = purchase)) as [->|Hne].
  - right. destruct (RefundPurchase_spec _ _ _ _ _ d _ _ _ _ _ _ Hrun (conj Hi eq_refl)) as (_ & u & e & plan & Hof & _).
    destruct (purchase_of_ok _ _ _ _ _ Hi Hof) as [Hprice Hquota]. exists u, e, plan. split; [done|].
    assert (H0 : refunded_of purchase (purchase_refunds d) <= P_Price plan /\ removed_of purchase (purchase_refunds d) =
      fraction (P_Quota plan) (refunded_of purchase (purchase_refunds d)) (P_Price plan)).
    { destruct Hd as [[-> ->]|(u' & e' & plan' & Hof' & H1 & H2)]; [|rewrite Hof in Hof'; by injection Hof' as <- <- <-].
      split; [lia|]. unfold fraction. by rewrite Z.mul_0_r, Z.quot_0_l by lia. }
    by destruct (RefundPurchase_telescopes _ _ _ _ _ _ _ _ _ _ _ _ _ _ Hi Hof (proj1 H0) (proj2 H0) Hrun) as (? & ? & _).
  - destruct (RefundPurchase_spec _ _ _ _ _ d _ _ _ _ _ _ Hrun (conj Hi eq_refl)) as (_ & u & e & plan & _ & [[-> _]|(r & Hn & -> & Hp & _)]); [done|].
    assert (refunded_of p (<[PR_ID out:=r]> (purchase_refunds d)) = refunded_of p (purchase_refunds d)) as ->
      by (unfold refunded_of; rewrite map_sum_insert_None, Hp, at_key_ne by done; lia).
    assert (removed_of p (<[PR_ID out:=r]> (purchase_refunds d)) = removed_of p (purchase_refunds d)) as ->
      by (unfold removed_of; rewrite map_sum_insert_None, Hp, at_key_ne by done; lia).
    done.
Qed.
Lemma exec_shares o env d t a d' t' : op_ok o -> exec o env d t = (Ok (a, d'), t') -> money_inv d -> shares d -> shares d'.
Proof.
  intros Hok Hrun [Hm _]. assert ((exists c k tx n m, o = OpRefundPurchase c k tx n m) \/ forall c k tx n m, o <> OpRefundPurchase c k tx n m) as [(c & k & tx & n & m & ->)|Hno] by (destruct o; naive_solver).
  { simpl in Hrun. unfold forget in Hrun. apply tx_bind_Ok in Hrun as (x & d1 & t1 & Hrun & Hend). sql_inv Hend. by eapply RefundPurchase_shares. }
  clear Hm. revert env d t a d' t' Hrun. change (keeps shares (exec o)).
  destruct o; simpl in *; try apply keeps_forget; try (by destruct (Hno actor purchase key reason amount));
    first [by apply SetUserRuleLimit_keeps|idtac];
    unfold CreatePlan, UpdatePlan, savePlanLimits, SetPlanActive, PurchaseQuote, PurchaseAddon, CreateRedeemCode,
      RedeemCode, RevokeRedeemCode, CreateReferralCode, SetCommissionRate, BindReferral, SetAutoRenew, AdjustUserBalance,
      ResolveCommission, reversedCommission,
      AllocateBudgetWithMultiplier, RetireLease, SettleUsageBatch, bump_lease, bump_ent, CreateOrder, allocateOrder,
      CreateManualOrderAtomic, order_by_key, scheduleReconciliation, recordAttempt, ConfirmPaymentTx, PaymentReceived,
      CloseOrder, RequestRefund, ResolveRefund, claimOrder, repairOrders;
    keeps_walk; auto using shares_addon.
Qed.
Lemma reachable_shares d : reachable d -> shares d.
Proof. apply reachable_keeps; [intros p _; by left|exact exec_shares|done]. Qed.

(** A schedule of operations, each with its clock and identifiers. *)
Fixpoint run (l : list (Env * op)) (d : DB) : DB :=
  match l with
  | [] => d
  | (env, o) :: l => run l (Write (exec o) env d).2
  end.

Lemma run_reachable l : forall d, Forall (fun eo => op_ok eo.2) l -> reachable d -> reachable (run l d).
Proof.
  induction l as [|[env o] l IH]; intros d Hok Hd; [done|]. apply Forall_cons in Hok as [Ho Hok].
  apply IH; [done|]. eapply rtc_r; [exact Hd|]. by constructor.
Qed.

(** A renewal sweep is a sequence of steps. *)
Lemma renew_each_reachable users envs : forall i count d,
  reachable d -> reachable (renew_each users envs i count d).2.
Proof.
  induction users as [|user users IH]; intros i count d Hd; simpl; [done|].
  assert (Hs : reachable (Write (exec (OpRenew user)) (envs i) d).2) by (eapply rtc_r; [exact Hd|by constructor]).
  unfold Write, exec, forget, mbind, tx_bind, mret, tx_ret in *.
  destruct (renewUser user (envs i) d 0%nat) as [[[a d']|e] t]; simpl in *; auto.
Qed.
End System.
