(* ===== verification/Scenarios.v ===== *)
(** * Concrete runs

    A short history of the service, executed by the definitions: accounts,
    a referral, a recharge, a plan, a purchase, a lease and its usage, a
    redeem code and refunds.  Its databases are where the theorems about
    reachable databases are applied. *)

From S2P Require Import Prelude Tx GoStrings Calendar Digest Money Rational PlanRules Schema Wallet Plans Quota Purchases Refunds Payments Commerce.
From stdpp Require Import base gmap strings list relations.
From Stdlib Require Import Ascii String.
Local Open Scope string_scope.
Local Open Scope Z_scope.

(** Operation [i] runs [i] seconds into the history; its [n]-th identifier
    is [e<i>-<n>]. *)
Definition demo_env (i : nat) : Env :=
  {| env_now := fun _ => 1700000000 * second + Z.of_nat i * second;
     env_rand := fun n => "e" ++ FormatInt (Z.of_nat i) ++ "-" ++ FormatInt (Z.of_nat n) |}.

Definition demo_plan : Plan :=
  {| P_Limits := {| MaxRules := 5 |}; P_ID := ""; P_Name := "basic"; P_Price := 1000; P_Quota := 1073741824;
     P_PriceYuan := None; P_QuotaGB := None; P_Months := 1; P_DurationUnit := ""; P_DurationValue := 0;
     P_Active := true; P_Version := 0; P_Kind := "period" |}.

Definition demo_users : gmap string user_row :=
  {[ "alice" := {| u_disabled := false; u_role := "user" |};
     "bob" := {| u_disabled := false; u_role := "user" |};
     "root" := {| u_disabled := false; u_role := "admin" |} ]}.

Definition demo_start : DB := platform demo_users ∅ ∅ ∅ ∅ empty_db.

Definition demo_history : list op :=
  [OpCreateReferralCode "bob";
   OpBindReferral "alice" "INV-E0-0";
   OpSetCommissionRate 1000;
   OpCreateOrder (fun _ => Ok tt) (fun oid _ => Ok ("https://pay/" ++ oid)) "alice" "epay" "order-1" 5000;
   OpConfirmPayment "epay" "e3-0" "tx-1" 5000;
   OpCreatePlan demo_plan;
   OpPurchase "alice" "e5-0" "buy-1" 0 1;
   OpAllocate "alice" "rule" "node" "3/2" 67108864;
   OpSettleUsage [{| U_ID := "u1"; U_NodeID := "node"; U_RuleID := "rule"; U_LeaseID := "e7-1";
      U_EntitlementID := "e6-0"; U_StartedAt := 1700000007 * second; U_EndedAt := 1700000008 * second;
      U_UploadBytes := 1001; U_DownloadBytes := 0; U_Kind := ""; U_WindowID := ""; U_WindowSequence := 0 |}];
   OpCreateRedeemCode 300 "" 1 None;
   OpRedeemCode "alice" "TFP-E9-0";
   OpRequestRefund "root" "e3-0" "refund-1" "unused" 1500;
   OpCreateOrder (fun _ => Ok tt) (fun oid _ => Ok ("https://pay/" ++ oid)) "alice" "epay" "order-2" 2000;
   OpConfirmPayment "epay" "e12-0" "tx-2" 2000;
   OpRefundPurchase "root" "e6-0" "partial-1" "slow line" 100].

Definition numbered (l : list op) : list (Env * op) := imap (fun i o => (demo_env i, o)) l.

Definition demo : DB := run (numbered demo_history) demo_start.

(** The database after the first [n] operations. *)
Definition demo_at (n : nat) : DB := run (numbered (take n demo_history)) demo_start.

(** What each operation of a schedule answered. *)
Fixpoint answers (l : list (Env * op)) (d : DB) : list (res unit) :=
  match l with
  | [] => []
  | (env, o) :: l => (Write (exec o) env d).1 :: answers l (Write (exec o) env d).2
  end.

(** Every operation of the history succeeds. *)
Example demo_answers : answers (numbered demo_history) demo_start = replicate 15 (Ok tt).
Proof. vm_compute. reflexivity. Qed.

Lemma numbered_ok l : Forall op_ok l -> Forall (fun eo => op_ok eo.2) (numbered l).
Proof.
  intros Hl. unfold numbered. apply Forall_lookup. intros i [env o] Hi.
  rewrite list_lookup_imap in Hi. destruct (l !! i) as [x|] eqn:E; [|done]. injection Hi as _ <-.
  by eapply Forall_lookup in Hl.
Qed.

Lemma demo_ok : Forall op_ok demo_history.
Proof. repeat constructor; done. Qed.

Lemma start_reachable : reachable demo_start.
Proof. eapply rtc_l; [apply step_platform|apply rtc_refl]. Qed.

Lemma demo_reachable : reachable demo.
Proof. apply run_reachable; [apply numbered_ok, demo_ok|apply start_reachable]. Qed.

Lemma demo_at_reachable n : reachable (demo_at n).
Proof. apply run_reachable; [apply numbered_ok, Forall_take, demo_ok|apply start_reachable]. Qed.
