(* ===== verification/Effects.v ===== *)
(** * What the customer-facing operations do

    The effect of a successful purchase, redemption and administrative
    adjustment on every table a customer can see, and what happens when the
    same request is sent again. *)

From S2P Require Import Prelude Tx GoStrings Calendar Digest Money Rational PlanRules Schema Wallet Plans Quota Purchases Refunds Payments Commerce Scenarios.
From stdpp Require Import base gmap strings list.
From Stdlib Require Import Ascii String.
Local Open Scope string_scope.
Local Open Scope Z_scope.

(** ** Readers

    A reader neither changes the database nor consumes the clock or an
    identifier: its answer is a function of the database. *)
Definition reader {A} (m : Tx DB A) : Prop :=
  forall d, exists r : res A, forall env t,
    m env d t = (match r with Ok a => Ok (a, d) | Err e => Err e end, t).

Section Readers.
Context {A B : Type}.

Lemma reader_ret (a : A) : reader (mret a).
Proof. intros d. by exists (Ok a). Qed.
Lemma reader_fail e : reader (fail (A := A) e).
Proof. intros d. by exists (Err e). Qed.
Lemma reader_gets (f : DB -> A) : reader (gets f).
Proof. intros d. by exists (Ok (f d)). Qed.
Lemma reader_or_fail (o : option A) e : reader (or_fail o e).
Proof. destruct o; [apply reader_ret|apply reader_fail]. Qed.
Lemma reader_of_res (r : res A) : reader (of_res r).
Proof. destruct r; [apply reader_ret|apply reader_fail]. Qed.
Lemma reader_bind (m : Tx DB A) (k : A -> Tx DB B) :
  reader m -> (forall a, reader (k a)) -> reader (mbind k m).
Proof.
  intros Hm Hk d. destruct (Hm d) as [[a|e] Hr].
  - destruct (Hk a d) as [r Hr']. exists r. intros env t. unfold mbind, tx_bind. by rewrite Hr, Hr'.
  - exists (Err e). intros env t. unfold mbind, tx_bind. by rewrite Hr.
Qed.

(** A reader that succeeded left the database alone and succeeds again. *)
Lemma reader_again (m : Tx DB A) env d t a d' t' :
  reader m -> m env d t = (Ok (a, d'), t') -> d' = d /\ t' = t /\ forall env t, m env d t = (Ok (a, d), t).
Proof.
  intros Hm Hrun. destruct (Hm d) as [r Hr]. rewrite Hr in Hrun. destruct r as [a'|e]; [|done].
  injection Hrun as <- <- <-. eauto.
Qed.
End Readers.

Lemma reader_guard b e : reader (guard_err b e).
Proof. destruct b; [apply reader_ret|apply reader_fail]. Qed.

Create HintDb reader.
#[export] Hint Resolve reader_ret reader_fail reader_gets reader_or_fail reader_of_res reader_guard : reader.
Ltac reader_walk :=
  repeat (cbn beta; match goal with
  | |- reader (mbind _ _) => apply reader_bind; [|intros ?]
  | |- reader (SELECT _ _) => apply reader_gets
  | |- reader _ => solve [auto with reader]
  | |- reader (match ?x with _ => _ end) => destruct x eqn:?
  end).

Lemma entitlementLimits_reader ent : reader (entitlementLimits ent).
Proof. unfold entitlementLimits. reader_walk. Qed.
#[export] Hint Resolve entitlementLimits_reader : reader.

Lemma planTx_reader plan : reader (planTx plan).
Proof. unfold planTx. reader_walk. Qed.

Lemma replayPurchase_reader prior plan expected version : reader (replayPurchase prior plan expected version).
Proof. unfold replayPurchase. reader_walk. Qed.

(** ** Frames *)

(** The books and the tables outside the money are as before. *)
Definition quiet (d0 d : DB) : Prop :=
  untouched d0 d /\ ledger d = ledger d0 /\ (forall u, Wallet d u = Wallet d0 u) /\
  (forall u, is_Some (wallets d0 !! u) -> is_Some (wallets d !! u)).

Lemma emit_quiet user kind data d0 : keeps (quiet d0) (emitEventTx user kind data).
Proof. by apply emitEventTx_keeps. Qed.

Lemma walletTx_quiet user env d t r d' t' :
  walletTx user env d t = (Ok (r, d'), t') ->
  quiet d d' /\ (exists w, wallets d' !! user = Some w) /\ (wallet_inv d -> wallet_inv d').
Proof.
  intros Hrun. destruct (walletTx_spec user d _ _ _ _ _ _ Hrun eq_refl) as (w & HW & _ & Hd & Hb).
  split; [|split; [exists w; rewrite HW; apply lookup_insert_eq|by eapply walletTx_keeps]].
  destruct Hd as [-> | ->]; [by split|]. split; [done|]. split; [done|]. split.
  - intros u. unfold Wallet at 1. simpl. rewrite balance_in_insert. destruct (String.eqb u user) eqn:E; [|done].
    bool_to_prop. by subst.
  - intros u Hu. simpl. apply lookup_insert_is_Some'. auto.
Qed.

(** An existing wallet is only read. *)
Lemma walletTx_again user w env d t :
  wallets d !! user = Some w -> walletTx user env d t = (Ok ((w_balance w, w_version w), d), t).
Proof.
  intros Hw. unfold walletTx, INSERT_ignore, SELECT, mbind, tx_bind, gets. cbn [t_get Wallets].
  rewrite Hw. unfold mret, tx_ret. cbn [t_get Wallets]. rewrite Hw. done.
Qed.

Lemma CheckAccount_Ok user env d t u d' t' :
  CheckAccount user env d t = (Ok (u, d'), t') ->
  d' = d /\ exists a, cp_users d !! user = Some a /\ u_disabled a = false.
Proof.
  intros Hrun. unfold CheckAccount in Hrun. sql_run Hrun. simpl in *. bool_to_prop. eauto.
Qed.

Lemma CheckAccount_again user a env d t :
  cp_users d !! user = Some a -> u_disabled a = false -> CheckAccount user env d t = (Ok (tt, d), t).
Proof.
  intros Ha Hd. unfold CheckAccount, SELECT, mbind, tx_bind, gets. cbn [t_get Users].
  by rewrite Ha, Hd.
Qed.

(** A wallet, once there, stays. *)
Section Open.
Context (u : string).
Let open (d : DB) : Prop := is_Some (wallets d !! u).

Lemma spend_open reference l left : keeps open (spend reference l left).
Proof. revert left. induction l as [|[sid v] l IH]; intros left; simpl; keeps_walk; auto. Qed.
Lemma restore_open reference l left : keeps open (restore reference l left).
Proof. revert left. induction l as [|[sid v] l IH]; intros left; simpl; keeps_walk; auto. Qed.
Lemma emit_open user kind data : keeps open (emitEventTx user kind data).
Proof. by apply emitEventTx_keeps. Qed.
Lemma open_insert user w d : open d -> open (t_set Wallets (<[user:=w]>) d).
Proof. intros Hd. apply lookup_insert_is_Some'. by right. Qed.
Lemma walletTx_open user : keeps open (walletTx user).
Proof. unfold walletTx. keeps_walk; auto using open_insert. Qed.
Lemma post_open user delta kind reference : keeps open (post user delta kind reference).
Proof.
  pose proof spend_open. pose proof restore_open. pose proof emit_open. pose proof walletTx_open.
  unfold post, trackFunds, openFunds, creditFunds, debitFunds, restoreFunds.
  keeps_walk; auto using open_insert.
Qed.
End Open.

(** A wallet that moved by [delta], with its ledger line, after a quiet
    step. *)
Lemma post_moved user delta kind reference env d0 d t u d' t' :
  - MaxInt64 <= delta <= MaxInt64 -> wallet_inv d -> quiet d0 d ->
  post user delta kind reference env d t = (Ok (u, d'), t') ->
  untouched d0 d' /\ (forall u, Wallet d' u = move (Wallet d0) user delta u) /\
  posted user delta kind reference d0 d' /\ (is_Some (wallets d !! user) -> is_Some (wallets d' !! user)).
Proof.
  intros Hdelta Hi (Hu & HL & HW & _) Hrun.
  destruct (post_spec _ _ _ _ _ Hdelta Hi _ _ _ _ _ _ Hrun eq_refl) as (_ & HW' & Hp).
  split; [by eapply (post_blind _ (untouched_blind d0))|]. split; [|split].
  - intros v. rewrite HW'. unfold move. by rewrite HW.
  - destruct Hp as (lid & row & H). rewrite HL, HW in H. by exists lid, row.
  - by eapply post_open.
Qed.

(** A debit the wallet does not cover. *)
Lemma post_short env user delta kind reference d t :
  wallet_inv d -> - MaxInt64 <= delta < 0 -> Wallet d user + delta < 0 ->
  exists t', post user delta kind reference env d t = (Err ErrFunds, t').
Proof.
  intros Hi Hd Hs. pose proof (Wallet_range d user Hi).
  destruct (walletTx_runs env user d t) as ([b v] & d1 & t1 & Hrun & _).
  destruct (walletTx_spec user d _ _ _ _ _ _ Hrun eq_refl) as (w & _ & Hbv & _ & Hw). injection Hbv as -> ->.
  exists t1. unfold post, mbind, tx_bind. rewrite Hrun, Hw.
  rewrite (wrap64_id (- delta)) by (unfold in_int64, MinInt64, MaxInt64 in *; lia).
  replace (0 <? delta) with false by lia. cbn [andb].
  replace ((delta <? 0) && (Wallet d user <? - delta)) with true by (symmetry; apply andb_true_iff; lia). done.
Qed.

(** The tables the operations of this file are described by. *)
Definition shown (d0 d : DB) : Prop :=
  wallets d = wallets d0 /\ ledger d = ledger d0 /\ entitlements d = entitlements d0 /\ ent_limits d = ent_limits d0 /\
  snapshots d = snapshots d0 /\ purchases d = purchases d0 /\ cp_users d = cp_users d0 /\
  redeem_codes d = redeem_codes d0 /\ redeem_claims d = redeem_claims d0 /\ admin_adjustments d = admin_adjustments d0.

Lemma emit_shown user kind data env d t u d' t' :
  emitEventTx user kind data env d t = (Ok (u, d'), t') -> shown d d'.
Proof. intros Hrun. eapply (emitEventTx_keeps (shown d)); [done|done|exact Hrun|by repeat split]. Qed.

Lemma commission_shown invitee source price env d t u d' t' :
  recordCommission invitee source price env d t = (Ok (u, d'), t') -> shown d d'.
Proof.
  intros Hrun. unfold recordCommission in Hrun. by sql_run Hrun.
Qed.

(** ** Buying a plan *)

Section Buying.
Context {RS : RatSyntax}.

Definition same_catalog (d0 d : DB) : Prop :=
  plans d = plans d0 /\ plan_states d = plan_states d0 /\ plan_limits d = plan_limits d0.

Lemma untouched_catalog d0 d : untouched d0 d -> same_catalog d0 d.
Proof. intros Hu. split; [exact (f_equal plans Hu)|]. split; [exact (f_equal plan_states Hu)|exact (f_equal plan_limits Hu)]. Qed.

(** A catalogue entry read while the catalogue stands is the entry as it
    was. *)
Lemma planTx_before plan env d d1 t p d2 t' :
  catalog_inv d -> same_catalog d d1 -> planTx plan env d1 t = (Ok (p, d2), t') ->
  (forall env t, planTx plan env d t = (Ok (p, d), t)) /\ plan_ok p /\ PlanLimits_Validate (P_Limits p) = Ok tt.
Proof.
  intros Hc (E1 & E2 & E3) Hrun.
  assert (Hc1 : catalog_inv d1) by (unfold catalog_inv; by rewrite E1, E2, E3).
  destruct (planTx_bounds _ _ _ _ _ _ _ Hc1 Hrun) as [_ Hok].
  destruct (planTx_Ok _ _ _ _ _ _ _ Hc1 Hrun) as (_ & pl & st & Hpl & Hst & ->).
  rewrite E1 in Hpl. rewrite E2 in Hst. rewrite E3 in *. split; [by intros; apply planTx_runs|]. split; [done|].
  unfold plan_of. destruct (plan_limits d !! plan) as [l|] eqn:El; [|done].
  pose proof (ci_limits _ _ _ Hc _ _ El). unfold PlanLimits_Validate. simpl.
  destruct ((MaxRules l <? 0) || (100000 <? MaxRules l)) eqn:E; [bool_to_prop; lia|done].
Qed.

(** Everything a fresh purchase of [plan] changes. *)
Record bought (user plan key : string) (expected version : Z) (p : Plan) (e : Entitlement) (d d' : DB) : Prop := {
  by_plan env t : planTx plan env d t = (Ok (p, d), t);
  by_offer : P_Active p = true /\ P_Kind p = "period" /\ (version = 0 \/ P_Version p = version);
  by_current : exists o, is_latest user (entitlements d) o /\
               expected = match o with Some kr => e_version kr.2 | None => 0 end;
  by_grant : E_UserID e = user /\ E_PlanID e = plan /\ E_Version e = wrap64 (expected + 1) /\
             E_Quota e = P_Quota p /\ E_Used e = 0 /\ E_Limits e = P_Limits p /\
             planExpiry (E_StartsAt e) p = Ok (E_ExpiresAt e);
  by_wallet u : Wallet d' u = move (Wallet d) user (- P_Price p) u;
  by_ledger : posted user (- P_Price p) "purchase" (E_ID e) d d';
  by_fresh : entitlements d !! E_ID e = None;
  by_row : entitlements d' = <[E_ID e := ent_columns e]> (entitlements d);
  by_limits : ent_limits d' = <[E_ID e := ruleOnlyLimits (P_Limits p)]> (ent_limits d);
  by_snapshot : exists s, snapshots d' = <[E_ID e := s]> (snapshots d) /\ ps_user s = user /\ ps_payload s = p /\
                  ps_plan_version s = P_Version p;
  by_key : purchases d' = <[(user, key) := {| pu_plan := plan; pu_expected := expected; pu_ent := E_ID e |}]> (purchases d)
}.

Lemma purchaseTx_fresh user plan key expected version env d t e d' t' :
  shop_inv d -> purchases d !! (user, key) = None ->
  purchaseTx user plan key expected version env d t = (Ok (e, d'), t') ->
  exists p, bought user plan key expected version p e d d' /\ PlanLimits_Validate (P_Limits p) = Ok tt /\
    is_Some (wallets d' !! user) /\ cp_users d' = cp_users d.
Proof.
  intros Hi Hn Hrun. unfold purchaseTx, snapshotLimits in Hrun. sql_run Hrun.
  - exfalso. apply CheckAccount_Ok in Hm as [-> _].
    apply walletTx_quiet in Hm0 as [(Hu & _) _]. pose proof (f_equal purchases Hu) as Hp. simpl in *. congruence.
  - pose proof Hi as (Hw & Hc & _). apply CheckAccount_Ok in Hm as [-> _].
    apply walletTx_quiet in Hm0 as (Hq & Hopen & Hwi). pose proof Hq as (Hu & _).
    match goal with H : planTx _ _ _ _ = _ |- _ => destruct (planTx_before _ _ _ _ _ _ _ _ Hc (untouched_catalog _ _ Hu) H) as (Hp & [Hprice _] & Hl) end.
    match goal with H : post _ _ _ _ _ _ _ = _ |- _ => eapply post_moved in H as (Hu' & HW & Hpost & Hopen');
      [|unfold MaxInt64; lia|auto|exact Hq] end.
    match goal with H : recordCommission _ _ _ _ _ _ = _ |- _ => apply commission_shown in H as (?&?&?&?&?&?&?&_) end.
    match goal with H : emitEventTx _ _ _ _ _ _ = _ |- _ => apply emit_shown in H as (?&?&?&?&?&?&?&_) end.
    eexists. split; [|split; [exact Hl|]].
    2: { split; [|simpl in *; pose proof (f_equal cp_users Hu'); simpl in *; congruence].
         simpl in *. rewrite H6, H. destruct Hopen as [w Hopen]. apply Hopen'. eauto. }
    pose proof (f_equal entitlements Hu') as T1. pose proof (f_equal ent_limits Hu') as T2.
    pose proof (f_equal snapshots Hu') as T3. pose proof (f_equal purchases Hu') as T4. simpl in *.
    pose proof (f_equal entitlements Hu) as T0. simpl in *. bool_to_prop.
    split; simpl in *; try done; try congruence.
    + split; [done|]. split; [done|]. destruct Hif2; bool_to_prop; auto.
    + eexists. split; [rewrite <- T0; exact Hlatest|congruence].
    + repeat split; [congruence|done].
    + intros u. unfold Wallet at 1. simpl. rewrite H6, H. apply HW.
    + destruct Hpost as (lid & row & Hpost). exists lid, row. simpl. by rewrite H7, H0.
    + eexists. split; [by rewrite H10, H3, T3|done].
Qed.

Lemma purchaseTx_again user plan key expected version a w prior env d t :
  cp_users d !! user = Some a -> u_disabled a = false -> wallets d !! user = Some w ->
  purchases d !! (user, key) = Some prior ->
  purchaseTx user plan key expected version env d t = replayPurchase prior plan expected version env d t.
Proof.
  intros Ha Hd Hw Hp. unfold purchaseTx. unfold mbind at 1, tx_bind at 1. erewrite CheckAccount_again by done.
  unfold mbind at 1, tx_bind at 1. erewrite walletTx_again by done.
  unfold mbind at 1, tx_bind at 1, SELECT at 1, gets. cbn [t_get Purchases]. by rewrite Hp.
Qed.

(** The stored purchase answers with the entitlement it granted. *)
Lemma replay_bought user plan key expected version p e d d' env t :
  bought user plan key expected version p e d d' -> PlanLimits_Validate (P_Limits p) = Ok tt ->
  replayPurchase {| pu_plan := plan; pu_expected := expected; pu_ent := E_ID e |} plan expected version env d' t
    = (Ok (e, d'), t).
Proof.
  intros [_ (_ & _ & Hver) _ (Hu & Hpl & Hv & Hq & Hus & Hlim & _) _ _ _ Hrow Hl (s & Hs & _ & _ & Hsv) _] Hok.
  assert (Hg : guard_err (String.eqb plan plan && (expected =? expected)) ErrConflict env d' t = (Ok (tt, d'), t))
    by (by rewrite String.eqb_refl, Z.eqb_refl).
  assert (Hends : (row ← SELECT Entitlements (E_ID e); r ← or_fail row ErrNoRows;
      limits ← entitlementLimits (E_ID e); mret (with_limits (scanEnt (E_ID e, r)) limits)) env d' t = (Ok (e, d'), t)).
  { unfold entitlementLimits, SELECT, or_fail, mbind, tx_bind, gets, mret, tx_ret. cbn [t_get Entitlements EntLimits].
    rewrite Hrow, lookup_insert_eq. cbn [t_get EntLimits]. rewrite Hl, lookup_insert_eq. destruct (P_Limits p) as [n] eqn:En.
    change (ruleOnlyLimits {| MaxRules := n |}) with {| MaxRules := n |}. rewrite Hok.
    unfold of_res, mret, tx_ret, with_limits, scanEnt, ent_columns. simpl. destruct e. simpl in *. congruence. }
  unfold replayPurchase. cbn [pu_ent pu_plan pu_expected]. unfold mbind at 1, tx_bind at 1.
  destruct (version =? 0) eqn:E0; cbn [negb].
  - unfold mret at 1, tx_ret at 1. unfold mbind at 1, tx_bind at 1. by rewrite Hg.
  - unfold SELECT at 1, or_fail at 1, mbind at 1 2, tx_bind at 1 2, gets at 1. cbn [t_get Snapshots].
    rewrite Hs, lookup_insert_eq. unfold mret at 1, tx_ret at 1.
    bool_to_prop. destruct Hver as [?|Hver]; [done|]. rewrite Hsv, Hver, Z.eqb_refl.
    unfold guard_err at 1, mret at 1, tx_ret at 1. unfold mbind at 1, tx_bind at 1. by rewrite Hg.
Qed.

Lemma purchaseTx_replay user plan key expected version env d t e d' t' env2 t2 :
  shop_inv d -> purchaseTx user plan key expected version env d t = (Ok (e, d'), t') ->
  purchaseTx user plan key expected version env2 d' t2 = (Ok (e, d'), t2).
Proof.
  intros Hi Hrun.
  assert (Hacc : exists a, cp_users d !! user = Some a /\ u_disabled a = false).
  { apply tx_bind_Ok in Hrun as (? & ? & ? & Hm & _). by apply CheckAccount_Ok in Hm as [_ ?]. }
  destruct Hacc as (a & Ha & Hdis). destruct (purchases d !! (user, key)) as [prior|] eqn:Eprior.
  - apply tx_bind_Ok in Hrun as (? & ? & ? & Hm & Hrun). apply CheckAccount_Ok in Hm as [-> _].
    apply tx_bind_Ok in Hrun as (? & d1 & ? & Hm & Hrun). apply walletTx_quiet in Hm as [(Hu & _) [[w Hw] _]].
    pose proof (f_equal purchases Hu) as Hp. pose proof (f_equal cp_users Hu) as Hus. simpl in Hp, Hus.
    apply tx_bind_Ok in Hrun as (row & ? & ? & Hm & Hrun). sql_inv Hm. cbn [t_get Purchases] in Hrun.
    rewrite Hp, Eprior in Hrun. apply reader_again in Hrun as (-> & _ & Hagain); [|apply replayPurchase_reader].
    erewrite purchaseTx_again; [apply Hagain| |done|done|]; congruence.
  - destruct (purchaseTx_fresh _ _ _ _ _ _ _ _ _ _ _ Hi Eprior Hrun) as (p & Hb & Hl & [w Hw] & Hus).
    erewrite purchaseTx_again; [by eapply replay_bought|by rewrite Hus|done|done|].
    rewrite (by_key _ _ _ _ _ _ _ _ _ Hb). apply lookup_insert_eq.
Qed.
End Buying.

(** ** Redeeming a code *)

Lemma quiet_refl d : quiet d d.
Proof. by repeat split. Qed.

Section Redeeming.
Context {RS : RatSyntax}.

(** The entitlement a code grants. *)
Definition granted (user plan eid : string) (d d' : DB) : Prop :=
  exists p row, (forall env t, planTx plan env d t = (Ok (p, d), t)) /\ P_Active p = true /\ P_Kind p = "period" /\
    entitlements d !! eid = None /\ entitlements d' = <[eid:=row]> (entitlements d) /\
    e_user row = user /\ e_plan row = plan /\ e_quota row = P_Quota p /\ e_used row = 0 /\
    planExpiry (e_starts row) p = Ok (e_expires row).

Lemma grantPlan_Ok user plan env d t eid d' t' :
  catalog_inv d -> grantPlan user plan env d t = (Ok (eid, d'), t') ->
  granted user plan eid d d' /\ wallets d' = wallets d /\ ledger d' = ledger d /\ cp_users d' = cp_users d /\
  redeem_codes d' = redeem_codes d /\ redeem_claims d' = redeem_claims d.
Proof.
  intros Hc Hrun. unfold grantPlan, snapshotLimits in Hrun. sql_run Hrun.
  match goal with H : planTx _ _ _ _ = _ |- _ => destruct (planTx_before _ _ _ _ _ _ _ _ Hc (untouched_catalog _ _ eq_refl) H) as (Hp & _) end.
  match goal with H : emitEventTx _ _ _ _ _ _ = _ |- _ => apply emit_shown in H as (?&?&?&?&?&?&?&?&?&_) end.
  simpl in *. bool_to_prop. split; [|by repeat split]. eexists _, _.
  do 4 (split; [done|]). split; [done|]. by repeat split.
Qed.

(** The two optional parts of a redemption. *)
Lemma redeem_credit user amount reference env d t u d' t' :
  wallet_inv d -> 0 <= amount <= MaxInt64 ->
  (if 0 <? amount then post user amount "redeem" reference else mret tt) env d t = (Ok (u, d'), t') ->
  untouched d d' /\ (forall u, Wallet d' u = move (Wallet d) user amount u) /\
  (is_Some (wallets d !! user) -> is_Some (wallets d' !! user)).
Proof.
  intros Hw Ham Hrun. destruct (0 <? amount) eqn:E; bool_to_prop.
  - apply (post_moved _ _ _ _ _ d) in Hrun as (H1 & H2 & _ & H3); [done|unfold MaxInt64 in *; lia|done|apply quiet_refl].
  - sql_inv Hrun. split; [done|]. split; [|done]. replace amount with 0 by lia. intros v. by rewrite move_0.
Qed.

Definition granted_maybe (user plan : string) (ent : option string) (d d' : DB) : Prop :=
  match ent with
  | Some eid => plan <> "" /\ granted user plan eid d d'
  | None => plan = "" /\ entitlements d' = entitlements d
  end.

Lemma granted_before user plan ent d0 d d' :
  catalog_inv d0 -> same_catalog d0 d -> entitlements d = entitlements d0 ->
  granted_maybe user plan ent d d' -> granted_maybe user plan ent d0 d'.
Proof.
  intros Hc Hsame He. unfold granted_maybe, granted. rewrite He. destruct ent as [eid|]; [|done].
  intros (Hne & p & row & Hp & Hrest). split; [done|]. exists p, row. split; [|done].
  by apply (planTx_before _ {| env_now := fun _ => 0; env_rand := fun _ => "" |} d0 d 0 p d 0 Hc Hsame).
Qed.

Lemma redeem_grant user plan env d t ent d' t' :
  catalog_inv d ->
  (if negb (String.eqb plan "") then eid ← grantPlan user plan; mret (Some eid) else mret None) env d t
    = (Ok (ent, d'), t') ->
  granted_maybe user plan ent d d' /\ wallets d' = wallets d /\ ledger d' = ledger d /\ cp_users d' = cp_users d /\
  redeem_codes d' = redeem_codes d /\ redeem_claims d' = redeem_claims d.
Proof.
  intros Hc Hrun. destruct (String.eqb plan "") eqn:E; simpl in Hrun; bool_to_prop; [by sql_inv Hrun|].
  apply tx_bind_Ok in Hrun as (eid & d1 & t1 & Hm & Hk). sql_inv Hk.
  apply grantPlan_Ok in Hm as [Hg Hrest]; [|done]. done.
Qed.

(** Everything a redemption changes. *)
Record redeemed (user hash : string) (r : redeem_row) (ent : option string) (d d' : DB) : Prop := {
  rd_code : redeem_codes d !! hash = Some r /\ rc_enabled r = true /\ rc_used r < rc_max r;
  rd_used : redeem_codes d' = <[hash := redeem_used r]> (redeem_codes d);
  rd_wallet u : Wallet d' u = move (Wallet d) user (rc_amount r) u;
  rd_ent : granted_maybe user (rc_plan r) ent d d';
  rd_claim : exists created, redeem_claims d' = <[(hash, user) := {| rl_amount := rc_amount r; rl_plan := rc_plan r;
               rl_ent := ent; rl_created := created |}]> (redeem_claims d)
}.

Lemma RedeemCode_fresh user plain env d t out d' t' :
  shop_inv d -> redeem_claims d !! (digestCode plain, user) = None ->
  RedeemCode user plain env d t = (Ok (out, d'), t') ->
  exists r ent, out = (rc_amount r, rc_plan r, ent) /\ redeemed user (digestCode plain) r ent d d' /\
    is_Some (wallets d' !! user) /\ cp_users d' = cp_users d.
Proof.
  intros Hi Hn Hrun. unfold RedeemCode in Hrun. destruct (_ || _); [done|]. set (hash := digestCode plain) in *.
  apply tx_bind_Ok in Hrun as (? & ? & ? & Hm & Hrun). apply CheckAccount_Ok in Hm as [-> _].
  apply tx_bind_Ok in Hrun as (? & d1 & ? & Hm & Hrun). apply walletTx_quiet in Hm as (Hq & Hopen & Hwi).
  pose proof Hi as (Hw & Hc & _ & Hcodes & _). destruct Hq as (Hu & HL & HW & _).
  apply tx_bind_Ok in Hrun as (row & ? & ? & Hm & Hrun). sql_inv Hm. cbn [t_get RedeemClaims] in Hrun.
  rewrite (f_equal redeem_claims Hu : redeem_claims d1 = redeem_claims d), Hn in Hrun.
  apply tx_bind_Ok in Hrun as (row' & ? & ? & Hm & Hrun). sql_inv Hm. cbn [t_get RedeemCodes] in Hrun.
  rewrite (f_equal redeem_codes Hu : redeem_codes d1 = redeem_codes d) in Hrun.
  apply tx_bind_Ok in Hrun as (r & ? & ? & Hm & Hrun). sql_inv Hm. rename Ho into Hr.
  apply tx_bind_Ok in Hrun as (expired & d2 & ? & Hm & Hrun).
  assert (d2 = d1) as -> by (destruct (rc_expires r); by sql_inv Hm). clear Hm.
  destruct (_ || expired) eqn:Eopen; [done|].
  apply tx_bind_Ok in Hrun as (n & d2 & ? & Hupd & Hrun).
  apply tx_bind_Ok in Hrun as (? & ? & ? & Hm & Hrun). sql_inv Hm. sql_inv Hupd; [|done].
  set (d2 := t_set RedeemCodes _ d1) in *.
  apply tx_bind_Ok in Hrun as (? & d3 & ? & Hcredit & Hrun).
  apply tx_bind_Ok in Hrun as (ent & d4 & ? & Hgrant & Hrun). sql_inv Hrun.
  destruct (Hcodes _ _ Hr) as [Ham _].
  apply redeem_credit in Hcredit as (Hu3 & HW3 & Hopen3); [|exact (Hwi Hw)|unfold MaxInt64; lia].
  assert (Hs3 : same_catalog d d3).
  { destruct (untouched_catalog _ _ Hu) as (E1 & E2 & E3). destruct (untouched_catalog _ _ Hu3) as (F1 & F2 & F3).
    unfold same_catalog. rewrite F1, F2, F3. done. }
  apply redeem_grant in Hgrant as (Hg4 & HW4 & _ & Hus4 & Hcd4 & Hcl4);
    [|destruct Hs3 as (E1 & E2 & E3); unfold catalog_inv; by rewrite E1, E2, E3].
  pose proof (f_equal entitlements Hu) as T1. pose proof (f_equal entitlements Hu3) as T2.
  pose proof (f_equal redeem_codes Hu) as T3. pose proof (f_equal redeem_codes Hu3) as T4.
  pose proof (f_equal redeem_claims Hu) as T5. pose proof (f_equal redeem_claims Hu3) as T6.
  pose proof (f_equal cp_users Hu) as T7. pose proof (f_equal cp_users Hu3) as T8.
  simpl in *. rewrite T3, Hr in Hrow. injection Hrow as <-. exists r, ent. split; [done|].
  split; [|rewrite HW4; split; [apply Hopen3; destruct Hopen; eauto|congruence]].
  bool_to_prop. split; simpl.
  - by repeat split.
  - congruence.
  - intros u. unfold Wallet at 1. simpl. rewrite HW4. etransitivity; [apply HW3|]. unfold move.
    change (Wallet d2 u) with (Wallet d1 u). by rewrite HW.
  - apply (granted_before _ _ _ d d3) in Hg4; [|done|done|congruence]. exact Hg4.
  - eexists. by rewrite Hcl4, T6, T5.
Qed.

(** A code redeemed twice by one user answers the same, and does nothing. *)
Lemma RedeemCode_again user plain a w c env d t :
  String.eqb (TrimSpace plain) "" || (128 <? Z.of_nat (String.length plain)) = false ->
  cp_users d !! user = Some a -> u_disabled a = false -> wallets d !! user = Some w ->
  redeem_claims d !! (digestCode plain, user) = Some c ->
  RedeemCode user plain env d t = (Ok ((rl_amount c, rl_plan c, rl_ent c), d), t).
Proof.
  intros Hg Ha Hd Hw Hc. unfold RedeemCode. rewrite Hg. unfold mbind at 1, tx_bind at 1.
  erewrite CheckAccount_again by done. unfold mbind at 1, tx_bind at 1. erewrite walletTx_again by done.
  unfold mbind at 1, tx_bind at 1, SELECT at 1, gets. cbn [t_get RedeemClaims]. by rewrite Hc.
Qed.

Lemma RedeemCode_replay user plain env d t out d' t' env2 t2 :
  shop_inv d -> RedeemCode user plain env d t = (Ok (out, d'), t') ->
  RedeemCode user plain env2 d' t2 = (Ok (out, d'), t2).
Proof.
  intros Hi Hrun. pose proof Hrun as Hrun0. unfold RedeemCode in Hrun.
  destruct (String.eqb (TrimSpace plain) "" || _) eqn:Eg; [done|].
  apply tx_bind_Ok in Hrun as (? & ? & ? & Hm & Hrun). apply CheckAccount_Ok in Hm as [-> (a & Ha & Hdis)].
  destruct (redeem_claims d !! (digestCode plain, user)) as [c|] eqn:Ec.
  - apply tx_bind_Ok in Hrun as (? & d1 & ? & Hm & Hrun). apply walletTx_quiet in Hm as [(Hu & _) [[w Hw] _]].
    pose proof (f_equal redeem_claims Hu) as Hcl. pose proof (f_equal cp_users Hu) as Hus. simpl in Hcl, Hus.
    apply tx_bind_Ok in Hrun as (row & ? & ? & Hm & Hrun). sql_inv Hm. cbn [t_get RedeemClaims] in Hrun.
    rewrite Hcl, Ec in Hrun. sql_inv Hrun. apply (RedeemCode_again _ _ a w c); try done; congruence.
  - destruct (RedeemCode_fresh _ _ _ _ _ _ _ _ Hi Ec Hrun0) as (r & ent & -> & Hr & [w Hw] & Hus).
    destruct (rd_claim _ _ _ _ _ _ Hr) as [created Hcl].
    eapply (RedeemCode_again _ _ a w {| rl_amount := rc_amount r; rl_plan := rc_plan r; rl_ent := ent; rl_created := created |});
      [done|by rewrite Hus|done|done|rewrite Hcl; apply lookup_insert_eq].
Qed.
End Redeeming.
