(* ===== verification/Claims.v ===== *)
(** * Operations in reachable databases

    What each operation does, in any database the service can reach: its
    effect on every table a customer sees, and that a request sent twice
    is answered twice and carried out once.  The witnesses run the
    operations on the history of [Scenarios]. *)

From S2P Require Import Prelude Tx GoStrings Calendar Digest Money Rational PlanRules Schema Wallet Plans Quota Purchases Refunds Payments Commerce Scenarios Effects.
From stdpp Require Import base gmap strings list.
From Stdlib Require Import Ascii String.
Local Open Scope string_scope.
Local Open Scope Z_scope.

Section Operations.
Context {RS : RatSyntax}.

Lemma reachable_shop d : reachable d -> shop_inv d.
Proof. by intros [[H _] _]%reachable_inv. Qed.
Lemma reachable_money d : reachable d -> money_inv d.
Proof. by intros [H _]%reachable_inv. Qed.

(** A debit is decided by the balance alone.  With new identifiers
    and a reference not yet used, [post] of a negative amount answers
    [ErrFunds] exactly when the wallet does not cover it; otherwise it
    always succeeds, moves that one wallet by the amount and writes one
    ledger line with the balance after it: the fund sources never fall
    short of the wallet. *)
Theorem debit_decides env user delta kind reference d t :
  reachable d -> new_ids env d -> - MaxInt64 <= delta < 0 -> kind <> "refund_reserve" ->
  (forall k r, ledger d !! k = Some r -> l_reference r <> reference) ->
  (forall sid, fund_allocs d !! (reference, sid) = None) -> fund_sources d !! ("legacy:" ++ user) = None ->
  if Wallet d user + delta <? 0
  then exists t', post user delta kind reference env d t = (Err ErrFunds, t')
  else exists d' t', post user delta kind reference env d t = (Ok (tt, d'), t') /\
         (forall u, Wallet d' u = move (Wallet d) user delta u) /\ posted user delta kind reference d d'.
Proof.
  intros (Hw & _)%reachable_shop Hf Hd Hk Hnew Halloc Hleg.
  destruct (Wallet d user + delta <? 0) eqn:E; bool_to_prop.
  - apply post_short; [done|lia|lia].
  - destruct (post_debit_runs env user delta kind reference d t) as ([] & d' & t' & Hrun & _); try done;
      [lia|by apply String.eqb_neq|].
    destruct (post_spec user delta kind reference d ltac:(lia) Hw _ _ _ _ _ _ Hrun eq_refl) as (_ & HW & Hp). eauto 6.
Qed.

(** A purchase does what it says.  A successful purchase under a new
    key sells an active period plan at the expected version of the
    customer's newest entitlement and of the plan: it takes exactly the
    price from that wallet with one ledger line, and adds one
    entitlement with the plan's quota, limits and period, the snapshot
    of the plan and the record of the key. *)
Theorem purchase_effect user plan key expected version env d t e d' t' :
  reachable d -> purchases d !! (user, key) = None ->
  PurchaseQuote user plan key expected version env d t = (Ok (e, d'), t') ->
  exists p, bought user plan key expected version p e d d'.
Proof.
  intros Hi%reachable_shop Hn Hrun. unfold PurchaseQuote in Hrun. destruct (negb _); [done|].
  destruct (purchaseTx_fresh _ _ _ _ _ _ _ _ _ _ _ Hi Hn Hrun) as (p & Hb & _). eauto.
Qed.

(** A purchase sent again with the same key is answered with the
    entitlement of the first one, at any clock, and changes nothing. *)
Theorem purchase_replay user plan key expected version env d t e d' t' env2 t2 :
  reachable d -> PurchaseQuote user plan key expected version env d t = (Ok (e, d'), t') ->
  PurchaseQuote user plan key expected version env2 d' t2 = (Ok (e, d'), t2).
Proof.
  intros Hi%reachable_shop Hrun. unfold PurchaseQuote in *. destruct (negb _); [done|].
  by eapply purchaseTx_replay.
Qed.

(** A redemption does what the code says: the code was enabled and
    not used up, its use count goes up by one, exactly its amount is
    credited, and its plan, if it has one, is granted with the plan's
    quota and period. *)
Theorem redeem_effect user plain env d t out d' t' :
  reachable d -> redeem_claims d !! (digestCode plain, user) = None ->
  RedeemCode user plain env d t = (Ok (out, d'), t') ->
  exists r ent, out = (rc_amount r, rc_plan r, ent) /\ redeemed user (digestCode plain) r ent d d'.
Proof.
  intros Hi%reachable_shop Hn Hrun.
  destruct (RedeemCode_fresh _ _ _ _ _ _ _ _ Hi Hn Hrun) as (r & ent & H1 & H2 & _). eauto.
Qed.

(** The same user redeeming the same code again gets the same answer
    and no second credit or grant. *)
Theorem redeem_replay user plain env d t out d' t' env2 t2 :
  reachable d -> RedeemCode user plain env d t = (Ok (out, d'), t') ->
  RedeemCode user plain env2 d' t2 = (Ok (out, d'), t2).
Proof. intros Hi%reachable_shop Hrun. by eapply RedeemCode_replay. Qed.

(** A lease is paid for in advance.  It reserves at most what was
    asked for and at most what the newest entitlement has left; the bytes
    it grants cost, at its multiplier, no more than the reservation; it
    ends with the entitlement or five minutes from now. *)
Theorem lease_granted user rule node multiplier requested env d t lease d' t' :
  reachable d -> AllocateBudgetWithMultiplier user rule node multiplier requested env d t = (Ok (lease, d'), t') ->
  exists eid e m budget now,
    is_latest user (entitlements d) (Some (eid, e)) /\ now < e_expires e /\ SetString multiplier = Some m /\
    0 < budget <= requested /\ (e_quota e = 0 \/ e_allocated e + budget <= e_quota e) /\
    0 < L_Bytes lease /\ ceil_charge (L_Bytes lease) m <= budget /\
    L_ExpiresAt lease = Z.min (e_expires e) (now + 5 * minute) /\
    entitlements d' = <[eid := add_allocated budget e]> (entitlements d) /\
    reservations d' = <[L_ID lease := {| rs_budget := budget; rs_closed := 0 |}]> (reservations d).
Proof.
  intros (_ & _ & _ & _ & _ & Hq)%reachable_shop Hrun.
  destruct (Allocate_Ok _ _ _ _ _ _ _ _ _ _ _ Hq Hrun)
    as (eid & e & [n dd] & b & now & l & Hl & Hnow & Hb & _ & Hc & _ & Hm & Hn & Hd & Hbytes & Hbr & _ & Hexp & _ & _ & _ & ->).
  exists eid, e, (n, dd), b, now. simpl in *. split; [exact Hl|]. do 4 (split; [done|]). split; [lia|].
  split; [|by repeat split]. rewrite Hbytes. apply ceil_charge_budget; [done|done|lia|]. split; [|done]. lia.
Qed.

(** Settlement is idempotent: a batch of usage that was accepted is
    accepted again and changes nothing. *)
Theorem settle_replayed records env d t u d' t' env2 t2 :
  reachable d -> SettleUsageBatch records env d t = (Ok (u, d'), t') ->
  SettleUsageBatch records env2 d' t2 = (Ok (tt, d'), t2).
Proof. intros (_ & _ & _ & _ & _ & Hq)%reachable_shop Hrun. by eapply Settle_replay. Qed.

(** A confirmed payment credits the order's amount, whatever the
    payable amount was, to the order's user with one ledger line, and
    marks the order paid by that transaction; or the order had been paid
    by the same transaction before and nothing changes. *)
Theorem payment_effect channel order transaction amount env d t u d' t' :
  reachable d -> ConfirmPaymentTx channel order transaction amount env d t = (Ok (u, d'), t') ->
  confirmed channel order transaction amount d d'.
Proof.
  intros Hi%reachable_money Hrun. by apply (ConfirmPayment_spec _ _ _ _ d _ _ _ _ _ _ Hrun).
Qed.

(** A confirmation delivered again (callback retry, reconciliation)
    succeeds again, at any clock, and credits nothing more. *)
Theorem payment_replay channel order transaction amount env d t u d' t' env2 t2 :
  reachable d -> ConfirmPaymentTx channel order transaction amount env d t = (Ok (u, d'), t') ->
  ConfirmPaymentTx channel order transaction amount env2 d' t2 = (Ok (tt, d'), t2).
Proof. intros Hi%reachable_money Hrun. by eapply ConfirmPayment_replay. Qed.

(** C40: refunds of a purchase add up.  In every reachable database, for
    every purchase whose identifier is a plan purchase's or an add-on's and
    not both (identifiers are drawn at random), the refunds are within its
    price, the quota removed for them is the rounded share of the plan's
    quota, and of a fully refunded purchase exactly the plan's quota,
    however the refund was split.  And a refund takes from the purchase's
    entitlement exactly what it adds to the removed quota, and nothing from
    any other entitlement. *)
Theorem refunds_telescope d :
  reachable d ->
  (forall purchase user ent plan,
     purchase_of (snapshots d) (addons d) purchase = Some (user, ent, plan) -> (is_Some (snapshots d !! purchase) -> addons d !! purchase = None) ->
     let total := refunded_of purchase (purchase_refunds d) in
     0 <= total <= P_Price plan /\ removed_of purchase (purchase_refunds d) = P_Quota plan * total / P_Price plan /\
     (total = P_Price plan -> removed_of purchase (purchase_refunds d) = P_Quota plan)) /\
  (forall actor purchase key reason amount env t out d' t',
     RefundPurchase actor purchase key reason amount env d t = (Ok (out, d'), t') ->
     exists user ent plan, purchase_of (snapshots d) (addons d) purchase = Some (user, ent, plan) /\
       let removed := removed_of purchase (purchase_refunds d') - removed_of purchase (purchase_refunds d) in
       entitlements d' = alter (fun e => set_quota (e_quota e - removed) e) ent (entitlements d)).
Proof.
  intros Hd. pose proof (reachable_shop _ Hd) as Hi. split.
  - intros purchase user ent plan Hof Hone total. destruct (purchase_of_ok _ _ _ _ _ Hi Hof) as [Hprice Hquota].
    pose proof (refunded_bounds purchase d Hi) as Hb. fold total in Hb.
    assert (H : total <= P_Price plan /\ removed_of purchase (purchase_refunds d) = fraction (P_Quota plan) total (P_Price plan)).
    { destruct (reachable_shares d Hd purchase Hone) as [[Hz Hr]|(u & e & p & Hof' & H)]; [|rewrite Hof in Hof'; by injection Hof' as <- <- <-].
      fold total in Hz. rewrite Hz, Hr. split; [lia|]. unfold fraction. by rewrite Z.mul_0_r, Z.quot_0_l by lia. }
    destruct H as [Hle Hr]. destruct (fraction_spec (P_Quota plan) total (P_Price plan)) as [Hf _]; [lia..|].
    split; [lia|]. split; [congruence|]. intros Hfull. rewrite Hr, Hfull. apply fraction_full; lia.
  - intros * Hrun. destruct (RefundPurchase_quota _ _ _ _ _ _ _ _ _ _ _ Hrun) as (user & ent & plan & Hof & Hq). exists user, ent, plan. split; [done|].
    destruct Hq as [[-> ->]|(r & Hn & -> & Hp & ->)].
    + rewrite Z.sub_diag. symmetry. apply map_eq. intros k. destruct (decide (ent = k)) as [<-|Hne]; [|by rewrite lookup_alter_ne].
      rewrite lookup_alter_eq. destruct (entitlements d !! ent) as [e|]; [|done]. cbn. rewrite Z.sub_0_r. by destruct e.
    + unfold removed_of. rewrite map_sum_insert_None, Hp, at_key_eq by done. apply alter_ext. intros e _. f_equal. lia.
Qed.

(** What the administrator created is what a purchase reads: [planTx]
    after [CreatePlan] returns the very plan the creation returned, active
    and at version 1. *)
Theorem plan_created p env d t q d' t' env2 t2 :
  reachable d -> P_Quota p <= MaxInt64 -> CreatePlan p env d t = (Ok (q, d'), t') ->
  P_Active q = true /\ P_Version q = 1 /\ planTx (P_ID q) env2 d' t2 = (Ok (q, d'), t2).
Proof. intros (_ & Hc & _)%reachable_shop. by apply CreatePlan_planTx. Qed.

(** An edit is accepted only at the version it was read at; it moves
    the version by one, keeps the plan's kind and availability, and is
    what the next purchase reads. *)
Theorem plan_updated p env d t q d' t' env2 t2 old :
  reachable d -> P_Quota p <= MaxInt64 ->
  planTx (P_ID p) env2 d t2 = (Ok (old, d), t2) -> UpdatePlan p env d t = (Ok (q, d'), t') ->
  P_Version p = P_Version old /\ P_Version q = wrap64 (P_Version old + 1) /\
  P_Active q = P_Active old /\ P_Kind q = P_Kind old /\ planTx (P_ID p) env2 d' t2 = (Ok (q, d'), t2).
Proof. intros (_ & Hc & _)%reachable_shop. by apply UpdatePlan_planTx. Qed.
End Operations.

(** An amount of money written for a gateway reads back as the same
    number of cents. *)
Theorem amount_roundtrip c : 0 <= c <= MaxAmountCents -> ParseAmount (FormatAmount c) = Ok c.
Proof. apply parse_format_amount. Qed.

(** A month-based period keeps the time of day in the plan's time zone
    and ends on the same day of the month, or on the last day of a shorter
    month; it always ends after it started. *)
Theorem months_later t months : 1 <= months ->
  let '(k, d) := civil (local_day t) in
  civil (local_day (AddMonths t months)) = (k + months, Z.min d (month_length (k + months))) /\
  local_tod (AddMonths t months) = local_tod t /\ t < AddMonths t months.
Proof.
  intros Hm. pose proof (AddMonths_civil t months) as Hc. pose proof (AddMonths_bounds t months Hm) as Hb.
  destruct (civil (local_day t)) as [k d]. destruct Hc as [H1 H2]. split; [exact H1|]. split; [exact H2|lia].
Qed.

(** ** Witnesses *)

(** A decidable property of every row, checked by running it. *)
Lemma rows_checked `{Countable K} {R} (m : gmap K R) (p : K -> R -> bool) k r :
  forallb (fun kr => p kr.1 kr.2) (map_to_list m) = true -> m !! k = Some r -> p k r = true.
Proof.
  intros Hall Hk. apply elem_of_map_to_list, list_elem_of_In in Hk.
  by apply (proj1 (forallb_forall _ _) Hall (k, r)).
Qed.

Lemma prefix_app p s : String.prefix p (p ++ s) = true.
Proof. induction p as [|c p IH]; simpl; [by destruct s|]. by destruct (ascii_dec c c). Qed.

Lemma no_prefix {R} (m : gmap string R) p s :
  forallb (fun kr => negb (String.prefix p kr.1)) (map_to_list m) = true -> m !! (p ++ s) = None.
Proof.
  intros Hall. destruct (m !! (p ++ s)) as [r|] eqn:E; [|done].
  apply (rows_checked m (fun k _ => negb (String.prefix p k)) _ _ Hall) in E. by rewrite prefix_app in E.
Qed.

Lemma demo_new_ids : new_ids (demo_env 20) demo.
Proof.
  intros n. change (env_rand (demo_env 20) n) with ("e20-" ++ FormatInt (Z.of_nat n)).
  split; apply no_prefix; vm_compute; reflexivity.
Qed.

Lemma debit_decides_witness :
  (exists t', post "alice" (-5000) "adjustment" "w-1" (demo_env 20) demo 0%nat = (Err ErrFunds, t')) /\
  (exists d' t', post "alice" (-4900) "adjustment" "w-1" (demo_env 20) demo 0%nat = (Ok (tt, d'), t') /\
     Wallet d' "alice" = 0).
Proof.
  assert (Hnew : forall k r, ledger demo !! k = Some r -> l_reference r <> "w-1").
  { intros k r Hk He. apply (rows_checked _ (fun _ r => negb (String.eqb (l_reference r) "w-1"))) in Hk;
      [rewrite He in Hk; discriminate Hk|vm_compute; reflexivity]. }
  assert (Halloc : forall sid, fund_allocs demo !! ("w-1", sid) = None).
  { intros sid. destruct (fund_allocs demo !! ("w-1", sid)) eqn:E; [|reflexivity].
    apply (rows_checked _ (fun k _ => negb (String.eqb k.1 "w-1"))) in E; [discriminate E|vm_compute; reflexivity]. }
  assert (HW : Wallet demo "alice" = 4900) by (vm_compute; reflexivity).
  assert (Hleg : fund_sources demo !! ("legacy:" ++ "alice") = None) by (vm_compute; reflexivity).
  assert (Hk : "adjustment" <> "refund_reserve") by discriminate. split.
  - pose proof (debit_decides (demo_env 20) "alice" (-5000) "adjustment" "w-1" demo 0%nat demo_reachable demo_new_ids
      ltac:(unfold MaxInt64; lia) Hk Hnew Halloc Hleg) as H. rewrite HW in H. exact H.
  - pose proof (debit_decides (demo_env 20) "alice" (-4900) "adjustment" "w-1" demo 0%nat demo_reachable demo_new_ids
      ltac:(unfold MaxInt64; lia) Hk Hnew Halloc Hleg) as H. rewrite HW in H.
    destruct H as (d' & t' & Hrun & Hmv & _). exists d', t'. split; [exact Hrun|].
    rewrite Hmv. unfold move. simpl. rewrite HW. reflexivity.
Defined.

(** The run named by [E] did not fail. *)
Definition succeeded {A} (r : res A * nat) : bool := match r.1 with Ok _ => true | Err _ => false end.
Ltac ran E :=
  match type of E with ?run = _ =>
    let H := fresh in assert (H : succeeded run = true) by (vm_compute; reflexivity); rewrite E in H; discriminate H
  end.

Lemma purchase_effect_witness :
  match PurchaseQuote "alice" "e5-0" "buy-1" 0 1 (demo_env 6) (demo_at 6) 0%nat with
  | (Ok (e, d'), _) => exists p, bought "alice" "e5-0" "buy-1" 0 1 p e (demo_at 6) d'
  | _ => False
  end.
Proof.
  destruct (PurchaseQuote "alice" "e5-0" "buy-1" 0 1 (demo_env 6) (demo_at 6) 0%nat) as [[[e d']|err] t'] eqn:E; [|ran E].
  refine (purchase_effect _ _ _ _ _ _ _ _ _ _ _ (demo_at_reachable 6) _ E). vm_compute. reflexivity.
Defined.

Lemma purchase_replay_witness :
  match PurchaseQuote "alice" "e5-0" "buy-1" 0 1 (demo_env 6) (demo_at 6) 0%nat with
  | (Ok (e, d'), _) => PurchaseQuote "alice" "e5-0" "buy-1" 0 1 (demo_env 30) d' 0%nat = (Ok (e, d'), 0%nat)
  | _ => False
  end.
Proof.
  destruct (PurchaseQuote "alice" "e5-0" "buy-1" 0 1 (demo_env 6) (demo_at 6) 0%nat) as [[[e d']|err] t'] eqn:E; [|ran E].
  exact (purchase_replay _ _ _ _ _ _ _ _ _ _ _ (demo_env 30) 0%nat (demo_at_reachable 6) E).
Defined.

Lemma redeem_effect_witness :
  match RedeemCode "alice" "TFP-E9-0" (demo_env 10) (demo_at 10) 0%nat with
  | (Ok (out, d'), _) => exists r ent, out = (rc_amount r, rc_plan r, ent) /\
      redeemed "alice" (digestCode "TFP-E9-0") r ent (demo_at 10) d'
  | _ => False
  end.
Proof.
  destruct (RedeemCode "alice" "TFP-E9-0" (demo_env 10) (demo_at 10) 0%nat) as [[[out d']|err] t'] eqn:E; [|ran E].
  refine (redeem_effect _ _ _ _ _ _ _ _ (demo_at_reachable 10) _ E). vm_compute. reflexivity.
Defined.

Lemma redeem_replay_witness :
  match RedeemCode "alice" "TFP-E9-0" (demo_env 10) (demo_at 10) 0%nat with
  | (Ok (out, d'), _) => RedeemCode "alice" "TFP-E9-0" (demo_env 30) d' 0%nat = (Ok (out, d'), 0%nat)
  | _ => False
  end.
Proof.
  destruct (RedeemCode "alice" "TFP-E9-0" (demo_env 10) (demo_at 10) 0%nat) as [[[out d']|err] t'] eqn:E; [|ran E].
  exact (redeem_replay _ _ _ _ _ _ _ _ (demo_env 30) 0%nat (demo_at_reachable 10) E).
Defined.

Lemma lease_granted_witness :
  match AllocateBudgetWithMultiplier "alice" "rule" "node" "3/2" 67108864 (demo_env 7) (demo_at 7) 0%nat with
  | (Ok (lease, _), _) => exists m budget, SetString "3/2" = Some m /\ budget <= 67108864 /\
      ceil_charge (L_Bytes lease) m <= budget
  | _ => False
  end.
Proof.
  destruct (AllocateBudgetWithMultiplier "alice" "rule" "node" "3/2" 67108864 (demo_env 7) (demo_at 7) 0%nat)
    as [[[lease d']|err] t'] eqn:E; [|ran E].
  destruct (lease_granted _ _ _ _ _ _ _ _ _ _ _ (demo_at_reachable 7) E)
    as (eid & e & m & b & now & _ & _ & Hm & Hb & _ & _ & Hc & _).
  exists m, b. split; [exact Hm|]. split; [exact (proj2 Hb)|exact Hc].
Defined.

Definition demo_usage : list UsageRecord :=
  [{| U_ID := "u1"; U_NodeID := "node"; U_RuleID := "rule"; U_LeaseID := "e7-1";
      U_EntitlementID := "e6-0"; U_StartedAt := 1700000007 * second; U_EndedAt := 1700000008 * second;
      U_UploadBytes := 1001; U_DownloadBytes := 0; U_Kind := ""; U_WindowID := ""; U_WindowSequence := 0 |}].

Lemma settle_replayed_witness :
  match SettleUsageBatch demo_usage (demo_env 8) (demo_at 8) 0%nat with
  | (Ok (_, d'), _) => SettleUsageBatch demo_usage (demo_env 30) d' 0%nat = (Ok (tt, d'), 0%nat)
  | _ => False
  end.
Proof.
  destruct (SettleUsageBatch demo_usage (demo_env 8) (demo_at 8) 0%nat) as [[[u d']|err] t'] eqn:E; [|ran E].
  exact (settle_replayed _ _ _ _ _ _ _ (demo_env 30) 0%nat (demo_at_reachable 8) E).
Defined.

Lemma payment_effect_witness :
  match ConfirmPaymentTx "epay" "e3-0" "tx-1" 5000 (demo_env 4) (demo_at 4) 0%nat with
  | (Ok (_, d'), _) => confirmed "epay" "e3-0" "tx-1" 5000 (demo_at 4) d'
  | _ => False
  end.
Proof.
  destruct (ConfirmPaymentTx "epay" "e3-0" "tx-1" 5000 (demo_env 4) (demo_at 4) 0%nat) as [[[u d']|err] t'] eqn:E; [|ran E].
  exact (payment_effect _ _ _ _ _ _ _ _ _ _ (demo_at_reachable 4) E).
Defined.

Lemma payment_replay_witness :
  match ConfirmPaymentTx "epay" "e3-0" "tx-1" 5000 (demo_env 4) (demo_at 4) 0%nat with
  | (Ok (_, d'), _) => ConfirmPaymentTx "epay" "e3-0" "tx-1" 5000 (demo_env 30) d' 0%nat = (Ok (tt, d'), 0%nat)
  | _ => False
  end.
Proof.
  destruct (ConfirmPaymentTx "epay" "e3-0" "tx-1" 5000 (demo_env 4) (demo_at 4) 0%nat) as [[[u d']|err] t'] eqn:E; [|ran E].
  exact (payment_replay _ _ _ _ _ _ _ _ _ _ (demo_env 30) 0%nat (demo_at_reachable 4) E).
Defined.

(** A purchase for 1000 cents with a gibibyte, of which 100 cents are
    refunded. *)
Lemma refunds_telescope_witness :
  (match purchase_of (snapshots demo) (addons demo) "e6-0" with
   | Some (_, _, plan) => refunded_of "e6-0" (purchase_refunds demo) = 100 /\ P_Price plan = 1000 /\
       removed_of "e6-0" (purchase_refunds demo) = P_Quota plan * 100 / 1000
   | None => False
   end) /\
  match RefundPurchase "root" "e6-0" "partial-1" "slow line" 100 (demo_env 14) (demo_at 14) 0%nat with
  | (Ok (_, d'), _) => exists ent, entitlements d' =
      alter (fun e => set_quota (e_quota e - (removed_of "e6-0" (purchase_refunds d') - removed_of "e6-0" (purchase_refunds (demo_at 14)))) e) ent (entitlements (demo_at 14))
  | _ => False
  end.
Proof.
  split.
  - destruct (purchase_of (snapshots demo) (addons demo) "e6-0") as [[[user ent] plan]|] eqn:Ep; [|vm_compute in Ep; discriminate Ep].
    destruct (proj1 (refunds_telescope demo demo_reachable) _ _ _ _ Ep) as (_ & H & _); [intros _; vm_compute; reflexivity|].
    assert (Hr : refunded_of "e6-0" (purchase_refunds demo) = 100) by (vm_compute; reflexivity).
    assert (Hp : P_Price plan = 1000) by (vm_compute in Ep; injection Ep as _ _ <-; reflexivity).
    rewrite Hr, Hp in H. exact (conj Hr (conj Hp H)).
  - destruct (RefundPurchase "root" "e6-0" "partial-1" "slow line" 100 (demo_env 14) (demo_at 14) 0%nat) as [[[out d']|err] t'] eqn:E; [|ran E].
    destruct (proj2 (refunds_telescope (demo_at 14) (demo_at_reachable 14)) _ _ _ _ _ _ _ _ _ _ E) as (user & ent & plan & _ & H). exists ent. exact H.
Defined.

Lemma plan_created_witness :
  match CreatePlan demo_plan (demo_env 5) (demo_at 5) 0%nat with
  | (Ok (q, d'), _) => planTx (P_ID q) (demo_env 30) d' 0%nat = (Ok (q, d'), 0%nat)
  | _ => False
  end.
Proof.
  destruct (CreatePlan demo_plan (demo_env 5) (demo_at 5) 0%nat) as [[[q d']|err] t'] eqn:E; [|ran E].
  assert (Hq : P_Quota demo_plan <= MaxInt64) by discriminate.
  exact (proj2 (proj2 (plan_created _ _ _ _ _ _ _ (demo_env 30) 0%nat (demo_at_reachable 5) Hq E))).
Defined.

(** The plan of the history at double the price. *)
Definition dearer_plan : Plan :=
  {| P_Limits := {| MaxRules := 5 |}; P_ID := "e5-0"; P_Name := "basic"; P_Price := 2000; P_Quota := 1073741824;
     P_PriceYuan := None; P_QuotaGB := None; P_Months := 1; P_DurationUnit := "month"; P_DurationValue := 1;
     P_Active := true; P_Version := 1; P_Kind := "period" |}.

Lemma plan_updated_witness :
  match UpdatePlan dearer_plan (demo_env 30) demo 0%nat with
  | (Ok (q, d'), _) => P_Version q = 2 /\ planTx "e5-0" (demo_env 31) d' 0%nat = (Ok (q, d'), 0%nat)
  | _ => False
  end.
Proof.
  destruct (UpdatePlan dearer_plan (demo_env 30) demo 0%nat) as [[[q d']|err] t'] eqn:E; [|ran E].
  destruct (planTx "e5-0" (demo_env 31) demo 0%nat) as [[[old d0]|err] t0] eqn:Eo; [|ran Eo].
  assert (Hq : P_Quota dearer_plan <= MaxInt64) by discriminate.
  assert (Hold : planTx (P_ID dearer_plan) (demo_env 31) demo 0%nat = (Ok (old, demo), 0%nat)).
  { destruct (reader_again _ _ _ _ _ _ _ (planTx_reader "e5-0") Eo) as (-> & -> & _). exact Eo. }
  destruct (plan_updated _ _ _ _ _ _ _ _ _ _ demo_reachable Hq Hold E) as (H1 & H2 & _ & _ & H5).
  split; [|exact H5]. rewrite H2, <- H1. reflexivity.
Defined.

Lemma amount_roundtrip_witness : FormatAmount 123456 = "1234.56" /\ ParseAmount (FormatAmount 123456) = Ok 123456.
Proof. split; [vm_compute; reflexivity|]. apply amount_roundtrip. unfold MaxAmountCents. lia. Defined.

(** January 31st, 2024, 03:00, one month later. *)
Lemma months_later_witness :
  let t := from_local (date (12 * 2024) 31) (3 * hour) in
  civil (local_day t) = (12 * 2024, 31) /\ civil (local_day (AddMonths t 1)) = (12 * 2024 + 1, 29).
Proof.
  intros t. assert (H : civil (local_day t) = (12 * 2024, 31)) by (vm_compute; reflexivity). split; [exact H|].
  pose proof (months_later t 1 ltac:(lia)) as Hm. rewrite H in Hm. exact (proj1 Hm).
Defined.
