(* ===== verification/Guarantees.v ===== *)
(** * What holds in every reachable database

    The invariants of the components, read as statements about the service:
    each theorem holds after any sequence of operations, with any clocks,
    any identifiers (fresh or not) and any changes of the platform's own
    tables in between.  The witnesses apply them to the history of
    [Scenarios]. *)

From S2P Require Import Prelude Tx GoStrings Calendar Digest Money Rational PlanRules Schema Wallet Plans Quota Purchases Refunds Payments Commerce Scenarios.
From stdpp Require Import base gmap strings list relations.
From Stdlib Require Import Ascii String.
Local Open Scope string_scope.
Local Open Scope Z_scope.

Section Guarantees.
Context {RS : RatSyntax}.

Lemma reachable_parts d : reachable d ->
  wallet_inv d /\ catalog_inv d /\ bought_inv d /\ codes_inv d /\ commission_inv d /\ quota_inv d /\
  pay_inv d /\ referral_inv d.
Proof. intros [[(?&?&?&?&?&?) ?] ?]%reachable_inv. done. Qed.

(** C6: every balance is the sum of the user's ledger lines, and it is
    never negative nor beyond int64. *)
Theorem reachable_balance d user :
  reachable d -> Wallet d user = ledger_sum user (ledger d) /\ 0 <= Wallet d user <= MaxInt64.
Proof.
  intros (Hw & _)%reachable_parts. split; [apply (wi_ledger _ _ _ _ _ Hw)|by apply Wallet_range].
Qed.

(** C7: money keeps its provenance.  The fund sources of a tracked user
    add up to his balance; a source splits exactly into what remains of
    it and what debits hold of it; no debit gives back more than it
    took. *)
Theorem reachable_provenance d :
  reachable d ->
  (forall user, is_Some (fund_accounts d !! user) -> funds user (fund_sources d) = Wallet d user) /\
  (forall sid s, fund_sources d !! sid = Some s ->
    0 <= f_remaining s /\ f_amount s = f_remaining s + outstanding sid (fund_allocs d)) /\
  (forall k a, fund_allocs d !! k = Some a -> 0 <= a_restored a <= a_amount a).
Proof.
  intros (Hw & _)%reachable_parts. destruct (wi_books _ _ _ _ _ Hw) as [Hb _ Hr Ha Hs _].
  split; [exact Hb|split; [|exact Ha]]. intros sid s Hsid. split; [by eapply Hr|by apply Hs].
Qed.

(** No reference is posted twice: two different ledger lines never
    carry the same reference, so a payment, purchase, redemption or refund
    has at most one. *)
Theorem reachable_references d k r k' r' :
  reachable d -> ledger d !! k = Some r -> ledger d !! k' = Some r' -> k <> k' -> l_reference r <> l_reference r'.
Proof. intros (Hw & _)%reachable_parts Hk Hk' Hne He. apply Hne. by eapply (wi_reference _ _ _ _ _ Hw). Qed.

(** C8: the quota of an entitlement is never oversold: its reservation is
    exactly what its leases hold (the budget of an open lease, the charge
    of a closed one), its usage is the charge of its leases, and
    [used <= allocated <= quota] unless it is unlimited. *)
Theorem reachable_quota d eid e :
  reachable d -> entitlements d !! eid = Some e ->
  e_allocated e = held_by eid (reservations d) (leases d) /\ e_used e = charged_to eid (leases d) /\
  0 <= e_used e <= e_allocated e /\ (e_quota e = 0 \/ e_allocated e <= e_quota e).
Proof.
  intros (_ & _ & _ & _ & _ & Hq & _)%reachable_parts He.
  pose proof (q_alloc _ _ _ _ _ _ _ Hq _ _ He) as Ha. pose proof (q_used _ _ _ _ _ _ _ Hq _ _ He) as Hu.
  pose proof (charged_held eid _ _ _ _ _ _ _ Hq) as Hc. destruct (q_quota _ _ _ _ _ _ _ Hq _ _ He) as [_ Hquota].
  unfold Quota.zero in Hu. repeat split; auto; lia.
Qed.

(** C9: metering is exact.  The bytes of a lease are the bytes of its
    records, and what the records were charged adds up to the rounded
    price of the total, so splitting traffic into more records costs
    nothing. *)
Theorem reachable_metering d k l :
  reachable d -> leases d !! k = Some l ->
  le_used l = raw_of k (usage d) /\ recorded k (usage d) = ceil_charge (le_used l) (mult_of l) /\
  0 <= le_used l <= le_bytes l.
Proof.
  intros (_ & _ & _ & _ & _ & Hq & _)%reachable_parts Hl.
  pose proof (q_raw _ _ _ _ _ _ _ Hq _ _ Hl). pose proof (q_charged _ _ _ _ _ _ _ Hq _ _ Hl) as Hc.
  pose proof (lk_used _ _ _ _ (q_lease _ _ _ _ _ _ _ Hq _ _ Hl)). unfold Quota.zero, charge_of in *. repeat split; lia.
Qed.

(** The open leases of one user never hold more than 512 MiB of
    budget. *)
Theorem reachable_budget d user :
  reachable d -> 0 <= outstanding_budget user (leases d) (reservations d) <= 512 * mib.
Proof.
  intros (_ & _ & _ & _ & _ & Hq & _)%reachable_parts. split; [|apply (q_user _ _ _ _ _ _ _ Hq)].
  by eapply outstanding_nonneg.
Qed.

(** C10: an order is credited exactly when it is settled.  A settled order
    has its provider transaction and exactly one recharge in the ledger, of
    its amount and to its user; an order that is not settled has no
    transaction and no recharge. *)
Theorem reachable_settled d k o :
  reachable d -> orders d !! k = Some o ->
  let credit lid l := ledger d !! lid = Some l /\ l_kind l = "recharge" /\ l_reference l = "payment:" ++ k in
  if settled (o_status o)
  then exists tx lid l, o_tx o = Some tx /\ credit lid l /\ l_user l = o_user o /\ l_amount l = o_amount o /\
         forall lid' l', credit lid' l' -> lid' = lid
  else o_tx o = None /\ forall lid l, ~ credit lid l.
Proof.
  intros Hd Ho. pose proof (reachable_recharges d Hd) as Hc. pose proof (reachable_parts d Hd) as (Hw & _ & _ & _ & _ & _ & Hp & _).
  destruct (settled (o_status o)) eqn:E.
  - destruct (py_credited _ _ _ Hp _ _ Ho E) as (tx & lid & l & Htx & Hl & Hr & Hu & Ha & Hk). exists tx, lid, l. do 4 (split; [done|]).
    intros lid' l' (Hl' & _ & Hr'). eapply (wi_reference _ _ _ _ _ Hw); [exact Hl'|exact Hl|congruence].
  - split; [by eapply (py_unsettled _ _ _ Hp)|]. intros lid l (Hl & Hk & Hr).
    destruct (Hc _ _ Hl Hk) as (k' & o' & Hr' & Ho' & Hs). rewrite Hr in Hr'. apply (inj (String.append "payment:")) in Hr' as <-. congruence.
Qed.

(** C11: the refunds of an order that are pending or completed never add
    up to more than was paid. *)
Theorem reachable_refunds d k o :
  reachable d -> orders d !! k = Some o -> 0 <= reserved_of k (refunds d) <= o_amount o.
Proof.
  intros (_ & _ & _ & _ & _ & _ & Hp & _)%reachable_parts Ho. split; [|by apply (py_reserved _ _ _ Hp)].
  apply map_sum_nonneg. intros r x Hx. destruct (py_refund _ _ _ Hp _ _ Hx). unfold at_key.
  destruct (String.eqb (rf_order x) k), (live (rf_status x)); lia.
Qed.

(** One receipt pays one order: the provider transaction of a settled
    order is not the transaction of any other order of its channel. *)
Theorem reachable_receipts d k o k' o' tx :
  reachable d -> orders d !! k = Some o -> orders d !! k' = Some o' -> o_channel o = o_channel o' ->
  o_tx o = Some tx -> k <> k' -> o_tx o' <> Some tx.
Proof.
  intros (_ & _ & _ & _ & _ & _ & Hp & _)%reachable_parts Ho Ho' Hc Ht Hne Ht'. apply Hne.
  eapply (py_receipt _ _ _ Hp); eauto; congruence.
Qed.

(** A redeem code is never used more often than it allows. *)
Theorem reachable_codes d k r :
  reachable d -> redeem_codes d !! k = Some r -> 0 <= rc_used r <= rc_max r.
Proof. intros (_ & _ & _ & Hc & _)%reachable_parts Hr. apply (Hc _ _ Hr). Qed.

(** A commission is positive and is reversed by at most its
    amount. *)
Theorem reachable_commissions d k r :
  reachable d -> commission_refunds d !! k = Some r ->
  exists c, commissions d !! k = Some c /\ 0 < c_amount c /\ 0 <= r <= c_amount c.
Proof.
  intros (_ & _ & _ & _ & Hc & _)%reachable_parts Hr. destruct (cm_reversed _ _ _ Hc _ _ Hr) as (c & Hk & Hb).
  exists c. repeat split; [done| |lia|lia]. by apply (cm_amount _ _ _ Hc _ _ Hk).
Qed.

(** Nobody is his own ancestor in the referral graph. *)
Theorem reachable_referrals d user :
  reachable d -> ~ tc (invites (referral_bindings d)) user user.
Proof. intros (_ & _ & _ & _ & _ & _ & _ & Hr)%reachable_parts. apply (rf_acyclic _ Hr). Qed.

(** Every plan of the catalogue can be read back for a purchase, with
    a price of at most a million yuan and a quota that fits int64. *)
Theorem reachable_catalogue d plan row env t :
  reachable d -> plans d !! plan = Some row ->
  exists p, planTx plan env d t = (Ok (p, d), t) /\ P_Price p = pl_price row /\ P_Quota p = pl_quota row /\
    0 < P_Price p <= 100000000 /\ 0 <= P_Quota p <= MaxInt64.
Proof.
  intros (_ & Hc & _)%reachable_parts Hp.
  destruct (proj1 (ci_state _ _ _ Hc plan) (mk_is_Some _ _ Hp)) as [st Hst].
  eexists. split; [by apply planTx_runs|]. pose proof (ci_price _ _ _ Hc _ _ Hp).
  unfold plan_of. by destruct (plan_limits d !! plan).
Qed.
End Guarantees.

(** ** The guarantees at work

    The history of [Scenarios] leaves alice 49.00 yuan: recharges of 50.00
    and 20.00, a plan of 10.00 of which 1.00 came back, a code of 3.00 and a
    refund request of 15.00. *)

(** Look a row of the history up. *)
Ltac row E := vm_compute in E; first [discriminate E|injection E as <-; reflexivity].

Lemma reachable_balance_witness :
  Wallet demo "alice" = 4900 /\ Wallet demo "alice" = ledger_sum "alice" (ledger demo).
Proof.
  split; [vm_compute; reflexivity|]. exact (proj1 (reachable_balance demo "alice" demo_reachable)).
Defined.

Lemma reachable_provenance_witness :
  is_Some (fund_accounts demo !! "alice") /\ funds "alice" (fund_sources demo) = Wallet demo "alice".
Proof.
  assert (H : is_Some (fund_accounts demo !! "alice")) by (vm_compute; eexists; reflexivity).
  split; [exact H|]. exact (proj1 (reachable_provenance demo demo_reachable) "alice" H).
Defined.

Lemma reachable_references_witness :
  match ledger demo !! "e4-1", ledger demo !! "e13-1" with
  | Some r, Some r' => l_reference r = "payment:e3-0" /\ l_reference r <> l_reference r'
  | _, _ => False
  end.
Proof.
  destruct (ledger demo !! "e4-1") as [r|] eqn:E; [|row E]. destruct (ledger demo !! "e13-1") as [r'|] eqn:E'; [|row E'].
  split; [row E|]. apply (reachable_references demo "e4-1" r "e13-1" r' demo_reachable E E'). discriminate.
Defined.

Lemma reachable_quota_witness :
  match entitlements demo !! "e6-0" with
  | Some e => e_used e = 1502 /\ 0 <= e_used e <= e_allocated e
  | None => False
  end.
Proof.
  destruct (entitlements demo !! "e6-0") as [e|] eqn:E; [|row E]. split; [row E|].
  destruct (reachable_quota demo "e6-0" e demo_reachable E) as (_ & _ & H & _). exact H.
Defined.

Lemma reachable_metering_witness :
  match leases demo !! "e7-1" with
  | Some l => le_used l = 1001 /\ recorded "e7-1" (usage demo) = ceil_charge (le_used l) (mult_of l)
  | None => False
  end.
Proof.
  destruct (leases demo !! "e7-1") as [l|] eqn:E; [|row E]. split; [row E|].
  destruct (reachable_metering demo "e7-1" l demo_reachable E) as (_ & H & _). exact H.
Defined.

Lemma reachable_budget_witness :
  outstanding_budget "alice" (leases demo) (reservations demo) = 64 * mib /\
  outstanding_budget "alice" (leases demo) (reservations demo) <= 512 * mib.
Proof. split; [vm_compute; reflexivity|]. exact (proj2 (reachable_budget demo "alice" demo_reachable)). Defined.

Lemma reachable_settled_witness :
  match orders demo !! "e3-0" with
  | Some o => exists lid l, ledger demo !! lid = Some l /\ l_reference l = "payment:e3-0" /\ l_amount l = o_amount o
  | None => False
  end.
Proof.
  destruct (orders demo !! "e3-0") as [o|] eqn:E; [|row E].
  pose proof (reachable_settled demo "e3-0" o demo_reachable E) as H.
  assert (Hs : settled (o_status o) = true) by row E. rewrite Hs in H.
  destruct H as (tx & lid & l & _ & (Hl & _ & Hr) & _ & Ha & _). exists lid, l. exact (conj Hl (conj Hr Ha)).
Defined.

Lemma reachable_refunds_witness :
  match orders demo !! "e3-0" with
  | Some o => reserved_of "e3-0" (refunds demo) = 1500 /\ reserved_of "e3-0" (refunds demo) <= o_amount o
  | None => False
  end.
Proof.
  destruct (orders demo !! "e3-0") as [o|] eqn:E; [|row E]. split; [vm_compute; reflexivity|].
  exact (proj2 (reachable_refunds demo "e3-0" o demo_reachable E)).
Defined.

Lemma reachable_receipts_witness :
  match orders demo !! "e3-0", orders demo !! "e12-0" with
  | Some _, Some o' => o_tx o' <> Some "tx-1"
  | _, _ => False
  end.
Proof.
  destruct (orders demo !! "e3-0") as [o|] eqn:E; [|row E]. destruct (orders demo !! "e12-0") as [o'|] eqn:E'; [|row E'].
  refine (reachable_receipts demo "e3-0" o "e12-0" o' "tx-1" demo_reachable E E' _ _ _).
  - vm_compute in E, E'. injection E as <-. injection E' as <-. reflexivity.
  - row E.
  - discriminate.
Defined.

Lemma reachable_codes_witness :
  match redeem_codes demo !! digestCode "tfp-e9-0" with
  | Some r => rc_used r = 1 /\ 0 <= rc_used r <= rc_max r
  | None => False
  end.
Proof.
  destruct (redeem_codes demo !! digestCode "tfp-e9-0") as [r|] eqn:E; [|row E]. split; [row E|].
  exact (reachable_codes demo _ r demo_reachable E).
Defined.

Lemma reachable_commissions_witness :
  commission_refunds demo !! "e6-8" = Some 10 /\
  exists c, commissions demo !! "e6-8" = Some c /\ 0 < c_amount c /\ 0 <= 10 <= c_amount c.
Proof.
  assert (H : commission_refunds demo !! "e6-8" = Some 10) by (vm_compute; reflexivity).
  split; [exact H|]. exact (reachable_commissions demo "e6-8" 10 demo_reachable H).
Defined.

Lemma reachable_referrals_witness :
  option_map b_inviter (referral_bindings demo !! "alice") = Some "bob" /\
  ~ tc (invites (referral_bindings demo)) "alice" "alice".
Proof. split; [vm_compute; reflexivity|]. exact (reachable_referrals demo "alice" demo_reachable). Defined.

Lemma reachable_catalogue_witness :
  exists p, planTx "e5-0" (demo_env 20) demo 0%nat = (Ok (p, demo), 0%nat) /\ 0 < P_Price p <= 100000000.
Proof.
  destruct (plans demo !! "e5-0") as [pl|] eqn:E; [|row E].
  destruct (reachable_catalogue demo "e5-0" pl (demo_env 20) 0%nat demo_reachable E) as (p & Hp & _ & _ & Hb & _).
  exists p. exact (conj Hp Hb).
Defined.
