(* ===== verification/AgentState.v ===== *)
(** * The agent's durable ledger (internal/agent/state.go, durable_bounds.go,
    and the event half of credits.go)

    A node may only forward traffic it has budget for.  The agent keeps its
    leases, what was spent of each, the usage not yet confirmed by the panel
    and the reserved credit windows in a state that changes only by events:
    an event is appended to a log, synced and then applied, and a restart
    applies the log again.  This file has the state, the events, their
    validation and their application.

    A Go map read at an absent key gives the zero value; a pointer field is
    an [option].  The fields of a rule that the ledger only compares
    ([reflect.DeepEqual] in [sameForwardingRule]) are one value each,
    [R_Rest] and [RC_Rest]. *)

From S2P Require Import Prelude Tx GoStrings Calendar Rational Schema Quota.
From stdpp Require Import base gmap strings list sorting.
From Stdlib Require Import Ascii String.
Local Open Scope string_scope.
Local Open Scope Z_scope.

(** ** Contract types (internal/contract/types.go, limits.go) *)

Record ResourceLimits := { RL_MaxRules : Z; RL_MaxConnections : Z; RL_MaxIPs : Z; RL_BytesPerSecond : Z }.
Record NodeLease := { NL_ID : string; NL_EntitlementID : string; NL_ExpiresAt : Z; NL_Bytes : Z; NL_Limits : ResourceLimits }.
Record UDPOptions := { CreditWindows : bool; MaxSessions : Z }.
Record RouteCandidate := { RC_ID : string; RC_Weight : Z; RC_Rest : string }.
Record Rule := {
  R_ID : string; R_UserID : string; R_Network : string; R_Enabled : bool; R_UDP : option UDPOptions;
  R_Lease : option NodeLease; R_StandbyLease : option NodeLease; R_LeasePipeline : bool;
  R_Candidates : list RouteCandidate; R_Rest : string
}.
Record Config := { C_NodeID : string; C_Version : Z; C_ValidUntil : Z; C_Rules : list Rule }.
Record Registered := { G_NodeID : string; G_Token : string }.

#[export] Instance ResourceLimits_eq : EqDecision ResourceLimits.
Proof. solve_decision. Defined.
#[export] Instance NodeLease_eq : EqDecision NodeLease.
Proof. solve_decision. Defined.
#[export] Instance UDPOptions_eq : EqDecision UDPOptions.
Proof. solve_decision. Defined.
#[export] Instance RouteCandidate_eq : EqDecision RouteCandidate.
Proof. solve_decision. Defined.
#[export] Instance Rule_eq : EqDecision Rule.
Proof. solve_decision. Defined.
#[export] Instance Registered_eq : EqDecision Registered.
Proof. solve_decision. Defined.

Definition MaxPendingRecords : Z := 4096.
Definition maxRetainedLeases : Z := 16384.
Definition creditWindowSize : Z := 256 * 1024.
Definition maxRuleCredits : Z := 1024 * 1024.
Definition maxAccountCredits : Z := 8 * 1024 * 1024.
Definition maxTCPCreditWindow : Z := 2 * 1024 * 1024.
Definition maxTCPRuleCredits : Z := 4 * 1024 * 1024.

Definition errLeaseUnavailable : error := ErrMsg "configuration or lease unavailable".
Definition errSpoolFull : error := ErrMsg "usage spool full".
Definition errCreditUnavailable : error := ErrMsg "persisted credit unavailable".

(** ** Credit windows *)

Record creditWindow := {
  W_ID : string; W_UserID : string; W_RuleID : string; W_LeaseID : string; W_Upload : bool;
  W_Capacity : Z; W_Confirmed : Z; W_Sequence : Z; W_StartedAt : Z; W_Until : Z; W_Closed : bool; W_TCP : bool
}.
(** [creditWindow.limits] *)
Definition window_limit (w : creditWindow) : Z := if W_TCP w then maxTCPCreditWindow else creditWindowSize.
Definition rule_limit (w : creditWindow) : Z := if W_TCP w then maxTCPRuleCredits else maxRuleCredits.
Definition left (w : creditWindow) : Z := W_Capacity w - W_Confirmed w.

(** ** The durable state and its events *)

Record diskState := {
  Identity : Registered; Cfg : Config; Used : gmap string Z; Pending : list UsageRecord;
  Retired : gmap string bool; Leases : gmap string NodeLease; Windows : gmap string creditWindow
}.
Record stateEvent := {
  Kind : string; Ev_Identity : option Registered; Ev_Config : option Config; Ev_Usage : option UsageRecord;
  Ev_Lease : option NodeLease; Ev_IDs : list string; Ev_LeaseID : string; Ev_RuleID : string;
  Ev_Window : option creditWindow
}.
Definition empty_event (kind : string) : stateEvent :=
  {| Kind := kind; Ev_Identity := None; Ev_Config := None; Ev_Usage := None; Ev_Lease := None; Ev_IDs := [];
     Ev_LeaseID := ""; Ev_RuleID := ""; Ev_Window := None |}.

Definition set_identity (v : Registered) (s : diskState) : diskState :=
  {| Identity := v; Cfg := Cfg s; Used := Used s; Pending := Pending s; Retired := Retired s; Leases := Leases s; Windows := Windows s |}.
Definition set_cfg (v : Config) (s : diskState) : diskState :=
  {| Identity := Identity s; Cfg := v; Used := Used s; Pending := Pending s; Retired := Retired s; Leases := Leases s; Windows := Windows s |}.
Definition set_used (v : gmap string Z) (s : diskState) : diskState :=
  {| Identity := Identity s; Cfg := Cfg s; Used := v; Pending := Pending s; Retired := Retired s; Leases := Leases s; Windows := Windows s |}.
Definition set_pending (v : list UsageRecord) (s : diskState) : diskState :=
  {| Identity := Identity s; Cfg := Cfg s; Used := Used s; Pending := v; Retired := Retired s; Leases := Leases s; Windows := Windows s |}.
Definition set_retired (v : gmap string bool) (s : diskState) : diskState :=
  {| Identity := Identity s; Cfg := Cfg s; Used := Used s; Pending := Pending s; Retired := v; Leases := Leases s; Windows := Windows s |}.
Definition set_leases (v : gmap string NodeLease) (s : diskState) : diskState :=
  {| Identity := Identity s; Cfg := Cfg s; Used := Used s; Pending := Pending s; Retired := Retired s; Leases := v; Windows := Windows s |}.
Definition set_windows (v : gmap string creditWindow) (s : diskState) : diskState :=
  {| Identity := Identity s; Cfg := Cfg s; Used := Used s; Pending := Pending s; Retired := Retired s; Leases := Leases s; Windows := v |}.

(** [s.state.Used[id]] *)
Definition used_of (s : diskState) (id : string) : Z := default 0 (Used s !! id).

Definition creditLiability (ws : gmap string creditWindow) (lease : string) : Z :=
  map_sum (fun _ w => at_key (W_LeaseID w) lease (left w)) ws.

Definition ruleLeases (r : Rule) : list (option NodeLease) :=
  R_Lease r :: match R_StandbyLease r with Some l => [Some l] | None => [] end.

Definition limitOwner (r : Rule) : string :=
  if negb (String.eqb (R_UserID r) "") then "user:" ++ R_UserID r else "rule:" ++ R_ID r.

Definition usesCreditWindows (r : Rule) : bool :=
  String.eqb (R_Network r) "tcp" ||
  (String.eqb (R_Network r) "udp" && match R_UDP r with Some u => CreditWindows u | None => false end).

Definition sameLease (a b : NodeLease) : bool :=
  String.eqb (NL_ID a) (NL_ID b) && String.eqb (NL_EntitlementID a) (NL_EntitlementID b)
  && (NL_Bytes a =? NL_Bytes b) && (NL_ExpiresAt a =? NL_ExpiresAt b).

(** The number of leases after [incoming], each new id counted once. *)
Fixpoint count_new (known : gmap string NodeLease) (seen : gset string) (incoming : list (option NodeLease)) (count : Z) : Z :=
  match incoming with
  | [] => count
  | None :: incoming => count_new known seen incoming count
  | Some l :: incoming =>
      if bool_decide (known !! NL_ID l = None) && negb (bool_decide (NL_ID l ∈ seen))
      then count_new known ({[NL_ID l]} ∪ seen) incoming (count + 1)
      else count_new known seen incoming count
  end.
Definition validateLeaseCapacity (s : diskState) (incoming : list (option NodeLease)) : res unit :=
  if maxRetainedLeases <? count_new (Leases s) ∅ incoming (Z.of_nat (size (Leases s))) then Err errSpoolFull else Ok tt.

(** ** Validation *)

Definition nextSequence (n : Z) : Z := (n + 1) mod 2 ^ 64.
Definition window_record (w : creditWindow) : string := W_ID w ++ ":" ++ FormatInt (W_Sequence w).
Definition pool_count (ws : gmap string creditWindow) (rule : string) (up : bool) : Z :=
  map_sum (fun _ w => if String.eqb (W_RuleID w) rule && Bool.eqb (W_Upload w) up then 1 else 0) ws.
Definition rule_total (ws : gmap string creditWindow) (rule : string) : Z :=
  map_sum (fun _ w => at_key (W_RuleID w) rule (left w)) ws.
Definition user_total (ws : gmap string creditWindow) (user : string) : Z :=
  map_sum (fun _ w => at_key (W_UserID w) user (left w)) ws.
Definition spool (s : diskState) : Z := Z.of_nat (List.length (Pending s)) + Z.of_nat (size (Windows s)).
Definition entitlement_of (s : diskState) (lease : string) : string :=
  match Leases s !! lease with Some l => NL_EntitlementID l | None => "" end.

Definition valid_window (w : creditWindow) : bool :=
  negb (negb (Z.of_nat (String.length (W_ID w)) =? 32) || String.eqb (W_RuleID w) "" || String.eqb (W_UserID w) ""
        || (W_Capacity w <=? 0) || (window_limit w <? W_Capacity w) || (W_Confirmed w <? 0)
        || (W_Capacity w <? W_Confirmed w) || IsZero (W_StartedAt w) || negb (W_StartedAt w <? W_Until w)).

Definition validReserve (s : diskState) (w : creditWindow) (lease : option NodeLease) : res unit :=
  match lease with
  | None => Err (ErrMsg "invalid credit reservation")
  | Some l =>
      if bool_decide (is_Some (Windows s !! W_ID w)) || negb (W_Confirmed w =? 0) || negb (W_Sequence w =? 0)
         || W_Closed w || negb (String.eqb (W_LeaseID w) (NL_ID l))
      then Err (ErrMsg "invalid credit reservation") else
      if match Leases s !! W_LeaseID w with Some old => negb (sameLease old l) | None => false end
      then Err (ErrMsg "credit lease changed") else
      if bool_decide (is_Some (Retired s !! W_LeaseID w)) then Err errLeaseUnavailable else
      match validateLeaseCapacity s [Some l] with
      | Err e => Err e
      | Ok _ =>
          if (2 <=? pool_count (Windows s) (W_RuleID w) (W_Upload w))
             || (rule_limit w - rule_total (Windows s) (W_RuleID w) <? W_Capacity w)
             || (maxAccountCredits - user_total (Windows s) (W_UserID w) <? W_Capacity w)
          then Err (ErrMsg "credit reservation exceeds responsibility bounds") else
          if (NL_Bytes l - used_of s (W_LeaseID w) - creditLiability (Windows s) (W_LeaseID w) <? W_Capacity w)
             || (NL_ExpiresAt l <? W_Until w) || (MaxPendingRecords <=? spool s)
          then Err (ErrMsg "credit reservation exceeds budget") else Ok tt
      end
  end.

Definition same_window (w old : creditWindow) : bool :=
  String.eqb (W_LeaseID w) (W_LeaseID old) && String.eqb (W_RuleID w) (W_RuleID old)
  && String.eqb (W_UserID w) (W_UserID old) && Bool.eqb (W_Upload w) (W_Upload old) && Bool.eqb (W_TCP w) (W_TCP old)
  && (W_Capacity w =? W_Capacity old) && (W_StartedAt w =? W_StartedAt old) && (W_Until w =? W_Until old).

(** The usage that carries the progress [delta] of a window. *)
Definition valid_progress_usage (s : diskState) (w : creditWindow) (delta : Z) (u : UsageRecord) : bool :=
  ValidWindowMetadata u && String.eqb (U_ID u) (window_record w) && String.eqb (U_WindowID u) (W_ID w)
  && (U_WindowSequence u =? W_Sequence w) && String.eqb (U_RuleID u) (W_RuleID w)
  && String.eqb (U_LeaseID u) (W_LeaseID w) && String.eqb (U_NodeID u) (G_NodeID (Identity s))
  && String.eqb (U_EntitlementID u) (entitlement_of s (W_LeaseID w))
  && (0 <=? U_UploadBytes u) && (0 <=? U_DownloadBytes u) && (wrap64 (U_UploadBytes u + U_DownloadBytes u) =? delta)
  && negb (W_Upload w && negb (U_DownloadBytes u =? 0)) && negb (negb (W_Upload w) && negb (U_UploadBytes u =? 0))
  && (U_StartedAt u =? W_StartedAt w) && negb (U_EndedAt u <? W_StartedAt w) && negb (W_Until w <? U_EndedAt u)
  && negb (String.eqb (U_Kind u) "recovery" && (negb (W_Closed w) || negb (W_Confirmed w =? W_Capacity w)))
  && (Z.of_nat (List.length (Pending s)) <? MaxPendingRecords).

Definition validProgress (s : diskState) (w : creditWindow) (usage : option UsageRecord) : res unit :=
  match Windows s !! W_ID w with
  | None => Err (ErrMsg "invalid credit progress")
  | Some old =>
      if negb (same_window w old) || negb (W_Sequence w =? nextSequence (W_Sequence old))
         || (W_Confirmed w <? W_Confirmed old)
      then Err (ErrMsg "invalid credit progress") else
      let delta := W_Confirmed w - W_Confirmed old in
      if 0 <? delta then
        match usage with
        | Some u => if valid_progress_usage s w delta u then Ok tt else Err (ErrMsg "invalid credit usage")
        | None => Err (ErrMsg "invalid credit usage")
        end
      else match usage with Some _ => Err (ErrMsg "unexpected credit usage") | None => Ok tt end
  end.

Definition validateCreditEvent (s : diskState) (e : stateEvent) : res unit :=
  match Ev_Window e with
  | None => Err (ErrMsg "missing credit window")
  | Some w =>
      if negb (valid_window w) then Err (ErrMsg "invalid credit window") else
      if String.eqb (Kind e) "credit_reserve" then validReserve s w (Ev_Lease e) else validProgress s w (Ev_Usage e)
  end.

(** The leases a configuration brings, and whether one of them changes a
    known lease. *)
Definition funded (r : Rule) : bool := R_Enabled r && match R_Lease r with Some _ => true | None => false end.
Definition incoming (c : Config) : list (option NodeLease) :=
  flat_map (fun r => if funded r then ruleLeases r else []) (C_Rules c).
Definition lease_changed (s : diskState) (l : option NodeLease) : bool :=
  match l with
  | Some l => match Leases s !! NL_ID l with Some old => negb (sameLease old l) | None => false end
  | None => false
  end.

Definition validateEvent (s : diskState) (e : stateEvent) : res unit :=
  let k := Kind e in
  if String.eqb k "credit_reserve" || String.eqb k "credit_progress" then validateCreditEvent s e else
  if String.eqb k "identity" then
    match Ev_Identity e with
    | None => Err (ErrMsg "identity missing")
    | Some v => if negb (String.eqb (G_NodeID (Identity s)) "") && negb (bool_decide (Identity s = v))
                then Err (ErrMsg "node identity immutable") else Ok tt
    end else
  if String.eqb k "config" then
    match Ev_Config e with
    | None => Err (ErrMsg "config missing")
    | Some c => if existsb (lease_changed s) (incoming c)
                then Err (ErrMsg "lease identity cannot change budget or expiration")
                else validateLeaseCapacity s (incoming c)
    end else
  if String.eqb k "ack" then Ok tt else
  if String.eqb k "retire" then
    if String.eqb (Ev_LeaseID e) "" then Err (ErrMsg "lease ID required") else
    if bool_decide (Leases s !! Ev_LeaseID e = None) then Err (ErrMsg "retirement lease missing") else Ok tt else
  if String.eqb k "retire_ack" then
    if bool_decide (Retired s !! Ev_LeaseID e = None) then Err (ErrMsg "lease not stopped") else
    if existsb (fun u => String.eqb (U_LeaseID u) (Ev_LeaseID e)) (Pending s)
    then Err (ErrMsg "cannot retire with unconfirmed usage") else Ok tt else
  Err (ErrMsg "unknown state mutation").

(** ** Application *)

Definition put_lease (leases : gmap string NodeLease) (l : option NodeLease) : gmap string NodeLease :=
  match l with Some l => <[NL_ID l := l]> leases | None => leases end.
Definition put_leases (leases : gmap string NodeLease) (ls : list (option NodeLease)) : gmap string NodeLease :=
  foldl put_lease leases ls.
Definition lease_ids (ls : list (option NodeLease)) : list string := flat_map (fun l => match l with Some l => [NL_ID l] | None => [] end) ls.
Definition enabled_leases (c : Config) : list (option NodeLease) :=
  flat_map (fun r => if R_Enabled r then ruleLeases r else []) (C_Rules c).
Definition all_leases (c : Config) : list (option NodeLease) := flat_map ruleLeases (C_Rules c).
(** A lease of the old configuration that is no longer active stops. *)
Definition stop_lease (active : list string) (retired : gmap string bool) (id : string) : gmap string bool :=
  if bool_decide (id ∈ active) || bool_decide (is_Some (retired !! id)) then retired else <[id := false]> retired.
Definition stop_leases (active : list string) (retired : gmap string bool) (ids : list string) : gmap string bool :=
  foldl (stop_lease active) retired ids.

Definition apply_config (c : Config) (s : diskState) : diskState :=
  let active := lease_ids (enabled_leases c) in
  set_cfg c (set_retired (stop_leases active (Retired s) (lease_ids (all_leases (Cfg s))))
    (set_leases (put_leases (Leases s) (enabled_leases c)) s)).

Definition add_usage (u : UsageRecord) (s : diskState) : diskState :=
  set_pending (Pending s ++ [u])%list
    (set_used (<[U_LeaseID u := used_of s (U_LeaseID u) + (U_UploadBytes u + U_DownloadBytes u)]> (Used s)) s).

(** A usage event; a lease it brings is kept even when the usage is then
    refused. *)
Definition apply_usage (usage : option UsageRecord) (brought : option NodeLease) (s : diskState) : res unit * diskState :=
  match usage with
  | None => (Err (ErrMsg "invalid WAL usage"), s)
  | Some u =>
      if String.eqb (U_ID u) "" || (U_UploadBytes u <? 0) || (U_DownloadBytes u <? 0)
         || (MaxInt64 - U_DownloadBytes u <? U_UploadBytes u)
      then (Err (ErrMsg "invalid WAL usage"), s) else
      if bool_decide (is_Some (Retired s !! U_LeaseID u)) then (Err (ErrMsg "WAL usage after retirement"), s) else
      match (match Leases s !! U_LeaseID u with
             | Some l => Some (l, s)
             | None => match brought with
                       | Some l => if String.eqb (NL_ID l) (U_LeaseID u)
                                   then Some (l, set_leases (<[U_LeaseID u := l]> (Leases s)) s) else None
                       | None => None
                       end
             end) with
      | None => (Err (ErrMsg "WAL lease missing"), s)
      | Some (l, s) =>
          if (NL_Bytes l - used_of s (U_LeaseID u) - creditLiability (Windows s) (U_LeaseID u)
              <? U_UploadBytes u + U_DownloadBytes u)
             || negb (String.eqb (U_NodeID u) (G_NodeID (Identity s)))
             || negb (String.eqb (U_EntitlementID u) (NL_EntitlementID l)) || (MaxPendingRecords <=? spool s)
          then (Err (ErrMsg "WAL quota/spool invariant violated"), s)
          else (Ok tt, add_usage u s)
      end
  end.

(** [applyCreditEvent] on the durable half of the state. *)
Definition apply_credit (e : stateEvent) (s : diskState) : res unit * diskState :=
  match validateCreditEvent s e, Ev_Window e with
  | Err err, _ => (Err err, s)
  | Ok _, None => (Ok tt, s)
  | Ok _, Some w =>
      if String.eqb (Kind e) "credit_reserve" then
        (Ok tt, set_windows (<[W_ID w := w]> (Windows s))
                  (set_leases (match Ev_Lease e with Some l => <[W_LeaseID w := l]> (Leases s) | None => Leases s end) s))
      else
        let s := match Ev_Usage e with
                 | Some u => set_pending (Pending s ++ [u])%list
                     (set_used (<[W_LeaseID w := used_of s (W_LeaseID w) + (U_UploadBytes u + U_DownloadBytes u)]> (Used s)) s)
                 | None => s
                 end in
        (Ok tt, set_windows (if W_Closed w then delete (W_ID w) (Windows s) else <[W_ID w := w]> (Windows s)) s)
  end.

Definition applyEvent (e : stateEvent) (s : diskState) : res unit * diskState :=
  let k := Kind e in
  if String.eqb k "credit_reserve" || String.eqb k "credit_progress" then apply_credit e s else
  if String.eqb k "usage" then apply_usage (Ev_Usage e) (Ev_Lease e) s else
  match validateEvent s e with
  | Err err => (Err err, s)
  | Ok _ =>
      (Ok tt,
       if String.eqb k "identity" then match Ev_Identity e with Some v => set_identity v s | None => s end else
       if String.eqb k "config" then match Ev_Config e with Some c => apply_config c s | None => s end else
       if String.eqb k "ack" then
         set_pending (List.filter (fun u => negb (bool_decide (U_ID u ∈ Ev_IDs e))) (Pending s)) s else
       if String.eqb k "retire" then
         if bool_decide (is_Some (Retired s !! Ev_LeaseID e)) then s
         else set_retired (<[Ev_LeaseID e := false]> (Retired s)) s else
       if String.eqb k "retire_ack" then set_retired (<[Ev_LeaseID e := true]> (Retired s)) s else s)
  end.

(** A batch of events, stopping at the first that is refused. *)
Fixpoint applyEvents (l : list stateEvent) (s : diskState) : res unit * diskState :=
  match l with
  | [] => (Ok tt, s)
  | e :: l => match applyEvent e s with
              | (Ok _, s) => applyEvents l s
              | (Err err, s) => (Err err, s)
              end
  end.

(** [pruneLeaseHistoryLocked]: confirmed retirements of expired leases that
    nothing refers to. *)
Definition referenced (s : diskState) (id : string) : bool :=
  bool_decide (id ∈ lease_ids (all_leases (Cfg s))) || existsb (fun u => String.eqb (U_LeaseID u) id) (Pending s)
  || bool_decide (id ∈ (W_LeaseID <$> (map_to_list (Windows s)).*2)).
Definition prunable (now : Z) (s : diskState) (id : string) (l : NodeLease) : bool :=
  default false (Retired s !! id) && negb (referenced s id) && negb (now <? NL_ExpiresAt l).
Definition kept (now : Z) (s : diskState) (id : string) : bool :=
  match Leases s !! id with Some l => negb (prunable now s id l) | None => true end.
Definition keep_ids {V} (p : string -> bool) (m : gmap string V) : gmap string V :=
  filter (fun kv => Is_true (p kv.1)) m.
Definition pruneLeaseHistory (now : Z) (s : diskState) : diskState :=
  set_retired (keep_ids (kept now s) (Retired s))
    (set_used (keep_ids (kept now s) (Used s)) (set_leases (keep_ids (kept now s) (Leases s)) s)).

(** ** Snapshot validation ([validateSnapshot])

    The source walks the windows in map order with running sums per lease,
    rule, account and pool.  What is added is never negative, so a running
    sum stays within its bound exactly when the final one does: the sums
    here are the final ones. *)
Definition snapshot_lease (s : diskState) (kl : string * NodeLease) : bool :=
  let '(id, l) := kl in
  negb (String.eqb id "" || negb (String.eqb id (NL_ID l)) || (NL_Bytes l <=? 0) || IsZero (NL_ExpiresAt l)
        || (used_of s id <? 0) || (NL_Bytes l <? used_of s id)).

Fixpoint snapshot_pending (s : diskState) (us : list UsageRecord) (ids : gset string) (spent : gmap string Z) : bool :=
  match us with
  | [] => true
  | u :: us =>
      match Leases s !! U_LeaseID u with
      | None => false
      | Some l =>
          if String.eqb (U_ID u) "" || bool_decide (U_ID u ∈ ids) || negb (ValidWindowMetadata u)
             || negb (String.eqb (U_NodeID u) (G_NodeID (Identity s))) || negb (String.eqb (U_EntitlementID u) (NL_EntitlementID l))
             || (U_UploadBytes u <? 0) || (U_DownloadBytes u <? 0) || (NL_Bytes l <? U_UploadBytes u)
             || (NL_Bytes l - U_UploadBytes u <? U_DownloadBytes u) || (U_EndedAt u <? U_StartedAt u)
             || (NL_ExpiresAt l <? U_EndedAt u)
          then false else
          let n := U_UploadBytes u + U_DownloadBytes u in
          let before := default 0 (spent !! NL_ID l) in
          if used_of s (NL_ID l) - before <? n then false
          else snapshot_pending s us ({[U_ID u]} ∪ ids) (<[NL_ID l := before + n]> spent)
      end
  end.

Definition snapshot_window (s : diskState) (kw : string * creditWindow) : bool :=
  let '(id, w) := kw in
  match Leases s !! W_LeaseID w with
  | None => false
  | Some l =>
      bool_decide (Retired s !! W_LeaseID w = None) && String.eqb (W_ID w) id && valid_window w && negb (W_Closed w)
      && negb ((0 <? W_Confirmed w) && (W_Sequence w =? 0)) && negb (W_Sequence w =? 2 ^ 64 - 1)
      && negb (NL_ExpiresAt l <? W_Until w)
      && (creditLiability (Windows s) (W_LeaseID w) <=? NL_Bytes l - used_of s (W_LeaseID w))
      && (user_total (Windows s) (W_UserID w) <=? maxAccountCredits)
      && (pool_count (Windows s) (W_RuleID w) (W_Upload w) <=? 2)
  end.

(** The limit of a rule is the largest its windows allow. *)
Definition rule_bound (ws : gmap string creditWindow) (rule : string) : Z :=
  foldr (fun w m => if String.eqb (W_RuleID w) rule then Z.max (rule_limit w) m else m) 0 (map_to_list ws).*2.

Definition validateSnapshot (s : diskState) : res unit :=
  if (MaxPendingRecords <? spool s) || (maxRetainedLeases <? Z.of_nat (size (Leases s)))
     || (maxRetainedLeases <? Z.of_nat (size (Used s))) || (maxRetainedLeases <? Z.of_nat (size (Retired s)))
  then Err (ErrMsg "durable state capacity exceeded") else
  if negb (forallb (snapshot_lease s) (map_to_list (Leases s))) then Err (ErrMsg "invalid durable lease budget") else
  if negb (forallb (fun kn => bool_decide (is_Some (Leases s !! kn.1))) (map_to_list (Used s)))
  then Err (ErrMsg "durable usage lease missing") else
  if negb (forallb (fun kn => bool_decide (is_Some (Leases s !! kn.1))) (map_to_list (Retired s)))
  then Err (ErrMsg "durable retirement lease missing") else
  if negb (snapshot_pending s (Pending s) ∅ ∅) then Err (ErrMsg "invalid durable pending usage") else
  if negb (forallb (snapshot_window s) (map_to_list (Windows s))) then Err (ErrMsg "invalid durable credit window") else
  if negb (forallb (fun kw => rule_total (Windows s) (W_RuleID kw.2) <=? rule_bound (Windows s) (W_RuleID kw.2)) (map_to_list (Windows s)))
  then Err (ErrMsg "durable credit responsibility exceeds rule bound") else Ok tt.

(** ** The durable invariant

    Spent plus reserved never exceeds a lease; the windows respect the
    per-direction, per-rule and per-account bounds; unconfirmed usage is
    covered by what was spent. *)

Definition bytes (u : UsageRecord) : Z := U_UploadBytes u + U_DownloadBytes u.
Definition pending_bytes (us : list UsageRecord) (lease : string) : Z :=
  sum_over (fun u => at_key (U_LeaseID u) lease (bytes u)) us.

Record disk_inv (s : diskState) : Prop := {
  di_lease id l : Leases s !! id = Some l -> NL_ID l = id /\ 0 < NL_Bytes l;
  di_used id n : Used s !! id = Some n -> 0 <= n /\ is_Some (Leases s !! id);
  di_budget id l : Leases s !! id = Some l -> used_of s id + creditLiability (Windows s) id <= NL_Bytes l;
  di_window id w : Windows s !! id = Some w ->
    W_ID w = id /\ valid_window w = true /\ W_Closed w = false /\
    exists l, Leases s !! W_LeaseID w = Some l /\ W_Until w <= NL_ExpiresAt l;
  di_pool rule up : pool_count (Windows s) rule up <= 2;
  di_rule rule : rule_total (Windows s) rule <= maxTCPRuleCredits;
  di_user user : user_total (Windows s) user <= maxAccountCredits;
  di_record u : u ∈ Pending s -> 0 <= bytes u;
  di_pending id : pending_bytes (Pending s) id <= used_of s id
}.

Lemma valid_window_spec w : valid_window w = true ->
  0 < W_Capacity w <= window_limit w /\ 0 <= W_Confirmed w <= W_Capacity w /\ W_StartedAt w < W_Until w.
Proof. unfold valid_window. intros H. bool_to_prop. lia. Qed.

Lemma left_nonneg w : valid_window w = true -> 0 <= left w.
Proof. intros H%valid_window_spec. unfold left. lia. Qed.

Lemma used_of_nonneg s id : disk_inv s -> 0 <= used_of s id.
Proof. intros Hi. unfold used_of. destruct (Used s !! id) eqn:E; simpl; [|lia]. by apply (di_used _ Hi) in E as [? _]. Qed.

Section WindowSums.
Context (s : diskState) (Hi : disk_inv s).

Lemma window_sum_nonneg (p : creditWindow -> bool) (f : creditWindow -> Z) :
  (forall w, valid_window w = true -> 0 <= f w) ->
  0 <= map_sum (fun _ w => if p w then f w else 0) (Windows s).
Proof.
  intros Hf. apply map_sum_nonneg. intros id w Hw. destruct (p w); [|done]. apply Hf. by apply (di_window _ Hi) in Hw as (_ & ? & _).
Qed.
Lemma liability_nonneg lease : 0 <= creditLiability (Windows s) lease.
Proof. apply (window_sum_nonneg (fun w => String.eqb (W_LeaseID w) lease) left). apply left_nonneg. Qed.

(** An unknown lease has neither usage nor windows. *)
Lemma unknown_lease id : Leases s !! id = None -> used_of s id = 0 /\ creditLiability (Windows s) id = 0.
Proof.
  intros Hn. split.
  - unfold used_of. destruct (Used s !! id) eqn:E; [|done]. apply (di_used _ Hi) in E as [_ []]. congruence.
  - apply map_sum_all_zero. intros k w Hw. apply (di_window _ Hi) in Hw as (_ & _ & _ & l & Hl & _).
    apply at_key_ne. congruence.
Qed.
End WindowSums.

(** Replacing or removing a window by one with the same keys and no more
    left moves every sum downwards. *)
Definition window_key (w : creditWindow) : string * string * string * bool := (W_LeaseID w, W_RuleID w, W_UserID w, W_Upload w).

Lemma sum_move (f : creditWindow -> Z) (ws : gmap string creditWindow) id old w :
  ws !! id = Some old ->
  map_sum (fun _ x => f x) (<[id:=w]> ws) = map_sum (fun _ x => f x) ws + f w - f old.
Proof. intros Ho. rewrite map_sum_insert, Ho. done. Qed.
Lemma sum_add (f : creditWindow -> Z) (ws : gmap string creditWindow) id w :
  ws !! id = None -> map_sum (fun _ x => f x) (<[id:=w]> ws) = map_sum (fun _ x => f x) ws + f w.
Proof. intros Ho. rewrite map_sum_insert, Ho. simpl. lia. Qed.
Lemma sum_drop (f : creditWindow -> Z) (ws : gmap string creditWindow) id old :
  ws !! id = Some old -> map_sum (fun _ x => f x) (delete id ws) = map_sum (fun _ x => f x) ws - f old.
Proof. intros Ho. by rewrite (map_sum_delete _ _ _ _ Ho). Qed.

Lemma sameLease_spec a b : sameLease a b = true ->
  NL_ID a = NL_ID b /\ NL_EntitlementID a = NL_EntitlementID b /\ NL_Bytes a = NL_Bytes b /\ NL_ExpiresAt a = NL_ExpiresAt b.
Proof. unfold sameLease. intros H. bool_to_prop. done. Qed.

(** Leases may be replaced by equal ones and new ones may come. *)
Definition leases_grow (L L' : gmap string NodeLease) : Prop :=
  (forall id l, L !! id = Some l -> exists l', L' !! id = Some l' /\ sameLease l l' = true) /\
  (forall id l', L' !! id = Some l' -> NL_ID l' = id /\ 0 < NL_Bytes l').

Lemma sameLease_refl l : sameLease l l = true.
Proof. unfold sameLease. by rewrite !String.eqb_refl, !Z.eqb_refl. Qed.
Lemma sameLease_trans a b c : sameLease a b = true -> sameLease b c = true -> sameLease a c = true.
Proof.
  intros (H1 & H2 & H3 & H4)%sameLease_spec (H5 & H6 & H7 & H8)%sameLease_spec. unfold sameLease.
  rewrite H1, H5, H2, H6, H3, H7, H4, H8. by rewrite !String.eqb_refl, !Z.eqb_refl.
Qed.

Lemma grow_inv s L : disk_inv s -> leases_grow (Leases s) L -> disk_inv (set_leases L s).
Proof.
  intros Hi [Hold Hnew]. split; simpl; try apply Hi; [exact Hnew|..].
  - intros id n Hn. apply (di_used _ Hi) in Hn as [Hn [l Hl]]. split; [done|].
    destruct (Hold _ _ Hl) as (l' & Hl' & _). eauto.
  - intros id l Hl. change (used_of (set_leases L s) id) with (used_of s id).
    destruct (Leases s !! id) as [l0|] eqn:E.
    + destruct (Hold _ _ E) as (l' & Hl' & Hs). rewrite Hl in Hl'. injection Hl' as <-.
      apply sameLease_spec in Hs as (_ & _ & <- & _). by apply (di_budget _ Hi).
    + destruct (unknown_lease _ Hi _ E) as [-> ->]. apply Hnew in Hl as [_ Hl]. lia.
  - intros id w Hw. apply (di_window _ Hi) in Hw as (H1 & H2 & H3 & l & Hl & Hu). do 3 (split; [done|]).
    destruct (Hold _ _ Hl) as (l' & Hl' & (_ & _ & _ & He)%sameLease_spec). exists l'. by rewrite <- He.
Qed.

Lemma grow_insert s id l : disk_inv s -> NL_ID l = id -> 0 < NL_Bytes l ->
  (forall old, Leases s !! id = Some old -> sameLease old l = true) -> leases_grow (Leases s) (<[id:=l]> (Leases s)).
Proof.
  intros Hi Hid Hb Hs. split.
  - intros k x Hx. destruct (decide (k = id)) as [->|Hne].
    + exists l. rewrite lookup_insert_eq. auto.
    + exists x. rewrite lookup_insert_ne by done. split; [done|apply sameLease_refl].
  - intros k x [[<- <-]|[_ Hx]]%lookup_insert_Some; [done|]. by apply (di_lease _ Hi).
Qed.

Lemma pool_count_add ws id w rule up : ws !! id = None ->
  pool_count (<[id:=w]> ws) rule up = pool_count ws rule up + (if String.eqb (W_RuleID w) rule && Bool.eqb (W_Upload w) up then 1 else 0).
Proof. apply (sum_add (fun w => if String.eqb (W_RuleID w) rule && Bool.eqb (W_Upload w) up then 1 else 0)). Qed.
Lemma liability_add ws id w lease : ws !! id = None ->
  creditLiability (<[id:=w]> ws) lease = creditLiability ws lease + at_key (W_LeaseID w) lease (left w).
Proof. apply (sum_add (fun w => at_key (W_LeaseID w) lease (left w))). Qed.
Lemma rule_total_add ws id w rule : ws !! id = None ->
  rule_total (<[id:=w]> ws) rule = rule_total ws rule + at_key (W_RuleID w) rule (left w).
Proof. apply (sum_add (fun w => at_key (W_RuleID w) rule (left w))). Qed.
Lemma user_total_add ws id w user : ws !! id = None ->
  user_total (<[id:=w]> ws) user = user_total ws user + at_key (W_UserID w) user (left w).
Proof. apply (sum_add (fun w => at_key (W_UserID w) user (left w))). Qed.

Lemma add_window_inv s w l :
  disk_inv s -> Windows s !! W_ID w = None -> valid_window w = true -> W_Closed w = false ->
  Leases s !! W_LeaseID w = Some l -> W_Until w <= NL_ExpiresAt l ->
  used_of s (W_LeaseID w) + creditLiability (Windows s) (W_LeaseID w) + left w <= NL_Bytes l ->
  pool_count (Windows s) (W_RuleID w) (W_Upload w) < 2 ->
  rule_total (Windows s) (W_RuleID w) + left w <= maxTCPRuleCredits ->
  user_total (Windows s) (W_UserID w) + left w <= maxAccountCredits ->
  disk_inv (set_windows (<[W_ID w := w]> (Windows s)) s).
Proof.
  intros Hi Hn Hv Hc Hl Hu Hbud Hpool Hrule Huser. split; simpl; try apply Hi.
  - intros id x Hx. rewrite liability_add by done. pose proof (di_budget _ Hi _ _ Hx).
    change (used_of (set_windows (<[W_ID w:=w]> (Windows s)) s) id) with (used_of s id).
    destruct (decide (W_LeaseID w = id)) as [<-|Hne]; [|rewrite at_key_ne by done; lia].
    rewrite at_key_eq. rewrite Hl in Hx. injection Hx as <-. lia.
  - intros id x [[<- <-]|[_ Hx]]%lookup_insert_Some; [eauto 7|]. by apply (di_window _ Hi).
  - intros rule up. rewrite pool_count_add by done. pose proof (di_pool _ Hi rule up).
    destruct (String.eqb (W_RuleID w) rule && Bool.eqb (W_Upload w) up) eqn:E; [|lia].
    bool_to_prop. subst rule. apply eqb_prop in H1. subst up. lia.
  - intros rule. rewrite rule_total_add by done. pose proof (di_rule _ Hi rule).
    destruct (decide (W_RuleID w = rule)) as [<-|Hne]; [rewrite at_key_eq; lia|rewrite at_key_ne by done; lia].
  - intros user. rewrite user_total_add by done. pose proof (di_user _ Hi user).
    destruct (decide (W_UserID w = user)) as [<-|Hne]; [rewrite at_key_eq; lia|rewrite at_key_ne by done; lia].
Qed.

(** A window goes: every sum goes down by what it had left. *)
Lemma drop_sums ws id old :
  ws !! id = Some old ->
  (forall lease, creditLiability (delete id ws) lease = creditLiability ws lease - at_key (W_LeaseID old) lease (left old)) /\
  (forall rule, rule_total (delete id ws) rule = rule_total ws rule - at_key (W_RuleID old) rule (left old)) /\
  (forall user, user_total (delete id ws) user = user_total ws user - at_key (W_UserID old) user (left old)) /\
  (forall rule up, pool_count (delete id ws) rule up =
     pool_count ws rule up - (if String.eqb (W_RuleID old) rule && Bool.eqb (W_Upload old) up then 1 else 0)).
Proof.
  intros Ho. split_and!; [intros lease|intros rule|intros user|intros rule up].
  - by apply (sum_drop (fun w => at_key (W_LeaseID w) lease (left w))).
  - by apply (sum_drop (fun w => at_key (W_RuleID w) rule (left w))).
  - by apply (sum_drop (fun w => at_key (W_UserID w) user (left w))).
  - by apply (sum_drop (fun w => if String.eqb (W_RuleID w) rule && Bool.eqb (W_Upload w) up then 1 else 0)).
Qed.

Lemma at_key_bound k k' x : 0 <= x -> 0 <= at_key k k' x <= x.
Proof. unfold at_key. destruct (String.eqb k k'); lia. Qed.

Lemma drop_window_inv s id old :
  disk_inv s -> Windows s !! id = Some old -> disk_inv (set_windows (delete id (Windows s)) s).
Proof.
  intros Hi Ho. destruct (drop_sums _ _ _ Ho) as (Hl & Hr & Hu & Hp).
  assert (H0 : 0 <= left old) by (apply left_nonneg; by apply (di_window _ Hi) in Ho as (_ & ? & _)).
  split; simpl; try apply Hi.
  - intros k l Hk. rewrite Hl. pose proof (di_budget _ Hi _ _ Hk). pose proof (at_key_bound (W_LeaseID old) k _ H0).
    change (used_of (set_windows (delete id (Windows s)) s) k) with (used_of s k). lia.
  - intros k w [_ Hw]%lookup_delete_Some. by apply (di_window _ Hi).
  - intros rule up. rewrite Hp. pose proof (di_pool _ Hi rule up). destruct (_ && _); lia.
  - intros rule. rewrite Hr. pose proof (di_rule _ Hi rule). pose proof (at_key_bound (W_RuleID old) rule _ H0). lia.
  - intros user. rewrite Hu. pose proof (di_user _ Hi user). pose proof (at_key_bound (W_UserID old) user _ H0). lia.
Qed.

(** Usage of [n] bytes is recorded where the lease has room for it. *)
Lemma used_of_insert s lease n id :
  used_of (set_used (<[lease := n]> (Used s)) s) id = if String.eqb lease id then n else used_of s id.
Proof.
  unfold used_of. simpl. destruct (String.eqb lease id) eqn:E; bool_to_prop.
  - subst. by rewrite lookup_insert_eq.
  - by rewrite lookup_insert_ne.
Qed.

Lemma pending_bytes_app us u lease :
  pending_bytes (us ++ [u]) lease = pending_bytes us lease + at_key (U_LeaseID u) lease (bytes u).
Proof. unfold pending_bytes. rewrite sum_over_app. simpl. lia. Qed.

Lemma spend_inv s lease u l :
  disk_inv s -> U_LeaseID u = lease -> Leases s !! lease = Some l -> 0 <= bytes u ->
  used_of s lease + creditLiability (Windows s) lease + bytes u <= NL_Bytes l ->
  disk_inv (set_pending (Pending s ++ [u])%list (set_used (<[lease := used_of s lease + bytes u]> (Used s)) s)).
Proof.
  intros Hi Hid Hl Hn Hb. pose proof (used_of_nonneg _ lease Hi).
  assert (Hused : forall id, used_of (set_pending (Pending s ++ [u])%list (set_used (<[lease := used_of s lease + bytes u]> (Used s)) s)) id
    = if String.eqb lease id then used_of s lease + bytes u else used_of s id) by (intros id; apply used_of_insert).
  split; try apply Hi.
  - simpl. intros id n [[<- <-]|[_ Hx]]%lookup_insert_Some; [split; [lia|eauto]|]. by apply (di_used _ Hi).
  - intros id x Hx. rewrite Hused. simpl in *. pose proof (di_budget _ Hi _ _ Hx).
    destruct (String.eqb lease id) eqn:E; [|done]. bool_to_prop. subst id. rewrite Hl in Hx. injection Hx as <-. lia.
  - simpl. intros x [Hx|Hx]%elem_of_app; [by apply (di_record _ Hi)|]. by apply list_elem_of_singleton in Hx as ->.
  - intros id. rewrite Hused. simpl. rewrite pending_bytes_app, Hid. pose proof (di_pending _ Hi id).
    unfold at_key. destruct (String.eqb lease id) eqn:E; [|lia]. bool_to_prop. subst id. lia.
Qed.

(** ** Every event keeps the invariant

    What the panel and the Go types guarantee of an event: byte counts are
    [int64], a lease has a positive budget, and a rule with a standby lease
    has a lease. *)
Definition config_ok (c : Config) : Prop :=
  forall r, r ∈ C_Rules c -> R_Enabled r = true ->
    (forall l, Some l ∈ ruleLeases r -> 0 < NL_Bytes l) /\ (R_Lease r = None -> R_StandbyLease r = None).
Definition event_ok (e : stateEvent) : Prop :=
  match Ev_Usage e with Some u => in_int64 (U_UploadBytes u) /\ in_int64 (U_DownloadBytes u) | None => True end /\
  match Ev_Lease e with Some l => 0 < NL_Bytes l | None => True end /\
  match Ev_Config e with Some c => config_ok c | None => True end.

Lemma same_window_spec w old : same_window w old = true ->
  W_LeaseID w = W_LeaseID old /\ W_RuleID w = W_RuleID old /\ W_UserID w = W_UserID old /\ W_Upload w = W_Upload old /\
  W_TCP w = W_TCP old /\ W_Capacity w = W_Capacity old /\ W_StartedAt w = W_StartedAt old /\ W_Until w = W_Until old.
Proof. unfold same_window. intros H. bool_to_prop. repeat match goal with H : Bool.eqb _ _ = true |- _ => apply eqb_prop in H end. done. Qed.

Lemma valid_progress_bytes s w delta u :
  in_int64 (U_UploadBytes u) -> in_int64 (U_DownloadBytes u) -> valid_progress_usage s w delta u = true ->
  bytes u = delta /\ U_LeaseID u = W_LeaseID w /\ 0 <= bytes u.
Proof.
  unfold valid_progress_usage, bytes. intros Hu Hd Hv. repeat (apply andb_prop in Hv as [Hv ?]).
  assert (Hone : U_UploadBytes u = 0 \/ U_DownloadBytes u = 0).
  { destruct (W_Upload w); [right|left]; simpl in *; by bool_to_prop. }
  repeat match goal with H : (_ <=? _) = true |- _ => apply Z.leb_le in H | H : (_ =? _) = true |- _ => apply Z.eqb_eq in H
    | H : String.eqb _ _ = true |- _ => apply String.eqb_eq in H end.
  match goal with H : wrap64 _ = _ |- _ => rewrite wrap64_id in H by (unfold in_int64 in *; lia) end.
  split_and!; [done|done|lia].
Qed.

Lemma reserve_inv s w l :
  disk_inv s -> valid_window w = true -> 0 < NL_Bytes l -> validReserve s w (Some l) = Ok tt ->
  disk_inv (set_windows (<[W_ID w := w]> (Windows s)) (set_leases (<[W_LeaseID w := l]> (Leases s)) s)).
Proof.
  intros Hi Hv Hb Hr. unfold validReserve in Hr.
  pass Hr E1. pass Hr E2. pass Hr E0. destruct (validateLeaseCapacity s [Some l]); [|done]. pass Hr E3. pass Hr E4.
  bool_to_prop. match goal with H : ~ is_Some (Windows s !! _) |- _ => apply eq_None_not_Some in H end.
  apply valid_window_spec in Hv as Hw.
  assert (Hleft : left w = W_Capacity w) by (unfold left; lia).
  assert (Hg : disk_inv (set_leases (<[W_LeaseID w := l]> (Leases s)) s)).
  { apply grow_inv; [done|]. apply grow_insert; [done..|]. intros old Ho. rewrite Ho in E2. by bool_to_prop. }
  apply (add_window_inv _ w l Hg); simpl; [done..|by apply lookup_insert_eq| | | | |].
  - lia.
  - change (used_of (set_leases (<[W_LeaseID w:=l]> (Leases s)) s) (W_LeaseID w)) with (used_of s (W_LeaseID w)). lia.
  - lia.
  - unfold rule_limit, maxTCPRuleCredits, maxRuleCredits in *. destruct (W_TCP w); lia.
  - lia.
Qed.

(** Progress: the old window goes, its delta is spent, the new window comes
    back unless it is closed. *)
Lemma progress_inv s w usage :
  disk_inv s -> valid_window w = true ->
  match usage with Some u => in_int64 (U_UploadBytes u) /\ in_int64 (U_DownloadBytes u) | None => True end ->
  validProgress s w usage = Ok tt ->
  let s1 := match usage with
            | Some u => set_pending (Pending s ++ [u])%list (set_used (<[W_LeaseID w := used_of s (W_LeaseID w) + bytes u]> (Used s)) s)
            | None => s
            end in
  disk_inv (set_windows (if W_Closed w then delete (W_ID w) (Windows s) else <[W_ID w := w]> (Windows s)) s1).
Proof.
  intros Hi Hv Hint Hp. unfold validProgress in Hp. destruct (Windows s !! W_ID w) as [old|] eqn:Ho; [|done].
  destruct (negb (same_window w old) || _ || _) eqn:E; [done|]. bool_to_prop.
  apply same_window_spec in H as (Hl & Hr & Hu & Hup & _ & Hcap & _ & Huntil).
  destruct (di_window _ Hi _ _ Ho) as (_ & Hvo & _ & l & Hlease & Hexp). apply valid_window_spec in Hv as Hw.
  destruct (drop_sums _ _ _ Ho) as (Sl & Sr & Su & Sp). pose proof (drop_window_inv _ _ _ Hi Ho) as Hd.
  pose proof (di_budget _ Hi _ _ Hlease) as Hb. specialize (Sl (W_LeaseID old)). rewrite at_key_eq in Sl.
  assert (Hdelta : left w = left old - (W_Confirmed w - W_Confirmed old)) by (unfold left; lia).
  assert (Hs1 : exists s1, s1 = match usage with
      | Some u => set_pending (Pending s ++ [u])%list (set_used (<[W_LeaseID w := used_of s (W_LeaseID w) + bytes u]> (Used s)) (set_windows (delete (W_ID w) (Windows s)) s))
      | None => set_windows (delete (W_ID w) (Windows s)) s end /\ disk_inv s1 /\
      used_of s1 (W_LeaseID w) = used_of s (W_LeaseID w) + (W_Confirmed w - W_Confirmed old)).
  { eexists. split; [done|]. destruct (0 <? W_Confirmed w - W_Confirmed old) eqn:E0; bool_to_prop.
    - destruct usage as [u|]; [|done]. destruct (valid_progress_usage _ _ _ _) eqn:Eu; [|done]. destruct Hint.
      apply valid_progress_bytes in Eu as (Hbytes & Hlu & Hn); [|done..]. split.
      + apply (spend_inv _ (W_LeaseID w) u l Hd); simpl; [done|by rewrite Hl|done|].
        rewrite Hl, Sl. change (used_of (set_windows (delete (W_ID w) (Windows s)) s) (W_LeaseID old)) with (used_of s (W_LeaseID old)).
        pose proof (left_nonneg _ Hv). lia.
      + unfold used_of at 1. simpl. by rewrite lookup_insert_eq, Hbytes.
    - destruct usage; [done|]. split; [done|]. change (used_of _ (W_LeaseID w)) with (used_of s (W_LeaseID w)). lia. }
  destruct Hs1 as (s1 & -> & Hi1 & Hused). destruct (W_Closed w) eqn:Hc.
  { destruct usage; exact Hi1. }
  rewrite <- (insert_delete_eq (Windows s) (W_ID w) w).
  pose proof (add_window_inv _ w l Hi1) as Hadd. rewrite Hused in Hadd.
  specialize (Sr (W_RuleID w)). specialize (Su (W_UserID w)). specialize (Sp (W_RuleID w) (W_Upload w)).
  rewrite Hr, at_key_eq in Sr. rewrite Hu, at_key_eq in Su. rewrite Hr, Hup, String.eqb_refl, eqb_reflx in Sp. simpl in Sp.
  pose proof (di_rule _ Hi (W_RuleID old)). pose proof (di_user _ Hi (W_UserID old)). pose proof (di_pool _ Hi (W_RuleID old) (W_Upload old)).
  destruct usage; simpl in Hadd |- *; (apply Hadd; [apply lookup_delete_eq|done|done|by rewrite Hl|lia|rewrite Hl, ?Sl in *; lia|rewrite Hr, Hup, ?Sp; lia|rewrite Hr, ?Sr; lia|rewrite Hu, ?Su; lia]).
Qed.

Lemma put_leases_grow L0 ls : forall L,
  leases_grow L0 L ->
  (forall l, Some l ∈ ls -> 0 < NL_Bytes l /\ forall old, L0 !! NL_ID l = Some old -> sameLease old l = true) ->
  leases_grow L0 (put_leases L ls).
Proof.
  induction ls as [|[l|] ls IH]; intros L [Hold Hnew] Hls; simpl; [done| |].
  - apply IH; [|intros; apply Hls; by right]. destruct (Hls l) as [Hb Hs]; [by left|]. split.
    + intros id x Hx. destruct (decide (id = NL_ID l)) as [->|Hne].
      * exists l. rewrite lookup_insert_eq. auto.
      * rewrite lookup_insert_ne by done. auto.
    + intros id x [[<- <-]|[_ Hx]]%lookup_insert_Some; [done|auto].
  - apply IH; [done|]. intros; apply Hls; by right.
Qed.

Lemma enabled_incoming c l : config_ok c -> Some l ∈ enabled_leases c -> Some l ∈ incoming c.
Proof.
  intros Hc. unfold enabled_leases, incoming. rewrite !list_elem_of_In, !in_flat_map.
  intros (r & Hr & Hl). exists r. split; [done|]. apply list_elem_of_In in Hr, Hl. unfold funded.
  destruct (R_Enabled r) eqn:He; [|by inversion Hl]. destruct (Hc r Hr He) as [_ Hs]. simpl.
  destruct (R_Lease r) eqn:E; [by apply list_elem_of_In|]. unfold ruleLeases in Hl.
  rewrite E, Hs in Hl by done. set_solver.
Qed.

Lemma enabled_positive c l : config_ok c -> Some l ∈ enabled_leases c -> 0 < NL_Bytes l.
Proof.
  intros Hc. unfold enabled_leases. rewrite list_elem_of_In, in_flat_map. intros (r & Hr & Hl).
  apply list_elem_of_In in Hr, Hl. destruct (R_Enabled r) eqn:He; [|by inversion Hl].
  by apply (Hc r Hr He).
Qed.

(** The leases of an accepted configuration agree with the known ones. *)
Lemma config_grows s c :
  disk_inv s -> config_ok c -> existsb (lease_changed s) (incoming c) = false ->
  leases_grow (Leases s) (put_leases (Leases s) (enabled_leases c)).
Proof.
  intros Hi Hc Hch. apply put_leases_grow.
  - split; [intros id l Hl; exists l; split; [done|apply sameLease_refl]|apply (di_lease _ Hi)].
  - intros l Hl. split; [by eapply enabled_positive|]. intros old Ho.
    apply enabled_incoming in Hl; [|done]. destruct (sameLease old l) eqn:E; [done|].
    assert (existsb (lease_changed s) (incoming c) = true); [|congruence].
    apply existsb_exists. exists (Some l). rewrite <- list_elem_of_In. split; [done|]. simpl. by rewrite Ho, E.
Qed.
Lemma config_inv s c :
  disk_inv s -> config_ok c -> existsb (lease_changed s) (incoming c) = false -> disk_inv (apply_config c s).
Proof.
  intros Hi Hc Hch. assert (Hg : disk_inv (set_leases (put_leases (Leases s) (enabled_leases c)) s)).
  { apply grow_inv; [done|]. by apply config_grows. }
  destruct Hg. by split.
Qed.

Lemma usage_inv s usage brought :
  disk_inv s -> match brought with Some l => 0 < NL_Bytes l | None => True end ->
  disk_inv (apply_usage usage brought s).2.
Proof.
  intros Hi Hb. unfold apply_usage. destruct usage as [u|]; [|done]. if_case; [done|]. if_case; [done|]. bool_to_prop.
  assert (Hgo : forall l s', disk_inv s' -> Leases s' !! U_LeaseID u = Some l ->
    disk_inv (if (NL_Bytes l - used_of s' (U_LeaseID u) - creditLiability (Windows s') (U_LeaseID u)
              <? U_UploadBytes u + U_DownloadBytes u)
             || negb (String.eqb (U_NodeID u) (G_NodeID (Identity s')))
             || negb (String.eqb (U_EntitlementID u) (NL_EntitlementID l)) || (MaxPendingRecords <=? spool s')
          then (Err (ErrMsg "WAL quota/spool invariant violated"), s')
          else (Ok tt, add_usage u s')).2).
  { intros l s' Hi' Hl. if_case; [done|]. bool_to_prop. apply (spend_inv s' (U_LeaseID u) u l); unfold bytes; (done || lia). }
  destruct (Leases s !! U_LeaseID u) as [l|] eqn:E; [by apply Hgo|]. destruct brought as [l|]; [|done].
  destruct (String.eqb (NL_ID l) (U_LeaseID u)) eqn:En; [|done]. bool_to_prop. apply Hgo; simpl; [|by rewrite lookup_insert_eq].
  apply grow_inv; [done|]. apply grow_insert; [done..|]. intros old Ho. congruence.
Qed.

Lemma pending_filter_le p us lease :
  (forall u, u ∈ us -> 0 <= bytes u) -> pending_bytes (List.filter p us) lease <= pending_bytes us lease.
Proof.
  unfold pending_bytes. induction us as [|u us IH]; intros Hu; simpl; [lia|].
  assert (0 <= bytes u) by set_solver. pose proof (at_key_bound (U_LeaseID u) lease (bytes u) ltac:(done)).
  specialize (IH ltac:(set_solver)). destruct (p u); simpl; lia.
Qed.

Lemma applyEvent_inv e s : event_ok e -> disk_inv s -> disk_inv (applyEvent e s).2.
Proof.
  intros (Hu & Hl & Hc) Hi. unfold applyEvent.
  destruct (String.eqb (Kind e) "credit_reserve" || String.eqb (Kind e) "credit_progress") eqn:Ek.
  { unfold apply_credit. destruct (validateCreditEvent s e) as [[]|] eqn:Ev; [|done]. unfold validateCreditEvent in Ev.
    destruct (Ev_Window e) as [w|]; [|done]. pass Ev Ew. bool_to_prop. destruct (String.eqb (Kind e) "credit_reserve").
    - destruct (Ev_Lease e) as [l|]; [|done]. simpl. by apply reserve_inv.
    - simpl. pose proof (progress_inv s w (Ev_Usage e) Hi Ew Hu Ev) as Hp. destruct (Ev_Usage e); exact Hp. }
  destruct (String.eqb (Kind e) "usage"); [by apply usage_inv|].
  destruct (validateEvent s e) as [[]|] eqn:Ev; [|done]. simpl.
  destruct (String.eqb (Kind e) "identity"); [destruct (Ev_Identity e); [|done]; by destruct Hi|].
  destruct (String.eqb (Kind e) "config") eqn:Ec.
  { destruct (Ev_Config e) as [c|] eqn:Ecfg; [|done]. unfold validateEvent in Ev. rewrite Ek in Ev. bool_to_prop.
    rewrite Ec, Ecfg in Ev. simpl in Ev. destruct (existsb _ _) eqn:Ex; [done|]. by apply config_inv. }
  destruct (String.eqb (Kind e) "ack").
  { split; simpl; try apply Hi.
    - intros u Hin%list_elem_of_In. apply filter_In in Hin as [Hin _]. apply (di_record _ Hi). by apply list_elem_of_In.
    - intros id. etransitivity; [apply pending_filter_le, (di_record _ Hi)|apply (di_pending _ Hi)]. }
  destruct (String.eqb (Kind e) "retire"); [destruct (bool_decide _); [done|]; by destruct Hi|].
  destruct (String.eqb (Kind e) "retire_ack"); [|done]. by destruct Hi.
Qed.

Lemma applyEvents_inv l : forall s, Forall event_ok l -> disk_inv s -> disk_inv (applyEvents l s).2.
Proof.
  induction l as [|e l IH]; intros s Hok Hi; simpl; [done|]. apply Forall_cons in Hok as [He Hok].
  pose proof (applyEvent_inv e s He Hi) as Hn. destruct (applyEvent e s) as [[a|err] s']; simpl in *; auto.
Qed.

(** ** Pruning *)

Lemma keep_ids_lookup {V} p (m : gmap string V) id :
  keep_ids p m !! id = if p id then m !! id else None.
Proof.
  unfold keep_ids. destruct (m !! id) as [v|] eqn:Hm.
  - destruct (p id) eqn:E.
    + apply map_lookup_filter_Some. split; [done|]. simpl. by rewrite E.
    + apply map_lookup_filter_None. right. intros x _. simpl. rewrite E. auto.
  - destruct (p id); apply map_lookup_filter_None; by left.
Qed.

Lemma kept_false now s id : kept now s id = false ->
  referenced s id = false /\ exists l, Leases s !! id = Some l /\ Retired s !! id = Some true /\ NL_ExpiresAt l <= now.
Proof.
  unfold kept, prunable. destruct (Leases s !! id) as [l|]; [|done]. intros H. bool_to_prop. split; [done|]. exists l.
  destruct (Retired s !! id) as [[]|]; done.
Qed.

Lemma pending_unreferenced s id : referenced s id = false -> pending_bytes (Pending s) id = 0.
Proof.
  unfold referenced. intros H. bool_to_prop. unfold pending_bytes. rewrite <- (sum_over_zero (Pending s)).
  apply sum_over_ext. intros u Hu. apply at_key_ne. intros He.
  assert (existsb (fun u => String.eqb (U_LeaseID u) id) (Pending s) = true); [|congruence].
  apply existsb_exists. exists u. rewrite <- list_elem_of_In. split; [done|]. by apply String.eqb_eq.
Qed.

Lemma prune_inv now s : disk_inv s -> disk_inv (pruneLeaseHistory now s).
Proof.
  intros Hi. assert (Hused : forall id, used_of (pruneLeaseHistory now s) id = if kept now s id then used_of s id else 0).
  { intros id. unfold used_of. simpl. rewrite keep_ids_lookup. by destruct (kept now s id). }
  split; try apply Hi; simpl.
  - intros id l. rewrite keep_ids_lookup. destruct (kept now s id); [apply (di_lease _ Hi)|done].
  - intros id n. rewrite !keep_ids_lookup. destruct (kept now s id); [apply (di_used _ Hi)|done].
  - intros id l. rewrite keep_ids_lookup, Hused. destruct (kept now s id); [apply (di_budget _ Hi)|done].
  - intros id w Hw. destruct (di_window _ Hi _ _ Hw) as (H1 & H2 & H3 & l & Hl & He). do 3 (split; [done|]).
    exists l. rewrite keep_ids_lookup. destruct (kept now s (W_LeaseID w)) eqn:E; [done|].
    apply kept_false in E as [Hr _]. unfold referenced in Hr. bool_to_prop. exfalso.
    match goal with H : W_LeaseID w ∉ _ |- _ => apply H end.
    apply list_elem_of_fmap. exists w. split; [done|]. apply list_elem_of_fmap. exists (id, w). split; [done|].
    by apply elem_of_map_to_list.
  - intros id. rewrite Hused. destruct (kept now s id) eqn:E; [apply (di_pending _ Hi)|].
    apply kept_false in E as [Hr _]. by rewrite (pending_unreferenced _ _ Hr).
Qed.

(** ** The initial state *)
Definition empty_config : Config := {| C_NodeID := ""; C_Version := 0; C_ValidUntil := zeroTime; C_Rules := [] |}.
Definition empty_disk : diskState :=
  {| Identity := {| G_NodeID := ""; G_Token := "" |}; Cfg := empty_config; Used := ∅; Pending := []; Retired := ∅;
     Leases := ∅; Windows := ∅ |}.
Lemma empty_disk_inv : disk_inv empty_disk.
Proof. split; simpl; intros *; rewrite ?lookup_empty; try done. intros H. inversion H. Qed.

(** ** An accepted snapshot satisfies the invariant *)

Lemma forallb_map {V} (p : string * V -> bool) (m : gmap string V) id v :
  forallb p (map_to_list m) = true -> m !! id = Some v -> p (id, v) = true.
Proof.
  intros Hp Hm. rewrite forallb_forall in Hp. apply Hp. by apply list_elem_of_In, elem_of_map_to_list.
Qed.

Lemma snapshot_pending_spec s us : forall ids spent,
  snapshot_pending s us ids spent = true ->
  (forall u, u ∈ us -> 0 <= bytes u) /\
  (forall id, (forall k l, Leases s !! k = Some l -> NL_ID l = k) -> default 0 (spent !! id) <= used_of s id ->
     default 0 (spent !! id) + pending_bytes us id <= used_of s id).
Proof.
  induction us as [|u us IH]; intros ids spent H; simpl in H.
  { split; [intros u Hu; inversion Hu|]. intros id _ Hs. unfold pending_bytes. simpl. lia. }
  destruct (Leases s !! U_LeaseID u) as [l|] eqn:Hl; [|done]. pass H E1. pass H E2. bool_to_prop.
  destruct (IH _ _ H) as [IHu IHp]. split.
  - intros x [->|Hx]%elem_of_cons; [unfold bytes; lia|auto].
  - intros id Hid Hs. specialize (IHp id Hid). unfold pending_bytes in *. simpl. rewrite (Hid _ _ Hl) in *.
    unfold at_key at 1. destruct (String.eqb (U_LeaseID u) id) eqn:E; bool_to_prop.
    + subst id. rewrite lookup_insert_eq in IHp. assert (Hd : forall x : Z, default 0 (Some x) = x) by done. rewrite Hd in IHp.
      specialize (IHp ltac:(lia)). assert (bytes u = U_UploadBytes u + U_DownloadBytes u) by done. lia.
    + rewrite lookup_insert_ne in IHp by done. specialize (IHp Hs). lia.
Qed.

Lemma rule_bound_le ws rule : rule_bound ws rule <= maxTCPRuleCredits.
Proof.
  unfold rule_bound. induction (map_to_list ws).*2 as [|w l IH]; simpl; [unfold maxTCPRuleCredits; lia|].
  destruct (String.eqb _ _); [|done]. unfold rule_limit, maxTCPRuleCredits, maxRuleCredits in *. destruct (W_TCP w); lia.
Qed.

(** A sum over the windows of one key is zero, or some window has it. *)
Lemma key_sum_cases (ws : gmap string creditWindow) (p : creditWindow -> bool) (f : creditWindow -> Z) :
  map_sum (fun _ w => if p w then f w else 0) ws = 0 \/ exists id w, ws !! id = Some w /\ p w = true.
Proof.
  destruct (existsb (fun kw => p kw.2) (map_to_list ws)) eqn:E.
  - right. apply existsb_exists in E as ([id w] & Hin & Hp). apply list_elem_of_In, elem_of_map_to_list in Hin. eauto.
  - left. apply map_sum_all_zero. intros id w Hw. destruct (p w) eqn:Hp; [|done].
    assert (existsb (fun kw => p kw.2) (map_to_list ws) = true); [|congruence].
    apply existsb_exists. exists (id, w). split; [by apply list_elem_of_In, elem_of_map_to_list|done].
Qed.

Lemma snapshot_inv s : validateSnapshot s = Ok tt -> disk_inv s.
Proof.
  unfold validateSnapshot. intros H. pass H E0. pass H EL. pass H EU. pass H ER. pass H EP. pass H EW. pass H ES. clear H.
  apply negb_false_iff in EL, EU, EP, EW, ES.
  assert (HL : forall id l, Leases s !! id = Some l -> NL_ID l = id /\ 0 < NL_Bytes l /\ 0 <= used_of s id <= NL_Bytes l).
  { intros id l Hl. pose proof (forallb_map _ _ _ _ EL Hl) as Hs. simpl in Hs. bool_to_prop. split_and!; (done || lia). }
  assert (HW : forall id w, Windows s !! id = Some w -> snapshot_window s (id, w) = true).
  { intros id w. by apply forallb_map. }
  assert (HU : forall id n, Used s !! id = Some n -> is_Some (Leases s !! id)).
  { intros id n Hn. pose proof (forallb_map _ _ _ _ EU Hn) as Hs. by apply bool_decide_eq_true in Hs. }
  assert (Hun : forall id, Leases s !! id = None -> used_of s id = 0).
  { intros id Hn. unfold used_of. destruct (Used s !! id) eqn:E; [|done]. apply HU in E as []. congruence. }
  destruct (snapshot_pending_spec _ _ _ _ EP) as [Hrec Hpend].
  split.
  - intros id l Hl. by destruct (HL _ _ Hl) as (? & ? & _).
  - intros id n Hn. split; [|by eapply HU]. destruct (HU _ _ Hn) as [l Hl]. destruct (HL _ _ Hl) as (_ & _ & Hb & _).
    unfold used_of in Hb. by rewrite Hn in Hb.
  - intros id l Hl. destruct (HL _ _ Hl) as (_ & _ & Hb).
    destruct (key_sum_cases (Windows s) (fun w => String.eqb (W_LeaseID w) id) left) as [H0|(k & w & Hw & Hk)].
    + change (creditLiability (Windows s) id) with (map_sum (fun _ w => if String.eqb (W_LeaseID w) id then left w else 0) (Windows s)). lia.
    + apply HW in Hw. simpl in Hw. bool_to_prop. subst id. rewrite Hl in Hw. bool_to_prop. lia.
  - intros id w Hw. pose proof (HW _ _ Hw) as Hs. simpl in Hs. destruct (Leases s !! W_LeaseID w) as [l|] eqn:Hl; [|done].
    bool_to_prop. split_and!; [done..|]. exists l. split; [done|lia].
  - intros rule up. destruct (key_sum_cases (Windows s) (fun w => String.eqb (W_RuleID w) rule && Bool.eqb (W_Upload w) up) (fun _ => 1)) as [H0|(k & w & Hw & Hk)].
    + unfold pool_count. lia.
    + apply HW in Hw. simpl in Hw. destruct (Leases s !! W_LeaseID w); [|done]. bool_to_prop. apply eqb_prop in H0. subst. lia.
  - intros rule. destruct (key_sum_cases (Windows s) (fun w => String.eqb (W_RuleID w) rule) left) as [H0|(k & w & Hw & Hk)].
    + change (rule_total (Windows s) rule) with (map_sum (fun _ w => if String.eqb (W_RuleID w) rule then left w else 0) (Windows s)).
      unfold maxTCPRuleCredits. lia.
    + pose proof (forallb_map _ _ _ _ ES Hw) as Hs. simpl in Hs. bool_to_prop. subst rule. pose proof (rule_bound_le (Windows s) (W_RuleID w)). lia.
  - intros user. destruct (key_sum_cases (Windows s) (fun w => String.eqb (W_UserID w) user) left) as [H0|(k & w & Hw & Hk)].
    + change (user_total (Windows s) user) with (map_sum (fun _ w => if String.eqb (W_UserID w) user then left w else 0) (Windows s)).
      unfold maxAccountCredits. lia.
    + apply HW in Hw. simpl in Hw. destruct (Leases s !! W_LeaseID w); [|done]. bool_to_prop. subst user. lia.
  - exact Hrec.
  - intros id. specialize (Hpend id). rewrite lookup_empty in Hpend. apply Hpend; [intros; by apply HL|].
    destruct (Leases s !! id) as [l|] eqn:Hl; [by apply (HL _ _ Hl)|by rewrite Hun].
Qed.

Lemma snapshot_sequence s id w : validateSnapshot s = Ok tt -> Windows s !! id = Some w -> W_Sequence w <> 2 ^ 64 - 1.
Proof.
  unfold validateSnapshot. intros H Hw. pass H E0. pass H EL. pass H EU. pass H ER. pass H EP. pass H EW. apply negb_false_iff in EW.
  pose proof (forallb_map _ _ _ _ EW Hw) as Hs. unfold snapshot_window in Hs. destruct (Leases s !! W_LeaseID w); [|done].
  repeat (apply andb_prop in Hs as [Hs ?]). by bool_to_prop.
Qed.
