(* ===== verification/AgentCredits.v ===== *)
(** * Credits: forwarding without waiting for the disk
    (internal/agent/credits.go, lease_set.go, continuity.go, and the writer
    of state.go)

    A window of credit is reserved durably first and then spent from memory;
    what was spent of it is written back as progress.  The store is the
    durable state, the live windows and the log of events that reached the
    disk.  [credits] holds each live window once, under its identifier: the
    pools and the map of the source point to the same object, so a pool here
    is a list of identifiers.

    One function call reads the clock once, [now].  Whether the disk took an
    append, and whether a checkpoint was due and succeeded, is an argument
    [io]; whether the writer's queue had room is an argument too. *)

From S2P Require Import Prelude Tx GoStrings Calendar Rational Schema Quota AgentState.
From stdpp Require Import base gmap strings list sorting.
From Stdlib Require Import Ascii String.
Local Open Scope string_scope.
Local Open Scope Z_scope.

Record liveCredit := { LC_window : creditWindow; LC_used : Z; LC_last : Z; LC_closed : bool }.
Definition creditPoolKey : Type := string * bool.
Definition creditKey (rule : string) (up : bool) : creditPoolKey := (rule, up).
Definition tcpCreditIdleTimeout : Z := second.

Record Store := {
  state : diskState; failed : bool; fastFailed : bool; pauseTCPGrowth : bool; expandedCredits : bool;
  credits : gmap string liveCredit; creditPools : gmap creditPoolKey (list string);
  refilling : gset creditPoolKey; tcpCreditTargets : gmap creditPoolKey (Z * Z);
  prefetching : gmap string string; saved : diskState; log : list stateEvent
}.
Record stateRequest := {
  Rq_event : stateEvent; Rq_rule : Rule; Rq_until : Z; Rq_upload : bool; Rq_n : Z; Rq_prime : bool; Rq_size : Z
}.

Definition set_state (v : diskState) (s : Store) : Store :=
  {| state := v; failed := failed s; fastFailed := fastFailed s; pauseTCPGrowth := pauseTCPGrowth s;
     expandedCredits := expandedCredits s; credits := credits s; creditPools := creditPools s; refilling := refilling s;
     tcpCreditTargets := tcpCreditTargets s; prefetching := prefetching s; saved := saved s; log := log s |}.
Definition set_live (c : gmap string liveCredit) (p : gmap creditPoolKey (list string)) (s : Store) : Store :=
  {| state := state s; failed := failed s; fastFailed := fastFailed s; pauseTCPGrowth := pauseTCPGrowth s;
     expandedCredits := expandedCredits s; credits := c; creditPools := p; refilling := refilling s;
     tcpCreditTargets := tcpCreditTargets s; prefetching := prefetching s; saved := saved s; log := log s |}.
Definition set_targets (v : gmap creditPoolKey (Z * Z)) (s : Store) : Store :=
  {| state := state s; failed := failed s; fastFailed := fastFailed s; pauseTCPGrowth := pauseTCPGrowth s;
     expandedCredits := expandedCredits s; credits := credits s; creditPools := creditPools s; refilling := refilling s;
     tcpCreditTargets := v; prefetching := prefetching s; saved := saved s; log := log s |}.
Definition set_refilling (v : gset creditPoolKey) (s : Store) : Store :=
  {| state := state s; failed := failed s; fastFailed := fastFailed s; pauseTCPGrowth := pauseTCPGrowth s;
     expandedCredits := expandedCredits s; credits := credits s; creditPools := creditPools s; refilling := v;
     tcpCreditTargets := tcpCreditTargets s; prefetching := prefetching s; saved := saved s; log := log s |}.
(** The files: the checkpoint and the events logged after it. *)
Definition set_durable (c : diskState) (v : list stateEvent) (s : Store) : Store :=
  {| state := state s; failed := failed s; fastFailed := fastFailed s; pauseTCPGrowth := pauseTCPGrowth s;
     expandedCredits := expandedCredits s; credits := credits s; creditPools := creditPools s; refilling := refilling s;
     tcpCreditTargets := tcpCreditTargets s; prefetching := prefetching s; saved := c; log := v |}.
Definition set_failed (s : Store) : Store :=
  {| state := state s; failed := true; fastFailed := true; pauseTCPGrowth := pauseTCPGrowth s;
     expandedCredits := expandedCredits s; credits := credits s; creditPools := creditPools s; refilling := refilling s;
     tcpCreditTargets := tcpCreditTargets s; prefetching := prefetching s; saved := saved s; log := log s |}.
Definition set_expanded (v : bool) (s : Store) : Store :=
  {| state := state s; failed := failed s; fastFailed := fastFailed s; pauseTCPGrowth := pauseTCPGrowth s;
     expandedCredits := v; credits := credits s; creditPools := creditPools s; refilling := refilling s;
     tcpCreditTargets := tcpCreditTargets s; prefetching := prefetching s; saved := saved s; log := log s |}.

(** ** Continuity of rules (continuity.go) *)

Definition weightless (c : RouteCandidate) : RouteCandidate := {| RC_ID := RC_ID c; RC_Weight := 0; RC_Rest := RC_Rest c |}.
Definition sameExistingCandidates (a b : list RouteCandidate) : bool :=
  if bool_decide (a = []) || bool_decide (b = []) then bool_decide (a = b) else
  forallb (fun old => match List.find (fun next => String.eqb (RC_ID old) (RC_ID next)) b with
                      | Some next => bool_decide (weightless old = weightless next)
                      | None => false
                      end) a.

(** What of a rule does not concern its leases or routes. *)
Definition bare (r : Rule) : Rule :=
  {| R_ID := R_ID r; R_UserID := R_UserID r; R_Network := R_Network r; R_Enabled := R_Enabled r; R_UDP := R_UDP r;
     R_Lease := None; R_StandbyLease := None; R_LeasePipeline := false; R_Candidates := []; R_Rest := R_Rest r |}.
Definition sameForwardingRule (a b : Rule) : bool :=
  match R_Lease a, R_Lease b with
  | Some la, Some lb =>
      if negb (bool_decide (NL_Limits la = NL_Limits lb)) then false else
      if negb (sameExistingCandidates (R_Candidates a) (R_Candidates b)) then false else bool_decide (bare a = bare b)
  | _, _ => bool_decide (a = b)
  end.

Definition transientMeterError (e : error) : bool :=
  bool_decide (e = errLeaseUnavailable) || bool_decide (e = errSpoolFull) || bool_decide (e = errCreditUnavailable).

(** ** What a lease can still fund (state.go, lease_set.go) *)

Definition availableLocked (now : Z) (s : Store) (r : Rule) (until n : Z) : res unit :=
  if failed s then Err (ErrMsg "durable storage unavailable") else
  match R_Lease r with
  | None => Err errLeaseUnavailable
  | Some l =>
      if negb (now <? until) || negb (now <? NL_ExpiresAt l) then Err errLeaseUnavailable else
      if bool_decide (is_Some (Retired (state s) !! NL_ID l)) then Err errLeaseUnavailable else
      if lease_changed (state s) (Some l) then Err (ErrMsg "lease changed") else
      match validateLeaseCapacity (state s) [Some l] with
      | Err e => Err e
      | Ok _ =>
          let used := used_of (state s) (NL_ID l) in
          if (NL_Bytes l <=? 0) || (NL_Bytes l - used - creditLiability (Windows (state s)) (NL_ID l) <? n)
             || (NL_Bytes l <=? used)
          then Err errLeaseUnavailable else
          if MaxPendingRecords <=? spool (state s) then Err errSpoolFull else Ok tt
      end
  end.

Definition with_lease (r : Rule) (l : NodeLease) : Rule :=
  {| R_ID := R_ID r; R_UserID := R_UserID r; R_Network := R_Network r; R_Enabled := R_Enabled r; R_UDP := R_UDP r;
     R_Lease := Some l; R_StandbyLease := R_StandbyLease r; R_LeasePipeline := R_LeasePipeline r;
     R_Candidates := R_Candidates r; R_Rest := R_Rest r |}.
Definition with_limits_of (r : Rule) (l : NodeLease) : NodeLease :=
  match R_Lease r with
  | Some old => {| NL_ID := NL_ID l; NL_EntitlementID := NL_EntitlementID l; NL_ExpiresAt := NL_ExpiresAt l;
                   NL_Bytes := NL_Bytes l; NL_Limits := NL_Limits old |}
  | None => l
  end.
Definition is_ok (r : res unit) : bool := match r with Ok _ => true | Err _ => false end.
Definition spendingRuleLocked (now : Z) (s : Store) (r : Rule) (until n : Z) : Rule :=
  let candidates := flat_map (fun l => match l with Some l => [with_lease r (with_limits_of r l)] | None => [] end) (ruleLeases r) in
  match List.find (fun c => is_ok (availableLocked now s c until n)) candidates with
  | Some c => c
  | None => r
  end.

(** ** Spending from memory: [TryCreditCharge] *)

Definition matches_lease (now : Z) (r : Rule) (lease : string) : bool :=
  existsb (fun l => match l with Some l => String.eqb (NL_ID l) lease && (now <? NL_ExpiresAt l) | None => false end) (ruleLeases r).
Definition eligible (now : Z) (r : Rule) (c : liveCredit) : bool :=
  negb (LC_closed c) && matches_lease now r (W_LeaseID (LC_window c))
  && String.eqb (W_UserID (LC_window c)) (limitOwner r) && (now <? W_Until (LC_window c)).
Definition unspent (c : liveCredit) : Z := W_Capacity (LC_window c) - LC_used c.

(** Demand within a tenth of a second grows the next window fourfold. *)
Definition grown (now : Z) (c : liveCredit) (target : Z) : Z :=
  if (creditWindowSize <=? LC_used c) && (now - W_StartedAt (LC_window c) <? 100000000)
  then Z.max target (Z.min maxTCPCreditWindow (4 * W_Capacity (LC_window c))) else target.

Fixpoint survey (now : Z) (r : Rule) (adaptive : bool) (pool : list (string * liveCredit)) (target : Z)
  : list (string * liveCredit) * Z * Z * Z :=
  match pool with
  | [] => ([], 0, 0, target)
  | (id, c) :: pool =>
      if eligible now r c then
        let target := if adaptive then grown now c (Z.max target (W_Capacity (LC_window c))) else target in
        let '(l, remaining, spendable, target) := survey now r adaptive pool target in
        ((id, c) :: l, unspent c + remaining, (if 0 <? unspent c then 1 else 0) + spendable, target)
      else survey now r adaptive pool target
  end.

Definition spend_credit (now debit : Z) (c : liveCredit) : liveCredit :=
  {| LC_window := LC_window c; LC_used := LC_used c + debit;
     LC_last := if 0 <? debit then now else LC_last c; LC_closed := LC_closed c |}.

(** Debit the eligible windows in order until nothing is needed. *)
Fixpoint debit_all (now : Z) (adaptive : bool) (pool : list (string * liveCredit)) (needed spendable target : Z)
    (live : gmap string liveCredit) : gmap string liveCredit * Z * Z :=
  match pool with
  | [] => (live, spendable, target)
  | (id, c) :: pool =>
      let debit := Z.min needed (unspent c) in
      let c' := spend_credit now debit c in
      let target := if (0 <? debit) && adaptive then grown now c' target else target in
      let spendable := if (0 <? unspent c) && (LC_used c' =? W_Capacity (LC_window c)) then spendable - 1 else spendable in
      let live := <[id := c']> live in
      if needed - debit =? 0 then (live, spendable, target)
      else debit_all now adaptive pool (needed - debit) spendable target live
  end.

Definition pool_of (s : Store) (k : creditPoolKey) : list (string * liveCredit) :=
  flat_map (fun id => match credits s !! id with Some c => [(id, c)] | None => [] end) (default [] (creditPools s !! k)).

Definition credit_request (r : Rule) (until : Z) (up : bool) (n size : Z) : stateRequest :=
  {| Rq_event := empty_event "credit_reserve"; Rq_rule := r; Rq_until := until; Rq_upload := up; Rq_n := n;
     Rq_prime := false; Rq_size := size |}.

(** The result, the store and the refill put on the writer's queue. *)
Definition TryCreditCharge (now : Z) (queue : bool) (r : Rule) (until : Z) (up : bool) (n : Z) (s : Store)
  : res unit * Store * option stateRequest :=
  if n <? 0 then (Err (ErrMsg "negative charge"), s, None) else
  if fastFailed s then (Err (ErrMsg "durable storage unavailable"), s, None) else
  match R_Lease r with
  | None => (Err errLeaseUnavailable, s, None)
  | Some _ =>
      let capacity := foldl (fun m l => match l with Some l => Z.max m (NL_Bytes l) | None => m end) 0 (ruleLeases r) in
      if String.eqb (R_Network r) "tcp" && (capacity <? n) then (Err (ErrMsg "payload exceeds lease capacity"), s, None) else
      let k := creditKey (R_ID r) up in
      if negb (now <? until) then (Err errLeaseUnavailable, s, None) else
      let adaptive := String.eqb (R_Network r) "tcp" && negb (pauseTCPGrowth s) in
      let target := match tcpCreditTargets s !! k with
                    | Some (size, last) => if adaptive && (now - last <? tcpCreditIdleTimeout)
                                           then Z.max creditWindowSize size else creditWindowSize
                    | None => creditWindowSize
                    end in
      let '(pool, remaining, spendable, target) := survey now r adaptive (pool_of s k) target in
      let admitted := negb (bool_decide (pool.*1 = [])) && (n <=? remaining) in
      let '(live, spendable, target) :=
        if admitted then debit_all now adaptive pool n spendable target (credits s) else (credits s, spendable, target) in
      let remaining := if admitted then remaining - n else remaining in
      let s := set_live live (creditPools s) s in
      let s := if adaptive && admitted && (0 <? n) then set_targets (<[k := (target, now)]> (tcpCreditTargets s)) s else s in
      let refill := (negb admitted || (spendable <? 2)) && (remaining <? target) && negb (bool_decide (k ∈ refilling s)) in
      let s := if refill && queue then set_refilling ({[k]} ∪ refilling s) s else s in
      (if admitted then Ok tt else Err errCreditUnavailable, s,
       if refill && queue then Some (credit_request r until up n target) else None)
  end.

(** ** Progress of the live windows: [creditProgressLocked] *)

(** The leases a new configuration keeps spending from: a change of
    destination, owner or limits revokes the old windows. *)
Definition continued (old : Config) (c : Config) : list string :=
  flat_map (fun r => if R_Enabled r && usesCreditWindows r && match R_Lease r with Some _ => true | None => false end
                        && existsb (fun o => String.eqb (R_ID o) (R_ID r) && sameForwardingRule o r) (C_Rules old)
                     then lease_ids (ruleLeases r) else []) (C_Rules c).

Definition creditUsage (s : diskState) (w : creditWindow) (n : Z) (kind : string) (ended : Z) : UsageRecord :=
  {| U_ID := window_record w; U_NodeID := G_NodeID (Identity s); U_RuleID := W_RuleID w; U_LeaseID := W_LeaseID w;
     U_EntitlementID := entitlement_of s (W_LeaseID w); U_StartedAt := W_StartedAt w; U_EndedAt := ended;
     U_UploadBytes := if W_Upload w then n else 0; U_DownloadBytes := if W_Upload w then 0 else n;
     U_Kind := kind; U_WindowID := W_ID w; U_WindowSequence := W_Sequence w |}.

Definition advanced (w : creditWindow) (confirmed : Z) (closed : bool) : creditWindow :=
  {| W_ID := W_ID w; W_UserID := W_UserID w; W_RuleID := W_RuleID w; W_LeaseID := W_LeaseID w; W_Upload := W_Upload w;
     W_Capacity := W_Capacity w; W_Confirmed := confirmed; W_Sequence := nextSequence (W_Sequence w);
     W_StartedAt := W_StartedAt w; W_Until := W_Until w; W_Closed := closed; W_TCP := W_TCP w |}.
Definition progress_event (w : creditWindow) (usage : option UsageRecord) : stateEvent :=
  {| Kind := "credit_progress"; Ev_Identity := None; Ev_Config := None; Ev_Usage := usage; Ev_Lease := None;
     Ev_IDs := []; Ev_LeaseID := ""; Ev_RuleID := ""; Ev_Window := Some w |}.

Definition closes (now : Z) (tcpRule : bool) (active : list string) (trigger : stateEvent) (w : creditWindow) (c : liveCredit) : bool :=
  (tcpRule && (tcpCreditIdleTimeout <=? now - LC_last c)) || String.eqb (Kind trigger) "credit_close"
  || (String.eqb (Kind trigger) "credit_rebalance" && String.eqb (Ev_RuleID trigger) (W_RuleID w))
  || (LC_used c =? W_Capacity w) || negb (now <? W_Until w)
  || (String.eqb (Kind trigger) "retire" && String.eqb (Ev_LeaseID trigger) (W_LeaseID w))
  || (match Ev_Config trigger with Some _ => negb (bool_decide (W_LeaseID w ∈ active)) | None => false end).
Definition close_credit (c : liveCredit) : liveCredit :=
  {| LC_window := LC_window c; LC_used := LC_used c; LC_last := LC_last c; LC_closed := true |}.

Fixpoint progress_loop (now : Z) (st : diskState) (tcpRules active : list string) (trigger : stateEvent)
    (ids : list string) (room : Z) (live : gmap string liveCredit) : res (list stateEvent) * gmap string liveCredit :=
  match ids with
  | [] => (Ok [], live)
  | id :: ids =>
      match Windows st !! id, live !! id with
      | Some w, Some c =>
          let closing := closes now (bool_decide (W_RuleID w ∈ tcpRules)) active trigger w c in
          if negb closing && ((LC_used c =? W_Confirmed w) || (room <=? 0))
          then progress_loop now st tcpRules active trigger ids room live else
          let live := if closing then <[id := close_credit c]> live else live in
          let room := if closing then room else room - 1 in
          let w' := advanced w (LC_used c) closing in
          let delta := LC_used c - W_Confirmed w in
          let usage := if 0 <? delta then Some (creditUsage st w' delta "normal" (minTime (LC_last c) (W_Until w))) else None in
          match progress_loop now st tcpRules active trigger ids room live with
          | (Ok events, live) => (Ok (progress_event w' usage :: events), live)
          | (Err e, live) => (Err e, live)
          end
      | _, _ => (Err (ErrMsg "missing live credit"), live)
      end
  end.

Definition sorted_ids {V} (m : gmap string V) : list string := merge_sort (fun x y => Is_true (String.leb x y)) (map_to_list m).*1.

Definition creditProgressLocked (now : Z) (trigger : stateEvent) (s : Store) : res (list stateEvent) * Store :=
  let st := state s in
  let tcpRules := flat_map (fun r => if String.eqb (R_Network r) "tcp" then [R_ID r] else []) (C_Rules (Cfg st)) in
  let active := match Ev_Config trigger with Some c => continued (Cfg st) c | None => [] end in
  let s := set_targets (filter (fun kv => Is_true (now - kv.2.2 <? tcpCreditIdleTimeout)) (tcpCreditTargets s)) s in
  let room := MaxPendingRecords - Z.of_nat (List.length (Pending st)) - Z.of_nat (size (Windows st)) in
  let '(events, live) := progress_loop now st tcpRules active trigger (sorted_ids (Windows st)) room (credits s) in
  (events, set_live live (creditPools s) s).

(** ** Reserving a window: [reserveCreditLocked] *)

Definition staged_window (kind : string) (e : stateEvent) : option creditWindow :=
  if String.eqb (Kind e) kind then Ev_Window e else None.
Definition staged_sum (kind : string) (f : creditWindow -> Z) (staged : list stateEvent) : Z :=
  sum_over (fun e => match staged_window kind e with Some w => f w | None => 0 end) staged.

(** What a staged progress of a window releases of its reservation. *)
Definition released (ws : gmap string creditWindow) (w : creditWindow) : Z :=
  match ws !! W_ID w with
  | Some old => if W_Closed w then W_Capacity old - W_Confirmed old else W_Confirmed w - W_Confirmed old
  | None => 0
  end.
Definition closing_count (ws : gmap string creditWindow) (w : creditWindow) : Z :=
  match ws !! W_ID w with Some _ => if W_Closed w then 1 else 0 | None => 0 end.

(** The rule as the current configuration has it. *)
Definition current_rule (st : diskState) (r : Rule) (until : Z) : option (Rule * Z) :=
  if negb (String.eqb (C_NodeID (Cfg st)) "") then
    match List.find (fun c => String.eqb (R_ID c) (R_ID r) && R_Enabled c && usesCreditWindows c && sameForwardingRule c r) (C_Rules (Cfg st)) with
    | Some c => Some (c, minTime until (C_ValidUntil (Cfg st)))
    | None => None
    end
  else Some (r, until).

(** The first lease that can fund the debit beside what is staged. *)
Definition funding_rule (now : Z) (s : Store) (staged : list stateEvent) (r : Rule) (until n : Z) : Rule :=
  let candidates := flat_map (fun l => match l with Some l => [with_lease r l] | None => [] end) (ruleLeases r) in
  match List.find (fun c => match R_Lease c with
                            | Some l => is_ok (availableLocked now s c until
                                (staged_sum "credit_reserve" (fun w => at_key (W_LeaseID w) (NL_ID l) (W_Capacity w)) staged + Z.max 1 n))
                            | None => false
                            end) candidates with
  | Some c => c
  | None => r
  end.

Definition reserve_capacity (s : Store) (staged : list stateEvent) (r : Rule) (l : NodeLease) (q : stateRequest) : Z :=
  let st := state s in
  let up := Rq_upload q in
  let ws := Windows st in
  let in_rule w x := at_key (W_RuleID w) (R_ID r) x in
  let directed w x := if Bool.eqb (W_Upload w) up then in_rule w (at_key (W_LeaseID w) (NL_ID l) x) else 0 in
  let owned w x := at_key (W_UserID w) (limitOwner r) x in
  let total (f : creditWindow -> Z -> Z) :=
    map_sum (fun _ w => f w (left w)) ws - staged_sum "credit_progress" (fun w => f w (released ws w)) staged
    + staged_sum "credit_reserve" (fun w => f w (W_Capacity w)) staged in
  let adaptive := String.eqb (R_Network r) "tcp" && negb (pauseTCPGrowth s) in
  let windowLimit := if adaptive
    then Z.min (Z.min maxTCPCreditWindow (Z.max creditWindowSize (Rq_size q))) (Z.max creditWindowSize (Z.quot (NL_Bytes l) 16))
    else creditWindowSize in
  let ruleLimit := if adaptive then maxTCPRuleCredits else maxRuleCredits in
  let budget := NL_Bytes l - used_of st (NL_ID l) - creditLiability ws (NL_ID l)
    - staged_sum "credit_reserve" (fun w => at_key (W_LeaseID w) (NL_ID l) (W_Capacity w)) staged in
  let capacity := Z.min (Z.min (Z.min (Z.min windowLimit (Z.max (Rq_n q) (Z.quot (NL_Bytes l - 1) 4 + 1)))
    (ruleLimit - total in_rule)) (maxAccountCredits - total owned)) budget in
  if Rq_prime q then
    let remaining := NL_Bytes l - used_of st (NL_ID l) in
    let half := Z.quot remaining 2 + (if up then Z.rem remaining 2 else 0) in
    Z.min capacity (half - total directed)
  else capacity.

Definition reserve_count (s : Store) (staged : list stateEvent) (r : Rule) (up : bool) : Z :=
  let ws := Windows (state s) in
  let mine w x := if String.eqb (W_RuleID w) (R_ID r) && Bool.eqb (W_Upload w) up then x else 0 in
  map_sum (fun _ w => mine w 1) ws - staged_sum "credit_progress" (fun w => mine w (closing_count ws w)) staged
  + staged_sum "credit_reserve" (fun w => mine w 1) staged.

Definition reserve_event (w : creditWindow) (l : NodeLease) : stateEvent :=
  {| Kind := "credit_reserve"; Ev_Identity := None; Ev_Config := None; Ev_Usage := None; Ev_Lease := Some l;
     Ev_IDs := []; Ev_LeaseID := ""; Ev_RuleID := ""; Ev_Window := Some w |}.

(** Every [time.Now] of a request is a reading of its own: when the lease is
    chosen (one reading for all candidates: whichever is chosen is checked
    again), when it is checked ([availableLocked]), when the windows of an
    exhausted lease are closed, and when the record or the window is stamped. *)
Record readings := { at_choice : Z; at_check : Z; at_close : Z; at_stamp : Z }.
(** The readings of a batch: at its start, of its requests, and at the commit. *)
Record timing := { tm_start : Z; tm_request : nat -> readings; tm_end : Z }.

(** [Ok None]: both windows of the direction exist already. *)
Definition reserveCreditLocked (at_ : readings) (randomID : string) (q : stateRequest) (staged : list stateEvent) (s : Store)
  : res (option stateEvent) :=
  match current_rule (state s) (Rq_rule q) (Rq_until q) with
  | None => Err errLeaseUnavailable
  | Some (r, until) =>
      let r := funding_rule (at_choice at_) s staged r until (Rq_n q) in
      match availableLocked (at_check at_) s r until 0, R_Lease r with
      | Err e, _ => Err e
      | Ok _, None => Err errLeaseUnavailable
      | Ok _, Some l =>
          match validateLeaseCapacity (state s) (Some l :: (Ev_Lease <$> staged)) with
          | Err e => Err e
          | Ok _ =>
              if MaxPendingRecords <=? spool (state s) + Z.of_nat (List.length staged) then Err errSpoolFull else
              if 2 <=? reserve_count s staged r (Rq_upload q) then Ok None else
              let capacity := reserve_capacity s staged r l q in
              if capacity <=? 0 then Err errLeaseUnavailable else
              if (0 <? Rq_n q) && (capacity <? Rq_n q) then Err errLeaseUnavailable else
              Ok (Some (reserve_event
                {| W_ID := randomID; W_UserID := limitOwner r; W_RuleID := R_ID r; W_LeaseID := NL_ID l;
                   W_Upload := Rq_upload q; W_Capacity := capacity; W_Confirmed := 0; W_Sequence := 0;
                   W_StartedAt := at_stamp at_; W_Until := minTime until (NL_ExpiresAt l); W_Closed := false;
                   W_TCP := String.eqb (R_Network r) "tcp" |} l))
          end
      end
  end.

(** ** Application with the live windows *)

Definition remove_id (id : string) (l : list string) : list string := List.filter (fun x => negb (String.eqb x id)) l.
Definition publish (w : creditWindow) (s : Store) : Store :=
  let k := creditKey (W_RuleID w) (W_Upload w) in
  set_live (<[W_ID w := {| LC_window := w; LC_used := 0; LC_last := W_StartedAt w; LC_closed := false |}]> (credits s))
    (<[k := default [] (creditPools s !! k) ++ [W_ID w]]> (creditPools s))%list s.
Definition retract (w : creditWindow) (s : Store) : Store :=
  let k := creditKey (W_RuleID w) (W_Upload w) in
  let pool := remove_id (W_ID w) (default [] (creditPools s !! k)) in
  set_live (delete (W_ID w) (credits s))
    (if bool_decide (pool = []) then delete k (creditPools s) else <[k := pool]> (creditPools s)) s.
Definition advance_live (w : creditWindow) (s : Store) : Store :=
  match credits s !! W_ID w with
  | None => s
  | Some c => if W_Closed w then retract w s
              else set_live (<[W_ID w := {| LC_window := w; LC_used := LC_used c; LC_last := LC_last c; LC_closed := LC_closed c |}]> (credits s))
                     (creditPools s) s
  end.

(** [applyEvent] on the whole store. *)
Definition apply_store (e : stateEvent) (s : Store) : res unit * Store :=
  match applyEvent e (state s) with
  | (Err err, st) => (Err err, set_state st s)
  | (Ok _, st) =>
      let s := set_state st s in
      (Ok tt, match Ev_Window e with
              | Some w => if String.eqb (Kind e) "credit_reserve"
                          then publish w (if creditWindowSize <? W_Capacity w then set_expanded true s else s)
                          else if String.eqb (Kind e) "credit_progress" then advance_live w s else s
              | None => s
              end)
  end.
Fixpoint apply_all (l : list stateEvent) (s : Store) : res unit * Store :=
  match l with
  | [] => (Ok tt, s)
  | e :: l => match apply_store e s with (Ok _, s) => apply_all l s | (Err err, s) => (Err err, s) end
  end.

(** What the disk does with one append: it takes it, or refuses it after
    [append_kept] complete records; and with a checkpoint, which is due when
    the log has grown enough ([walBytes]) and may fail before or after the
    new snapshot is in place. *)
Record Disk := {
  append_err : option error; append_kept : nat; checkpoint_due : bool; checkpoint_err : option error; checkpoint_renamed : bool
}.

Definition checkpointLocked (now : Z) (io : Disk) (s : Store) : res unit * Store :=
  let s := set_state (pruneLeaseHistory now (state s)) s in
  match checkpoint_err io with
  | Some e => (Err e, if checkpoint_renamed io then set_durable (state s) [] s else s)
  | None => (Ok tt, set_durable (state s) [] s)
  end.

Definition append_and_apply (now : Z) (io : Disk) (events : list stateEvent) (s : Store) : res unit * Store :=
  match append_err io with
  | Some e => (Err e, set_durable (saved s) (log s ++ take (append_kept io) events)%list s)
  | None =>
      match apply_all events (set_durable (saved s) (log s ++ events)%list s) with
      | (Err e, s) => (Err e, s)
      | (Ok _, s) => if checkpoint_due io then checkpointLocked now io s else (Ok tt, s)
      end
  end.

Definition commitCreditEventsLocked (now : Z) (io : Disk) (events : list stateEvent) (s : Store) : res unit * Store :=
  match events with
  | [] => (Ok tt, s)
  | _ => match append_and_apply now io events s with
         | (Err e, s) => (Err e, set_failed s)
         | (Ok _, s) => (Ok tt, s)
         end
  end.

(** ** The writer's credit batches *)

Definition rebalance_event (rule : string) : stateEvent :=
  {| Kind := "credit_rebalance"; Ev_Identity := None; Ev_Config := None; Ev_Usage := None; Ev_Lease := None;
     Ev_IDs := []; Ev_LeaseID := ""; Ev_RuleID := rule; Ev_Window := None |}.

Definition open_unspent (pool : list (string * liveCredit)) : Z :=
  sum_over (fun kc => if LC_closed kc.2 then 0 else unspent kc.2) pool.

(** Whether unused credit of the rule has to be returned first. *)
Definition needs_rebalance (now : Z) (q : stateRequest) (s : Store) : bool :=
  let r := Rq_rule q in
  let mine := pool_of s (creditKey (R_ID r) (Rq_upload q)) in
  let other := pool_of s (creditKey (R_ID r) (negb (Rq_upload q))) in
  let hasWindows := negb (bool_decide (mine.*1 = [])) || negb (bool_decide (other.*1 = [])) in
  if negb (hasWindows && (open_unspent mine <? Rq_n q)) || (open_unspent mine + open_unspent other =? 0) then false else
  let ws := Windows (state s) in
  let ruleLimit := if String.eqb (R_Network r) "tcp" then maxTCPRuleCredits else maxRuleCredits in
  negb ((Z.of_nat (List.length mine) <? 2)
        && (Rq_n q <=? ruleLimit - rule_total ws (R_ID r)) && (Rq_n q <=? maxAccountCredits - user_total ws (limitOwner r))
        && existsb (fun l => match l with Some l => is_ok (availableLocked now s (with_lease r l) (Rq_until q) (Rq_n q)) | None => false end)
             (ruleLeases r)).

Definition rebalanceCreditsLocked (now : Z) (io : Disk) (q : stateRequest) (s : Store) : res unit * Store :=
  if Rq_n q <=? 0 then (Ok tt, s) else
  if negb (needs_rebalance now q s) then (Ok tt, s) else
  match creditProgressLocked now (rebalance_event (R_ID (Rq_rule q))) s with
  | (Err e, s) => (Err e, s)
  | (Ok events, s) => commitCreditEventsLocked now io events s
  end.

Fixpoint rebalance_all (now : Z) (ios : nat -> Disk) (i : nat) (batch : list stateRequest) (s : Store) : res unit * Store :=
  match batch with
  | [] => (Ok tt, s)
  | q :: batch => match rebalanceCreditsLocked now (ios i) q s with
                  | (Err e, s) => (Err e, s)
                  | (Ok _, s) => rebalance_all now ios (Datatypes.S i) batch s
                  end
  end.

Fixpoint reserve_all (tm : timing) (ids : nat -> string) (i : nat) (batch : list stateRequest) (events : list stateEvent) (s : Store)
  : list (res unit) * list stateEvent :=
  match batch with
  | [] => ([], events)
  | q :: batch =>
      let '(result, events) := match reserveCreditLocked (tm_request tm i) (ids i) q events s with
                               | Ok (Some e) => (Ok tt, (events ++ [e])%list)
                               | Ok None => (Ok tt, events)
                               | Err e => (Err e, events)
                               end in
      let '(results, events) := reserve_all tm ids (Datatypes.S i) batch events s in
      (result :: results, events)
  end.

Definition done_refilling (batch : list stateRequest) (s : Store) : Store :=
  set_refilling (foldl (fun ks q => ks ∖ {[creditKey (R_ID (Rq_rule q)) (Rq_upload q)]}) (refilling s) batch) s.

Definition unavailable : error := ErrMsg "durable storage unavailable; repair and restart".

(** A batch of reservations: progress and reservations are one append. *)
Definition processReserveBatch (tm : timing) (ios : nat -> Disk) (ids : nat -> string) (batch : list stateRequest) (s : Store)
  : list (res unit) * Store :=
  if failed s then (map (fun _ => Err unavailable) batch, s) else
  let '(results, s) :=
    match rebalance_all (tm_start tm) ios 1 batch s with
    | (Err e, s) => (map (fun _ => Err e) batch, s)
    | (Ok _, s) =>
        match creditProgressLocked (tm_start tm) (empty_event "credit_flush") s with
        | (Err e, s) => (map (fun _ => Err e) batch, s)
        | (Ok progress, s) =>
            let '(results, events) := reserve_all tm ids 0 batch progress s in
            match commitCreditEventsLocked (tm_end tm) (ios 0%nat) events s with
            | (Err e, s) => (map (fun _ => Err e) batch, s)
            | (Ok _, s) => (results, s)
            end
        end
    end in
  (results, done_refilling batch s).

(** A flush or the close of the store. *)
Definition processFlush (now : Z) (io : Disk) (kind : string) (s : Store) : res unit * Store :=
  if failed s then (Err unavailable, s) else
  match creditProgressLocked now (empty_event kind) s with
  | (Err e, s) => (Err e, s)
  | (Ok events, s) => commitCreditEventsLocked now io events s
  end.

(** ** Restart: [recoverCredits]

    No live credit survives; the uncertain remainder of each window is
    accounted as used. *)
Definition recovery_event (now : Z) (st : diskState) (w : creditWindow) : stateEvent :=
  let w' := advanced w (W_Capacity w) true in
  let delta := W_Capacity w - W_Confirmed w in
  progress_event w' (if 0 <? delta then Some (creditUsage st w' delta "recovery" (minTime now (W_Until w))) else None).

Fixpoint recover_loop (now : Z) (ios : nat -> Disk) (ids : list string) (i : nat) (s : Store) : res unit * Store :=
  match ids with
  | [] => (Ok tt, s)
  | id :: ids =>
      match Windows (state s) !! id with
      | None => recover_loop now ios ids (Datatypes.S i) s
      | Some w =>
          let s := if creditWindowSize <? W_Capacity w then set_expanded true s else s in
          match commitCreditEventsLocked now (ios i) [recovery_event now (state s) w] s with
          | (Err e, s) => (Err e, s)
          | (Ok _, s) => recover_loop now ios ids (Datatypes.S i) s
          end
      end
  end.
Definition recoverCredits (now : Z) (ios : nat -> Disk) (s : Store) : res unit * Store :=
  recover_loop now ios (sorted_ids (Windows (state s))) 0 s.

(** Opening the files: the checkpoint, the log replayed on it, the recovery
    of the windows. *)
Definition blank (c : diskState) (events : list stateEvent) : Store :=
  {| state := c; failed := false; fastFailed := false; pauseTCPGrowth := false; expandedCredits := false; credits := ∅;
     creditPools := ∅; refilling := ∅; tcpCreditTargets := ∅; prefetching := ∅; saved := c; log := events |}.
Definition OpenStore (now : Z) (ios : nat -> Disk) (c : diskState) (events : list stateEvent) : res unit * Store :=
  match validateSnapshot c with
  | Err e => (Err e, blank c events)
  | Ok _ =>
      match apply_all events (blank c events) with
      | (Err e, s) => (Err e, s)
      | (Ok _, s) => match validateSnapshot (state s) with
                     | Err e => (Err e, s)
                     | Ok _ => recoverCredits now ios s
                     end
      end
  end.

(** ** The live windows mirror the durable ones *)

(** The pools list live windows of their key, each once. *)
Record pool_inv (s : Store) : Prop := {
  pl_pool k ids id : creditPools s !! k = Some ids -> id ∈ ids ->
    exists c, credits s !! id = Some c /\ creditKey (W_RuleID (LC_window c)) (W_Upload (LC_window c)) = k;
  pl_nodup k ids : creditPools s !! k = Some ids -> NoDup ids
}.
Record live_inv (s : Store) : Prop := {
  lv_windows : Windows (state s) = LC_window <$> credits s;
  lv_used id c : credits s !! id = Some c -> W_Confirmed (LC_window c) <= LC_used c <= W_Capacity (LC_window c);
  lv_pools : pool_inv s
}.

Lemma lv_pool s (H : live_inv s) k ids id : creditPools s !! k = Some ids -> id ∈ ids ->
  exists c, credits s !! id = Some c /\ creditKey (W_RuleID (LC_window c)) (W_Upload (LC_window c)) = k.
Proof. apply (pl_pool _ (lv_pools _ H)). Qed.
Lemma lv_nodup s (H : live_inv s) k ids : creditPools s !! k = Some ids -> NoDup ids.
Proof. apply (pl_nodup _ (lv_pools _ H)). Qed.

(** Pools and live windows only. *)
Lemma pool_inv_ext s s' : creditPools s' = creditPools s -> credits s' = credits s -> pool_inv s -> pool_inv s'.
Proof. intros Hp Hc [H1 H2]. split; rewrite Hp, ?Hc; done. Qed.
Lemma pool_inv_windows s s' : creditPools s' = creditPools s -> LC_window <$> credits s' = LC_window <$> credits s -> pool_inv s -> pool_inv s'.
Proof.
  intros Hp Hw [H1 H2]. split; rewrite Hp; [|done]. intros k ids id Hk Hid. destruct (H1 _ _ _ Hk Hid) as (c & Hc & Hkey).
  assert (H : (LC_window <$> credits s') !! id = Some (LC_window c)) by (rewrite Hw, lookup_fmap, Hc; done).
  rewrite lookup_fmap in H. destruct (credits s' !! id) as [c'|]; [|done]. injection H as He. exists c'. by rewrite He.
Qed.

(** What was forwarded at the expense of a lease, written back or not. *)
Definition unsettled (c : liveCredit) : Z := LC_used c - W_Confirmed (LC_window c).
Definition unsettled_of (live : gmap string liveCredit) (lease : string) : Z :=
  map_sum (fun _ c => at_key (W_LeaseID (LC_window c)) lease (unsettled c)) live.
Definition spent (s : Store) (lease : string) : Z := used_of (state s) lease + unsettled_of (credits s) lease.

Lemma map_sum_fmap {A B} (g : A -> B) (f : B -> Z) (m : gmap string A) :
  map_sum (fun _ x => f x) (g <$> m) = map_sum (fun _ x => f (g x)) m.
Proof.
  induction m as [|k v m Hk IH] using map_ind; [by rewrite fmap_empty, !map_sum_empty|].
  rewrite fmap_insert, !map_sum_insert_None by (done || by rewrite lookup_fmap, Hk). by rewrite IH.
Qed.

Lemma liability_live s lease : live_inv s ->
  creditLiability (Windows (state s)) lease =
  map_sum (fun _ c => at_key (W_LeaseID (LC_window c)) lease (left (LC_window c))) (credits s).
Proof.
  intros Hl. unfold creditLiability. rewrite (lv_windows _ Hl).
  apply (map_sum_fmap LC_window (fun w => at_key (W_LeaseID w) lease (left w))).
Qed.

(** Forwarded traffic is covered by what the lease has spent and reserved. *)
Lemma spent_covered s lease : live_inv s ->
  used_of (state s) lease <= spent s lease <= used_of (state s) lease + creditLiability (Windows (state s)) lease.
Proof.
  intros Hl. rewrite (liability_live _ _ Hl). unfold spent, unsettled_of. split.
  - apply Z.le_sub_le_add_l. rewrite Z.sub_diag. apply map_sum_nonneg. intros id c Hc. pose proof (lv_used _ Hl _ _ Hc).
    unfold unsettled. apply at_key_bound. lia.
  - apply Z.add_le_mono_l, map_sum_le. intros id c Hc. pose proof (lv_used _ Hl _ _ Hc).
    unfold at_key, unsettled, left. destruct (String.eqb _ _); lia.
Qed.

Lemma spent_bound s id l : disk_inv (state s) -> live_inv s -> Leases (state s) !! id = Some l -> spent s id <= NL_Bytes l.
Proof. intros Hd Hl Hid. pose proof (spent_covered s id Hl). pose proof (di_budget _ Hd _ _ Hid). lia. Qed.

(** ** A charge spends exactly what it asked for *)

(** [debited P live live' n]: windows satisfying [P] were debited [n] bytes in
    total, none beyond its capacity; nothing else changed but the time of the
    last use. *)
Record debited (P : string -> liveCredit -> Prop) (live live' : gmap string liveCredit) (n : Z) : Prop := {
  db_total : map_sum (fun _ c => LC_used c) live' = map_sum (fun _ c => LC_used c) live + n;
  db_windows : LC_window <$> live' = LC_window <$> live;
  db_row id c' : live' !! id = Some c' -> exists c, live !! id = Some c /\ LC_window c' = LC_window c /\
    LC_closed c' = LC_closed c /\ LC_used c <= LC_used c' /\
    (LC_used c' <> LC_used c -> P id c /\ LC_used c' <= W_Capacity (LC_window c'))
}.

Lemma debited_refl P live : debited P live live 0.
Proof. split; [lia|done|]. intros id c Hc. exists c. repeat split; done. Qed.

Lemma debited_step P live live' id c n debit now :
  live !! id = Some c -> P id c -> 0 <= debit <= unspent c ->
  debited P (<[id := spend_credit now debit c]> live) live' (n - debit) ->
  (forall c', live' !! id = Some c' -> LC_used c' = LC_used c + debit) -> debited P live live' n.
Proof.
  intros Hc HP Hd [Ht Hw Hr] Hsame. split.
  - rewrite Ht, map_sum_insert, Hc. simpl. lia.
  - rewrite Hw, fmap_insert. apply insert_id. by rewrite lookup_fmap, Hc.
  - intros k c' Hk. destruct (Hr _ _ Hk) as (x & Hx & Hwin & Hcl & Hle & Hne).
    apply lookup_insert_Some in Hx as [[<- <-]|[Hk' Hx]].
    + exists c. simpl in *. specialize (Hsame _ Hk). unfold unspent in Hd. rewrite Hwin, Hcl. repeat split; [done|lia|done|lia].
    + exists x. repeat split; try done; by apply Hne.
Qed.

Lemma debit_all_spec (P : string -> liveCredit -> Prop) now adaptive pool : forall needed spendable target live,
  NoDup pool.*1 -> pool <> [] -> 0 <= needed <= sum_over (fun kc => unspent kc.2) pool ->
  (forall id c, (id, c) ∈ pool -> live !! id = Some c /\ P id c /\ 0 <= unspent c) ->
  debited P live (debit_all now adaptive pool needed spendable target live).1.1 needed /\
  (forall id, id ∉ pool.*1 -> (debit_all now adaptive pool needed spendable target live).1.1 !! id = live !! id).
Proof.
  induction pool as [|[id c] pool IH]; intros needed spendable target live Hnd Hne Hneed Hpool; [done|].
  destruct (Hpool id c) as (Hlive & HP & Hun); [by left|]. apply NoDup_cons in Hnd as [Hid Hnd]. cbn [sum_over snd] in Hneed.
  cbn [debit_all]. set (debit := Z.min needed (unspent c)). set (sp := if _ && _ then _ else _). set (tg := if (0 <? debit) && _ then _ else _).
  set (live1 := <[id := spend_credit now debit c]> live).
  destruct (needed - debit =? 0) eqn:E; bool_to_prop; cbn [fst].
  - split; [|intros k Hk; rewrite fmap_cons in Hk; apply lookup_insert_ne; set_solver].
    apply (debited_step P live live1 id c needed debit now Hlive HP); [lia| |].
    + rewrite E. apply debited_refl.
    + intros c'. unfold live1. rewrite lookup_insert_eq. by intros [= <-].
  - assert (Hrest : pool <> []) by (intros ->; simpl in Hneed; lia).
    destruct (IH (needed - debit) sp tg live1 Hnd Hrest) as [Hdeb Hother]; [lia| |].
    { intros k x Hx. destruct (Hpool k x) as (Hk & HPk & Hu); [by right|]. unfold live1. rewrite lookup_insert_ne; [done|].
      intros <-. apply Hid. apply list_elem_of_fmap. exists (id, x). done. }
    split.
    + apply (debited_step P live _ id c needed debit now Hlive HP); [lia|exact Hdeb|].
      intros c'. rewrite (Hother id Hid). unfold live1. rewrite lookup_insert_eq. by intros [= <-].
    + intros k Hk. rewrite fmap_cons in Hk. rewrite (Hother k) by set_solver. unfold live1. apply lookup_insert_ne. set_solver.
Qed.

Lemma survey_spec now r adaptive pool : forall target,
  let '(l, remaining, spendable, _) := survey now r adaptive pool target in
  l = List.filter (fun kc => eligible now r kc.2) pool /\ remaining = sum_over (fun kc => unspent kc.2) l.
Proof.
  induction pool as [|[id c] pool IH]; intros target; simpl; [done|]. destruct (eligible now r c); [|apply IH].
  match goal with |- context [survey now r adaptive pool ?t] => specialize (IH t) end.
  destruct (survey now r adaptive pool _) as [[[l remaining] spendable] tg]. destruct IH as [-> ->]. done.
Qed.

Lemma pool_of_spec s k : live_inv s ->
  NoDup (pool_of s k).*1 /\ forall id c, (id, c) ∈ pool_of s k -> credits s !! id = Some c.
Proof.
  intros Hl. unfold pool_of. split.
  - destruct (creditPools s !! k) as [ids|] eqn:E; simpl; [|constructor]. pose proof (lv_nodup _ Hl _ _ E) as Hnd. clear E.
    induction ids as [|id ids IH]; simpl; [constructor|]. apply NoDup_cons in Hnd as [Hid Hnd].
    destruct (credits s !! id); simpl; [|auto]. apply NoDup_cons. split; [|auto].
    intros ([k' c'] & -> & Hin)%list_elem_of_fmap. apply Hid. apply list_elem_of_In, in_flat_map in Hin as (x & Hx & Hin).
    destruct (credits s !! x); [|done]. destruct Hin as [[= -> ->]|[]]. by apply list_elem_of_In.
  - intros id c Hin. apply list_elem_of_In, in_flat_map in Hin as (x & _ & Hin). destruct (credits s !! x) eqn:E; [|done].
    by destruct Hin as [[= <- <-]|[]].
Qed.

(** Windows of the rule's pool that may fund a charge now. *)
Definition may_fund (s : Store) (now : Z) (r : Rule) (up : bool) (id : string) (c : liveCredit) : Prop :=
  id ∈ default [] (creditPools s !! creditKey (R_ID r) up) /\ eligible now r c = true.

Lemma pool_of_elem s k id c : (id, c) ∈ pool_of s k -> id ∈ default [] (creditPools s !! k).
Proof.
  unfold pool_of. rewrite list_elem_of_In, in_flat_map. intros (x & Hx & Hin). apply list_elem_of_In in Hx.
  destruct (credits s !! x); [|done]. by destruct Hin as [[= -> ->]|[]].
Qed.

Lemma NoDup_fst_Lfilter {A B} (p : A * B -> bool) (l : list (A * B)) : NoDup l.*1 -> NoDup (List.filter p l).*1.
Proof.
  induction l as [|[a b] l IH]; simpl; [done|]. intros [Ha Hl]%NoDup_cons. destruct (p (a, b)); [|auto]. simpl.
  apply NoDup_cons. split; [|auto]. intros (x & -> & Hx)%list_elem_of_fmap. apply list_elem_of_In, filter_In in Hx as [Hx _].
  apply Ha, list_elem_of_fmap. exists x. split; [done|]. by apply list_elem_of_In.
Qed.

Lemma charge_debits s now r up adaptive n spendable target pool remaining :
  live_inv s -> 0 <= n ->
  pool = List.filter (fun kc => eligible now r kc.2) (pool_of s (creditKey (R_ID r) up)) ->
  remaining = sum_over (fun kc => unspent kc.2) pool ->
  negb (bool_decide (pool.*1 = [])) && (n <=? remaining) = true ->
  debited (may_fund s now r up) (credits s) (debit_all now adaptive pool n spendable target (credits s)).1.1 n.
Proof.
  intros Hl Hn Hpool Hrem Ha. bool_to_prop. destruct (pool_of_spec s (creditKey (R_ID r) up) Hl) as [Hnd Hin].
  apply debit_all_spec.
  - rewrite Hpool. by apply NoDup_fst_Lfilter.
  - intros ->. done.
  - lia.
  - intros id c Hic. rewrite Hpool in Hic. apply list_elem_of_In, filter_In in Hic as [Hic He]. apply list_elem_of_In in Hic.
    pose proof (Hin _ _ Hic) as Hc. split; [done|]. split; [split; [by eapply pool_of_elem|done]|].
    pose proof (lv_used _ Hl _ _ Hc). unfold unspent. lia.
Qed.

Lemma TryCreditCharge_spec now queue r until up n s result s' q :
  live_inv s -> TryCreditCharge now queue r until up n s = (result, s', q) ->
  state s' = state s /\ creditPools s' = creditPools s /\
  match result with
  | Ok _ => 0 <= n /\ now < until /\ fastFailed s = false /\ debited (may_fund s now r up) (credits s) (credits s') n
  | Err _ => credits s' = credits s
  end.
Proof.
  intros Hl. unfold TryCreditCharge. destruct (n <? 0) eqn:En; [by intros [= <- <- <-]|].
  destruct (fastFailed s) eqn:Ef; [by intros [= <- <- <-]|]. destruct (R_Lease r); [|by intros [= <- <- <-]].
  cbv zeta. destruct (_ && (_ <? n)); [by intros [= <- <- <-]|]. destruct (negb (now <? until)) eqn:Eu; [by intros [= <- <- <-]|].
  set (adaptive := String.eqb (R_Network r) "tcp" && _).
  match goal with |- context [survey now r adaptive _ ?t] => set (target := t) end.
  pose proof (survey_spec now r adaptive (pool_of s (creditKey (R_ID r) up)) target) as Hs.
  destruct (survey now r adaptive _ target) as [[[pool remaining] spendable] target']. destruct Hs as [Hpool Hrem].
  destruct (negb (bool_decide (pool.*1 = [])) && (n <=? remaining)) eqn:Ea.
  - bool_to_prop. pose proof (charge_debits s now r up adaptive n spendable target' pool remaining Hl En Hpool Hrem) as Hd.
    specialize (Hd ltac:(apply andb_true_intro; split; [by apply negb_true_iff, bool_decide_eq_false|by apply Z.leb_le])).
    destruct (debit_all now adaptive pool n spendable target' (credits s)) as [[live sp] tg].
    intros [= <- <- <-]. repeat if_case; simpl; auto 6.
  - intros [= <- <- <-]. repeat if_case; simpl; auto.
Qed.

Lemma debited_live s s' (P : string -> liveCredit -> Prop) n :
  live_inv s -> state s' = state s -> creditPools s' = creditPools s -> debited P (credits s) (credits s') n -> live_inv s'.
Proof.
  intros Hl Hs Hp [Ht Hw Hr]. split.
  - by rewrite Hs, Hw, (lv_windows _ Hl).
  - intros id c' Hc'. destruct (Hr _ _ Hc') as (c & Hc & Hwin & _ & Hle & Hne). pose proof (lv_used _ Hl _ _ Hc).
    destruct (decide (LC_used c' = LC_used c)) as [He|Hd]; [rewrite He, Hwin; done|]. destruct (Hne Hd) as [_ Hcap].
    rewrite Hwin in *. lia.
  - by apply (pool_inv_windows s); [| |apply (lv_pools _ Hl)].
Qed.

Lemma TryCreditCharge_live now queue r until up n s : live_inv s -> live_inv (TryCreditCharge now queue r until up n s).1.2.
Proof.
  intros Hl. destruct (TryCreditCharge now queue r until up n s) as [[result s'] q] eqn:E. simpl.
  destruct (TryCreditCharge_spec _ _ _ _ _ _ _ _ _ _ Hl E) as (Hs & Hp & Hres). destruct result.
  - destruct Hres as (_ & _ & _ & Hd). by eapply debited_live.
  - eapply (debited_live s s' (fun _ _ => True)); eauto. rewrite Hres. apply debited_refl.
Qed.

(** ** Applying events keeps the mirror *)

Definition credit_kind (e : stateEvent) : bool := String.eqb (Kind e) "credit_reserve" || String.eqb (Kind e) "credit_progress".

Lemma applyEvent_windows e s : credit_kind e = false -> Windows (applyEvent e s).2 = Windows s.
Proof.
  unfold credit_kind, applyEvent. intros ->. if_case.
  - unfold apply_usage. repeat case_match; simplify_eq/=; done.
  - destruct (validateEvent s e); [|done]. simpl. repeat if_case; try done; by destruct (Ev_Identity e), (Ev_Config e).
Qed.

Lemma apply_credit_err e s err st : credit_kind e = true -> applyEvent e s = (Err err, st) -> st = s.
Proof.
  unfold credit_kind, applyEvent. intros ->. unfold apply_credit. destruct (validateCreditEvent s e); [|by intros [= _ <-]].
  destruct (Ev_Window e); [|done]. by destruct (String.eqb _ _).
Qed.

Lemma reserve_Ok e s st : Kind e = "credit_reserve" -> applyEvent e s = (Ok tt, st) ->
  exists w, Ev_Window e = Some w /\ valid_window w = true /\ W_Confirmed w = 0 /\ Windows s !! W_ID w = None /\
    Windows st = <[W_ID w := w]> (Windows s).
Proof.
  intros Hk. unfold applyEvent. rewrite Hk. simpl. unfold apply_credit, validateCreditEvent. rewrite Hk. simpl.
  destruct (Ev_Window e) as [w|]; [|done]. destruct (negb (valid_window w)) eqn:Ev; [done|].
  destruct (validReserve s w (Ev_Lease e)) eqn:Er; [|done]. intros [= <-]. exists w. bool_to_prop.
  unfold validReserve in Er. destruct (Ev_Lease e); [|done]. pass Er E1. bool_to_prop.
  match goal with H : ~ is_Some _ |- _ => apply eq_None_not_Some in H end. done.
Qed.

Lemma progress_Ok e s st : Kind e = "credit_progress" -> applyEvent e s = (Ok tt, st) ->
  exists w old, Ev_Window e = Some w /\ Windows s !! W_ID w = Some old /\ valid_window w = true /\ same_window w old = true /\
    W_Confirmed old <= W_Confirmed w /\
    Windows st = if W_Closed w then delete (W_ID w) (Windows s) else <[W_ID w := w]> (Windows s).
Proof.
  intros Hk. unfold applyEvent. rewrite Hk. simpl. unfold apply_credit, validateCreditEvent. rewrite Hk. simpl.
  destruct (Ev_Window e) as [w|]; [|done]. destruct (negb (valid_window w)) eqn:Ev; [done|].
  destruct (validProgress s w (Ev_Usage e)) eqn:Er; [|done]. intros [= <-]. bool_to_prop.
  unfold validProgress in Er. destruct (Windows s !! W_ID w) as [old|] eqn:Ho; [|done]. pass Er E1. bool_to_prop.
  exists w, old. split_and!; try done. by destruct (Ev_Usage e).
Qed.

Lemma publish_pool s st w : pool_inv s -> credits s !! W_ID w = None -> pool_inv (publish w (set_state st s)).
Proof.
  intros [Hpool Hnd] En.
  assert (Hold : forall k ids id, creditPools s !! k = Some ids -> id ∈ ids -> id <> W_ID w).
  { intros k ids id Hk Hid ->. destruct (Hpool _ _ _ Hk Hid) as (c & Hcr & _). congruence. }
  split; simpl.
  - intros k ids id [[<- <-]|[_ Hk]]%lookup_insert_Some Hid.
    + apply elem_of_app in Hid as [Hid|Hid%list_elem_of_singleton].
      * destruct (creditPools s !! creditKey (W_RuleID w) (W_Upload w)) as [ids|] eqn:Ek; [|exfalso; simpl in Hid; set_solver]. simpl in Hid.
        destruct (Hpool _ _ _ Ek Hid) as (c & Hcr & Hkey). exists c. rewrite lookup_insert_ne; [done|]. intros <-. by eapply Hold.
      * subst id. eexists. by rewrite lookup_insert_eq.
    + destruct (Hpool _ _ _ Hk Hid) as (c & Hcr & Hkey). exists c. rewrite lookup_insert_ne; [done|]. intros <-. by eapply Hold.
  - intros k ids [[<- <-]|[_ Hk]]%lookup_insert_Some; [|by eapply Hnd].
    destruct (creditPools s !! creditKey (W_RuleID w) (W_Upload w)) as [ids|] eqn:Ek; simpl; [|apply NoDup_singleton]. apply NoDup_app. split_and!.
    + by eapply Hnd.
    + intros x Hx ->%list_elem_of_singleton. by eapply Hold.
    + apply NoDup_singleton.
Qed.

Lemma publish_live s st w : live_inv s -> valid_window w = true -> W_Confirmed w = 0 -> Windows (state s) !! W_ID w = None ->
  Windows st = <[W_ID w := w]> (Windows (state s)) -> live_inv (publish w (set_state st s)).
Proof.
  intros Hl Hv Hc Hn Hw. apply valid_window_spec in Hv. rewrite (lv_windows _ Hl), lookup_fmap in Hn.
  destruct (credits s !! W_ID w) eqn:En; [done|]. split; simpl.
  - by rewrite Hw, (lv_windows _ Hl), fmap_insert.
  - intros id c [[<- <-]|[_ Hx]]%lookup_insert_Some; [simpl; lia|]. exact (lv_used _ Hl _ _ Hx).
  - apply publish_pool; [apply (lv_pools _ Hl)|done].
Qed.

Lemma remove_id_elem id x l : x ∈ remove_id id l <-> x ∈ l /\ x <> id.
Proof.
  unfold remove_id. rewrite !list_elem_of_In, filter_In, negb_true_iff. split; intros [H1 H2]; split; try done; bool_to_prop; [done|].
  by apply String.eqb_neq.
Qed.
Lemma remove_id_nodup id l : NoDup l -> NoDup (remove_id id l).
Proof. rewrite !NoDup_ListNoDup. apply List.NoDup_filter. Qed.

Lemma retract_pool s st w c : pool_inv s -> credits s !! W_ID w = Some c ->
  creditKey (W_RuleID (LC_window c)) (W_Upload (LC_window c)) = creditKey (W_RuleID w) (W_Upload w) ->
  pool_inv (retract w (set_state st s)).
Proof.
  intros [Hpool Hnd] Hc Hkey0. unfold retract. simpl.
  set (pool := remove_id (W_ID w) (default [] (creditPools s !! creditKey (W_RuleID w) (W_Upload w)))).
  assert (Hpools : forall k ids, (if bool_decide (pool = []) then delete (creditKey (W_RuleID w) (W_Upload w)) (creditPools s)
      else <[creditKey (W_RuleID w) (W_Upload w) := pool]> (creditPools s)) !! k = Some ids ->
    exists ids0, creditPools s !! k = Some ids0 /\ NoDup ids /\ forall x, x ∈ ids -> x ∈ ids0 /\ x <> W_ID w).
  { intros k ids Hk. destruct (decide (k = creditKey (W_RuleID w) (W_Upload w))) as [->|Hne].
    - case_bool_decide as Ep; [by rewrite lookup_delete_eq in Hk|]. rewrite lookup_insert_eq in Hk. injection Hk as <-.
      unfold pool in *. destruct (creditPools s !! creditKey (W_RuleID w) (W_Upload w)) as [ids0|] eqn:Ek; [|done]. exists ids0. simpl in *.
      split; [done|]. split; [by eapply remove_id_nodup, Hnd|]. intros x. by apply remove_id_elem.
    - assert (Hk' : creditPools s !! k = Some ids).
      { case_bool_decide; [by rewrite lookup_delete_ne in Hk|by rewrite lookup_insert_ne in Hk]. }
      exists ids. split; [done|]. split; [by eapply Hnd|]. intros x Hx. split; [done|]. intros ->.
      destruct (Hpool _ _ _ Hk' Hx) as (c' & Hc' & Hkey). rewrite Hc in Hc'. injection Hc' as <-. congruence. }
  split; simpl.
  - intros k ids id Hk Hid. destruct (Hpools _ _ Hk) as (ids0 & Hk0 & _ & Hx). destruct (Hx _ Hid) as [Hin Hne].
    destruct (Hpool _ _ _ Hk0 Hin) as (x & Hcx & Hkey). exists x. rewrite lookup_delete_ne by done. done.
  - intros k ids Hk. by destruct (Hpools _ _ Hk) as (ids0 & _ & Hn & _).
Qed.

Lemma advance_pool s st w c : pool_inv s -> credits s !! W_ID w = Some c -> same_window w (LC_window c) = true ->
  pool_inv (advance_live w (set_state st s)).
Proof.
  intros Hp Hc Hsame. apply same_window_spec in Hsame as (_ & Hr & _ & Hup & _). unfold advance_live. simpl. rewrite Hc.
  destruct (W_Closed w); [eapply retract_pool; [done|exact Hc|by rewrite Hr, Hup]|]. destruct Hp as [Hpool Hnd]. split; simpl; [|done].
  intros k ids id Hk Hid. destruct (Hpool _ _ _ Hk Hid) as (x & Hx & Hkey). destruct (decide (id = W_ID w)) as [->|Hne].
  - rewrite Hc in Hx. injection Hx as <-. eexists. rewrite lookup_insert_eq. split; [done|]. simpl. by rewrite Hr, Hup.
  - exists x. by rewrite lookup_insert_ne.
Qed.

Lemma advance_live_inv s st w old c :
  live_inv s -> credits s !! W_ID w = Some c -> LC_window c = old -> same_window w old = true ->
  W_Confirmed w <= LC_used c ->
  Windows st = (if W_Closed w then delete (W_ID w) (Windows (state s)) else <[W_ID w := w]> (Windows (state s))) ->
  live_inv (advance_live w (set_state st s)).
Proof.
  intros Hl Hc Hold Hsame Hle Hw. pose proof (lv_used _ Hl _ _ Hc) as Hu.
  assert (Hp : pool_inv (advance_live w (set_state st s))) by (eapply advance_pool; [apply (lv_pools _ Hl)|exact Hc|by rewrite Hold]).
  apply same_window_spec in Hsame as (_ & _ & _ & _ & _ & Hcap & _). split; [| |exact Hp].
  - unfold advance_live. simpl. rewrite Hc. destruct (W_Closed w); simpl; rewrite Hw, (lv_windows _ Hl); [by rewrite fmap_delete|by rewrite fmap_insert].
  - unfold advance_live. simpl. rewrite Hc. destruct (W_Closed w); simpl; intros id x.
    + intros [_ Hx]%lookup_delete_Some. exact (lv_used _ Hl _ _ Hx).
    + intros [[<- <-]|[_ Hx]]%lookup_insert_Some; [simpl; rewrite Hcap, <- Hold; lia|]. exact (lv_used _ Hl _ _ Hx).
Qed.

(** A progress event never confirms more than its window was used. *)
Definition fits (live : gmap string liveCredit) (e : stateEvent) : Prop :=
  Kind e = "credit_progress" -> forall w c, Ev_Window e = Some w -> live !! W_ID w = Some c -> W_Confirmed w <= LC_used c.

Lemma set_state_live s st : live_inv s -> Windows st = Windows (state s) -> live_inv (set_state st s).
Proof. intros [Hm Hu Hp] Hw. split; simpl; [by rewrite Hw|done|by apply (pool_inv_ext s)]. Qed.
Lemma set_expanded_live s b : live_inv s -> live_inv (set_expanded b s).
Proof. intros [Hm Hu Hp]. split; [done|done|by apply (pool_inv_ext s)]. Qed.

Lemma apply_store_live e s : live_inv s -> fits (credits s) e -> live_inv (apply_store e s).2.
Proof.
  intros Hl Hf. unfold apply_store. destruct (applyEvent e (state s)) as [[[]|err] st] eqn:E; simpl.
  - destruct (credit_kind e) eqn:Ek.
    + unfold credit_kind in Ek. apply orb_prop in Ek. destruct (String.eqb (Kind e) "credit_reserve") eqn:Er; bool_to_prop.
      * destruct (reserve_Ok _ _ _ Er E) as (w & -> & Hv & Hc & Hn & Hw).
        destruct (creditWindowSize <? W_Capacity w).
        -- apply (publish_live (set_expanded true s) st w); try done. by apply set_expanded_live.
        -- by apply publish_live.
      * destruct Ek as [|Ek]; [done|]. apply String.eqb_eq in Ek. destruct (progress_Ok _ _ _ Ek E) as (w & old & Hwin & Ho & Hv & Hs & _ & Hw).
        rewrite Hwin. rewrite (proj2 (String.eqb_eq _ _) Ek).
        pose proof Ho as Ho'. rewrite (lv_windows _ Hl), lookup_fmap in Ho'. destruct (credits s !! W_ID w) as [c|] eqn:Hc; [|done].
        injection Ho' as Hold. eapply advance_live_inv; eauto.
    + pose proof (applyEvent_windows e (state s) Ek) as Hw. rewrite E in Hw. simpl in Hw. unfold credit_kind in Ek.
      apply orb_false_elim in Ek as [-> ->]. destruct (Ev_Window e); by apply set_state_live.
  - apply set_state_live; [done|]. destruct (credit_kind e) eqn:Ek.
    + by rewrite (apply_credit_err _ _ _ _ Ek E).
    + pose proof (applyEvent_windows e (state s) Ek) as Hw. by rewrite E in Hw.
Qed.

(** Only a reservation changes an amount used, by publishing a window. *)
Lemma apply_store_used e s id c' : Kind e <> "credit_reserve" -> credits (apply_store e s).2 !! id = Some c' ->
  exists c, credits s !! id = Some c /\ LC_used c' = LC_used c.
Proof.
  intros Hk%String.eqb_neq. unfold apply_store. destruct (applyEvent e (state s)) as [[[]|err] st]; simpl; [|eauto]. rewrite Hk.
  destruct (Ev_Window e) as [w|]; [|eauto]. destruct (String.eqb (Kind e) "credit_progress"); [|eauto].
  unfold advance_live. simpl. destruct (credits s !! W_ID w) as [c|] eqn:Hc; [|eauto]. destruct (W_Closed w); simpl.
  - intros [_ H]%lookup_delete_Some. eauto.
  - intros [[<- <-]|[_ H]]%lookup_insert_Some; eauto.
Qed.

Lemma apply_all_live events : forall s,
  live_inv s -> Forall (fun e => Kind e <> "credit_reserve" /\ fits (credits s) e) events -> live_inv (apply_all events s).2.
Proof.
  induction events as [|e events IH]; intros s Hl He; simpl; [done|]. apply Forall_cons in He as [[Hk Hf] He].
  pose proof (apply_store_live e s Hl Hf) as Hl'. pose proof (fun id c' => apply_store_used e s id c' Hk) as Hu.
  destruct (apply_store e s) as [[a|err] s']; simpl in *; [|done]. apply IH; [done|].
  eapply Forall_impl; [exact He|]. intros e' [Hk' Hf']. split; [done|]. intros Hp w c' Hw Hc'.
  destruct (Hu _ _ Hc') as (c & Hc & ->). by eapply Hf'.
Qed.

Lemma apply_reserves_live events : forall s,
  live_inv s -> Forall (fun e => Kind e <> "credit_progress") events -> live_inv (apply_all events s).2.
Proof.
  induction events as [|e events IH]; intros s Hl He; simpl; [done|]. apply Forall_cons in He as [Hk He].
  pose proof (apply_store_live e s Hl ltac:(intros ?; done)) as Hl'. destruct (apply_store e s) as [[a|err] s']; simpl in *; auto.
Qed.

Lemma apply_all_app a b s :
  apply_all (a ++ b) s = match apply_all a s with (Ok _, s') => apply_all b s' | (Err e, s') => (Err e, s') end.
Proof. revert s. induction a as [|e a IH]; intros s; simpl; [done|]. destruct (apply_store e s) as [[u|err] s']; auto. Qed.

(** ** Progress *)

(** Some windows were closed to further debits, nothing else. *)
Definition closed_some (live live' : gmap string liveCredit) : Prop :=
  forall id, live' !! id = live !! id \/ exists c, live !! id = Some c /\ live' !! id = Some (close_credit c).

Lemma closed_some_lookup live live' id c : closed_some live live' -> live !! id = Some c ->
  exists c', live' !! id = Some c' /\ LC_window c' = LC_window c /\ LC_used c' = LC_used c.
Proof. intros H Hc. destruct (H id) as [He|(x & Hx & He)]; rewrite He; [by exists c|]. rewrite Hc in Hx. injection Hx as <-. by eexists. Qed.

Lemma closed_some_live s live' : live_inv s -> closed_some (credits s) live' -> live_inv (set_live live' (creditPools s) s).
Proof.
  intros Hl Hcs. split; simpl.
  - rewrite (lv_windows _ Hl). apply map_eq. intros id. rewrite !lookup_fmap.
    destruct (Hcs id) as [->|(c & -> & ->)]; done.
  - intros id c' Hc'. destruct (Hcs id) as [He|(c & Hc & He)]; rewrite He in Hc'.
    + by apply (lv_used _ Hl) in Hc'.
    + injection Hc' as <-. exact (lv_used _ Hl _ _ Hc).
  - apply (pool_inv_windows s); [done| |apply (lv_pools _ Hl)]. simpl. apply map_eq. intros id. rewrite !lookup_fmap.
    destruct (Hcs id) as [->|(c & -> & ->)]; done.
Qed.

(** What [creditProgressLocked] writes for one window. *)
Definition progress_of (st : diskState) (live : gmap string liveCredit) (e : stateEvent) : Prop :=
  exists id w c closed, Windows st !! id = Some w /\ live !! id = Some c /\
    e = progress_event (advanced w (LC_used c) closed)
      (if 0 <? LC_used c - W_Confirmed w
       then Some (creditUsage st (advanced w (LC_used c) closed) (LC_used c - W_Confirmed w) "normal" (minTime (LC_last c) (W_Until w)))
       else None).

Lemma progress_loop_spec now st tcpRules active trigger live0 ids : forall room live,
  NoDup ids -> (forall id, id ∈ ids -> exists w, Windows st !! id = Some w) ->
  (forall id w, Windows st !! id = Some w -> is_Some (live0 !! id)) ->
  closed_some live0 live -> (forall id, id ∈ ids -> live !! id = live0 !! id) ->
  exists events live', progress_loop now st tcpRules active trigger ids room live = (Ok events, live') /\
    closed_some live0 live' /\ Forall (progress_of st live0) events.
Proof.
  induction ids as [|id ids IH]; intros room live Hnd Hw Hlive Hcs Hsame; simpl; [by exists [], live|].
  apply NoDup_cons in Hnd as [Hid Hnd]. destruct (Hw id) as [w Hww]; [by left|]. destruct (Hlive _ _ Hww) as [c Hc].
  rewrite Hww, (Hsame id), Hc by (by left).
  set (closing := closes _ _ _ _ _ _). destruct (negb closing && _).
  { apply IH; [done|intros; apply Hw; by right|done|done|intros; apply Hsame; by right]. }
  set (live1 := if closing then <[id := close_credit c]> live else live). set (room1 := if closing then room else room - 1).
  destruct (IH room1 live1) as (events & live' & -> & Hcs' & Hev); [done|intros; apply Hw; by right|done| | |].
  - unfold live1. destruct closing; [|done]. intros k. destruct (decide (k = id)) as [->|Hne].
    + right. exists c. by rewrite lookup_insert_eq.
    + rewrite lookup_insert_ne by done. apply Hcs.
  - intros k Hk. unfold live1. destruct closing; [rewrite lookup_insert_ne by (intros <-; done)|]; apply Hsame; by right.
  - eexists _, live'. split; [done|]. split; [done|]. constructor; [|done]. by exists id, w, c, closing.
Qed.

Lemma sorted_ids_elem {V} (m : gmap string V) id : id ∈ sorted_ids m <-> is_Some (m !! id).
Proof.
  unfold sorted_ids. rewrite (merge_sort_Permutation (fun x y => Is_true (String.leb x y))). rewrite list_elem_of_fmap. split.
  - intros ([k v] & -> & H%elem_of_map_to_list). eauto.
  - intros [v Hv]. exists (id, v). split; [done|]. by apply elem_of_map_to_list.
Qed.
Lemma sorted_ids_nodup {V} (m : gmap string V) : NoDup (sorted_ids m).
Proof. unfold sorted_ids. rewrite (merge_sort_Permutation (fun x y => Is_true (String.leb x y))). apply NoDup_fst_map_to_list. Qed.

Lemma creditProgress_spec now trigger s : live_inv s ->
  exists events live', creditProgressLocked now trigger s =
    (Ok events, set_live live' (creditPools s) (set_targets (filter (fun kv => Is_true (now - kv.2.2 <? tcpCreditIdleTimeout)) (tcpCreditTargets s)) s)) /\
    closed_some (credits s) live' /\ Forall (progress_of (state s) (credits s)) events.
Proof.
  intros Hl. unfold creditProgressLocked. cbv zeta.
  match goal with |- context [progress_loop now _ ?t ?a trigger _ ?r _] =>
    destruct (progress_loop_spec now (state s) t a trigger (credits s) (sorted_ids (Windows (state s))) r (credits s))
      as (events & live' & He & Hcs & Hev) end.
  - apply sorted_ids_nodup.
  - intros id Hid%sorted_ids_elem. by destruct Hid as [w Hw]; exists w.
  - intros id w Hw. rewrite (lv_windows _ Hl), lookup_fmap in Hw. by destruct (credits s !! id); [eexists|].
  - intros id. by left.
  - done.
  - exists events, live'. simpl. by rewrite He.
Qed.

Lemma progress_of_ok st live live' e :
  disk_inv st -> progress_of st live e -> closed_some live live' ->
  (forall id c, live !! id = Some c -> W_Confirmed (LC_window c) <= LC_used c <= W_Capacity (LC_window c)) ->
  Windows st = LC_window <$> live ->
  event_ok e /\ Kind e = "credit_progress" /\ fits live' e.
Proof.
  intros Hd (id & w & c & closed & Hw & Hc & ->) Hcs Hused Hmirror.
  assert (Hwin : LC_window c = w) by (rewrite Hmirror, lookup_fmap, Hc in Hw; by injection Hw).
  pose proof (Hused _ _ Hc) as Hb. rewrite Hwin in Hb. destruct (di_window _ Hd _ _ Hw) as (Hid & Hv & _).
  apply valid_window_spec in Hv as (Hcap & Hconf & _). split; [|split; [done|]].
  - unfold event_ok. simpl. split; [|done]. destruct (0 <? LC_used c - W_Confirmed w); [|done]. simpl.
    assert (window_limit w <= maxTCPCreditWindow) by (unfold window_limit, maxTCPCreditWindow, creditWindowSize; destruct (W_TCP w); lia).
    unfold in_int64, MinInt64, MaxInt64, maxTCPCreditWindow in *. destruct (W_Upload w); lia.
  - intros _ w' c' [= <-] Hc'. simpl in *. rewrite Hid in Hc'. destruct (closed_some_lookup _ _ _ _ Hcs Hc) as (x & Hx & _ & Hu).
    rewrite Hx in Hc'. injection Hc' as <-. lia.
Qed.

(** ** The store

    Both halves of the state are sound, and while the store has not failed a
    replay of the log on the checkpoint gives the state. *)
Record sound (L : Store -> Prop) (s : Store) : Prop := {
  si_disk : disk_inv (state s);
  si_live : L s;
  si_saved : disk_inv (saved s);
  si_log : Forall event_ok (log s);
  si_replay : failed s = false -> applyEvents (log s) (saved s) = (Ok tt, state s)
}.
Abbreviation store_inv := (sound live_inv).

(** A property of the windows and the live windows alone. *)
Definition about_live (L : Store -> Prop) : Prop := forall s s',
  Windows (state s') = Windows (state s) -> credits s' = credits s -> creditPools s' = creditPools s -> L s -> L s'.

Lemma live_inv_about : about_live live_inv.
Proof. intros s s' Hw Hc Hp [Hm Hu Hpool]. split; [by rewrite Hw, Hc|by rewrite Hc|by apply (pool_inv_ext s)]. Qed.

Lemma applyEvents_app a b s :
  applyEvents (a ++ b) s = match applyEvents a s with (Ok _, s') => applyEvents b s' | (Err e, s') => (Err e, s') end.
Proof. revert s. induction a as [|e a IH]; intros s; simpl; [done|]. destruct (applyEvent e s) as [[u|err] s']; auto. Qed.

(** On the durable half, the store applies events as a replay does. *)
Lemma apply_store_state e s : (apply_store e s).1 = (applyEvent e (state s)).1 /\ state (apply_store e s).2 = (applyEvent e (state s)).2 /\
  saved (apply_store e s).2 = saved s /\ log (apply_store e s).2 = log s /\ failed (apply_store e s).2 = failed s.
Proof.
  unfold apply_store. destruct (applyEvent e (state s)) as [[[]|err] st]; simpl; [|done].
  destruct (Ev_Window e) as [w|]; [|done]. destruct (String.eqb (Kind e) "credit_reserve").
  { destruct (creditWindowSize <? W_Capacity w); done. }
  destruct (String.eqb (Kind e) "credit_progress"); [|done]. unfold advance_live. simpl.
  destruct (credits s !! W_ID w); [|done]. by destruct (W_Closed w).
Qed.

Lemma apply_all_state l : forall s, (apply_all l s).1 = (applyEvents l (state s)).1 /\
  state (apply_all l s).2 = (applyEvents l (state s)).2 /\
  saved (apply_all l s).2 = saved s /\ log (apply_all l s).2 = log s /\ failed (apply_all l s).2 = failed s.
Proof.
  induction l as [|e l IH]; intros s; simpl; [done|]. destruct (apply_store_state e s) as (H1 & H2 & H3 & H4 & H5).
  destruct (apply_store e s) as [[u|err] s'], (applyEvent e (state s)) as [[v|err'] st]; simpl in *; subst; try done.
  destruct (IH s') as (? & ? & ? & ? & ?). split_and!; congruence.
Qed.

Section Commit.
Context (L : Store -> Prop) (HL : about_live L).

Ltac live_done := first [done|eapply HL; [..|eassumption]; done].

Lemma checkpoint_inv now io s :
  disk_inv (state s) -> L s -> disk_inv (saved s) -> Forall event_ok (log s) ->
  sound L (set_failed (checkpointLocked now io s).2) /\
  ((checkpointLocked now io s).1 = Ok tt -> sound L (checkpointLocked now io s).2).
Proof.
  intros Hd Hl Hs Hlog. pose proof (prune_inv now _ Hd) as Hp. unfold checkpointLocked. destruct (checkpoint_err io) as [e|]; simpl.
  - split; [|done]. destruct (checkpoint_renamed io); split; simpl; live_done.
  - split; [split; simpl; live_done|]. intros _. split; simpl; live_done.
Qed.

Lemma append_inv now io events s :
  sound L s -> failed s = false -> Forall event_ok events ->
  (forall c v, L (apply_all events (set_durable c v s)).2) ->
  sound L (set_failed (append_and_apply now io events s).2) /\
  ((append_and_apply now io events s).1 = Ok tt -> sound L (append_and_apply now io events s).2).
Proof.
  intros [Hd Hl Hs Hlog Hr] Hf Hev Hlive. unfold append_and_apply. destruct (append_err io) as [e|]; simpl.
  { split; [|done]. split; simpl; try live_done. apply Forall_app. split; [done|]. by apply Forall_take. }
  set (s0 := set_durable (saved s) (log s ++ events)%list s).
  destruct (apply_all_state events s0) as (H1 & H2 & H3 & H4 & H5). specialize (Hlive (saved s) (log s ++ events)%list). fold s0 in Hlive.
  pose proof (applyEvents_inv events (state s) Hev Hd) as Hd'. specialize (Hr Hf).
  assert (Hlog' : Forall event_ok (log s ++ events)) by (by apply Forall_app).
  destruct (apply_all events s0) as [[[]|e] s1]; simpl in *.
  - assert (Hi : sound L s1).
    { split; [by rewrite H2|done|by rewrite H3|by rewrite H4|]. intros _. rewrite H3, H4. simpl. rewrite applyEvents_app, Hr.
      destruct (applyEvents events (state s)) as [[[]|e'] st']; simpl in *; congruence. }
    destruct (checkpoint_due io); [by destruct Hi; apply checkpoint_inv|]. split; [|done].
    destruct Hi as [A B C D _]. split; simpl; live_done.
  - split; [|done]. split; simpl; [by rewrite H2|live_done|by rewrite H3|by rewrite H4|done].
Qed.

Lemma commit_inv now io events s :
  sound L s -> failed s = false -> Forall event_ok events ->
  (forall c v, L (apply_all events (set_durable c v s)).2) ->
  sound L (commitCreditEventsLocked now io events s).2.
Proof.
  intros Hi Hf Hev Hlive. unfold commitCreditEventsLocked. destruct events as [|e l] eqn:El; [done|]. rewrite <- El in *.
  destruct (append_inv now io events s Hi Hf Hev Hlive) as [Ha Hb].
  destruct (append_and_apply now io events s) as [[[]|err] s']; simpl in *; auto.
Qed.
End Commit.

(** A commit that succeeds leaves the store running. *)
Lemma commit_running now io events s :
  (commitCreditEventsLocked now io events s).1 = Ok tt -> failed (commitCreditEventsLocked now io events s).2 = failed s.
Proof.
  unfold commitCreditEventsLocked. destruct events as [|e l] eqn:El; [done|]. rewrite <- El. clear El e l. unfold append_and_apply.
  destruct (append_err io); [done|]. destruct (apply_all_state events (set_durable (saved s) (log s ++ events)%list s)) as (_ & _ & _ & _ & Hf).
  destruct (apply_all events _) as [[[]|err] s']; [|done]. simpl in *. destruct (checkpoint_due io); [|done].
  unfold checkpointLocked. by destruct (checkpoint_err io).
Qed.

(** Events of a running store: progress that fits and other events first,
    then reservations. *)
Definition staged_ok (s : Store) (events : list stateEvent) : Prop :=
  exists a b, events = List.app a b /\ Forall (fun e => Kind e <> "credit_reserve" /\ fits (credits s) e) a /\
    Forall (fun e => Kind e <> "credit_progress") b.

Lemma commit_staged now io events s :
  store_inv s -> failed s = false -> Forall event_ok events -> staged_ok s events ->
  store_inv (commitCreditEventsLocked now io events s).2.
Proof.
  intros Hi Hf Hev (a & b & -> & Ha & Hb). apply commit_inv; [apply live_inv_about|done..|]. intros c v.
  assert (Hl : live_inv (set_durable c v s)) by (eapply live_inv_about; [..|apply Hi]; done).
  rewrite apply_all_app. pose proof (apply_all_live a (set_durable c v s) Hl Ha) as Hla.
  destruct (apply_all a (set_durable c v s)) as [[u|err] s']; [|done]. by apply apply_reserves_live.
Qed.

(** Progress of a sound store: it always succeeds, and its events fit. *)
Lemma progress_step now trigger s : store_inv s ->
  exists events s', creditProgressLocked now trigger s = (Ok events, s') /\ store_inv s' /\ failed s' = failed s /\
    state s' = state s /\ closed_some (credits s) (credits s') /\
    Forall event_ok events /\ Forall (fun e => Kind e <> "credit_reserve" /\ fits (credits s') e) events.
Proof.
  intros [Hd Hl Hs Hlog Hr]. destruct (creditProgress_spec now trigger s Hl) as (events & live' & -> & Hcs & Hev).
  eexists _, _. split; [done|]. pose proof (closed_some_live _ _ Hl Hcs) as Hl'. split; [|split; [done|split; [done|split; [done|]]]].
  - split; simpl; try done. destruct Hl' as [Hm Hu Hp]. split; [done|done|]. revert Hp. by apply pool_inv_ext.
  - assert (Hall : Forall (fun e => event_ok e /\ Kind e = "credit_progress" /\ fits live' e) events).
    { eapply Forall_impl; [exact Hev|]. intros e He. exact (progress_of_ok _ _ _ _ Hd He Hcs (lv_used _ Hl) (lv_windows _ Hl)). }
    split; (eapply Forall_impl; [exact Hall|]); intros e (Hok & Hk & Hf); [done|]. split; [by rewrite Hk|done].
Qed.
