(* ===== verification/AgentStore.v ===== *)
(** * The agent's writer and restarts (internal/agent/state.go [process],
    [renewalDueLocked], [renewals], [Retirements]; credits.go [recoverCredits])

    All durable changes go through one writer: a request or a batch of
    charges becomes a list of events, which is appended, synced and applied.
    This file has the writer, the whole agent ledger as a transition system
    and what holds in every reachable store, across crashes. *)

From S2P Require Import Prelude Tx GoStrings Calendar Rational Schema Quota AgentState AgentCredits.
From stdpp Require Import base gmap strings list sorting relations.
From Stdlib Require Import Ascii String.
Local Open Scope string_scope.
Local Open Scope Z_scope.

(** ** Renewals *)

(** The bytes of a lease spent so far, live windows included. *)
Definition live_used (s : Store) (lease : string) : Z :=
  used_of (state s) lease + map_sum (fun _ c => at_key (W_LeaseID (LC_window c)) lease (LC_used c - W_Confirmed (LC_window c))) (credits s).

Definition renewalDueLocked (now : Z) (s : Store) (r : Rule) : bool :=
  match R_Lease r with
  | None => false
  | Some l =>
      if negb (R_Enabled r) then false else
      if bool_decide (is_Some (Retired (state s) !! NL_ID l)) then false else
      let used := live_used s (NL_ID l) in
      let low := (0 <? used) && (NL_Bytes l - used <=? Z.min (Z.quot (NL_Bytes l) 8) 65536) in
      let low := if R_LeasePipeline r && negb (bool_decide (is_Some (R_StandbyLease r)))
                    && String.eqb (default "" (prefetching s !! R_ID r)) (NL_ID l)
                 then false else low in
      let low := match R_StandbyLease r with
                 | Some standby => if R_LeasePipeline r
                     then ((0 <? used) && (NL_Bytes l - used <? 32768)) || (0 <? live_used s (NL_ID standby)) else low
                 | None => low
                 end in
      low || negb (now + 15 * second <? minTime (C_ValidUntil (Cfg (state s))) (NL_ExpiresAt l))
  end.

Definition renewals (now : Z) (s : Store) : list string :=
  flat_map (fun r => if renewalDueLocked now s r then match R_Lease r with Some l => [NL_ID l] | None => [] end else [])
    (C_Rules (Cfg (state s))).

(** The leases to report as stopped, with their final usage. *)
Definition Retirements (s : Store) : list (string * Z) :=
  flat_map (fun kd : string * bool => if kd.2 then [] else [(kd.1, used_of (state s) kd.1)]) (map_to_list (Retired (state s))).

(** ** One request: [process] on identity, config, ack, retire, retire_ack *)

Definition still_due (now : Z) (s : Store) (lease : string) : bool :=
  match List.find (fun r => match R_Lease r with Some l => String.eqb (NL_ID l) lease | None => false end) (C_Rules (Cfg (state s))) with
  | Some r => renewalDueLocked now s r
  | None => false
  end.

Definition processEvent (now : Z) (io : Disk) (renewalOnly : bool) (e : stateEvent) (s : Store) : res unit * Store :=
  if failed s then (Err unavailable, s) else
  if renewalOnly && negb (still_due now s (Ev_LeaseID e)) then (Ok tt, s) else
  match validateEvent (state s) e with
  | Err err => (Err err, s)
  | Ok _ =>
      let '(progress, s) := if String.eqb (Kind e) "config" || String.eqb (Kind e) "retire"
                            then creditProgressLocked now e s else (Ok [], s) in
      match progress with
      | Err err => (Err err, s)
      | Ok closed => commitCreditEventsLocked now io (closed ++ [e])%list s
      end
  end.

(** ** A batch of charges *)

Definition retire_event (lease : string) : stateEvent :=
  {| Kind := "retire"; Ev_Identity := None; Ev_Config := None; Ev_Usage := None; Ev_Lease := None;
     Ev_IDs := []; Ev_LeaseID := lease; Ev_RuleID := ""; Ev_Window := None |}.
Definition usage_event (u : UsageRecord) (lease : option NodeLease) : stateEvent :=
  {| Kind := "usage"; Ev_Identity := None; Ev_Config := None; Ev_Usage := Some u; Ev_Lease := lease;
     Ev_IDs := []; Ev_LeaseID := ""; Ev_RuleID := ""; Ev_Window := None |}.
Definition charge_usage (st : diskState) (now : Z) (randomID : string) (r : Rule) (l : NodeLease) (up : bool) (n : Z) : UsageRecord :=
  {| U_ID := randomID; U_NodeID := G_NodeID (Identity st); U_RuleID := R_ID r; U_LeaseID := NL_ID l;
     U_EntitlementID := NL_EntitlementID l; U_StartedAt := now; U_EndedAt := now;
     U_UploadBytes := if up then n else 0; U_DownloadBytes := if up then 0 else n;
     U_Kind := ""; U_WindowID := ""; U_WindowSequence := 0 |}.

(** What a batch has collected so far: the events, the bytes staged per
    lease, the leases it retires, the leases its usage introduces, and the
    spool it fills. *)
Record staging := {
  sg_events : list stateEvent; sg_reserved : gmap string Z; sg_retiring : gset string; sg_known : gset string; sg_pending : Z
}.
Definition stage_events (l : list stateEvent) (g : staging) : staging :=
  {| sg_events := (sg_events g ++ l)%list; sg_reserved := sg_reserved g; sg_retiring := sg_retiring g; sg_known := sg_known g;
     sg_pending := sg_pending g |}.
Definition stage_retire (lease : string) (g : staging) : staging :=
  {| sg_events := sg_events g; sg_reserved := sg_reserved g; sg_retiring := {[lease]} ∪ sg_retiring g; sg_known := sg_known g;
     sg_pending := sg_pending g |}.
Definition stage_usage (s : Store) (u : UsageRecord) (l : NodeLease) (n : Z) (g : staging) : staging :=
  let fresh := bool_decide (Leases (state s) !! NL_ID l = None) && negb (bool_decide (NL_ID l ∈ sg_known g)) in
  {| sg_events := (sg_events g ++ [usage_event u (if fresh then Some l else None)])%list;
     sg_reserved := <[NL_ID l := default 0 (sg_reserved g !! NL_ID l) + n]> (sg_reserved g);
     sg_retiring := sg_retiring g; sg_known := if fresh then {[NL_ID l]} ∪ sg_known g else sg_known g;
     sg_pending := sg_pending g + 1 |}.

Definition charge_one (at_ : readings) (randomID : string) (q : stateRequest) (s : Store) (g : staging) : res unit * Store * staging :=
  let n := Rq_n q in
  if n <? 0 then (Err (ErrMsg "negative charge"), s, g) else
  let r := spendingRuleLocked (at_choice at_) s (Rq_rule q) (Rq_until q) n in
  match availableLocked (at_check at_) s r (Rq_until q) 0, R_Lease r with
  | Err e, _ => (Err e, s, g)
  | Ok _, None => (Err errLeaseUnavailable, s, g)
  | Ok _, Some l =>
      if NL_Bytes l <? n then (Err (ErrMsg "payload exceeds lease capacity"), s, g) else
      let remaining := NL_Bytes l - used_of (state s) (NL_ID l) - creditLiability (Windows (state s)) (NL_ID l)
                       - default 0 (sg_reserved g !! NL_ID l) in
      if bool_decide (NL_ID l ∈ sg_retiring g) then (Err errLeaseUnavailable, s, g) else
      if remaining <? n then
        match creditProgressLocked (at_close at_) (retire_event (NL_ID l)) s with
        | (Err e, s) => (Err e, s, g)
        | (Ok closed, s) => (Err errLeaseUnavailable, s, stage_retire (NL_ID l) (stage_events (closed ++ [retire_event (NL_ID l)])%list g))
        end else
      if MaxPendingRecords <=? sg_pending g + Z.of_nat (size (Windows (state s))) then (Err errSpoolFull, s, g) else
      if n =? 0 then (Ok tt, s, g) else
      (Ok tt, s, stage_usage s (charge_usage (state s) (at_stamp at_) randomID r l (Rq_upload q) n) l n g)
  end.

Fixpoint charge_loop (tm : timing) (ids : nat -> string) (i : nat) (batch : list stateRequest) (s : Store) (g : staging)
  : list (res unit) * Store * staging :=
  match batch with
  | [] => ([], s, g)
  | q :: batch =>
      let '(result, s, g) := charge_one (tm_request tm i) (ids i) q s g in
      let '(results, s, g) := charge_loop tm ids (Datatypes.S i) batch s g in
      (result :: results, s, g)
  end.

Definition processCharges (tm : timing) (io : Disk) (ids : nat -> string) (batch : list stateRequest) (s : Store) : list (res unit) * Store :=
  if failed s then (map (fun _ => Err unavailable) batch, s) else
  let '(results, s, g) := charge_loop tm ids 0 batch s
    {| sg_events := []; sg_reserved := ∅; sg_retiring := ∅; sg_known := ∅; sg_pending := Z.of_nat (List.length (Pending (state s))) |} in
  match commitCreditEventsLocked (tm_end tm) io (sg_events g) s with
  | (Err e, s) => (map (fun _ => Err e) batch, s)
  | (Ok _, s) => (results, s)
  end.

(** A batch that takes no time. *)
Definition at_once (t : Z) : timing :=
  {| tm_start := t; tm_request := fun _ => {| at_choice := t; at_check := t; at_close := t; at_stamp := t |}; tm_end := t |}.

(** The hourglass of [process]: once a minute the history is pruned, with a
    checkpoint when something went. *)
Definition processPrune (now : Z) (io : Disk) (s : Store) : res unit * Store :=
  if failed s then (Err unavailable, s) else
  let pruned := pruneLeaseHistory now (state s) in
  if Z.of_nat (size (Leases pruned)) <? Z.of_nat (size (Leases (state s))) then
    match checkpointLocked now io (set_state pruned s) with
    | (Err e, s) => (Err e, set_failed s)
    | (Ok _, s) => (Ok tt, s)
    end
  else (Ok tt, s).

(** ** Every operation keeps the store sound *)

Lemma charge_store now queue r until up n s :
  store_inv s -> store_inv (TryCreditCharge now queue r until up n s).1.2.
Proof.
  intros [Hd Hl Hs Hlog Hr]. pose proof (TryCreditCharge_live now queue r until up n s Hl) as Hl'.
  destruct (TryCreditCharge now queue r until up n s) as [[result s'] q] eqn:E. simpl in *.
  destruct (TryCreditCharge_spec _ _ _ _ _ _ _ _ _ _ Hl E) as (Hst & _).
  assert (Hrest : saved s' = saved s /\ log s' = log s /\ failed s' = failed s).
  { unfold TryCreditCharge in E. repeat case_match; simplify_eq/=; done. }
  destruct Hrest as (H1 & H2 & H3). split; rewrite ?Hst, ?H1, ?H2, ?H3; done.
Qed.

Lemma Forall_event_app a b : Forall event_ok a -> Forall event_ok b -> Forall event_ok (a ++ b).
Proof. intros. by apply Forall_app. Qed.

Lemma processEvent_store now io renewal e s : event_ok e -> Kind e <> "credit_progress" -> store_inv s ->
  store_inv (processEvent now io renewal e s).2.
Proof.
  intros He Hk Hi. unfold processEvent. destruct (failed s) eqn:Hf; [done|]. destruct (renewal && _); [done|].
  destruct (validateEvent (state s) e) as [u|] eqn:Ev; [|done].
  destruct (String.eqb (Kind e) "config" || String.eqb (Kind e) "retire").
  - destruct (progress_step now e s Hi) as (events & s' & -> & Hi' & Hf' & _ & _ & Hok & Hfit).
    apply commit_staged; [done|congruence|by apply Forall_event_app; [|apply Forall_singleton]|].
    exists events, [e]. split; [done|]. split; [done|]. by apply Forall_singleton.
  - apply commit_staged; [done|done|by apply Forall_singleton|]. exists [], [e]. split; [done|]. split; [done|]. by apply Forall_singleton.
Qed.

Lemma processFlush_store now io kind s : store_inv s -> store_inv (processFlush now io kind s).2.
Proof.
  intros Hi. unfold processFlush. destruct (failed s) eqn:Hf; [done|].
  destruct (progress_step now (empty_event kind) s Hi) as (events & s' & -> & Hi' & Hf' & _ & _ & Hok & Hfit).
  apply commit_staged; [done|congruence|done|]. exists events, []. rewrite app_nil_r. done.
Qed.

Lemma rebalance_store now io q s : store_inv s -> failed s = false ->
  store_inv (rebalanceCreditsLocked now io q s).2 /\
  ((rebalanceCreditsLocked now io q s).1 = Ok tt -> failed (rebalanceCreditsLocked now io q s).2 = false).
Proof.
  intros Hi Hf. unfold rebalanceCreditsLocked. destruct (Rq_n q <=? 0); [done|]. destruct (negb _); [done|].
  destruct (progress_step now (rebalance_event (R_ID (Rq_rule q))) s Hi) as (events & s' & -> & Hi' & Hf' & _ & _ & Hok & Hfit). split.
  - apply commit_staged; [done|congruence|done|]. exists events, []. by rewrite app_nil_r.
  - intros Hc. rewrite commit_running; [congruence|done].
Qed.

Lemma rebalance_all_store now ios batch : forall i s, store_inv s -> failed s = false ->
  store_inv (rebalance_all now ios i batch s).2 /\
  ((rebalance_all now ios i batch s).1 = Ok tt -> failed (rebalance_all now ios i batch s).2 = false).
Proof.
  induction batch as [|q batch IH]; intros i s Hi Hf; simpl; [done|]. destruct (rebalance_store now (ios i) q s Hi Hf) as [H1 H2].
  destruct (rebalanceCreditsLocked now (ios i) q s) as [[[]|e] s']; simpl in *; [|done]. by apply IH; [|apply H2].
Qed.

Lemma availableLocked_Ok now s r until n u : availableLocked now s r until n = Ok u ->
  exists l, R_Lease r = Some l /\ 0 < NL_Bytes l /\ now < until /\ now < NL_ExpiresAt l /\ Retired (state s) !! NL_ID l = None /\
    n <= NL_Bytes l - used_of (state s) (NL_ID l) - creditLiability (Windows (state s)) (NL_ID l) /\ spool (state s) < MaxPendingRecords.
Proof.
  unfold availableLocked. destruct (failed s); [done|]. destruct (R_Lease r) as [l|]; [|done].
  destruct (negb (now <? until) || _) eqn:E1; [done|]. destruct (bool_decide (is_Some (Retired (state s) !! NL_ID l))) eqn:E2; [done|].
  destruct (lease_changed _ _); [done|]. destruct (validateLeaseCapacity _ _); [|done]. cbv zeta.
  destruct ((NL_Bytes l <=? 0) || _ || _) eqn:E3; [done|]. destruct (MaxPendingRecords <=? spool (state s)) eqn:E4; [done|].
  intros _. exists l. bool_to_prop. apply eq_None_not_Some in E2. split_and!; (done || lia).
Qed.

Lemma reserve_event_ok at_ id q staged s e : reserveCreditLocked at_ id q staged s = Ok (Some e) ->
  event_ok e /\ Kind e = "credit_reserve".
Proof.
  unfold reserveCreditLocked. destruct (current_rule _ _ _) as [[r until]|]; [|done]. cbv zeta.
  set (r' := funding_rule _ _ _ _ _ _). destruct (availableLocked (at_check at_) s r' until 0) as [u|] eqn:Ea; [|done].
  destruct (availableLocked_Ok _ _ _ _ _ _ Ea) as (l & -> & Hb & _). destruct (validateLeaseCapacity _ _); [|done].
  repeat (destruct (_ <=? _); [done|]). destruct (_ && _); [done|]. intros [= <-]. split; [|done]. by split_and!.
Qed.

Lemma reserve_all_ok tm ids batch s : forall i events,
  exists b, (reserve_all tm ids i batch events s).2 = List.app events b /\
    Forall (fun e => event_ok e /\ Kind e = "credit_reserve") b.
Proof.
  induction batch as [|q batch IH]; intros i events; simpl; [exists []; by rewrite app_nil_r|].
  destruct (reserveCreditLocked (tm_request tm i) (ids i) q events s) as [[e|]|err] eqn:E.
  - destruct (IH (Datatypes.S i) (events ++ [e])%list) as (b & Hb & Hall).
    destruct (reserve_all tm ids (Datatypes.S i) batch (events ++ [e])%list s) as [rs evs]. simpl in *.
    exists (e :: b). split; [by rewrite Hb, <- app_assoc|]. constructor; [by eapply reserve_event_ok|done].
  - destruct (IH (Datatypes.S i) events) as (b & Hb & Hall). destruct (reserve_all _ _ _ _ _ _). simpl in *. by exists b.
  - destruct (IH (Datatypes.S i) events) as (b & Hb & Hall). destruct (reserve_all _ _ _ _ _ _). simpl in *. by exists b.
Qed.

Lemma refilling_store batch s : store_inv s -> store_inv (done_refilling batch s).
Proof. intros [A [Hm Hu Hp] C D E]. split; try done. split; [done|done|]. revert Hp. by apply pool_inv_ext. Qed.

Lemma processReserve_store tm ios ids batch s : store_inv s -> store_inv (processReserveBatch tm ios ids batch s).2.
Proof.
  intros Hi. unfold processReserveBatch. destruct (failed s) eqn:Hf; [done|].
  destruct (rebalance_all_store (tm_start tm) ios batch 1 s Hi Hf) as [H1 H2].
  destruct (rebalance_all (tm_start tm) ios 1 batch s) as [[[]|e] sr]; simpl in *; [|by apply refilling_store].
  destruct (progress_step (tm_start tm) (empty_event "credit_flush") sr H1) as (progress & sp & -> & Hi' & Hf' & _ & _ & Hok & Hfit).
  destruct (reserve_all_ok tm ids batch sp 0 progress) as (b & Hb & Hall).
  destruct (reserve_all tm ids 0 batch progress sp) as [results events]. simpl in Hb. subst events.
  assert (Hc : store_inv (commitCreditEventsLocked (tm_end tm) (ios 0%nat) (progress ++ b) sp).2).
  { apply commit_staged; [done|rewrite Hf'; by apply H2| |].
    - apply Forall_event_app; [done|]. eapply Forall_impl; [exact Hall|]. by intros ? [].
    - exists progress, b. split; [done|]. split; [done|]. eapply Forall_impl; [exact Hall|]. by intros e [_ ->]. }
  destruct (commitCreditEventsLocked (tm_end tm) (ios 0%nat) (progress ++ b) sp) as [[u|e] s']; by apply refilling_store.
Qed.

Lemma processPrune_store now io s : store_inv s -> store_inv (processPrune now io s).2.
Proof.
  intros Hi. unfold processPrune. destruct (failed s) eqn:Hf; [done|]. cbv zeta. if_case; [|done]. destruct Hi as [Hd Hl Hs Hlog _].
  destruct (checkpoint_inv _ live_inv_about now io (set_state (pruneLeaseHistory now (state s)) s)) as [H1 H2];
    [by apply prune_inv|by apply set_state_live|done|done|].
  destruct (checkpointLocked now io _) as [[[]|e] s']; simpl in *; auto.
Qed.

(** *** Charges *)

Definition plain_fits (s : Store) (e : stateEvent) : Prop := Kind e <> "credit_reserve" /\ fits (credits s) e.
Definition staging_ok (s : Store) (g : staging) : Prop := Forall event_ok (sg_events g) /\ Forall (plain_fits s) (sg_events g).

Lemma fits_closed s s' e : closed_some (credits s) (credits s') -> plain_fits s e -> plain_fits s' e.
Proof.
  intros Hcs [Hk Hf]. split; [done|]. intros Hp w c' Hw Hc'. destruct (Hcs (W_ID w)) as [He|(c & Hc & He)]; rewrite He in Hc'.
  - by eapply Hf.
  - injection Hc' as <-. simpl. by eapply Hf.
Qed.

Lemma spending_lease now s r until n : R_Lease r <> None -> R_Lease (spendingRuleLocked now s r until n) <> None.
Proof.
  intros Hr. unfold spendingRuleLocked. cbv zeta. match goal with |- context [List.find ?f ?l] => destruct (List.find f l) as [c|] eqn:E end; [|done].
  apply find_some in E as [Hin _]. apply in_flat_map in Hin as ([l|] & _ & Hin); [|done]. by destruct Hin as [<-|[]].
Qed.

Lemma charge_one_store at_ id q s g : store_inv s -> failed s = false -> in_int64 (Rq_n q) -> staging_ok s g ->
  let '(_, s', g') := charge_one at_ id q s g in store_inv s' /\ failed s' = false /\ staging_ok s' g'.
Proof.
  intros Hi Hf Hn [Hok Hfit]. unfold charge_one. cbv zeta. destruct (Rq_n q <? 0) eqn:En; [done|].
  set (r := spendingRuleLocked _ _ _ _ _). destruct (availableLocked (at_check at_) s r (Rq_until q) 0) as [u|] eqn:Ea; [|done].
  destruct (availableLocked_Ok _ _ _ _ _ _ Ea) as (l & -> & Hb & _). destruct (NL_Bytes l <? Rq_n q); [done|].
  destruct (bool_decide (NL_ID l ∈ sg_retiring g)); [done|]. if_case.
  - destruct (progress_step (at_close at_) (retire_event (NL_ID l)) s Hi) as (events & s' & -> & Hi' & Hf' & _ & Hcs & Hok' & Hfit').
    split; [done|]. split; [congruence|]. split; simpl.
    + apply Forall_event_app; [done|]. apply Forall_event_app; [done|]. by apply Forall_singleton.
    + apply Forall_app. split; [eapply Forall_impl; [exact Hfit|]; intros; by eapply fits_closed|].
      apply Forall_app. split; [exact Hfit'|]. apply Forall_singleton. by split.
  - destruct (MaxPendingRecords <=? _); [done|]. destruct (Rq_n q =? 0); [done|]. split; [done|]. split; [done|]. split; simpl.
    + apply Forall_event_app; [done|]. apply Forall_singleton. bool_to_prop. unfold event_ok. simpl. split.
      * unfold in_int64, MinInt64, MaxInt64 in *. destruct (Rq_upload q); lia.
      * split; [|done]. by destruct (_ && _).
    + apply Forall_app. split; [done|]. apply Forall_singleton. by split.
Qed.

Lemma charge_loop_store tm ids batch : forall i s g, store_inv s -> failed s = false -> Forall (fun q => in_int64 (Rq_n q)) batch ->
  staging_ok s g -> let '(_, s', g') := charge_loop tm ids i batch s g in store_inv s' /\ failed s' = false /\ staging_ok s' g'.
Proof.
  induction batch as [|q batch IH]; intros i s g Hi Hf Hq Hg; simpl; [done|]. apply Forall_cons in Hq as [Hn Hq].
  pose proof (charge_one_store (tm_request tm i) (ids i) q s g Hi Hf Hn Hg) as H1. destruct (charge_one (tm_request tm i) (ids i) q s g) as [[r1 s'] g'].
  destruct H1 as (Hi' & Hf' & Hg'). specialize (IH (Datatypes.S i) s' g' Hi' Hf' Hq Hg').
  by destruct (charge_loop tm ids (Datatypes.S i) batch s' g') as [[rs s''] g''].
Qed.

Lemma processCharges_store tm io ids batch s : Forall (fun q => in_int64 (Rq_n q)) batch -> store_inv s ->
  store_inv (processCharges tm io ids batch s).2.
Proof.
  intros Hq Hi. unfold processCharges. destruct (failed s) eqn:Hf; [done|].
  match goal with |- context [charge_loop tm ids 0 batch s ?g] => pose proof (charge_loop_store tm ids batch 0 s g Hi Hf Hq) as Hl end.
  specialize (Hl (conj (Forall_nil_2 _) (Forall_nil_2 _))). destruct (charge_loop tm ids 0 batch s _) as [[results s'] g].
  destruct Hl as (Hi' & Hf' & Hok & Hfit).
  assert (Hc : store_inv (commitCreditEventsLocked (tm_end tm) io (sg_events g) s').2).
  { apply commit_staged; [done..|]. exists (sg_events g), []. rewrite app_nil_r. done. }
  by destruct (commitCreditEventsLocked (tm_end tm) io (sg_events g) s') as [[u|e] s''].
Qed.

(** *** Restart *)

Lemma progress_of_recovery now st w id : disk_inv st -> Windows st !! id = Some w ->
  event_ok (recovery_event now st w) /\ Kind (recovery_event now st w) = "credit_progress".
Proof.
  intros Hd Hw. split; [|done]. destruct (di_window _ Hd _ _ Hw) as (_ & Hv & _). apply valid_window_spec in Hv as (Hcap & Hconf & _).
  unfold event_ok, recovery_event. simpl. split; [|done]. destruct (0 <? W_Capacity w - W_Confirmed w); [|done]. simpl.
  assert (window_limit w <= maxTCPCreditWindow) by (unfold window_limit, maxTCPCreditWindow, creditWindowSize; destruct (W_TCP w); lia).
  unfold in_int64, MinInt64, MaxInt64, maxTCPCreditWindow in *. destruct (W_Upload w); lia.
Qed.

(** While the log is replayed, only the windows it reserves are live. *)
Definition half_live (s : Store) : Prop :=
  pool_inv s /\ forall id c, credits s !! id = Some c -> Windows (state s) !! id = Some (LC_window c).

Lemma half_live_about : about_live half_live.
Proof. intros s s' Hw Hc Hp [Hpool Hl]. split; [by apply (pool_inv_ext s)|]. by rewrite Hw, Hc. Qed.

Lemma apply_store_half e s : half_live s -> half_live (apply_store e s).2.
Proof.
  intros [Hp Hl]. assert (Hsame : forall st, Windows st = Windows (state s) -> half_live (set_state st s)).
  { intros st Hw. apply (half_live_about s); done. }
  unfold apply_store. destruct (applyEvent e (state s)) as [[[]|err] st] eqn:E; simpl.
  2:{ apply Hsame. destruct (credit_kind e) eqn:Ek; [by rewrite (apply_credit_err _ _ _ _ Ek E)|].
      pose proof (applyEvent_windows e (state s) Ek) as Hw. by rewrite E in Hw. }
  destruct (credit_kind e) eqn:Ek.
  2:{ pose proof (applyEvent_windows e (state s) Ek) as Hw. rewrite E in Hw. simpl in Hw. unfold credit_kind in Ek.
      apply orb_false_elim in Ek as [-> ->]. destruct (Ev_Window e); by apply Hsame. }
  unfold credit_kind in Ek. apply orb_prop in Ek. destruct (String.eqb (Kind e) "credit_reserve") eqn:Er; bool_to_prop.
  - destruct (reserve_Ok _ _ _ Er E) as (w & -> & Hv & Hc & Hn & Hw).
    assert (Hnew : half_live (publish w (set_state st s))).
    { split; [apply publish_pool; [done|]; destruct (credits s !! W_ID w) as [c|] eqn:Ec; [|done]; apply Hl in Ec; congruence|].
      simpl. rewrite Hw. intros id c [[<- <-]|[Hne Hx]]%lookup_insert_Some; [by rewrite lookup_insert_eq|]. rewrite lookup_insert_ne by done. auto. }
    destruct (creditWindowSize <? W_Capacity w); [|done]. eapply half_live_about; [..|exact Hnew]; done.
  - destruct Ek as [|Ek]; [done|]. apply String.eqb_eq in Ek. destruct (progress_Ok _ _ _ Ek E) as (w & old & Hwin & Ho & Hv & Hs & _ & Hw).
    rewrite Hwin, (proj2 (String.eqb_eq _ _) Ek). destruct (credits s !! W_ID w) as [c|] eqn:Hc.
    + pose proof (Hl _ _ Hc) as Hwc. rewrite Ho in Hwc. injection Hwc as ->. split; [by eapply advance_pool|].
      unfold advance_live. simpl. rewrite Hc. destruct (W_Closed w); simpl; rewrite Hw; intros id x.
      * intros [Hne Hx]%lookup_delete_Some. rewrite lookup_delete_ne by done. auto.
      * intros [[<- <-]|[Hne Hx]]%lookup_insert_Some; [by rewrite lookup_insert_eq|]. rewrite lookup_insert_ne by done. auto.
    + unfold advance_live. simpl. rewrite Hc. split; [by apply (pool_inv_ext s)|]. simpl. rewrite Hw. intros id x Hx.
      assert (id <> W_ID w) by congruence. destruct (W_Closed w); [rewrite lookup_delete_ne by done|rewrite lookup_insert_ne by done]; auto.
Qed.

Lemma apply_all_half events : forall s, half_live s -> half_live (apply_all events s).2.
Proof.
  induction events as [|e events IH]; intros s Hl; simpl; [done|]. pose proof (apply_store_half e s Hl) as Hl'.
  destruct (apply_store e s) as [[u|err] s']; simpl in *; auto.
Qed.

(** What a lease has spent or promised. *)
Definition committed (st : diskState) (lease : string) : Z := used_of st lease + creditLiability (Windows st) lease.

(** Recovery of one window: it goes, and its remainder is used. *)
Lemma recovery_apply now st w id st' :
  disk_inv st -> Windows st !! id = Some w -> applyEvent (recovery_event now st w) st = (Ok tt, st') ->
  Windows st' = delete id (Windows st) /\ Leases st' = Leases st /\ (forall lease, committed st' lease = committed st lease).
Proof.
  intros Hd Hw He. destruct (di_window _ Hd _ _ Hw) as (Hid & Hv & _). apply valid_window_spec in Hv as (Hcap & Hconf & _).
  unfold applyEvent, recovery_event in He. simpl in He. unfold apply_credit in He.
  destruct (validateCreditEvent st _) as [[]|]; [|done]. simpl in He. injection He as <-.
  destruct (drop_sums _ _ _ Hw) as (Hl & _). rewrite <- Hid in Hw, Hl.
  destruct (0 <? W_Capacity w - W_Confirmed w) eqn:E0; simpl; rewrite Hid in *; (split; [done|split; [done|]]); intros lease; unfold committed; simpl.
  - rewrite (Hl lease). change (used_of (set_windows _ _) lease) with
      (used_of (set_used (<[W_LeaseID w := used_of st (W_LeaseID w) + (U_UploadBytes (creditUsage st (advanced w (W_Capacity w) true) (W_Capacity w - W_Confirmed w) "recovery" (minTime now (W_Until w))) +
        U_DownloadBytes (creditUsage st (advanced w (W_Capacity w) true) (W_Capacity w - W_Confirmed w) "recovery" (minTime now (W_Until w))))]> (Used st)) st) lease).
    rewrite used_of_insert. unfold at_key, left. simpl. destruct (String.eqb (W_LeaseID w) lease) eqn:El; bool_to_prop; [subst lease|lia].
    destruct (W_Upload w); lia.
  - bool_to_prop. rewrite (Hl lease). change (used_of (set_windows _ st) lease) with (used_of st lease). unfold at_key, left. destruct (String.eqb _ _); lia.
Qed.

Lemma commit_Ok now io events s s' : commitCreditEventsLocked now io events s = (Ok tt, s') ->
  exists st, applyEvents events (state s) = (Ok tt, st) /\ (state s' = st \/ state s' = pruneLeaseHistory now st).
Proof.
  unfold commitCreditEventsLocked. destruct events as [|e l] eqn:El; [intros [= <-]; exists (state s); by split; [|left]|].
  rewrite <- El. clear El e l. unfold append_and_apply. destruct (append_err io); [done|].
  destruct (apply_all_state events (set_durable (saved s) (log s ++ events)%list s)) as (H1 & H2 & _).
  destruct (apply_all events _) as [[[]|err] s1]; [|done]. simpl in *.
  destruct (applyEvents events (state s)) as [[[]|err] st]; [|done]. simpl in *. subst st.
  destruct (checkpoint_due io); [|intros [= <-]; eexists; split; [done|by left]].
  unfold checkpointLocked. destruct (checkpoint_err io); [done|]. intros [= <-]. eexists. split; [done|by right].
Qed.

Lemma prune_committed now st lease : is_Some (Leases (pruneLeaseHistory now st) !! lease) ->
  is_Some (Leases st !! lease) /\ committed (pruneLeaseHistory now st) lease = committed st lease.
Proof.
  unfold committed, used_of. simpl. rewrite !keep_ids_lookup. destruct (kept now st lease); [done|]. by intros [].
Qed.

Lemma recover_loop_spec now ios ids : forall i s s',
  sound half_live s -> failed s = false -> (forall id, is_Some (Windows (state s) !! id) -> id ∈ ids) ->
  recover_loop now ios ids i s = (Ok tt, s') ->
  sound half_live s' /\ failed s' = false /\ Windows (state s') = ∅ /\
  forall lease, is_Some (Leases (state s') !! lease) ->
    is_Some (Leases (state s) !! lease) /\ committed (state s') lease = committed (state s) lease.
Proof.
  induction ids as [|id ids IH]; intros i s s' Hi Hf Hids; cbn [recover_loop].
  { intros [= <-]. split; [done|]. split; [done|]. split; [|done]. apply map_empty. intros id.
    destruct (Windows (state s) !! id) eqn:E; [|done]. assert (id ∈ []) by eauto. set_solver. }
  destruct (Windows (state s) !! id) as [w|] eqn:Hw.
  2:{ apply IH; [done..|]. intros k Hk. pose proof (Hids k Hk) as [->|]%elem_of_cons; [|done]. by destruct Hk as [? Hk]; rewrite Hw in Hk. }
  set (s0 := if creditWindowSize <? W_Capacity w then set_expanded true s else s).
  assert (H0 : sound half_live s0 /\ failed s0 = false /\ state s0 = state s).
  { unfold s0. destruct (creditWindowSize <? W_Capacity w); [|done]. split; [|done]. destruct Hi as [A B C D E]. split; try done.
    by apply (half_live_about s). }
  destruct H0 as (Hi0 & Hf0 & Hs0). rewrite Hs0. clearbody s0.
  destruct (progress_of_recovery now (state s) w id (si_disk _ _ Hi) Hw) as [Hok _].
  pose proof (commit_inv _ half_live_about now (ios i) [recovery_event now (state s) w] s0 Hi0 Hf0 ltac:(by apply Forall_singleton)
    ltac:(intros c v; apply apply_all_half; apply (half_live_about s0); [done..|apply (si_live _ _ Hi0)])) as Hc.
  pose proof (commit_running now (ios i) [recovery_event now (state s) w] s0) as Hrun.
  destruct (commitCreditEventsLocked now (ios i) [recovery_event now (state s) w] s0) as [[[]|e] s1] eqn:E; [|done].
  simpl in Hc, Hrun. specialize (Hrun eq_refl). destruct (commit_Ok _ _ _ _ _ E) as (st & Hap & Hst). simpl in Hap. rewrite Hs0 in Hap.
  destruct (applyEvent (recovery_event now (state s) w) (state s)) as [[[]|e] st1] eqn:Ea; [|done]. injection Hap as ->.
  destruct (recovery_apply now (state s) w id st (si_disk _ _ Hi) Hw Ea) as (HW & HL & HC).
  assert (Hstep : Windows (state s1) = delete id (Windows (state s)) /\ forall lease, is_Some (Leases (state s1) !! lease) ->
    is_Some (Leases (state s) !! lease) /\ committed (state s1) lease = committed (state s) lease).
  { destruct Hst as [->| ->]; (split; [exact HW|]); intros lease Hl; [rewrite <- HL; auto|].
    apply prune_committed in Hl as [H1 H2]. rewrite <- HL, H2. auto. }
  destruct Hstep as [HW1 HC1]. intros Hrest.
  destruct (IH _ s1 s' Hc ltac:(congruence) ltac:(intros k Hk; rewrite HW1 in Hk; destruct Hk as [x [Hne Hx]%lookup_delete_Some];
    pose proof (Hids k (mk_is_Some _ _ Hx)) as [->|]%elem_of_cons; done) Hrest) as (A & B & C & D).
  split; [done|]. split; [done|]. split; [done|]. intros lease Hl. destruct (D lease Hl) as [D1 D2]. destruct (HC1 lease D1) as [D3 D4].
  split; [done|congruence].
Qed.

Lemma OpenStore_spec now ios c events s' :
  Forall event_ok events -> OpenStore now ios c events = (Ok tt, s') ->
  exists st, applyEvents events c = (Ok tt, st) /\ store_inv s' /\ failed s' = false /\ Windows (state s') = ∅ /\
    forall lease, is_Some (Leases (state s') !! lease) -> is_Some (Leases st !! lease) /\ used_of (state s') lease = committed st lease.
Proof.
  intros Hev. unfold OpenStore. destruct (validateSnapshot c) as [[]|] eqn:Ev; [|done]. apply snapshot_inv in Ev as Hd.
  destruct (apply_all_state events (blank c events)) as (H1 & H2 & H3 & H4 & H5).
  pose proof (apply_all_half events (blank c events) ltac:(split; [split; simpl; intros *; by rewrite lookup_empty|simpl; intros *; by rewrite lookup_empty])) as Hh.
  pose proof (applyEvents_inv events c Hev Hd) as Hd'. simpl in *.
  destruct (apply_all events (blank c events)) as [[[]|e] s1]; [|done]. simpl in *.
  destruct (applyEvents events c) as [[[]|e] st] eqn:Ea; [|done]. simpl in *. destruct (validateSnapshot (state s1)); [|done]. intros Hrec.
  assert (Hi : sound half_live s1).
  { split; [by rewrite H2|done|by rewrite H3|by rewrite H4|]. intros _. by rewrite H3, H4, H2. }
  destruct (recover_loop_spec now ios (sorted_ids (Windows (state s1))) 0 s1 s' Hi H5 ltac:(intros; by apply sorted_ids_elem) Hrec)
    as (A & B & C & D).
  exists st. split; [done|]. split; [|split; [done|split; [done|]]].
  - destruct A as [A1 [A2 A2'] A3 A4 A5]. split; [done| |done|done|done].
    assert (Hnone : credits s' = ∅).
    { apply map_empty. intros id. destruct (credits s' !! id) as [x|] eqn:E; [|done]. apply A2' in E. by rewrite C, lookup_empty in E. }
    split; [by rewrite C, Hnone, fmap_empty|rewrite Hnone; intros *; by rewrite lookup_empty|done].
  - intros lease Hl. destruct (D lease Hl) as [D1 D2]. rewrite H2 in *. split; [done|]. rewrite <- D2. unfold committed.
    rewrite C. unfold creditLiability. rewrite map_sum_empty. lia.
Qed.

(** ** The restart succeeds

    On a working disk, recovery succeeds when the clock is not behind the
    start of a window and the snapshot was accepted. *)
Definition working (io : Disk) : Prop := append_err io = None /\ checkpoint_err io = None.

(** What [validateSnapshot] and the Go types give for the windows. *)
Record recoverable (now : Z) (st : diskState) : Prop := {
  rv_disk : disk_inv st;
  rv_spool : spool st <= MaxPendingRecords;
  rv_clock id w : Windows st !! id = Some w -> W_StartedAt w <= now;
  rv_seq id w : Windows st !! id = Some w -> 0 <= W_Sequence w < 2 ^ 64 - 1
}.

Lemma nextSequence_small n : 0 <= n < 2 ^ 64 - 1 -> nextSequence n = n + 1.
Proof. intros H. unfold nextSequence. apply Z.mod_small. lia. Qed.

Lemma recovery_usage_valid now st w id : recoverable now st -> Windows st !! id = Some w -> W_Confirmed w < W_Capacity w ->
  valid_progress_usage st (advanced w (W_Capacity w) true) (W_Capacity w - W_Confirmed w)
    (creditUsage st (advanced w (W_Capacity w) true) (W_Capacity w - W_Confirmed w) "recovery" (minTime now (W_Until w))) = true.
Proof.
  intros [Hd Hsp Hcl Hsq] Hw Hlt. destruct (di_window _ Hd _ _ Hw) as (Hid & Hv & _). pose proof (Hcl _ _ Hw) as Hc. pose proof (Hsq _ _ Hw) as Hs.
  assert (Hlen : Z.of_nat (String.length (W_ID w)) = 32) by (unfold valid_window in Hv; by bool_to_prop).
  apply valid_window_spec in Hv as (Hcap & Hconf & Hst).
  assert (window_limit w <= maxTCPCreditWindow) by (unfold window_limit, maxTCPCreditWindow, creditWindowSize; destruct (W_TCP w); lia).
  assert (Hsize : 1 <= Z.of_nat (size (Windows st))).
  { assert (size (Windows st) <> 0%nat); [|lia]. intros H0. apply map_size_empty_inv in H0. by rewrite H0, lookup_empty in Hw. }
  unfold valid_progress_usage, ValidWindowMetadata, window_record, minTime, creditUsage, advanced.
  cbn [U_ID U_NodeID U_RuleID U_LeaseID U_EntitlementID U_StartedAt U_EndedAt U_UploadBytes U_DownloadBytes U_Kind U_WindowID
    U_WindowSequence W_ID W_UserID W_RuleID W_LeaseID W_Upload W_Capacity W_Confirmed W_Sequence W_StartedAt W_Until W_Closed].
  change (String.eqb "recovery" "") with false. change (String.eqb "recovery" "normal") with false. cbv iota. rewrite Hlen, !String.eqb_refl, !Z.eqb_refl, (nextSequence_small _ Hs).
  rewrite (proj2 (Z.ltb_lt 0 (W_Sequence w + 1))) by lia.
  assert (Hb : forall x, 0 <= x <= maxTCPCreditWindow -> wrap64 x = x) by (intros; apply wrap64_id; unfold in_int64, MinInt64, MaxInt64, maxTCPCreditWindow in *; lia).
  assert (Hp : (Z.of_nat (List.length (Pending st)) <? MaxPendingRecords) = true) by (apply Z.ltb_lt; unfold spool in Hsp; lia). rewrite Hp.
  assert (He : ((if W_Until w <? now then W_Until w else now) <? W_StartedAt w) = false) by (apply Z.ltb_ge; destruct (W_Until w <? now); lia).
  assert (Hu : (W_Until w <? (if W_Until w <? now then W_Until w else now)) = false) by (destruct (W_Until w <? now) eqn:E; bool_to_prop; apply Z.ltb_ge; lia).
  assert (Hle : (0 <=? W_Capacity w - W_Confirmed w) = true) by (apply Z.leb_le; lia).
  rewrite He, Hu. destruct (W_Upload w); cbn [negb andb orb]; rewrite ?Z.add_0_r, ?Z.add_0_l, Hb, Z.eqb_refl by lia; rewrite Hle; done.
Qed.

Lemma recovery_applies now st w id : recoverable now st -> Windows st !! id = Some w ->
  exists st', applyEvent (recovery_event now st w) st = (Ok tt, st') /\
    Z.of_nat (List.length (Pending st')) <= Z.of_nat (List.length (Pending st)) + 1.
Proof.
  intros Hr Hw. pose proof Hr as [Hd _ _ _]. destruct (di_window _ Hd _ _ Hw) as (Hid & Hv & _ & _).
  assert (Hva : valid_window (advanced w (W_Capacity w) true) = true).
  { apply valid_window_spec in Hv as Hb. unfold valid_window in *. cbn [advanced W_ID W_RuleID W_UserID W_Capacity W_Confirmed W_StartedAt W_Until].
    change (window_limit (advanced w (W_Capacity w) true)) with (window_limit w). apply negb_true_iff. apply negb_true_iff in Hv.
    repeat (apply orb_false_elim in Hv as [Hv ?]). repeat (apply orb_false_intro); try done; bool_to_prop; apply Z.ltb_ge; lia. }
  assert (Hsame : same_window (advanced w (W_Capacity w) true) w = true).
  { unfold same_window. simpl. by rewrite !String.eqb_refl, !Z.eqb_refl, !eqb_reflx. }
  apply valid_window_spec in Hv as (Hcap & Hconf & _).
  unfold applyEvent, apply_credit, validateCreditEvent. cbn [recovery_event progress_event Kind Ev_Window Ev_Usage Ev_Lease].
  change (String.eqb "credit_progress" "credit_reserve") with false. change (String.eqb "credit_progress" "credit_progress") with true. cbv iota beta.
  cbn [orb]. rewrite Hva. cbn [negb]. unfold validProgress. change (W_ID (advanced w (W_Capacity w) true)) with (W_ID w). rewrite Hid, Hw, Hsame.
  cbn [advanced W_Sequence W_Confirmed]. rewrite Z.eqb_refl, (proj2 (Z.ltb_ge (W_Capacity w) (W_Confirmed w))) by lia. cbn [negb orb].
  cbv zeta. destruct (0 <? W_Capacity w - W_Confirmed w) eqn:E; bool_to_prop.
  - rewrite (recovery_usage_valid now st w id Hr Hw) by lia. eexists. split; [done|]. simpl. rewrite length_app. simpl. lia.
  - eexists. split; [done|]. simpl. lia.
Qed.

Lemma recoverable_step now st w id st' : recoverable now st -> Windows st !! id = Some w ->
  applyEvent (recovery_event now st w) st = (Ok tt, st') -> Z.of_nat (List.length (Pending st')) <= Z.of_nat (List.length (Pending st)) + 1 ->
  recoverable now st' /\ recoverable now (pruneLeaseHistory now st').
Proof.
  intros [Hd Hsp Hcl Hsq] Hw Ha Hlen. destruct (recovery_apply now st w id st' Hd Hw Ha) as (HW & _ & _).
  destruct (progress_of_recovery now st w id Hd Hw) as [Hok _].
  pose proof (applyEvent_inv _ st Hok Hd) as Hd'. rewrite Ha in Hd'. simpl in Hd'.
  assert (Hspool : spool st' <= MaxPendingRecords).
  { unfold spool in *. rewrite HW, map_size_delete_Some by eauto.
    assert (size (Windows st) <> 0%nat); [|lia]. intros H0. apply map_size_empty_inv in H0. by rewrite H0, lookup_empty in Hw. }
  assert (Hin : forall k x, Windows st' !! k = Some x -> Windows st !! k = Some x) by (rewrite HW; by intros k x [_ ?]%lookup_delete_Some).
  split; split; try done; simpl; eauto using prune_inv.
Qed.

Lemma commit_succeeds now io events s st : working io -> applyEvents events (state s) = (Ok tt, st) ->
  (commitCreditEventsLocked now io events s).1 = Ok tt.
Proof.
  intros [Ha Hc] He. unfold commitCreditEventsLocked. destruct events as [|e l] eqn:El; [done|]. rewrite <- El in *. clear El e l.
  unfold append_and_apply. rewrite Ha. destruct (apply_all_state events (set_durable (saved s) (log s ++ events)%list s)) as (H1 & _).
  simpl in H1. rewrite He in H1. destruct (apply_all events _) as [[[]|e] s1]; [|done].
  destruct (checkpoint_due io); [|done]. unfold checkpointLocked. by rewrite Hc.
Qed.

Lemma recover_loop_succeeds now ios ids : forall i s, (forall n, working (ios n)) -> recoverable now (state s) ->
  (recover_loop now ios ids i s).1 = Ok tt.
Proof.
  induction ids as [|id ids IH]; intros i s Hio Hr; cbn [recover_loop]; [done|].
  destruct (Windows (state s) !! id) as [w|] eqn:Hw; [|by apply IH].
  set (s0 := if creditWindowSize <? W_Capacity w then set_expanded true s else s).
  assert (Hs0 : state s0 = state s) by (unfold s0; by destruct (_ <? _)). rewrite Hs0. clearbody s0.
  destruct (recovery_applies now (state s) w id Hr Hw) as (st' & Ha & Hlen).
  destruct (recoverable_step now _ w id st' Hr Hw Ha Hlen) as [R1 R2].
  assert (He : applyEvents [recovery_event now (state s) w] (state s0) = (Ok tt, st')) by (rewrite Hs0; simpl; by rewrite Ha).
  pose proof (commit_succeeds now (ios i) _ s0 st' (Hio i) He) as Hc.
  destruct (commitCreditEventsLocked now (ios i) [recovery_event now (state s) w] s0) as [[[]|e] s1] eqn:E; [|done].
  destruct (commit_Ok _ _ _ _ _ E) as (st & Hst & Hor). rewrite He in Hst. injection Hst as <-.
  apply IH; [done|]. by destruct Hor as [->| ->].
Qed.

(** ** The agent's ledger as a transition system *)

Definition request_kinds : list string := ["identity"; "config"; "ack"; "retire"; "retire_ack"].

Inductive astep (s : Store) : Store -> Prop :=
  | ag_charge now queue r until up n : astep s (TryCreditCharge now queue r until up n s).1.2
  | ag_event now io renewal e : event_ok e -> Kind e ∈ request_kinds -> astep s (processEvent now io renewal e s).2
  | ag_charges tm io ids batch : Forall (fun q => in_int64 (Rq_n q)) batch -> astep s (processCharges tm io ids batch s).2
  | ag_reserve tm ios ids batch : astep s (processReserveBatch tm ios ids batch s).2
  | ag_flush now io kind : astep s (processFlush now io kind s).2
  | ag_prune now io : astep s (processPrune now io s).2
  | ag_restart now ios s' : OpenStore now ios (saved s) (log s) = (Ok tt, s') -> astep s s'.

Definition agent_reachable (s : Store) : Prop := rtc astep (blank empty_disk []) s.

Lemma blank_inv : store_inv (blank empty_disk []).
Proof. split; simpl; try apply empty_disk_inv; done. Qed.

Lemma astep_inv s s' : astep s s' -> store_inv s -> store_inv s'.
Proof.
  intros Hs Hi. destruct Hs.
  - by apply charge_store.
  - apply processEvent_store; [done| |done]. intros Hk. unfold request_kinds in *. rewrite Hk in *. set_solver.
  - by apply processCharges_store.
  - by apply processReserve_store.
  - by apply processFlush_store.
  - by apply processPrune_store.
  - destruct (OpenStore_spec now ios (saved s) (log s) s' (si_log _ _ Hi) H) as (st & _ & Hi' & _). done.
Qed.

Lemma agent_inv s : agent_reachable s -> store_inv s.
Proof. unfold agent_reachable. revert s. apply rtc_ind_r; [apply blank_inv|]. intros s s' _ Hs IH. by eapply astep_inv. Qed.
