(* ===== verification/AgentScenarios.v ===== *)
(** * Concrete runs of the agent's ledger

    A node with one TCP and two plain UDP rules: it registers, is configured,
    reserves a window, spends from it and charges the UDP rules.  The stores
    are where the theorems about reachable stores are applied. *)

From S2P Require Import Prelude Tx GoStrings Calendar Rational Schema Quota AgentState AgentCredits AgentStore.
From stdpp Require Import base gmap strings list sorting relations.
From Stdlib Require Import Ascii String.
Local Open Scope string_scope.
Local Open Scope Z_scope.

Definition good_disk : Disk :=
  {| append_err := None; append_kept := 0; checkpoint_due := false; checkpoint_err := None; checkpoint_renamed := false |}.
Definition t0 : Z := 1700000000 * second.
Definition no_limits : ResourceLimits := {| RL_MaxRules := 0; RL_MaxConnections := 0; RL_MaxIPs := 0; RL_BytesPerSecond := 0 |}.
Definition lease (id : string) (n : Z) : NodeLease :=
  {| NL_ID := id; NL_EntitlementID := "ent"; NL_ExpiresAt := t0 + 300 * second; NL_Bytes := n; NL_Limits := no_limits |}.
Definition rule (id network : string) (l : NodeLease) : Rule :=
  {| R_ID := id; R_UserID := "alice"; R_Network := network; R_Enabled := true; R_UDP := None; R_Lease := Some l;
     R_StandbyLease := None; R_LeasePipeline := false; R_Candidates := []; R_Rest := "" |}.
Definition rule_t : Rule := rule "t" "tcp" (lease "L3" 1000000).
Definition rule_u : Rule := rule "u" "udp" (lease "L1" 100).
Definition rule_v : Rule := rule "v" "udp" (lease "L2" 100).
Definition node_config : Config :=
  {| C_NodeID := "node"; C_Version := 1; C_ValidUntil := t0 + 300 * second; C_Rules := [rule_t; rule_u; rule_v] |}.
Definition until : Z := t0 + 300 * second.

Definition identity_event : stateEvent :=
  {| Kind := "identity"; Ev_Identity := Some {| G_NodeID := "node"; G_Token := "secret" |}; Ev_Config := None; Ev_Usage := None;
     Ev_Lease := None; Ev_IDs := []; Ev_LeaseID := ""; Ev_RuleID := ""; Ev_Window := None |}.
Definition config_event (c : Config) : stateEvent :=
  {| Kind := "config"; Ev_Identity := None; Ev_Config := Some c; Ev_Usage := None; Ev_Lease := None; Ev_IDs := [];
     Ev_LeaseID := ""; Ev_RuleID := ""; Ev_Window := None |}.
Definition window_id (n : nat) : string := if Nat.eqb n 0 then "00000000000000000000000000000000" else "11111111111111111111111111111111".
Definition charge_request (r : Rule) (n : Z) : stateRequest :=
  {| Rq_event := empty_event "charge"; Rq_rule := r; Rq_until := until; Rq_upload := true; Rq_n := n; Rq_prime := false; Rq_size := 0 |}.

(** Identity, configuration, and a reserved window for the TCP rule. *)
Definition s1 : Store := (processEvent t0 good_disk false identity_event (blank empty_disk [])).2.
Definition s2 : Store := (processEvent t0 good_disk false (config_event node_config) s1).2.
Definition s3 : Store := (processReserveBatch (at_once t0) (fun _ => good_disk) window_id [credit_request rule_t until true 10 0] s2).2.
Definition s4 : Store := (TryCreditCharge (t0 + 1) true rule_t until true 10 s3).1.2.
Definition charge_ids (n : nat) : string := "c" ++ FormatInt (Z.of_nat n).
Definition batch : list stateRequest := [charge_request rule_u 60; charge_request rule_v 60].
Definition s5 : Store := (processCharges (at_once (t0 + 2)) good_disk charge_ids batch s4).2.
Definition s6 : Store := (processCharges (at_once (t0 + 3)) good_disk charge_ids batch s5).2.

Lemma node_config_ok : config_ok node_config.
Proof.
  intros r Hr _. simpl in Hr. repeat (apply elem_of_cons in Hr as [->|Hr]; [split; [|done]; intros l Hl; simpl in Hl;
    apply list_elem_of_singleton in Hl; by injection Hl as ->|]). inversion Hr.
Qed.

Lemma s3_reachable : agent_reachable s3.
Proof.
  assert (H1 : agent_reachable s1).
  { eapply rtc_l; [apply (ag_event _ t0 good_disk false identity_event)|apply rtc_refl]; [done|unfold request_kinds; simpl; set_solver]. }
  assert (H2 : agent_reachable s2).
  { eapply rtc_r; [exact H1|]. apply (ag_event _ t0 good_disk false (config_event node_config)); [|unfold request_kinds; simpl; set_solver].
    split; [done|split; [done|apply node_config_ok]]. }
  eapply rtc_r; [exact H2|]. apply ag_reserve.
Qed.
Lemma s4_reachable : agent_reachable s4.
Proof. eapply rtc_r; [apply s3_reachable|]. apply (ag_charge _ (t0 + 1) true rule_t until true 10). Qed.
Lemma s5_reachable : agent_reachable s5.
Proof.
  eapply rtc_r; [apply s4_reachable|]. apply (ag_charges _ (at_once (t0 + 2)) good_disk charge_ids).
  repeat constructor; vm_compute; discriminate.
Qed.

(** The history so far: every step succeeded. *)
Example agent_history :
  (processReserveBatch (at_once t0) (fun _ => good_disk) window_id [credit_request rule_t until true 10 0] s2).1 = [Ok tt] /\
  (TryCreditCharge (t0 + 1) true rule_t until true 10 s3).1.1 = Ok tt /\
  (processCharges (at_once (t0 + 2)) good_disk charge_ids batch s4).1 = [Ok tt; Ok tt].
Proof. vm_compute. done. Qed.
