(* ===== verification/AgentGuarantees.v ===== *)
(** * What holds of the agent's ledger in every reachable store

    Whatever the order of charges, reservations, flushes, configurations,
    acknowledgements, pruning and restarts, whatever the clock reads and
    whatever the disk refuses. *)

From S2P Require Import Prelude Tx GoStrings Calendar Rational Schema Quota AgentState AgentCredits AgentStore AgentScenarios.
From stdpp Require Import base gmap strings list sorting relations.
From Stdlib Require Import Ascii String.
Local Open Scope string_scope.
Local Open Scope Z_scope.

(** No lease is overspent.  What a lease has settled, plus what was
    forwarded from its live windows, plus what its windows still reserve
    stays within its bytes. *)
Theorem agent_budget s id l :
  agent_reachable s -> Leases (state s) !! id = Some l ->
  0 <= used_of (state s) id <= spent s id /\ spent s id <= used_of (state s) id + creditLiability (Windows (state s)) id /\
  used_of (state s) id + creditLiability (Windows (state s)) id <= NL_Bytes l.
Proof.
  intros Hr%agent_inv Hl. destruct Hr as [Hd Hlive _ _ _]. pose proof (spent_covered s id Hlive). pose proof (used_of_nonneg _ id Hd).
  pose proof (di_budget _ Hd _ _ Hl). lia.
Qed.

(** Responsibility is bounded: at most two windows per rule and
    direction, 4 MiB of unconfirmed credit per rule, 8 MiB per account. *)
Theorem agent_bounds s rule up user :
  agent_reachable s ->
  pool_count (Windows (state s)) rule up <= 2 /\ rule_total (Windows (state s)) rule <= 4 * 1024 * 1024 /\
  user_total (Windows (state s)) user <= 8 * 1024 * 1024.
Proof.
  intros [Hd _ _ _ _]%agent_inv. split; [apply (di_pool _ Hd)|split; [apply (di_rule _ Hd)|apply (di_user _ Hd)]].
Qed.

(** C16: the log is enough.  While the store runs, replaying the log on the
    checkpoint gives exactly the state in memory. *)
Theorem agent_durable s :
  agent_reachable s -> failed s = false -> applyEvents (log s) (saved s) = (Ok tt, state s).
Proof. intros [_ _ _ _ Hr]%agent_inv. exact Hr. Qed.

(** Unconfirmed usage is covered: the records waiting for the panel
    never add up to more than the lease has settled. *)
Theorem agent_pending s id :
  agent_reachable s -> pending_bytes (Pending (state s)) id <= used_of (state s) id.
Proof. intros [Hd _ _ _ _]%agent_inv. apply (di_pending _ Hd). Qed.

(** A charge debits exactly what it asked for, from open windows of the
    rule's own pool, lease and account that have not expired, never beyond
    their capacity; a refused charge debits nothing; the durable state does
    not change. *)
Theorem charge_exact now queue r until up n s result s' q :
  agent_reachable s -> TryCreditCharge now queue r until up n s = (result, s', q) ->
  state s' = state s /\
  match result with
  | Ok _ => 0 <= n /\ now < until /\ debited (may_fund s now r up) (credits s) (credits s') n
  | Err _ => credits s' = credits s
  end.
Proof.
  intros [_ Hl _ _ _]%agent_inv E. destruct (TryCreditCharge_spec _ _ _ _ _ _ _ _ _ _ Hl E) as (Hs & _ & Hres).
  split; [done|]. destruct result; [|done]. by destruct Hres as (? & ? & _ & ?).
Qed.

(** C15: a crash loses no traffic.  A running store that dies at any point
    and is opened again from its files has no windows, and every lease it
    still knows is charged at least what was forwarded at its expense and at
    most its bytes. *)
Theorem agent_crash s now ios s' id l :
  agent_reachable s -> failed s = false -> OpenStore now ios (saved s) (log s) = (Ok tt, s') ->
  Leases (state s') !! id = Some l ->
  Windows (state s') = ∅ /\ spent s id <= used_of (state s') id <= NL_Bytes l.
Proof.
  intros Hr Hf Ho Hl. pose proof (agent_inv _ Hr) as Hi.
  destruct (OpenStore_spec now ios (saved s) (log s) s' (si_log _ _ Hi) Ho) as (st & Ha & Hi' & _ & Hw & Hu).
  rewrite (si_replay _ _ Hi Hf) in Ha. injection Ha as <-. destruct (Hu id (mk_is_Some _ _ Hl)) as [_ Hused]. split; [done|].
  pose proof (spent_covered s id (si_live _ _ Hi)). pose proof (di_budget _ (si_disk _ _ Hi') _ _ Hl) as Hb.
  rewrite Hw in Hb. unfold creditLiability in Hb. rewrite map_sum_empty in Hb. unfold committed in Hused. lia.
Qed.

(** The restart succeeds.  A running store whose state passes the
    snapshot check is opened again on a working disk, when the clock has not
    gone back behind the start of a window. *)
Theorem agent_restart s now ios :
  agent_reachable s -> failed s = false -> validateSnapshot (saved s) = Ok tt -> validateSnapshot (state s) = Ok tt ->
  (forall n, working (ios n)) ->
  (forall id w, Windows (state s) !! id = Some w -> W_StartedAt w <= now /\ 0 <= W_Sequence w < 2 ^ 64) ->
  (OpenStore now ios (saved s) (log s)).1 = Ok tt.
Proof.
  intros Hr Hf Hv1 Hv2 Hio Hw. pose proof (agent_inv _ Hr) as Hi. unfold OpenStore. rewrite Hv1.
  destruct (apply_all_state (log s) (blank (saved s) (log s))) as (H1 & H2 & _). simpl in *.
  rewrite (si_replay _ _ Hi Hf) in H1, H2. destruct (apply_all (log s) _) as [[[]|e] s1]; [|done]. simpl in *. rewrite H2, Hv2.
  unfold recoverCredits. apply recover_loop_succeeds; [done|]. rewrite H2. split.
  - apply (si_disk _ _ Hi).
  - unfold validateSnapshot in Hv2. pass Hv2 E. bool_to_prop. done.
  - intros id w Hid. by destruct (Hw _ _ Hid).
  - intros id w Hid. pose proof (snapshot_sequence _ _ _ Hv2 Hid) as Hseq. destruct (Hw _ _ Hid) as [_ H0]. lia.
Qed.

(** An accepted snapshot is within budget: the check at start-up
    implies everything the ledger relies on. *)
Theorem snapshot_sound st id l :
  validateSnapshot st = Ok tt -> Leases st !! id = Some l ->
  0 <= used_of st id /\ pending_bytes (Pending st) id <= used_of st id /\
  used_of st id + creditLiability (Windows st) id <= NL_Bytes l.
Proof.
  intros Hd%snapshot_inv Hl. split; [by apply used_of_nonneg|]. split; [apply (di_pending _ Hd)|by apply (di_budget _ Hd)].
Qed.

(** ** The guarantees at work

    In [s4] the TCP rule has a window of 250000 bytes, 10 of them spent; in
    [s5] the UDP rules have charged 60 bytes each. *)
Ltac here E := vm_compute in E; first [discriminate E|injection E as <-; reflexivity].

(** A test of all rows, looked up. *)
Lemma map_lookup_all {V} (m : gmap string V) (p : V -> bool) id v :
  m !! id = Some v -> forallb (fun kv => p kv.2) (map_to_list m) = true -> p v = true.
Proof. intros Hm Hp. exact (forallb_map (fun kv => p kv.2) m id v Hp Hm). Qed.

Lemma agent_budget_witness :
  match Leases (state s4) !! "L3" with
  | Some l => spent s4 "L3" = 10 /\ spent s4 "L3" <= NL_Bytes l
  | None => False
  end.
Proof.
  destruct (Leases (state s4) !! "L3") as [l|] eqn:E; [|here E]. split; [vm_compute; reflexivity|].
  destruct (agent_budget s4 "L3" l s4_reachable E) as (_ & H1 & H2). lia.
Defined.

Lemma agent_bounds_witness : pool_count (Windows (state s4)) "t" true = 1 /\ pool_count (Windows (state s4)) "t" true <= 2.
Proof. split; [vm_compute; reflexivity|]. exact (proj1 (agent_bounds s4 "t" true "user:alice" s4_reachable)). Defined.

Lemma agent_durable_witness : failed s5 = false /\ applyEvents (log s5) (saved s5) = (Ok tt, state s5).
Proof. assert (H : failed s5 = false) by (vm_compute; reflexivity). exact (conj H (agent_durable s5 s5_reachable H)). Defined.

Lemma agent_pending_witness : pending_bytes (Pending (state s5)) "L1" = 60 /\ pending_bytes (Pending (state s5)) "L1" <= used_of (state s5) "L1".
Proof. split; [vm_compute; reflexivity|]. exact (agent_pending s5 "L1" s5_reachable). Defined.

Lemma charge_exact_witness : debited (may_fund s3 (t0 + 1) rule_t true) (credits s3) (credits s4) 10.
Proof.
  destruct (TryCreditCharge (t0 + 1) true rule_t until true 10 s3) as [[result s'] q] eqn:E.
  assert (Hs : s4 = s') by (unfold s4; rewrite E; reflexivity).
  assert (Hr : result = Ok tt) by (assert (H : (TryCreditCharge (t0 + 1) true rule_t until true 10 s3).1.1 = Ok tt) by (vm_compute; reflexivity); rewrite E in H; exact H).
  pose proof (charge_exact (t0 + 1) true rule_t until true 10 s3 result s' q s3_reachable E) as [_ H].
  rewrite Hr in H. rewrite Hs. exact (proj2 (proj2 H)).
Defined.

Definition s5_opened : Store := (OpenStore (t0 + 4) (fun _ => good_disk) (saved s5) (log s5)).2.
Lemma s5_opens : OpenStore (t0 + 4) (fun _ => good_disk) (saved s5) (log s5) = (Ok tt, s5_opened).
Proof.
  unfold s5_opened. assert (H : (OpenStore (t0 + 4) (fun _ => good_disk) (saved s5) (log s5)).1 = Ok tt) by (vm_compute; reflexivity).
  destruct (OpenStore (t0 + 4) (fun _ => good_disk) (saved s5) (log s5)) as [r s]. simpl in *. by rewrite H.
Qed.

(** 250000 bytes are charged after the crash, 10 were forwarded. *)
Lemma agent_crash_witness :
  match Leases (state s5_opened) !! "L3" with
  | Some l => used_of (state s5_opened) "L3" = 250000 /\ spent s5 "L3" <= used_of (state s5_opened) "L3" <= NL_Bytes l
  | None => False
  end.
Proof.
  destruct (Leases (state s5_opened) !! "L3") as [l|] eqn:E; [|here E]. split; [vm_compute; reflexivity|].
  assert (Hf : failed s5 = false) by (vm_compute; reflexivity).
  exact (proj2 (agent_crash s5 (t0 + 4) (fun _ => good_disk) s5_opened "L3" l s5_reachable Hf s5_opens E)).
Defined.

Lemma agent_restart_witness : (OpenStore (t0 + 4) (fun _ => good_disk) (saved s5) (log s5)).1 = Ok tt.
Proof.
  apply (agent_restart s5 (t0 + 4) (fun _ => good_disk) s5_reachable).
  - vm_compute. reflexivity.
  - vm_compute. reflexivity.
  - vm_compute. reflexivity.
  - intros n. split; reflexivity.
  - intros id w Hw. apply (map_lookup_all (Windows (state s5)) (fun w => (W_StartedAt w <=? t0 + 4) && (0 <=? W_Sequence w) && (W_Sequence w <? 2 ^ 64))) in Hw.
    + bool_to_prop. lia.
    + vm_compute. reflexivity.
Defined.

Lemma snapshot_sound_witness :
  validateSnapshot (state s5) = Ok tt /\ used_of (state s5) "L1" + creditLiability (Windows (state s5)) "L1" <= 100.
Proof.
  assert (H : validateSnapshot (state s5) = Ok tt) by (vm_compute; reflexivity). split; [exact H|].
  destruct (Leases (state s5) !! "L1") as [l|] eqn:E; [|here E].
  assert (Hb : NL_Bytes l = 100) by here E. rewrite <- Hb. exact (proj2 (proj2 (snapshot_sound (state s5) "L1" l H E))).
Defined.
