(* ===== verification/Bytes.v ===== *)
(** * Bytes: big-endian integers, slices and CRC-32C (what the log and the
    tunnel use of [encoding/binary] and [hash/crc32])

    The checksum is the reflected Castagnoli polynomial, one bit at a time.
    The facts the log relies on: encoding an integer and reading it back,
    and that a checksum changes when any one byte of its input does. *)

From S2P Require Import Prelude Digest.
From stdpp Require Import base strings list.
Local Open Scope Z_scope.

Definition is_byte (b : Z) : Prop := 0 <= b < 256.
Definition word32 (c : Z) : Prop := 0 <= c < 2 ^ 32.

(** ** Big-endian integers *)

Definition be_value (l : list Z) : Z := foldl (fun acc b => acc * 256 + b) 0 l.

(** [binary.BigEndian.PutUint16], [PutUint32] and [PutUint64] *)
Definition PutUint16 (x : Z) : list Z := be_bytes 2 x.
Definition PutUint32 (x : Z) : list Z := be_bytes 4 x.
Definition PutUint64 (x : Z) : list Z := be_bytes 8 x.

(** [b[from:from+n]] *)
Definition sub (l : list Z) (from n : nat) : list Z := take n (drop from l).
(** [binary.BigEndian.Uint16(b[from:from+2])], [Uint32] and [Uint64] *)
Definition Uint16 (l : list Z) (from : nat) : Z := be_value (sub l from 2).
Definition Uint32 (l : list Z) (from : nat) : Z := be_value (sub l from 4).
Definition Uint64 (l : list Z) (from : nat) : Z := be_value (sub l from 8).

(** ** The checksum *)

Definition Castagnoli : Z := 0x82F63B78.

Definition crc_bit (c : Z) : Z :=
  if Z.odd c then Z.lxor (Z.shiftr c 1) Castagnoli else Z.shiftr c 1.
Definition crc_byte (c v : Z) : Z := Nat.iter 8 crc_bit (Z.lxor c v).

(** [crc32.Update] with the Castagnoli table *)
Definition crc_update (crc : Z) (p : list Z) : Z := not32 (foldl crc_byte (not32 crc) p).
(** [crc32.Checksum] *)
Definition crc_checksum (p : list Z) : Z := crc_update 0 p.

(** The check value of the polynomial. *)
Example crc_check : crc_checksum (bytes_of "123456789"%string) = 0xE3069283.
Proof. vm_compute. reflexivity. Qed.

(** ** Properties *)

Lemma be_bytes_length n x : length (be_bytes n x) = n.
Proof. unfold be_bytes. by rewrite length_rev, length_map, length_seq. Qed.

Lemma be_bytes_byte n x : Forall is_byte (be_bytes n x).
Proof.
  unfold be_bytes. apply Forall_rev, Forall_forall. intros b (i & <- & _)%list_elem_of_In%in_map_iff.
  change 255 with (Z.ones 8). rewrite Z.land_ones by lia. apply Z.mod_pos_bound. lia.
Qed.

Lemma be_bytes_S n x : be_bytes (S n) x = Z.land (Z.shiftr x (8 * Z.of_nat n)) 255 :: be_bytes n x.
Proof. unfold be_bytes. rewrite seq_S, map_app, rev_app_distr. done. Qed.

Lemma be_value_acc l acc : foldl (fun a b => a * 256 + b) acc l = acc * 256 ^ Z.of_nat (length l) + be_value l.
Proof.
  unfold be_value. revert acc. induction l as [|b l IH]; intros acc; simpl length; cbn [foldl]; [lia|].
  rewrite IH, (IH (0 * 256 + b)), Nat2Z.inj_succ, Z.pow_succ_r by lia. lia.
Qed.

Lemma be_value_cons b l : be_value (b :: l) = b * 256 ^ Z.of_nat (length l) + be_value l.
Proof. unfold be_value at 1. cbn [foldl]. rewrite be_value_acc. lia. Qed.

Lemma be_value_bytes n x : 0 <= x < 256 ^ Z.of_nat n -> be_value (be_bytes n x) = x.
Proof.
  assert (H : be_value (be_bytes n x) = x mod 256 ^ Z.of_nat n).
  { induction n as [|n IH]; [by rewrite Z.mod_1_r|].
    rewrite be_bytes_S, be_value_cons, be_bytes_length, IH.
    change 255 with (Z.ones 8). rewrite Z.land_ones, Z.shiftr_div_pow2 by lia.
    change (2 ^ 8) with 256. rewrite Z.pow_mul_r, Nat2Z.inj_succ, Z.pow_succ_r by lia. change (2 ^ 8) with 256.
    rewrite (Z.mul_comm 256), Z.rem_mul_r by lia. lia. }
  intros Hx. rewrite H. by apply Z.mod_small.
Qed.

(** *** The state of the checksum is a 32-bit word *)

Lemma lxor_word32 a b : word32 a -> word32 b -> word32 (Z.lxor a b).
Proof.
  unfold word32. intros Ha Hb. assert (H0 : 0 <= Z.lxor a b) by (apply Z.lxor_nonneg; lia). split; [done|].
  apply Z.bounded_iff_bits_nonneg; [lia|done|]. intros l Hl. rewrite Z.lxor_spec.
  rewrite (proj1 (Z.bounded_iff_bits_nonneg 32 a ltac:(lia) ltac:(lia))), (proj1 (Z.bounded_iff_bits_nonneg 32 b ltac:(lia) ltac:(lia))) by lia.
  done.
Qed.

Lemma shiftr1_half c : word32 c -> 0 <= Z.shiftr c 1 < 2 ^ 31.
Proof. unfold word32. rewrite Z.shiftr_div_pow2 by lia. change (2 ^ 1) with 2. intros. Z.to_euclidean_division_equations. lia. Qed.

Lemma crc_bit_word c : word32 c -> word32 (crc_bit c).
Proof.
  intros H. pose proof (shiftr1_half c H). unfold crc_bit. destruct (Z.odd c); [apply lxor_word32|]; unfold word32, Castagnoli; lia.
Qed.

Lemma not32_word c : word32 c -> word32 (not32 c).
Proof. intros. apply lxor_word32; [done|]. unfold word32, mask32. lia. Qed.

Lemma byte_word b : is_byte b -> word32 b.
Proof. unfold is_byte, word32. lia. Qed.

Lemma crc_byte_word c v : word32 c -> is_byte v -> word32 (crc_byte c v).
Proof.
  intros Hc Hv. unfold crc_byte. apply Nat.iter_invariant; [|apply lxor_word32; auto using byte_word]. intros; by apply crc_bit_word.
Qed.

Lemma crc_fold_word p c : word32 c -> Forall is_byte p -> word32 (foldl crc_byte c p).
Proof.
  revert c. induction p as [|b p IH]; intros c Hc Hp; [done|]. apply Forall_cons in Hp as [Hb Hp]. cbn [foldl].
  apply IH; [by apply crc_byte_word|done].
Qed.

Lemma crc_update_word c p : word32 c -> Forall is_byte p -> word32 (crc_update c p).
Proof. intros. unfold crc_update. auto using not32_word, crc_fold_word. Qed.

(** *** Every step can be undone *)

Lemma lxor_cancel a b c : Z.lxor a c = Z.lxor b c -> a = b.
Proof.
  intros H. assert (E : Z.lxor (Z.lxor a c) c = Z.lxor (Z.lxor b c) c) by (by rewrite H).
  by rewrite !Z.lxor_assoc, !Z.lxor_nilpotent, !Z.lxor_0_r in E.
Qed.
Lemma lxor_cancel_l a b c : Z.lxor c a = Z.lxor c b -> a = b.
Proof. rewrite !(Z.lxor_comm c). apply lxor_cancel. Qed.

(** The high bit of the state after a step is the low bit before it. *)
Lemma crc_bit_high c : word32 c -> Z.testbit (crc_bit c) 31 = Z.odd c.
Proof.
  intros H. pose proof (shiftr1_half c H).
  assert (Hb : Z.testbit (Z.shiftr c 1) 31 = false) by (apply (proj1 (Z.bounded_iff_bits_nonneg 31 (Z.shiftr c 1) ltac:(lia) ltac:(lia))); lia).
  unfold crc_bit. destruct (Z.odd c); [|done]. rewrite Z.lxor_spec, Hb. reflexivity.
Qed.

Lemma crc_bit_inj a b : word32 a -> word32 b -> crc_bit a = crc_bit b -> a = b.
Proof.
  intros Ha Hb H. assert (Ho : Z.odd a = Z.odd b) by (rewrite <- !crc_bit_high by done; by rewrite H).
  assert (Hs : Z.shiftr a 1 = Z.shiftr b 1).
  { unfold crc_bit in H. rewrite Ho in H. destruct (Z.odd b); [by apply lxor_cancel in H|done]. }
  rewrite <- !Z.div2_spec in Hs. rewrite (Z.div2_odd a), (Z.div2_odd b). by rewrite Hs, Ho.
Qed.

Lemma crc_iter_inj n a b : word32 a -> word32 b -> Nat.iter n crc_bit a = Nat.iter n crc_bit b -> a = b.
Proof.
  revert a b. induction n as [|n IH]; intros a b Ha Hb H; [done|]. rewrite !Nat.iter_succ_r in H.
  apply IH in H; auto using crc_bit_word. by apply crc_bit_inj.
Qed.

Lemma crc_byte_inj_state a b v : word32 a -> word32 b -> is_byte v -> crc_byte a v = crc_byte b v -> a = b.
Proof. intros Ha Hb Hv H. apply crc_iter_inj in H; auto using lxor_word32, byte_word. by apply lxor_cancel in H. Qed.
Lemma crc_byte_inj_byte c u v : word32 c -> is_byte u -> is_byte v -> crc_byte c u = crc_byte c v -> u = v.
Proof. intros Hc Hu Hv H. apply crc_iter_inj in H; auto using lxor_word32, byte_word. by apply lxor_cancel_l in H. Qed.

Lemma crc_fold_inj p a b : word32 a -> word32 b -> Forall is_byte p -> foldl crc_byte a p = foldl crc_byte b p -> a = b.
Proof.
  revert a b. induction p as [|v p IH]; intros a b Ha Hb Hp H; [done|]. apply Forall_cons in Hp as [Hv Hp]. cbn [foldl] in H.
  apply IH in H; auto using crc_byte_word. by apply crc_byte_inj_state in H.
Qed.

Lemma crc_update_inj p a b : word32 a -> word32 b -> Forall is_byte p -> crc_update a p = crc_update b p -> a = b.
Proof.
  intros Ha Hb Hp H. unfold crc_update in H. apply lxor_cancel in H. apply crc_fold_inj in H; auto using not32_word.
  by apply lxor_cancel in H.
Qed.

(** One changed byte changes the checksum. *)
Lemma crc_changes c p i b v : word32 c -> Forall is_byte p -> is_byte b ->
  p !! i = Some v -> b <> v -> crc_update c (<[i := b]> p) <> crc_update c p.
Proof.
  intros Hc Hp Hb Hi Hne Heq. unfold crc_update in Heq. apply lxor_cancel in Heq.
  pose proof (lookup_lt_Some _ _ _ Hi) as Hlt. pose proof (take_drop_middle _ _ _ Hi) as Hsplit.
  rewrite insert_take_drop in Heq by done. rewrite <- Hsplit in Heq at 3.
  rewrite !foldl_app in Heq. cbn [foldl] in Heq.
  assert (Hh : word32 (foldl crc_byte (not32 c) (take i p))) by (apply crc_fold_word; [by apply not32_word|by apply Forall_take]).
  pose proof (Forall_lookup_1 _ _ _ _ Hp Hi) as Hv.
  apply crc_fold_inj in Heq; auto using crc_byte_word, Forall_drop. by apply crc_byte_inj_byte in Heq.
Qed.

Lemma zero_word : word32 0.
Proof. unfold word32. lia. Qed.
#[export] Hint Resolve zero_word crc_update_word : core.

(** ** Slices *)

Section Slices.
Implicit Types l : list Z.

Lemma list_of_2 l : length l = 2%nat -> exists a b, l = [a; b].
Proof. intros Hl. do 2 (destruct l as [|? l]; [done|]). destruct l; [|done]. eauto. Qed.
Lemma list_of_4 l : length l = 4%nat -> exists a b c d, l = [a; b; c; d].
Proof. intros Hl. do 4 (destruct l as [|? l]; [done|]). destruct l; [|done]. eauto. Qed.
Lemma list_of_8 l : length l = 8%nat -> exists a b c d e f g h, l = [a; b; c; d; e; f; g; h].
Proof. intros Hl. do 8 (destruct l as [|? l]; [done|]). destruct l; [|done]. repeat eexists. Qed.

Lemma sub_lookup l from n i : sub l from n !! i = if (i <? n)%nat then l !! (from + i)%nat else None.
Proof.
  unfold sub. destruct (i <? n)%nat eqn:E; [apply Nat.ltb_lt in E|apply Nat.ltb_ge in E].
  - rewrite lookup_take_lt by done. apply lookup_drop.
  - by rewrite lookup_take_ge by done.
Qed.
Lemma sub_length l from n : (from + n <= length l)%nat -> length (sub l from n) = n.
Proof. intros. unfold sub. rewrite length_take, length_drop. lia. Qed.

(** Changing a byte outside or inside a slice. *)
Lemma sub_insert_out l from n i b : (i < from \/ from + n <= i)%nat -> sub (<[i := b]> l) from n = sub l from n.
Proof.
  intros Hi. apply list_eq. intros j. rewrite !sub_lookup. destruct (j <? n)%nat eqn:E; [|done]. apply Nat.ltb_lt in E.
  apply list_lookup_insert_ne. lia.
Qed.
Lemma sub_insert_in l from n i b : (i < n)%nat -> sub (<[(from + i)%nat := b]> l) from n = <[i := b]> (sub l from n).
Proof.
  intros Hi. destruct (decide (from + i < length l)%nat) as [Hl|Hl].
  - apply list_eq. intros j. rewrite sub_lookup. destruct (decide (i = j)) as [<-|Hj].
    + rewrite (proj2 (Nat.ltb_lt _ _) Hi). rewrite !list_lookup_insert_eq; [done| |done].
      unfold sub. rewrite length_take, length_drop. lia.
    + rewrite (list_lookup_insert_ne (sub l from n)) by done. rewrite sub_lookup. destruct (j <? n)%nat; [|done].
      apply list_lookup_insert_ne. lia.
  - rewrite !list_insert_ge; [done| |lia]. unfold sub. rewrite length_take, length_drop. lia.
Qed.
Lemma sub_insert l from n i b : (from <= i < from + n)%nat -> sub (<[i := b]> l) from n = <[(i - from)%nat := b]> (sub l from n).
Proof. intros. rewrite <- sub_insert_in by lia. do 2 f_equal. lia. Qed.

Lemma drop_insert_out l n i b : (i < n)%nat -> drop n (<[i := b]> l) = drop n l.
Proof. intros. apply list_eq. intros j. rewrite !lookup_drop. apply list_lookup_insert_ne. lia. Qed.
Lemma drop_insert_in l n i b : (n <= i)%nat -> drop n (<[i := b]> l) = <[(i - n)%nat := b]> (drop n l).
Proof.
  intros. destruct (decide (i < length l)%nat) as [Hl|Hl].
  - apply list_eq. intros j. rewrite lookup_drop. destruct (decide (i - n = j)%nat) as [<-|Hj].
    + replace (n + (i - n))%nat with i by lia. rewrite !list_lookup_insert_eq; [done|rewrite length_drop; lia|done].
    + rewrite !list_lookup_insert_ne by lia. by rewrite lookup_drop.
  - rewrite !list_insert_ge; [done|rewrite length_drop; lia|lia].
Qed.

Lemma PutUint16_length x : length (PutUint16 x) = 2%nat.
Proof. apply be_bytes_length. Qed.
Lemma PutUint32_length x : length (PutUint32 x) = 4%nat.
Proof. apply be_bytes_length. Qed.
Lemma PutUint64_length x : length (PutUint64 x) = 8%nat.
Proof. apply be_bytes_length. Qed.
Lemma be_value_inj l l' : Forall is_byte l -> Forall is_byte l' -> length l = length l' -> be_value l = be_value l' -> l = l'.
Proof.
  intros Hl Hl'. revert l' Hl'. induction Hl as [|b l Hb Hl IH]; intros [|b' l'] Hl' Hlen Heq; try done.
  apply Forall_cons in Hl' as [Hb' Hl']. injection Hlen as Hlen. rewrite !be_value_cons, Hlen in Heq.
  assert (Hr : forall m, Forall is_byte m -> 0 <= be_value m < 256 ^ Z.of_nat (length m)).
  { clear. intros m Hm. induction Hm as [|b m Hb Hm IH]; [done|]. rewrite be_value_cons. cbn [List.length].
    rewrite Nat2Z.inj_succ, Z.pow_succ_r by lia. unfold is_byte in Hb. nia. }
  pose proof (Hr _ Hl). pose proof (Hr _ Hl'). rewrite Hlen in *. unfold is_byte in *.
  assert (b = b') as -> by nia. f_equal. apply IH; [done|done|lia].
Qed.

Lemma sub_take (b : list Z) k from n : (from + n <= k)%nat -> sub (take k b) from n = sub b from n.
Proof.
  intros. apply list_eq. intros i. rewrite !sub_lookup. destruct (i <? n)%nat eqn:E; [|done]. apply Nat.ltb_lt in E.
  apply lookup_take_lt. lia.
Qed.
Lemma sub_drop (b : list Z) i from n : sub (drop i b) from n = sub b (i + from) n.
Proof. unfold sub. by rewrite drop_drop. Qed.
End Slices.


Lemma PutUint32_byte x : Forall is_byte (PutUint32 x).
Proof. apply be_bytes_byte. Qed.
Lemma PutUint64_byte x : Forall is_byte (PutUint64 x).
Proof. apply be_bytes_byte. Qed.
Lemma be_value_16 x : 0 <= x < 2 ^ 16 -> be_value (PutUint16 x) = x.
Proof. intros. by apply be_value_bytes. Qed.
Lemma be_value_32 x : word32 x -> be_value (PutUint32 x) = x.
Proof. intros. by apply be_value_bytes. Qed.
Lemma be_value_64 x : 0 <= x < 2 ^ 64 -> be_value (PutUint64 x) = x.
Proof. intros. by apply be_value_bytes. Qed.

