(* ===== verification/AgentWAL.v ===== *)
(** * The write-ahead log of the agent (internal/agent/wal.go)

    The agent's ledger lives in two files: a checkpoint (a JSON document with
    a sequence number and a checksum) and a log of the events after it, each
    record framed by a header with two CRC-32C checksums.  This file has the
    bytes: encoding, replay with its treatment of torn tails, appending,
    checkpoints and the rotation of the log, with every call that can fail.

    [encoding/json] is a parameter ([JSON], with its laws in [JSONLaws]).
    AgentStore sees the same operations as a checkpoint and a list of events;
    AgentFiles relates the two. *)

From S2P Require Import Prelude Tx GoStrings Calendar Rational Digest Schema Quota AgentState Bytes.
From stdpp Require Import base gmap strings list.
From Stdlib Require Import Ascii String.
Local Open Scope string_scope.
Local Open Scope Z_scope.
Local Abbreviation length := List.length.

Definition walVersion : Z := 2.
Definition walHeaderSize : nat := 20.
Definition recordHeaderSize : nat := 24.
Definition maxWALRecord : Z := 4 * 2 ^ 20.
Definition maxSnapshot : Z := 64 * 2 ^ 20.
Definition walCheckpointBytes : Z := 8 * 2 ^ 20.
Definition walMagic : list Z := bytes_of "TFPWAL02".
Definition walMagic1 : list Z := bytes_of "TFPWAL01".
Definition recordMagic : list Z := bytes_of "EV01".

Record checkpoint := { Version : Z; Sequence : Z; State : list Z; CRC : Z }.

(** ** [encoding/json] on the values of the log *)

Class JSON := {
  marshal_event : stateEvent -> option (list Z);
  unmarshal_event : list Z -> option stateEvent;
  marshal_state : diskState -> option (list Z);
  unmarshal_state : list Z -> option diskState;
  marshal_checkpoint : checkpoint -> option (list Z);
  unmarshal_checkpoint : list Z -> option checkpoint
}.

(** The text of an object: it starts with a brace and holds no control
    character; decoding it gives the value back.  ([encoding/json] replaces
    bytes of strings that are not UTF-8; a value is what its decoding gives,
    so events with such strings stand for the events with the replacements.) *)
Definition json_object (p : list Z) : Prop := head p = Some 123 /\ Forall (fun x => 0 < x < 256) p.
Class JSONLaws `{JSON} : Prop := {
  event_text e p : marshal_event e = Some p -> json_object p /\ unmarshal_event p = Some e;
  state_text st p : marshal_state st = Some p -> Forall is_byte p /\ unmarshal_state p = Some st;
  checkpoint_text c p : 0 <= Sequence c < 2 ^ 64 -> word32 (CRC c) -> Forall is_byte (State c) ->
    marshal_checkpoint c = Some p ->
    unmarshal_checkpoint p = Some c /\ Z.of_nat (length p) <= Z.of_nat (length (State c)) + 1024
}.

Definition checksum (seq : Z) (b : list Z) : Z := crc_update (crc_update 0 (PutUint64 seq)) b.

Definition walHeader (base : Z) : list Z :=
  let b := (walMagic ++ PutUint64 base)%list in
  (b ++ PutUint32 (crc_checksum b))%list.

(** The calls that can fail: a fault oracle by the name of the call or of
    the source's fault point. *)
Definition Faults : Type := string -> option error.
Definition first_fault (io : Faults) (names : list string) : option error :=
  foldr (fun name rest => match io name with Some e => Some e | None => rest end) None names.

Section WAL.
Context `{JSON}.

Definition record_bytes (seq : Z) (payload : list Z) : list Z :=
  let h := (recordMagic ++ PutUint32 (Z.of_nat (length payload)) ++ PutUint64 seq)%list in
  let h := (h ++ PutUint32 (crc_update (crc_update 0 h) payload))%list in
  (h ++ PutUint32 (crc_checksum h) ++ payload)%list.

Definition encodeRecord (seq : Z) (event : stateEvent) : res (list Z) :=
  match marshal_event event with
  | None => Err (ErrMsg "json: unsupported value")
  | Some payload =>
      if maxWALRecord <? Z.of_nat (length payload) then Err (ErrMsg "WAL event too large") else
      Ok (record_bytes seq payload)
  end.

(** ** Replay *)

(** The checks of a record header both scans make. *)
Definition magic_at (b : list Z) : bool := bool_decide (sub b 0 4 = recordMagic).
Definition header_crc_ok (b : list Z) : bool := Uint32 b 20 =? crc_checksum (sub b 0 20).
Definition payload_crc_ok (b : list Z) : bool :=
  crc_update (crc_update 0 (sub b 0 16)) (sub b 24 (Z.to_nat (Uint32 b 4))) =? Uint32 b 16.

(** [hasFollowingRecord]'s test at one position, and its loop over the
    suffixes of the bytes *)
Definition record_at (seq : Z) (b : list Z) : bool :=
  magic_at b && header_crc_ok b
  && negb ((Uint32 b 4 <=? 0) || (maxWALRecord <? Uint32 b 4)
           || (Z.of_nat (length b) - Z.of_nat recordHeaderSize <? Uint32 b 4) || (Uint64 b 8 <=? seq))
  && payload_crc_ok b.
Fixpoint following (seq : Z) (b : list Z) : bool :=
  match b with
  | [] => false
  | _ :: rest =>
      if (length b <? recordHeaderSize)%nat then false else
      if record_at seq b then true else following seq rest
  end.
Definition hasFollowingRecord (b : list Z) (seq : Z) : res bool :=
  if walCheckpointBytes + maxWALRecord <? Z.of_nat (length b) then Err (ErrMsg "WAL exceeds recovery bound") else
  Ok (following seq b).

(** One event of the log on the state: only those after the checkpoint. *)
Definition replay_event (recseq seq : Z) (payload : list Z) (st : diskState) : res (Z * diskState) :=
  if seq <? recseq then
    match unmarshal_event payload with
    | None => Err (ErrMsg "WAL event")
    | Some e => match applyEvent e st with
                | (Err _, _) => Err (ErrMsg "WAL replay")
                | (Ok _, st) => Ok (recseq, st)
                end
    end
  else Ok (seq, st).

(** The loop from [offset]: [rest] is what the file holds from there.  It
    returns the sequence number, the state and the length of the log that is
    kept ([truncateTail] when that is less than the file); [None] is a loop
    that did not end within [fuel]. *)
Fixpoint replay_loop (fuel : nat) (rest : list Z) (offset : nat) (expected seq : Z) (st : diskState)
  : option (res (Z * diskState * nat)) :=
  match fuel with
  | O => None
  | Datatypes.S fuel =>
      if (length rest =? 0)%nat then Some (Ok (seq, st, offset)) else
      if (length rest <? recordHeaderSize)%nat then
        if bool_decide (take 4 rest = take (length rest) recordMagic) then Some (Ok (seq, st, offset))
        else Some (Err (ErrMsg "corrupt WAL tail header")) else
      if negb (magic_at rest) then Some (Err (ErrMsg "WAL corruption")) else
      if negb (header_crc_ok rest) then Some (Err (ErrMsg "WAL header checksum corruption")) else
      let n := Uint32 rest 4 in
      let recseq := Uint64 rest 8 in
      if (n <=? 0) || (maxWALRecord <? n) || negb (recseq =? expected)
      then Some (Err (ErrMsg "invalid WAL length/sequence")) else
      if Z.of_nat (length rest) - Z.of_nat recordHeaderSize <? n then
        match hasFollowingRecord (drop 1 rest) recseq with
        | Err e => Some (Err e)
        | Ok true => Some (Err (ErrMsg "interior WAL length corruption"))
        | Ok false => Some (Ok (seq, st, offset))
        end else
      if negb (payload_crc_ok rest) then Some (Err (ErrMsg "WAL checksum corruption")) else
      match replay_event recseq seq (sub rest recordHeaderSize (Z.to_nat n)) st with
      | Err e => Some (Err e)
      | Ok (seq, st) =>
          let size := (recordHeaderSize + Z.to_nat n)%nat in
          replay_loop fuel (drop size rest) (offset + size) ((expected + 1) mod 2 ^ 64) seq st
      end
  end.

Definition replay (file : list Z) (seq : Z) (st : diskState) : option (res (Z * diskState * nat)) :=
  if (length file <? walHeaderSize)%nat then Some (Err (ErrMsg "incomplete WAL header")) else
  if negb (bool_decide (sub file 0 8 = walMagic) || bool_decide (sub file 0 8 = walMagic1))
     || negb (Uint32 file 16 =? crc_checksum (sub file 0 16))
  then Some (Err (ErrMsg "corrupt or unsupported WAL header")) else
  let base := Uint64 file 8 in
  if seq <? base then Some (Err (ErrMsg "WAL checkpoint missing; refusing to restore a fresh budget")) else
  replay_loop (Datatypes.S (length file)) (drop walHeaderSize file) walHeaderSize ((base + 1) mod 2 ^ 64) seq st.

(** ** Appending *)

Fixpoint encode_batch (seq : Z) (i : nat) (events : list stateEvent) : res (list Z) :=
  match events with
  | [] => Ok []
  | event :: events =>
      let n := (seq + Z.of_nat i + 1) mod 2 ^ 64 in
      if n <=? seq then Err (ErrMsg "WAL sequence overflow") else
      match encodeRecord n event with
      | Err e => Err e
      | Ok b => match encode_batch seq (Datatypes.S i) events with
                | Err e => Err e
                | Ok rest => Ok (b ++ rest)%list
                end
      end
  end.

(** The write loop: the [k]-th call to [Write] puts the first [n] bytes of
    what it is given in the file and returns [n] and its error. *)
Fixpoint write_all (fuel : nat) (writes : nat -> Z * option error) (k : nat) (p : list Z) : res unit * list Z :=
  match fuel, p with
  | Datatypes.S fuel, _ :: _ =>
      let '(n, e) := writes k in
      let written := take (Z.to_nat n) p in
      match e with
      | Some e => (Err e, written)
      | None =>
          if (n <=? 0) || (Z.of_nat (length p) <? n) then (Err (ErrMsg "short write"), written) else
          let '(r, more) := write_all fuel writes (Datatypes.S k) (drop (Z.to_nat n) p) in
          (r, (written ++ more)%list)
      end
  | _, _ => (Ok tt, [])
  end.

(** ** The store over its files *)

Record files := { f_snapshot : option (list Z); f_wal : option (list Z) }.
Record durable := { d_files : files; d_state : diskState; d_seq : Z; d_walBytes : Z; d_open : bool }.

Definition wal_of (d : durable) : list Z := default [] (f_wal (d_files d)).
Definition put_wal (b : list Z) (d : durable) : durable :=
  {| d_files := {| f_snapshot := f_snapshot (d_files d); f_wal := Some b |}; d_state := d_state d; d_seq := d_seq d;
     d_walBytes := d_walBytes d; d_open := d_open d |}.
Definition put_snapshot (b : list Z) (d : durable) : durable :=
  {| d_files := {| f_snapshot := Some b; f_wal := f_wal (d_files d) |}; d_state := d_state d; d_seq := d_seq d;
     d_walBytes := d_walBytes d; d_open := d_open d |}.
Definition put_state (st : diskState) (d : durable) : durable :=
  {| d_files := d_files d; d_state := st; d_seq := d_seq d; d_walBytes := d_walBytes d; d_open := d_open d |}.
Definition put_seq (seq : Z) (d : durable) : durable :=
  {| d_files := d_files d; d_state := d_state d; d_seq := seq; d_walBytes := d_walBytes d; d_open := d_open d |}.
Definition put_handle (walBytes : Z) (open : bool) (d : durable) : durable :=
  {| d_files := d_files d; d_state := d_state d; d_seq := d_seq d; d_walBytes := walBytes; d_open := open |}.

Definition appendEvents (io : Faults) (writes : nat -> Z * option error) (events : list stateEvent) (d : durable)
  : res unit * durable :=
  match encode_batch (d_seq d) 0 events with
  | Err e => (Err e, d)
  | Ok batch =>
      match io "append_before" with
      | Some e => (Err e, d)
      | None =>
          let '(r, written) := write_all (length batch) writes 0 batch in
          let d := put_wal (wal_of d ++ written) d in
          match r with
          | Err e => (Err e, d)
          | Ok _ =>
              match first_fault io ["append_after"; "sync_before"; "sync"; "sync_after"] with
              | Some e => (Err e, d)
              | None => (Ok tt, put_handle (d_walBytes d + Z.of_nat (length batch)) (d_open d)
                                  (put_seq ((d_seq d + Z.of_nat (length events)) mod 2 ^ 64) d))
              end
          end
      end
  end.

(** ** Checkpoints *)

Definition replaceWAL (io : Faults) (base : Z) (d : durable) : res unit * durable :=
  match first_fault io ["open_next"; "write_next"; "rotate_after_write"; "sync_next"; "rotate_after_sync"; "close_next"] with
  | Some e => (Err e, d)
  | None =>
      match (if d_open d then io "close_wal" else None) with
      | Some e => (Err e, d)
      | None =>
          let d := put_handle (d_walBytes d) false d in
          match first_fault io ["rotate_before_rename"; "rename_next"] with
          | Some e => (Err e, d)
          | None =>
              let d := put_wal (walHeader base) d in
              match first_fault io ["rotate_after_rename"; "sync_directory"; "rotate_after_dirsync"; "open_wal"] with
              | Some e => (Err e, d)
              | None => (Ok tt, put_handle (Z.of_nat walHeaderSize) true d)
              end
          end
      end
  end.

Definition checkpointLocked (now : Z) (io : Faults) (d : durable) : res unit * durable :=
  let d := put_state (pruneLeaseHistory now (d_state d)) d in
  match marshal_state (d_state d) with
  | None => (Err (ErrMsg "json: unsupported value"), d)
  | Some state =>
      if maxSnapshot - 1024 <? Z.of_nat (length state) then (Err (ErrMsg "checkpoint metadata limit reached"), d) else
      match marshal_checkpoint {| Version := walVersion; Sequence := d_seq d; State := state; CRC := checksum (d_seq d) state |} with
      | None => (Err (ErrMsg "json: unsupported value"), d)
      | Some b =>
          match first_fault io ["snapshot_before_write"; "open_tmp"; "write_tmp"; "snapshot_after_write"; "sync_tmp";
                                "snapshot_after_sync"; "close_tmp"; "rename_tmp"] with
          | Some e => (Err e, d)
          | None =>
              let d := put_snapshot b d in
              match first_fault io ["snapshot_after_rename"; "sync_snapshot_directory"; "snapshot_after_dirsync"] with
              | Some e => (Err e, d)
              | None => replaceWAL io (d_seq d) d
              end
          end
      end
  end.

(** The writer's use of them ([process], [commitCreditEventsLocked]): append,
    apply, and checkpoint when the log has grown. *)
Definition commitEvents (now : Z) (io : Faults) (writes : nat -> Z * option error) (events : list stateEvent) (d : durable)
  : res unit * durable :=
  match appendEvents io writes events d with
  | (Err e, d) => (Err e, d)
  | (Ok _, d) =>
      match applyEvents events (d_state d) with
      | (Err e, st) => (Err e, put_state st d)
      | (Ok _, st) =>
          let d := put_state st d in
          if walCheckpointBytes <=? d_walBytes d then checkpointLocked now io d else (Ok tt, d)
      end
  end.

(** ** Start-up *)

(** The leases of the configuration that the state does not list. *)
Definition add_lease (leases : gmap string NodeLease) (l : option NodeLease) : gmap string NodeLease :=
  match l with
  | Some l => match leases !! NL_ID l with Some _ => leases | None => <[NL_ID l := l]> leases end
  | None => leases
  end.
Definition initializeMaps (st : diskState) : diskState :=
  set_leases (foldl add_lease (Leases st) (all_leases (Cfg st))) st.

(** What the snapshot file says: its sequence number and state, whether it is
    of an older format, and whether it carries a version. *)
Definition load_snapshot (file : option (list Z)) (st : diskState) : res (Z * diskState * bool * bool) :=
  match file with
  | None => Ok (0, st, false, false)
  | Some b =>
      if maxSnapshot <? Z.of_nat (length b) then Err (ErrMsg "snapshot too large") else
      match unmarshal_checkpoint b with
      | None => Err (ErrMsg "json: invalid snapshot")
      | Some c =>
          if Version c =? 0 then
            match unmarshal_state b with
            | None => Err (ErrMsg "json: invalid snapshot")
            | Some st => Ok (0, st, true, false)
            end
          else if (negb (Version c =? 1) && negb (Version c =? walVersion)) || negb (checksum (Sequence c) (State c) =? CRC c)
          then Err (ErrMsg "unsupported or corrupt checkpoint")
          else match unmarshal_state (State c) with
               | None => Err (ErrMsg "json: invalid state")
               | Some st => Ok (Sequence c, st, Version c =? 1, true)
               end
      end
  end.

(** The log: created when there is none (and no checkpoint that needs one),
    replayed otherwise; a torn tail is cut off. *)
Definition open_wal (io : Faults) (versioned : bool) (d : durable) : option (res bool * durable) :=
  match f_wal (d_files d) with
  | None =>
      if versioned then Some (Err (ErrMsg "checkpoint WAL missing; restore the complete state bundle"), d) else
      let '(r, d) := replaceWAL io (d_seq d) d in
      Some (match r with Ok _ => Ok false | Err e => Err e end, d)
  | Some file =>
      let d := put_handle (d_walBytes d) true d in
      match first_fault io ["open_wal"; "stat_wal"; "read_wal"] with
      | Some e => Some (Err e, d)
      | None =>
          match replay file (d_seq d) (d_state d) with
          | None => None
          | Some (Err e) => Some (Err e, d)
          | Some (Ok (seq, st, kept)) =>
              let d := put_state st (put_seq seq d) in
              if (kept =? length file)%nat then
                match io "seek_wal" with
                | Some e => Some (Err e, d)
                | None => Some (Ok (bool_decide (sub file 0 8 = walMagic1)), put_handle (Z.of_nat kept) true d)
                end
              else match io "truncate_wal" with
              | Some e => Some (Err e, d)
              | None =>
                  let d := put_wal (take kept file) d in
                  match first_fault io ["sync_wal"; "seek_wal"] with
                  | Some e => Some (Err e, d)
                  | None => Some (Ok (bool_decide (sub file 0 8 = walMagic1)), put_handle (Z.of_nat kept) true d)
                  end
              end
          end
      end
  end.

Definition closed_store (fs : files) : durable :=
  {| d_files := fs; d_state := empty_disk; d_seq := 0; d_walBytes := 0; d_open := false |}.

Definition openDurable (now : Z) (io : Faults) (fs : files) : option (res unit * durable) :=
  let d := closed_store fs in
  match io "read_snapshot" with
  | Some e => Some (Err e, d)
  | None =>
      match load_snapshot (f_snapshot fs) empty_disk with
      | Err e => Some (Err e, d)
      | Ok (seq, st, legacy, versioned) =>
          let d := put_seq seq (put_state (initializeMaps st) d) in
          match validateSnapshot (d_state d) with
          | Err e => Some (Err e, d)
          | Ok _ =>
              match open_wal io versioned d with
              | None => None
              | Some (Err e, d) => Some (Err e, d)
              | Some (Ok old, d) =>
                  match validateSnapshot (d_state d) with
                  | Err e => Some (Err e, d)
                  | Ok _ => if legacy || old then Some (checkpointLocked now io d) else Some (Ok tt, d)
                  end
              end
          end
      end
  end.
End WAL.

(** ** The loops end *)

Lemma drop_shorter (l : list Z) n : (0 < n)%nat -> (0 < length l)%nat -> (length (drop n l) < length l)%nat.
Proof. intros. rewrite length_drop. lia. Qed.

Section Loops.
Context `{JSON}.

(** Each round of the replay consumes a header, so one round per byte and one
    to see the end are enough. *)
Lemma replay_loop_ends fuel : forall rest offset expected seq st,
  (length rest < fuel)%nat -> is_Some (replay_loop fuel rest offset expected seq st).
Proof.
  induction fuel as [|fuel IH]; intros rest offset expected seq st Hf; [lia|]. cbn [replay_loop].
  destruct (length rest =? 0)%nat eqn:E0; [by eexists|]. apply Nat.eqb_neq in E0.
  repeat (case_match; try by eexists). apply IH. pose proof (drop_shorter rest (recordHeaderSize + Z.to_nat (Uint32 rest 4))).
  unfold recordHeaderSize in *. lia.
Qed.

(** More rounds change nothing. *)
Lemma replay_loop_more fuel : forall more rest offset expected seq st r,
  replay_loop fuel rest offset expected seq st = Some r -> replay_loop (fuel + more) rest offset expected seq st = Some r.
Proof.
  induction fuel as [|fuel IH]; intros more rest offset expected seq st r; [done|]. cbn [Nat.add replay_loop].
  repeat (case_match; try done). by apply IH.
Qed.

Lemma replay_loop_enough fuel fuel' rest offset expected seq st :
  (length rest < fuel)%nat -> (length rest < fuel')%nat ->
  replay_loop fuel rest offset expected seq st = replay_loop fuel' rest offset expected seq st.
Proof.
  intros H1 H2. destruct (replay_loop_ends fuel rest offset expected seq st H1) as [r Hr].
  destruct (replay_loop_ends fuel' rest offset expected seq st H2) as [r' Hr']. rewrite Hr, Hr'.
  apply (replay_loop_more _ fuel') in Hr. apply (replay_loop_more _ fuel) in Hr'. rewrite Nat.add_comm in Hr'. congruence.
Qed.

Lemma replay_ends file seq st : is_Some (replay file seq st).
Proof.
  unfold replay. repeat (case_match; try by eexists). apply replay_loop_ends. rewrite length_drop. lia.
Qed.

(** A write loop puts a prefix in the file, and all of it when it succeeds. *)
Lemma write_all_prefix writes fuel : forall k p r written,
  (length p <= fuel)%nat -> write_all fuel writes k p = (r, written) ->
  (exists j, written = take j p) /\ (r = Ok tt -> written = p).
Proof.
  induction fuel as [|fuel IH]; intros k p r written Hf; destruct p as [|x p]; cbn [write_all].
  - intros [= <- <-]. split; [by exists 0%nat|done].
  - simpl in Hf. lia.
  - intros [= <- <-]. split; [by exists 0%nat|done].
  - destruct (writes k) as [n [e|]].
    { intros [= <- <-]. split; [by eexists|done]. }
    destruct ((n <=? 0) || _) eqn:E.
    { intros [= <- <-]. split; [by eexists|done]. }
    bool_to_prop. destruct (write_all fuel writes _ _) as [r' more] eqn:Ew. intros [= <- <-].
    apply IH in Ew as [[j ->] Hok].
    + split.
      * exists (Z.to_nat n + j)%nat. rewrite <- take_take_drop. done.
      * intros Hr. rewrite (Hok Hr). apply take_drop.
    + pose proof (drop_shorter (x :: p) (Z.to_nat n) ltac:(lia) ltac:(simpl; lia)). lia.
Qed.
End Loops.

(** ** Records *)

(** The part of a record before its checksums. *)
Definition record_head (seq : Z) (p : list Z) : list Z := (recordMagic ++ PutUint32 (Z.of_nat (length p)) ++ PutUint64 seq)%list.
Definition record_crc (seq : Z) (p : list Z) : Z := crc_update (crc_update 0 (record_head seq p)) p.
Definition record_head_crc (seq : Z) (p : list Z) : Z := crc_checksum (record_head seq p ++ PutUint32 (record_crc seq p)).

Lemma recordMagic_eq : recordMagic = [69; 86; 48; 49].
Proof. reflexivity. Qed.
Lemma recordMagic_byte : Forall is_byte recordMagic.
Proof. rewrite recordMagic_eq. unfold is_byte. repeat constructor; lia. Qed.
Lemma record_head_byte seq p : Forall is_byte (record_head seq p).
Proof. unfold record_head. rewrite !Forall_app. auto using recordMagic_byte, PutUint32_byte, PutUint64_byte. Qed.
Lemma record_crc_word seq p : Forall is_byte p -> word32 (record_crc seq p).
Proof. intros. unfold record_crc. auto using record_head_byte. Qed.
Lemma record_head_crc_word seq p : word32 (record_head_crc seq p).
Proof. unfold record_head_crc, crc_checksum. apply crc_update_word; [done|]. rewrite Forall_app. auto using record_head_byte, PutUint32_byte. Qed.

(** A record laid out in its five header fields and the payload. *)
Lemma record_layout seq p : record_bytes seq p =
  (recordMagic ++ PutUint32 (Z.of_nat (length p)) ++ PutUint64 seq ++ PutUint32 (record_crc seq p)
   ++ PutUint32 (record_head_crc seq p) ++ p)%list.
Proof. unfold record_bytes, record_head_crc, record_crc, record_head. by rewrite <- !(assoc (++)%list). Qed.

Lemma record_length seq p : length (record_bytes seq p) = (24 + length p)%nat.
Proof. rewrite record_layout, !length_app, !PutUint32_length, PutUint64_length. reflexivity. Qed.

Lemma record_byte seq p : Forall is_byte p -> Forall is_byte (record_bytes seq p).
Proof. intros. rewrite record_layout, !Forall_app. auto 10 using recordMagic_byte, PutUint32_byte, PutUint64_byte. Qed.

(** What the readers find at each offset of a record. *)
Record fields (seq : Z) (p b : list Z) : Prop := {
  fd_magic : sub b 0 4 = recordMagic;
  fd_len : sub b 4 4 = PutUint32 (Z.of_nat (length p));
  fd_seq : sub b 8 8 = PutUint64 seq;
  fd_crc : sub b 16 4 = PutUint32 (record_crc seq p);
  fd_head_crc : sub b 20 4 = PutUint32 (record_head_crc seq p);
  fd_16 : sub b 0 16 = record_head seq p;
  fd_20 : sub b 0 20 = (record_head seq p ++ PutUint32 (record_crc seq p))%list
}.

Lemma record_fields seq p n tail : (24 <= n)%nat -> fields seq p (take n (record_bytes seq p ++ tail)).
Proof.
  intros Hn. rewrite record_layout. unfold record_head.
  destruct (list_of_4 (PutUint32 (Z.of_nat (length p))) (PutUint32_length _)) as (a1 & a2 & a3 & a4 & Ha).
  destruct (list_of_8 (PutUint64 seq) (PutUint64_length _)) as (s1 & s2 & s3 & s4 & s5 & s6 & s7 & s8 & Hs).
  destruct (list_of_4 (PutUint32 (record_crc seq p)) (PutUint32_length _)) as (c1 & c2 & c3 & c4 & Hc).
  destruct (list_of_4 (PutUint32 (record_head_crc seq p)) (PutUint32_length _)) as (h1 & h2 & h3 & h4 & Hh).
  do 24 (destruct n as [|n]; [lia|]). split; unfold record_head; rewrite ?Ha, ?Hs, ?Hc, ?Hh, recordMagic_eq; reflexivity.
Qed.

Section Fields.
Context (seq : Z) (p b : list Z) (F : fields seq p b).
Context (Hp : Forall is_byte p) (Hlen : Z.of_nat (length p) <= maxWALRecord) (Hseq : 0 <= seq < 2 ^ 64).

Lemma fields_magic : magic_at b = true.
Proof. apply bool_decide_eq_true, (fd_magic _ _ _ F). Qed.
Lemma fields_header : header_crc_ok b = true.
Proof.
  unfold header_crc_ok, Uint32. rewrite (fd_head_crc _ _ _ F), (fd_20 _ _ _ F), be_value_32 by apply record_head_crc_word.
  apply Z.eqb_refl.
Qed.
Lemma fields_len : Uint32 b 4 = Z.of_nat (length p).
Proof. unfold Uint32. rewrite (fd_len _ _ _ F). apply be_value_32. unfold word32, maxWALRecord in *. lia. Qed.
Lemma fields_seq : Uint64 b 8 = seq.
Proof. unfold Uint64. rewrite (fd_seq _ _ _ F). by apply be_value_64. Qed.
Lemma fields_payload : sub b 24 (length p) = p -> payload_crc_ok b = true.
Proof.
  intros Hsub. unfold payload_crc_ok. rewrite fields_len, Nat2Z.id, Hsub. unfold Uint32. rewrite (fd_16 _ _ _ F), (fd_crc _ _ _ F).
  rewrite be_value_32 by (by apply record_crc_word). apply Z.eqb_refl.
Qed.
End Fields.

Lemma record_payload seq p tail : sub (record_bytes seq p ++ tail) 24 (length p) = p.
Proof.
  rewrite record_layout. rewrite !(assoc (++)%list). rewrite <- (assoc (++)%list _ p tail). unfold sub.
  rewrite drop_app_length', take_app_length; [done|]. by rewrite !length_app, !PutUint32_length, PutUint64_length.
Qed.
Lemma record_rest seq p tail : drop (24 + length p) (record_bytes seq p ++ tail) = tail.
Proof. apply drop_app_length'. by rewrite record_length. Qed.

(** ** Replaying a complete record and a torn one *)

(** What is left of a torn record is misread when the search for a following
    record finds one among its bytes: the replay then takes the log for
    corrupt and refuses it. *)
Definition misread (recseq : Z) (tail : list Z) : bool := (recordHeaderSize <=? length tail)%nat && following recseq (drop 1 tail).

(** Only the bytes of its header can be misread.  A record is quiet when the
    magic does not occur at offsets 1 to 20 of it, that is, not in its length,
    sequence number and checksums. *)
Definition quiet (b : list Z) : bool := forallb (fun i => negb (bool_decide (sub b i 4 = recordMagic))) (seq 1 20).

Section Torn.
Implicit Types p b : list Z.

Lemma following_false n b : (forall i, (i + 24 <= length b)%nat -> record_at n (drop i b) = false) -> following n b = false.
Proof.
  induction b as [|x b IH]; intros Hi; [done|]. cbn [following]. destruct (length (x :: b) <? recordHeaderSize)%nat eqn:E; [done|].
  apply Nat.ltb_ge in E. unfold recordHeaderSize in E. rewrite (Hi 0%nat E : record_at n (x :: b) = false).
  apply IH. intros i Hl. apply (Hi (S i)). simpl. lia.
Qed.

(** Four bytes of text read as a length are more than any record holds. *)
Lemma text_too_long l : length l = 4%nat -> Forall (fun x => 0 < x < 256) l -> maxWALRecord < be_value l.
Proof.
  intros (a & b & c & d & ->)%list_of_4 Hl. rewrite !Forall_cons in Hl. unfold be_value, maxWALRecord. cbn [foldl]. lia.
Qed.

Lemma record_text recseq p i n : (24 <= i)%nat -> (i + n <= 24 + length p)%nat -> json_object p ->
  Forall (fun x => 0 < x < 256) (sub (record_bytes recseq p) i n).
Proof.
  intros Hi Hn [_ Hp]. pose proof (record_payload recseq p []) as Hsub. rewrite app_nil_r in Hsub.
  assert (E : sub (record_bytes recseq p) i n = sub p (i - 24) n).
  { rewrite <- Hsub at 2. apply list_eq. intros j. rewrite !sub_lookup. destruct (j <? n)%nat eqn:E; [|done]. apply Nat.ltb_lt in E.
    rewrite (proj2 (Nat.ltb_lt (i - 24 + j) (length p)) ltac:(lia)). f_equal. lia. }
  rewrite E. apply Forall_take, Forall_drop. exact Hp.
Qed.

Lemma record_brace recseq p : json_object p -> record_bytes recseq p !! 24%nat = Some 123.
Proof.
  intros [Hh _]. pose proof (record_payload recseq p []) as Hsub. rewrite app_nil_r in Hsub. destruct p as [|x p]; [done|].
  injection Hh as ->. assert (H0 : sub (record_bytes recseq (123 :: p)) 24 (length (123 :: p)) !! 0%nat = Some 123) by (by rewrite Hsub).
  rewrite sub_lookup in H0. exact H0.
Qed.

(** Inside a record nothing looks like a record that follows. *)
Lemma torn_alone recseq p n k i : json_object p -> quiet (record_bytes recseq p) = true ->
  (1 <= i)%nat -> (i + 24 <= k)%nat -> (k <= 24 + length p)%nat ->
  record_at n (drop i (take k (record_bytes recseq p))) = false.
Proof.
  intros Hp Hq Hi Hk Hkl. unfold record_at, magic_at, Uint32. rewrite !sub_drop, !sub_take by lia.
  rewrite Nat.add_0_r. destruct (decide (i <= 20)%nat) as [H20|H20].
  { unfold quiet in Hq. rewrite forallb_forall in Hq. specialize (Hq i ltac:(apply in_seq; lia)). apply negb_true_iff in Hq. by rewrite Hq. }
  destruct (decide (i < 24)%nat) as [H24|H24].
  { destruct (bool_decide (sub (record_bytes recseq p) i 4 = recordMagic)) eqn:E; [|done]. apply bool_decide_eq_true in E. exfalso.
    pose proof (record_brace recseq p Hp) as Hb.
    assert (Hm : sub (record_bytes recseq p) i 4 !! (24 - i)%nat = Some 123).
    { rewrite sub_lookup, (proj2 (Nat.ltb_lt (24 - i) 4) ltac:(lia)). replace (i + (24 - i))%nat with 24%nat by lia. exact Hb. }
    rewrite E, recordMagic_eq in Hm. do 21 (destruct i as [|i]; [lia|]). do 3 (destruct i as [|i]; [done|]). lia. }
  pose proof (text_too_long (sub (record_bytes recseq p) (i + 4) 4)) as Ht.
  rewrite sub_length in Ht by (rewrite record_length; lia). specialize (Ht eq_refl ltac:(apply record_text; [lia|lia|done])).
  apply Z.ltb_lt in Ht. rewrite Ht, orb_true_r. cbn [orb negb]. by rewrite andb_false_r.
Qed.
End Torn.

Section Replay.
Context `{!JSON} `{!JSONLaws}.

Lemma json_byte p : json_object p -> Forall is_byte p.
Proof. intros [_ Hp]. eapply Forall_impl; [exact Hp|]. unfold is_byte. lia. Qed.
Lemma json_nonempty p : json_object p -> (0 < length p)%nat.
Proof. intros [Hh _]. destruct p; [done|]. simpl. lia. Qed.

(** A complete record is applied when it is after the checkpoint. *)
Lemma replay_record fuel recseq p tail offset n st :
  json_object p -> Z.of_nat (length p) <= maxWALRecord -> 0 <= recseq < 2 ^ 64 ->
  replay_loop (S fuel) (record_bytes recseq p ++ tail) offset recseq n st =
  match replay_event recseq n p st with
  | Err e => Some (Err e)
  | Ok (n, st) => replay_loop fuel tail (offset + length (record_bytes recseq p)) ((recseq + 1) mod 2 ^ 64) n st
  end.
Proof.
  intros Hp Hl Hs. pose proof (record_fields recseq p (length (record_bytes recseq p ++ tail)) tail) as F.
  rewrite firstn_all, length_app, record_length in F. specialize (F ltac:(lia)).
  set (b := (record_bytes recseq p ++ tail)%list) in *. cbn [replay_loop].
  assert (Hlb : length b = (24 + length p + length tail)%nat) by (unfold b; rewrite length_app, record_length; done).
  rewrite (proj2 (Nat.eqb_neq (length b) 0) ltac:(lia)), (proj2 (Nat.ltb_ge (length b) recordHeaderSize) ltac:(unfold recordHeaderSize; lia)).
  rewrite (fields_magic _ _ _ F), (fields_header _ _ _ F), (fields_seq _ _ _ F Hs), (fields_len _ _ _ F Hl), Z.eqb_refl.
  pose proof (json_nonempty p Hp).
  rewrite (proj2 (Z.leb_gt (Z.of_nat (length p)) 0) ltac:(lia)), (proj2 (Z.ltb_ge maxWALRecord _) Hl).
  rewrite (proj2 (Z.ltb_ge (Z.of_nat (length b) - Z.of_nat recordHeaderSize) (Z.of_nat (length p))) ltac:(unfold recordHeaderSize; lia)).
  cbn [orb negb]. rewrite Nat2Z.id. unfold recordHeaderSize. change (sub b 24 (length p)) with (sub (record_bytes recseq p ++ tail) 24 (length p)).
  rewrite (fields_payload _ _ _ F (json_byte p Hp) Hl) by apply record_payload. cbn [negb].
  rewrite record_payload. unfold b. rewrite record_rest, record_length. done.
Qed.

(** A torn record ends the replay before it, unless its bytes are misread. *)
Lemma replay_torn fuel recseq p k offset n st :
  json_object p -> Z.of_nat (length p) <= maxWALRecord -> 0 <= recseq < 2 ^ 64 ->
  (k < length (record_bytes recseq p))%nat ->
  replay_loop (S fuel) (take k (record_bytes recseq p)) offset recseq n st =
  Some (if misread recseq (take k (record_bytes recseq p)) then Err (ErrMsg "interior WAL length corruption") else Ok (n, st, offset)).
Proof.
  intros Hp Hl Hs Hk. unfold misread. rewrite record_length in Hk. set (b := take k (record_bytes recseq p)).
  assert (Hlb : length b = k) by (unfold b; rewrite length_take, record_length; lia).
  cbn [replay_loop]. rewrite Hlb. destruct (k =? 0)%nat eqn:E0; [apply Nat.eqb_eq in E0; by rewrite E0|]. apply Nat.eqb_neq in E0.
  destruct (k <? recordHeaderSize)%nat eqn:E; [apply Nat.ltb_lt in E|apply Nat.ltb_ge in E]; unfold recordHeaderSize in E.
  { assert (Hm : take 4 b = take k recordMagic).
    { unfold b. rewrite record_layout, take_take. rewrite recordMagic_eq. do 4 (destruct k as [|k]; [done|]). destruct k; reflexivity. }
    rewrite (bool_decide_eq_true_2 _ Hm). by rewrite (proj2 (Nat.leb_gt recordHeaderSize k)) by (unfold recordHeaderSize; lia). }
  pose proof (record_fields recseq p k [] E) as F. rewrite app_nil_r in F. fold b in F.
  rewrite (fields_magic _ _ _ F), (fields_header _ _ _ F), (fields_seq _ _ _ F Hs), (fields_len _ _ _ F Hl), Z.eqb_refl.
  pose proof (json_nonempty p Hp).
  rewrite (proj2 (Z.leb_gt (Z.of_nat (length p)) 0) ltac:(lia)), (proj2 (Z.ltb_ge maxWALRecord _) Hl).
  rewrite (proj2 (Z.ltb_lt (Z.of_nat k - Z.of_nat recordHeaderSize) (Z.of_nat (length p))) ltac:(unfold recordHeaderSize; lia)).
  cbn [orb negb]. unfold hasFollowingRecord.
  rewrite (proj2 (Z.ltb_ge (walCheckpointBytes + maxWALRecord) _)) by (rewrite length_drop, Hlb; unfold walCheckpointBytes, maxWALRecord in *; lia).
  rewrite (proj2 (Nat.leb_le recordHeaderSize k) E). cbn [andb]. by destruct (following _ _).
Qed.

(** A record whose header does not contain the magic again is not misread. *)
Lemma quiet_not_misread recseq p k : json_object p -> quiet (record_bytes recseq p) = true -> (k <= length (record_bytes recseq p))%nat ->
  misread recseq (take k (record_bytes recseq p)) = false.
Proof.
  intros Hp Hq Hk. rewrite record_length in Hk. unfold misread. apply andb_false_iff. right. apply following_false. intros i Hi.
  rewrite length_drop, length_take, record_length in Hi. rewrite drop_drop. apply torn_alone; [done|done|lia|lia|lia].
Qed.
End Replay.
