(* ===== verification/AgentFiles.v ===== *)
(** * The files of the agent hold its checkpoint and its events

    AgentWAL has the bytes and AgentCredits the ledger over a checkpoint and a
    list of events.  Here the first implements the second: what a snapshot
    and a log file hold ([holds]), that opening them gives that ledger, and
    that appending and checkpointing keep it through every failure, torn
    writes included. *)

From S2P Require Import Prelude Tx GoStrings Calendar Rational Digest Schema Quota AgentState AgentCredits Bytes AgentWAL.
From stdpp Require Import base gmap strings list.
From Stdlib Require Import Ascii String.
Local Open Scope string_scope.
Local Open Scope Z_scope.
Local Abbreviation length := List.length.

Section Files.
Context `{!JSON} `{!JSONLaws}.

(** ** The bytes of a run of events *)

Fixpoint log_bytes (n : Z) (events : list stateEvent) : option (list Z) :=
  match events with
  | [] => Some []
  | e :: events => match encodeRecord n e, log_bytes (n + 1) events with
                   | Ok b, Some rest => Some (b ++ rest)%list
                   | _, _ => None
                   end
  end.

Lemma encodeRecord_spec n e b : encodeRecord n e = Ok b ->
  exists p, marshal_event e = Some p /\ Z.of_nat (length p) <= maxWALRecord /\ b = record_bytes n p.
Proof.
  unfold encodeRecord. destruct (marshal_event e) as [p|]; [|done]. destruct (maxWALRecord <? _) eqn:E; [done|].
  bool_to_prop. intros [= <-]. by exists p.
Qed.

Lemma log_bytes_app a n b la lb : log_bytes n a = Some la -> log_bytes (n + Z.of_nat (length a)) b = Some lb ->
  log_bytes n (a ++ b) = Some (la ++ lb)%list.
Proof.
  revert n la. induction a as [|e a IH]; intros n la; cbn [log_bytes app List.length].
  { intros [= <-]. by rewrite Z.add_0_r. }
  destruct (encodeRecord n e) as [r|]; [|done]. destruct (log_bytes (n + 1) a) as [l|] eqn:E; [|done]. intros [= <-] Hb.
  rewrite (IH _ _ E); [by rewrite <- (assoc (++)%list)|]. rewrite <- Hb. f_equal. lia.
Qed.

Lemma log_bytes_app_inv a n b l : log_bytes n (a ++ b) = Some l ->
  exists la lb, log_bytes n a = Some la /\ log_bytes (n + Z.of_nat (length a)) b = Some lb /\ l = (la ++ lb)%list.
Proof.
  revert n l. induction a as [|e a IH]; intros n l; cbn [log_bytes app List.length].
  { intros Hl. exists [], l. by rewrite Z.add_0_r. }
  destruct (encodeRecord n e) as [r|]; [|done]. destruct (log_bytes (n + 1) (a ++ b)) as [l'|] eqn:E; [|done]. intros [= <-].
  destruct (IH _ _ E) as (la & lb & Ha & Hb & ->). exists (r ++ la)%list, lb. rewrite Ha. split; [done|]. split; [|by rewrite <- (assoc (++)%list)].
  rewrite <- Hb. f_equal. lia.
Qed.

Lemma log_bytes_byte events n b : log_bytes n events = Some b -> Forall is_byte b.
Proof.
  revert n b. induction events as [|e events IH]; intros n b; cbn [log_bytes]; [by intros [= <-]|].
  destruct (encodeRecord n e) as [r|] eqn:Er; [|done]. destruct (log_bytes _ events) as [l|] eqn:El; [|done]. intros [= <-].
  apply encodeRecord_spec in Er as (p & Hp & _ & ->). apply Forall_app. split; [|by eapply IH].
  apply record_byte, json_byte. by apply event_text in Hp as [? _].
Qed.

(** The batch that [appendEvents] encodes; an overflow of the sequence number
    is caught. *)
Lemma encode_batch_log events seq i b : 0 <= seq < 2 ^ 64 -> seq + Z.of_nat i < 2 ^ 64 ->
  encode_batch seq i events = Ok b ->
  log_bytes (seq + Z.of_nat i + 1) events = Some b /\ seq + Z.of_nat i + Z.of_nat (length events) < 2 ^ 64.
Proof.
  intros Hs. revert i b. induction events as [|e events IH]; intros i b Hi; cbn [encode_batch log_bytes List.length].
  { intros [= <-]. split; [done|lia]. }
  set (n := (seq + Z.of_nat i + 1) mod 2 ^ 64). destruct (n <=? seq) eqn:E; [done|]. bool_to_prop.
  assert (Hn : n = seq + Z.of_nat i + 1 /\ seq + Z.of_nat i + 1 < 2 ^ 64).
  { destruct (decide (seq + Z.of_nat i + 1 < 2 ^ 64)) as [Hlt|Hlt].
    - split; [|done]. unfold n. by rewrite Z.mod_small by lia.
    - assert (n = 0); [|lia]. unfold n. replace (seq + Z.of_nat i + 1) with (2 ^ 64) by lia. by rewrite Z.mod_same by lia. }
  destruct Hn as [-> Hn]. destruct (encodeRecord _ e) as [r|]; [|done].
  destruct (encode_batch seq (Datatypes.S i) events) as [l|] eqn:El; [|done]. intros [= <-].
  apply IH in El as [Hl Hlen]; [|lia]. replace (seq + Z.of_nat (Datatypes.S i) + 1) with (seq + Z.of_nat i + 1 + 1) in Hl by lia.
  rewrite Hl. split; [done|lia].
Qed.

(** ** Replaying a log *)

Lemma replay_event_apply n seq e p st : marshal_event e = Some p ->
  replay_event n seq p st =
  if seq <? n then match applyEvent e st with (Ok _, st) => Ok (n, st) | (Err _, _) => Err (ErrMsg "WAL replay") end else Ok (seq, st).
Proof. intros [_ Hu]%event_text. unfold replay_event. rewrite Hu. by destruct (applyEvent e st) as [[]]. Qed.

(** The events after sequence number [seq] of a log that starts at [n] are
    applied, in order. *)
Lemma replay_log events : forall n b tail fuel offset seq st,
  log_bytes n events = Some b -> 0 <= n -> n + Z.of_nat (length events) < 2 ^ 64 -> n <= seq + 1 ->
  replay_loop (length events + fuel) (b ++ tail) offset n seq st =
  match applyEvents (drop (Z.to_nat (seq + 1 - n)) events) st with
  | (Err _, _) => Some (Err (ErrMsg "WAL replay"))
  | (Ok _, st) => replay_loop fuel tail (offset + length b) (n + Z.of_nat (length events))
                    (Z.max seq (n + Z.of_nat (length events) - 1)) st
  end.
Proof.
  induction events as [|e events IH]; intros n b tail fuel offset seq st Hb Hn Hlen Hseq.
  { injection Hb as <-. rewrite drop_nil. cbn [applyEvents List.length]. rewrite !Nat.add_0_r, Z.add_0_r, Z.max_l by lia. done. }
  cbn [log_bytes] in Hb. cbn [List.length] in Hlen |- *. destruct (encodeRecord n e) as [r|] eqn:Er; [|done].
  destruct (log_bytes (n + 1) events) as [l|] eqn:El; [|done]. injection Hb as <-.
  apply encodeRecord_spec in Er as (p & Hp & Hpl & ->). rewrite <- (assoc (++)%list). cbn [Nat.add].
  rewrite replay_record; [|by apply event_text in Hp as [? _]|done|lia]. rewrite (replay_event_apply _ _ _ _ _ Hp).
  rewrite (Z.mod_small (n + 1)) by lia. destruct (seq <? n) eqn:E; bool_to_prop.
  - replace (Z.to_nat (seq + 1 - n)) with 0%nat by lia. rewrite drop_0. cbn [applyEvents].
    destruct (applyEvent e st) as [[[]|err] st1]; [|done].
    rewrite (IH _ _ _ _ _ _ _ El) by lia. replace (Z.to_nat (n + 1 - (n + 1))) with 0%nat by lia. rewrite drop_0.
    destruct (applyEvents events st1) as [[[]|err] st2]; [|done]. f_equal; rewrite ?length_app; lia.
  - replace (Z.to_nat (seq + 1 - n)) with (Datatypes.S (Z.to_nat (seq + 1 - (n + 1)))) by lia. cbn [drop].
    rewrite (IH _ _ _ _ _ _ _ El) by lia. destruct (applyEvents _ st) as [[[]|err] st2]; [|done]. f_equal; rewrite ?length_app; lia.
Qed.

(** What a crash leaves of the record with sequence number [n]: nothing, or
    some of its bytes. *)
Definition torn (n : Z) (tail : list Z) : Prop :=
  tail = [] \/ exists e p k, marshal_event e = Some p /\ Z.of_nat (length p) <= maxWALRecord /\
    (k < length (record_bytes n p))%nat /\ tail = take k (record_bytes n p).

Lemma replay_tail fuel n tail offset seq st : torn n tail -> 0 <= n < 2 ^ 64 ->
  replay_loop (Datatypes.S fuel) tail offset n seq st = Some (if misread n tail then Err (ErrMsg "interior WAL length corruption") else Ok (seq, st, offset)).
Proof.
  intros [->|(e & p & k & Hp & Hl & Hk & ->)] Hn; [done|]. apply replay_torn; try done. by apply event_text in Hp as [? _].
Qed.

Lemma walHeader_fields base b : 0 <= base < 2 ^ 64 ->
  length (walHeader base) = walHeaderSize /\
  sub (walHeader base ++ b) 0 8 = walMagic /\ Uint64 (walHeader base ++ b) 8 = base /\
  Uint32 (walHeader base ++ b) 16 = crc_checksum (sub (walHeader base ++ b) 0 16) /\ drop walHeaderSize (walHeader base ++ b) = b.
Proof.
  intros Hbase. unfold walHeader. set (m := (walMagic ++ PutUint64 base)%list).
  assert (Hm : word32 (crc_checksum m)).
  { apply crc_update_word; [done|]. apply Forall_app. split; [|apply PutUint64_byte]. unfold is_byte. repeat constructor; lia. }
  pose proof (be_value_32 _ Hm) as Hv. pose proof (be_value_64 _ Hbase) as Hw. unfold Uint64, Uint32.
  destruct (list_of_4 (PutUint32 (crc_checksum m)) (PutUint32_length _)) as (c1 & c2 & c3 & c4 & Hc). rewrite Hc in Hv |- *.
  unfold m in *. destruct (list_of_8 (PutUint64 base) (PutUint64_length _)) as (s1 & s2 & s3 & s4 & s5 & s6 & s7 & s8 & Hs).
  rewrite Hs in *. split; [done|]. split; [reflexivity|]. split; [exact Hw|]. split; [exact Hv|reflexivity].
Qed.

Lemma replay_file base events b tail seq st :
  0 <= base -> base <= seq -> base + Z.of_nat (length events) + 1 < 2 ^ 64 -> log_bytes (base + 1) events = Some b ->
  torn (base + Z.of_nat (length events) + 1) tail ->
  replay (walHeader base ++ b ++ tail) seq st =
  match applyEvents (drop (Z.to_nat (seq - base)) events) st with
  | (Err _, _) => Some (Err (ErrMsg "WAL replay"))
  | (Ok _, st) => Some (if misread (base + Z.of_nat (length events) + 1) tail then Err (ErrMsg "interior WAL length corruption")
                        else Ok (Z.max seq (base + Z.of_nat (length events)), st, length (walHeader base ++ b)))
  end.
Proof.
  intros Hb0 Hseq Hlen Hb Ht. destruct (walHeader_fields base (b ++ tail) ltac:(lia)) as (Hw0 & Hw1 & Hw2 & Hw3 & Hw4).
  unfold replay. rewrite Hw1, Hw2, Hw3, Hw4, Z.eqb_refl, length_app, Hw0.
  rewrite (proj2 (Nat.ltb_ge _ _)) by lia. rewrite bool_decide_eq_true_2 by done. cbn [orb negb].
  rewrite (proj2 (Z.ltb_ge seq base)) by lia. rewrite (Z.mod_small (base + 1)) by lia.
  rewrite (replay_loop_enough _ (length events + Datatypes.S (length (b ++ tail)))%nat) by lia.
  rewrite (replay_log events _ _ _ _ _ _ _ Hb) by lia. replace (seq + 1 - (base + 1)) with (seq - base) by lia.
  destruct (applyEvents _ st) as [[[]|err] st']; [|done]. rewrite replay_tail; [|by replace (base + 1 + Z.of_nat (length events)) with (base + Z.of_nat (length events) + 1) by lia|lia].
  replace (base + 1 + Z.of_nat (length events)) with (base + Z.of_nat (length events) + 1) by lia. destruct (misread _ _); [done|].
  rewrite length_app, Hw0. do 4 f_equal. lia.
Qed.

(** ** What the files hold

    The checkpoint [c] at sequence number [base + length pre], and a log whose
    first [length pre] records the checkpoint already contains (the log is
    replaced after the checkpoint is in place), then the events [log].  [n]
    is the last sequence number, [tail] what a crash left after it. *)
Record holds (fs : files) (c : diskState) (log : list stateEvent) (n : Z) (tail : list Z) : Prop := {
  hd_seq : 0 <= n /\ n + 1 < 2 ^ 64;
  hd_files : exists base pre b versioned,
    load_snapshot (f_snapshot fs) empty_disk = Ok (base + Z.of_nat (length pre), c, false, versioned) /\
    f_wal fs = Some (walHeader base ++ b ++ tail)%list /\ log_bytes (base + 1) (pre ++ log) = Some b /\
    0 <= base /\ n = base + Z.of_nat (length (pre ++ log));
  hd_tail : torn (n + 1) tail
}.

(** A ledger opened on a checkpoint and a list of events. *)
Definition open_events (c : diskState) (log : list stateEvent) : res diskState :=
  match validateSnapshot c with
  | Err e => Err e
  | Ok _ => match applyEvents log c with
            | (Err _, _) => Err (ErrMsg "WAL replay")
            | (Ok _, st) => match validateSnapshot st with Err e => Err e | Ok _ => Ok st end
            end
  end.
Definition no_faults : Faults := fun _ => None.

Lemma not_old_wal base b : 0 <= base < 2 ^ 64 -> bool_decide (sub (walHeader base ++ b) 0 8 = walMagic1) = false.
Proof. intros (_ & -> & _)%(fun h => walHeader_fields base b h). reflexivity. Qed.

(** Opening the files is opening the ledger; the torn tail is gone. *)
Lemma open_holds now fs c log n tail : holds fs c log n tail -> misread (n + 1) tail = false ->
  exists d, openDurable now no_faults fs =
    Some (match open_events (initializeMaps c) log with Ok _ => Ok tt | Err e => Err e end, d) /\
    forall st, open_events (initializeMaps c) log = Ok st ->
      d_state d = st /\ d_seq d = n /\ d_open d = true /\ holds (d_files d) c log n [] /\
      d_walBytes d = Z.of_nat (length (wal_of d)).
Proof.
  intros [Hn (base & pre & b & versioned & Hsnap & Hwal & Hb & Hbase & Hnn) Ht] Hmis.
  unfold openDurable, open_events. change (no_faults "read_snapshot") with (@None error). cbv iota. rewrite Hsnap.
  cbn [closed_store d_state d_seq put_seq put_state]. destruct (validateSnapshot (initializeMaps c)) as [[]|e] eqn:Ev; [|by eexists].
  unfold open_wal. cbn [d_files closed_store put_seq put_state]. rewrite Hwal. cbn [first_fault foldr no_faults d_seq d_state put_handle put_seq put_state closed_store].
  rewrite (replay_file base (pre ++ log) b tail); [|lia|lia|lia|done|by rewrite Hnn in Ht].
  pose proof Hnn as Hnn0. rewrite length_app in Hnn. replace (Z.to_nat (base + Z.of_nat (length pre) - base)) with (length pre) by lia.
  rewrite drop_app_length. destruct (applyEvents log (initializeMaps c)) as [[[]|e] st] eqn:Ea; [|by eexists].
  rewrite <- Hnn0, Hmis. rewrite not_old_wal by lia. replace (Z.max (base + Z.of_nat (length pre)) n) with n by lia.
  assert (Htail : take (length (walHeader base ++ b)) (walHeader base ++ b ++ tail) = (walHeader base ++ b ++ [])%list).
  { by rewrite (assoc (++)%list), take_app_length, app_nil_r. }
  assert (Hh : forall w, w = (walHeader base ++ b ++ [])%list -> holds {| f_snapshot := f_snapshot fs; f_wal := Some w |} c log n []).
  { intros w ->. split; [done| |by left]. exists base, pre, b, versioned. cbn [f_snapshot f_wal].
    split; [exact Hsnap|]. split; [reflexivity|]. split; [exact Hb|]. split; [exact Hbase|]. rewrite length_app. lia. }
  set (w := (walHeader base ++ b ++ tail)%list) in *.
  destruct (length (walHeader base ++ b) =? length w)%nat eqn:El; cbn [d_state put_handle put_state put_seq put_wal];
    (destruct (validateSnapshot st) as [[]|e]; cbn [orb]; (eexists; split; [reflexivity|]); intros st' Hst; [injection Hst as <-|discriminate Hst]);
    cbn [d_state put_handle put_state put_seq put_wal d_files d_seq d_open d_walBytes f_snapshot closed_store];
    do 3 (split; [reflexivity|]).
  - apply Nat.eqb_eq in El. assert (tail = []) as ->.
    { unfold w in El. rewrite !length_app in El. destruct tail; [done|]. cbn [List.length] in El. lia. }
    unfold wal_of. cbn [d_files put_handle put_state put_seq closed_store]. rewrite Hwal. cbn [default]. split; [|exact (f_equal Z.of_nat El)].
    destruct fs as [fsn fw]. cbn [f_snapshot f_wal] in *. rewrite Hwal. by apply Hh.
  - unfold wal_of. cbn [d_files put_handle put_wal f_wal default]. split; [by apply Hh|]. rewrite Htail, app_nil_r. reflexivity.
Qed.
(** Files whose torn tail is misread are refused. *)
Lemma open_misread now fs c log n tail : holds fs c log n tail -> misread (n + 1) tail = true ->
  exists e d, openDurable now no_faults fs = Some (Err e, d).
Proof.
  intros [Hn (base & pre & b & versioned & Hsnap & Hwal & Hb & Hbase & Hnn) Ht] Hmis.
  unfold openDurable. change (no_faults "read_snapshot") with (@None error). cbv iota. rewrite Hsnap.
  cbn [closed_store d_state d_seq put_seq put_state]. destruct (validateSnapshot (initializeMaps c)) as [[]|e]; [|by eexists _, _].
  unfold open_wal. cbn [d_files closed_store put_seq put_state]. rewrite Hwal. cbn [first_fault foldr no_faults d_seq d_state put_handle put_seq put_state closed_store].
  rewrite (replay_file base (pre ++ log) b tail); [|lia|lia|lia|done|by rewrite Hnn in Ht].
  destruct (applyEvents _ _) as [[[]|e] st]; [|by eexists _, _]. rewrite <- Hnn, Hmis. by eexists _, _.
Qed.

(** ** Appending *)

(** No record of the batch has the magic inside its own header. *)
Fixpoint quiet_log (n : Z) (events : list stateEvent) : bool :=
  match events with
  | [] => true
  | e :: events => match encodeRecord n e with Ok r => quiet r | Err _ => true end && quiet_log (n + 1) events
  end.

(** A prefix of the bytes of a run of events: some complete records and a
    torn one. *)
Lemma torn_batch events : forall n b k, log_bytes n events = Some b ->
  exists m bm tail, (m <= length events)%nat /\ log_bytes n (take m events) = Some bm /\ take k b = (bm ++ tail)%list /\
    torn (n + Z.of_nat m) tail /\ ((length b <= k)%nat -> m = length events /\ tail = []) /\
    (quiet_log n events = true -> misread (n + Z.of_nat m) tail = false).
Proof.
  induction events as [|e events IH]; intros n b k Hb.
  { injection Hb as <-. exists 0%nat, [], []. rewrite !take_nil. split; [lia|]. split; [done|]. split; [done|]. split; [by left|done]. }
  cbn [log_bytes quiet_log] in Hb |- *. destruct (encodeRecord n e) as [r|] eqn:Er; [|done].
  destruct (log_bytes (n + 1) events) as [l|] eqn:El; [|done]. injection Hb as <-.
  pose proof (encodeRecord_spec _ _ _ Er) as (p & Hp & Hpl & ->).
  destruct (decide (k < length (record_bytes n p))%nat) as [Hk|Hk].
  - exists 0%nat, [], (take k (record_bytes n p)). rewrite take_app_le by lia. split; [lia|]. split; [done|]. split; [done|].
    rewrite Z.add_0_r. split; [right; by exists e, p, k|]. split; [rewrite length_app; lia|].
    intros [Hq _]%andb_prop. apply quiet_not_misread; [by apply event_text in Hp as [? _]|done|lia].
  - destruct (IH (n + 1) l (k - length (record_bytes n p))%nat El) as (m & bm & tail & Hm & Hbm & Ht & Htorn & Hall & Hquiet).
    exists (Datatypes.S m), (record_bytes n p ++ bm)%list, tail. cbn [take log_bytes List.length]. rewrite Er, Hbm.
    split; [lia|]. split; [done|]. split; [rewrite take_app_ge by lia; rewrite Ht; by rewrite (assoc (++)%list)|].
    replace (n + Z.of_nat (Datatypes.S m)) with (n + 1 + Z.of_nat m) by lia. split; [done|].
    split; [rewrite length_app; intros Hle; by destruct Hall as [-> ->]; [lia|]|]. intros [_ Hq]%andb_prop. by apply Hquiet.
Qed.

(** Whatever prefix of a batch reaches the file, the file holds a prefix of
    its events. *)
Lemma append_prefix fs c log n events b k : holds fs c log n [] ->
  log_bytes (n + 1) events = Some b -> n + Z.of_nat (length events) + 1 < 2 ^ 64 ->
  exists m bm tail, (m <= length events)%nat /\ log_bytes (n + 1) (take m events) = Some bm /\ take k b = (bm ++ tail)%list /\
    holds {| f_snapshot := f_snapshot fs; f_wal := Some (default [] (f_wal fs) ++ take k b)%list |} c (log ++ take m events)
      (n + Z.of_nat m) tail /\
    ((length b <= k)%nat -> m = length events /\ tail = []) /\
    (quiet_log (n + 1) events = true -> misread (n + Z.of_nat m + 1) tail = false).
Proof.
  intros [Hn (base & pre & bl & versioned & Hsnap & Hwal & Hb & Hbase & Hnn) _] He Hlen.
  destruct (torn_batch events _ _ k He) as (m & bm & tail & Hm & Hbm & Ht & Htorn & Hall & Hquiet).
  exists m, bm, tail. do 3 (split; [done|]). split; [|split; [done|by replace (n + Z.of_nat m + 1) with (n + 1 + Z.of_nat m) by lia]]. assert (Hlm : length (take m events) = m) by (rewrite length_take; lia).
  split; [lia| |].
  - exists base, pre, (bl ++ bm)%list, versioned. cbn [f_snapshot f_wal]. split; [exact Hsnap|].
    rewrite Hwal, Ht. cbn [default]. rewrite app_nil_r, <- !(assoc (++)%list). split; [reflexivity|].
    split; [|split; [exact Hbase|rewrite (assoc (++)%list), length_app, Hlm; lia]].
    rewrite (assoc (++)%list). apply log_bytes_app; [done|]. by replace (base + 1 + Z.of_nat (length (pre ++ log))) with (n + 1) by lia.
  - by replace (n + Z.of_nat m + 1) with (n + 1 + Z.of_nat m) by lia.
Qed.

Lemma holds_wal fs c log n tail : holds fs c log n tail -> exists w, f_wal fs = Some w.
Proof. intros [_ (base & pre & b & v & _ & -> & _) _]. by eexists. Qed.

(** [appendEvents] under every fault: some of the events are in the file,
    and all of them when it succeeds. *)
Lemma append_holds io writes events d r d' c log :
  holds (d_files d) c log (d_seq d) [] -> d_seq d + Z.of_nat (length events) + 1 < 2 ^ 64 ->
  appendEvents io writes events d = (r, d') ->
  exists m tail, (m <= length events)%nat /\ holds (d_files d') c (log ++ take m events) (d_seq d + Z.of_nat m) tail /\
    (r = Ok tt -> m = length events /\ tail = [] /\ d_seq d' = d_seq d + Z.of_nat m).
Proof.
  intros Hh Hlen Ha. pose proof (hd_seq _ _ _ _ _ Hh) as Hn. unfold appendEvents in Ha.
  assert (Hsame : holds (d_files d) c (log ++ take 0 events) (d_seq d + Z.of_nat 0) []) by (rewrite take_0, app_nil_r, Z.add_0_r; done).
  destruct (encode_batch (d_seq d) 0 events) as [b|e] eqn:Eb.
  2: { injection Ha as <- <-. exists 0%nat, []. split; [lia|]. by split. }
  apply encode_batch_log in Eb as [Eb _]; [|lia|lia]. cbn [Z.of_nat] in Eb. rewrite Z.add_0_r in Eb.
  destruct (io "append_before") as [e|].
  { injection Ha as <- <-. exists 0%nat, []. split; [lia|]. by split. }
  destruct (write_all (length b) writes 0 b) as [r1 written] eqn:Ew.
  apply write_all_prefix in Ew as [[k ->] Hok]; [|done].
  destruct (append_prefix _ _ _ _ _ _ k Hh Eb Hlen) as (m & bm & tail & Hm & _ & _ & Hh' & Hall & _).
  change (holds (d_files (put_wal (wal_of d ++ take k b) d)) c (log ++ take m events) (d_seq d + Z.of_nat m) tail) in Hh'.
  destruct r1 as [[]|e].
  2: { injection Ha as <- <-. exists m, tail. by split. }
  assert (Hk : (length b <= k)%nat).
  { specialize (Hok eq_refl). apply (f_equal List.length) in Hok. rewrite length_take in Hok. lia. }
  destruct (Hall Hk) as [Hme Hte]. destruct (first_fault io _) as [e|].
  - injection Ha as <- <-. exists m, tail. by split.
  - injection Ha as <- <-. exists m, tail. split; [done|]. split; [exact Hh'|]. intros _. split; [done|]. split; [done|].
    cbn [d_seq put_handle put_seq]. rewrite Z.mod_small by (cbn [d_seq put_wal]; lia). cbn [d_seq put_wal]. lia.
Qed.
(** ** Checkpoints *)

Lemma snapshot_loads st p n b : marshal_state st = Some p -> Z.of_nat (length p) <= maxSnapshot - 1024 -> 0 <= n < 2 ^ 64 ->
  marshal_checkpoint {| Version := walVersion; Sequence := n; State := p; CRC := checksum n p |} = Some b ->
  load_snapshot (Some b) empty_disk = Ok (n, st, false, true).
Proof.
  intros [Hp Hu]%state_text Hl Hn Hb.
  assert (Hc : word32 (checksum n p)) by (unfold checksum; apply crc_update_word; [apply crc_update_word; [done|apply PutUint64_byte]|done]).
  apply checkpoint_text in Hb as [Hub Hlb]; [|done|done|done]. unfold load_snapshot. cbn [Sequence State CRC] in *.
  rewrite (proj2 (Z.ltb_ge maxSnapshot (Z.of_nat (length b)))) by lia. rewrite Hub. cbn [Version Sequence State CRC]. unfold walVersion.
  rewrite !Z.eqb_refl. change (2 =? 0) with false. change (2 =? 1) with false. cbn [negb andb orb]. cbv iota. by rewrite Hu.
Qed.

Lemma log_bytes_nil n : log_bytes n [] = Some [].
Proof. reflexivity. Qed.

Lemma holds_fresh f st n : 0 <= n /\ n + 1 < 2 ^ 64 -> load_snapshot f empty_disk = Ok (n, st, false, true) ->
  holds {| f_snapshot := f; f_wal := Some (walHeader n) |} st [] n [].
Proof.
  intros Hn Hs. split; [done| |by left]. exists n, [], [], true. cbn [f_snapshot f_wal app List.length]. rewrite Z.add_0_r, app_nil_r.
  split; [exact Hs|]. split; [reflexivity|]. split; [reflexivity|]. lia.
Qed.

(** A new checkpoint over the old log: all its events are in the checkpoint. *)
Lemma holds_covered f w c log st n : holds {| f_snapshot := f; f_wal := w |} c log n [] ->
  forall f', load_snapshot f' empty_disk = Ok (n, st, false, true) -> holds {| f_snapshot := f'; f_wal := w |} st [] n [].
Proof.
  intros [Hn (base & pre & b & versioned & Hsnap & Hwal & Hb & Hbase & Hnn) _] f' Hs. split; [done| |by left].
  exists base, (pre ++ log)%list, b, true. cbn [f_snapshot f_wal] in *. rewrite (app_nil_r (pre ++ log)), <- Hnn.
  split; [exact Hs|]. split; [exact Hwal|]. split; [exact Hb|]. by split.
Qed.

(** The rotation of the log, under every fault: the old log or the new. *)
Lemma replaceWAL_files io base d r d' : replaceWAL io base d = (r, d') ->
  d_state d' = d_state d /\ d_seq d' = d_seq d /\ f_snapshot (d_files d') = f_snapshot (d_files d) /\
  (f_wal (d_files d') = f_wal (d_files d) /\ r <> Ok tt \/
   f_wal (d_files d') = Some (walHeader base)).
Proof.
  unfold replaceWAL. intros Hr.
  repeat case_match; injection Hr as <- <-; cbn [d_state d_seq d_files f_snapshot f_wal put_handle put_wal]; auto.
  all: split; [done|]; split; [done|]; split; [done|]; by left.
Qed.

(** [checkpointLocked] under every fault. *)
Lemma checkpoint_holds now io d r d' c log :
  holds (d_files d) c log (d_seq d) [] -> AgentWAL.checkpointLocked now io d = (r, d') ->
  d_state d' = pruneLeaseHistory now (d_state d) /\ d_seq d' = d_seq d /\
  (holds (d_files d') c log (d_seq d) [] /\ r <> Ok tt \/
   holds (d_files d') (pruneLeaseHistory now (d_state d)) [] (d_seq d) [] /\
   (r = Ok tt -> f_wal (d_files d') = Some (walHeader (d_seq d)))).
Proof.
  intros Hh Hc. pose proof (hd_seq _ _ _ _ _ Hh) as Hn. unfold AgentWAL.checkpointLocked in Hc.
  cbn [d_state put_state d_seq] in Hc. set (st := pruneLeaseHistory now (d_state d)) in *.
  assert (Hsame : forall e, d_state (put_state st d) = st /\ d_seq (put_state st d) = d_seq d /\
    (holds (d_files (put_state st d)) c log (d_seq d) [] /\ Err e <> Ok tt \/
     holds (d_files (put_state st d)) st [] (d_seq d) [] /\ (Err e = Ok tt -> f_wal (d_files (put_state st d)) = Some (walHeader (d_seq d))))).
  { intros e. split; [reflexivity|]. split; [reflexivity|]. left. by split. }
  destruct (marshal_state st) as [p|] eqn:Ep; [|injection Hc as <- <-; apply Hsame].
  destruct (maxSnapshot - 1024 <? _) eqn:El; [injection Hc as <- <-; apply Hsame|]. bool_to_prop.
  destruct (marshal_checkpoint _) as [b|] eqn:Eb; [|injection Hc as <- <-; apply Hsame].
  destruct (first_fault io _) as [e|]; [injection Hc as <- <-; apply Hsame|]. clear Hsame.
  apply (snapshot_loads st) in Eb; [|done|done|lia].
  destruct (d_files d) as [f w] eqn:Ef. pose proof (holds_covered _ _ _ _ _ _ Hh _ Eb) as Hnew.
  destruct (first_fault io _) as [e|].
  { injection Hc as <- <-. cbn [d_state d_seq d_files put_snapshot put_state f_wal]. rewrite Ef. split; [done|]. split; [done|]. right. by split. }
  apply replaceWAL_files in Hc as (Hs & Hq & Hsnap & Hw). cbn [d_state d_seq d_files put_snapshot put_state f_snapshot f_wal] in *.
  rewrite Ef in Hw. cbn [f_wal] in Hw. split; [done|]. split; [done|]. right. destruct (d_files d') as [f' w']. cbn [f_snapshot f_wal] in *.
  destruct Hw as [[-> Hr]| ->]; rewrite Hsnap; [by split|]. split; [|done]. by apply holds_fresh.
Qed.
(** ** A changed byte is noticed *)

Lemma insert_changes (l : list Z) i x v : l !! i = Some v -> x <> v -> <[i := x]> l <> l.
Proof. intros Hi Hx E. apply (f_equal (.!! i)) in E. rewrite list_lookup_insert_eq in E by (by eapply lookup_lt_Some). congruence. Qed.

(** A checksum over a slice notices a change in the slice. *)
Lemma crc_sub_changes c l from n i x v : word32 c -> Forall is_byte (sub l from n) -> is_byte x ->
  (from <= i < from + n)%nat -> l !! i = Some v -> x <> v ->
  crc_update c (sub (<[i := x]> l) from n) <> crc_update c (sub l from n).
Proof.
  intros Hc Hb Hx Hi Hv Hne. rewrite sub_insert by done. eapply crc_changes; try done.
  rewrite sub_lookup, (proj2 (Nat.ltb_lt _ _)) by lia. by replace (from + (i - from))%nat with i by lia.
Qed.
(** An integer field notices a change of its bytes. *)
Lemma value_sub_changes l from n i x v : Forall is_byte (sub l from n) -> is_byte x -> (from <= i < from + n)%nat ->
  l !! i = Some v -> x <> v -> be_value (sub (<[i := x]> l) from n) <> be_value (sub l from n).
Proof.
  intros Hb Hx Hi Hv Hne E. rewrite sub_insert in E by done. apply be_value_inj in E; [|by apply Forall_insert|done|by rewrite length_insert].
  revert E. eapply insert_changes; [|done]. rewrite sub_lookup, (proj2 (Nat.ltb_lt _ _)) by lia. by replace (from + (i - from))%nat with i by lia.
Qed.

(** What ends a replay at a record. *)
Lemma replay_bad_header fuel b offset n seq st : (24 <= length b)%nat -> magic_at b && header_crc_ok b = false ->
  exists e, replay_loop (Datatypes.S fuel) b offset n seq st = Some (Err e).
Proof.
  intros Hl Hb. cbn [replay_loop]. rewrite (proj2 (Nat.eqb_neq _ 0)), (proj2 (Nat.ltb_ge _ recordHeaderSize)) by (unfold recordHeaderSize; lia).
  destruct (magic_at b); [|by eexists]. destruct (header_crc_ok b); [done|by eexists].
Qed.
Lemma replay_bad_payload fuel b offset n seq st : (24 <= length b)%nat -> Uint32 b 4 <= Z.of_nat (length b) - 24 -> payload_crc_ok b = false ->
  exists e, replay_loop (Datatypes.S fuel) b offset n seq st = Some (Err e).
Proof.
  intros Hl Hn Hb. cbn [replay_loop]. rewrite (proj2 (Nat.eqb_neq _ 0)), (proj2 (Nat.ltb_ge _ recordHeaderSize)) by (unfold recordHeaderSize; lia).
  destruct (negb (magic_at b)); [by eexists|]. destruct (negb (header_crc_ok b)); [by eexists|].
  destruct (_ || _); [by eexists|]. rewrite (proj2 (Z.ltb_ge _ (Uint32 b 4))) by (unfold recordHeaderSize; lia).
  rewrite Hb. by eexists.
Qed.

Section Corrupt.
Context (n : Z) (p b : list Z) (F : fields n p b) (Hp : Forall is_byte p) (Hl : Z.of_nat (length p) <= maxWALRecord) (Hpay : sub b 24 (length p) = p).
Context (i : nat) (x v : Z) (Hx : is_byte x) (Hi : b !! i = Some v) (Hne : x <> v).

Lemma corrupt_magic : (i < 4)%nat -> magic_at (<[i := x]> b) = false.
Proof.
  intros Hlt. apply bool_decide_eq_false_2. rewrite <- (fd_magic _ _ _ F), sub_insert by lia.
  apply (insert_changes _ _ _ v); [|exact Hne]. rewrite sub_lookup, (proj2 (Nat.ltb_lt _ _)) by lia. by rewrite Nat.sub_0_r.
Qed.

Lemma corrupt_header : (4 <= i < 24)%nat -> header_crc_ok (<[i := x]> b) = false.
Proof.
  intros Hlt. pose proof (fields_header _ _ _ F) as Hhc. unfold header_crc_ok, Uint32 in Hhc |- *. apply Z.eqb_eq in Hhc. apply Z.eqb_neq.
  destruct (decide (i < 20)%nat) as [H20|H20].
  - rewrite (sub_insert_out b 20 4), Hhc by lia. apply not_eq_sym. unfold crc_checksum.
    apply (crc_sub_changes 0 b 0 20 i x v); [exact zero_word| |exact Hx|lia|exact Hi|exact Hne].
    rewrite (fd_20 _ _ _ F). apply Forall_app. split; [apply record_head_byte|apply PutUint32_byte].
  - rewrite (sub_insert_out b 0 20) by lia. rewrite <- Hhc. apply (value_sub_changes b 20 4 i x v); [|exact Hx|lia|exact Hi|exact Hne].
    rewrite (fd_head_crc _ _ _ F). apply PutUint32_byte.
Qed.

Lemma corrupt_len : (24 <= i)%nat -> Uint32 (<[i := x]> b) 4 = Z.of_nat (length p).
Proof. intros. unfold Uint32. rewrite sub_insert_out by lia. exact (fields_len _ _ _ F Hl). Qed.

Lemma corrupt_payload : (24 <= i < 24 + length p)%nat -> payload_crc_ok (<[i := x]> b) = false.
Proof.
  intros Hlt. unfold payload_crc_ok. rewrite corrupt_len, Nat2Z.id by lia. unfold Uint32.
  rewrite (sub_insert_out b 0 16), (sub_insert_out b 16 4) by lia. apply Z.eqb_neq.
  rewrite (fd_crc _ _ _ F), be_value_32 by (by apply record_crc_word). rewrite (fd_16 _ _ _ F). unfold record_crc.
  set (c := crc_update 0 (record_head n p)). assert (Hc : word32 c) by (apply crc_update_word; [exact zero_word|apply record_head_byte]).
  clearbody c. rewrite <- Hpay at 2. apply (crc_sub_changes c b 24 (length p) i x v); [exact Hc|by rewrite Hpay|exact Hx|lia|exact Hi|exact Hne].
Qed.
End Corrupt.

Lemma corrupt_record fuel n p tail offset seq st i x v :
  json_object p -> Z.of_nat (length p) <= maxWALRecord -> is_byte x ->
  (record_bytes n p ++ tail)%list !! i = Some v -> x <> v -> (i < length (record_bytes n p))%nat ->
  exists e, replay_loop (Datatypes.S fuel) (<[i := x]> (record_bytes n p ++ tail)%list) offset n seq st = Some (Err e).
Proof.
  intros Hp Hl Hx Hi Hne Hlt. rewrite record_length in Hlt. pose proof (json_byte p Hp) as Hpb.
  pose proof (record_fields n p (length (record_bytes n p ++ tail)) tail) as F. rewrite firstn_all, length_app, record_length in F.
  specialize (F ltac:(lia)). pose proof (record_payload n p tail) as Hpay.
  assert (Hlb : length (record_bytes n p ++ tail) = (24 + length p + length tail)%nat) by (rewrite length_app, record_length; done).
  set (b := (record_bytes n p ++ tail)%list) in *. clearbody b.
  destruct (decide (i < 24)%nat) as [H24|H24].
  - apply replay_bad_header; [rewrite length_insert; lia|]. destruct (decide (i < 4)%nat) as [H4|H4].
    + by rewrite (corrupt_magic n p b F i x v).
    + rewrite (corrupt_header n p b F i x v), andb_false_r; [done|done|done|done|lia].
  - apply replay_bad_payload; rewrite ?length_insert; [lia| |].
    + rewrite (corrupt_len n p b F Hl i x) by lia. lia.
    + apply (corrupt_payload n p b F Hpb Hl Hpay i x v); [done|done|done|lia].
Qed.

Lemma corrupt_log events : forall n b fuel offset seq st i x v, log_bytes n events = Some b ->
  0 <= n -> n + Z.of_nat (length events) <= 2 ^ 64 -> is_byte x -> b !! i = Some v -> x <> v -> (length b < fuel)%nat ->
  exists e, replay_loop fuel (<[i := x]> b) offset n seq st = Some (Err e).
Proof.
  induction events as [|e events IH]; intros n b fuel offset seq st i x v Hb Hn Hlen Hx Hi Hne Hf.
  { injection Hb as <-. by rewrite lookup_nil in Hi. }
  cbn [log_bytes] in Hb. cbn [List.length] in Hlen. destruct (encodeRecord n e) as [r|] eqn:Er; [|done].
  destruct (log_bytes (n + 1) events) as [l|] eqn:El; [|done]. injection Hb as <-.
  apply encodeRecord_spec in Er as (p & Hp & Hpl & ->). pose proof (proj1 (event_text _ _ Hp)) as Hobj.
  destruct fuel as [|fuel]; [lia|]. rewrite length_app in Hf.
  destruct (decide (i < length (record_bytes n p))%nat) as [Hlt|Hge]; [by apply (corrupt_record fuel n p l offset seq st i x v)|].
  rewrite lookup_app_r in Hi by lia. rewrite insert_app_r_alt by lia. rewrite replay_record by (try done; lia).
  destruct (replay_event n seq p st) as [[seq' st']|err]; [|by eexists].
  assert (Hnn : n + 1 < 2 ^ 64). { destruct events; [injection El as <-; by rewrite lookup_nil in Hi|]. cbn [List.length] in Hlen. lia. }
  rewrite (Z.mod_small (n + 1)) by lia. apply (IH _ _ _ _ _ _ _ _ v El); try done; try lia. pose proof (record_length n p). lia.
Qed.

Lemma walHeader_byte base : Forall is_byte (walHeader base).
Proof.
  unfold walHeader. rewrite !Forall_app. split; [|apply PutUint32_byte]. split; [|apply PutUint64_byte].
  unfold is_byte. repeat constructor; lia.
Qed.

Lemma corrupt_wal_header w i x v : Uint32 w 16 = crc_checksum (sub w 0 16) -> Forall is_byte w -> is_byte x -> w !! i = Some v -> x <> v ->
  (i < 20)%nat -> Uint32 (<[i := x]> w) 16 <> crc_checksum (sub (<[i := x]> w) 0 16).
Proof.
  intros Hw Hb Hx Hi Hne Hlt. unfold Uint32, crc_checksum in *. destruct (decide (i < 16)%nat) as [H16|H16].
  - rewrite (sub_insert_out w 16 4), Hw by lia. apply not_eq_sym.
    apply (crc_sub_changes 0 w 0 16 i x v); [exact zero_word| |exact Hx|lia|exact Hi|exact Hne]. by apply Forall_take, Forall_drop.
  - rewrite (sub_insert_out w 0 16), <- Hw by lia.
    apply (value_sub_changes w 16 4 i x v); [|exact Hx|lia|exact Hi|exact Hne]. by apply Forall_take, Forall_drop.
Qed.

Lemma corrupt_file base events b seq st i x v : 0 <= base -> base + 1 + Z.of_nat (length events) <= 2 ^ 64 ->
  log_bytes (base + 1) events = Some b -> is_byte x -> (walHeader base ++ b)%list !! i = Some v -> x <> v ->
  exists e, replay (<[i := x]> (walHeader base ++ b)%list) seq st = Some (Err e).
Proof.
  intros Hbase Hlen Hb Hx Hi Hne. destruct (walHeader_fields base b ltac:(lia)) as (Hw0 & Hw1 & Hw2 & Hw3 & Hw4).
  assert (Hbytes : Forall is_byte (walHeader base ++ b)) by (apply Forall_app; split; [apply walHeader_byte|by eapply log_bytes_byte]).
  assert (Hl : length (walHeader base ++ b) = (20 + length b)%nat) by (rewrite length_app, Hw0; done).
  set (w := (walHeader base ++ b)%list) in *. clearbody w. clear Hw0 Hw1. unfold replay. rewrite length_insert.
  destruct (length w <? walHeaderSize)%nat eqn:Elen; [by eexists|].
  destruct (negb _ || _) eqn:Eh; [by eexists|]. apply orb_false_elim in Eh as [_ Eh]. apply negb_false_iff, Z.eqb_eq in Eh.
  destruct (decide (i < 20)%nat) as [H20|H20].
  { by destruct (corrupt_wal_header w i x v Hw3 Hbytes Hx Hi Hne H20). }
  clear Eh. replace (Uint64 (<[i:=x]> w) 8) with base by (rewrite <- Hw2; unfold Uint64; by rewrite sub_insert_out by lia).
  destruct (seq <? base); [by eexists|]. unfold walHeaderSize in *. rewrite drop_insert_in, Hw4 by lia.
  assert (Hib : b !! (i - 20)%nat = Some v) by (rewrite <- Hw4, lookup_drop; replace (20 + (i - 20))%nat with i by lia; done).
  destruct events as [|e events]; [injection Hb as <-; by rewrite lookup_nil in Hib|].
  cbn [List.length] in Hlen. rewrite (Z.mod_small (base + 1)) by lia.
  apply (corrupt_log (e :: events) _ _ _ _ _ _ _ _ v Hb); [lia|cbn [List.length]; lia|done|done|done|lia].
Qed.
(** ** The ledger over bytes implements the ledger over events *)

(** The files of a running store hold its checkpoint and its events. *)
Record implements (d : durable) (s : Store) : Prop := {
  im_files : holds (d_files d) (saved s) (log s) (d_seq d) [];
  im_state : d_state d = state s
}.

Definition result_err (r : res unit) : option error := match r with Ok _ => None | Err e => Some e end.

(** A checkpoint over bytes is a checkpoint of the ledger, for some behaviour
    of its disk. *)
Lemma checkpoint_implements now io d s r d' : implements d s -> AgentWAL.checkpointLocked now io d = (r, d') ->
  exists renamed, forall dk, checkpoint_err dk = result_err r -> checkpoint_renamed dk = renamed ->
    (AgentCredits.checkpointLocked now dk s).1 = r /\ implements d' (AgentCredits.checkpointLocked now dk s).2.
Proof.
  intros [Hf Hs] Hc. destruct (checkpoint_holds _ _ _ _ _ _ _ Hf Hc) as (Hst & Hseq & Hh). rewrite Hs in Hst, Hh.
  unfold AgentCredits.checkpointLocked. destruct Hh as [[Hh Hr]|[Hh Hr]]; [exists false|exists true]; intros dk He Hn; rewrite He, Hn.
  - destruct r as [[]|e]; [done|]. cbn [result_err]. split; [done|]. split; [rewrite Hseq; exact Hh|exact Hst].
  - destruct r as [[]|e]; cbn [result_err]; (split; [done|]); (split; [rewrite Hseq; exact Hh|exact Hst]).
Qed.

(** A commit over bytes is a commit of the ledger; after a failure the files
    hold the ledger's files but for a torn record. *)
Lemma commit_implements now io writes events d s r d' :
  implements d s -> d_seq d + Z.of_nat (length events) + 1 < 2 ^ 64 ->
  commitEvents now io writes events d = (r, d') ->
  exists dk, (append_and_apply now dk events s).1 = r /\ (r = Ok tt -> implements d' (append_and_apply now dk events s).2) /\
    d_state d' = state (append_and_apply now dk events s).2 /\
    exists n tail, holds (d_files d') (saved (append_and_apply now dk events s).2) (log (append_and_apply now dk events s).2) n tail.
Proof.
  intros Hi Hlen Hc. unfold commitEvents in Hc. destruct (appendEvents io writes events d) as [ra d1] eqn:Ea.
  destruct (append_holds _ _ _ _ _ _ _ _ (im_files _ _ Hi) Hlen Ea) as (m & tail & Hm & Hh & Hok).
  assert (Hst1 : d_state d1 = d_state d).
  { clear -Ea. unfold appendEvents in Ea. repeat case_match; simplify_eq; reflexivity. }
  destruct ra as [[]|e].
  2: { injection Hc as <- <-. exists {| append_err := Some e; append_kept := m; checkpoint_due := false; checkpoint_err := None; checkpoint_renamed := false |}.
       unfold append_and_apply. cbn [append_err append_kept fst snd]. split; [done|]. split; [done|].
       split; [by rewrite Hst1, (im_state _ _ Hi)|]. by eexists _, _. }
  destruct (Hok eq_refl) as (-> & -> & Hseq). rewrite firstn_all in Hh. rewrite <- Hseq in Hh. rewrite Hst1, (im_state _ _ Hi) in Hc.
  destruct (apply_all_state events (set_durable (saved s) (log s ++ events)%list s)) as (H1 & H2 & H3 & H4 & _).
  cbn [state saved log set_durable] in H1, H2, H3, H4. unfold append_and_apply.
  destruct (apply_all events _) as [rs s1], (applyEvents events (state s)) as [re st]. cbn [fst snd] in *. subst rs.
  assert (Hi1 : implements (put_state st d1) s1).
  { split; [rewrite H3, H4; exact Hh|by rewrite H2]. }
  destruct re as [[]|e].
  2: { injection Hc as <- <-. exists {| append_err := None; append_kept := 0; checkpoint_due := false; checkpoint_err := None; checkpoint_renamed := false |}.
       cbn [append_err fst snd]. split; [done|]. split; [done|]. split; [apply (im_state _ _ Hi1)|]. eexists _, _. apply (im_files _ _ Hi1). }
  destruct (walCheckpointBytes <=? _).
  - destruct (checkpoint_implements _ _ _ _ _ _ Hi1 Hc) as [renamed Hd].
    set (dk := {| append_err := None; append_kept := 0; checkpoint_due := true; checkpoint_err := result_err r; checkpoint_renamed := renamed |}).
    exists dk. change (append_err dk) with (@None error). change (checkpoint_due dk) with true. cbv iota.
    destruct (Hd dk eq_refl eq_refl) as [Hr Hi2].
    split; [exact Hr|]. split; [intros _; exact Hi2|]. split; [apply (im_state _ _ Hi2)|]. eexists _, _. apply (im_files _ _ Hi2).
  - injection Hc as <- <-. exists {| append_err := None; append_kept := 0; checkpoint_due := false; checkpoint_err := None; checkpoint_renamed := false |}.
    cbn [append_err checkpoint_due fst snd]. split; [done|]. split; [intros _; exact Hi1|]. split; [apply (im_state _ _ Hi1)|].
    eexists _, _. apply (im_files _ _ Hi1).
Qed.
End Files.
