(* ===== verification/AgentDurability.v ===== *)
(** * The agent's files: the theorems

    What an operator relies on when the agent is killed, the disk fills up or
    a file is damaged: start-up always ends; intact files give the ledger
    back; a write torn at any byte costs no complete record; a changed byte
    is refused; the ledger of AgentStore is what the files implement. *)

From S2P Require Import Prelude Tx GoStrings Calendar Rational Digest Schema Quota AgentState AgentCredits AgentStore AgentScenarios.
From S2P Require Import Bytes AgentWAL AgentFiles.
From stdpp Require Import base gmap strings list.
From Stdlib Require Import Ascii String.
Local Open Scope string_scope.
Local Open Scope Z_scope.
Local Abbreviation length := List.length.

(** C20: start-up ends.  For every content of the files, whatever they were
    damaged to, and every I/O failure, [openDurable] returns: the replay loop
    consumes at least a record header per round. *)
Theorem log_start_ends `{JSON} now io fs : is_Some (openDurable now io fs).
Proof.
  unfold openDurable. destruct (io "read_snapshot"); [by eexists|]. destruct (load_snapshot _ _) as [[[[seq st] legacy] versioned]|e]; [|by eexists].
  destruct (validateSnapshot _); [|by eexists]. set (d := put_seq _ _). assert (Ho : is_Some (open_wal io versioned d)).
  { unfold open_wal. destruct (f_wal (d_files d)) as [file|].
    - destruct (first_fault io _); [by eexists|]. destruct (replay_ends file (d_seq (put_handle (d_walBytes d) true d)) (d_state (put_handle (d_walBytes d) true d))) as [r ->].
      destruct r as [[[? ?] ?]|?]; [|by eexists]. repeat (case_match; try by eexists).
    - destruct versioned; [by eexists|]. destruct (replaceWAL io (d_seq d) d). by eexists. }
  destruct Ho as [[[old|e] d'] ->]; [|by eexists]. destruct (validateSnapshot (d_state d')); [|by eexists]. destruct (legacy || old); by eexists.
Qed.

(** Intact files give the ledger back.  Files that hold a checkpoint and
    a run of events after it, with or without a torn record at the end that
    is not misread, are opened exactly as the ledger opens that checkpoint and
    those events: same refusals, same state, and the torn record cut off. *)
Theorem log_reopens `{JSONLaws} now fs c log n tail : holds fs c log n tail -> misread (n + 1) tail = false ->
  exists d, openDurable now no_faults fs =
    Some (match open_events (initializeMaps c) log with Ok _ => Ok tt | Err e => Err e end, d) /\
    forall st, open_events (initializeMaps c) log = Ok st ->
      d_state d = st /\ d_seq d = n /\ holds (d_files d) c log n [] /\ d_walBytes d = Z.of_nat (length (wal_of d)).
Proof.
  intros Hh Hmis. destruct (open_holds now fs c log n tail Hh Hmis) as (d & Ho & Hd). exists d. split; [exact Ho|].
  intros st Hst. destruct (Hd st Hst) as (? & ? & _ & ? & ?). auto.
Qed.

(** C18: a torn write costs no complete record.  However many bytes of a
    batch reach the log before a crash, they are the first [m] records of it
    and a torn piece of the next, all records and nothing else when all bytes
    did.  The next start gives the ledger with the events before the batch and
    those [m], and cuts the torn piece off; only when the search for a record
    after the torn one finds one inside that very piece ([misread]) the start
    is refused.  That needs the four bytes of the magic in the piece's own
    length, sequence number or checksums ([quiet_log] excludes it).  The
    sequence numbers of the batch stay below [2 ^ 64 - 1]. *)
Theorem log_torn_write `{JSONLaws} now fs c log n events b k :
  holds fs c log n [] -> encode_batch n 0 events = Ok b -> n + Z.of_nat (length events) + 1 < 2 ^ 64 ->
  exists m bm piece, (m <= length events)%nat /\ log_bytes (n + 1) (take m events) = Some bm /\ take k b = (bm ++ piece)%list /\
    torn (n + Z.of_nat m + 1) piece /\ ((length b <= k)%nat -> m = length events /\ piece = []) /\
    (quiet_log (n + 1) events = true -> misread (n + Z.of_nat m + 1) piece = false) /\
    let start := openDurable now no_faults {| f_snapshot := f_snapshot fs; f_wal := Some (default [] (f_wal fs) ++ take k b)%list |} in
    if misread (n + Z.of_nat m + 1) piece then exists e d, start = Some (Err e, d)
    else exists d, start = Some (match open_events (initializeMaps c) (log ++ take m events) with Ok _ => Ok tt | Err e => Err e end, d) /\
           forall st, open_events (initializeMaps c) (log ++ take m events) = Ok st ->
             d_state d = st /\ holds (d_files d) c (log ++ take m events) (n + Z.of_nat m) [].
Proof.
  intros Hh Hb Hlen. pose proof (hd_seq _ _ _ _ _ Hh) as Hn. apply encode_batch_log in Hb as [Hb _]; [|lia|lia].
  rewrite Z.add_0_r in Hb. destruct (append_prefix _ _ _ _ _ _ k Hh Hb Hlen) as (m & bm & piece & Hm & Hbm & Ht & Hh' & Hall & Hquiet).
  exists m, bm, piece. do 3 (split; [done|]). split; [exact (hd_tail _ _ _ _ _ Hh')|]. do 2 (split; [done|]). intros start.
  destruct (misread _ piece) eqn:Emis; [by eapply open_misread|].
  destruct (open_holds now _ _ _ _ _ Hh' Emis) as (d & Ho & Hd). exists d. split; [exact Ho|]. intros st Hst. destruct (Hd st Hst) as (? & _ & _ & ? & _). done.
Qed.

(** C19: a changed byte is refused.  A log with any one byte changed, in its
    header, in a record header or in a payload, is never opened: start-up
    fails. *)
Theorem log_corruption_refused `{JSONLaws} now io fs c log n w i x v :
  holds fs c log n [] -> f_wal fs = Some w -> w !! i = Some v -> is_byte x -> x <> v ->
  exists e d, openDurable now io {| f_snapshot := f_snapshot fs; f_wal := Some (<[i := x]> w) |} = Some (Err e, d).
Proof.
  intros [Hn (base & pre & b & versioned & Hsnap & Hwal & Hb & Hbase & Hnn) _] Hw Hi Hx Hne. rewrite Hw in Hwal. injection Hwal as ->.
  rewrite app_nil_r in *. unfold openDurable. cbn [f_snapshot]. destruct (io "read_snapshot"); [by eexists _, _|]. rewrite Hsnap.
  destruct (validateSnapshot _); [|by eexists _, _]. unfold open_wal. cbn [d_files put_seq put_state closed_store f_wal].
  destruct (first_fault io _); [by eexists _, _|].
  edestruct (corrupt_file base (pre ++ log) b) as [e ->]; [lia| |exact Hb|exact Hx|exact Hi|exact Hne|by eexists _, _].
  lia.
Qed.

(** C17: the files implement the ledger.  A commit over bytes, under any
    failure of any call, is a commit of the ledger of AgentStore for some
    behaviour of its disk: same result, same state, and files that hold the
    ledger's checkpoint and events, but for a torn record after a failure.
    The sequence numbers stay below [2 ^ 64 - 1]. *)
Theorem log_implements_ledger `{JSONLaws} now io writes events d s r d' :
  implements d s -> d_seq d + Z.of_nat (length events) + 1 < 2 ^ 64 ->
  commitEvents now io writes events d = (r, d') ->
  exists dk, (append_and_apply now dk events s).1 = r /\ (r = Ok tt -> implements d' (append_and_apply now dk events s).2) /\
    d_state d' = state (append_and_apply now dk events s).2 /\
    exists n tail, holds (d_files d') (saved (append_and_apply now dk events s).2) (AgentCredits.log (append_and_apply now dk events s).2) n tail.
Proof. apply commit_implements. Qed.

(** ** A codec for the values of one run

    The events and the states of a run are numbered; a checkpoint is laid out
    field by field. *)

#[local] Instance Config_eq : EqDecision Config.
Proof. solve_decision. Defined.
#[local] Instance creditWindow_eq : EqDecision creditWindow.
Proof. solve_decision. Defined.
#[local] Instance stateEvent_eq : EqDecision stateEvent.
Proof. solve_decision. Defined.
#[local] Instance diskState_eq : EqDecision diskState.
Proof. solve_decision. Defined.

Definition numbered {A} `{EqDecision A} (table : list A) (x : A) : option (list Z) :=
  match list_find (fun y => x = y) table with
  | Some (i, _) => if (i <? 100)%nat then Some [123; 48 + Z.of_nat i; 125] else None
  | None => None
  end.
Definition numbered_value {A} (table : list A) (p : list Z) : option A :=
  match p with [_; i; _] => table !! Z.to_nat (i - 48) | _ => None end.

Lemma numbered_text {A} `{EqDecision A} (table : list A) x p : numbered table x = Some p ->
  json_object p /\ numbered_value table p = Some x.
Proof.
  unfold numbered. destruct (list_find _ table) as [[i y]|] eqn:E; [|done]. destruct (i <? 100)%nat eqn:Ei; [|done].
  apply Nat.ltb_lt in Ei. intros [= <-]. apply list_find_Some in E as (Hy & <- & _). split.
  - split; [done|]. repeat (constructor; [lia|]). constructor.
  - unfold numbered_value. replace (Z.to_nat (48 + Z.of_nat i - 48)) with i by lia. done.
Qed.

Definition checkpoint_value (c : checkpoint) : option (list Z) :=
  if Version c =? walVersion then Some ([123] ++ PutUint64 (Sequence c) ++ PutUint32 (CRC c) ++ State c)%list else None.
Definition value_checkpoint (p : list Z) : option checkpoint :=
  Some {| Version := walVersion; Sequence := Uint64 p 1; CRC := Uint32 p 9; State := drop 13 p |}.

Lemma checkpoint_value_text c p : 0 <= Sequence c < 2 ^ 64 -> word32 (CRC c) -> checkpoint_value c = Some p ->
  value_checkpoint p = Some c /\ Z.of_nat (length p) <= Z.of_nat (length (State c)) + 1024.
Proof.
  intros Hs Hc. unfold checkpoint_value. destruct (Version c =? walVersion) eqn:Ev; [|done]. bool_to_prop. intros Hp.
  assert (p = ([123] ++ PutUint64 (Sequence c) ++ PutUint32 (CRC c) ++ State c)%list) as -> by congruence. clear Hp.
  split; [|rewrite !length_app, PutUint64_length, PutUint32_length; cbn [List.length]; lia].
  destruct c as [ver sq stt crc]. cbn [Version Sequence State CRC] in *. subst ver. unfold value_checkpoint, Uint64, Uint32.
  pose proof (be_value_64 _ Hs) as Hv. pose proof (be_value_32 _ Hc) as Hw.
  destruct (list_of_8 (PutUint64 sq) (PutUint64_length _)) as (s1' & s2' & s3' & s4' & s5' & s6' & s7' & s8' & Hl).
  destruct (list_of_4 (PutUint32 crc) (PutUint32_length _)) as (c1 & c2 & c3 & c4 & Hr). rewrite Hl in Hv |- *. rewrite Hr in Hw |- *.
  f_equal. f_equal; [exact Hv|exact Hw].
Qed.

Definition run_json (events : list stateEvent) (states : list diskState) : JSON :=
  {| marshal_event := numbered events; unmarshal_event := numbered_value events;
     marshal_state := numbered states; unmarshal_state := numbered_value states;
     marshal_checkpoint := checkpoint_value; unmarshal_checkpoint := value_checkpoint |}.

Lemma run_json_laws events states : @JSONLaws (run_json events states).
Proof.
  split.
  - intros e p Hp. exact (numbered_text _ _ _ Hp).
  - intros st p Hp. destruct (numbered_text _ _ _ Hp) as [Ho Hv]. split; [by apply json_byte|exact Hv].
  - intros c p Hs Hc _ Hp. by apply checkpoint_value_text.
Qed.

(** ** The theorems at a concrete run: the two charges of the scenario *)

Definition run_events : list stateEvent := Eval vm_compute in AgentCredits.log s5.
Definition demo_json : JSON := run_json run_events [empty_disk].
#[local] Existing Instance demo_json.
#[local] Instance demo_laws : JSONLaws.
Proof. apply run_json_laws. Qed.

Definition first_events : list stateEvent := take 3 run_events.
Definition batch_events : list stateEvent := drop 3 run_events.
Definition demo_bytes : list Z := Eval vm_compute in default [] (log_bytes 1 first_events).
Definition demo_files : files := {| f_snapshot := None; f_wal := Some (walHeader 0 ++ demo_bytes)%list |}.

Lemma demo_holds : holds demo_files empty_disk first_events 3 [].
Proof.
  split; [lia| |by left]. exists 0, [], demo_bytes, false. split; [reflexivity|]. split; [by rewrite app_nil_r|].
  split; [vm_compute; reflexivity|]. split; [lia|reflexivity].
Qed.

(** Three events of the run are in the log; the ledger they give. *)
Definition demo_state : diskState := (applyEvents first_events empty_disk).2.
Lemma demo_opens : open_events (initializeMaps empty_disk) first_events = Ok demo_state.
Proof. vm_compute. reflexivity. Qed.

Lemma log_reopens_witness : exists d, openDurable t0 no_faults demo_files = Some (Ok tt, d) /\ d_state d = demo_state /\ d_seq d = 3.
Proof.
  destruct (log_reopens t0 demo_files empty_disk first_events 3 [] demo_holds eq_refl) as (d & Ho & Hd). rewrite demo_opens in Ho, Hd.
  exists d. split; [exact Ho|]. destruct (Hd demo_state eq_refl) as (H1 & H2 & _). by split.
Defined.

(** Forty bytes of the batch of two charges reach the disk: the first of them
    is there, the second is torn. *)
Definition batch_bytes : list Z := Eval vm_compute in match encode_batch 3 0 batch_events with Ok b => b | Err _ => [] end.
Lemma log_torn_write_witness : exists m, (m <= length batch_events)%nat /\
  exists d, openDurable t0 no_faults {| f_snapshot := None; f_wal := Some (walHeader 0 ++ demo_bytes ++ take 40 batch_bytes)%list |} =
    Some (match open_events (initializeMaps empty_disk) (first_events ++ take m batch_events) with Ok _ => Ok tt | Err e => Err e end, d).
Proof.
  assert (Hb : encode_batch 3 0 batch_events = Ok batch_bytes) by (vm_compute; reflexivity).
  assert (Hq : quiet_log (3 + 1) batch_events = true) by (vm_compute; reflexivity).
  destruct (log_torn_write t0 demo_files empty_disk first_events 3 batch_events batch_bytes 40 demo_holds Hb) as (m & bm & piece & Hm & _ & _ & _ & _ & Hmis & Hs).
  { vm_compute. reflexivity. }
  rewrite (Hmis Hq) in Hs. destruct Hs as (d & Ho & _).
  exists m. split; [exact Hm|]. exists d. change (default [] (f_wal demo_files)) with (walHeader 0 ++ demo_bytes)%list in Ho.
  rewrite <- (assoc (++)%list) in Ho. exact Ho.
Defined.

(** The first byte of the first payload changed from a brace. *)
Lemma log_corruption_refused_witness :
  exists e d, openDurable t0 no_faults {| f_snapshot := None; f_wal := Some (<[44%nat := 120]> (walHeader 0 ++ demo_bytes)%list) |} = Some (Err e, d).
Proof.
  assert (Hi : (walHeader 0 ++ demo_bytes)%list !! 44%nat = Some 123) by (vm_compute; reflexivity).
  apply (log_corruption_refused t0 no_faults demo_files empty_disk first_events 3 (walHeader 0 ++ demo_bytes)%list 44 120 123 demo_holds eq_refl Hi);
    [unfold is_byte|]; lia.
Defined.

Definition demo_store : Store := blank empty_disk [].
Definition fresh_durable : durable :=
  {| d_files := {| f_snapshot := None; f_wal := Some (walHeader 0) |}; d_state := empty_disk; d_seq := 0; d_walBytes := 20; d_open := true |}.
Lemma fresh_implements : implements fresh_durable demo_store.
Proof.
  split; [|reflexivity]. split; [simpl; lia| |by left]. exists 0, [], [], false. split; [reflexivity|]. split; [reflexivity|].
  split; [reflexivity|]. split; [lia|reflexivity].
Qed.

(** The disk takes the first three bytes, then thirty more, then fails. *)
Definition failing_writes (k : nat) : Z * option error :=
  match k with O => (3, None) | S O => (30, None) | _ => (0, Some (ErrMsg "no space left on device")) end.
Lemma log_implements_ledger_witness :
  exists dk, (append_and_apply t0 dk first_events demo_store).1 = Err (ErrMsg "no space left on device") /\
    exists n tail, holds (d_files (commitEvents t0 no_faults failing_writes first_events fresh_durable).2)
      (saved (append_and_apply t0 dk first_events demo_store).2) (AgentCredits.log (append_and_apply t0 dk first_events demo_store).2) n tail.
Proof.
  destruct (commitEvents t0 no_faults failing_writes first_events fresh_durable) as [r d'] eqn:E.
  assert (Hr : r = Err (ErrMsg "no space left on device")).
  { change r with (r, d').1. rewrite <- E. vm_compute. reflexivity. }
  destruct (log_implements_ledger t0 no_faults failing_writes first_events fresh_durable demo_store r d' fresh_implements) as (dk & H1 & _ & _ & H4);
    [vm_compute; reflexivity|exact E|]. exists dk. split; [by rewrite H1|exact H4].
Defined.
