(* ===== verification/Datagrams.v ===== *)
(** * UDP over QUIC datagrams (internal/tunnel/datagram.go)

    A link carries many UDP flows over one QUIC connection.  A packet larger
    than a datagram is cut into numbered fragments; the receiver puts them
    together, in any order, within bounds on partial packets and on memory
    shared by all flows of the link.

    A mutex or an atomic counter guards each change, so an operation is one
    step.  Sessions are pointers into [l_sessions]: a queued job or a map
    entry of a link refers to the session, not to a copy of it.  The QUIC
    connection is what [SendDatagram] answers and the datagrams received. *)

From S2P Require Import Prelude Tx GoStrings Calendar Digest Bytes.
From stdpp Require Import base gmap strings list relations.
From Stdlib Require Import Ascii String.
Local Open Scope string_scope.
Local Open Scope Z_scope.
Local Abbreviation length := List.length.

Definition datagramHeader : nat := 25.
Definition maxDatagramFlows : Z := 1024.
Definition maxDatagramMemory : Z := 8 * 2 ^ 20.
Definition fragmentTTL : Z := second.
Definition maxPayload : Z := 65535.

Record fragments := {
  fr_total : Z; fr_parts : list (option (list Z)); fr_count : Z; fr_bytes : Z; fr_expires : Z
}.
Record DatagramSession := {
  s_flow : Z; s_done : bool; s_closed : bool; s_sequence : Z; s_in : list (list Z);
  s_parts : gmap Z fragments; s_seen : gmap Z Z
}.
Record datagramLink := {
  l_closed : bool; l_flows : gmap Z nat; l_sessions : list DatagramSession; l_send : list (nat * list Z);
  l_queued : Z; l_reassembly : Z; l_received : Z; l_packetSize : Z; l_drops : Z; l_sentFrames : Z
}.

Definition put_session (r : nat) (s : DatagramSession) (l : datagramLink) : datagramLink :=
  {| l_closed := l_closed l; l_flows := l_flows l; l_sessions := <[r := s]> (l_sessions l); l_send := l_send l; l_queued := l_queued l;
     l_reassembly := l_reassembly l; l_received := l_received l; l_packetSize := l_packetSize l; l_drops := l_drops l;
     l_sentFrames := l_sentFrames l |}.
Definition put_flows (f : gmap Z nat) (ss : list DatagramSession) (l : datagramLink) : datagramLink :=
  {| l_closed := l_closed l; l_flows := f; l_sessions := ss; l_send := l_send l; l_queued := l_queued l;
     l_reassembly := l_reassembly l; l_received := l_received l; l_packetSize := l_packetSize l; l_drops := l_drops l;
     l_sentFrames := l_sentFrames l |}.
Definition put_memory (reassembly received : Z) (l : datagramLink) : datagramLink :=
  {| l_closed := l_closed l; l_flows := l_flows l; l_sessions := l_sessions l; l_send := l_send l; l_queued := l_queued l;
     l_reassembly := reassembly; l_received := received; l_packetSize := l_packetSize l; l_drops := l_drops l;
     l_sentFrames := l_sentFrames l |}.
Definition put_queue (send : list (nat * list Z)) (queued : Z) (l : datagramLink) : datagramLink :=
  {| l_closed := l_closed l; l_flows := l_flows l; l_sessions := l_sessions l; l_send := send; l_queued := queued;
     l_reassembly := l_reassembly l; l_received := l_received l; l_packetSize := l_packetSize l; l_drops := l_drops l;
     l_sentFrames := l_sentFrames l |}.
Definition put_wire (packetSize sentFrames : Z) (l : datagramLink) : datagramLink :=
  {| l_closed := l_closed l; l_flows := l_flows l; l_sessions := l_sessions l; l_send := l_send l; l_queued := l_queued l;
     l_reassembly := l_reassembly l; l_received := l_received l; l_packetSize := packetSize; l_drops := l_drops l;
     l_sentFrames := sentFrames |}.
Definition close_conn (l : datagramLink) : datagramLink :=
  {| l_closed := true; l_flows := l_flows l; l_sessions := l_sessions l; l_send := l_send l; l_queued := l_queued l;
     l_reassembly := l_reassembly l; l_received := l_received l; l_packetSize := l_packetSize l; l_drops := l_drops l;
     l_sentFrames := l_sentFrames l |}.
(** [l.drops.Add(n)] *)
Definition dropped (n : Z) (l : datagramLink) : datagramLink :=
  {| l_closed := l_closed l; l_flows := l_flows l; l_sessions := l_sessions l; l_send := l_send l; l_queued := l_queued l;
     l_reassembly := l_reassembly l; l_received := l_received l; l_packetSize := l_packetSize l; l_drops := l_drops l + n;
     l_sentFrames := l_sentFrames l |}.

Definition set_parts (parts : gmap Z fragments) (s : DatagramSession) : DatagramSession :=
  {| s_flow := s_flow s; s_done := s_done s; s_closed := s_closed s; s_sequence := s_sequence s; s_in := s_in s;
     s_parts := parts; s_seen := s_seen s |}.
Definition set_seen (seen : gmap Z Z) (s : DatagramSession) : DatagramSession :=
  {| s_flow := s_flow s; s_done := s_done s; s_closed := s_closed s; s_sequence := s_sequence s; s_in := s_in s;
     s_parts := s_parts s; s_seen := seen |}.
Definition set_in (q : list (list Z)) (s : DatagramSession) : DatagramSession :=
  {| s_flow := s_flow s; s_done := s_done s; s_closed := s_closed s; s_sequence := s_sequence s; s_in := q;
     s_parts := s_parts s; s_seen := s_seen s |}.
Definition set_sequence (n : Z) (s : DatagramSession) : DatagramSession :=
  {| s_flow := s_flow s; s_done := s_done s; s_closed := s_closed s; s_sequence := n; s_in := s_in s;
     s_parts := s_parts s; s_seen := s_seen s |}.
Definition end_session (s : DatagramSession) : DatagramSession :=
  {| s_flow := s_flow s; s_done := true; s_closed := s_closed s; s_sequence := s_sequence s; s_in := s_in s;
     s_parts := s_parts s; s_seen := s_seen s |}.

Definition new_link : datagramLink :=
  {| l_closed := false; l_flows := ∅; l_sessions := []; l_send := []; l_queued := 0; l_reassembly := 0; l_received := 0;
     l_packetSize := 1240; l_drops := 0; l_sentFrames := 0 |}.

(** ** Opening a flow *)

Definition new_session (flow : Z) : DatagramSession :=
  {| s_flow := flow; s_done := false; s_closed := false; s_sequence := 0; s_in := []; s_parts := ∅; s_seen := ∅ |}.
Definition add (flow : Z) (l : datagramLink) : res nat * datagramLink :=
  if (flow =? 0) || bool_decide (is_Some (l_flows l !! flow)) || (maxDatagramFlows <=? Z.of_nat (size (l_flows l))) || l_closed l
  then (Err (ErrMsg "datagram flow capacity or identity invalid"), l)
  else let r := length (l_sessions l) in
       (Ok r, put_flows (<[flow := r]> (l_flows l)) (l_sessions l ++ [new_session flow])%list l).

Definition takeMemory (counter n : Z) : option Z :=
  if maxDatagramMemory - counter <? n then None else Some (counter + n).

(** ** Receiving *)

Definition expired (now : Z) (a : fragments) : bool := negb (now <? fr_expires a).
Definition expireLocked (now : Z) (s : DatagramSession) (l : datagramLink) : DatagramSession * datagramLink :=
  let dead := filter (fun kv : Z * fragments => Is_true (expired now kv.2)) (s_parts s) in
  (set_seen (filter (fun kv : Z * Z => Is_true (now <? kv.2)) (s_seen s))
     (set_parts (filter (fun kv : Z * fragments => Is_true (negb (expired now kv.2))) (s_parts s)) s),
   dropped (Z.of_nat (size dead)) (put_memory (l_reassembly l - map_sum (fun _ a => fr_total a) dead) (l_received l) l)).

(** What one frame does: it completes a packet, is kept (or repeats what is
    kept), or is dropped. *)
Inductive assembly := Whole (packet : list Z) | Kept | Rejected.

Definition new_fragments (now total count : Z) : fragments :=
  {| fr_total := total; fr_parts := replicate (Z.to_nat count) None; fr_count := 0; fr_bytes := 0; fr_expires := now + fragmentTTL |}.
Definition add_part (index : nat) (payload : list Z) (a : fragments) : fragments :=
  {| fr_total := fr_total a; fr_parts := <[index := Some payload]> (fr_parts a); fr_count := fr_count a + 1;
     fr_bytes := fr_bytes a + Z.of_nat (length payload); fr_expires := fr_expires a |}.
Definition joined (a : fragments) : list Z := List.concat (map (default []) (fr_parts a)).

(** A fragment for the partial packet [a]. *)
Definition fill (id total : Z) (index : nat) (count : Z) (payload : list Z) (a : fragments) (parts : gmap Z fragments) (reassembly : Z)
  : assembly * gmap Z fragments * Z :=
  if negb (fr_total a =? total) || negb (Z.of_nat (length (fr_parts a)) =? count) then (Rejected, parts, reassembly) else
  match fr_parts a !! index with
  | Some (Some old) => (if bool_decide (old = payload) then Kept else Rejected, parts, reassembly)
  | None => (Kept, parts, reassembly)
  | Some None =>
      if fr_total a - fr_bytes a <? Z.of_nat (length payload) then (Rejected, parts, reassembly) else
      let a := add_part index payload a in
      if negb (fr_count a =? count) then (Kept, <[id := a]> parts, reassembly) else
      (if fr_bytes a =? total then Whole (joined a) else Rejected, delete id parts, reassembly - fr_total a)
  end.

Definition assemble (now id total : Z) (index : nat) (count : Z) (payload : list Z) (parts : gmap Z fragments) (reassembly : Z)
  : assembly * gmap Z fragments * Z :=
  if count =? 1 then (if Z.of_nat (length payload) =? total then Whole payload else Rejected, parts, reassembly) else
  match parts !! id with
  | Some a => fill id total index count payload a parts reassembly
  | None =>
      if (4 <=? Z.of_nat (size parts)) then (Rejected, parts, reassembly) else
      match takeMemory reassembly total with
      | None => (Rejected, parts, reassembly)
      | Some reassembly =>
          let a := new_fragments now total count in
          fill id total index count payload a (<[id := a]> parts) reassembly
      end
  end.

Section Receive.
(** The key that the iteration over a non-empty map of seen packets yields
    first. *)
Context (choose : gmap Z Z -> Z).

Definition mark_seen (now id : Z) (seen : gmap Z Z) : gmap Z Z :=
  let seen := if 256 <=? Z.of_nat (size seen) then delete (choose seen) seen else seen in
  <[id := now + 2 * fragmentTTL]> seen.

(** A whole packet goes to the reader's queue, if there is room. *)
Definition hand_over (now id : Z) (packet : list Z) (r : nat) (s : DatagramSession) (l : datagramLink) : datagramLink :=
  let s := set_seen (mark_seen now id (s_seen s)) s in
  match takeMemory (l_received l) (Z.of_nat (length packet)) with
  | None => dropped 1 (put_session r s l)
  | Some received =>
      if (length (s_in s) <? 32)%nat
      then put_memory (l_reassembly l) received (put_session r (set_in (s_in s ++ [packet])%list s) l)
      else dropped 1 (put_session r s l)
  end.

Definition accept (now : Z) (frame : list Z) (r : nat) (l : datagramLink) : datagramLink :=
  match l_sessions l !! r with
  | None => l
  | Some s =>
      let id := Uint64 frame 9 in
      let total := Uint32 frame 17 in
      let index := Uint16 frame 21 in
      let count := Uint16 frame 23 in
      let payload := drop datagramHeader frame in
      if (maxPayload <? total) || (count <? 1) || (128 <? count) || (count <=? index) || (total <? Z.of_nat (length payload))
         || ((1 <? count) && (Z.of_nat (length payload) =? 0))
      then dropped 1 l else
      if s_done s then l else
      let '(s, l) := expireLocked now s l in
      if bool_decide (is_Some (s_seen s !! id)) then put_session r s l else
      let '(outcome, parts, reassembly) := assemble now id total (Z.to_nat index) count payload (s_parts s) (l_reassembly l) in
      let s := set_parts parts s in
      let l := put_memory reassembly (l_received l) l in
      match outcome with
      | Rejected => dropped 1 (put_session r s l)
      | Kept => put_session r s l
      | Whole packet => hand_over now id packet r s l
      end
  end.

(** [receive] on one datagram of the connection *)
Definition receive (now : Z) (p : list Z) (l : datagramLink) : datagramLink :=
  if (length p <? datagramHeader)%nat || negb (nth 0 p 0 =? 1) then dropped 1 l else
  match l_flows l !! Uint64 p 1 with
  | None => dropped 1 l
  | Some r => accept now p r l
  end.
End Receive.

(** [collect] on one session *)
Definition collect (now : Z) (r : nat) (l : datagramLink) : datagramLink :=
  match l_sessions l !! r with
  | None => l
  | Some s => let '(s, l) := expireLocked now s l in put_session r s l
  end.

(** [Read] when a packet is queued, into a buffer of [n] bytes *)
Definition Read (n : nat) (r : nat) (l : datagramLink) : option (list Z) * datagramLink :=
  match l_sessions l !! r with
  | Some s =>
      match s_in s with
      | packet :: rest =>
          (Some (take n packet), put_memory (l_reassembly l) (l_received l - Z.of_nat (length packet)) (put_session r (set_in rest s) l))
      | [] => (None, l)
      end
  | None => (None, l)
  end.

(** ** Sending *)

Definition ErrDatagramQueueFull : error := ErrMsg "UDP datagram queue full".

Definition WriteAuthorized (now : Z) (deadline : option Z) (authorize : option (res unit)) (p : list Z) (r : nat) (l : datagramLink)
  : res Z * datagramLink :=
  if maxPayload <? Z.of_nat (length p) then (Err (ErrMsg "UDP payload exceeds platform packet buffer"), l) else
  match l_sessions l !! r with
  | None => (Err (ErrMsg "use of closed network connection"), l)
  | Some s =>
      if s_done s || l_closed l then (Err (ErrMsg "use of closed network connection"), l) else
      if match deadline with Some t => negb (now <? t) | None => false end then (Err (ErrMsg "i/o timeout"), l) else
      if (length (l_send l) =? 256)%nat then (Err ErrDatagramQueueFull, l) else
      match takeMemory (l_queued l) (Z.of_nat (length p)) with
      | None => (Err ErrDatagramQueueFull, l)
      | Some queued =>
          match authorize with
          | Some (Err e) => (Err e, l)
          | _ => (Ok (Z.of_nat (length p)), put_queue (l_send l ++ [(r, p)])%list queued l)
          end
      end
  end.

Definition frame_bytes (flow id total index count : Z) (payload : list Z) : list Z :=
  1 :: (PutUint64 flow ++ PutUint64 id ++ PutUint32 total ++ PutUint16 index ++ PutUint16 count ++ payload)%list.

Definition frame_count (chunk : nat) (p : list Z) : nat := Nat.max 1 ((length p + chunk - 1) / chunk).
Definition chunk_of (chunk i : nat) (p : list Z) : list Z := take chunk (drop (i * chunk) p).
Definition frames_of (flow id : Z) (chunk : nat) (p : list Z) : list (list Z) :=
  map (fun i => frame_bytes flow id (Z.of_nat (length p)) (Z.of_nat i) (Z.of_nat (frame_count chunk p)) (chunk_of chunk i p))
    (seq 0 (frame_count chunk p)).

(** What [SendDatagram] answers. *)
Inductive sent := Sent | TooLarge (max : Z) | Refused (e : error).

(** Frames are submitted until one is refused; the result is what went out,
    the refusal, and the number of calls made. *)
Fixpoint submit (answers : nat -> sent) (k : nat) (frames : list (list Z)) : list (list Z) * option sent * nat :=
  match frames with
  | [] => ([], None, k)
  | f :: frames =>
      match answers k with
      | Sent => let '(out, r, k) := submit answers (S k) frames in (f :: out, r, k)
      | refusal => ([], Some refusal, S k)
      end
  end.

(** [sendPacket]: at most two attempts, the second after a smaller size was
    learned. *)
Fixpoint sendPacket (attempts : nat) (answers : nat -> sent) (k : nat) (r : nat) (p : list Z) (l : datagramLink)
  : res unit * list (list Z) * datagramLink :=
  match attempts with
  | O => (Err (ErrMsg "QUIC datagram MTU changed repeatedly"), [], l)
  | S attempts =>
      match l_sessions l !! r with
      | None => (Err (ErrMsg "use of closed network connection"), [], l)
      | Some s =>
          let chunk := l_packetSize l - Z.of_nat datagramHeader in
          if chunk <? 512 then (Err (ErrMsg "QUIC datagram MTU too small"), [], l) else
          let id := (s_sequence s + 1) mod 2 ^ 64 in
          let l := put_session r (set_sequence id s) l in
          let '(out, refusal, k) := submit answers k (frames_of (s_flow s) id (Z.to_nat chunk) p) in
          let l := put_wire (l_packetSize l) (l_sentFrames l + Z.of_nat (length out)) l in
          match refusal with
          | None | Some Sent => (Ok tt, out, l)
          | Some (Refused e) => (Err e, out, l)
          | Some (TooLarge max) =>
              if Z.of_nat datagramHeader + 512 <? max then
                let '(r, more, l) := sendPacket attempts answers k r p (put_wire max (l_sentFrames l) l) in
                (r, (out ++ more)%list, l)
              else (Err (ErrMsg "DATAGRAM frame too large"), out, l)
          end
      end
  end.

(** [sender] on one queued job, as one step.  While [SendDatagram] blocks, the
    source has taken the job off the channel and still counts its bytes; the
    model has it in [l_send] until it is sent. *)
Definition sender (answers : nat -> sent) (l : datagramLink) : list (list Z) * datagramLink :=
  match l_send l with
  | [] => ([], l)
  | (r, p) :: rest =>
      let done := fun l => put_queue rest (l_queued l - Z.of_nat (length p)) l in
      if l_closed l then ([], done l) else
      if match l_sessions l !! r with Some s => s_done s | None => true end then ([], done l) else
      match sendPacket 2 answers 0 r p l with
      | (Ok _, out, l) => (out, done l)
      | (Err _, out, l) => (out, done (dropped 1 l))
      end
  end.

(** ** Closing *)

Definition Close (r : nat) (l : datagramLink) : datagramLink :=
  match l_sessions l !! r with
  | None => l
  | Some s =>
      if s_closed s then l else
      put_memory (l_reassembly l - map_sum (fun _ a => fr_total a) (s_parts s))
        (l_received l - sum_over (fun p => Z.of_nat (length p)) (s_in s))
        (put_flows (delete (s_flow s) (l_flows l))
           (<[r := {| s_flow := s_flow s; s_done := true; s_closed := true; s_sequence := s_sequence s; s_in := []; s_parts := ∅;
                      s_seen := s_seen s |}]> (l_sessions l)) l)
  end.
(** The context a session was opened with ends. *)
Definition cancel_session (r : nat) (l : datagramLink) : datagramLink :=
  match l_sessions l !! r with None => l | Some s => put_session r (end_session s) l end.
