(* ===== verification/DatagramInv.v ===== *)
(** * The bounds of a datagram link

    The three memory counters of a link are what they count, and stay within
    [maxDatagramMemory]; so do the number of flows, of partial packets, of
    queued packets and jobs, through every interleaving of the operations of
    Datagrams.v. *)

From S2P Require Import Prelude Tx GoStrings Calendar Digest Bytes Datagrams.
From stdpp Require Import base gmap strings list relations.
From Stdlib Require Import Ascii String.
Local Open Scope string_scope.
Local Open Scope Z_scope.
Local Abbreviation length := List.length.

(** ** Sums *)

Lemma sum_over_insert {A} (f : A -> Z) (l : list A) i x y : l !! i = Some x -> sum_over f (<[i := y]> l) = sum_over f l + f y - f x.
Proof.
  revert i. induction l as [|a l IH]; intros [|i] Hi; try done; simpl in *; [injection Hi as ->; lia|].
  rewrite (IH i Hi). lia.
Qed.
Lemma sum_over_elem_le {A} (f : A -> Z) (l : list A) i x : (forall y, 0 <= f y) -> l !! i = Some x -> f x <= sum_over f l.
Proof.
  intros Hf. revert i. induction l as [|a l IH]; intros [|i] Hi; try done; simpl in *.
  - injection Hi as ->. pose proof (sum_over_nonneg f l ltac:(auto)). lia.
  - pose proof (IH i Hi). pose proof (Hf a). lia.
Qed.

Lemma map_sum_filter `{Countable K} {V} (f : K -> V -> Z) (P : K * V -> bool) (m : gmap K V) :
  map_sum f (filter (fun kv => Is_true (P kv)) m) = map_sum (fun k v => if P (k, v) then f k v else 0) m.
Proof.
  induction m as [|k v m Hk IH] using map_ind; [by rewrite map_filter_empty, !map_sum_empty|].
  rewrite map_sum_insert_None by done. destruct (P (k, v)) eqn:E.
  - rewrite map_filter_insert_True by (rewrite E; done). rewrite map_sum_insert_None; [by rewrite IH|].
    apply map_lookup_filter_None. auto.
  - rewrite map_filter_insert_False by (rewrite E; auto). rewrite delete_id by done. by rewrite IH.
Qed.
Lemma map_sum_split `{Countable K} {V} (f : K -> V -> Z) (P : K * V -> bool) (m : gmap K V) :
  map_sum f (filter (fun kv => Is_true (P kv)) m) + map_sum f (filter (fun kv => Is_true (negb (P kv))) m) = map_sum f m.
Proof.
  rewrite !map_sum_filter, <- map_sum_add. apply map_sum_ext. intros k v _. destruct (P (k, v)); simpl; lia.
Qed.
Lemma filter_size `{Countable K} {V} (P : K * V -> Prop) `{!forall x, Decision (P x)} (m : gmap K V) : (size (filter P m) <= size m)%nat.
Proof. apply map_subseteq_size, map_filter_subseteq. Qed.

(** ** Partial packets *)

Definition part_bytes (o : option (list Z)) : Z := Z.of_nat (length (default [] o)).
Definition part_there (o : option (list Z)) : Z := match o with Some _ => 1 | None => 0 end.

Record part_inv (a : fragments) : Prop := {
  pa_total : 0 <= fr_total a <= maxPayload;
  pa_bytes : fr_bytes a = sum_over part_bytes (fr_parts a) /\ fr_bytes a <= fr_total a;
  pa_count : fr_count a = sum_over part_there (fr_parts a) /\ fr_count a < Z.of_nat (length (fr_parts a))
}.
Definition parts_inv (parts : gmap Z fragments) : Prop := forall id a, parts !! id = Some a -> part_inv a.
Definition totals (parts : gmap Z fragments) : Z := map_sum (fun _ a => fr_total a) parts.

Lemma totals_nonneg parts : parts_inv parts -> 0 <= totals parts.
Proof. intros Hp. apply map_sum_nonneg. intros id a Ha. by apply Hp, pa_total in Ha as [? _]. Qed.

Lemma joined_length parts : Z.of_nat (length (List.concat (map (default []) parts))) = sum_over part_bytes parts.
Proof. induction parts as [|o parts IH]; simpl; [done|]. rewrite length_app, Nat2Z.inj_add, IH. reflexivity. Qed.

Lemma add_part_inv index payload a : part_inv a -> fr_parts a !! index = Some None ->
  Z.of_nat (length payload) <= fr_total a - fr_bytes a ->
  fr_bytes (add_part index payload a) = sum_over part_bytes (fr_parts (add_part index payload a)) /\
  fr_bytes (add_part index payload a) <= fr_total a /\
  fr_count (add_part index payload a) = sum_over part_there (fr_parts (add_part index payload a)) /\
  fr_count (add_part index payload a) <= Z.of_nat (length (fr_parts (add_part index payload a))).
Proof.
  intros [_ [Hb Hbt] [Hc Hcl]] Hi Hl. simpl. rewrite !(sum_over_insert _ _ _ _ _ Hi), length_insert. unfold part_bytes, part_there in *. simpl. lia.
Qed.

Lemma fill_inv id total index count payload a parts re o parts' re' :
  parts_inv parts -> parts !! id = Some a -> re = totals parts ->
  fill id total index count payload a parts re = (o, parts', re') ->
  parts_inv parts' /\ re' = totals parts' /\ (size parts' <= size parts)%nat /\ re' <= re /\
  (forall p, o = Whole p -> Z.of_nat (length p) = total /\ total <= maxPayload).
Proof.
  intros Hp Ha Hre Hf. pose proof (Hp _ _ Ha) as Hpa. unfold fill in Hf.
  assert (Hsame : forall o', o' = Kept \/ o' = Rejected -> (o', parts, re) = (o, parts', re') ->
    parts_inv parts' /\ re' = totals parts' /\ (size parts' <= size parts)%nat /\ re' <= re /\
    (forall p, o = Whole p -> Z.of_nat (length p) = total /\ total <= maxPayload)).
  { intros o' Ho Heq. injection Heq as <- <- <-. split; [done|]. split; [done|]. split; [done|]. split; [done|]. intros p ->. by destruct Ho. }
  destruct (negb (fr_total a =? total) || _) eqn:E; [by eapply Hsame; eauto|]. bool_to_prop.
  destruct (fr_parts a !! index) as [[old|]|] eqn:Ei.
  - eapply Hsame; [|exact Hf]. case_bool_decide; auto.
  - destruct (fr_total a - fr_bytes a <? _) eqn:El; [by eapply Hsame; eauto|]. bool_to_prop.
    destruct (add_part_inv index payload a Hpa Ei ltac:(lia)) as (H1 & H2 & H3 & H4). set (a' := add_part index payload a) in *.
    destruct (negb (fr_count a' =? count)) eqn:Ec; injection Hf as <- <- <-; bool_to_prop.
    + assert (Hpa' : part_inv a').
      { split; [apply (pa_total _ Hpa)|split; [exact H1|exact H2]|]. split; [exact H3|].
        assert (length (fr_parts a') = length (fr_parts a)) by apply length_insert. lia. }
      split; [intros id' b [[<- <-]|[_ Hb]]%lookup_insert_Some; [done|by eapply Hp]|].
      split; [unfold totals in *; rewrite map_sum_insert, Ha; simpl; lia|].
      split; [rewrite map_size_insert_Some by (by eexists); lia|]. split; [lia|done].
    + split; [intros id' b [_ Hb]%lookup_delete_Some; by eapply Hp|].
      split; [unfold totals in *; rewrite (map_sum_delete _ _ _ _ Ha); simpl; lia|].
      split; [rewrite (map_size_delete_Some _ _ (mk_is_Some _ _ Ha)); lia|]. pose proof (pa_total _ Hpa). split; [simpl; lia|].
      intros p Hw. change (fr_bytes a + Z.of_nat (length payload)) with (fr_bytes a') in Hw. destruct (fr_bytes a' =? total) eqn:Et; [|done]. bool_to_prop. injection Hw as <-. unfold joined.
      rewrite joined_length. lia.
  - eapply Hsame; [|exact Hf]. auto.
Qed.

Lemma takeMemory_Some c n c' : takeMemory c n = Some c' -> c' = c + n /\ c' <= maxDatagramMemory.
Proof. unfold takeMemory. destruct (_ <? n) eqn:E; [done|]. bool_to_prop. intros [= <-]. lia. Qed.

Lemma new_fragments_inv now total count : 0 <= total <= maxPayload -> 0 < count -> part_inv (new_fragments now total count).
Proof.
  intros Ht Hc. assert (Hz : forall f : option (list Z) -> Z, f None = 0 -> forall n, sum_over f (replicate n None) = 0).
  { intros f Hf n. induction n as [|n IH]; simpl; lia. }
  split; simpl; rewrite ?Hz, ?length_replicate by done; lia.
Qed.

Lemma assemble_inv now id total index count payload parts re o parts' re' :
  parts_inv parts -> 0 <= total <= maxPayload -> 0 < count ->
  assemble now id total index count payload parts re = (o, parts', re') ->
  parts_inv parts' /\ re' - totals parts' = re - totals parts /\ (size parts' <= Nat.max 4 (size parts))%nat /\ re' <= Z.max re maxDatagramMemory /\
  (forall p, o = Whole p -> Z.of_nat (length p) <= maxPayload).
Proof.
  intros Hp Ht Hc Ha. unfold assemble in Ha.
  assert (Hshift : forall a parts0 re0, parts_inv parts0 -> parts0 !! id = Some a ->
    fill id total index count payload a parts0 re0 = (o, parts', re') ->
    parts_inv parts' /\ re' - totals parts' = re0 - totals parts0 /\ (size parts' <= size parts0)%nat /\ re' <= re0 /\
    (forall p, o = Whole p -> Z.of_nat (length p) <= maxPayload)).
  { intros a parts0 re0 Hp0 Ha0 Hf.
    assert (Hf' : fill id total index count payload a parts0 (totals parts0) = (o, parts', re' - re0 + totals parts0)).
    { revert Hf. unfold fill. repeat case_match; intros [= <- <- <-]; f_equal; cbn [fr_total add_part]; lia. }
    destruct (fill_inv _ _ _ _ _ _ _ _ _ _ _ Hp0 Ha0 eq_refl Hf') as (H1 & H2 & H3 & H4 & H5).
    split; [done|]. split; [lia|]. split; [done|]. split; [lia|]. intros p Hw. destruct (H5 p Hw). lia. }
  destruct (count =? 1).
  { injection Ha as <- <- <-. split; [done|]. split; [lia|]. split; [lia|]. split; [lia|].
    intros p Hw. destruct (Z.of_nat (length payload) =? total) eqn:E; [|done]. injection Hw as <-. bool_to_prop. lia. }
  destruct (parts !! id) as [a|] eqn:Ei.
  { destruct (Hshift a parts re Hp Ei Ha) as (H1 & H2 & H3 & H4 & H5). split; [done|]. split; [lia|]. split; [lia|]. split; [lia|done]. }
  destruct (4 <=? Z.of_nat (size parts)) eqn:E4.
  { injection Ha as <- <- <-. split; [done|]. split; [lia|]. split; [lia|]. split; [lia|done]. }
  destruct (takeMemory re total) as [re0|] eqn:Em.
  2: { injection Ha as <- <- <-. split; [done|]. split; [lia|]. split; [lia|]. split; [lia|done]. }
  apply takeMemory_Some in Em as [-> Hm]. bool_to_prop.
  assert (Hp0 : parts_inv (<[id := new_fragments now total count]> parts)).
  { intros id' b [[<- <-]|[_ Hb]]%lookup_insert_Some; [by apply new_fragments_inv|by eapply Hp]. }
  destruct (Hshift _ _ _ Hp0 (lookup_insert_eq _ _ _) Ha) as (H1 & H2 & H3 & H4 & H5).
  unfold totals in H2. rewrite map_sum_insert_None in H2 by done. simpl in H2. rewrite map_size_insert_None in H3 by done.
  split; [done|]. split; [unfold totals; lia|]. split; [lia|]. split; [lia|done].
Qed.

(** ** Sessions and the link *)

Definition queue_bytes (q : list (list Z)) : Z := sum_over (fun p => Z.of_nat (length p)) q.
Definition job_bytes (q : list (nat * list Z)) : Z := sum_over (fun j => Z.of_nat (length j.2)) q.

Record session_inv (s : DatagramSession) : Prop := {
  se_parts : parts_inv (s_parts s) /\ (size (s_parts s) <= 4)%nat;
  se_seen : (size (s_seen s) <= 256)%nat;
  se_in : (length (s_in s) <= 32)%nat;
  se_closed : s_closed s = true -> s_done s = true /\ s_parts s = ∅ /\ s_in s = []
}.

Record link_inv (l : datagramLink) : Prop := {
  li_queued : l_queued l = job_bytes (l_send l) /\ l_queued l <= maxDatagramMemory /\ (length (l_send l) <= 256)%nat;
  li_reassembly : l_reassembly l = sum_over (fun s => totals (s_parts s)) (l_sessions l) /\ l_reassembly l <= maxDatagramMemory;
  li_received : l_received l = sum_over (fun s => queue_bytes (s_in s)) (l_sessions l) /\ l_received l <= maxDatagramMemory;
  li_flows : Z.of_nat (size (l_flows l)) <= maxDatagramFlows /\
    (forall f r, l_flows l !! f = Some r -> exists s, l_sessions l !! r = Some s /\ s_flow s = f /\ s_closed s = false);
  li_sessions r s : l_sessions l !! r = Some s -> session_inv s
}.

Lemma queue_bytes_nonneg q : 0 <= queue_bytes q.
Proof. apply sum_over_nonneg. intros. lia. Qed.

(** Replacing a session by one with the same flow, the counters moving with
    its memory. *)
Lemma update_inv l l' r s s' : link_inv l -> l_sessions l !! r = Some s -> session_inv s' ->
  s_flow s' = s_flow s -> s_closed s' = s_closed s ->
  l_sessions l' = <[r := s']> (l_sessions l) -> l_flows l' = l_flows l -> l_send l' = l_send l -> l_queued l' = l_queued l ->
  l_reassembly l' = l_reassembly l + totals (s_parts s') - totals (s_parts s) -> l_reassembly l' <= maxDatagramMemory ->
  l_received l' = l_received l + queue_bytes (s_in s') - queue_bytes (s_in s) -> l_received l' <= maxDatagramMemory ->
  link_inv l'.
Proof.
  intros [Hq [Hr Hrm] [Hv Hvm] [Hfs Hf] Hs] Hl Hs' Hflow Hclosed Es Ef Eq Eqq Er Erm Ev Evm. split.
  - by rewrite Eq, Eqq.
  - rewrite Es, (sum_over_insert _ _ _ _ _ Hl). split; lia.
  - rewrite Es, (sum_over_insert _ _ _ _ _ Hl). split; lia.
  - rewrite Ef. split; [done|]. intros f r' Hfr. rewrite Es. destruct (Hf f r' Hfr) as (s0 & Hs0 & H1 & H2).
    destruct (decide (r = r')) as [<-|Hne].
    + rewrite Hs0 in Hl. injection Hl as ->. exists s'. rewrite list_lookup_insert_eq by (by eapply lookup_lt_Some). split; [done|]. by rewrite Hflow, Hclosed.
    + exists s0. by rewrite list_lookup_insert_ne.
  - intros r' s0. rewrite Es. intros Hs0. destruct (decide (r = r')) as [<-|Hne].
    + rewrite list_lookup_insert_eq in Hs0 by (by eapply lookup_lt_Some). by injection Hs0 as <-.
    + rewrite list_lookup_insert_ne in Hs0 by done. by eapply Hs.
Qed.

(** Counters that only report. *)
Lemma report_inv l l' : link_inv l -> l_sessions l' = l_sessions l -> l_flows l' = l_flows l -> l_send l' = l_send l ->
  l_queued l' = l_queued l -> l_reassembly l' = l_reassembly l -> l_received l' = l_received l -> link_inv l'.
Proof. intros [H1 H2 H3 H4 H5] E1 E2 E3 E4 E5 E6. split; rewrite ?E1, ?E2, ?E3, ?E4, ?E5, ?E6; done. Qed.
Lemma dropped_inv n l : link_inv l -> link_inv (dropped n l).
Proof. intros. by eapply report_inv. Qed.
Lemma put_wire_inv p n l : link_inv l -> link_inv (put_wire p n l).
Proof. intros. by eapply report_inv. Qed.
Lemma close_conn_inv l : link_inv l -> link_inv (close_conn l).
Proof. intros. by eapply report_inv. Qed.
#[local] Hint Resolve dropped_inv put_wire_inv close_conn_inv : core.

Lemma new_link_inv : link_inv new_link.
Proof.
  split; cbn [l_queued l_send l_reassembly l_sessions l_received l_flows new_link].
  - split; [done|]. split; [done|]. simpl. lia.
  - done.
  - done.
  - split; [done|]. intros f r Hf. by rewrite lookup_empty in Hf.
  - intros r s Hs. by rewrite lookup_nil in Hs.
Qed.

Lemma set_sequence_inv r s n l : link_inv l -> l_sessions l !! r = Some s -> link_inv (put_session r (set_sequence n s) l).
Proof.
  intros Hi Hs. pose proof (li_sessions _ Hi _ _ Hs) as [H1 H2 H3 H4]. destruct (li_reassembly _ Hi), (li_received _ Hi).
  apply (update_inv l _ r s (set_sequence n s)); try done; simpl; lia.
Qed.
Lemma cancel_inv r l : link_inv l -> link_inv (cancel_session r l).
Proof.
  intros Hi. unfold cancel_session. destruct (l_sessions l !! r) as [s|] eqn:Hs; [|done].
  pose proof (li_sessions _ Hi _ _ Hs) as [H1 H2 H3 H4]. destruct (li_reassembly _ Hi), (li_received _ Hi).
  apply (update_inv l _ r s (end_session s)); try done; simpl; try lia. split; simpl; try done. intros Hc. by destruct (H4 Hc) as (_ & ? & ?).
Qed.

Lemma add_inv flow l : link_inv l -> link_inv (add flow l).2.
Proof.
  intros Hi. unfold add. destruct (_ || l_closed l) eqn:E; [done|]. bool_to_prop. destruct Hi as [Hq Hr Hv [Hfs Hf] Hs]. simpl.
  assert (Hn : l_flows l !! flow = None) by (by apply eq_None_not_Some).
  split; simpl; rewrite ?sum_over_app; simpl.
  - done.
  - unfold totals at 2. simpl. rewrite map_sum_empty. split; [|tauto]. lia.
  - change (queue_bytes []) with 0. split; [|tauto]. lia.
  - split; [rewrite map_size_insert_None by done; lia|]. intros f r [[<- <-]|[_ Hfr]]%lookup_insert_Some.
    + exists (new_session flow). rewrite lookup_app_r, Nat.sub_diag by lia. done.
    + destruct (Hf f r Hfr) as (s & Hsr & ?). exists s. rewrite lookup_app_l by (by eapply lookup_lt_Some). done.
  - intros r s [Hsr|[_ Hsr]]%lookup_app_Some; [by eapply Hs|]. apply list_lookup_singleton_Some in Hsr as [_ <-].
    split; cbn [new_session s_parts s_seen s_in s_closed]; rewrite ?map_size_empty; [|lia|simpl; lia|done].
    split; [|lia]. intros ? ? Hx. by rewrite lookup_empty in Hx.
Qed.

(** ** Each operation keeps the bounds *)

Record expires (s : DatagramSession) (l : datagramLink) (s1 : DatagramSession) (l1 : datagramLink) : Prop := {
  ex_inv : session_inv s1;
  ex_memory : l_reassembly l1 - totals (s_parts s1) = l_reassembly l - totals (s_parts s) /\ l_reassembly l1 <= l_reassembly l;
  ex_session : s_flow s1 = s_flow s /\ s_closed s1 = s_closed s /\ s_done s1 = s_done s /\ s_in s1 = s_in s;
  ex_link : l_sessions l1 = l_sessions l /\ l_flows l1 = l_flows l /\ l_send l1 = l_send l /\ l_queued l1 = l_queued l /\
            l_received l1 = l_received l
}.

Lemma expireLocked_spec now s l s1 l1 : session_inv s -> expireLocked now s l = (s1, l1) -> expires s l s1 l1.
Proof.
  intros [[Hp Hp4] Hseen Hin Hcl] He. unfold expireLocked in He. injection He as <- <-.
  pose proof (map_sum_split (fun (_ : Z) a => fr_total a) (fun kv : Z * fragments => expired now kv.2) (s_parts s)) as Hsplit.
  assert (Hdead : 0 <= map_sum (fun (_ : Z) a => fr_total a) (filter (fun kv : Z * fragments => Is_true (expired now kv.2)) (s_parts s))).
  { apply totals_nonneg. intros id a [Ha _]%map_lookup_filter_Some. by eapply Hp. }
  split; simpl; [|unfold totals in *; simpl; lia|done|done].
  split; simpl.
  - split; [intros id a [Ha _]%map_lookup_filter_Some; by eapply Hp|]. etrans; [apply filter_size|done].
  - etrans; [apply filter_size|done].
  - done.
  - intros Hc. destruct (Hcl Hc) as (H1 & H2 & H3). rewrite H2. split; [done|]. split; [apply map_filter_empty|done].
Qed.

Section Steps.
(** The iteration over a map yields one of its keys. *)
Context (choose : gmap Z Z -> Z) (Hchoose : forall m : gmap Z Z, m <> ∅ -> is_Some (m !! choose m)).

Lemma mark_seen_size now id seen : (size seen <= 256)%nat -> (size (mark_seen choose now id seen) <= 256)%nat.
Proof using Hchoose.
  intros Hs. unfold mark_seen. set (m := if 256 <=? Z.of_nat (size seen) then delete (choose seen) seen else seen). assert (Hm : (size m < 256)%nat).
  { unfold m. destruct (256 <=? Z.of_nat (size seen)) eqn:E; bool_to_prop; [|lia].
    assert (Hne : seen <> ∅) by (intros ->; rewrite map_size_empty in E; lia). rewrite map_size_delete_Some by auto. lia. }
  destruct (m !! id) eqn:Ei; [rewrite map_size_insert_Some by (by eexists)|rewrite map_size_insert_None by done]; lia.
Qed.

Lemma hand_over_inv now id packet r s0 s l0 l : link_inv l0 -> l_sessions l0 !! r = Some s0 -> session_inv s ->
  s_flow s = s_flow s0 -> s_closed s = s_closed s0 -> s_done s = false -> s_in s = s_in s0 ->
  l_sessions l = l_sessions l0 -> l_flows l = l_flows l0 -> l_send l = l_send l0 -> l_queued l = l_queued l0 ->
  l_received l = l_received l0 ->
  l_reassembly l = l_reassembly l0 + totals (s_parts s) - totals (s_parts s0) -> l_reassembly l <= maxDatagramMemory ->
  link_inv (hand_over choose now id packet r s l).
Proof using Hchoose.
  intros Hi Hs Hse Hf Hc Hd Hin E1 E2 E3 E4 E5 E6 E7. unfold hand_over. destruct (li_received _ Hi) as [_ Hvm].
  destruct Hse as [Hp Hsn Hq Hcl]. assert (Hs' : forall q, (length q <= 32)%nat -> session_inv (set_in q (set_seen (mark_seen choose now id (s_seen s)) s))).
  { intros q Hql. split; simpl; [done|by apply mark_seen_size|done|]. intros Hcc. destruct (Hcl Hcc) as (H1 & _). congruence. }
  assert (Hstay : link_inv (dropped 1 (put_session r (set_seen (mark_seen choose now id (s_seen s)) s) l))).
  { apply dropped_inv, (update_inv l0 _ r s0 (set_seen (mark_seen choose now id (s_seen s)) s)); try done; simpl; rewrite ?E1; try done; try lia.
    - exact (Hs' (s_in s) Hq).
    - rewrite E5, Hin. lia. }
  destruct (takeMemory (l_received l) (Z.of_nat (length packet))) as [rv|] eqn:Em; [|done]. apply takeMemory_Some in Em as [-> Hm].
  simpl. destruct (length (s_in s) <? 32)%nat eqn:El; [|done]. apply Nat.ltb_lt in El.
  eapply (update_inv l0 _ r s0 (set_in (s_in s ++ [packet])%list (set_seen (mark_seen choose now id (s_seen s)) s))); try done; simpl; rewrite ?E1; try done; try lia.
  - apply Hs'. rewrite length_app. simpl. lia.
  - rewrite E5, Hin. unfold queue_bytes. rewrite sum_over_app. simpl. lia.
Qed.

Lemma accept_inv now frame r l : link_inv l -> link_inv (accept choose now frame r l).
Proof using Hchoose.
  intros Hi. unfold accept. destruct (l_sessions l !! r) as [s|] eqn:Hs; [|done].
  destruct (_ || (1 <? _) && _) eqn:Eg; [by apply dropped_inv|]. bool_to_prop.
  destruct (s_done s) eqn:Ed; [done|]. destruct (expireLocked now s l) as [s1 l1] eqn:Ee.
  destruct (expireLocked_spec _ _ _ _ _ (li_sessions _ Hi _ _ Hs) Ee) as [Hs1 [Hm1 Hm2] (K1 & K2 & K3 & K4) (L1 & L2 & L3 & L4 & L5)].
  destruct (li_reassembly _ Hi) as [_ Hrm], (li_received _ Hi) as [_ Hvm].
  destruct (bool_decide _).
  { apply (update_inv l _ r s s1); try done; simpl; rewrite ?L1; try done; rewrite ?L5, ?K4; lia. }
  destruct (assemble _ _ _ _ _ _ _ _) as [[o parts] re] eqn:Ea. destruct Hs1 as [[Hp1 Hp14] Hsn1 Hin1 Hcl1].
  assert (Ht : 0 <= Uint32 frame 17 <= maxPayload) by (pose proof (Nat2Z.is_nonneg (length (drop datagramHeader frame))); lia).
  assert (Hcnt : 0 < Uint16 frame 23) by lia. destruct (assemble_inv _ _ _ _ _ _ _ _ _ _ _ Hp1 Ht Hcnt Ea) as (A1 & A2 & A3 & A4 & A5).
  assert (Hs2 : session_inv (set_parts parts s1)).
  { split; simpl; [split; [done|lia]|done|done|]. intros Hcc. rewrite K2 in Hcc. destruct (se_closed _ (li_sessions _ Hi _ _ Hs) Hcc). congruence. }
  assert (Hput : forall n, link_inv (dropped n (put_session r (set_parts parts s1) (put_memory re (l_received l1) l1)))).
  { intros n. apply dropped_inv, (update_inv l _ r s (set_parts parts s1)); try done; simpl; rewrite ?L1; try done; rewrite ?L5, ?K4; lia. }
  destruct o as [packet| |].
  - apply (hand_over_inv _ _ _ _ s _ l); try done; simpl; try congruence; lia.
  - eapply report_inv; [apply (Hput 0)|..]; done.
  - apply Hput.
Qed.

Lemma receive_inv now p l : link_inv l -> link_inv (receive choose now p l).
Proof using Hchoose. intros Hi. unfold receive. destruct (_ || _); [auto|]. destruct (l_flows l !! _); [by apply accept_inv|auto]. Qed.
End Steps.

Lemma collect_inv now r l : link_inv l -> link_inv (collect now r l).
Proof.
  intros Hi. unfold collect. destruct (l_sessions l !! r) as [s|] eqn:Hs; [|done]. destruct (expireLocked now s l) as [s1 l1] eqn:Ee.
  destruct (expireLocked_spec _ _ _ _ _ (li_sessions _ Hi _ _ Hs) Ee) as [Hs1 [Hm1 Hm2] (K1 & K2 & K3 & K4) (L1 & L2 & L3 & L4 & L5)].
  destruct (li_reassembly _ Hi) as [_ Hrm], (li_received _ Hi) as [_ Hvm].
  apply (update_inv l _ r s s1); try done; simpl; rewrite ?L1; try done; rewrite ?L5, ?K4; lia.
Qed.

Lemma Read_inv n r l : link_inv l -> link_inv (Read n r l).2.
Proof.
  intros Hi. unfold Read. destruct (l_sessions l !! r) as [s|] eqn:Hs; [|done]. destruct (s_in s) as [|p rest] eqn:Ein; [done|].
  pose proof (li_sessions _ Hi _ _ Hs) as [Hp Hsn Hq Hcl]. destruct (li_reassembly _ Hi) as [_ Hrm], (li_received _ Hi) as [_ Hvm].
  apply (update_inv l _ r s (set_in rest s)); try done; simpl; try lia.
  - split; simpl; try done; [rewrite Ein in Hq; simpl in Hq; lia|]. intros Hc. destruct (Hcl Hc) as (_ & _ & H). congruence.
  - rewrite Ein. unfold queue_bytes. simpl. lia.
Qed.

Lemma put_queue_inv send queued l : link_inv l -> queued = job_bytes send -> queued <= maxDatagramMemory -> (length send <= 256)%nat ->
  link_inv (put_queue send queued l).
Proof. intros [H1 H2 H3 H4 H5] Hq Hm Hl. split; simpl; done. Qed.

Lemma Write_inv now deadline auth p r l : link_inv l -> link_inv (WriteAuthorized now deadline auth p r l).2.
Proof.
  intros Hi. unfold WriteAuthorized. destruct (_ <? _); [done|]. destruct (l_sessions l !! r) as [s|]; [|done].
  destruct (s_done s || l_closed l); [done|]. destruct (match deadline with Some _ => _ | None => _ end); [done|].
  destruct (length (l_send l) =? 256)%nat eqn:E; [done|]. apply Nat.eqb_neq in E.
  destruct (takeMemory _ _) as [q|] eqn:Em; [|done]. apply takeMemory_Some in Em as [-> Hm]. destruct (li_queued _ Hi) as (Hq & Hqm & Hl).
  assert (Hput : link_inv (put_queue (l_send l ++ [(r, p)])%list (l_queued l + Z.of_nat (length p)) l)).
  { apply put_queue_inv; [done| |done|rewrite length_app; simpl; lia]. unfold job_bytes in *. rewrite sum_over_app. simpl. lia. }
  by destruct auth as [[[]|e]|].
Qed.

Lemma sendPacket_inv attempts answers : forall k r p l,
  link_inv l -> link_inv (sendPacket attempts answers k r p l).2 /\ l_send (sendPacket attempts answers k r p l).2 = l_send l /\
  l_queued (sendPacket attempts answers k r p l).2 = l_queued l.
Proof.
  induction attempts as [|attempts IH]; intros k r p l Hi; cbn [sendPacket]; [done|].
  destruct (l_sessions l !! r) as [s|] eqn:Hs; [|done]. destruct (_ <? 512); [done|].
  destruct (submit _ _ _) as [[out refusal] k']. pose proof (set_sequence_inv r s ((s_sequence s + 1) mod 2 ^ 64) l Hi Hs) as Hi1.
  destruct refusal as [[|max|e]|]; try (split; [by apply put_wire_inv|done]).
  destruct (_ <? max); [|split; [by apply put_wire_inv|done]].
  match goal with |- context [sendPacket attempts answers k' r p ?x] => destruct (IH k' r p x) as (H1 & H2 & H3); [by apply put_wire_inv, put_wire_inv|];
    destruct (sendPacket attempts answers k' r p x) as [[? ?] ?] end. simpl in *. done.
Qed.

Lemma sender_inv answers l : link_inv l -> link_inv (sender answers l).2.
Proof.
  intros Hi. unfold sender. destruct (l_send l) as [|[r p] rest] eqn:Es; [done|]. destruct (li_queued _ Hi) as (Hq & Hqm & Hl).
  rewrite Es in Hq, Hl. unfold job_bytes in Hq. simpl in Hq, Hl. pose proof (Nat2Z.is_nonneg (length p)) as Hlp.
  assert (Hput : forall l', link_inv l' -> l_queued l' = l_queued l -> link_inv (put_queue rest (l_queued l' - Z.of_nat (length p)) l')).
  { intros l' Hi' Hq'. apply put_queue_inv; [done|unfold job_bytes; lia|lia|lia]. }
  destruct (l_closed l); [by apply Hput|]. destruct (match l_sessions l !! r with Some _ => _ | None => _ end); [by apply Hput|].
  destruct (sendPacket_inv 2 answers 0 r p l Hi) as (H1 & _ & H3). destruct (sendPacket 2 answers 0 r p l) as [[[[]|e] out] l1].
  - by apply Hput.
  - apply Hput; [by apply dropped_inv|done].
Qed.

Lemma Close_inv r l : link_inv l -> link_inv (Close r l).
Proof.
  intros Hi. unfold Close. destruct (l_sessions l !! r) as [s|] eqn:Hs; [|done]. destruct (s_closed s) eqn:Ec; [done|].
  pose proof (li_sessions _ Hi _ _ Hs) as [[Hp Hp4] Hsn Hq Hcl]. destruct Hi as [Hqu [Hr Hrm] [Hv Hvm] [Hfs Hf] Hss].
  assert (Ht := totals_nonneg _ Hp). assert (Hqb := queue_bytes_nonneg (s_in s)). fold (totals (s_parts s)) (queue_bytes (s_in s)).
  split; cbn [l_queued l_send l_reassembly l_sessions l_received l_flows put_memory put_flows].
  - done.
  - rewrite (sum_over_insert _ _ _ _ _ Hs). cbn [s_parts]. change (totals ∅) with 0. split; lia.
  - rewrite (sum_over_insert _ _ _ _ _ Hs). cbn [s_in]. change (queue_bytes []) with 0. split; lia.
  - split; [etrans; [|exact Hfs]; apply inj_le, map_subseteq_size, delete_subseteq|].
    intros f r' [Hne Hfr]%lookup_delete_Some. destruct (Hf f r' Hfr) as (s' & Hs' & H1 & H2). exists s'. split; [|done].
    rewrite list_lookup_insert_ne; [done|]. intros ->. rewrite Hs' in Hs. injection Hs as ->. congruence.
  - intros r' s'. destruct (decide (r = r')) as [<-|Hne].
    + rewrite list_lookup_insert_eq by (by eapply lookup_lt_Some). intros [= <-]. split; simpl; try done; [|lia].
      rewrite map_size_empty. split; [|lia]. intros ? ? Hx. by rewrite lookup_empty in Hx.
    + rewrite list_lookup_insert_ne by done. apply Hss.
Qed.

(** ** Every interleaving *)

Inductive dstep (choose : gmap Z Z -> Z) (l : datagramLink) : datagramLink -> Prop :=
  | ds_add flow : dstep choose l (add flow l).2
  | ds_receive now p : dstep choose l (receive choose now p l)
  | ds_collect now r : dstep choose l (collect now r l)
  | ds_read n r : dstep choose l (Read n r l).2
  | ds_write now deadline auth p r : dstep choose l (WriteAuthorized now deadline auth p r l).2
  | ds_send answers : dstep choose l (sender answers l).2
  | ds_cancel r : dstep choose l (cancel_session r l)
  | ds_close r : dstep choose l (Close r l)
  | ds_disconnect : dstep choose l (close_conn l).

Definition link_reachable (choose : gmap Z Z -> Z) (l : datagramLink) : Prop := rtc (dstep choose) new_link l.

Lemma link_step_inv choose l l' : (forall m : gmap Z Z, m <> ∅ -> is_Some (m !! choose m)) -> link_inv l -> dstep choose l l' -> link_inv l'.
Proof.
  intros Hc Hi Hstep. destruct Hstep; eauto using add_inv, receive_inv, collect_inv, Read_inv, Write_inv, sender_inv, cancel_inv, Close_inv, close_conn_inv.
Qed.
Lemma reachable_link choose l : (forall m : gmap Z Z, m <> ∅ -> is_Some (m !! choose m)) -> link_reachable choose l -> link_inv l.
Proof.
  intros Hc Hr. pattern l. eapply rtc_ind_r; [apply new_link_inv| |exact Hr]. intros y z _ Hstep Hi. by eapply link_step_inv.
Qed.
