(* ===== verification/DatagramTrip.v ===== *)
(** * A packet cut into datagrams arrives whole, and once

    The frames of [sendPacket] put together by [accept], in whatever order and
    however often the network delivers them, while the link does anything else
    in between. *)

From S2P Require Import Prelude Tx GoStrings Calendar Digest Bytes Datagrams DatagramInv.
From stdpp Require Import base gmap strings list relations.
From Stdlib Require Import Ascii String.
Local Open Scope string_scope.
Local Open Scope Z_scope.
Local Abbreviation length := List.length.

(** ** Cutting *)

Section Cut.
Context (chunk : nat) (p : list Z) (Hchunk : (0 < chunk)%nat).

Lemma frame_count_pos : (1 <= frame_count chunk p)%nat.
Proof using Type. clear Hchunk. unfold frame_count. lia. Qed.

(** Each frame before the last is full; none but a lone one is empty. *)
Lemma frame_count_cover : (length p <= frame_count chunk p * chunk)%nat.
Proof using Hchunk. unfold frame_count. pose proof (Nat.div_mod_eq (length p + chunk - 1) chunk). pose proof (Nat.mod_upper_bound (length p + chunk - 1) chunk). nia. Qed.
Lemma frame_count_tight i : (i < frame_count chunk p)%nat -> (1 < frame_count chunk p)%nat -> (i * chunk < length p)%nat.
Proof using Hchunk.
  unfold frame_count. intros Hi H1. pose proof (Nat.div_mod_eq (length p + chunk - 1) chunk). assert (Hq : (i + 1 <= (length p + chunk - 1) / chunk)%nat) by lia. nia.
Qed.
Lemma frame_count_bound : (512 <= chunk)%nat -> Z.of_nat (length p) <= maxPayload -> (frame_count chunk p <= 128)%nat.
Proof using Hchunk.
  unfold maxPayload. intros Hc Hl. pose proof (frame_count_tight 128). lia.
Qed.

Lemma chunk_length i : (length (chunk_of chunk i p) <= length p)%nat.
Proof using Type. clear Hchunk. unfold chunk_of. rewrite length_take, length_drop. lia. Qed.
Lemma chunk_nonempty i : (i < frame_count chunk p)%nat -> (1 < frame_count chunk p)%nat -> (0 < length (chunk_of chunk i p))%nat.
Proof using Hchunk. intros Hi H1. pose proof (frame_count_tight i Hi H1). unfold chunk_of. rewrite length_take, length_drop. lia. Qed.

Lemma concat_chunks n : List.concat (map (fun i => chunk_of chunk i p) (seq 0 n)) = take (n * chunk) p.
Proof.
  clear Hchunk. induction n as [|n IH]; [done|]. rewrite seq_S, map_app, concat_app, IH. cbn [map List.concat Nat.add]. rewrite app_nil_r. unfold chunk_of.
  rewrite take_take_drop. f_equal. lia.
Qed.
Lemma concat_frames : List.concat (map (fun i => chunk_of chunk i p) (seq 0 (frame_count chunk p))) = p.
Proof using Hchunk. rewrite concat_chunks. apply take_ge, frame_count_cover. Qed.
End Cut.

(** ** Reading a frame *)

Record frame_fields (flow id total index count : Z) (payload f : list Z) : Prop := {
  ff_length : (datagramHeader <= length f)%nat /\ nth 0 f 0 = 1;
  ff_flow : Uint64 f 1 = flow;
  ff_id : Uint64 f 9 = id;
  ff_total : Uint32 f 17 = total;
  ff_index : Uint16 f 21 = index;
  ff_count : Uint16 f 23 = count;
  ff_payload : drop datagramHeader f = payload
}.

Lemma frame_fields_spec flow id total index count payload :
  0 <= flow < 2 ^ 64 -> 0 <= id < 2 ^ 64 -> 0 <= total < 2 ^ 32 -> 0 <= index < 2 ^ 16 -> 0 <= count < 2 ^ 16 ->
  frame_fields flow id total index count payload (frame_bytes flow id total index count payload).
Proof.
  intros Hf Hi Ht Hx Hc. pose proof (be_value_64 _ Hf) as Vf. pose proof (be_value_64 _ Hi) as Vi. pose proof (be_value_32 _ Ht) as Vt.
  pose proof (be_value_16 _ Hx) as Vx. pose proof (be_value_16 _ Hc) as Vc. unfold frame_bytes.
  destruct (list_of_8 (PutUint64 flow) (PutUint64_length _)) as (f1 & f2 & f3 & f4 & f5 & f6 & f7 & f8 & Ef). rewrite Ef in *.
  destruct (list_of_8 (PutUint64 id) (PutUint64_length _)) as (i1 & i2 & i3 & i4 & i5 & i6 & i7 & i8 & Ei). rewrite Ei in *.
  destruct (list_of_4 (PutUint32 total) (PutUint32_length _)) as (t1 & t2 & t3 & t4 & Et). rewrite Et in *.
  destruct (list_of_2 (PutUint16 index) (PutUint16_length _)) as (x1 & x2 & Ex). rewrite Ex in *.
  destruct (list_of_2 (PutUint16 count) (PutUint16_length _)) as (c1 & c2 & Ec). rewrite Ec in *.
  split; [|exact Vf|exact Vi|exact Vt|exact Vx|exact Vc|reflexivity]. unfold datagramHeader. cbn [app List.length]. split; [lia|reflexivity].
Qed.

(** ** What a link does *)

Inductive event :=
  | EAdd (flow : Z) | EReceive (now : Z) (frame : list Z) | ECollect (now : Z) (r : nat) | ERead (n r : nat)
  | EWrite (now : Z) (deadline : option Z) (auth : option (res unit)) (p : list Z) (r : nat)
  | ESend (answers : nat -> sent) | ECancel (r : nat) | EClose (r : nat) | EDisconnect.
Definition exec (choose : gmap Z Z -> Z) (e : event) (l : datagramLink) : datagramLink :=
  match e with
  | EAdd flow => (add flow l).2
  | EReceive now frame => receive choose now frame l
  | ECollect now r => collect now r l
  | ERead n r => (Read n r l).2
  | EWrite now deadline auth p r => (WriteAuthorized now deadline auth p r l).2
  | ESend answers => (sender answers l).2
  | ECancel r => cancel_session r l
  | EClose r => Close r l
  | EDisconnect => close_conn l
  end.
Lemma exec_step choose e l : dstep choose l (exec choose e l).
Proof. destruct e; constructor. Qed.
Definition run choose (es : list event) (l : datagramLink) : datagramLink := foldl (fun l e => exec choose e l) l es.

(** The packets that wait for the reader of a session, and those a run adds
    to them, each with its packet number. *)
Definition queue_of (r : nat) (l : datagramLink) : list (list Z) := match l_sessions l !! r with Some s => s_in s | None => [] end.
Definition arrived (r : nat) (e : event) (l l' : datagramLink) : list (Z * list Z) :=
  match e with
  | EReceive _ frame => map (fun packet => (Uint64 frame 9, packet)) (drop (length (queue_of r l)) (queue_of r l'))
  | _ => []
  end.
Fixpoint deliveries choose (r : nat) (es : list event) (l : datagramLink) : list (Z * list Z) :=
  match es with
  | [] => []
  | e :: es => (arrived r e l (exec choose e l) ++ deliveries choose r es (exec choose e l))%list
  end.

(** A datagram with the header of packet [id] of a flow. *)
Definition numbered (flow id : Z) (frame : list Z) : Prop :=
  (datagramHeader <= length frame)%nat /\ nth 0 frame 0 = 1 /\ Uint64 frame 1 = flow /\ Uint64 frame 9 = id.
#[global] Instance numbered_dec flow id frame : Decision (numbered flow id frame).
Proof. unfold numbered. apply _. Defined.

(** The flow is open, and fewer packet numbers are remembered than fit. *)
Definition listening (flow : Z) (r : nat) (l : datagramLink) : Prop :=
  l_flows l !! flow = Some r /\ forall s, l_sessions l !! r = Some s -> s_done s = false /\ (size (s_seen s) < 256)%nat.
(** There is room for a packet of [n] bytes. *)
Definition room (id n : Z) (r : nat) (l : datagramLink) : Prop :=
  forall s, l_sessions l !! r = Some s -> s_seen s !! id = None ->
    (length (s_in s) < 32)%nat /\ l_received l + n <= maxDatagramMemory /\
    (s_parts s !! id = None -> (size (s_parts s) < 4)%nat /\ l_reassembly l + n <= maxDatagramMemory).
(** The session listens all along, and there is room whenever a datagram of
    the packet arrives. *)
Fixpoint roomy choose (flow id n : Z) (r : nat) (es : list event) (l : datagramLink) : Prop :=
  listening flow r l /\
  match es with
  | [] => True
  | e :: es => (match e with EReceive _ frame => numbered flow id frame -> room id n r l | _ => True end) /\
               roomy choose flow id n r es (exec choose e l)
  end.
(** What happens within a second from [t0], and no datagram is taken for one of
    the packet that is not. *)
Definition timely (t0 : Z) (e : event) : Prop :=
  match e with EReceive now _ | ECollect now _ => t0 <= now < t0 + fragmentTTL | _ => True end.
Definition honest (flow id : Z) (chunk : nat) (p : list Z) (e : event) : Prop :=
  match e with EReceive _ frame => numbered flow id frame -> frame ∈ frames_of flow id chunk p | _ => True end.

(** ** Putting together *)

Section Trip.
Context (choose : gmap Z Z -> Z) (Hchoose : forall m : gmap Z Z, m <> ∅ -> is_Some (m !! choose m)).
Context (flow id : Z) (chunk : nat) (p : list Z) (r : nat) (t0 : Z).
Context (Hflow : 0 <= flow < 2 ^ 64) (Hid : 0 <= id < 2 ^ 64) (Hchunk : (512 <= chunk)%nat) (Hp : Z.of_nat (length p) <= maxPayload).

Definition nth_frame (i : nat) : list Z :=
  frame_bytes flow id (Z.of_nat (length p)) (Z.of_nat i) (Z.of_nat (frame_count chunk p)) (chunk_of chunk i p).

(** The partial packet when the fragments of [I] have arrived. *)
Definition partial (I : list nat) : list (option (list Z)) :=
  map (fun i => if bool_decide (i ∈ I) then Some (chunk_of chunk i p) else None) (seq 0 (frame_count chunk p)).

Lemma partial_length I : length (partial I) = frame_count chunk p.
Proof. unfold partial. by rewrite length_map, length_seq. Qed.
Lemma partial_lookup I i : (i < frame_count chunk p)%nat ->
  partial I !! i = Some (if bool_decide (i ∈ I) then Some (chunk_of chunk i p) else None).
Proof. intros Hi. unfold partial. rewrite list_lookup_fmap, lookup_seq_lt by done. done. Qed.
Lemma partial_insert I i : (i < frame_count chunk p)%nat -> <[i := Some (chunk_of chunk i p)]> (partial I) = partial (i :: I).
Proof.
  intros Hi. apply list_eq. intros j. destruct (decide (j < frame_count chunk p)%nat) as [Hj|Hj].
  - rewrite (partial_lookup (i :: I)) by done. destruct (decide (i = j)) as [<-|Hne].
    + rewrite list_lookup_insert_eq by (by rewrite partial_length). rewrite bool_decide_eq_true_2 by set_solver. done.
    + rewrite list_lookup_insert_ne, partial_lookup by done. f_equal. destruct (decide (j ∈ I)).
      * rewrite !bool_decide_eq_true_2 by set_solver. done.
      * rewrite !bool_decide_eq_false_2 by set_solver. done.
  - rewrite !lookup_ge_None_2; [done|rewrite partial_length; lia|rewrite length_insert, partial_length; lia].
Qed.

Lemma partial_empty : partial [] = replicate (frame_count chunk p) None.
Proof.
  apply list_eq. intros j. destruct (decide (j < frame_count chunk p)%nat) as [Hj|Hj].
  - rewrite partial_lookup, lookup_replicate_2 by done. rewrite bool_decide_eq_false_2 by set_solver. done.
  - rewrite !lookup_ge_None_2; [done|rewrite length_replicate; lia|rewrite partial_length; lia].
Qed.

Lemma partial_bytes I : sum_over part_bytes (partial I) <= Z.of_nat (length p).
Proof.
  assert (E : length p = length (List.concat (map (fun i => chunk_of chunk i p) (seq 0 (frame_count chunk p))))) by (by rewrite concat_frames by lia).
  rewrite E. clear E. unfold partial. induction (seq 0 (frame_count chunk p)) as [|i l IH]; simpl; [done|].
  rewrite length_app. unfold part_bytes at 1. case_bool_decide; simpl; lia.
Qed.

(** All fragments are there: the packet. *)
Lemma partial_whole I : (forall i, (i < frame_count chunk p)%nat -> i ∈ I) -> List.concat (map (default []) (partial I)) = p.
Proof.
  intros Hall. etrans; [|apply (concat_frames chunk p); lia]. unfold partial. rewrite map_map. f_equal. apply map_ext_in. intros i Hi%in_seq.
  rewrite bool_decide_eq_true_2; [done|]. apply Hall. lia.
Qed.

Lemma count_there (l : list (option (list Z))) : sum_over part_there l <= Z.of_nat (length l) /\
  (sum_over part_there l = Z.of_nat (length l) -> forall i, (i < length l)%nat -> exists x, l !! i = Some (Some x)).
Proof.
  induction l as [|o l [IH1 IH2]]; [simpl; split; [lia|]; intros; lia|]. cbn [sum_over List.length].
  assert (0 <= part_there o <= 1) by (destruct o; simpl; lia). split; [lia|]. intros Hs [|i] Hi.
  - destruct o; [by eexists|simpl in Hs; lia].
  - simpl. apply IH2; lia.
Qed.
Lemma partial_full I : sum_over part_there (partial I) = Z.of_nat (frame_count chunk p) -> forall i, (i < frame_count chunk p)%nat -> i ∈ I.
Proof.
  intros Hs i Hi. rewrite <- (partial_length I) in Hs. destruct (proj2 (count_there _) Hs i ltac:(by rewrite partial_length)) as [x Hx].
  rewrite partial_lookup in Hx by done. case_bool_decide; done.
Qed.
Definition all_in (I : list nat) : Prop := forall i, (i < frame_count chunk p)%nat -> i ∈ I.

(** A frame of the packet for its partial packet. *)
Lemma fill_frame I i a parts re : (i < frame_count chunk p)%nat -> part_inv a -> fr_total a = Z.of_nat (length p) -> fr_parts a = partial I ->
  let result := fill id (Z.of_nat (length p)) i (Z.of_nat (frame_count chunk p)) (chunk_of chunk i p) a parts re in
  (i ∈ I /\ result = (Kept, parts, re)) \/
  (i ∉ I /\ result = (Kept, <[id := add_part i (chunk_of chunk i p) a]> parts, re)) \/
  (all_in (i :: I) /\ result = (Whole p, delete id parts, re - Z.of_nat (length p))).
Proof.
  intros Hi [_ [Hb Hbt] [Hc Hcl]] Ht Hparts result. unfold result, fill. rewrite Ht, Hparts, partial_length, !Z.eqb_refl. cbn [negb orb].
  rewrite partial_lookup by done. destruct (decide (i ∈ I)) as [Hin|Hin].
  { left. rewrite (bool_decide_eq_true_2 (i ∈ I)) by done. split; [done|]. by rewrite bool_decide_eq_true_2. }
  rewrite (bool_decide_eq_false_2 (i ∈ I)) by done.
  assert (Hnone : partial I !! i = Some None) by (rewrite partial_lookup, bool_decide_eq_false_2 by done; done).
  assert (Hbytes : fr_bytes (add_part i (chunk_of chunk i p) a) = sum_over part_bytes (partial (i :: I))).
  { rewrite <- partial_insert by done. rewrite (sum_over_insert _ _ _ _ _ Hnone). simpl. rewrite Hb, Hparts. unfold part_bytes at 3 4. simpl. lia. }
  assert (Hcount : fr_count (add_part i (chunk_of chunk i p) a) = sum_over part_there (partial (i :: I))).
  { rewrite <- partial_insert by done. rewrite (sum_over_insert _ _ _ _ _ Hnone). simpl. rewrite Hc, Hparts. lia. }
  pose proof (partial_bytes (i :: I)) as Hle.
  rewrite (proj2 (Z.ltb_ge _ _)) by (cbn [fr_bytes add_part] in Hbytes; lia).
  destruct (fr_count (add_part i (chunk_of chunk i p) a) =? Z.of_nat (frame_count chunk p)) eqn:E; cbn [negb]; [|by right; left].
  apply Z.eqb_eq in E. right. right. assert (Hall : all_in (i :: I)) by (intros j Hj; apply partial_full; [lia|done]). split; [done|].
  assert (Hj : joined (add_part i (chunk_of chunk i p) a) = p).
  { unfold joined. cbn [fr_parts add_part]. rewrite Hparts, partial_insert by done. by apply partial_whole. }
  assert (Hbp : fr_bytes (add_part i (chunk_of chunk i p) a) = Z.of_nat (length p)).
  { rewrite Hbytes, <- joined_length. by rewrite partial_whole. }
  rewrite Hbp, Z.eqb_refl, Hj. cbn [fr_total add_part]. by rewrite Ht.
Qed.

(** What the session knows before the packet is complete, and after. *)
Definition waiting (I : list nat) (l : datagramLink) : Prop :=
  exists s, l_sessions l !! r = Some s /\ s_seen s !! id = None /\
    match I with
    | [] => s_parts s !! id = None
    | _ => exists a, s_parts s !! id = Some a /\ fr_total a = Z.of_nat (length p) /\ fr_parts a = partial I /\ t0 + fragmentTTL <= fr_expires a
    end.
Definition delivered (l : datagramLink) : Prop :=
  exists s e, l_sessions l !! r = Some s /\ s_seen s !! id = Some e /\ t0 + fragmentTTL <= e.

(** [accept] past its checks, for a frame of the packet. *)
Lemma accept_frame now i l s : (i < frame_count chunk p)%nat -> l_sessions l !! r = Some s -> s_done s = false ->
  accept choose now (nth_frame i) r l =
  let '(s, l) := expireLocked now s l in
  if bool_decide (is_Some (s_seen s !! id)) then put_session r s l else
  let '(outcome, parts, reassembly) :=
    assemble now id (Z.of_nat (length p)) i (Z.of_nat (frame_count chunk p)) (chunk_of chunk i p) (s_parts s) (l_reassembly l) in
  let s := set_parts parts s in
  let l := put_memory reassembly (l_received l) l in
  match outcome with
  | Rejected => dropped 1 (put_session r s l)
  | Kept => put_session r s l
  | Whole packet => hand_over choose now id packet r s l
  end.
Proof.
  intros Hi Hs Hd. pose proof (frame_count_bound chunk p ltac:(lia) Hchunk Hp) as Hcnt. pose proof (frame_count_pos chunk p) as Hpos.
  pose proof (chunk_length chunk p i) as Hcl. unfold maxPayload in Hp.
  destruct (frame_fields_spec flow id (Z.of_nat (length p)) (Z.of_nat i) (Z.of_nat (frame_count chunk p)) (chunk_of chunk i p))
    as [_ _ F1 F2 F3 F4 F5]; [done|done|lia|lia|lia|].
  unfold accept. rewrite Hs. unfold nth_frame. rewrite F1, F2, F3, F4, F5. unfold maxPayload.
  rewrite (proj2 (Z.ltb_ge 65535 _)), (proj2 (Z.ltb_ge _ 1)), (proj2 (Z.ltb_ge 128 _)), (proj2 (Z.leb_gt _ (Z.of_nat i))) by lia.
  rewrite (proj2 (Z.ltb_ge _ (Z.of_nat (length (chunk_of chunk i p))))) by lia.
  assert (He : (1 <? Z.of_nat (frame_count chunk p)) && (Z.of_nat (length (chunk_of chunk i p)) =? 0) = false).
  { destruct (1 <? Z.of_nat (frame_count chunk p)) eqn:E1; [|done]. bool_to_prop. apply Z.eqb_neq.
    pose proof (chunk_nonempty chunk p ltac:(lia) i Hi ltac:(lia)). lia. }
  rewrite He. cbn [orb]. rewrite Hd, Nat2Z.id. done.
Qed.
(** Expiry leaves the packet and what was seen of it alone. *)
Lemma expire_keeps now s l s1 l1 : session_inv s -> expireLocked now s l = (s1, l1) ->
  s_in s1 = s_in s /\ s_done s1 = s_done s /\ l_sessions l1 = l_sessions l /\ l_received l1 = l_received l /\ l_reassembly l1 <= l_reassembly l /\
  (size (s_parts s1) <= size (s_parts s))%nat /\
  (s_parts s !! id = None -> s_parts s1 !! id = None) /\ (s_seen s !! id = None -> s_seen s1 !! id = None) /\
  (forall a, s_parts s !! id = Some a -> now < fr_expires a -> s_parts s1 !! id = Some a) /\
  (forall e, s_seen s !! id = Some e -> now < e -> s_seen s1 !! id = Some e).
Proof.
  intros Hs He. destruct (expireLocked_spec _ _ _ _ _ Hs He) as [_ [_ Hm] (_ & _ & Hd & Hi) (L1 & _ & _ & _ & L5)].
  unfold expireLocked in He. injection He as <- <-. simpl in *. split_and!; try done.
  - apply filter_size.
  - intros Hn. apply map_lookup_filter_None. auto.
  - intros Hn. apply map_lookup_filter_None. auto.
  - intros a Ha Hlt. apply map_lookup_filter_Some. split; [done|]. unfold expired. simpl. rewrite (proj2 (Z.ltb_lt _ _) Hlt). done.
  - intros e He Hlt. apply map_lookup_filter_Some. split; [done|]. simpl. rewrite (proj2 (Z.ltb_lt _ _) Hlt). done.
Qed.

Lemma session_there l r' s : l_sessions l !! r' = Some s -> forall s', <[r' := s']> (l_sessions l) !! r' = Some s'.
Proof. intros Hs s'. apply list_lookup_insert_eq. by eapply lookup_lt_Some. Qed.

Lemma hand_over_delivers now s l : t0 <= now -> is_Some (l_sessions l !! r) -> (length (s_in s) < 32)%nat ->
  l_received l + Z.of_nat (length p) <= maxDatagramMemory ->
  delivered (hand_over choose now id p r s l) /\ queue_of r (hand_over choose now id p r s l) = (s_in s ++ [p])%list.
Proof.
  intros Hnow [s0 Hs0] Hin Hrv. unfold hand_over, takeMemory, queue_of. rewrite (proj2 (Z.ltb_ge _ _)) by lia. cbn [s_in set_seen].
  rewrite (proj2 (Nat.ltb_lt _ _) Hin). cbn [l_sessions put_memory put_session]. erewrite !session_there by exact Hs0. split; [|done].
  eexists _, _. cbn [l_sessions put_memory put_session]. split; [by eapply session_there|].
  cbn [s_seen set_in set_seen]. split; [apply lookup_insert_eq|]. unfold fragmentTTL, second. lia.
Qed.

(** One frame of the packet, before it is complete. *)
Lemma waiting_step I i now l : link_inv l -> listening flow r l -> room id (Z.of_nat (length p)) r l -> waiting I l ->
  (i < frame_count chunk p)%nat -> t0 <= now < t0 + fragmentTTL ->
  let l' := accept choose now (nth_frame i) r l in
  (i ∈ I /\ waiting I l' /\ queue_of r l' = queue_of r l) \/ (waiting (i :: I) l' /\ queue_of r l' = queue_of r l) \/
  (delivered l' /\ all_in (i :: I) /\ queue_of r l' = (queue_of r l ++ [p])%list).
Proof.
  intros Hinv [_ Hopen] Hroom (s & Hs & Hseen & Hparts) Hi Hnow l'. destruct (Hopen s Hs) as [Hd _].
  destruct (Hroom s Hs Hseen) as (Hin & Hrv & Hnew). unfold l'. rewrite (accept_frame now i l s Hi Hs Hd). clear l'.
  assert (Hqs : queue_of r l = s_in s) by (unfold queue_of; by rewrite Hs). rewrite Hqs.
  destruct (expireLocked now s l) as [s1 l1] eqn:Ee. pose proof (li_sessions _ Hinv _ _ Hs) as Hse.
  destruct (expire_keeps _ _ _ _ _ Hse Ee) as (K1 & K2 & K3 & K4 & K5 & K6 & K7 & K8 & K9 & _).
  destruct (expireLocked_spec _ _ _ _ _ Hse Ee) as [Hse1 _ _ _]. destruct Hse1 as [[Hpi1 _] _ _ _].
  rewrite bool_decide_eq_false_2 by (rewrite K8 by done; by intros [? ?]).
  assert (Hthere : forall s', (<[r := s']> (l_sessions l1)) !! r = Some s') by (rewrite K3; by eapply session_there).
  assert (Hwait : forall parts re a J, J <> [] -> parts !! id = Some a -> fr_total a = Z.of_nat (length p) -> fr_parts a = partial J ->
    t0 + fragmentTTL <= fr_expires a -> let l' := put_session r (set_parts parts s1) (put_memory re (l_received l1) l1) in
    waiting J l' /\ queue_of r l' = s_in s).
  { intros parts re a J HJ H1 H2 H3 H4 l'. unfold l', queue_of. cbn [l_sessions put_session put_memory]. rewrite Hthere. split; [|cbn; exact K1].
    exists (set_parts parts s1). split; [apply Hthere|]. cbn [s_seen s_parts set_parts].
    split; [by apply K8|]. destruct J; [done|]. by exists a. }
  assert (Hdel : forall parts re, let l' := hand_over choose now id p r (set_parts parts s1) (put_memory re (l_received l1) l1) in
    delivered l' /\ queue_of r l' = (s_in s ++ [p])%list).
  { intros parts re l'. destruct (hand_over_delivers now (set_parts parts s1) (put_memory re (l_received l1) l1)) as [H1 H2];
      cbn [l_sessions put_memory s_in set_parts l_received]; rewrite ?K1, ?K3, ?K4; [lia|by rewrite Hs|lia|lia|].
    split; [exact H1|]. unfold l'. rewrite H2. cbn. by rewrite K1. }
  unfold assemble. destruct (Z.of_nat (frame_count chunk p) =? 1) eqn:E1.
  { apply Z.eqb_eq in E1. right. right. assert (Hc : chunk_of chunk i p = p).
    { pose proof (concat_frames chunk p ltac:(lia)) as Hcc. replace (frame_count chunk p) with 1%nat in Hcc by lia. simpl in Hcc. rewrite app_nil_r in Hcc.
      by replace i with 0%nat by lia. }
    rewrite Hc, Z.eqb_refl. destruct (Hdel (s_parts s1) (l_reassembly l1)) as [H1 H2]. split; [exact H1|]. split; [|exact H2].
    intros j Hj. replace j with i by lia. set_solver. }
  assert (Hgo : forall J a parts re, parts !! id = Some a -> part_inv a -> fr_total a = Z.of_nat (length p) -> fr_parts a = partial J ->
    t0 + fragmentTTL <= fr_expires a ->
    let '(o, parts', re') := fill id (Z.of_nat (length p)) i (Z.of_nat (frame_count chunk p)) (chunk_of chunk i p) a parts re in
    (i ∈ J /\ o = Kept /\ parts' = parts) \/ (o = Kept /\ exists a', parts' !! id = Some a' /\ fr_total a' = Z.of_nat (length p) /\ fr_parts a' = partial (i :: J) /\ t0 + fragmentTTL <= fr_expires a')
    \/ (o = Whole p /\ all_in (i :: J))).
  { intros J a parts re H1 H2 H3 H4 H5. destruct (fill_frame J i a parts re Hi H2 H3 H4) as [[H6 ->]|[[H6 ->]|[H6 ->]]].
    - by left.
    - right. left. split; [done|]. exists (add_part i (chunk_of chunk i p) a). split; [apply lookup_insert_eq|]. split; [done|].
      split; [|done]. cbn [fr_parts add_part]. rewrite H4. by apply partial_insert.
    - right. by right. }
  destruct I as [|i0 I].
  - rewrite (K7 Hparts). destruct (Hnew Hparts) as [Hsize Hmem]. rewrite (proj2 (Z.leb_gt 4 _)) by lia.
    unfold takeMemory. rewrite (proj2 (Z.ltb_ge _ _)) by lia.
    set (a0 := new_fragments now (Z.of_nat (length p)) (Z.of_nat (frame_count chunk p))). pose proof (frame_count_pos chunk p).
    specialize (Hgo [] a0 (<[id := a0]> (s_parts s1)) (l_reassembly l1 + Z.of_nat (length p)) (lookup_insert_eq _ _ _)).
    destruct (fill _ _ _ _ _ _ _ _) as [[o parts'] re']. destruct Hgo as [(H6 & _)|[(-> & a' & H6 & H7 & H8 & H9)|(-> & H6)]].
    + apply new_fragments_inv; lia.
    + done.
    + unfold a0, new_fragments. cbn [fr_parts]. rewrite Nat2Z.id. symmetry. apply partial_empty.
    + unfold a0, new_fragments. cbn [fr_expires]. lia.
    + set_solver.
    + right. left. by eapply Hwait.
    + right. right. destruct (Hdel parts' re'). done.
  - destruct Hparts as (a & Ha & Hta & Hpa & Hea). assert (Ha1 : s_parts s1 !! id = Some a) by (apply K9; [done|lia]). rewrite Ha1.
    specialize (Hgo (i0 :: I) a (s_parts s1) (l_reassembly l1) Ha1 (Hpi1 _ _ Ha1) Hta Hpa Hea).
    destruct (fill _ _ _ _ _ _ _ _) as [[o parts'] re']. destruct Hgo as [(H6 & -> & ->)|[(-> & a' & H6 & H7 & H8 & H9)|(-> & H6)]].
    + left. split; [done|]. by eapply Hwait.
    + right. left. by eapply Hwait.
    + right. right. destruct (Hdel parts' re'). done.
Qed.

(** And after it is: it is not delivered again. *)
Lemma delivered_step i now l : link_inv l -> listening flow r l -> delivered l -> (i < frame_count chunk p)%nat -> now < t0 + fragmentTTL ->
  let l' := accept choose now (nth_frame i) r l in delivered l' /\ queue_of r l' = queue_of r l.
Proof.
  intros Hinv [_ Hopen] (s & e & Hs & Hseen & He) Hi Hnow l'. destruct (Hopen s Hs) as [Hd _]. unfold l'. rewrite (accept_frame now i l s Hi Hs Hd).
  destruct (expireLocked now s l) as [s1 l1] eqn:Ee. pose proof (li_sessions _ Hinv _ _ Hs) as Hse.
  destruct (expire_keeps _ _ _ _ _ Hse Ee) as (K1 & K2 & K3 & K4 & _ & _ & _ & _ & _ & K10).
  assert (Hs1 : s_seen s1 !! id = Some e) by (apply K10; [done|lia]).
  rewrite bool_decide_eq_true_2 by (by eexists). unfold queue_of. cbn [l_sessions put_session]. rewrite K3, Hs. erewrite session_there by exact Hs.
  split; [|done]. exists s1, e. cbn [l_sessions put_session]. rewrite K3. split; [by eapply session_there|done].
Qed.

(** A packet that was not complete lacks a fragment. *)
Lemma waiting_lacks I l : link_inv l -> waiting I l -> all_in I -> False.
Proof.
  intros Hinv (s & Hs & _ & Hparts) Hall. pose proof (frame_count_pos chunk p). destruct I as [|i I].
  - specialize (Hall 0%nat ltac:(lia)). set_solver.
  - destruct Hparts as (a & Ha & _ & Hpa & _). destruct (se_parts _ (li_sessions _ Hinv _ _ Hs)) as [Hpi _].
    destruct (pa_count _ (Hpi _ _ Ha)) as [Hc Hlt]. rewrite Hpa, partial_length in Hlt. rewrite Hpa in Hc.
    assert (Hsum : sum_over part_there (partial (i :: I)) = Z.of_nat (frame_count chunk p)); [|lia].
    clear -Hall. unfold partial. assert (Hl : forall n, n ∈ seq 0 (frame_count chunk p) -> n ∈ i :: I).
    { intros n Hn. apply Hall. apply elem_of_seq in Hn. lia. }
    replace (Z.of_nat (frame_count chunk p)) with (Z.of_nat (length (seq 0 (frame_count chunk p)))) by (by rewrite length_seq). revert Hl. induction (seq 0 (frame_count chunk p)) as [|x l IH]; intros Hl; [done|].
    cbn [map sum_over List.length]. rewrite bool_decide_eq_true_2 by (apply Hl; set_solver). simpl part_there. rewrite IH by (intros; apply Hl; set_solver). lia.
Qed.

(** *** Everything else leaves the packet alone *)

Record beside (s s' : DatagramSession) : Prop := {
  bs_new : s_parts s !! id = None -> s_parts s' !! id = None;
  bs_part a : s_parts s !! id = Some a -> t0 + fragmentTTL <= fr_expires a -> s_parts s' !! id = Some a;
  bs_unseen : s_seen s !! id = None -> s_seen s' !! id = None;
  bs_seen e : s_seen s !! id = Some e -> t0 + fragmentTTL <= e -> s_seen s' !! id = Some e
}.
Definition stays (l l' : datagramLink) : Prop :=
  forall s, l_sessions l !! r = Some s -> exists s', l_sessions l' !! r = Some s' /\ beside s s'.

Lemma beside_same s s' : s_parts s' = s_parts s -> s_seen s' = s_seen s -> beside s s'.
Proof. intros H1 H2. split; rewrite ?H1, ?H2; auto. Qed.
Lemma beside_trans s s1 s2 : beside s s1 -> beside s1 s2 -> beside s s2.
Proof. intros [] []. split; eauto. Qed.
Lemma stays_same l l' : l_sessions l' !! r = l_sessions l !! r -> stays l l'.
Proof. intros He s Hs. exists s. rewrite He. split; [done|by apply beside_same]. Qed.
Lemma stays_waiting I l l' : stays l l' -> waiting I l -> waiting I l'.
Proof.
  intros Hst (s & Hs & Hseen & Hparts). destruct (Hst s Hs) as (s' & Hs' & []). exists s'. split; [done|]. split; [auto|].
  destruct I; [auto|]. destruct Hparts as (a & Ha & H1 & H2 & H3). exists a. split; [by apply bs_part0|done].
Qed.
Lemma stays_delivered l l' : stays l l' -> delivered l -> delivered l'.
Proof. intros Hst (s & e & Hs & Hseen & He). destruct (Hst s Hs) as (s' & Hs' & []). exists s', e. split; [done|]. split; [auto|done]. Qed.

Lemma expire_beside now s l s1 l1 : session_inv s -> now < t0 + fragmentTTL -> expireLocked now s l = (s1, l1) -> beside s s1.
Proof.
  intros Hse Hnow Ee. destruct (expire_keeps _ _ _ _ _ Hse Ee) as (_ & _ & _ & _ & _ & _ & K7 & K8 & K9 & K10).
  split; [done| |done|]; intros x Hx Hlt; [apply K9|apply K10]; (done || lia).
Qed.
Lemma fill_other k total index count payload a parts re : k <> id ->
  (fill k total index count payload a parts re).1.2 !! id = parts !! id.
Proof.
  intros Hk. unfold fill. destruct (_ || _); [done|]. destruct (fr_parts a !! index) as [[old|]|]; [done| |done].
  destruct (_ <? _); [done|]. cbv zeta. destruct (negb _); cbn; [by rewrite lookup_insert_ne|by rewrite lookup_delete_ne].
Qed.
Lemma assemble_other now k total index count payload parts re : k <> id ->
  (assemble now k total index count payload parts re).1.2 !! id = parts !! id.
Proof.
  intros Hk. unfold assemble. destruct (count =? 1); [done|]. destruct (parts !! k) as [a|]; [by apply fill_other|].
  destruct (4 <=? _); [done|]. destruct (takeMemory re total); [|done]. rewrite fill_other by done. by rewrite lookup_insert_ne.
Qed.

(** A frame of another packet of the flow. *)
Lemma accept_stays now f l : link_inv l -> listening flow r l -> now < t0 + fragmentTTL -> Uint64 f 9 <> id -> stays l (accept choose now f r l).
Proof.
  intros Hinv [_ Hopen] Hnow Hf s Hs. destruct (Hopen s Hs) as [Hd Hsz]. unfold accept. rewrite Hs.
  assert (Hnone : exists s', l_sessions l !! r = Some s' /\ beside s s') by (exists s; split; [done|by apply beside_same]).
  destruct (_ || (1 <? _) && _); [done|]. rewrite Hd. destruct (expireLocked now s l) as [s1 l1] eqn:Ee.
  pose proof (li_sessions _ Hinv _ _ Hs) as Hse. pose proof (expire_beside _ _ _ _ _ Hse Hnow Ee) as Hb.
  destruct (expireLocked_spec _ _ _ _ _ Hse Ee) as [_ _ _ (L1 & _)].
  assert (Hsz1 : (size (s_seen s1) < 256)%nat).
  { unfold expireLocked in Ee. injection Ee as <- _. cbn. eapply Nat.le_lt_trans; [apply filter_size|done]. }
  assert (Hput : forall s' l', l_sessions l' = <[r := s']> (l_sessions l1) -> beside s1 s' -> exists s'', l_sessions l' !! r = Some s'' /\ beside s s'').
  { intros s' l' -> Hs'. exists s'. rewrite L1. split; [by eapply session_there|by eapply beside_trans]. }
  destruct (bool_decide _); [by eapply Hput; [|apply beside_same]|].
  pose proof (assemble_other now (Uint64 f 9) (Uint32 f 17) (Z.to_nat (Uint16 f 21)) (Uint16 f 23) (drop datagramHeader f) (s_parts s1) (l_reassembly l1) Hf) as Ha.
  destruct (assemble _ _ _ _ _ _ _ _) as [[o parts] re]. cbn in Ha.
  assert (Hb1 : forall q seen, seen !! id = s_seen s1 !! id -> beside s1 (set_in q (set_seen seen (set_parts parts s1)))).
  { intros q seen Hq. split; cbn; rewrite ?Ha, ?Hq; auto. }
  destruct o as [packet| |].
  - assert (Hm : mark_seen choose now (Uint64 f 9) (s_seen s1) !! id = s_seen s1 !! id).
    { unfold mark_seen. rewrite (proj2 (Z.leb_gt 256 _)) by lia. by rewrite lookup_insert_ne. }
    unfold hand_over. destruct (takeMemory _ _); [destruct (_ <? 32)%nat|]; (eapply Hput; [reflexivity|]);
      first [exact (Hb1 _ _ Hm)|exact (Hb1 (s_in s1) _ Hm)].
  - eapply Hput; [reflexivity|]. exact (Hb1 (s_in s1) (s_seen s1) eq_refl).
  - eapply Hput; [reflexivity|]. exact (Hb1 (s_in s1) (s_seen s1) eq_refl).
Qed.

(** A frame for another session. *)
Lemma accept_other now f r' l : r' <> r -> l_sessions (accept choose now f r' l) !! r = l_sessions l !! r.
Proof.
  intros Hr. unfold accept. destruct (l_sessions l !! r') as [s|]; [|done]. destruct (_ || _ && _); [done|]. destruct (s_done s); [done|].
  destruct (expireLocked now s l) as [s1 l1] eqn:Ee. assert (L : l_sessions l1 = l_sessions l) by (unfold expireLocked in Ee; by injection Ee as _ <-).
  destruct (bool_decide _); [cbn; by rewrite list_lookup_insert_ne, L|].
  destruct (assemble _ _ _ _ _ _ _ _) as [[[packet| |] parts] re]; [|cbn; by rewrite list_lookup_insert_ne, L..].
  unfold hand_over. destruct (takeMemory _ _); [destruct (_ <? 32)%nat|]; cbn; by rewrite list_lookup_insert_ne, L.
Qed.
(** Which session a datagram gets to. *)
Lemma receive_cases now f l : link_inv l -> listening flow r l ->
  l_sessions (receive choose now f l) !! r = l_sessions l !! r \/
  (receive choose now f l = accept choose now f r l /\ (datagramHeader <= length f)%nat /\ nth 0 f 0 = 1 /\ Uint64 f 1 = flow).
Proof.
  intros Hinv [Hfl _]. unfold receive. destruct (length f <? datagramHeader)%nat eqn:E1; [by left|]. destruct (nth 0 f 0 =? 1) eqn:E2; [|by left].
  cbn [orb negb]. destruct (l_flows l !! Uint64 f 1) as [r'|] eqn:Ef; [|by left]. destruct (decide (r' = r)) as [->|Hne].
  - right. apply Nat.ltb_ge in E1. apply Z.eqb_eq in E2. do 3 (split; [done|]). destruct (li_flows _ Hinv) as [_ Hf].
    destruct (Hf _ _ Ef) as (s & Hs & H1 & _). destruct (Hf _ _ Hfl) as (s' & Hs' & H2 & _). congruence.
  - left. by apply accept_other.
Qed.

(** Sending changes only the next packet number. *)
Definition untouched (l l' : datagramLink) : Prop :=
  forall s, l_sessions l !! r = Some s -> exists s', l_sessions l' !! r = Some s' /\ s_parts s' = s_parts s /\ s_seen s' = s_seen s /\ s_in s' = s_in s.
Lemma untouched_same l l' : l_sessions l' !! r = l_sessions l !! r -> untouched l l'.
Proof. intros He s Hs. exists s. by rewrite He. Qed.
Lemma sendPacket_untouched attempts answers : forall k r' p' l, untouched l (sendPacket attempts answers k r' p' l).2.
Proof.
  induction attempts as [|attempts IH]; intros k r' p' l; cbn [sendPacket]; [by apply untouched_same|].
  destruct (l_sessions l !! r') as [s|] eqn:Hs; [|by apply untouched_same]. destruct (_ <? 512); [by apply untouched_same|].
  destruct (submit _ _ _) as [[out refusal] k'].
  assert (H1 : forall m n, untouched l (put_wire m n (put_session r' (set_sequence ((s_sequence s + 1) mod 2 ^ 64) s) l))).
  { intros m n s0 Hs0. cbn. destruct (decide (r' = r)) as [->|Hne]; [|exists s0; by rewrite list_lookup_insert_ne].
    rewrite Hs in Hs0. injection Hs0 as <-. eexists. split; [by eapply session_there|done]. }
  destruct refusal as [[|max|e]|]; try apply H1. destruct (_ <? max); [|apply H1].
  match goal with |- context [sendPacket attempts answers k' r' p' ?x] => pose proof (IH k' r' p' x) as H2; pose proof (H1 max (l_sentFrames x)) as H3;
    change (untouched l x) in H3; destruct (sendPacket attempts answers k' r' p' x) as [[? ?] ?] end.
  intros s0 Hs0. destruct (H3 s0 Hs0) as (s1 & Hs1 & A1 & A2 & A3). destruct (H2 s1 Hs1) as (s2 & Hs2 & B1 & B2 & B3).
  exists s2. split; [exact Hs2|]. split_and!; congruence.
Qed.
Lemma sender_untouched answers l : untouched l (sender answers l).2.
Proof.
  unfold sender. destruct (l_send l) as [|[r' p'] rest]; [by apply untouched_same|]. destruct (l_closed l); [by apply untouched_same|].
  destruct (match l_sessions l !! r' with Some _ => _ | None => _ end); [by apply untouched_same|].
  pose proof (sendPacket_untouched 2 answers 0 r' p' l) as H. destruct (sendPacket 2 answers 0 r' p' l) as [[[[]|e] out] l1]; exact H.
Qed.

Lemma exec_stays e l : link_inv l -> listening flow r l -> listening flow r (exec choose e l) -> timely t0 e ->
  (forall now f, e = EReceive now f -> ~ numbered flow id f) -> stays l (exec choose e l).
Proof.
  intros Hinv Hl Hl' Ht Hno. assert (Hpres : forall s, l_sessions l !! r = Some s -> (r < length (l_sessions l))%nat) by (intros s Hs; by eapply lookup_lt_Some).
  destruct e as [fl|now f|now r'|n r'|now dl au p' r'|answers|r'|r'|]; cbn [exec] in *.
  - unfold add. destruct (_ || l_closed l); [by apply stays_same|]. intros s Hs. exists s. cbn. split; [by apply lookup_app_l_Some|by apply beside_same].
  - destruct (receive_cases now f l Hinv Hl) as [He|(He & H1 & H2 & H3)]; [by apply stays_same|]. rewrite He.
    apply accept_stays; [done|done|cbn in Ht; lia|]. intros H4. by apply (Hno now f).
  - unfold collect. destruct (l_sessions l !! r') as [s|] eqn:Hs; [|by apply stays_same]. destruct (expireLocked now s l) as [s1 l1] eqn:Ee.
    pose proof (li_sessions _ Hinv _ _ Hs) as Hse. destruct (expireLocked_spec _ _ _ _ _ Hse Ee) as [_ _ _ (L1 & _)].
    destruct (decide (r' = r)) as [->|Hne]; [|apply stays_same; cbn; by rewrite list_lookup_insert_ne, L1].
    intros s0 Hs0. rewrite Hs in Hs0. injection Hs0 as <-. exists s1. cbn. rewrite L1. split; [by eapply session_there|].
    eapply expire_beside; [done| |exact Ee]. cbn in Ht. lia.
  - unfold Read. destruct (l_sessions l !! r') as [s|] eqn:Hs; [|by apply stays_same]. destruct (s_in s) as [|x rest]; [by apply stays_same|].
    destruct (decide (r' = r)) as [->|Hne]; [|apply stays_same; cbn; by rewrite list_lookup_insert_ne].
    intros s0 Hs0. rewrite Hs in Hs0. injection Hs0 as <-. eexists. cbn. split; [by eapply session_there|by apply beside_same].
  - apply stays_same. unfold WriteAuthorized. repeat case_match; done.
  - intros s Hs. destruct (sender_untouched answers l s Hs) as (s' & Hs' & H1 & H2 & _). exists s'. split; [done|by apply beside_same].
  - unfold cancel_session in *. destruct (l_sessions l !! r') as [s|] eqn:Hs; [|by apply stays_same].
    destruct (decide (r' = r)) as [->|Hne]; [exfalso|apply stays_same; cbn; by rewrite list_lookup_insert_ne].
    destruct Hl' as [_ Hl']. destruct (Hl' (end_session s)) as [Hd _]; [cbn; by eapply session_there|done].
  - unfold Close in *. destruct (l_sessions l !! r') as [s|] eqn:Hs; [|by apply stays_same]. destruct (s_closed s); [by apply stays_same|].
    destruct (decide (r' = r)) as [->|Hne]; [exfalso|apply stays_same; cbn; by rewrite list_lookup_insert_ne].
    destruct Hl' as [_ Hl']. eassert (Hd : s_done _ = false); [eapply Hl'; cbn; by eapply session_there|]. done.
  - by apply stays_same.
Qed.

(** *** The queue *)

Lemma accept_queue now f r' l : queue_of r (accept choose now f r' l) = queue_of r l \/ exists x, queue_of r (accept choose now f r' l) = (queue_of r l ++ [x])%list.
Proof.
  destruct (decide (r' = r)) as [->|Hne]; [|left; unfold queue_of; by rewrite accept_other].
  unfold accept. destruct (l_sessions l !! r) as [s|] eqn:Hs; [|by left]. assert (Hqs : queue_of r l = s_in s) by (unfold queue_of; by rewrite Hs).
  destruct (_ || _ && _); [by left|]. destruct (s_done s); [by left|]. destruct (expireLocked now s l) as [s1 l1] eqn:Ee.
  assert (L : l_sessions l1 = l_sessions l /\ s_in s1 = s_in s) by (unfold expireLocked in Ee; by injection Ee as <- <-). destruct L as [L1 L2].
  assert (Hput : forall s' l', l_sessions l' = <[r := s']> (l_sessions l1) -> queue_of r l' = s_in s').
  { intros s' l' He. unfold queue_of. rewrite He, L1. by erewrite session_there by exact Hs. }
  destruct (bool_decide _); [left; erewrite Hput by done; congruence|].
  destruct (assemble _ _ _ _ _ _ _ _) as [[[packet| |] parts] re]; [|left; erewrite Hput by done; cbn; congruence..].
  unfold hand_over. destruct (takeMemory _ _); [destruct (_ <? 32)%nat|].
  - right. exists packet. erewrite Hput by done. cbn. congruence.
  - left. erewrite Hput by done. cbn. congruence.
  - left. erewrite Hput by done. cbn. congruence.
Qed.
Lemma arrived_receive now f l : (arrived r (EReceive now f) l (receive choose now f l) = [] /\ queue_of r (receive choose now f l) = queue_of r l) \/
  exists x, arrived r (EReceive now f) l (receive choose now f l) = [(Uint64 f 9, x)] /\ queue_of r (receive choose now f l) = (queue_of r l ++ [x])%list.
Proof.
  assert (H : queue_of r (receive choose now f l) = queue_of r l \/ exists x, queue_of r (receive choose now f l) = (queue_of r l ++ [x])%list).
  { unfold receive. destruct (_ || _); [by left|]. destruct (l_flows l !! Uint64 f 1); [apply accept_queue|by left]. }
  unfold arrived. destruct H as [->|[x ->]]; [left; by rewrite drop_all|right]. exists x. by rewrite drop_app_length.
Qed.

(** What another event adds is another packet. *)
Lemma arrived_other e l : link_inv l -> listening flow r l -> (forall now f, e = EReceive now f -> ~ numbered flow id f) ->
  filter (fun d => d.1 = id) (arrived r e l (exec choose e l)) = [].
Proof.
  intros Hinv Hl Hno. destruct e as [|now f| | | | | | |]; try done. cbn [exec].
  destruct (arrived_receive now f l) as [[-> _]|(x & -> & Hx)]; [done|]. rewrite filter_cons_False; [done|]. cbn. intros H4.
  destruct (receive_cases now f l Hinv Hl) as [He|(_ & H1 & H2 & H3)]; [|by apply (Hno now f)].
  unfold queue_of in Hx. rewrite He in Hx. destruct (l_sessions l !! r) as [s|]; [|done].
  apply (f_equal List.length) in Hx. rewrite length_app in Hx. cbn in Hx. lia.
Qed.

(** The frame of an event, if it is one of the packet. *)
Lemma numbered_nth e : honest flow id chunk p e ->
  (forall now f, e = EReceive now f -> ~ numbered flow id f) \/
  exists now i, e = EReceive now (nth_frame i) /\ (i < frame_count chunk p)%nat /\ numbered flow id (nth_frame i).
Proof.
  intros Hh. destruct e as [|now f| | | | | | |]; try (left; done). destruct (decide (numbered flow id f)) as [Hn|Hn].
  - right. specialize (Hh Hn). apply list_elem_of_fmap in Hh as (i & -> & Hi). apply elem_of_seq in Hi. exists now, i. split; [done|]. split; [lia|done].
  - left. by intros now' f' [= <- <-].
Qed.
Lemma receive_own now i l : l_flows l !! flow = Some r -> numbered flow id (nth_frame i) ->
  receive choose now (nth_frame i) l = accept choose now (nth_frame i) r l.
Proof.
  intros Hl (H1 & H2 & H3 & _). unfold receive. rewrite (proj2 (Nat.ltb_ge _ _) H1), H2, H3, Hl. done.
Qed.
Lemma nth_numbered i : (i < frame_count chunk p)%nat -> numbered flow id (nth_frame i) /\ Uint16 (nth_frame i) 21 = Z.of_nat i.
Proof.
  intros Hi. pose proof (frame_count_bound chunk p ltac:(lia) Hchunk Hp). unfold maxPayload in Hp.
  destruct (frame_fields_spec flow id (Z.of_nat (length p)) (Z.of_nat i) (Z.of_nat (frame_count chunk p)) (chunk_of chunk i p)) as [[F1 F2] F3 F4 _ F5 _ _]; [done|done|lia|lia|lia|].
  by split.
Qed.

(** ** Runs *)

Lemma run_delivered es : forall l, link_inv l -> delivered l -> Forall (timely t0) es -> Forall (honest flow id chunk p) es ->
  roomy choose flow id (Z.of_nat (length p)) r es l -> filter (fun d => d.1 = id) (deliveries choose r es l) = [].
Proof.
  induction es as [|e es IH]; intros l Hinv Hd Ht Hh Hr; [done|]. apply Forall_cons in Ht as [Ht1 Ht]. apply Forall_cons in Hh as [Hh1 Hh].
  cbn [roomy] in Hr. destruct Hr as (Hl & _ & Hr). cbn [deliveries]. rewrite filter_app.
  assert (Hl' : listening flow r (exec choose e l)) by (destruct es; apply Hr).
  pose proof (link_step_inv choose _ _ Hchoose Hinv (exec_step choose e l)) as Hinv'.
  destruct (numbered_nth e Hh1) as [Hno|(now & i & -> & Hi & Hn)].
  - rewrite arrived_other by done. apply IH; try done. eapply stays_delivered; [by apply exec_stays|done].
  - cbn [exec] in *. cbn in Ht1. rewrite (receive_own now i l) in * by (done || apply Hl).
    destruct (delivered_step i now l Hinv Hl Hd Hi ltac:(lia)) as [H1 H2]. unfold arrived. rewrite H2, drop_all. by apply IH.
Qed.

Lemma run_waiting es : forall I l, link_inv l -> waiting I l -> Forall (timely t0) es -> Forall (honest flow id chunk p) es ->
  roomy choose flow id (Z.of_nat (length p)) r es l ->
  (forall i, (i < frame_count chunk p)%nat -> i ∈ I \/ exists now, EReceive now (nth_frame i) ∈ es) ->
  filter (fun d => d.1 = id) (deliveries choose r es l) = [(id, p)].
Proof.
  induction es as [|e es IH]; intros I l Hinv Hw Ht Hh Hr Hall.
  { exfalso. eapply waiting_lacks; [done|exact Hw|]. intros i Hi. destruct (Hall i Hi) as [?|[now Hx]]; [done|by apply elem_of_nil in Hx]. }
  apply Forall_cons in Ht as [Ht1 Ht]. apply Forall_cons in Hh as [Hh1 Hh].
  cbn [roomy] in Hr. destruct Hr as (Hl & Hroom & Hr). cbn [deliveries]. rewrite filter_app.
  assert (Hl' : listening flow r (exec choose e l)) by (destruct es; apply Hr).
  pose proof (link_step_inv choose _ _ Hchoose Hinv (exec_step choose e l)) as Hinv'.
  destruct (numbered_nth e Hh1) as [Hno|(now & i & -> & Hi & Hn)].
  - rewrite arrived_other by done. apply (IH I); try done; [eapply stays_waiting; [by apply exec_stays|done]|].
    intros i Hi. destruct (Hall i Hi) as [?|[now [<-|Hx]%elem_of_cons]]; [by left| |right; by exists now].
    exfalso. by apply (Hno now (nth_frame i)), nth_numbered.
  - assert (Hrest : forall j, (j < frame_count chunk p)%nat -> j ∈ i :: I \/ exists now, EReceive now (nth_frame j) ∈ es).
    { intros j Hj. destruct (Hall j Hj) as [?|[now' [Hx|Hx]%elem_of_cons]]; [left; by right| |right; by exists now'].
      assert (Hf : nth_frame j = nth_frame i) by congruence.
      left. assert (j = i) as ->; [|by left]. apply nth_numbered in Hj as [_ Hj], Hi as [_ Hi]. rewrite Hf, Hi in Hj. lia. }
    cbn [exec] in *. cbn in Ht1. specialize (Hroom Hn). rewrite (receive_own now i l) in * by (done || apply Hl).
    destruct (waiting_step I i now l Hinv Hl Hroom Hw Hi Ht1) as [(Hin & H1 & H2)|[(H1 & H2)|(H1 & _ & H2)]]; unfold arrived; rewrite H2.
    + rewrite drop_all. apply (IH I); try done. intros j Hj. destruct (Hrest j Hj) as [[->|?]%elem_of_cons|?]; auto.
    + rewrite drop_all. by apply (IH (i :: I)).
    + rewrite drop_app_length. cbn [map]. destruct Hn as (_ & _ & _ & Hnum). rewrite Hnum, run_delivered by done. by rewrite filter_cons_True.
Qed.

(** The reader gets the packets in the order they arrived. *)
Lemma exec_queue e l : link_inv l -> listening flow r l -> listening flow r (exec choose e l) ->
  exists first, (queue_of r l ++ (arrived r e l (exec choose e l)).*2 = first ++ queue_of r (exec choose e l))%list.
Proof.
  intros Hinv [Hfl Hl] [_ Hl']. destruct (proj2 (li_flows _ Hinv) _ _ Hfl) as (s & Hs & _).
  assert (Hsame : forall l' l0, queue_of r l' = queue_of r l -> l0 = [] -> exists first, (queue_of r l ++ l0 = first ++ queue_of r l')%list).
  { intros l' l0 -> ->. exists []. by rewrite app_nil_r. }
  assert (Hput : forall l' s', l_sessions l' = <[r := s']> (l_sessions l) -> queue_of r l' = s_in s').
  { intros l' s' He. unfold queue_of. rewrite He. by erewrite session_there by exact Hs. }
  assert (Helse : forall l' r' s', l_sessions l' = <[r' := s']> (l_sessions l) -> r' <> r -> queue_of r l' = queue_of r l).
  { intros l' r' s' He Hne. unfold queue_of. by rewrite He, list_lookup_insert_ne. }
  assert (Hqs : queue_of r l = s_in s) by (unfold queue_of; by rewrite Hs).
  destruct e as [fl|now f|now r'|n r'|now dl au p' r'|answers|r'|r'|]; cbn [exec] in *.
  - apply Hsame; [|done]. unfold add. destruct (_ || l_closed l); [done|]. unfold queue_of. cbn. by rewrite lookup_app_l by (by eapply lookup_lt_Some).
  - destruct (arrived_receive now f l) as [[-> ->]|(x & -> & ->)]; exists []; [by rewrite app_nil_r|done].
  - apply Hsame; [|done]. unfold collect. destruct (l_sessions l !! r') as [s'|] eqn:Hs'; [|done]. destruct (expireLocked now s' l) as [s1 l1] eqn:Ee.
    assert (L : l_sessions l1 = l_sessions l /\ s_in s1 = s_in s') by (unfold expireLocked in Ee; by injection Ee as <- <-). destruct L as [L1 L2].
    destruct (decide (r' = r)) as [->|Hne]; [rewrite (Hput _ s1) by (cbn; by rewrite L1); congruence|apply (Helse _ r' s1); [cbn; by rewrite L1|done]].
  - cbn [arrived]. unfold Read. destruct (l_sessions l !! r') as [s'|] eqn:Hs'; [|by apply Hsame]. destruct (s_in s') as [|x rest] eqn:Hin; [by apply Hsame|].
    cbn [snd]. destruct (decide (r' = r)) as [->|Hne]; [|apply Hsame; [by apply (Helse _ r' (set_in rest s'))|done]].
    exists [x]. rewrite app_nil_r, Hqs, (Hput _ (set_in rest s')) by done. cbn. congruence.
  - apply Hsame; [|done]. unfold WriteAuthorized. repeat case_match; done.
  - apply Hsame; [|done]. destruct (sender_untouched answers l s Hs) as (s' & Hs' & _ & _ & H3). unfold queue_of at 1. by rewrite Hs', H3.
  - apply Hsame; [|done]. unfold cancel_session in *. destruct (l_sessions l !! r') as [s'|] eqn:Hs'; [|done].
    destruct (decide (r' = r)) as [->|Hne]; [|by apply (Helse _ r' (end_session s'))].
    rewrite (Hput _ (end_session s')) by done. cbn. congruence.
  - apply Hsame; [|done]. unfold Close in *. destruct (l_sessions l !! r') as [s'|] eqn:Hs'; [|done]. destruct (s_closed s'); [done|].
    destruct (decide (r' = r)) as [->|Hne]; [exfalso|by eapply Helse]. eassert (Hd : s_done _ = false); [eapply Hl'; cbn; by eapply session_there|]. done.
  - by apply Hsame.
Qed.
Lemma run_in_order es : forall l, link_inv l -> roomy choose flow id (Z.of_nat (length p)) r es l ->
  exists taken, (queue_of r l ++ (deliveries choose r es l).*2 = taken ++ queue_of r (run choose es l))%list.
Proof.
  induction es as [|e es IH]; intros l Hinv Hr; [exists []; by rewrite app_nil_r|]. cbn [roomy] in Hr. destruct Hr as (Hl & _ & Hr).
  pose proof (link_step_inv choose _ _ Hchoose Hinv (exec_step choose e l)) as Hinv'. destruct (IH _ Hinv' Hr) as [taken Htk].
  assert (Hl' : listening flow r (exec choose e l)) by (destruct es; apply Hr). destruct (exec_queue e l Hinv Hl Hl') as [first Hfirst].
  cbn [deliveries run foldl]. fold (run choose es (exec choose e l)). rewrite fmap_app, app_assoc, Hfirst, <- app_assoc, Htk.
  exists (first ++ taken)%list. by rewrite app_assoc.
Qed.
End Trip.
