(* ===== verification/DatagramGuarantees.v ===== *)
(** * UDP over datagrams: the theorems

    The link's bounds in every reachable state, what a sender puts on the
    wire, and that a packet whose datagrams arrive is delivered whole and
    once. *)

From S2P Require Import Prelude Tx GoStrings Calendar Digest Bytes Datagrams DatagramInv DatagramTrip.
From stdpp Require Import base gmap strings list relations.
From Stdlib Require Import Ascii String.
Local Open Scope string_scope.
Local Open Scope Z_scope.
Local Abbreviation length := List.length.

(** ** Sending *)

Lemma submit_prefix answers frames : forall k out refusal k', submit answers k frames = (out, refusal, k') ->
  (exists n, out = take n frames) /\ (refusal = None \/ refusal = Some Sent -> out = frames).
Proof.
  induction frames as [|f frames IH]; intros k out refusal k'; cbn [submit].
  { intros [= <- <- _]. split; [by exists 0%nat|done]. }
  destruct (answers k) as [|max|e].
  - destruct (submit answers (S k) frames) as [[out1 r1] k1] eqn:E. intros [= <- <- _]. destruct (IH _ _ _ _ E) as [[n ->] Hr].
    split; [by exists (S n)|]. intros Hn. by rewrite Hr.
  - intros [= <- <- _]. split; [by exists 0%nat|]. by intros [|].
  - intros [= <- <- _]. split; [by exists 0%nat|]. by intros [|].
Qed.

Lemma frame_length flow id total index count payload : length (frame_bytes flow id total index count payload) = (25 + length payload)%nat.
Proof. unfold frame_bytes. cbn [List.length]. rewrite !length_app, !PutUint64_length, PutUint32_length, !PutUint16_length. lia. Qed.

Lemma frames_size flow id chunk p f : f ∈ frames_of flow id chunk p -> (length f <= 25 + chunk)%nat.
Proof.
  unfold frames_of. intros (i & -> & _)%list_elem_of_fmap. rewrite frame_length. unfold chunk_of. rewrite length_take. lia.
Qed.

(** What a successful [sendPacket] put on the wire: at the end, every frame
    of the packet under a packet number that was not used before. *)
Lemma sendPacket_emits attempts answers : forall k r p l s out l',
  l_sessions l !! r = Some s -> sendPacket attempts answers k r p l = (Ok tt, out, l') ->
  exists pre id chunk, out = (pre ++ frames_of (s_flow s) id chunk p)%list /\ (512 <= chunk)%nat /\
    exists n, 1 <= n <= Z.of_nat attempts /\ id = (s_sequence s + n) mod 2 ^ 64.
Proof.
  induction attempts as [|attempts IH]; intros k r p l s out l' Hs; cbn [sendPacket]; [done|]. rewrite Hs.
  destruct (_ <? 512) eqn:E; [done|]. bool_to_prop. destruct (submit _ _ _) as [[out1 refusal] k1] eqn:Es.
  destruct (submit_prefix _ _ _ _ _ _ Es) as [_ Hall].
  assert (Hdone : refusal = None \/ refusal = Some Sent -> out = out1 ->
    exists pre id chunk, out = (pre ++ frames_of (s_flow s) id chunk p)%list /\ (512 <= chunk)%nat /\
      exists n, 1 <= n <= Z.of_nat (S attempts) /\ id = (s_sequence s + n) mod 2 ^ 64).
  { intros Hr ->. rewrite (Hall Hr). eexists [], _, _. split; [reflexivity|]. split; [lia|]. exists 1. split; [lia|done]. }
  destruct refusal as [[|max|e]|]; try (intros [= <- _]; by apply Hdone; auto). clear Hdone.
  destruct (_ <? max); [|done]. match goal with |- context [sendPacket attempts answers k1 r p ?x] => set (l1 := x) end.
  assert (Hs1 : l_sessions l1 !! r = Some (set_sequence ((s_sequence s + 1) mod 2 ^ 64) s)).
  { unfold l1. cbn [l_sessions put_wire put_session]. apply list_lookup_insert_eq. by eapply lookup_lt_Some. }
  destruct (sendPacket attempts answers k1 r p l1) as [[[[]|e] more] l2] eqn:Em; [|done]. intros [= <- _].
  destruct (IH _ _ _ _ _ _ _ Hs1 Em) as (pre & id & chunk & -> & Hc & n & Hn & ->). exists (out1 ++ pre)%list. eexists _, chunk.
  split; [by rewrite <- (assoc (++)%list)|]. split; [done|]. exists (n + 1). split; [lia|]. cbn [s_sequence set_sequence].
  rewrite Zplus_mod_idemp_l. f_equal. lia.
Qed.

(** C32: the memory of a link is bounded.  In every state a link can get to,
    whatever its peer sends and in whatever order its operations run, the
    counters of queued, reassembled and received bytes are exactly what is
    held, and at most 8 MiB each; flows, jobs, partial packets, waiting
    packets and remembered packet numbers stay within their limits. *)
Theorem datagram_bounds choose l : (forall m : gmap Z Z, m <> ∅ -> is_Some (m !! choose m)) -> link_reachable choose l ->
  0 <= l_queued l <= maxDatagramMemory /\ l_queued l = job_bytes (l_send l) /\
  0 <= l_reassembly l <= maxDatagramMemory /\ l_reassembly l = sum_over (fun s => totals (s_parts s)) (l_sessions l) /\
  0 <= l_received l <= maxDatagramMemory /\ l_received l = sum_over (fun s => queue_bytes (s_in s)) (l_sessions l) /\
  Z.of_nat (size (l_flows l)) <= maxDatagramFlows /\ (length (l_send l) <= 256)%nat /\
  forall s, s ∈ l_sessions l -> (size (s_parts s) <= 4)%nat /\ (length (s_in s) <= 32)%nat /\ (size (s_seen s) <= 256)%nat.
Proof.
  intros Hc Hr. pose proof (reachable_link choose l Hc Hr) as Hi. destruct Hi as [(Hq & Hqm & Hql) [Hre Hrm] [Hv Hvm] [Hf _] Hs].
  assert (Hse : forall s, s ∈ l_sessions l -> session_inv s) by (intros s (i & Hi)%list_elem_of_lookup; by eapply Hs).
  split_and!; try done.
  - rewrite Hq. apply sum_over_nonneg. intros. lia.
  - rewrite Hre. apply sum_over_nonneg. intros s Hin. apply totals_nonneg. apply (se_parts _ (Hse s Hin)).
  - rewrite Hv. apply sum_over_nonneg. intros s _. apply queue_bytes_nonneg.
  - intros s Hin. destruct (Hse s Hin) as [[_ H1] H2 H3 _]. auto.
Qed.

(** What is sent is a whole packet.  When [sendPacket] succeeds, the
    last datagrams it submitted are all the frames of the packet, under one
    packet number it had not used, at most 128 of them, each no longer than
    the datagram size in force. *)
Theorem datagram_sent answers r p l s out l' :
  l_sessions l !! r = Some s -> Z.of_nat (length p) <= maxPayload -> sendPacket 2 answers 0 r p l = (Ok tt, out, l') ->
  exists pre id chunk, out = (pre ++ frames_of (s_flow s) id chunk p)%list /\ (512 <= chunk)%nat /\
    (length (frames_of (s_flow s) id chunk p) <= 128)%nat /\
    (forall f, f ∈ frames_of (s_flow s) id chunk p -> (length f <= datagramHeader + chunk)%nat) /\
    (id = (s_sequence s + 1) mod 2 ^ 64 \/ id = (s_sequence s + 2) mod 2 ^ 64).
Proof.
  intros Hs Hp Hsend. destruct (sendPacket_emits _ _ _ _ _ _ _ _ _ Hs Hsend) as (pre & id & chunk & -> & Hc & n & Hn & ->).
  eexists pre, _, chunk. split; [reflexivity|]. split; [done|]. split.
  { unfold frames_of. rewrite length_map, length_seq. apply frame_count_bound; [lia|done|done]. }
  split; [intros f Hf; by eapply frames_size|]. assert (n = 1 \/ n = 2) as [-> | ->] by lia; auto.
Qed.


(** ** The theorems at a concrete link *)

(** The iteration order of the map library. *)
Definition first_key (m : gmap Z Z) : Z := match map_to_list m with (k, _) :: _ => k | [] => 0 end.
Lemma first_key_in (m : gmap Z Z) : m <> ∅ -> is_Some (m !! first_key m).
Proof.
  intros Hm. unfold first_key. destruct (map_to_list m) as [|[k v] rest] eqn:E.
  - by apply map_to_list_empty_iff in E.
  - exists v. apply elem_of_map_to_list. rewrite E. set_solver.
Qed.


(** A link with one flow, and a packet of two fragments. *)
Definition demo_link : datagramLink := (add 7 new_link).2.
Definition demo_packet : list Z := map Z.of_nat (seq 0 200) ++ replicate 400 65.
Lemma demo_link_reachable : link_reachable first_key demo_link.
Proof. apply rtc_once, ds_add. Qed.

Lemma datagram_bounds_witness : link_reachable first_key demo_link /\ 0 <= l_reassembly demo_link <= maxDatagramMemory.
Proof.
  split; [exact demo_link_reachable|]. exact (proj1 (proj2 (proj2 (datagram_bounds first_key demo_link first_key_in demo_link_reachable)))).
Defined.

(** The connection takes every datagram. *)
Definition taken : list (list Z) := (sendPacket 2 (fun _ => Sent) 0 0 demo_packet demo_link).1.2.
Lemma datagram_sent_witness : exists pre id chunk, taken = (pre ++ frames_of 7 id chunk demo_packet)%list /\ (512 <= chunk)%nat.
Proof.
  unfold taken. destruct (sendPacket 2 (fun _ => Sent) 0 0 demo_packet demo_link) as [[r out] l'] eqn:E.
  assert (Hr : r = Ok tt) by (change r with (r, out, l').1.1; rewrite <- E; vm_compute; reflexivity). subst r.
  destruct (datagram_sent (fun _ => Sent) 0 demo_packet demo_link (new_session 7) out l' eq_refl ltac:(vm_compute; discriminate) E) as (pre & id & chunk & H1 & H2 & _).
  exists pre, id, chunk. by split.
Defined.


