(* ===== verification/Policy.v ===== *)
(** * Inbound policy matching (internal/policy/match.go)

    Host patterns, path globs and the canonical forms of a path that a
    blocked-path rule is tried against.  Strings are lists of bytes.  [Host]
    (which needs IDNA) is the parameter of the checks: what it makes of the
    host of a request. *)

From S2P Require Import Prelude Tx GoStrings Digest.
From stdpp Require Import base gmap strings list sorting.
From Stdlib Require Import Ascii String.
Local Open Scope string_scope.
Local Open Scope Z_scope.
Local Abbreviation length := List.length.

Definition str : Type := list Z.
Definition star_char : Z := 42.
Definition any_char : Z := 63.
Definition slash : Z := 47.
Definition dot : Z := 46.
Definition percent : Z := 37.
Definition HasPrefix (s p : str) : bool := bool_decide (take (length p) s = p).
Definition HasSuffix (s p : str) : bool := (length p <=? length s)%nat && bool_decide (drop (length s - length p) s = p).

Record InboundPolicy := {
  GroupID : str; Inspection : option unit; AllowedHosts : list str; BlockedHosts : list str; BlockedPaths : list str;
  BlockedApps : list str; TLSRequired : bool; RejectEmptySNI : bool
}.

Definition ErrDenied (reason : string) : error := ErrMsg ("inbound policy denied: " ++ reason).

Definition MatchHost (pattern host : str) : bool :=
  if HasPrefix pattern [star_char; dot]
  then HasSuffix host (drop 1 pattern) && (length pattern - 1 <? length host)%nat
  else bool_decide (pattern = host).

(** ** Globs *)

(** The loop of [MatchPath]; [None] is a loop that did not end in [fuel]
    rounds. *)
Fixpoint match_loop (fuel : nat) (pattern path : str) (i j : nat) (star : option nat) (retry : nat) : option bool :=
  match fuel with
  | O => None
  | S fuel =>
      match path !! j with
      | None => Some (forallb (Z.eqb star_char) (drop i pattern))
      | Some x =>
          let again := match star with
                       | None => Some false
                       | Some s => match_loop fuel pattern path (S s) (S retry) star (S retry)
                       end in
          match pattern !! i with
          | None => again
          | Some c =>
              if (c =? any_char) || (c =? x) then match_loop fuel pattern path (S i) (S j) star retry
              else if c =? star_char then match_loop fuel pattern path (S i) j (Some i) j
              else again
          end
      end
  end.
Definition match_fuel (pattern path : str) : nat := S (S (length path) * S (length pattern)).
Definition MatchPath (pattern path : str) : bool := default false (match_loop (match_fuel pattern path) pattern path 0 0 None 0).

(** ** Paths *)

Definition unhex (c : Z) : option Z :=
  if (48 <=? c) && (c <=? 57) then Some (c - 48) else
  if (97 <=? c) && (c <=? 102) then Some (c - 87) else
  if (65 <=? c) && (c <=? 70) then Some (c - 55) else None.
(** [url.PathUnescape] *)
Fixpoint PathUnescape (s : str) : option str :=
  match s with
  | [] => Some []
  | c :: s =>
      if c =? percent then
        match s with
        | a :: b :: rest =>
            match unhex a, unhex b, PathUnescape rest with
            | Some x, Some y, Some out => Some (16 * x + y :: out)
            | _, _, _ => None
            end
        | _ => None
        end
      else match PathUnescape s with Some out => Some (c :: out) | None => None end
  end.

(** [strings.Split(s, "/")] *)
Fixpoint split_slash (s : str) : list str :=
  match s with
  | [] => [[]]
  | c :: s => if c =? slash then [] :: split_slash s
              else match split_slash s with seg :: rest => (c :: seg) :: rest | [] => [[c]] end
  end.
(** One segment of the decoded path, on the segments so far. *)
Definition push_segment (segments : list str) (p : str) : list str :=
  if bool_decide (p = [] \/ p = [dot]) then segments else
  if bool_decide (p = [dot; dot]) then take (length segments - 1) segments
  else (segments ++ [p])%list.
(** [strings.Join(segments, "/")] *)
Fixpoint join_slash (segments : list str) : str :=
  match segments with
  | [] => []
  | [s] => s
  | s :: rest => (s ++ slash :: join_slash rest)%list
  end.
Definition canonical_path (decoded : str) : str :=
  let c := slash :: join_slash (foldl push_segment [] (split_slash decoded)) in
  if HasSuffix decoded [slash] && negb (bool_decide (c = [slash])) then (c ++ [slash])%list else c.

Definition forbidden (c : Z) : bool := (c =? 0) || (c =? 13) || (c =? 10) || (c =? 92).
Definition Paths (raw : str) : res (list str) :=
  if (8192 <? Z.of_nat (length raw)) || negb (HasPrefix raw [slash]) then Err (ErrMsg "invalid HTTP path") else
  match PathUnescape raw with
  | None => Err (ErrMsg "invalid encoded path")
  | Some decoded =>
      if existsb forbidden decoded then Err (ErrMsg "invalid encoded path") else
      if existsb (Z.eqb percent) decoded then Err (ErrMsg "ambiguous double encoded path") else
      Ok [raw; decoded; canonical_path decoded]
  end.

(** ** The checks of a request *)

Definition NeedsInspect (layers : list InboundPolicy) : bool :=
  existsb (fun p => match Inspection p with Some _ => true | None => false end || TLSRequired p || RejectEmptySNI p
    || (0 <? length (AllowedHosts p) + length (BlockedHosts p) + length (BlockedPaths p) + length (BlockedApps p))%nat) layers.
Definition NeedsHTTP (layers : list InboundPolicy) : bool :=
  existsb (fun p => (0 <? length (AllowedHosts p) + length (BlockedHosts p) + length (BlockedPaths p))%nat) layers.

Section Checks.
Context (Host : str -> res str).

Definition matches (host : res str) (pattern : str) : bool := match host with Ok h => MatchHost pattern h | Err _ => false end.

Fixpoint check_hosts (layers : list InboundPolicy) (host : res str) : res unit :=
  match layers with
  | [] => Ok tt
  | p :: layers =>
      if (0 <? length (AllowedHosts p))%nat && negb (existsb (matches host) (AllowedHosts p)) then Err (ErrDenied "allowed_host") else
      if existsb (matches host) (BlockedHosts p) then Err (ErrDenied "blocked_host") else
      check_hosts layers host
  end.
Definition CheckHost (layers : list InboundPolicy) (value : str) : res unit := check_hosts layers (Host value).

Fixpoint check_paths (layers : list InboundPolicy) (rawPath : str) (upgrade : bool) : res unit :=
  match layers with
  | [] => Ok tt
  | p :: layers =>
      if (length (BlockedPaths p) =? 0)%nat then check_paths layers rawPath upgrade else
      if upgrade then Err (ErrDenied "opaque HTTP upgrade with path policy") else
      match Paths rawPath with
      | Err e => Err e
      | Ok paths =>
          if existsb (fun pattern => existsb (MatchPath pattern) paths) (BlockedPaths p) then Err (ErrDenied "blocked_path")
          else check_paths layers rawPath upgrade
      end
  end.
Definition CheckHTTP (layers : list InboundPolicy) (host rawPath : str) (upgrade : bool) : res unit :=
  match CheckHost layers host with
  | Err e => Err e
  | Ok _ => check_paths layers rawPath upgrade
  end.
End Checks.

(** ** What a pattern means

    A question mark is any byte, a star any run of bytes, slashes included,
    and every other byte itself. *)
Inductive glob : str -> str -> Prop :=
  | glob_nil : glob [] []
  | glob_any p x s : glob p s -> glob (any_char :: p) (x :: s)
  | glob_byte p x s : x <> star_char -> glob p s -> glob (x :: p) (x :: s)
  | glob_star_end p s : glob p s -> glob (star_char :: p) s
  | glob_star p x s : glob (star_char :: p) s -> glob (star_char :: p) (x :: s).

(** A wildcard host is one or more labels before the suffix. *)
Definition host_matches (pattern host : str) : Prop :=
  match pattern with
  | a :: b :: suffix => if (a =? star_char) && (b =? dot) then exists label, label <> [] /\ host = (label ++ b :: suffix)%list else host = pattern
  | _ => host = pattern
  end.

(** ** The glob loop decides the meaning *)

Lemma glob_nil_inv s : glob [] s -> s = [].
Proof. inversion 1. done. Qed.
Lemma glob_end p : glob p [] <-> forallb (Z.eqb star_char) p = true.
Proof.
  split.
  - remember [] as s eqn:Es. induction 1; try done; simplify_eq. cbn [forallb]. rewrite Z.eqb_refl. auto.
  - induction p as [|c p IH]; intros Hp; [constructor|]. cbn [forallb] in Hp. apply andb_prop in Hp as [Hc Hp]. apply Z.eqb_eq in Hc as <-.
    constructor. auto.
Qed.
Lemma glob_cons c p x s : c <> star_char -> glob (c :: p) (x :: s) <-> (c = any_char \/ c = x) /\ glob p s.
Proof.
  intros Hc. split.
  - inversion 1; simplify_eq; auto.
  - intros [[-> | ->] Hg]; by constructor.
Qed.
Lemma glob_cons_nil c p : c <> star_char -> ~ glob (c :: p) [].
Proof. intros Hc. by inversion 1. Qed.
(** A star takes some first bytes. *)
Lemma glob_star_take p s : glob (star_char :: p) s <-> exists k, (k <= length s)%nat /\ glob p (drop k s).
Proof.
  split.
  - intros Hg. remember (star_char :: p) as q eqn:Eq. induction Hg as [| | | |p' x s Hg IH]; simplify_eq.
    + exists 0%nat. split; [lia|done].
    + destruct (IH eq_refl) as (k & Hk & Hg'). exists (S k). simpl. split; [lia|done].
  - intros (k & Hk & Hg). revert s Hk Hg. induction k as [|k IH]; intros s Hk Hg; [by constructor|]. destruct s as [|x s]; [simpl in Hk; lia|].
    apply glob_star, IH; [simpl in Hk; lia|done].
Qed.

Section Glob.
Context (pattern path : str) (Hpath : star_char ∉ path).

Definition at_ (i j : nat) : Prop := glob (drop i pattern) (drop j path).

Lemma at_byte i j c x : pattern !! i = Some c -> path !! j = Some x -> c <> star_char ->
  at_ i j <-> (c = any_char \/ c = x) /\ at_ (S i) (S j).
Proof using Type. intros Hi Hj Hc. unfold at_. rewrite (drop_S _ _ _ Hi), (drop_S _ _ _ Hj). by apply glob_cons. Qed.
Lemma at_star i j : pattern !! i = Some star_char -> at_ i j <-> exists k, (j <= k)%nat /\ (k <= Nat.max j (length path))%nat /\ at_ (S i) k.
Proof using Type.
  intros Hi. unfold at_. rewrite (drop_S _ _ _ Hi), glob_star_take. rewrite length_drop. setoid_rewrite drop_drop. split.
  - intros (k & Hk & Hg). exists (j + k)%nat. split; [lia|]. split; [lia|done].
  - intros (k & H1 & H2 & Hg). exists (k - j)%nat. split; [lia|]. by replace (j + (k - j))%nat with k by lia.
Qed.
Lemma at_end i : at_ i (length path) <-> forallb (Z.eqb star_char) (drop i pattern) = true.
Proof using Type. unfold at_. rewrite drop_all. apply glob_end. Qed.
Lemma at_no_pattern i j : pattern !! i = None -> at_ i j -> (length path <= j)%nat.
Proof using Type.
  unfold at_. intros Hi%lookup_ge_None_1 Hg. rewrite drop_ge in Hg by done. apply glob_nil_inv in Hg.
  apply (f_equal List.length) in Hg. rewrite length_drop in Hg. simpl in Hg. lia.
Qed.

(** Between stars a pattern consumes one byte per byte. *)
Lemma at_run n : forall a k, (a + n <= length pattern)%nat -> (forall m, (a <= m < a + n)%nat -> pattern !! m <> Some star_char) ->
  (k <= length path)%nat -> at_ a k -> (k + n <= length path)%nat /\ at_ (a + n) (k + n).
Proof using Type.
  induction n as [|n IH]; intros a k Ha Hm Hk Hg; [rewrite !Nat.add_0_r; auto|].
  destruct (pattern !! a) as [c|] eqn:Ec; [|apply lookup_ge_None_1 in Ec; lia].
  assert (Hc : c <> star_char) by (intros ->; by apply (Hm a); [lia|]).
  destruct (path !! k) as [x|] eqn:Ex.
  - rewrite (at_byte _ _ _ _ Ec Ex Hc) in Hg. destruct Hg as [_ Hg]. apply lookup_lt_Some in Ex. apply IH in Hg; [|lia|intros; apply Hm; lia|lia].
    by rewrite !Nat.add_succ_r.
  - exfalso. apply lookup_ge_None_1 in Ex. unfold at_ in Hg. rewrite (drop_S _ _ _ Ec), (drop_ge path k) in Hg by done. by apply glob_cons_nil in Hg.
Qed.

(** Where the loop can be: the last star, the bytes it takes so far, and the
    star-free run of the pattern matched since. *)
Record loop_inv (i j : nat) (star : option nat) (retry : nat) : Prop := {
  lp_i : (i <= length pattern)%nat;
  lp_j : (retry <= j <= length path)%nat;
  lp_star : match star with
            | None => True
            | Some s => (s < i)%nat /\ pattern !! s = Some star_char /\ (i = s + 1 + (j - retry))%nat /\
                        forall m, (s < m < i)%nat -> pattern !! m <> Some star_char
            end
}.
Definition later (star : option nat) (retry : nat) : Prop :=
  match star with None => False | Some s => exists k, (retry < k <= length path)%nat /\ at_ (S s) k end.

(** A later choice for the last star still reaches the run's end. *)
Lemma later_run i j s retry : loop_inv i j (Some s) retry -> later (Some s) retry -> exists k, (j < k <= length path)%nat /\ at_ i k.
Proof using Type.
  intros [Hi Hj (Hs & Hst & Hij & Hm)] (k & Hk & Hg). destruct (at_run (j - retry) (S s) k) as [H1 H2]; [lia|intros; apply Hm; lia|lia|done|].
  exists (k + (j - retry))%nat. split; [lia|]. by replace (S s + (j - retry))%nat with i in H2 by lia.
Qed.

Definition rounds (i retry : nat) : nat := ((length path - retry) * S (length pattern) + (length pattern - i))%nat.

Lemma match_loop_spec fuel : forall i j star retry, loop_inv i j star retry -> (rounds i retry < fuel)%nat ->
  exists b, match_loop fuel pattern path i j star retry = Some b /\ (b = true <-> at_ i j \/ later star retry).
Proof using Hpath.
  induction fuel as [|fuel IH]; intros i j star retry Hinv Hf; [lia|]. cbn [match_loop]. destruct Hinv as [Hi Hj Hst].
  destruct (path !! j) as [x|] eqn:Ex.
  2: { apply lookup_ge_None_1 in Ex. assert (j = length path) as -> by lia. eexists. split; [done|]. rewrite <- at_end. split; [auto|].
       intros [Hg|Hl]; [done|]. destruct star as [s|]; [|done]. destruct (later_run i (length path) s retry) as (k & Hk & _); [by split|done|]. lia. }
  pose proof (lookup_lt_Some _ _ _ Ex) as Hlt. assert (Hx : x <> star_char) by (intros ->; apply Hpath; by eapply list_elem_of_lookup_2).
  assert (Hagain : ~ at_ i j -> exists b,
    match star with None => Some false | Some s => match_loop fuel pattern path (S s) (S retry) star (S retry) end = Some b /\
    (b = true <-> at_ i j \/ later star retry)).
  { intros Hno. destruct star as [s|]; [|exists false; split; [done|]; simpl; split; [done|tauto]]. destruct Hst as (Hs & Hss & Hij & Hm).
    destruct (IH (S s) (S retry) (Some s) (S retry)) as (b & Hb & Hiff).
    - split; [lia|lia|]. split; [lia|]. split; [done|]. split; [lia|]. intros m Hmm. lia.
    - unfold rounds in *. apply lookup_lt_Some in Hss. nia.
    - exists b. split; [done|]. rewrite Hiff. split.
      + intros [Hg|(k & Hk & Hg)]; right; [exists (S retry); split; [lia|done]|exists k; split; [lia|done]].
      + intros [Hg|(k & Hk & Hg)]; [done|]. destruct (decide (k = S retry)) as [->|Hne]; [by left|]. right. exists k. split; [lia|done]. }
  destruct (pattern !! i) as [c|] eqn:Ec.
  2: { apply Hagain. intros Hg. apply (at_no_pattern _ _ Ec) in Hg. lia. }
  pose proof (lookup_lt_Some _ _ _ Ec) as Hilt.
  destruct ((c =? any_char) || (c =? x)) eqn:Em.
  - assert (Hc : c <> star_char). { intros ->. apply orb_prop in Em as [E|E]; apply Z.eqb_eq in E; [done|congruence]. }
    assert (Hmm : c = any_char \/ c = x) by (apply orb_prop in Em as [E|E]; apply Z.eqb_eq in E; auto).
    destruct (IH (S i) (S j) star retry) as (b & Hb & Hiff).
    + split; [lia|lia|]. destruct star as [s|]; [|done]. destruct Hst as (Hs & Hss & Hij & Hm). split; [lia|]. split; [done|]. split; [lia|].
      intros m Hmi. destruct (decide (m = i)) as [->|Hne]; [rewrite Ec; congruence|apply Hm; lia].
    + unfold rounds in *. lia.
    + exists b. split; [done|]. rewrite Hiff, (at_byte _ _ _ _ Ec Ex Hc). tauto.
  - destruct (c =? star_char) eqn:Es.
    + apply Z.eqb_eq in Es as ->. destruct (IH (S i) j (Some i) j) as (b & Hb & Hiff).
      * split; [lia|lia|]. split; [lia|]. split; [done|]. split; [lia|]. intros m Hm. lia.
      * unfold rounds in *. nia.
      * exists b. split; [done|]. rewrite Hiff, (at_star _ _ Ec). split.
        -- intros [Hg|(k & Hk & Hg)]; left; [exists j|exists k]; (split; [lia|]); (split; [lia|done]).
        -- intros [(k & H1 & H2 & Hg)|Hl].
           ++ destruct (decide (k = j)) as [->|Hne]; [by left|]. right. exists k. split; [lia|done].
           ++ destruct star as [s|]; [|done]. destruct (later_run i j s retry) as (k & Hk & Hg); [by split|done|].
              rewrite (at_star _ _ Ec) in Hg. destruct Hg as (k' & H1 & H2 & Hg). right. exists k'. split; [lia|done].
    + apply Hagain. rewrite (at_byte _ _ _ _ Ec Ex) by (by apply Z.eqb_neq). intros [[-> | ->] _]; [done|]. by rewrite Z.eqb_refl, orb_true_r in Em.
Qed.

(** For every pattern and path the loop ends within its rounds. *)
Lemma match_loop_ends fuel : forall i j star retry, (i <= length pattern)%nat -> (retry <= j <= length path)%nat ->
  (forall s, star = Some s -> (s < length pattern)%nat) -> (rounds i retry < fuel)%nat ->
  is_Some (match_loop fuel pattern path i j star retry).
Proof using Type.
  clear Hpath. induction fuel as [|fuel IH]; intros i j star retry Hi Hj Hs Hf; [lia|]. cbn [match_loop].
  destruct (path !! j) as [x|] eqn:Ex; [|by eexists]. apply lookup_lt_Some in Ex.
  assert (Hagain : is_Some match star with None => Some false | Some s => match_loop fuel pattern path (S s) (S retry) star (S retry) end).
  { destruct star as [s|]; [|by eexists]. specialize (Hs s eq_refl). apply IH; [lia|lia|intros ? [= <-]; lia|]. unfold rounds in *. nia. }
  destruct (pattern !! i) as [c|] eqn:Ec; [|done]. apply lookup_lt_Some in Ec. destruct (_ || _).
  - apply IH; [lia|lia|done|]. unfold rounds in *. lia.
  - destruct (c =? star_char); [|done]. apply IH; [lia|lia|intros ? [= <-]; lia|]. unfold rounds in *. nia.
Qed.

Lemma MatchPath_glob : MatchPath pattern path = true <-> glob pattern path.
Proof using Hpath.
  unfold MatchPath. destruct (match_loop_spec (match_fuel pattern path) 0 0 None 0) as (b & -> & Hb).
  - split; [lia|lia|done].
  - unfold rounds, match_fuel. lia.
  - simpl. rewrite Hb. unfold at_. rewrite !drop_0. simpl. tauto.
Qed.
End Glob.

(** ** Canonical paths *)

Local Close Scope string_scope.
Local Open Scope list_scope.

Definition clean (s : str) : Prop := s <> [] /\ s <> [dot] /\ s <> [dot; dot] /\ slash ∉ s.

Lemma push_clean segments p : Forall clean segments -> slash ∉ p -> Forall clean (push_segment segments p).
Proof.
  intros Hs Hp. unfold push_segment. case_bool_decide as H1; [done|]. case_bool_decide as H2; [by apply Forall_take|].
  apply Forall_app. split; [done|]. apply Forall_singleton. unfold clean. tauto.
Qed.
Lemma split_no_slash s : Forall (fun p => slash ∉ p) (split_slash s).
Proof.
  induction s as [|c s IH]; cbn [split_slash]; [apply Forall_singleton; set_solver|].
  destruct (c =? slash) eqn:E; [apply Forall_cons; split; [set_solver|done]|]. apply Z.eqb_neq in E.
  destruct (split_slash s) as [|seg rest]; [apply Forall_singleton; set_solver|]. apply Forall_cons in IH as [H1 H2].
  apply Forall_cons. split; [set_solver|done].
Qed.
Lemma fold_clean segs segments : Forall clean segments -> Forall (fun p => slash ∉ p) segs -> Forall clean (foldl push_segment segments segs).
Proof.
  revert segments. induction segs as [|p segs IH]; intros segments Hs Hp; [done|]. apply Forall_cons in Hp as [H1 H2].
  cbn [foldl]. apply IH; [by apply push_clean|done].
Qed.

(** Splitting undoes joining. *)
Lemma split_segment s rest : slash ∉ s -> split_slash (s ++ slash :: rest) = s :: split_slash rest.
Proof.
  induction s as [|c s IH]; intros Hs; cbn [app split_slash]; [by rewrite Z.eqb_refl|].
  rewrite (proj2 (Z.eqb_neq c slash)) by set_solver. rewrite IH by set_solver. done.
Qed.
Lemma split_last s : slash ∉ s -> split_slash s = [s].
Proof.
  induction s as [|c s IH]; intros Hs; cbn [split_slash]; [done|]. rewrite (proj2 (Z.eqb_neq c slash)) by set_solver. rewrite IH by set_solver. done.
Qed.
Lemma split_join segs : segs <> [] -> Forall clean segs -> split_slash (join_slash segs) = segs.
Proof.
  induction segs as [|s segs IH]; intros Hne Hs; [done|]. apply Forall_cons in Hs as [(_ & _ & _ & H1) H2]. destruct segs as [|t segs]; [by apply split_last|].
  cbn [join_slash]. rewrite split_segment by done. f_equal. by apply IH.
Qed.
Lemma split_join_slash segs : segs <> [] -> Forall clean segs -> split_slash (join_slash segs ++ [slash]) = (segs ++ [[]])%list.
Proof.
  induction segs as [|s segs IH]; intros Hne Hs; [done|]. apply Forall_cons in Hs as [(_ & _ & _ & H1) H2]. destruct segs as [|t segs].
  - cbn [join_slash]. by rewrite split_segment.
  - cbn [join_slash]. rewrite <- (assoc (++)%list). cbn [app]. rewrite split_segment by done. cbn [app]. f_equal. by apply IH.
Qed.

Lemma push_clean_app segs segments : Forall clean segs -> foldl push_segment segments segs = (segments ++ segs)%list.
Proof.
  revert segments. induction segs as [|p segs IH]; intros segments Hs; [by rewrite app_nil_r|]. apply Forall_cons in Hs as [(H1 & H2 & H3 & _) Hs].
  cbn [foldl]. rewrite IH by done. unfold push_segment. rewrite bool_decide_eq_false_2 by tauto. rewrite bool_decide_eq_false_2 by done.
  by rewrite <- (assoc (++)%list).
Qed.

Lemma push_empty segments : push_segment segments [] = segments.
Proof. unfold push_segment. by rewrite bool_decide_eq_true_2 by auto. Qed.

Lemma HasSuffix_slash s x : HasSuffix (s ++ [x]) [slash] = (x =? slash).
Proof.
  unfold HasSuffix. rewrite length_app. cbn [List.length]. replace (length s + 1 - 1)%nat with (length s) by lia. rewrite drop_app_length.
  rewrite (proj2 (Nat.leb_le _ _)) by lia. simpl. destruct (x =? slash) eqn:E.
  - apply Z.eqb_eq in E as ->. by rewrite bool_decide_eq_true_2.
  - apply Z.eqb_neq in E. rewrite bool_decide_eq_false_2; [done|congruence].
Qed.
Lemma join_last segs : segs <> [] -> Forall clean segs -> exists s x, join_slash segs = (s ++ [x])%list /\ x <> slash.
Proof.
  induction segs as [|t segs IH]; intros Hne Hs; [done|]. apply Forall_cons in Hs as [(H1 & _ & _ & H2) Hs]. destruct segs as [|u segs].
  - cbn [join_slash]. destruct t as [|x t _] using rev_ind; [done|]. exists t, x. split; [done|]. set_solver.
  - destruct (IH ltac:(done) Hs) as (s & x & E & Hx). change (join_slash (t :: u :: segs)) with (t ++ slash :: join_slash (u :: segs)). rewrite E. exists (t ++ slash :: s)%list, x. split; [|done]. by rewrite <- (assoc (++)%list).
Qed.

(** The shape of a canonical path. *)
Lemma canonical_shape decoded : exists segs, Forall clean segs /\
  (canonical_path decoded = slash :: join_slash segs \/ segs <> [] /\ canonical_path decoded = (slash :: join_slash segs ++ [slash])%list).
Proof.
  exists (foldl push_segment [] (split_slash decoded)). set (segs := foldl push_segment [] (split_slash decoded)).
  assert (Hs : Forall clean segs) by (apply fold_clean; [done|apply split_no_slash]). split; [done|]. unfold canonical_path. fold segs.
  destruct (HasSuffix decoded [slash] && _) eqn:E; [|by left]. right. apply andb_prop in E as [_ E]. apply negb_true_iff, bool_decide_eq_false in E.
  split; [|done]. intros Hn. by rewrite Hn in E.
Qed.

Lemma canonical_idem decoded : canonical_path (canonical_path decoded) = canonical_path decoded.
Proof.
  destruct (canonical_shape decoded) as (segs & Hs & [-> | [Hne ->]]).
  - destruct (decide (segs = [])) as [->|Hne]; [reflexivity|]. unfold canonical_path.
    cbn [split_slash]. rewrite Z.eqb_refl, split_join by done. cbn [foldl]. rewrite push_empty.
    rewrite push_clean_app by done. cbn [app]. destruct (join_last segs Hne Hs) as (s & x & E & Hx). rewrite E.
    change (slash :: (s ++ [x])%list) with ((slash :: s) ++ [x])%list. rewrite HasSuffix_slash, (proj2 (Z.eqb_neq _ _) Hx). done.
  - unfold canonical_path. cbn [split_slash app]. rewrite Z.eqb_refl, split_join_slash by done. cbn [foldl]. rewrite push_empty.
    rewrite foldl_app, (push_clean_app segs) by done. cbn [foldl app]. rewrite push_empty.
    change (slash :: (join_slash segs ++ [slash])%list) with ((slash :: join_slash segs) ++ [slash])%list. rewrite HasSuffix_slash, Z.eqb_refl.
    rewrite bool_decide_eq_false_2; [done|]. destruct (join_last segs Hne Hs) as (s & x & E & _). rewrite E. intros [= H]. by destruct s.
Qed.

(** A canonical path is no longer than the path and has no other bytes. *)
Definition weight (segs : list str) : Z := sum_over (fun s => Z.of_nat (length s) + 1) segs.
Lemma weight_nonneg segs : 0 <= weight segs.
Proof. apply sum_over_nonneg. intros. lia. Qed.
Lemma split_weight s : weight (split_slash s) = Z.of_nat (length s) + 1.
Proof.
  unfold weight. induction s as [|c s IH]; cbn [split_slash List.length]; [done|]. destruct (c =? slash); [simpl; lia|].
  destruct (split_slash s) as [|seg rest]; simpl in *; lia.
Qed.
Lemma push_weight segments p : weight (push_segment segments p) <= weight segments + (Z.of_nat (length p) + 1).
Proof.
  unfold push_segment. case_bool_decide; [lia|]. case_bool_decide.
  - rewrite <- (take_drop (length segments - 1) segments) at 3. unfold weight. rewrite sum_over_app.
    pose proof (weight_nonneg (drop (length segments - 1) segments)). unfold weight in *. lia.
  - unfold weight. rewrite sum_over_app. simpl. lia.
Qed.
Lemma fold_weight segs segments : weight (foldl push_segment segments segs) <= weight segments + weight segs.
Proof.
  revert segments. induction segs as [|p segs IH]; intros segments; cbn [foldl]; [unfold weight; simpl; lia|].
  pose proof (IH (push_segment segments p)). pose proof (push_weight segments p). unfold weight in *. simpl. lia.
Qed.
Lemma join_weight segs : segs <> [] -> Z.of_nat (length (join_slash segs)) + 1 = weight segs.
Proof.
  unfold weight. induction segs as [|s segs IH]; intros Hne; [done|]. destruct segs as [|t segs]; [simpl; lia|].
  change (join_slash (s :: t :: segs)) with (s ++ slash :: join_slash (t :: segs)). rewrite length_app. cbn [List.length].
  change (sum_over (fun s => Z.of_nat (length s) + 1) (s :: t :: segs)) with (Z.of_nat (length s) + 1 + sum_over (fun s => Z.of_nat (length s) + 1) (t :: segs)).
  rewrite <- (IH ltac:(done)). lia.
Qed.
Lemma split_nonempty s : split_slash s <> [].
Proof. destruct s as [|c s]; [done|]. cbn [split_slash]. destruct (c =? slash); [done|]. by destruct (split_slash s). Qed.
Lemma split_snoc s : split_slash (s ++ [slash]) = split_slash s ++ [[]].
Proof.
  induction s as [|c s IH]; [reflexivity|]. cbn [app split_slash]. rewrite IH. destruct (c =? slash); [done|]. destruct (split_slash s) eqn:E; [by destruct (split_nonempty s)|done].
Qed.

Lemma canonical_length d : HasPrefix d [slash] = true -> (length (canonical_path d) <= length d)%nat.
Proof.
  intros Hp. apply bool_decide_eq_true in Hp. destruct d as [|c d]; [done|]. simpl in Hp. rewrite take_0 in Hp. injection Hp as ->.
  unfold canonical_path. set (segs := foldl push_segment [] (split_slash (slash :: d))).
  assert (Hw : weight segs <= Z.of_nat (length d) + 1).
  { unfold segs. cbn [split_slash]. rewrite Z.eqb_refl. cbn [foldl]. rewrite push_empty. pose proof (fold_weight (split_slash d) []) as H.
    rewrite split_weight in H. unfold weight in H at 2. simpl in H. lia. }
  assert (Hj : (segs <> [] -> Z.of_nat (length (slash :: join_slash segs)) = weight segs)).
  { intros Hne. cbn [List.length]. rewrite <- join_weight by done. lia. }
  destruct (decide (segs = [])) as [Hn|Hne].
  { rewrite Hn. change (slash :: join_slash []) with [slash]. rewrite (bool_decide_eq_true_2 ([slash] = [slash])) by done. cbn [negb]. rewrite andb_false_r. simpl. lia. }
  specialize (Hj Hne). destruct (HasSuffix (slash :: d) [slash]) eqn:Es; simpl andb; [|cbn [List.length] in *; lia].
  destruct (negb _); [|cbn [List.length] in *; lia].
  destruct d as [|x d' _] using rev_ind; [by destruct Hne|]. change (slash :: d' ++ [x]) with ((slash :: d') ++ [x]) in *.
  rewrite HasSuffix_slash in Es. apply Z.eqb_eq in Es as ->.
  assert (Hw' : weight segs <= Z.of_nat (length d') + 1).
  { unfold segs. rewrite split_snoc, foldl_app. cbn [foldl]. rewrite push_empty. cbn [split_slash]. rewrite Z.eqb_refl. cbn [foldl]. rewrite push_empty.
    pose proof (fold_weight (split_slash d') []) as H. rewrite split_weight in H. unfold weight in H at 2. simpl in H. lia. }
  rewrite !length_app in *. cbn [List.length] in *. lia.
Qed.

Lemma split_elem x s seg : seg ∈ split_slash s -> x ∈ seg -> x ∈ s.
Proof.
  revert seg. induction s as [|c s IH]; intros seg Hs Hx; cbn [split_slash] in Hs.
  { apply list_elem_of_singleton in Hs as ->. by apply not_elem_of_nil in Hx. }
  destruct (c =? slash) eqn:E.
  - apply elem_of_cons in Hs as [->|Hs]; [set_solver|]. apply elem_of_cons. right. by eapply IH.
  - destruct (split_slash s) as [|t rest]; [apply list_elem_of_singleton in Hs as ->; set_solver|]. apply elem_of_cons in Hs as [->|Hs].
    + apply elem_of_cons in Hx as [->|Hx]; [set_solver|]. apply elem_of_cons. right. eapply IH; [|done]. set_solver.
    + apply elem_of_cons. right. eapply IH; [|done]. set_solver.
Qed.
Lemma push_elem x segments p : (exists s, s ∈ push_segment segments p /\ x ∈ s) -> (exists s, s ∈ segments /\ x ∈ s) \/ x ∈ p.
Proof.
  unfold push_segment. case_bool_decide; [by left|]. case_bool_decide; intros (s & Hs & Hx).
  - left. exists s. split; [|done]. by eapply elem_of_take in Hs as (? & ? & _); eapply list_elem_of_lookup_2.
  - apply elem_of_app in Hs as [Hs|Hs]; [left; eauto|]. apply list_elem_of_singleton in Hs as ->. by right.
Qed.
Lemma fold_elem x segs segments : (exists s, s ∈ foldl push_segment segments segs /\ x ∈ s) ->
  (exists s, s ∈ segments /\ x ∈ s) \/ (exists s, s ∈ segs /\ x ∈ s).
Proof.
  revert segments. induction segs as [|p segs IH]; intros segments Hs; cbn [foldl] in Hs; [by left|].
  apply IH in Hs as [Hs|(s & Hs & Hx)]; [|right; exists s; set_solver]. apply push_elem in Hs as [Hs|Hs]; [by left|]. right. exists p. set_solver.
Qed.
Lemma join_elem x segs : x ∈ join_slash segs -> x = slash \/ exists s, s ∈ segs /\ x ∈ s.
Proof.
  induction segs as [|s segs IH]; intros Hx; [set_solver|]. destruct segs as [|t segs].
  - cbn [join_slash] in Hx. right. exists s. set_solver.
  - change (join_slash (s :: t :: segs)) with (s ++ slash :: join_slash (t :: segs)) in Hx.
    apply elem_of_app in Hx as [Hx|Hx]; [right; exists s; set_solver|]. apply elem_of_cons in Hx as [->|Hx]; [by left|].
    destruct (IH Hx) as [->|(u & Hu & Hxu)]; [by left|]. right. exists u. set_solver.
Qed.
Lemma canonical_elem x d : x ∈ canonical_path d -> x = slash \/ x ∈ d.
Proof.
  assert (H : x ∈ slash :: join_slash (foldl push_segment [] (split_slash d)) -> x = slash \/ x ∈ d).
  { intros [->|Hx]%elem_of_cons; [by left|]. apply join_elem in Hx as [->|Hx]; [by left|]. apply fold_elem in Hx as [(s & Hs & _)|(s & Hs & Hx)]; [set_solver|].
    right. by eapply split_elem. }
  unfold canonical_path. destruct (_ && _); [|done]. change (slash :: ?s) with ([slash] ++ s).
  intros [Hx|Hx]%elem_of_app; [by apply H|]. left. set_solver.
Qed.

(** Decoding. *)
Lemma unescape_plain s : percent ∉ s -> PathUnescape s = Some s.
Proof.
  induction s as [|c s IH]; intros Hs; [done|]. cbn [PathUnescape]. rewrite (proj2 (Z.eqb_neq c percent)) by set_solver.
  rewrite IH by set_solver. done.
Qed.
Lemma unescape_length n : forall s d, (length s <= n)%nat -> PathUnescape s = Some d -> (length d <= length s)%nat.
Proof.
  induction n as [|n IH]; intros s d Hn Hd; destruct s as [|c s]; cbn [PathUnescape] in Hd; cbn [List.length] in *; try lia; try (injection Hd as <-; simpl; lia).
  destruct (c =? percent).
  - destruct s as [|a [|b rest]]; try done. destruct (unhex a), (unhex b); try done. destruct (PathUnescape rest) as [out|] eqn:E; [|done].
    injection Hd as <-. cbn [List.length] in *. apply IH in E; lia.
  - destruct (PathUnescape s) as [out|] eqn:E; [|done]. injection Hd as <-. cbn [List.length]. apply IH in E; lia.
Qed.
Lemma unescape_slash s d : HasPrefix s [slash] = true -> PathUnescape s = Some d -> HasPrefix d [slash] = true.
Proof.
  intros Hp%bool_decide_eq_true Hd. destruct s as [|c s]; [done|]. simpl in Hp. rewrite take_0 in Hp. injection Hp as ->.
  cbn [PathUnescape] in Hd. change (slash =? percent) with false in Hd. cbv iota in Hd. destruct (PathUnescape s); [|done]. injection Hd as <-.
  apply bool_decide_eq_true_2. simpl. by rewrite take_0.
Qed.

Lemma existsb_absent (f : Z -> bool) s : existsb f s = false <-> forall x, x ∈ s -> f x = false.
Proof.
  split.
  - induction s as [|c s IH]; intros He x Hx; [set_solver|]. cbn [existsb] in He. apply orb_false_elim in He as [H1 H2].
    apply elem_of_cons in Hx as [->|Hx]; [done|]. by apply IH.
  - induction s as [|c s IH]; intros Hf; [done|]. cbn [existsb]. rewrite Hf by set_solver. apply IH. intros. apply Hf. set_solver.
Qed.

(** What [Paths] accepts and returns. *)
Lemma Paths_Ok raw ps : Paths raw = Ok ps -> exists d, PathUnescape raw = Some d /\ ps = [raw; d; canonical_path d] /\
  HasPrefix d [slash] = true /\ (length d <= length raw)%nat /\ Z.of_nat (length raw) <= 8192 /\ percent ∉ d /\ (forall x, x ∈ d -> forbidden x = false).
Proof.
  unfold Paths. destruct (_ || _) eqn:E; [done|]. bool_to_prop. destruct (PathUnescape raw) as [d|] eqn:Ed; [|done].
  destruct (existsb forbidden d) eqn:Ef; [done|]. destruct (existsb (Z.eqb percent) d) eqn:Ep; [done|]. intros [= <-]. exists d.
  rewrite existsb_absent in Ef, Ep. split; [done|]. split; [done|]. split; [by eapply unescape_slash|]. split; [by eapply unescape_length|].
  split; [done|]. split; [|done]. intros Hin. apply Ep in Hin. by rewrite Z.eqb_refl in Hin.
Qed.

Lemma canonical_prefix d : HasPrefix (canonical_path d) [slash] = true.
Proof. unfold canonical_path. destruct (_ && _); apply bool_decide_eq_true_2; simpl; by rewrite take_0. Qed.

Lemma Paths_canonical raw ps : Paths raw = Ok ps -> exists d c, ps = [raw; d; c] /\ Paths c = Ok [c; c; c] /\
  (forall seg, seg ∈ split_slash c -> seg <> [dot] /\ seg <> [dot; dot]).
Proof.
  intros (d & Hd & -> & Hp & Hl & Hr & Hpc & Hf)%Paths_Ok. exists d, (canonical_path d). split; [done|].
  pose proof (canonical_length d Hp) as Hcl. assert (Hel : forall x, x ∈ canonical_path d -> x = slash \/ x ∈ d) by (intros; by apply canonical_elem).
  split.
  - unfold Paths. rewrite (proj2 (Z.ltb_ge 8192 _)) by lia. rewrite canonical_prefix. cbn [negb orb].
    rewrite unescape_plain by (intros [?|?]%Hel; done).
    rewrite (proj2 (existsb_absent forbidden (canonical_path d))) by (intros x [->|Hx]%Hel; [done|by apply Hf]).
    rewrite (proj2 (existsb_absent (Z.eqb percent) (canonical_path d))) by (intros x [->|Hx]%Hel; [done|apply Z.eqb_neq; congruence]).
    by rewrite canonical_idem.
  - destruct (canonical_shape d) as (segs & Hs & Hc). intros seg Hseg. rewrite Forall_forall in Hs.
    assert (seg = [] \/ seg ∈ segs) as [->|Hin]; [|done|by apply Hs in Hin as (_ & ? & ? & _)].
    rewrite <- Forall_forall in Hs. destruct Hc as [Hc|[Hne Hc]]; rewrite Hc in Hseg; cbn [split_slash] in Hseg; rewrite Z.eqb_refl in Hseg;
      (apply elem_of_cons in Hseg as [->|Hseg]; [by left|]).
    + destruct (decide (segs = [])) as [->|Hne]; [simpl in Hseg; set_solver|]. rewrite split_join in Hseg by done. by right.
    + rewrite split_join_slash in Hseg by done. set_solver.
Qed.
