(* ===== verification/PolicyGuarantees.v ===== *)
(** * Inbound policy: the theorems

    A path glob means what it says; matching is bounded; a request that the
    checks let through is one that no rule of any layer refuses. *)

From S2P Require Import Prelude Tx GoStrings Digest Policy.
From stdpp Require Import base gmap strings list.
From Stdlib Require Import Ascii String.
Local Open Scope string_scope.
Local Open Scope Z_scope.
Local Abbreviation length := List.length.

(** ** What the checks decide *)

Lemma MatchHost_spec pattern host : MatchHost pattern host = true <-> host_matches pattern host.
Proof.
  assert (Hplain : (forall b suffix, pattern <> star_char :: b :: suffix \/ b <> dot) ->
    MatchHost pattern host = bool_decide (pattern = host)).
  { intros Hn. unfold MatchHost. destruct (HasPrefix pattern [star_char; dot]) eqn:E; [|done]. exfalso. apply bool_decide_eq_true in E.
    destruct pattern as [|a [|b suffix]]; try done. simpl in E. injection E as -> ->. by destruct (Hn dot suffix). }
  destruct pattern as [|a [|b suffix]]; [rewrite Hplain by (left; done); simpl; rewrite bool_decide_eq_true; split; congruence
    |rewrite Hplain by (left; done); simpl; rewrite bool_decide_eq_true; split; congruence|].
  unfold host_matches. destruct ((a =? star_char) && (b =? dot)) eqn:E.
  - apply andb_prop in E as [->%Z.eqb_eq ->%Z.eqb_eq]. unfold MatchHost, HasPrefix. simpl take. rewrite take_0, bool_decide_eq_true_2 by done.
    unfold HasSuffix. cbn [drop List.length]. rewrite !andb_true_iff, Nat.leb_le, bool_decide_eq_true, Nat.ltb_lt. split.
    + intros [[H1 H2] H3]. exists (take (length host - S (length suffix)) host). split.
      * intros Hn. apply (f_equal List.length) in Hn. rewrite length_take in Hn. simpl in Hn. lia.
      * rewrite <- H2. by rewrite take_drop.
    + intros (label & Hl & ->). rewrite length_app. cbn [List.length]. assert (0 < length label)%nat by (destruct label; [done|simpl; lia]).
      split; [split; [lia|]|lia]. replace (length label + S (length suffix) - S (length suffix))%nat with (length label) by lia. apply drop_app_length.
  - rewrite Hplain; [rewrite bool_decide_eq_true; split; congruence|]. intros b' suffix'. destruct (decide (a = star_char)) as [->|]; [|left; congruence].
    rewrite Z.eqb_refl in E. simpl in E. apply Z.eqb_neq in E. destruct (decide (b' = b)) as [->|]; [by right|left; congruence].
Qed.

Lemma existsb_false {A} (f : A -> bool) l : existsb f l = false <-> forall x, x ∈ l -> f x = false.
Proof.
  induction l as [|a l IH]; simpl; [split; [intros _ x Hx; set_solver|done]|]. rewrite orb_false_iff, IH. split.
  - intros [H1 H2] x [->|Hx]%elem_of_cons; auto.
  - intros Hf. split; [apply Hf; set_solver|]. intros x Hx. apply Hf. set_solver.
Qed.

(** What a layer asks of a host. *)
Definition host_allowed (p : InboundPolicy) (host : res str) : Prop :=
  (AllowedHosts p <> [] -> exists pattern, pattern ∈ AllowedHosts p /\ matches host pattern = true) /\
  (forall pattern, pattern ∈ BlockedHosts p -> matches host pattern = false).
(** What a layer asks of a path. *)
Definition path_allowed (p : InboundPolicy) (raw : str) (upgrade : bool) : Prop :=
  BlockedPaths p <> [] -> upgrade = false /\
    exists paths, Paths raw = Ok paths /\ forall pattern path, pattern ∈ BlockedPaths p -> path ∈ paths -> MatchPath pattern path = false.

Lemma check_hosts_spec layers host : check_hosts layers host = Ok tt <-> Forall (fun p => host_allowed p host) layers.
Proof.
  induction layers as [|p layers IH]; [split; [by constructor|done]|]. rewrite Forall_cons, <- IH. cbn [check_hosts]. unfold host_allowed at 1.
  destruct ((0 <? length (AllowedHosts p))%nat && negb (existsb (matches host) (AllowedHosts p))) eqn:E1.
  { split; [done|]. intros [[H1 _] _]. exfalso. apply andb_prop in E1 as [Hl Hn]. apply negb_true_iff in Hn. rewrite existsb_false in Hn.
    destruct H1 as (pattern & Hin & Hm); [intros Hz; by rewrite Hz in Hl|]. by rewrite (Hn _ Hin) in Hm. }
  destruct (existsb (matches host) (BlockedHosts p)) eqn:E2.
  { split; [done|]. intros [[_ H2] _]. apply not_false_iff_true in E2. by rewrite existsb_false in E2. }
  rewrite existsb_false in E2. split; [|tauto]. intros Hc. split; [|done]. split; [|done]. intros Hne.
  destruct (existsb (matches host) (AllowedHosts p)) eqn:E3.
  - apply existsb_exists in E3 as (pattern & Hin & Hm). exists pattern. split; [by apply list_elem_of_In|done].
  - destruct (AllowedHosts p); [done|]. simpl in E1. done.
Qed.

Lemma check_paths_spec layers raw upgrade : check_paths layers raw upgrade = Ok tt <-> Forall (fun p => path_allowed p raw upgrade) layers.
Proof.
  induction layers as [|p layers IH]; [split; [by constructor|done]|]. rewrite Forall_cons, <- IH. cbn [check_paths]. unfold path_allowed at 1.
  destruct (BlockedPaths p) as [|b bs] eqn:Eb; [simpl; tauto|]. cbn [List.length Nat.eqb]. rewrite <- Eb. assert (Hne : BlockedPaths p <> []) by (by rewrite Eb).
  destruct upgrade; [split; [done|]; intros [H _]; by destruct (H Hne)|].
  destruct (Paths raw) as [paths|e]; [|split; [done|]; intros [H _]; destruct (H Hne) as (_ & ? & ? & _); done].
  destruct (existsb _ (BlockedPaths p)) eqn:E.
  - split; [done|]. intros [H _]. exfalso. destruct (H Hne) as (_ & paths' & [= <-] & Hf). apply not_false_iff_true in E. apply E. rewrite existsb_false.
    intros pattern Hp. rewrite existsb_false. intros path Hpath. by apply Hf.
  - rewrite existsb_false in E. split; [|tauto]. intros Hc. split; [|done]. intros _. split; [done|]. exists paths. split; [done|].
    intros pattern path Hp Hpath. specialize (E pattern Hp). simpl in E. rewrite existsb_false in E. by apply E.
Qed.

(** C39: a path pattern means what it says.  On a path with no star in it,
    [MatchPath] holds exactly when the path is the pattern with each question
    mark replaced by a byte and each star by a run of bytes. *)
Theorem glob_decided pattern path : star_char ∉ path -> MatchPath pattern path = true <-> glob pattern path.
Proof. intros Hp. by apply MatchPath_glob. Qed.

(** Matching is bounded.  For every pattern and path, hostile ones
    included, the loop of [MatchPath] ends, within one round per pair of
    positions: there is no exponential backtracking. *)
Theorem glob_bounded pattern path :
  is_Some (match_loop (match_fuel pattern path) pattern path 0 0 None 0) /\
  (match_fuel pattern path = 1 + (1 + length path) * (1 + length pattern))%nat.
Proof.
  split; [|reflexivity]. apply match_loop_ends; [lia|lia|done|]. unfold rounds, match_fuel. lia.
Qed.

(** The last form of a path is canonical.  The forms a blocked-path rule
    is tried against end with one that has no dot segments, no escapes left,
    and that is its own only form. *)
Theorem path_canonical raw paths : Paths raw = Ok paths ->
  exists d c, paths = [raw; d; c] /\ Paths c = Ok [c; c; c] /\ (forall seg, seg ∈ split_slash c -> seg <> [dot] /\ seg <> [dot; dot]).
Proof. apply Paths_canonical. Qed.

(** What the HTTP check lets through.  A request passes exactly when
    every layer allows its host and, where the layer blocks paths, the request
    is no opaque upgrade and none of the forms of its path matches. *)
Theorem http_check Host layers host raw upgrade : CheckHTTP Host layers host raw upgrade = Ok tt <->
  Forall (fun p => host_allowed p (Host host) /\ path_allowed p raw upgrade) layers.
Proof.
  rewrite Forall_and, <- check_hosts_spec, <- check_paths_spec. unfold CheckHTTP, CheckHost.
  destruct (check_hosts layers (Host host)) as [[]|e]; [tauto|]. split; [done|by intros [? _]].
Qed.

(** A wildcard host stands for one or more labels and nothing else. *)
Theorem host_wildcard pattern host : MatchHost pattern host = true <-> host_matches pattern host.
Proof. apply MatchHost_spec. Qed.

Lemma glob_decided_witness : star_char ∉ bytes_of "/admin/users" /\ glob (bytes_of "/admin/*") (bytes_of "/admin/users").
Proof.
  assert (H : star_char ∉ bytes_of "/admin/users") by (vm_compute; set_solver). split; [exact H|].
  apply (proj1 (glob_decided (bytes_of "/admin/*") (bytes_of "/admin/users") H)). vm_compute. reflexivity.
Defined.

Lemma path_canonical_witness :
  exists d c, [bytes_of "/a/../%62//./c/"; bytes_of "/a/../b//./c/"; bytes_of "/b/c/"] = [bytes_of "/a/../%62//./c/"; d; c] /\ Paths c = Ok [c; c; c].
Proof.
  assert (H : Paths (bytes_of "/a/../%62//./c/") = Ok [bytes_of "/a/../%62//./c/"; bytes_of "/a/../b//./c/"; bytes_of "/b/c/"]) by (vm_compute; reflexivity).
  destruct (path_canonical _ _ H) as (d & c & H1 & H2 & _). exists d, c. by split.
Defined.
