(* ===== verification/Desk.v ===== *)
(** * The lease desk: publishing leases and taking in usage
    (internal/platform/leases.go, lease_set.go, usage_batch.go, and what they
    use of resource_limits.go, group_types.go, identity_groups.go and
    resources.go)

    The control plane stands between the shop and the nodes.  It puts leases
    into the rules a node is sent, takes in what the node reports and retires
    leases that are used up.  Its tables and the shop's are in one database
    and one transaction: [Panel] is the shop's database and the tables of the
    control plane, and [in_shop] runs an operation of the shop inside a
    transaction of the control plane.

    What the control plane calls of the shop is the record [Options], as in
    the source; [shop_options] is how app.go fills it.  A lock ([FOR UPDATE])
    has no effect on a serial transaction beyond reading the row. *)

From S2P Require Import AgentState.
From S2P Require Import Prelude Tx GoStrings Calendar Rational PlanRules Schema Wallet Plans Quota.
From stdpp Require Import base gmap strings list.
From Stdlib Require Import Ascii String.
Local Open Scope string_scope.
Local Open Scope Z_scope.

Definition Unix (t : Z) : Z := t / second.

(** ** Contract types, as far as the desk reads them *)

(** [contract.Group]; [G_DisableUDP] is [Advanced.DisableUDP], [None] when
    [Advanced] is nil. *)
Record Group := {
  G_Type : string; G_OwnerID : string; G_DirectPolicy : string; G_DisableUDP : option bool;
  G_BlockedProtocols : list string; G_DisabledNetworks : list string; G_DisabledTransports : list string;
  G_Multiplier : string
}.

(** [contract.Rule]; [PR_Hops] has the transports of [Tunnel.Chain] and
    [PR_Rest] every field the desk does not read. *)
Record PanelRule := {
  PR_ID : string; PR_UserID : string; PR_NodeID : string; PR_GroupID : string;
  PR_Network : string; PR_Transport : string; PR_Hops : list string; PR_Enabled : bool; PR_Version : Z;
  PR_ExitGroupID : string; PR_BillingMultiplier : string; PR_ExitUnavailable : bool;
  PR_Lease : option NodeLease; PR_Standby : option NodeLease; PR_Rest : string
}.

Definition set_lease (l : option NodeLease) (r : PanelRule) : PanelRule :=
  {| PR_ID := PR_ID r; PR_UserID := PR_UserID r; PR_NodeID := PR_NodeID r; PR_GroupID := PR_GroupID r;
     PR_Network := PR_Network r; PR_Transport := PR_Transport r; PR_Hops := PR_Hops r; PR_Enabled := PR_Enabled r;
     PR_Version := PR_Version r; PR_ExitGroupID := PR_ExitGroupID r; PR_BillingMultiplier := PR_BillingMultiplier r;
     PR_ExitUnavailable := PR_ExitUnavailable r; PR_Lease := l; PR_Standby := PR_Standby r; PR_Rest := PR_Rest r |}.
Definition set_standby (l : option NodeLease) (r : PanelRule) : PanelRule :=
  {| PR_ID := PR_ID r; PR_UserID := PR_UserID r; PR_NodeID := PR_NodeID r; PR_GroupID := PR_GroupID r;
     PR_Network := PR_Network r; PR_Transport := PR_Transport r; PR_Hops := PR_Hops r; PR_Enabled := PR_Enabled r;
     PR_Version := PR_Version r; PR_ExitGroupID := PR_ExitGroupID r; PR_BillingMultiplier := PR_BillingMultiplier r;
     PR_ExitUnavailable := PR_ExitUnavailable r; PR_Lease := PR_Lease r; PR_Standby := l; PR_Rest := PR_Rest r |}.

Definition no_limits : ResourceLimits :=
  {| RL_MaxRules := 0; RL_MaxConnections := 0; RL_MaxIPs := 0; RL_BytesPerSecond := 0 |}.
Definition clear_limits (l : NodeLease) : NodeLease :=
  {| NL_ID := NL_ID l; NL_EntitlementID := NL_EntitlementID l; NL_ExpiresAt := NL_ExpiresAt l;
     NL_Bytes := NL_Bytes l; NL_Limits := no_limits |}.
(** A lease as the shop returns it, and as the shop is asked about it. *)
Definition to_node (l : Lease) : NodeLease :=
  {| NL_ID := L_ID l; NL_EntitlementID := L_EntitlementID l; NL_ExpiresAt := L_ExpiresAt l;
     NL_Bytes := L_Bytes l; NL_Limits := no_limits |}.
Definition to_shop (l : NodeLease) : Lease :=
  {| L_ID := NL_ID l; L_EntitlementID := NL_EntitlementID l; L_Bytes := NL_Bytes l; L_ExpiresAt := NL_ExpiresAt l |}.

(** ** The tables *)

(** [cp_rule_leases] *)
Record rule_lease := {
  rl_rule : string; rl_node : string; rl_ent : string; rl_bytes : Z; rl_spent : Z; rl_until : Z
}.
(** [cp_lease_retirements] *)
Record retirement := { rt_used : Z; rt_at : Z }.
(** [cp_usage] *)
Record cp_usage_row := { cu_node : string; cu_rule : string; cu_lease : string; cu_payload : UsageRecord; cu_at : Z }.

(** [payloads] has the payload and version columns of [cp_rules], whose
    other columns are in the shop's view of the table; [capabilities] is read
    from the payload of [cp_nodes]; [group_identities] is
    [cp_group_identity_groups] and [user_identity] the column
    [cp_users.identity_group_id]. *)
Record Panel := {
  shop : DB;
  payloads : gmap string PanelRule;
  rule_leases : gmap string rule_lease;
  retirements : gmap string retirement;
  cp_usage : gmap string cp_usage_row;
  capabilities : gmap string (list string);
  groups : gmap string Group;
  group_identities : list (string * string);
  user_identity : gmap string string
}.

Definition set_shop (d : DB) (p : Panel) : Panel :=
  {| shop := d; payloads := payloads p; rule_leases := rule_leases p; retirements := retirements p;
     cp_usage := cp_usage p; capabilities := capabilities p; groups := groups p;
     group_identities := group_identities p; user_identity := user_identity p |}.
Definition set_payloads (m : gmap string PanelRule) (p : Panel) : Panel :=
  {| shop := shop p; payloads := m; rule_leases := rule_leases p; retirements := retirements p;
     cp_usage := cp_usage p; capabilities := capabilities p; groups := groups p;
     group_identities := group_identities p; user_identity := user_identity p |}.
Definition set_rule_leases (m : gmap string rule_lease) (p : Panel) : Panel :=
  {| shop := shop p; payloads := payloads p; rule_leases := m; retirements := retirements p;
     cp_usage := cp_usage p; capabilities := capabilities p; groups := groups p;
     group_identities := group_identities p; user_identity := user_identity p |}.
Definition set_retirements (m : gmap string retirement) (p : Panel) : Panel :=
  {| shop := shop p; payloads := payloads p; rule_leases := rule_leases p; retirements := m;
     cp_usage := cp_usage p; capabilities := capabilities p; groups := groups p;
     group_identities := group_identities p; user_identity := user_identity p |}.
Definition set_cp_usage (m : gmap string cp_usage_row) (p : Panel) : Panel :=
  {| shop := shop p; payloads := payloads p; rule_leases := rule_leases p; retirements := retirements p;
     cp_usage := m; capabilities := capabilities p; groups := groups p;
     group_identities := group_identities p; user_identity := user_identity p |}.

(** An operation of the shop inside a transaction of the control plane. *)
Definition in_shop {A} (m : Tx DB A) : Tx Panel A := fun env p t =>
  match m env (shop p) t with
  | (Ok (a, d), t) => (Ok (a, set_shop d p), t)
  | (Err e, t) => (Err e, t)
  end.

Definition add_lease_row (k : string) (row : rule_lease) : Tx Panel unit :=
  m ← gets rule_leases;
  guard_err (bool_decide (m !! k = None)) ErrConstraint ;;
  modify (fun p => set_rule_leases (<[k := row]> (rule_leases p)) p).
Definition add_retirement (k : string) (row : retirement) : Tx Panel unit :=
  m ← gets retirements;
  guard_err (bool_decide (m !! k = None)) ErrConstraint ;;
  modify (fun p => set_retirements (<[k := row]> (retirements p)) p).
Definition add_cp_usage (kr : string * cp_usage_row) : Tx Panel unit :=
  m ← gets cp_usage;
  guard_err (bool_decide (m !! kr.1 = None)) ErrConstraint ;;
  modify (fun p => set_cp_usage (<[kr.1 := kr.2]> (cp_usage p)) p).

(** A row of [cp_rules] that is not deleted. *)
Definition rule_at (k : string) (p : Panel) : option (rule_row * PanelRule) :=
  match cp_rules (shop p) !! k, payloads p !! k with
  | Some row, Some rule => if ru_deleted row then None else Some (row, rule)
  | _, _ => None
  end.

(** [UPDATE cp_rules SET payload=? WHERE id=? AND version=? AND deleted=0],
    the number of rows matched. *)
Definition update_payload (rule : PanelRule) : Tx Panel Z :=
  row ← gets (rule_at (PR_ID rule));
  match row with
  | Some (_, old) =>
      if PR_Version old =? PR_Version rule
      then modify (fun p => set_payloads (<[PR_ID rule := rule]> (payloads p)) p) ;; mret 1
      else mret 0
  | None => mret 0
  end.

(** [UPDATE cp_nodes SET desired_version=desired_version+1 WHERE id=?] *)
Definition bump_version (node : string) : Tx Panel unit :=
  in_shop (UPDATE Nodes node (fun _ => true) (fun v => v + 1)) ;; mret tt.

(** ** Entry policy *)

Definition contains (ss : list string) (v : string) : bool := existsb (fun s => String.eqb s v) ss.

Definition add_once (l : list string) (v : string) : list string := if contains l v then l else (l ++ [v])%list.

(** The networks and transports of [splitGroupPolicy]; its application
    policies play no part in [policyDenied]. *)
Definition blocks_network (s : string) : bool :=
  String.eqb s "tcp" || String.eqb s "udp" || String.prefix "network:" s.
Definition blocks_transport (s : string) : bool :=
  contains ["direct"; "direct-tls"; "secure-direct"; "tls"; "ws"; "wss"; "http"] s || String.prefix "transport:" s.
Definition disabled_networks (g : Group) : list string :=
  foldl (fun l s => if blocks_network s then add_once l (TrimPrefix s "network:") else l)
    (G_DisabledNetworks g) (G_BlockedProtocols g).
Definition disabled_transports (g : Group) : list string :=
  foldl (fun l s => if negb (blocks_network s) && blocks_transport s then add_once l (TrimPrefix s "transport:") else l)
    (G_DisabledTransports g) (G_BlockedProtocols g).

Definition policyDenied (g : Group) (rule : PanelRule) : bool :=
  (default false (G_DisableUDP g) && String.eqb (PR_Network rule) "udp")
  || contains (disabled_networks g) (PR_Network rule) || contains (disabled_transports g) (PR_Transport rule)
  || existsb (contains (disabled_transports g)) (PR_Hops rule).

Definition CanEnter (g : Group) : bool := String.eqb (G_Type g) "" || String.eqb (G_Type g) "entry".

Definition entryPolicyDenied (g : Group) (rule : PanelRule) : bool :=
  if negb (CanEnter g) || policyDenied g rule then true else
  let direct := contains ["direct"; "direct-tls"; "secure-direct"] (PR_Transport rule) in
  (String.eqb (G_DirectPolicy g) "forbid" && direct) || (String.eqb (G_DirectPolicy g) "force" && negb direct).

(** The identity groups of a device group that the user belongs to, when the
    device group is public or his own. *)
Definition groupAuthorized (group user : string) (p : Panel) : bool :=
  match groups p !! group, user_identity p !! user with
  | Some g, Some identity =>
      existsb (fun gi => String.eqb gi.1 group && String.eqb gi.2 identity) (group_identities p)
      && (String.eqb (G_OwnerID g) "" || String.eqb (G_OwnerID g) user)
  | _, _ => false
  end.

Definition leaseMultiplier (rule : PanelRule) (g : Group) : string :=
  if negb (String.eqb (PR_ExitGroupID rule) "") then PR_BillingMultiplier rule else G_Multiplier g.

(** ** What the desk calls of the shop

    [platform.Options]: a field that the source tests against nil, or a
    method it finds by a type assertion, is an [option]. *)
Record EntitlementService := {
  es_AllocateBudget : option (string -> string -> string -> string -> Z -> Tx DB Lease);
  es_AllocateMultiplier : option (string -> string -> string -> string -> Tx DB Lease);
  es_Allocate : string -> string -> string -> Tx DB Lease;
  es_SettleBatch : option (list UsageRecord -> Tx DB unit);
  es_Settle : option (UsageRecord -> Tx DB unit)
}.
Record Options := {
  opt_Entitlements : option EntitlementService;
  opt_ResourceLimits : option (string -> Tx DB Z);
  opt_LeaseCurrent : option (string -> option Lease -> Tx DB bool);
  opt_RetireLease : option (string -> string -> Z -> Tx DB unit);
  opt_AdminTestBytes : Z
}.

(** The commerce service and its wiring in app.go. *)
Section Wiring.
Context {RS : RatSyntax}.

Definition AllocateWithMultiplier (user rule node multiplier : string) : Tx DB Lease :=
  AllocateBudgetWithMultiplier user rule node multiplier (16 * mib).
Definition Allocate (user rule node : string) : Tx DB Lease := AllocateWithMultiplier user rule node "1".
Definition SettleUsage (u : UsageRecord) : Tx DB unit := SettleUsageBatch [u].

Definition shop_options : Options := {|
  opt_Entitlements := Some {|
    es_AllocateBudget := Some AllocateBudgetWithMultiplier;
    es_AllocateMultiplier := Some AllocateWithMultiplier;
    es_Allocate := Allocate;
    es_SettleBatch := Some SettleUsageBatch;
    es_Settle := Some SettleUsage |};
  opt_ResourceLimits := Some LimitsTx;
  opt_LeaseCurrent := Some LeaseCurrent;
  opt_RetireLease := Some RetireLease;
  opt_AdminTestBytes := 0
|}.
End Wiring.

Definition errConflict : error := ErrConflict.
Definition errPrefetchStale : error := ErrMsg "lease prefetch requires current configuration".
Definition errPrefetchForbidden : error := ErrMsg "lease prefetch forbidden by current policy".

Section Desk.
Context {RS : RatSyntax} (o : Options).

(** ** Publishing leases *)

Record leaseRefillHint := { h_rule : string; h_retired : string; h_successor : string; h_budget : Z }.
Definition no_hint : leaseRefillHint := {| h_rule := ""; h_retired := ""; h_successor := ""; h_budget := 0 |}.

Definition accountLimits (user : string) : Tx Panel Z :=
  match opt_ResourceLimits o with None => mret 0 | Some f => in_shop (f user) end.

(** Rules of the user, in the order of their identifiers, up to this one. *)
Definition rule_rank (user id : string) (p : Panel) : Z :=
  map_sum (fun k row => if String.eqb (ru_user row) user && negb (ru_deleted row) && String.leb k id then 1 else 0)
    (cp_rules (shop p)).
Definition withinPlanRuleLimit (rule : PanelRule) (maximum : Z) : Tx Panel bool :=
  if maximum =? 0 then mret true else
  rank ← gets (rule_rank (PR_UserID rule) (PR_ID rule));
  mret (rank <=? maximum).

Definition lockRuleOwner (user : string) : Tx Panel unit :=
  row ← in_shop (SELECT Users user);
  row ← or_fail row ErrNoRows;
  if u_disabled row then fail (ErrMsg "owner disabled") else mret tt.

Definition retired_in (id : string) (p : Panel) : bool := bool_decide (is_Some (retirements p !! id)).

Definition liveLeaseTx (user : string) (lease : option NodeLease) : Tx Panel bool :=
  match lease with
  | None => mret false
  | Some l =>
      now ← Now;
      if negb (now <? NL_ExpiresAt l) then mret false else
      retired ← gets (retired_in (NL_ID l));
      if (retired : bool) then mret false else
      if String.eqb (NL_EntitlementID l) "admin-test" then mret true else
      match opt_LeaseCurrent o with
      | None => fail (ErrMsg "lease current validation required")
      | Some current => in_shop (current user (Some (to_shop l)))
      end
  end.

Definition boundedLeaseBudget (raw : Z) (multiplier : string) : res Z :=
  match SetString multiplier with
  | None => Err (ErrMsg "invalid multiplier")
  | Some m =>
      if m.1 <=? 0 then Err (ErrMsg "invalid multiplier") else
      let b := Z.quot (raw * m.1 + (m.2 - 1)) m.2 in
      if negb ((MinInt64 <=? b) && (b <=? MaxInt64)) then Ok (256 * mib) else
      Ok (Z.min (256 * mib) (Z.max (16 * mib) b))
  end.

(** [errors.Is(e, contract.ErrEntitlementUnavailable)]: no lease.  The shop
    returns this error before it writes anything, so the transaction goes on
    as it was. *)
Definition unless_unavailable (m : Tx DB Lease) : Tx Panel (option Lease) :=
  r ← savepoint (in_shop m);
  match r with
  | Ok l => mret (Some l)
  | Err ErrEntitlementUnavailable => mret None
  | Err e => fail e
  end.

Definition lease_entry (rule node : string) (l : Lease) : rule_lease :=
  {| rl_rule := rule; rl_node := node; rl_ent := L_EntitlementID l; rl_bytes := L_Bytes l; rl_spent := 0;
     rl_until := Unix (L_ExpiresAt l) |}.

(** Leases of the rule that are not retired. *)
Definition outstanding_leases (rule : string) (p : Panel) : Z :=
  map_sum (fun k l => if String.eqb (rl_rule l) rule && negb (retired_in k p) then 1 else 0) (rule_leases p).

(** The type assertion on [s.opts.Entitlements]. *)
Definition budget_allocator : option (string -> string -> string -> string -> Z -> Tx DB Lease) :=
  match opt_Entitlements o with Some es => es_AllocateBudget es | None => None end.

Definition allocateStandbyTx (rule : PanelRule) (multiplier : string) (budget : Z) : Tx Panel (option NodeLease) :=
  match budget_allocator, PR_Lease rule with
  | Some allocate, Some primary =>
      if String.eqb (NL_EntitlementID primary) "admin-test" then mret None else
      outstanding ← gets (outstanding_leases (PR_ID rule));
      if 4 <=? outstanding then mret None else
      l ← unless_unavailable (allocate (PR_UserID rule) (PR_ID rule) (PR_NodeID rule) multiplier budget);
      match l with
      | None => mret None
      | Some l =>
          if L_Bytes l <=? 0 then fail (ErrMsg "invalid standby allocation") else
          now ← Now;
          if negb (now <? L_ExpiresAt l) then fail (ErrMsg "invalid standby allocation") else
          now ← Now;
          if (now + (5 * minute + second) <? L_ExpiresAt l)
             || negb (String.eqb (L_EntitlementID l) (NL_EntitlementID primary))
          then fail (ErrMsg "invalid standby allocation") else
          add_lease_row (L_ID l) (lease_entry (PR_ID rule) (PR_NodeID rule) l) ;;
          mret (Some (to_node l))
      end
  | _, _ => mret None
  end.

Definition refillStandbyTx (rule : PanelRule) (g : Group) (rawBudget : Z) : Tx Panel (bool * PanelRule) :=
  if (rawBudget <=? 0) || (256 * mib <? rawBudget) || negb (String.eqb (PR_Network rule) "tcp")
     || bool_decide (PR_Lease rule = None) || negb (bool_decide (PR_Standby rule = None))
  then mret (false, rule) else
  budget ← of_res (boundedLeaseBudget rawBudget (leaseMultiplier rule g));
  standby ← allocateStandbyTx rule (leaseMultiplier rule g) budget;
  match standby with
  | None => mret (false, rule)
  | Some l => mret (true, set_standby (Some l) rule)
  end.

(** *** Refreshing the leases of a node *)

Record item := { it_rule : PanelRule; it_group : Group; it_disabled : bool; it_role : string; it_authorized : bool }.

(** The rules of a node joined with their groups and owners ([group_id] of
    the row is [PR_GroupID] of the payload). *)
Definition item_of (p : Panel) (kr : string * rule_row) : option item :=
  match payloads p !! kr.1 with
  | Some rule =>
      match groups p !! PR_GroupID rule, cp_users (shop p) !! ru_user kr.2 with
      | Some g, Some u =>
          Some {| it_rule := rule; it_group := g; it_disabled := u_disabled u; it_role := u_role u;
                  it_authorized := groupAuthorized (PR_GroupID rule) (ru_user kr.2) p |}
      | _, _ => None
      end
  | None => None
  end.
Definition items_of (node : string) (p : Panel) : list item :=
  omap (item_of p) (filter (fun kr => Is_true (String.eqb (ru_node kr.2) node && negb (ru_deleted kr.2)))
    (map_to_list (cp_rules (shop p)))).

(** Rules that are not served at all. *)
Definition skipped (it : item) : bool :=
  PR_ExitUnavailable (it_rule it) || negb (PR_Enabled (it_rule it)) || it_disabled it
  || entryPolicyDenied (it_group it) (it_rule it)
  || (negb (String.eqb (it_role it) "admin") && negb (it_authorized it)).

(** A standby that is no longer live, or that the node cannot use, is dropped. *)
Definition check_standby (pipeline : bool) (rule : PanelRule) : Tx Panel (PanelRule * bool) :=
  match PR_Standby rule with
  | None => mret (rule, false)
  | Some l =>
      live ← liveLeaseTx (PR_UserID rule) (Some l);
      if negb live || negb pipeline then mret (set_standby None rule, true) else mret (rule, false)
  end.

(** Whether the primary still serves, and whether it was retired. *)
Definition check_primary (allowed : bool) (rule : PanelRule) : Tx Panel (bool * bool) :=
  match PR_Lease rule with
  | None => mret (false, false)
  | Some l =>
      if negb allowed then mret (false, false) else
      now ← Now;
      if negb (now <? NL_ExpiresAt l) then mret (false, false) else
      retired ← gets (retired_in (NL_ID l));
      if (retired : bool) then mret (false, true) else
      if String.eqb (NL_EntitlementID l) "admin-test" then mret (true, false) else
      match opt_LeaseCurrent o with
      | None => fail (ErrMsg "lease current validation required")
      | Some current => valid ← in_shop (current (PR_UserID rule) (Some (to_shop l))); mret (valid, false)
      end
  end.

(** A new primary for a rule that has neither a primary nor a standby; a
    retired one is replaced at the size it had. *)
Definition plain_primary (es : EntitlementService) (node multiplier : string) (rule : PanelRule)
  : Tx Panel (option Lease) :=
  match es_AllocateMultiplier es with
  | Some allocate => unless_unavailable (allocate (PR_UserID rule) (PR_ID rule) node multiplier)
  | None =>
      if negb (String.eqb multiplier "1") then fail (ErrMsg "multiplier allocator required") else
      unless_unavailable (es_Allocate es (PR_UserID rule) (PR_ID rule) node)
  end.
Definition replace_primary (pipeline retired : bool) (node multiplier : string) (rule : PanelRule)
    (old : option NodeLease) : Tx Panel (option Lease) :=
  match opt_Entitlements o with
  | None => mret None
  | Some es =>
      match es_AllocateBudget es, old with
      | Some allocate, Some old =>
          if pipeline && retired then
            budget ← of_res (boundedLeaseBudget (NL_Bytes old) multiplier);
            unless_unavailable (allocate (PR_UserID rule) (PR_ID rule) node multiplier budget)
          else plain_primary es node multiplier rule
      | _, _ => plain_primary es node multiplier rule
      end
  end.

Definition enter_primary (node : string) (rule : PanelRule) (l : Lease) : Tx Panel unit :=
  if L_Bytes l <=? 0 then fail (ErrMsg "invalid lease") else
  now ← Now;
  if negb (now <? L_ExpiresAt l) then fail (ErrMsg "invalid lease") else
  now ← Now;
  if now + (24 * hour + second) <? L_ExpiresAt l then fail (ErrMsg "invalid lease") else
  add_lease_row (L_ID l) (lease_entry (PR_ID rule) node l).

Definition save_payload (rule : PanelRule) : Tx Panel bool :=
  n ← update_payload rule;
  guard_err (n =? 1) errConflict ;;
  mret true.

(** The primary does not serve any more: the standby takes its place, or a
    new lease is asked for.  The result says whether the rule changed. *)
Definition renew_primary (pipeline allowed retired : bool) (node : string) (hint : leaseRefillHint)
    (rule : PanelRule) (g : Group) : Tx Panel bool :=
  let old := PR_Lease rule in
  let standby := if allowed then PR_Standby rule else None in
  let rule := set_standby None (set_lease standby rule) in
  fresh ← match standby with
          | Some _ => mret None
          | None => if allowed then replace_primary pipeline retired node (leaseMultiplier rule g) rule old else mret None
          end;
  let rule := match fresh with Some l => set_lease (Some (to_node l)) rule | None => rule end in
  if bool_decide (old = None) && bool_decide (PR_Lease rule = None) then mret false else
  match fresh with Some l => enter_primary node rule l | None => mret tt end ;;
  rule ← (if allowed && pipeline && retired && String.eqb (PR_ID rule) (h_rule hint)
             && match old with Some l => String.eqb (NL_ID l) (h_retired hint) | None => false end
          then br ← refillStandbyTx rule g (h_budget hint); mret br.2
          else mret rule);
  save_payload rule.

Definition refresh_item (pipeline : bool) (node : string) (hint : leaseRefillHint)
    (it : item) (policies : gmap string Z) : Tx Panel (bool * gmap string Z) :=
  if skipped it then mret (false, policies) else
  let rule := it_rule it in
  let g := it_group it in
  limits ← match policies !! PR_UserID rule with
           | Some l => mret l
           | None => accountLimits (PR_UserID rule)
           end;
  let policies := <[PR_UserID rule := limits]> policies in
  allowed ← withinPlanRuleLimit rule limits;
  let legacy := match PR_Lease rule with Some l => negb (bool_decide (NL_Limits l = no_limits)) | None => false end in
  rc ← check_standby pipeline rule;
  let rule := if legacy then set_lease (clear_limits <$> PR_Lease rc.1) rc.1 else rc.1 in
  vr ← check_primary allowed rule;
  if negb vr.1 then
    changed ← renew_primary pipeline allowed vr.2 node hint rule g;
    mret (changed, policies)
  else
  br ← (if pipeline && String.eqb (PR_ID rule) (h_rule hint)
           && match PR_Lease rule with Some l => String.eqb (NL_ID l) (h_successor hint) | None => false end
        then refillStandbyTx rule g (h_budget hint)
        else mret (false, rule));
  if legacy || rc.2 || br.1 then
    changed ← save_payload br.2;
    mret (changed, policies)
  else mret (false, policies).

Fixpoint refresh_items (pipeline : bool) (node : string) (hint : leaseRefillHint)
    (items : list item) (changed : bool) (policies : gmap string Z) : Tx Panel bool :=
  match items with
  | [] => mret changed
  | it :: items =>
      cp ← refresh_item pipeline node hint it policies;
      refresh_items pipeline node hint items (changed || cp.1) cp.2
  end.

(** The transaction of [refreshLeasesWithPrefetch].  [owners] is what was
    read before it on a server database, whose rows are locked first; it is
    [None] on SQLite. *)
Definition refreshLeasesWithPrefetch (owners : option (list string)) (node : string) (hint : leaseRefillHint)
  : Tx Panel unit :=
  for_each (default [] owners) (fun owner => row ← in_shop (SELECT Users owner); or_fail row ErrNoRows ;; mret tt) ;;
  caps ← gets (fun p => capabilities p !! node);
  caps ← or_fail caps ErrNoRows;
  let pipeline := contains caps "lease-set-v1" in
  items ← gets (items_of node);
  guard_err (match owners with
             | None => true
             | Some l => forallb (fun it => contains l (PR_UserID (it_rule it))) items
             end) errConflict ;;
  changed ← refresh_items pipeline node hint items false ∅;
  if (changed : bool) then bump_version node else mret tt.
Definition refreshLeases (owners : option (list string)) (node : string) : Tx Panel unit :=
  refreshLeasesWithPrefetch owners node no_hint.

(** *** A standby on request *)

(** What [prefetchLease] does with the rule it found; the result is the
    identifier of the standby, empty when there is none. *)
Definition prefetch_rule (node leaseID : string) (rawBudget : Z) (rule : PanelRule) : Tx Panel string :=
  lockRuleOwner (PR_UserID rule) ;;
  caps ← gets (fun p => capabilities p !! node);
  caps ← or_fail caps ErrNoRows;
  if negb (contains caps "lease-set-v1") then fail errPrefetchForbidden else
  match PR_Lease rule with
  | None => fail errPrefetchStale
  | Some primary =>
      if negb (PR_Enabled rule) || PR_ExitUnavailable rule || negb (String.eqb (NL_ID primary) leaseID)
      then fail errPrefetchStale else
      g ← gets (fun p => groups p !! PR_GroupID rule);
      g ← or_fail g ErrNoRows;
      if entryPolicyDenied g rule then fail errPrefetchForbidden else
      user ← in_shop (SELECT Users (PR_UserID rule));
      user ← or_fail user ErrNoRows;
      authorized ← (if String.eqb (u_role user) "admin" then mret true
                    else gets (groupAuthorized (PR_GroupID rule) (PR_UserID rule)));
      guard_err authorized errPrefetchForbidden ;;
      limits ← accountLimits (PR_UserID rule);
      allowed ← withinPlanRuleLimit rule limits;
      guard_err allowed errPrefetchForbidden ;;
      valid ← liveLeaseTx (PR_UserID rule) (Some primary);
      guard_err valid errPrefetchStale ;;
      match PR_Standby rule with
      | Some l => mret (NL_ID l)
      | None =>
          budget ← of_res (boundedLeaseBudget rawBudget (leaseMultiplier rule g));
          l ← allocateStandbyTx rule (leaseMultiplier rule g) budget;
          match l with
          | None => mret ""
          | Some l =>
              update_payload (set_standby (Some l) rule) ;;
              bump_version node ;;
              mret (NL_ID l)
          end
      end
  end.

(** The transaction of [prefetchLease].  The source reads the rule a second
    time after taking the locks; within one transaction it is the same. *)
Definition prefetchLease (node ruleID leaseID : string) (rawBudget : Z) : Tx Panel string :=
  if (rawBudget <? 1) || (256 * mib <? rawBudget) then fail (ErrMsg "raw budget outside 1..256 MiB") else
  row ← gets (rule_at ruleID);
  kr ← or_fail row errPrefetchStale;
  if negb (String.eqb (ru_node kr.1) node) then fail errPrefetchStale else
  prefetch_rule node leaseID rawBudget kr.2.

(** ** Retiring a lease *)

(** What the header of a retirement asks for, when it asks for anything. *)
Definition hint_budget (header used : Z) (config : bool) : Z :=
  if (header <? 1) || (256 * mib <? header) || (used =? 0) || negb config then 0 else header.

Definition retirement_hint (node ruleID leaseID : string) (rawBudget : Z) : Tx Panel leaseRefillHint :=
  if negb (0 <? rawBudget) then mret no_hint else
  row ← gets (rule_at ruleID);
  mret (match row with
        | Some (row, rule) =>
            match PR_Lease rule with
            | Some l =>
                if String.eqb (ru_node row) node && String.eqb (NL_ID l) leaseID
                then {| h_rule := ruleID; h_retired := leaseID; h_budget := rawBudget;
                        h_successor := match PR_Standby rule with Some l => NL_ID l | None => "" end |}
                else no_hint
            | None => no_hint
            end
        | None => no_hint
        end).

(** The transaction of [retireLease]; [header] is the parsed prefetch header
    (zero when it does not parse) and [config] whether a configuration was
    asked for.  The hint is for the refresh that follows. *)
Definition retireLease (node leaseID : string) (used header : Z) (config : bool) : Tx Panel leaseRefillHint :=
  if used <? 0 then fail (ErrMsg "invalid usage") else
  l ← gets (fun p => rule_leases p !! leaseID);
  l ← or_fail l ErrNoRows;
  if negb (String.eqb (rl_node l) node) || negb (rl_spent l =? used)
  then fail (ErrMsg "lease owner or persisted usage mismatch") else
  previous ← gets (fun p => retirements p !! leaseID);
  match previous with
  | Some r => if negb (rt_used r =? used) then fail errConflict else mret no_hint
  | None =>
      hint ← retirement_hint node (rl_rule l) leaseID (hint_budget header used config);
      (if String.eqb (rl_ent l) "admin-test" then mret tt else
       match opt_RetireLease o with
       | None => fail (ErrMsg "retirement unavailable")
       | Some retire => in_shop (retire node leaseID used)
       end) ;;
      now ← Now;
      add_retirement leaseID {| rt_used := used; rt_at := Unix now |} ;;
      bump_version node ;;
      mret hint
  end.

(** ** Taking in usage *)

(** The records of a batch, each identifier once; the clock is read for
    every record that gets that far. *)
Fixpoint unique_records (node : string) (records : list UsageRecord) (payloads : gmap string UsageRecord)
  : Tx Panel (list UsageRecord) :=
  match records with
  | [] => mret []
  | u :: records =>
      if negb (ValidWindowMetadata u) then fail (ErrMsg "invalid window usage metadata") else
      if negb (String.eqb (U_NodeID u) node) || negb (valid_usage u) then fail (ErrMsg "invalid usage record") else
      now ← Now;
      if now + minute <? U_EndedAt u then fail (ErrMsg "invalid usage record") else
      match payloads !! U_ID u with
      | Some old => if negb (bool_decide (old = u)) then fail errConflict else unique_records node records payloads
      | None =>
          l ← unique_records node records (<[U_ID u := u]> payloads);
          mret (u :: l)
      end
  end.

(** One record against the leases of the batch; the accumulator has what each
    lease has spent so far. *)
Definition take_record (node : string) (p : Panel) (u : UsageRecord) (spent : gmap string Z) : res (gmap string Z) :=
  match rule_leases p !! U_LeaseID u with
  | None => Err (ErrMsg "usage outside lease")
  | Some l =>
      if retired_in (U_LeaseID u) p || negb (String.eqb (rl_rule l) (U_RuleID u)) || negb (String.eqb (rl_node l) node)
         || negb (String.eqb (rl_ent l) (U_EntitlementID u)) || (rl_until l <? Unix (U_EndedAt u))
      then Err (ErrMsg "usage outside lease") else
      let used := default (rl_spent l) (spent !! U_LeaseID u) in
      if (used <? 0) || (rl_bytes l <? used) || (rl_bytes l - used <? raw_bytes u)
      then Err (ErrMsg "lease quota exceeded") else
      Ok (<[U_LeaseID u := used + raw_bytes u]> spent)
  end.
Fixpoint take_records (node : string) (p : Panel) (records : list UsageRecord) (spent : gmap string Z)
  : res (gmap string Z) :=
  match records with
  | [] => Ok spent
  | u :: records =>
      match take_record node p u spent with
      | Ok spent => take_records node p records spent
      | Err e => Err e
      end
  end.

(** The rows for [cp_usage], each with the clock. *)
Fixpoint usage_entries (node : string) (records : list UsageRecord) : Tx Panel (list (string * cp_usage_row)) :=
  match records with
  | [] => mret []
  | u :: records =>
      now ← Now;
      l ← usage_entries node records;
      mret ((U_ID u, {| cu_node := node; cu_rule := U_RuleID u; cu_lease := U_LeaseID u; cu_payload := u;
                        cu_at := Unix now |}) :: l)
  end.

(** [BulkCounter] on [cp_rule_leases.bytes_used], with compare-and-swap: a
    lease that changed or was retired stops the batch. *)
Definition bump_spent (before : gmap string rule_lease) (kn : string * Z) : Tx Panel unit :=
  match before !! kn.1 with
  | None => mret tt
  | Some l =>
      if kn.2 =? rl_spent l then mret tt else
      p ← gets (fun p => p);
      match rule_leases p !! kn.1 with
      | Some row =>
          guard_err ((rl_spent row =? rl_spent l) && negb (retired_in kn.1 p)) (ErrMsg "bulk counter conflict") ;;
          modify (fun p => set_rule_leases (<[kn.1 := {| rl_rule := rl_rule row; rl_node := rl_node row;
            rl_ent := rl_ent row; rl_bytes := rl_bytes row; rl_spent := rl_spent row + (kn.2 - rl_spent l);
            rl_until := rl_until row |}]> (rule_leases p)) p)
      | None => fail (ErrMsg "bulk counter conflict")
      end
  end.

(** Records of leases that were paid for. *)
Definition commercial (p : Panel) (u : UsageRecord) : bool :=
  match rule_leases p !! U_LeaseID u with Some l => negb (String.eqb (rl_ent l) "admin-test") | None => false end.

Definition settle_commercial (records : list UsageRecord) : Tx Panel unit :=
  match records with
  | [] => mret tt
  | _ =>
      match opt_Entitlements o with
      | Some es =>
          match es_SettleBatch es, es_Settle es with
          | Some settle, _ => in_shop (settle records)
          | None, Some settle => for_each records (fun u => in_shop (settle u))
          | None, None => fail (ErrMsg "commercial settlement unavailable")
          end
      | None => fail (ErrMsg "commercial settlement unavailable")
      end
  end.

(** The records of a batch that are new. *)
Definition take_in (node : string) (fresh : list UsageRecord) : Tx Panel unit :=
  p ← gets (fun p => p);
  spent ← of_res (take_records node p fresh ∅);
  rows ← usage_entries node fresh;
  for_each (map_to_list spent) (bump_spent (rule_leases p)) ;;
  settle_commercial (filter (fun u => Is_true (commercial p u)) fresh) ;;
  for_each rows add_cp_usage.

Definition persistUsageBatch (node : string) (records : list UsageRecord) : Tx Panel unit :=
  if 500 <? Z.of_nat (List.length records) then fail (ErrMsg "usage batch exceeds 500") else
  unique ← unique_records node records ∅;
  known ← gets cp_usage;
  guard_err (forallb (fun u => match known !! U_ID u with
                               | Some row => bool_decide (cu_payload row = u)
                               | None => true
                               end) unique) errConflict ;;
  let fresh := filter (fun u => known !! U_ID u = None) unique in
  if bool_decide (fresh = []) then mret tt else take_in node fresh.

(** ** Saving a rule

    The end of [saveRuleTx], after its checks: the version, the first lease
    and the row.  Whether the physical port is free is [port_free]. *)
Definition set_version (v : Z) (r : PanelRule) : PanelRule :=
  {| PR_ID := PR_ID r; PR_UserID := PR_UserID r; PR_NodeID := PR_NodeID r; PR_GroupID := PR_GroupID r;
     PR_Network := PR_Network r; PR_Transport := PR_Transport r; PR_Hops := PR_Hops r; PR_Enabled := PR_Enabled r;
     PR_Version := v; PR_ExitGroupID := PR_ExitGroupID r; PR_BillingMultiplier := PR_BillingMultiplier r;
     PR_ExitUnavailable := PR_ExitUnavailable r; PR_Lease := PR_Lease r; PR_Standby := PR_Standby r; PR_Rest := PR_Rest r |}.

Definition first_lease (admin : bool) (rule : PanelRule) : Tx Panel Lease :=
  match opt_Entitlements o with
  | Some es =>
      match es_AllocateMultiplier es with
      | Some allocate => in_shop (allocate (PR_UserID rule) (PR_ID rule) (PR_NodeID rule) (PR_BillingMultiplier rule))
      | None =>
          if negb (String.eqb (PR_BillingMultiplier rule) "1") then fail (ErrMsg "multiplier allocator required") else
          in_shop (es_Allocate es (PR_UserID rule) (PR_ID rule) (PR_NodeID rule))
      end
  | None =>
      if admin && (0 <? opt_AdminTestBytes o) then
        lid ← id;
        now ← Now;
        mret {| L_ID := lid; L_EntitlementID := "admin-test"; L_Bytes := opt_AdminTestBytes o;
                L_ExpiresAt := now + 24 * hour |}
      else fail (ErrMsg "funded entitlement required")
  end.

Definition fund_rule (admin : bool) (rule : PanelRule) : Tx Panel PanelRule :=
  if negb (PR_Enabled rule) || negb (bool_decide (PR_Lease rule = None)) then mret rule else
  l ← first_lease admin rule;
  if L_Bytes l <=? 0 then fail (ErrMsg "invalid finite lease") else
  now ← Now;
  if negb (now <? L_ExpiresAt l) then fail (ErrMsg "invalid finite lease") else
  now ← Now;
  if now + (24 * hour + second) <? L_ExpiresAt l then fail (ErrMsg "invalid finite lease") else
  add_lease_row (L_ID l) (lease_entry (PR_ID rule) (PR_NodeID rule) l) ;;
  mret (set_lease (Some (to_node l)) rule).

Definition write_payload (rule : PanelRule) : Tx Panel unit :=
  modify (fun p => set_payloads (<[PR_ID rule := rule]> (payloads p)) p).

Definition store_rule (admin create port_free : bool) (rule : PanelRule) : Tx Panel unit :=
  let oldVersion := PR_Version rule in
  rule ← fund_rule admin (set_version (if create then 1 else oldVersion + 1) rule);
  (if create then
     in_shop (INSERT Rules (PR_ID rule) {| ru_user := PR_UserID rule; ru_node := PR_NodeID rule; ru_deleted := false |}) ;;
     write_payload rule ;;
     guard_err port_free (ErrMsg "physical machine port reserved (all IP addresses)")
   else
     row ← gets (rule_at (PR_ID rule));
     guard_err (match row with Some (_, old) => PR_Version old =? oldVersion | None => false end) errConflict ;;
     write_payload rule) ;;
  in_shop (UPDATE_all Nodes (fun _ _ => true) (fun v => v + 1)).
End Desk.
