(* ===== verification/DeskInv.v ===== *)
(** * The books of the lease desk agree with the shop's

    [desk_inv]: every lease the control plane handed out is backed by a lease
    of the shop, what a lease has spent is the sum of its usage records, in
    both halves of the database, and a lease is retired in both or in
    neither.  Every operation of the desk keeps it. *)

From S2P Require Import AgentState.
From S2P Require Import Prelude Tx GoStrings Calendar Rational PlanRules Schema Wallet Plans Quota Purchases Refunds Payments Commerce.
From S2P Require Import Desk.
From stdpp Require Import base gmap strings list.
From Stdlib Require Import Ascii String.
Local Open Scope string_scope.
Local Open Scope Z_scope.

(** ** Sums of two tables with the same entries *)

Lemma map_sum_agree {A B} (f : string -> A -> Z) (g : string -> B -> Z) (m1 : gmap string A) : forall m2 : gmap string B,
  (forall k, from_option (f k) 0 (m1 !! k) = from_option (g k) 0 (m2 !! k)) -> map_sum f m1 = map_sum g m2.
Proof.
  induction m1 as [|k v m1 Hk IH] using map_ind; intros m2 Hag.
  - rewrite map_sum_empty. symmetry. apply map_sum_all_zero. intros k v Hv.
    specialize (Hag k). rewrite lookup_empty, Hv in Hag. done.
  - rewrite map_sum_insert_None by done. rewrite (IH (delete k m2)).
    + specialize (Hag k). rewrite lookup_insert_eq in Hag. simpl in Hag. destruct (m2 !! k) as [w|] eqn:Hw.
      * rewrite (map_sum_delete g m2 k w Hw). simpl in Hag. lia.
      * rewrite delete_id by done. simpl in Hag. lia.
    + intros k'. specialize (Hag k'). destruct (decide (k = k')) as [<-|Hne].
      * by rewrite lookup_delete_eq, Hk.
      * by rewrite lookup_delete_ne, lookup_insert_ne in * by done.
Qed.

(** ** The shop's operations on leases, as the desk sees them *)

Section ShopSide.
Context {RS : RatSyntax}.

Lemma forget_keeps {A} (P : DB -> Prop) (m : Tx DB A) : keeps P (forget m) -> keeps P m.
Proof.
  intros H env d t a d' t' Hrun. apply (H env d t tt d' t'). unfold forget. apply tx_bind_Ok. eauto 8.
Qed.
Lemma service_keeps {A} (m : Tx DB A) (o : op) : op_ok o -> exec o = forget m -> keeps service_inv m.
Proof.
  intros Ho He. apply forget_keeps. rewrite <- He. apply hoare_and; [by apply exec_money|by apply exec_referral].
Qed.
Lemma Allocate_service user rule node multiplier requested :
  keeps service_inv (AllocateBudgetWithMultiplier user rule node multiplier requested).
Proof. by apply (service_keeps _ (OpAllocate user rule node multiplier requested)). Qed.
Lemma RetireLease_service node lease used : keeps service_inv (RetireLease node lease used).
Proof.
  apply hoare_and; [apply (exec_money (OpRetireLease node lease used))|apply (exec_referral (OpRetireLease node lease used))]; done.
Qed.
Lemma Settle_service records : keeps service_inv (SettleUsageBatch records).
Proof.
  apply hoare_and; [apply (exec_money (OpSettleUsage records))|apply (exec_referral (OpSettleUsage records))]; done.
Qed.
Lemma service_quota d : service_inv d -> quota_inv d.
Proof. intros [[Hs _] _]. apply Hs. Qed.

(** A lease of the shop without its counter. *)
Definition terms (l : lease_row) : string * string * string * string * Z * Z * string :=
  (le_user l, le_node l, le_rule l, le_ent l, le_expires l, le_bytes l, le_mult l).

(** What settlement leaves alone, and where usage rows come from. *)
Record settled (records : list UsageRecord) (d d' : DB) : Prop := {
  se_leases k : terms <$> leases d' !! k = terms <$> leases d !! k;
  se_reservations : reservations d' = reservations d;
  se_rules : cp_rules d' = cp_rules d;
  se_users : cp_users d' = cp_users d;
  se_usage k row : usage d' !! k = Some row -> usage d !! k = Some row \/
    (k = U_ID (us_payload row) /\ us_payload row ∈ records /\ us_lease row = U_LeaseID (us_payload row))
}.

Lemma charge_all_rows records : forall acc open charges rows,
  charge_all records acc = Ok (open, charges, rows) ->
  Forall (fun kr => kr.1 = U_ID (us_payload kr.2) /\ us_payload kr.2 ∈ records /\ us_lease kr.2 = U_LeaseID (us_payload kr.2)
                    \/ kr ∈ acc.2) rows.
Proof.
  induction records as [|u records IH]; intros acc open charges rows; cbn [charge_all].
  - intros [= ->]. apply Forall_forall. auto.
  - destruct (charge_record u acc) as [acc'|e] eqn:E; [|done]. intros Hrun. apply IH in Hrun.
    destruct acc as [[o c] r]. unfold charge_record in E. destruct (o !! U_LeaseID u); [|done].
    repeat (destruct (_ || _) in E; [done|]). injection E as <-.
    eapply Forall_impl; [exact Hrun|]. intros kr [(H1 & H2 & H3)|Hin]; [left; set_solver|].
    simpl in Hin. apply elem_of_app in Hin as [Hin|Hin]; [by right|]. apply list_elem_of_singleton in Hin as ->.
    left. simpl. set_solver.
Qed.

Lemma distinct_in records : forall seen l u, distinct records seen = Ok l -> u ∈ l -> u ∈ records.
Proof. intros seen l u Hd. by apply (distinct_ok _ _ _ Hd). Qed.

Lemma settled_used records d0 k l n d :
  settled records d0 d -> leases d !! k = Some l -> settled records d0 (t_set Leases (<[k := lease_used n l]>) d).
Proof.
  intros [] Hl. split; try done. intros k'. simpl. rewrite <- (se_leases0 k').
  destruct (decide (k = k')) as [<-|Hne]; [rewrite lookup_insert_eq, Hl; done|by rewrite lookup_insert_ne].
Qed.

Lemma bump_lease_settled records d0 kw : keeps (settled records d0) (bump_lease kw).
Proof.
  unfold bump_lease. destruct (_ =? _); [by apply hoare_ret|].
  read_bind. eapply hoare_bind_inv; [|intros n; apply hoare_guard; auto].
  apply hoare_UPDATE; [|auto]. intros d r Hd Hr _. by apply settled_used.
Qed.
Lemma bump_ent_settled records d0 kd : keeps (settled records d0) (bump_ent kd).
Proof.
  unfold bump_ent. destruct (_ <=? _); [by apply hoare_ret|].
  eapply hoare_bind_inv; [|intros n; apply hoare_guard; auto].
  apply hoare_UPDATE; [|auto]. intros d r [] _ _. by split.
Qed.
Lemma usage_settled records d0 k row :
  k = U_ID (us_payload row) -> us_payload row ∈ records -> us_lease row = U_LeaseID (us_payload row) ->
  keeps (settled records d0) (INSERT Usage k row).
Proof.
  intros Hk Hin Hl. apply hoare_INSERT. intros d [] _ _. split; try done. intros k' row'. simpl.
  intros [[<- <-]|[_ H]]%lookup_insert_Some; auto.
Qed.

Lemma Settle_settled records d0 : keeps (settled records d0) (SettleUsageBatch records).
Proof.
  unfold SettleUsageBatch. destruct (500 <? _); [apply hoare_fail|].
  apply keeps_bind with (R := fun unique => distinct records ∅ = Ok unique); [apply hoare_of_res; auto|].
  intros unique Hu. eapply hoare_bind_inv; [apply hoare_gets; auto|]. intros known.
  eapply hoare_bind_inv; [apply hoare_guard; auto|]. intros _. cbn zeta. set (fresh := filter _ unique).
  assert (Hin : forall u, u ∈ fresh -> u ∈ records).
  { intros u Hf. apply list_elem_of_filter in Hf as [_ Hf]. by apply (distinct_in _ _ _ _ Hu). }
  destruct (bool_decide _); [by apply hoare_ret|].
  eapply hoare_bind_inv; [apply hoare_gets; auto|]. intros ls.
  eapply hoare_bind_inv; [apply hoare_gets; auto|]. intros rs.
  eapply hoare_bind_inv; [apply hoare_of_res; auto|]. intros open.
  apply keeps_bind with (R := fun r => charge_all fresh (open, ∅, []) = Ok r); [apply hoare_of_res; auto|].
  intros [[open' charges] rows] Hc. apply charge_all_rows in Hc. rewrite Forall_forall in Hc.
  eapply hoare_bind_inv; [apply keeps_for_each; intros; apply bump_lease_settled|]. intros _.
  eapply hoare_bind_inv; [apply keeps_for_each; intros; apply bump_ent_settled|]. intros _.
  apply keeps_for_each. intros kr Hkr. destruct (Hc _ Hkr) as [(H1 & H2 & H3)|H]; [|set_solver].
  apply usage_settled; auto.
Qed.
End ShopSide.

(** *** The rest of the shop does not touch leases *)
Section Beside.
Context {RS : RatSyntax} (d0 : DB).

Definition beside_desk (d : DB) : Prop :=
  leases d = leases d0 /\ reservations d = reservations d0 /\ usage d = usage d0 /\ cp_rules d = cp_rules d0 /\
  cp_users d = cp_users d0.

Definition lease_op (o : op) : bool :=
  match o with OpAllocate _ _ _ _ _ | OpRetireLease _ _ _ | OpSettleUsage _ => true | _ => false end.

Lemma beside_blind : blind beside_desk.
Proof. by split. Qed.
Hint Resolve beside_blind : blind.
Hint Resolve walletTx_blind post_blind emitEventTx_blind : keeps.
Lemma purchaseTx_beside user plan key expected version :
  keeps beside_desk (purchaseTx user plan key expected version).
Proof. unfold purchaseTx, replayPurchase, snapshotLimits, recordCommission. keeps_walk; auto. Qed.
Hint Resolve purchaseTx_beside : keeps.
Lemma grantPlan_beside user plan : keeps beside_desk (grantPlan user plan).
Proof. unfold grantPlan, snapshotLimits. keeps_walk; auto. Qed.
Lemma renewUser_beside user : keeps beside_desk (renewUser user).
Proof. unfold renewUser, renew_update. keeps_walk; auto; apply keeps_savepoint; auto using CheckAccount_keeps, purchaseTx_beside. Qed.
Lemma climb_beside fuel : forall user current, keeps beside_desk (climb fuel user current).
Proof. induction fuel as [|fuel IH]; intros user current; simpl; keeps_walk; auto. Qed.
Hint Resolve grantPlan_beside renewUser_beside climb_beside : keeps.

Lemma exec_beside o : op_ok o -> lease_op o = false -> keeps beside_desk (exec o).
Proof.
  destruct o; simpl; intros Hok Hl; try discriminate Hl; try apply keeps_forget;
    first [by apply SetUserRuleLimit_keeps|idtac];
    unfold CreatePlan, UpdatePlan, savePlanLimits, SetPlanActive, PurchaseQuote, PurchaseAddon, CreateRedeemCode,
      RedeemCode, RevokeRedeemCode, CreateReferralCode, SetCommissionRate, BindReferral, SetAutoRenew, AdjustUserBalance,
      RefundPurchase, purchaseSnapshot, refunds_of, reversePurchaseCommission, ResolveCommission, reversedCommission,
      CreateOrder, allocateOrder,
      CreateManualOrderAtomic, order_by_key, scheduleReconciliation, recordAttempt, ConfirmPaymentTx, PaymentReceived,
      CloseOrder, RequestRefund, ResolveRefund, claimOrder, repairOrders;
    keeps_walk; auto.
Qed.
End Beside.

(** ** The invariant *)

(** The bytes the usage records of a lease add up to. *)
Definition spent_of (k : string) (us : gmap string cp_usage_row) : Z :=
  map_sum (fun _ u => at_key (cu_lease u) k (raw_bytes (cu_payload u))) us.

(** A lease that was paid for. *)
Definition paid (l : rule_lease) : Prop := rl_ent l <> "admin-test".

(** The shop's lease behind a lease of the desk. *)
Definition backs (c : lease_row) (l : rule_lease) : Prop :=
  le_rule c = rl_rule l /\ le_node c = rl_node l /\ le_ent c = rl_ent l /\ le_bytes c = rl_bytes l /\
  Unix (le_expires c) = rl_until l.

(** A lease in the payload of a rule is a lease of the desk for this rule and
    node; the shop's lease behind it is of the rule's owner and ends with it. *)
Definition published (p : Panel) (rule : PanelRule) (l : NodeLease) : Prop :=
  exists row, rule_leases p !! NL_ID l = Some row /\ rl_rule row = PR_ID rule /\ rl_node row = PR_NodeID rule /\
    rl_ent row = NL_EntitlementID l /\ rl_bytes row = NL_Bytes l /\ rl_until row = Unix (NL_ExpiresAt l) /\
    exists c, leases (shop p) !! NL_ID l = Some c /\ le_user c = PR_UserID rule /\ le_expires c = NL_ExpiresAt l.

Definition rule_leases_of (rule : PanelRule) : list NodeLease :=
  (match PR_Lease rule with Some l => [l] | None => [] end ++
   match PR_Standby rule with Some l => [l] | None => [] end)%list.
Definition all_published (p : Panel) (rule : PanelRule) : Prop := forall l, l ∈ rule_leases_of rule -> published p rule l.

(** The columns of a rule are those of its payload. *)
Definition row_of (p : Panel) (rule : PanelRule) : Prop :=
  exists row, cp_rules (shop p) !! PR_ID rule = Some row /\ ru_node row = PR_NodeID rule /\ ru_user row = PR_UserID rule.

Record desk_inv (p : Panel) : Prop := {
  dk_bounds k l : rule_leases p !! k = Some l -> 0 <= rl_spent l <= rl_bytes l;
  dk_spent k l : rule_leases p !! k = Some l -> rl_spent l = spent_of k (cp_usage p);
  dk_usage k u : cp_usage p !! k = Some u ->
    U_ID (cu_payload u) = k /\ U_LeaseID (cu_payload u) = cu_lease u /\ is_Some (rule_leases p !! cu_lease u);
  dk_backed k l : rule_leases p !! k = Some l -> paid l -> exists c, leases (shop p) !! k = Some c /\ backs c l;
  dk_listed k c : leases (shop p) !! k = Some c -> exists l, rule_leases p !! k = Some l /\ rl_ent l = le_ent c;
  dk_settled k u l : cp_usage p !! k = Some u -> rule_leases p !! cu_lease u = Some l -> paid l ->
    exists row, usage (shop p) !! k = Some row /\ us_payload row = cu_payload u /\ us_lease row = cu_lease u;
  dk_taken k row : usage (shop p) !! k = Some row ->
    exists u l, cp_usage p !! k = Some u /\ cu_payload u = us_payload row /\ cu_lease u = us_lease row /\
      rule_leases p !! cu_lease u = Some l /\ paid l;
  dk_retired k r : retirements p !! k = Some r ->
    exists l, rule_leases p !! k = Some l /\ rt_used r = rl_spent l /\
      (paid l -> exists rs, reservations (shop p) !! k = Some rs /\ rs_closed rs <> 0);
  dk_closed k rs : reservations (shop p) !! k = Some rs -> rs_closed rs <> 0 -> is_Some (retirements p !! k);
  dk_payload k rule : payloads p !! k = Some rule -> PR_ID rule = k;
  dk_row k rule : payloads p !! k = Some rule -> row_of p rule;
  dk_published k rule : payloads p !! k = Some rule -> all_published p rule
}.

Section Desk.
Context {RS : RatSyntax}.

Definition panel_inv (p : Panel) : Prop := service_inv (shop p) /\ desk_inv p.

(** The counters of the two halves agree. *)
Lemma books_agree p k l c :
  panel_inv p -> rule_leases p !! k = Some l -> paid l -> leases (shop p) !! k = Some c -> le_used c = rl_spent l.
Proof.
  intros [Hs Hd] Hl Hp Hc. rewrite (q_raw _ _ _ _ _ _ _ (service_quota _ Hs) _ _ Hc), (dk_spent _ Hd _ _ Hl).
  unfold zero. rewrite Z.add_0_r. apply map_sum_agree. intros x.
  destruct (usage (shop p) !! x) as [row|] eqn:Hu.
  - destruct (dk_taken _ Hd _ _ Hu) as (u & l' & -> & Hpay & Hle & _). simpl. by rewrite Hpay, Hle.
  - destruct (cp_usage p !! x) as [u|] eqn:Hx; [|done]. simpl. unfold at_key.
    destruct (String.eqb (cu_lease u) k) eqn:E; [|done]. bool_to_prop. subst k.
    destruct (dk_settled _ Hd _ _ _ Hx Hl Hp) as (row & Hrow & _). congruence.
Qed.

(** ** Growth: leases are added, nothing else that rules refer to changes *)

Record grows (p p' : Panel) : Prop := {
  gr_leases : rule_leases p ⊆ rule_leases p';
  gr_shop : leases (shop p) ⊆ leases (shop p');
  gr_rules : cp_rules (shop p') = cp_rules (shop p)
}.
#[export] Instance grows_preorder : PreOrder grows.
Proof.
  split; [by split|]. intros p q r [] []. split; [by etrans|by etrans|congruence].
Qed.

Lemma published_grows p p' rule l : grows p p' -> published p rule l -> published p' rule l.
Proof.
  intros [Hr Hs _] (row & H1 & H2 & H3 & H4 & H5 & H6 & c & Hc & Hu). exists row.
  split; [by eapply lookup_weaken|]. do 5 (split; [done|]). exists c. split; [by eapply lookup_weaken|done].
Qed.
Lemma all_published_grows p p' rule : grows p p' -> all_published p rule -> all_published p' rule.
Proof. intros Hg Ha l Hl. eapply published_grows; eauto. Qed.
Lemma row_of_grows p p' rule : grows p p' -> row_of p rule -> row_of p' rule.
Proof. intros [_ _ Hr] (row & H1 & H2 & H3). exists row. by rewrite Hr. Qed.

(** ** A lease granted and entered *)

(** What a grant of the shop adds to its tables. *)
Record grant (user rule node : string) (l : Lease) (d d' : DB) : Prop := {
  gt_new : leases d !! L_ID l = None;
  gt_leases : exists m, leases d' = <[L_ID l := {| le_user := user; le_node := node; le_rule := rule;
                le_ent := L_EntitlementID l; le_expires := L_ExpiresAt l; le_bytes := L_Bytes l; le_used := 0;
                le_mult := m |}]> (leases d);
  gt_reservations : exists b, reservations d' = <[L_ID l := {| rs_budget := b; rs_closed := 0 |}]> (reservations d);
  gt_usage : usage d' = usage d;
  gt_rules : cp_rules d' = cp_rules d;
  gt_users : cp_users d' = cp_users d;
  gt_bytes : 0 < L_Bytes l;
  gt_service : service_inv d'
}.

Lemma Allocate_grant user rule node multiplier requested env d t l d' t' :
  service_inv d -> AllocateBudgetWithMultiplier user rule node multiplier requested env d t = (Ok (l, d'), t') ->
  grant user rule node l d d'.
Proof.
  intros Hs Hrun. pose proof (Allocate_service _ _ _ _ _ _ _ _ _ _ _ Hrun Hs) as Hs'.
  destruct (Allocate_Ok _ _ _ _ _ _ _ _ _ _ _ (service_quota _ Hs) Hrun)
    as (eid & e & m & b & now & c & _ & _ & _ & _ & _ & _ & _ & _ & _ & _ & Hb & He & _ & -> & Hn & _ & ->).
  subst eid. split; simpl; try done; try lia; eauto.
Qed.

Lemma in_shop_Ok {A} (m : Tx DB A) env p t a p' t' :
  in_shop m env p t = (Ok (a, p'), t') -> exists d', m env (shop p) t = (Ok (a, d'), t') /\ p' = set_shop d' p.
Proof. unfold in_shop. destruct (m env (shop p) t) as [[[b d]|e] s]; [|done]. intros [= <- <- <-]. eauto. Qed.

Lemma set_shop_same p : set_shop (shop p) p = p.
Proof. by destruct p. Qed.

Lemma unless_unavailable_Ok (m : Tx DB Lease) env p t r p' t' :
  unless_unavailable m env p t = (Ok (r, p'), t') ->
  (r = None /\ p' = p) \/
  (exists l d', r = Some l /\ m env (shop p) t = (Ok (l, d'), t') /\ p' = set_shop d' p).
Proof.
  unfold unless_unavailable. intros Hrun. apply tx_bind_Ok in Hrun as (x & p1 & t1 & Hm & Hk).
  unfold savepoint in Hm. destruct (in_shop m env p t) as [[[l q]|e] s] eqn:Hi; injection Hm as <- <- <-.
  - apply in_shop_Ok in Hi as (d' & Hm & ->). apply mret_Ok in Hk as (-> & -> & ->). right. eauto 6.
  - left. destruct e; try done. by apply mret_Ok in Hk as (-> & -> & ->).
Qed.

(** The row of the desk completes the grant. *)
Definition entered (rule node : string) (l : Lease) (d' : DB) (p : Panel) : Panel :=
  set_rule_leases (<[L_ID l := lease_entry rule node l]> (rule_leases p)) (set_shop d' p).

Lemma entered_grows user rule node l d' p :
  grant user rule node l (shop p) d' -> rule_leases p !! L_ID l = None -> grows p (entered rule node l d' p).
Proof.
  intros [] Hn. split; simpl; [by apply insert_subseteq| |done].
  destruct gt_leases0 as [m ->]. by apply insert_subseteq.
Qed.

Lemma entered_published user l d' p rule :
  grant user (PR_ID rule) (PR_NodeID rule) l (shop p) d' -> PR_UserID rule = user ->
  published (entered (PR_ID rule) (PR_NodeID rule) l d' p) rule (to_node l).
Proof.
  intros [] Hu. exists (lease_entry (PR_ID rule) (PR_NodeID rule) l). simpl. rewrite lookup_insert_eq.
  do 6 (split; [done|]). destruct gt_leases0 as [m ->]. rewrite lookup_insert_eq. eexists. split; [done|]. by simpl.
Qed.

Lemma entered_inv user rule node l d' p :
  panel_inv p -> grant user rule node l (shop p) d' -> rule_leases p !! L_ID l = None ->
  panel_inv (entered rule node l d' p).
Proof.
  intros [Hs Hd] Hg Hn. pose proof (entered_grows _ _ _ _ _ _ Hg Hn) as Hgr. destruct Hg. split; [done|].
  destruct gt_leases0 as [m Hls]. destruct gt_reservations0 as [b Hrs].
  assert (Hno : forall k u, cp_usage p !! k = Some u -> cu_lease u <> L_ID l).
  { intros k u Hu He. destruct (dk_usage _ Hd _ _ Hu) as (_ & _ & [? ?]). congruence. }
  split; simpl.
  - intros k r [[<- <-]|[_ H]]%lookup_insert_Some; [simpl; lia|by apply (dk_bounds _ Hd _ _ H)].
  - intros k r [[<- <-]|[_ H]]%lookup_insert_Some; [|by apply (dk_spent _ Hd)]. simpl. symmetry.
    apply map_sum_all_zero. intros x u Hu. apply at_key_ne. eauto.
  - intros k u Hu. destruct (dk_usage _ Hd _ _ Hu) as (H1 & H2 & H3). rewrite lookup_insert_is_Some'. auto.
  - intros k r [[<- <-]|[Hne H]]%lookup_insert_Some Hp; rewrite Hls.
    + rewrite lookup_insert_eq. eexists. split; [done|]. by unfold backs.
    + rewrite lookup_insert_ne by done. by apply (dk_backed _ Hd).
  - intros k c. rewrite Hls. intros [[<- <-]|[Hne H]]%lookup_insert_Some.
    + rewrite lookup_insert_eq. eexists. split; done.
    + rewrite lookup_insert_ne by done. by apply (dk_listed _ Hd).
  - intros k u r Hu [[He _]|[_ H]]%lookup_insert_Some Hp; [by destruct (Hno _ _ Hu)|]. rewrite gt_usage0.
    by apply (dk_settled _ Hd _ _ _ Hu H).
  - intros k row. rewrite gt_usage0. intros Hrow. destruct (dk_taken _ Hd _ _ Hrow) as (u & r & H1 & H2 & H3 & H4 & H5).
    exists u, r. repeat split; try done. rewrite lookup_insert_ne; [done|]. intros He. eapply Hno; eauto.
  - intros k r Hr. destruct (dk_retired _ Hd _ _ Hr) as (x & H1 & H2 & H3). exists x.
    assert (L_ID l <> k) by (intros <-; congruence). rewrite Hrs, !lookup_insert_ne by done. auto.
  - intros k rs. rewrite Hrs. intros [[<- <-]|[_ H]]%lookup_insert_Some; [done|]. by apply (dk_closed _ Hd).
  - apply (dk_payload _ Hd).
  - intros k r Hr. eapply row_of_grows; [exact Hgr|]. by eapply (dk_row _ Hd).
  - intros k r Hr. eapply all_published_grows; [exact Hgr|]. by eapply (dk_published _ Hd).
Qed.

(** [add_lease_row] after a grant. *)
Lemma add_lease_row_Ok k row env p t u p' t' :
  add_lease_row k row env p t = (Ok (u, p'), t') ->
  rule_leases p !! k = None /\ p' = set_rule_leases (<[k := row]> (rule_leases p)) p.
Proof.
  unfold add_lease_row. intros Hrun. tx_inv Hrun. by apply bool_decide_eq_true in Hg.
Qed.

(** ** Publishing keeps the books *)

Lemma in_shop_reads {A} (m : Tx DB A) (P : Panel -> Prop) : (forall Q, keeps Q m) -> keeps P (in_shop m).
Proof.
  intros Hm env p t a p' t' Hrun HP. apply in_shop_Ok in Hrun as (d' & Hrun & ->).
  pose proof (Hm (fun d => d = shop p) _ _ _ _ _ _ Hrun eq_refl) as ->. by rewrite set_shop_same.
Qed.

Lemma LeaseCurrent_reads user l (Q : DB -> Prop) : keeps Q (LeaseCurrent user l).
Proof. unfold LeaseCurrent, latest. keeps_walk; auto. Qed.
Lemma LimitsTx_reads user (Q : DB -> Prop) : keeps Q (LimitsTx user).
Proof. apply LimitsTx_keeps. Qed.
Lemma SELECT_reads `{Countable K} {R} (T : Table K R) k (Q : DB -> Prop) : keeps Q (SELECT T k).
Proof. apply hoare_SELECT. auto. Qed.
Hint Resolve in_shop_reads LeaseCurrent_reads LimitsTx_reads SELECT_reads : keeps.

Section Reads.
Context (P : Panel -> Prop).
Lemma accountLimits_reads user : keeps P (accountLimits shop_options user).
Proof. unfold accountLimits. simpl. auto with keeps. Qed.
Lemma withinPlanRuleLimit_reads rule n : keeps P (withinPlanRuleLimit rule n).
Proof. unfold withinPlanRuleLimit. keeps_walk; auto. Qed.
Lemma lockRuleOwner_reads user : keeps P (lockRuleOwner user).
Proof. unfold lockRuleOwner. keeps_walk; auto. Qed.
Lemma liveLeaseTx_reads user l : keeps P (liveLeaseTx shop_options user l).
Proof. unfold liveLeaseTx. cbn [opt_LeaseCurrent shop_options]. keeps_walk; auto. Qed.
Hint Resolve liveLeaseTx_reads : keeps.
Lemma check_primary_reads allowed rule : keeps P (check_primary shop_options allowed rule).
Proof. unfold check_primary. cbn [opt_LeaseCurrent shop_options]. keeps_walk; auto. Qed.
End Reads.
Hint Resolve accountLimits_reads withinPlanRuleLimit_reads lockRuleOwner_reads liveLeaseTx_reads check_primary_reads : keeps.

Section Publishing.
Context (p0 : Panel).

Definition G (p : Panel) : Prop := panel_inv p /\ grows p0 p.
Definition owned (rule : PanelRule) (p : Panel) : Prop := all_published p rule /\ row_of p rule.

Lemma owned_grows rule p p' : grows p p' -> owned rule p -> owned rule p'.
Proof. intros Hg [H1 H2]. split; [by eapply all_published_grows|by eapply row_of_grows]. Qed.
Lemma owned_standby rule l p : owned rule p -> published p rule l -> owned (set_standby (Some l) rule) p.
Proof.
  intros [Ha Hr] Hl. split; [|exact Hr]. intros l'. unfold rule_leases_of. simpl. intros Hin.
  apply elem_of_app in Hin as [Hin|Hin].
  - apply Ha. unfold rule_leases_of. by apply elem_of_app; left.
  - apply list_elem_of_singleton in Hin as ->. exact Hl.
Qed.
Lemma owned_lease rule l p : owned rule p -> published p rule l -> owned (set_lease (Some l) rule) p.
Proof.
  intros [Ha Hr] Hl. split; [|exact Hr]. intros l'. unfold rule_leases_of. simpl. intros Hin.
  apply elem_of_cons in Hin as [->|Hin]; [exact Hl|].
  apply Ha. unfold rule_leases_of. by apply elem_of_app; right.
Qed.
Lemma owned_drop rule p : owned rule p -> owned (set_standby None rule) p.
Proof.
  intros [Ha Hr]. split; [|exact Hr]. intros l'. unfold rule_leases_of. simpl. rewrite app_nil_r. intros Hin.
  apply Ha. unfold rule_leases_of. by apply elem_of_app; left.
Qed.
Lemma owned_promote rule standby p :
  standby = None \/ standby = PR_Standby rule -> owned rule p -> owned (set_standby None (set_lease standby rule)) p.
Proof.
  intros Hs [Ha Hr]. split; [|exact Hr]. intros l'. unfold rule_leases_of. simpl. rewrite app_nil_r. intros Hin.
  destruct Hs as [->| ->]; [set_solver|].
  apply Ha. unfold rule_leases_of. by apply elem_of_app; right.
Qed.
Lemma owned_clear rule p : owned rule p -> owned (set_lease (clear_limits <$> PR_Lease rule) rule) p.
Proof.
  intros [Ha Hr]. split; [|exact Hr]. intros l'. unfold rule_leases_of. simpl. intros Hin.
  destruct (PR_Lease rule) as [l|] eqn:El; simpl in Hin.
  - apply elem_of_cons in Hin as [->|Hin].
    + apply (Ha l). unfold rule_leases_of. rewrite El. set_solver.
    + apply Ha. unfold rule_leases_of. rewrite El. set_solver.
  - apply Ha. unfold rule_leases_of. rewrite El. exact Hin.
Qed.

Lemma G_payload rule p : G p -> owned rule p -> G (set_payloads (<[PR_ID rule := rule]> (payloads p)) p).
Proof.
  intros [[Hs Hd] Hg] [Ha Hr]. split; [|by destruct Hg]. split; [exact Hs|].
  destruct Hd. split; simpl; try done.
  - intros k r [[<- <-]|[_ H]]%lookup_insert_Some; eauto.
  - intros k r [[<- <-]|[_ H]]%lookup_insert_Some; [exact Hr|by eapply dk_row0].
  - intros k r [[<- <-]|[_ H]]%lookup_insert_Some; [exact Ha|by eapply dk_published0].
Qed.
Lemma update_payload_spec rule : hoare (fun p => G p /\ owned rule p) (update_payload rule) (fun _ p => G p).
Proof.
  unfold update_payload. eapply hoare_bind_inv; [by apply hoare_gets|]. intros [[row old]|].
  - destruct (_ =? _); [|apply hoare_ret; tauto].
    eapply hoare_bind with (R := fun _ => G); [|intros _; by apply hoare_ret].
    apply hoare_modify. intros p [H1 H2]. by apply G_payload.
  - apply hoare_ret. tauto.
Qed.
Lemma save_payload_spec rule : hoare (fun p => G p /\ owned rule p) (save_payload rule) (fun _ p => G p).
Proof.
  unfold save_payload. eapply hoare_bind; [apply update_payload_spec|]. intros n.
  eapply hoare_bind_inv; [by apply hoare_guard|]. intros _. by apply hoare_ret.
Qed.

(** A grant followed by its row. *)
Lemma G_entered user rule l d' p :
  G p -> grant user (PR_ID rule) (PR_NodeID rule) l (shop p) d' -> rule_leases p !! L_ID l = None ->
  user = PR_UserID rule -> owned rule p ->
  G (entered (PR_ID rule) (PR_NodeID rule) l d' p) /\ owned rule (entered (PR_ID rule) (PR_NodeID rule) l d' p) /\
  published (entered (PR_ID rule) (PR_NodeID rule) l d' p) rule (to_node l).
Proof.
  intros [Hi Hg] Hgr Hn -> Ho. pose proof (entered_grows _ _ _ _ _ _ Hgr Hn) as Hgr'.
  split; [split; [by eapply entered_inv|by etrans]|]. split; [by eapply owned_grows|by eapply entered_published].
Qed.

Lemma allocateStandby_spec rule multiplier budget :
  hoare (fun p => G p /\ owned rule p) (allocateStandbyTx shop_options rule multiplier budget)
    (fun r p => G p /\ owned rule p /\ forall l, r = Some l -> published p rule l).
Proof.
  intros env p t r p' t' Hrun [HG Ho]. unfold allocateStandbyTx in Hrun.
  cbn [budget_allocator shop_options opt_Entitlements es_AllocateBudget] in Hrun.
  destruct (PR_Lease rule); [|by apply mret_Ok in Hrun as (-> & -> & _)].
  destruct (String.eqb _ _); [by apply mret_Ok in Hrun as (-> & -> & _)|].
  apply tx_bind_Ok in Hrun as (n1 & p1 & t1 & Hn & Hrun). apply gets_Ok in Hn as (-> & -> & _).
  destruct (4 <=? _); [by apply mret_Ok in Hrun as (-> & -> & _)|].
  apply tx_bind_Ok in Hrun as (r1 & p1 & t2 & Ha & Hrun).
  apply unless_unavailable_Ok in Ha as [[-> ->]|(l & d' & -> & Ha & ->)];
    [by apply mret_Ok in Hrun as (-> & -> & _)|].
  sql_run Hrun; try done. apply add_lease_row_Ok in Hm as [Hn ->].
  pose proof (Allocate_grant _ _ _ _ _ _ _ _ _ _ _ (proj1 (proj1 HG)) Ha) as Hgr.
  destruct (G_entered _ rule _ _ _ HG Hgr Hn eq_refl Ho) as (H1 & H2 & H3).
  split; [exact H1|]. split; [exact H2|]. intros l' [= <-]. exact H3.
Qed.

Lemma refillStandby_spec rule g raw :
  hoare (fun p => G p /\ owned rule p) (refillStandbyTx shop_options rule g raw) (fun br p => G p /\ owned br.2 p).
Proof.
  unfold refillStandbyTx. destruct (_ || _); [by apply hoare_ret|].
  eapply hoare_bind_inv; [by apply hoare_of_res|]. intros b.
  eapply hoare_bind; [apply allocateStandby_spec|]. intros [l|]; apply hoare_ret; intros p (H1 & H2 & H3); split; auto.
  simpl. apply owned_standby; auto.
Qed.

Lemma replace_primary_Ok pipeline retired node multiplier rule old env p t r p' t' :
  panel_inv p -> replace_primary shop_options pipeline retired node multiplier rule old env p t = (Ok (r, p'), t') ->
  (r = None /\ p' = p) \/
  (exists l d', r = Some l /\ p' = set_shop d' p /\ grant (PR_UserID rule) (PR_ID rule) node l (shop p) d').
Proof.
  intros [Hs _] Hrun. unfold replace_primary, plain_primary in Hrun.
  cbn [shop_options opt_Entitlements es_AllocateBudget es_AllocateMultiplier] in Hrun.
  sql_run Hrun;
    match goal with H : unless_unavailable _ _ _ _ = _ |- _ => apply unless_unavailable_Ok in H as [[-> ->]|(l & d' & -> & Ha & ->)] end;
    try (left; done); right; exists l, d'; (split; [done|]; split; [done|]);
    unfold AllocateWithMultiplier in Ha; by eapply Allocate_grant.
Qed.

Lemma enter_primary_Ok node rule l env p t u p' t' :
  enter_primary node rule l env p t = (Ok (u, p'), t') ->
  rule_leases p !! L_ID l = None /\
  p' = set_rule_leases (<[L_ID l := lease_entry (PR_ID rule) node l]> (rule_leases p)) p.
Proof. unfold enter_primary. intros Hrun. sql_run Hrun; try done. by match goal with H : add_lease_row _ _ _ _ _ = _ |- _ => apply add_lease_row_Ok in H end. Qed.

Lemma refill_if (b : bool) rule g raw :
  hoare (fun p => G p /\ owned rule p)
    (if b then br ← refillStandbyTx shop_options rule g raw; mret br.2 else mret rule) (fun r p => G p /\ owned r p).
Proof.
  destruct b; [|by apply hoare_ret]. eapply hoare_bind; [apply refillStandby_spec|]. intros br. by apply hoare_ret.
Qed.

Lemma renew_primary_spec pipeline allowed retired node hint rule g :
  PR_NodeID rule = node ->
  hoare (fun p => G p /\ owned rule p) (renew_primary shop_options pipeline allowed retired node hint rule g) (fun _ p => G p).
Proof.
  intros Hnode env p t c p' t' Hrun [HG Ho]. unfold renew_primary in Hrun. cbn zeta in Hrun.
  set (standby := if allowed then _ else _) in Hrun.
  assert (Hst : standby = None \/ standby = PR_Standby rule) by (subst standby; destruct allowed; auto).
  apply (owned_promote _ _ _ Hst) in Ho. set (rule1 := set_standby _ _) in Hrun, Ho.
  apply tx_bind_Ok in Hrun as (fresh & p1 & t1 & Hf & Hrun).
  assert (Hfresh : (fresh = None /\ p1 = p) \/ (exists l d', fresh = Some l /\ p1 = set_shop d' p /\
    grant (PR_UserID rule1) (PR_ID rule1) (PR_NodeID rule1) l (shop p) d')).
  { destruct standby; [by apply mret_Ok in Hf as (-> & -> & _); left|].
    destruct allowed; [|by apply mret_Ok in Hf as (-> & -> & _); left].
    rewrite <- Hnode in Hf. by apply (replace_primary_Ok _ _ _ _ _ _ _ _ _ _ _ _ (proj1 HG) Hf). }
  clear Hf. destruct Hfresh as [[-> ->]|(l & d' & -> & -> & Hgr)].
  - destruct (_ && _); [apply mret_Ok in Hrun as (_ & -> & _); exact HG|].
    apply tx_bind_Ok in Hrun as (u & p2 & t2 & Hu & Hrun). apply mret_Ok in Hu as (_ & -> & _).
    apply tx_bind_Ok in Hrun as (rule2 & p3 & t3 & Hr & Hsave).
    destruct (refill_if _ rule1 _ _ _ _ _ _ _ _ Hr (conj HG Ho)) as [HG3 Ho3].
    exact (save_payload_spec rule2 _ _ _ _ _ _ Hsave (conj HG3 Ho3)).
  - cbn [PR_Lease set_lease] in Hrun. rewrite (bool_decide_eq_false_2 (Some (to_node l) = None)), andb_false_r in Hrun by done.
    apply tx_bind_Ok in Hrun as (u & p2 & t2 & Hu & Hrun). apply enter_primary_Ok in Hu as [Hn ->].
    change (PR_ID (set_lease (Some (to_node l)) rule1)) with (PR_ID rule1) in Hrun.
    change (rule_leases (set_shop d' p)) with (rule_leases p) in *.
    change node with node in Hrun. rewrite <- Hnode in Hrun.
    destruct (G_entered _ rule1 _ _ _ HG Hgr Hn eq_refl Ho) as (H1 & H2 & H3).
    apply tx_bind_Ok in Hrun as (rule2 & p3 & t3 & Hr & Hsave).
    destruct (refill_if _ (set_lease (Some (to_node l)) rule1) _ _ _ _ _ _ _ _ Hr
      (conj H1 (owned_lease _ _ _ H2 H3))) as [HG3 Ho3].
    exact (save_payload_spec rule2 _ _ _ _ _ _ Hsave (conj HG3 Ho3)).
Qed.

Lemma check_standby_spec pipeline rule :
  hoare (fun p => G p /\ owned rule p) (check_standby shop_options pipeline rule)
    (fun rc p => (G p /\ owned rc.1 p) /\ PR_NodeID rc.1 = PR_NodeID rule).
Proof.
  unfold check_standby. destruct (PR_Standby rule); [|by apply hoare_ret].
  eapply hoare_bind_inv; [apply liveLeaseTx_reads|]. intros live.
  destruct (_ || _); apply hoare_ret; intros p [H1 H2]; [|done]. split; [|done]. split; [done|]. by apply owned_drop.
Qed.

Lemma refresh_item_spec pipeline node hint it policies :
  PR_NodeID (it_rule it) = node ->
  hoare (fun p => G p /\ owned (it_rule it) p) (refresh_item shop_options pipeline node hint it policies) (fun _ p => G p).
Proof.
  intros Hnode. unfold refresh_item. destruct (skipped it); [apply hoare_ret; tauto|].
  cbn zeta. eapply hoare_bind_inv; [destruct (policies !! _); [by apply hoare_ret|auto with keeps]|]. intros limits.
  eapply hoare_bind_inv; [apply withinPlanRuleLimit_reads|]. intros allowed.
  eapply hoare_bind; [apply check_standby_spec|]. intros rc. apply hoare_pure. intros Hrc.
  set (legacy := match PR_Lease (it_rule it) with Some l => negb (bool_decide (NL_Limits l = no_limits)) | None => false end).
  set (rule := if legacy then _ else rc.1).
  assert (Hn : PR_NodeID rule = node) by (subst rule; destruct legacy; simpl; congruence).
  apply hoare_conseq with (P' := fun p => G p /\ owned rule p) (Q' := fun _ p => G p);
    [|intros p [H1 H2]; split; [exact H1|]; unfold rule; destruct legacy; [apply owned_clear|]; exact H2|done].
  eapply hoare_bind_inv; [apply check_primary_reads|]. intros vr. destruct (negb vr.1).
  - eapply hoare_bind; [by apply renew_primary_spec|]. intros c. by apply hoare_ret.
  - eapply hoare_bind with (R := fun br p => G p /\ owned br.2 p).
    + destruct (_ && _ && _); [apply refillStandby_spec|by apply hoare_ret].
    + intros br. destruct (_ || _); [|apply hoare_ret; tauto].
      eapply hoare_bind; [apply save_payload_spec|]. intros c. by apply hoare_ret.
Qed.

Lemma refresh_items_spec pipeline node hint items : forall changed policies,
  Forall (fun it => PR_NodeID (it_rule it) = node /\ owned (it_rule it) p0) items ->
  keeps G (refresh_items shop_options pipeline node hint items changed policies).
Proof.
  induction items as [|it items IH]; intros changed policies Hall; cbn [refresh_items]; [by apply hoare_ret|].
  apply Forall_cons in Hall as [[Hn Ho] Hall]. eapply hoare_bind with (R := fun _ p => G p); [|auto].
  eapply hoare_conseq; [by apply refresh_item_spec| |done]. intros p HG. split; [done|].
  eapply owned_grows; [exact (proj2 HG)|exact Ho].
Qed.
End Publishing.

(** *** The whole transactions *)

(** The shop half changed outside of what the desk looks at. *)
Lemma desk_beside d' p : beside_desk (shop p) d' -> desk_inv p -> desk_inv (set_shop d' p).
Proof.
  intros (H1 & H2 & H3 & H4 & _) []. split; simpl; rewrite ?H1, ?H2, ?H3; try done.
  - intros k rule Hr. unfold row_of. simpl. rewrite H4. by eapply dk_row0.
  - intros k rule Hr l Hl. destruct (dk_published0 _ _ Hr l Hl) as (row & Hrow & Ha). exists row. split; [done|].
    simpl. by rewrite H1.
Qed.
Lemma bump_version_keeps node : keeps panel_inv (bump_version node).
Proof.
  unfold bump_version. eapply hoare_bind_inv; [|intros ?; by apply hoare_ret].
  intros env p t a p' t' Hrun [Hs Hd]. apply in_shop_Ok in Hrun as (d' & Hrun & ->).
  apply UPDATE_Ok in Hrun as [(v & _ & _ & _ & ->)|(_ & _ & ->)]; [|by rewrite set_shop_same].
  split; [exact Hs|]. by apply desk_beside.
Qed.

Lemma items_owned node p it : panel_inv p -> it ∈ items_of node p -> PR_NodeID (it_rule it) = node /\ owned (it_rule it) p.
Proof.
  intros [_ Hd] Hin. apply list_elem_of_omap in Hin as ([k row] & Hkr & Hit).
  apply list_elem_of_filter in Hkr as [Hp Hkr]. apply elem_of_map_to_list in Hkr. simpl in Hp.
  apply Is_true_eq_true in Hp. bool_to_prop. unfold item_of in Hit. simpl in Hit.
  destruct (payloads p !! k) as [rule|] eqn:Hr; [|done]. destruct (groups p !! _); [|done].
  destruct (cp_users (shop p) !! _); [|done]. injection Hit as <-. simpl.
  pose proof (dk_payload _ Hd _ _ Hr) as Hid. destruct (dk_row _ Hd _ _ Hr) as (row' & Hrow & Hn & Hu).
  rewrite Hid, Hkr in Hrow. injection Hrow as <-. split; [congruence|]. split; [by eapply (dk_published _ Hd)|].
  by eapply (dk_row _ Hd).
Qed.

Lemma refresh_keeps owners node hint : keeps panel_inv (refreshLeasesWithPrefetch shop_options owners node hint).
Proof.
  unfold refreshLeasesWithPrefetch.
  eapply hoare_bind_inv; [apply keeps_for_each; intros; keeps_walk; auto|]. intros _.
  eapply hoare_bind_inv; [by apply hoare_gets|]. intros caps. eapply hoare_bind_inv; [by apply hoare_or_fail|]. intros caps'.
  cbn zeta. eapply hoare_bind with (R := fun items p => panel_inv p /\ items = items_of node p); [by apply hoare_gets|].
  intros items env p t u p' t' Hrun [Hp ->].
  apply tx_bind_Ok in Hrun as (u1 & p1 & t1 & Hg & Hrun). apply guard_Ok in Hg as (_ & -> & _).
  apply tx_bind_Ok in Hrun as (changed & p2 & t2 & Hr & Hrun).
  destruct (refresh_items_spec p _ node hint (items_of node p) _ _
    ltac:(apply Forall_forall; intros it; by apply items_owned) _ _ _ _ _ _ Hr) as [Hp2 _]; [split; [done|reflexivity]|].
  destruct changed; [by apply (bump_version_keeps _ _ _ _ _ _ _ Hrun)|by apply mret_Ok in Hrun as (_ & -> & _)].
Qed.

Lemma rule_at_owned k p row rule : panel_inv p -> rule_at k p = Some (row, rule) -> owned rule p.
Proof.
  intros [_ Hd]. unfold rule_at. destruct (cp_rules (shop p) !! k); [|done]. destruct (payloads p !! k) as [r'|] eqn:Hr; [|done].
  destruct (ru_deleted _); [done|]. intros [= _ <-]. split; [by eapply (dk_published _ Hd)|by eapply (dk_row _ Hd)].
Qed.

Lemma prefetch_rule_keeps p0 node leaseID raw rule :
  hoare (fun p => G p0 p /\ owned rule p) (prefetch_rule shop_options node leaseID raw rule) (fun _ p => panel_inv p).
Proof.
  assert (Hmono : forall p, G p0 p /\ owned rule p -> panel_inv p) by (intros p [[H _] _]; exact H).
  unfold prefetch_rule. repeat (eapply hoare_bind_inv; [solve [auto with keeps | hoare_step; auto]|]; intros ?).
  destruct (negb _); [apply hoare_fail|]. destruct (PR_Lease rule); [|apply hoare_fail].
  destruct (_ || _); [apply hoare_fail|].
  repeat (eapply hoare_bind_inv; [solve [auto with keeps | hoare_step; auto]|]; intros ?).
  destruct (entryPolicyDenied _ _); [apply hoare_fail|].
  do 2 (eapply hoare_bind_inv; [solve [auto with keeps | hoare_step; auto]|]; intros ?).
  eapply hoare_bind_inv; [destruct (String.eqb _ _); hoare_step; auto|]. intros ?.
  repeat (eapply hoare_bind_inv; [solve [auto with keeps | hoare_step; auto]|]; intros ?).
  destruct (PR_Standby rule); [by apply hoare_ret|].
  eapply hoare_bind_inv; [by apply hoare_of_res|]. intros b.
  eapply hoare_bind; [apply allocateStandby_spec|]. intros [l|]; [|apply hoare_ret; intros p (HG & _); apply HG].
  eapply hoare_bind with (R := fun _ p => panel_inv p).
  - eapply hoare_conseq; [apply (update_payload_spec p0)| |intros x p HG; exact (proj1 HG)].
    intros p (H1 & H2 & H3). split; [done|]. apply owned_standby; auto.
  - intros x. eapply hoare_bind_inv; [apply bump_version_keeps|]. intros _. by apply hoare_ret.
Qed.

Lemma prefetch_keeps node ruleID leaseID raw : keeps panel_inv (prefetchLease shop_options node ruleID leaseID raw).
Proof.
  intros env p t r p' t' Hrun Hp. unfold prefetchLease in Hrun. destruct (_ || _); [done|].
  apply tx_bind_Ok in Hrun as (row & p1 & t1 & Hrow & Hrun). apply gets_Ok in Hrow as (-> & -> & ->).
  apply tx_bind_Ok in Hrun as ([row rule] & p1 & t1 & Ho & Hrun). apply or_fail_Ok in Ho as (Hat & -> & ->).
  destruct (negb _); [done|]. eapply (prefetch_rule_keeps p); [exact Hrun|].
  split; [split; [done|reflexivity]|]. by eapply rule_at_owned.
Qed.

(** ** Retirement keeps the books *)

Lemma retired_inv p k l d' at_ :
  desk_inv p -> rule_leases p !! k = Some l ->
  leases d' = leases (shop p) -> usage d' = usage (shop p) -> cp_rules d' = cp_rules (shop p) ->
  (paid l -> exists rs, reservations d' !! k = Some rs /\ rs_closed rs <> 0) ->
  (forall x, x <> k -> reservations d' !! x = reservations (shop p) !! x) ->
  desk_inv (set_retirements (<[k := {| rt_used := rl_spent l; rt_at := at_ |}]> (retirements p)) (set_shop d' p)).
Proof.
  intros [] Hl H1 H2 H3 Hk Hx. split; simpl; rewrite ?H1, ?H2; try done.
  - intros x r [[<- <-]|[Hne H]]%lookup_insert_Some; [exists l; auto|].
    destruct (dk_retired0 _ _ H) as (y & Ha & Hb & Hc). exists y. rewrite Hx by done. auto.
  - intros x rs Hrs Hc. rewrite lookup_insert_is_Some'. destruct (decide (x = k)) as [->|Hne]; [by left|].
    right. rewrite Hx in Hrs by done. by eapply dk_closed0.
  - intros x rule Hr. unfold row_of. simpl. rewrite H3. by eapply dk_row0.
  - intros x rule Hr y Hy. destruct (dk_published0 _ _ Hr y Hy) as (row & Hrow & Ha). exists row. split; [done|].
    simpl. by rewrite H1.
Qed.

Lemma RetireLease_desk node lease used env d t d' t' :
  service_inv d -> RetireLease node lease used env d t = (Ok (tt, d'), t') ->
  service_inv d' /\ leases d' = leases d /\ usage d' = usage d /\ cp_rules d' = cp_rules d /\
  (exists rs, reservations d' !! lease = Some rs /\ rs_closed rs <> 0) /\
  (forall x, x <> lease -> reservations d' !! x = reservations d !! x).
Proof.
  intros Hs Hrun. split; [by eapply RetireLease_service|].
  destruct (RetireLease_Ok _ _ _ _ _ _ _ _ (service_quota _ Hs) Hrun)
    as (l & r & e & Hl & Hr & He & _ & _ & [[Hc ->]|[(Hc & _ & ->)|(Hc & _ & ->)]]); simpl;
    (split; [done|]; split; [done|]; split; [done|]; split); try (by eauto);
    try (intros x Hne; by rewrite lookup_insert_ne); exists (close_reservation r); rewrite lookup_insert_eq; done.
Qed.

Lemma retirement_hint_reads (P : Panel -> Prop) node ruleID leaseID raw : keeps P (retirement_hint node ruleID leaseID raw).
Proof. unfold retirement_hint. keeps_walk; auto. Qed.

Lemma add_retirement_Ok k row env p t u p' t' :
  add_retirement k row env p t = (Ok (u, p'), t') ->
  retirements p !! k = None /\ p' = set_retirements (<[k := row]> (retirements p)) p.
Proof. unfold add_retirement. intros Hrun. tx_inv Hrun. by apply bool_decide_eq_true in Hg. Qed.

(** What a first retirement does: the row is added, the shop closes the
    reservation of a lease that was paid for, and nothing else moves. *)
Record retires (node leaseID : string) (l : rule_lease) (p p' : Panel) : Prop := {
  re_row : exists at_, retirements p' = <[leaseID := {| rt_used := rl_spent l; rt_at := at_ |}]> (retirements p);
  re_leases : rule_leases p' = rule_leases p;
  re_usage : cp_usage p' = cp_usage p;
  re_payloads : payloads p' = payloads p;
  re_shop : exists d1, beside_desk d1 (shop p') /\ entitlements (shop p') = entitlements d1 /\
    (if String.eqb (rl_ent l) "admin-test" then d1 = shop p
     else exists env t t', RetireLease node leaseID (rl_spent l) env (shop p) t = (Ok (tt, d1), t'))
}.

(** The retirement of the lease in the shop, when it was paid for. *)
Lemma retired_after node leaseID l d1 p at_ :
  service_inv (shop p) -> desk_inv p -> rule_leases p !! leaseID = Some l -> retirements p !! leaseID = None ->
  (if String.eqb (rl_ent l) "admin-test" then d1 = shop p
   else exists env t t', RetireLease node leaseID (rl_spent l) env (shop p) t = (Ok (tt, d1), t')) ->
  desk_inv (set_retirements (<[leaseID := {| rt_used := rl_spent l; rt_at := at_ |}]> (retirements p)) (set_shop d1 p)).
Proof.
  intros Hs Hd Hl Hr Hd1. destruct (String.eqb (rl_ent l) "admin-test") eqn:E; bool_to_prop.
  - subst d1. by apply retired_inv.
  - destruct Hd1 as (env & t & t' & Hret).
    destruct (RetireLease_desk _ _ _ _ _ _ _ _ Hs Hret) as (_ & A2 & A3 & A4 & A5 & A6). by apply retired_inv.
Qed.

Lemma bumped_retires node leaseID l d1 at_ p env t u p' t' :
  (if String.eqb (rl_ent l) "admin-test" then d1 = shop p
   else exists env t t', RetireLease node leaseID (rl_spent l) env (shop p) t = (Ok (tt, d1), t')) ->
  bump_version node env
    (set_retirements (<[leaseID := {| rt_used := rl_spent l; rt_at := at_ |}]> (retirements p)) (set_shop d1 p)) t
    = (Ok (u, p'), t') -> retires node leaseID l p p'.
Proof.
  intros Hd1 Hb. unfold bump_version in Hb. apply tx_bind_Ok in Hb as (n & p5 & t6 & Hb & Hb').
  apply mret_Ok in Hb' as (_ & -> & _). apply in_shop_Ok in Hb as (d2 & Hb & ->).
  split; simpl; eauto. exists d1. apply UPDATE_Ok in Hb as [(v & _ & _ & _ & ->)|(_ & _ & ->)]; done.
Qed.

Lemma retireLease_Ok node leaseID used header config env p t hint p' t' :
  panel_inv p -> retireLease shop_options node leaseID used header config env p t = (Ok (hint, p'), t') ->
  panel_inv p' /\
  exists l, rule_leases p !! leaseID = Some l /\ rl_node l = node /\ rl_spent l = used /\
    ((exists r, retirements p !! leaseID = Some r /\ rt_used r = used /\ p' = p /\ hint = no_hint) \/
     (retirements p !! leaseID = None /\ retires node leaseID l p p')).
Proof.
  intros [Hs Hd] Hrun. unfold retireLease in Hrun. destruct (used <? 0); [done|].
  apply tx_bind_Ok in Hrun as (o1 & p1 & t1 & H1 & Hrun). apply gets_Ok in H1 as (-> & -> & ->).
  apply tx_bind_Ok in Hrun as (l & p1 & t1 & H1 & Hrun). apply or_fail_Ok in H1 as (Hl & -> & ->).
  destruct (_ || _) eqn:Hc; [done|]. bool_to_prop. subst used node.
  apply tx_bind_Ok in Hrun as (previous & p1 & t1 & H1 & Hrun). apply gets_Ok in H1 as (-> & -> & ->).
  destruct (retirements p !! leaseID) as [r|] eqn:Hr.
  { destruct (negb _) eqn:E; [done|]. bool_to_prop. apply mret_Ok in Hrun as (-> & -> & _). split; [done|].
    exists l. eauto 10. }
  apply tx_bind_Ok in Hrun as (hint1 & p1 & t1 & H1 & Hrun).
  pose proof (retirement_hint_reads (fun q => q = p) _ _ _ _ _ _ _ _ _ _ H1 eq_refl) as ->.
  apply tx_bind_Ok in Hrun as (u & p2 & t2 & Hret & Hrun).
  assert (Hcase : exists d1, p2 = set_shop d1 p /\ service_inv d1 /\
    (if String.eqb (rl_ent l) "admin-test" then d1 = shop p
     else exists env t t', RetireLease (rl_node l) leaseID (rl_spent l) env (shop p) t = (Ok (tt, d1), t'))).
  { destruct (String.eqb (rl_ent l) "admin-test") eqn:E; bool_to_prop.
    - apply mret_Ok in Hret as (_ & -> & _). exists (shop p). by rewrite set_shop_same.
    - cbn [shop_options opt_RetireLease] in Hret. apply in_shop_Ok in Hret as (d1 & Hret & ->). destruct u.
      exists d1. split; [done|]. split; [|eauto]. by apply (RetireLease_service _ _ _ _ _ _ _ _ _ Hret). }
  destruct Hcase as (d1 & -> & Hs1 & Hd1).
  apply tx_bind_Ok in Hrun as (now & p3 & t3 & Hnow & Hrun). apply Now_Ok in Hnow as ->.
  apply tx_bind_Ok in Hrun as (u1 & p3 & t4 & Hadd & Hrun). apply add_retirement_Ok in Hadd as [_ ->].
  apply tx_bind_Ok in Hrun as (u2 & p4 & t5 & Hb & Hrun). apply mret_Ok in Hrun as (-> & -> & _).
  split.
  - eapply bump_version_keeps; [exact Hb|]. split; [exact Hs1|].
    exact (retired_after _ _ _ d1 p _ Hs Hd Hl Hr Hd1).
  - exists l. do 3 (split; [done|]). right. split; [done|].
    exact (bumped_retires _ _ _ d1 _ p _ _ _ _ _ Hd1 Hb).
Qed.

(** ** Taking in usage keeps the books *)

Definition with_spent (n : Z) (l : rule_lease) : rule_lease :=
  {| rl_rule := rl_rule l; rl_node := rl_node l; rl_ent := rl_ent l; rl_bytes := rl_bytes l; rl_spent := n;
     rl_until := rl_until l |}.
(** The bytes a list of records brings to a lease. *)
Definition brought (k : string) (records : list UsageRecord) : Z :=
  sum_over (fun u => at_key (U_LeaseID u) k (raw_bytes u)) records.

Lemma brought_nonneg k records : Forall (fun u => 0 <= raw_bytes u) records -> 0 <= brought k records.
Proof.
  intros H. apply sum_over_nonneg. rewrite Forall_forall in H. intros u Hu. unfold at_key.
  destruct (String.eqb _ _); [by apply H|done].
Qed.

(** What the checks of a batch establish. *)
Record taken (node : string) (p : Panel) (records : list UsageRecord) (from spent : gmap string Z) : Prop := {
  tk_record u : u ∈ records -> exists l, rule_leases p !! U_LeaseID u = Some l /\ retirements p !! U_LeaseID u = None /\
    rl_rule l = U_RuleID u /\ rl_node l = node /\ rl_ent l = U_EntitlementID u /\ Unix (U_EndedAt u) <= rl_until l;
  tk_spent k l : rule_leases p !! k = Some l ->
    default (rl_spent l) (spent !! k) = default (rl_spent l) (from !! k) + brought k records;
  tk_bound k n : spent !! k = Some n -> from !! k = Some n \/
    exists l, rule_leases p !! k = Some l /\ 0 <= n <= rl_bytes l /\ retirements p !! k = None
}.

Lemma take_records_taken node p records : forall from spent,
  Forall (fun u => 0 <= raw_bytes u) records ->
  take_records node p records from = Ok spent -> taken node p records from spent.
Proof.
  induction records as [|u records IH]; intros from spent Hraw; cbn [take_records].
  { intros [= <-]. split; [set_solver|intros; unfold brought; simpl; lia|auto]. }
  apply Forall_cons in Hraw as [Hu Hraw]. destruct (take_record node p u from) as [mid|] eqn:E; [|done].
  intros Hrun. apply (IH _ _ Hraw) in Hrun. unfold take_record in E.
  destruct (rule_leases p !! U_LeaseID u) as [l|] eqn:Hl; [|done].
  destruct (_ || _) eqn:E1 in E; [done|]. destruct (_ || _) eqn:E2 in E; [done|]. injection E as <-.
  unfold retired_in in E1. bool_to_prop.
  assert (Hret : retirements p !! U_LeaseID u = None) by (destruct (retirements p !! _) eqn:X; [exfalso; eauto|done]).
  destruct Hrun as [T1 T2 T3]. split.
  - intros v [->|Hv]%elem_of_cons; [|auto]. exists l. auto 10.
  - intros k r Hr. rewrite (T2 _ _ Hr). unfold brought. cbn [sum_over]. unfold at_key at 2.
    destruct (String.eqb (U_LeaseID u) k) eqn:Ek; bool_to_prop.
    + subst k. rewrite Hl in Hr. injection Hr as <-. rewrite lookup_insert_eq. simpl. lia.
    + rewrite lookup_insert_ne by done. lia.
  - intros k n Hn. destruct (T3 _ _ Hn) as [Hf|?]; [|auto]. apply lookup_insert_Some in Hf as [[<- <-]|[_ Hf]]; [|auto].
    right. exists l. split; [done|]. split; [lia|done].
Qed.

(** The counters after [BulkCounter]. *)
Lemma bump_all_Ok before l : forall env p t u p' t',
  NoDup l.*1 -> (forall k n, (k, n) ∈ l -> rule_leases p !! k = before !! k /\ is_Some (before !! k)) ->
  for_each l (bump_spent before) env p t = (Ok (u, p'), t') ->
  exists m, p' = set_rule_leases m p /\
    (forall k n, (k, n) ∈ l -> m !! k = with_spent n <$> rule_leases p !! k) /\
    (forall k, k ∉ l.*1 -> m !! k = rule_leases p !! k).
Proof.
  induction l as [|[k n] l IH]; intros env p t u p' t' Hnd Hin Hrun; cbn [for_each] in Hrun.
  { apply mret_Ok in Hrun as (_ & -> & _). exists (rule_leases p). split; [by destruct p|]. split; [set_solver|done]. }
  rewrite fmap_cons in Hnd |- *. cbn [fst] in Hnd |- *. apply NoDup_cons in Hnd as [Hk Hnd].
  destruct (Hin k n ltac:(set_solver)) as [Hb [row Hrow]]. rewrite Hrow in Hb.
  apply tx_bind_Ok in Hrun as (u1 & p1 & t1 & H1 & Hrun).
  assert (Hp1 : p1 = set_rule_leases (<[k := with_spent n row]> (rule_leases p)) p).
  { unfold bump_spent in H1. simpl in H1. rewrite Hrow in H1. destruct (n =? rl_spent row) eqn:En; bool_to_prop.
    - apply mret_Ok in H1 as (_ & -> & _). subst n. replace (with_spent (rl_spent row) row) with row by (by destruct row).
      rewrite insert_id by done. by destruct p.
    - apply tx_bind_Ok in H1 as (q & p2 & t2 & Hq & H1). apply gets_Ok in Hq as (-> & -> & ->). rewrite Hb in H1.
      tx_inv H1. unfold with_spent. do 3 f_equal. lia. }
  subst p1. edestruct IH as (m & -> & H2 & H3); [exact Hnd| |exact Hrun|].
  { intros k' n' Hk'. destruct (Hin k' n' ltac:(set_solver)) as [Ha Hb']. split; [|done]. simpl.
    rewrite lookup_insert_ne; [done|]. intros ->. apply Hk. apply list_elem_of_fmap. by exists (k', n'). }
  exists m. split; [by destruct p|]. split.
  - intros k' n' Hkn. apply elem_of_cons in Hkn as [[= -> ->]|Hkn].
    + rewrite (H3 k Hk). simpl. by rewrite lookup_insert_eq, Hb.
    + rewrite (H2 _ _ Hkn). simpl. rewrite lookup_insert_ne; [done|]. intros ->. apply Hk. apply list_elem_of_fmap. by exists (k', n').
  - intros k' Hk'. rewrite H3 by set_solver. simpl. rewrite lookup_insert_ne; [done|set_solver].
Qed.

(** The rows of [cp_usage] are added one by one. *)
Lemma add_all_Ok rows : forall env p t u p' t',
  for_each rows add_cp_usage env p t = (Ok (u, p'), t') ->
  exists m, p' = set_cp_usage m p /\ cp_usage p ⊆ m /\ (forall kr, kr ∈ rows -> m !! kr.1 = Some kr.2) /\
    (forall k r, m !! k = Some r -> cp_usage p !! k = Some r \/ (k, r) ∈ rows) /\
    (forall k, spent_of k m = spent_of k (cp_usage p) + sum_over (fun kr => at_key (cu_lease kr.2) k (raw_bytes (cu_payload kr.2))) rows).
Proof.
  induction rows as [|[k r] rows IH]; intros env p t u p' t' Hrun; cbn [for_each] in Hrun.
  { apply mret_Ok in Hrun as (_ & -> & _). exists (cp_usage p). split; [by destruct p|]. split; [done|].
    split; [set_solver|]. split; [auto|]. intros k. simpl. lia. }
  apply tx_bind_Ok in Hrun as (u1 & p1 & t1 & H1 & Hrun). unfold add_cp_usage in H1. cbn [fst snd] in H1. tx_inv H1.
  apply bool_decide_eq_true in Hg. apply IH in Hrun as (m & -> & H2 & H3 & H4 & H5). simpl in *.
  exists m. split; [by destruct p|]. split; [|split; [|split]].
  - etrans; [|exact H2]. by apply insert_subseteq.
  - intros kr [->|Hkr]%elem_of_cons; [|auto]. simpl. eapply lookup_weaken; [|exact H2]. apply lookup_insert_eq.
  - intros k' r' Hm. destruct (H4 _ _ Hm) as [Hi|Hi]; [|right; set_solver].
    apply lookup_insert_Some in Hi as [[<- <-]|[_ Hi]]; [right; set_solver|auto].
  - intros k'. rewrite H5. unfold spent_of at 1. rewrite map_sum_insert_None by done. fold (spent_of k' (cp_usage p)). lia.
Qed.

Lemma valid_usage_raw u : valid_usage u = true -> 0 <= raw_bytes u <= MaxInt64.
Proof. unfold valid_usage, raw_bytes. intros H. apply negb_true_iff in H. bool_to_prop. lia. Qed.

(** A batch without its repetitions. *)
Record deduped (node : string) (records : list UsageRecord) (seen : gmap string UsageRecord) (l : list UsageRecord) : Prop := {
  de_valid u : u ∈ l -> ValidWindowMetadata u = true /\ valid_usage u = true /\ U_NodeID u = node;
  de_nodup : NoDup (U_ID <$> l);
  de_new u : u ∈ l -> seen !! U_ID u = None;
  de_all u : u ∈ records -> u ∈ l \/ seen !! U_ID u = Some u;
  de_in u : u ∈ l -> u ∈ records
}.
Lemma unique_records_Ok node records : forall seen env p t l p' t',
  unique_records node records seen env p t = (Ok (l, p'), t') -> p' = p /\ deduped node records seen l.
Proof.
  induction records as [|u records IH]; intros seen env p t l p' t' Hrun; cbn [unique_records] in Hrun.
  { apply mret_Ok in Hrun as (-> & -> & _). split; [done|]. split; try set_solver. constructor. }
  destruct (negb (ValidWindowMetadata u)) eqn:E1; [done|]. destruct (_ || _) eqn:E2; [done|]. bool_to_prop.
  apply tx_bind_Ok in Hrun as (now & p1 & t1 & Hn & Hrun). apply Now_Ok in Hn as ->.
  destruct (_ <? _); [done|]. destruct (seen !! U_ID u) as [old|] eqn:Hs.
  - destruct (negb (bool_decide (old = u))) eqn:E; [done|]. bool_to_prop. subst old.
    apply IH in Hrun as [-> []]. split; [done|]. split; try done; [|set_solver].
    intros v [->|Hv]%elem_of_cons; auto.
  - apply tx_bind_Ok in Hrun as (l' & p1 & t2 & Hr & Hrun). apply mret_Ok in Hrun as (-> & -> & _).
    apply IH in Hr as [-> []]. split; [done|]. split.
    + intros v [->|Hv]%elem_of_cons; auto.
    + rewrite fmap_cons. apply NoDup_cons. split; [|done]. intros Hin.
      apply list_elem_of_fmap in Hin as (v & Hv & Hin). apply de_new0 in Hin. rewrite <- Hv, lookup_insert_eq in Hin. done.
    + intros v [->|Hv]%elem_of_cons; [done|]. specialize (de_new0 _ Hv). by apply lookup_insert_None in de_new0 as [? _].
    + intros v [->|Hv]%elem_of_cons; [left; set_solver|]. destruct (de_all0 _ Hv) as [?|Hi]; [left; set_solver|].
      apply lookup_insert_Some in Hi as [[_ ->]|[_ Hi]]; [left; set_solver|auto].
    + intros v [->|Hv]%elem_of_cons; set_solver.
Qed.

Lemma usage_entries_Ok node records : forall env p t l p' t',
  usage_entries node records env p t = (Ok (l, p'), t') -> p' = p /\
  (fun kr => (kr.1, cu_payload kr.2, cu_lease kr.2)) <$> l = (fun u => (U_ID u, u, U_LeaseID u)) <$> records.
Proof.
  induction records as [|u records IH]; intros env p t l p' t' Hrun; cbn [usage_entries] in Hrun.
  { by apply mret_Ok in Hrun as (-> & -> & _). }
  apply tx_bind_Ok in Hrun as (now & p1 & t1 & Hn & Hrun). apply Now_Ok in Hn as ->.
  apply tx_bind_Ok in Hrun as (l' & p1 & t2 & Hr & Hrun). apply mret_Ok in Hrun as (-> & -> & _).
  apply IH in Hr as [-> Hl]. split; [done|]. rewrite !fmap_cons. f_equal. exact Hl.
Qed.

(** Settlement inside the intake. *)
Lemma settle_commercial_Ok records env p t u p' t' :
  service_inv (shop p) -> settle_commercial shop_options records env p t = (Ok (u, p'), t') ->
  exists d', p' = set_shop d' p /\ service_inv d' /\ settled records (shop p) d' /\ usage (shop p) ⊆ usage d' /\
    (forall r, r ∈ records -> exists row, usage d' !! U_ID r = Some row /\ us_payload row = r).
Proof.
  intros Hs Hrun. destruct records as [|r0 records].
  { unfold settle_commercial in Hrun. apply mret_Ok in Hrun as (_ & -> & _). exists (shop p). rewrite set_shop_same. split; [done|]. split; [done|].
    split; [by split; auto|]. split; [done|]. intros r Hr. by apply elem_of_nil in Hr. }
  unfold settle_commercial in Hrun. cbn [shop_options opt_Entitlements es_SettleBatch] in Hrun.
  apply in_shop_Ok in Hrun as (d' & Hrun & ->). exists d'. split; [done|].
  split; [by apply (Settle_service _ _ _ _ _ _ _ Hrun)|].
  split; [apply (Settle_settled _ _ _ _ _ _ _ _ Hrun); by split; auto|].
  by apply (Settle_Ok _ _ _ _ _ _ _ (service_quota _ Hs) Hrun).
Qed.

Lemma sum_over_fmap {A B} (f : B -> Z) (g : A -> B) (l : list A) : sum_over (fun x => f (g x)) l = sum_over f (g <$> l).
Proof. induction l as [|x l IH]; [done|]. rewrite fmap_cons. simpl. by rewrite IH. Qed.

Lemma entries_brought k (rows : list (string * cp_usage_row)) (records : list UsageRecord) :
  (fun kr => (kr.1, cu_payload kr.2, cu_lease kr.2)) <$> rows = (fun u => (U_ID u, u, U_LeaseID u)) <$> records ->
  sum_over (fun kr : string * cp_usage_row => at_key (cu_lease kr.2) k (raw_bytes (cu_payload kr.2))) rows = brought k records.
Proof.
  intros He. unfold brought.
  transitivity (sum_over (fun x : string * UsageRecord * string => at_key x.2 k (raw_bytes x.1.2))
    ((fun kr : string * cp_usage_row => (kr.1, cu_payload kr.2, cu_lease kr.2)) <$> rows)).
  - symmetry. by rewrite <- sum_over_fmap.
  - rewrite He. by rewrite <- sum_over_fmap.
Qed.
Lemma entries_in (rows : list (string * cp_usage_row)) (records : list UsageRecord) k r :
  (fun kr => (kr.1, cu_payload kr.2, cu_lease kr.2)) <$> rows = (fun u => (U_ID u, u, U_LeaseID u)) <$> records ->
  (k, r) ∈ rows -> cu_payload r ∈ records /\ k = U_ID (cu_payload r) /\ cu_lease r = U_LeaseID (cu_payload r).
Proof.
  intros He Hin.
  assert (Hx : (k, cu_payload r, cu_lease r) ∈ (fun u => (U_ID u, u, U_LeaseID u)) <$> records).
  { rewrite <- He. apply list_elem_of_fmap. by exists (k, r). }
  apply list_elem_of_fmap in Hx as (u & [= -> -> ->] & Hu). done.
Qed.
Lemma entries_of (rows : list (string * cp_usage_row)) (records : list UsageRecord) u :
  (fun kr => (kr.1, cu_payload kr.2, cu_lease kr.2)) <$> rows = (fun u => (U_ID u, u, U_LeaseID u)) <$> records ->
  u ∈ records -> exists r, (U_ID u, r) ∈ rows /\ cu_payload r = u /\ cu_lease r = U_LeaseID u.
Proof.
  intros He Hin.
  assert (Hx : (U_ID u, u, U_LeaseID u) ∈ (fun kr : string * cp_usage_row => (kr.1, cu_payload kr.2, cu_lease kr.2)) <$> rows).
  { rewrite He. apply list_elem_of_fmap. eauto. }
  apply list_elem_of_fmap in Hx as ([k r] & [= -> Hp Hl] & Hr). exists r. simpl in *. auto.
Qed.

(** The desk after a batch: counters, the settled shop and the new rows. *)
Section Intake.
Context (node : string) (p : Panel) (fresh : list UsageRecord) (spent : gmap string Z)
  (m1 : gmap string rule_lease) (d2 : DB) (m3 : gmap string cp_usage_row) (rows : list (string * cp_usage_row)).
Context (Hp : panel_inv p) (Htk : taken node p fresh ∅ spent)
  (Hnew : forall u, u ∈ fresh -> cp_usage p !! U_ID u = None)
  (Hm1 : forall k, m1 !! k = (fun l => with_spent (default (rl_spent l) (spent !! k)) l) <$> rule_leases p !! k)
  (Hs2 : service_inv d2)
  (Hset : settled (filter (fun u => Is_true (commercial p u)) fresh) (shop p) d2)
  (Husage : usage (shop p) ⊆ usage d2)
  (Hrow2 : forall r, r ∈ filter (fun u => Is_true (commercial p u)) fresh ->
     exists row, usage d2 !! U_ID r = Some row /\ us_payload row = r)
  (Hent : (fun kr => (kr.1, cu_payload kr.2, cu_lease kr.2)) <$> rows = (fun u => (U_ID u, u, U_LeaseID u)) <$> fresh)
  (Hsub : cp_usage p ⊆ m3)
  (Hrows : forall kr, kr ∈ rows -> m3 !! kr.1 = Some kr.2)
  (Honly : forall k r, m3 !! k = Some r -> cp_usage p !! k = Some r \/ (k, r) ∈ rows)
  (Hspent : forall k, spent_of k m3 = spent_of k (cp_usage p) + sum_over (fun kr => at_key (cu_lease kr.2) k (raw_bytes (cu_payload kr.2))) rows).

Lemma intake_lease k l : m1 !! k = Some l ->
  exists l0, rule_leases p !! k = Some l0 /\ l = with_spent (default (rl_spent l0) (spent !! k)) l0.
Proof using Hm1. rewrite Hm1. destruct (rule_leases p !! k) as [l0|]; [|done]. intros [= <-]. eauto. Qed.
Lemma intake_known k : is_Some (rule_leases p !! k) -> is_Some (m1 !! k).
Proof using Hm1. intros [l Hl]. rewrite Hm1, Hl. by eexists. Qed.
Lemma intake_terms k c : leases d2 !! k = Some c -> exists c0, leases (shop p) !! k = Some c0 /\ terms c = terms c0.
Proof using Hset.
  intros Hc. pose proof (se_leases _ _ _ Hset k) as He. rewrite Hc in He. simpl in He.
  destruct (leases (shop p) !! k) as [c0|]; [|done]. injection He as He. exists c0. split; [done|]. unfold terms. congruence.
Qed.
Lemma intake_terms' k c : leases (shop p) !! k = Some c -> exists c2, leases d2 !! k = Some c2 /\ terms c2 = terms c.
Proof using Hset.
  intros Hc. pose proof (se_leases _ _ _ Hset k) as He. rewrite Hc in He. simpl in He.
  destruct (leases d2 !! k) as [c0|]; [|done]. injection He as He. exists c0. split; [done|]. unfold terms. congruence.
Qed.
Lemma commercial_paid u l : rule_leases p !! U_LeaseID u = Some l -> commercial p u = true <-> paid l.
Proof using. intros Hl. unfold commercial, paid. rewrite Hl. rewrite negb_true_iff. apply String.eqb_neq. Qed.

Lemma intake_settled k u l : m3 !! k = Some u -> m1 !! cu_lease u = Some l -> paid l ->
  exists row, usage d2 !! k = Some row /\ us_payload row = cu_payload u /\ us_lease row = cu_lease u.
Proof.
  destruct Hp as [_ Hd]. intros Hu Hl Hpl. destruct (intake_lease _ _ Hl) as (l0 & Hl0 & ->). destruct (Honly _ _ Hu) as [Ho|Ho].
    + destruct (dk_settled _ Hd _ _ _ Ho Hl0 Hpl) as (row & H1 & H2). exists row. split; [by eapply lookup_weaken|done].
    + destruct (entries_in _ _ _ _ Hent Ho) as (H1 & -> & Hle). rewrite Hle in Hl0.
      assert (Hf : cu_payload u ∈ filter (fun u => Is_true (commercial p u)) fresh).
      { apply list_elem_of_filter. split; [|done]. apply Is_true_eq_left. by apply (commercial_paid _ _ Hl0). }
      destruct (Hrow2 _ Hf) as (row & Hrow & Hpay). exists row. split; [done|]. split; [done|].
      destruct (se_usage _ _ _ Hset _ _ Hrow) as [Hold|(_ & _ & He)]; [|congruence].
      destruct (dk_taken _ Hd _ _ Hold) as (u' & _ & Hu' & _). rewrite (Hnew _ H1) in Hu'. done.
Qed.
Lemma intake_taken k row : usage d2 !! k = Some row ->
  exists u l, m3 !! k = Some u /\ cu_payload u = us_payload row /\ cu_lease u = us_lease row /\ m1 !! cu_lease u = Some l /\ paid l.
Proof.
  destruct Hp as [_ Hd]. intros Hrow. destruct (se_usage _ _ _ Hset _ _ Hrow) as [Hold|(-> & Hin & Hle)].
    + destruct (dk_taken _ Hd _ _ Hold) as (u & l & H1 & H2 & H3 & H4 & H5). exists u, (with_spent (default (rl_spent l) (spent !! cu_lease u)) l).
      split; [by eapply lookup_weaken|]. split; [done|]. split; [done|]. rewrite Hm1, H4. done.
    + apply list_elem_of_filter in Hin as [Hcm Hin]. apply Is_true_eq_true in Hcm.
      destruct (entries_of _ _ _ Hent Hin) as (r & Hr & Hpay & Hlr). destruct (tk_record _ _ _ _ _ Htk _ Hin) as (l & Hl & _).
      exists r, (with_spent (default (rl_spent l) (spent !! cu_lease r)) l). split; [by apply (Hrows _ Hr)|].
      split; [done|]. split; [congruence|]. rewrite Hm1, Hlr, Hl. split; [done|]. by apply (commercial_paid _ _ Hl).
Qed.

Lemma intake_inv : panel_inv (set_cp_usage m3 (set_shop d2 (set_rule_leases m1 p))).
Proof.
  destruct Hp as [_ Hd]. split; [exact Hs2|]. split; simpl.
  - intros k l Hl. destruct (intake_lease _ _ Hl) as (l0 & Hl0 & ->). simpl.
    destruct (spent !! k) as [n|] eqn:En; simpl; [|by apply (dk_bounds _ Hd _ _ Hl0)].
    destruct (tk_bound _ _ _ _ _ Htk _ _ En) as [Hf|(l' & Hl' & Hb & _)]; [by rewrite lookup_empty in Hf|]. congruence.
  - intros k l Hl. destruct (intake_lease _ _ Hl) as (l0 & Hl0 & ->). simpl.
    rewrite (tk_spent _ _ _ _ _ Htk _ _ Hl0), lookup_empty. simpl.
    rewrite (dk_spent _ Hd _ _ Hl0), Hspent, (entries_brought _ _ _ Hent). done.
  - intros k u Hu. destruct (Honly _ _ Hu) as [Ho|Ho].
    + destruct (dk_usage _ Hd _ _ Ho) as (H1 & H2 & H3). split; [done|]. split; [done|]. by apply intake_known.
    + destruct (entries_in _ _ _ _ Hent Ho) as (H1 & -> & ->). split; [done|]. split; [done|]. apply intake_known.
      destruct (tk_record _ _ _ _ _ Htk _ H1) as (l & Hl & _). eauto.
  - intros k l Hl Hpl. destruct (intake_lease _ _ Hl) as (l0 & Hl0 & ->).
    destruct (dk_backed _ Hd _ _ Hl0 Hpl) as (c & Hc & Hb). destruct (intake_terms' _ _ Hc) as (c2 & Hc2 & Ht).
    exists c2. split; [done|]. unfold terms in Ht. injection Ht as ? ? ? ? ? ? ?. unfold backs in *. simpl. intuition congruence.
  - intros k c Hc. destruct (intake_terms _ _ Hc) as (c0 & Hc0 & Ht). destruct (dk_listed _ Hd _ _ Hc0) as (l & Hl & He).
    rewrite Hm1, Hl. eexists. split; [reflexivity|]. unfold terms in Ht. injection Ht as ? ? ? ? ? ? ?. simpl. congruence.
  - exact intake_settled.
  - exact intake_taken.
  - intros k r Hr. destruct (dk_retired _ Hd _ _ Hr) as (l & Hl & Hu & Hc). exists (with_spent (default (rl_spent l) (spent !! k)) l).
    rewrite Hm1, Hl. split; [done|]. rewrite (se_reservations _ _ _ Hset). split; [|exact Hc]. simpl.
    destruct (spent !! k) as [n|] eqn:En; [|done].
    destruct (tk_bound _ _ _ _ _ Htk _ _ En) as [Hf|(l' & _ & _ & Hn)]; [by rewrite lookup_empty in Hf|]. congruence.
  - intros k rs. rewrite (se_reservations _ _ _ Hset). apply (dk_closed _ Hd).
  - apply (dk_payload _ Hd).
  - intros k rule Hr. unfold row_of. simpl. rewrite (se_rules _ _ _ Hset). by eapply (dk_row _ Hd).
  - intros k rule Hr l Hl. destruct (dk_published _ Hd _ _ Hr l Hl) as (row & H1 & H2 & H3 & H4 & H5 & H6 & c & Hc & Hu).
    eexists. simpl. rewrite Hm1, H1. split; [reflexivity|]. simpl. do 5 (split; [done|]). destruct (intake_terms' _ _ Hc) as (c2 & Hc2 & Ht). exists c2. split; [done|].
    unfold terms in Ht. injection Ht as ? ? ? ? ? ? ?. destruct Hu. split; congruence.
Qed.
End Intake.

(** What a batch does when it is accepted. *)
Record intake (node : string) (records : list UsageRecord) (p p' : Panel) : Prop := {
  ik_payloads : payloads p' = payloads p;
  ik_retired : retirements p' = retirements p;
  ik_fresh : exists fresh, NoDup (U_ID <$> fresh) /\ (forall u, u ∈ fresh <-> u ∈ records /\ cp_usage p !! U_ID u = None) /\
    forall k l, rule_leases p !! k = Some l -> rule_leases p' !! k = Some (with_spent (rl_spent l + brought k fresh) l);
  ik_usage : cp_usage p ⊆ cp_usage p';
  ik_rows r : r ∈ records -> exists row, cp_usage p' !! U_ID r = Some row /\ cu_payload row = r;
  ik_only k row : cp_usage p' !! k = Some row -> cp_usage p !! k = Some row \/ cu_payload row ∈ records;
  ik_lease u : u ∈ records -> cp_usage p !! U_ID u = None -> exists l, rule_leases p !! U_LeaseID u = Some l /\ rl_node l = node;
  ik_shop k : terms <$> leases (shop p') !! k = terms <$> leases (shop p) !! k
}.

Lemma spent_all (p : Panel) (spent : gmap string Z) (m1 : gmap string rule_lease) :
  (forall k n, (k, n) ∈ map_to_list spent -> m1 !! k = with_spent n <$> rule_leases p !! k) ->
  (forall k, k ∉ (map_to_list spent).*1 -> m1 !! k = rule_leases p !! k) ->
  forall k, m1 !! k = (fun l => with_spent (default (rl_spent l) (spent !! k)) l) <$> rule_leases p !! k.
Proof.
  intros H1 H2 k. destruct (spent !! k) as [n|] eqn:En; simpl.
  - by apply H1, elem_of_map_to_list.
  - rewrite H2.
    + destruct (rule_leases p !! k) as [l|]; [|done]. simpl. f_equal. by destruct l.
    + intros Hin. apply list_elem_of_fmap in Hin as ([k' n] & -> & Hin). apply elem_of_map_to_list in Hin. simpl in *. congruence.
Qed.

(** The new records of a batch. *)
Lemma take_in_Ok node fresh env p t u p' t' :
  panel_inv p -> Forall (fun v => 0 <= raw_bytes v) fresh -> (forall v, v ∈ fresh -> cp_usage p !! U_ID v = None) ->
  take_in shop_options node fresh env p t = (Ok (u, p'), t') ->
  panel_inv p' /\ payloads p' = payloads p /\ retirements p' = retirements p /\ cp_usage p ⊆ cp_usage p' /\
  (forall k l, rule_leases p !! k = Some l -> rule_leases p' !! k = Some (with_spent (rl_spent l + brought k fresh) l)) /\
  (forall v, v ∈ fresh -> exists row, cp_usage p' !! U_ID v = Some row /\ cu_payload row = v) /\
  (forall k row, cp_usage p' !! k = Some row -> cp_usage p !! k = Some row \/ cu_payload row ∈ fresh) /\
  (forall v, v ∈ fresh -> exists l, rule_leases p !! U_LeaseID v = Some l /\ rl_node l = node) /\
  (forall k, terms <$> leases (shop p') !! k = terms <$> leases (shop p) !! k).
Proof.
  intros Hp Hraw Hnew Hrun. pose proof Hp as [Hs Hd]. unfold take_in in Hrun.
  apply tx_bind_Ok in Hrun as (q & p1 & t3 & Hq & Hrun). apply gets_Ok in Hq as (-> & -> & ->).
  apply tx_bind_Ok in Hrun as (spent & p1 & t3 & Htk & Hrun). apply of_res_Ok in Htk as (Htk & -> & ->).
  apply take_records_taken in Htk; [|done].
  apply tx_bind_Ok in Hrun as (rows & p1 & t4 & Hrw & Hrun). apply usage_entries_Ok in Hrw as [-> Hent].
  apply tx_bind_Ok in Hrun as (u2 & p1 & t5 & Hb & Hrun).
  apply bump_all_Ok in Hb as (m1 & -> & Hb1 & Hb2); [|apply NoDup_fst_map_to_list|].
  2: { intros k n Hkn. split; [done|]. apply elem_of_map_to_list in Hkn.
       destruct (tk_bound _ _ _ _ _ Htk _ _ Hkn) as [Hf|(l & Hl & _)]; [by rewrite lookup_empty in Hf|eauto]. }
  apply tx_bind_Ok in Hrun as (u3 & p1 & t6 & Hst & Hrun).
  apply settle_commercial_Ok in Hst as (d2 & -> & Hs2 & Hset & Hus & Hr2); [|exact Hs].
  apply add_all_Ok in Hrun as (m3 & -> & Hsub & Hin & Honly & Hsp). cbn [shop set_rule_leases cp_usage set_shop] in *.
  pose proof (spent_all p spent m1 Hb1 Hb2) as Hm1.
  split; [by eapply intake_inv|]. cbn. do 3 (split; [done|]). split; [|split; [|split; [|split]]].
  - intros k l Hl. rewrite Hm1, Hl. cbn. by rewrite (tk_spent _ _ _ _ _ Htk _ _ Hl), lookup_empty.
  - intros v Hv. destruct (entries_of _ _ _ Hent Hv) as (row & Hrow & Hpay & _). exists row. split; [by apply (Hin _ Hrow)|done].
  - intros k row Hrow. destruct (Honly _ _ Hrow) as [?|Ho]; [by left|right]. by apply (entries_in _ _ _ _ Hent Ho).
  - intros v Hv. destruct (tk_record _ _ _ _ _ Htk _ Hv) as (l & Hl & _ & _ & Hn & _). eauto.
  - exact (se_leases _ _ _ Hset).
Qed.

Lemma persist_Ok node records env p t u p' t' :
  panel_inv p -> persistUsageBatch shop_options node records env p t = (Ok (u, p'), t') ->
  panel_inv p' /\ intake node records p p'.
Proof.
  intros Hp Hrun. unfold persistUsageBatch in Hrun. destruct (500 <? _); [done|].
  apply tx_bind_Ok in Hrun as (unique & p1 & t1 & Hu & Hrun). apply unique_records_Ok in Hu as [-> Hde].
  apply tx_bind_Ok in Hrun as (known & p1 & t2 & Hk & Hrun). apply gets_Ok in Hk as (-> & -> & ->).
  apply tx_bind_Ok in Hrun as (u1 & p1 & t2 & Hg & Hrun). apply guard_Ok in Hg as (Hg & -> & ->).
  rewrite forallb_forall in Hg. cbn zeta in Hrun. set (fresh := filter (fun u => cp_usage p !! U_ID u = None) unique) in Hrun.
  assert (Hcase : forall r, r ∈ records -> r ∈ fresh \/ exists row, cp_usage p !! U_ID r = Some row /\ cu_payload row = r).
  { intros r Hr. destruct (de_all _ _ _ _ Hde _ Hr) as [Hi|Hi]; [|by rewrite lookup_empty in Hi].
    specialize (Hg r ltac:(by apply list_elem_of_In)). destruct (cp_usage p !! U_ID r) as [row|] eqn:E.
    - right. exists row. split; [done|]. by apply bool_decide_eq_true in Hg.
    - left. by apply list_elem_of_filter. }
  assert (Hiff : forall v, v ∈ fresh <-> v ∈ records /\ cp_usage p !! U_ID v = None).
  { intros v. split; [intros [Hn Hv]%list_elem_of_filter; split; [by apply (de_in _ _ _ _ Hde)|done]|]. intros [Hv Hn].
    destruct (Hcase _ Hv) as [Hf|(row & Hrow & _)]; [done|congruence]. }
  assert (Hnd : NoDup (U_ID <$> fresh)).
  { eapply sublist_NoDup; [exact (de_nodup _ _ _ _ Hde)|apply fmap_sublist, sublist_filter]. }
  assert (Hraw : Forall (fun v => 0 <= raw_bytes v) fresh).
  { apply Forall_forall. intros v [_ Hv]%list_elem_of_filter. apply valid_usage_raw. by apply (de_valid _ _ _ _ Hde). }
  clearbody fresh. clear Hg Hde unique.
  destruct (bool_decide (fresh = [])) eqn:Ef.
  - apply bool_decide_eq_true in Ef. subst fresh. apply mret_Ok in Hrun as (_ & -> & _). split; [done|]. split; auto.
    + exists []. split; [done|]. split; [done|]. intros k l Hl. rewrite Hl. unfold brought. simpl. rewrite Z.add_0_r.
      f_equal. by destruct l.
    + intros r Hr. destruct (Hcase _ Hr) as [Hf|?]; [by apply elem_of_nil in Hf|done].
    + intros u0 Hu0 Hn. assert (Hf : u0 ∈ []) by (by apply Hiff). by apply elem_of_nil in Hf.
  - apply take_in_Ok in Hrun as (A1 & A2 & A3 & A4 & A5 & A6 & A7 & A8 & A9); [|done|done|by intros v Hv; apply Hiff].
    split; [done|]. split; eauto.
    + intros r Hr. destruct (Hcase _ Hr) as [Hf|(row & Hrow & Hpay)]; [auto|].
      exists row. split; [by eapply lookup_weaken|done].
    + intros k row Hrow. destruct (A7 _ _ Hrow) as [?|Hf]; [by left|right]. by apply Hiff.
    + intros v Hv Hn. apply A8. by apply Hiff.
Qed.
End Desk.
