(* ===== verification/DeskSystem.v ===== *)
(** * The panel as a whole

    The shop and the lease desk as one transition system: operations of the
    shop, operations of the desk, and any change the rest of the control
    plane makes to users, nodes, groups and rules (it may keep or drop the
    leases of a rule, never add one).  Every reachable panel satisfies
    [panel_inv]. *)

From S2P Require Import AgentState.
From S2P Require Import Prelude Tx GoStrings Calendar Rational PlanRules Schema Wallet Plans Quota Purchases Refunds Payments Commerce.
From S2P Require Import Desk DeskInv.
From stdpp Require Import base gmap strings list relations.
From Stdlib Require Import Ascii String.
Local Open Scope string_scope.
Local Open Scope Z_scope.

Definition empty_panel : Panel :=
  {| shop := empty_db; payloads := ∅; rule_leases := ∅; retirements := ∅; cp_usage := ∅; capabilities := ∅;
     groups := ∅; group_identities := []; user_identity := ∅ |}.

(** A rule as it may be written back: no lease that the stored rule does not
    have, and the same owner and node if it has any. *)
Definition inherits (p : Panel) (rule : PanelRule) : Prop :=
  forall l, l ∈ rule_leases_of rule -> exists old, payloads p !! PR_ID rule = Some old /\ l ∈ rule_leases_of old /\
    PR_UserID old = PR_UserID rule /\ PR_NodeID old = PR_NodeID rule.

(** What the checks of [saveRuleTx] leave: a new rule has no lease; a changed
    one keeps its place. *)
Definition savable (p : Panel) (create : bool) (rule : PanelRule) : Prop :=
  inherits p rule /\
  (create = false -> exists old, payloads p !! PR_ID rule = Some old /\
     PR_UserID old = PR_UserID rule /\ PR_NodeID old = PR_NodeID rule).

Section System.
Context {RS : RatSyntax}.

(** The rest of the control plane. *)
Record control (p p' : Panel) : Prop := {
  ct_shop : exists users rules nodes hooks deliv, shop p' = Commerce.platform users rules nodes hooks deliv (shop p);
  ct_leases : rule_leases p' = rule_leases p;
  ct_retired : retirements p' = retirements p;
  ct_usage : cp_usage p' = cp_usage p;
  ct_payload k rule : payloads p' !! k = Some rule -> PR_ID rule = k /\ row_of p' rule /\ inherits p rule
}.

Inductive pstep : Panel -> Panel -> Prop :=
  | ps_shop o env p : op_ok o -> lease_op o = false -> pstep p (set_shop (Write (exec o) env (shop p)).2 p)
  | ps_control p p' : control p p' -> pstep p p'
  | ps_store admin create port_free rule env p : savable p create rule ->
      pstep p (Write (store_rule shop_options admin create port_free rule) env p).2
  | ps_refresh owners node hint env p :
      pstep p (Write (refreshLeasesWithPrefetch shop_options owners node hint) env p).2
  | ps_prefetch node rule lease raw env p : pstep p (Write (prefetchLease shop_options node rule lease raw) env p).2
  | ps_retire node lease used header config env p :
      pstep p (Write (retireLease shop_options node lease used header config) env p).2
  | ps_usage node records env p : pstep p (Write (persistUsageBatch shop_options node records) env p).2.

Definition panel_reachable (p : Panel) : Prop := rtc pstep empty_panel p.

Lemma panel_empty : panel_inv empty_panel.
Proof. split; [apply service_empty|]. split; simpl; intros *; rewrite ?lookup_empty; done. Qed.

Lemma shop_step o env p : op_ok o -> lease_op o = false -> panel_inv p -> panel_inv (set_shop (Write (exec o) env (shop p)).2 p).
Proof.
  intros Ho Hl [Hs Hd]. split.
  - eapply (step_inv (shop p)); [by constructor|exact Hs].
  - apply desk_beside; [|done]. eapply keeps_Write; [by apply exec_beside|done].
Qed.

Lemma inherits_published p rule : desk_inv p -> inherits p rule -> all_published p rule.
Proof.
  intros Hd Hi l Hl. destruct (Hi l Hl) as (old & Ho & Hin & Hu & Hn).
  destruct (dk_published _ Hd _ _ Ho l Hin) as (row & H1 & H2 & H3 & H4). exists row.
  rewrite (dk_payload _ Hd _ _ Ho) in H2. rewrite <- Hu, <- Hn. auto.
Qed.

Lemma control_step p p' : control p p' -> panel_inv p -> panel_inv p'.
Proof.
  intros [Hsh Hl Hr Hu Hp] [Hs Hd]. destruct Hsh as (users & rules & nodes & hooks & deliv & Hsh). split.
  - rewrite Hsh. by eapply (step_inv (shop p)); [apply step_platform|].
  - pose proof (fun rule => inherits_published p rule Hd) as Hinh. destruct Hd.
    split; rewrite ?Hl, ?Hr, ?Hu; try (rewrite Hsh; done); try done.
    + intros k rule Hk. by apply (Hp k).
    + intros k rule Hk. by apply (Hp k).
    + intros k rule Hk l Hin. destruct (Hp _ _ Hk) as (_ & _ & Hi).
      destruct (Hinh _ Hi l Hin) as (row & Hrow). exists row. rewrite Hl, Hsh. exact Hrow.
Qed.

(** *** Saving a rule *)

Definition same_rule (r r' : PanelRule) : Prop :=
  PR_ID r' = PR_ID r /\ PR_UserID r' = PR_UserID r /\ PR_NodeID r' = PR_NodeID r.

Lemma fund_rule_Ok admin rule env p t rule' p' t' :
  panel_inv p -> all_published p rule -> fund_rule shop_options admin rule env p t = (Ok (rule', p'), t') ->
  panel_inv p' /\ grows p p' /\ all_published p' rule' /\ same_rule rule rule'.
Proof.
  intros Hp Ha Hrun. unfold fund_rule in Hrun. destruct (_ || _).
  { apply mret_Ok in Hrun as (-> & -> & _). split; [done|]. split; [reflexivity|]. by split. }
  apply tx_bind_Ok in Hrun as (l & p1 & t1 & Hf & Hrun).
  unfold first_lease in Hf. cbn [shop_options opt_Entitlements es_AllocateMultiplier] in Hf.
  apply in_shop_Ok in Hf as (d' & Hf & ->). apply (Allocate_grant _ _ _ _ _ _ _ _ _ _ _ (proj1 Hp)) in Hf.
  sql_run Hrun; try done.
  match goal with H : add_lease_row _ _ _ _ _ = _ |- _ => apply add_lease_row_Ok in H as [Hn ->] end.
  change (rule_leases (set_shop d' p)) with (rule_leases p) in *.
  pose proof (entered_grows _ _ _ _ _ _ Hf Hn) as Hg.
  split; [exact (entered_inv _ _ _ _ _ _ Hp Hf Hn)|]. split; [exact Hg|]. split; [|done].
  intros y. unfold rule_leases_of. simpl. intros Hx. apply elem_of_cons in Hx as [->|Hx].
  - exact (entered_published _ _ _ _ rule Hf eq_refl).
  - apply (published_grows _ _ rule y Hg). apply Ha. unfold rule_leases_of. by apply elem_of_app; right.
Qed.

(** A payload written over a row that is its own. *)
Lemma write_inv rule p : panel_inv p -> all_published p rule -> row_of p rule ->
  panel_inv (set_payloads (<[PR_ID rule := rule]> (payloads p)) p).
Proof.
  intros Hp Ha Hr. assert (HG : G p p) by (split; [done|reflexivity]). by destruct (G_payload _ rule p HG (conj Ha Hr)).
Qed.

(** A new row of [cp_rules]. *)
Lemma new_row_inv k row p : panel_inv p -> cp_rules (shop p) !! k = None ->
  panel_inv (set_shop (t_set Rules (<[k := row]>) (shop p)) p).
Proof.
  intros [Hs Hd] Hn. split; [exact Hs|]. pose proof (dk_row _ Hd) as Hrow. destruct Hd. split; simpl; try done.
  intros x rule Hr. destruct (Hrow _ _ Hr) as (r & H1 & H2). exists r. simpl. split; [|done].
  rewrite lookup_insert_ne; [done|]. intros Heq. rewrite Heq in Hn. congruence.
Qed.

Lemma all_nodes_keeps : keeps panel_inv (in_shop (UPDATE_all Nodes (fun _ _ => true) (fun v => v + 1))).
Proof.
  intros env p t u p' t' Hrun [Hs Hd]. apply in_shop_Ok in Hrun as (d' & Hrun & ->). apply UPDATE_all_Ok in Hrun as ->.
  split; [exact Hs|]. by apply desk_beside.
Qed.

Lemma store_Ok admin create port_free rule env p t u p' t' :
  panel_inv p -> savable p create rule ->
  store_rule shop_options admin create port_free rule env p t = (Ok (u, p'), t') -> panel_inv p'.
Proof.
  intros Hp [Hin Hold] Hrun. unfold store_rule, write_payload in Hrun. cbn zeta in Hrun.
  apply tx_bind_Ok in Hrun as (rule1 & p1 & t1 & Hf & Hrun).
  apply fund_rule_Ok in Hf as (Hp1 & Hg & Ha & Hid & Hu & Hn); [|done|exact (inherits_published _ _ (proj2 Hp) Hin)].
  simpl in Hid, Hu, Hn. apply tx_bind_Ok in Hrun as (u1 & p2 & t2 & Hw & Hrun).
  eapply all_nodes_keeps; [exact Hrun|]. destruct create.
  - apply tx_bind_Ok in Hw as (u2 & p3 & t3 & Hi & Hw). apply in_shop_Ok in Hi as (d' & Hi & ->).
    apply INSERT_Ok in Hi as (Hnew & _ & ->). apply tx_bind_Ok in Hw as (u3 & p3 & t4 & Hm & Hw).
    apply modify_Ok in Hm as [-> _]. apply guard_Ok in Hw as (_ & -> & _).
    apply write_inv; [by apply new_row_inv| |].
    + intros l Hl. destruct (Ha l Hl) as (row & Hrow). by exists row.
    + eexists. split; [apply lookup_insert_eq|]. by split.
  - apply tx_bind_Ok in Hw as (row & p3 & t3 & Hi & Hw). apply gets_Ok in Hi as (-> & -> & _).
    apply tx_bind_Ok in Hw as (u2 & p3 & t4 & Hgd & Hw). apply guard_Ok in Hgd as (_ & -> & _).
    apply modify_Ok in Hw as [-> _]. destruct (Hold eq_refl) as (old & Ho & Hou & Hon).
    apply write_inv; [done..|]. apply (row_of_grows _ _ _ Hg).
    destruct (dk_row _ (proj2 Hp) _ _ Ho) as (row & Hrow & H1 & H2). exists row.
    rewrite (dk_payload _ (proj2 Hp) _ _ Ho) in Hrow. rewrite Hid, Hu, Hn. split; [done|]. split; congruence.
Qed.

(** *** Reachable panels *)

Lemma pstep_inv p p' : pstep p p' -> panel_inv p -> panel_inv p'.
Proof.
  intros Hs Hp. destruct Hs.
  - by apply shop_step.
  - by eapply control_step.
  - unfold Write. destruct (store_rule _ _ _ _ _ _ _ _) as [[[u d]|e] t] eqn:E; [|done]. simpl. by eapply store_Ok.
  - eapply keeps_Write; [apply refresh_keeps|done].
  - eapply keeps_Write; [apply prefetch_keeps|done].
  - eapply keeps_Write; [|exact Hp]. intros env0 q t hint q' t' Hrun Hq. by apply (retireLease_Ok _ _ _ _ _ _ _ _ _ _ _ Hq Hrun).
  - eapply keeps_Write; [|exact Hp]. intros env0 q t u q' t' Hrun Hq. by apply (persist_Ok _ _ _ _ _ _ _ _ Hq Hrun).
Qed.

Lemma panel_reachable_inv p : panel_reachable p -> panel_inv p.
Proof.
  unfold panel_reachable. revert p. apply rtc_ind_r; [apply panel_empty|]. intros p p' _ Hs IH. by eapply pstep_inv.
Qed.
End System.
