(* ===== verification/DeskScenarios.v ===== *)
(** * A concrete run of the panel

    A node joins, alice buys a plan and saves a rule; the node asks for a
    standby, reports usage and retires the first lease; a refresh promotes
    the standby and refills it. *)

From S2P Require Import AgentState.
From S2P Require Import Prelude Tx GoStrings Calendar Digest Money Rational PlanRules Schema Wallet Plans Quota Purchases Refunds Payments Commerce Scenarios.
From S2P Require Import Desk DeskInv DeskSystem.
From stdpp Require Import base gmap strings list relations.
From Stdlib Require Import Ascii String.
Local Open Scope string_scope.
Local Open Scope Z_scope.

Definition demo_group : Group :=
  {| G_Type := "entry"; G_OwnerID := ""; G_DirectPolicy := ""; G_DisableUDP := None; G_BlockedProtocols := ["udp"];
     G_DisabledNetworks := []; G_DisabledTransports := []; G_Multiplier := "3/2" |}.
Definition desk_rule : PanelRule :=
  {| PR_ID := "rule"; PR_UserID := "alice"; PR_NodeID := "node"; PR_GroupID := "g"; PR_Network := "tcp";
     PR_Transport := "tls"; PR_Hops := []; PR_Enabled := true; PR_Version := 0; PR_ExitGroupID := "";
     PR_BillingMultiplier := "3/2"; PR_ExitUnavailable := false; PR_Lease := None; PR_Standby := None; PR_Rest := "" |}.

Definition desk_joined : Panel :=
  {| shop := Commerce.platform demo_users ∅ {[ "node" := 1 ]} ∅ ∅ empty_db; payloads := ∅; rule_leases := ∅;
     retirements := ∅; cp_usage := ∅; capabilities := {[ "node" := ["lease-set-v1"] ]}; groups := {[ "g" := demo_group ]};
     group_identities := [("g", "friends")]; user_identity := {[ "alice" := "friends" ]} |}.

(** The first seven operations of the shop's history: a referral, a recharge,
    a plan and its purchase. *)
Definition shop_run (l : list (Env * op)) (p : Panel) : Panel :=
  foldl (fun p eo => set_shop (Write (exec eo.2) eo.1 (shop p)).2 p) p l.
Definition desk_bought : Panel := shop_run (numbered (take 7 demo_history)) desk_joined.

Definition desk_saved : Panel := (Write (store_rule shop_options false true true desk_rule) (demo_env 20) desk_bought).2.
Definition desk_prefetched : Panel :=
  (Write (prefetchLease shop_options "node" "rule" "e20-1" 67108864) (demo_env 21) desk_saved).2.

Definition desk_usage : UsageRecord :=
  {| U_ID := "u1"; U_NodeID := "node"; U_RuleID := "rule"; U_LeaseID := "e20-1"; U_EntitlementID := "e6-0";
     U_StartedAt := 1700000021 * second; U_EndedAt := 1700000022 * second; U_UploadBytes := 1001; U_DownloadBytes := 0;
     U_Kind := ""; U_WindowID := ""; U_WindowSequence := 0 |}.
Definition desk_reported : Panel :=
  (Write (persistUsageBatch shop_options "node" [desk_usage; desk_usage]) (demo_env 22) desk_prefetched).2.
Definition desk_retired : Panel := (Write (retireLease shop_options "node" "e20-1" 1001 67108864 true) (demo_env 23) desk_reported).2.
Definition desk_hint : leaseRefillHint :=
  {| h_rule := "rule"; h_retired := "e20-1"; h_successor := "e21-3"; h_budget := 67108864 |}.
Definition desk_refreshed : Panel :=
  (Write (refreshLeasesWithPrefetch shop_options None "node" desk_hint) (demo_env 24) desk_retired).2.

(** Every operation of the run succeeds. *)
Example desk_answers :
  (Write (store_rule shop_options false true true desk_rule) (demo_env 20) desk_bought).1 = Ok tt /\
  (Write (prefetchLease shop_options "node" "rule" "e20-1" 67108864) (demo_env 21) desk_saved).1 = Ok "e21-3" /\
  (Write (persistUsageBatch shop_options "node" [desk_usage; desk_usage]) (demo_env 22) desk_prefetched).1 = Ok tt /\
  (Write (retireLease shop_options "node" "e20-1" 1001 67108864 true) (demo_env 23) desk_reported).1 = Ok desk_hint /\
  (Write (refreshLeasesWithPrefetch shop_options None "node" desk_hint) (demo_env 24) desk_retired).1 = Ok tt.
Proof. vm_compute. repeat split. Qed.

Lemma joined_reachable : panel_reachable desk_joined.
Proof.
  eapply rtc_l; [apply ps_control|apply rtc_refl]. split; try done.
  exists demo_users, ∅, {[ "node" := 1 ]}, ∅, ∅. done.
Qed.

Lemma shop_run_reachable l : forall p,
  Forall (fun eo : Env * op => op_ok eo.2 /\ lease_op eo.2 = false) l -> panel_reachable p -> panel_reachable (shop_run l p).
Proof.
  induction l as [|[env o] l IH]; intros p Hall Hp; [done|]. apply Forall_cons in Hall as [[H1 H2] Hall].
  apply IH; [done|]. eapply rtc_r; [exact Hp|]. by apply ps_shop.
Qed.
Lemma bought_reachable : panel_reachable desk_bought.
Proof. apply shop_run_reachable; [repeat constructor; done|apply joined_reachable]. Qed.
Lemma saved_reachable : panel_reachable desk_saved.
Proof. eapply rtc_r; [apply bought_reachable|]. apply ps_store. split; [|discriminate]. intros l Hl. by apply elem_of_nil in Hl. Qed.
Lemma prefetched_reachable : panel_reachable desk_prefetched.
Proof. eapply rtc_r; [apply saved_reachable|]. apply ps_prefetch. Qed.
Lemma reported_reachable : panel_reachable desk_reported.
Proof. eapply rtc_r; [apply prefetched_reachable|]. apply ps_usage. Qed.
Lemma retired_reachable : panel_reachable desk_retired.
Proof. eapply rtc_r; [apply reported_reachable|]. apply ps_retire. Qed.
Lemma refreshed_reachable : panel_reachable desk_refreshed.
Proof. eapply rtc_r; [apply retired_reachable|]. apply ps_refresh. Qed.
