(* ===== verification/DeskProgress.v ===== *)
(** * What the desk takes in, the shop settles

    Progress: a batch of usage that is within its leases is accepted by both
    halves of the panel.  The shop's settlement can refuse for more reasons
    than the desk checks (multipliers, reservations, overflow, counters that
    moved); in a panel whose books agree one of them is left: the shop has
    the expiry of a lease to the nanosecond, the desk in whole seconds. *)

From S2P Require Import AgentState.
From S2P Require Import Prelude Tx GoStrings Calendar Rational PlanRules Schema Wallet Plans Quota Purchases Refunds Payments Commerce.
From S2P Require Import Desk DeskInv.
From stdpp Require Import base gmap strings list.
From Stdlib Require Import Ascii String.
Local Open Scope string_scope.
Local Open Scope Z_scope.

Lemma filter_all {A} (P : A -> Prop) `{forall x, Decision (P x)} (l : list A) : (forall x, x ∈ l -> P x) -> filter P l = l.
Proof.
  induction l as [|x l IH]; intros Hp; [done|]. rewrite filter_cons_True by (apply Hp; set_solver). f_equal. apply IH. set_solver.
Qed.

Section Settlement.
Context {RS : RatSyntax}.

(** A record within a lease of the shop. *)
Definition within (ls : gmap string lease_row) (rs : gmap string reservation_row) (u : UsageRecord) : Prop :=
  exists l, ls !! U_LeaseID u = Some l /\ le_node l = U_NodeID u /\ le_rule l = U_RuleID u /\
    le_ent l = U_EntitlementID u /\ U_EndedAt u <= le_expires l /\
    (forall r, rs !! U_LeaseID u = Some r -> rs_closed r = 0).

Lemma distinct_all records : forall seen,
  Forall (fun u => ValidWindowMetadata u = true /\ valid_usage u = true /\ seen !! U_ID u = None) records ->
  NoDup (U_ID <$> records) -> distinct records seen = Ok records.
Proof.
  induction records as [|u records IH]; intros seen Hv Hnd; [done|]. cbn [distinct].
  apply Forall_cons in Hv as [(Hw & Hu & Hs) Hv]. rewrite fmap_cons in Hnd. apply NoDup_cons in Hnd as [Hn Hnd].
  rewrite Hw, Hu, Hs. cbn [negb]. rewrite IH; [done| |done]. rewrite Forall_forall in Hv |- *.
  intros v Hin. destruct (Hv v Hin) as (H1 & H2 & H3). split; [done|]. split; [done|]. rewrite lookup_insert_ne; [done|].
  intros He. apply Hn. rewrite He. apply list_elem_of_fmap. eauto.
Qed.

(** *** Locking *)

Definition opened (ls : gmap string lease_row) (rs : gmap string reservation_row) (k : string) (w : open_lease) : Prop :=
  exists l m, ls !! k = Some l /\ SetString (le_mult l) = Some m /\
    w = {| w_row := l; w_mult := m; w_closed := match rs !! k with Some r => rs_closed r | None => 0 end; w_used := le_used l |}.

Lemma lock_leases_runs ls rs records :
  (forall k l, ls !! k = Some l -> exists n d, SetString (le_mult l) = Some (n, d) /\ 0 < n /\ 0 < d) ->
  (forall u, u ∈ records -> is_Some (ls !! U_LeaseID u)) ->
  exists open, lock_leases ls rs records = Ok open /\
    (forall k w, open !! k = Some w -> opened ls rs k w) /\ (forall u, u ∈ records -> is_Some (open !! U_LeaseID u)).
Proof.
  intros Hm. induction records as [|u records IH]; intros Hin.
  { exists ∅. split; [done|]. split; [intros k w; by rewrite lookup_empty|set_solver]. }
  destruct IH as (open & Ho & H1 & H2); [set_solver|].
  unfold lock_leases in *. cbn [foldr]. rewrite Ho. unfold lock_lease. destruct (Hin u) as [l Hl]; [set_solver|]. rewrite Hl.
  destruct (Hm _ _ Hl) as (n & d & Hs & Hn & _). rewrite Hs. cbn [fst]. rewrite (proj2 (Z.leb_gt n 0)) by done.
  eexists. split; [reflexivity|]. split.
  - intros k w [[<- <-]|[_ Hw]]%lookup_insert_Some; [|auto]. exists l, (n, d). auto.
  - intros v [->|Hv]%elem_of_cons; rewrite lookup_insert_is_Some'; auto.
Qed.

(** *** Charging *)

Record chargeable (ls : gmap string lease_row) (K : string -> Prop) (records : list UsageRecord) (n : Z)
    (open : gmap string open_lease) (charges : gmap string Z) : Prop := {
  cg_open u : u ∈ records -> exists w, open !! U_LeaseID u = Some w;
  cg_lease k w : open !! k = Some w -> ls !! k = Some (w_row w) /\ w_closed w = 0 /\ 0 < (w_mult w).1 /\ 0 < (w_mult w).2 /\
    0 <= w_used w /\ w_used w + brought k records <= le_bytes (w_row w) /\ le_bytes (w_row w) <= MaxInt64 /\
    ceil_charge (le_bytes (w_row w)) (w_mult w) <= 512 * mib;
  cg_total e : default 0 (charges !! e) <= 512 * mib * n;
  cg_only k : is_Some (open !! k) -> K k;
  cg_keys e : is_Some (charges !! e) -> exists k l, ls !! k = Some l /\ le_ent l = e
}.

Lemma charge_record_runs ls K u records n open charges rows :
  (forall l, ls !! U_LeaseID u = Some l -> le_node l = U_NodeID u /\ le_rule l = U_RuleID u /\
     le_ent l = U_EntitlementID u /\ U_EndedAt u <= le_expires l) ->
  0 <= raw_bytes u <= MaxInt64 -> Forall (fun u => 0 <= raw_bytes u <= MaxInt64) records -> 0 <= n < 500 ->
  chargeable ls K (u :: records) n open charges ->
  exists open' charges' row, charge_record u (open, charges, rows) = Ok (open', charges', (rows ++ [(U_ID u, row)])%list) /\
    chargeable ls K records (n + 1) open' charges'.
Proof.
  intros Hwith Hraw Hall Hn Hc. destruct (cg_open _ _ _ _ _ _ Hc u) as [w Hw]; [set_solver|].
  destruct (cg_lease _ _ _ _ _ _ Hc _ _ Hw) as (Hl & Hcl & Hm1 & Hm2 & Hu0 & Hfit & Hb & Hceil).
  destruct (Hwith _ Hl) as (H1 & H2 & H3 & H4). unfold charge_record. rewrite Hw.
  unfold brought in Hfit. cbn [sum_over] in Hfit. rewrite at_key_eq in Hfit.
  assert (Hrest : forall k, 0 <= brought k records).
  { intros k. apply brought_nonneg. eapply Forall_impl; [exact Hall|]. simpl. lia. }
  pose proof (Hrest (U_LeaseID u)) as Hr. unfold brought in Hr.
  rewrite wrap64_id by (unfold in_int64, MinInt64; lia). rewrite Hcl, H1, H2, H3, !String.eqb_refl. cbn [negb Z.eqb orb].
  rewrite (proj2 (Z.ltb_ge (le_expires (w_row w)) (U_EndedAt u))) by lia.
  rewrite (proj2 (Z.ltb_ge (w_used w) 0)), (proj2 (Z.ltb_ge (le_bytes (w_row w)) (w_used w))) by lia.
  rewrite (proj2 (Z.ltb_ge (le_bytes (w_row w) - w_used w) (raw_bytes u))) by lia. cbn [orb].
  set (delta := ceil_charge (w_used w + raw_bytes u) (w_mult w) - ceil_charge (w_used w) (w_mult w)).
  assert (Hd : 0 <= delta <= 512 * mib).
  { subst delta. destruct (w_mult w) as [a b]. cbn [fst snd] in *.
    pose proof (ceil_charge_mono a b Hm1 Hm2 (w_used w) (w_used w + raw_bytes u) ltac:(lia)).
    pose proof (ceil_charge_mono a b Hm1 Hm2 (w_used w + raw_bytes u) (le_bytes (w_row w)) ltac:(lia)).
    pose proof (ceil_charge_nonneg a b Hm1 Hm2 (w_used w) Hu0). lia. }
  pose proof (cg_total _ _ _ _ _ _ Hc (U_EntitlementID u)) as Ht.
  assert (Hbig : 512 * mib * 501 <= MaxInt64) by (unfold mib, MaxInt64; lia).
  rewrite (proj2 (Z.leb_le delta MaxInt64)), (proj2 (Z.ltb_ge delta 0)) by nia.
  rewrite (proj2 (Z.ltb_ge (MaxInt64 - delta) (default 0 (charges !! U_EntitlementID u)))) by nia. cbn [negb orb].
  eexists _, _, _. split; [reflexivity|]. split.
  - intros v Hv. destruct (cg_open _ _ _ _ _ _ Hc v) as [x Hx]; [set_solver|].
    destruct (decide (U_LeaseID u = U_LeaseID v)) as [->|Hne]; [rewrite lookup_insert_eq; eauto|].
    rewrite lookup_insert_ne by done. eauto.
  - intros k x [[<- <-]|[Hne Hx]]%lookup_insert_Some; cbn [w_add w_row w_mult w_closed w_used].
    + unfold brought. repeat split; try done; lia.
    + destruct (cg_lease _ _ _ _ _ _ Hc _ _ Hx) as (B1 & B2 & B3 & B4 & B5 & B6 & B7 & B8). unfold brought in B6. cbn [sum_over] in B6.
      rewrite at_key_ne in B6 by done. unfold brought. repeat split; try done; lia.
  - intros e. destruct (decide (U_EntitlementID u = e)) as [<-|Hne]; [rewrite lookup_insert_eq; cbn; lia|].
    rewrite lookup_insert_ne by done. pose proof (cg_total _ _ _ _ _ _ Hc e). unfold mib in *. lia.
  - intros k [<-|Hk]%lookup_insert_is_Some'; [|by apply (cg_only _ _ _ _ _ _ Hc)]. apply (cg_only _ _ _ _ _ _ Hc). eauto.
  - intros e [He|He]%lookup_insert_is_Some'; [|by apply (cg_keys _ _ _ _ _ _ Hc)]. exists (U_LeaseID u), (w_row w). split; congruence.
Qed.

Lemma charge_all_runs ls K records : forall n open charges rows,
  (forall u l, u ∈ records -> ls !! U_LeaseID u = Some l -> le_node l = U_NodeID u /\ le_rule l = U_RuleID u /\
     le_ent l = U_EntitlementID u /\ U_EndedAt u <= le_expires l) ->
  Forall (fun u => 0 <= raw_bytes u <= MaxInt64) records ->
  0 <= n -> n + Z.of_nat (List.length records) <= 500 -> chargeable ls K records n open charges ->
  exists open' charges' rows', charge_all records (open, charges, rows) = Ok (open', charges', (rows ++ rows')%list) /\
    rows'.*1 = U_ID <$> records /\ chargeable ls K [] (n + Z.of_nat (List.length records)) open' charges'.
Proof.
  induction records as [|u records IH]; intros n open charges rows Hw Hraw Hn Hlen Hc.
  { exists open, charges, []. rewrite app_nil_r, Z.add_0_r. done. }
  apply Forall_cons in Hraw as [Hu Hraw]. cbn [List.length] in Hlen.
  destruct (charge_record_runs ls K u records n open charges rows) as (o1 & c1 & row & E & Hc1); auto; [set_solver|lia|].
  cbn [charge_all]. rewrite E.
  destruct (IH (n + 1) o1 c1 (rows ++ [(U_ID u, row)])%list) as (o2 & c2 & rows' & E2 & Hr & Hc2); auto; [set_solver|lia|lia|].
  exists o2, c2, ((U_ID u, row) :: rows'). split; [by rewrite E2, <- app_assoc|].
  split; [rewrite !fmap_cons; by f_equal|]. cbn [List.length]. by replace (n + Z.of_nat (S (List.length records))) with (n + 1 + Z.of_nat (List.length records)) by lia.
Qed.

(** *** Writing back *)

Lemma bump_leases_run l : forall env d t,
  NoDup l.*1 ->
  Forall (fun kw => leases d !! kw.1 = Some (w_row kw.2) /\ forall r, reservations d !! kw.1 = Some r -> rs_closed r = 0) l ->
  runs (for_each l bump_lease) env d t (fun _ d' =>
    entitlements d' = entitlements d /\ usage d' = usage d).
Proof.
  induction l as [|[k w] l IH]; intros env d t Hnd Hall; [by apply runs_ret|].
  rewrite fmap_cons in Hnd. apply NoDup_cons in Hnd as [Hk Hnd]. apply Forall_cons in Hall as [[Hl Hr] Hall]. cbn [fst snd] in *.
  cbn [for_each]. eapply runs_bind with (R := fun _ d1 => entitlements d1 = entitlements d /\ usage d1 = usage d /\
    reservations d1 = reservations d /\ forall k', k' <> k -> leases d1 !! k' = leases d !! k').
  - unfold bump_lease. cbn [fst snd]. destruct (_ =? _); [by apply runs_ret|].
    eapply runs_bind with (R := fun rs d1 => rs = reservations d /\ d1 = d); [by apply runs_gets|]. intros rs d1 t1 [-> ->].
    eapply runs_bind with (R := fun n d1 => n = 1 /\ entitlements d1 = entitlements d /\ usage d1 = usage d /\
      reservations d1 = reservations d /\ forall k', k' <> k -> leases d1 !! k' = leases d !! k').
    + eapply runs_UPDATE; [exact Hl| |].
      * rewrite Z.eqb_refl. destruct (reservations d !! k) eqn:E; [|done]. by rewrite (Hr _ eq_refl).
      * split; [done|]. do 3 (split; [done|]). intros k' Hne. apply lookup_insert_ne. congruence.
    + intros n d1 t2 (-> & H). apply runs_guard; [done|exact H].
  - intros u d1 t1 (He & Hu & Hrs & Hoth). eapply runs_conseq; [apply IH; [done|]|intros a d2 [-> ->]; done].
    rewrite Forall_forall in Hall |- *. intros [k' w'] Hin. cbn [fst snd]. rewrite Hrs, Hoth; [by apply (Hall _ Hin)|].
    intros ->. apply Hk, list_elem_of_fmap. by exists (k, w').
Qed.

Lemma bump_ents_run l : forall env d t, Forall (fun kd => is_Some (entitlements d !! kd.1)) l ->
  runs (for_each l bump_ent) env d t (fun _ d' => usage d' = usage d).
Proof.
  induction l as [|[k c] l IH]; intros env d t Hall; [by apply runs_ret|]. apply Forall_cons in Hall as [[e He] Hall]. cbn [for_each].
  eapply runs_bind with (R := fun _ d1 => usage d1 = usage d /\
    forall x, is_Some (entitlements d !! x) -> is_Some (entitlements d1 !! x)).
  - unfold bump_ent. cbn [fst snd] in *. destruct (_ <=? _); [by apply runs_ret|].
    eapply runs_bind with (R := fun n d1 => n = 1 /\ usage d1 = usage d /\
      forall x, is_Some (entitlements d !! x) -> is_Some (entitlements d1 !! x)).
    + eapply runs_UPDATE; [exact He|done|]. split; [done|]. split; [done|]. intros x Hx.
      simpl. rewrite lookup_insert_is_Some'. auto.
    + intros n d1 t1 (-> & H). apply runs_guard; [done|exact H].
  - intros u d1 t1 [Hu Hx]. eapply runs_conseq; [apply IH|intros a d2 ->; done].
    eapply Forall_impl; [exact Hall|]. auto.
Qed.

Lemma add_rows_run (l : list (string * usage_row)) : forall env d t, NoDup l.*1 ->
  Forall (fun kr => usage d !! kr.1 = None) l ->
  runs (for_each l (fun row => INSERT Usage row.1 row.2)) env d t (fun _ _ => True).
Proof.
  induction l as [|[k r] l IH]; intros env d t Hnd Hall; [by apply runs_ret|].
  rewrite fmap_cons in Hnd. apply NoDup_cons in Hnd as [Hk Hnd]. apply Forall_cons in Hall as [Hn Hall]. cbn [for_each fst snd] in *.
  eapply runs_bind with (R := fun _ d1 => d1 = t_set Usage (<[k := r]>) d).
  - apply runs_INSERT; [done| |done]. unfold clashes. apply not_true_iff_false. rewrite existsb_exists. by intros (x & _ & ?).
  - intros u d1 t1 ->. apply IH; [done|]. rewrite Forall_forall in Hall |- *. intros [k' r'] Hin. simpl.
    rewrite lookup_insert_ne; [by apply (Hall _ Hin)|]. intros ->. apply Hk, list_elem_of_fmap. by exists (k', r').
Qed.
(** *** The batch *)

Lemma lease_ceil es rs k l m : lease_ok es rs k l -> SetString (le_mult l) = Some m ->
  0 < m.1 /\ 0 < m.2 /\ ceil_charge (le_bytes l) m <= 512 * mib.
Proof.
  intros Hok Hm. pose proof (mult_of_pos _ _ _ _ Hok) as [H1 H2]. unfold mult_of in *. rewrite Hm in *. cbn in H1, H2.
  destruct (lk_budget _ _ _ _ Hok) as (r & _ & Hb & Hc). unfold mult_of in Hc. rewrite Hm in Hc. cbn in Hc. lia.
Qed.

Lemma opened_chargeable d records open :
  quota_inv d ->
  (forall u, u ∈ records -> within (leases d) (reservations d) u) ->
  (forall k l, leases d !! k = Some l -> le_used l + brought k records <= le_bytes l) ->
  (forall k w, open !! k = Some w -> opened (leases d) (reservations d) k w) ->
  (forall k, is_Some (open !! k) -> exists u, u ∈ records /\ U_LeaseID u = k) ->
  (forall u, u ∈ records -> is_Some (open !! U_LeaseID u)) ->
  chargeable (leases d) (fun k => exists u, u ∈ records /\ U_LeaseID u = k) records 0 open ∅.
Proof.
  intros Hq Hw Hfit Hop Hfrom Hto. split.
  - exact Hto.
  - intros k w Hk. destruct (Hop _ _ Hk) as (l & m & Hl & Hm & ->). cbn.
    pose proof (q_lease _ _ _ _ _ _ _ Hq _ _ Hl) as Hok. destruct (lease_ceil _ _ _ _ _ Hok Hm) as (H1 & H2 & H3).
    destruct (Hfrom k ltac:(eauto)) as (u & Hu & <-). destruct (Hw u Hu) as (l' & _ & _ & _ & _ & _ & Hr).
    split; [done|]. split; [destruct (reservations d !! _) eqn:E; [by apply Hr|done]|].
    split; [done|]. split; [done|]. pose proof (lk_used _ _ _ _ Hok). pose proof (lk_bytes _ _ _ _ Hok).
    split; [lia|]. split; [by apply Hfit|]. done.
  - intros e. rewrite lookup_empty. cbn. lia.
  - exact Hfrom.
  - intros e. rewrite lookup_empty. by intros [].
Qed.

Lemma lock_leases_from ls rs records open : lock_leases ls rs records = Ok open ->
  forall k, is_Some (open !! k) -> exists u, u ∈ records /\ U_LeaseID u = k.
Proof.
  revert open. induction records as [|u records IH]; intros open; unfold lock_leases; cbn [foldr].
  { intros [= <-] k. rewrite lookup_empty. by intros []. }
  fold (lock_leases ls rs records). destruct (lock_leases ls rs records) as [o|e] eqn:E; [|done]. unfold lock_lease.
  assert (Hrec : forall k, is_Some (o !! k) -> exists v, v ∈ u :: records /\ U_LeaseID v = k).
  { intros k Hk. destruct (IH o eq_refl k Hk) as (v & Hv & He). exists v. split; [set_solver|done]. }
  destruct (ls !! U_LeaseID u); [|intros [= <-]; exact Hrec].
  destruct (SetString _) as [m|]; [|done]. destruct (_ <=? _); [done|]. intros [= <-] k [He|Hk]%lookup_insert_is_Some'; [|auto].
  exists u. split; [set_solver|done].
Qed.

Lemma settle_runs records env d t :
  quota_inv d -> (List.length records <= 500)%nat -> NoDup (U_ID <$> records) ->
  Forall (fun u => ValidWindowMetadata u = true /\ valid_usage u = true /\ usage d !! U_ID u = None /\
                   within (leases d) (reservations d) u) records ->
  (forall k l, leases d !! k = Some l -> le_used l + brought k records <= le_bytes l) ->
  runs (SettleUsageBatch records) env d t (fun _ _ => True).
Proof.
  intros Hq Hlen Hnd Hall Hfit. unfold SettleUsageBatch. rewrite (proj2 (Z.ltb_ge 500 _)) by lia.
  rewrite distinct_all; [|eapply Forall_impl; [exact Hall|]; intros u (H1 & H2 & _); by rewrite lookup_empty|done].
  rewrite Forall_forall in Hall.
  assert (Hraw : Forall (fun u => 0 <= raw_bytes u <= MaxInt64) records).
  { apply Forall_forall. intros u Hu. apply valid_usage_raw. by apply Hall. }
  assert (Hfresh : filter (fun u => usage d !! U_ID u = None) records = records).
  { apply filter_all. intros u Hu. by apply (Hall u Hu). }
  eapply runs_bind with (R := fun l d1 => l = records /\ d1 = d); [by apply runs_ret|]. intros l d1 t1 [-> ->].
  eapply runs_bind with (R := fun m d1 => m = usage d /\ d1 = d); [by apply runs_gets|]. intros m d1 t2 [-> ->].
  eapply runs_bind with (R := fun _ d1 => d1 = d).
  { apply runs_guard; [|done]. apply forallb_forall. intros u Hu. apply list_elem_of_In in Hu.
    by destruct (Hall u Hu) as (_ & _ & -> & _). }
  intros _ d1 t3 ->. cbn zeta. rewrite Hfresh. destruct (bool_decide (records = [])); [by apply runs_ret|].
  eapply runs_bind with (R := fun m d1 => m = leases d /\ d1 = d); [by apply runs_gets|]. intros ls d1 t4 [-> ->].
  eapply runs_bind with (R := fun m d1 => m = reservations d /\ d1 = d); [by apply runs_gets|]. intros rs d1 t5 [-> ->].
  destruct (lock_leases_runs (leases d) (reservations d) records) as (open & Ho & H1 & H2).
  { intros k l Hl. apply (lk_mult _ _ _ _ (q_lease _ _ _ _ _ _ _ Hq _ _ Hl)). }
  { intros u Hu. destruct (Hall u Hu) as (_ & _ & _ & l & Hl & _). eauto. }
  rewrite Ho. eapply runs_bind with (R := fun o d1 => o = open /\ d1 = d); [by apply runs_ret|]. intros o d1 t6 [-> ->].
  destruct (charge_all_runs (leases d) (fun k => exists u, u ∈ records /\ U_LeaseID u = k) records 0 open ∅ []) as (open' & charges & rows & Hc & Hrows & Hfin); try done; try lia.
  { intros u l Hu Hl. destruct (Hall u Hu) as (_ & _ & _ & l' & Hl' & B1 & B2 & B3 & B4 & _). rewrite Hl in Hl'.
    by injection Hl' as <-. }
  { apply opened_chargeable; auto; [intros u Hu; by apply Hall|]. by apply lock_leases_from with (1 := Ho). }
  rewrite Hc. cbn [app]. eapply runs_bind with (R := fun x d1 => x = (open', charges, rows) /\ d1 = d); [by apply runs_ret|].
  intros x d1 t7 [-> ->]. cbn beta iota.
  eapply runs_bind; [apply bump_leases_run; [apply NoDup_fst_map_to_list|]|].
  { apply Forall_forall. intros [k w] Hkw. apply elem_of_map_to_list in Hkw. cbn [fst snd].
    destruct (cg_lease _ _ _ _ _ _ Hfin _ _ Hkw) as (B1 & _). split; [done|].
    destruct (cg_only _ _ _ _ _ _ Hfin k ltac:(eauto)) as (u & Hu & <-). destruct (Hall u Hu) as (_ & _ & _ & l' & _ & _ & _ & _ & _ & B).
    exact B. }
  intros u1 d1 t8 [He1 Hu1]. eapply runs_bind; [apply bump_ents_run|].
  { apply Forall_forall. intros [e c] Hec. apply elem_of_map_to_list in Hec. cbn [fst]. rewrite He1.
    destruct (cg_keys _ _ _ _ _ _ Hfin e ltac:(eauto)) as (k & l & Hl & <-). apply (lk_ent _ _ _ _ (q_lease _ _ _ _ _ _ _ Hq _ _ Hl)). }
  intros u2 d2 t9 Hu2. apply add_rows_run; [by rewrite Hrows|]. apply Forall_forall. intros [k r] Hkr. cbn [fst]. rewrite Hu2, Hu1.
  assert (Hin : k ∈ rows.*1) by (apply list_elem_of_fmap; by exists (k, r)). rewrite Hrows in Hin.
  apply list_elem_of_fmap in Hin as (u & -> & Hu). by apply Hall.
Qed.
End Settlement.

(** ** The desk *)

Section Desk.
Context {RS : RatSyntax}.

Lemma unique_runs node records : forall seen env p t,
  Forall (fun u => ValidWindowMetadata u = true /\ valid_usage u = true /\ U_NodeID u = node /\ seen !! U_ID u = None /\
                   forall n, U_EndedAt u <= env_now env n + minute) records ->
  NoDup (U_ID <$> records) -> runs (unique_records node records seen) env p t (fun l p' => l = records /\ p' = p).
Proof.
  induction records as [|u records IH]; intros seen env p t Hall Hnd; cbn [unique_records]; [by apply runs_ret|].
  apply Forall_cons in Hall as [(H1 & H2 & H3 & H4 & H5) Hall]. rewrite fmap_cons in Hnd. apply NoDup_cons in Hnd as [Hn Hnd].
  rewrite H1, H2, H3, String.eqb_refl, H4. cbn [negb orb].
  exists (u :: records), p. unfold mbind, tx_bind, Now. rewrite (proj2 (Z.ltb_ge (env_now env t + minute) (U_EndedAt u))) by apply H5.
  destruct (IH (<[U_ID u := u]> seen) env p (S t)) as (l & p' & t' & Hrun & -> & ->); [|done|].
  - rewrite Forall_forall in Hall |- *. intros v Hv. destruct (Hall v Hv) as (B1 & B2 & B3 & B4 & B5).
    do 3 (split; [done|]). split; [|done]. rewrite lookup_insert_ne; [done|]. intros He. apply Hn. rewrite He.
    apply list_elem_of_fmap. eauto.
  - exists t'. rewrite Hrun. done.
Qed.

(** A record within a lease of the desk, as the control plane checks it. *)
Definition in_lease (node : string) (p : Panel) (u : UsageRecord) : Prop :=
  exists l, rule_leases p !! U_LeaseID u = Some l /\ retirements p !! U_LeaseID u = None /\
    rl_rule l = U_RuleID u /\ rl_node l = node /\ rl_ent l = U_EntitlementID u /\ Unix (U_EndedAt u) <= rl_until l.
(** What the shop checks of a lease that was sold. *)
Definition on_time (p : Panel) (u : UsageRecord) : Prop :=
  forall l c, rule_leases p !! U_LeaseID u = Some l -> paid l -> leases (shop p) !! U_LeaseID u = Some c -> U_EndedAt u <= le_expires c.

Lemma take_runs node p records : forall from,
  Forall (fun u => 0 <= raw_bytes u /\ in_lease node p u) records ->
  (forall k l, rule_leases p !! k = Some l -> 0 <= default (rl_spent l) (from !! k) /\
     default (rl_spent l) (from !! k) + brought k records <= rl_bytes l) ->
  exists spent, take_records node p records from = Ok spent.
Proof.
  induction records as [|u records IH]; intros from Hall Hfit; cbn [take_records]; [eauto|].
  apply Forall_cons in Hall as [[Hu (l & Hl & Hr & H1 & H2 & H3 & H4)] Hall].
  pose proof (brought_nonneg (U_LeaseID u) records ltac:(eapply Forall_impl; [exact Hall|]; by intros ? [? _])) as Hb.
  destruct (Hfit _ _ Hl) as [Hf1 Hf2]. unfold brought in Hf2. cbn [sum_over] in Hf2. rewrite at_key_eq in Hf2.
  fold (brought (U_LeaseID u) records) in Hf2.
  unfold take_record, retired_in. rewrite Hl, Hr, bool_decide_eq_false_2 by (by intros []).
  rewrite H1, H2, H3, !String.eqb_refl. cbn [negb orb]. rewrite (proj2 (Z.ltb_ge (rl_until l) _)) by lia.
  rewrite (proj2 (Z.ltb_ge _ 0)), (proj2 (Z.ltb_ge (rl_bytes l) _)) by lia.
  rewrite (proj2 (Z.ltb_ge (rl_bytes l - _) (raw_bytes u))) by lia. cbn [orb]. apply IH; [done|].
  intros k r Hk. destruct (Hfit _ _ Hk) as [G1 G2]. unfold brought in G2. cbn [sum_over] in G2.
  destruct (decide (U_LeaseID u = k)) as [<-|Hne].
  - rewrite at_key_eq in G2. rewrite lookup_insert_eq. rewrite Hl in Hk. injection Hk as <-. cbn. unfold brought. lia.
  - rewrite at_key_ne in G2 by done. rewrite lookup_insert_ne by done. unfold brought. lia.
Qed.

Lemma bump_all_runs before l : forall env p t,
  NoDup l.*1 ->
  (forall k n, (k, n) ∈ l -> exists row, before !! k = Some row /\ rule_leases p !! k = Some row /\ retirements p !! k = None) ->
  runs (for_each l (bump_spent before)) env p t (fun _ p' => exists m, p' = set_rule_leases m p).
Proof.
  induction l as [|[k n] l IH]; intros env p t Hnd Hin.
  { apply runs_ret. exists (rule_leases p). by destruct p. }
  rewrite fmap_cons in Hnd. apply NoDup_cons in Hnd as [Hk Hnd]. destruct (Hin k n) as (row & H1 & H2 & H3); [set_solver|].
  cbn [for_each]. eapply runs_bind with (R := fun _ p1 => exists row', p1 = set_rule_leases (<[k := row']> (rule_leases p)) p).
  - unfold bump_spent. cbn [fst snd]. rewrite H1. destruct (n =? rl_spent row).
    + apply runs_ret. exists row. rewrite insert_id by done. by destruct p.
    + eapply runs_bind with (R := fun q p1 => q = p /\ p1 = p); [by apply runs_gets|]. intros q p1 t1 [-> ->]. rewrite H2.
      eapply runs_bind with (R := fun _ p1 => p1 = p).
      * apply runs_guard; [|done]. unfold retired_in. rewrite Z.eqb_refl, H3, bool_decide_eq_false_2 by (by intros []). done.
      * intros u p1 t2 ->. apply runs_modify. eauto.
  - intros u p1 t1 (row' & ->). eapply runs_conseq; [apply IH; [done|]|intros a p2 (m & ->); exists m; by destruct p].
    intros k' n' Hk'. destruct (Hin k' n') as (r & B1 & B2 & B3); [set_solver|]. exists r. cbn. split; [done|]. split; [|done].
    rewrite lookup_insert_ne; [done|]. intros ->. apply Hk, list_elem_of_fmap. by exists (k', n').
Qed.

Lemma entries_run node records : forall env p t,
  runs (usage_entries node records) env p t (fun l p' => l.*1 = U_ID <$> records /\ p' = p).
Proof.
  induction records as [|u records IH]; intros env p t; cbn [usage_entries]; [by apply runs_ret|].
  eapply runs_bind with (R := fun _ p' => p' = p); [by apply runs_now|]. intros now p1 t1 ->.
  eapply runs_bind; [apply IH|]. intros l p1 t2 [Hl ->]. apply runs_ret. rewrite !fmap_cons. split; [by f_equal|done].
Qed.

Lemma add_usage_run (l : list (string * cp_usage_row)) : forall env p t, NoDup l.*1 ->
  Forall (fun kr => cp_usage p !! kr.1 = None) l -> runs (for_each l add_cp_usage) env p t (fun _ _ => True).
Proof.
  induction l as [|[k r] l IH]; intros env p t Hnd Hall; [by apply runs_ret|].
  rewrite fmap_cons in Hnd. apply NoDup_cons in Hnd as [Hk Hnd]. apply Forall_cons in Hall as [Hn Hall]. cbn [for_each fst snd] in *.
  eapply runs_bind with (R := fun _ p1 => p1 = set_cp_usage (<[k := r]> (cp_usage p)) p).
  - unfold add_cp_usage. cbn [fst snd]. eapply runs_bind with (R := fun m p1 => m = cp_usage p /\ p1 = p); [by apply runs_gets|].
    intros m p1 t1 [-> ->]. eapply runs_bind with (R := fun _ p1 => p1 = p); [by apply runs_guard; [apply bool_decide_eq_true|]|].
    intros u p1 t2 ->. by apply runs_modify.
  - intros u p1 t1 ->. apply IH; [done|]. rewrite Forall_forall in Hall |- *. intros [k' r'] Hin. cbn.
    rewrite lookup_insert_ne; [by apply (Hall _ Hin)|]. intros ->. apply Hk, list_elem_of_fmap. by exists (k', r').
Qed.

Lemma brought_filter (P : UsageRecord -> Prop) `{forall u, Decision (P u)} k records :
  Forall (fun u => 0 <= raw_bytes u) records -> 0 <= brought k (filter P records) <= brought k records.
Proof.
  intros Hall. split; [apply brought_nonneg; rewrite Forall_forall in Hall |- *; intros u [_ Hu]%list_elem_of_filter; by apply Hall|]. induction records as [|u records IH]; [done|].
  apply Forall_cons in Hall as [Hu Hall]. unfold brought in *. cbn [sum_over]. rewrite filter_cons.
  assert (0 <= at_key (U_LeaseID u) k (raw_bytes u)) by (unfold at_key; destruct (String.eqb _ _); lia).
  specialize (IH Hall). destruct (decide (P u)); cbn [sum_over]; lia.
Qed.
Lemma brought_none k records : (forall u, u ∈ records -> U_LeaseID u <> k) -> brought k records = 0.
Proof.
  intros Hn. unfold brought. erewrite sum_over_ext, sum_over_zero; [done|]. intros u Hu. apply at_key_ne. by apply Hn.
Qed.

(** The commercial part of a batch within its leases is settled. *)
Lemma settle_part node p fresh env q t :
  panel_inv p -> shop q = shop p -> (List.length fresh <= 500)%nat -> NoDup (U_ID <$> fresh) ->
  Forall (fun u => ValidWindowMetadata u = true /\ valid_usage u = true /\ U_NodeID u = node /\
                   cp_usage p !! U_ID u = None /\ in_lease node p u /\ on_time p u) fresh ->
  (forall k l, rule_leases p !! k = Some l -> rl_spent l + brought k fresh <= rl_bytes l) ->
  runs (settle_commercial shop_options (filter (fun u => Is_true (commercial p u)) fresh)) env q t
    (fun _ q' => exists d, q' = set_shop d q).
Proof.
  intros Hp Hq Hlen Hnd Hall Hfit. pose proof Hp as [Hs Hd]. rewrite Forall_forall in Hall.
  assert (Hraw : Forall (fun u => 0 <= raw_bytes u) fresh).
  { apply Forall_forall. intros u Hu. apply valid_usage_raw. by apply Hall. }
  set (com := filter (fun u => Is_true (commercial p u)) fresh).
  assert (Hin : forall u, u ∈ com -> u ∈ fresh /\ commercial p u = true).
  { intros u Hu. apply list_elem_of_filter in Hu as [H1 H2]. split; [done|]. by apply Is_true_eq_true. }
  assert (Hrun : runs (SettleUsageBatch com) env (shop p) t (fun _ _ => True)).
  { apply settle_runs; [by apply service_quota| | | |].
    - pose proof (length_filter (fun u => Is_true (commercial p u)) fresh). subst com. lia.
    - eapply sublist_NoDup; [exact Hnd|apply fmap_sublist, sublist_filter].
    - apply Forall_forall. intros u Hu. destruct (Hin u Hu) as [Hf Hc]. destruct (Hall u Hf) as (B1 & B2 & B3 & B4 & (l & Hl & Hr & C1 & C2 & C3 & _) & C5).
      split; [done|]. split; [done|]. split.
      + destruct (usage (shop p) !! U_ID u) as [row|] eqn:E; [|done]. destruct (dk_taken _ Hd _ _ E) as (v & _ & Hv & _). congruence.
      + apply (commercial_paid _ _ _ Hl) in Hc as Hpd. destruct (dk_backed _ Hd _ _ Hl Hpd) as (c & Hc' & K1 & K2 & K3 & K4 & K5).
        exists c. split; [done|]. split; [congruence|]. split; [congruence|]. split; [congruence|]. split; [by eapply C5|].
        intros r Hr'. destruct (decide (rs_closed r = 0)) as [?|Hne]; [done|].
        destruct (dk_closed _ Hd _ _ Hr' Hne). congruence.
    - intros k c Hc. destruct (dk_listed _ Hd _ _ Hc) as (l & Hl & He).
      destruct (decide (rl_ent l = "admin-test")) as [Ha|Hpd].
      + rewrite brought_none.
        * pose proof (lk_used _ _ _ _ (q_lease _ _ _ _ _ _ _ (service_quota _ Hs) _ _ Hc)). lia.
        * intros u Hu <-. destruct (Hin u Hu) as [_ Hcm]. by apply (commercial_paid _ _ _ Hl) in Hcm.
      + destruct (dk_backed _ Hd _ _ Hl Hpd) as (c' & Hc' & _ & _ & _ & Hb & _). rewrite Hc in Hc'. injection Hc' as <-.
        rewrite (books_agree p k l c Hp Hl Hpd Hc), Hb. pose proof (Hfit _ _ Hl).
        pose proof (brought_filter (fun u => Is_true (commercial p u)) k fresh Hraw). fold com in H0. lia. }
  unfold settle_commercial. destruct com as [|u0 com'] eqn:Ec.
  { apply runs_ret. exists (shop q). by rewrite set_shop_same. }
  cbn [shop_options opt_Entitlements es_SettleBatch]. destruct Hrun as (a & d & t' & Hrun & _).
  exists a, (set_shop d q), t'. unfold in_shop. rewrite Hq, Hrun. eauto.
Qed.

(** Every batch within its leases and on time is accepted; records that were
    taken in before may be among it. *)
Lemma persist_runs node records env p t :
  panel_inv p -> (List.length records <= 500)%nat -> NoDup (U_ID <$> records) ->
  Forall (fun u => ValidWindowMetadata u = true /\ valid_usage u = true /\ U_NodeID u = node /\
                   forall n, U_EndedAt u <= env_now env n + minute) records ->
  (forall u row, u ∈ records -> cp_usage p !! U_ID u = Some row -> cu_payload row = u) ->
  let fresh := filter (fun u => cp_usage p !! U_ID u = None) records in
  Forall (in_lease node p) fresh -> Forall (on_time p) fresh ->
  (forall k l, rule_leases p !! k = Some l -> rl_spent l + brought k fresh <= rl_bytes l) ->
  runs (persistUsageBatch shop_options node records) env p t (fun _ _ => True).
Proof.
  intros Hp Hlen Hnd Hall Hknown fresh Hin Htime Hfit. unfold persistUsageBatch. rewrite (proj2 (Z.ltb_ge 500 _)) by lia.
  eapply runs_bind; [apply unique_runs; [|done]|].
  { eapply Forall_impl; [exact Hall|]. intros u (H1 & H2 & H3 & H4). by rewrite lookup_empty. }
  intros l p1 t1 [-> ->]. rewrite Forall_forall in Hall.
  eapply runs_bind with (R := fun m p1 => m = cp_usage p /\ p1 = p); [by apply runs_gets|]. intros m p1 t2 [-> ->].
  eapply runs_bind with (R := fun _ p1 => p1 = p).
  { apply runs_guard; [|done]. apply forallb_forall. intros u Hu. apply list_elem_of_In in Hu.
    destruct (cp_usage p !! U_ID u) eqn:E; [|done]. apply bool_decide_eq_true. by eapply Hknown. }
  intros u1 p1 t3 ->. cbn zeta. fold fresh. destruct (bool_decide (fresh = [])); [by apply runs_ret|]. unfold take_in.
  assert (Hf : forall u, u ∈ fresh -> u ∈ records /\ cp_usage p !! U_ID u = None).
  { intros u Hu. apply list_elem_of_filter in Hu as [? ?]. done. }
  assert (Hndf : NoDup (U_ID <$> fresh)) by (eapply sublist_NoDup; [exact Hnd|apply fmap_sublist, sublist_filter]).
  assert (Hlf : (List.length fresh <= 500)%nat) by (pose proof (length_filter (fun u => cp_usage p !! U_ID u = None) records); subst fresh; lia).
  rewrite Forall_forall in Hin, Htime.
  eapply runs_bind with (R := fun q p1 => q = p /\ p1 = p); [by apply runs_gets|]. intros q p1 t4 [-> ->].
  destruct (take_runs node p fresh ∅) as [spent Hsp].
  { apply Forall_forall. intros u Hu. split; [|by apply Hin]. apply valid_usage_raw. by apply Hall, Hf. }
  { intros k l Hl. rewrite lookup_empty. cbn. split; [|by apply Hfit]. apply (dk_bounds _ (proj2 Hp) _ _ Hl). }
  rewrite Hsp. eapply runs_bind with (R := fun s p1 => s = spent /\ p1 = p); [by apply runs_ret|]. intros s p1 t5 [-> ->].
  apply take_records_taken in Hsp; [|apply Forall_forall; intros u Hu; apply valid_usage_raw; by apply Hall, Hf].
  eapply runs_bind; [apply entries_run|]. intros rows p1 t6 [Hrows ->].
  eapply runs_bind; [apply bump_all_runs; [apply NoDup_fst_map_to_list|]|].
  { intros k n Hkn. apply elem_of_map_to_list in Hkn.
    destruct (tk_bound _ _ _ _ _ Hsp _ _ Hkn) as [Hx|(l & Hl & _ & Hr)]; [by rewrite lookup_empty in Hx|eauto]. }
  intros u2 p1 t7 (m1 & ->). eapply runs_bind; [apply (settle_part node p fresh); try done|].
  { apply Forall_forall. intros u Hu. destruct (Hall u) as (H1 & H2 & H3 & _); [by apply Hf|]. do 3 (split; [done|]).
    split; [by apply Hf|]. split; [by apply Hin|by apply Htime]. }
  intros u3 p1 t8 (d & ->). apply add_usage_run; [by rewrite Hrows|]. apply Forall_forall. intros [k r] Hkr. cbn.
  assert (Hk : k ∈ rows.*1) by (apply list_elem_of_fmap; by exists (k, r)). rewrite Hrows in Hk.
  apply list_elem_of_fmap in Hk as (u & -> & Hu). by apply Hf.
Qed.

(** *** A batch that was accepted was on time *)

Definition locked_from (ls : gmap string lease_row) (open : gmap string open_lease) : Prop :=
  forall k w, open !! k = Some w -> ls !! k = Some (w_row w).
Definition expires_after (ls : gmap string lease_row) (u : UsageRecord) : Prop :=
  exists c, ls !! U_LeaseID u = Some c /\ U_EndedAt u <= le_expires c.

Lemma lock_rows ls rs fresh : forall open, lock_leases ls rs fresh = Ok open -> locked_from ls open.
Proof.
  induction fresh as [|u fresh IH]; intros open; cbn; [intros [= <-] k w; by rewrite lookup_empty|]. fold (lock_leases ls rs fresh).
  unfold lock_lease. destruct (lock_leases ls rs fresh) as [o|]; [|done]. specialize (IH o eq_refl).
  destruct (ls !! U_LeaseID u) as [l|] eqn:Hl; [|by intros [= <-]]. destruct (SetString (le_mult l)) as [m|]; [|done].
  destruct (m.1 <=? 0); [done|]. intros [= <-] k w [[<- <-]|[_ Hw]]%lookup_insert_Some; [done|by apply IH].
Qed.
Lemma charge_times ls records : forall open charges rows r, locked_from ls open -> charge_all records (open, charges, rows) = Ok r ->
  Forall (expires_after ls) records.
Proof.
  induction records as [|u records IH]; intros open charges rows r Ho; cbn [charge_all]; [done|]. unfold charge_record.
  destruct (open !! U_LeaseID u) as [w|] eqn:Hw; [|done]. cbv zeta.
  do 3 (match goal with |- context [if ?b then _ else _] => let E := fresh "E" in destruct b eqn:E; [done|] end).
  apply orb_false_iff in E as [_ E]. intros Hr. constructor.
  - exists (w_row w). split; [by apply Ho|]. lia.
  - eapply IH; [|exact Hr]. intros k x [[<- <-]|[_ Hx]]%lookup_insert_Some; [exact (Ho _ _ Hw)|by apply Ho].
Qed.
Lemma settle_times records env d t u d' t' : SettleUsageBatch records env d t = (Ok (u, d'), t') ->
  forall r, r ∈ records -> usage d !! U_ID r = None -> expires_after (leases d) r.
Proof.
  intros Hrun r Hin Hnew. unfold SettleUsageBatch in Hrun. destruct (500 <? _); [done|].
  apply tx_bind_Ok in Hrun as (unique & d0 & t0 & (Hu & -> & ->)%of_res_Ok & Hrun). destruct (distinct_ok _ _ _ Hu) as (_ & Hall & _).
  apply tx_bind_Ok in Hrun as (known & d0 & t1 & (-> & -> & ->)%gets_Ok & Hrun).
  apply tx_bind_Ok in Hrun as (u1 & d0 & t2 & (_ & -> & ->)%guard_Ok & Hrun). cbn zeta in Hrun.
  assert (Hf : r ∈ filter (fun u => usage d !! U_ID u = None) unique).
  { apply list_elem_of_filter. split; [done|]. destruct (Hall r Hin) as [?|Hx]; [done|by rewrite lookup_empty in Hx]. }
  destruct (bool_decide (_ = [])) eqn:Ef; [bool_to_prop; rewrite Ef in Hf; by apply elem_of_nil in Hf|].
  apply tx_bind_Ok in Hrun as (ls & d0 & t3 & (-> & -> & ->)%gets_Ok & Hrun).
  apply tx_bind_Ok in Hrun as (rs & d0 & t4 & (-> & -> & ->)%gets_Ok & Hrun).
  apply tx_bind_Ok in Hrun as (open & d0 & t5 & (Ho & -> & ->)%of_res_Ok & Hrun).
  apply tx_bind_Ok in Hrun as ([[o c] rows] & d0 & t6 & (Hc & -> & ->)%of_res_Ok & _).
  pose proof (charge_times _ _ _ _ _ _ (lock_rows _ _ _ _ Ho) Hc) as Ht. rewrite Forall_forall in Ht. by apply Ht.
Qed.

Lemma take_in_times node fresh env p t u p' t' : panel_inv p -> Forall (fun v => 0 <= raw_bytes v) fresh ->
  take_in shop_options node fresh env p t = (Ok (u, p'), t') ->
  forall v, v ∈ fresh -> cp_usage p !! U_ID v = None -> on_time p v.
Proof.
  intros [_ Hd] Hraw Hrun v Hv Hnew l c Hl Hpd Hc. unfold take_in in Hrun.
  apply tx_bind_Ok in Hrun as (q & p1 & t3 & (-> & -> & ->)%gets_Ok & Hrun).
  apply tx_bind_Ok in Hrun as (spent & p1 & t3 & (Htk & -> & ->)%of_res_Ok & Hrun). apply take_records_taken in Htk; [|done].
  apply tx_bind_Ok in Hrun as (rows & p1 & t4 & [-> _]%usage_entries_Ok & Hrun).
  apply tx_bind_Ok in Hrun as (u2 & p1 & t5 & Hb & Hrun). apply bump_all_Ok in Hb as (m1 & -> & _); [|apply NoDup_fst_map_to_list|].
  2: { intros k n Hkn. split; [done|]. apply elem_of_map_to_list in Hkn.
       destruct (tk_bound _ _ _ _ _ Htk _ _ Hkn) as [Hf|(x & Hx & _)]; [by rewrite lookup_empty in Hf|eauto]. }
  apply tx_bind_Ok in Hrun as (u3 & p1 & t6 & Hst & _). apply (commercial_paid _ _ _ Hl) in Hpd.
  assert (Hin : v ∈ filter (fun u => Is_true (commercial p u)) fresh) by (apply list_elem_of_filter; split; [by apply Is_true_eq_left|done]).
  unfold settle_commercial in Hst. destruct (filter _ fresh) as [|u0 com]; [by apply elem_of_nil in Hin|].
  cbn [shop_options opt_Entitlements es_SettleBatch] in Hst. apply in_shop_Ok in Hst as (d & Hst & _).
  assert (Hfree : usage (shop p) !! U_ID v = None).
  { destruct (usage (shop p) !! U_ID v) as [row|] eqn:E; [|done]. destruct (dk_taken _ Hd _ _ E) as (x & _ & Hx & _). congruence. }
  destruct (settle_times _ _ _ _ _ _ _ Hst v Hin Hfree) as (c' & Hc' & Ht). cbn in Hc'. rewrite Hc in Hc'. by injection Hc' as <-.
Qed.
Lemma persist_on_time node records env p t u p' t' : panel_inv p ->
  persistUsageBatch shop_options node records env p t = (Ok (u, p'), t') ->
  forall v, v ∈ records -> cp_usage p !! U_ID v = None -> on_time p v.
Proof.
  intros Hp Hrun v Hv Hnew. unfold persistUsageBatch in Hrun. destruct (500 <? _); [done|].
  apply tx_bind_Ok in Hrun as (unique & p1 & t1 & [-> Hde]%unique_records_Ok & Hrun).
  apply tx_bind_Ok in Hrun as (known & p1 & t2 & (-> & -> & ->)%gets_Ok & Hrun).
  apply tx_bind_Ok in Hrun as (u1 & p1 & t2 & (_ & -> & ->)%guard_Ok & Hrun). cbn zeta in Hrun.
  assert (Hf : v ∈ filter (fun u => cp_usage p !! U_ID u = None) unique).
  { apply list_elem_of_filter. split; [done|]. destruct (de_all _ _ _ _ Hde _ Hv) as [?|Hx]; [done|by rewrite lookup_empty in Hx]. }
  destruct (bool_decide (_ = [])) eqn:Ef; [bool_to_prop; rewrite Ef in Hf; by apply elem_of_nil in Hf|].
  eapply take_in_times; [done| |exact Hrun|done|done].
  apply Forall_forall. intros x [_ Hx]%list_elem_of_filter. apply valid_usage_raw. by apply (de_valid _ _ _ _ Hde).
Qed.

(** *** The same batch again *)

Lemma unique_again node records : forall seen env p t l p' t' env2 q s,
  unique_records node records seen env p t = (Ok (l, p'), t') ->
  (forall u n, u ∈ records -> U_EndedAt u <= env_now env2 n + minute) ->
  exists s', unique_records node records seen env2 q s = (Ok (l, q), s').
Proof.
  induction records as [|u records IH]; intros seen env p t l p' t' env2 q s Hrun Hc; cbn [unique_records] in Hrun |- *.
  { apply mret_Ok in Hrun as (-> & _). by exists s. }
  destruct (negb (ValidWindowMetadata u)); [done|]. destruct (_ || _); [done|].
  apply tx_bind_Ok in Hrun as (now & p1 & t1 & Hn & Hrun). unfold mbind, tx_bind, Now at 1.
  rewrite (proj2 (Z.ltb_ge (env_now env2 s + minute) (U_EndedAt u))) by (apply Hc; set_solver).
  destruct (_ <? _) in Hrun; [done|]. destruct (seen !! U_ID u) as [old|].
  - destruct (negb _); [done|]. eapply IH; [exact Hrun|]. set_solver.
  - apply tx_bind_Ok in Hrun as (l' & p2 & t2 & Hr & Hrun). apply mret_Ok in Hrun as (-> & _).
    destruct (IH _ _ _ _ _ _ _ env2 q (S s) Hr) as (s' & ->); [set_solver|]. by exists s'.
Qed.

Lemma persist_again node records env p t u p' t' env2 :
  panel_inv p -> persistUsageBatch shop_options node records env p t = (Ok (u, p'), t') ->
  (forall r n, r ∈ records -> U_EndedAt r <= env_now env2 n + minute) ->
  Write (persistUsageBatch shop_options node records) env2 p' = (Ok tt, p').
Proof.
  intros Hp Hrun Hc. destruct (persist_Ok _ _ _ _ _ _ _ _ Hp Hrun) as [_ Hik]. unfold persistUsageBatch in Hrun.
  apply Write_Ok. unfold persistUsageBatch. destruct (500 <? _); [done|].
  apply tx_bind_Ok in Hrun as (unique & p1 & t1 & Hu & _).
  destruct (unique_again _ _ _ _ _ _ _ _ _ env2 p' 0%nat Hu Hc) as [s Hs].
  apply unique_records_Ok in Hu as [_ Hde]. exists s. apply tx_bind_Ok. exists unique, p', s. split; [exact Hs|].
  apply tx_bind_Ok. exists (cp_usage p'), p', s. split; [done|].
  assert (Hall : forall r, r ∈ unique -> exists row, cp_usage p' !! U_ID r = Some row /\ cu_payload row = r).
  { intros r Hr. apply (ik_rows _ _ _ _ Hik). by apply (de_in _ _ _ _ Hde). }
  apply tx_bind_Ok. exists tt, p', s. split.
  - unfold guard_err. rewrite (proj2 (forallb_forall _ _)); [done|]. intros r Hr. apply list_elem_of_In in Hr.
    destruct (Hall r Hr) as (row & -> & Hpay). by apply bool_decide_eq_true.
  - cbn zeta. rewrite bool_decide_eq_true_2; [done|]. apply elem_of_nil_inv. intros r [Hn Hr]%list_elem_of_filter.
    destruct (Hall r Hr) as (row & Hrow & _). congruence.
Qed.

(** *** Retirements *)

Lemma RetireLease_runs node k c env d t :
  quota_inv d -> leases d !! k = Some c -> le_node c = node -> runs (RetireLease node k (le_used c)) env d t (fun _ _ => True).
Proof.
  intros Hq Hc Hn. pose proof (q_lease _ _ _ _ _ _ _ Hq _ _ Hc) as Hok. destruct (lk_budget _ _ _ _ Hok) as (r & Hr & Hb & _).
  destruct (lk_ent _ _ _ _ Hok) as [e He]. destruct (lk_mult _ _ _ _ Hok) as (n & dd & Hm & Hpos & _).
  pose proof (charge_of_bounds _ _ _ _ _ Hok Hr) as Hch. pose proof (lk_used _ _ _ _ Hok) as Hu.
  assert (Hcc : ceil_charge (le_used c) (n, dd) = charge_of c) by (unfold charge_of, mult_of; by rewrite Hm).
  unfold RetireLease. rewrite (proj2 (Z.ltb_ge _ 0)) by lia.
  eapply runs_bind with (R := fun o d' => o = Some c /\ d' = d); [by apply runs_SELECT|]. intros o d1 t1 [-> ->].
  eapply runs_bind with (R := fun x d' => x = c /\ d' = d); [by apply runs_ret|]. intros x d1 t2 [-> ->].
  rewrite Hn, String.eqb_refl, Z.eqb_refl. cbn [negb orb]. rewrite Hm. cbn [fst]. rewrite (proj2 (Z.leb_gt n 0)) by done.
  eapply runs_bind with (R := fun o d' => o = Some r /\ d' = d); [by apply runs_SELECT|]. intros o d1 t3 [-> ->].
  eapply runs_bind with (R := fun x d' => x = r /\ d' = d); [by apply runs_ret|]. intros x d1 t4 [-> ->].
  destruct (rs_closed r =? 0) eqn:Ecl; cbn [negb]; [|by apply runs_ret]. rewrite Hcc.
  rewrite (wrap64_id (charge_of c)), (wrap64_id (rs_budget r - charge_of c)) by (unfold in_int64, MinInt64, MaxInt64, mib in *; lia).
  cbv zeta. rewrite (proj2 (Z.ltb_ge _ 0)) by lia.
  eapply runs_bind with (R := fun z d' => z = 1 /\ entitlements d' = entitlements d).
  { eapply runs_UPDATE; [exact Hr|done|done]. }
  intros z d1 t5 [-> Hent]. eapply runs_bind with (R := fun _ d' => d' = d1); [by apply runs_guard|]. intros _ d2 t6 ->.
  destruct (rs_budget r - charge_of c =? 0); [by apply runs_ret|].
  assert (Hall : rs_budget r - charge_of c <= e_allocated e).
  { rewrite (q_alloc _ _ _ _ _ _ _ Hq _ _ He). unfold held_by.
    pose proof (map_sum_elem_le (fun k l => at_key (le_ent l) (le_ent c) (held (reservations d) k l)) (leases d) k c) as Hle.
    cbv beta in Hle. rewrite at_key_eq in Hle. unfold held in Hle at 2. rewrite Hr, Ecl in Hle.
    enough (rs_budget r <= map_sum (fun k l => at_key (le_ent l) (le_ent c) (held (reservations d) k l)) (leases d)) by lia.
    apply Hle; [|done]. intros k' l' Hl'. unfold at_key. destruct (String.eqb _ _); [|done]. unfold held.
    destruct (reservations d !! k') as [r'|] eqn:Hr'; [|done]. pose proof (q_lease _ _ _ _ _ _ _ Hq _ _ Hl') as Hok'.
    pose proof (charge_of_bounds _ _ _ _ _ Hok' Hr'). destruct (rs_closed r' =? 0); lia. }
  eapply runs_bind with (R := fun z d' => z = 1).
  { eapply runs_UPDATE; [cbn; rewrite Hent; exact He|by apply Z.leb_le|done]. }
  intros z d2 t7 ->. by apply runs_guard.
Qed.

Lemma in_shop_runs {A} (m : Tx DB A) env p t Q : runs m env (shop p) t Q -> runs (in_shop m) env p t (fun a p' => exists d, p' = set_shop d p /\ Q a d).
Proof. intros (a & d & t' & Hm & HQ). exists a, (set_shop d p), t'. unfold in_shop. rewrite Hm. eauto. Qed.
Lemma bump_version_runs node env p t : runs (bump_version node) env p t (fun _ _ => True).
Proof.
  unfold bump_version. eapply runs_bind with (R := fun _ _ => True); [|intros; by apply runs_ret].
  eapply runs_conseq; [apply (in_shop_runs _ _ _ _ (fun _ _ => True))|done].
  destruct (cp_nodes (shop p) !! node) as [v|] eqn:E; [by eapply runs_UPDATE|].
  unfold UPDATE. eapply runs_bind with (R := fun m d => m = cp_nodes (shop p)); [by apply runs_gets|]. intros m d t' ->. rewrite E. by apply runs_ret.
Qed.

(** A retirement at the counter of the lease is accepted. *)
Lemma retire_runs node k l header config env p t : panel_inv p -> rule_leases p !! k = Some l -> rl_node l = node ->
  runs (retireLease shop_options node k (rl_spent l) header config) env p t (fun _ _ => True).
Proof.
  intros Hp Hl Hn. pose proof Hp as [Hs Hd]. pose proof (dk_bounds _ Hd _ _ Hl) as Hb. unfold retireLease. rewrite (proj2 (Z.ltb_ge _ 0)) by lia.
  eapply runs_bind with (R := fun o p' => o = Some l /\ p' = p); [by apply runs_gets|]. intros o p1 t1 [-> ->].
  eapply runs_bind with (R := fun x p' => x = l /\ p' = p); [by apply runs_ret|]. intros x p1 t2 [-> ->].
  rewrite Hn, String.eqb_refl, Z.eqb_refl. cbn [negb orb].
  eapply runs_bind with (R := fun o p' => o = retirements p !! k /\ p' = p); [by apply runs_gets|]. intros o p1 t3 [-> ->].
  destruct (retirements p !! k) as [r|] eqn:Hr.
  { destruct (dk_retired _ Hd _ _ Hr) as (l' & Hl' & Hu & _). rewrite Hl in Hl'. injection Hl' as <-. rewrite Hu, Z.eqb_refl. by apply runs_ret. }
  eapply runs_bind with (R := fun _ p' => p' = p).
  { unfold retirement_hint. destruct (negb _); [by apply runs_ret|]. eapply runs_bind with (R := fun _ p' => p' = p); [by apply runs_gets|].
    intros row p1 t4 ->. by apply runs_ret. }
  intros h p1 t4 ->. eapply runs_bind with (R := fun _ p' => retirements p' = retirements p).
  { destruct (String.eqb (rl_ent l) "admin-test") eqn:Ea; [by apply runs_ret|]. cbn [shop_options opt_RetireLease]. bool_to_prop.
    destruct (dk_backed _ Hd _ _ Hl Ea) as (c & Hc & _ & Hcn & _). rewrite <- (books_agree _ _ _ _ Hp Hl Ea Hc).
    eapply runs_conseq; [apply in_shop_runs, RetireLease_runs; [exact (service_quota _ Hs)|exact Hc|congruence]|]. by intros ? ? (d & -> & _). }
  intros u p1 t5 Hret. eapply runs_bind with (R := fun _ p' => p' = p1); [by apply runs_now|]. intros now p2 t6 ->.
  eapply runs_bind with (R := fun _ _ => True).
  { unfold add_retirement. eapply runs_bind with (R := fun m p' => m = retirements p /\ p' = p1); [by apply runs_gets|]. intros m p2 t7 [-> ->].
    eapply runs_bind with (R := fun _ _ => True); [by apply runs_guard; [apply bool_decide_eq_true|]|]. intros. by apply runs_modify. }
  intros u2 p2 t8 _. eapply runs_bind; [apply bump_version_runs|]. intros. by apply runs_ret.
Qed.
End Desk.
