(* ===== verification/DeskRefresh.v ===== *)
(** * After a refresh no served rule has a retired lease

    What a refresh does to each rule of the node: other rules and the
    retirements stay as they were, and the primary of a rule that is served
    is one that was not retired. *)

From S2P Require Import AgentState.
From S2P Require Import Prelude Tx GoStrings Calendar Rational PlanRules Schema Wallet Plans Quota Purchases Refunds Payments Commerce.
From S2P Require Import Desk DeskInv.
From stdpp Require Import base gmap strings list.
From Stdlib Require Import Ascii String.
Local Open Scope string_scope.
Local Open Scope Z_scope.

Section Refresh.
Context {RS : RatSyntax}.

(** The tables the reads of a refresh depend on. *)
Definition still (q p : Panel) : Prop := payloads p = payloads q /\ retirements p = retirements q.

Definition unretired (q : Panel) (l : option NodeLease) : Prop :=
  forall x, l = Some x -> retirements q !! NL_ID x = None.

Lemma retired_in_false k p : retired_in k p = false -> retirements p !! k = None.
Proof. unfold retired_in. intros H. bool_to_prop. destruct (retirements p !! k) eqn:E; [|done]. exfalso. eauto. Qed.

Lemma liveLease_live user l env p t p' t' :
  liveLeaseTx shop_options user l env p t = (Ok (true, p'), t') -> unretired p l.
Proof.
  intros Hrun x ->. unfold liveLeaseTx in Hrun. apply tx_bind_Ok in Hrun as (now & p1 & t1 & Hn & Hrun). apply Now_Ok in Hn as ->.
  destruct (negb _); [by apply mret_Ok in Hrun as (? & _)|]. apply tx_bind_Ok in Hrun as (r & p1 & t2 & Hr & Hrun).
  apply gets_Ok in Hr as (-> & -> & _). destruct (retired_in _ p) eqn:E; [by apply mret_Ok in Hrun as (? & _)|].
  by apply retired_in_false.
Qed.

Lemma check_standby_live pipeline rule env p t rc p' t' :
  check_standby shop_options pipeline rule env p t = (Ok (rc, p'), t') ->
  p' = p /\ unretired p (PR_Standby rc.1) /\ PR_ID rc.1 = PR_ID rule /\ PR_Lease rc.1 = PR_Lease rule.
Proof.
  unfold check_standby. destruct (PR_Standby rule) as [l|] eqn:El.
  - intros Hrun. apply tx_bind_Ok in Hrun as (live & p1 & t1 & Hl & Hrun).
    pose proof (liveLeaseTx_reads (fun q => q = p) _ _ _ _ _ _ _ _ Hl eq_refl) as ->.
    destruct (negb live || negb pipeline) eqn:E; apply mret_Ok in Hrun as (-> & -> & _); split; try done.
    bool_to_prop. subst live. cbn [fst]. rewrite El. split; [by eapply liveLease_live|done].
  - intros Hrun. apply mret_Ok in Hrun as (-> & -> & _). cbn [fst]. rewrite El. done.
Qed.

Lemma check_primary_live allowed rule env p t vr p' t' :
  check_primary shop_options allowed rule env p t = (Ok (vr, p'), t') ->
  p' = p /\ (vr.1 = true -> unretired p (PR_Lease rule)).
Proof.
  intros Hrun. pose proof (check_primary_reads (fun q => q = p) _ _ _ _ _ _ _ _ Hrun eq_refl) as ->. split; [done|].
  unfold check_primary in Hrun. destruct (PR_Lease rule) as [l|] eqn:El; [|by intros _ x].
  destruct (negb allowed); [by apply mret_Ok in Hrun as (-> & _)|].
  apply tx_bind_Ok in Hrun as (now & p1 & t1 & Hn & Hrun). apply Now_Ok in Hn as ->.
  destruct (negb _); [by apply mret_Ok in Hrun as (-> & _)|]. apply tx_bind_Ok in Hrun as (r & p1 & t2 & Hr & Hrun).
  apply gets_Ok in Hr as (-> & -> & _). destruct (retired_in _ p) eqn:E; [by apply mret_Ok in Hrun as (-> & _)|].
  intros _ x [= <-]. by apply retired_in_false.
Qed.

(** What is added while a rule is looked at leaves the rules alone. *)
Section Still.
Context (q : Panel).

Lemma in_shop_still {A} (m : Tx DB A) : keeps (still q) (in_shop m).
Proof. intros env p t a p' t' Hrun Hs. apply in_shop_Ok in Hrun as (d & _ & ->). exact Hs. Qed.
Lemma add_lease_row_still k row : keeps (still q) (add_lease_row k row).
Proof. intros env p t u p' t' Hrun Hs. apply add_lease_row_Ok in Hrun as [_ ->]. exact Hs. Qed.
Hint Resolve in_shop_still add_lease_row_still : keeps.
Lemma unless_unavailable_still m : keeps (still q) (unless_unavailable m).
Proof.
  intros env p t r p' t' Hrun Hs. apply unless_unavailable_Ok in Hrun as [[-> ->]|(l & d & -> & _ & ->)]; exact Hs.
Qed.
Hint Resolve unless_unavailable_still : keeps.
Lemma allocateStandby_still rule multiplier budget : keeps (still q) (allocateStandbyTx shop_options rule multiplier budget).
Proof. unfold allocateStandbyTx. keeps_walk; auto. Qed.
Hint Resolve allocateStandby_still : keeps.
Lemma refillStandby_still rule g raw :
  hoare (still q) (refillStandbyTx shop_options rule g raw)
    (fun br p => still q p /\ PR_Lease br.2 = PR_Lease rule /\ PR_ID br.2 = PR_ID rule).
Proof.
  unfold refillStandbyTx. destruct (_ || _); [by apply hoare_ret|].
  eapply hoare_bind_inv; [by apply hoare_of_res|]. intros b. eapply hoare_bind_inv; [apply allocateStandby_still|].
  intros [l|]; by apply hoare_ret.
Qed.
Lemma replace_primary_still pipeline retired node multiplier rule old :
  keeps (still q) (replace_primary shop_options pipeline retired node multiplier rule old).
Proof. unfold replace_primary, plain_primary. keeps_walk; auto. Qed.

(** A rule is written, and only this one. *)
Definition wrote (id : string) (p : Panel) : Prop :=
  retirements p = retirements q /\ (forall k, k <> id -> payloads p !! k = payloads q !! k) /\
  exists rule, payloads p !! id = Some rule /\ unretired q (PR_Lease rule).

Lemma save_payload_wrote rule : unretired q (PR_Lease rule) ->
  hoare (still q) (save_payload rule) (fun _ => wrote (PR_ID rule)).
Proof.
  intros Hu env p t c p' t' Hrun [Hp Hr]. unfold save_payload in Hrun. apply tx_bind_Ok in Hrun as (n & p1 & t1 & Hn & Hrun).
  apply tx_bind_Ok in Hrun as (u & p2 & t2 & Hg & Hrun). apply guard_Ok in Hg as (Hg & -> & _). apply mret_Ok in Hrun as (_ & -> & _).
  bool_to_prop. subst n. unfold update_payload in Hn. apply tx_bind_Ok in Hn as (row & p2 & t3 & H1 & Hn). apply gets_Ok in H1 as (-> & -> & _).
  destruct (rule_at _ p) as [[row old]|]; [|by apply mret_Ok in Hn as (? & _)].
  destruct (_ =? _); [|by apply mret_Ok in Hn as (? & _)]. tx_inv Hn. split; [done|]. cbn. split.
  - intros k Hne. rewrite lookup_insert_ne by congruence. by rewrite Hp.
  - exists rule. by rewrite lookup_insert_eq.
Qed.
End Still.

Lemma still_trans q p r : still q p -> still p r -> still q r.
Proof. intros [H1 H2] [H3 H4]. split; congruence. Qed.
Lemma wrote_still q p id r : still q p -> wrote p id r -> wrote q id r.
Proof.
  intros [H1 H2] (H3 & H4 & rule & H5 & H6). split; [congruence|]. split; [intros k Hk; rewrite H4 by done; by rewrite H1|].
  exists rule. split; [done|]. unfold unretired in *. by rewrite <- H2.
Qed.
Lemma unretired_still q p l : still q p -> unretired q l -> unretired p l.
Proof. intros [_ H] Hu x Hx. rewrite H. by apply Hu. Qed.

(** The end of [renew_primary]: a standby is added perhaps, the rule is saved. *)
Lemma refill_and_save (b : bool) rule g raw env p t c p' t' :
  unretired p (PR_Lease rule) ->
  (rule ← (if b then br ← refillStandbyTx shop_options rule g raw; mret br.2 else mret rule); save_payload rule) env p t
    = (Ok (c, p'), t') -> wrote p (PR_ID rule) p'.
Proof.
  intros Hu Hrun. apply tx_bind_Ok in Hrun as (rule2 & p2 & t2 & Hr & Hs).
  assert (H : still p p2 /\ PR_Lease rule2 = PR_Lease rule /\ PR_ID rule2 = PR_ID rule).
  { destruct b; [|by apply mret_Ok in Hr as (-> & -> & _)]. apply tx_bind_Ok in Hr as (br & p3 & t3 & Hr & Hm).
    apply mret_Ok in Hm as (-> & -> & _). by apply (refillStandby_still p _ _ _ _ _ _ _ _ _ Hr). }
  destruct H as (H1 & H2 & H3). rewrite <- H3. apply (wrote_still _ _ _ _ H1).
  apply (save_payload_wrote p2 rule2) with (2 := Hs); [|done]. rewrite H2. by eapply unretired_still.
Qed.

Lemma renew_primary_wrote pipeline allowed retired node hint rule g env p t c p' t' :
  panel_inv p -> unretired p (PR_Standby rule) ->
  renew_primary shop_options pipeline allowed retired node hint rule g env p t = (Ok (c, p'), t') ->
  wrote p (PR_ID rule) p' \/ (p' = p /\ PR_Lease rule = None).
Proof.
  intros Hp Hst Hrun. unfold renew_primary in Hrun. cbn zeta in Hrun. set (standby := if allowed then _ else _) in Hrun.
  assert (Hs : unretired p standby) by (subst standby; destruct allowed; [done|by intros x]).
  apply tx_bind_Ok in Hrun as (fresh & p1 & t1 & Hf & Hrun).
  assert (Hfresh : (fresh = None /\ p1 = p) \/ (exists l d', fresh = Some l /\ p1 = set_shop d' p)).
  { destruct standby; [by apply mret_Ok in Hf as (-> & -> & _); left|].
    destruct allowed; [|by apply mret_Ok in Hf as (-> & -> & _); left].
    destruct (replace_primary_Ok _ _ _ _ _ _ _ _ _ _ _ _ Hp Hf) as [?|(l & d' & H1 & H2 & _)]; [by left|right; eauto]. }
  clear Hf. destruct Hfresh as [[-> ->]|(l & d' & -> & ->)].
  - destruct (_ && _) eqn:E.
    { right. apply mret_Ok in Hrun as (_ & -> & _). bool_to_prop. done. }
    left. apply tx_bind_Ok in Hrun as (u & p2 & t2 & Hu & Hrun). apply mret_Ok in Hu as (_ & -> & _).
    by apply refill_and_save in Hrun.
  - left. cbn [PR_Lease set_lease] in Hrun. rewrite (bool_decide_eq_false_2 (Some (to_node l) = None)), andb_false_r in Hrun by done.
    apply tx_bind_Ok in Hrun as (u & p2 & t2 & Hu & Hrun). apply enter_primary_Ok in Hu as [Hn ->].
    assert (Hnr : retirements p !! L_ID l = None).
    { destruct (retirements p !! L_ID l) as [r|] eqn:E; [|done]. destruct (dk_retired _ (proj2 Hp) _ _ E) as (x & Hx & _).
      cbn in Hn. congruence. }
    apply refill_and_save in Hrun; [|intros x [= <-]; exact Hnr]. eapply wrote_still; [|exact Hrun]. done.
Qed.

Lemma refresh_item_wrote pipeline node hint it policies env p t cp p' t' :
  panel_inv p -> payloads p !! PR_ID (it_rule it) = Some (it_rule it) -> skipped it = false ->
  refresh_item shop_options pipeline node hint it policies env p t = (Ok (cp, p'), t') -> wrote p (PR_ID (it_rule it)) p'.
Proof.
  intros Hp Hpay Hsk Hrun. unfold refresh_item in Hrun. rewrite Hsk in Hrun. cbn zeta in Hrun.
  assert (Hsame : forall p2, still p p2 -> unretired p (PR_Lease (it_rule it)) -> wrote p (PR_ID (it_rule it)) p2).
  { intros p2 [H1 H2] Hu. split; [done|]. split; [intros; by rewrite H1|]. exists (it_rule it). by rewrite H1. }
  apply tx_bind_Ok in Hrun as (limits & p1 & t1 & Hl & Hrun).
  assert (p1 = p) as ->.
  { destruct (policies !! _); [by apply mret_Ok in Hl as (_ & -> & _)|].
    exact (accountLimits_reads (fun q => q = p) _ _ _ _ _ _ _ Hl eq_refl). }
  apply tx_bind_Ok in Hrun as (allowed & p1 & t2 & Ha & Hrun).
  pose proof (withinPlanRuleLimit_reads (fun q => q = p) _ _ _ _ _ _ _ _ Ha eq_refl) as ->.
  apply tx_bind_Ok in Hrun as (rc & p1 & t3 & Hc & Hrun). apply check_standby_live in Hc as (-> & Hst & Hid & Hle).
  set (legacy := match PR_Lease (it_rule it) with Some l => negb (bool_decide (NL_Limits l = no_limits)) | None => false end) in Hrun.
  set (rule := if legacy then _ else rc.1) in Hrun.
  assert (Hr : PR_ID rule = PR_ID (it_rule it) /\ PR_Standby rule = PR_Standby rc.1 /\ (PR_Lease rule = None -> PR_Lease (it_rule it) = None)
    /\ (unretired p (PR_Lease rule) -> unretired p (PR_Lease (it_rule it)))).
  { subst rule. destruct legacy; cbn; rewrite ?Hle; [|done]. split; [done|]. split; [done|]. split; [by destruct (PR_Lease (it_rule it))|].
    intros Hu x Hx. rewrite Hx in Hu. by apply (Hu (clear_limits x)). }
  destruct Hr as (R1 & R2 & R3 & R4). rewrite <- R1 in *.
  apply tx_bind_Ok in Hrun as (vr & p1 & t4 & Hv & Hrun). apply check_primary_live in Hv as [-> Hv].
  destruct (negb vr.1) eqn:Ev; bool_to_prop.
  - apply tx_bind_Ok in Hrun as (c & p1 & t5 & Hn & Hrun). apply mret_Ok in Hrun as (_ & -> & _). rewrite <- R2 in Hst.
    destruct (renew_primary_wrote _ _ _ _ _ _ _ _ _ _ _ _ _ Hp Hst Hn) as [?|[-> Hnone]]; [done|].
    apply Hsame; [done|]. rewrite R3 by done. by intros x.
  - specialize (Hv Ev). apply tx_bind_Ok in Hrun as (br & p1 & t5 & Hb & Hrun).
    assert (H : still p p1 /\ PR_Lease br.2 = PR_Lease rule /\ PR_ID br.2 = PR_ID rule).
    { destruct (_ && _ && _) in Hb; [by apply (refillStandby_still p _ _ _ _ _ _ _ _ _ Hb)|by apply mret_Ok in Hb as (-> & -> & _)]. }
    destruct H as (H1 & H2 & H3). destruct (_ || _).
    + apply tx_bind_Ok in Hrun as (c & p2 & t6 & Hs & Hrun). apply mret_Ok in Hrun as (_ & -> & _).
      rewrite <- H3. apply (wrote_still _ _ _ _ H1). apply (save_payload_wrote p1 br.2) with (2 := Hs); [|done].
      rewrite H2. by eapply unretired_still.
    + apply mret_Ok in Hrun as (_ & -> & _). apply Hsame; [done|]. by apply R4.
Qed.

Definition item_id (it : item) : string := PR_ID (it_rule it).

Lemma refresh_items_wrote pipeline node hint items : forall changed policies env p t c p' t',
  panel_inv p -> NoDup (item_id <$> items) ->
  Forall (fun it => payloads p !! item_id it = Some (it_rule it) /\ PR_NodeID (it_rule it) = node /\ owned (it_rule it) p) items ->
  refresh_items shop_options pipeline node hint items changed policies env p t = (Ok (c, p'), t') ->
  retirements p' = retirements p /\ (forall k, k ∉ item_id <$> items -> payloads p' !! k = payloads p !! k) /\
  (forall it, it ∈ items -> skipped it = false ->
     exists rule, payloads p' !! item_id it = Some rule /\ unretired p (PR_Lease rule)).
Proof.
  induction items as [|it items IH]; intros changed policies env p t c p' t' Hp Hnd Hall Hrun; cbn [refresh_items] in Hrun.
  { apply mret_Ok in Hrun as (_ & -> & _). split; [done|]. split; [done|set_solver]. }
  rewrite fmap_cons in Hnd. apply NoDup_cons in Hnd as [Hn Hnd]. apply Forall_cons in Hall as [(Hpay & Hnode & Hown) Hall].
  apply tx_bind_Ok in Hrun as (cp & p1 & t1 & H1 & Hrun).
  assert (HG : G p p1).
  { refine (refresh_item_spec p _ _ _ _ _ Hnode _ _ _ _ _ _ H1 _). split; [split; [done|reflexivity]|done]. }
  assert (Hw : (skipped it = true /\ p1 = p) \/ wrote p (item_id it) p1).
  { destruct (skipped it) eqn:Es; [left|right; by eapply refresh_item_wrote]. split; [done|].
    unfold refresh_item in H1. rewrite Es in H1. by apply mret_Ok in H1 as (_ & -> & _). }
  assert (Hoth : retirements p1 = retirements p /\ forall k, k <> item_id it -> payloads p1 !! k = payloads p !! k).
  { destruct Hw as [[_ ->]|(B1 & B2 & _)]; done. }
  destruct Hoth as [Hret Hoth].
  apply IH in Hrun as (A1 & A2 & A3); [|exact (proj1 HG)|done|].
  2: { rewrite Forall_forall in Hall |- *. intros x Hx. destruct (Hall x Hx) as (B1 & B2 & B3). split; [|split; [done|]].
       - rewrite Hoth; [done|]. intros He. apply Hn. rewrite <- He. apply list_elem_of_fmap. eauto.
       - eapply owned_grows; [exact (proj2 HG)|done]. }
  split; [congruence|]. split.
  - intros k Hk. rewrite fmap_cons in Hk. rewrite A2, Hoth by set_solver. done.
  - intros x [->|Hx]%elem_of_cons Hs.
    + destruct Hw as [[? _]|(_ & _ & rule & Hr & Hu)]; [congruence|]. exists rule. rewrite A2 by done. done.
    + destruct (A3 x Hx Hs) as (rule & Hr & Hu). exists rule. split; [done|]. intros y Hy. rewrite <- Hret. by apply Hu.
Qed.

Lemma items_ids p (l : list (string * rule_row)) :
  desk_inv p -> sublist (item_id <$> omap (item_of p) l) l.*1.
Proof.
  intros Hd. induction l as [|[k row] l IH]; [done|]. cbn [omap list_omap]. destruct (item_of p (k, row)) as [it|] eqn:E.
  - rewrite !fmap_cons. cbn [fst]. unfold item_of in E. cbn [fst snd] in E. destruct (payloads p !! k) as [rule|] eqn:Hr; [|done].
    destruct (groups p !! _); [|done]. destruct (cp_users (shop p) !! _); [|done]. injection E as <-.
    unfold item_id at 1. cbn [it_rule]. rewrite (dk_payload _ Hd _ _ Hr). by apply sublist_skip.
  - rewrite fmap_cons. by apply sublist_cons.
Qed.

Lemma items_payload node p it : desk_inv p -> it ∈ items_of node p -> payloads p !! item_id it = Some (it_rule it).
Proof.
  intros Hd Hin. apply list_elem_of_omap in Hin as ([k row] & _ & Hit). unfold item_of in Hit. cbn [fst snd] in Hit.
  destruct (payloads p !! k) as [rule|] eqn:Hr; [|done]. destruct (groups p !! _); [|done].
  destruct (cp_users (shop p) !! _); [|done]. injection Hit as <-. unfold item_id. cbn [it_rule].
  by rewrite (dk_payload _ Hd _ _ Hr).
Qed.

Lemma refresh_wrote owners node hint env p t u p' t' :
  panel_inv p -> refreshLeasesWithPrefetch shop_options owners node hint env p t = (Ok (u, p'), t') ->
  retirements p' = retirements p /\
  (forall it, it ∈ items_of node p -> skipped it = false ->
     exists rule, payloads p' !! item_id it = Some rule /\ unretired p' (PR_Lease rule)).
Proof.
  intros Hp Hrun. unfold refreshLeasesWithPrefetch in Hrun.
  apply tx_bind_Ok in Hrun as (u1 & p1 & t1 & H1 & Hrun).
  assert (p1 = p) as ->.
  { refine (keeps_for_each (fun q => q = p) _ _ _ _ _ _ _ _ _ H1 eq_refl). intros owner _.
    eapply hoare_bind_inv; [apply in_shop_reads; intros; apply SELECT_reads|]. intros row.
    eapply hoare_bind_inv; [by apply hoare_or_fail|]. intros _. by apply hoare_ret. }
  apply tx_bind_Ok in Hrun as (caps & p1 & t2 & H2 & Hrun). apply gets_Ok in H2 as (-> & -> & _).
  apply tx_bind_Ok in Hrun as (caps & p1 & t3 & H3 & Hrun). apply or_fail_Ok in H3 as (_ & -> & _). cbn zeta in Hrun.
  apply tx_bind_Ok in Hrun as (items & p1 & t4 & H4 & Hrun). apply gets_Ok in H4 as (-> & -> & _).
  apply tx_bind_Ok in Hrun as (u2 & p1 & t5 & H5 & Hrun). apply guard_Ok in H5 as (_ & -> & _).
  apply tx_bind_Ok in Hrun as (changed & p1 & t6 & H6 & Hrun).
  apply refresh_items_wrote in H6 as (A1 & _ & A3); [|done| |].
  - assert (Hst : still p1 p').
    { destruct changed; [|by apply mret_Ok in Hrun as (_ & -> & _)]. unfold bump_version in Hrun.
      apply tx_bind_Ok in Hrun as (n & p2 & t7 & H7 & Hrun). apply mret_Ok in Hrun as (_ & -> & _).
      by apply (in_shop_still p1 _ _ _ _ _ _ _ H7). }
    destruct Hst as [S1 S2]. split; [congruence|]. intros it Hit Hs. destruct (A3 it Hit Hs) as (rule & Hr & Hu).
    exists rule. rewrite S1. split; [done|]. intros x Hx. rewrite S2, A1. by apply Hu.
  - eapply sublist_NoDup; [|apply items_ids; exact (proj2 Hp)].
    eapply sublist_NoDup; [apply (NoDup_fst_map_to_list (cp_rules (shop p)))|apply fmap_sublist, sublist_filter].
  - apply Forall_forall. intros it Hit. split; [by eapply items_payload; [exact (proj2 Hp)|]|]. by apply items_owned.
Qed.
End Refresh.
