(* ===== verification/DeskEvolve.v ===== *)
(** * How a panel changes between two moments

    Leases stay on the books with their terms, filed usage and retirements
    stay, and only the intake of usage and a retirement add to those two: what
    a node was told yesterday still holds today, whatever the shop, the desk
    and the rest of the control plane did in between. *)

From S2P Require Import AgentState.
From S2P Require Import Prelude Tx GoStrings Calendar Rational PlanRules Schema Wallet Plans Quota Purchases Refunds Payments Commerce.
From S2P Require Import Desk DeskInv DeskSystem DeskRefresh.
From stdpp Require Import base gmap strings list relations.
From Stdlib Require Import Ascii String.
Local Open Scope string_scope.
Local Open Scope Z_scope.

(** A lease of the desk without its counter. *)
Definition row_terms (l : rule_lease) : string * string * string * Z * Z :=
  (rl_rule l, rl_node l, rl_ent l, rl_bytes l, rl_until l).

Definition rows_stay (p p' : Panel) : Prop :=
  forall k l, rule_leases p !! k = Some l -> exists l', rule_leases p' !! k = Some l' /\ row_terms l' = row_terms l.
Definition expiry_stays (d d' : DB) : Prop :=
  forall k c, leases d !! k = Some c -> exists c', leases d' !! k = Some c' /\ le_expires c' = le_expires c.

Record evolves (p p' : Panel) : Prop := {
  ev_rows : rows_stay p p';
  ev_expiry : expiry_stays (shop p) (shop p');
  ev_usage : cp_usage p ⊆ cp_usage p';
  ev_retired : retirements p ⊆ retirements p'
}.
#[export] Instance evolves_preorder : PreOrder evolves.
Proof.
  split.
  - intros p. split; [..|done|done]; intros k l Hl; eauto.
  - intros p q r [A1 A2 A3 A4] [B1 B2 B3 B4]. split; [| |by etrans|by etrans].
    + intros k l Hl. destruct (A1 _ _ Hl) as (l1 & H1 & <-). by apply B1.
    + intros k c Hc. destruct (A2 _ _ Hc) as (c1 & H1 & <-). by apply B2.
Qed.

(** An operation that neither files usage nor retires a lease. *)
Definition quiet (q p : Panel) : Prop :=
  rows_stay q p /\ expiry_stays (shop q) (shop p) /\ cp_usage p = cp_usage q /\ retirements p = retirements q.

Lemma quiet_evolves q p : quiet q p -> evolves q p.
Proof. intros (H1 & H2 & H3 & H4). split; [done|done|by rewrite H3|by rewrite H4]. Qed.
Lemma quiet_same p : quiet p p.
Proof. repeat split; intros k l Hl; eauto. Qed.

(** ** The shop *)
Section Shop.
Context {RS : RatSyntax}.

Lemma expiry_beside d d' : leases d' = leases d -> expiry_stays d d'.
Proof. intros H k c Hc. rewrite H. eauto. Qed.

Lemma Allocate_expiry d0 user rule node multiplier requested :
  keeps (expiry_stays d0) (AllocateBudgetWithMultiplier user rule node multiplier requested).
Proof.
  unfold AllocateBudgetWithMultiplier. keeps_walk; auto.
  intros k c Hc. match goal with Hs : expiry_stays d0 _ |- _ => destruct (Hs _ _ Hc) as (c' & Hl & He) end.
  exists c'. split; [|done]. simpl. rewrite lookup_insert_ne; [done|]. intros <-. simpl in *. congruence.
Qed.
End Shop.

(** ** The desk *)
Section Desk.
Context {RS : RatSyntax} (q : Panel).

Lemma in_shop_quiet {A} (m : Tx DB A) : (forall d0, keeps (expiry_stays d0) m) -> keeps (quiet q) (in_shop m).
Proof.
  intros Hm env p t a p' t' Hrun (H1 & H2 & H3 & H4). apply in_shop_Ok in Hrun as (d & Hrun & ->).
  split; [done|]. split; [|done]. exact (Hm _ _ _ _ _ _ _ Hrun H2).
Qed.
Lemma in_shop_reads_quiet {A} (m : Tx DB A) : (forall Q, keeps Q m) -> keeps (quiet q) (in_shop m).
Proof. intros Hm. apply in_shop_quiet. intros d0. apply Hm. Qed.
Lemma unless_unavailable_quiet m : (forall d0, keeps (expiry_stays d0) m) -> keeps (quiet q) (unless_unavailable m).
Proof.
  intros Hm env p t r p' t' Hrun (H1 & H2 & H3 & H4).
  apply unless_unavailable_Ok in Hrun as [[-> ->]|(l & d & -> & Hrun & ->)]; [done|].
  split; [done|]. split; [|done]. exact (Hm _ _ _ _ _ _ _ Hrun H2).
Qed.
Lemma add_lease_row_quiet k row : keeps (quiet q) (add_lease_row k row).
Proof.
  intros env p t u p' t' Hrun (H1 & H2 & H3 & H4). apply add_lease_row_Ok in Hrun as [Hn ->].
  split; [|done]. intros x l Hl. destruct (H1 _ _ Hl) as (l' & Hl' & Ht). exists l'. split; [|done].
  simpl. rewrite lookup_insert_ne; [done|]. intros <-. congruence.
Qed.
Lemma update_payload_quiet rule : keeps (quiet q) (update_payload rule).
Proof. unfold update_payload. keeps_walk; auto. Qed.
Lemma Allocate_stays d0 user rule node multiplier : keeps (expiry_stays d0) (AllocateWithMultiplier user rule node multiplier).
Proof. apply Allocate_expiry. Qed.
Lemma nodes_quiet node f : keeps (quiet q) (in_shop (UPDATE Nodes node (fun _ => true) f)).
Proof. apply in_shop_quiet. intros d0. apply hoare_UPDATE; auto. Qed.
Lemma all_nodes_quiet f : keeps (quiet q) (in_shop (UPDATE_all Nodes (fun _ _ => true) f)).
Proof. apply in_shop_quiet. intros d0 env d t u d' t' Hrun Hs. by apply UPDATE_all_Ok in Hrun as ->. Qed.

Hint Resolve add_lease_row_quiet update_payload_quiet nodes_quiet all_nodes_quiet : keeps.
Hint Extern 1 (keeps _ (in_shop (AllocateWithMultiplier _ _ _ _))) => (apply in_shop_quiet; intros; apply Allocate_stays) : keeps.
Hint Extern 1 (keeps _ (unless_unavailable _)) => (apply unless_unavailable_quiet; intros; apply Allocate_expiry) : keeps.
Hint Extern 1 (keeps _ (in_shop (SELECT _ _))) => (apply in_shop_reads_quiet; intros; apply SELECT_reads) : keeps.
Hint Resolve accountLimits_reads withinPlanRuleLimit_reads lockRuleOwner_reads liveLeaseTx_reads check_primary_reads : keeps.

Lemma bump_version_quiet node : keeps (quiet q) (bump_version node).
Proof. unfold bump_version. keeps_walk; auto. Qed.
Lemma allocateStandby_quiet rule multiplier budget : keeps (quiet q) (allocateStandbyTx shop_options rule multiplier budget).
Proof. unfold allocateStandbyTx, budget_allocator. cbn [shop_options opt_Entitlements es_AllocateBudget]. keeps_walk; auto. Qed.
Hint Resolve bump_version_quiet allocateStandby_quiet : keeps.
Lemma refillStandby_quiet rule g raw : keeps (quiet q) (refillStandbyTx shop_options rule g raw).
Proof. unfold refillStandbyTx. keeps_walk; auto. Qed.
Lemma save_payload_quiet rule : keeps (quiet q) (save_payload rule).
Proof. unfold save_payload. keeps_walk; auto. Qed.
Lemma check_standby_quiet pipeline rule : keeps (quiet q) (check_standby shop_options pipeline rule).
Proof. unfold check_standby. keeps_walk; auto. Qed.
Lemma replace_primary_quiet pipeline retired node multiplier rule old :
  keeps (quiet q) (replace_primary shop_options pipeline retired node multiplier rule old).
Proof.
  unfold replace_primary, plain_primary. cbn [shop_options opt_Entitlements es_AllocateBudget es_AllocateMultiplier].
  keeps_walk; auto.
Qed.
Hint Resolve refillStandby_quiet save_payload_quiet check_standby_quiet replace_primary_quiet : keeps.
Lemma renew_primary_quiet pipeline allowed retired node hint rule g :
  keeps (quiet q) (renew_primary shop_options pipeline allowed retired node hint rule g).
Proof. unfold renew_primary, enter_primary. keeps_walk; auto. Qed.
Hint Resolve renew_primary_quiet : keeps.
Lemma refresh_item_quiet pipeline node hint it policies : keeps (quiet q) (refresh_item shop_options pipeline node hint it policies).
Proof. unfold refresh_item. keeps_walk; auto. Qed.
Hint Resolve refresh_item_quiet : keeps.
Lemma refresh_items_quiet pipeline node hint items : forall changed policies,
  keeps (quiet q) (refresh_items shop_options pipeline node hint items changed policies).
Proof. induction items as [|it items IH]; intros changed policies; cbn [refresh_items]; keeps_walk; auto. Qed.
Hint Resolve refresh_items_quiet : keeps.
Lemma refresh_quiet owners node hint : keeps (quiet q) (refreshLeasesWithPrefetch shop_options owners node hint).
Proof. unfold refreshLeasesWithPrefetch. keeps_walk; auto. Qed.
Lemma prefetch_quiet node ruleID leaseID raw : keeps (quiet q) (prefetchLease shop_options node ruleID leaseID raw).
Proof. unfold prefetchLease, prefetch_rule. keeps_walk; auto. Qed.
Lemma insert_rule_quiet k row : keeps (quiet q) (in_shop (INSERT Rules k row)).
Proof. apply in_shop_quiet. intros d0. apply hoare_INSERT. auto. Qed.
Hint Resolve insert_rule_quiet : keeps.
Lemma store_quiet admin create port_free rule : keeps (quiet q) (store_rule shop_options admin create port_free rule).
Proof.
  unfold store_rule, fund_rule, first_lease, write_payload. cbn [shop_options opt_Entitlements es_AllocateMultiplier].
  keeps_walk; auto.
Qed.
End Desk.

(** ** A step of the panel *)
Section Steps.
Context {RS : RatSyntax}.

Lemma control_quiet p p' : control p p' -> quiet p p'.
Proof.
  intros [(users & rules & nodes & hooks & deliv & Hs) Hl Hr Hu _]. split; [intros k l Hk; rewrite Hl; eauto|].
  split; [|done]. rewrite Hs. by apply expiry_beside.
Qed.
Lemma shop_quiet o env p : op_ok o -> lease_op o = false -> quiet p (set_shop (Write (exec o) env (shop p)).2 p).
Proof.
  intros Ho Hl. split; [intros k l Hk; simpl; eauto|]. split; [|done]. apply expiry_beside.
  pose proof (keeps_Write (beside_desk (shop p)) (exec o) env (shop p) (exec_beside _ o Ho Hl)) as H. by apply H.
Qed.

(** A retirement: one row, of a lease of the node that asked, at the counter
    of the lease. *)
Lemma retire_evolves node lease used header config env p p' hint :
  panel_inv p -> Write (retireLease shop_options node lease used header config) env p = (Ok hint, p') ->
  evolves p p' /\ cp_usage p' = cp_usage p /\
  exists l, rule_leases p !! lease = Some l /\ rl_node l = node /\ rl_spent l = used /\
    forall k, k <> lease -> retirements p' !! k = retirements p !! k.
Proof.
  intros Hp Hrun. apply Write_Ok in Hrun as [t Hrun].
  destruct (retireLease_Ok _ _ _ _ _ _ _ _ _ _ _ Hp Hrun) as (_ & l & Hl & Hn & Hu & [(r & _ & _ & -> & _)|(Hnone & [])]).
  { split; [reflexivity|]. eauto 10. }
  destruct re_row as [at_ Hrow]. split; [split|]; rewrite ?re_leases, ?re_usage, ?Hrow.
  - intros k x Hx. rewrite re_leases. eauto.
  - destruct re_shop as (d1 & (Hls & _) & _ & Hd1). apply expiry_beside. rewrite Hls.
    destruct (String.eqb _ _); [by subst d1|]. destruct Hd1 as (env1 & t1 & t2 & Hd1).
    by destruct (RetireLease_desk _ _ _ _ _ _ _ _ (proj1 Hp) Hd1) as (_ & ? & _).
  - done.
  - by apply insert_subseteq.
  - split; [done|]. exists l. do 3 (split; [done|]). intros k Hk. by rewrite lookup_insert_ne.
Qed.

(** A batch of usage: new rows are records of the batch, on leases of the
    node that sent it. *)
Lemma usage_evolves node records env p p' :
  panel_inv p -> Write (persistUsageBatch shop_options node records) env p = (Ok tt, p') ->
  evolves p p' /\ retirements p' = retirements p /\
  (forall k row, cp_usage p' !! k = Some row -> cp_usage p !! k = Some row \/
     (cu_payload row ∈ records /\ exists l, rule_leases p !! cu_lease row = Some l /\ rl_node l = node)).
Proof.
  intros Hp Hrun. apply Write_Ok in Hrun as [t Hrun].
  destruct (persist_Ok _ _ _ _ _ _ _ _ Hp Hrun) as [Hp' []]. split; [split|split; [done|]].
  - intros k l Hl. destruct ik_fresh as (fresh & _ & _ & Hf). exists (with_spent (rl_spent l + brought k fresh) l).
    split; [by apply Hf|done].
  - intros k c Hc. specialize (ik_shop k). rewrite Hc in ik_shop. destruct (leases (shop p') !! k) as [c'|]; [|done].
    exists c'. split; [done|]. unfold terms in ik_shop. simpl in ik_shop. congruence.
  - done.
  - by rewrite ik_retired.
  - intros k row Hrow. destruct (cp_usage p !! k) as [old|] eqn:Ho.
    { left. pose proof (lookup_weaken _ _ _ _ Ho ik_usage). congruence. }
    right. destruct (ik_only _ _ Hrow) as [?|Hin]; [congruence|]. split; [done|].
    destruct (dk_usage _ (proj2 Hp') _ _ Hrow) as (Hid & Hle & _). rewrite <- Hle. apply ik_lease; [done|]. by rewrite Hid.
Qed.
End Steps.
