(* ===== verification/DeskGuarantees.v ===== *)
(** * The lease desk: the theorems

    What holds of the shop and the control plane together, in every panel
    they can reach: the books agree, what a node is told of is paid for, and
    what it reports is taken in once, completely and always. *)

From S2P Require Import AgentState.
From S2P Require Import Prelude Tx GoStrings Calendar Digest Money Rational PlanRules Schema Wallet Plans Quota Purchases Refunds Payments Commerce Scenarios.
From S2P Require Import Desk DeskInv DeskSystem DeskScenarios DeskProgress DeskRefresh.
From stdpp Require Import base gmap strings list relations.
From Stdlib Require Import Ascii String.
Local Open Scope string_scope.
Local Open Scope Z_scope.

Section Guarantees.
Context {RS : RatSyntax}.

(** A reservation is part of what its entitlement has allocated. *)
Lemma budget_allocated d k c r e :
  quota_inv d -> leases d !! k = Some c -> reservations d !! k = Some r -> rs_closed r = 0 ->
  entitlements d !! le_ent c = Some e -> rs_budget r <= e_allocated e.
Proof.
  intros Hq Hc Hr Ho He.
  assert (Hh : held (reservations d) k c = rs_budget r) by (unfold held; by rewrite Hr, Ho). rewrite (q_alloc _ _ _ _ _ _ _ Hq _ _ He). unfold held_by.
  pose proof (map_sum_elem_le (fun k l => at_key (le_ent l) (le_ent c) (held (reservations d) k l)) (leases d) k c) as H.
  cbn beta in H. rewrite at_key_eq, Hh in H. apply H; [|done].
  intros x l Hl. unfold at_key. destruct (String.eqb _ _); [|done]. pose proof (held_bounds _ _ _ _ _ _ _ _ _ Hq Hl). lia.
Qed.

(** C12: the books of the control plane and of the shop agree.  A lease has
    spent exactly the bytes of its usage records and never more than it has;
    the shop has the same lease with the same counter and has charged its
    rounded total; and it is retired in both halves or in neither, at the
    counter it had. *)
Theorem desk_books p k l : panel_reachable p -> rule_leases p !! k = Some l ->
  0 <= rl_spent l <= rl_bytes l /\ rl_spent l = spent_of k (cp_usage p) /\
  (forall r, retirements p !! k = Some r -> rt_used r = rl_spent l) /\
  (paid l -> exists c r, leases (shop p) !! k = Some c /\ reservations (shop p) !! k = Some r /\ backs c l /\
     le_used c = rl_spent l /\ recorded k (usage (shop p)) = ceil_charge (rl_spent l) (mult_of c) /\
     (is_Some (retirements p !! k) <-> rs_closed r <> 0)).
Proof.
  intros Hp Hl. apply panel_reachable_inv in Hp. pose proof Hp as [Hs Hd]. pose proof (service_quota _ Hs) as Hq.
  split; [by apply (dk_bounds _ Hd _ _ Hl)|]. split; [by apply (dk_spent _ Hd)|]. split.
  - intros r Hr. destruct (dk_retired _ Hd _ _ Hr) as (l' & Hl' & Hu & _). congruence.
  - intros Hpd. destruct (dk_backed _ Hd _ _ Hl Hpd) as (c & Hc & Hb).
    destruct (lk_budget _ _ _ _ (q_lease _ _ _ _ _ _ _ Hq _ _ Hc)) as (r & Hr & _). exists c, r.
    pose proof (books_agree _ _ _ _ Hp Hl Hpd Hc) as Hu. do 4 (split; [done|]). split.
    + rewrite <- Hu. pose proof (q_charged _ _ _ _ _ _ _ Hq _ _ Hc) as H. unfold zero in H. rewrite Z.add_0_r in H. by symmetry.
    + split; [|by apply (dk_closed _ Hd)]. intros [x Hx]. destruct (dk_retired _ Hd _ _ Hx) as (l' & Hl' & _ & H).
      rewrite Hl in Hl'. injection Hl' as <-. destruct (H Hpd) as (r' & Hr' & Hc'). congruence.
Qed.

(** C13: a node is only told of leases that are paid for.  Every lease in a
    rule, test grants apart, is of the rule's owner, node and rule in the
    shop, with the same bytes; until it is retired, an open reservation that
    is part of the entitlement's allocation covers the charge for all its
    bytes; and no other rule has it. *)
Theorem desk_backed p k rule l : panel_reachable p -> payloads p !! k = Some rule -> l ∈ rule_leases_of rule ->
  NL_EntitlementID l <> "admin-test" ->
  (exists c, leases (shop p) !! NL_ID l = Some c /\ le_user c = PR_UserID rule /\ le_node c = PR_NodeID rule /\
     le_rule c = PR_ID rule /\ le_ent c = NL_EntitlementID l /\ le_bytes c = NL_Bytes l /\
     (retirements p !! NL_ID l = None -> exists r e, reservations (shop p) !! NL_ID l = Some r /\ rs_closed r = 0 /\
        ceil_charge (NL_Bytes l) (mult_of c) <= rs_budget r /\
        entitlements (shop p) !! NL_EntitlementID l = Some e /\ rs_budget r <= e_allocated e)) /\
  (forall k' rule' l', payloads p !! k' = Some rule' -> l' ∈ rule_leases_of rule' -> NL_ID l' = NL_ID l -> k' = k).
Proof.
  intros Hp Hr Hl Hna. apply panel_reachable_inv in Hp as [Hs Hd]. pose proof (service_quota _ Hs) as Hq.
  destruct (dk_published _ Hd _ _ Hr _ Hl) as (row & R1 & R2 & R3 & R4 & R5 & _ & c' & Hc' & Hu & _).
  assert (Hpd : paid row) by (unfold paid; congruence). split.
  - destruct (dk_backed _ Hd _ _ R1 Hpd) as (c & Hc & B1 & B2 & B3 & B4 & _). rewrite Hc in Hc'. injection Hc' as <-. exists c. do 3 (split; [congruence|]). split; [congruence|]. split; [congruence|]. split; [congruence|].
    intros Hn. pose proof (q_lease _ _ _ _ _ _ _ Hq _ _ Hc) as Hok. destruct (lk_budget _ _ _ _ Hok) as (r & Hr' & _ & Hce).
    destruct (lk_ent _ _ _ _ Hok) as [e He]. assert (Ho : rs_closed r = 0).
    { destruct (decide (rs_closed r = 0)) as [?|Hne]; [done|]. destruct (DeskInv.dk_closed _ Hd _ _ Hr' Hne). congruence. }
    exists r, e. split; [done|]. split; [done|]. split; [congruence|]. split; [congruence|]. by eapply budget_allocated.
  - intros k' rule' l' Hr' Hl' He. destruct (dk_published _ Hd _ _ Hr' _ Hl') as (row' & S1 & S2 & _).
    rewrite He in S1. rewrite <- (dk_payload _ Hd _ _ Hr'), <- (dk_payload _ Hd _ _ Hr). congruence.
Qed.

(** A batch of usage counts every record once.  When a batch is accepted,
    every record of it is on file as it was sent; the records that were not on
    file before, each once, are added to their leases, and no other counter
    moves; rules and retirements stay.  Sent again, with a clock that has not
    gone back before the records, it is accepted and nothing changes. *)
Theorem desk_intake node records env p p' : panel_reachable p ->
  Write (persistUsageBatch shop_options node records) env p = (Ok tt, p') ->
  (forall r, r ∈ records -> exists row, cp_usage p' !! U_ID r = Some row /\ cu_payload row = r) /\
  (forall k row, cp_usage p' !! k = Some row -> cp_usage p !! k = Some row \/ cu_payload row ∈ records) /\
  (exists fresh, NoDup (U_ID <$> fresh) /\ (forall u, u ∈ fresh <-> u ∈ records /\ cp_usage p !! U_ID u = None) /\
     forall k l, rule_leases p !! k = Some l ->
       rule_leases p' !! k = Some (with_spent (rl_spent l + brought k fresh) l)) /\
  payloads p' = payloads p /\ retirements p' = retirements p /\
  (forall env2, (forall r n, r ∈ records -> U_EndedAt r <= env_now env2 n + minute) ->
     Write (persistUsageBatch shop_options node records) env2 p' = (Ok tt, p')).
Proof.
  intros Hp Hrun. apply panel_reachable_inv in Hp. apply Write_Ok in Hrun as [t Hrun].
  destruct (persist_Ok _ _ _ _ _ _ _ _ Hp Hrun) as [_ []]. do 5 (split; [done|]).
  intros env2 Hclock. by eapply persist_again.
Qed.

(** C14: what the control plane can take in, the shop settles if it is on
    time.  Given a batch of at most 500 valid records with different
    identifiers, of which those on file already are the same and the new ones
    are within their leases as the control plane checks it: known, not
    retired, of this node, rule and entitlement, not ended in a later second
    than they expire, and not more bytes than they have left.  The batch is
    accepted and every record of it is on file, or it is refused and nothing
    changes; and it is accepted exactly if no new record of a lease that was
    sold ended after the shop's expiry of the lease, which is finer than a
    second.  None of the other reasons for which settlement can refuse
    (multipliers, reservations, overflow, counters that moved) arises. *)
Theorem desk_accepts node records env p : panel_reachable p -> (List.length records <= 500)%nat ->
  NoDup (U_ID <$> records) ->
  Forall (fun u => ValidWindowMetadata u = true /\ valid_usage u = true /\ U_NodeID u = node /\
                   forall n, U_EndedAt u <= env_now env n + minute) records ->
  (forall u row, u ∈ records -> cp_usage p !! U_ID u = Some row -> cu_payload row = u) ->
  let fresh := filter (fun u => cp_usage p !! U_ID u = None) records in
  Forall (in_lease node p) fresh ->
  (forall k l, rule_leases p !! k = Some l -> rl_spent l + brought k fresh <= rl_bytes l) ->
  (Forall (on_time p) fresh ->
     exists p', Write (persistUsageBatch shop_options node records) env p = (Ok tt, p') /\
       forall u, u ∈ records -> exists row, cp_usage p' !! U_ID u = Some row /\ cu_payload row = u) /\
  (~ Forall (on_time p) fresh ->
     exists e, Write (persistUsageBatch shop_options node records) env p = (Err e, p)).
Proof.
  intros Hp Hlen Hnd Hall Hknown fresh Hin Hfit. apply panel_reachable_inv in Hp. split; intros Htime.
  - destruct (persist_runs node records env p 0%nat Hp Hlen Hnd Hall Hknown Hin Htime Hfit) as ([] & p' & t' & Hrun & _).
    exists p'. split; [apply Write_Ok; eauto|]. by apply (persist_Ok _ _ _ _ _ _ _ _ Hp Hrun).
  - destruct (Write (persistUsageBatch shop_options node records) env p) as [[[]|e] p'] eqn:E; [|apply Write_Err in E as ->; eauto].
    destruct Htime. apply Write_Ok in E as [t E]. apply Forall_forall. intros u [Hnew Hu]%list_elem_of_filter. by eapply persist_on_time.
Qed.

(** Retirement gives back exactly what was not used.  It is accepted only
    from the lease's node with the counter both halves have.  The first one
    records that counter and, for a lease that was paid for, closes its
    reservation and returns the budget less the charge to the entitlement;
    any later one changes nothing. *)
Theorem desk_retire node lease used header config env p p' hint : panel_reachable p ->
  Write (retireLease shop_options node lease used header config) env p = (Ok hint, p') ->
  exists l, rule_leases p !! lease = Some l /\ rl_node l = node /\ rl_spent l = used /\
    (is_Some (retirements p !! lease) -> p' = p) /\
    (retirements p !! lease = None ->
       (exists r, retirements p' !! lease = Some r /\ rt_used r = used) /\ rule_leases p' = rule_leases p /\
       cp_usage p' = cp_usage p /\ payloads p' = payloads p /\
       (paid l -> exists c r e, leases (shop p) !! lease = Some c /\ reservations (shop p) !! lease = Some r /\
          entitlements (shop p) !! le_ent c = Some e /\ rs_closed r = 0 /\
          reservations (shop p') !! lease = Some (close_reservation r) /\
          entitlements (shop p') !! le_ent c = Some (add_allocated (- (rs_budget r - charge_of c)) e))).
Proof.
  intros Hp Hrun. apply panel_reachable_inv in Hp. apply Write_Ok in Hrun as [t Hrun]. pose proof Hp as [Hs Hd].
  destruct (retireLease_Ok _ _ _ _ _ _ _ _ _ _ _ Hp Hrun) as [_ (l & Hl & Hn & Hu & Hcase)]. exists l.
  split; [done|]. split; [done|]. split; [done|]. destruct Hcase as [(r & Hr & _ & -> & _)|(Hnone & Hre)].
  { split; [done|]. intros Hx. congruence. }
  split; [intros [? ?]; congruence|]. intros _. destruct Hre as [[at_ Hrow] H2 H3 H4 (d1 & Hb & He & Hd1)].
  split; [exists {| rt_used := rl_spent l; rt_at := at_ |}; rewrite Hrow, lookup_insert_eq; done|].
  do 3 (split; [done|]). intros Hpd. unfold paid in Hpd. apply String.eqb_neq in Hpd as Hne. rewrite Hne in Hd1.
  destruct Hd1 as (env1 & t1 & t2 & Hret). destruct Hb as (_ & Hrs & _).
  destruct (RetireLease_Ok _ _ _ _ _ _ _ _ (service_quota _ Hs) Hret) as (c & r & e & Hc & Hr & Hent & _ & _ & Hcl).
  exists c, r, e. rewrite Hrs, He.
  assert (Ho : rs_closed r = 0).
  { destruct (decide (rs_closed r = 0)) as [?|Hx]; [done|]. destruct (dk_closed _ Hd _ _ Hr Hx). congruence. }
  do 4 (split; [done|]). destruct Hcl as [[? _]|[(_ & Hf & ->)|(_ & _ & ->)]]; [done| |]; cbn; rewrite !lookup_insert_eq.
  - split; [done|]. rewrite Hent, Hf, Z.sub_diag. f_equal. destruct e; unfold add_allocated; cbn. f_equal. lia.
  - done.
Qed.

(** A refresh leaves no served rule on a retired lease.  After a
    successful refresh of a node, whatever the locks, the hint and the clock,
    the primary of every rule that is served there (enabled, its exit and its
    group's policy permitting, its owner enabled and authorized) is one that
    was not retired, if it has one; no retirement is added or lost. *)
Theorem desk_refresh owners node hint env p p' : panel_reachable p ->
  Write (refreshLeasesWithPrefetch shop_options owners node hint) env p = (Ok tt, p') ->
  retirements p' = retirements p /\
  (forall it, it ∈ items_of node p -> skipped it = false ->
     exists rule, payloads p' !! PR_ID (it_rule it) = Some rule /\
       forall l, PR_Lease rule = Some l -> retirements p' !! NL_ID l = None).
Proof.
  intros Hp Hrun. apply panel_reachable_inv in Hp. apply Write_Ok in Hrun as [t Hrun].
  exact (refresh_wrote _ _ _ _ _ _ _ _ _ Hp Hrun).
Qed.
End Guarantees.

(** ** Witnesses on the run of DeskScenarios *)


Lemma desk_books_witness :
  match rule_leases desk_retired !! "e20-1" with
  | Some l => rl_spent l = 1001 /\ rl_spent l = spent_of "e20-1" (cp_usage desk_retired) /\ paid l
  | None => False
  end.
Proof.
  destruct (rule_leases desk_retired !! "e20-1") as [l|] eqn:E; [|vm_compute in E; discriminate E].
  split; [vm_compute in E; injection E as <-; reflexivity|].
  split; [exact (proj1 (proj2 (desk_books desk_retired "e20-1" l retired_reachable E)))|].
  vm_compute in E. injection E as <-. discriminate.
Defined.

Lemma desk_backed_witness :
  match payloads desk_prefetched !! "rule" with
  | Some rule =>
      match PR_Lease rule with
      | Some l => NL_ID l = "e20-1" /\ exists c, leases (shop desk_prefetched) !! NL_ID l = Some c /\ le_bytes c = NL_Bytes l
      | None => False
      end
  | None => False
  end.
Proof.
  destruct (payloads desk_prefetched !! "rule") as [rule|] eqn:E; [|vm_compute in E; discriminate E].
  destruct (PR_Lease rule) as [l|] eqn:El; [|vm_compute in E; injection E as <-; discriminate El].
  assert (Hin : l ∈ rule_leases_of rule) by (unfold rule_leases_of; rewrite El; apply elem_of_cons; left; reflexivity).
  assert (Hid : NL_ID l = "e20-1" /\ NL_EntitlementID l = "e6-0").
  { vm_compute in E. injection E as <-. injection El as <-. split; reflexivity. }
  split; [exact (proj1 Hid)|].
  destruct (desk_backed desk_prefetched "rule" rule l prefetched_reachable E Hin) as [(c & Hc & _ & _ & _ & _ & Hb & _) _];
    [rewrite (proj2 Hid); discriminate|]. exists c. split; [exact Hc|exact Hb].
Defined.

Lemma written {S A} (m : Tx S A) env d a : (Write m env d).1 = Ok a -> Write m env d = (Ok a, (Write m env d).2).
Proof. intros H. rewrite <- H. apply surjective_pairing. Qed.

Lemma only (u r : UsageRecord) l : Forall (eq u) l -> r ∈ l -> r = u.
Proof. rewrite Forall_forall. intros H Hr. symmetry. by apply H. Qed.

Lemma desk_intake_witness :
  (exists row, cp_usage desk_reported !! "u1" = Some row /\ cu_payload row = desk_usage) /\
  Write (persistUsageBatch shop_options "node" [desk_usage; desk_usage]) (demo_env 30) desk_reported = (Ok tt, desk_reported).
Proof.
  assert (Hrun : Write (persistUsageBatch shop_options "node" [desk_usage; desk_usage]) (demo_env 22) desk_prefetched
                 = (Ok tt, desk_reported)) by exact (written _ _ _ _ (proj1 (proj2 (proj2 desk_answers)))).
  destruct (desk_intake "node" [desk_usage; desk_usage] (demo_env 22) desk_prefetched desk_reported prefetched_reachable Hrun)
    as (Hrows & _ & _ & _ & _ & Hagain). split.
  - apply (Hrows desk_usage). apply elem_of_cons. left. reflexivity.
  - apply Hagain. intros r n Hr. apply (only desk_usage) in Hr as ->; [|repeat constructor]. vm_compute. discriminate.
Defined.

Lemma desk_accepts_witness :
  exists p', Write (persistUsageBatch shop_options "node" [desk_usage]) (demo_env 22) desk_prefetched = (Ok tt, p').
Proof.
  assert (Hnone : cp_usage desk_prefetched !! "u1" = None) by evaluates.
  assert (Hl : exists l, rule_leases desk_prefetched !! U_LeaseID desk_usage = Some l /\ rl_rule l = U_RuleID desk_usage /\
    rl_node l = "node" /\ rl_ent l = U_EntitlementID desk_usage /\ Unix (U_EndedAt desk_usage) <= rl_until l).
  { destruct (rule_leases desk_prefetched !! U_LeaseID desk_usage) as [l|] eqn:E; [|vm_compute in E; discriminate E].
    exists l. split; [reflexivity|]. vm_compute in E. injection E as <-. repeat (split; [reflexivity|]). vm_compute. discriminate. }
  destruct Hl as (l0 & Hl0 & Hlr & Hln & Hle & Hlu).
  destruct (desk_accepts "node" [desk_usage] (demo_env 22) desk_prefetched prefetched_reachable) as [Hok _].
  - simpl. lia.
  - apply NoDup_singleton.
  - apply Forall_singleton. split; [evaluates|]. split; [evaluates|]. split; [evaluates|]. intros n. vm_compute. discriminate.
  - intros u row Hu Hr. apply (only desk_usage) in Hu as ->; [|repeat constructor]. change (U_ID desk_usage) with "u1" in Hr.
    rewrite Hnone in Hr. discriminate Hr.
  - match goal with |- Forall _ ?l => replace l with [desk_usage] by (symmetry; evaluates) end. apply Forall_singleton.
    exists l0. split; [exact Hl0|]. split; [evaluates|]. split; [exact Hlr|]. split; [exact Hln|]. split; [exact Hle|exact Hlu].
  - intros k l Hl. match goal with |- context [brought k ?f] => replace f with [desk_usage] by (symmetry; evaluates) end.
    assert (H : bool_decide (map_Forall (fun k l => rl_spent l + brought k [desk_usage] <= rl_bytes l) (rule_leases desk_prefetched)) = true) by evaluates.
    apply bool_decide_eq_true in H. exact (H k l Hl).
  - destruct Hok as (p' & Hrun & _); [|exists p'; exact Hrun].
    match goal with |- Forall _ ?l => replace l with [desk_usage] by (symmetry; evaluates) end. apply Forall_singleton.
    intros l c _ _ Hc. vm_compute in Hc. injection Hc as <-. vm_compute. discriminate.
Defined.

Lemma desk_retire_witness :
  match rule_leases desk_reported !! "e20-1" with
  | Some l => rl_node l = "node" /\ exists r, retirements desk_retired !! "e20-1" = Some r /\ rt_used r = 1001
  | None => False
  end.
Proof.
  assert (Hrun : Write (retireLease shop_options "node" "e20-1" 1001 67108864 true) (demo_env 23) desk_reported
                 = (Ok desk_hint, desk_retired)) by exact (written _ _ _ _ (proj1 (proj2 (proj2 (proj2 desk_answers))))).
  destruct (desk_retire "node" "e20-1" 1001 67108864 true (demo_env 23) desk_reported desk_retired desk_hint reported_reachable Hrun)
    as (l & Hl & Hn & _ & _ & H).
  rewrite Hl. split; [exact Hn|]. apply H. evaluates.
Defined.

Lemma desk_refresh_witness :
  List.length (items_of "node" desk_retired) = 1%nat /\ retirements desk_refreshed = retirements desk_retired /\
  (exists rule, payloads desk_refreshed !! "rule" = Some rule /\
     forall l, PR_Lease rule = Some l -> retirements desk_refreshed !! NL_ID l = None).
Proof.
  assert (Hrun : Write (refreshLeasesWithPrefetch shop_options None "node" desk_hint) (demo_env 24) desk_retired
                 = (Ok tt, desk_refreshed)) by exact (written _ _ _ _ (proj2 (proj2 (proj2 (proj2 desk_answers))))).
  destruct (desk_refresh None "node" desk_hint (demo_env 24) desk_retired desk_refreshed retired_reachable Hrun) as [Hr Hit].
  split; [evaluates|]. split; [exact Hr|].
  destruct (items_of "node" desk_retired) as [|it items] eqn:E; [vm_compute in E; discriminate E|].
  assert (Hs : skipped it = false /\ PR_ID (it_rule it) = "rule").
  { vm_compute in E. injection E as <- _. split; reflexivity. }
  destruct (Hit it ltac:(apply elem_of_cons; left; reflexivity) (proj1 Hs)) as (rule & Hrule & Hl).
  rewrite (proj2 Hs) in Hrule. exists rule. split; [exact Hrule|exact Hl].
Defined.
