(* ===== verification/NodeConfig.v ===== *)
(** * Configurations and reports between panel and node
    (internal/platform/agents.go [config], [nodeConfig], [usage];
    internal/platform/shared_tls.go [filterSharedChildren];
    internal/agent/runtime.go [validate], [Apply]; internal/agent/client.go
    [flush], [retire])

    The panel compiles the configuration of a node from its rules; the agent
    checks what it receives before it persists it, sends the records of its
    spool in batches and reports the leases it has stopped.

    What [nodeConfig] makes of the parts of a rule that carry no lease
    (inspection policy, shared TLS, tunnels, route candidates, services) is
    compiled elsewhere: those results are a [compiler] given to it. *)

From S2P Require Import Prelude Tx GoStrings Calendar Rational PlanRules Schema Wallet Plans Quota Purchases Refunds Payments Commerce.
From S2P Require Import AgentState AgentCredits AgentStore Desk.
From stdpp Require Import base gmap strings list.
From Stdlib Require Import Ascii String.
Local Open Scope string_scope.
Local Open Scope Z_scope.

(** ** The panel *)

Record compiler := {
  cm_ingresses : Panel -> string -> res unit;
  cm_rest : Panel -> list string -> item -> option string;
  cm_topology : Panel -> res unit;
  cm_routes : Panel -> list string -> Rule -> res (list RouteCandidate);
  cm_services : Panel -> string -> res unit;
  cm_shared : string -> option string
}.

Section Panel.
Context (c : compiler).

(** A rule of the node as its agent gets it, and until when; [None] when it
    is left out. *)
Definition config_rule (caps : list string) (it : item) : Tx Panel (option (Rule * Z)) :=
  let rule := it_rule it in
  if PR_ExitUnavailable rule || it_disabled it || negb (PR_Enabled rule) then mret None else
  match PR_Lease rule with
  | None => mret None
  | Some l =>
      now ← Now;
      if negb (now <? NL_ExpiresAt l) || entryPolicyDenied (it_group it) rule
         || (negb (String.eqb (it_role it) "admin") && negb (it_authorized it)) then mret None else
      p ← gets (fun p => p);
      match cm_rest c p caps it with
      | None => mret None
      | Some rest =>
          if String.eqb (PR_Transport rule) "quic" && negb (contains caps "udp-datagram-v1") then mret None else
          let set := contains caps "lease-set-v1" in
          let standby := if set then PR_Standby rule else None in
          let pipeline := set && negb (String.eqb (NL_EntitlementID l) "admin-test") in
          let expiry := match standby with
                        | Some s => if pipeline && (NL_ExpiresAt l <? NL_ExpiresAt s) then NL_ExpiresAt s else NL_ExpiresAt l
                        | None => NL_ExpiresAt l
                        end in
          mret (Some ({| R_ID := PR_ID rule; R_UserID := PR_UserID rule; R_Network := PR_Network rule; R_Enabled := PR_Enabled rule;
                         R_UDP := if String.eqb (PR_Network rule) "udp" && contains caps "udp-credit-v1"
                                  then Some {| CreditWindows := true; MaxSessions := 1024 |} else None;
                         R_Lease := Some l; R_StandbyLease := standby; R_LeasePipeline := pipeline; R_Candidates := []; R_Rest := rest |},
                      expiry))
      end
  end.

Fixpoint config_rules (caps : list string) (items : list item) (until : Z) : Tx Panel (list Rule * Z) :=
  match items with
  | [] => mret ([], until)
  | it :: items =>
      r ← config_rule caps it;
      match r with
      | None => config_rules caps items until
      | Some (r, expiry) =>
          l ← config_rules caps items (if expiry <? until then expiry else until);
          mret (r :: l.1, l.2)
      end
  end.

Definition with_candidates (cs : list RouteCandidate) (r : Rule) : Rule :=
  {| R_ID := R_ID r; R_UserID := R_UserID r; R_Network := R_Network r; R_Enabled := R_Enabled r; R_UDP := R_UDP r;
     R_Lease := R_Lease r; R_StandbyLease := R_StandbyLease r; R_LeasePipeline := R_LeasePipeline r;
     R_Candidates := cs; R_Rest := R_Rest r |}.
Fixpoint route_all (caps : list string) (rules : list Rule) : Tx Panel (list Rule) :=
  match rules with
  | [] => mret []
  | r :: rules =>
      p ← gets (fun p => p);
      match cm_routes c p caps r with
      | Err _ => fail (ErrMsg "route configuration unavailable")
      | Ok cs => l ← route_all caps rules; mret (with_candidates cs r :: l)
      end
  end.

(** [SharedTLS.ParentID] of a rule; [None] when the rule has no [SharedTLS]. *)
Definition sharedParent (r : Rule) : string := default "" (cm_shared c (R_Rest r)).
Definition filterSharedChildren (rules : list Rule) : list Rule :=
  let roots := flat_map (fun r => if bool_decide (cm_shared c (R_Rest r) = Some "") then [R_ID r] else []) rules in
  List.filter (fun r => String.eqb (sharedParent r) "" || contains roots (sharedParent r)) rules.

Definition nodeConfig (node : string) : Tx Panel Config :=
  now ← Now;
  caps ← gets (fun p => capabilities p !! node);
  caps ← or_fail caps (ErrMsg "config unavailable");
  p ← gets (fun p => p);
  match cm_ingresses c p node with
  | Err _ => fail (ErrMsg "shared TLS configuration unavailable")
  | Ok _ =>
      version ← in_shop (SELECT Nodes node);
      version ← or_fail version (ErrMsg "config unavailable");
      items ← gets (items_of node);
      ru ← config_rules caps items (now + day);
      rules ← match cm_topology c p with
              | Err _ => fail (ErrMsg "service configuration unavailable")
              | Ok _ => route_all caps ru.1
              end;
      match (if contains caps "managed-services-v1" then cm_services c p node else Ok tt) with
      | Err _ => fail (ErrMsg "service configuration unavailable")
      | Ok _ => mret {| C_NodeID := node; C_Version := version; C_ValidUntil := ru.2; C_Rules := filterSharedChildren rules |}
      end
  end.

(** The handler of [GET /agent/config]: the leases are refreshed in one
    transaction, the configuration is compiled in another. *)
Definition config_handler {RS : RatSyntax} (env env' : Env) (owners : option (list string)) (node : string) (p : Panel) : res Config * Panel :=
  match Write (refreshLeases shop_options owners node) env p with
  | (Err _, p) => (Err (ErrMsg "lease refresh unavailable or entitlement exhausted"), p)
  | (Ok _, p) => Write (nodeConfig node) env' p
  end.
End Panel.

(** The handler of [POST /agent/usage]: all records of the batch or none. *)
Definition usage_handler {RS : RatSyntax} (env : Env) (node : string) (records : list UsageRecord) (p : Panel) : res (list string) * Panel :=
  if 500 <? Z.of_nat (List.length records) then (Err (ErrMsg "maximum 500 records per batch"), p) else
  match Write (persistUsageBatch shop_options node records) env p with
  | (Ok _, p) => (Ok (U_ID <$> records), p)
  | (Err _, p) => (Err (ErrMsg "usage validation or persistence failed"), p)
  end.

(** ** The agent *)

Definition ResourceLimits_Validate (l : ResourceLimits) : bool :=
  (0 <=? RL_MaxRules l) && (RL_MaxRules l <=? 100000) && (0 <=? RL_MaxConnections l) && (RL_MaxConnections l <=? 1000000)
  && (0 <=? RL_MaxIPs l) && (RL_MaxIPs l <=? 1000000) && (0 <=? RL_BytesPerSecond l) && (RL_BytesPerSecond l <=? 1000000000000).

(** The last part of [validate]: the leases of a rule. *)
Definition validate_leases (now : Z) (r : Rule) : bool :=
  match R_Lease r with
  | None => false
  | Some l =>
      negb (String.eqb (NL_ID l) "") && (0 <? NL_Bytes l)
      && match R_UDP r with
         | Some u => String.eqb (R_Network r) "udp" && (0 <=? MaxSessions u) && (MaxSessions u <=? 4096)
         | None => true
         end
      && match R_StandbyLease r with
         | Some s => R_LeasePipeline r && negb (String.eqb (NL_ID s) "") && negb (String.eqb (NL_ID s) (NL_ID l))
                     && String.eqb (NL_EntitlementID s) (NL_EntitlementID l) && (0 <? NL_Bytes s)
                     && (now <? NL_ExpiresAt s) && (NL_ExpiresAt s <=? now + 5 * minute + second)
         | None => true
         end
      && ResourceLimits_Validate (NL_Limits l)
      && (bool_decide (NL_Limits l = {| RL_MaxRules := 0; RL_MaxConnections := 0; RL_MaxIPs := 0; RL_BytesPerSecond := 0 |})
          || negb (String.eqb (R_UserID r) ""))
  end.

(** The rules of a configuration: each valid, one policy per account, no
    identifier twice. *)
Fixpoint admit_rules (now : Z) (rules : list Rule) (policies : gmap string ResourceLimits) (ids : list string) : bool :=
  match rules with
  | [] => true
  | r :: rules =>
      if negb (R_Enabled r) then admit_rules now rules policies ids else
      validate_leases now r &&
      match R_Lease r with
      | None => false
      | Some l =>
          match policies !! limitOwner r with Some prior => bool_decide (prior = NL_Limits l) | None => true end
          && negb (contains ids (R_ID r))
          && admit_rules now rules (<[limitOwner r := NL_Limits l]> policies) (R_ID r :: ids)
      end
  end.

(** What [Apply] checks of a configuration before it persists it; the
    listeners it opens and the inspection of the traffic are no part of it. *)
Definition udpListeners (rules : list Rule) : Z :=
  Z.of_nat (List.length (List.filter (fun r => R_Enabled r && String.eqb (R_Network r) "udp") rules)).
Definition admit_config (now version : Z) (s : Store) (cfg : Config) : bool :=
  String.eqb (C_NodeID cfg) (G_NodeID (Identity (state s))) && (version <=? C_Version cfg)
  && (now <? C_ValidUntil cfg) && (C_ValidUntil cfg <=? now + day)
  && (udpListeners (C_Rules cfg) <=? 128)
  && admit_rules now (C_Rules cfg) ∅ [].

Definition SetConfig (cfg : Config) : stateEvent :=
  {| Kind := "config"; Ev_Identity := None; Ev_Config := Some cfg; Ev_Usage := None; Ev_Lease := None; Ev_IDs := [];
     Ev_LeaseID := ""; Ev_RuleID := ""; Ev_Window := None |}.
Definition SetIdentity (v : Registered) : stateEvent :=
  {| Kind := "identity"; Ev_Identity := Some v; Ev_Config := None; Ev_Usage := None; Ev_Lease := None; Ev_IDs := [];
     Ev_LeaseID := ""; Ev_RuleID := ""; Ev_Window := None |}.
Definition Confirm (ids : list string) : stateEvent :=
  {| Kind := "ack"; Ev_Identity := None; Ev_Config := None; Ev_Usage := None; Ev_Lease := None; Ev_IDs := ids;
     Ev_LeaseID := ""; Ev_RuleID := ""; Ev_Window := None |}.
Definition ConfirmRetired (lease : string) : stateEvent :=
  {| Kind := "retire_ack"; Ev_Identity := None; Ev_Config := None; Ev_Usage := None; Ev_Lease := None; Ev_IDs := [];
     Ev_LeaseID := lease; Ev_RuleID := ""; Ev_Window := None |}.

(** [flush]: the next batch of the spool, and what becomes of the answer. *)
Definition flush_batch (records : list UsageRecord) : list UsageRecord := take 500 records.
Definition flush_confirm (records : list UsageRecord) (accepted : list string) : res stateEvent :=
  if bool_decide (accepted = []) then Err (ErrMsg "usage not acknowledged") else
  if forallb (fun id => contains (U_ID <$> records) id) accepted then Ok (Confirm accepted)
  else Err (ErrMsg "server acknowledged an unsent usage record").

(** [retire]: the stopped leases with nothing left in the spool. *)
Definition retire_requests (s : Store) : list (string * Z) :=
  List.filter (fun r : string * Z => negb (existsb (fun u => String.eqb (U_LeaseID u) r.1) (Pending (state s)))) (Retirements s).
