(* ===== verification/FleetBooks.v ===== *)
(** * The books of a node and of the panel

    A node's ledger and the panel's desk describe the same traffic.  [accounts]
    relates them: every record the node ever wrote is still in its spool or on
    file at the panel, none is on file that it did not write, and what it has
    used of a lease is the sum of its records.  This file has the relation and
    shows that every event of the ledger and every change of the panel keeps
    it.

    [H] is the list of all records the node has written so far; the agent
    itself forgets them once they are confirmed. *)

From S2P Require Import Prelude Tx GoStrings Calendar Rational PlanRules Schema Quota AgentState AgentCredits.
From S2P Require Import Desk DeskInv DeskEvolve.
From stdpp Require Import base gmap strings list.
From Stdlib Require Import Ascii String.
Local Open Scope string_scope.
Local Open Scope Z_scope.

(** ** Record identifiers *)

(** A direct charge has a random identifier of 32 characters, a record of a
    window the identifier of the window, a colon and its sequence number. *)
Lemma app_prefix_inj a b c d : String.length a = String.length b -> a ++ c = b ++ d -> a = b /\ c = d.
Proof.
  revert b. induction a as [|x a IH]; intros [|y b]; simpl; try done. intros [= Hl] Heq.
  rewrite !string_app_cons in Heq. injection Heq as -> Heq. destruct (IH b Hl Heq) as [-> ->]. done.
Qed.
Lemma FormatInt_inj a b : 0 <= a <= MaxInt64 -> 0 <= b <= MaxInt64 -> FormatInt a = FormatInt b -> a = b.
Proof. intros Ha Hb He. apply ParseInt_FormatInt in Ha, Hb. rewrite He in Ha. congruence. Qed.
Lemma FormatInt_short n : 0 <= n <= MaxInt64 -> (String.length (FormatInt n) <= 20)%nat.
Proof.
  intros Hn. unfold FormatInt. replace (n <? 0) with false by lia. apply dec_digits_length; [|lia].
  unfold MaxInt64 in Hn. change (10 ^ Z.of_nat 20) with 100000000000000000000. lia.
Qed.

(** ** The relation *)

Section Books.
Context (N : string).

Definition filed (p : Panel) (u : UsageRecord) : Prop := exists row, cp_usage p !! U_ID u = Some row /\ cu_payload row = u.

(** A lease of the desk for a rule on this node, as the node knows it. *)
Definition granted (p : Panel) (rule : string) (l : NodeLease) : Prop :=
  exists row c, rule_leases p !! NL_ID l = Some row /\ rl_rule row = rule /\ rl_node row = N /\
    rl_ent row = NL_EntitlementID l /\ rl_bytes row = NL_Bytes l /\ rl_until row = Unix (NL_ExpiresAt l) /\
    leases (shop p) !! NL_ID l = Some c /\ le_expires c = NL_ExpiresAt l.

(** A record the desk has no reason to refuse, whatever else it has, if it is
    on time; a record of a window always is, a direct charge is stamped after
    its lease was checked. *)
Definition sound_record (p : Panel) (u : UsageRecord) : Prop :=
  ValidWindowMetadata u = true /\ valid_usage u = true /\ U_NodeID u = N /\ 0 < bytes u /\
  (U_Kind u = "" -> String.length (U_ID u) = 32%nat) /\
  exists l, NL_ID l = U_LeaseID u /\ granted p (U_RuleID u) l /\ NL_EntitlementID l = U_EntitlementID u /\
    (U_Kind u <> "" -> U_EndedAt u <= NL_ExpiresAt l).

Definition lapsed (p : Panel) (clock : Z) (k : string) : Prop :=
  exists c, leases (shop p) !! k = Some c /\ le_expires c <= clock.
Definition settled_all (p : Panel) (H : list UsageRecord) (k : string) : Prop :=
  forall u, u ∈ H -> U_LeaseID u = k -> filed p u.
Definition windowless (st : diskState) (k : string) : Prop :=
  forall id w, Windows st !! id = Some w -> W_LeaseID w <> k.
(** A lease that is over: no more records can come of it. *)
Definition over (p : Panel) (clock : Z) (H : list UsageRecord) (st : diskState) (k : string) : Prop :=
  lapsed p clock k /\ windowless st k /\ settled_all p H k.

(** A window and the records it has produced. *)
Record window_books (p : Panel) (H : list UsageRecord) (st : diskState) (id : string) (w : creditWindow) : Prop := {
  wb_lease l : Leases st !! W_LeaseID w = Some l -> granted p (W_RuleID w) l;
  wb_open : Retired st !! W_LeaseID w = None;
  wb_sequence : 0 <= W_Sequence w <= W_Confirmed w;
  wb_records u : u ∈ H -> U_WindowID u = id -> U_WindowSequence u <= W_Sequence w
}.

Record accounts (p : Panel) (clock : Z) (H : list UsageRecord) (st : diskState) : Prop := {
  ac_disk : disk_inv st;
  ac_node : G_NodeID (Identity st) = N;
  ac_lease k l : Leases st !! k = Some l -> exists rule, granted p rule l;
  ac_config r l : r ∈ C_Rules (Cfg st) -> Some l ∈ ruleLeases r -> granted p (R_ID r) l;
  ac_window id w : Windows st !! id = Some w -> window_books p H st id w;
  ac_used k : used_of st k = pending_bytes H k \/ over p clock H st k;
  ac_record u : u ∈ H -> sound_record p u;
  ac_ids : NoDup (U_ID <$> H);
  ac_pending u : u ∈ Pending st -> u ∈ H;
  ac_spool : NoDup (U_ID <$> Pending st);
  ac_done u : u ∈ H -> u ∉ Pending st -> filed p u;
  ac_filed k row l : cp_usage p !! k = Some row -> rule_leases p !! cu_lease row = Some l -> rl_node l = N -> cu_payload row ∈ H;
  ac_retired k l : is_Some (retirements p !! k) -> rule_leases p !! k = Some l -> rl_node l = N ->
    settled_all p H k /\ (is_Some (Retired st !! k) \/ over p clock H st k)
}.

(** ** The panel moves on *)

Lemma filed_evolves p p' u : evolves p p' -> filed p u -> filed p' u.
Proof. intros He (row & Hr & Hu). exists row. split; [|done]. eapply lookup_weaken; [exact Hr|apply He]. Qed.
Lemma granted_evolves p p' rule l : evolves p p' -> granted p rule l -> granted p' rule l.
Proof.
  intros He (row & c & H1 & H2 & H3 & H4 & H5 & H6 & H7 & H8).
  destruct (ev_rows _ _ He _ _ H1) as (row' & Hr & Ht). destruct (ev_expiry _ _ He _ _ H7) as (c' & Hc & Hx).
  unfold row_terms in Ht. injection Ht as ? ? ? ? ?. exists row', c'. split; [done|]. do 5 (split; [congruence|]).
  split; [done|congruence].
Qed.
Lemma sound_evolves p p' u : evolves p p' -> sound_record p u -> sound_record p' u.
Proof.
  intros He (H1 & H2 & H3 & H4 & H5' & l & H5 & H6 & H7). do 5 (split; [done|]). exists l. split; [done|].
  split; [by eapply granted_evolves|done].
Qed.
Lemma settled_all_evolves p p' H k : evolves p p' -> settled_all p H k -> settled_all p' H k.
Proof. intros He Hs u Hu Hk. eapply filed_evolves; eauto. Qed.
Lemma over_evolves p p' clock clock' H st k : evolves p p' -> clock <= clock' -> over p clock H st k -> over p' clock' H st k.
Proof.
  intros He Hc ((c & Hl & Hx) & Hw & Hs). destruct (ev_expiry _ _ He _ _ Hl) as (c' & Hl' & Hx').
  split; [exists c'; split; [done|lia]|]. split; [done|by eapply settled_all_evolves].
Qed.

(** The panel changes and time passes; new rows for leases of this node are
    records it wrote, and it gets no retirement it did not settle. *)
Lemma accounts_panel p p' clock clock' H st :
  evolves p p' -> clock <= clock' ->
  (forall k row l, cp_usage p' !! k = Some row -> rule_leases p' !! cu_lease row = Some l -> rl_node l = N -> cu_payload row ∈ H) ->
  (forall k l, is_Some (retirements p' !! k) -> rule_leases p' !! k = Some l -> rl_node l = N ->
     (is_Some (retirements p !! k) /\ exists l0, rule_leases p !! k = Some l0 /\ rl_node l0 = N) \/
     (settled_all p' H k /\ (is_Some (Retired st !! k) \/ over p' clock' H st k))) ->
  accounts p clock H st -> accounts p' clock' H st.
Proof.
  intros He Hc Hrows Hret []. split; try done.
  - intros k l Hl. destruct (ac_lease0 _ _ Hl) as [rule Hg]. exists rule. by eapply granted_evolves.
  - intros r l Hr Hl. eapply granted_evolves; eauto.
  - intros id w Hw. destruct (ac_window0 _ _ Hw). split; try done. intros l Hl. eapply granted_evolves; eauto.
  - intros k. destruct (ac_used0 k) as [?|Ho]; [by left|right]. by eapply over_evolves.
  - intros u Hu. eapply sound_evolves; eauto.
  - intros u Hu Hp. eapply filed_evolves; eauto.
  - intros k l Hk Hl Hn. destruct (Hret k l Hk Hl Hn) as [(Hk0 & l0 & Hl0 & Hn0)|?]; [|done].
    destruct (ac_retired0 k l0 Hk0 Hl0 Hn0) as [Hs Ho].
    split; [by eapply settled_all_evolves|]. destruct Ho as [?|Ho]; [by left|right]. by eapply over_evolves.
Qed.
Lemma accounts_clock p clock clock' H st : clock <= clock' -> accounts p clock H st -> accounts p clock' H st.
Proof.
  intros Hc Ha. eapply accounts_panel; [reflexivity|exact Hc|..|exact Ha].
  - apply Ha.
  - intros k l Hk Hl Hn. left. eauto.
Qed.

(** The totals. *)
Lemma granted_row p rule l row : granted p rule l -> rule_leases p !! NL_ID l = Some row ->
  rl_rule row = rule /\ rl_node row = N /\ rl_bytes row = NL_Bytes l.
Proof. intros (row' & c & H1 & H2 & H3 & H4 & H5 & _) Hr. rewrite Hr in H1. injection H1 as <-. done. Qed.
Lemma granted_live p clock H st rule l : granted p rule l -> clock < NL_ExpiresAt l -> ~ over p clock H st (NL_ID l).
Proof.
  intros (row & c & _ & _ & _ & _ & _ & _ & Hc & He) Hlive ((c' & Hc' & Hx) & _). rewrite Hc in Hc'. injection Hc' as <-. lia.
Qed.

(** ** Events *)

(** Any change of the ledger but a confirmation and a pruning. *)
Lemma accounts_step p clock H us st st' :
  accounts p clock H st -> disk_inv st' -> G_NodeID (Identity st') = N ->
  (forall k l, Leases st' !! k = Some l -> exists rule, granted p rule l) ->
  (forall r l, r ∈ C_Rules (Cfg st') -> Some l ∈ ruleLeases r -> granted p (R_ID r) l) ->
  (forall id w, Windows st' !! id = Some w -> window_books p (H ++ us)%list st' id w) ->
  (forall k, used_of st' k = used_of st k + pending_bytes us k) ->
  Pending st' = (Pending st ++ us)%list -> Forall (sound_record p) us -> NoDup (U_ID <$> (H ++ us))%list ->
  (forall k, is_Some (Retired st !! k) -> is_Some (Retired st' !! k)) ->
  (forall k, over p clock H st k -> windowless st' k /\ forall u, u ∈ us -> U_LeaseID u <> k) ->
  (forall u, u ∈ us -> retirements p !! U_LeaseID u = None) ->
  accounts p clock (H ++ us)%list st'.
Proof.
  intros [] Hd Hid Hls Hcfg Hwin Hused Hpend Hsound Hnd Hret Hover Hopen.
  assert (Hset : forall k, settled_all p H k -> (forall u, u ∈ us -> U_LeaseID u <> k) -> settled_all p (H ++ us)%list k).
  { intros k Hs Hn u Hu Hk. apply elem_of_app in Hu as [Hu|Hu]; [by apply Hs|]. by destruct (Hn u Hu). }
  assert (Hov : forall k, over p clock H st k -> over p clock (H ++ us)%list st' k).
  { intros k Ho. destruct (Hover k Ho) as [Hw Hn]. destruct Ho as (He & _ & Hs). split; [done|]. split; [done|]. by apply Hset. }
  split; try done.
  - intros k. destruct (ac_used0 k) as [Hu|Ho]; [left|right; by apply Hov]. unfold pending_bytes in *. rewrite sum_over_app, Hused, Hu. done.
  - intros u Hu. apply elem_of_app in Hu as [Hu|Hu]; [by apply ac_record0|]. rewrite Forall_forall in Hsound. by apply Hsound.
  - intros u. rewrite Hpend. intros [Hu|Hu]%elem_of_app; apply elem_of_app; [left; by apply ac_pending0|by right].
  - rewrite Hpend, fmap_app. rewrite fmap_app in Hnd. apply NoDup_app in Hnd as (_ & Hdis & Hnd). apply NoDup_app. split; [done|].
    split; [|done]. intros x Hx. apply Hdis. apply list_elem_of_fmap in Hx as (u & -> & Hu). apply list_elem_of_fmap. eauto.
  - intros u Hu Hn. rewrite Hpend in Hn. apply not_elem_of_app in Hn as [Hn1 Hn2].
    apply elem_of_app in Hu as [Hu|Hu]; [by apply ac_done0|done].
  - intros k row l Hk Hl Hn. apply elem_of_app. left. by eapply ac_filed0.
  - intros k l Hk Hl Hn. destruct (ac_retired0 k l Hk Hl Hn) as [Hs Ho]. split.
    + apply Hset; [done|]. intros u Hu <-. rewrite (Hopen u Hu) in Hk. by destruct Hk.
    + destruct Ho as [Ho|Ho]; [left; by apply Hret|right; by apply Hov].
Qed.

(** A lease the node may still draw on is not retired at the panel. *)
Lemma live_not_retired p clock H st rule l : accounts p clock H st -> granted p rule l -> Retired st !! NL_ID l = None ->
  ~ over p clock H st (NL_ID l) -> retirements p !! NL_ID l = None.
Proof.
  intros Ha Hg Hr Ho. destruct (retirements p !! NL_ID l) as [x|] eqn:E; [|done]. exfalso.
  destruct Hg as (row & c & H1 & _ & H3 & _).
  destruct (ac_retired _ _ _ _ Ha _ _ (mk_is_Some _ _ E) H1 H3) as [_ [Hs|?]]; [|done]. rewrite Hr in Hs. by destruct Hs.
Qed.

(** A record at the end of the history. *)
Lemma fresh_nodup H u : NoDup (U_ID <$> H) -> (forall v, v ∈ H -> U_ID v <> U_ID u) -> NoDup (U_ID <$> (H ++ [u]))%list.
Proof.
  intros Hnd Hf. rewrite fmap_app. apply NoDup_app. split; [done|]. split; [|apply NoDup_singleton].
  intros x Hx Hin. apply list_elem_of_fmap in Hx as (v & -> & Hv). apply list_elem_of_singleton in Hin. by apply (Hf v Hv).
Qed.
Lemma window_books_app p H u st id w : window_books p H st id w ->
  (U_WindowID u = id -> U_WindowSequence u <= W_Sequence w) -> window_books p (H ++ [u])%list st id w.
Proof.
  intros [] Hu. split; try done. intros v [Hv|Hv]%elem_of_app; [by apply wb_records0|]. by apply list_elem_of_singleton in Hv as ->.
Qed.
Lemma window_books_state p H st st' id w : window_books p H st id w ->
  (forall l, Leases st' !! W_LeaseID w = Some l -> exists l0, Leases st !! W_LeaseID w = Some l0 /\ sameLease l0 l = true) ->
  Retired st' !! W_LeaseID w = None -> window_books p H st' id w.
Proof.
  intros [] Hl Hr. split; try done. intros l Hlk. destruct (Hl l Hlk) as (l0 & Hl0 & (E1 & E2 & E3 & E4)%sameLease_spec).
  destruct (wb_lease0 _ Hl0) as (row & c & G1 & G2 & G3 & G4 & G5 & G6 & G7 & G8). exists row, c.
  rewrite <- E1, <- E2, <- E3, <- E4. done.
Qed.
End Books.
