(* ===== verification/FleetEvents.v ===== *)
(** * Every event of the ledger keeps the books

    [admissible] is what the agent makes sure of beyond the checks of
    [applyEvent]: leases come from the panel, charges and reservations are on
    leases that have not expired, random identifiers are new, a confirmed
    record is on file, and a lease is stopped only after its windows are
    closed.  An admissible event that is accepted keeps [accounts], and so
    does pruning. *)

From S2P Require Import Prelude Tx GoStrings Calendar Rational PlanRules Schema Quota AgentState AgentCredits.
From S2P Require Import Desk DeskInv DeskEvolve FleetBooks.
From stdpp Require Import base gmap strings list.
From Stdlib Require Import Ascii String.
Local Open Scope string_scope.
Local Open Scope Z_scope.

(** The records an event writes. *)
Definition records_of (e : stateEvent) : list UsageRecord := match Ev_Usage e with Some u => [u] | None => [] end.

Section Events.
Context (N : string) (p : Panel) (clock : Z).

(** A direct charge. *)
Record charge_ok (H : list UsageRecord) (u : UsageRecord) (brought : option NodeLease) : Prop := {
  ch_lease : exists l, NL_ID l = U_LeaseID u /\ granted N p (U_RuleID u) l /\ clock < NL_ExpiresAt l;
  ch_brought l : brought = Some l -> granted N p (U_RuleID u) l;
  ch_plain : U_Kind u = "" /\ U_WindowID u = "" /\ U_WindowSequence u = 0;
  ch_id : String.length (U_ID u) = 32%nat;
  ch_some : 0 < bytes u;
  ch_new v : v ∈ H -> U_ID v <> U_ID u;
  ch_times : IsZero (U_StartedAt u) = false /\ U_StartedAt u <= U_EndedAt u
}.
(** A reservation. *)
Record reserve_ok (H : list UsageRecord) (w : creditWindow) (l : NodeLease) : Prop := {
  rv_granted : granted N p (W_RuleID w) l;
  rv_live : clock < NL_ExpiresAt l;
  rv_new u : u ∈ H -> U_WindowID u <> W_ID w
}.

Definition admissible (H : list UsageRecord) (st : diskState) (e : stateEvent) : Prop :=
  event_ok e /\
  (Kind e = "usage" -> forall u, Ev_Usage e = Some u -> charge_ok H u (Ev_Lease e)) /\
  (Kind e = "credit_reserve" -> Ev_Usage e = None /\
     forall w l, Ev_Window e = Some w -> Ev_Lease e = Some l -> reserve_ok H w l) /\
  (Kind e = "credit_progress" -> forall w, Ev_Window e = Some w -> W_Closed w = true \/ Ev_Usage e <> None) /\
  (Kind e <> "usage" -> Kind e <> "credit_progress" -> Ev_Usage e = None) /\
  (Kind e = "config" -> forall c, Ev_Config e = Some c ->
     (forall r l, r ∈ C_Rules c -> Some l ∈ ruleLeases r -> granted N p (R_ID r) l) /\
     (forall id w, Windows st !! id = Some w -> Retired (apply_config c st) !! W_LeaseID w = None)) /\
  (Kind e = "retire" -> windowless st (Ev_LeaseID e)) /\
  (Kind e = "ack" -> forall u, u ∈ H -> U_ID u ∈ Ev_IDs e -> filed p u) /\
  (Kind e = "identity" -> forall v, Ev_Identity e = Some v -> N <> "").

Lemma usage_Ok e st st' : Kind e = "usage" -> applyEvent e st = (Ok tt, st') ->
  exists u l L, Ev_Usage e = Some u /\ Retired st !! U_LeaseID u = None /\ L !! U_LeaseID u = Some l /\
    (L = Leases st \/ (Leases st !! U_LeaseID u = None /\ Ev_Lease e = Some l /\ L = <[U_LeaseID u := l]> (Leases st))) /\
    U_NodeID u = G_NodeID (Identity st) /\ U_EntitlementID u = NL_EntitlementID l /\ U_ID u <> "" /\
    0 <= U_UploadBytes u /\ 0 <= U_DownloadBytes u /\ U_UploadBytes u <= MaxInt64 - U_DownloadBytes u /\
    st' = add_usage u (set_leases L st).
Proof.
  intros Hk. unfold applyEvent. rewrite Hk. cbn -[apply_usage]. unfold apply_usage.
  destruct (Ev_Usage e) as [u|]; [|done]. destruct (_ || _ || _ || _) eqn:E1; [done|].
  destruct (bool_decide _) eqn:E2; [done|]. bool_to_prop.
  assert (Hr : Retired st !! U_LeaseID u = None) by (destruct (Retired st !! U_LeaseID u) eqn:E; [exfalso; eauto|done]).
  destruct (Leases st !! U_LeaseID u) as [l|] eqn:El.
  - destruct (_ || _ || _ || _) eqn:E3; [done|]. bool_to_prop. intros [= <-]. exists u, l, (Leases st).
    split_and!; try done. by left.
  - destruct (Ev_Lease e) as [l|]; [|done]. destruct (String.eqb (NL_ID l) (U_LeaseID u)) eqn:E4; [|done].
    destruct (_ || _ || _ || _) eqn:E3; [done|]. bool_to_prop. intros [= <-]. exists u, l, (<[U_LeaseID u := l]> (Leases st)).
    split_and!; try done; [by rewrite lookup_insert_eq|by right].
Qed.

Lemma used_of_add u L st k : used_of (add_usage u (set_leases L st)) k = used_of st k + pending_bytes [u] k.
Proof.
  unfold add_usage. change (used_of (set_pending _ ?s) k) with (used_of s k). rewrite used_of_insert.
  unfold pending_bytes, at_key, bytes. simpl. destruct (String.eqb _ _) eqn:E; bool_to_prop; [subst|]; unfold used_of; simpl; lia.
Qed.

Lemma charge_sound H u l : charge_ok H u l -> U_NodeID u = N -> U_ID u <> "" -> 0 <= U_UploadBytes u ->
  0 <= U_DownloadBytes u -> U_UploadBytes u <= MaxInt64 - U_DownloadBytes u ->
  (forall l, granted N p (U_RuleID u) l -> NL_ID l = U_LeaseID u -> NL_EntitlementID l = U_EntitlementID u) -> sound_record N p u.
Proof.
  intros [(x & Hx & Hg & Hl) _ (K1 & K2 & K3) Hid Hsome _ [T1 T2]] Hn Hne H1 H2 H3 Hent. split.
  { unfold ValidWindowMetadata. by rewrite K1, K2, K3. }
  split. { unfold valid_usage. apply negb_true_iff. rewrite Hid, T1, (proj2 (String.eqb_neq _ _)) by done.
    repeat (apply orb_false_iff; split); try apply Z.ltb_ge; (done || lia). }
  split; [done|]. split; [done|]. split; [done|]. exists x. split; [done|]. split; [done|]. split; [auto|]. by rewrite K1.
Qed.

Lemma granted_agree rule rule' l l' : granted N p rule l -> granted N p rule' l' -> NL_ID l = NL_ID l' ->
  rule = rule' /\ NL_EntitlementID l = NL_EntitlementID l' /\ NL_ExpiresAt l = NL_ExpiresAt l' /\ NL_Bytes l = NL_Bytes l'.
Proof.
  intros (r & c & A1 & A2 & A3 & A4 & A5 & A6 & A7 & A8) (r' & c' & B1 & B2 & B3 & B4 & B5 & B6 & B7 & B8) He.
  rewrite He, B1 in A1. injection A1 as <-. rewrite He, B7 in A7. injection A7 as <-. split_and!; congruence.
Qed.

Lemma usage_books H e st st' : accounts N p clock H st -> admissible H st e -> Kind e = "usage" ->
  applyEvent e st = (Ok tt, st') -> accounts N p clock (H ++ records_of e)%list st'.
Proof.
  intros Ha (Hok & Hch & _) Hk Hap. pose proof (applyEvent_inv e st Hok (ac_disk _ _ _ _ _ Ha)) as Hd. rewrite Hap in Hd. cbn in Hd.
  destruct (usage_Ok _ _ _ Hk Hap) as (u & l & L & Hu & Hr & HL & Hcase & Hn & Hent & Hid & B1 & B2 & B3 & ->).
  specialize (Hch Hk _ Hu). unfold records_of. rewrite Hu. pose proof (ch_lease _ _ _ Hch) as (x & Hx & Hg & Hlive).
  assert (Hnid : U_NodeID u = N) by (rewrite Hn; apply Ha).
  assert (Hleases : forall k y, L !! k = Some y -> exists rule, granted N p rule y).
  { intros k y Hy. destruct Hcase as [->|(_ & Hb & ->)]; [by eapply (ac_lease _ _ _ _ _ Ha)|].
    apply lookup_insert_Some in Hy as [[_ <-]|[_ Hy]]; [eexists; by eapply (ch_brought _ _ _ Hch)|by eapply (ac_lease _ _ _ _ _ Ha)]. }
  assert (HidL : NL_ID l = U_LeaseID u) by (by destruct (di_lease _ Hd _ _ HL)).
  assert (Hlent : NL_EntitlementID x = U_EntitlementID u).
  { destruct (Hleases _ _ HL) as [rule Hgl]. rewrite Hent. by destruct (granted_agree _ _ _ _ Hg Hgl ltac:(congruence)) as (_ & ? & _). }
  assert (Hno : ~ over p clock H st (U_LeaseID u)) by (rewrite <- Hx; by eapply granted_live).
  assert (Hs : sound_record N p u).
  { eapply charge_sound; eauto. intros y Hy Hyid. by destruct (granted_agree _ _ _ _ Hy Hg ltac:(congruence)) as (_ & -> & _). }
  eapply accounts_step; [exact Ha|exact Hd|apply Ha|exact Hleases|apply Ha| |intros k; apply used_of_add|done|by apply Forall_singleton| | | |]; cbn.
  - intros id w Hw. apply window_books_app.
    + eapply window_books_state; [by apply (ac_window _ _ _ _ _ Ha)| |cbn; by apply (wb_open _ _ _ _ _ _ (ac_window _ _ _ _ _ Ha _ _ Hw))].
      cbn. intros y Hy. destruct Hcase as [->|(Hnone & _ & ->)]; [exists y; split; [done|apply sameLease_refl]|].
      apply lookup_insert_Some in Hy as [[Heq _]|[_ Hy]]; [|exists y; split; [done|apply sameLease_refl]].
      destruct (di_window _ (ac_disk _ _ _ _ _ Ha) _ _ Hw) as (_ & _ & _ & y0 & Hy0 & _). congruence.
    + intros <-. destruct (ch_plain _ _ _ Hch) as (_ & _ & ->).
      pose proof (wb_sequence _ _ _ _ _ _ (ac_window _ _ _ _ _ Ha _ _ Hw)). lia.
  - apply fresh_nodup; [apply Ha|]. intros v Hv. by apply (ch_new _ _ _ Hch).
  - done.
  - intros k Ho. split; [by destruct Ho as (_ & ? & _)|]. intros v Hv. apply list_elem_of_singleton in Hv as ->. intros <-. done.
  - intros v Hv. apply list_elem_of_singleton in Hv as ->. rewrite <- Hx. eapply live_not_retired; [exact Ha|exact Hg|by rewrite Hx|by rewrite Hx].
Qed.

Lemma reserve_full e st st' : Kind e = "credit_reserve" -> applyEvent e st = (Ok tt, st') ->
  exists w l, Ev_Window e = Some w /\ Ev_Lease e = Some l /\ Windows st !! W_ID w = None /\ W_Confirmed w = 0 /\ W_Sequence w = 0 /\
    W_LeaseID w = NL_ID l /\ Retired st !! W_LeaseID w = None /\
    (forall old, Leases st !! W_LeaseID w = Some old -> sameLease old l = true) /\
    st' = set_windows (<[W_ID w := w]> (Windows st)) (set_leases (<[W_LeaseID w := l]> (Leases st)) st).
Proof.
  intros Hk. unfold applyEvent. rewrite Hk. cbn -[apply_credit]. unfold apply_credit, validateCreditEvent. rewrite Hk. cbn -[validReserve].
  destruct (Ev_Window e) as [w|]; [|done]. destruct (negb (valid_window w)); [done|].
  destruct (validReserve st w (Ev_Lease e)) eqn:Er; [|done]. intros [= <-]. unfold validReserve in Er.
  destruct (Ev_Lease e) as [l|]; [|done]. pass Er E1. pass Er E2. pass Er E3. bool_to_prop. exists w, l.
  split; [done|]. split; [done|]. split; [by apply eq_None_not_Some|]. do 3 (split; [done|]).
  split; [by apply eq_None_not_Some|]. split; [|done]. intros old Ho. rewrite Ho in E2. by bool_to_prop.
Qed.

Lemma reserve_books H e st st' : accounts N p clock H st -> admissible H st e -> Kind e = "credit_reserve" ->
  applyEvent e st = (Ok tt, st') -> accounts N p clock (H ++ records_of e)%list st'.
Proof.
  intros Ha (Hok & _ & Hrv & _) Hk Hap. pose proof (applyEvent_inv e st Hok (ac_disk _ _ _ _ _ Ha)) as Hd. rewrite Hap in Hd. cbn in Hd.
  destruct (reserve_full _ _ _ Hk Hap) as (w & l & Hw & Hl & Hnone & Hc & Hseq & Hid & Hr & Hsame & ->).
  destruct (Hrv Hk) as [Hu Hx]. destruct (Hx w l Hw Hl) as [Hg Hlive Hnew]. unfold records_of. rewrite Hu.
  eapply accounts_step; [exact Ha|exact Hd|apply Ha| |apply Ha| | |by rewrite app_nil_r|done|by rewrite app_nil_r; apply Ha|done| |]; cbn.
  - intros k y [[_ <-]|[_ Hy]]%lookup_insert_Some; [eauto|by eapply (ac_lease _ _ _ _ _ Ha)].
  - rewrite app_nil_r. intros id x [[<- <-]|[Hne Hwx]]%lookup_insert_Some.
    + split; cbn; [|done|lia|]; [by rewrite lookup_insert_eq; intros y [= <-]|]. intros u Hu' He. by destruct (Hnew u Hu').
    + pose proof (ac_window _ _ _ _ _ Ha _ _ Hwx) as Hb. eapply window_books_state; [exact Hb| |exact (wb_open _ _ _ _ _ _ Hb)].
      cbn. intros y [[Heq <-]|[_ Hy]]%lookup_insert_Some; [|exists y; split; [done|apply sameLease_refl]].
      destruct (di_window _ (ac_disk _ _ _ _ _ Ha) _ _ Hwx) as (_ & _ & _ & y0 & Hy0 & _). exists y0. split; [done|].
      apply Hsame. by rewrite Heq.
  - intros k. unfold used_of, pending_bytes. cbn. lia.
  - intros k Ho. split; [|intros u Hin; by apply elem_of_nil in Hin].
    intros id x Hx'. cbn in Hx'. apply lookup_insert_Some in Hx' as [[_ <-]|[_ Hx']]; [|by destruct Ho as (_ & Hwl & _); eapply Hwl].
    rewrite Hid. intros <-. by eapply granted_live.
  - intros u Hin. by apply elem_of_nil in Hin.
Qed.

(** Progress: the window moves on by what its record says. *)
Lemma progress_full e st st' : event_ok e -> Kind e = "credit_progress" -> applyEvent e st = (Ok tt, st') ->
  exists w old, Ev_Window e = Some w /\ Windows st !! W_ID w = Some old /\ valid_window w = true /\ same_window w old = true /\
    W_Sequence w = nextSequence (W_Sequence old) /\ W_Confirmed old <= W_Confirmed w /\
    (Ev_Usage e = None -> W_Confirmed w = W_Confirmed old) /\
    (forall u, Ev_Usage e = Some u -> W_Confirmed old < W_Confirmed w /\ bytes u = W_Confirmed w - W_Confirmed old /\
       valid_progress_usage st w (W_Confirmed w - W_Confirmed old) u = true) /\
    (forall k, used_of st' k = used_of st k + pending_bytes (records_of e) k) /\
    Pending st' = (Pending st ++ records_of e)%list /\ Identity st' = Identity st /\ Cfg st' = Cfg st /\
    Retired st' = Retired st /\ Leases st' = Leases st /\
    Windows st' = if W_Closed w then delete (W_ID w) (Windows st) else <[W_ID w := w]> (Windows st).
Proof.
  intros (Hint & _) Hk. unfold applyEvent. rewrite Hk. cbn -[apply_credit]. unfold apply_credit, validateCreditEvent. rewrite Hk. cbn -[validProgress].
  destruct (Ev_Window e) as [w|]; [|done]. destruct (negb (valid_window w)) eqn:Ev; [done|].
  destruct (validProgress st w (Ev_Usage e)) eqn:Er; [|done]. intros [= <-]. unfold validProgress in Er.
  destruct (Windows st !! W_ID w) as [old|] eqn:Ho; [|done]. pass Er E1. bool_to_prop. exists w, old.
  do 6 (split; [done|]). cbv zeta in Er. unfold records_of. destruct (Ev_Usage e) as [u|].
  - destruct (0 <? _) eqn:Ed; [|done]. destruct (valid_progress_usage _ _ _ _) eqn:Evu; [|done]. bool_to_prop. destruct Hint as [I1 I2].
    destruct (valid_progress_bytes _ _ _ _ I1 I2 Evu) as (Hb & Hle & _). split; [done|]. split; [intros ? [= <-]; split; [lia|done]|].
    split; [|done]. intros k. change (used_of (set_windows _ ?s) k) with (used_of s k). change (used_of (set_pending _ ?s) k) with (used_of s k).
    rewrite used_of_insert. unfold pending_bytes, at_key, bytes. simpl. rewrite Hle.
    destruct (String.eqb _ _) eqn:E; bool_to_prop; [subst|]; lia.
  - destruct (0 <? _) eqn:Ed; [done|]. bool_to_prop. split; [intros _; lia|]. split; [done|].
    split; [|by rewrite app_nil_r]. intros k. unfold used_of, pending_bytes. cbn. lia.
Qed.

(** What the checks of a progress record amount to. *)
Lemma progress_usage_fields st w delta u : valid_progress_usage st w delta u = true ->
  ValidWindowMetadata u = true /\ U_ID u = window_record w /\ U_WindowID u = W_ID w /\ U_WindowSequence u = W_Sequence w /\
  U_RuleID u = W_RuleID w /\ U_LeaseID u = W_LeaseID w /\ U_NodeID u = G_NodeID (Identity st) /\
  U_EntitlementID u = entitlement_of st (W_LeaseID w) /\ 0 <= U_UploadBytes u /\ 0 <= U_DownloadBytes u /\
  U_StartedAt u = W_StartedAt w /\ W_StartedAt w <= U_EndedAt u <= W_Until w.
Proof. unfold valid_progress_usage. intros Hv. repeat (apply andb_prop in Hv as [Hv ?]). bool_to_prop. split_and!; (done || lia). Qed.

Lemma window_id_length w : valid_window w = true -> String.length (W_ID w) = 32%nat /\ IsZero (W_StartedAt w) = false.
Proof. unfold valid_window. intros H. bool_to_prop. split; [lia|done]. Qed.

Lemma nextSequence_step w : valid_window w = true -> 0 <= W_Sequence w <= W_Confirmed w ->
  nextSequence (W_Sequence w) = W_Sequence w + 1 /\ W_Sequence w + 1 <= MaxInt64.
Proof.
  intros (Hc & Hf & _)%valid_window_spec Hs.
  assert (window_limit w <= maxTCPCreditWindow) by (unfold window_limit, maxTCPCreditWindow, creditWindowSize; destruct (W_TCP w); lia).
  unfold maxTCPCreditWindow, MaxInt64 in *. unfold nextSequence. rewrite Z.mod_small; lia.
Qed.

(** The identifier of a progress record is new. *)
Lemma progress_id_new H st w old u v : accounts N p clock H st -> Windows st !! W_ID w = Some old -> valid_window w = true ->
  W_Sequence w = W_Sequence old + 1 -> 0 <= W_Sequence w <= MaxInt64 -> U_ID u = window_record w -> v ∈ H -> U_ID v <> U_ID u.
Proof.
  intros Ha Ho Hv Hs Hb Hid Hin He. destruct (window_id_length _ Hv) as [Hlen _]. rewrite Hid in He. unfold window_record in He.
  destruct (ac_record _ _ _ _ _ Ha _ Hin) as (Hm & _ & _ & _ & Hk & _). unfold ValidWindowMetadata in Hm.
  destruct (String.eqb (U_Kind v) "") eqn:E; bool_to_prop.
  - specialize (Hk E). rewrite He, !length_string_app, Hlen in Hk. cbn [String.length] in Hk. lia.
  - match goal with X : U_ID v = _ |- _ => rewrite X in He end. apply app_prefix_inj in He as [Hw He]; [|lia].
    apply (app_prefix_inj ":" ":") in He as [_ He]; [|done].
    pose proof (wb_records _ _ _ _ _ _ (ac_window _ _ _ _ _ Ha _ _ Ho) v Hin Hw).
    apply FormatInt_inj in He; lia.
Qed.

Lemma progress_sound H st w old u : accounts N p clock H st -> Windows st !! W_ID w = Some old -> valid_window w = true ->
  same_window w old = true -> 0 <= W_Sequence w <= MaxInt64 -> W_Confirmed old < W_Confirmed w -> bytes u = W_Confirmed w - W_Confirmed old ->
  valid_progress_usage st w (W_Confirmed w - W_Confirmed old) u = true -> sound_record N p u.
Proof.
  intros Ha Ho Hv Hsame Hseq Hmore Hb Hvu. destruct (same_window_spec _ _ Hsame) as (S1 & S2 & _ & _ & _ & S6 & S7 & S8).
  destruct (progress_usage_fields _ _ _ _ Hvu) as (F1 & F2 & F3 & F4 & F5 & F6 & F7 & F8 & F9 & F10 & F11 & F12).
  destruct (window_id_length _ Hv) as [Hlen Hz]. pose proof (ac_disk _ _ _ _ _ Ha) as Hd.
  destruct (di_window _ Hd _ _ Ho) as (_ & Hvo & _ & l & Hl & Hexp). destruct (di_lease _ Hd _ _ Hl) as [Hlid _].
  assert (Hn : (String.length (FormatInt (W_Sequence w)) <= 20)%nat) by (by apply FormatInt_short).
  split; [done|]. split.
  { unfold valid_usage. apply negb_true_iff. rewrite F2, F11, Hz. unfold window_record. rewrite !length_string_app, Hlen. cbn [String.length].
    pose proof (valid_window_spec _ Hv) as (Hc & Hf & _). pose proof (valid_window_spec _ Hvo) as (_ & Hf' & _).
    assert (window_limit w <= maxTCPCreditWindow) by (unfold window_limit, maxTCPCreditWindow, creditWindowSize; destruct (W_TCP w); lia).
    unfold bytes, maxTCPCreditWindow in *. rewrite (proj2 (String.eqb_neq _ _)) by (intros X; apply (f_equal String.length) in X; rewrite !length_string_app, Hlen in X; cbn in X; lia).
    repeat (apply orb_false_iff; split); try apply Z.ltb_ge; unfold MaxInt64; (done || lia). }
  split; [rewrite F7; apply Ha|]. split; [lia|]. split.
  { intros Hk. unfold ValidWindowMetadata in F1. rewrite Hk in F1. cbn in F1. bool_to_prop. rewrite <- F3, H0 in Hlen. done. }
  exists l. rewrite F6, F8, F5, S1. split; [done|]. split.
  - rewrite S2. by apply (wb_lease _ _ _ _ _ _ (ac_window _ _ _ _ _ Ha _ _ Ho)).
  - unfold entitlement_of. rewrite Hl. split; [done|]. intros _. lia.
Qed.

Lemma progress_books H e st st' : accounts N p clock H st -> admissible H st e -> Kind e = "credit_progress" ->
  applyEvent e st = (Ok tt, st') -> accounts N p clock (H ++ records_of e)%list st'.
Proof.
  intros Ha (Hok & _ & _ & Hpr & _) Hk Hap. pose proof (applyEvent_inv e st Hok (ac_disk _ _ _ _ _ Ha)) as Hd. rewrite Hap in Hd. cbn in Hd.
  destruct (progress_full _ _ _ Hok Hk Hap) as (w & old & Hw & Ho & Hv & Hsame & Hseq & Hle & Hno & Hus & Hused & Hpend & Hidn & Hcfg & Hret & Hls & Hwin).
  pose proof (ac_window _ _ _ _ _ Ha _ _ Ho) as Hb. destruct (same_window_spec _ _ Hsame) as (S1 & S2 & _).
  destruct (di_window _ (ac_disk _ _ _ _ _ Ha) _ _ Ho) as (Hoid & Hvo & _ & l & Hl & _).
  destruct (nextSequence_step _ Hvo (wb_sequence _ _ _ _ _ _ Hb)) as [Hn1 Hn2]. rewrite Hn1 in Hseq.
  pose proof (wb_sequence _ _ _ _ _ _ Hb) as Hs0. assert (Hrange : 0 <= W_Sequence w <= MaxInt64) by lia.
  assert (Hshape : forall u, u ∈ records_of e -> Ev_Usage e = Some u).
  { unfold records_of. intros u Hu. destruct (Ev_Usage e); [|by apply elem_of_nil in Hu]. apply list_elem_of_singleton in Hu. congruence. }
  assert (Hrec : forall u, u ∈ records_of e -> U_LeaseID u = W_LeaseID old /\ U_WindowID u = W_ID w /\ U_WindowSequence u = W_Sequence w).
  { intros u Hu. destruct (Hus _ (Hshape u Hu)) as (_ & _ & Hvu). apply progress_usage_fields in Hvu as (_ & _ & ? & ? & _ & ? & _). split_and!; congruence. }
  assert (Hno' : ~ over p clock H st (W_LeaseID old)) by (intros (_ & Hwl & _); by apply (Hwl _ _ Ho)).
  destruct (di_lease _ (ac_disk _ _ _ _ _ Ha) _ _ Hl) as [Hlid _].
  eapply accounts_step; [exact Ha|exact Hd|rewrite Hidn; apply Ha|rewrite Hls; apply Ha|rewrite Hcfg; apply Ha| |exact Hused|exact Hpend| | |by rewrite Hret| |].
  - intros id x Hx. rewrite Hwin in Hx.
    assert (Hold : forall y, Windows st !! id = Some y -> id <> W_ID w -> window_books N p (H ++ records_of e)%list st' id y).
    { intros y Hy Hne. destruct (ac_window _ _ _ _ _ Ha _ _ Hy). split; rewrite ?Hls, ?Hret; try done.
      intros u [Hu|Hu]%elem_of_app He; [by apply wb_records|]. destruct (Hrec u Hu) as (_ & ? & _). congruence. }
    destruct (W_Closed w) eqn:Hcl; [apply lookup_delete_Some in Hx as [Hne Hx]; by apply Hold|].
    apply lookup_insert_Some in Hx as [[<- <-]|[Hne Hx]]; [|by apply Hold].
    destruct (Hpr Hk w Hw) as [?|Hsome]; [congruence|]. destruct (Ev_Usage e) as [u0|] eqn:Eu; [|done].
    destruct (Hus _ eq_refl) as (Hlt & _). split; rewrite ?Hls, ?Hret, ?S1, ?S2; try apply Hb; [lia|].
    intros u [Hu|Hu]%elem_of_app He; [pose proof (wb_records _ _ _ _ _ _ Hb u Hu He); lia|]. destruct (Hrec u Hu) as (_ & _ & ->). lia.
  - apply Forall_forall. intros u Hu. destruct (Hus _ (Hshape u Hu)) as (Hmore & Hbu & Hvu). by eapply progress_sound.
  - unfold records_of in *. destruct (Ev_Usage e) as [u|]; [|rewrite app_nil_r; apply Ha]. destruct (Hus _ eq_refl) as (_ & _ & Hvu).
    apply progress_usage_fields in Hvu as (_ & F2 & _). apply fresh_nodup; [apply Ha|]. intros v Hv'. by eapply progress_id_new.
  - intros k Ho'. split; [|intros u Hu; destruct (Hrec u Hu) as (-> & _); intros <-; done].
    intros id x Hx. rewrite Hwin in Hx. destruct Ho' as (_ & Hwl & _).
    destruct (W_Closed w); [apply lookup_delete_Some in Hx as [_ Hx]; by eapply Hwl|].
    apply lookup_insert_Some in Hx as [[<- <-]|[_ Hx]]; [rewrite S1|]; by eapply Hwl.
  - intros u Hu. destruct (Hrec u Hu) as (-> & _). rewrite <- Hlid.
    eapply live_not_retired; [exact Ha|by apply Hb|rewrite Hlid; apply Hb|by rewrite Hlid].
Qed.

(** *** Configurations, retirements and the identity *)

Lemma put_leases_lookup ls : forall L k l, put_leases L ls !! k = Some l -> L !! k = Some l \/ Some l ∈ ls.
Proof.
  induction ls as [|[x|] ls IH]; intros L k l; cbn [put_leases foldl]; [by left|..]; intros Hl; apply IH in Hl as [Hl|Hl]; try (right; by right).
  - cbn in Hl. apply lookup_insert_Some in Hl as [[_ ->]|[_ Hl]]; [right; by left|by left].
  - by left.
Qed.
Lemma stop_leases_keeps active ids : forall r k, is_Some (r !! k) -> is_Some (stop_leases active r ids !! k).
Proof.
  induction ids as [|id ids IH]; intros r k Hk; cbn [stop_leases foldl]; [done|]. apply IH. unfold stop_lease.
  destruct (_ || _); [done|]. apply lookup_insert_is_Some'. by right.
Qed.
Lemma enabled_in c l : Some l ∈ enabled_leases c -> exists r, r ∈ C_Rules c /\ Some l ∈ ruleLeases r.
Proof.
  unfold enabled_leases. rewrite list_elem_of_In, in_flat_map. intros (r & Hr & Hl). exists r. apply list_elem_of_In in Hr.
  split; [done|]. destruct (R_Enabled r); [by apply list_elem_of_In|done].
Qed.

(** Events that write no record and close no window. *)
Definition plain (e : stateEvent) : Prop := Kind e ∈ ["identity"; "config"; "retire"; "retire_ack"].

Lemma plain_Ok e st st' : plain e -> applyEvent e st = (Ok tt, st') ->
  validateEvent st e = Ok tt /\ Kind e <> "usage" /\ Kind e <> "credit_progress" /\
  ((Kind e = "identity" /\ exists v, Ev_Identity e = Some v /\ st' = set_identity v st) \/
   (Kind e = "config" /\ exists c, Ev_Config e = Some c /\ st' = apply_config c st) \/
   (Kind e = "retire" /\ exists r, st' = set_retired r st /\ (forall k, is_Some (Retired st !! k) -> is_Some (r !! k)) /\
      (forall k, r !! k = None \/ k = Ev_LeaseID e \/ r !! k = Retired st !! k)) \/
   (Kind e = "retire_ack" /\ is_Some (Retired st !! Ev_LeaseID e) /\ st' = set_retired (<[Ev_LeaseID e := true]> (Retired st)) st)).
Proof.
  intros Hp Hap. unfold plain in Hp. repeat (apply elem_of_cons in Hp as [Hp|Hp]); [..|by apply elem_of_nil in Hp];
    unfold applyEvent in Hap; rewrite Hp in Hap; cbn -[validateEvent] in Hap;
    destruct (validateEvent st e) as [[]|] eqn:Ev; try done; injection Hap as <-; unfold validateEvent in Ev; rewrite Hp in Ev; cbn in Ev;
    (split; [done|]); rewrite Hp; (split; [done|]); (split; [done|]).
  - left. split; [done|]. destruct (Ev_Identity e); [eauto|done].
  - right; left. split; [done|]. destruct (Ev_Config e); [eauto|done].
  - right; right; left. split; [done|]. destruct (bool_decide (is_Some _)) eqn:E.
    + exists (Retired st). split; [by destruct st|]. auto.
    + eexists. split; [done|]. split; [intros k Hk; apply lookup_insert_is_Some'; by right|].
      intros k. destruct (decide (k = Ev_LeaseID e)) as [->|Hne]; [auto|]. rewrite lookup_insert_ne by done. auto.
  - right; right; right. split; [done|]. destruct (bool_decide _) eqn:E; [done|]. bool_to_prop. split; [|done].
    destruct (Retired st !! Ev_LeaseID e); [eauto|done].
Qed.

Lemma plain_books H e st st' : accounts N p clock H st -> admissible H st e -> plain e ->
  applyEvent e st = (Ok tt, st') -> accounts N p clock (H ++ records_of e)%list st'.
Proof.
  intros Ha (Hok & _ & _ & _ & Hnone & Hcfg & Hret & _ & Hident) Hp Hap. pose proof (ac_disk _ _ _ _ _ Ha) as Hdk.
  pose proof (applyEvent_inv e st Hok Hdk) as Hd. rewrite Hap in Hd. cbn in Hd.
  destruct (plain_Ok _ _ _ Hp Hap) as (Hv & K1 & K2 & Hcase). unfold records_of. rewrite (Hnone K1 K2).
  assert (Hgo : forall st', disk_inv st' -> G_NodeID (Identity st') = N ->
    (forall k l, Leases st' !! k = Some l -> exists rule, granted N p rule l) ->
    (forall r l, r ∈ C_Rules (Cfg st') -> Some l ∈ ruleLeases r -> granted N p (R_ID r) l) ->
    (forall id w, Windows st' !! id = Some w -> window_books N p H st' id w) ->
    Windows st' = Windows st -> Used st' = Used st -> Pending st' = Pending st ->
    (forall k, is_Some (Retired st !! k) -> is_Some (Retired st' !! k)) -> accounts N p clock (H ++ [])%list st').
  { intros s Hs1 Hs2 Hs3 Hs4 Hs5 Hs6 Hs7 Hs8 Hs9. eapply accounts_step; [exact Ha|done..| | | | | | | |]; rewrite ?app_nil_r; try done; try apply Ha.
    - intros k. unfold used_of, pending_bytes. rewrite Hs7. cbn. lia.
    - intros k (_ & Hw & _). split; [|intros u Hu; by apply elem_of_nil in Hu]. intros id w. rewrite Hs6. apply Hw.
    - intros u Hu. by apply elem_of_nil in Hu. }
  assert (Hwl : forall r, (forall id w, Windows st !! id = Some w -> r !! W_LeaseID w = None) -> forall id w, Windows st !! id = Some w -> window_books N p H (set_retired r st) id w).
  { intros r Hr id w Hw. eapply window_books_state; [by apply (ac_window _ _ _ _ _ Ha)| |cbn; by eapply Hr]. cbn. intros l Hl. exists l. split; [done|apply sameLease_refl]. }
  destruct Hcase as [(Hk & v & Hvi & ->)|[(Hk & c & Hc & ->)|[(Hk & r & -> & Hr1 & Hr2)|(Hk & Hs & ->)]]].
  - assert (v = Identity st) as ->.
    { unfold validateEvent in Hv. rewrite Hk, Hvi in Hv. cbn in Hv. rewrite (ac_node _ _ _ _ _ Ha) in Hv.
      rewrite (proj2 (String.eqb_neq _ _)) in Hv by (by eapply Hident). cbn in Hv. destruct (bool_decide _) eqn:E; [|done]. by bool_to_prop. }
    apply Hgo; try done; try apply Ha. intros id w Hw. destruct (ac_window _ _ _ _ _ Ha _ _ Hw). by split.
  - destruct (Hcfg Hk c Hc) as [Hg Hw]. unfold validateEvent in Hv. rewrite Hk, Hc in Hv. cbn in Hv. destruct (existsb _ _) eqn:Hch; [done|].
    assert (Hco : config_ok c) by (destruct Hok as (_ & _ & Hco); by rewrite Hc in Hco).
    destruct (config_grows st c Hdk Hco Hch) as [Hgrow _].
    apply Hgo; try done; try apply Ha.
    + intros k l Hl. cbn in Hl. apply put_leases_lookup in Hl as [Hl|Hl]; [by eapply (ac_lease _ _ _ _ _ Ha)|].
      apply enabled_in in Hl as (r & Hr & Hl). eauto.
    + intros id w Hwi. eapply window_books_state; [by apply (ac_window _ _ _ _ _ Ha)| |by eapply Hw]. cbn. intros l Hl.
      destruct (di_window _ Hdk _ _ Hwi) as (_ & _ & _ & l0 & Hl0 & _). destruct (Hgrow _ _ Hl0) as (l1 & Hl1 & Hs1). exists l0.
      split; [done|]. congruence.
    + intros k. apply stop_leases_keeps.
  - apply Hgo; try done; try apply Ha. apply Hwl. intros id w Hw. destruct (Hr2 (W_LeaseID w)) as [?|[He|He]]; [done| |].
    + by destruct (Hret Hk _ _ Hw).
    + rewrite He. by apply (wb_open _ _ _ _ _ _ (ac_window _ _ _ _ _ Ha _ _ Hw)).
  - apply Hgo; try done; try apply Ha; [|intros k Hk'; apply lookup_insert_is_Some'; by right].
    apply Hwl. intros id w Hw. pose proof (wb_open _ _ _ _ _ _ (ac_window _ _ _ _ _ Ha _ _ Hw)) as Hn.
    rewrite lookup_insert_ne; [done|]. intros Heq. rewrite Heq, Hn in Hs. by destruct Hs.
Qed.

(** *** Confirmation *)

Lemma ack_Ok e st st' : Kind e = "ack" -> applyEvent e st = (Ok tt, st') ->
  st' = set_pending (List.filter (fun u => negb (bool_decide (U_ID u ∈ Ev_IDs e))) (Pending st)) st.
Proof. intros Hk. unfold applyEvent. rewrite Hk. cbn -[validateEvent]. destruct (validateEvent st e); [|done]. by intros [= <-]. Qed.

Lemma ack_books H e st st' : accounts N p clock H st -> admissible H st e -> Kind e = "ack" ->
  applyEvent e st = (Ok tt, st') -> accounts N p clock (H ++ records_of e)%list st'.
Proof.
  intros Ha (Hok & _ & _ & _ & Hnone & _ & _ & Hack & _) Hk Hap. unfold records_of. rewrite Hnone by (by rewrite Hk). rewrite app_nil_r.
  pose proof (applyEvent_inv e st Hok (ac_disk _ _ _ _ _ Ha)) as Hd. rewrite Hap in Hd. cbn in Hd.
  pose proof (ack_Ok _ _ _ Hk Hap) as ->. set (kept := List.filter _ _) in *.
  assert (Hin : forall u, u ∈ kept <-> u ∈ Pending st /\ U_ID u ∉ Ev_IDs e).
  { intros u. unfold kept. rewrite (list_elem_of_In (List.filter _ _)), List.filter_In, negb_true_iff, bool_decide_eq_false.
    by rewrite <- list_elem_of_In. }
  pose proof (ac_window _ _ _ _ _ Ha) as Hwin. pose proof (ac_spool _ _ _ _ _ Ha) as Hnd. destruct Ha. split; try done.
  - intros id w Hw. destruct (Hwin _ _ Hw). by split.
  - intros u [Hu _]%Hin. by apply ac_pending.
  - unfold kept. clear -Hnd. cbn. induction (Pending st) as [|u l IH]; [done|]. cbn in *. apply NoDup_cons in Hnd as [Hu Hl].
    destruct (negb _); cbn; [|by apply IH]. apply NoDup_cons. split; [|by apply IH]. intros Hi. apply Hu.
    apply list_elem_of_fmap in Hi as (v & -> & Hv). apply list_elem_of_fmap. exists v. split; [done|].
    apply list_elem_of_In, List.filter_In in Hv as [Hv _]. by apply list_elem_of_In.
  - intros u Hu Hn. cbn in Hn. destruct (decide (U_ID u ∈ Ev_IDs e)) as [Hi|Hi]; [by apply Hack|].
    apply ac_done; [done|]. intros Hp'. apply Hn. by apply Hin.
Qed.

(** *** Pruning *)

Lemma pruned_over H st now k : accounts N p clock H st -> now <= clock -> kept now st k = false -> over p clock H st k.
Proof.
  intros Ha Hnow Hk. apply kept_false in Hk as (Hr & l & Hl & _ & He). unfold referenced in Hr. bool_to_prop.
  destruct (ac_lease _ _ _ _ _ Ha _ _ Hl) as (rule & row & c & _ & _ & _ & _ & _ & _ & Hc & Hx).
  destruct (di_lease _ (ac_disk _ _ _ _ _ Ha) _ _ Hl) as [Hid _]. rewrite Hid in Hc. split; [exists c; split; [done|lia]|]. split.
  - intros id w Hw <-. match goal with X : W_LeaseID w ∉ W_LeaseID <$> _ |- _ => apply X end. apply list_elem_of_fmap. exists w. split; [done|].
    apply list_elem_of_fmap. exists (id, w). split; [done|]. by apply elem_of_map_to_list.
  - intros u Hu Hle. apply (ac_done _ _ _ _ _ Ha); [done|]. intros Hp. 
    assert (existsb (fun u => String.eqb (U_LeaseID u) k) (Pending st) = true); [|congruence].
    apply existsb_exists. exists u. rewrite <- list_elem_of_In. split; [done|]. by apply String.eqb_eq.
Qed.

Lemma prune_books H st now : accounts N p clock H st -> now <= clock -> accounts N p clock H (pruneLeaseHistory now st).
Proof.
  intros Ha Hnow. pose proof (prune_inv now _ (ac_disk _ _ _ _ _ Ha)) as Hd. pose proof (fun k => pruned_over H st now k Ha Hnow) as Hov.
  destruct Ha. split; try done; cbn.
  - intros k l. rewrite keep_ids_lookup. destruct (kept now st k); [apply ac_lease|done].
  - intros id w Hw. destruct (ac_window _ _ Hw). split; try done; cbn.
    + intros l. rewrite keep_ids_lookup. destruct (kept now st _); [apply wb_lease|done].
    + rewrite keep_ids_lookup. by destruct (kept now st _).
  - intros k. unfold used_of. cbn. rewrite keep_ids_lookup. destruct (kept now st k) eqn:E; [apply ac_used|right; by apply Hov].
  - intros k l Hk Hl Hn. destruct (ac_retired k l Hk Hl Hn) as [Hs Ho]. split; [done|]. rewrite keep_ids_lookup.
    destruct (kept now st k) eqn:E; [done|right; by apply Hov].
Qed.

(** *** One event, and a batch of them *)

Lemma event_books H e st st' : accounts N p clock H st -> admissible H st e ->
  applyEvent e st = (Ok tt, st') -> accounts N p clock (H ++ records_of e)%list st'.
Proof.
  intros Ha Had Hap.
  destruct (decide (Kind e = "usage")) as [?|K1]; [by eapply usage_books|].
  destruct (decide (Kind e = "credit_reserve")) as [?|K2]; [by eapply reserve_books|].
  destruct (decide (Kind e = "credit_progress")) as [?|K3]; [by eapply progress_books|].
  destruct (decide (Kind e = "ack")) as [?|K4]; [by eapply ack_books|].
  destruct (decide (plain e)) as [?|K5]; [by eapply plain_books|]. exfalso. unfold plain in K5.
  unfold applyEvent, validateEvent in Hap. apply String.eqb_neq in K1, K2, K3, K4.
  assert (Kind e <> "identity" /\ Kind e <> "config" /\ Kind e <> "retire" /\ Kind e <> "retire_ack") as (K6 & K7 & K8 & K9) by set_solver.
  apply String.eqb_neq in K6, K7, K8, K9. rewrite K1, K2, K3, K4, K6, K7, K8, K9 in Hap. done.
Qed.

Fixpoint sound_events (H : list UsageRecord) (st : diskState) (l : list stateEvent) : Prop :=
  match l with
  | [] => True
  | e :: l => admissible H st e /\ forall st', applyEvent e st = (Ok tt, st') -> sound_events (H ++ records_of e)%list st' l
  end.
Definition all_records (l : list stateEvent) : list UsageRecord := flat_map records_of l.

Lemma events_books l : forall H st st', accounts N p clock H st -> sound_events H st l ->
  applyEvents l st = (Ok tt, st') -> accounts N p clock (H ++ all_records l)%list st'.
Proof.
  induction l as [|e l IH]; intros H st st' Ha Hs; cbn [applyEvents]; [intros [= <-]; cbn; by rewrite app_nil_r|].
  destruct Hs as [Had Hs]. destruct (applyEvent e st) as [[[]|err] s1] eqn:E; [|done]. intros Hl.
  cbn [all_records flat_map]. fold (all_records l). rewrite app_assoc. eapply IH; [|by apply Hs|exact Hl]. by eapply event_books.
Qed.
Lemma sound_events_app a b : forall H st, sound_events H st a ->
  (forall st', applyEvents a st = (Ok tt, st') -> sound_events (H ++ all_records a)%list st' b) -> sound_events H st (a ++ b).
Proof.
  induction a as [|e a IH]; intros H st Ha Hb; cbn [app]; [specialize (Hb st eq_refl); cbn in Hb; by rewrite app_nil_r in Hb|].
  destruct Ha as [Had Ha]. split; [done|]. intros st1 E. apply IH; [by apply Ha|]. intros st2 E2. rewrite <- app_assoc.
  apply Hb. cbn [applyEvents]. by rewrite E.
Qed.
Lemma sound_events_take n l : forall H st, sound_events H st l -> sound_events H st (take n l).
Proof. revert l. induction n as [|n IH]; intros [|e l] H st; cbn; try done. intros [Had Hs]. split; [done|]. intros st' E. by apply IH, Hs. Qed.
Lemma all_records_app a b : all_records (a ++ b) = (all_records a ++ all_records b)%list.
Proof. apply flat_map_app. Qed.
End Events.
