(* ===== verification/FleetStore.v ===== *)
(** * The agent's operations keep the books

    Every batch the writer commits is a list of admissible events, whatever
    the disk does with it, and so is the recovery of a restart.  [ledger]
    adds to [accounts] what the agent's memory contributes: which random
    identifiers were drawn, and which leases it has asked the panel to retire
    at which count.  A store is described by what it has in memory and by what
    its files would give back ([node_books]). *)

From S2P Require Import Prelude Tx GoStrings Calendar Rational PlanRules Schema Quota AgentState AgentCredits AgentStore.
From S2P Require Import Desk DeskInv DeskEvolve FleetBooks FleetEvents.
From stdpp Require Import base gmap strings list.
From Stdlib Require Import Ascii String.
Local Open Scope string_scope.
Local Open Scope Z_scope.

(** What the agent has said to the panel: the leases it reported as stopped,
    with their final counts, and the records it sent. *)
Record wire := { asked : list (string * Z); sent : list UsageRecord }.

Section Ledger.
Context (N : string) (p : Panel) (clock : Z) (net : wire).

(** The identifiers in the books were drawn. *)
Record traced (drawn : gset string) (H : list UsageRecord) (st : diskState) : Prop := {
  tr_charge u : u ∈ H -> U_Kind u = "" -> U_ID u ∈ drawn;
  tr_record u : u ∈ H -> U_Kind u <> "" -> U_WindowID u ∈ drawn;
  tr_window id : is_Some (Windows st !! id) -> id ∈ drawn
}.
(** A lease that was reported as stopped has its final count. *)
Definition final (H : list UsageRecord) (st : diskState) (k : string) (n : Z) : Prop :=
  (is_Some (Retired st !! k) /\ pending_bytes H k = n) \/ over p clock H st k.

Record ledger (drawn : gset string) (H : list UsageRecord) (st : diskState) : Prop := {
  lg_accounts : accounts N p clock H st;
  lg_traced : traced drawn H st;
  lg_asked k n : (k, n) ∈ asked net -> final H st k n;
  lg_sent u : u ∈ sent net -> u ∈ H
}.

Definition from_drawn (drawn : gset string) (e : stateEvent) : Prop :=
  (Kind e = "usage" -> forall u, Ev_Usage e = Some u -> U_ID u ∈ drawn) /\
  (Kind e = "credit_reserve" -> forall w, Ev_Window e = Some w -> W_ID w ∈ drawn).

(** ** One event *)

(** The lease of a record that an accepted event writes was not retired, and
    not over. *)
Lemma written_open H st st' e u : accounts N p clock H st -> admissible N p clock H st e -> applyEvent e st = (Ok tt, st') ->
  u ∈ records_of e -> Retired st !! U_LeaseID u = None /\ ~ over p clock H st (U_LeaseID u).
Proof.
  intros Ha Had Hap Hu. unfold records_of in Hu. destruct (Ev_Usage e) as [v|] eqn:Hv; [|by apply elem_of_nil in Hu].
  apply list_elem_of_singleton in Hu as ->. destruct Had as (Hok & Hch & _ & _ & Hnone & _).
  destruct (decide (Kind e = "usage")) as [Hk|Hk].
  - destruct (usage_Ok _ _ _ Hk Hap) as (x & l & L & Hx & Hr & _). rewrite Hv in Hx. injection Hx as <-. split; [done|].
    destruct (ch_lease _ _ _ _ _ _ (Hch Hk _ Hv)) as (y & Hy & Hg & Hlive). rewrite <- Hy. by eapply granted_live.
  - destruct (decide (Kind e = "credit_progress")) as [Hk2|Hk2]; [|by rewrite Hnone in Hv].
    destruct (progress_full _ _ _ Hok Hk2 Hap) as (w & old & _ & Ho & _ & Hsame & _ & _ & _ & Hus & _).
    destruct (Hus _ Hv) as (_ & _ & Hvu). apply progress_usage_fields in Hvu as (_ & _ & _ & _ & _ & -> & _).
    apply same_window_spec in Hsame as (-> & _). split; [by apply (wb_open _ _ _ _ _ _ (ac_window _ _ _ _ _ Ha _ _ Ho))|].
    intros (_ & Hwl & _). by apply (Hwl _ _ Ho).
Qed.

(** Windows come only from reservations, and stay on their lease. *)
Lemma event_windows e st st' id w : event_ok e -> applyEvent e st = (Ok tt, st') -> Windows st' !! id = Some w ->
  (exists w0, Windows st !! id = Some w0 /\ W_LeaseID w0 = W_LeaseID w) \/
  (Kind e = "credit_reserve" /\ Ev_Window e = Some w /\ W_ID w = id).
Proof.
  intros Hok Hap Hid. destruct (credit_kind e) eqn:Hc.
  - unfold credit_kind in Hc. apply orb_prop in Hc as [Hk|Hk]; bool_to_prop.
    + destruct (reserve_full _ _ _ Hk Hap) as (x & l & Hw & _ & _ & _ & _ & _ & _ & _ & ->). cbn in Hid.
      apply lookup_insert_Some in Hid as [[<- <-]|[_ Hid]]; [right; eauto|left; eauto].
    + destruct (progress_full _ _ _ Hok Hk Hap) as (x & old & Hw & Ho & _ & Hs & _ & _ & _ & _ & _ & _ & _ & _ & _ & _ & Hwin). left.
      apply same_window_spec in Hs as (Hl & _). rewrite Hwin in Hid.
      destruct (W_Closed x); [apply lookup_delete_Some in Hid as [_ Hid]; eauto|].
      apply lookup_insert_Some in Hid as [[<- <-]|[_ Hid]]; eauto.
  - left. pose proof (applyEvent_windows e st Hc) as Hw. rewrite Hap in Hw. cbn in Hw. rewrite <- Hw. eauto.
Qed.
Lemma reserve_terms H e st st' : admissible N p clock H st e -> Kind e = "credit_reserve" -> applyEvent e st = (Ok tt, st') ->
  exists w l, Ev_Window e = Some w /\ W_LeaseID w = NL_ID l /\ granted N p (W_RuleID w) l /\ clock < NL_ExpiresAt l.
Proof.
  intros (_ & _ & Hr & _) Hk Hap. destruct (reserve_full _ _ _ Hk Hap) as (w & l & Hw & Hl & _ & _ & _ & Hid & _).
  destruct (Hr Hk) as [_ Hx]. destruct (Hx w l Hw Hl). eauto 6.
Qed.

(** Stopped leases stay stopped. *)
Lemma event_retired H e st st' k : accounts N p clock H st -> admissible N p clock H st e -> applyEvent e st = (Ok tt, st') ->
  is_Some (Retired st !! k) -> is_Some (Retired st' !! k).
Proof.
  intros Ha (Hok & _) Hap Hk.
  destruct (decide (Kind e = "usage")) as [K|K1]; [by destruct (usage_Ok _ _ _ K Hap) as (u & l & L & _ & _ & _ & _ & _ & _ & _ & _ & _ & _ & ->)|].
  destruct (decide (Kind e = "credit_reserve")) as [K|K2]; [by destruct (reserve_full _ _ _ K Hap) as (w & l & _ & _ & _ & _ & _ & _ & _ & _ & ->)|].
  destruct (decide (Kind e = "credit_progress")) as [K|K3].
  { destruct (progress_full _ _ _ Hok K Hap) as (w & old & _ & _ & _ & _ & _ & _ & _ & _ & _ & _ & _ & _ & -> & _). done. }
  destruct (decide (Kind e = "ack")) as [K|K4]; [by rewrite (ack_Ok _ _ _ K Hap)|].
  destruct (decide (plain e)) as [K|K5]; [|exfalso].
  - destruct (plain_Ok _ _ _ K Hap) as (_ & _ & _ & [(_ & v & _ & ->)|[(_ & c & _ & ->)|[(_ & r & -> & Hr & _)|(_ & _ & ->)]]]); [done|..].
    + by apply stop_leases_keeps.
    + by apply Hr.
    + apply lookup_insert_is_Some'. by right.
  - unfold plain in K5. assert (Kind e <> "identity" /\ Kind e <> "config" /\ Kind e <> "retire" /\ Kind e <> "retire_ack") as (K6 & K7 & K8 & K9) by set_solver.
    apply String.eqb_neq in K1, K2, K3, K4, K6, K7, K8, K9. unfold applyEvent, validateEvent in Hap.
    rewrite K1, K2, K3, K4, K6, K7, K8, K9 in Hap. done.
Qed.

(** A lease that is over stays over. *)
Lemma event_over H e st st' k : accounts N p clock H st -> admissible N p clock H st e -> applyEvent e st = (Ok tt, st') ->
  over p clock H st k -> over p clock (H ++ records_of e)%list st' k.
Proof.
  intros Ha Had Hap Ho. pose proof Ho as (He & Hw & Hs). split; [done|]. split.
  - intros id w Hid <-. destruct (event_windows e st st' id w (proj1 Had) Hap Hid) as [(w0 & H0 & Heq)|(Hk & Hev & _)].
    + by apply (Hw _ _ H0).
    + destruct (reserve_terms _ _ _ _ Had Hk Hap) as (x & l & Hx & Hl & Hg & Hlive). rewrite Hev in Hx. injection Hx as <-.
      rewrite Hl in Ho. by eapply granted_live.
  - intros u [Hu|Hu]%elem_of_app Hk; [by apply Hs|]. destruct (written_open _ _ _ _ _ Ha Had Hap Hu) as [_ []]. by rewrite Hk.
Qed.

(** An accepted event keeps the final counts. *)
Lemma event_final H e st st' k n : accounts N p clock H st -> admissible N p clock H st e -> applyEvent e st = (Ok tt, st') ->
  final H st k n -> final (H ++ records_of e)%list st' k n.
Proof.
  intros Ha Had Hap [[Hr Hn]|Ho]; [left|right; by eapply event_over]. split; [by eapply event_retired|].
  unfold pending_bytes in *. rewrite sum_over_app, Hn. enough (sum_over (fun u => at_key (U_LeaseID u) k (bytes u)) (records_of e) = 0) by lia.
  erewrite sum_over_ext, sum_over_zero; [done|]. intros u Hu. apply at_key_ne. intros <-.
  destruct (written_open _ _ _ _ _ Ha Had Hap Hu) as [Hnone _]. rewrite Hnone in Hr. by destruct Hr.
Qed.

Lemma event_traced drawn H e st st' : accounts N p clock H st -> admissible N p clock H st e -> from_drawn drawn e ->
  applyEvent e st = (Ok tt, st') -> traced drawn H st -> traced drawn (H ++ records_of e)%list st'.
Proof.
  intros Ha Had [D1 D2] Hap [T1 T2 T3].
  assert (Hnew : forall u, u ∈ records_of e -> (U_Kind u = "" /\ U_ID u ∈ drawn) \/ (U_Kind u <> "" /\ U_WindowID u ∈ drawn)).
  { intros u Hu. unfold records_of in Hu. destruct (Ev_Usage e) as [v|] eqn:Hv; [|by apply elem_of_nil in Hu].
    apply list_elem_of_singleton in Hu as ->. destruct Had as (Hok & Hch & _ & _ & Hnone & _).
    destruct (decide (Kind e = "usage")) as [Hk|Hk].
    { left. split; [by apply (ch_plain _ _ _ _ _ _ (Hch Hk _ Hv))|by apply D1]. }
    destruct (decide (Kind e = "credit_progress")) as [Hk2|Hk2]; [|by rewrite Hnone in Hv]. right.
    destruct (progress_full _ _ _ Hok Hk2 Hap) as (w & old & _ & Ho & Hval & _ & _ & _ & _ & Hus & _).
    destruct (Hus _ Hv) as (_ & _ & Hvu). apply progress_usage_fields in Hvu as (Hm & _ & Hid & _). rewrite Hid. split; [|by apply T3; eauto].
    intros Hkd. unfold ValidWindowMetadata in Hm. rewrite Hkd in Hm. cbn in Hm. bool_to_prop. apply window_id_length in Hval as [Hlen _].
    rewrite <- Hid in Hlen. match goal with X : U_WindowID v = "" |- _ => by rewrite X in Hlen end. }
  split.
  - intros u [Hu|Hu]%elem_of_app Hk; [by apply T1|]. by destruct (Hnew u Hu) as [[]|[]].
  - intros u [Hu|Hu]%elem_of_app Hk; [by apply T2|]. by destruct (Hnew u Hu) as [[]|[]].
  - intros id [w Hw]. destruct (event_windows e st st' id w (proj1 Had) Hap Hw) as [(w0 & H0 & _)|(Hk & Hev & <-)]; [apply T3; eauto|by apply D2].
Qed.

Lemma event_ledger drawn H e st st' : ledger drawn H st -> admissible N p clock H st e -> from_drawn drawn e ->
  applyEvent e st = (Ok tt, st') -> ledger drawn (H ++ records_of e)%list st'.
Proof.
  intros [Ha Ht Hk Hs] Had Hd Hap. split; [by eapply event_books|by eapply event_traced|intros k n Hin; eapply event_final; eauto|].
  intros u Hu. apply elem_of_app. left. auto.
Qed.

(** ** Refused events, batches and pruning *)

Lemma applyEvent_Err e st err st' : applyEvent e st = (Err err, st') ->
  st' = st \/ exists u l, Kind e = "usage" /\ Ev_Usage e = Some u /\ Ev_Lease e = Some l /\ NL_ID l = U_LeaseID u /\
    Leases st !! U_LeaseID u = None /\ Retired st !! U_LeaseID u = None /\ st' = set_leases (<[U_LeaseID u := l]> (Leases st)) st.
Proof.
  intros Hap. destruct (credit_kind e) eqn:Hc; [left; by eapply apply_credit_err|]. unfold applyEvent in Hap. unfold credit_kind in Hc.
  rewrite Hc in Hap. destruct (String.eqb (Kind e) "usage") eqn:Hk.
  - bool_to_prop. unfold apply_usage in Hap. destruct (Ev_Usage e) as [u|]; [|injection Hap as _ <-; by left].
    destruct (_ || _ || _ || _); [injection Hap as _ <-; by left|]. destruct (bool_decide (is_Some (Retired st !! _))) eqn:Hr; [injection Hap as _ <-; by left|].
    bool_to_prop. apply eq_None_not_Some in Hr.
    destruct (Leases st !! U_LeaseID u) eqn:Hl; [destruct (_ || _ || _ || _); [injection Hap as _ <-; by left|done]|].
    destruct (Ev_Lease e) as [l|]; [|injection Hap as _ <-; by left].
    destruct (String.eqb (NL_ID l) (U_LeaseID u)) eqn:Hid; [|injection Hap as _ <-; by left].
    destruct (_ || _ || _ || _); [|done]. injection Hap as _ <-. right. bool_to_prop. eauto 12.
  - destruct (validateEvent st e); [done|]. injection Hap as _ <-. by left.
Qed.

(** The lease a refused charge brought is known afterwards. *)
Lemma learn_ledger drawn H st l rule : ledger drawn H st -> 0 < NL_Bytes l -> granted N p rule l -> Leases st !! NL_ID l = None ->
  ledger drawn H (set_leases (<[NL_ID l := l]> (Leases st)) st).
Proof.
  intros [Ha [T1 T2 T3] Hk Hs] Hpos Hg Hnone. split; [|by split|done|done]. pose proof (ac_disk _ _ _ _ _ Ha) as Hd.
  assert (Hd' : disk_inv (set_leases (<[NL_ID l := l]> (Leases st)) st)).
  { apply grow_inv; [done|]. apply grow_insert; [done|done|done|]. intros old. by rewrite Hnone. }
  pose proof (ac_window _ _ _ _ _ Ha) as Hwin. destruct Ha. split; try done; cbn.
  - intros k y [[_ <-]|[_ Hy]]%lookup_insert_Some; eauto.
  - intros id w Hw. eapply window_books_state; [by apply Hwin| |cbn; by apply (wb_open _ _ _ _ _ _ (Hwin _ _ Hw))].
    cbn. intros y [[Heq <-]|[_ Hy]]%lookup_insert_Some; [|exists y; split; [done|apply sameLease_refl]].
    destruct (di_window _ Hd _ _ Hw) as (_ & _ & _ & y0 & Hy0 & _). congruence.
Qed.

Lemma refused_ledger drawn H e st err st' : ledger drawn H st -> admissible N p clock H st e ->
  applyEvent e st = (Err err, st') -> ledger drawn H st'.
Proof.
  intros Hl (Hok & Hch & _) Hap. destruct (applyEvent_Err _ _ _ _ Hap) as [->|(u & l & Hk & Hu & Hb & Hid & Hn & _ & ->)]; [done|].
  rewrite <- Hid in *. eapply learn_ledger; [done| |by eapply (ch_brought _ _ _ _ _ _ (Hch Hk _ Hu))|done].
  destruct Hok as (_ & Hpos & _). by rewrite Hb in Hpos.
Qed.

(** ** Going on

    [st'] goes on from [st] with the records [K]: a lease that was stopped
    gets none of them, unless it is over, and what is over stays over. *)
Definition carried (H : list UsageRecord) (st : diskState) (K : list UsageRecord) (st' : diskState) : Prop :=
  forall k, is_Some (Retired st !! k) ->
    (is_Some (Retired st' !! k) /\ forall u, u ∈ K -> U_LeaseID u <> k) \/ over p clock (H ++ K)%list st' k.
Record goes_on (drawn : gset string) (H : list UsageRecord) (st : diskState) (K : list UsageRecord) (st' : diskState) : Prop := {
  go_ledger : ledger drawn (H ++ K)%list st';
  go_retired : carried H st K st';
  go_over k : over p clock H st k -> over p clock (H ++ K)%list st' k
}.

Lemma goes_on_same drawn H st st' : ledger drawn H st' -> (forall k, is_Some (Retired st !! k) -> is_Some (Retired st' !! k) \/ over p clock H st' k) ->
  Windows st' = Windows st -> goes_on drawn H st [] st'.
Proof.
  intros Hl Hr Hw. split; rewrite ?app_nil_r; [done|..].
  - intros k Hk. rewrite app_nil_r. destruct (Hr k Hk) as [?|?]; [left; split; [done|]; intros u Hu; by apply elem_of_nil in Hu|by right].
  - intros k (He & Hwl & Hs). split; [done|]. split; [|done]. intros id w. rewrite Hw. apply Hwl.
Qed.
Lemma carried_trans drawn H st K st1 L st2 : carried H st K st1 -> goes_on drawn (H ++ K)%list st1 L st2 -> carried H st (K ++ L)%list st2.
Proof.
  intros Hc [_ Hr Ho] k Hk. rewrite app_assoc. destruct (Hc k Hk) as [[H1 H2]|?]; [|right; by apply Ho].
  destruct (Hr k H1) as [[H3 H4]|?]; [left|by right]. split; [done|]. intros u [Hu|Hu]%elem_of_app; auto.
Qed.
Lemma goes_on_trans drawn H st K st1 L st2 : goes_on drawn H st K st1 -> goes_on drawn (H ++ K)%list st1 L st2 ->
  goes_on drawn H st (K ++ L)%list st2.
Proof.
  intros [_ Hr Ho] Hg. split; [rewrite app_assoc; apply Hg|by eapply carried_trans|].
  intros k Hk. rewrite app_assoc. by apply Hg, Ho.
Qed.

Lemma event_goes drawn H e st st' : ledger drawn H st -> admissible N p clock H st e -> from_drawn drawn e ->
  applyEvent e st = (Ok tt, st') -> goes_on drawn H st (records_of e) st'.
Proof.
  intros Hl Had Hd Hap. pose proof (lg_accounts _ _ _ Hl) as Ha. split; [by eapply event_ledger| |intros k; by eapply event_over].
  intros k Hk. left. split; [by eapply event_retired|]. intros u Hu <-.
  destruct (written_open _ _ _ _ _ Ha Had Hap Hu) as [Hn _]. rewrite Hn in Hk. by destruct Hk.
Qed.
Lemma refused_goes drawn H e st err st' : ledger drawn H st -> admissible N p clock H st e ->
  applyEvent e st = (Err err, st') -> goes_on drawn H st [] st'.
Proof.
  intros Hl Had Hap. pose proof (refused_ledger _ _ _ _ _ _ Hl Had Hap) as Hl'.
  destruct (applyEvent_Err _ _ _ _ Hap) as [->|(u & l & _ & _ & _ & _ & _ & _ & ->)]; apply goes_on_same; auto.
Qed.

(** However far a batch gets, the books are right. *)
Lemma batch_goes drawn l : forall H st r st', ledger drawn H st -> sound_events N p clock H st l -> Forall (from_drawn drawn) l ->
  applyEvents l st = (r, st') -> exists n, goes_on drawn H st (all_records (take n l)) st' /\ (r = Ok tt -> take n l = l).
Proof.
  induction l as [|e l IH]; intros H st r st' Hl Hs Hd; cbn [applyEvents].
  { intros [= <- <-]. exists 0%nat. split; [apply goes_on_same; auto|done]. }
  destruct Hs as [Had Hs]. apply Forall_cons in Hd as [Hd1 Hd]. destruct (applyEvent e st) as [[[]|err] s1] eqn:E.
  - intros Hap. pose proof (event_goes _ _ _ _ _ Hl Had Hd1 E) as Hg.
    destruct (IH _ _ _ _ (go_ledger _ _ _ _ _ Hg) (Hs _ eq_refl) Hd Hap) as (n & Hn & Hf).
    exists (Datatypes.S n). split; [by eapply goes_on_trans|]. intros Hr. cbn [take]. by rewrite Hf.
  - intros [= <- <-]. exists 0%nat. split; [by eapply refused_goes|done].
Qed.
Lemma batch_ledger drawn l H st st' : ledger drawn H st -> sound_events N p clock H st l -> Forall (from_drawn drawn) l ->
  applyEvents l st = (Ok tt, st') -> ledger drawn (H ++ all_records l)%list st'.
Proof.
  intros Hl Hs Hd Hap. destruct (batch_goes _ _ _ _ _ _ Hl Hs Hd Hap) as (n & Hn & Hf). rewrite (Hf eq_refl) in Hn. apply Hn.
Qed.

Lemma prune_goes drawn H st now : ledger drawn H st -> now <= clock -> goes_on drawn H st [] (pruneLeaseHistory now st).
Proof.
  intros [Ha [T1 T2 T3] Hk Hs] Hnow.
  assert (Hret : forall k, is_Some (Retired st !! k) -> is_Some (Retired (pruneLeaseHistory now st) !! k) \/ over p clock H (pruneLeaseHistory now st) k).
  { intros k Hr. cbn. rewrite keep_ids_lookup. destruct (kept now st k) eqn:E; [by left|right]. exact (pruned_over N p clock H st now k Ha Hnow E). }
  apply goes_on_same; [|exact Hret|done]. split; [by apply prune_books|by split| |done]. intros k n Hin.
  destruct (Hk k n Hin) as [[Hr Hn]|Ho]; [|by right]. destruct (Hret k Hr) as [?|?]; [by left|by right].
Qed.
Lemma unpruned_goes drawn H st now : ledger drawn H st -> goes_on drawn H (pruneLeaseHistory now st) [] st.
Proof.
  intros Hl. apply goes_on_same; [done| |done]. intros k. cbn. rewrite keep_ids_lookup. destruct (kept now st k); [by left|by intros []].
Qed.
End Ledger.

(** ** A store and its files *)

Section Node.
Context (N : string) (p : Panel) (clock : Z) (net : wire) (drawn : gset string).

(** The memory goes on from [st0] with history [H], and what a replay of the
    files gives goes on from the memory: an append can fail after some of its
    records. *)
Definition kept_from (H : list UsageRecord) (st0 : diskState) (s : Store) : Prop :=
  exists K, goes_on N p clock net drawn H st0 K (state s) /\
    forall st, applyEvents (log s) (saved s) = (Ok tt, st) -> exists L, goes_on N p clock net drawn (H ++ K)%list (state s) L st.
Definition node_books (s : Store) : Prop :=
  store_inv s /\ exists H, ledger N p clock net drawn H (state s) /\
    forall st, applyEvents (log s) (saved s) = (Ok tt, st) ->
      exists K, ledger N p clock net drawn (H ++ K)%list st /\ carried p clock H (state s) K st.

Lemma kept_books H st0 s : store_inv s -> kept_from H st0 s -> node_books s.
Proof.
  intros Hi (K & Hl & Hr). split; [done|]. exists (H ++ K)%list. split; [apply Hl|]. intros st Hst. destruct (Hr st Hst) as [L []]. eauto.
Qed.
Lemma kept_trans H st0 K st1 s : goes_on N p clock net drawn H st0 K st1 -> kept_from (H ++ K)%list st1 s -> kept_from H st0 s.
Proof.
  intros Hg (L & Hl & Hr). exists (K ++ L)%list. split; [by eapply goes_on_trans|]. intros st Hst. destruct (Hr st Hst) as [M HM].
  exists M. by rewrite app_assoc.
Qed.
Lemma goes_on_refl H st : ledger N p clock net drawn H st -> goes_on N p clock net drawn H st [] st.
Proof. intros Hl. by apply goes_on_same; auto. Qed.
Lemma kept_still H s : applyEvents (log s) (saved s) = (Ok tt, state s) -> ledger N p clock net drawn H (state s) -> kept_from H (state s) s.
Proof.
  intros Hr Hl. exists []. split; [by apply goes_on_refl|]. intros st Hst. rewrite Hr in Hst. injection Hst as <-. exists [].
  apply goes_on_refl. by rewrite app_nil_r.
Qed.
Lemma running_books H s : store_inv s -> failed s = false -> ledger N p clock net drawn H (state s) -> node_books s.
Proof. intros Hi Hf Hl. eapply kept_books; [done|]. eapply kept_still; [by apply (si_replay _ _ Hi)|exact Hl]. Qed.

(** A batch of sound events, whatever the disk does with it: the memory has
    what was applied, pruned or not, and so have the files, or some of the
    batch where the append failed. *)
Lemma commit_cases now io events H s :
  applyEvents (log s) (saved s) = (Ok tt, state s) -> ledger N p clock net drawn H (state s) ->
  sound_events N p clock H (state s) events -> Forall (from_drawn drawn) events ->
  let s' := (commitCreditEventsLocked now io events s).2 in
  exists K st1, goes_on N p clock net drawn H (state s) K st1 /\
    (state s' = st1 \/ state s' = pruneLeaseHistory now st1) /\
    forall st, applyEvents (log s') (saved s') = (Ok tt, st) ->
      st = state s' \/ st = st1 \/ (state s' = st1 /\ exists L, goes_on N p clock net drawn (H ++ K)%list st1 L st).
Proof.
  intros Hr Hl Hs Hd. unfold commitCreditEventsLocked. destruct events as [|e0 l0] eqn:El.
  { exists [], (state s). split; [by apply goes_on_refl|]. split; [by left|]. cbn. intros st. rewrite Hr. intros [= <-]. by left. }
  rewrite <- El in *. clear El e0 l0. unfold append_and_apply. destruct (append_err io) as [err|].
  { cbn. exists [], (state s). split; [by apply goes_on_refl|]. split; [by left|]. intros st. rewrite applyEvents_app, Hr, app_nil_r. intros Hst.
    destruct (batch_goes N p clock net drawn _ _ _ _ _ Hl (sound_events_take _ _ _ (append_kept io) _ _ _ Hs)
      (Forall_take _ _ _ Hd) Hst) as (n & Hn & _). eauto. }
  destruct (apply_all_state events (set_durable (saved s) (log s ++ events)%list s)) as (H1 & H2 & H3 & H4 & H5). cbn in H1, H2, H3, H4.
  destruct (apply_all events _) as [r s1]. cbn in H1, H2, H3, H4.
  destruct (applyEvents events (state s)) as [r0 st0] eqn:Ea. cbn in H1, H2. subst r0 st0.
  destruct (batch_goes N p clock net drawn _ _ _ _ _ Hl Hs Hd Ea) as (n & Hn & Hok).
  assert (Hfiles : forall st, applyEvents (log s1) (saved s1) = (Ok tt, st) -> st = state s1).
  { intros st. rewrite H3, H4, applyEvents_app, Hr, Ea. by intros [= ->]. }
  eexists _, (state s1). split; [exact Hn|].
  destruct r as [[]|err]; [|cbn; split; [by left|]; intros st Hst; left; by apply Hfiles].
  destruct (checkpoint_due io); [|cbn; split; [by left|]; intros st Hst; left; by apply Hfiles].
  unfold checkpointLocked. destruct (checkpoint_err io); [destruct (checkpoint_renamed io)|]; cbn; (split; [by right|]); intros st Hst.
  - injection Hst as <-. by left.
  - right. left. by apply Hfiles.
  - injection Hst as <-. by left.
Qed.
Lemma commit_kept now io events H s :
  applyEvents (log s) (saved s) = (Ok tt, state s) -> now <= clock -> ledger N p clock net drawn H (state s) ->
  sound_events N p clock H (state s) events -> Forall (from_drawn drawn) events ->
  kept_from H (state s) (commitCreditEventsLocked now io events s).2.
Proof.
  intros Hr Hnow Hl Hs Hd. destruct (commit_cases now io events H s Hr Hl Hs Hd) as (K & st1 & Hg & Hst & Hrep).
  pose proof (go_ledger _ _ _ _ _ _ _ _ _ Hg) as Hl1. pose proof (prune_goes _ _ _ _ _ _ _ now Hl1 Hnow) as Hp.
  pose proof (goes_on_trans _ _ _ _ _ _ _ _ _ _ _ Hg Hp) as Hgp. rewrite app_nil_r in Hgp.
  assert (Hg' : goes_on N p clock net drawn H (state s) K (state (commitCreditEventsLocked now io events s).2)) by (by destruct Hst as [->| ->]).
  exists K. split; [done|]. intros st Hx. destruct (Hrep st Hx) as [->|[->|[-> ?]]]; [|..|done].
  - exists []. apply goes_on_refl, Hg'.
  - exists []. destruct Hst as [->| ->]; [by apply goes_on_refl|by apply unpruned_goes].
Qed.
End Node.

(** Time passes. *)
Section Later.
Context (N : string) (p : Panel) (clock till : Z) (net : wire) (drawn : gset string) (Htill : clock <= till).

Lemma later_over H st k : over p clock H st k -> over p till H st k.
Proof. by apply over_evolves. Qed.
Lemma later_ledger H st : ledger N p clock net drawn H st -> ledger N p till net drawn H st.
Proof.
  intros [Ha Ht Hk Hs]. split; [by apply (accounts_clock _ _ clock)|done| |done]. intros k n Hin.
  destruct (Hk k n Hin) as [?|Ho]; [by left|right]. by apply later_over.
Qed.
Lemma later_carried H st K st' : carried p clock H st K st' -> carried p till H st K st'.
Proof. intros Hc k Hk. destruct (Hc k Hk) as [?|Ho]; [by left|right]. by apply later_over. Qed.
Lemma later_books s : node_books N p clock net drawn s -> node_books N p till net drawn s.
Proof.
  intros (Hi & H & Hl & Hr). split; [done|]. exists H. split; [by apply later_ledger|]. intros st Hst. destruct (Hr st Hst) as (K & HK & Hc).
  exists K. split; [by apply later_ledger|by apply later_carried].
Qed.

(** The events were sound at [clock]; the batch is over at [till]. *)
Lemma commit_books now io events H s :
  store_inv s -> failed s = false -> now <= till -> ledger N p clock net drawn H (state s) ->
  sound_events N p clock H (state s) events -> Forall (from_drawn drawn) events ->
  store_inv (commitCreditEventsLocked now io events s).2 -> node_books N p till net drawn (commitCreditEventsLocked now io events s).2.
Proof.
  intros Hi Hf Hnow Hl Hs Hd Hi'. split; [done|].
  destruct (commit_cases N p clock net drawn now io events H s (si_replay _ _ Hi Hf) Hl Hs Hd) as (K & st1 & Hg & Hst & Hrep).
  pose proof (later_ledger _ _ (go_ledger _ _ _ _ _ _ _ _ _ Hg)) as Hl1. pose proof (prune_goes _ _ _ _ _ _ _ now Hl1 Hnow) as Hp.
  assert (Hl2 : ledger N p till net drawn (H ++ K)%list (state (commitCreditEventsLocked now io events s).2)).
  { destruct Hst as [->| ->]; [done|]. pose proof (go_ledger _ _ _ _ _ _ _ _ _ Hp) as Hx. by rewrite app_nil_r in Hx. }
  exists (H ++ K)%list. split; [done|]. intros st Hx. destruct (Hrep st Hx) as [->|[->|[-> [L HL]]]].
  - exists []. pose proof (goes_on_refl _ _ _ _ _ _ _ Hl2) as []. done.
  - exists []. destruct Hst as [->| ->]; [pose proof (goes_on_refl _ _ _ _ _ _ _ Hl1) as []; done|].
    pose proof (unpruned_goes _ _ _ _ _ _ _ now Hl1) as []. done.
  - exists L. split; [apply later_ledger, HL|apply later_carried, HL].
Qed.
End Later.
