(* ===== verification/FleetWriter.v ===== *)
(** * The writer keeps the books

    What [creditProgressLocked] and the batches of the writer append is sound
    in the sense of [sound_events]: the windows of a lease are closed before
    the lease is stopped, and no identifier is used twice.  So every
    operation of the agent keeps [node_books], whatever the disk does. *)

From S2P Require Import Prelude Tx GoStrings Calendar Rational PlanRules Schema Quota AgentState AgentCredits AgentStore.
From S2P Require Import Desk DeskInv DeskEvolve FleetBooks FleetEvents FleetStore.
From stdpp Require Import base gmap strings list.
From Stdlib Require Import Ascii String.
Local Open Scope string_scope.
Local Open Scope Z_scope.

(** ** What progress writes *)

Definition closing_of (id : string) (e : stateEvent) : Prop :=
  Kind e = "credit_progress" /\ exists w, Ev_Window e = Some w /\ W_ID w = id /\ W_Closed w = true.
Record progressive (e : stateEvent) : Prop := {
  pg_ok : event_ok e;
  pg_kind : Kind e = "credit_progress";
  pg_moves w : Ev_Window e = Some w -> W_Closed w = true \/ Ev_Usage e <> None;
  pg_id u : Ev_Usage e = Some u -> String.length (U_ID u) <> 32%nat
}.

Lemma progressive_admissible N p clock H st e : progressive e -> admissible N p clock H st e.
Proof. intros [Hok Hk Hm _]. unfold admissible. rewrite Hk. repeat (split; [done|]). done. Qed.
Lemma progressive_sound N p clock l : forall H st, Forall progressive l -> sound_events N p clock H st l.
Proof. induction l as [|e l IH]; intros H st Hl; [done|]. apply Forall_cons in Hl as [He Hl]. split; [by apply progressive_admissible|]. auto. Qed.
Lemma progressive_drawn drawn l : Forall progressive l -> Forall (from_drawn drawn) l.
Proof. intros Hl. eapply Forall_impl; [exact Hl|]. intros e [_ Hk _ _]. unfold from_drawn. by rewrite Hk. Qed.

(** Each event moves a window of the list, and a window that has to be closed
    is. *)
Lemma progress_loop_full now st tcpRules active trigger ids : forall room live events live',
  NoDup ids -> progress_loop now st tcpRules active trigger ids room live = (Ok events, live') ->
  Forall (fun e => exists id w c closed, id ∈ ids /\ Windows st !! id = Some w /\ live !! id = Some c /\
    (closed = true \/ LC_used c <> W_Confirmed w) /\
    e = progress_event (advanced w (LC_used c) closed)
      (if 0 <? LC_used c - W_Confirmed w
       then Some (creditUsage st (advanced w (LC_used c) closed) (LC_used c - W_Confirmed w) "normal" (minTime (LC_last c) (W_Until w)))
       else None)) events /\
  forall id w, id ∈ ids -> Windows st !! id = Some w -> (forall b c, closes now b active trigger w c = true) -> Exists (closing_of (W_ID w)) events.
Proof.
  induction ids as [|id ids IH]; intros room live events live' Hnd; cbn [progress_loop].
  { intros [= <- <-]. split; [done|]. intros id w Hid. by apply elem_of_nil in Hid. }
  apply NoDup_cons in Hnd as [Hnew Hnd]. destruct (Windows st !! id) as [w|] eqn:Hw; [|done]. destruct (live !! id) as [c|] eqn:Hc; [|done].
  set (closing := closes _ _ _ _ _ _). destruct (negb closing && _) eqn:Hskip.
  - intros He. destruct (IH _ _ _ _ Hnd He) as [Ha Hb]. split.
    + eapply Forall_impl; [exact Ha|]. intros e (k & x & y & b & Hk & Hrest). exists k, x, y, b. split; [by right|done].
    + intros k x [->|Hk]%elem_of_cons Hx Hall; [|by eapply Hb]. exfalso. rewrite Hw in Hx. injection Hx as <-.
      unfold closing in Hskip. rewrite Hall in Hskip. done.
  - set (live1 := if closing then <[id := close_credit c]> live else live). set (room1 := if closing then room else room - 1).
    destruct (progress_loop now st tcpRules active trigger ids room1 live1) as [[l|] lv] eqn:E; [|done]. intros [= <- <-].
    destruct (IH _ _ _ _ Hnd E) as [Ha Hb]. split.
    + constructor; [exists id, w, c, closing; split; [by left|]; do 2 (split; [done|]); split; [|done]|].
      * destruct closing; [by left|right]. cbn in Hskip. intros Heq. rewrite Heq, Z.eqb_refl in Hskip. done.
      * eapply Forall_impl; [exact Ha|]. intros e (k & x & y & b & Hk & Hx & Hy & Hrest). exists k, x, y, b. split; [by right|]. split; [done|].
        split; [|done]. unfold live1 in Hy. destruct closing; [|done]. rewrite lookup_insert_ne in Hy; [done|]. intros <-. done.
    + intros k x [->|Hk]%elem_of_cons Hx Hall; [|right; by eapply Hb]. left. rewrite Hw in Hx. injection Hx as <-.
      unfold closing. rewrite Hall. split; [done|]. eexists. split; [done|]. done.
Qed.

Definition active_of (trigger : stateEvent) (s : Store) : list string :=
  match Ev_Config trigger with Some c => continued (Cfg (state s)) c | None => [] end.

Lemma progress_writes now trigger s events s' : store_inv s -> creditProgressLocked now trigger s = (Ok events, s') ->
  Forall progressive events /\
  (forall id w, Windows (state s) !! id = Some w -> (forall b c, closes now b (active_of trigger s) trigger w c = true) ->
     Exists (closing_of id) events) /\
  saved s' = saved s /\ log s' = log s.
Proof.
  intros Hi He. destruct (progress_step now trigger s Hi) as (events0 & s0 & He0 & _ & _ & _ & _ & Hok & _).
  rewrite He in He0. injection He0 as <- <-. unfold creditProgressLocked in He. cbv zeta in He. fold (active_of trigger s) in He. cbn in He.
  match type of He with context [progress_loop now ?st ?t ?a trigger ?ids ?r ?lv] =>
    destruct (progress_loop now st t a trigger ids r lv) as [ev live'] eqn:El end.
  injection He as -> <-. destruct (progress_loop_full _ _ _ _ _ _ _ _ _ _ (sorted_ids_nodup _) El) as [Ha Hb].
  pose proof (si_live _ _ Hi) as Hl. pose proof (si_disk _ _ Hi) as Hd. split; [|split; [|done]].
  - rewrite Forall_forall in Ha, Hok |- *. intros e Hin. specialize (Hok e Hin). destruct (Ha e Hin) as (id & w & c & closed & _ & Hw & Hc & Hmove & ->).
    destruct (di_window _ Hd _ _ Hw) as (Hid & Hv & _). pose proof (lv_used _ Hl _ _ Hc) as Hu.
    assert (LC_window c = w) as Hwin by (rewrite (lv_windows _ Hl), lookup_fmap, Hc in Hw; by injection Hw). rewrite Hwin in Hu.
    split; [done|done|..].
    + intros x [= <-]. cbn. destruct Hmove as [->|Hne]; [by left|right]. by rewrite (proj2 (Z.ltb_lt _ _)) by lia.
    + intros u. cbn. destruct (0 <? _); [|done]. intros [= <-]. cbn. unfold window_record. rewrite !length_string_app.
      destruct (window_id_length _ Hv) as [Hlen _]. cbn. lia.
  - intros id w Hw Hall. destruct (di_window _ Hd _ _ Hw) as (<- & _). eapply Hb; [apply sorted_ids_elem; eauto|exact Hw|done].
Qed.

(** ** Windows over a batch that reserves nothing *)

Lemma windows_after l : forall st st' id w, Forall event_ok l -> Forall (fun e => Kind e <> "credit_reserve") l ->
  applyEvents l st = (Ok tt, st') -> Windows st' !! id = Some w ->
  ~ Exists (closing_of id) l /\ exists w0, Windows st !! id = Some w0 /\ W_LeaseID w0 = W_LeaseID w.
Proof.
  induction l as [|e l IH]; intros st st' id w Hok Hk; cbn [applyEvents].
  { intros [= <-] Hw. split; [by intros ?%Exists_nil|eauto]. }
  apply Forall_cons in Hok as [Hoke Hok]. apply Forall_cons in Hk as [Hke Hk]. destruct (applyEvent e st) as [[[]|err] s1] eqn:E; [|done].
  intros Hap Hw. destruct (IH _ _ _ _ Hok Hk Hap Hw) as (Hn & w1 & Hw1 & Hl1).
  destruct (event_windows e st s1 id w1 Hoke E Hw1) as [(w0 & H0 & Hl0)|(? & _)]; [|done]. split; [|exists w0; split; [done|congruence]].
  intros [(Hkd & x & Hx & Hid & Hcl)|?]%Exists_cons; [|done].
  destruct (progress_full _ _ _ Hoke Hkd E) as (y & old & Hy & _ & _ & _ & _ & _ & _ & _ & _ & _ & _ & _ & _ & _ & Hwin).
  rewrite Hx in Hy. injection Hy as <-. rewrite Hcl, Hid in Hwin. by rewrite Hwin, lookup_delete_eq in Hw1.
Qed.

Lemma progressive_quiet l : Forall progressive l -> Forall event_ok l /\ Forall (fun e => Kind e <> "credit_reserve") l.
Proof. intros Hl. split; (eapply Forall_impl; [exact Hl|]); intros e [Hok Hk _ _]; [done|by rewrite Hk]. Qed.

(** ** Requests *)

Section Writer.
Context (N : string) (p : Panel) (clock : Z) (net : wire).

(** A record identifier that is on file for a lease of this node. *)
Definition booked (id : string) : Prop :=
  exists row l, cp_usage p !! id = Some row /\ U_ID (cu_payload row) = id /\ rule_leases p !! cu_lease row = Some l /\ rl_node l = N.
(** The leases of a rule were granted by the panel. *)
Definition genuine (r : Rule) : Prop := forall l, Some l ∈ ruleLeases r -> granted N p (R_ID r) l.

(** What reaches the writer's queue: configurations of the panel, and
    confirmations of what the panel has filed. *)
Record request_ok (e : stateEvent) : Prop := {
  rq_ok : event_ok e;
  rq_kind : Kind e ∈ request_kinds;
  rq_plain : Ev_Usage e = None;
  rq_config c : Ev_Config e = Some c -> forall r, r ∈ C_Rules c -> genuine r;
  rq_ack id : id ∈ Ev_IDs e -> booked id;
  rq_identity : N <> ""
}.

Lemma nodup_key {A} (f : A -> string) (l : list A) x y : NoDup (f <$> l) -> x ∈ l -> y ∈ l -> f x = f y -> x = y.
Proof.
  intros Hnd Hx Hy Heq. apply list_elem_of_lookup in Hx as [i Hi], Hy as [j Hj].
  assert (i = j) as ->; [|congruence]. eapply (NoDup_lookup _ i j (f x) Hnd); rewrite list_lookup_fmap; [by rewrite Hi|rewrite Hj; cbn; congruence].
Qed.
Lemma booked_filed H st id u : accounts N p clock H st -> booked id -> u ∈ H -> U_ID u = id -> filed p u.
Proof.
  intros Ha (row & l & Hr & Hid & Hl & Hn) Hu Hu'. pose proof (ac_filed _ _ _ _ _ Ha _ _ _ Hr Hl Hn) as Hin.
  assert (cu_payload row = u) as <- by (eapply (nodup_key U_ID); [apply (ac_ids _ _ _ _ _ Ha)|done|done|congruence]).
  exists row. by rewrite Hid.
Qed.

(** A configuration stops no lease with an open window. *)
Lemma continued_enabled old c k : k ∈ continued old c -> k ∈ lease_ids (enabled_leases c).
Proof.
  unfold continued, enabled_leases, lease_ids. rewrite !list_elem_of_In, !in_flat_map. intros (r & Hr & Hk).
  destruct (R_Enabled r) eqn:He; [|done]. destruct (_ && _ && _); [|done]. apply in_flat_map in Hk as (l & Hl & Hk).
  exists l. split; [|done]. apply in_flat_map. exists r. by rewrite He.
Qed.
Lemma stop_leases_active active ids : forall r k, k ∈ active -> r !! k = None -> stop_leases active r ids !! k = None.
Proof.
  induction ids as [|id ids IH]; intros r k Hk Hr; cbn [stop_leases foldl]; [done|]. apply IH; [done|]. unfold stop_lease.
  destruct (_ || _) eqn:E; [done|]. bool_to_prop. rewrite lookup_insert_ne; [done|]. intros <-. done.
Qed.

(** The whole batch of a request. *)
Lemma request_sound now e H s events s' : store_inv s -> accounts N p clock H (state s) -> request_ok e ->
  (if String.eqb (Kind e) "config" || String.eqb (Kind e) "retire" then creditProgressLocked now e s else (Ok [], s)) = (Ok events, s') ->
  sound_events N p clock H (state s) (events ++ [e]) /\ Forall progressive events.
Proof.
  intros Hi Ha Hq Hev.
  assert (Hprog : Forall progressive events /\ ((Kind e = "config" \/ Kind e = "retire") ->
    forall id w, Windows (state s) !! id = Some w -> (forall b c, closes now b (active_of e s) e w c = true) -> Exists (closing_of id) events)).
  { destruct (String.eqb (Kind e) "config" || String.eqb (Kind e) "retire") eqn:Hk.
    - destruct (progress_writes _ _ _ _ _ Hi Hev) as (? & ? & _). auto.
    - injection Hev as <- <-. split; [done|]. bool_to_prop. intros [?|?]; congruence. }
  destruct Hprog as [Hpr Hcl]. split; [|done]. destruct (progressive_quiet _ Hpr) as [Hok Hnr].
  apply sound_events_app; [by apply progressive_sound|]. intros st Hst. split; [|done].
  pose proof (fun id w => windows_after _ _ _ id w Hok Hnr Hst) as Hwin.
  pose proof (events_books _ _ _ _ _ _ _ Ha (progressive_sound _ _ _ _ _ _ Hpr) Hst) as Ha'.
  destruct Hq as [Q1 Q2 Q3 Q4 Q5 Q6]. unfold request_kinds in Q2. split; [done|].
  split; [by rewrite Q3|]. split; [intros Hk; rewrite Hk in Q2; set_solver|]. split; [intros Hk; rewrite Hk in Q2; set_solver|].
  split; [done|]. split; [|split; [|split; [|done]]].
  - intros Hk c Hc. split; [intros r l Hr; by apply (Q4 c Hc r Hr)|]. intros id w Hw. destruct (Hwin _ _ Hw) as (Hno & w0 & Hw0 & Hl0).
    cbn. apply stop_leases_active; [|by apply (wb_open _ _ _ _ _ _ (ac_window _ _ _ _ _ Ha' _ _ Hw))].
    destruct (decide (W_LeaseID w ∈ continued (Cfg (state s)) c)) as [Hin|Hout]; [by eapply continued_enabled|].
    destruct Hno. eapply (Hcl (or_introl Hk)); [done|]. intros b x. unfold closes, active_of. rewrite Hc, Hl0.
    rewrite (bool_decide_false _ Hout). apply orb_true_r.
  - intros Hk id w Hw Hl. destruct (Hwin _ _ Hw) as (Hno & w0 & Hw0 & Hl0). destruct Hno. eapply (Hcl (or_intror Hk)); [done|].
    intros b x. unfold closes. rewrite Hk, Hl0, Hl, !String.eqb_refl. cbn [andb]. by rewrite orb_true_r.
  - intros Hk u Hu Hid. by eapply booked_filed; [exact Ha'|apply Q5| |].
Qed.

Lemma request_drawn drawn e : request_ok e -> from_drawn drawn e.
Proof. intros [_ Q2 Q3 _ _ _]. unfold request_kinds in Q2. split; intros Hk; rewrite Hk in Q2; set_solver. Qed.

Lemma processEvent_books drawn now io renewal e s : now = clock -> request_ok e ->
  node_books N p clock net drawn s -> node_books N p clock net drawn (processEvent now io renewal e s).2.
Proof.
  intros -> Hq [Hi Hb]. assert (Hk : Kind e <> "credit_progress") by (intros Hk; pose proof (rq_kind _ Hq) as Hin; unfold request_kinds in Hin; rewrite Hk in Hin; set_solver).
  pose proof (processEvent_store clock io renewal e s (rq_ok _ Hq) Hk Hi) as Hi'. revert Hi'. unfold processEvent.
  destruct (failed s) eqn:Hf; [by intros _|]. destruct (renewal && _); [by intros _|]. destruct (validateEvent (state s) e); [|by intros _].
  destruct Hb as (H & Hl & _).
  destruct (if String.eqb (Kind e) "config" || String.eqb (Kind e) "retire" then creditProgressLocked clock e s else (Ok [], s)) as [pr s'] eqn:Hev.
  assert (Hs : exists events, pr = Ok events /\ store_inv s' /\ failed s' = false /\ state s' = state s).
  { destruct (String.eqb (Kind e) "config" || String.eqb (Kind e) "retire"); [|injection Hev as <- <-; eauto].
    destruct (progress_step clock e s Hi) as (events & s0 & He & A & B & C & _). rewrite Hev in He. injection He as -> ->. exists events. split_and!; congruence. }
  destruct Hs as (events & -> & Hi1 & Hf1 & Hs1). destruct (request_sound _ _ _ _ _ _ Hi (lg_accounts _ _ _ _ _ _ _ Hl) Hq Hev) as [Hsound Hpr].
  intros Hi'. eapply (commit_books _ _ clock); [done|done|done|done|rewrite Hs1; exact Hl|by rewrite Hs1| |done].
  apply Forall_app. split; [by apply progressive_drawn|]. apply Forall_singleton. by apply request_drawn.
Qed.

(** ** Flushes and pruning *)

Lemma progress_commit drawn now trigger io s : now = clock -> node_books N p clock net drawn s -> failed s = false ->
  node_books N p clock net drawn (match creditProgressLocked now trigger s with
    | (Err e, s) => (Err e, s)
    | (Ok events, s) => commitCreditEventsLocked now io events s
    end).2.
Proof.
  intros -> [Hi (H & Hl & _)] Hf. destruct (progress_step clock trigger s Hi) as (events & s' & He & Hi1 & Hf1 & Hs1 & _ & Hok & Hfit).
  rewrite He. destruct (progress_writes _ _ _ _ _ Hi He) as (Hpr & _).
  eapply (commit_books _ _ clock); [done|done|congruence|done|rewrite Hs1; exact Hl|by apply progressive_sound|by apply progressive_drawn|].
  apply commit_staged; [done|congruence|done|]. exists events, []. by rewrite app_nil_r.
Qed.
Lemma processFlush_books drawn now io kind s : now = clock -> node_books N p clock net drawn s ->
  node_books N p clock net drawn (processFlush now io kind s).2.
Proof. intros Hn Hb. unfold processFlush. destruct (failed s) eqn:Hf; [done|]. by apply progress_commit. Qed.

Lemma processPrune_books drawn now io s : now = clock -> node_books N p clock net drawn s ->
  node_books N p clock net drawn (processPrune now io s).2.
Proof.
  intros -> [Hi Hb]. pose proof (processPrune_store clock io s Hi) as Hi'. split; [done|]. clear Hi'. unfold processPrune.
  destruct (failed s) eqn:Hf; [done|]. destruct (_ <? _); [|done]. destruct Hb as (H & Hl & _). exists H.
  pose proof (si_replay _ _ Hi Hf) as Hr. set (st1 := pruneLeaseHistory clock (state s)). set (st2 := pruneLeaseHistory clock st1).
  assert (H1 : ledger N p clock net drawn H st1) by (pose proof (go_ledger _ _ _ _ _ _ _ _ _ (prune_goes _ _ _ _ _ _ _ clock Hl (Z.le_refl _))) as X; by rewrite app_nil_r in X).
  assert (H2 : ledger N p clock net drawn H st2) by (pose proof (go_ledger _ _ _ _ _ _ _ _ _ (prune_goes _ _ _ _ _ _ _ clock H1 (Z.le_refl _))) as X; by rewrite app_nil_r in X).
  assert (Hgo : forall st, st = st2 \/ st = state s -> exists K, ledger N p clock net drawn (H ++ K)%list st /\ carried p clock H st2 K st).
  { intros st [-> | ->]; exists []; [by destruct (goes_on_refl _ _ _ _ _ _ _ H2)|].
    pose proof (unpruned_goes N p clock net drawn H (state s) clock Hl) as G1. pose proof (unpruned_goes N p clock net drawn H st1 clock H1) as G2.
    rewrite <- (app_nil_r H) in G1 at 1. pose proof (goes_on_trans _ _ _ _ _ _ _ _ _ _ _ G2 G1) as []. done. }
  unfold checkpointLocked. destruct (checkpoint_err io); [destruct (checkpoint_renamed io)|]; cbn; (split; [exact H2|]); intros st Hst; apply Hgo.
  - left. by injection Hst as <-.
  - right. rewrite Hr in Hst. by injection Hst as <-.
  - left. by injection Hst as <-.
Qed.
End Writer.
