(* ===== verification/FleetCredits.v ===== *)
(** * Reservations, charges and restarts keep the books *)

From S2P Require Import Prelude Tx GoStrings Calendar Rational PlanRules Schema Quota AgentState AgentCredits AgentStore.
From S2P Require Import Desk DeskInv DeskEvolve FleetBooks FleetEvents FleetStore FleetWriter.
From stdpp Require Import base gmap strings list.
From Stdlib Require Import Ascii String.
Local Open Scope string_scope.
Local Open Scope Z_scope.

(** Random identifiers: 16 bytes in hexadecimal, none drawn before. *)
Record fresh_ids (drawn : gset string) (n : nat) (ids : nat -> string) : Prop := {
  fi_length i : String.length (ids i) = 32%nat;
  fi_new i : (i < n)%nat -> ids i ∉ drawn;
  fi_once i j : (i < n)%nat -> (j < n)%nat -> ids i = ids j -> i = j
}.
Definition draw (drawn : gset string) (n : nat) (ids : nat -> string) : gset string :=
  drawn ∪ list_to_set (ids <$> seq 0 n).
Lemma draw_in drawn n ids i : (i < n)%nat -> ids i ∈ draw drawn n ids.
Proof. intros Hi. apply elem_of_union_r, elem_of_list_to_set, list_elem_of_fmap. exists i. split; [done|]. apply elem_of_seq. lia. Qed.

(** The readings of a batch that starts at [clock]: time does not go back
    while a request is handled, nor until the batch is committed. *)
Record ticks (clock : Z) (tm : timing) : Prop := {
  tc_start : tm_start tm = clock;
  tc_request i : clock <= at_choice (tm_request tm i) <= at_check (tm_request tm i) /\
    at_check (tm_request tm i) <= at_close (tm_request tm i) <= tm_end tm /\
    at_check (tm_request tm i) <= at_stamp (tm_request tm i) <= tm_end tm
}.
Lemma ticks_end clock tm : ticks clock tm -> clock <= tm_end tm.
Proof. intros [_ H]. specialize (H 0%nat). lia. Qed.

Section Credits.
Context (N : string) (p : Panel) (clock : Z) (net : wire).

Lemma ledger_drawn drawn drawn' H st : drawn ⊆ drawn' -> ledger N p clock net drawn H st -> ledger N p clock net drawn' H st.
Proof. intros Hs [Ha [T1 T2 T3] Hk Hu]. split; [done| |done|done]. split; intros; apply Hs; auto. Qed.
Lemma books_drawn drawn drawn' s : drawn ⊆ drawn' -> node_books N p clock net drawn s -> node_books N p clock net drawn' s.
Proof.
  intros Hs (Hi & H & Hl & Hr). split; [done|]. exists H. split; [by eapply ledger_drawn|]. intros st Hst. destruct (Hr st Hst) as (K & HK & Hc).
  exists K. split; [by eapply ledger_drawn|done].
Qed.

(** The identifier of a record of a window is longer than a random one. *)
Lemma record_id_length u : sound_record N p u -> U_Kind u <> "" -> String.length (U_ID u) <> 32%nat.
Proof.
  intros (Hm & _) Hk. unfold ValidWindowMetadata in Hm. rewrite (proj2 (String.eqb_neq _ _) Hk) in Hm. bool_to_prop.
  match goal with X : U_ID u = _ |- _ => rewrite X end. rewrite !length_string_app. cbn. lia.
Qed.
(** A charge has no window. *)
Lemma charge_window u : sound_record N p u -> U_Kind u = "" -> U_WindowID u = "".
Proof. intros (Hm & _) Hk. unfold ValidWindowMetadata in Hm. rewrite Hk in Hm. cbn in Hm. by bool_to_prop. Qed.

(** ** Reservations *)

Lemma funding_genuine now s staged r until n l : genuine N p r -> R_Lease (funding_rule now s staged r until n) = Some l ->
  R_ID (funding_rule now s staged r until n) = R_ID r /\ granted N p (R_ID r) l.
Proof.
  intros Hg. unfold funding_rule. cbv zeta. match goal with |- context [List.find ?f ?l] => destruct (List.find f l) as [c|] eqn:E end.
  - apply find_some in E as [Hin _]. apply in_flat_map in Hin as ([x|] & Hx & Hin); [|done]. destruct Hin as [<-|[]].
    cbn. intros [= <-]. split; [done|]. apply Hg. by apply list_elem_of_In.
  - intros Hl. split; [done|]. apply Hg. unfold ruleLeases. rewrite Hl. by left.
Qed.

Definition reserve_term (ids : nat -> string) (lo hi : nat) (e : stateEvent) : Prop :=
  exists w l j, e = reserve_event w l /\ W_ID w = ids j /\ (lo <= j < hi)%nat /\ granted N p (W_RuleID w) l /\
    clock < NL_ExpiresAt l /\ 0 < NL_Bytes l.

Lemma reserve_one_term drawn H at_ ids i q staged s e : ledger N p clock net drawn H (state s) -> clock <= at_check at_ -> genuine N p (Rq_rule q) ->
  reserveCreditLocked at_ (ids i) q staged s = Ok (Some e) -> reserve_term ids i (Datatypes.S i) e.
Proof.
  intros Hl Hat Hg. unfold reserveCreditLocked. destruct (current_rule _ _ _) as [[r until]|] eqn:Hc; [|done]. cbv zeta.
  assert (Hr : genuine N p r).
  { unfold current_rule in Hc. destruct (negb _); [|by injection Hc as <- <-].
    match type of Hc with context [List.find ?f ?l] => destruct (List.find f l) as [c|] eqn:E end; [|done]. injection Hc as <- <-.
    apply find_some in E as [Hin _]. intros l Hll. eapply (ac_config _ _ _ _ _ (lg_accounts _ _ _ _ _ _ _ Hl)); [by apply list_elem_of_In|done]. }
  set (r' := funding_rule _ _ _ _ _ _). destruct (availableLocked (at_check at_) s r' until 0) as [u|] eqn:Ea; [|done].
  destruct (availableLocked_Ok _ _ _ _ _ _ Ea) as (l & Hle & Hb & _ & Hx & _). rewrite Hle.
  destruct (funding_genuine _ _ _ _ _ _ _ Hr Hle) as [Hid Hgr]. fold r' in Hid.
  destruct (validateLeaseCapacity _ _); [|done]. repeat (destruct (_ <=? _); [done|]). destruct (_ && _); [done|]. intros [= <-].
  eexists _, l, i. split; [done|]. cbn. rewrite Hid. split_and!; (done || lia).
Qed.

Lemma reserve_all_terms drawn H tm ids batch s : ledger N p clock net drawn H (state s) -> ticks clock tm -> forall i events,
  Forall (fun q => genuine N p (Rq_rule q)) batch -> exists b, (reserve_all tm ids i batch events s).2 = List.app events b /\
    Forall (reserve_term ids i (i + List.length batch)) b.
Proof.
  intros Hl Htm. induction batch as [|q batch IH]; intros i events Hq; cbn [reserve_all]; [exists []; by rewrite app_nil_r|].
  apply Forall_cons in Hq as [Hg Hq].
  assert (Hwide : forall b, Forall (reserve_term ids (Datatypes.S i) (Datatypes.S i + List.length batch)) b ->
    Forall (reserve_term ids i (i + List.length (q :: batch))) b).
  { intros b Hb. eapply Forall_impl; [exact Hb|]. intros e (w & l & j & -> & Hid & Hj & Hrest). exists w, l, j. split; [done|]. split; [done|]. split; [cbn; lia|done]. }
  destruct (reserveCreditLocked (tm_request tm i) (ids i) q events s) as [[e|]|err] eqn:E.
  - destruct (IH (Datatypes.S i) (events ++ [e])%list Hq) as (b & Hb & Hall).
    destruct (reserve_all tm ids (Datatypes.S i) batch (events ++ [e])%list s) as [rs evs]. cbn in Hb |- *.
    exists (e :: b). split; [by rewrite Hb, <- app_assoc|]. constructor; [|by apply Hwide].
    assert (Hat : clock <= at_check (tm_request tm i)) by (pose proof (tc_request _ _ Htm i); lia).
    destruct (reserve_one_term _ _ _ _ _ _ _ _ _ Hl Hat Hg E) as (w & l & j & -> & Hid & Hj & Hrest). exists w, l, j. split; [done|]. split; [done|]. split; [cbn; lia|done].
  - destruct (IH (Datatypes.S i) events Hq) as (b & Hb & Hall). destruct (reserve_all _ _ _ _ _ _). exists b. split; [done|by apply Hwide].
  - destruct (IH (Datatypes.S i) events Hq) as (b & Hb & Hall). destruct (reserve_all _ _ _ _ _ _). exists b. split; [done|by apply Hwide].
Qed.

Lemma reserves_sound ids lo hi b : forall H st, (forall u j, u ∈ H -> (lo <= j < hi)%nat -> U_WindowID u <> ids j) -> Forall (reserve_term ids lo hi) b ->
  sound_events N p clock H st b.
Proof.
  induction b as [|e b IH]; intros H st Hn Hb; [done|]. apply Forall_cons in Hb as [(w & l & j & -> & Hid & Hj & Hg & Hx & Hpos) Hb]. split.
  - split; [by split|]. split; [done|]. split; [|by repeat (split; [done|])]. intros _. split; [done|]. intros w' l' [= <-] [= <-].
    split; [done|done|]. intros u Hu. rewrite Hid. by apply Hn.
  - intros st' _. cbn. rewrite app_nil_r. by apply IH.
Qed.

Lemma rebalance_all_books drawn ios batch : forall i s, node_books N p clock net drawn s -> failed s = false ->
  node_books N p clock net drawn (rebalance_all clock ios i batch s).2.
Proof.
  induction batch as [|q batch IH]; intros i s Hb Hf; cbn [rebalance_all]; [done|].
  assert (H1 : node_books N p clock net drawn (rebalanceCreditsLocked clock (ios i) q s).2).
  { unfold rebalanceCreditsLocked. destruct (Rq_n q <=? 0); [done|]. destruct (negb _); [done|]. by apply progress_commit. }
  destruct (rebalance_store clock (ios i) q s (proj1 Hb) Hf) as [_ H2].
  destruct (rebalanceCreditsLocked clock (ios i) q s) as [[[]|e] s']; cbn in *; [|done]. by apply IH; [|apply H2].
Qed.

Lemma processReserve_books drawn tm ios ids batch s : ticks clock tm -> fresh_ids drawn (List.length batch) ids ->
  Forall (fun q => genuine N p (Rq_rule q)) batch -> node_books N p clock net drawn s ->
  node_books N p (tm_end tm) net (draw drawn (List.length batch) ids) (processReserveBatch tm ios ids batch s).2.
Proof.
  intros Htm Hids Hq Hb. pose proof (ticks_end _ _ Htm) as Hend. set (drawn' := draw drawn (List.length batch) ids). assert (Hsub : drawn ⊆ drawn') by (unfold drawn', draw; set_solver).
  pose proof (books_drawn _ _ _ Hsub Hb) as Hb'. pose proof (processReserve_store tm ios ids batch s (proj1 Hb)) as Hi.
  unfold processReserveBatch in *. rewrite (tc_start _ _ Htm) in *. destruct (failed s) eqn:Hf; [by apply (later_books _ _ clock)|].
  assert (Href : forall s', node_books N p (tm_end tm) net drawn' s' -> node_books N p (tm_end tm) net drawn' (done_refilling batch s')).
  { intros s' [Hi' Hrest]. split; [by apply refilling_store|done]. }
  pose proof (rebalance_all_books drawn ios batch 1 s Hb Hf) as H1. destruct (rebalance_all_store clock ios batch 1 s (proj1 Hb) Hf) as [_ H2].
  destruct (rebalance_all clock ios 1 batch s) as [[[]|e] sr]; cbn in *; [|apply Href, (later_books _ _ clock); [done|]; by eapply books_drawn].
  specialize (H2 eq_refl). destruct H1 as (Hi1 & H & Hl & _).
  destruct (progress_step clock (empty_event "credit_flush") sr Hi1) as (progress & sp & Hp & Hi2 & Hf2 & Hs2 & _ & Hok & Hfit).
  destruct (progress_writes _ _ _ _ _ Hi1 Hp) as (Hpr & _). rewrite Hp in *.
  destruct (reserve_all_terms drawn H tm ids batch sp ltac:(by rewrite Hs2) Htm 0 progress Hq) as (b & Hbe & Hterm).
  destruct (reserve_all tm ids 0 batch progress sp) as [rs evs]. cbn in Hbe. subst evs.
  assert (Hcommit : node_books N p (tm_end tm) net drawn' (commitCreditEventsLocked (tm_end tm) (ios 0%nat) (progress ++ b) sp).2).
  { eapply (commit_books _ _ clock); [done|done|congruence|done|rewrite Hs2; eapply ledger_drawn; [exact Hsub|exact Hl]|..].
    - rewrite Hs2. apply sound_events_app; [by apply progressive_sound|]. intros st Hst.
      pose proof (batch_ledger _ _ _ _ _ _ _ _ _ Hl (progressive_sound _ _ _ _ _ _ Hpr) (progressive_drawn _ _ Hpr) Hst) as Hn.
      eapply reserves_sound; [|exact Hterm]. intros u j Hu Hj Heq.
      destruct (decide (U_Kind u = "")) as [Hk|Hk].
      + pose proof (charge_window u (ac_record _ _ _ _ _ (lg_accounts _ _ _ _ _ _ _ Hn) _ Hu) Hk) as He.
        pose proof (fi_length _ _ _ Hids j) as Hlen. by rewrite <- Heq, He in Hlen.
      + apply (fi_new _ _ _ Hids j); [lia|]. rewrite <- Heq. by apply (tr_record _ _ _ (lg_traced _ _ _ _ _ _ _ Hn)).
    - apply Forall_app. split; [by apply progressive_drawn|]. eapply Forall_impl; [exact Hterm|].
      intros e (w & l & j & -> & Hid & Hj & _). split; [done|]. intros _ w' [= <-]. rewrite Hid. apply draw_in. lia.
    - destruct (commitCreditEventsLocked (tm_end tm) (ios 0%nat) (progress ++ b) sp) as [[[]|e] s']; cbn in Hi |- *;
        destruct Hi as [A [B1 B2 B3] C D E]; (split; try done); (split; try done); revert B3; by apply pool_inv_ext. }
  destruct (commitCreditEventsLocked (tm_end tm) (ios 0%nat) (progress ++ b) sp) as [[[]|e] s']; by apply Href.
Qed.

(** ** Charges *)

Lemma granted_limits rule l l' : granted N p rule l -> NL_ID l' = NL_ID l -> NL_EntitlementID l' = NL_EntitlementID l ->
  NL_Bytes l' = NL_Bytes l -> NL_ExpiresAt l' = NL_ExpiresAt l -> granted N p rule l'.
Proof. intros (row & c & G) E1 E2 E3 E4. exists row, c. rewrite E1, E2, E3, E4. exact G. Qed.

Lemma spending_genuine now s r until n l : genuine N p r -> R_Lease (spendingRuleLocked now s r until n) = Some l ->
  R_ID (spendingRuleLocked now s r until n) = R_ID r /\ granted N p (R_ID r) l.
Proof.
  intros Hg. unfold spendingRuleLocked. cbv zeta. match goal with |- context [List.find ?f ?l] => destruct (List.find f l) as [c|] eqn:E end.
  - apply find_some in E as [Hin _]. apply in_flat_map in Hin as ([x|] & Hx & Hin); [|done]. destruct Hin as [<-|[]].
    cbn. intros [= <-]. split; [done|]. apply list_elem_of_In, Hg in Hx. unfold with_limits_of. destruct (R_Lease r); [|done].
    by eapply granted_limits.
  - intros Hl. split; [done|]. apply Hg. unfold ruleLeases. rewrite Hl. by left.
Qed.

(** What a batch of charges has staged after [i] requests. *)
Record staged_books (H : list UsageRecord) (ids : nat -> string) (st : diskState) (i : nat) (s : Store) (g : staging) : Prop := {
  sb_store : store_inv s;
  sb_running : failed s = false;
  sb_state : state s = st;
  sb_staging : staging_ok s g;
  sb_sound : sound_events N p clock H st (sg_events g);
  sb_ids u : u ∈ all_records (sg_events g) -> String.length (U_ID u) = 32%nat -> exists j, (j < i)%nat /\ U_ID u = ids j;
  sb_drawn e u : e ∈ sg_events g -> Kind e = "usage" -> Ev_Usage e = Some u -> exists j, (j < i)%nat /\ U_ID u = ids j
}.

Lemma all_records_elem l u : u ∈ all_records l <-> exists e, e ∈ l /\ Ev_Usage e = Some u.
Proof.
  unfold all_records. rewrite list_elem_of_In, in_flat_map. split.
  - intros (e & He & Hu). exists e. rewrite list_elem_of_In. split; [done|]. unfold records_of in Hu. destruct (Ev_Usage e); [|done]. by destruct Hu as [->|[]].
  - intros (e & He & Hu). exists e. rewrite <- list_elem_of_In. split; [done|]. unfold records_of. rewrite Hu. by left.
Qed.

Lemma stage_retire_books drawn H now ids st i s g k events s' : ledger N p clock net drawn H st -> staged_books H ids st i s g ->
  creditProgressLocked now (retire_event k) s = (Ok events, s') ->
  staging_ok s' (stage_events (events ++ [retire_event k])%list g) -> 
  staged_books H ids st i s' (stage_retire k (stage_events (events ++ [retire_event k])%list g)).
Proof.
  intros Hl [Hi Hf Hst [Hok Hfit] Hs Hid Hdr] Hp Hg. destruct (progress_step now (retire_event k) s Hi) as (ev & s0 & Hp0 & Hi' & Hf' & Hst' & _).
  rewrite Hp in Hp0. injection Hp0 as <- <-. destruct (progress_writes _ _ _ _ _ Hi Hp) as (Hpr & Hcl & _).
  destruct (progressive_quiet _ Hpr) as [Hok' Hnr].
  assert (Hnr0 : Forall (fun e => Kind e <> "credit_reserve") (sg_events g)) by (eapply Forall_impl; [exact Hfit|]; by intros ? []).
  split; [done|congruence|congruence|done|..]; cbn.
  - apply sound_events_app; [done|]. intros st1 E1. apply sound_events_app; [by apply progressive_sound|]. intros st2 E2. split; [|done].
    split; [done|]. do 5 (split; [done|]). split; [|done]. intros _ id w Hw Hlw. cbn in Hlw.
    assert (E : applyEvents (sg_events g ++ events) st = (Ok tt, st2)) by (by rewrite applyEvents_app, E1).
    destruct (windows_after _ _ _ id w (Forall_app_2 _ _ _ Hok Hok') (Forall_app_2 _ _ _ Hnr0 Hnr) E Hw) as (Hno & w0 & Hw0 & Hl0).
    apply Hno. apply Exists_app. right. eapply Hcl; [rewrite Hst; exact Hw0|]. intros b c. unfold closes. cbn. rewrite Hl0, Hlw, String.eqb_refl.
    by rewrite orb_true_r.
  - intros u Hu Hlen. rewrite !all_records_app in Hu. apply elem_of_app in Hu as [Hu|Hu]; [by apply Hid|]. exfalso.
    rewrite app_nil_r in Hu. apply all_records_elem in Hu as (e & He & Hu). rewrite Forall_forall in Hpr. by destruct (pg_id _ (Hpr e He) u Hu).
  - intros e u He Hk Hu. apply elem_of_app in He as [He|He]; [by eapply Hdr|]. exfalso. apply elem_of_app in He as [He|He].
    + rewrite Forall_forall in Hpr. pose proof (pg_kind _ (Hpr e He)). congruence.
    + apply list_elem_of_singleton in He as ->. done.
Qed.

Lemma staged_later H ids st i s g : staged_books H ids st i s g -> staged_books H ids st (Datatypes.S i) s g.
Proof.
  intros [A B C D E F G]. split; try done.
  - intros u Hu Hlen. destruct (F u Hu Hlen) as (j & Hj & ?). exists j. split; [lia|done].
  - intros e u He Hk Hu. destruct (G e u He Hk Hu) as (j & Hj & ?). exists j. split; [lia|done].
Qed.

Lemma charge_one_books drawn H at_ ids n st i q s g : ledger N p clock net drawn H st -> clock <= at_check at_ -> fresh_ids drawn n ids -> (i < n)%nat -> IsZero (at_stamp at_) = false ->
  in_int64 (Rq_n q) -> genuine N p (Rq_rule q) -> staged_books H ids st i s g ->
  let '(_, s', g') := charge_one at_ (ids i) q s g in staged_books H ids st (Datatypes.S i) s' g'.
Proof.
  intros Hl Hat Hids Hin Hz Hn Hg Hsb. pose proof (charge_one_store at_ (ids i) q s g (sb_store _ _ _ _ _ _ Hsb) (sb_running _ _ _ _ _ _ Hsb) Hn (sb_staging _ _ _ _ _ _ Hsb)) as Hkeep.
  pose proof (staged_later _ _ _ _ _ _ Hsb) as Hlater. revert Hkeep. unfold charge_one. cbv zeta. destruct (Rq_n q <? 0) eqn:En; [by intros _|].
  set (r := spendingRuleLocked _ _ _ _ _). destruct (availableLocked (at_check at_) s r (Rq_until q) 0) as [a|] eqn:Ea; [|by intros _].
  destruct (availableLocked_Ok _ _ _ _ _ _ Ea) as (l & Hle & Hb & _ & Hx & _). rewrite Hle.
  destruct (spending_genuine _ _ _ _ _ _ Hg Hle) as [Hrid Hgr]. fold r in Hrid.
  destruct (NL_Bytes l <? Rq_n q); [by intros _|]. destruct (bool_decide (NL_ID l ∈ sg_retiring g)); [by intros _|]. if_case.
  - destruct (progress_step (at_close at_) (retire_event (NL_ID l)) s (sb_store _ _ _ _ _ _ Hsb)) as (events & s' & Hp & _). rewrite Hp.
    intros (_ & _ & Hok). by eapply stage_retire_books.
  - destruct (MaxPendingRecords <=? _); [by intros _|]. destruct (Rq_n q =? 0) eqn:E0; [by intros _|]. intros (Hi & Hf & Hok).
    set (u := charge_usage _ _ _ _ _ _ _) in *. destruct Hsb as [_ _ Hst _ Hs Hid Hdr]. split; try done; cbn [stage_usage sg_events].
    + apply sound_events_app; [done|]. intros st' Hst'. split; [|done].
      assert (Hev : event_ok (usage_event u (if bool_decide (Leases (state s) !! NL_ID l = None) && negb (bool_decide (NL_ID l ∈ sg_known g)) then Some l else None))).
      { destruct Hok as [Hall _]. cbn [stage_usage sg_events] in Hall. apply Forall_app in Hall as [_ Hall]. by apply Forall_cons in Hall as [? _]. }
      split; [done|]. split; [|by repeat (split; [done|])]. intros _ x [= <-]. split; cbn; rewrite ?Hrid; try done.
      * exists l. split; [done|]. split; [done|]. lia.
      * intros y. destruct (_ && _); [|done]. by intros [= <-].
      * by apply (fi_length _ _ _ Hids).
      * unfold bytes. cbn. bool_to_prop. destruct (Rq_upload q); lia.
      * intros v Hv Heq. apply elem_of_app in Hv as [Hv|Hv].
        -- pose proof (ac_record _ _ _ _ _ (lg_accounts _ _ _ _ _ _ _ Hl) _ Hv) as Hsv. destruct (decide (U_Kind v = "")) as [Hk|Hk].
           ++ apply (fi_new _ _ _ Hids i Hin). rewrite <- Heq. by apply (tr_charge _ _ _ (lg_traced _ _ _ _ _ _ _ Hl)).
           ++ apply (record_id_length v Hsv Hk). rewrite Heq. apply (fi_length _ _ _ Hids).
        -- destruct (Hid v Hv) as (j & Hj & Hjeq); [rewrite Heq; apply (fi_length _ _ _ Hids)|].
           assert (j = i); [|lia]. eapply (fi_once _ _ _ Hids); [lia|done|congruence].
    + intros v Hv Hlen. rewrite all_records_app in Hv. apply elem_of_app in Hv as [Hv|Hv]; [destruct (Hid v Hv Hlen) as (j & Hj & ?); exists j; split; [lia|done]|].
      cbn in Hv. apply list_elem_of_singleton in Hv as ->. exists i. split; [lia|done].
    + intros e v He Hk Hv. apply elem_of_app in He as [He|He]; [destruct (Hdr e v He Hk Hv) as (j & Hj & ?); exists j; split; [lia|done]|].
      apply list_elem_of_singleton in He as ->. injection Hv as <-. exists i. split; [lia|done].
Qed.

Lemma charge_loop_books drawn H tm ids st batch : ledger N p clock net drawn H st -> ticks clock tm -> zeroTime < clock -> forall n i s g,
  fresh_ids drawn n ids -> (i + List.length batch <= n)%nat -> Forall (fun q => in_int64 (Rq_n q)) batch ->
  Forall (fun q => genuine N p (Rq_rule q)) batch -> staged_books H ids st i s g ->
  let '(_, s', g') := charge_loop tm ids i batch s g in staged_books H ids st (i + List.length batch) s' g'.
Proof.
  intros Hl Htm Hz. induction batch as [|q batch IH]; intros n i s g Hids Hlen Hn Hg Hsb; cbn [charge_loop]; [by rewrite Nat.add_0_r|].
  apply Forall_cons in Hn as [Hn1 Hn]. apply Forall_cons in Hg as [Hg1 Hg]. cbn [List.length] in Hlen |- *.
  pose proof (tc_request _ _ Htm i) as Hat. assert (Hst : IsZero (at_stamp (tm_request tm i)) = false) by (unfold IsZero; lia).
  pose proof (charge_one_books drawn H (tm_request tm i) ids n st i q s g Hl ltac:(lia) Hids ltac:(lia) Hst Hn1 Hg1 Hsb) as H1.
  destruct (charge_one (tm_request tm i) (ids i) q s g) as [[r1 s'] g']. specialize (IH n (Datatypes.S i) s' g' Hids ltac:(lia) Hn Hg H1).
  destruct (charge_loop tm ids (Datatypes.S i) batch s' g') as [[rs s''] g'']. by rewrite Nat.add_succ_r.
Qed.

Lemma processCharges_books drawn tm io ids batch s : ticks clock tm -> fresh_ids drawn (List.length batch) ids -> zeroTime < clock ->
  Forall (fun q => in_int64 (Rq_n q)) batch -> Forall (fun q => genuine N p (Rq_rule q)) batch -> node_books N p clock net drawn s ->
  node_books N p (tm_end tm) net (draw drawn (List.length batch) ids) (processCharges tm io ids batch s).2.
Proof.
  intros Htm Hids Hz Hn Hg Hb. pose proof (ticks_end _ _ Htm) as Hend. set (drawn' := draw drawn (List.length batch) ids). assert (Hsub : drawn ⊆ drawn') by (unfold drawn', draw; set_solver).
  pose proof (processCharges_store tm io ids batch s Hn (proj1 Hb)) as Hi. unfold processCharges in *.
  destruct (failed s) eqn:Hf; [apply (later_books _ _ clock); [done|]; by eapply books_drawn|]. destruct Hb as (Hi0 & H & Hl & _). revert Hi.
  match goal with |- context [charge_loop tm ids 0 batch s ?g] => pose proof (charge_loop_books drawn H tm ids (state s) batch Hl Htm Hz (List.length batch) 0 s g) as Hloop end.
  destruct (charge_loop tm ids 0 batch s _) as [[results s'] g]. intros Hi. cbn [Nat.add] in Hloop.
  destruct Hloop as [A B C [D1 D2] E F G]; [done|done|done|done|split; try done; [intros u Hu; by apply elem_of_nil in Hu|intros e u He; by apply elem_of_nil in He]|].
  assert (Hc : node_books N p (tm_end tm) net drawn' (commitCreditEventsLocked (tm_end tm) io (sg_events g) s').2).
  { eapply (commit_books _ _ clock); [done|done|done|done|rewrite C; eapply ledger_drawn; [exact Hsub|exact Hl]|by rewrite C| |].
    - apply Forall_forall. intros e He. split; [intros Hk u Hu|intros Hk].
      + destruct (G e u He Hk Hu) as (j & Hj & ->). by apply draw_in.
      + exfalso. rewrite Forall_forall in D2. destruct (D2 e He). done.
    - by destruct (commitCreditEventsLocked (tm_end tm) io (sg_events g) s') as [[[]|e] s'']. }
  by destruct (commitCreditEventsLocked (tm_end tm) io (sg_events g) s') as [[[]|e] s''].
Qed.

(** ** Restarts *)

Lemma recovery_progressive now st w id : disk_inv st -> Windows st !! id = Some w -> progressive (recovery_event now st w).
Proof.
  intros Hd Hw. destruct (progress_of_recovery now st w id Hd Hw) as [Hok Hk]. destruct (di_window _ Hd _ _ Hw) as (_ & Hv & _).
  split; [done|done|intros x [= <-]; by left|]. intros u. unfold recovery_event. cbn. destruct (0 <? _); [|done]. intros [= <-]. cbn.
  unfold window_record. rewrite !length_string_app. destruct (window_id_length _ Hv) as [Hlen _]. cbn. lia.
Qed.

Lemma recover_books drawn H0 st0 ios ids : forall i s H, sound half_live s -> failed s = false ->
  goes_on N p clock net drawn H0 st0 H (state s) ->
  kept_from N p clock net drawn H0 st0 (recover_loop clock ios ids i s).2 /\ sound half_live (recover_loop clock ios ids i s).2.
Proof.
  induction ids as [|id ids IH]; intros i s H Hi Hf Hg; pose proof (go_ledger _ _ _ _ _ _ _ _ _ Hg) as Hl; cbn [recover_loop].
  { split; [|done]. eapply kept_trans; [exact Hg|]. apply kept_still; [by apply (si_replay _ _ Hi)|done]. }
  destruct (Windows (state s) !! id) as [w|] eqn:Hw; [|by eapply IH].
  set (s0 := if creditWindowSize <? W_Capacity w then set_expanded true s else s).
  assert (H1 : sound half_live s0 /\ failed s0 = false /\ state s0 = state s /\ log s0 = log s /\ saved s0 = saved s).
  { unfold s0. destruct (creditWindowSize <? W_Capacity w); [|done]. split; [|done]. destruct Hi as [A B C D E]. split; try done.
    by apply (half_live_about s). }
  destruct H1 as (Hi0 & Hf0 & Hs0 & Hl0 & Hv0). rewrite Hs0. clearbody s0.
  pose proof (recovery_progressive clock (state s) w id (si_disk _ _ Hi) Hw) as Hpr.
  pose proof (commit_inv _ half_live_about clock (ios i) [recovery_event clock (state s) w] s0 Hi0 Hf0 ltac:(apply Forall_cons; split; [apply Hpr|done])
    ltac:(intros c v; apply apply_all_half; apply (half_live_about s0); [done..|apply (si_live _ _ Hi0)])) as Hc.
  pose proof (commit_running clock (ios i) [recovery_event clock (state s) w] s0) as Hrun.
  assert (Hk : kept_from N p clock net drawn (H0 ++ H)%list (state s) (commitCreditEventsLocked clock (ios i) [recovery_event clock (state s) w] s0).2).
  { rewrite <- Hs0 at 1. apply commit_kept; [by apply (si_replay _ _ Hi0)|lia|by rewrite Hs0|..].
    - apply progressive_sound. by constructor.
    - apply progressive_drawn. by constructor. }
  destruct (commitCreditEventsLocked clock (ios i) [recovery_event clock (state s) w] s0) as [[[]|e] s1]; cbn in *; [|split; [by eapply kept_trans|done]].
  destruct Hk as (K & Hl1 & _). eapply (IH _ _ (H ++ K)%list); [done|by rewrite Hrun|]. by eapply goes_on_trans.
Qed.

(** The files are opened and the windows are recovered; [carried] is what the
    replay kept of the memory. *)
Lemma OpenStore_kept drawn H ios s r s' :
  store_inv s ->
  (forall st, applyEvents (log s) (saved s) = (Ok tt, st) ->
     exists K, ledger N p clock net drawn (H ++ K)%list st /\ carried p clock H (state s) K st) ->
  OpenStore clock ios (saved s) (log s) = (r, s') ->
  (exists K st, ledger N p clock net drawn (H ++ K)%list st /\ carried p clock H (state s) K st /\
     kept_from N p clock net drawn (H ++ K)%list st s' /\ sound half_live s') \/
  (r <> Ok tt /\ saved s' = saved s /\ log s' = log s).
Proof.
  intros Hi Hr. unfold OpenStore. destruct (validateSnapshot (saved s)) as [[]|] eqn:Ev; [|intros [= <- <-]; by right].
  destruct (apply_all_state (log s) (blank (saved s) (log s))) as (H1 & H2 & H3 & H4 & H5).
  pose proof (apply_all_half (log s) (blank (saved s) (log s)) ltac:(split; [split; simpl; intros *; by rewrite lookup_empty|simpl; intros *; by rewrite lookup_empty])) as Hh.
  cbn in H1, H2, H3, H4, H5. destruct (apply_all (log s) (blank (saved s) (log s))) as [[[]|e] s1]; cbn in *; [|intros [= <- <-]; by right].
  destruct (validateSnapshot (state s1)); [|intros [= <- <-]; by right]. intros Hrec. left.
  destruct (applyEvents (log s) (saved s)) as [[[]|e] st] eqn:Ea; [|done]. cbn in H2. subst st. destruct (Hr _ eq_refl) as (K & HK & Hc).
  pose proof (applyEvents_inv (log s) (saved s) (si_log _ _ Hi) (si_saved _ _ Hi)) as Hd. rewrite Ea in Hd.
  unfold recoverCredits in Hrec. pose proof (recover_books drawn (H ++ K)%list (state s1) ios (sorted_ids (Windows (state s1))) 0 s1 []) as Hk. rewrite Hrec in Hk.
  exists K, (state s1). do 2 (split; [done|]). apply Hk; [|done|by apply goes_on_refl].
  split; [done|done|by rewrite H3; apply Hi|by rewrite H4; apply Hi|]. intros _. by rewrite H3, H4.
Qed.

(** A restart that fails leaves the files as it got them. *)
Definition crashed (s s' : Store) : Store := set_failed (set_durable (saved s') (log s') s).

Lemma restart_books drawn ios s r s' : node_books N p clock net drawn s -> OpenStore clock ios (saved s) (log s) = (r, s') ->
  node_books N p clock net drawn (if is_ok r then s' else crashed s s').
Proof.
  intros (Hi & H & Hl & Hr) Ho. pose proof (OpenStore_kept _ _ _ _ _ _ Hi Hr Ho) as Hc. destruct r as [[]|e]; cbn.
  - destruct Hc as [(K & st & _ & _ & Hk & _)|[? _]]; [|done]. eapply kept_books; [|exact Hk].
    by destruct (OpenStore_spec _ _ _ _ _ (si_log _ _ Hi) Ho) as (_ & _ & ? & _).
  - assert (Hd : disk_inv (saved s') /\ Forall event_ok (log s')) by (destruct Hc as [(_ & _ & _ & _ & _ & Hs)|(_ & -> & ->)]; [split; apply Hs|split; apply Hi]).
    destruct Hd as [Hd1 Hd2]. split.
    + destruct Hi as [A [B1 B2 B3] C D E]. split; try done. split; try done. revert B3. by apply pool_inv_ext.
    + exists H. split; [done|]. cbn. destruct Hc as [(K & st & HK & Hcar & (L & HL & Hfin) & _)|(_ & -> & ->)]; [|done].
      intros st1 Hst1. destruct (Hfin st1 Hst1) as [M HM]. exists (K ++ L ++ M)%list.
      pose proof (goes_on_trans _ _ _ _ _ _ _ _ _ _ _ HL HM) as HLM. split; [rewrite app_assoc; apply HLM|]. by eapply carried_trans.
Qed.

(** ** Spending from memory *)

Lemma charge_books drawn now queue r until up n s : node_books N p clock net drawn s ->
  node_books N p clock net drawn (TryCreditCharge now queue r until up n s).1.2.
Proof.
  intros [Hi Hb]. split; [by apply charge_store|]. destruct (TryCreditCharge now queue r until up n s) as [[result s'] q] eqn:E. cbn.
  destruct (TryCreditCharge_spec _ _ _ _ _ _ _ _ _ _ (si_live _ _ Hi) E) as (Hst & _).
  assert (Hrest : saved s' = saved s /\ log s' = log s) by (unfold TryCreditCharge in E; repeat case_match; simplify_eq/=; done).
  destruct Hrest as [-> ->]. by rewrite Hst.
Qed.
End Credits.
