(* ===== verification/FleetPanel.v ===== *)
(** * The panel keeps the node's books

    Every step of the panel keeps [ledger]: steps that neither file usage nor
    retire a lease, steps of other nodes, batches of what this node sent and
    retirements it asked for.  The last one needs that the counter of a lease
    is the sum of what is on file ([filed_sum]): when it has reached the
    node's final count, nothing of the lease is missing. *)

From S2P Require Import Prelude Tx GoStrings Calendar Rational PlanRules Schema Wallet Plans Quota Purchases Refunds Payments Commerce.
From S2P Require Import AgentState AgentCredits AgentStore.
From S2P Require Import Desk DeskInv DeskSystem DeskRefresh DeskEvolve FleetBooks FleetEvents FleetStore FleetWriter FleetCredits.
From stdpp Require Import base gmap strings list.
From Stdlib Require Import Ascii String.
Local Open Scope string_scope.
Local Open Scope Z_scope.

(** ** Sums over the rows and over the history *)

Lemma map_sum_list {V} (f : V -> Z) (m : gmap string V) : map_sum (fun _ v => f v) m = sum_over f (map_to_list m).*2.
Proof.
  induction m as [|k v m Hk IH] using map_ind; [by rewrite map_sum_empty, map_to_list_empty|].
  rewrite map_sum_insert_None by done. rewrite (sum_over_perm _ _ _ (fmap_Permutation snd _ _ (map_to_list_insert m k v Hk))). cbn. lia.
Qed.
Lemma sum_filter {A} (P : A -> Prop) `{forall x, Decision (P x)} (f : A -> Z) (l : list A) :
  sum_over f l = sum_over f (filter P l) + sum_over f (filter (fun x => ~ P x) l).
Proof.
  induction l as [|x l IH]; [done|]. cbn [sum_over]. destruct (decide (P x)) as [Hp|Hp].
  - rewrite (filter_cons_True P), (filter_cons_False (fun x => ~ P x)) by (done || tauto). cbn [sum_over]. lia.
  - rewrite (filter_cons_False P), (filter_cons_True (fun x => ~ P x)) by done. cbn [sum_over]. lia.
Qed.
Lemma sum_positive {A} (f : A -> Z) (l : list A) x : (forall y, y ∈ l -> 0 <= f y) -> x ∈ l -> sum_over f l = 0 -> f x = 0.
Proof.
  induction l as [|y l IH]; intros Hf Hx; [by apply elem_of_nil in Hx|]. cbn. pose proof (Hf y ltac:(by left)).
  assert (Hl : forall z, z ∈ l -> 0 <= f z) by (intros z Hz; apply Hf; by right). pose proof (sum_over_nonneg f l Hl).
  intros H1. apply elem_of_cons in Hx as [->|Hx]; [lia|]. apply IH; [done|done|lia].
Qed.

Section Panel.
Context {RS : RatSyntax} (N : string).

Definition on_file (p : Panel) (u : UsageRecord) : bool := bool_decide (cu_payload <$> cp_usage p !! U_ID u = Some u).
Lemma on_file_spec p u : on_file p u = true <-> filed p u.
Proof.
  unfold on_file, filed. rewrite bool_decide_eq_true. destruct (cp_usage p !! U_ID u) as [row|]; cbn; split.
  - intros [= Heq]. exists row. done.
  - intros (r & [= <-] & ->). done.
  - done.
  - intros (r & ? & _). done.
Qed.

Definition unfiled (p : Panel) (us : list UsageRecord) : list UsageRecord := filter (fun u => on_file p u = false) us.

(** The panel's counter of a lease of the node is what it has of the node's
    history. *)
Lemma filed_sum p clock H st k l : panel_inv p -> accounts N p clock H st -> rule_leases p !! k = Some l -> rl_node l = N ->
  pending_bytes H k = rl_spent l + pending_bytes (unfiled p H) k.
Proof.
  intros [_ Hd] Ha Hl Hn. unfold pending_bytes. rewrite (sum_filter (fun u => on_file p u = false) _ H).
  fold (unfiled p H). rewrite Z.add_comm. f_equal. rewrite (dk_spent _ Hd _ _ Hl). unfold spent_of.
  rewrite (map_sum_list (fun u => at_key (cu_lease u) k (raw_bytes (cu_payload u)))).
  set (mine := filter (fun u => ~ on_file p u = false) H). set (rows := (map_to_list (cp_usage p)).*2).
  assert (Hrow : forall r, r ∈ rows -> exists x, cp_usage p !! x = Some r /\ U_ID (cu_payload r) = x /\ U_LeaseID (cu_payload r) = cu_lease r).
  { intros r Hr. apply list_elem_of_fmap in Hr as ([x y] & -> & Hx%elem_of_map_to_list). destruct (dk_usage _ Hd _ _ Hx) as (? & ? & _). eauto. }
  rewrite (sum_filter (fun u => U_LeaseID u = k) _ mine), (sum_filter (fun r => cu_lease r = k) _ rows).
  assert (Hz1 : sum_over (fun u => at_key (U_LeaseID u) k (bytes u)) (filter (fun u => U_LeaseID u <> k) mine) = 0).
  { erewrite sum_over_ext, sum_over_zero; [done|]. intros u [Hu _]%list_elem_of_filter. by apply at_key_ne. }
  assert (Hz2 : sum_over (fun u => at_key (cu_lease u) k (raw_bytes (cu_payload u))) (filter (fun r => cu_lease r <> k) rows) = 0).
  { erewrite sum_over_ext, sum_over_zero; [done|]. intros u [Hu _]%list_elem_of_filter. by apply at_key_ne. }
  rewrite Hz1, Hz2, !Z.add_0_r.
  assert (Hperm : filter (fun u => U_LeaseID u = k) mine ≡ₚ cu_payload <$> filter (fun r => cu_lease r = k) rows).
  { apply NoDup_Permutation.
    - apply NoDup_filter, NoDup_filter. eapply NoDup_fmap_1. apply (ac_ids _ _ _ _ _ Ha).
    - apply (NoDup_fmap_1 U_ID). rewrite <- list_fmap_compose. eapply sublist_NoDup; [|apply fmap_sublist, sublist_filter].
      unfold rows. rewrite <- list_fmap_compose. erewrite list_fmap_ext; [apply (NoDup_fst_map_to_list (cp_usage p))|].
      intros i [x y] Hxy. cbn. apply list_elem_of_lookup_2, elem_of_map_to_list in Hxy. by destruct (dk_usage _ Hd _ _ Hxy) as (-> & _).
    - intros u. rewrite list_elem_of_filter, list_elem_of_fmap. unfold mine. rewrite list_elem_of_filter, not_false_iff_true, on_file_spec. split.
      + intros (Hk & (row & Hr & Hp) & Hu). exists row. split; [done|]. apply list_elem_of_filter. destruct (dk_usage _ Hd _ _ Hr) as (_ & Hle & _).
        split; [congruence|]. apply list_elem_of_fmap. exists (U_ID u, row). split; [done|]. by apply elem_of_map_to_list.
      + intros (row & -> & Hr). apply list_elem_of_filter in Hr as [Hk Hr]. destruct (Hrow row Hr) as (x & Hx & Hid & Hle).
        split; [congruence|]. split; [exists row; by rewrite Hid|]. eapply (ac_filed _ _ _ _ _ Ha); [exact Hx|by rewrite Hk|done]. }
  rewrite (sum_over_perm _ _ _ Hperm), <- sum_over_fmap. apply sum_over_ext. intros r [_ Hr]%list_elem_of_filter.
  destruct (Hrow r Hr) as (_ & _ & _ & ->). done.
Qed.

(** When the counter has reached the final count, everything is on file. *)
Lemma counted_settled p clock H st k l : panel_inv p -> accounts N p clock H st -> rule_leases p !! k = Some l -> rl_node l = N ->
  pending_bytes H k = rl_spent l -> settled_all p H k.
Proof.
  intros Hp Ha Hl Hn Hc. pose proof (filed_sum _ _ _ _ _ _ Hp Ha Hl Hn) as Hs. intros u Hu Hk. apply on_file_spec.
  destruct (on_file p u) eqn:E; [done|]. exfalso.
  assert (Hin : u ∈ unfiled p H) by (by apply list_elem_of_filter).
  pose proof (sum_positive (fun u => at_key (U_LeaseID u) k (bytes u)) (unfiled p H) u) as Hz. cbn in Hz. rewrite Hk, at_key_eq in Hz.
  destruct (ac_record _ _ _ _ _ Ha _ Hu) as (_ & _ & _ & Hpos & _).
  rewrite Hz in Hpos; [lia| |done|unfold pending_bytes in *; lia].
  intros v [_ Hv]%list_elem_of_filter. destruct (ac_record _ _ _ _ _ Ha _ Hv) as (_ & _ & _ & Hposv & _).
  unfold at_key. destruct (String.eqb _ _); lia.
Qed.

(** ** Steps of the panel *)

Lemma final_evolves p p' clock clock' H st k n : evolves p p' -> clock <= clock' -> final p clock H st k n -> final p' clock' H st k n.
Proof. intros He Hc [?|Ho]; [by left|right; by eapply over_evolves]. Qed.

Lemma ledger_panel p p' clock clock' net drawn H st : evolves p p' -> clock <= clock' ->
  (forall k row l, cp_usage p' !! k = Some row -> rule_leases p' !! cu_lease row = Some l -> rl_node l = N -> cu_payload row ∈ H) ->
  (forall k l, is_Some (retirements p' !! k) -> rule_leases p' !! k = Some l -> rl_node l = N ->
     (is_Some (retirements p !! k) /\ exists l0, rule_leases p !! k = Some l0 /\ rl_node l0 = N) \/
     (settled_all p' H k /\ (is_Some (Retired st !! k) \/ over p' clock' H st k))) ->
  ledger N p clock net drawn H st -> ledger N p' clock' net drawn H st.
Proof.
  intros He Hc Hrows Hret [Ha [T1 T2 T3] Hk Hs]. split; [by eapply accounts_panel|by split| |done].
  intros k n Hin. eapply final_evolves; eauto.
Qed.

(** The rows of an older panel. *)
Lemma row_back p p' k row l : panel_inv p -> evolves p p' -> cp_usage p !! k = Some row -> rule_leases p' !! cu_lease row = Some l ->
  exists l0, rule_leases p !! cu_lease row = Some l0 /\ rl_node l0 = rl_node l.
Proof.
  intros [_ Hd] He Hr Hl. destruct (dk_usage _ Hd _ _ Hr) as (_ & _ & l0 & Hl0). destruct (ev_rows _ _ He _ _ Hl0) as (l1 & Hl1 & Ht).
  rewrite Hl in Hl1. injection Hl1 as <-. exists l0. split; [done|]. unfold row_terms in Ht. congruence.
Qed.
Lemma retired_back p p' k l : panel_inv p -> evolves p p' -> is_Some (retirements p !! k) -> rule_leases p' !! k = Some l ->
  exists l0, rule_leases p !! k = Some l0 /\ rl_node l0 = rl_node l.
Proof.
  intros [_ Hd] He [r Hr] Hl. destruct (dk_retired _ Hd _ _ Hr) as (l0 & Hl0 & _). destruct (ev_rows _ _ He _ _ Hl0) as (l1 & Hl1 & Ht).
  rewrite Hl in Hl1. injection Hl1 as <-. exists l0. split; [done|]. unfold row_terms in Ht. congruence.
Qed.

(** Neither usage nor a retirement. *)
Lemma quiet_ledger p p' clock net drawn H st : panel_inv p -> quiet p p' -> ledger N p clock net drawn H st -> ledger N p' clock net drawn H st.
Proof.
  intros Hp Hq Hl. pose proof (quiet_evolves _ _ Hq) as He. destruct Hq as (_ & _ & Hu & Hr). eapply ledger_panel; [exact He|apply Z.le_refl|..|exact Hl].
  - intros k row l Hk Hll Hn. rewrite Hu in Hk. destruct (row_back _ _ _ _ _ Hp He Hk Hll) as (l0 & Hl0 & Hn0).
    eapply (ac_filed _ _ _ _ _ (lg_accounts _ _ _ _ _ _ _ Hl)); [done|done|congruence].
  - intros k l Hk Hll Hn. left. rewrite Hr in Hk. split; [done|]. destruct (retired_back _ _ _ _ Hp He Hk Hll) as (l0 & Hl0 & Hn0).
    exists l0. split; [done|congruence].
Qed.

(** A batch of usage: of another node, or of records this node sent. *)
Lemma usage_ledger p p' clock net drawn H st node records env : panel_inv p ->
  Write (persistUsageBatch shop_options node records) env p = (Ok tt, p') ->
  (node = N -> forall u, u ∈ records -> u ∈ sent net) -> ledger N p clock net drawn H st -> ledger N p' clock net drawn H st.
Proof.
  intros Hp Hrun Hsent Hl. destruct (usage_evolves _ _ _ _ _ Hp Hrun) as (He & Hr & Hnew). eapply ledger_panel; [exact He|apply Z.le_refl|..|exact Hl].
  - intros k row l Hk Hll Hn. destruct (Hnew k row Hk) as [Ho|(Hin & l0 & Hl0 & Hn0)].
    + destruct (row_back _ _ _ _ _ Hp He Ho Hll) as (l0 & Hl0 & Hn0).
      eapply (ac_filed _ _ _ _ _ (lg_accounts _ _ _ _ _ _ _ Hl)); [done|done|congruence].
    + apply (lg_sent _ _ _ _ _ _ _ Hl). apply Hsent; [|done]. destruct (ev_rows _ _ He _ _ Hl0) as (l1 & Hl1 & Ht).
      rewrite Hll in Hl1. injection Hl1 as <-. unfold row_terms in Ht. congruence.
  - intros k l Hk Hll Hn. left. rewrite Hr in Hk. split; [done|]. destruct (retired_back _ _ _ _ Hp He Hk Hll) as (l0 & Hl0 & Hn0).
    exists l0. split; [done|congruence].
Qed.

(** A retirement: of another node, or one that this node asked for. *)
Lemma retire_ledger p p' clock net drawn H st node lease used header config env hint : panel_inv p ->
  Write (retireLease shop_options node lease used header config) env p = (Ok hint, p') ->
  (node = N -> (lease, used) ∈ asked net) -> ledger N p clock net drawn H st -> ledger N p' clock net drawn H st.
Proof.
  intros Hp Hrun Hask Hl. destruct (retire_evolves _ _ _ _ _ _ _ _ _ Hp Hrun) as (He & Hu & l0 & Hl0 & Hn0 & Hspent & Hother).
  eapply ledger_panel; [exact He|apply Z.le_refl|..|exact Hl].
  - intros k row l Hk Hll Hn. rewrite Hu in Hk. destruct (row_back _ _ _ _ _ Hp He Hk Hll) as (l1 & Hl1 & Hn1).
    eapply (ac_filed _ _ _ _ _ (lg_accounts _ _ _ _ _ _ _ Hl)); [done|done|congruence].
  - intros k l Hk Hll Hn. destruct (decide (k = lease)) as [->|Hne].
    + destruct (ev_rows _ _ He _ _ Hl0) as (l1 & Hl1 & Ht). rewrite Hll in Hl1. injection Hl1 as <-.
      assert (Hmine : node = N) by (unfold row_terms in Ht; congruence). right.
      destruct (lg_asked _ _ _ _ _ _ _ Hl _ _ (Hask Hmine)) as [[Hr Hc]|Ho].
      * split; [|by left]. eapply settled_all_evolves; [exact He|].
        eapply counted_settled; [exact Hp|apply Hl|exact Hl0|congruence|congruence].
      * pose proof (over_evolves _ _ _ clock _ _ _ He (Z.le_refl _) Ho) as Ho'. split; [apply Ho'|by right].
    + left. rewrite (Hother k Hne) in Hk. split; [done|]. destruct (retired_back _ _ _ _ Hp He Hk Hll) as (l1 & Hl1 & Hn1).
      exists l1. split; [done|congruence].
Qed.

(** What holds of ledgers holds of a store. *)
Lemma books_map p p' clock clock' net drawn s : evolves p p' -> clock <= clock' ->
  (forall H st, ledger N p clock net drawn H st -> ledger N p' clock' net drawn H st) ->
  node_books N p clock net drawn s -> node_books N p' clock' net drawn s.
Proof.
  intros He Hc Hm (Hi & H & Hl & Hr). split; [done|]. exists H. split; [by apply Hm|]. intros st Hst. destruct (Hr st Hst) as (K & HK & Hcar).
  exists K. split; [by apply Hm|]. intros k Hk. destruct (Hcar k Hk) as [?|Ho]; [by left|right; by eapply over_evolves].
Qed.

(** ** What the agent says *)

Definition say (us : list UsageRecord) (net : wire) : wire := {| asked := asked net; sent := (us ++ sent net)%list |}.
Definition ask (rs : list (string * Z)) (net : wire) : wire := {| asked := (rs ++ asked net)%list; sent := sent net |}.

Lemma say_books p clock net drawn s us : (forall u, u ∈ us -> u ∈ Pending (state s)) ->
  node_books N p clock net drawn s -> node_books N p clock (say us net) drawn s.
Proof.
  intros Hus (Hi & H & Hl & Hr). assert (Hin : forall u, u ∈ us -> u ∈ H) by (intros u Hu; apply (ac_pending _ _ _ _ _ (lg_accounts _ _ _ _ _ _ _ Hl)); auto).
  split; [done|]. exists H. split.
  - destruct Hl as [A B C D]. split; try done. cbn. intros u [Hu|Hu]%elem_of_app; auto.
  - intros st Hst. destruct (Hr st Hst) as (K & [A B C D] & Hcar). exists K. split; [|done]. split; try done. cbn.
    intros u [Hu|Hu]%elem_of_app; [apply elem_of_app; left; auto|auto].
Qed.

Lemma Retirements_elem s k n : (k, n) ∈ Retirements s -> is_Some (Retired (state s) !! k) /\ n = used_of (state s) k.
Proof.
  unfold Retirements. rewrite list_elem_of_In, in_flat_map. intros ([k' d] & Hk & Hin). apply list_elem_of_In, elem_of_map_to_list in Hk.
  cbn in Hin. destruct d; [done|]. destruct Hin as [[= <- <-]|[]]. eauto.
Qed.

(** A stopped lease has no window, so it is over once it has expired and is
    settled. *)
Lemma stopped_windowless p clock H st k : accounts N p clock H st -> is_Some (Retired st !! k) -> windowless st k.
Proof. intros Ha [d Hd] id w Hw <-. pose proof (wb_open _ _ _ _ _ _ (ac_window _ _ _ _ _ Ha _ _ Hw)). congruence. Qed.

Lemma ask_books p clock net drawn s rs : (forall r, r ∈ rs -> r ∈ Retirements s) ->
  node_books N p clock net drawn s -> node_books N p clock (ask rs net) drawn s.
Proof.
  intros Hrs (Hi & H & Hl & Hr). pose proof (lg_accounts _ _ _ _ _ _ _ Hl) as Ha. split; [done|]. exists H. split.
  - destruct Hl as [A B C D]. split; try done. cbn. intros k n [Hk|Hk]%elem_of_app; [|auto].
    apply Hrs, Retirements_elem in Hk as [Hk ->]. destruct (ac_used _ _ _ _ _ Ha k) as [Hu|Ho]; [left; by split|by right].
  - intros st Hst. destruct (Hr st Hst) as (K & [A B C D] & Hcar). exists K. split; [|done]. split; try done. cbn.
    intros k n [Hk|Hk]%elem_of_app; [|auto]. apply Hrs, Retirements_elem in Hk as [Hk ->].
    destruct (Hcar k Hk) as [[Hk' Hnone]|Ho]; [|by right].
    destruct (ac_used _ _ _ _ _ Ha k) as [Hu|(Hx & _ & Hs)].
    + left. split; [done|]. rewrite Hu. unfold pending_bytes. rewrite sum_over_app.
      enough (sum_over (fun u => at_key (U_LeaseID u) k (bytes u)) K = 0) by lia.
      erewrite sum_over_ext, sum_over_zero; [done|]. intros u Hin. by apply at_key_ne, Hnone.
    + right. split; [done|]. split; [by eapply stopped_windowless|]. intros u [Hin|Hin]%elem_of_app Heq; [by apply Hs|]. by destruct (Hnone u Hin).
Qed.
End Panel.
