(* ===== verification/Fleet.v ===== *)
(** * The panel and a node as one system

    The whole panel, the agent of one node, and everything either of them has
    said: configurations the panel compiled for the node, records the agent
    sent, retirements it asked for, and the panel's answers.  A message may
    arrive at any time, more than once or never; the panel does anything else
    in between, for this node and for others; the agent's disk may fail at any
    append, and the agent may be restarted at any time.

    The agent's clock does not go back, and its random identifiers have never
    been drawn before.  A batch of charges or reservations takes time: its
    clock is read for every request, when the lease is checked and again when
    the record is stamped, and once more when it is committed ([ticks]). *)

From S2P Require Import Prelude Tx GoStrings Calendar Rational PlanRules Schema Wallet Plans Quota Purchases Refunds Payments Commerce.
From S2P Require Import AgentState AgentCredits AgentStore.
From S2P Require Import Desk DeskInv DeskSystem DeskRefresh DeskEvolve NodeConfig FleetBooks FleetEvents FleetStore FleetWriter FleetCredits FleetPanel.
From stdpp Require Import base gmap strings list relations.
From Stdlib Require Import Ascii String.
Local Open Scope string_scope.
Local Open Scope Z_scope.

Record Fleet := {
  f_panel : Panel; f_store : Store; f_clock : Z; f_drawn : gset string; f_net : wire;
  f_configs : list Config; f_answers : list (list UsageRecord * list string); f_told : list string
}.
Definition set_panel (p : Panel) (f : Fleet) : Fleet :=
  {| f_panel := p; f_store := f_store f; f_clock := f_clock f; f_drawn := f_drawn f; f_net := f_net f;
     f_configs := f_configs f; f_answers := f_answers f; f_told := f_told f |}.
Definition set_store (s : Store) (f : Fleet) : Fleet :=
  {| f_panel := f_panel f; f_store := s; f_clock := f_clock f; f_drawn := f_drawn f; f_net := f_net f;
     f_configs := f_configs f; f_answers := f_answers f; f_told := f_told f |}.
Definition set_clock (t : Z) (f : Fleet) : Fleet :=
  {| f_panel := f_panel f; f_store := f_store f; f_clock := t; f_drawn := f_drawn f; f_net := f_net f;
     f_configs := f_configs f; f_answers := f_answers f; f_told := f_told f |}.
Definition set_drawn (d : gset string) (f : Fleet) : Fleet :=
  {| f_panel := f_panel f; f_store := f_store f; f_clock := f_clock f; f_drawn := d; f_net := f_net f;
     f_configs := f_configs f; f_answers := f_answers f; f_told := f_told f |}.
Definition set_net (n : wire) (f : Fleet) : Fleet :=
  {| f_panel := f_panel f; f_store := f_store f; f_clock := f_clock f; f_drawn := f_drawn f; f_net := n;
     f_configs := f_configs f; f_answers := f_answers f; f_told := f_told f |}.
Definition set_replies (c : list Config) (a : list (list UsageRecord * list string)) (t : list string) (f : Fleet) : Fleet :=
  {| f_panel := f_panel f; f_store := f_store f; f_clock := f_clock f; f_drawn := f_drawn f; f_net := f_net f;
     f_configs := c; f_answers := a; f_told := t |}.

Section Fleet.
Context {RS : RatSyntax} (N : string).

(** A rule of a configuration the panel compiled. *)
Definition from_configs (f : Fleet) (r : Rule) : Prop := exists cfg, cfg ∈ f_configs f /\ r ∈ C_Rules cfg.

Inductive fstep (f : Fleet) : Fleet -> Prop :=
  (* the panel, without this node's reports *)
  | fs_shop o env : op_ok o -> lease_op o = false -> fstep f (set_panel (set_shop (Write (exec o) env (shop (f_panel f))).2 (f_panel f)) f)
  | fs_control p : control (f_panel f) p -> fstep f (set_panel p f)
  | fs_store admin create port_free rule env : savable (f_panel f) create rule ->
      fstep f (set_panel (Write (store_rule shop_options admin create port_free rule) env (f_panel f)).2 f)
  | fs_refresh owners node hint env : fstep f (set_panel (Write (refreshLeasesWithPrefetch shop_options owners node hint) env (f_panel f)).2 f)
  | fs_prefetch node rule lease raw env : fstep f (set_panel (Write (prefetchLease shop_options node rule lease raw) env (f_panel f)).2 f)
  | fs_other_usage node records env : node <> N -> fstep f (set_panel (usage_handler env node records (f_panel f)).2 f)
  | fs_other_retire node lease used header config env : node <> N ->
      fstep f (set_panel (Write (retireLease shop_options node lease used header config) env (f_panel f)).2 f)
  (* the panel, for this node *)
  | fs_config c env cfg : (Write (nodeConfig c N) env (f_panel f)).1 = Ok cfg ->
      fstep f (set_replies (cfg :: f_configs f) (f_answers f) (f_told f) f)
  | fs_usage records env : (forall u, u ∈ records -> u ∈ sent (f_net f)) ->
      fstep f (set_replies (f_configs f)
                 (match (usage_handler env N records (f_panel f)).1 with Ok ids => (records, ids) :: f_answers f | Err _ => f_answers f end)
                 (f_told f) (set_panel (usage_handler env N records (f_panel f)).2 f))
  | fs_retire lease used header config env : (lease, used) ∈ asked (f_net f) ->
      fstep f (set_replies (f_configs f) (f_answers f)
                 (match (Write (retireLease shop_options N lease used header config) env (f_panel f)).1 with Ok _ => lease :: f_told f | Err _ => f_told f end)
                 (set_panel (Write (retireLease shop_options N lease used header config) env (f_panel f)).2 f))
  (* the agent's clock, its memory and its disk *)
  | fs_tick t : f_clock f <= t -> fstep f (set_clock t f)
  | fs_spend queue r until up n : fstep f (set_store (TryCreditCharge (f_clock f) queue r until up n (f_store f)).1.2 f)
  | fs_charges tm io ids batch : ticks (f_clock f) tm -> fresh_ids (f_drawn f) (List.length batch) ids ->
      Forall (fun q => in_int64 (Rq_n q)) batch -> Forall (fun q => from_configs f (Rq_rule q)) batch ->
      fstep f (set_drawn (draw (f_drawn f) (List.length batch) ids)
                 (set_clock (tm_end tm) (set_store (processCharges tm io ids batch (f_store f)).2 f)))
  | fs_reserve tm ios ids batch : ticks (f_clock f) tm -> fresh_ids (f_drawn f) (List.length batch) ids ->
      Forall (fun q => from_configs f (Rq_rule q)) batch ->
      fstep f (set_drawn (draw (f_drawn f) (List.length batch) ids)
                 (set_clock (tm_end tm) (set_store (processReserveBatch tm ios ids batch (f_store f)).2 f)))
  | fs_flush io kind : fstep f (set_store (processFlush (f_clock f) io kind (f_store f)).2 f)
  | fs_prune io : fstep f (set_store (processPrune (f_clock f) io (f_store f)).2 f)
  | fs_stop io renewal lease : fstep f (set_store (processEvent (f_clock f) io renewal (retire_event lease) (f_store f)).2 f)
  | fs_identity io v : fstep f (set_store (processEvent (f_clock f) io false (SetIdentity v) (f_store f)).2 f)
  | fs_restart ios r s : OpenStore (f_clock f) ios (saved (f_store f)) (log (f_store f)) = (r, s) ->
      fstep f (set_store (if is_ok r then s else crashed (f_store f) s) f)
  (* messages *)
  | fs_apply io version cfg : cfg ∈ f_configs f -> admit_config (f_clock f) version (f_store f) cfg = true ->
      fstep f (set_store (processEvent (f_clock f) io false (SetConfig cfg) (f_store f)).2 f)
  | fs_read : fstep f (set_net (say (Pending (state (f_store f))) (f_net f)) f)
  | fs_ask : fstep f (set_net (ask (retire_requests (f_store f)) (f_net f)) f)
  | fs_confirm io records ids e : (records, ids) ∈ f_answers f -> flush_confirm records ids = Ok e ->
      fstep f (set_store (processEvent (f_clock f) io false e (f_store f)).2 f)
  | fs_retired io lease : lease ∈ f_told f -> fstep f (set_store (processEvent (f_clock f) io false (ConfirmRetired lease) (f_store f)).2 f).

(** The panel is new; the node has just been registered. *)
Definition good_disk : Disk :=
  {| append_err := None; append_kept := 0; checkpoint_due := false; checkpoint_err := None; checkpoint_renamed := false |}.
Definition enrolled (now : Z) (token : string) : Store :=
  (processEvent now good_disk false (SetIdentity {| G_NodeID := N; G_Token := token |}) (blank empty_disk [])).2.
Definition start (now : Z) (token : string) : Fleet :=
  {| f_panel := empty_panel; f_store := enrolled now token; f_clock := now; f_drawn := ∅; f_net := {| asked := []; sent := [] |};
     f_configs := []; f_answers := []; f_told := [] |}.
Definition fleet_reachable (f : Fleet) : Prop :=
  exists now token, N <> "" /\ zeroTime < now /\ rtc fstep (start now token) f.

Record fleet_inv (f : Fleet) : Prop := {
  fl_panel : panel_inv (f_panel f);
  fl_node : N <> "";
  fl_clock : zeroTime < f_clock f;
  fl_configs cfg r : cfg ∈ f_configs f -> r ∈ C_Rules cfg -> genuine N (f_panel f) r;
  fl_answers records ids id : (records, ids) ∈ f_answers f -> id ∈ ids -> booked N (f_panel f) id;
  fl_books : node_books N (f_panel f) (f_clock f) (f_net f) (f_drawn f) (f_store f)
}.

(** ** The invariant holds in every reachable system *)

Lemma genuine_evolves p p' r : evolves p p' -> genuine N p r -> genuine N p' r.
Proof. intros He Hg l Hl. eapply granted_evolves; eauto. Qed.
Lemma booked_evolves p p' id : evolves p p' -> booked N p id -> booked N p' id.
Proof.
  intros He (row & l & Hr & Hid & Hl & Hn). destruct (ev_rows _ _ He _ _ Hl) as (l' & Hl' & Ht).
  exists row, l'. split; [eapply lookup_weaken; [exact Hr|apply He]|]. split; [done|]. split; [done|]. unfold row_terms in Ht. congruence.
Qed.

(** The panel moved on. *)
Lemma panel_moves f p : panel_inv p -> evolves (f_panel f) p ->
  (forall H st, ledger N (f_panel f) (f_clock f) (f_net f) (f_drawn f) H st -> ledger N p (f_clock f) (f_net f) (f_drawn f) H st) ->
  fleet_inv f -> fleet_inv (set_panel p f).
Proof.
  intros Hp He Hm []. split; cbn; try done.
  - intros cfg r Hc Hr. eapply genuine_evolves; eauto.
  - intros records ids id Ha Hi. eapply booked_evolves; eauto.
  - eapply books_map; [exact He|apply Z.le_refl|exact Hm|done].
Qed.
Lemma panel_quiet f p : panel_inv p -> quiet (f_panel f) p -> fleet_inv f -> fleet_inv (set_panel p f).
Proof.
  intros Hp Hq Hf. apply panel_moves; [done|by apply quiet_evolves| |done]. intros H st. apply quiet_ledger; [apply Hf|done].
Qed.
Lemma write_quiet {A} (m : Tx Panel A) env p : keeps (quiet p) m -> quiet p (Write m env p).2.
Proof. intros Hm. eapply keeps_Write; [exact Hm|apply quiet_same]. Qed.

(** The store moved on. *)
Lemma store_moves f s d till : f_clock f <= till -> node_books N (f_panel f) till (f_net f) d s -> fleet_inv f ->
  fleet_inv (set_drawn d (set_clock till (set_store s f))).
Proof. intros Ht Hb []. split; cbn; eauto. lia. Qed.
Lemma store_kept f s : node_books N (f_panel f) (f_clock f) (f_net f) (f_drawn f) s -> fleet_inv f -> fleet_inv (set_store s f).
Proof. intros Hb []. split; cbn; eauto. Qed.
Lemma request_moves f io renewal e : request_ok N (f_panel f) e -> fleet_inv f ->
  fleet_inv (set_store (processEvent (f_clock f) io renewal e (f_store f)).2 f).
Proof. intros Hq Hf. apply store_kept; [|done]. apply processEvent_books; [done|done|apply Hf]. Qed.

(** *** Configurations *)

Lemma items_published p node it l : panel_inv p -> it ∈ items_of node p -> l ∈ rule_leases_of (it_rule it) ->
  granted node p (PR_ID (it_rule it)) l.
Proof.
  intros [_ Hd] Hit Hl. unfold items_of in Hit. apply list_elem_of_omap in Hit as ([k row] & Hin & Hit).
  apply list_elem_of_filter in Hin as [Hf Hrow]. apply elem_of_map_to_list in Hrow. cbn in Hf. apply Is_true_true, andb_true_iff in Hf as [Hn _].
  apply String.eqb_eq in Hn. unfold item_of in Hit. cbn in Hit. destruct (payloads p !! k) as [rule|] eqn:Hk; [|done].
  destruct (groups p !! PR_GroupID rule); [|done]. destruct (cp_users (shop p) !! ru_user row); [|done]. injection Hit as <-. cbn in *.
  destruct (dk_row _ Hd _ _ Hk) as (row' & Hr' & Hn' & _). rewrite (dk_payload _ Hd _ _ Hk), Hrow in Hr'. injection Hr' as <-.
  destruct (dk_published _ Hd _ _ Hk l Hl) as (r & A1 & A2 & A3 & A4 & A5 & A6 & c & A7 & _ & A8). exists r, c. split_and!; congruence.
Qed.

Lemma config_rule_Ok c caps it env p t o p' t' : config_rule c caps it env p t = (Ok (o, p'), t') -> p' = p /\
  forall r e, o = Some (r, e) -> R_ID r = PR_ID (it_rule it) /\ forall l, Some l ∈ ruleLeases r -> l ∈ rule_leases_of (it_rule it).
Proof.
  unfold config_rule. destruct (_ || _ || _); [intros (-> & -> & _)%mret_Ok; done|].
  destruct (PR_Lease (it_rule it)) as [l|] eqn:El; [|intros (-> & -> & _)%mret_Ok; done].
  intros (now & p1 & t1 & ->%Now_Ok & Hrun)%tx_bind_Ok. destruct (_ || _ || _); [apply mret_Ok in Hrun as (-> & -> & _); done|].
  apply tx_bind_Ok in Hrun as (q & p1' & t2 & (-> & -> & _)%gets_Ok & Hrun).
  destruct (cm_rest c p caps it) as [rest|]; [|apply mret_Ok in Hrun as (-> & -> & _); done].
  destruct (_ && _); [apply mret_Ok in Hrun as (-> & -> & _); done|]. apply mret_Ok in Hrun as (-> & -> & _). split; [done|].
  intros r e [= <- <-]. split; [done|]. intros x Hx. unfold ruleLeases in Hx. cbn in Hx. unfold rule_leases_of. rewrite El.
  apply elem_of_cons in Hx as [[= ->]|Hx]; [by left|]. right. destruct (contains caps "lease-set-v1"); [|by apply elem_of_nil in Hx].
  destruct (PR_Standby (it_rule it)); [|by apply elem_of_nil in Hx]. apply list_elem_of_singleton in Hx as [= ->]. by left.
Qed.

Lemma config_rules_Ok c caps items : forall till env p t o p' t', config_rules c caps items till env p t = (Ok (o, p'), t') -> p' = p /\
  forall r, r ∈ o.1 -> exists it, it ∈ items /\ R_ID r = PR_ID (it_rule it) /\ forall l, Some l ∈ ruleLeases r -> l ∈ rule_leases_of (it_rule it).
Proof.
  induction items as [|it items IH]; intros till env p t o p' t'; cbn [config_rules].
  { intros (-> & -> & _)%mret_Ok. split; [done|]. intros r Hr. by apply elem_of_nil in Hr. }
  intros (o1 & p1 & t1 & H1 & Hrun)%tx_bind_Ok. destruct (config_rule_Ok _ _ _ _ _ _ _ _ _ H1) as [-> Hr1].
  assert (Hgo : forall r, (exists it, it ∈ items /\ R_ID r = PR_ID (it_rule it) /\ forall l, Some l ∈ ruleLeases r -> l ∈ rule_leases_of (it_rule it)) ->
    exists i, i ∈ it :: items /\ R_ID r = PR_ID (it_rule i) /\ forall l, Some l ∈ ruleLeases r -> l ∈ rule_leases_of (it_rule i)).
  { intros r (i & Hi & Hx). exists i. split; [by right|done]. }
  destruct o1 as [[r1 e1]|].
  - apply tx_bind_Ok in Hrun as (l & p2 & t2 & H2 & (-> & -> & _)%mret_Ok). destruct (IH _ _ _ _ _ _ _ H2) as [-> Hl]. split; [done|].
    cbn. intros r [->|Hr]%elem_of_cons; [|by apply Hgo, Hl]. exists it. split; [by left|]. by eapply Hr1.
  - destruct (IH _ _ _ _ _ _ _ Hrun) as [-> Hl]. split; [done|]. intros r Hr. by apply Hgo, Hl.
Qed.

Lemma route_all_Ok c caps rules : forall env p t o p' t', route_all c caps rules env p t = (Ok (o, p'), t') -> p' = p /\
  forall r, r ∈ o -> exists r0, r0 ∈ rules /\ R_ID r = R_ID r0 /\ ruleLeases r = ruleLeases r0.
Proof.
  induction rules as [|r0 rules IH]; intros env p t o p' t'; cbn [route_all].
  { intros (-> & -> & _)%mret_Ok. split; [done|]. intros r Hr. by apply elem_of_nil in Hr. }
  intros (q & p1 & t1 & (-> & -> & _)%gets_Ok & Hrun)%tx_bind_Ok. destruct (cm_routes c p caps r0) as [cs|]; [|done].
  apply tx_bind_Ok in Hrun as (l & p2 & t2 & H2 & (-> & -> & _)%mret_Ok). destruct (IH _ _ _ _ _ _ H2) as [-> Hl]. split; [done|].
  intros r [->|Hr]%elem_of_cons; [exists r0; split; [by left|done]|]. destruct (Hl r Hr) as (r1 & H1 & Hx). exists r1. split; [by right|done].
Qed.

(** Every rule of a compiled configuration has leases of the desk for this
    rule and node. *)
Lemma nodeConfig_genuine c node env p t cfg p' t' r : panel_inv p -> nodeConfig c node env p t = (Ok (cfg, p'), t') ->
  r ∈ C_Rules cfg -> genuine node p r.
Proof.
  intros Hp Hrun Hr. unfold nodeConfig in Hrun. apply tx_bind_Ok in Hrun as (now & p1 & t1 & ->%Now_Ok & Hrun).
  apply tx_bind_Ok in Hrun as (caps0 & p2 & t2 & (-> & -> & _)%gets_Ok & Hrun). apply tx_bind_Ok in Hrun as (caps & p3 & t3 & (Hcaps & -> & _)%or_fail_Ok & Hrun).
  apply tx_bind_Ok in Hrun as (q & p4 & t4 & (-> & -> & _)%gets_Ok & Hrun). destruct (cm_ingresses c p node); [|done].
  apply tx_bind_Ok in Hrun as (v0 & p5 & t5 & Hv & Hrun). apply in_shop_Ok in Hv as (d & Hv & ->). apply SELECT_Ok in Hv as [-> ->].
  apply tx_bind_Ok in Hrun as (v & p6 & t6 & (_ & -> & _)%or_fail_Ok & Hrun). apply tx_bind_Ok in Hrun as (items & p7 & t7 & (-> & -> & _)%gets_Ok & Hrun).
  assert (Hsame : set_shop (shop p) p = p) by (by destruct p). rewrite Hsame in *.
  apply tx_bind_Ok in Hrun as (ru & p8 & t8 & H8 & Hrun). destruct (config_rules_Ok _ _ _ _ _ _ _ _ _ _ H8) as [-> Hru].
  apply tx_bind_Ok in Hrun as (rules & p9 & t9 & H9 & Hrun). destruct (cm_topology c p); [|done].
  destruct (route_all_Ok _ _ _ _ _ _ _ _ _ H9) as [-> Hrules].
  destruct (if contains caps "managed-services-v1" then cm_services c p node else Ok tt); [|done]. apply mret_Ok in Hrun as (-> & _). cbn in Hr.
  unfold filterSharedChildren in Hr. apply list_elem_of_In, List.filter_In in Hr as [Hr _]. apply list_elem_of_In in Hr.
  destruct (Hrules r Hr) as (r0 & H0 & Hid & Hls). destruct (Hru r0 H0) as (it & Hit & Hid0 & Hl0).
  intros l Hl. rewrite Hid, Hid0. eapply items_published; [done|done|]. apply Hl0. by rewrite <- Hls.
Qed.

(** *** Reports *)

Lemma usage_handler_Ok env node records p ids p' : usage_handler env node records p = (Ok ids, p') ->
  ids = U_ID <$> records /\ Write (persistUsageBatch shop_options node records) env p = (Ok tt, p').
Proof.
  unfold usage_handler. destruct (500 <? _); [done|]. destruct (Write _ env p) as [[[]|e] q] eqn:E; [|done]. by intros [= <- <-].
Qed.
Lemma usage_handler_Err env node records p e p' : usage_handler env node records p = (Err e, p') -> p' = p.
Proof.
  unfold usage_handler. destruct (500 <? _); [by intros [= _ <-]|]. destruct (Write _ env p) as [[[]|e'] q] eqn:E; [done|].
  intros [= _ <-]. by eapply Write_Err.
Qed.
Lemma set_panel_same f : set_panel (f_panel f) f = f.
Proof. by destruct f. Qed.

Lemma usage_moves f env node records ids p : usage_handler env node records (f_panel f) = (Ok ids, p) ->
  (node = N -> forall u, u ∈ records -> u ∈ sent (f_net f)) -> fleet_inv f -> fleet_inv (set_panel p f).
Proof.
  intros Hrun Hs Hf. apply usage_handler_Ok in Hrun as [_ Hrun]. pose proof (fl_panel _ Hf) as Hp.
  assert (Hp' : panel_inv p) by (pose proof (pstep_inv _ _ (ps_usage node records env _) Hp) as X; by rewrite Hrun in X).
  apply panel_moves; [done|by eapply usage_evolves| |done]. intros H st. by eapply usage_ledger.
Qed.
Lemma retire_moves f env node lease used header config hint p :
  Write (retireLease shop_options node lease used header config) env (f_panel f) = (Ok hint, p) ->
  (node = N -> (lease, used) ∈ asked (f_net f)) -> fleet_inv f -> fleet_inv (set_panel p f).
Proof.
  intros Hrun Hs Hf. pose proof (fl_panel _ Hf) as Hp.
  assert (Hp' : panel_inv p) by (pose proof (pstep_inv _ _ (ps_retire node lease used header config env _) Hp) as X; by rewrite Hrun in X).
  apply panel_moves; [done|by eapply retire_evolves| |done]. intros H st. by eapply retire_ledger.
Qed.

(** What was accepted is on file for the node. *)
Lemma accepted_booked f env records ids p id : usage_handler env N records (f_panel f) = (Ok ids, p) ->
  (forall u, u ∈ records -> u ∈ sent (f_net f)) -> fleet_inv f -> id ∈ ids -> booked N p id.
Proof.
  intros Hrun Hs Hf Hid. pose proof (usage_moves _ _ _ _ _ _ Hrun (fun _ => Hs) Hf) as Hf'. apply usage_handler_Ok in Hrun as [-> Hrun].
  apply list_elem_of_fmap in Hid as (u & -> & Hu). apply Write_Ok in Hrun as [t Hrun].
  destruct (persist_Ok _ _ _ _ _ _ _ _ (fl_panel _ Hf) Hrun) as [Hp' Hik]. destruct (ik_rows _ _ _ _ Hik u Hu) as (row & Hrow & Hpay).
  destruct (fl_books _ Hf') as (_ & H & Hl & _). pose proof (lg_sent _ _ _ _ _ _ _ Hl u (Hs u Hu)) as HuH.
  destruct (ac_record _ _ _ _ _ (lg_accounts _ _ _ _ _ _ _ Hl) _ HuH) as (_ & _ & _ & _ & _ & l & Hlid & (r & c & Hr & _ & Hn & _) & _). cbn in Hr.
  destruct (dk_usage _ (proj2 Hp') _ _ Hrow) as (_ & Hle & _). exists row, r. rewrite Hpay in *. split; [done|]. split; [done|]. split; [congruence|done].
Qed.

(** *** Messages to the agent *)

Lemma admitted_ok now version s cfg : admit_config now version s cfg = true -> config_ok cfg.
Proof.
  unfold admit_config. intros H. apply andb_prop in H as [_ H]. revert H. generalize (∅ : gmap string ResourceLimits) ([] : list string).
  unfold config_ok. induction (C_Rules cfg) as [|r0 rules IH]; intros m ids H r Hr He; [by apply elem_of_nil in Hr|]. cbn [admit_rules] in H.
  destruct (R_Enabled r0) eqn:E0; cbn [negb] in H.
  - apply andb_prop in H as [Hv H]. destruct (R_Lease r0) as [l|] eqn:El; [|done]. apply andb_prop in H as [_ H].
    apply elem_of_cons in Hr as [->|Hr]; [|by eapply IH]. split; [|congruence]. intros x Hx. unfold ruleLeases in Hx. rewrite El in Hx.
    unfold validate_leases in Hv. rewrite El in Hv. repeat (apply andb_prop in Hv as [Hv ?]).
    apply elem_of_cons in Hx as [[= ->]|Hx]; [by apply Z.ltb_lt|]. destruct (R_StandbyLease r0) as [s'|]; [|by apply elem_of_nil in Hx].
    apply list_elem_of_singleton in Hx as [= ->].
    match goal with X : context [NL_ExpiresAt s' <=? _] |- _ => repeat (apply andb_prop in X as [X ?]) end. by apply Z.ltb_lt.
  - apply elem_of_cons in Hr as [->|Hr]; [congruence|]. by eapply IH.
Qed.
Lemma config_request f version cfg : fleet_inv f -> cfg ∈ f_configs f -> admit_config (f_clock f) version (f_store f) cfg = true ->
  request_ok N (f_panel f) (SetConfig cfg).
Proof.
  intros Hf Hc Ha. split; try done.
  - split; [done|]. split; [done|]. by eapply admitted_ok.
  - unfold request_kinds. cbn. set_solver.
  - intros c [= <-] r Hr. by eapply (fl_configs _ Hf).
  - intros id Hid. by apply elem_of_nil in Hid.
  - apply Hf.
Qed.
Lemma plain_request f e : fleet_inv f -> Kind e ∈ request_kinds -> Ev_Usage e = None -> Ev_Lease e = None -> Ev_Config e = None -> Ev_IDs e = [] ->
  request_ok N (f_panel f) e.
Proof.
  intros Hf Hk Hu Hl Hc Hi. split; try done.
  - unfold event_ok. by rewrite Hu, Hl, Hc.
  - intros c. by rewrite Hc.
  - intros id. rewrite Hi. intros Hid. by apply elem_of_nil in Hid.
  - apply Hf.
Qed.
Lemma confirm_request f records ids e : fleet_inv f -> (records, ids) ∈ f_answers f -> flush_confirm records ids = Ok e ->
  request_ok N (f_panel f) e.
Proof.
  intros Hf Ha. unfold flush_confirm. destruct (bool_decide _); [done|]. destruct (forallb _ _); [|done]. intros [= <-]. split; try done.
  - unfold request_kinds. cbn. set_solver.
  - intros id Hid. by eapply (fl_answers _ Hf).
  - apply Hf.
Qed.

Lemma from_genuine f (batch : list stateRequest) : fleet_inv f -> Forall (fun q => from_configs f (Rq_rule q)) batch ->
  Forall (fun q => genuine N (f_panel f) (Rq_rule q)) batch.
Proof. intros Hf Hb. eapply Forall_impl; [exact Hb|]. intros q (cfg & Hc & Hr). by eapply (fl_configs _ Hf). Qed.

(** *** All steps *)

Lemma fstep_inv f f' : fstep f f' -> fleet_inv f -> fleet_inv f'.
Proof.
  intros Hs Hf. pose proof (fl_panel _ Hf) as Hp. pose proof (fl_books _ Hf) as Hb. destruct Hs.
  - apply panel_quiet; [by apply (pstep_inv (f_panel f)); [apply ps_shop|]|by apply shop_quiet|done].
  - apply panel_quiet; [by apply (pstep_inv (f_panel f)); [apply ps_control|]|by apply control_quiet|done].
  - apply panel_quiet; [by apply (pstep_inv (f_panel f)); [apply ps_store|]|by apply write_quiet, store_quiet|done].
  - apply panel_quiet; [by apply (pstep_inv (f_panel f)); [apply ps_refresh|]|by apply write_quiet, refresh_quiet|done].
  - apply panel_quiet; [by apply (pstep_inv (f_panel f)); [apply ps_prefetch|]|by apply write_quiet, prefetch_quiet|done].
  - destruct (usage_handler env node records (f_panel f)) as [[ids|e] p] eqn:E; cbn.
    + by eapply usage_moves.
    + apply usage_handler_Err in E as ->. by rewrite set_panel_same.
  - destruct (Write (retireLease shop_options node lease used header config) env (f_panel f)) as [[h|e] p] eqn:E; cbn.
    + by eapply retire_moves.
    + apply Write_Err in E as ->. by rewrite set_panel_same.
  - destruct (Write (nodeConfig c N) env (f_panel f)) as [[cfg'|e] p] eqn:E; [|done]. cbn in H. injection H as ->. apply Write_Ok in E as [t E].
    destruct Hf. split; cbn; try done. intros x r [->|Hx]%elem_of_cons Hr; [by eapply nodeConfig_genuine|by eapply fl_configs0].
  - destruct (usage_handler env N records (f_panel f)) as [[ids|e] p] eqn:E; cbn.
    + pose proof (usage_moves _ _ _ _ _ _ E (fun _ => H) Hf) as Hf'. pose proof (fun id => accepted_booked _ _ _ _ _ id E H Hf) as Hnew.
      destruct Hf'. split; cbn in *; try done. intros rs js id [[= -> ->]|Hin]%elem_of_cons Hid; [by apply Hnew|by eapply fl_answers0].
    + apply usage_handler_Err in E as ->. destruct Hf. by split.
  - destruct (Write (retireLease shop_options N lease used header config) env (f_panel f)) as [[h|e] p] eqn:E; cbn.
    + pose proof (retire_moves _ _ _ _ _ _ _ _ _ E (fun _ => H) Hf) as Hf'. destruct Hf'. by split.
    + apply Write_Err in E as ->. destruct Hf. by split.
  - destruct Hf. split; cbn; try done; [lia|]. by apply (later_books _ _ (f_clock f)).
  - apply store_kept; [|done]. by apply charge_books.
  - apply store_moves; [by apply ticks_end| |done]. by apply (processCharges_books _ _ (f_clock f)); [| |apply Hf| |apply from_genuine|apply Hf].
  - apply store_moves; [by apply ticks_end| |done]. by apply (processReserve_books _ _ (f_clock f)); [| |apply from_genuine|apply Hf].
  - apply store_kept; [|done]. by apply processFlush_books.
  - apply store_kept; [|done]. by apply processPrune_books.
  - apply request_moves; [|done]. apply plain_request; try done. unfold request_kinds. cbn. set_solver.
  - apply request_moves; [|done]. apply plain_request; try done. unfold request_kinds. cbn. set_solver.
  - apply store_kept; [|done]. by eapply restart_books.
  - apply request_moves; [|done]. by eapply config_request.
  - destruct Hf. split; cbn; try done. by apply say_books.
  - destruct Hf. split; cbn; try done. apply ask_books; [|done]. intros r Hr. unfold retire_requests in Hr.
    apply list_elem_of_In, List.filter_In in Hr as [Hr _]. by apply list_elem_of_In.
  - apply request_moves; [|done]. by eapply confirm_request.
  - apply request_moves; [|done]. apply plain_request; try done. unfold request_kinds. cbn. set_solver.
Qed.

Lemma start_inv now token : N <> "" -> zeroTime < now -> fleet_inv (start now token).
Proof.
  intros Hn Ht. split; cbn; try done; [apply panel_empty|intros * Hx; by apply elem_of_nil in Hx..|].
  assert (Hi : store_inv (enrolled now token)).
  { apply processEvent_store; [done|done|]. apply blank_inv. }
  apply (running_books _ _ _ _ _ []); [done|done|]. split; cbn.
  - split; cbn; try (intros * Hx; by apply elem_of_nil in Hx); try (intros *; by rewrite lookup_empty); try apply Hi; try done; try apply NoDup_nil_2.
    intros k. by left.
  - split; try (intros * Hx; by apply elem_of_nil in Hx). intros id [? Hx]. cbn in Hx. by rewrite lookup_empty in Hx.
  - intros * Hx. by apply elem_of_nil in Hx.
  - intros * Hx. by apply elem_of_nil in Hx.
Qed.

Lemma fleet_reachable_inv f : fleet_reachable f -> fleet_inv f.
Proof.
  intros (now & token & Hn & Ht & Hr). revert f Hr. apply rtc_ind_r; [by apply start_inv|]. intros f f' _ Hs IH. by eapply fstep_inv.
Qed.
End Fleet.
