(* ===== verification/FleetScenarios.v ===== *)
(** * A concrete run of panel and node

    The node joins and alice's rule is saved as in [DeskScenarios]; the agent
    gets the configuration, reserves a window, forwards from it and charges a
    packet, reports both, stops the lease and gives it back. *)

From S2P Require Import Prelude Tx GoStrings Calendar Rational PlanRules Schema Wallet Plans Quota Purchases Refunds Payments Commerce Scenarios.
From S2P Require Import AgentState AgentCredits AgentStore.
From S2P Require Import Desk DeskInv DeskSystem DeskScenarios NodeConfig FleetBooks FleetEvents FleetStore FleetWriter FleetCredits FleetPanel Fleet.
From stdpp Require Import base gmap strings list relations.
From Stdlib Require Import Ascii String.
Local Open Scope string_scope.
Local Open Scope Z_scope.

Definition plain_compiler : compiler :=
  {| cm_ingresses := fun _ _ => Ok tt; cm_rest := fun _ _ _ => Some ""; cm_topology := fun _ => Ok tt;
     cm_routes := fun _ _ _ => Ok []; cm_services := fun _ _ => Ok tt; cm_shared := fun _ => None |}.
Definition no_config : Config := {| C_NodeID := ""; C_Version := 0; C_ValidUntil := 0; C_Rules := [] |}.
Definition fleet_config : Config :=
  match (Write (nodeConfig plain_compiler "node") (demo_env 21) desk_prefetched).1 with Ok c => c | Err _ => no_config end.
Definition no_rule : Rule :=
  {| R_ID := ""; R_UserID := ""; R_Network := ""; R_Enabled := false; R_UDP := None; R_Lease := None; R_StandbyLease := None;
     R_LeasePipeline := false; R_Candidates := []; R_Rest := "" |}.
Definition fleet_rule : Rule := default no_rule (head (C_Rules fleet_config)).

Definition no_lease : NodeLease :=
  {| NL_ID := ""; NL_EntitlementID := ""; NL_ExpiresAt := 0; NL_Bytes := 0;
     NL_Limits := {| RL_MaxRules := 0; RL_MaxConnections := 0; RL_MaxIPs := 0; RL_BytesPerSecond := 0 |} |}.
Definition fleet_lease : NodeLease := default no_lease (R_Lease fleet_rule).

Definition awake : Z := 1700000022 * second.
Definition window_ids (_ : nat) : string := "00000000000000000000000000000000".
Definition packet_ids (_ : nat) : string := "11111111111111111111111111111111".
Definition packet : stateRequest :=
  {| Rq_event := empty_event "charge"; Rq_rule := fleet_rule; Rq_until := C_ValidUntil fleet_config; Rq_upload := true; Rq_n := 60;
     Rq_prime := false; Rq_size := 0 |}.
Definition refill : stateRequest := credit_request fleet_rule (C_ValidUntil fleet_config) true 10 0.

Definition f_new : Fleet := start "node" (1700000000 * second) "secret".
Definition f_joined : Fleet := set_panel desk_joined f_new.
Definition f_bought : Fleet := set_panel desk_bought f_joined.
Definition f_saved : Fleet := set_panel (Write (store_rule shop_options false true true desk_rule) (demo_env 20) (f_panel f_bought)).2 f_bought.
Definition f_prefetched : Fleet :=
  set_panel (Write (prefetchLease shop_options "node" "rule" "e20-1" 67108864) (demo_env 21) (f_panel f_saved)).2 f_saved.
Definition f_offered : Fleet := set_replies (fleet_config :: f_configs f_prefetched) (f_answers f_prefetched) (f_told f_prefetched) f_prefetched.
Definition f_awake : Fleet := set_clock awake f_offered.
Definition f_applied : Fleet := set_store (processEvent (f_clock f_awake) good_disk false (SetConfig fleet_config) (f_store f_awake)).2 f_awake.
Definition f_reserved : Fleet :=
  set_drawn (draw (f_drawn f_applied) 1 window_ids) (set_clock awake (set_store (processReserveBatch (at_once awake) (fun _ => good_disk) window_ids [refill] (f_store f_applied)).2 f_applied)).
Definition f_spent : Fleet :=
  set_store (TryCreditCharge (f_clock f_reserved) true fleet_rule (C_ValidUntil fleet_config) true 10 (f_store f_reserved)).1.2 f_reserved.
Definition f_charged : Fleet :=
  set_drawn (draw (f_drawn f_spent) 1 packet_ids) (set_clock awake (set_store (processCharges (at_once awake) good_disk packet_ids [packet] (f_store f_spent)).2 f_spent)).
Definition f_flushed : Fleet := set_store (processFlush (f_clock f_charged) good_disk "credit_flush" (f_store f_charged)).2 f_charged.
Definition records : list UsageRecord := Pending (state (f_store f_flushed)).
Definition f_read : Fleet := set_net (say (Pending (state (f_store f_flushed))) (f_net f_flushed)) f_flushed.
Definition f_filed : Fleet :=
  set_replies (f_configs f_read)
    (match (usage_handler (demo_env 22) "node" records (f_panel f_read)).1 with Ok ids => (records, ids) :: f_answers f_read | Err _ => f_answers f_read end)
    (f_told f_read) (set_panel (usage_handler (demo_env 22) "node" records (f_panel f_read)).2 f_read).
Definition f_confirmed : Fleet := set_store (processEvent (f_clock f_filed) good_disk false (Confirm (U_ID <$> records)) (f_store f_filed)).2 f_filed.
Definition f_stopped : Fleet := set_store (processEvent (f_clock f_confirmed) good_disk false (retire_event "e20-1") (f_store f_confirmed)).2 f_confirmed.
Definition f_asked : Fleet := set_net (ask (retire_requests (f_store f_stopped)) (f_net f_stopped)) f_stopped.
Definition f_returned : Fleet :=
  set_replies (f_configs f_asked) (f_answers f_asked)
    (match (Write (retireLease shop_options "node" "e20-1" 70 0 false) (demo_env 23) (f_panel f_asked)).1 with Ok _ => "e20-1" :: f_told f_asked | Err _ => f_told f_asked end)
    (set_panel (Write (retireLease shop_options "node" "e20-1" 70 0 false) (demo_env 23) (f_panel f_asked)).2 f_asked).

(** Every step of the run succeeds. *)
Example fleet_answers :
  (processEvent awake good_disk false (SetConfig fleet_config) (f_store f_awake)).1 = Ok tt /\
  (processReserveBatch (at_once awake) (fun _ => good_disk) window_ids [refill] (f_store f_applied)).1 = [Ok tt] /\
  (TryCreditCharge awake true fleet_rule (C_ValidUntil fleet_config) true 10 (f_store f_reserved)).1.1 = Ok tt /\
  (processCharges (at_once awake) good_disk packet_ids [packet] (f_store f_spent)).1 = [Ok tt] /\
  bytes <$> records = [60; 10] /\
  (usage_handler (demo_env 22) "node" records (f_panel f_read)).1 = Ok (U_ID <$> records) /\
  flush_confirm records (U_ID <$> records) = Ok (Confirm (U_ID <$> records)) /\
  retire_requests (f_store f_stopped) = [("e20-1", 70)] /\
  (Write (retireLease shop_options "node" "e20-1" 70 0 false) (demo_env 23) (f_panel f_asked)).1 = Ok no_hint.
Proof. vm_compute. repeat split. Qed.

(** ** The run is one of the system *)

Definition runs_to (f : Fleet) : Prop := rtc (fstep "node") f_new f.
Lemma runs_reachable f : runs_to f -> fleet_reachable "node" f.
Proof. intros Hr. exists (1700000000 * second), "secret". split; [done|]. split; [by vm_compute|exact Hr]. Qed.

Lemma shop_runs l : forall f, Forall (fun eo : Env * op => op_ok eo.2 /\ lease_op eo.2 = false) l ->
  runs_to f -> runs_to (set_panel (shop_run l (f_panel f)) f).
Proof.
  induction l as [|[env o] l IH]; intros f Hall Hr; [by destruct f|]. apply Forall_cons in Hall as [[H1 H2] Hall].
  pose proof (rtc_r _ _ _ Hr (fs_shop "node" f o env H1 H2)) as Hr1. exact (IH _ Hall Hr1).
Qed.
Lemma joined_runs : runs_to f_joined.
Proof. apply rtc_once. apply fs_control. split; try done. exists demo_users, ∅, {[ "node" := 1 ]}, ∅, ∅. done. Qed.
Lemma bought_runs : runs_to f_bought.
Proof. apply (shop_runs (numbered (take 7 demo_history)) f_joined); [repeat constructor; done|apply joined_runs]. Qed.
Lemma saved_runs : runs_to f_saved.
Proof.
  eapply rtc_r; [apply bought_runs|]. apply (fs_store "node" f_bought false true true desk_rule (demo_env 20)).
  split; [|discriminate]. intros l Hl. by apply elem_of_nil in Hl.
Qed.
Lemma prefetched_runs : runs_to f_prefetched.
Proof. eapply rtc_r; [apply saved_runs|]. exact (fs_prefetch "node" f_saved "node" "rule" "e20-1" 67108864 (demo_env 21)). Qed.
Lemma offered_runs : runs_to f_offered.
Proof. eapply rtc_r; [apply prefetched_runs|]. apply (fs_config "node" f_prefetched plain_compiler (demo_env 21)). vm_compute. reflexivity. Qed.
Lemma awake_runs : runs_to f_awake.
Proof. eapply rtc_r; [apply offered_runs|]. apply (fs_tick "node" f_offered awake). by vm_compute. Qed.
Lemma applied_runs : runs_to f_applied.
Proof. eapply rtc_r; [apply awake_runs|]. apply (fs_apply "node" f_awake good_disk 0 fleet_config); [by left|vm_compute; reflexivity]. Qed.

Lemma one_fresh drawn id : String.length id = 32%nat -> id ∉ drawn -> fresh_ids drawn 1 (fun _ => id).
Proof. intros Hl Hn. split; [done|done|]. intros i j Hi Hj _. lia. Qed.
Lemma rule_known f : f_configs f = [fleet_config] -> from_configs f fleet_rule.
Proof. intros Hc. exists fleet_config. rewrite Hc. split; [by left|]. apply list_elem_of_In. vm_compute. by left. Qed.

Lemma at_once_ticks t : ticks t (at_once t).
Proof. split; [done|]. intros i. cbn. lia. Qed.

Lemma reserved_runs : runs_to f_reserved.
Proof.
  eapply rtc_r; [apply applied_runs|]. apply (fs_reserve "node" f_applied (at_once awake) (fun _ => good_disk) window_ids [refill]).
  - apply at_once_ticks.
  - apply (one_fresh (f_drawn f_applied) "00000000000000000000000000000000"); [done|]. change (f_drawn f_applied) with (∅ : gset string).
    apply not_elem_of_empty.
  - apply Forall_singleton. by apply rule_known.
Qed.
Lemma spent_runs : runs_to f_spent.
Proof. eapply rtc_r; [apply reserved_runs|]. exact (fs_spend "node" f_reserved true fleet_rule (C_ValidUntil fleet_config) true 10). Qed.
Lemma charged_runs : runs_to f_charged.
Proof.
  eapply rtc_r; [apply spent_runs|]. apply (fs_charges "node" f_spent (at_once awake) good_disk packet_ids [packet]).
  - apply at_once_ticks.
  - apply (one_fresh (f_drawn f_spent) "11111111111111111111111111111111"); [done|].
    change (f_drawn f_spent) with (draw ∅ 1 window_ids). unfold draw. cbn. set_solver.
  - apply Forall_singleton. by vm_compute.
  - apply Forall_singleton. by apply rule_known.
Qed.
Lemma flushed_runs : runs_to f_flushed.
Proof. eapply rtc_r; [apply charged_runs|]. exact (fs_flush "node" f_charged good_disk "credit_flush"). Qed.
Lemma read_runs : runs_to f_read.
Proof. eapply rtc_r; [apply flushed_runs|]. exact (fs_read "node" f_flushed). Qed.
Lemma filed_runs : runs_to f_filed.
Proof.
  eapply rtc_r; [apply read_runs|]. unfold f_filed. apply fs_usage. intros u Hu. unfold f_read. cbn [f_net set_net say sent].
  apply elem_of_app. by left.
Qed.
Lemma confirmed_runs : runs_to f_confirmed.
Proof.
  eapply rtc_r; [apply filed_runs|]. unfold f_confirmed. apply (fs_confirm "node" f_filed good_disk records (U_ID <$> records)); [|vm_compute; reflexivity].
  assert (Ha : f_answers f_filed = [(records, U_ID <$> records)]) by evaluates. rewrite Ha. apply elem_of_cons. left. reflexivity.
Qed.
Lemma stopped_runs : runs_to f_stopped.
Proof. eapply rtc_r; [apply confirmed_runs|]. exact (fs_stop "node" f_confirmed good_disk false "e20-1"). Qed.
Lemma asked_runs : runs_to f_asked.
Proof. eapply rtc_r; [apply stopped_runs|]. exact (fs_ask "node" f_stopped). Qed.
Lemma returned_runs : runs_to f_returned.
Proof.
  eapply rtc_r; [apply asked_runs|]. unfold f_returned. apply fs_retire.
  unfold f_asked. cbn [f_net set_net ask asked]. destruct fleet_answers as (_ & _ & _ & _ & _ & _ & _ & -> & _). by left.
Qed.
