(* ===== verification/FleetGuarantees.v ===== *)
(** * What panel and node guarantee together

    The theorems of this file are about every state of the system of
    [Fleet]: nothing is forwarded that was not paid for, nothing the node
    counted is lost or counted twice, the panel accepts every report that is
    in time, and a lease that was given back cannot be spent. *)

From S2P Require Import Prelude Tx GoStrings Calendar Rational PlanRules Schema Wallet Plans Quota Purchases Refunds Payments Commerce.
From S2P Require Import AgentState AgentCredits AgentStore.
From S2P Require Import Desk DeskInv DeskSystem DeskProgress DeskRefresh DeskEvolve NodeConfig FleetBooks FleetEvents FleetStore FleetWriter FleetCredits FleetPanel Fleet Scenarios FleetScenarios.
From stdpp Require Import base gmap strings list relations.
From Stdlib Require Import Ascii String.
Local Open Scope string_scope.
Local Open Scope Z_scope.

Section Lemmas.
Context {RS : RatSyntax} (N : string).

Lemma known_granted p clock H st k l : accounts N p clock H st -> Leases st !! k = Some l ->
  NL_ID l = k /\ exists rule, granted N p rule l.
Proof. intros Ha Hl. destruct (di_lease _ (ac_disk _ _ _ _ _ Ha) _ _ Hl) as [Hid _]. split; [done|]. by eapply (ac_lease _ _ _ _ _ Ha). Qed.

(** What is not on file is in the spool. *)
Lemma unfiled_pending p clock H st k : accounts N p clock H st ->
  pending_bytes (unfiled p H) k = pending_bytes (unfiled p (Pending st)) k.
Proof.
  intros Ha. unfold pending_bytes. apply sum_over_perm, NoDup_Permutation.
  - apply NoDup_filter. eapply NoDup_fmap_1. apply (ac_ids _ _ _ _ _ Ha).
  - apply NoDup_filter. eapply NoDup_fmap_1. apply (ac_spool _ _ _ _ _ Ha).
  - intros u. unfold unfiled. rewrite !list_elem_of_filter. split; intros [Hu Hin]; (split; [done|]).
    + destruct (decide (u ∈ Pending st)) as [?|Hn]; [done|]. apply (ac_done _ _ _ _ _ Ha _ Hin), on_file_spec in Hn. congruence.
    + by apply (ac_pending _ _ _ _ _ Ha).
Qed.
Lemma unfiled_none p us k : (forall u, u ∈ us -> U_LeaseID u = k -> filed p u) -> pending_bytes (unfiled p us) k = 0.
Proof.
  intros Hs. unfold pending_bytes. erewrite sum_over_ext, sum_over_zero; [done|]. intros u [Hu Hin]%list_elem_of_filter.
  apply at_key_ne. intros Hk. apply Hs, on_file_spec in Hk; [congruence|done].
Qed.

(** The node's count, in the panel's terms. *)
Lemma used_split p clock H st k row : panel_inv p -> accounts N p clock H st -> rule_leases p !! k = Some row -> rl_node row = N ->
  used_of st k = rl_spent row + pending_bytes (unfiled p (Pending st)) k \/ over p clock H st k.
Proof.
  intros Hp Ha Hr Hn. destruct (ac_used _ _ _ _ _ Ha k) as [Hu|Ho]; [left|by right].
  rewrite Hu, (filed_sum N _ _ _ _ _ _ Hp Ha Hr Hn). f_equal. by eapply unfiled_pending.
Qed.

Lemma no_window_unsettled s k : live_inv s -> windowless (state s) k -> spent s k = used_of (state s) k.
Proof.
  intros Hl Hw. unfold spent, unsettled_of. rewrite map_sum_all_zero; [lia|]. intros id c Hc. apply at_key_ne. intros Heq.
  apply (Hw id (LC_window c)); [|done]. by rewrite (lv_windows _ Hl), lookup_fmap, Hc.
Qed.

(** The records of the node fit into the lease. *)
Lemma history_fits p clock H st k row : accounts N p clock H st -> rule_leases p !! k = Some row -> rl_node row = N ->
  0 <= rl_bytes row -> pending_bytes H k <= rl_bytes row \/ over p clock H st k.
Proof.
  intros Ha Hr Hn Hb. destruct (ac_used _ _ _ _ _ Ha k) as [Hu|Ho]; [left|by right]. rewrite <- Hu. pose proof (ac_disk _ _ _ _ _ Ha) as Hd.
  unfold used_of. destruct (Used st !! k) as [n|] eqn:E; [|done]. destruct (di_used _ Hd _ _ E) as [_ [l Hl]].
  destruct (known_granted _ _ _ _ _ _ Ha Hl) as (Hid & rule & Hg). destruct (granted_row N p rule l row Hg) as (_ & _ & ->); [by rewrite Hid|].
  pose proof (di_budget _ Hd _ _ Hl) as Hbud. pose proof (liability_nonneg st Hd k). unfold used_of in Hbud. rewrite E in Hbud. cbn in *. lia.
Qed.

(** A record that ended before the shop's expiry of its lease. *)
Definition in_time (p : Panel) (u : UsageRecord) : Prop :=
  forall c, leases (shop p) !! U_LeaseID u = Some c -> U_EndedAt u <= le_expires c.

(** A record of the node that is not on file is within its lease, if it is in
    time; only a direct charge may not be. *)
Lemma unfiled_in_lease p clock H st u : panel_inv p -> accounts N p clock H st -> u ∈ H -> cp_usage p !! U_ID u = None ->
  (U_Kind u = "" -> in_time p u) -> in_lease N p u /\ on_time p u.
Proof.
  intros Hp Ha Hu Hnew Htime. destruct (ac_record _ _ _ _ _ Ha _ Hu) as (_ & _ & _ & _ & _ & l & Hid & (row & c & G1 & G2 & G3 & G4 & G5 & G6 & G7 & G8) & Hent & Hrec).
  rewrite Hid in *. assert (Hend : U_EndedAt u <= NL_ExpiresAt l) by (destruct (decide (U_Kind u = "")) as [Hk|Hk]; [rewrite <- G8; by apply Htime|by apply Hrec]).
  split; [|intros x c' _ _ Hc'; rewrite G7 in Hc'; injection Hc' as <-; lia]. exists row. split; [done|]. split.
  - destruct (retirements p !! U_LeaseID u) as [r|] eqn:Hr; [|done]. exfalso.
    destruct (ac_retired _ _ _ _ _ Ha _ _ (mk_is_Some _ _ Hr) G1 G3) as [Hs _]. destruct (Hs u Hu eq_refl) as (x & Hx & _). congruence.
  - do 2 (split; [done|]). split; [congruence|]. rewrite G6. unfold Unix. apply Z.div_le_mono; [done|exact Hend].
Qed.

(** New records of the node do not exceed a lease. *)
Lemma unfiled_fits p clock H st k l (us : list UsageRecord) : panel_inv p -> accounts N p clock H st -> rule_leases p !! k = Some l ->
  NoDup us -> (forall u, u ∈ us -> u ∈ H) -> (forall u, u ∈ us -> cp_usage p !! U_ID u = None) -> rl_spent l + brought k us <= rl_bytes l.
Proof.
  intros Hp Ha Hl Hnd HinH Hnew. pose proof (dk_bounds _ (proj2 Hp) _ _ Hl) as Hb. destruct (decide (rl_node l = N)) as [Hn|Hn].
  - assert (Hle : brought k us <= pending_bytes (unfiled p H) k).
    { assert (Hsub : us ⊆+ unfiled p H).
      { apply NoDup_submseteq; [done|]. intros u Hu. apply list_elem_of_filter. split; [|by apply HinH]. unfold on_file. by rewrite (Hnew u Hu). }
      apply submseteq_Permutation in Hsub as [rest Hperm]. unfold pending_bytes. rewrite (sum_over_perm _ _ _ Hperm), sum_over_app. fold (brought k us).
      enough (0 <= sum_over (fun u => at_key (U_LeaseID u) k (bytes u)) rest) by (unfold brought, raw_bytes, bytes in *; lia).
      apply sum_over_nonneg. intros u Hu. assert (Hin : u ∈ unfiled p H) by (rewrite Hperm; apply elem_of_app; by right).
      apply list_elem_of_filter in Hin as [_ Hin]. destruct (ac_record _ _ _ _ _ Ha _ Hin) as (_ & _ & _ & Hpos & _). unfold at_key. destruct (String.eqb _ _); lia. }
    pose proof (filed_sum N _ _ _ _ _ _ Hp Ha Hl Hn) as Hs. destruct (history_fits _ _ _ _ _ _ Ha Hl Hn ltac:(lia)) as [?|(_ & _ & Hset)]; [lia|].
    rewrite (unfiled_none p H k) in Hle by done. lia.
  - assert (Hz : brought k us = 0); [|lia]. apply brought_none. intros u Hu <-.
    destruct (ac_record _ _ _ _ _ Ha _ (HinH u Hu)) as (_ & _ & _ & _ & _ & x & Hid & (row & c & G1 & G2 & G3 & _) & _). rewrite Hid in G1. congruence.
Qed.
End Lemmas.

Section Guarantees.
Context {RS : RatSyntax} (N : string).

(** C1: what a node forwards was paid for before.  Of every lease the agent
    knows, what it has let through (what is written down and what is spent of
    live windows) is at most the bytes of the lease at the desk; if it is a
    lease that was sold, its price at the lease's multiplier is at most what
    the shop took from the entitlement for it. *)
Theorem fleet_prepaid f k l : fleet_reachable N f -> Leases (state (f_store f)) !! k = Some l ->
  exists row, rule_leases (f_panel f) !! k = Some row /\ rl_node row = N /\ spent (f_store f) k <= rl_bytes row /\
    (paid row -> exists c r, leases (shop (f_panel f)) !! k = Some c /\ reservations (shop (f_panel f)) !! k = Some r /\
       ceil_charge (spent (f_store f) k) (mult_of c) <= rs_budget r).
Proof.
  intros Hf Hl. apply fleet_reachable_inv in Hf as [Hp _ _ _ _ (Hi & H & Hled & _)]. pose proof (lg_accounts _ _ _ _ _ _ _ Hled) as Ha.
  destruct (known_granted _ _ _ _ _ _ _ Ha Hl) as (Hid & rule & Hg). pose proof (spent_bound _ _ _ (si_disk _ _ Hi) (si_live _ _ Hi) Hl) as Hb.
  pose proof Hg as (row & _ & Hr & _). destruct (granted_row N _ _ _ _ Hg Hr) as (_ & Hn & Hbytes). rewrite Hid in Hr. exists row.
  split; [done|]. split; [done|]. split; [lia|]. intros Hpd. destruct (dk_backed _ (proj2 Hp) _ _ Hr Hpd) as (c & Hc & _ & _ & _ & Hcb & _).
  pose proof (q_lease _ _ _ _ _ _ _ (service_quota _ (proj1 Hp)) _ _ Hc) as Hok. destruct (lk_budget _ _ _ _ Hok) as (r & Hrs & _ & Hle).
  exists c, r. split; [done|]. split; [done|]. etrans; [|exact Hle]. destruct (mult_of_pos _ _ _ _ Hok). destruct (mult_of c) as [a b].
  pose proof (spent_covered _ k (si_live _ _ Hi)). pose proof (used_of_nonneg _ k (si_disk _ _ Hi)).
  apply ceil_charge_mono; [done|done|lia].
Qed.

(** C2: nothing is lost and nothing is counted twice.  Of every lease the
    agent knows and that has not expired, what the agent has written down is
    what the panel has on file plus what is in the agent's spool and not on
    file yet; if the lease was sold, the shop has settled what is on file.
    This holds whatever was sent twice, answered and lost, or interrupted by a
    crash of the agent. *)
Theorem fleet_accounts f k l : fleet_reachable N f -> Leases (state (f_store f)) !! k = Some l -> f_clock f < NL_ExpiresAt l ->
  exists row, rule_leases (f_panel f) !! k = Some row /\ rl_node row = N /\ rl_bytes row = NL_Bytes l /\
    used_of (state (f_store f)) k = rl_spent row + pending_bytes (unfiled (f_panel f) (Pending (state (f_store f)))) k /\
    (paid row -> exists c, leases (shop (f_panel f)) !! k = Some c /\ le_used c = rl_spent row).
Proof.
  intros Hf Hl Hlive. apply fleet_reachable_inv in Hf as [Hp _ _ _ _ (Hi & H & Hled & _)]. pose proof (lg_accounts _ _ _ _ _ _ _ Hled) as Ha.
  destruct (known_granted _ _ _ _ _ _ _ Ha Hl) as (Hid & rule & Hg). pose proof Hg as (row & _ & Hr & _).
  destruct (granted_row N _ _ _ _ Hg Hr) as (_ & Hn & Hbytes). rewrite Hid in Hr. exists row. do 3 (split; [done|]). split.
  - destruct (used_split N _ _ _ _ _ _ Hp Ha Hr Hn) as [?|Ho]; [done|]. exfalso. rewrite <- Hid in Ho. by eapply granted_live.
  - intros Hpd. destruct (dk_backed _ (proj2 Hp) _ _ Hr Hpd) as (c & Hc & _). exists c. split; [done|]. by eapply books_agree.
Qed.

(** C3: the panel accepts every report that is in time.  Whatever part of its
    spool the agent sends, in batches of 500 as [flush] does, the handler files
    and settles it and answers with its identifiers, if the panel's clock is
    not more than a minute behind the records, no other node has used one of
    their identifiers, and the new direct charges among them ended before their
    leases expired.  The agent checks the lease before it stamps a direct
    charge and does not look again; records of windows, and everything else a
    record needs (a lease of the desk for this rule, node and entitlement that
    is not retired and has the bytes left), the agent makes sure of. *)
Theorem fleet_accepts f env n : fleet_reachable N f ->
  let records := flush_batch (drop n (Pending (state (f_store f)))) in
  (forall u t, u ∈ records -> U_EndedAt u <= env_now env t + minute) ->
  (forall u row, u ∈ records -> cp_usage (f_panel f) !! U_ID u = Some row ->
     exists l, rule_leases (f_panel f) !! cu_lease row = Some l /\ rl_node l = N) ->
  (forall u, u ∈ records -> U_Kind u = "" -> cp_usage (f_panel f) !! U_ID u = None -> in_time (f_panel f) u) ->
  exists p', usage_handler env N records (f_panel f) = (Ok (U_ID <$> records), p') /\ forall u, u ∈ records -> on_file p' u = true.
Proof.
  intros Hf records Hclock Hclash Htime. apply fleet_reachable_inv in Hf as [Hp _ _ _ _ (Hi & H & Hled & _)]. pose proof (lg_accounts _ _ _ _ _ _ _ Hled) as Ha.
  set (p := f_panel f) in *. assert (Hsub : records `sublist_of` Pending (state (f_store f))) by (etrans; [apply sublist_take|apply sublist_drop]).
  assert (HinH : forall u, u ∈ records -> u ∈ H) by (intros u Hu; apply (ac_pending _ _ _ _ _ Ha); by eapply elem_of_sublist).
  assert (Hlen : (List.length records <= 500)%nat) by (unfold records, flush_batch; rewrite length_take; lia).
  assert (Hnd : NoDup (U_ID <$> records)) by (eapply sublist_NoDup; [apply (ac_spool _ _ _ _ _ Ha)|by apply fmap_sublist]).
  assert (Hknown : forall u row, u ∈ records -> cp_usage p !! U_ID u = Some row -> cu_payload row = u).
  { intros u row Hu Hrow. destruct (Hclash u row Hu Hrow) as (l & Hl & Hn). destruct (dk_usage _ (proj2 Hp) _ _ Hrow) as (Hid & _).
    eapply (nodup_key U_ID); [apply (ac_ids _ _ _ _ _ Ha)|by eapply (ac_filed _ _ _ _ _ Ha)|by apply HinH|done]. }
  assert (Hin : forall u, u ∈ filter (fun u => cp_usage p !! U_ID u = None) records -> in_lease N p u /\ on_time p u).
  { intros u [Hnew Hu]%list_elem_of_filter. eapply (unfiled_in_lease N); eauto. }
  destruct (persist_runs N records env p 0%nat Hp Hlen Hnd) as ([] & p' & t' & Hrun & _); [|done|..].
  - apply Forall_forall. intros u Hu. destruct (ac_record _ _ _ _ _ Ha _ (HinH u Hu)) as (H1 & H2 & H3 & _). do 3 (split; [done|]). intros t. by apply Hclock.
  - apply Forall_forall. intros u Hu. by apply Hin.
  - apply Forall_forall. intros u Hu. by apply Hin.
  - intros k l Hl. eapply (unfiled_fits N); [exact Hp|exact Ha|exact Hl|by apply NoDup_filter; eapply NoDup_fmap_1|..]; intros u [Hnew Hu]%list_elem_of_filter; [by apply HinH|done].
  - exists p'. assert (Hw : Write (persistUsageBatch shop_options N records) env p = (Ok tt, p')) by (apply Write_Ok; eauto).
    unfold usage_handler. rewrite (proj2 (Z.ltb_ge 500 _)) by lia. rewrite Hw. split; [done|]. intros u Hu. apply on_file_spec.
    destruct (persist_Ok _ _ _ _ _ _ _ _ Hp Hrun) as [_ Hik]. by apply (ik_rows _ _ _ _ Hik).
Qed.

(** C4: a lease can be given back as soon as its records are filed.  Every
    retirement that [retire] asks for, of a lease that has not expired, is
    accepted by the panel at the count the agent gives. *)
Theorem fleet_retires f k n header config env : fleet_reachable N f -> (k, n) ∈ retire_requests (f_store f) ->
  (forall u, u ∈ Pending (state (f_store f)) -> U_LeaseID u <> k) /\
  forall l, Leases (state (f_store f)) !! k = Some l -> f_clock f < NL_ExpiresAt l ->
    exists hint p', Write (retireLease shop_options N k n header config) env (f_panel f) = (Ok hint, p') /\ is_Some (retirements p' !! k).
Proof.
  intros Hf Hin. apply fleet_reachable_inv in Hf as [Hp _ _ _ _ (Hi & H & Hled & _)]. pose proof (lg_accounts _ _ _ _ _ _ _ Hled) as Ha.
  unfold retire_requests in Hin. apply list_elem_of_In, List.filter_In in Hin as [Hin Hno]. apply list_elem_of_In, Retirements_elem in Hin as [_ ->].
  assert (Hnone : forall u, u ∈ Pending (state (f_store f)) -> U_LeaseID u <> k).
  { intros u Hu Hk. apply negb_true_iff in Hno. assert (existsb (fun u => String.eqb (U_LeaseID u) k) (Pending (state (f_store f))) = true); [|cbn in Hno; congruence].
    apply existsb_exists. exists u. rewrite <- list_elem_of_In. split; [done|]. by apply String.eqb_eq. }
  split; [done|]. intros l Hl Hlive. destruct (known_granted _ _ _ _ _ _ _ Ha Hl) as (Hid & rule & Hg). pose proof Hg as (row & _ & Hr & _).
  destruct (granted_row N _ _ _ _ Hg Hr) as (_ & Hn & _). rewrite Hid in Hr.
  assert (Hu : used_of (state (f_store f)) k = rl_spent row).
  { destruct (used_split N _ _ _ _ _ _ Hp Ha Hr Hn) as [->|Ho]; [|exfalso; rewrite <- Hid in Ho; by eapply granted_live].
    rewrite unfiled_none; [lia|]. intros u Hu Hk. by destruct (Hnone u Hu). }
  rewrite Hu. destruct (retire_runs N k row header config env (f_panel f) 0%nat Hp Hr Hn) as (hint & p' & t' & Hrun & _).
  exists hint, p'. split; [apply Write_Ok; eauto|]. destruct (retireLease_Ok _ _ _ _ _ _ _ _ _ _ _ Hp Hrun) as (_ & x & _ & _ & _ & [(r & Hret & _ & -> & _)|(_ & Hre)]).
  - eauto.
  - destruct (re_row _ _ _ _ _ Hre) as [at_ ->]. by rewrite lookup_insert_eq.
Qed.

(** C5: a lease that was given back cannot be spent.  Once the panel has
    retired a lease of the node, and so returned what was not used of it to
    the entitlement, every record of it in the agent's spool is on file and no
    window is open on it; and either the agent has stopped the lease, having
    spent of it exactly what the retirement says, or the lease has expired. *)
Theorem fleet_returned f k r row : fleet_reachable N f -> retirements (f_panel f) !! k = Some r ->
  rule_leases (f_panel f) !! k = Some row -> rl_node row = N ->
  (forall u, u ∈ Pending (state (f_store f)) -> U_LeaseID u = k -> on_file (f_panel f) u = true) /\
  (forall id w, Windows (state (f_store f)) !! id = Some w -> W_LeaseID w <> k) /\
  ((is_Some (Retired (state (f_store f)) !! k) /\ spent (f_store f) k = rt_used r) \/
   exists c, leases (shop (f_panel f)) !! k = Some c /\ le_expires c <= f_clock f).
Proof.
  intros Hf Hret Hrow Hn. apply fleet_reachable_inv in Hf as [Hp _ _ _ _ (Hi & H & Hled & _)]. pose proof (lg_accounts _ _ _ _ _ _ _ Hled) as Ha.
  destruct (ac_retired _ _ _ _ _ Ha _ _ (mk_is_Some _ _ Hret) Hrow Hn) as [Hs Ho].
  assert (Hwl : windowless (state (f_store f)) k) by (destruct Ho as [?|(_ & ? & _)]; [by eapply stopped_windowless|done]).
  split; [intros u Hu Hk; apply on_file_spec, Hs; [by apply (ac_pending _ _ _ _ _ Ha)|done]|]. split; [exact Hwl|].
  destruct Ho as [Hst|(? & _)]; [|by right]. destruct (used_split N _ _ _ _ _ _ Hp Ha Hrow Hn) as [Hu|(? & _)]; [left|by right]. split; [done|].
  rewrite (no_window_unsettled _ _ (si_live _ _ Hi) Hwl), Hu.
  rewrite unfiled_none by (intros u Hin Hk; apply Hs; [by apply (ac_pending _ _ _ _ _ Ha)|done]).
  destruct (dk_retired _ (proj2 Hp) _ _ Hret) as (l & Hl & -> & _). rewrite Hrow in Hl. injection Hl as <-. lia.
Qed.
End Guarantees.

(** ** The theorems on a concrete run *)

Lemma fleet_prepaid_witness :
  spent (f_store f_spent) "e20-1" = 10 /\
  exists row, rule_leases (f_panel f_spent) !! "e20-1" = Some row /\ spent (f_store f_spent) "e20-1" <= rl_bytes row.
Proof.
  assert (Hl : Leases (state (f_store f_spent)) !! "e20-1" = Some fleet_lease) by evaluates. split; [evaluates|].
  destruct (fleet_prepaid "node" f_spent "e20-1" fleet_lease (runs_reachable _ spent_runs) Hl) as (row & H1 & _ & H2 & _).
  exists row. split; [exact H1|exact H2].
Defined.

(** The records are on file, the agent has not been told yet. *)
Lemma fleet_accounts_witness :
  List.length (Pending (state (f_store f_filed))) = 2%nat /\
  exists row, rule_leases (f_panel f_filed) !! "e20-1" = Some row /\ rl_spent row = 70.
Proof.
  assert (Hl : Leases (state (f_store f_filed)) !! "e20-1" = Some fleet_lease) by evaluates. split; [evaluates|].
  destruct (fleet_accounts "node" f_filed "e20-1" fleet_lease (runs_reachable _ filed_runs) Hl) as (row & H1 & _ & _ & H2 & _); [evaluates|].
  exists row. split; [exact H1|]. assert (Hu : used_of (state (f_store f_filed)) "e20-1" = 70) by evaluates.
  assert (Hp : pending_bytes (unfiled (f_panel f_filed) (Pending (state (f_store f_filed)))) "e20-1" = 0) by evaluates.
  rewrite Hu, Hp in H2. lia.
Defined.

Lemma in_records u : u ∈ flush_batch (drop 0 (Pending (state (f_store f_flushed)))) ->
  U_EndedAt u = awake /\ cp_usage (f_panel f_flushed) !! U_ID u = None.
Proof.
  assert (H : forallb (fun u => (U_EndedAt u =? awake) && bool_decide (cp_usage (f_panel f_flushed) !! U_ID u = None))
                (flush_batch (drop 0 (Pending (state (f_store f_flushed))))) = true) by evaluates.
  rewrite forallb_forall in H. intros Hu. apply list_elem_of_In, H, andb_prop in Hu as [H1 H2].
  split; [exact (proj1 (Z.eqb_eq _ _) H1)|exact (proj1 (bool_decide_eq_true _) H2)].
Qed.

Lemma fleet_accepts_witness :
  exists p', usage_handler (demo_env 22) "node" (flush_batch (drop 0 (Pending (state (f_store f_flushed))))) (f_panel f_flushed)
             = (Ok (U_ID <$> flush_batch (drop 0 (Pending (state (f_store f_flushed))))), p').
Proof.
  destruct (fleet_accepts "node" f_flushed (demo_env 22) 0 (runs_reachable _ flushed_runs)) as (p' & Hp & _).
  - intros u t Hu. rewrite (proj1 (in_records u Hu)). vm_compute. discriminate.
  - intros u row Hu Hrow. rewrite (proj2 (in_records u Hu)) in Hrow. discriminate Hrow.
  - intros u Hu _ _ c Hc. rewrite (proj1 (in_records u Hu)).
    assert (H : bool_decide (map_Forall (fun _ c => awake <= le_expires c) (leases (shop (f_panel f_flushed)))) = true) by evaluates.
    apply bool_decide_eq_true in H. exact (H _ _ Hc).
  - exists p'. exact Hp.
Defined.

Lemma fleet_retires_witness :
  exists hint p', Write (retireLease shop_options "node" "e20-1" 70 0 false) (demo_env 23) (f_panel f_stopped) = (Ok hint, p') /\
    is_Some (retirements p' !! "e20-1").
Proof.
  assert (Hin : ("e20-1", 70) ∈ retire_requests (f_store f_stopped)) by (apply list_elem_of_In; vm_compute; left; reflexivity).
  destruct (fleet_retires "node" f_stopped "e20-1" 70 0 false (demo_env 23) (runs_reachable _ stopped_runs) Hin) as [_ H].
  apply (H fleet_lease); evaluates.
Defined.

Lemma fleet_returned_witness :
  exists r, retirements (f_panel f_returned) !! "e20-1" = Some r /\
    forall id w, Windows (state (f_store f_returned)) !! id = Some w -> W_LeaseID w <> "e20-1".
Proof.
  destruct (retirements (f_panel f_returned) !! "e20-1") as [r|] eqn:Hr; [|vm_compute in Hr; discriminate Hr].
  destruct (rule_leases (f_panel f_returned) !! "e20-1") as [row|] eqn:Hrow; [|vm_compute in Hrow; discriminate Hrow].
  assert (Hn : rl_node row = "node") by (vm_compute in Hrow; injection Hrow as <-; reflexivity).
  destruct (fleet_returned "node" f_returned "e20-1" r row (runs_reachable _ returned_runs) Hr Hrow Hn) as (_ & Hw & _).
  exists r. split; [reflexivity|exact Hw].
Defined.
