(* ===== verification/Streams.v ===== *)
(** * Sessions over carriers (internal/tunnel/tunnel.go, obfuscation.go)

    A session turns a carrier, a connection that only moves bytes, into a
    stream with half close or into packets with boundaries, by frames of a
    kind, a length and a payload.  A strategy of obfuscation may sit between
    the two.  [io.Reader] and [io.Writer] are the interfaces between the
    layers: two classes here, with the carrier, the obfuscated connection and
    the session as instances.

    A Go panic is the error [errPanic].  Reads that may loop take fuel. *)

From S2P Require Import Prelude Tx Digest Bytes.
From stdpp Require Import base strings list.
From Stdlib Require Import Ascii String.
Local Open Scope string_scope.
Local Open Scope Z_scope.
Local Abbreviation length := List.length.

Definition zlen (p : list Z) : Z := Z.of_nat (length p).

(** ** The interfaces of package [io] *)

Definition EOF : error := ErrMsg "EOF".
Definition ErrUnexpectedEOF : error := ErrMsg "unexpected EOF".
Definition ErrShortWrite : error := ErrMsg "short write".
Definition errPanic : error := ErrMsg "panic: slice bounds out of range".

(** A call of [Read] with a buffer of so many bytes; a call of [Write]. *)
Class Reader (R : Type) := io_Read : nat -> R -> list Z * option error * R.
Class Writer (W : Type) := io_Write : list Z -> W -> Z * option error * W.

(** [io.ReadFull]: [n] bytes, or fewer and why; every [Read] that makes
    progress or fails uses up one of the [n] rounds. *)
Fixpoint read_at_least `{Reader R} (fuel n : nat) (r : R) : list Z * option error * R :=
  match fuel with
  | O => ([], None, r)
  | S fuel =>
      let '(p, e, r) := io_Read n r in
      match e with
      | Some e => (p, Some e, r)
      | None => if (length p <? n)%nat
                then let '(q, e, r) := read_at_least fuel (n - length p) r in ((p ++ q)%list, e, r)
                else (p, None, r)
      end
  end.
Definition ReadFull `{Reader R} (n : nat) (r : R) : list Z * option error * R :=
  let '(p, e, r) := read_at_least n n r in
  if (length p <? n)%nat
  then (p, if bool_decide (p <> []) && bool_decide (e = Some EOF) then Some ErrUnexpectedEOF else e, r)
  else (p, None, r).

Fixpoint writeAll_loop `{Writer W} (fuel : nat) (p : list Z) (w : W) : option error * W :=
  match p, fuel with
  | [], _ => (None, w)
  | _, O => (Some ErrShortWrite, w)
  | _, S fuel =>
      let '(n, e, w) := io_Write p w in
      match e with
      | Some e => (Some e, w)
      | None => if (n <=? 0) || (zlen p <? n) then (Some ErrShortWrite, w) else writeAll_loop fuel (drop (Z.to_nat n) p) w
      end
  end.
Definition writeAll `{Writer W} (p : list Z) (w : W) : option error * W := writeAll_loop (length p) p w.

(** ** Frames *)

Definition maxFrame : Z := 65535.
Definition dataFrame : Z := 1.
Definition endFrame : Z := 2.
Definition openFrame : Z := 3.
Definition readyFrame : Z := 4.

Definition frame (kind : Z) (p : list Z) : list Z := kind :: PutUint32 (zlen p) ++ p.
Definition writeFrame `{Writer W} (kind : Z) (p : list Z) (w : W) : option error * W :=
  if maxFrame <? zlen p then (Some (ErrMsg "frame too large"), w) else writeAll (frame kind p) w.

Definition readFrameHeader `{Reader R} (r : R) : res (Z * nat) * R :=
  let '(h, e, r) := ReadFull 5 r in
  match e with
  | Some e => (Err e, r)
  | None => let n := Uint32 h 1 in
            if maxFrame <? n then (Err (ErrMsg "frame too large"), r) else (Ok (default 0 (h !! 0%nat), Z.to_nat n), r)
  end.
Definition readFrame `{Reader R} (r : R) : res (Z * list Z) * R :=
  match readFrameHeader r with
  | (Err e, r) => (Err e, r)
  | (Ok (k, n), r) => let '(p, e, r) := ReadFull n r in (match e with Some e => Err e | None => Ok (k, p) end, r)
  end.

(** ** Sessions *)

Record Session (C : Type) := { s_conn : C; s_remaining : nat; s_readErr : option error }.
Arguments s_conn {C}. Arguments s_remaining {C}. Arguments s_readErr {C}.
Arguments Build_Session {C}.
Definition open_session {C} (c : C) : Session C := {| s_conn := c; s_remaining := 0; s_readErr := None |}.

Section Session.
Context {C : Type}.

(** The loop of [Read] that looks for a frame with data in it: an error, or
    the number of bytes of the frame and the connection. *)
Fixpoint next_data `{Reader C} (fuel : nat) (c : C) : res nat * C :=
  match fuel with
  | O => (Err (ErrMsg "no data"), c)
  | S fuel =>
      match readFrameHeader c with
      | (Err e, c) => (Err e, c)
      | (Ok (k, n), c) =>
          if k =? endFrame then (Err (if Nat.eqb n 0 then EOF else ErrMsg "invalid close frame"), c) else
          if negb (k =? dataFrame) then (Err (ErrMsg "invalid data frame"), c) else
          if Nat.eqb n 0 then next_data fuel c else (Ok n, c)
      end
  end.
(** The rest of [Read]: into the caller's buffer, up to the end of the frame. *)
Definition read_data `{Reader C} (n : nat) (s : Session C) : list Z * option error * Session C :=
  let '(p, e, c) := ReadFull (Nat.min n (s_remaining s)) (s_conn s) in
  let e := if bool_decide (e = Some EOF) then Some ErrUnexpectedEOF else e in
  (p, e, {| s_conn := c; s_remaining := s_remaining s - length p; s_readErr := match e with Some e => Some e | None => s_readErr s end |}).
Definition Session_Read `{Reader C} (fuel n : nat) (s : Session C) : list Z * option error * Session C :=
  if Nat.eqb n 0 then ([], None, s) else
  match s_readErr s with
  | Some e => ([], Some e, s)
  | None =>
      if Nat.eqb (s_remaining s) 0 then
        match next_data fuel (s_conn s) with
        | (Err e, c) => ([], Some e, {| s_conn := c; s_remaining := 0; s_readErr := Some e |})
        | (Ok m, c) => read_data n {| s_conn := c; s_remaining := m; s_readErr := None |}
        end
      else read_data n s
  end.

Fixpoint write_frames `{Writer C} (fuel : nat) (written : Z) (p : list Z) (c : C) : Z * option error * C :=
  match p, fuel with
  | [], _ | _, O => (written, None, c)
  | _, S fuel =>
      let n := if maxFrame <? zlen p then maxFrame else zlen p in
      match writeFrame dataFrame (take (Z.to_nat n) p) c with
      | (Some e, c) => (written, Some e, c)
      | (None, c) => write_frames fuel (written + n) (drop (Z.to_nat n) p) c
      end
  end.
Definition with_conn (s : Session C) (c : C) : Session C :=
  {| s_conn := c; s_remaining := s_remaining s; s_readErr := s_readErr s |}.
Definition Session_Write `{Writer C} (p : list Z) (s : Session C) : Z * option error * Session C :=
  let '(n, e, c) := write_frames (length p) 0 p (s_conn s) in (n, e, with_conn s c).
Definition CloseWrite `{Writer C} (s : Session C) : option error * Session C :=
  let '(e, c) := writeFrame endFrame [] (s_conn s) in (e, with_conn s c).
Definition WritePacket `{Writer C} (p : list Z) (s : Session C) : option error * Session C :=
  let '(e, c) := writeFrame dataFrame p (s_conn s) in (e, with_conn s c).
Definition ReadPacket `{Reader C} (s : Session C) : res (list Z) * Session C :=
  match s_readErr s with
  | Some e => (Err e, s)
  | None =>
      if negb (Nat.eqb (s_remaining s) 0) then (Err (ErrMsg "cannot read a packet during a partial stream frame"), s) else
      let failed e c := (Err e, {| s_conn := c; s_remaining := 0; s_readErr := Some e |}) in
      match readFrame (s_conn s) with
      | (Err e, c) => failed e c
      | (Ok (k, p), c) =>
          if k =? endFrame then failed (if Nat.eqb (length p) 0 then EOF else ErrMsg "invalid close frame") c else
          if negb (k =? dataFrame) then failed (ErrMsg "invalid packet frame") c else (Ok p, with_conn s c)
      end
  end.
End Session.

#[export] Instance Session_Writer `{Writer C} : Writer (Session C) := Session_Write.

(** ** Obfuscation *)

Definition maxObfuscatedFrame : Z := 2 ^ 20.
Definition maxUint16Payload : Z := 65535.
Definition maxTLSRecordPayload : Z := 16384.
Definition tlsRecordTypeAppData : Z := 0x17.
Definition tlsVersion1_2 : Z := 0x0303.
Definition uint16 (x : Z) : Z := x mod 2 ^ 16.

Inductive Obfuscator :=
  | RandomPaddingObfs (minPad maxPad : Z)
  | TimingPerturbObfs (minDelay maxDelay : Z)
  | TLSTrafficMimicObfs.

(** What [crypto/rand] gives to one call: the bytes of the padding, whose
    number it drew as well; [None] when it fails. *)
Definition random := option (list Z).

Definition ObfuscateWrite (o : Obfuscator) (rnd : random) (p : list Z) : res (list Z) :=
  match o with
  | RandomPaddingObfs minPad maxPad =>
      if maxUint16Payload <? zlen p then Err (ErrMsg "padding payload too large") else
      if maxPad - minPad + 1 <=? 0 then Err (ErrMsg "invalid padding range") else
      match rnd with
      | None => Err (ErrMsg "random source unavailable")
      | Some pad => Ok (PutUint16 (uint16 (zlen p)) ++ p ++ pad)%list
      end
  | TimingPerturbObfs minDelay maxDelay =>
      if maxDelay - minDelay <=? 0 then Err (ErrMsg "invalid delay range") else
      match rnd with None => Err (ErrMsg "random source unavailable") | Some _ => Ok p end
  | TLSTrafficMimicObfs =>
      if Nat.eqb (length p) 0 then Err (ErrMsg "empty payload") else
      if maxTLSRecordPayload <? zlen p then Err (ErrMsg "TLS mimic payload too large") else
      Ok (tlsRecordTypeAppData :: PutUint16 tlsVersion1_2 ++ PutUint16 (uint16 (zlen p)) ++ p)%list
  end.

(** [p[from:to]]; a bound that is out of order or of range panics. *)
Definition slice (p : list Z) (from to : Z) : res (list Z) :=
  if (from <=? to) && (to <=? zlen p) then Ok (take (Z.to_nat (to - from)) (drop (Z.to_nat from) p)) else Err errPanic.

Definition DeobfuscateRead (o : Obfuscator) (p : list Z) : res (list Z) :=
  match o with
  | RandomPaddingObfs _ _ =>
      if zlen p <? 2 then Err (ErrMsg "truncated padding frame") else
      let dataLen := Uint16 p 0 in
      if zlen p <? 2 + dataLen then Err (ErrMsg "invalid padding frame length") else slice p 2 (uint16 (2 + dataLen))
  | TimingPerturbObfs _ _ => Ok p
  | TLSTrafficMimicObfs =>
      if zlen p <? 5 then Err (ErrMsg "truncated TLS record") else
      if negb (default 0 (p !! 0%nat) =? tlsRecordTypeAppData) then Err (ErrMsg "invalid TLS record type") else
      let payloadLen := Uint16 p 3 in
      if zlen p <? 5 + payloadLen then Err (ErrMsg "invalid TLS record length") else slice p 5 (uint16 (5 + payloadLen))
  end.

(** A configuration: the strategy and its numeric parameters, truncated to
    integers as [int(v)] does; [None] when a parameter is absent. *)
Record ObfuscationConfig := { Strategy : string; Param : string -> option Z }.
Definition millisecond : Z := 1000000.

Definition newObfuscator (cfg : option ObfuscationConfig) : res (option Obfuscator) :=
  match cfg with
  | None => Ok None
  | Some cfg =>
      if String.eqb (Strategy cfg) "random-padding" then
        let minPad := default 10 (Param cfg "min_pad") in
        let maxPad := default 255 (Param cfg "max_pad") in
        if (minPad <? 0) || (255 <? maxPad) || (maxPad <? minPad) then Err (ErrMsg "invalid padding range")
        else Ok (Some (RandomPaddingObfs minPad maxPad))
      else if String.eqb (Strategy cfg) "timing-perturb" then
        let minDelay := default millisecond ((fun v => wrap64 (v * millisecond)) <$> Param cfg "min_delay_ms") in
        let maxDelay := default (50 * millisecond) ((fun v => wrap64 (v * millisecond)) <$> Param cfg "max_delay_ms") in
        if (minDelay <? 0) || (1000 * millisecond <? maxDelay) || (maxDelay <? minDelay) then Err (ErrMsg "invalid delay range")
        else Ok (Some (TimingPerturbObfs minDelay maxDelay))
      else if String.eqb (Strategy cfg) "tls-mimic" then Ok (Some TLSTrafficMimicObfs)
      else if String.eqb (Strategy cfg) "none" || String.eqb (Strategy cfg) "" then Ok None
      else Err (ErrMsg ("unsupported obfuscation strategy: " ++ Strategy cfg))
  end.
Definition ValidateObfuscation (cfg : option ObfuscationConfig) : res unit :=
  match newObfuscator cfg with Err e => Err e | Ok _ => Ok tt end.

(** [oc_random] is what [crypto/rand] is going to give to the writes. *)
Record obfsConn (C : Type) := { oc_conn : C; oc_strategy : Obfuscator; oc_readBuf : list Z; oc_random : list random }.
Arguments oc_conn {C}. Arguments oc_strategy {C}. Arguments oc_readBuf {C}. Arguments oc_random {C}.
Arguments Build_obfsConn {C}.

Section ObfsConn.
Context {C : Type}.

Definition set_read (c : C) (buf : list Z) (o : obfsConn C) : obfsConn C :=
  {| oc_conn := c; oc_strategy := oc_strategy o; oc_readBuf := buf; oc_random := oc_random o |}.
(** The loop of [Read] runs once: a frame with nothing in it is an error. *)
Definition next_plain `{Reader C} (o : obfsConn C) : res (list Z) * C :=
  let '(h, e, c) := ReadFull 4 (oc_conn o) in
  match e with
  | Some e => (Err e, c)
  | None =>
      let n := Uint32 h 0 in
      if (n =? 0) || (maxObfuscatedFrame <? n) then (Err (ErrMsg "invalid obfuscation frame length"), c) else
      let '(f, e, c) := ReadFull (Z.to_nat n) c in
      match e with
      | Some e => (Err e, c)
      | None => match DeobfuscateRead (oc_strategy o) f with
                | Err e => (Err e, c)
                | Ok [] => (Err (ErrMsg "empty obfuscation frame"), c)
                | Ok plain => (Ok plain, c)
                end
      end
  end.
Definition obfsConn_Read `{Reader C} (n : nat) (o : obfsConn C) : list Z * option error * obfsConn C :=
  match oc_readBuf o with
  | [] => match next_plain o with
          | (Err e, c) => ([], Some e, set_read c [] o)
          | (Ok plain, c) => (take n plain, None, set_read c (drop n plain) o)
          end
  | buf => (take n buf, None, set_read (oc_conn o) (drop n buf) o)
  end.

Definition obfsConn_Write `{Writer C} (p : list Z) (o : obfsConn C) : Z * option error * obfsConn C :=
  let wrote c := {| oc_conn := c; oc_strategy := oc_strategy o; oc_readBuf := oc_readBuf o; oc_random := drop 1 (oc_random o) |} in
  match ObfuscateWrite (oc_strategy o) (default None (head (oc_random o))) p with
  | Err e => (0, Some e, wrote (oc_conn o))
  | Ok obfuscated =>
      if (zlen obfuscated =? 0) || (maxObfuscatedFrame <? zlen obfuscated)
      then (0, Some (ErrMsg "invalid obfuscation frame length"), wrote (oc_conn o)) else
      match writeAll (PutUint32 (zlen obfuscated) ++ obfuscated)%list (oc_conn o) with
      | (Some e, c) => (0, Some e, wrote c)
      | (None, c) => (zlen p, None, wrote c)
      end
  end.
End ObfsConn.

#[export] Instance obfsConn_Reader `{Reader C} : Reader (obfsConn C) := obfsConn_Read.
#[export] Instance obfsConn_Writer `{Writer C} : Writer (obfsConn C) := obfsConn_Write.

(** The connection a session is opened on: the carrier, or an [obfsConn]
    around it when a strategy is configured. *)
Inductive connection (C : Type) := Plain (c : C) | Obfuscated (o : obfsConn C).
Arguments Plain {C}. Arguments Obfuscated {C}.
Definition wrap {C} (strategy : option Obfuscator) (rnd : list random) (c : C) : connection C :=
  match strategy with
  | None => Plain c
  | Some o => Obfuscated {| oc_conn := c; oc_strategy := o; oc_readBuf := []; oc_random := rnd |}
  end.

#[export] Instance connection_Reader `{Reader C} : Reader (connection C) := fun n c =>
  match c with
  | Plain c => let '(p, e, c) := io_Read n c in (p, e, Plain c)
  | Obfuscated o => let '(p, e, o) := io_Read n o in (p, e, Obfuscated o)
  end.
#[export] Instance connection_Writer `{Writer C} : Writer (connection C) := fun p c =>
  match c with
  | Plain c => let '(n, e, c) := io_Write p c in (n, e, Plain c)
  | Obfuscated o => let '(n, e, o) := io_Write p o in (n, e, Obfuscated o)
  end.

(** ** Relays *)

(** One direction of [Relay]: what is read is charged, then written.  At the
    end of the source the other side is told so by [CloseWrite]; any error
    closes both. *)
Definition relayBuffer : nat := Z.to_nat (32 * 1024).
Inductive relayed := Copying | HalfClosed | Aborted.

Section Relay.
Context {R W A : Type} `{Reader R} `{Writer W} (charge : Z -> A -> res unit * A) (closeWrite : W -> W).

Fixpoint copyOne (fuel : nat) (src : R) (dst : W) (a : A) : relayed * W * A :=
  match fuel with
  | O => (Copying, dst, a)
  | S fuel =>
      let '(p, e, src) := io_Read relayBuffer src in
      let go_on dst a :=
        match e with
        | None => copyOne fuel src dst a
        | Some e => if bool_decide (e = EOF) then (HalfClosed, closeWrite dst, a) else (Aborted, dst, a)
        end in
      if Nat.eqb (length p) 0 then go_on dst a else
      match charge (zlen p) a with
      | (Err _, a) => (Aborted, dst, a)
      | (Ok _, a) => match writeAll p dst with
                     | (Some _, dst) => (Aborted, dst, a)
                     | (None, dst) => go_on dst a
                     end
      end
  end.
End Relay.

(** ** Carriers *)

(** A connection as its two ends see it.  The receiver gets the bytes in
    chunks of any size, then an error; the sender's writes are taken whole or
    in part, or fail, as the script says, and whole when it has ended. *)
Record inbound := { in_chunks : list (list Z); in_end : error }.
Record outbound := { out_sent : list Z; out_script : list (nat * option error) }.

#[export] Instance inbound_Reader : Reader inbound := fun n c =>
  match in_chunks c with
  | [] => ([], Some (in_end c), c)
  | x :: xs => if (n <? length x)%nat then (take n x, None, {| in_chunks := drop n x :: xs; in_end := in_end c |})
               else (x, None, {| in_chunks := xs; in_end := in_end c |})
  end.
#[export] Instance outbound_Writer : Writer outbound := fun p c =>
  match out_script c with
  | [] => (zlen p, None, {| out_sent := (out_sent c ++ p)%list; out_script := [] |})
  | (n, e) :: script => (zlen (take n p), e, {| out_sent := (out_sent c ++ take n p)%list; out_script := script |})
  end.

(** A call of [Read] for each buffer, until one fails. *)
Fixpoint drain `{Reader R} (buffers : list nat) (r : R) : list Z * option error :=
  match buffers with
  | [] => ([], None)
  | n :: buffers => let '(p, e, r) := io_Read n r in
                    match e with Some e => (p, Some e) | None => let '(q, e) := drain buffers r in ((p ++ q)%list, e) end
  end.
Fixpoint write_each `{Writer W} (ps : list (list Z)) (w : W) : option error * W :=
  match ps with
  | [] => (None, w)
  | p :: ps => let '(_, e, w) := io_Write p w in match e with Some e => (Some e, w) | None => write_each ps w end
  end.
Fixpoint write_packets `{Writer C} (ps : list (list Z)) (s : Session C) : option error * Session C :=
  match ps with
  | [] => (None, s)
  | p :: ps => match WritePacket p s with (Some e, s) => (Some e, s) | (None, s) => write_packets ps s end
  end.
(** So many packets, or those before the first error. *)
Fixpoint read_packets `{Reader C} (n : nat) (s : Session C) : list (list Z) * option error :=
  match n with
  | O => ([], None)
  | S n => match ReadPacket s with
           | (Err e, _) => ([], Some e)
           | (Ok p, s) => let '(ps, e) := read_packets n s in (p :: ps, e)
           end
  end.
