(* ===== verification/StreamLaws.v ===== *)
(** * What readers and writers promise

    A reader still holds some bytes and a reason to end; a writer has put some
    bytes on the wire, and a reader of the same kind at the other end makes
    something of them.  The two classes say what one layer may expect of the
    layer below it; the carrier, the obfuscated connection and the session
    satisfy them, the session and the connection over anything that does. *)

From S2P Require Import Prelude Tx Digest Bytes Streams.
From stdpp Require Import base strings list.
From Stdlib Require Import Ascii String.
Local Open Scope Z_scope.
Local Abbreviation length := List.length.

Class LawfulReader (R : Type) `{Reader R} := {
  content : R -> list Z;
  ending : R -> error;
  sound : R -> Prop;
  read_law n r : sound r -> (0 < n)%nat ->
    let '(p, e, r') := io_Read n r in
    (length p <= n)%nat /\
    match e with
    | None => p <> [] /\ sound r' /\ content r = p ++ content r' /\ ending r' = ending r
    | Some e => content r = p /\ ending r = e /\ (p <> [] -> sound r' /\ content r' = [] /\ ending r' = e)
    end
}.

Lemma take_nonempty {A} n (l : list A) : (0 < n)%nat -> l <> [] -> take n l <> [].
Proof. destruct n, l; [lia..|done|done]. Qed.

(** A stream that ends in the middle of something. *)
Definition cut_error (p : list Z) (e : error) : error :=
  if bool_decide (p <> []) && bool_decide (e = EOF) then ErrUnexpectedEOF else e.

Lemma cut_in_frame p e : (if bool_decide (Some (cut_error p e) = Some EOF) then Some ErrUnexpectedEOF else Some (cut_error p e))
  = Some (if bool_decide (e = EOF) then ErrUnexpectedEOF else e).
Proof.
  unfold cut_error. destruct (decide (e = EOF)) as [->|Hne]; [|rewrite (bool_decide_eq_false_2 (e = EOF)), andb_false_r, bool_decide_eq_false_2 by congruence; done].
  rewrite (bool_decide_eq_true_2 (EOF = EOF)) by done. by destruct (bool_decide (p <> [])).
Qed.

Section ReadFull.
Context `{LawfulReader R}.

Lemma read_at_least_law fuel n r : sound r -> (0 < n <= fuel)%nat ->
  exists e r', read_at_least fuel n r = (take n (content r), e, r') /\
    ((n <= length (content r))%nat -> sound r' /\ content r' = drop n (content r) /\ ending r' = ending r) /\
    ((length (content r) < n)%nat -> e = Some (ending r)).
Proof.
  revert n r. induction fuel as [|fuel IH]; intros n r Hs Hn; [lia|]. cbn [read_at_least].
  pose proof (read_law n r Hs ltac:(lia)) as Hlaw. destruct (io_Read n r) as [[p [e|]] r1] eqn:E.
  - destruct Hlaw as (Hlen & Hc & He & Hmore). exists (Some e), r1. rewrite Hc, take_ge by lia. split; [done|]. split; [|by rewrite He].
    intros Hle. rewrite drop_ge by lia. rewrite He. apply Hmore. intros ->. cbn in Hle. lia.
  - destruct Hlaw as (Hlen & Hne & Hs1 & Hc & He). rewrite Hc. destruct (Nat.ltb_spec (length p) n) as [Hlt|Hge].
    + destruct (IH (n - length p)%nat r1 Hs1) as (e & r' & -> & Hok & Hcut).
      { destruct p; [done|]. cbn in *. lia. }
      exists e, r'. rewrite take_app_ge, drop_app_ge, length_app by lia. split; [done|]. split; intros Hle.
      * destruct Hok as (? & ? & ?); [lia|]. split_and!; congruence.
      * rewrite <- He. apply Hcut. lia.
    + assert (length p = n) as <- by lia. exists None, r1. rewrite take_app_length, drop_app_length, length_app.
      split; [done|]. split; [done|lia].
Qed.

Lemma ReadFull_enough n r : sound r -> (n <= length (content r))%nat ->
  exists r', ReadFull n r = (take n (content r), None, r') /\ sound r' /\ content r' = drop n (content r) /\ ending r' = ending r.
Proof.
  intros Hs Hn. unfold ReadFull. destruct (decide (n = 0)%nat) as [->|]; [by exists r|].
  destruct (read_at_least_law n n r Hs ltac:(lia)) as (e & r' & -> & Hok & _). exists r'.
  rewrite length_take, Nat.min_l by lia. rewrite Nat.ltb_irrefl. split; [done|]. auto.
Qed.
Lemma ReadFull_short n r : sound r -> (length (content r) < n)%nat ->
  exists r', ReadFull n r = (content r, Some (cut_error (content r) (ending r)), r').
Proof.
  intros Hs Hn. unfold ReadFull. destruct (read_at_least_law n n r Hs ltac:(lia)) as (e & r' & -> & _ & Hcut). exists r'.
  rewrite take_ge by lia. rewrite (proj2 (Nat.ltb_lt _ _) Hn), (Hcut Hn). unfold cut_error.
  assert (bool_decide (Some (ending r) = Some EOF) = bool_decide (ending r = EOF)) as -> by (apply bool_decide_ext; split; congruence).
  by destruct (bool_decide (content r <> []) && _).
Qed.
End ReadFull.

(** ** What a session makes of a stream of bytes *)

(** [unframe w e]: the data in the bytes [w] that end with [e], and how the
    data ends; [in_frame n] is the same with [n] bytes of a frame to come. *)
Fixpoint unframe_fuel (fuel : nat) (w : list Z) (e : error) : list Z * error :=
  match fuel with
  | O => ([], ErrMsg "no data")
  | S fuel =>
      if (length w <? 5)%nat then ([], cut_error w e) else
      let n := Uint32 (take 5 w) 1 in
      let k := default 0 (take 5 w !! 0%nat) in
      if maxFrame <? n then ([], ErrMsg "frame too large") else
      if k =? endFrame then ([], if Nat.eqb (Z.to_nat n) 0 then EOF else ErrMsg "invalid close frame") else
      if negb (k =? dataFrame) then ([], ErrMsg "invalid data frame") else
      let w := drop 5 w in
      if (length w <? Z.to_nat n)%nat then (w, if bool_decide (e = EOF) then ErrUnexpectedEOF else e) else
      let '(p, e) := unframe_fuel fuel (drop (Z.to_nat n) w) e in ((take (Z.to_nat n) w ++ p)%list, e)
  end.
Definition unframe (w : list Z) (e : error) : list Z * error := unframe_fuel (S (length w)) w e.
Definition in_frame (n : nat) (w : list Z) (e : error) : list Z * error :=
  if (length w <? n)%nat then (w, if bool_decide (e = EOF) then ErrUnexpectedEOF else e) else
  let '(p, e) := unframe (drop n w) e in ((take n w ++ p)%list, e).
Definition after_header (w : list Z) (e : error) : list Z * error :=
  let n := Uint32 (take 5 w) 1 in
  let k := default 0 (take 5 w !! 0%nat) in
  if maxFrame <? n then ([], ErrMsg "frame too large") else
  if k =? endFrame then ([], if Nat.eqb (Z.to_nat n) 0 then EOF else ErrMsg "invalid close frame") else
  if negb (k =? dataFrame) then ([], ErrMsg "invalid data frame") else
  in_frame (Z.to_nat n) (drop 5 w) e.

Lemma unframe_fuel_enough f1 f2 w e : (length w < f1)%nat -> (length w < f2)%nat -> unframe_fuel f1 w e = unframe_fuel f2 w e.
Proof.
  revert f2 w. induction f1 as [|f1 IH]; intros f2 w H1 H2; [lia|]. destruct f2 as [|f2]; [lia|]. cbn [unframe_fuel].
  destruct (Nat.ltb_spec (length w) 5); [done|]. destruct (maxFrame <? _); [done|]. destruct (_ =? endFrame); [done|]. destruct (negb _); [done|].
  destruct (length (drop 5 w) <? _)%nat; [done|]. rewrite (IH f2); [done|rewrite !length_drop; lia..].
Qed.
Lemma unframe_eq w e : unframe w e = if (length w <? 5)%nat then ([], cut_error w e) else after_header w e.
Proof.
  unfold unframe. cbn [unframe_fuel]. unfold after_header, in_frame. destruct (Nat.ltb_spec (length w) 5); [done|]. destruct (maxFrame <? _); [done|].
  destruct (_ =? endFrame); [done|]. destruct (negb _); [done|]. destruct (length (drop 5 w) <? _)%nat; [done|].
  unfold unframe. erewrite unframe_fuel_enough; [done|rewrite !length_drop; lia..].
Qed.
Lemma in_frame_0 w e : in_frame 0 w e = unframe w e.
Proof. unfold in_frame. destruct (Nat.ltb_spec (length w) 0); [lia|]. rewrite drop_0, take_0. by destruct (unframe w e). Qed.
Lemma in_frame_split k n w e : (k <= n)%nat -> (k <= length w)%nat ->
  in_frame n w e = ((take k w ++ (in_frame (n - k) (drop k w) e).1)%list, (in_frame (n - k) (drop k w) e).2).
Proof.
  intros Hn Hw. unfold in_frame. rewrite length_drop, drop_drop. replace (k + (n - k))%nat with n by lia.
  destruct (Nat.ltb_spec (length w) n), (Nat.ltb_spec (length w - k) (n - k)); try lia.
  - cbn [fst snd]. by rewrite take_drop.
  - destruct (unframe (drop n w) e) as [p e']. cbn [fst snd]. f_equal. rewrite app_assoc. f_equal. rewrite take_drop_commute, <- (take_drop k (take n w)) at 1.
    rewrite take_take, Nat.min_l by lia. by replace (k + (n - k))%nat with n by lia.
Qed.

(** ** The session is a reader *)

Section SessionReader.
Context `{LawfulReader C} (F : nat).

Lemma readFrameHeader_enough (c : C) : sound c -> (5 <= length (content c))%nat ->
  let w := content c in let n := Uint32 (take 5 w) 1 in
  exists c', readFrameHeader c = (if maxFrame <? n then Err (ErrMsg "frame too large") else Ok (default 0 (take 5 w !! 0%nat), Z.to_nat n), c') /\
    sound c' /\ content c' = drop 5 w /\ ending c' = ending c.
Proof.
  intros Hs Hl w n. destruct (ReadFull_enough 5 c Hs Hl) as (c' & E & Hc). exists c'. unfold readFrameHeader. rewrite E. fold w n.
  by destruct (maxFrame <? n).
Qed.
Lemma readFrameHeader_short (c : C) : sound c -> (length (content c) < 5)%nat ->
  exists c', readFrameHeader c = (Err (cut_error (content c) (ending c)), c').
Proof. intros Hs Hl. destruct (ReadFull_short 5 c Hs Hl) as (c' & E). exists c'. unfold readFrameHeader. by rewrite E. Qed.

Lemma next_data_law fuel (c : C) : sound c -> (length (content c) < fuel)%nat ->
  match next_data fuel c with
  | (Err e, _) => unframe (content c) (ending c) = ([], e)
  | (Ok n, c') => (0 < n)%nat /\ sound c' /\ ending c' = ending c /\ (length (content c') < length (content c))%nat /\
      unframe (content c) (ending c) = in_frame n (content c') (ending c)
  end.
Proof.
  revert c. induction fuel as [|fuel IH]; intros c Hs Hf; [lia|]. cbn [next_data]. rewrite unframe_eq.
  destruct (Nat.ltb_spec (length (content c)) 5) as [Hl|Hl].
  { by destruct (readFrameHeader_short c Hs Hl) as (c' & ->). }
  destruct (readFrameHeader_enough c Hs Hl) as (c' & -> & Hs' & Hc & He). unfold after_header. rewrite <- Hc.
  assert (length (content c') < length (content c))%nat by (rewrite Hc, length_drop; lia).
  destruct (maxFrame <? _); [done|]. destruct (_ =? endFrame); [done|]. destruct (negb _); [done|].
  destruct (Nat.eqb_spec (Z.to_nat (Uint32 (take 5 (content c)) 1)) 0) as [->|Hn].
  - specialize (IH c' Hs' ltac:(lia)). rewrite in_frame_0, <- He. destruct (next_data fuel c') as [[n|e] c2]; [|done].
    destruct IH as (? & ? & ? & ? & ?). split_and!; [done|done|congruence|lia|congruence].
  - split_and!; [lia|done|done|lia|done].
Qed.

Definition session_view (s : Session C) : list Z * error :=
  match s_readErr s with
  | Some e => ([], e)
  | None => in_frame (s_remaining s) (content (s_conn s)) (ending (s_conn s))
  end.
Definition session_sound (s : Session C) : Prop :=
  s_readErr s = None -> sound (s_conn s) /\ (length (content (s_conn s)) < F)%nat.

Lemma read_data_law n (s : Session C) : session_sound s -> s_readErr s = None -> (0 < n)%nat -> (0 < s_remaining s)%nat ->
  let '(p, e, s') := read_data n s in
  (length p <= n)%nat /\
  match e with
  | None => p <> [] /\ session_sound s' /\ (session_view s).1 = p ++ (session_view s').1 /\ (session_view s').2 = (session_view s).2
  | Some e => (session_view s).1 = p /\ (session_view s).2 = e /\ (p <> [] -> session_sound s' /\ (session_view s').1 = [] /\ (session_view s').2 = e)
  end.
Proof.
  destruct s as [c m re]. cbn. intros Hs -> Hn Hm. destruct (Hs eq_refl) as [Hc HF]. cbn in Hc, HF. unfold read_data, session_view. cbn.
  destruct (decide (Nat.min n m <= length (content c))%nat) as [Hle|Hlt].
  - destruct (ReadFull_enough _ c Hc Hle) as (c' & -> & Hc' & Hw & He). rewrite bool_decide_eq_false_2 by done. cbn.
    rewrite length_take, Nat.min_l, He, Hw by lia. split; [lia|]. rewrite (in_frame_split (Nat.min n m) m) by lia. split; [|split; [|done]].
    + apply take_nonempty; [lia|]. intros Hnil. rewrite Hnil in Hle. cbn in Hle. lia.
    + intros _. cbn. rewrite Hw, length_drop. split; [done|]. lia.
  - destruct (ReadFull_short (Nat.min n m) c Hc) as (c' & ->); [lia|]. cbn. split; [lia|]. unfold in_frame.
    rewrite (proj2 (Nat.ltb_lt (length (content c)) m)) by lia. rewrite cut_in_frame. cbn. done.
Qed.

#[global] Instance Session_Reader : Reader (Session C) := Session_Read F.
#[global] Program Instance Session_LawfulReader : LawfulReader (Session C) := {
  content s := (session_view s).1; ending s := (session_view s).2; sound := session_sound }.
Next Obligation.
  intros n s Hs Hn. unfold io_Read, Session_Reader, Session_Read. destruct (Nat.eqb_spec n 0); [lia|].
  destruct (s_readErr s) as [e|] eqn:Ere.
  { cbn. unfold session_view. rewrite Ere. split; [lia|]. done. }
  destruct (Nat.eqb_spec (s_remaining s) 0) as [E0|]; [|by apply read_data_law; [..|lia]].
  destruct (Hs Ere) as [Hc HF]. pose proof (next_data_law F _ Hc HF) as Hd. destruct (next_data F (s_conn s)) as [[m|e] c'] eqn:End.
  - destruct Hd as (Hm & Hc' & He & Hlt & Hview).
    pose proof (read_data_law n {| s_conn := c'; s_remaining := m; s_readErr := None |}) as Hlaw.
    assert (Heq : session_view {| s_conn := c'; s_remaining := m; s_readErr := None |} = session_view s).
    { unfold session_view. cbn. rewrite Ere, E0, in_frame_0, He. by rewrite Hview. }
    rewrite Heq in Hlaw. apply Hlaw; [|done..]. intros _. cbn. split; [done|lia].
  - cbn. unfold session_view. rewrite Ere, E0, in_frame_0, Hd. cbn. split; [lia|]. done.
Qed.
End SessionReader.

(** ** What an obfuscated connection makes of a stream of bytes *)

(** The first frame: its payload and what follows, or why there is none. *)
Definition first_plain (o : Obfuscator) (w : list Z) (e : error) : res (list Z * list Z) :=
  if (length w <? 4)%nat then Err (cut_error w e) else
  let n := Uint32 (take 4 w) 0 in
  if (n =? 0) || (maxObfuscatedFrame <? n) then Err (ErrMsg "invalid obfuscation frame length") else
  let w := drop 4 w in
  if (length w <? Z.to_nat n)%nat then Err (cut_error w e) else
  match DeobfuscateRead o (take (Z.to_nat n) w) with
  | Err e => Err e
  | Ok [] => Err (ErrMsg "empty obfuscation frame")
  | Ok plain => Ok (plain, drop (Z.to_nat n) w)
  end.
Fixpoint reveal_fuel (fuel : nat) (o : Obfuscator) (w : list Z) (e : error) : list Z * error :=
  match fuel with
  | O => ([], ErrMsg "no data")
  | S fuel => match first_plain o w e with
              | Err e => ([], e)
              | Ok (plain, w) => let '(p, e) := reveal_fuel fuel o w e in ((plain ++ p)%list, e)
              end
  end.
Definition reveal (o : Obfuscator) (w : list Z) (e : error) : list Z * error := reveal_fuel (S (length w)) o w e.

Lemma first_plain_shorter o w e plain rest : first_plain o w e = Ok (plain, rest) -> plain <> [] /\ (length rest < length w)%nat.
Proof.
  unfold first_plain. destruct (Nat.ltb_spec (length w) 4); [done|]. destruct (_ || _); [done|]. destruct (_ <? _)%nat; [done|].
  destruct (DeobfuscateRead _ _) as [[|x pl]|]; [done| |done]. intros [= <- <-]. split; [done|]. rewrite !length_drop. lia.
Qed.
Lemma reveal_fuel_enough o f1 f2 w e : (length w < f1)%nat -> (length w < f2)%nat -> reveal_fuel f1 o w e = reveal_fuel f2 o w e.
Proof.
  revert f2 w. induction f1 as [|f1 IH]; intros f2 w H1 H2; [lia|]. destruct f2 as [|f2]; [lia|]. cbn [reveal_fuel].
  destruct (first_plain o w e) as [[plain rest]|] eqn:E; [|done]. apply first_plain_shorter in E as [_ ?]. by rewrite (IH f2) by lia.
Qed.
Lemma reveal_eq o w e : reveal o w e = match first_plain o w e with
  | Err e => ([], e) | Ok (plain, rest) => ((plain ++ (reveal o rest e).1)%list, (reveal o rest e).2) end.
Proof.
  unfold reveal at 1. cbn [reveal_fuel]. destruct (first_plain o w e) as [[plain rest]|] eqn:E; [|done]. apply first_plain_shorter in E as [_ ?].
  unfold reveal. rewrite (reveal_fuel_enough o (length w) (S (length rest))) by lia. by destruct (reveal_fuel _ o rest e).
Qed.

Section ObfsReader.
Context `{LawfulReader C}.

Lemma next_plain_law (o : obfsConn C) : sound (oc_conn o) ->
  match next_plain o with
  | (Err e, _) => first_plain (oc_strategy o) (content (oc_conn o)) (ending (oc_conn o)) = Err e
  | (Ok plain, c') => sound c' /\ ending c' = ending (oc_conn o) /\
      first_plain (oc_strategy o) (content (oc_conn o)) (ending (oc_conn o)) = Ok (plain, content c')
  end.
Proof.
  intros Hs. unfold next_plain, first_plain. destruct (Nat.ltb_spec (length (content (oc_conn o))) 4) as [Hl|Hl].
  { by destruct (ReadFull_short 4 _ Hs Hl) as (c' & ->). }
  destruct (ReadFull_enough 4 _ Hs Hl) as (c' & -> & Hs' & Hc & He). destruct (_ || _); [done|]. rewrite <- Hc, <- He.
  set (n := Z.to_nat _). destruct (Nat.ltb_spec (length (content c')) n) as [Hn|Hn].
  { by destruct (ReadFull_short n _ Hs' Hn) as (c2 & ->). }
  destruct (ReadFull_enough n _ Hs' Hn) as (c2 & -> & Hs2 & Hc2 & He2). destruct (DeobfuscateRead _ _) as [[|x pl]|]; [done| |done].
  split; [done|]. split; [congruence|]. by rewrite Hc2.
Qed.

Definition obfs_view (o : obfsConn C) : list Z * error :=
  ((oc_readBuf o ++ (reveal (oc_strategy o) (content (oc_conn o)) (ending (oc_conn o))).1)%list,
   (reveal (oc_strategy o) (content (oc_conn o)) (ending (oc_conn o))).2).

#[export] Program Instance obfs_LawfulReader : LawfulReader (obfsConn C) := {
  content o := (obfs_view o).1; ending o := (obfs_view o).2; sound o := sound (oc_conn o) }.
Next Obligation.
  intros n o Hs Hn. unfold io_Read, obfsConn_Reader, obfsConn_Read, obfs_view. destruct (oc_readBuf o) as [|x buf] eqn:Eb.
  - pose proof (next_plain_law o Hs) as Hp. rewrite reveal_eq. destruct (next_plain o) as [[plain|e] c'].
    + destruct Hp as (Hs' & He & Hf). rewrite Hf. apply first_plain_shorter in Hf as [Hne _]. cbn. rewrite <- He.
      split; [rewrite length_take; lia|]. split_and!; [|done|by rewrite app_assoc, take_drop|done].
      by apply take_nonempty.
    + rewrite Hp. cbn. split; [lia|done].
  - cbn -[take drop]. split; [rewrite length_take; lia|]. split_and!; [by apply take_nonempty|done| |done].
    by rewrite app_assoc, take_drop.
Qed.
End ObfsReader.

(** ** Carriers and connections *)

#[export] Program Instance inbound_LawfulReader : LawfulReader inbound := {
  content c := List.concat (in_chunks c); ending := in_end; sound c := Forall (fun x => x <> []) (in_chunks c) }.
Next Obligation.
  intros n c Hs Hn. unfold io_Read, inbound_Reader. destruct c as [[|x xs] e]; cbn -[Nat.ltb] in *; [split; [lia|done]|].
  apply Forall_cons_1 in Hs as [Hx Hxs]. destruct (Nat.ltb_spec n (length x)) as [Hlt|Hge]; cbn.
  - split; [rewrite length_take; lia|]. split_and!; [|..|done].
    + by apply take_nonempty.
    + apply Forall_cons_2; [|done]. intros Hnil%(f_equal length). rewrite length_drop in Hnil. cbn in Hnil. lia.
    + by rewrite app_assoc, take_drop.
  - done.
Qed.

#[export] Program Instance connection_LawfulReader `{LawfulReader C} : LawfulReader (connection C) := {
  content c := match c with Plain c => content c | Obfuscated o => content o end;
  ending c := match c with Plain c => ending c | Obfuscated o => ending o end;
  sound c := match c with Plain c => sound c | Obfuscated o => sound o end }.
Next Obligation.
  intros C ? ? n [c|o] Hs Hn; unfold io_Read, connection_Reader.
  - pose proof (read_law n c Hs Hn) as Hlaw. by destruct (io_Read n c) as [[p [e|]] c'].
  - pose proof (read_law n o Hs Hn) as Hlaw. by destruct (io_Read n o) as [[p [e|]] o'].
Qed.

(** Reading to the end with buffers of any size. *)
Lemma drain_law `{LawfulReader R} buffers (r : R) : sound r -> Forall (fun n => (0 < n)%nat) buffers ->
  (drain buffers r).1 `prefix_of` content r /\
  ((length (content r) < length buffers)%nat -> drain buffers r = (content r, Some (ending r))).
Proof.
  revert r. induction buffers as [|n buffers IH]; intros r Hs Hb; cbn.
  { split; [apply prefix_nil|lia]. }
  apply Forall_cons_1 in Hb as [Hn Hb]. pose proof (read_law n r Hs Hn) as Hlaw. destruct (io_Read n r) as [[p [e|]] r'].
  - destruct Hlaw as (_ & -> & -> & _). split; [done|]. done.
  - destruct Hlaw as (_ & Hp & Hs' & -> & He). destruct (IH r' Hs' Hb) as [H1 H2]. destruct (drain buffers r') as [q e']. cbn in *. split.
    + by apply prefix_app.
    + rewrite length_app. intros Hl. destruct p; [done|]. cbn in Hl. specialize (H2 ltac:(lia)) as [= -> ->]. by rewrite He.
Qed.
