(* ===== verification/StreamTrip.v ===== *)
(** * Writers, and what arrives

    A writer's bytes on the wire have a meaning to a reader of the same kind;
    a successful write adds exactly its payload to that meaning, a write that
    fails at any byte adds a beginning of it. *)

From S2P Require Import Prelude Tx Digest Bytes Streams StreamLaws.
From stdpp Require Import base strings list.
From Stdlib Require Import Ascii String.
Local Open Scope Z_scope.
Local Abbreviation length := List.length.

#[local] Arguments PutUint16 : simpl never.
#[local] Arguments PutUint32 : simpl never.
#[local] Arguments frame : simpl never.
#[local] Arguments unframe : simpl never.
#[local] Arguments reveal : simpl never.

(** A decoder of a stream of bytes that ends with an error. *)
Definition decoder := list Z -> error -> list Z * error.
Definition carries (d : decoder) (x p : list Z) : Prop :=
  forall rest e, d (x ++ rest) e = (p ++ (d rest e).1, (d rest e).2).
Definition monotone (d : decoder) : Prop := forall w k e e', (d w e).1 `prefix_of` (d (w ++ k) e').1.
Definition layered (outer inner : decoder) : decoder := fun w e => outer (inner w e).1 (inner w e).2.

Lemma carries_nil d : carries d [] [].
Proof. intros rest e. cbn. by destruct (d rest e). Qed.
Lemma carries_app d x y p q : carries d x p -> carries d y q -> carries d (x ++ y) (p ++ q).
Proof. intros Hx Hy rest e. by rewrite <- app_assoc, Hx, Hy, <- app_assoc. Qed.
Lemma carries_layered outer inner x f p : carries inner x f -> carries outer f p -> carries (layered outer inner) x p.
Proof. intros Hi Ho rest e. unfold layered. rewrite Hi. cbn [fst snd]. by rewrite Ho. Qed.
Lemma monotone_layered outer inner : monotone outer -> monotone inner -> monotone (layered outer inner).
Proof. intros Ho Hi w k e e'. unfold layered. destruct (Hi w k e e') as [k' ->]. apply Ho. Qed.
Lemma monotone_prefix d w w' e e' : monotone d -> w `prefix_of` w' -> (d w e).1 `prefix_of` (d w' e').1.
Proof. intros Hd [k ->]. apply Hd. Qed.
Lemma carries_alone d x p e : carries d x p -> (d [] e).1 = [] -> (d x e).1 = p.
Proof. intros Hc Hn. specialize (Hc [] e). rewrite app_nil_r in Hc. rewrite Hc. cbn. by rewrite Hn, app_nil_r. Qed.

Class LawfulWriter (W : Type) `{Writer W} := {
  wire : W -> list Z;
  meaning : W -> decoder;
  fits : W -> nat -> Prop;
  fits_le w m n : fits w n -> (m <= n)%nat -> fits w m;
  meaning_mono w : monotone (meaning w);
  meaning_nil w e : (meaning w [] e).1 = [];
  write_law p w : p <> [] -> fits w (length p) ->
    let '(n, e, w') := io_Write p w in
    meaning w' = meaning w /\ (forall m, fits w m -> fits w' m) /\
    exists x, wire w' = wire w ++ x /\
      match e with
      | None => carries (meaning w) x (take (Z.to_nat n) p)
      | Some _ => forall e, (meaning w x e).1 `prefix_of` p
      end
}.

(** What a call did to a writer: it put the bytes of [p], or a beginning of
    them, on the wire. *)
Definition put `{LawfulWriter W} (p : list Z) (e : option error) (w w' : W) : Prop :=
  meaning w' = meaning w /\ (forall m, fits w m -> fits w' m) /\
  exists x, wire w' = wire w ++ x /\
    match e with
    | None => carries (meaning w) x p
    | Some _ => forall e, (meaning w x e).1 `prefix_of` p
    end.

Lemma put_nothing `{LawfulWriter W} (w : W) : put [] None w w.
Proof. split; [done|]. split; [done|]. exists []. rewrite app_nil_r. split; [done|apply carries_nil]. Qed.
Lemma put_refused `{LawfulWriter W} p e (w : W) : put p (Some e) w w.
Proof. split; [done|]. split; [done|]. exists []. rewrite app_nil_r. split; [done|]. intros e'. rewrite meaning_nil. apply prefix_nil. Qed.
Lemma put_app `{LawfulWriter W} p q e (w1 w2 w3 : W) : put p None w1 w2 -> put q e w2 w3 -> put (p ++ q) e w1 w3.
Proof.
  intros (M1 & F1 & x & Hx & Cx) (M2 & F2 & y & Hy & Cy). split; [congruence|]. split; [eauto|]. exists (x ++ y). rewrite Hy, Hx, <- app_assoc. split; [done|].
  rewrite M1 in Cy. destruct e as [e|]; [|by apply carries_app]. intros e'. rewrite Cx. by apply prefix_app.
Qed.
Lemma put_short `{LawfulWriter W} p q e (w w' : W) : put p None w w' -> p `prefix_of` q -> put q (Some e) w w'.
Proof.
  intros (M & F & x & Hx & Cx) Hp. split; [done|]. split; [done|]. exists x. split; [done|]. intros e'.
  rewrite (carries_alone _ _ _ _ Cx); [done|apply meaning_nil].
Qed.
Lemma put_fits `{LawfulWriter W} p e (w w' : W) n : put p e w w' -> fits w n -> fits w' n.
Proof. intros (_ & F & _). apply F. Qed.

Lemma writeAll_loop_put `{LawfulWriter W} fuel p (w : W) : (length p <= fuel)%nat -> fits w (length p) ->
  let '(e, w') := writeAll_loop fuel p w in put p e w w'.
Proof.
  revert p w. induction fuel as [|fuel IH]; intros p w Hf Hw.
  - destruct p; [|cbn in Hf; lia]. apply put_nothing.
  - destruct (decide (p = [])) as [->|Hp]; [apply put_nothing|]. pose proof (write_law p w Hp Hw) as Hl.
    assert (Hloop : writeAll_loop (S fuel) p w = let '(n, e, w) := io_Write p w in match e with Some e => (Some e, w)
      | None => if (n <=? 0) || (zlen p <? n) then (Some ErrShortWrite, w) else writeAll_loop fuel (drop (Z.to_nat n) p) w end) by (by destruct p).
    rewrite Hloop. clear Hloop. destruct (io_Write p w) as [[n [e|]] w']; [exact Hl|].
    assert (Hput : put (take (Z.to_nat n) p) None w w') by exact Hl.
    destruct ((n <=? 0) || (zlen p <? n)) eqn:En; [eapply put_short; [exact Hput|apply prefix_take]|].
    apply orb_false_elim in En as [En1%Z.leb_gt En2%Z.ltb_ge]. unfold zlen in En2.
    specialize (IH (drop (Z.to_nat n) p) w'). rewrite length_drop in IH. specialize (IH ltac:(lia)).
    destruct (writeAll_loop fuel (drop (Z.to_nat n) p) w') as [e2 w2]. rewrite <- (take_drop (Z.to_nat n) p) at 1. eapply put_app; [exact Hput|].
    apply IH. eapply put_fits; [exact Hput|]. eapply fits_le; [exact Hw|lia].
Qed.
Lemma writeAll_put `{LawfulWriter W} p (w : W) : fits w (length p) -> let '(e, w') := writeAll p w in put p e w w'.
Proof. by apply writeAll_loop_put. Qed.

#[export] Program Instance outbound_LawfulWriter : LawfulWriter outbound := {
  wire := out_sent; meaning _ w e := (w, e); fits _ _ := True }.
Next Obligation. done. Qed.
Next Obligation. intros _ w k e e'. cbn. by apply prefix_app_r. Qed.
Next Obligation. done. Qed.
Next Obligation.
  intros p [sent [|[n e] script]] Hp _; unfold io_Write, outbound_Writer; cbn.
  - split; [done|]. split; [done|]. exists p. split; [done|]. intros rest e. unfold zlen. rewrite Nat2Z.id, take_ge by lia. done.
  - split; [done|]. split; [done|]. exists (take n p). split; [done|]. destruct e as [e|].
    + intros _. apply prefix_take.
    + intros rest e. cbn. unfold zlen. rewrite Nat2Z.id, length_take, <- take_take, firstn_all. done.
Qed.

(** ** Frames *)

Lemma frame_size k p : length (frame k p) = (5 + length p)%nat.
Proof. unfold frame. by rewrite length_cons, length_app, PutUint32_length. Qed.
Lemma frame_header k p rest : take 5 (frame k p ++ rest) = k :: PutUint32 (zlen p) /\ drop 5 (frame k p ++ rest) = p ++ rest.
Proof.
  unfold frame. rewrite <- app_comm_cons, <- app_assoc. change (k :: PutUint32 (zlen p) ++ p ++ rest) with ((k :: PutUint32 (zlen p)) ++ p ++ rest).
  rewrite take_app_le, take_ge by (cbn; rewrite PutUint32_length; lia). rewrite drop_app_ge by (cbn; rewrite PutUint32_length; lia).
  cbn [List.length]. rewrite PutUint32_length. done.
Qed.
Lemma zlen_word p : zlen p <= maxFrame -> word32 (zlen p).
Proof. unfold word32, zlen, maxFrame. lia. Qed.
Lemma header_size k p : zlen p <= maxFrame -> Uint32 (k :: PutUint32 (zlen p)) 1 = zlen p.
Proof.
  intros Hp. unfold Uint32, sub. change (drop 1 (k :: PutUint32 (zlen p))) with (PutUint32 (zlen p)). rewrite take_ge by (rewrite PutUint32_length; lia). by apply be_value_32, zlen_word.
Qed.

Lemma unframe_nil e : unframe [] e = ([], e).
Proof. rewrite unframe_eq. done. Qed.
Lemma unframe_data p : zlen p <= maxFrame -> carries unframe (frame dataFrame p) p.
Proof.
  intros Hp rest e. rewrite unframe_eq, length_app, frame_size. destruct (Nat.ltb_spec (5 + length p + length rest) 5); [lia|].
  unfold after_header. destruct (frame_header dataFrame p rest) as [-> ->]. rewrite header_size by done.
  rewrite (proj2 (Z.ltb_ge _ _) Hp). cbn [lookup list_lookup default from_option]. cbn [Z.eqb endFrame dataFrame Pos.eqb negb].
  unfold in_frame, zlen. rewrite Nat2Z.id, length_app. destruct (Nat.ltb_spec (length p + length rest) (length p)); [lia|].
  rewrite drop_app_length, take_app_length. by destruct (unframe rest e).
Qed.
Lemma unframe_end rest e : unframe (frame endFrame [] ++ rest) e = ([], EOF).
Proof.
  rewrite unframe_eq, length_app, frame_size. destruct (Nat.ltb_spec (5 + length (@nil Z) + length rest) 5); [cbn in *; lia|].
  unfold after_header. destruct (frame_header endFrame [] rest) as [-> _]. rewrite header_size by (unfold zlen, maxFrame; cbn; lia). done.
Qed.
Lemma in_frame_mono n w k e e' : ((n <= length w)%nat -> (unframe (drop n w) e).1 `prefix_of` (unframe (drop n w ++ k) e').1) ->
  (in_frame n w e).1 `prefix_of` (in_frame n (w ++ k) e').1.
Proof.
  intros Hm. unfold in_frame. rewrite length_app. destruct (Nat.ltb_spec (length w) n), (Nat.ltb_spec (length w + length k) n); try lia.
  - cbn. by apply prefix_app_r.
  - destruct (unframe (drop n (w ++ k)) e'). cbn. rewrite take_app_ge by lia. rewrite <- app_assoc. by apply prefix_app_r.
  - rewrite take_app_le, drop_app_le by lia. pose proof (Hm ltac:(lia)) as Hp.
    destruct (unframe (drop n w) e), (unframe (drop n w ++ k) e'). cbn in *. by apply prefix_app.
Qed.
Lemma unframe_mono : monotone unframe.
Proof.
  intros w. remember (length w) as m eqn:Hm. revert w Hm. induction (lt_wf m) as [m _ IH]. intros w -> k e e'. rewrite !unframe_eq, length_app.
  destruct (Nat.ltb_spec (length w) 5); [apply prefix_nil|]. destruct (Nat.ltb_spec (length w + length k) 5); [lia|]. unfold after_header.
  rewrite take_app_le, drop_app_le by lia. destruct (maxFrame <? _); [done|]. destruct (_ =? endFrame); [done|]. destruct (negb _); [done|].
  apply in_frame_mono. intros _. eapply IH; [|done]. rewrite !length_drop. lia.
Qed.

(** ** Obfuscation *)

(** A padded payload of 65534 or 65535 bytes cannot be read back: the index
    behind it is computed in 16 bits. *)
Definition pad_fits (o : Obfuscator) (n : nat) : Prop :=
  match o with RandomPaddingObfs _ _ => Z.of_nat n <= 65533 | _ => True end.

Lemma slice_at (a b c : list Z) from to : from = zlen a -> to = zlen a + zlen b -> slice (a ++ b ++ c) from to = Ok b.
Proof.
  intros -> ->. unfold slice, zlen. rewrite !length_app. rewrite (proj2 (Z.leb_le _ _)) by lia. rewrite (proj2 (Z.leb_le _ _)) by lia. cbn [andb].
  replace (Z.of_nat (length a) + Z.of_nat (length b) - Z.of_nat (length a)) with (Z.of_nat (length b)) by lia.
  by rewrite !Nat2Z.id, drop_app_length, take_app_length.
Qed.
Lemma uint16_small x : 0 <= x < 65536 -> uint16 x = x.
Proof. intros Hx. unfold uint16. apply Z.mod_small. lia. Qed.
Lemma zlen_PutUint16 x : zlen (PutUint16 x) = 2.
Proof. unfold zlen. by rewrite PutUint16_length. Qed.
Lemma Uint16_at (a c : list Z) x : 0 <= x < 65536 -> Uint16 (a ++ PutUint16 x ++ c) (length a) = x.
Proof.
  intros Hx. unfold Uint16, sub. rewrite drop_app_length, take_app_le, take_ge by (rewrite PutUint16_length; lia). by apply be_value_16.
Qed.

Lemma Ok_inj {A} (a b : A) : Ok a = Ok b -> a = b.
Proof. congruence. Qed.
Lemma deobfuscated o rnd p f : ObfuscateWrite o rnd p = Ok f -> pad_fits o (length p) -> DeobfuscateRead o f = Ok p.
Proof.
  assert (H0 : 0 <= zlen p) by (unfold zlen; lia). destruct o as [lo hi|lo hi|]; cbn [ObfuscateWrite pad_fits DeobfuscateRead].
  - destruct (Z.ltb_spec maxUint16Payload (zlen p)) as [|Hl]; [done|]. destruct (_ <=? 0); [done|]. destruct rnd as [pad|]; [|done]. intros <-%Ok_inj Hp.
    fold (zlen p) in Hp. rewrite uint16_small by (unfold maxUint16Payload in Hl; lia).
    assert (Hu : Uint16 (PutUint16 (zlen p) ++ p ++ pad) 0 = zlen p) by (apply (Uint16_at []); lia). rewrite Hu. rewrite (proj2 (Z.ltb_ge _ 2)) by (unfold zlen; rewrite length_app, PutUint16_length; lia).
    rewrite (proj2 (Z.ltb_ge _ (2 + zlen p))) by (unfold zlen; rewrite !length_app, PutUint16_length; lia).
    rewrite uint16_small by lia. apply slice_at; by rewrite zlen_PutUint16.
  - destruct (_ <=? 0); [done|]. destruct rnd; [|done]. by intros [= ->].
  - destruct (Nat.eqb_spec (length p) 0); [done|]. destruct (Z.ltb_spec maxTLSRecordPayload (zlen p)) as [|Hl]; [done|]. intros <-%Ok_inj _.
    unfold maxTLSRecordPayload in Hl. rewrite uint16_small by lia.
    change (tlsRecordTypeAppData :: PutUint16 tlsVersion1_2 ++ PutUint16 (zlen p) ++ p)
      with ((tlsRecordTypeAppData :: PutUint16 tlsVersion1_2) ++ PutUint16 (zlen p) ++ p).
    set (h := tlsRecordTypeAppData :: PutUint16 tlsVersion1_2). assert (Hh : length h = 3%nat) by done.
    assert (Hu : Uint16 (h ++ PutUint16 (zlen p) ++ p) 3 = zlen p) by (rewrite <- Hh; apply Uint16_at; lia). rewrite Hu.
    assert (Hz : zlen (h ++ PutUint16 (zlen p) ++ p) = 5 + zlen p) by (unfold zlen; rewrite !length_app, PutUint16_length, Hh; lia).
    rewrite !Hz. rewrite (proj2 (Z.ltb_ge _ 5)), (Z.ltb_irrefl (5 + zlen p)) by lia.
    cbn [default lookup list_lookup app h from_option]. change (_ =? tlsRecordTypeAppData) with true. cbn [negb]. rewrite uint16_small by lia.
    pose proof (slice_at (h ++ PutUint16 (zlen p)) p [] 5 (5 + zlen p)) as Hs. rewrite app_nil_r, <- app_assoc in Hs.
    apply Hs; unfold zlen; rewrite length_app, PutUint16_length, Hh; lia.
Qed.

Lemma first_plain_frame o f p rest e : DeobfuscateRead o f = Ok p -> p <> [] -> 0 < zlen f <= maxObfuscatedFrame ->
  first_plain o (PutUint32 (zlen f) ++ f ++ rest) e = Ok (p, rest).
Proof.
  intros Hd Hp Hf. unfold first_plain, Uint32, sub. rewrite !length_app, drop_app_ge by (rewrite PutUint32_length; lia).
  rewrite take_app_le by (rewrite PutUint32_length; lia). rewrite PutUint32_length. destruct (Nat.ltb_spec (4 + (length f + length rest)) 4); [lia|].
  rewrite (take_ge (PutUint32 _)) by (rewrite PutUint32_length; lia). rewrite drop_0, take_ge by (rewrite PutUint32_length; lia).
  rewrite be_value_32 by (unfold word32, maxObfuscatedFrame in *; lia).
  rewrite (proj2 (Z.eqb_neq _ 0)), (proj2 (Z.ltb_ge _ (zlen f))) by lia. cbn [orb]. rewrite Nat.sub_diag, drop_0, length_app. unfold zlen at 1 2 3. rewrite Nat2Z.id.
  destruct (Nat.ltb_spec (length f + length rest) (length f)); [lia|]. rewrite take_app_length, drop_app_length, Hd. by destruct p.
Qed.
Lemma first_plain_more o w k e e' plain rest : first_plain o w e = Ok (plain, rest) -> first_plain o (w ++ k) e' = Ok (plain, rest ++ k).
Proof.
  unfold first_plain. rewrite length_app. destruct (Nat.ltb_spec (length w) 4); [done|]. destruct (Nat.ltb_spec (length w + length k) 4); [lia|].
  rewrite take_app_le, drop_app_le by lia. destruct (_ || _); [done|]. rewrite length_app. set (n := Z.to_nat _). set (v := drop 4 w).
  destruct (Nat.ltb_spec (length v) n); [done|]. destruct (Nat.ltb_spec (length v + length k) n); [lia|]. rewrite take_app_le, drop_app_le by lia.
  destruct (DeobfuscateRead _ _) as [[|x pl]|]; [done| |done]. by intros [= <- <-].
Qed.

Lemma reveal_nil o e : reveal o [] e = ([], e).
Proof. rewrite reveal_eq. done. Qed.
Lemma reveal_frame o rnd p f : ObfuscateWrite o rnd p = Ok f -> pad_fits o (length p) -> p <> [] -> 0 < zlen f <= maxObfuscatedFrame ->
  carries (reveal o) (PutUint32 (zlen f) ++ f) p.
Proof. intros Hw Hp Hne Hf rest e. rewrite reveal_eq, <- app_assoc. by rewrite (first_plain_frame o f p rest e (deobfuscated _ _ _ _ Hw Hp) Hne Hf). Qed.
Lemma reveal_mono o : monotone (reveal o).
Proof.
  intros w. remember (length w) as m eqn:Hm. revert w Hm. induction (lt_wf m) as [m _ IH]. intros w -> k e e'. rewrite !(reveal_eq o).
  destruct (first_plain o w e) as [[plain rest]|] eqn:E; [|apply prefix_nil]. rewrite (first_plain_more _ _ k e e' _ _ E). cbn.
  apply prefix_app. eapply IH; [|done]. by apply first_plain_shorter in E as [_ ?].
Qed.
Lemma reveal_length o w e : (length (reveal o w e).1 <= length w)%nat.
Proof.
  remember (length w) as m eqn:Hm. revert w Hm. induction (lt_wf m) as [m _ IH]. intros w ->. rewrite reveal_eq.
  destruct (first_plain o w e) as [[plain rest]|] eqn:E; [|cbn; lia]. cbn. rewrite length_app.
  pose proof (first_plain_shorter _ _ _ _ _ E) as [_ Hlt]. pose proof (IH _ Hlt rest eq_refl).
  enough (length plain + length rest <= length w)%nat by lia. clear -E. revert E. unfold first_plain.
  destruct (Nat.ltb_spec (length w) 4); [done|]. destruct (_ || _); [done|]. destruct (_ <? _)%nat; [done|]. set (v := drop 4 w).
  destruct (DeobfuscateRead _ _) as [[|x pl]|] eqn:D; [done| |done]. intros [= <- <-].
  assert (Hl : (length (x :: pl) <= length (take (Z.to_nat (Uint32 (take 4 w) 0)) v))%nat); [|revert Hl; unfold v; rewrite length_take, !length_drop; lia].
  revert D. generalize (take (Z.to_nat (Uint32 (take 4 w) 0)) v). intros f. unfold DeobfuscateRead, slice.
  destruct o; repeat (destruct (_ <? _); [done|]); try destruct (negb _); try (destruct (_ <? _); [done|]); try (destruct (_ && _); [|done]);
    intros [= <-]; rewrite ?length_take, ?length_drop; lia.
Qed.

Section ObfsWriter.
Context `{LawfulWriter C}.

Lemma obfs_write_law p (o : obfsConn C) : p <> [] -> pad_fits (oc_strategy o) (length p) -> (forall m, fits (oc_conn o) m) ->
  let '(n, e, o') := obfsConn_Write p o in
  oc_strategy o' = oc_strategy o /\ (meaning (oc_conn o') = meaning (oc_conn o)) /\ (forall m, fits (oc_conn o) m -> fits (oc_conn o') m) /\
  exists x, wire (oc_conn o') = wire (oc_conn o) ++ x /\
    match e with
    | None => carries (layered (reveal (oc_strategy o)) (meaning (oc_conn o))) x (take (Z.to_nat n) p)
    | Some _ => forall e, (layered (reveal (oc_strategy o)) (meaning (oc_conn o)) x e).1 `prefix_of` p
    end.
Proof.
  intros Hp Hf Hc. unfold obfsConn_Write. set (rnd := default None _).
  assert (Hnone : exists x, wire (oc_conn o) = wire (oc_conn o) ++ x /\ forall e, (layered (reveal (oc_strategy o)) (meaning (oc_conn o)) x e).1 `prefix_of` p).
  { exists []. rewrite app_nil_r. split; [done|]. intros e. unfold layered. rewrite meaning_nil, reveal_nil. apply prefix_nil. }
  destruct (ObfuscateWrite _ rnd p) as [f|e] eqn:Ew; [|done]. destruct ((zlen f =? 0) || _) eqn:Es; [done|].
  apply orb_false_elim in Es as [Es1%Z.eqb_neq Es2%Z.ltb_ge]. assert (Hz : 0 < zlen f <= maxObfuscatedFrame) by (unfold zlen in *; lia).
  pose proof (reveal_frame _ _ _ _ Ew Hf Hp Hz) as Hcar. pose proof (writeAll_put (PutUint32 (zlen f) ++ f) (oc_conn o) (Hc _)) as Hput.
  destruct (writeAll _ (oc_conn o)) as [[e|] c]; destruct Hput as (M & F & x & Hx & Cx); cbn; (split; [done|]); (split; [done|]); (split; [done|]);
    exists x; (split; [done|]).
  - intros e'. unfold layered. rewrite <- (carries_alone _ _ _ EOF Hcar); [|by rewrite reveal_nil]. apply monotone_prefix; [apply reveal_mono|apply Cx].
  - unfold zlen. rewrite Nat2Z.id, take_ge by lia. by eapply carries_layered.
Qed.

#[export] Program Instance obfs_LawfulWriter : LawfulWriter (obfsConn C) := {
  wire o := wire (oc_conn o); meaning o := layered (reveal (oc_strategy o)) (meaning (oc_conn o));
  fits o n := pad_fits (oc_strategy o) n /\ forall m, fits (oc_conn o) m }.
Next Obligation. intros o m n [Hp Hc] Hm. split; [|done]. destruct (oc_strategy o); cbn in *; [lia|done..]. Qed.
Next Obligation. intros o. apply monotone_layered; [apply reveal_mono|apply meaning_mono]. Qed.
Next Obligation. intros o e. unfold layered. by rewrite meaning_nil, reveal_nil. Qed.
Next Obligation.
  intros p o Hp [Hf Hc]. pose proof (obfs_write_law p o Hp Hf Hc) as Hl. unfold io_Write, obfsConn_Writer.
  destruct (obfsConn_Write p o) as [[n e] o']. destruct Hl as (Hs & Hm & Hfit & Hx). rewrite Hs, Hm. split; [done|]. split; [|done].
  intros m [H1 H2]. split; [done|]. auto.
Qed.
End ObfsWriter.

#[export] Program Instance connection_LawfulWriter `{LawfulWriter C} : LawfulWriter (connection C) := {
  wire c := match c with Plain c => wire c | Obfuscated o => wire o end;
  meaning c := match c with Plain c => meaning c | Obfuscated o => meaning o end;
  fits c n := match c with Plain c => fits c n | Obfuscated o => fits o n end }.
Next Obligation. intros C ? ? [c|o]; apply fits_le. Qed.
Next Obligation. intros C ? ? [c|o]; apply meaning_mono. Qed.
Next Obligation. intros C ? ? [c|o]; apply meaning_nil. Qed.
Next Obligation.
  intros C ? ? p [c|o] Hp Hf; unfold io_Write, connection_Writer.
  - pose proof (write_law p c Hp Hf) as Hl. by destruct (io_Write p c) as [[n e] c'].
  - pose proof (write_law p o Hp Hf) as Hl. by destruct (io_Write p o) as [[n e] o'].
Qed.

(** ** Sessions *)

Section SessionWriter.
Context `{LawfulWriter C}.

(** The payload [p], cut into frames, fits the connection. *)
Definition framed_fits (c : C) (n : nat) : Prop := fits c (5 + Nat.min n (Z.to_nat maxFrame)).

Lemma writeFrame_put k p (c : C) : fits c (5 + length p) -> let '(e, c') := writeFrame k p c in put (frame k p) e c c'.
Proof.
  intros Hf. unfold writeFrame. destruct (maxFrame <? zlen p); [apply put_refused|]. apply writeAll_put. by rewrite frame_size.
Qed.

(** A change of the connection as the session at the other end sees it. *)
Definition said (p : list Z) (e : option error) (c c' : C) : Prop :=
  meaning c' = meaning c /\ (forall m, fits c m -> fits c' m) /\
  exists x, wire c' = wire c ++ x /\
    match e with
    | None => carries (layered unframe (meaning c)) x p
    | Some _ => forall e, (layered unframe (meaning c) x e).1 `prefix_of` p
    end.
Lemma said_frame p e (c c' : C) : zlen p <= maxFrame -> put (frame dataFrame p) e c c' -> said p e c c'.
Proof.
  intros Hp (M & F & x & Hx & Cx). split; [done|]. split; [done|]. exists x. split; [done|]. pose proof (unframe_data p Hp) as Hd. destruct e as [e|].
  - intros e'. unfold layered. rewrite <- (carries_alone _ _ _ EOF Hd); [|by rewrite unframe_nil]. apply monotone_prefix; [apply unframe_mono|apply Cx].
  - by eapply carries_layered.
Qed.
Lemma said_nothing (c : C) : said [] None c c.
Proof. split; [done|]. split; [done|]. exists []. rewrite app_nil_r. split; [done|apply carries_nil]. Qed.
Lemma said_app p q e (c1 c2 c3 : C) : said p None c1 c2 -> said q e c2 c3 -> said (p ++ q) e c1 c3.
Proof.
  intros (M1 & F1 & x & Hx & Cx) (M2 & F2 & y & Hy & Cy). split; [congruence|]. split; [eauto|]. exists (x ++ y). rewrite Hy, Hx, <- app_assoc. split; [done|].
  rewrite M1 in Cy. destruct e as [e|]; [|by apply carries_app]. intros e'. rewrite Cx. by apply prefix_app.
Qed.
Lemma said_more p q e (c c' : C) : said p (Some e) c c' -> said (p ++ q) (Some e) c c'.
Proof. intros (M & F & x & Hx & Cx). split; [done|]. split; [done|]. exists x. split; [done|]. intros e'. by apply prefix_app_r. Qed.
Lemma said_fits p e (c c' : C) n : said p e c c' -> framed_fits c n -> framed_fits c' n.
Proof. intros (_ & F & _). apply F. Qed.

Lemma write_frames_said fuel written p (c : C) : (length p <= fuel)%nat -> framed_fits c (length p) ->
  let '(n, e, c') := write_frames fuel written p c in said p e c c' /\ (e = None -> n = written + zlen p).
Proof.
  revert written p c. induction fuel as [|fuel IH]; intros written p c Hl Hf.
  { destruct p; [|cbn in Hl; lia]. cbn. split; [apply said_nothing|]. intros _. unfold zlen. cbn. lia. }
  destruct (decide (p = [])) as [->|Hp]. { cbn. split; [apply said_nothing|]. intros _. unfold zlen. cbn. lia. }
  set (n := if maxFrame <? zlen p then maxFrame else zlen p). set (k := Z.to_nat n).
  assert (Hk : (0 < k)%nat /\ (k <= length p)%nat /\ Z.of_nat k = n /\ n <= maxFrame).
  { unfold k, n, zlen, maxFrame in *. destruct p; [done|]. cbn [List.length] in *. destruct (Z.ltb_spec 65535 (Z.of_nat (S (length p)))); lia. }
  assert (Heq : write_frames (S fuel) written p c = match writeFrame dataFrame (take k p) c with
    | (Some e, c) => (written, Some e, c) | (None, c) => write_frames fuel (written + n) (drop k p) c end) by (by destruct p).
  rewrite Heq. clear Heq. pose proof (writeFrame_put dataFrame (take k p) c) as Hput. rewrite length_take, Nat.min_l in Hput by lia.
  destruct (writeFrame dataFrame (take k p) c) as [e c1]. specialize (Hput ltac:(eapply fits_le; [exact Hf|lia])).
  apply said_frame in Hput; [|unfold zlen; rewrite length_take; lia]. destruct e as [e|].
  { split; [|done]. rewrite <- (take_drop k p). by apply said_more. }
  specialize (IH (written + n) (drop k p) c1). rewrite length_drop in IH. specialize (IH ltac:(lia)). destruct (write_frames fuel (written + n) (drop k p) c1) as [[m e] c2].
  destruct IH as [Hs Hm]; [eapply fits_le; [eapply said_fits; [exact Hput|exact Hf]|lia]|]. split; [rewrite <- (take_drop k p); by eapply said_app|].
  intros He. rewrite (Hm He). unfold zlen. rewrite length_drop. lia.
Qed.
Lemma Session_Write_said p (s : Session C) : framed_fits (s_conn s) (length p) ->
  let '(n, e, s') := Session_Write p s in said p e (s_conn s) (s_conn s') /\ (e = None -> n = zlen p).
Proof.
  intros Hf. unfold Session_Write. pose proof (write_frames_said (length p) 0 p (s_conn s) ltac:(done) Hf) as Hl.
  by destruct (write_frames (length p) 0 p (s_conn s)) as [[n e] c].
Qed.
Lemma write_each_said ps (s : Session C) : Forall (fun p => framed_fits (s_conn s) (length p)) ps ->
  let '(e, s') := write_each ps s in said (List.concat ps) e (s_conn s) (s_conn s').
Proof.
  revert s. induction ps as [|p ps IH]; intros s Hf; cbn; [apply said_nothing|]. apply Forall_cons_1 in Hf as [Hp Hf].
  pose proof (Session_Write_said p s Hp) as Hs. unfold io_Write, Session_Writer. destruct (Session_Write p s) as [[n [e|]] s1]; destruct Hs as [Hs _].
  { by apply said_more. }
  specialize (IH s1). destruct (write_each ps s1) as [e s2]. eapply said_app; [exact Hs|]. apply IH.
  eapply Forall_impl; [exact Hf|]. intros q Hq. by eapply said_fits.
Qed.

(** The end frame is the end of the stream, whatever follows it. *)
Lemma CloseWrite_said (s s' : Session C) : fits (s_conn s) 5 -> CloseWrite s = (None, s') ->
  exists x, wire (s_conn s') = wire (s_conn s) ++ x /\ forall rest e, layered unframe (meaning (s_conn s)) (x ++ rest) e = ([], EOF).
Proof.
  intros Hf. unfold CloseWrite. pose proof (writeFrame_put endFrame [] (s_conn s) Hf) as Hput. destruct (writeFrame _ _ _) as [e c]. intros [= -> <-].
  destruct Hput as (_ & _ & x & Hx & Cx). exists x. split; [done|]. intros rest e. unfold layered. rewrite Cx. apply unframe_end.
Qed.
End SessionWriter.

#[export] Program Instance Session_LawfulWriter `{LawfulWriter C} : LawfulWriter (Session C) := {
  wire s := wire (s_conn s); meaning s := layered unframe (meaning (s_conn s)); fits s n := framed_fits (s_conn s) n }.
Next Obligation. intros C ? ? s m n Hf Hm. eapply fits_le; [exact Hf|lia]. Qed.
Next Obligation. intros C ? ? s. apply monotone_layered; [apply unframe_mono|apply meaning_mono]. Qed.
Next Obligation. intros C ? ? s e. unfold layered. by rewrite meaning_nil, unframe_nil. Qed.
Next Obligation.
  intros C ? ? p s _ Hf. pose proof (Session_Write_said p s Hf) as Hs. unfold io_Write, Session_Writer. destruct (Session_Write p s) as [[n e] s'].
  destruct Hs as [(M & F & x & Hx & Cx) Hn]. rewrite M. split; [done|]. split; [intros m; apply F|]. exists x. split; [done|].
  destruct e as [e|]; [done|]. rewrite Hn by done. unfold zlen. by rewrite Nat2Z.id, firstn_all.
Qed.

(** ** Packets *)

Section Packets.

Lemma WritePacket_put `{LawfulWriter C} p (s s' : Session C) : fits (s_conn s) (5 + length p) -> WritePacket p s = (None, s') ->
  zlen p <= maxFrame /\ put (frame dataFrame p) None (s_conn s) (s_conn s').
Proof.
  intros Hf. unfold WritePacket. pose proof (writeFrame_put dataFrame p (s_conn s) Hf) as Hput. unfold writeFrame in *.
  destruct (Z.ltb_spec maxFrame (zlen p)) as [|Hp]; [done|]. destruct (writeAll _ _) as [e c]. by intros [= -> <-].
Qed.
Lemma write_packets_put `{LawfulWriter C} ps (s s' : Session C) : Forall (fun p => fits (s_conn s) (5 + length p)) ps -> write_packets ps s = (None, s') ->
  Forall (fun p => zlen p <= maxFrame) ps /\ put (List.concat (frame dataFrame <$> ps)) None (s_conn s) (s_conn s').
Proof.
  revert s. induction ps as [|p ps IH]; intros s Hf; cbn.
  { intros [= <-]. split; [done|apply put_nothing]. }
  apply Forall_cons_1 in Hf as [Hp Hf]. destruct (WritePacket p s) as [[e|] s1] eqn:E; [done|]. intros Hw. destruct (WritePacket_put _ _ _ Hp E) as [Hl Hput].
  destruct (IH s1) as [Hls Hput']; [|done|].
  - eapply Forall_impl; [exact Hf|]. intros q Hq. by eapply put_fits.
  - split; [by constructor|]. by eapply put_app.
Qed.

Context `{LawfulReader C}.
Lemma readFrame_law k p R (c : C) : sound c -> content c = frame k p ++ R -> zlen p <= maxFrame ->
  exists c', readFrame c = (Ok (k, p), c') /\ sound c' /\ content c' = R /\ ending c' = ending c.
Proof.
  intros Hs Hc Hp. destruct (readFrameHeader_enough c Hs) as (c1 & E1 & Hs1 & Hc1 & He1).
  { rewrite Hc, length_app, frame_size. lia. }
  rewrite Hc in E1, Hc1. destruct (frame_header k p R) as [Ht Hd]. rewrite Ht, header_size in E1 by done. rewrite (proj2 (Z.ltb_ge _ _) Hp) in E1. rewrite Hd in Hc1.
  unfold readFrame. rewrite E1. unfold zlen. rewrite Nat2Z.id. destruct (ReadFull_enough (length p) c1 Hs1) as (c2 & E2 & Hs2 & Hc2 & He2).
  { rewrite Hc1, length_app. lia. }
  rewrite E2, Hc1, take_app_length. exists c2. rewrite Hc2, Hc1, drop_app_length. split_and!; [done..|congruence].
Qed.

(** A session at a boundary between packets. *)
Definition at_packet (s : Session C) : Prop := s_readErr s = None /\ s_remaining s = 0%nat /\ sound (s_conn s).
Lemma ReadPacket_data p R (s : Session C) : at_packet s -> content (s_conn s) = frame dataFrame p ++ R -> zlen p <= maxFrame ->
  exists s', ReadPacket s = (Ok p, s') /\ at_packet s' /\ content (s_conn s') = R.
Proof.
  intros (He & Hr & Hs) Hc Hp. destruct (readFrame_law _ _ _ _ Hs Hc Hp) as (c' & E & Hs' & Hc' & _). exists (with_conn s c').
  unfold ReadPacket. rewrite He, Hr, E. split; [done|]. by split_and!.
Qed.
Lemma ReadPacket_end R (s : Session C) : at_packet s -> content (s_conn s) = frame endFrame [] ++ R -> exists s', ReadPacket s = (Err EOF, s').
Proof.
  intros (He & Hr & Hs) Hc. destruct (readFrame_law _ _ _ _ Hs Hc) as (c' & E & _); [unfold zlen, maxFrame; cbn; lia|].
  unfold ReadPacket. rewrite He, Hr, E. cbn. eauto.
Qed.
Lemma read_packets_law ps R n (s : Session C) : Forall (fun p => zlen p <= maxFrame) ps -> at_packet s ->
  content (s_conn s) = List.concat (frame dataFrame <$> ps) ++ frame endFrame [] ++ R -> (length ps < n)%nat -> read_packets n s = (ps, Some EOF).
Proof.
  revert n s. induction ps as [|p ps IH]; intros [|n] s Hps Hs Hc Hn; cbn in Hn; try lia; cbn [read_packets].
  - by destruct (ReadPacket_end R s Hs Hc) as (s' & ->).
  - apply Forall_cons_1 in Hps as [Hp Hps]. cbn in Hc. rewrite <- app_assoc in Hc.
    destruct (ReadPacket_data _ _ _ Hs Hc Hp) as (s' & -> & Hs' & Hc'). rewrite (IH n s'); [done..|lia].
Qed.
End Packets.
