(* ===== verification/StreamGuarantees.v ===== *)
(** * What sessions guarantee

    Between the two ends of a carrier, with any strategy of obfuscation or
    none: the stream and its half close, the packets and their boundaries, a
    connection that breaks, and the relay that charges before it sends. *)

From S2P Require Import Prelude Tx Digest Bytes Streams StreamLaws StreamTrip.
From stdpp Require Import base strings list.
From Stdlib Require Import Ascii String.
Local Open Scope Z_scope.
Local Abbreviation length := List.length.

(** Payloads whose frames a padded connection can read back. *)
Definition sized (strategy : option Obfuscator) (p : list Z) : Prop :=
  match strategy with Some (RandomPaddingObfs _ _) => zlen p <= 65528 | _ => True end.

Definition speaker (strategy : option Obfuscator) (rnd : list random) (script : list (nat * option error)) : Session (connection outbound) :=
  open_session (wrap strategy rnd {| out_sent := []; out_script := script |}).
Definition receiver (strategy : option Obfuscator) (chunks : list (list Z)) (e : error) : Session (connection inbound) :=
  open_session (wrap strategy [] {| in_chunks := chunks; in_end := e |}).

Section Ends.
Context (strategy : option Obfuscator) (rnd : list random) (script : list (nat * option error)).
Context (chunks : list (list Z)) (e : error).

Lemma sender_wire : wire (s_conn (speaker strategy rnd script)) = [].
Proof. by destruct strategy. Qed.
Lemma sender_fits p : sized strategy p -> framed_fits (s_conn (speaker strategy rnd script)) (length p).
Proof.
  unfold sized, framed_fits, speaker. destruct strategy as [[]|]; cbn; try done. intros Hp. split; [|done].
  unfold zlen, maxFrame in *. lia.
Qed.
Lemma sender_fits_end : fits (s_conn (speaker strategy rnd script)) 5.
Proof. pose proof (sender_fits [] ltac:(unfold sized, zlen; by destruct strategy as [[]|])) as Hf. eapply fits_le; [exact Hf|lia]. Qed.
Lemma receiver_conn : content (s_conn (receiver strategy chunks e)) = (meaning (s_conn (speaker strategy rnd script)) (List.concat chunks) e).1 /\
  ending (s_conn (receiver strategy chunks e)) = (meaning (s_conn (speaker strategy rnd script)) (List.concat chunks) e).2.
Proof. by destruct strategy. Qed.
Lemma receiver_sound F : Forall (fun x => x <> []) chunks -> (length (List.concat chunks) < F)%nat -> session_sound F (receiver strategy chunks e).
Proof.
  intros Hc HF _. split; [by destruct strategy|]. eapply Nat.le_lt_trans; [|exact HF]. destruct strategy; [|done]. apply reveal_length.
Qed.
Lemma receiver_view : session_view (receiver strategy chunks e) =
  layered unframe (meaning (s_conn (speaker strategy rnd script))) (List.concat chunks) e.
Proof. unfold session_view, layered. destruct receiver_conn as [<- <-]. cbn [s_readErr s_remaining receiver open_session]. by rewrite in_frame_0. Qed.
(** What the receiver reads, in terms of what is on the wire. *)
Lemma receiver_drain F buffers : Forall (fun x => x <> []) chunks -> (length (List.concat chunks) < F)%nat -> Forall (fun n => (0 < n)%nat) buffers ->
  let v := layered unframe (meaning (s_conn (speaker strategy rnd script))) (List.concat chunks) e in
  (@drain _ (Session_Reader F) buffers (receiver strategy chunks e)).1 `prefix_of` v.1 /\
  ((length v.1 < length buffers)%nat -> @drain _ (Session_Reader F) buffers (receiver strategy chunks e) = (v.1, Some v.2)).
Proof.
  intros Hc HF Hb. cbv zeta. rewrite <- receiver_view. apply (@drain_law _ _ (Session_LawfulReader F)); [by apply receiver_sound|done].
Qed.
End Ends.

(** C33: a session is a stream with a half close.  If the writes of a session
    and its [CloseWrite] succeed, over a carrier that takes them in any pieces
    and with any strategy of obfuscation or none, then the session at the
    other end, which gets the bytes in chunks of any size and reads them into
    buffers of any size, reads exactly what was written, and then the end of
    the stream, whatever the carrier does afterwards.  With random padding the
    theorem is about writes of at most 65528 bytes ([sized]): the reader
    cannot take the longest frames of longer ones. *)
Theorem stream_delivered strategy rnd script ps s1 s2 chunks e F buffers :
  Forall (sized strategy) ps ->
  write_each ps (speaker strategy rnd script) = (None, s1) -> CloseWrite s1 = (None, s2) ->
  Forall (fun x => x <> []) chunks -> List.concat chunks = wire (s_conn s2) -> (length (List.concat chunks) < F)%nat ->
  Forall (fun n => (0 < n)%nat) buffers -> (length (List.concat ps) < length buffers)%nat ->
  @drain _ (Session_Reader F) buffers (receiver strategy chunks e) = (List.concat ps, Some EOF).
Proof.
  intros Hps Hw Hcl Hch Hwire HF Hb Hlen.
  assert (Hfit : Forall (fun p => framed_fits (s_conn (speaker strategy rnd script)) (length p)) ps) by (eapply Forall_impl; [exact Hps|apply sender_fits]).
  pose proof (write_each_said ps _ Hfit) as Hsaid. rewrite Hw in Hsaid. destruct Hsaid as (M & Hf & x & Hx & Cx). rewrite sender_wire in Hx.
  destruct (CloseWrite_said s1 s2 (Hf _ (sender_fits_end _ _ _)) Hcl) as (y & Hy & Cy). rewrite M in Cy.
  destruct (receiver_drain strategy rnd script chunks e F buffers Hch HF Hb) as [_ Hd]. rewrite Hwire, Hy, Hx in Hd. cbn [app] in Hd. rewrite Cx in Hd.
  specialize (Cy [] e). rewrite app_nil_r in Cy. rewrite Cy, app_nil_r in Hd. by apply Hd.
Qed.

(** A broken connection gives no wrong byte.  Whatever becomes of the
    writes of a session, failing at any byte of the carrier, and whatever
    beginning of the bytes on the wire arrives at the other end, what is read
    there is a beginning of what was written. *)
Theorem stream_prefix strategy rnd script ps r s1 chunks e F buffers :
  Forall (sized strategy) ps -> write_each ps (speaker strategy rnd script) = (r, s1) ->
  Forall (fun x => x <> []) chunks -> List.concat chunks `prefix_of` wire (s_conn s1) -> (length (List.concat chunks) < F)%nat ->
  Forall (fun n => (0 < n)%nat) buffers ->
  (@drain _ (Session_Reader F) buffers (receiver strategy chunks e)).1 `prefix_of` List.concat ps.
Proof.
  intros Hps Hw Hch Hwire HF Hb.
  assert (Hfit : Forall (fun p => framed_fits (s_conn (speaker strategy rnd script)) (length p)) ps) by (eapply Forall_impl; [exact Hps|apply sender_fits]).
  pose proof (write_each_said ps _ Hfit) as Hsaid. rewrite Hw in Hsaid. destruct Hsaid as (M & Hf & x & Hx & Cx). rewrite sender_wire, app_nil_l in Hx.
  destruct (receiver_drain strategy rnd script chunks e F buffers Hch HF Hb) as [Hd _]. etrans; [exact Hd|]. rewrite Hx in Hwire.
  assert (Hm : monotone (layered unframe (meaning (s_conn (speaker strategy rnd script))))) by (apply monotone_layered; [apply unframe_mono|apply meaning_mono]).
  etrans; [exact (monotone_prefix _ _ _ e EOF Hm Hwire)|]. destruct r as [r|]; [apply Cx|].
  rewrite (carries_alone _ _ _ _ Cx); [done|]. unfold layered. by rewrite meaning_nil, unframe_nil.
Qed.

(** Packets keep their boundaries.  If the packets written on a session
    and its [CloseWrite] succeed, the other end reads exactly these packets,
    one for one and in order, and then the end. *)
Theorem packets_delivered strategy rnd script ps s1 s2 chunks e n :
  Forall (sized strategy) ps ->
  write_packets ps (speaker strategy rnd script) = (None, s1) -> CloseWrite s1 = (None, s2) ->
  Forall (fun x => x <> []) chunks -> List.concat chunks = wire (s_conn s2) -> (length ps < n)%nat ->
  read_packets n (receiver strategy chunks e) = (ps, Some EOF).
Proof.
  intros Hps Hw Hcl Hch Hwire Hn.
  assert (Hfit : Forall (fun p => fits (s_conn (speaker strategy rnd script)) (5 + length p)) ps).
  { eapply Forall_impl; [exact Hps|]. intros p Hp. unfold sized in Hp. unfold speaker. destruct strategy as [[]|]; cbn; try done.
    split; [|done]. unfold zlen in Hp. lia. }
  destruct (write_packets_put ps _ _ Hfit Hw) as [Hl (M & Hf & x & Hx & Cx)]. rewrite sender_wire, app_nil_l in Hx.
  pose proof (writeFrame_put endFrame [] (s_conn s1) (Hf _ (sender_fits_end _ _ _))) as Hput. unfold CloseWrite in Hcl.
  destruct (writeFrame _ _ _) as [r c]. injection Hcl as -> <-. destruct Hput as (_ & _ & y & Hy & Cy). rewrite M in Cy. cbn [s_conn with_conn] in Hwire.
  pose proof (receiver_conn strategy rnd script chunks e) as [Hc _]. rewrite Hwire, Hy, Hx, Cx in Hc. specialize (Cy [] e). rewrite app_nil_r in Cy. rewrite Cy in Hc. cbn [fst] in Hc.
  rewrite meaning_nil in Hc. eapply (read_packets_law ps [] n); [done| |exact Hc|done].
  split; [done|]. split; [done|]. by destruct strategy.
Qed.

(** ** Relays *)

Section Relays.
Context `{LawfulReader R} `{LawfulWriter W} {A : Type} (charge : Z -> A -> res unit * A) (closeWrite : W -> W).

(** [charge] with a list of what it was asked for and what it answered. *)
Definition metered (n : Z) (m : A * list (Z * res unit)) : res unit * (A * list (Z * res unit)) :=
  let '(r, a) := charge n m.1 in (r, (a, m.2 ++ [(n, r)])).
Definition agreed (c : Z * res unit) : Z := match c.2 with Ok _ => c.1 | Err _ => 0 end.
Definition charged (m : A * list (Z * res unit)) : Z := sum_over agreed m.2.

(** What the destination got, when [q] was charged, and why the relay ended:
    with a half close when all was passed on and the source ended regularly;
    with an abort because a charge was refused, and then [q] was sent and no
    byte of what was refused; or because a write of something already charged
    failed; or because the source ended with an error when all of it was
    passed on. *)
Definition relay_result (r : relayed) (src : R) (dst dst' : W) (m' : A * list (Z * res unit)) (q : list Z) : Prop :=
  match r with
  | Copying => put q None dst dst'
  | HalfClosed => q = content src /\ ending src = EOF /\ exists d, put q None dst d /\ dst' = closeWrite d
  | Aborted =>
      (put q None dst dst' /\ exists n e, last m'.2 = Some (n, Err e)) \/
      (exists q1 p d e, q = q1 ++ p /\ put q1 None dst d /\ writeAll p d = (Some e, dst') /\ put q (Some e) dst dst') \/
      (q = content src /\ ending src <> EOF /\ put q None dst dst')
  end.

Lemma relay_app r src src' p dst d dst' m' q : content src = p ++ content src' -> ending src' = ending src -> put p None dst d ->
  relay_result r src' d dst' m' q -> relay_result r src dst dst' m' (p ++ q).
Proof.
  intros Hc He Hp. destruct r; cbn.
  - by apply put_app.
  - intros (-> & Hend & d' & Hq & ->). split; [done|]. split; [congruence|]. exists d'. split; [by eapply put_app|done].
  - intros [[Hq Hr]|[(q1 & x & d' & e & -> & Hq1 & Hw & Hq)|(-> & Hend & Hq)]].
    + left. split; [by eapply put_app|done].
    + right; left. exists (p ++ q1), x, d', e. split; [by rewrite app_assoc|]. split; [by eapply put_app|]. split; [done|by eapply put_app].
    + right; right. split; [done|]. split; [congruence|by eapply put_app].
Qed.

Lemma charged_snoc a log n r a1 : charged (a1, log ++ [(n, r)]) = charged (a, log) + match r with Ok _ => n | Err _ => 0 end.
Proof. unfold charged. cbn. rewrite sum_over_app. cbn. unfold agreed. destruct r; cbn; lia. Qed.

Lemma copyOne_law fuel src dst m r dst' m' : sound src -> fits dst relayBuffer -> copyOne metered closeWrite fuel src dst m = (r, dst', m') ->
  exists q, q `prefix_of` content src /\ charged m' = charged m + zlen q /\ relay_result r src dst dst' m' q /\ ((length (content src) < fuel)%nat -> r <> Copying).
Proof.
  revert src dst m. induction fuel as [|fuel IH]; intros src dst m Hs Hf; cbn [copyOne].
  { intros [= <- <- <-]. exists []. split_and!; [apply prefix_nil|unfold zlen; cbn; lia|apply put_nothing|lia]. }
  pose proof (read_law relayBuffer src Hs ltac:(unfold relayBuffer; lia)) as Hlaw. destruct (io_Read relayBuffer src) as [[p e] src1]. destruct Hlaw as [Hlen Hlaw].
  assert (Hpre : p `prefix_of` content src).
  { destruct e as [e|]; [destruct Hlaw as (-> & _)|destruct Hlaw as (_ & _ & -> & _)]; [done|by apply prefix_app_r]. }
  destruct (Nat.eqb_spec (length p) 0) as [E0|E0].
  { destruct p; [|done]. destruct e as [e|]; [|destruct Hlaw as [[] _]; done]. destruct Hlaw as (Hc & He & _). unfold relay_result. case_bool_decide; intros [= <- <- <-];
      (exists []; split; [apply prefix_nil|]; split; [unfold zlen; cbn; lia|]; split; [|done]).
    - rewrite Hc, He. split_and!; [done..|]. exists dst. split; [apply put_nothing|done].
    - right; right. rewrite Hc, He. split_and!; [done..|apply put_nothing]. }
  unfold metered at 1. destruct m as [a log]. cbn [fst snd]. destruct (charge (zlen p) a) as [[[]|ce] a1].
  2: { intros [= <- <- <-]. exists []. split_and!; [apply prefix_nil|rewrite (charged_snoc a); unfold zlen; cbn; lia| |done].
       left. split; [apply put_nothing|]. exists (zlen p), ce. apply last_snoc. }
  pose proof (writeAll_put p dst ltac:(by eapply fits_le)) as Hput. pose proof (charged_snoc a log (zlen p) (Ok tt) a1) as Hm1. cbn beta iota in Hm1.
  destruct (writeAll p dst) as [[we|] d1] eqn:Ew.
  { intros [= <- <- <-]. exists p. split_and!; [done|done| |done]. right; left. exists [], p, dst, we. split_and!; [done|apply put_nothing|done|done]. }
  destruct e as [e|].
  - destruct Hlaw as (Hc & He & _). unfold relay_result. case_bool_decide; intros [= <- <- <-]; exists p; (split; [done|]); (split; [done|]); (split; [|done]).
    + rewrite Hc, He. split_and!; [done..|]. by exists d1.
    + right; right. by rewrite Hc, He.
  - destruct Hlaw as (_ & Hs1 & Hc & He). intros Hrun. apply IH in Hrun as (q & Hq & Hch & Hres & Hstop); [|done|by eapply put_fits].
    exists (p ++ q). split_and!.
    + rewrite Hc. by apply prefix_app.
    + rewrite Hch, Hm1. unfold zlen. rewrite length_app. lia.
    + by eapply relay_app.
    + rewrite Hc, length_app. intros Hl. apply Hstop. lia.
Qed.

(** When the writer stays well, no write fails. *)
Lemma copyOne_writes (well : W -> Prop) fuel src dst m r dst' m' : (forall p d, well d -> exists d', writeAll p d = (None, d') /\ well d') -> well dst ->
  Forall (fun c => c.2 = Ok tt) m'.2 -> ending src = EOF -> sound src -> (length (content src) < fuel)%nat ->
  copyOne metered closeWrite fuel src dst m = (r, dst', m') -> r = HalfClosed.
Proof.
  intros Hwell. revert src dst m. induction fuel as [|fuel IH]; intros src dst m Hw Hm Hend Hs Hfuel; [lia|]. cbn [copyOne].
  pose proof (read_law relayBuffer src Hs ltac:(unfold relayBuffer; lia)) as Hlaw. destruct (io_Read relayBuffer src) as [[p e] src1]. destruct Hlaw as [Hlen Hlaw].
  assert (Hgo : forall dst m, well dst -> match e with None => copyOne metered closeWrite fuel src1 dst m
    | Some e => if bool_decide (e = EOF) then (HalfClosed, closeWrite dst, m) else (Aborted, dst, m) end = (r, dst', m') -> r = HalfClosed).
  { intros d m1 Hd. destruct e as [e|]; [destruct Hlaw as (_ & <- & _); rewrite Hend; by intros [= <- _ _]|].
    destruct Hlaw as (Hp & Hs1 & Hc & He). apply IH; [done|done|congruence|done|]. rewrite Hc, length_app in Hfuel. destruct p; [done|]. cbn in Hfuel. lia. }
  destruct (length p =? 0)%nat; [by apply Hgo|]. unfold metered at 1. destruct m as [a log]. cbn [fst snd]. destruct (charge (zlen p) a) as [[[]|ce] a1].
  2: { intros [= _ _ <-]. apply Forall_app in Hm as [_ Hm]. by inv Hm. }
  destruct (Hwell p dst Hw) as (d1 & -> & Hw1). by apply Hgo.
Qed.

(** C34: a relay sends only what was charged before, and stops only for a
    reason.  The bytes charged for are a beginning [q] of what the source had,
    and the destination has got [q], or a beginning of it when a write failed.
    The relay ends in one of two ways: with the half close, and then all the
    source had was charged and sent and the source ended regularly; or with an
    abort, and then the last charge was refused, or a write failed, or the
    source ended with an error after all it had was charged and sent
    ([relay_result]).  It does end when it is given one round more than there
    are bytes.  So when no charge is refused, the destination is in a state
    from which no write fails and the source ends regularly, everything is
    charged, sent and half closed. *)
Theorem relay_prepaid fuel src dst a r dst' m' : sound src -> fits dst relayBuffer ->
  copyOne metered closeWrite fuel src dst (a, []) = (r, dst', m') ->
  (exists q, q `prefix_of` content src /\ charged m' = zlen q /\ relay_result r src dst dst' m' q) /\
  ((length (content src) < fuel)%nat -> r <> Copying) /\
  (forall well : W -> Prop, (forall p d, well d -> exists d', writeAll p d = (None, d') /\ well d') -> well dst ->
   Forall (fun c => c.2 = Ok tt) m'.2 -> ending src = EOF -> (length (content src) < fuel)%nat ->
   r = HalfClosed /\ charged m' = zlen (content src) /\ exists d, put (content src) None dst d /\ dst' = closeWrite d).
Proof.
  intros Hs Hf Hrun. pose proof Hrun as Hlaw. apply copyOne_law in Hlaw as (q & Hq & Hch & Hres & Hstop); [|done..]. split; [by exists q|]. split; [done|].
  intros well Hwell Hdst Hm Hend Hfuel. assert (r = HalfClosed) as -> by by eapply copyOne_writes. by destruct Hres as (-> & _ & Hd).
Qed.
End Relays.

(** ** The theorems on concrete streams *)

Definition padded : option Obfuscator := Some (RandomPaddingObfs 1 3).
Definition paddings : list random := [Some [7]; Some [8; 9]; Some [1; 2; 3]; Some [4]].
(** Each write is taken in two pieces, as far as the script goes. *)
Definition slow : list (nat * option error) := [(3%nat, None); (20%nat, None); (1%nat, None)].
Definition words : list (list Z) := [[104; 101; 108]; [108; 111]].
Definition spoken : Session (connection outbound) := (write_each words (speaker padded paddings slow)).2.
Definition closed : Session (connection outbound) := (CloseWrite spoken).2.
Definition arrived (w : list Z) : list (list Z) := [take 1 w; take 9 (drop 1 w); drop 10 w].

Lemma stream_delivered_witness :
  @drain _ (Session_Reader 100) [2; 1; 4; 1; 1; 9]%nat (receiver padded (arrived (wire (s_conn closed))) (ErrMsg "reset")) = ([104; 101; 108; 108; 111], Some EOF).
Proof.
  apply (stream_delivered padded paddings slow words spoken closed).
  - repeat constructor; vm_compute; discriminate.
  - evaluates.
  - evaluates.
  - repeat constructor; vm_compute; discriminate.
  - evaluates.
  - vm_compute. lia.
  - repeat constructor.
  - vm_compute. lia.
Defined.

(** The third write of the carrier fails; of its bytes, all but the last
    three arrive. *)
Definition cut_off : option error * Session (connection outbound) := write_each words (speaker padded paddings [(30%nat, None); (4%nat, Some (ErrMsg "reset"))]).
Lemma stream_prefix_witness :
  (@drain _ (Session_Reader 100) [2; 2; 2; 2]%nat (receiver padded [take 15 (wire (s_conn cut_off.2))] EOF)).1 `prefix_of` [104; 101; 108; 108; 111].
Proof.
  apply (stream_prefix padded paddings [(30%nat, None); (4%nat, Some (ErrMsg "reset"))] words cut_off.1 cut_off.2).
  - repeat constructor; vm_compute; discriminate.
  - evaluates.
  - repeat constructor; vm_compute; discriminate.
  - exists (drop 15 (wire (s_conn cut_off.2))). evaluates.
  - vm_compute. lia.
  - repeat constructor.
Defined.

Definition packed : Session (connection outbound) := (write_packets ([] :: words) (speaker padded paddings [])).2.
Lemma packets_delivered_witness :
  read_packets 5 (receiver padded (arrived (wire (s_conn (CloseWrite packed).2))) EOF) = ([[]; [104; 101; 108]; [108; 111]], Some EOF).
Proof.
  apply (packets_delivered padded paddings [] ([] :: words) packed (CloseWrite packed).2).
  - repeat constructor; vm_compute; discriminate.
  - evaluates.
  - evaluates.
  - repeat constructor; vm_compute; discriminate.
  - evaluates.
  - cbn. lia.
Defined.

(** A relay to a connection that takes all writes, with a budget of six bytes,
    so that the second chunk is refused, and with a budget of seven. *)
Definition prepaid (n : Z) (left : Z) : res unit * Z := if n <=? left then (Ok tt, left - n) else (Err (ErrMsg "no credit"), left).
Definition chunked : inbound := {| in_chunks := [[1; 2; 3; 4]; [5; 6; 7]]; in_end := EOF |}.
Definition target (sent : list Z) : outbound := {| out_sent := sent; out_script := [] |}.
Definition relay_run (budget : Z) : relayed * outbound * (Z * list (Z * res unit)) := copyOne (metered prepaid) (fun o => o) 9 chunked (target []) (budget, []).
Lemma target_well p d : out_script d = [] -> exists d', writeAll p d = (None, d') /\ out_script d' = [].
Proof.
  destruct d as [sent script]. cbn. intros ->. unfold writeAll. destruct p as [|x p]; [by eexists|].
  cbn [length writeAll_loop]. unfold io_Write, outbound_Writer. cbn [out_script out_sent].
  assert (Hn : (zlen (x :: p) <=? 0) || (zlen (x :: p) <? zlen (x :: p)) = false) by (unfold zlen; cbn [List.length]; apply orb_false_iff; split; [apply Z.leb_gt|apply Z.ltb_ge]; lia).
  rewrite Hn. unfold zlen. rewrite Nat2Z.id, drop_all. eexists. split; [by destruct (length p)|done].
Qed.
Lemma relay_prepaid_witness :
  (exists q, q `prefix_of` [1; 2; 3; 4; 5; 6; 7] /\ zlen q = 4 /\ relay_result (fun o : outbound => o) Aborted chunked (target []) (relay_run 6).1.2 (relay_run 6).2 q) /\
  (exists d, put [1; 2; 3; 4; 5; 6; 7] None (target []) d /\ (relay_run 7).1.2 = d).
Proof.
  split.
  - destruct (relay_prepaid prepaid (fun o : outbound => o) 9 chunked (target []) 6 Aborted (relay_run 6).1.2 (relay_run 6).2) as [(q & Hq & Hch & Hres) _].
    + repeat constructor; discriminate.
    + done.
    + evaluates.
    + exists q. split; [exact Hq|]. split; [rewrite <- Hch; evaluates|exact Hres].
  - destruct (relay_prepaid prepaid (fun o : outbound => o) 9 chunked (target []) 7 HalfClosed (relay_run 7).1.2 (relay_run 7).2) as (_ & _ & Hall).
    + repeat constructor; discriminate.
    + done.
    + evaluates.
    + destruct (Hall (fun d => out_script d = []) target_well eq_refl) as (_ & _ & d & Hd & He); [repeat constructor|done|vm_compute; lia|by exists d].
Defined.
