(* ===== verification/Failover.v ===== *)
(** * Choosing a backend (internal/agent/failover.go)

    A rule may have several routes.  A dial takes the next one of a smooth
    weighted rotation that is not cooling down, gives one dial at a time the
    task of trying a route again after its cool-down, and moves on to the next
    route when one fails.

    Weights and counters stay small (at most 16 routes of weight 100), so an
    [int] is a [Z] here.  What other goroutines do to the shared table between
    two steps of a dial is a function given with each attempt. *)

From S2P Require Import Prelude Tx Calendar.
From stdpp Require Import base gmap strings list.
From Stdlib Require Import Ascii String.
Local Open Scope string_scope.
Local Open Scope Z_scope.
Local Abbreviation length := List.length.

Record FailoverPolicy := { MaxFail : Z; CooldownSec : Z }.
Record EffectivePolicy := { Failover : option FailoverPolicy; Hash : string }.
Record Backend := { B_Target : string; B_Weight : Z; B_Disabled : bool }.
(** [V_Path] is the transport and tunnel, which the selection only passes on. *)
Record Candidate := {
  V_ID : string; V_ExitGroupID : string; V_Target : string; V_Path : string; V_Weight : Z;
  V_Policy : option EffectivePolicy; V_Multiplier : string
}.
Record Route := {
  O_ID : string; O_ExitGroupID : string; O_Target : string; O_Path : string; O_Backends : list Backend; O_Candidates : list Candidate;
  O_Policy : option EffectivePolicy; O_Multiplier : string
}.
Record backendState := { b_current : Z; b_failures : Z; b_until : Z; b_probing : bool }.
Abbreviation backends := (gmap string backendState).
Definition new_backend : backendState := {| b_current := 0; b_failures := 0; b_until := zeroTime; b_probing := false |}.

Definition backendKey (v : Route) (target : string) : string :=
  O_ID v ++ "|" ++ (match O_Policy v with Some p => Hash p | None => "" end) ++ "|" ++ target.

Definition candidate_of (v : Route) (id : string) (weight : Z) : Candidate :=
  {| V_ID := id; V_ExitGroupID := ""; V_Target := id; V_Path := O_Path v; V_Weight := weight; V_Policy := O_Policy v; V_Multiplier := O_Multiplier v |}.
Definition candidates (v : Route) : list Candidate :=
  match O_Candidates v with
  | [] => match O_Backends v with
          | [] => [candidate_of v (O_Target v) 1]
          | bs => flat_map (fun b => if B_Disabled b then [] else [candidate_of v (B_Target b) (B_Weight b)]) bs
          end
  | cs => cs
  end.

(** What the agent checks of the routes of a rule before it serves it
    (runtime.go [validate], contract/advanced.go [ValidateAdvanced]). *)
Fixpoint valid_candidates (v : Route) (seen : list string) (cs : list Candidate) : bool :=
  match cs with
  | [] => true
  | c :: cs =>
      negb (String.eqb (V_ID c) "") && negb (bool_decide (V_ID c ∈ seen)) && (1 <=? V_Weight c) && (V_Weight c <=? 100)
      && String.eqb (V_ExitGroupID c) (O_ExitGroupID v) && String.eqb (V_Multiplier c) (O_Multiplier v)
      && valid_candidates v (V_ID c :: seen) cs
  end.
Fixpoint valid_backends (seen : list string) (bs : list Backend) : bool :=
  match bs with
  | [] => true
  | b :: bs => (1 <=? B_Weight b) && (B_Weight b <=? 100) && negb (bool_decide (B_Target b ∈ seen)) && valid_backends (B_Target b :: seen) bs
  end.
Definition valid_routes (v : Route) : bool :=
  (length (O_Candidates v) <=? 16)%nat && valid_candidates v [] (O_Candidates v)
  && (length (O_Backends v) <=? 16)%nat && valid_backends [] (O_Backends v).

(** ** Selection *)

Definition share (c : Candidate) : Z := Z.max 1 (V_Weight c).
Definition with_current (n : Z) (s : backendState) : backendState :=
  {| b_current := n; b_failures := b_failures s; b_until := b_until s; b_probing := b_probing s |}.
Definition with_probing (p : bool) (s : backendState) : backendState :=
  {| b_current := b_current s; b_failures := b_failures s; b_until := b_until s; b_probing := p |}.
Definition state_at (bk : backends) (k : string) : backendState := default new_backend (bk !! k).
Definition rests (now : Z) (s : backendState) : bool := (now <? b_until s) || b_probing s.

(** The loop: every route that is available gains its weight, and the first
    one with the most wins; [best] is its key and itself. *)
Fixpoint select_loop (v : Route) (tried : list string) (now : Z) (cs : list Candidate) (bk : backends) (total : Z)
    (best : option (string * Candidate)) : backends * Z * option (string * Candidate) :=
  match cs with
  | [] => (bk, total, best)
  | c :: cs =>
      if bool_decide (V_ID c ∈ tried) then select_loop v tried now cs bk total best else
      let k := backendKey v (V_ID c) in
      let s := state_at bk k in
      if rests now s then select_loop v tried now cs (<[k := s]> bk) total best else
      let s := with_current (b_current s + share c) s in
      let bk := <[k := s]> bk in
      let best := match best with
                  | None => Some (k, c)
                  | Some (kb, cb) => if b_current (state_at bk kb) <? b_current s then Some (k, c) else Some (kb, cb)
                  end in
      select_loop v tried now cs bk (total + share c) best
  end.
Definition selectCandidate (v : Route) (tried : list string) (now : Z) (bk : backends) : option Candidate * backends :=
  match select_loop v tried now (candidates v) bk 0 None with
  | (bk, _, None) => (None, bk)
  | (bk, total, Some (k, c)) =>
      let s := state_at bk k in
      let s := with_current (b_current s - total) s in
      let s := if (0 <? b_failures s) && negb (b_until s =? zeroTime) then with_probing true s else s in
      (Some c, <[k := s]> bk)
  end.

Definition failover_of (v : Route) : option FailoverPolicy := match O_Policy v with Some p => Failover p | None => None end.
Definition maxFail (v : Route) : Z := match failover_of v with Some f => Z.max 1 (MaxFail f) | None => 1 end.
Definition cooldown (v : Route) : Z := match failover_of v with Some f => CooldownSec f | None => 10 end.
Definition markCandidate (v : Route) (id : string) (failed : bool) (now : Z) (bk : backends) : backends :=
  let k := backendKey v id in
  match bk !! k with
  | None => bk
  | Some s =>
      if negb failed then <[k := {| b_current := b_current s; b_failures := 0; b_until := zeroTime; b_probing := false |}]> bk else
      let failures := b_failures s + 1 in
      let until := if maxFail v <=? failures then now + Z.max 1 (cooldown v) * second else b_until s in
      <[k := {| b_current := b_current s; b_failures := failures; b_until := until; b_probing := false |}]> bk
  end.

(** ** Dialling *)

(** How an attempt ends: the policy check refuses it, a connection, a failure,
    or the context is over. *)
Inductive ended := CheckFails (e : error) | Dials | DialFails | ContextOver (e : error).
Record attempt := { a_selected : Z; a_between : backends -> backends; a_ended : ended; a_marked : Z }.
Inductive dialled := Connected (c : Candidate) | Refused (e : error) | Panicked.

(** [b.backends[key].probing = false]: a key that is not in the table is a
    nil pointer. *)
Definition stop_probing (k : string) (bk : backends) : option backends :=
  (fun s => <[k := with_probing false s]> bk) <$> bk !! k.
Definition given_up (k : string) (e : error) (bk : backends) : dialled * backends :=
  match stop_probing k bk with Some bk => (Refused e, bk) | None => (Panicked, bk) end.

Fixpoint dial_loop (fuel : nat) (v : Route) (oracle : nat -> attempt) (tried : list string) (bk : backends) : dialled * backends :=
  match fuel with
  | O => (Refused (ErrMsg "all_candidates_unavailable"), bk)
  | S fuel =>
      let a := oracle (length tried) in
      match selectCandidate v tried (a_selected a) bk with
      | (None, bk) => (Refused (ErrMsg "all_candidates_unavailable"), bk)
      | (Some c, bk) =>
          let k := backendKey v (V_ID c) in
          if negb (String.eqb (V_Multiplier c) (O_Multiplier v))
             || (negb (String.eqb (V_ExitGroupID c) "") && negb (String.eqb (V_ExitGroupID c) (O_ExitGroupID v)))
          then (Refused (ErrMsg "candidate authorization/billing mismatch"), bk) else
          let bk := a_between a bk in
          match a_ended a with
          | CheckFails e => given_up k e bk
          | Dials => (Connected c, markCandidate v (V_ID c) false (a_marked a) bk)
          | ContextOver e => given_up k e bk
          | DialFails => dial_loop fuel v oracle (V_ID c :: tried) (markCandidate v (V_ID c) true (a_marked a) bk)
          end
      end
  end.
(** [for len(tried) < len(candidates(v))]: each round adds a new route. *)
Definition dialCandidates (v : Route) (oracle : nat -> attempt) (bk : backends) : dialled * backends :=
  dial_loop (length (candidates v)) v oracle [] bk.
