(* ===== verification/FailoverGuarantees.v ===== *)
(** * What the choice of a backend guarantees *)

From S2P Require Import Prelude Tx GoStrings Calendar Failover.
From stdpp Require Import base gmap strings list.
From Stdlib Require Import Ascii String.
Local Open Scope string_scope.
Local Open Scope Z_scope.
Local Abbreviation length := List.length.

Lemma state_at_insert bk k s k' : state_at (<[k := s]> bk) k' = if decide (k' = k) then s else state_at bk k'.
Proof. unfold state_at. destruct (decide (k' = k)) as [->|]; [by rewrite lookup_insert_eq|by rewrite lookup_insert_ne]. Qed.

Lemma weight_pos c : 1 <= share c.
Proof. unfold share. lia. Qed.

(** ** One selection *)

Section Select.
Context (v : Route) (tried : list string) (now : Z).

Definition active (bk : backends) (c : Candidate) : bool :=
  negb (bool_decide (V_ID c ∈ tried)) && negb (rests now (state_at bk (backendKey v (V_ID c)))).
Local Abbreviation key c := (backendKey v (V_ID c)).
Local Abbreviation cur bk c := (b_current (state_at bk (key c))).
(** The same but for the counters. *)
Definition alike (s s' : backendState) : Prop := b_failures s' = b_failures s /\ b_until s' = b_until s /\ b_probing s' = b_probing s.

Lemma active_id bk c d : V_ID c = V_ID d -> active bk c = active bk d.
Proof. intros He. unfold active. by rewrite He. Qed.
Lemma backendKey_inj a b : backendKey v a = backendKey v b -> a = b.
Proof. unfold backendKey. intros H%string_app_inv_head%string_app_inv_head%string_app_inv_head%string_app_inv_head. done. Qed.

Record selects (cs : list Candidate) (bk bk' : backends) (total total' : Z) (best best' : option (string * Candidate)) : Prop := {
  sl_gain c : c ∈ cs -> active bk c = true -> cur bk' c = cur bk c + share c;
  sl_same k : (forall c, c ∈ cs -> active bk c = true -> k <> key c) -> state_at bk' k = state_at bk k;
  sl_alike k : alike (state_at bk k) (state_at bk' k);
  sl_total : total' = total + sum_over (fun c => if active bk c then share c else 0) cs;
  sl_from : best' = best \/ exists c, c ∈ cs /\ active bk c = true /\ best' = Some (key c, c);
  sl_best kb cb : best' = Some (kb, cb) ->
    (forall c, c ∈ cs -> active bk c = true -> cur bk' c <= b_current (state_at bk' kb)) /\
    (forall k c, best = Some (k, c) -> b_current (state_at bk k) <= b_current (state_at bk' kb));
  sl_some : best' = None -> best = None /\ forall c, c ∈ cs -> active bk c = false
}.

Lemma selects_nil bk total best : selects [] bk bk total total best best.
Proof.
  split; [set_solver|done|done|cbn; lia|by left| |by split; [|set_solver]]. intros kb cb ->. split; [set_solver|]. by intros k c [= -> ->].
Qed.
Lemma selects_skip c cs bk bk1 bk' total total' best best' : (forall k, state_at bk1 k = state_at bk k) -> active bk c = false ->
  selects cs bk1 bk' total total' best best' -> selects (c :: cs) bk bk' total total' best best'.
Proof.
  intros Hbk Hac []. assert (Hact : forall d, active bk1 d = active bk d) by (intros d; unfold active; by rewrite Hbk). split.
  - intros d [->|Hd]%elem_of_cons Ha; [congruence|]. rewrite <- Hbk. apply sl_gain0; [done|]. by rewrite Hact.
  - intros k Hk. rewrite sl_same0; [done|]. intros d Hd Ha. rewrite Hact in Ha. apply Hk; [by right|done].
  - intros k. rewrite <- Hbk. done.
  - cbn. rewrite Hac, sl_total0, (sum_over_ext _ (fun c => if active bk c then share c else 0)); [lia|]. intros d _. by rewrite Hact.
  - destruct sl_from0 as [?|(d & Hd & Ha & ?)]; [by left|right]. exists d. rewrite Hact in Ha. split; [by right|done].
  - intros kb cb Hbest. destruct (sl_best0 _ _ Hbest) as [H1 H2]. split.
    + intros d [->|Hd]%elem_of_cons Ha; [congruence|]. apply H1; [done|]. by rewrite Hact.
    + intros k d Hkd. rewrite <- Hbk. by eapply H2.
  - intros Hn. destruct (sl_some0 Hn) as [H1 H2]. split; [done|]. intros d [->|Hd]%elem_of_cons; [done|]. rewrite <- Hact. by apply H2.
Qed.

(** The route gains its weight and is compared with the best one so far. *)
Definition gained (c : Candidate) (bk : backends) : backends :=
  <[key c := with_current (cur bk c + share c) (state_at bk (key c))]> bk.
Definition better (c : Candidate) (bk : backends) (best : option (string * Candidate)) : option (string * Candidate) :=
  match best with
  | None => Some (key c, c)
  | Some (kb, cb) => if b_current (state_at (gained c bk) kb) <? cur (gained c bk) c then Some (key c, c) else Some (kb, cb)
  end.
Lemma gained_at c bk k : state_at (gained c bk) k = if decide (k = key c) then with_current (cur bk c + share c) (state_at bk (key c)) else state_at bk k.
Proof. apply state_at_insert. Qed.
Lemma gained_alike c bk k : alike (state_at bk k) (state_at (gained c bk) k).
Proof. rewrite gained_at. by destruct (decide (k = key c)) as [->|]. Qed.
Lemma gained_active c d bk : active (gained c bk) d = active bk d.
Proof. unfold active, rests. by destruct (gained_alike c bk (key d)) as (_ & -> & ->). Qed.

Lemma selects_take c cs bk bk' total total' best best' : active bk c = true -> (forall d, d ∈ cs -> key d <> key c) ->
  (forall k d, best = Some (k, d) -> k <> key c) ->
  selects cs (gained c bk) bk' (total + share c) total' (better c bk best) best' -> selects (c :: cs) bk bk' total total' best best'.
Proof.
  intros Hac Hne Hb []. assert (Hcur : cur bk' c = cur bk c + share c).
  { rewrite sl_same0; [by rewrite gained_at, decide_True|]. intros d Hd _ He. by apply (Hne d Hd). }
  assert (Hbest1 : exists k d, better c bk best = Some (k, d) /\ cur bk c + share c <= b_current (state_at (gained c bk) k) /\
    (forall k0 d0, best = Some (k0, d0) -> b_current (state_at bk k0) <= b_current (state_at (gained c bk) k)) /\ (better c bk best = best \/ (k, d) = (key c, c))).
  { unfold better. destruct best as [[kb cb]|].
    - rewrite !gained_at, (decide_True _ _ (eq_refl (key c))), (decide_False (P := kb = key c)) by (by eapply Hb). cbn.
      destruct (Z.ltb_spec (b_current (state_at bk kb)) (cur bk c + share c)); [exists (key c), c|exists kb, cb].
      + rewrite gained_at, decide_True by done. cbn. split_and!; [done|lia| |by right]. intros k0 d0 [= <- <-]. lia.
      + rewrite gained_at, decide_False by (by eapply Hb). split_and!; [done|lia| |by left]. intros k0 d0 [= <- <-]. lia.
    - exists (key c), c. rewrite gained_at, decide_True by done. cbn. split_and!; [done|lia|done|by right]. }
  destruct Hbest1 as (k1 & d1 & Hb1 & Hge & Hold & Hor). split.
  - intros d [->|Hd]%elem_of_cons Ha; [done|]. rewrite sl_gain0 by (rewrite ?gained_active; done). rewrite gained_at, decide_False by (by apply Hne). done.
  - intros k Hk. rewrite sl_same0, gained_at, decide_False; [done|by apply Hk; [left|]|].
    intros d Hd Ha. rewrite gained_active in Ha. apply Hk; [by right|done].
  - intros k. destruct (gained_alike c bk k) as (A1 & A2 & A3), (sl_alike0 k) as (B1 & B2 & B3). split_and!; congruence.
  - cbn. rewrite Hac, sl_total0, (sum_over_ext _ (fun c => if active bk c then share c else 0)); [lia|]. intros d _. by rewrite gained_active.
  - destruct sl_from0 as [->|(d & Hd & Ha & ?)].
    + destruct Hor as [?|[= -> ->]]; [by left|]. right. exists c. split; [by left|]. split; [done|]. by rewrite Hb1.
    + right. exists d. rewrite gained_active in Ha. split; [by right|done].
  - intros kb cb Hbest. destruct (sl_best0 _ _ Hbest) as [H1 H2]. specialize (H2 k1 d1 Hb1). split.
    + intros d [->|Hd]%elem_of_cons Ha; [lia|]. apply H1; [done|]. by rewrite gained_active.
    + intros k d Hkd. specialize (Hold k d Hkd). lia.
  - intros Hn. destruct (sl_some0 Hn) as [H1 _]. congruence.
Qed.

Lemma select_loop_spec cs bk total best : NoDup (V_ID <$> cs) -> (forall k c, best = Some (k, c) -> forall d, d ∈ cs -> k <> key d) ->
  let '(bk', total', best') := select_loop v tried now cs bk total best in selects cs bk bk' total total' best best'.
Proof.
  revert bk total best. induction cs as [|c cs IH]; intros bk total best Hnd Hb; cbn [select_loop]; [apply selects_nil|].
  rewrite fmap_cons in Hnd. apply NoDup_cons in Hnd as [Hc Hnd].
  assert (Hne : forall d, d ∈ cs -> key d <> key c).
  { intros d Hd He%backendKey_inj. apply Hc. rewrite <- He. by apply list_elem_of_fmap_2. }
  assert (Hb' : forall k d, best = Some (k, d) -> forall e, e ∈ cs -> k <> key e) by (intros k d Hd e He; eapply Hb; [exact Hd|by right]).
  destruct (active bk c) eqn:Hac; pose proof Hac as Hac'; unfold active in Hac'.
  - apply andb_prop in Hac' as [Ht Hr]. apply negb_true_iff in Ht, Hr. rewrite Ht, Hr. fold (gained c bk).
    specialize (IH (gained c bk) (total + share c) (better c bk best) Hnd). unfold better in IH.
    rewrite gained_at, decide_True in IH by done. cbn [b_current with_current] in IH |- *.
    destruct (select_loop v tried now cs (gained c bk) _ _) as [[bk' total'] best'] eqn:E. apply selects_take; [done|done|intros k d Hd; eapply Hb; [exact Hd|by left]|].
    unfold better. rewrite gained_at, decide_True by done. apply IH. intros k d. destruct best as [[kb cb]|].
    + destruct (_ <? _); [intros [= <- <-] e He Hk; by apply (Hne e He)|intros [= <- <-]; by eapply Hb'].
    + intros [= <- <-] e He Hk. by apply (Hne e He).
  - specialize (IH bk total best Hnd Hb') as IH1. pose proof (fun bk1 => selects_skip c cs bk bk1) as Hskip.
    destruct (bool_decide (V_ID c ∈ tried)); cbn [negb andb] in Hac'.
    { destruct (select_loop v tried now cs bk total best) as [[bk' total'] best']. by eapply Hskip. }
    destruct (rests now (state_at bk (key c))); [|done]. set (bk1 := <[_ := _]> bk). specialize (IH bk1 total best Hnd Hb').
    destruct (select_loop v tried now cs bk1 total best) as [[bk' total'] best']. eapply Hskip; [|done|exact IH].
    intros k. unfold bk1. rewrite state_at_insert. by destruct (decide _) as [->|].
Qed.
End Select.

(** The available routes' weights, in all. *)
Definition available (v : Route) (tried : list string) (now : Z) (bk : backends) : Z :=
  sum_over (fun c => if active v tried now bk c then share c else 0) (candidates v).

Record selected (v : Route) (tried : list string) (now : Z) (bk bk' : backends) (c : Candidate) : Prop := {
  se_in : c ∈ candidates v;
  se_active : active v tried now bk c = true;
  se_most d : d ∈ candidates v -> active v tried now bk d = true ->
    b_current (state_at bk (backendKey v (V_ID d))) + share d <= b_current (state_at bk (backendKey v (V_ID c))) + share c;
  se_current d : d ∈ candidates v -> b_current (state_at bk' (backendKey v (V_ID d))) =
    b_current (state_at bk (backendKey v (V_ID d))) + (if active v tried now bk d then share d else 0)
    - (if decide (V_ID d = V_ID c) then available v tried now bk else 0);
  se_failures k : b_failures (state_at bk' k) = b_failures (state_at bk k);
  se_until k : b_until (state_at bk' k) = b_until (state_at bk k);
  se_probing k : b_probing (state_at bk' k) =
    if bool_decide (k = backendKey v (V_ID c)) && (0 <? b_failures (state_at bk k)) && negb (b_until (state_at bk k) =? zeroTime)
    then true else b_probing (state_at bk k);
  se_key : is_Some (bk' !! backendKey v (V_ID c))
}.

Lemma selectCandidate_spec v tried now bk : NoDup (V_ID <$> candidates v) ->
  match selectCandidate v tried now bk with
  | (None, bk') => (forall c, c ∈ candidates v -> active v tried now bk c = false) /\ forall k, state_at bk' k = state_at bk k
  | (Some c, bk') => selected v tried now bk bk' c
  end.
Proof.
  intros Hnd. unfold selectCandidate. pose proof (select_loop_spec v tried now (candidates v) bk 0 None Hnd ltac:(done)) as Hl.
  destruct (select_loop v tried now (candidates v) bk 0 None) as [[bk1 total] [[k c]|]]; destruct Hl as [Hgain Hsame Halike Htotal Hfrom Hbest Hnone].
  2: { destruct (Hnone eq_refl) as [_ Hall]. split; [done|]. intros k. apply Hsame. intros c Hc Ha. by rewrite Hall in Ha. }
  destruct Hfrom as [|(c' & Hc & Ha & [= -> ->])]; [done|]. cbn in Htotal. fold (available v tried now bk) in Htotal.
  destruct (Hbest _ _ eq_refl) as [Hmax _]. set (s := state_at bk1 (backendKey v (V_ID c'))). set (k := backendKey v (V_ID c')).
  destruct (Halike k) as (A1 & A2 & A3). fold k in s. fold s in A1, A2, A3. cbn [b_failures b_until with_current].
  set (s' := if (0 <? b_failures s) && _ then _ else _).
  assert (Hs' : b_current s' = b_current s - total /\ b_failures s' = b_failures s /\ b_until s' = b_until s /\
    b_probing s' = if (0 <? b_failures s) && negb (b_until s =? zeroTime) then true else b_probing s) by (unfold s'; by destruct (_ && _)).
  destruct Hs' as (S1 & S2 & S3 & S4). split; [done|done|..].
  - intros d Hd Had. rewrite <- !Hgain by done. by apply Hmax.
  - intros d Hd. rewrite state_at_insert. destruct (decide (V_ID d = V_ID c')) as [He|He].
    + assert (d = c') as ->.
      { apply list_elem_of_lookup in Hd as [i Hi], Hc as [j Hj]. assert (i = j) as ->; [|congruence].
        eapply NoDup_lookup; [exact Hnd|by rewrite list_lookup_fmap, Hi|by rewrite list_lookup_fmap, Hj, He]. }
      assert (Hs : b_current s = b_current (state_at bk k) + share c') by (by apply Hgain). rewrite decide_True by done. fold k. rewrite Ha, S1. lia.
    + rewrite decide_False by (by intros Hk%backendKey_inj). destruct (active v tried now bk d) eqn:Had; [rewrite Hgain by done; lia|].
      rewrite Hsame; [lia|]. intros e _ Hae Hk%backendKey_inj. by rewrite (active_id _ _ _ _ _ _ Hk), Hae in Had.
  - intros k0. rewrite state_at_insert. destruct (decide (k0 = k)) as [->|]; [congruence|apply Halike].
  - intros k0. rewrite state_at_insert. destruct (decide (k0 = k)) as [->|]; [congruence|apply Halike].
  - intros k0. rewrite state_at_insert. case_bool_decide as Hk0; [subst k0|].
    + rewrite decide_True by done. rewrite S4, A1, A2, A3. done.
    + rewrite decide_False by done. cbn [andb]. apply Halike.
  - rewrite lookup_insert_eq. eauto.
Qed.

(** ** Checked routes *)

Lemma valid_candidates_ids v seen cs : valid_candidates v seen cs = true -> NoDup (V_ID <$> cs) /\ forall c, c ∈ cs -> V_ID c ∉ seen.
Proof.
  revert seen. induction cs as [|c cs IH]; intros seen; cbn; [split; [constructor|set_solver]|]. intros H. repeat (apply andb_prop in H as [H ?]).
  bool_to_prop. destruct (IH _ ltac:(eassumption)) as [Hnd Hs]. split.
  - apply NoDup_cons. split; [|done]. intros (d & He & Hd)%list_elem_of_fmap. apply (Hs d Hd). rewrite <- He. by left.
  - intros d [->|Hd]%elem_of_cons; [done|]. specialize (Hs d Hd). set_solver.
Qed.
Lemma valid_candidates_scope v seen cs c : valid_candidates v seen cs = true -> c ∈ cs -> V_Multiplier c = O_Multiplier v /\ V_ExitGroupID c = O_ExitGroupID v.
Proof.
  revert seen. induction cs as [|d cs IH]; intros seen; cbn; [set_solver|]. intros H. repeat (apply andb_prop in H as [H ?]). bool_to_prop.
  intros [->|Hc]%elem_of_cons; [done|]. by eapply IH.
Qed.
Lemma valid_backends_targets v seen bs : valid_backends seen bs = true ->
  let cs := flat_map (fun b => if B_Disabled b then [] else [candidate_of v (B_Target b) (B_Weight b)]) bs in
  NoDup (V_ID <$> cs) /\ forall c, c ∈ cs -> V_ID c ∉ seen.
Proof.
  revert seen. induction bs as [|b bs IH]; intros seen; cbn; [split; [constructor|set_solver]|]. intros H. repeat (apply andb_prop in H as [H ?]).
  bool_to_prop. destruct (IH _ ltac:(eassumption)) as [Hnd Hs]. cbn in *. destruct (B_Disabled b); cbn.
  { split; [done|]. intros c Hc. specialize (Hs c Hc). set_solver. }
  split.
  - apply NoDup_cons. split; [|done]. intros (d & He & Hd)%list_elem_of_fmap. apply (Hs d Hd). rewrite <- He. by left.
  - intros d [->|Hd]%elem_of_cons; [done|]. specialize (Hs d Hd). set_solver.
Qed.
Lemma valid_routes_ids v : valid_routes v = true -> NoDup (V_ID <$> candidates v).
Proof.
  unfold valid_routes, candidates. intros H. repeat (apply andb_prop in H as [H ?]). destruct (O_Candidates v) as [|c cs] eqn:E.
  - destruct (O_Backends v) as [|b bs] eqn:Eb; [apply NoDup_singleton|]. by eapply valid_backends_targets.
  - by eapply valid_candidates_ids.
Qed.
Lemma valid_routes_scope v c : valid_routes v = true -> c ∈ candidates v -> V_Multiplier c = O_Multiplier v /\ (V_ExitGroupID c = "" \/ V_ExitGroupID c = O_ExitGroupID v).
Proof.
  unfold valid_routes, candidates. intros H. repeat (apply andb_prop in H as [H ?]). destruct (O_Candidates v) as [|d cs] eqn:E.
  - destruct (O_Backends v) as [|b bs]; [intros ->%list_elem_of_singleton; cbn; auto|]. intros (b' & _ & Hb)%list_elem_of_In%in_flat_map.
    destruct (B_Disabled b'); [done|]. destruct Hb as [<-|[]]. cbn. auto.
  - intros Hc. destruct (valid_candidates_scope v [] (d :: cs) c) as [? ?]; auto.
Qed.

(** ** The rotation *)

(** Selections by any number of dials, and the success of some of them. *)
Inductive event := Select (now : Z) | Succeeded (id : string) (now : Z).
Fixpoint rotate (v : Route) (es : list event) (bk : backends) : list Candidate * backends :=
  match es with
  | [] => ([], bk)
  | Select now :: es => match selectCandidate v [] now bk with
                        | (Some c, bk) => let '(cs, bk) := rotate v es bk in (c :: cs, bk)
                        | (None, bk) => rotate v es bk
                        end
  | Succeeded id now :: es => rotate v es (markCandidate v id false now bk)
  end.
Definition sane (e : event) : Prop := match e with Select now => zeroTime <= now | Succeeded _ _ => True end.
Definition is_select (e : event) : bool := match e with Select _ => true | Succeeded _ _ => false end.
Definition selections (es : list event) : Z := Z.of_nat (length (List.filter is_select es)).
Definition count (c : Candidate) (ps : list Candidate) : Z := sum_over (fun p => if decide (V_ID p = V_ID c) then 1 else 0) ps.

Section Rotation.
Context (v : Route).
Local Abbreviation key c := (backendKey v (V_ID c)).
Local Abbreviation cur bk c := (b_current (state_at bk (key c))).
Definition weights : Z := sum_over share (candidates v).
Definition healthy (bk : backends) : Prop := forall c, c ∈ candidates v ->
  b_failures (state_at bk (key c)) = 0 /\ b_until (state_at bk (key c)) = zeroTime /\ b_probing (state_at bk (key c)) = false.

Lemma weights_pos : candidates v <> [] -> 0 < weights.
Proof.
  unfold weights. destruct (candidates v) as [|x xs]; [done|]. intros _. cbn. pose proof (weight_pos x).
  assert (0 <= sum_over share xs) by (apply sum_over_nonneg; intros y _; pose proof (weight_pos y); lia). lia.
Qed.
Lemma sum_over_linear {A} (a b : Z) (f g : A -> Z) l : sum_over (fun x => a * f x - b * g x) l = a * sum_over f l - b * sum_over g l.
Proof. induction l; cbn; lia. Qed.
Lemma sum_over_once {A} `{EqDecision B} (h : A -> B) (l : list A) x : NoDup (h <$> l) -> x ∈ l -> sum_over (fun y => if decide (h x = h y) then 1 else 0) l = 1.
Proof.
  induction l as [|y l IH]; [set_solver|]. rewrite fmap_cons. intros [Hy Hl]%NoDup_cons [->|Hx]%elem_of_cons; cbn.
  - rewrite decide_True by done. rewrite (sum_over_ext _ (fun _ => 0)), sum_over_zero; [done|]. intros z Hz. apply decide_False. intros He.
    apply Hy. rewrite He. by apply list_elem_of_fmap_2.
  - rewrite IH by done. rewrite decide_False; [done|]. intros He. apply Hy. rewrite <- He. by apply list_elem_of_fmap_2.
Qed.

Lemma healthy_active now bk c : healthy bk -> zeroTime <= now -> c ∈ candidates v -> active v [] now bk c = true.
Proof.
  intros Hh Hn Hc. unfold active, rests. destruct (Hh c Hc) as (_ & -> & ->). rewrite bool_decide_eq_false_2 by set_solver.
  by rewrite (proj2 (Z.ltb_ge _ _) Hn).
Qed.
Lemma healthy_weights now bk : healthy bk -> zeroTime <= now -> available v [] now bk = weights.
Proof. intros Hh Hn. apply sum_over_ext. intros c Hc. by rewrite healthy_active. Qed.
Lemma healthy_mark id now bk c : healthy bk -> c ∈ candidates v -> state_at (markCandidate v id false now bk) (key c) = state_at bk (key c).
Proof.
  intros Hh Hc. unfold markCandidate. destruct (bk !! backendKey v id) as [s|] eqn:E; [|done]. cbn [negb]. rewrite state_at_insert.
  destruct (decide (key c = backendKey v id)) as [He|]; [|done]. destruct (Hh c Hc) as (H1 & H2 & H3). unfold state_at in *. rewrite He, E in *. cbn in *.
  destruct s; cbn in *. by subst.
Qed.

Context (Hnd : NoDup (V_ID <$> candidates v)).

(** Where the counters stand after [k] selections, [m c] of them of [c]. *)
Record turned (bk : backends) (k : Z) (m : Candidate -> Z) : Prop := {
  tn_healthy : healthy bk;
  tn_current c : c ∈ candidates v -> cur bk c = k * share c - weights * m c /\ - weights < cur bk c;
  tn_sum : sum_over m (candidates v) = k
}.

Lemma select_turns now bk k m : turned bk k m -> zeroTime <= now -> candidates v <> [] ->
  exists c bk', selectCandidate v [] now bk = (Some c, bk') /\ c ∈ candidates v /\ turned bk' (k + 1) (fun d => m d + if decide (V_ID c = V_ID d) then 1 else 0).
Proof.
  intros [Hh Hc Hs] Hn Hne. pose proof (selectCandidate_spec v [] now bk Hnd) as Hsel. destruct (selectCandidate v [] now bk) as [[c|] bk'].
  2: { destruct Hsel as [Hall _]. assert (Hex : exists c, c ∈ candidates v) by (destruct (candidates v) as [|x xs]; [done|exists x; by left]).
       destruct Hex as [c Hin]. pose proof (healthy_active now bk c Hh Hn Hin). rewrite Hall in *; done. }
  destruct Hsel as [Hin Hact Hmost Hcur Hfail Huntil Hprob _]. exists c, bk'. split; [done|]. split; [done|].
  assert (Hpos : 0 < cur bk c + share c).
  { destruct (Z.lt_ge_cases 0 (cur bk c + share c)) as [?|Hle]; [done|exfalso].
    assert (Hsum : sum_over (fun d => (k + 1) * share d - weights * m d) (candidates v) = weights) by (rewrite sum_over_linear, Hs; unfold weights; lia).
    pose proof (weights_pos Hne) as Hw.
    assert (0 <= sum_over (fun d => - ((k + 1) * share d - weights * m d)) (candidates v)); [|].
    { apply sum_over_nonneg. intros d Hd. destruct (Hc d Hd) as [Hcd _]. pose proof (Hmost d Hd (healthy_active _ _ _ Hh Hn Hd)). lia. }
    rewrite (sum_over_ext _ (fun d => 0 * share d - 1 * ((k + 1) * share d - weights * m d))), sum_over_linear, Hsum in H by (intros; lia). lia. }
  split.
  - intros d Hd. destruct (Hh d Hd) as (H1 & H2 & H3). rewrite Hfail, Huntil, Hprob, H1, H2, H3. by destruct (bool_decide _).
  - intros d Hd. destruct (Hc d Hd) as [Hcd Hlow]. rewrite Hcur, healthy_active, healthy_weights by done.
    destruct (decide (V_ID d = V_ID c)) as [He|He], (decide (V_ID c = V_ID d)) as [He'|He']; try congruence; [|pose proof (weight_pos d); lia].
    assert (Heq : cur bk d = cur bk c /\ share d = share c).
    { rewrite He. split; [done|]. f_equal. apply list_elem_of_lookup in Hd as [i Hi], Hin as [j Hj]. assert (i = j) as ->; [|congruence].
      eapply NoDup_lookup; [exact Hnd|by rewrite list_lookup_fmap, Hi|by rewrite list_lookup_fmap, Hj, He]. }
    destruct Heq as [E1 E2]. rewrite <- E1, <- E2 in Hpos. lia.
  - rewrite <- Hs. rewrite (sum_over_ext _ (fun d => 1 * m d - (-1) * (if decide (V_ID c = V_ID d) then 1 else 0))), sum_over_linear by (intros; lia).
    rewrite (sum_over_once V_ID) by done. lia.
Qed.

Lemma rotate_turns es bk k m : turned bk k m -> Forall sane es -> candidates v <> [] ->
  let '(ps, bk') := rotate v es bk in
  Z.of_nat (length ps) = selections es /\ (forall p, p ∈ ps -> p ∈ candidates v) /\ turned bk' (k + selections es) (fun d => m d + count d ps).
Proof.
  intros Ht Hes Hne. revert bk k m Ht. induction es as [|[now|id now] es IH]; intros bk k m Ht; cbn [rotate].
  - cbn. split; [done|]. split; [set_solver|]. destruct Ht as [Hh Hc Hs]. unfold count. cbn. split; [done| |]; unfold selections; cbn.
    + intros c Hin. destruct (Hc c Hin). lia.
    + rewrite (sum_over_ext _ m) by (intros; lia). lia.
  - apply Forall_cons_1 in Hes as [Hn Hes]. destruct (select_turns now bk k m Ht Hn Hne) as (c & bk1 & -> & Hin & Ht1).
    specialize (IH Hes bk1 _ _ Ht1). destruct (rotate v es bk1) as [ps bk']. destruct IH as (Hlen & Hps & Ht').
    assert (Hsel : selections (Select now :: es) = selections es + 1) by (unfold selections; cbn; lia). rewrite Hsel. split; [cbn; lia|].
    split; [intros p [->|Hp]%elem_of_cons; auto|]. replace (k + (selections es + 1)) with (k + 1 + selections es) by lia. destruct Ht' as [Hh Hc Hs].
    assert (Hct : forall d, m d + count d (c :: ps) = m d + (if decide (V_ID c = V_ID d) then 1 else 0) + count d ps) by (intros; unfold count; cbn; lia).
    split; [done| |].
    + intros d Hd. rewrite Hct. by apply Hc.
    + rewrite <- Hs. apply sum_over_ext. intros d _. apply Hct.
  - apply Forall_cons_1 in Hes as [_ Hes]. apply (IH Hes). destruct Ht as [Hh Hc Hs]. split.
    + intros c Hin. rewrite healthy_mark by done. by apply Hh.
    + intros c Hin. rewrite healthy_mark by done. by apply Hc.
    + done.
Qed.
End Rotation.

(** C35: connections are spread by weight.  While all routes of a checked rule
    are well, however its dials overlap, no route is ever chosen a full turn
    more often than its share of the selections so far; and after any number
    of full turns (selections for the sum of the weights) every route has been
    chosen exactly its weight times that number. *)
Theorem rotation_fair v es bk c : valid_routes v = true -> c ∈ candidates v -> Forall sane es ->
  (forall d, d ∈ candidates v -> state_at bk (backendKey v (V_ID d)) = new_backend) ->
  let ps := (rotate v es bk).1 in
  Z.of_nat (length ps) = selections es /\ weights v * count c ps < selections es * share c + weights v /\
  forall n, selections es = n * weights v -> count c ps = n * share c.
Proof.
  intros Hv Hc Hes Hnew. apply valid_routes_ids in Hv as Hnd. assert (Hne : candidates v <> []) by (intros E; rewrite E in Hc; set_solver).
  pose proof (weights_pos v Hne) as Hw.
  assert (Ht : turned v bk 0 (fun _ => 0)).
  { split; [intros d Hd; by rewrite Hnew|intros d Hd; rewrite Hnew by done; cbn; lia|apply sum_over_zero]. }
  pose proof (rotate_turns v Hnd es bk 0 (fun _ => 0) Ht Hes Hne) as Hr. destruct (rotate v es bk) as [ps bk']. destruct Hr as (Hlen & _ & [_ Hcur Hsum]).
  cbn [fst]. split; [done|]. assert (Hup : forall d, d ∈ candidates v -> weights v * count d ps < selections es * share d + weights v).
  { intros d Hd. destruct (Hcur d Hd). lia. }
  split; [by apply Hup|]. intros n Hn.
  assert (Hle : forall d, d ∈ candidates v -> count d ps <= n * share d) by (intros d Hd; specialize (Hup d Hd); rewrite Hn in Hup; nia).
  assert (Hgap : sum_over (fun d => n * share d - 1 * count d ps) (candidates v) = 0).
  { rewrite sum_over_linear. rewrite (sum_over_ext _ (fun d => count d ps)) in Hsum by (intros; lia). unfold weights in Hn. lia. }
  enough (n * share c - 1 * count c ps <= 0) by (specialize (Hle c Hc); lia). rewrite <- Hgap.
  apply list_elem_of_In, in_split in Hc as (l1 & l2 & E). rewrite E in *. rewrite sum_over_app. cbn.
  assert (0 <= sum_over (fun d => n * share d - 1 * count d ps) l1) by (apply sum_over_nonneg; intros d Hd; specialize (Hle d ltac:(set_solver)); lia).
  assert (0 <= sum_over (fun d => n * share d - 1 * count d ps) l2) by (apply sum_over_nonneg; intros d Hd; specialize (Hle d ltac:(set_solver)); lia).
  lia.
Qed.

(** ** Dials *)

Section Dial.
Context (v : Route) (Hv : valid_routes v = true) (oracle : nat -> attempt).
Context (Halone : forall i bk, a_between (oracle i) bk = bk).
Local Abbreviation key c := (backendKey v (V_ID c)).

(** Since [bk], nothing but the counters of the routes that were not tried
    has changed, and nobody probes who did not before. *)
Record untouched (tried : list string) (bk bk' : backends) : Prop := {
  un_alike c : c ∈ candidates v -> V_ID c ∉ tried -> alike (state_at bk (key c)) (state_at bk' (key c));
  un_probing k : b_probing (state_at bk' k) = true -> b_probing (state_at bk k) = true
}.

Lemma mark_at id failed now bk k : k <> backendKey v id -> state_at (markCandidate v id failed now bk) k = state_at bk k.
Proof.
  intros Hk. unfold markCandidate. destruct (bk !! backendKey v id) as [s|]; [|done]. destruct failed; cbn [negb].
  - rewrite state_at_insert. by rewrite decide_False.
  - rewrite state_at_insert. by rewrite decide_False.
Qed.
Lemma mark_probing id failed now bk : is_Some (bk !! backendKey v id) -> b_probing (state_at (markCandidate v id failed now bk) (backendKey v id)) = false.
Proof.
  intros [s Hs]. unfold markCandidate. rewrite Hs. destruct failed; cbn [negb].
  - by rewrite state_at_insert, decide_True.
  - by rewrite state_at_insert, decide_True.
Qed.
(** A selection whose route is then settled in any way that ends the probe. *)
Lemma selected_settled tried now bk bk1 bk2 c : selected v tried now bk bk1 c -> b_probing (state_at bk2 (key c)) = false ->
  (forall k, k <> key c -> state_at bk2 k = state_at bk1 k) -> untouched (V_ID c :: tried) bk bk2.
Proof.
  intros [] Hp Hk. split.
  - intros d Hd Ht. assert (key d <> key c) by (intros He%backendKey_inj; set_solver). rewrite Hk by done. unfold alike. rewrite se_failures0, se_until0, se_probing0.
    rewrite bool_decide_eq_false_2 by done. done.
  - intros k. destruct (decide (k = key c)) as [->|Hne]; [by rewrite Hp|]. rewrite Hk, se_probing0 by done. by rewrite bool_decide_eq_false_2.
Qed.
Lemma untouched_trans tried tried' bk bk1 bk2 : tried ⊆ tried' -> untouched tried bk bk1 -> untouched tried' bk1 bk2 -> untouched tried' bk bk2.
Proof.
  intros Hsub [A1 A2] [B1 B2]. split; [|eauto]. intros c Hc Ht. destruct (A1 c Hc) as (?&?&?); [set_solver|]. destruct (B1 c Hc Ht) as (?&?&?). split_and!; congruence.
Qed.

(** How a dial ends, after the attempts at [tried] failed. *)
Definition dial_ends (bk : backends) (tried : list string) (r : dialled) : Prop :=
  let a := oracle (length tried) in
  match r with
  | Connected c => c ∈ candidates v /\ V_ID c ∉ tried /\ a_ended a = Dials
  | Refused e => (e = ErrMsg "all_candidates_unavailable" /\
                  forall c, c ∈ candidates v -> V_ID c ∈ tried \/ rests (a_selected a) (state_at bk (key c)) = true)
                 \/ a_ended a = CheckFails e \/ a_ended a = ContextOver e
  | Panicked => False
  end.
Definition failed_so_far (tried : list string) : Prop :=
  NoDup tried /\ (forall id, id ∈ tried -> id ∈ V_ID <$> candidates v) /\ forall i, (i < length tried)%nat -> a_ended (oracle i) = DialFails.

Lemma given_up_settled tried now bk bk1 c e r bk2 : selected v tried now bk bk1 c -> given_up (key c) e bk1 = (r, bk2) ->
  r = Refused e /\ untouched (V_ID c :: tried) bk bk2.
Proof.
  intros Hs. pose proof (se_key _ _ _ _ _ _ Hs) as [s Hk]. unfold given_up, stop_probing. rewrite Hk. cbn. intros [= <- <-]. split; [done|].
  eapply selected_settled; [exact Hs|by rewrite state_at_insert, decide_True|]. intros k Hne. by rewrite state_at_insert, decide_False.
Qed.

Lemma dial_loop_spec fuel tried bk0 bk r bk' : dial_loop fuel v oracle tried bk = (r, bk') -> (fuel + length tried = length (candidates v))%nat ->
  failed_so_far tried -> untouched tried bk0 bk ->
  exists tried', failed_so_far tried' /\ dial_ends bk0 tried' r /\ forall k, b_probing (state_at bk' k) = true -> b_probing (state_at bk0 k) = true.
Proof.
  pose proof (valid_routes_ids v Hv) as Hnd. revert tried bk. induction fuel as [|fuel IH]; intros tried bk; cbn [dial_loop].
  - intros [= <- <-] Hlen (H1 & H2 & H3) Hun. exists tried. split; [done|]. split; [|apply Hun]. left. split; [done|]. intros c Hc. left.
    assert (Hperm : tried ≡ₚ (V_ID <$> candidates v)) by (apply submseteq_length_Permutation; [by apply NoDup_submseteq|rewrite length_fmap; lia]).
    rewrite Hperm. by apply list_elem_of_fmap_2.
  - intros Hrun Hlen Hf Hun. pose proof (selectCandidate_spec v tried (a_selected (oracle (length tried))) bk Hnd) as Hsel.
    destruct (selectCandidate v tried _ bk) as [[c|] bk1].
    2: { injection Hrun as <- <-. destruct Hsel as [Hall Hsame]. exists tried. split; [done|]. split; [|intros k; rewrite Hsame; apply Hun]. left. split; [done|].
         intros c Hc. specialize (Hall c Hc). unfold active in Hall. destruct (decide (V_ID c ∈ tried)) as [?|Ht]; [by left|right].
         rewrite bool_decide_eq_false_2 in Hall by done. cbn in Hall. apply negb_false_iff in Hall. rewrite <- Hall.
         destruct (un_alike _ _ _ Hun c Hc Ht) as (_ & E1 & E2). unfold rests. by rewrite E1, E2. }
    destruct (valid_routes_scope v c Hv (se_in _ _ _ _ _ _ Hsel)) as [Hm Hg]. rewrite Hm, String.eqb_refl in Hrun.
    assert (Hno : negb (String.eqb (V_ExitGroupID c) "") && negb (String.eqb (V_ExitGroupID c) (O_ExitGroupID v)) = false).
    { destruct Hg as [->| ->]; [done|]. rewrite String.eqb_refl. by rewrite andb_false_r. }
    rewrite Hno in Hrun. cbn [negb orb] in Hrun. rewrite Halone in Hrun.
    assert (Hnew : V_ID c ∉ tried) by (pose proof (se_active _ _ _ _ _ _ Hsel) as Ha; unfold active in Ha; apply andb_prop in Ha as [Ha _]; bool_to_prop; done).
    assert (Hun' : forall bk2, untouched (V_ID c :: tried) bk bk2 -> untouched (V_ID c :: tried) bk0 bk2) by (intros bk2 Hb; eapply untouched_trans; [|exact Hun|exact Hb]; set_solver).
    assert (Hmark : forall failed t, untouched (V_ID c :: tried) bk (markCandidate v (V_ID c) failed t bk1)).
    { intros failed t. eapply selected_settled; [exact Hsel|apply mark_probing, Hsel|]. intros k Hk. by apply mark_at. }
    destruct (a_ended (oracle (length tried))) as [e| | |e] eqn:Ea.
    + destruct (given_up_settled _ _ _ _ _ _ _ _ Hsel Hrun) as [-> Hb]. exists tried. split; [done|]. split; [right; by left|]. apply (Hun' _ Hb).
    + injection Hrun as <- <-. exists tried. split; [done|]. split; [split_and!; [apply Hsel|done|done]|]. apply (Hun' _ (Hmark _ _)).
    + apply IH in Hrun; [done|cbn; lia| |by apply Hun']. destruct Hf as (H1 & H2 & H3). split_and!.
      * by constructor.
      * intros id [->|Hid]%elem_of_cons; [apply list_elem_of_fmap_2, Hsel|auto].
      * cbn. intros i Hi. destruct (decide (i = length tried)) as [->|]; [done|apply H3; lia].
    + destruct (given_up_settled _ _ _ _ _ _ _ _ Hsel Hrun) as [-> Hb]. exists tried. split; [done|]. split; [right; by right|]. apply (Hun' _ Hb).
Qed.

(** A dial tries what can be tried and leaves no trace.  It attempts
    different routes of the rule, each after the one before failed.  It ends
    with a connection, with the error that stopped it, or because every route
    was tried and failed, was cooling down or was being probed by another
    dial; and no route it probed stays marked as being probed. *)
Theorem dial_complete bk r bk' : dialCandidates v oracle bk = (r, bk') ->
  exists tried, failed_so_far tried /\ dial_ends bk tried r /\ forall k, b_probing (state_at bk' k) = true -> b_probing (state_at bk k) = true.
Proof.
  intros Hrun. eapply dial_loop_spec; [exact Hrun|cbn; lia| |by split]. split; [constructor|]. split; [set_solver|]. cbn. lia.
Qed.
End Dial.

(** A route that failed often enough is left alone.  Until its cool-down
    is over no dial gets it; then one dial gets it, and no other does until
    that one, or an earlier one of the route, reports. *)
Theorem failed_route_rests v id now bk : valid_routes v = true -> is_Some (bk !! backendKey v id) ->
  maxFail v <= b_failures (state_at bk (backendKey v id)) + 1 -> zeroTime <= now ->
  let bk1 := markCandidate v id true now bk in
  (forall tried later c bk2, later < now + Z.max 1 (cooldown v) * second -> selectCandidate v tried later bk1 = (Some c, bk2) -> V_ID c <> id) /\
  (forall tried later c bk2, selectCandidate v tried later bk1 = (Some c, bk2) -> V_ID c = id -> 0 <= b_failures (state_at bk (backendKey v id)) ->
     forall tried' t d bk3, selectCandidate v tried' t bk2 = (Some d, bk3) -> V_ID d <> id).
Proof.
  intros Hv [s Hs] Hf Hn bk1. apply valid_routes_ids in Hv as Hnd. set (k := backendKey v id) in *.
  assert (H1 : b_until (state_at bk1 k) = now + Z.max 1 (cooldown v) * second /\ b_failures (state_at bk1 k) = b_failures (state_at bk k) + 1).
  { unfold bk1, markCandidate. fold k. rewrite Hs. cbn [negb]. rewrite state_at_insert, decide_True by done. unfold state_at in *. rewrite Hs in *. cbn in *.
    by rewrite (proj2 (Z.leb_le _ _) Hf). }
  destruct H1 as [Hu Hfl]. split.
  - intros tried later c bk2 Hlt Hsel He. pose proof (selectCandidate_spec v tried later bk1 Hnd) as Hsp. rewrite Hsel in Hsp. apply se_active in Hsp.
    unfold active, rests in Hsp. rewrite He in Hsp. fold k in Hsp. rewrite Hu, (proj2 (Z.ltb_lt _ _) Hlt) in Hsp. by rewrite andb_false_r in Hsp.
  - intros tried later c bk2 Hsel He Hpos tried' t d bk3 Hsel' Hd. pose proof (selectCandidate_spec v tried later bk1 Hnd) as Hsp. rewrite Hsel in Hsp.
    pose proof (se_probing _ _ _ _ _ _ Hsp k) as Hp. rewrite He in Hp. fold k in Hp. rewrite bool_decide_eq_true_2, Hfl, Hu in Hp by done.
    rewrite (proj2 (Z.ltb_lt 0 _)), (proj2 (Z.eqb_neq _ zeroTime)) in Hp by (unfold second in *; lia). cbn in Hp.
    pose proof (selectCandidate_spec v tried' t bk2 Hnd) as Hsp'. rewrite Hsel' in Hsp'. apply se_active in Hsp'.
    unfold active, rests in Hsp'. rewrite Hd in Hsp'. fold k in Hsp'. rewrite Hp, orb_true_r in Hsp'. by rewrite andb_false_r in Hsp'.
Qed.

(** ** The theorems on concrete routes *)

Definition demo_route : Route :=
  {| O_ID := "r"; O_ExitGroupID := "g"; O_Target := "t"; O_Path := "direct"; O_Candidates := []; O_Policy := None; O_Multiplier := "1";
     O_Backends := [{| B_Target := "a:1"; B_Weight := 5; B_Disabled := false |}; {| B_Target := "b:1"; B_Weight := 1; B_Disabled := false |};
                    {| B_Target := "x:1"; B_Weight := 9; B_Disabled := true |}; {| B_Target := "c:1"; B_Weight := 1; B_Disabled := false |}] |}.
Definition seven : list event := [Select 0; Select 1; Succeeded "a:1" 2; Select 3; Select 3; Select 4; Succeeded "b:1" 5; Select 6; Select 7].
Example seven_picks : V_ID <$> (rotate demo_route seven ∅).1 = ["a:1"; "a:1"; "b:1"; "a:1"; "c:1"; "a:1"; "a:1"].
Proof. evaluates. Qed.

Lemma rotation_fair_witness : count (candidate_of demo_route "a:1" 5) (rotate demo_route seven ∅).1 = 5.
Proof.
  destruct (rotation_fair demo_route seven ∅ (candidate_of demo_route "a:1" 5)) as (_ & _ & H).
  - evaluates.
  - left.
  - repeat constructor; vm_compute; discriminate.
  - intros d Hd. reflexivity.
  - apply (H 1). evaluates.
Defined.

(** The first route fails, the second answers. *)
Definition two_attempts (i : nat) : attempt :=
  {| a_selected := Z.of_nat i * second; a_between := fun bk => bk; a_ended := match i with O => DialFails | _ => Dials end; a_marked := Z.of_nat i * second + 1 |}.
Lemma dial_complete_witness : (dialCandidates demo_route two_attempts ∅).1 = Connected (candidate_of demo_route "b:1" 1) /\
  exists tried, failed_so_far demo_route two_attempts tried /\ dial_ends demo_route two_attempts ∅ tried (Connected (candidate_of demo_route "b:1" 1)).
Proof.
  split; [evaluates|]. destruct (dialCandidates demo_route two_attempts ∅) as [r bk'] eqn:E.
  assert (Hr : r = Connected (candidate_of demo_route "b:1" 1)) by (change r with (r, bk').1; rewrite <- E; evaluates).
  destruct (dial_complete demo_route eq_refl two_attempts (fun _ _ => eq_refl) ∅ r bk' E) as (tried & H1 & H2 & _).
  exists tried. rewrite Hr in H2. split; [exact H1|exact H2].
Defined.

Definition picked_once : backends := (selectCandidate demo_route [] 0 ∅).2.
Lemma failed_route_rests_witness : exists c, (selectCandidate demo_route [] (9 * second) (markCandidate demo_route "a:1" true 0 picked_once)).1 = Some c /\ V_ID c <> "a:1".
Proof.
  destruct (failed_route_rests demo_route "a:1" 0 picked_once) as [H _].
  - evaluates.
  - vm_compute. eexists. reflexivity.
  - vm_compute. discriminate.
  - vm_compute. discriminate.
  - destruct (selectCandidate demo_route [] (9 * second) (markCandidate demo_route "a:1" true 0 picked_once)) as [[c|] bk2] eqn:E.
    + exists c. split; [reflexivity|]. apply (H [] (9 * second) c bk2); [evaluates|exact E].
    + apply (f_equal fst) in E. vm_compute in E. discriminate E.
Defined.
