(* ===== verification/WriteQueue.v ===== *)
(** * The single writer of the panel's database (internal/storage/store.go
    [Write], [writer])

    On SQLite every transaction of the panel goes through one of three queues
    to one goroutine.  The goroutine walks a fixed schedule of seven slots and
    takes a request from the first queue on it that has one; when all are
    empty it waits for any.

    The theorems: transactions are serial, in the order they are taken (what
    [Tx] assumes of the database), each queue is first in first out, and a
    request waits for a bounded number of others whatever is sent meanwhile. *)

From S2P Require Import Prelude Tx.
From stdpp Require Import base strings list relations.
From Stdlib Require Import Ascii String.
Local Open Scope nat_scope.
Local Abbreviation length := List.length.

Inductive Priority := Critical | Normal | Background.
#[export] Instance Priority_eq_dec : EqDecision Priority.
Proof. solve_decision. Defined.
Definition queue_size : nat := 256.
Definition schedule : list Priority := [Critical; Critical; Critical; Critical; Normal; Normal; Background].
Definition slot (cursor : nat) : Priority := nth cursor schedule Critical.

Section WriteStore.
Context {S : Type}.

(** A request: its transaction and the channel its caller waits on. *)
Record request := { q_fn : Tx S unit; q_caller : nat }.
(** [st_done] is what was sent to the callers, the latest first; [st_waiting]
    is the writer blocked on all three queues. *)
Record WriteStore := {
  st_db : S; st_queues : Priority -> list request; st_cursor : nat; st_waiting : bool; st_stopped : bool;
  st_done : list (request * res unit)
}.
Definition set_queue (p : Priority) (l : list request) (q : Priority -> list request) : Priority -> list request :=
  fun p' => if decide (p' = p) then l else q p'.

(** The search through the schedule: the queue to take from and the next
    slot. *)
Fixpoint scan (fuel cursor : nat) (q : Priority -> list request) : option Priority * nat :=
  match fuel with
  | O => (None, cursor)
  | Datatypes.S fuel =>
      let p := slot cursor in
      let cursor := (cursor + 1) mod length schedule in
      match q p with [] => scan fuel cursor q | _ => (Some p, cursor) end
  end.

(** A request is run, unless its caller's context is over. *)
Definition serve (env : Env) (over : option error) (r : request) (d : S) : res unit * S :=
  match over with Some e => (Err e, d) | None => Write (q_fn r) env d end.
Definition take_from (p : Priority) (cursor : nat) (env : Env) (over : option error) (s : WriteStore) : WriteStore :=
  match st_queues s p with
  | [] => s
  | r :: rest =>
      let '(answer, d) := serve env over r (st_db s) in
      {| st_db := d; st_queues := set_queue p rest (st_queues s); st_cursor := cursor; st_waiting := false; st_stopped := st_stopped s;
         st_done := (r, answer) :: st_done s |}
  end.
(** One round of [writer]: [chosen] is what a select over the three queues
    picks, among those that have a request. *)
Definition round (chosen : Priority) (env : Env) (over : option error) (s : WriteStore) : WriteStore :=
  if st_stopped s then s else
  if st_waiting s then take_from chosen (st_cursor s) env over s else
  match scan (length schedule) (st_cursor s) (st_queues s) with
  | (Some p, cursor) => take_from p cursor env over s
  | (None, cursor) => {| st_db := st_db s; st_queues := st_queues s; st_cursor := cursor; st_waiting := true; st_stopped := st_stopped s; st_done := st_done s |}
  end.
(** The sending half of [Write]; [None] when the caller would block. *)
Definition send (p : Priority) (r : request) (s : WriteStore) : option WriteStore :=
  if st_stopped s then None else
  if queue_size <=? length (st_queues s p) then None else
  Some {| st_db := st_db s; st_queues := set_queue p (st_queues s p ++ [r])%list (st_queues s); st_cursor := st_cursor s; st_waiting := st_waiting s;
          st_stopped := st_stopped s; st_done := st_done s |}.
Definition CloseStore (s : WriteStore) : WriteStore :=
  {| st_db := st_db s; st_queues := st_queues s; st_cursor := st_cursor s; st_waiting := st_waiting s; st_stopped := true; st_done := st_done s |}.
Definition opened (d : S) : WriteStore :=
  {| st_db := d; st_queues := fun _ => []; st_cursor := 0; st_waiting := false; st_stopped := false; st_done := [] |}.

Inductive wstep (s : WriteStore) : WriteStore -> Prop :=
  | ws_send p r s' : send p r s = Some s' -> wstep s s'
  | ws_round chosen env over : wstep s (round chosen env over s)
  | ws_close : wstep s (CloseStore s).

(** ** The schedule *)

(** How many slots away the next one of a priority is, itself included. *)
Definition distance (cursor : nat) (p : Priority) : nat :=
  match p with
  | Critical => if cursor <? 4 then 1 else 8 - cursor
  | Normal => if cursor <? 4 then 5 - cursor else if cursor <? 6 then 1 else 6
  | Background => 7 - cursor
  end.

Lemma distance_bound c p : c < 7 -> 1 <= distance c p <= 7.
Proof. intros Hc. do 7 (destruct c as [|c]; [destruct p; cbn; lia|]). lia. Qed.
Lemma distance_next c p : c < 7 -> slot c <> p -> distance ((c + 1) mod 7) p < distance c p.
Proof.
  intros Hc. do 7 (destruct c as [|c]; [destruct p; cbn; try done; intros; lia|]). lia.
Qed.

(** With a request of [p] queued, the search ends at the latest at the next
    slot of [p]. *)
Lemma scan_finds fuel c q p : c < 7 -> distance c p <= fuel -> q p <> [] ->
  exists p' c', scan fuel c q = (Some p', c') /\ q p' <> [] /\ c' < 7 /\ (p' = p \/ distance c' p < distance c p).
Proof.
  revert c. induction fuel as [|fuel IH]; intros c Hc Hf Hp; [pose proof (distance_bound c p Hc); lia|]. cbn [scan].
  change (length schedule) with 7. assert (Hm : (c + 1) mod 7 < 7) by (apply Nat.mod_upper_bound; lia).
  destruct (q (slot c)) as [|r l] eqn:E.
  - assert (Hne : slot c <> p) by (intros He; congruence). pose proof (distance_next c p Hc Hne).
    destruct (IH ((c + 1) mod 7) Hm ltac:(lia) Hp) as (p' & c' & -> & H1 & H2 & H3). exists p', c'. split_and!; [done..|]. destruct H3; [by left|right; lia].
  - exists (slot c), ((c + 1) mod 7). split_and!; [done|congruence|done|]. destruct (decide (slot c = p)) as [|Hne]; [by left|right]. by apply distance_next.
Qed.
Lemma scan_cursor fuel c q p c' : c < 7 -> scan fuel c q = (p, c') -> c' < 7.
Proof.
  revert c. induction fuel as [|fuel IH]; intros c Hc; cbn [scan]; [by intros [= _ <-]|]. change (length schedule) with 7.
  assert (Hm : (c + 1) mod 7 < 7) by (apply Nat.mod_upper_bound; lia). destruct (q (slot c)); [by apply IH|by intros [= _ <-]].
Qed.
Lemma scan_nonempty fuel c q p c' : scan fuel c q = (Some p, c') -> q p <> [].
Proof. revert c. induction fuel as [|fuel IH]; intros c; cbn [scan]; [done|]. destruct (q (slot c)) eqn:E; [apply IH|]. intros [= <- <-]. congruence. Qed.

(** ** Serial and in order *)

(** What was sent, to which queue, in a run of the store; the first first. *)
Inductive wtrace (d0 : S) : list (Priority * request) -> WriteStore -> Prop :=
  | wt_opened : wtrace d0 [] (opened d0)
  | wt_send sent s p r s' : wtrace d0 sent s -> send p r s = Some s' -> wtrace d0 (sent ++ [(p, r)]) s'
  | wt_round sent s chosen env over : wtrace d0 sent s -> wtrace d0 sent (round chosen env over s)
  | wt_close sent s : wtrace d0 sent s -> wtrace d0 sent (CloseStore s).
(** A request that was taken, with how it was run. *)
Abbreviation taking := (Priority * request * Env * option error)%type.
Definition at_queue (p : Priority) (l : list (Priority * request)) : list request :=
  omap (fun t : Priority * request => if decide (t.1 = p) then Some t.2 else None) l.
Definition order_taken (ts : list taking) : list (Priority * request) := (fun t : taking => t.1.1) <$> ts.
(** The transactions, one after the other, on [d]. *)
Fixpoint serially (ts : list taking) (d : S) : list (request * res unit) * S :=
  match ts with
  | [] => ([], d)
  | (_, r, env, over) :: ts =>
      let '(answer, d) := serve env over r d in
      let '(answers, d) := serially ts d in ((r, answer) :: answers, d)
  end.
Definition explains (d0 : S) (sent : list (Priority * request)) (ts : list taking) (s : WriteStore) : Prop :=
  (forall p, at_queue p sent = at_queue p (order_taken ts) ++ st_queues s p) /\
  serially ts d0 = (rev (st_done s), st_db s).

Lemma serially_snoc ts d t : serially (ts ++ [t]) d =
  let '(answers, d1) := serially ts d in let '(answer, d2) := serve t.1.2 t.2 t.1.1.2 d1 in ((answers ++ [(t.1.1.2, answer)])%list, d2).
Proof.
  revert d. induction ts as [|[[[p r] env] over] ts IH]; intros d; cbn.
  - destruct t as [[[p r] env] over]. cbn. by destruct (serve env over r d).
  - destruct (serve env over r d) as [a d1]. rewrite IH. destruct (serially ts d1) as [as_ d2]. by destruct (serve _ _ _ d2).
Qed.
Lemma at_queue_snoc p l q r : at_queue p (l ++ [(q, r)]) = at_queue p l ++ (if decide (q = p) then [r] else []).
Proof. unfold at_queue. rewrite omap_app. cbn. by destruct (decide (q = p)). Qed.
Lemma take_explained d0 sent ts s p c env over : explains d0 sent ts s ->
  exists ts', explains d0 sent ts' (take_from p c env over s).
Proof.
  intros [Hq Hs]. unfold take_from. destruct (st_queues s p) as [|r rest] eqn:Hp; [by exists ts|].
  destruct (serve env over r (st_db s)) as [answer d] eqn:E. exists (ts ++ [(p, r, env, over)]). split; cbn.
  - intros p'. unfold order_taken. rewrite fmap_app. cbn. rewrite at_queue_snoc, Hq. fold (order_taken ts). unfold set_queue. destruct (decide (p = p')) as [<-|Hne].
    + rewrite decide_True by done. rewrite Hp. by rewrite <- app_assoc.
    + rewrite decide_False by congruence. by rewrite app_nil_r.
  - rewrite serially_snoc, Hs. cbn. by rewrite E.
Qed.

(** C36: the queue is serial.  Whatever is sent, by whomever, at whatever
    times, the database is what the transactions that were taken make of it
    one after the other, each answered with its own result; and each queue
    hands out what was sent to it once and in order: what was taken from it is
    a first part of what was sent to it and the rest is still queued. *)
Theorem writes_serial d0 sent s : wtrace d0 sent s -> exists ts, explains d0 sent ts s.
Proof.
  induction 1 as [|sent s p r s' _ [ts Hx] Hsend|sent s chosen env over _ [ts Hx]|sent s _ [ts Hx]].
  - by exists [].
  - unfold send in Hsend. destruct (st_stopped s); [done|]. destruct (queue_size <=? _); [done|]. injection Hsend as <-. destruct Hx as [Hq Hs].
    exists ts. split; [|done]. intros p'. cbn. unfold set_queue. rewrite at_queue_snoc, Hq.
    destruct (decide (p = p')) as [->|]; [rewrite decide_True by done; by rewrite app_assoc|rewrite decide_False by congruence; by rewrite app_nil_r].
  - unfold round. destruct (st_stopped s); [eauto|]. destruct (st_waiting s); [by eapply take_explained|].
    destruct (scan _ _ _) as [[p|] c] eqn:Es; [by eapply take_explained|by exists ts].
  - by exists ts.
Qed.

(** ** Nobody starves *)

(** How long a request at place [i] of a queue can still wait. *)
Definition patience (p : Priority) (i : nat) (s : WriteStore) : nat :=
  distance (st_cursor s) p + 7 * i + (if st_waiting s then 1 else 0).
Record running (s : WriteStore) : Prop := { rn_cursor : st_cursor s < 7; rn_bound p : length (st_queues s p) <= queue_size }.

Lemma take_cases p q c env over (s : WriteStore) r i : st_queues s q <> [] -> st_queues s p !! i = Some r -> c < 7 ->
  let s' := take_from q c env over s in
  st_waiting s' = false /\ st_cursor s' = c /\ length (st_done s') = length (st_done s) + 1 /\
  ((q = p /\ i = 0 /\ exists a, st_done s' = (r, a) :: st_done s) \/
   (q = p /\ exists j, i = Datatypes.S j /\ st_queues s' p !! j = Some r) \/ (q <> p /\ st_queues s' p !! i = Some r)).
Proof.
  intros Hq Hi Hc. unfold take_from. destruct (st_queues s q) as [|x rest] eqn:E; [done|]. destruct (serve env over x (st_db s)) as [a d]. cbn.
  split_and!; [done|done|lia|]. unfold set_queue. destruct (decide (q = p)) as [<-|Hne].
  - rewrite E in Hi. destruct i as [|i]; [injection Hi as ->; left; eauto|right; left]. split; [done|]. exists i. by rewrite decide_True.
  - right; right. by rewrite decide_False.
Qed.

(** One step: the request is taken, or it has less to wait for by each request
    that is. *)
Lemma step_waits p i r s s' : running s -> wstep s s' -> st_queues s p !! i = Some r ->
  running s' /\ exists l, st_done s' = l ++ st_done s /\
    (r ∈ l.*1 \/ exists j, st_queues s' p !! j = Some r /\ patience p j s' + length l <= patience p i s).
Proof.
  intros [Hc Hb] Hstep Hi. destruct Hstep as [q x s' Hsend|chosen env over|].
  - unfold send in Hsend. destruct (st_stopped s); [done|]. destruct (Nat.leb_spec queue_size (length (st_queues s q))) as [|Hlt]; [done|]. injection Hsend as <-.
    split; [split; [done|]; cbn; intros p'; unfold set_queue; destruct (decide _) as [->|]; [rewrite length_app; cbn; lia|apply Hb]|].
    exists []. split; [done|]. right. exists i. cbn. unfold set_queue. split; [|unfold patience; cbn; lia]. destruct (decide (p = q)) as [->|]; [by apply lookup_app_l_Some|done].
  - assert (Hne : st_queues s p <> []) by (intros E; by rewrite E in Hi).
    assert (Htake : forall q c, st_queues s q <> [] -> c < 7 -> (q = p \/ distance c p + 1 <= distance (st_cursor s) p + (if st_waiting s then 1 else 0)) ->
      let s' := take_from q c env over s in running s' /\ exists l, st_done s' = l ++ st_done s /\
        (r ∈ l.*1 \/ exists j, st_queues s' p !! j = Some r /\ patience p j s' + length l <= patience p i s)).
    { intros q c Hq Hc' Hd. pose proof (take_cases p q c env over s r i Hq Hi Hc') as (W & C & L & Hcases). cbv zeta. set (s' := take_from q c env over s) in *.
      split; [split; [by rewrite C|]|].
      { intros p'. unfold s', take_from. destruct (st_queues s q) as [|x rest] eqn:E; [done|]. destruct (serve env over x (st_db s)). cbn. unfold set_queue.
        destruct (decide (p' = q)) as [->|]; [|apply Hb]. pose proof (Hb q) as Hbq. rewrite E in Hbq. cbn in Hbq. lia. }
      assert (Hl : exists l, st_done s' = l ++ st_done s /\ length l = 1).
      { unfold s', take_from. destruct (st_queues s q) as [|x rest]; [done|]. destruct (serve env over x (st_db s)) as [a d]. by exists [(x, a)]. }
      destruct Hl as (l & Hl & Hl1). exists l. split; [done|]. destruct Hcases as [(_ & _ & a & Ha)|[(-> & j & -> & Hj)|(Hne' & Hj)]].
      - left. rewrite Ha in Hl. apply (app_inv_tail (st_done s) [(r, a)]) in Hl as <-. by left.
      - right. exists j. split; [done|]. unfold patience. rewrite W, C. pose proof (distance_bound c p Hc'). pose proof (distance_bound (st_cursor s) p Hc). destruct (st_waiting s); lia.
      - right. exists i. split; [done|]. unfold patience. rewrite W, C. destruct Hd as [->|Hd]; [done|]. lia. }
    unfold round. destruct (st_stopped s).
    { split; [by split|]. exists []. split; [done|]. right. exists i. split; [done|cbn; lia]. }
    destruct (st_waiting s) eqn:Ew.
    + destruct (st_queues s chosen) as [|x rest] eqn:E.
      { unfold take_from. rewrite E. split; [by split|]. exists []. split; [done|]. right. exists i. split; [done|cbn; lia]. }
      apply Htake; [by rewrite E|done|]. right. lia.
    + destruct (scan_finds (length schedule) (st_cursor s) (st_queues s) p Hc ltac:(apply distance_bound, Hc) Hne) as (p' & c' & -> & Hp' & Hc' & Hd).
      apply Htake; [done|done|]. destruct Hd; [by left|right; lia].
  - split; [by split|]. exists []. split; [done|]. right. exists i. split; [done|]. unfold patience. cbn. lia.
Qed.

Lemma step_running s s' : running s -> wstep s s' -> running s'.
Proof.
  intros [Hc Hb] Hstep. assert (Htake : forall q c env over, c < 7 -> running (take_from q c env over s)).
  { intros q c env over Hc'. unfold take_from. destruct (st_queues s q) as [|x rest] eqn:E; [by split|]. destruct (serve env over x (st_db s)).
    split; [done|]. cbn. intros p'. unfold set_queue. destruct (decide (p' = q)) as [->|]; [|apply Hb]. pose proof (Hb q) as Hbq. rewrite E in Hbq. cbn in Hbq. lia. }
  destruct Hstep as [q x s' Hsend|chosen env over|]; [|unfold round|by split].
  - unfold send in Hsend. destruct (st_stopped s); [done|]. destruct (Nat.leb_spec queue_size (length (st_queues s q))) as [|Hlt]; [done|]. injection Hsend as <-.
    split; [done|]. cbn. intros p'. unfold set_queue. destruct (decide _) as [->|]; [rewrite length_app; cbn; lia|apply Hb].
  - destruct (st_stopped s); [by split|]. destruct (st_waiting s); [by apply Htake|]. destruct (scan _ _ _) as [[q|] c] eqn:Es; apply (scan_cursor _ _ _ _ _ Hc) in Es; [by apply Htake|by split].
Qed.
Lemma reachable_running d0 s : rtc wstep (opened d0) s -> running s.
Proof.
  intros Hrun. assert (H0 : running (opened d0)) by (split; cbn; lia). induction Hrun as [|s1 s2 s3 Hstep _ IH] in H0; [done|]. apply IH. by eapply step_running.
Qed.

Lemma step_grows s s' : wstep s s' -> exists l, st_done s' = l ++ st_done s.
Proof.
  destruct 1 as [q x s' Hsend|chosen env over|]; [|unfold round|by exists []].
  - unfold send in Hsend. destruct (st_stopped s); [done|]. destruct (_ <=? _); [done|]. injection Hsend as <-. by exists [].
  - assert (Ht : forall q c, exists l1, st_done (take_from q c env over s) = l1 ++ st_done s).
    { intros q c'. unfold take_from. destruct (st_queues s q) as [|x rest]; [by exists []|]. destruct (serve env over x (st_db s)) as [an d]. by exists [(x, an)]. }
    destruct (st_stopped s); [by exists []|]. destruct (st_waiting s); [apply Ht|]. destruct (scan _ _ _) as [[q|] c']; [apply Ht|by exists []].
Qed.
Lemma run_grows s s' : rtc wstep s s' -> exists l, st_done s' = l ++ st_done s.
Proof.
  induction 1 as [s|a b c Hstep _ [l Hl]]; [by exists []|]. destruct (step_grows _ _ Hstep) as [l1 Hl1]. exists (l ++ l1). by rewrite Hl, Hl1, app_assoc.
Qed.

(** While a request is queued, every round of the writer answers one. *)
Lemma round_serves s chosen env over : running s -> st_stopped s = false -> st_queues s chosen <> [] ->
  length (st_done (round chosen env over s)) = length (st_done s) + 1.
Proof.
  intros [Hc _] Hs Hq. assert (Ht : forall q c, st_queues s q <> [] -> length (st_done (take_from q c env over s)) = length (st_done s) + 1).
  { intros q c Hne. unfold take_from. destruct (st_queues s q) as [|x rest]; [done|]. destruct (serve env over x (st_db s)). cbn. lia. }
  unfold round. rewrite Hs. destruct (st_waiting s); [by apply Ht|].
  destruct (scan_finds (length schedule) (st_cursor s) (st_queues s) chosen Hc ltac:(apply (distance_bound _ _ Hc)) Hq) as (p' & c' & -> & Hp' & _). by apply Ht.
Qed.

(** C37: nobody starves.  A request with [i] others before it in its queue is
    taken at the latest as the [7 * (i + 1) + 1]-st request from now on,
    whatever is sent to this and the other queues meanwhile; while it is
    queued every round of the writer takes a request, so it is taken after so
    many rounds unless the store is closed; and no queue ever holds more than
    256. *)
Theorem writes_wait d0 s s' p i r : rtc wstep (opened d0) s -> st_queues s p !! i = Some r -> rtc wstep s s' ->
  length (st_queues s p) <= queue_size /\
  (st_stopped s = false -> forall chosen env over, st_queues s chosen <> [] -> length (st_done (round chosen env over s)) = length (st_done s) + 1) /\
  exists l, st_done s' = l ++ st_done s /\ (7 * (i + 1) + 1 <= length l -> r ∈ l.*1).
Proof.
  intros Hreach Hi Hrun. apply reachable_running in Hreach as Hr. split; [apply Hr|]. split; [intros; by apply round_serves|].
  assert (Hgen : exists l, st_done s' = l ++ st_done s /\ (r ∈ l.*1 \/ exists j, st_queues s' p !! j = Some r /\ patience p j s' + length l <= patience p i s)).
  { clear Hreach. revert i Hi Hr. induction Hrun as [s|s1 s2 s3 Hstep Hrun IH]; intros i Hi Hr.
    - exists []. split; [done|]. right. exists i. split; [done|cbn; lia].
    - destruct (step_waits p i r s1 s2 Hr Hstep Hi) as (Hr2 & l1 & E1 & [Hin|(j & Hj & Hpat)]).
      + pose proof (run_grows _ _ Hrun) as Hmore.
        destruct Hmore as [l2 E2]. exists (l2 ++ l1). rewrite E2, E1, app_assoc. split; [done|]. left. rewrite fmap_app. set_solver.
      + destruct (IH j Hj Hr2) as (l2 & E2 & Hcase). exists (l2 ++ l1). rewrite E2, E1, app_assoc. split; [done|]. destruct Hcase as [Hin|(j2 & Hj2 & Hpat2)].
        * left. rewrite fmap_app. set_solver.
        * right. exists j2. split; [done|]. rewrite length_app. lia. }
  destruct Hgen as (l & Hl & Hcase). exists l. split; [done|]. intros Hlen. destruct Hcase as [|(j & _ & Hpat)]; [done|exfalso].
  pose proof (distance_bound (st_cursor s) p (rn_cursor _ Hr)). unfold patience in Hpat.
  assert (st_cursor s' < 7) by (eapply rn_cursor, reachable_running; by etrans). pose proof (distance_bound (st_cursor s') p ltac:(done)). destruct (st_waiting s); lia.
Qed.
End WriteStore.
Arguments request : clear implicits.
Arguments WriteStore : clear implicits.

(** ** The theorems on a concrete run *)

Definition env0 : Env := {| env_now := fun _ => 0%Z; env_rand := fun _ => EmptyString |}.
Definition adds (n : Z) : request Z := {| q_fn := modify (fun d => d + n)%Z; q_caller := Z.to_nat n |}.
(** A background write is sent first, critical ones keep coming. *)
Definition sent_to (p : Priority) (n : Z) (s : WriteStore Z) : WriteStore Z := default s (send p (adds n) s).
Definition rounds (n : nat) (s : WriteStore Z) : WriteStore Z := Nat.iter n (fun s => round Critical env0 None (sent_to Critical 1 s)) s.
Lemma sent_runs p n s : rtc wstep s (sent_to p n s).
Proof. unfold sent_to. destruct (send p (adds n) s) as [s'|] eqn:E; [|done]. apply rtc_once. by eapply ws_send. Qed.
Lemma rounds_run n s : rtc wstep s (rounds n s).
Proof. induction n as [|n IH]; [done|]. cbn. etrans; [exact IH|]. etrans; [apply (sent_runs Critical 1)|]. apply rtc_once, ws_round. Qed.

(** A background write and nine critical ones, in a run of nine rounds. *)
Lemma rounds_traced n : exists sent, wtrace 0%Z sent (rounds n (sent_to Background 100 (opened 0%Z))).
Proof.
  assert (Hsend : forall sent s p k, wtrace 0%Z sent s -> exists sent', wtrace 0%Z sent' (sent_to p k s)).
  { intros sent s p k Hs. unfold sent_to. destruct (send p (adds k) s) as [s'|] eqn:E; [|by exists sent]. eexists. by eapply wt_send. }
  induction n as [|n [sent IH]]; [eapply Hsend; constructor|]. cbn. destruct (Hsend _ _ Critical 1%Z IH) as [sent' Hs]. exists sent'. by constructor.
Qed.
Lemma writes_serial_witness : exists sent ts, explains 0%Z sent ts (rounds 9 (sent_to Background 100 (opened 0%Z))) /\
  st_db (rounds 9 (sent_to Background 100 (opened 0%Z))) = 108%Z.
Proof.
  destruct (rounds_traced 9) as [sent Ht]. destruct (writes_serial 0%Z sent _ Ht) as [ts Hx]. exists sent, ts. split; [exact Hx|vm_compute; reflexivity].
Defined.
Lemma writes_wait_witness : adds 100 ∈ (st_done (rounds 9 (sent_to Background 100 (opened 0%Z)))).*1.
Proof.
  destruct (writes_wait 0%Z (sent_to Background 100 (opened 0%Z)) (rounds 9 (sent_to Background 100 (opened 0%Z))) Background 0 (adds 100)) as (_ & _ & l & Hl & Hin).
  - apply sent_runs.
  - reflexivity.
  - apply rounds_run.
  - rewrite Hl, fmap_app. apply elem_of_app. left. apply Hin.
    assert (Hn : length (st_done (rounds 9 (sent_to Background 100 (opened 0%Z)))) = 9) by (vm_compute; reflexivity).
    rewrite Hl, length_app in Hn. change (length (st_done (sent_to Background 100 (opened 0%Z)))) with 0 in Hn. lia.
Defined.
