(* ===== verification/MuxPool.v ===== *)
(** * Multiplexed carriers (internal/tunnel/mux.go)

    Streams to one exit share a carrier.  The pool dials at most one carrier
    per key at a time, keeps at most 64, puts at most 256 streams on each and
    closes them all when it is closed.

    An entry is a pointer into [mp_entries]; a carrier is a yamux session, of
    which the pool uses the number of streams and whether it is closed.  The
    mutex of the pool makes each critical section one step; [mp_dialing] are
    the goroutines of [connectMux], [mp_workers] those of [openStream], with
    whether [OpenStream] has returned. *)

From S2P Require Import Prelude Tx.
From stdpp Require Import base gmap strings list relations.
From Stdlib Require Import Ascii String.
Local Open Scope string_scope.
Local Open Scope Z_scope.
Local Abbreviation length := List.length.

Definition maxCarriers : Z := 64.
Definition maxStreams : Z := 256.
Definition ErrClosed : error := ErrMsg "use of closed network connection".

Record carrier := { cr_streams : Z; cr_closed : bool }.
Record muxEntry := { me_ready : bool; me_session : option nat; me_err : option error; me_opening : Z }.
Record MuxPool := {
  mp_sessions : gmap string nat; mp_closed : bool; mp_entries : list muxEntry; mp_carriers : list carrier;
  mp_dialing : list (string * nat); mp_workers : list (nat * bool)
}.
Definition new_pool : MuxPool :=
  {| mp_sessions := ∅; mp_closed := false; mp_entries := []; mp_carriers := []; mp_dialing := []; mp_workers := [] |}.
Definition new_entry : muxEntry := {| me_ready := false; me_session := None; me_err := None; me_opening := 0 |}.

Definition set_sessions (m : gmap string nat) (p : MuxPool) : MuxPool :=
  {| mp_sessions := m; mp_closed := mp_closed p; mp_entries := mp_entries p; mp_carriers := mp_carriers p; mp_dialing := mp_dialing p; mp_workers := mp_workers p |}.
Definition set_entries (l : list muxEntry) (p : MuxPool) : MuxPool :=
  {| mp_sessions := mp_sessions p; mp_closed := mp_closed p; mp_entries := l; mp_carriers := mp_carriers p; mp_dialing := mp_dialing p; mp_workers := mp_workers p |}.
Definition set_carriers (l : list carrier) (p : MuxPool) : MuxPool :=
  {| mp_sessions := mp_sessions p; mp_closed := mp_closed p; mp_entries := mp_entries p; mp_carriers := l; mp_dialing := mp_dialing p; mp_workers := mp_workers p |}.
Definition set_dialing (l : list (string * nat)) (p : MuxPool) : MuxPool :=
  {| mp_sessions := mp_sessions p; mp_closed := mp_closed p; mp_entries := mp_entries p; mp_carriers := mp_carriers p; mp_dialing := l; mp_workers := mp_workers p |}.
Definition set_workers (l : list (nat * bool)) (p : MuxPool) : MuxPool :=
  {| mp_sessions := mp_sessions p; mp_closed := mp_closed p; mp_entries := mp_entries p; mp_carriers := mp_carriers p; mp_dialing := mp_dialing p; mp_workers := l |}.

(** [entry.session != nil && entry.session.IsClosed()] *)
Definition gone (p : MuxPool) (r : nat) : bool :=
  match mp_entries p !! r with
  | Some {| me_session := Some c |} => match mp_carriers p !! c with Some k => cr_closed k | None => true end
  | _ => false
  end.
Definition prune (p : MuxPool) : MuxPool :=
  set_sessions (filter (fun kr : string * nat => gone p kr.2 = false) (mp_sessions p)) p.

(** [muxCarrier] up to where it waits: the entry to wait for. *)
Definition muxCarrier (key : string) (p : MuxPool) : res nat * MuxPool :=
  if mp_closed p then (Err ErrClosed, p) else
  let p := prune p in
  match mp_sessions p !! key with
  | Some r => (Ok r, p)
  | None =>
      if maxCarriers <=? Z.of_nat (size (mp_sessions p)) then (Err (ErrMsg "Mux carrier capacity reached"), p) else
      let r := length (mp_entries p) in
      (Ok r, set_dialing ((key, r) :: mp_dialing p) (set_entries (mp_entries p ++ [new_entry])%list (set_sessions (<[key := r]> (mp_sessions p)) p)))
  end.

(** The end of [connectMux]: [dialled] is an error, or a new carrier, which is
    closed again when the pool has been closed meanwhile. *)
Definition connectMux (key : string) (r : nat) (dialled : option error) (p : MuxPool) : MuxPool :=
  let c := length (mp_carriers p) in
  let err := if mp_closed p then Some ErrClosed else dialled in
  let carriers := match dialled with None => (mp_carriers p ++ [{| cr_streams := 0; cr_closed := bool_decide (err <> None) |}])%list | Some _ => mp_carriers p end in
  let entry e := {| me_ready := true; me_session := match err with None => Some c | Some _ => me_session e end; me_err := err; me_opening := me_opening e |} in
  let sessions := match err with
                  | Some _ => if bool_decide (mp_sessions p !! key = Some r) then delete key (mp_sessions p) else mp_sessions p
                  | None => mp_sessions p
                  end in
  set_sessions sessions (set_carriers carriers (set_entries (alter entry r (mp_entries p))
    (set_dialing (List.filter (fun d : string * nat => negb (Nat.eqb d.2 r)) (mp_dialing p)) p))).

(** What a waiter of the entry gets. *)
Definition awaited (r : nat) (p : MuxPool) : option (res nat) :=
  match mp_entries p !! r with
  | Some e => if me_ready e then Some (match me_err e with None => Ok r | Some err => Err err end) else None
  | None => None
  end.

(** The reservation of [dialMux] on the entry it got. *)
Definition reserve (r : nat) (p : MuxPool) : res unit * MuxPool :=
  if mp_closed p then (Err ErrClosed, p) else
  match mp_entries p !! r with
  | Some {| me_ready := true; me_session := Some c; me_opening := n |} =>
      match mp_carriers p !! c with
      | Some k =>
          if maxStreams <=? cr_streams k + n then (Err (ErrMsg "Mux stream capacity reached"), p) else
          (Ok tt, set_workers ((r, false) :: mp_workers p)
                    (set_entries (alter (fun e => {| me_ready := me_ready e; me_session := me_session e; me_err := me_err e; me_opening := me_opening e + 1 |}) r (mp_entries p)) p))
      | None => (Err ErrClosed, p)
      end
  | _ => (Err ErrClosed, p)
  end.
(** A worker of [openStream]: [OpenStream] returns, then the reservation is
    given back. *)
Definition add_stream (n : Z) (k : carrier) : carrier := {| cr_streams := cr_streams k + n; cr_closed := cr_closed k |}.
Definition OpenStream (r i : nat) (ok : bool) (p : MuxPool) : MuxPool :=
  let p' := set_workers (<[i := (r, true)]> (mp_workers p)) p in
  match mp_entries p !! r with
  | Some {| me_session := Some c |} => if ok then set_carriers (alter (add_stream 1) c (mp_carriers p)) p' else p'
  | _ => p'
  end.
Definition release (r i : nat) (p : MuxPool) : MuxPool :=
  set_workers (delete i (mp_workers p))
    (set_entries (alter (fun e => {| me_ready := me_ready e; me_session := me_session e; me_err := me_err e; me_opening := me_opening e - 1 |}) r (mp_entries p)) p).

(** [Close]: the carriers of the entries that have one are closed too. *)
Definition sessions_of (p : MuxPool) : list nat :=
  omap (fun kr : string * nat => mp_entries p !! kr.2 ≫= me_session) (map_to_list (mp_sessions p)).
Definition close_carriers (cs : list nat) (l : list carrier) : list carrier :=
  imap (fun i k => if bool_decide (i ∈ cs) then {| cr_streams := cr_streams k; cr_closed := true |} else k) l.
Definition ClosePool (p : MuxPool) : MuxPool :=
  if mp_closed p then p else
  {| mp_sessions := ∅; mp_closed := true; mp_entries := mp_entries p; mp_carriers := close_carriers (sessions_of p) (mp_carriers p);
     mp_dialing := mp_dialing p; mp_workers := mp_workers p |}.

Inductive mstep (p : MuxPool) : MuxPool -> Prop :=
  | ms_carrier key : mstep p (muxCarrier key p).2
  | ms_connect key r dialled : (key, r) ∈ mp_dialing p -> mstep p (connectMux key r dialled p)
  | ms_reserve r : mstep p (reserve r p).2
  | ms_open r i ok : mp_workers p !! i = Some (r, false) -> mstep p (OpenStream r i ok p)
  | ms_release r i : mp_workers p !! i = Some (r, true) -> mstep p (release r i p)
  | ms_close : mstep p (ClosePool p)
  (* a stream ends; a carrier breaks *)
  | ms_end c k : mp_carriers p !! c = Some k -> 0 < cr_streams k -> mstep p (set_carriers (alter (add_stream (-1)) c (mp_carriers p)) p)
  | ms_break c : mstep p (set_carriers (alter (fun k => {| cr_streams := cr_streams k; cr_closed := true |}) c (mp_carriers p)) p).
