(* ===== verification/MuxPoolInv.v ===== *)
(** * What the pool of carriers guarantees *)

From S2P Require Import Prelude Tx MuxPool.
From stdpp Require Import base gmap strings list relations.
From Stdlib Require Import Ascii String.
Local Open Scope Z_scope.
Local Abbreviation length := List.length.

(** The workers of an entry, and those whose stream is still to be opened. *)
Definition workers_of (r : nat) (ws : list (nat * bool)) : Z := sum_over (fun w => if Nat.eqb w.1 r then 1 else 0) ws.
Definition held (r : nat) (ws : list (nat * bool)) : Z := sum_over (fun w => if Nat.eqb w.1 r && negb w.2 then 1 else 0) ws.

Lemma held_le r ws : 0 <= held r ws <= workers_of r ws.
Proof. unfold held, workers_of. induction ws as [|[r' b] ws IH]; cbn; [lia|]. destruct (Nat.eqb r' r), b; cbn; lia. Qed.
Lemma held_worker r ws : (r, false) ∈ ws -> 0 < held r ws.
Proof.
  induction ws as [|w ws IH]; [set_solver|]. pose proof (held_le r ws). intros [<-|Hin]%elem_of_cons; unfold held in *; cbn.
  - rewrite Nat.eqb_refl. cbn. lia.
  - specialize (IH Hin). destruct (Nat.eqb w.1 r && negb w.2); lia.
Qed.

Record pool_inv (p : MuxPool) : Prop := {
  pi_size : Z.of_nat (size (mp_sessions p)) <= maxCarriers;
  pi_opening r e : mp_entries p !! r = Some e -> me_opening e = workers_of r (mp_workers p);
  pi_streams r e c k : mp_entries p !! r = Some e -> me_session e = Some c -> mp_carriers p !! c = Some k -> cr_streams k + held r (mp_workers p) <= maxStreams;
  pi_nonneg c k : mp_carriers p !! c = Some k -> 0 <= cr_streams k <= maxStreams;
  pi_session r e c : mp_entries p !! r = Some e -> me_session e = Some c -> me_ready e = true /\ is_Some (mp_carriers p !! c);
  pi_own r r' e e' c : mp_entries p !! r = Some e -> mp_entries p !! r' = Some e' -> me_session e = Some c -> me_session e' = Some c -> r = r';
  pi_idle r e : mp_entries p !! r = Some e -> me_session e = None -> workers_of r (mp_workers p) = 0;
  pi_new r : mp_entries p !! r = None -> workers_of r (mp_workers p) = 0;
  pi_dialing key r : (key, r) ∈ mp_dialing p -> exists e, mp_entries p !! r = Some e /\ me_ready e = false /\ (mp_closed p = false -> mp_sessions p !! key = Some r);
  pi_awaited r e : mp_entries p !! r = Some e -> me_ready e = false -> exists key, (key, r) ∈ mp_dialing p;
  pi_map key r : mp_sessions p !! key = Some r -> is_Some (mp_entries p !! r);
  pi_alive c k : mp_carriers p !! c = Some k -> cr_closed k = false ->
    exists key r e, mp_sessions p !! key = Some r /\ mp_entries p !! r = Some e /\ me_session e = Some c;
  pi_closed : mp_closed p = true -> mp_sessions p = ∅
}.

Lemma new_pool_inv : pool_inv new_pool.
Proof. split; cbn; try done; set_solver. Qed.

Lemma prune_keeps p : pool_inv p -> pool_inv (prune p).
Proof.
  intros Hi. assert (Hsub : mp_sessions (prune p) ⊆ mp_sessions p) by apply map_filter_subseteq.
  destruct Hi. split; cbn [prune set_sessions mp_sessions mp_entries mp_carriers mp_dialing mp_workers mp_closed]; try eassumption.
  - etrans; [|eassumption]. apply Nat2Z.inj_le. by apply map_subseteq_size.
  - intros key r Hd. destruct (pi_dialing0 key r Hd) as (e & He & Hr & Hm). exists e. split; [done|]. split; [done|]. intros Hc.
    apply map_lookup_filter_Some. split; [by apply Hm|]. cbn. unfold gone. rewrite He. destruct e as [rd [c|] er op]; [|done]. cbn in *.
    destruct (pi_session0 r _ c He eq_refl) as [Hrd _]. cbn in Hrd. congruence.
  - intros key r Hk. eapply pi_map0. by eapply lookup_weaken.
  - intros c k Hk Ho. destruct (pi_alive0 c k Hk Ho) as (key & r & e & Hm & He & Hs). exists key, r, e. split; [|done]. apply map_lookup_filter_Some. split; [done|].
    cbn. unfold gone. rewrite He. destruct e as [rd s er op]. cbn in Hs. subst s. by rewrite Hk.
  - intros Hc. rewrite (pi_closed0 Hc). apply map_filter_empty.
Qed.

Lemma muxCarrier_inv key p : pool_inv p -> pool_inv (muxCarrier key p).2.
Proof.
  intros Hi. unfold muxCarrier. destruct (mp_closed p) eqn:Ec; [done|]. apply prune_keeps in Hi. set (q := prune p) in *.
  assert (Hq : mp_closed q = false) by done. clearbody q. destruct (mp_sessions q !! key) as [r|] eqn:Ek; [done|].
  destruct (Z.leb_spec maxCarriers (Z.of_nat (size (mp_sessions q)))) as [|Hlt]; [done|]. cbn [snd]. set (n := length (mp_entries q)).
  assert (Hnew : forall r e, (mp_entries q ++ [new_entry]) !! r = Some e -> mp_entries q !! r = Some e \/ (r = n /\ e = new_entry)).
  { intros r e [?|[? ?]]%lookup_app_Some; [by left|right]. destruct (r - length (mp_entries q))%nat as [|] eqn:E; [|done]. cbn in *. split; [unfold n; lia|congruence]. }
  assert (Hold : forall r e, mp_entries q !! r = Some e -> (mp_entries q ++ [new_entry]) !! r = Some e) by (intros; by apply lookup_app_l_Some).
  assert (Hat : (mp_entries q ++ [new_entry]) !! n = Some new_entry) by (apply list_lookup_middle; done).
  destruct Hi. split; cbn [set_dialing set_entries set_sessions mp_sessions mp_entries mp_carriers mp_dialing mp_workers mp_closed]; try eassumption.
  - rewrite map_size_insert_None by done. lia.
  - intros r e [He|[-> ->]]%Hnew; [by apply pi_opening0|]. cbn. symmetry. apply pi_new0, lookup_ge_None_2. unfold n. lia.
  - intros r e c k [He|[-> ->]]%Hnew; [by eapply pi_streams0|done].
  - intros r e c [He|[-> ->]]%Hnew; [by eapply pi_session0|done].
  - intros r r' e e' c [He|[-> ->]]%Hnew [He'|[-> ->]]%Hnew; try done. by eapply pi_own0.
  - intros r e [He|[-> ->]]%Hnew; [by eapply pi_idle0|]. intros _. apply pi_new0, lookup_ge_None_2. unfold n. lia.
  - intros r Hr. apply pi_new0. destruct (mp_entries q !! r) as [e|] eqn:E; [|done]. apply Hold in E. congruence.
  - intros key' r [[= -> ->]|Hd]%elem_of_cons.
    + exists new_entry. split; [done|]. split; [done|]. intros _. apply lookup_insert_eq.
    + destruct (pi_dialing0 key' r Hd) as (e & He & Hr & Hm). exists e. split; [by apply Hold|]. split; [done|]. intros Hc. specialize (Hm Hc).
      rewrite lookup_insert_ne; [done|congruence].
  - intros r e [He|[-> ->]]%Hnew Hr; [|exists key; by left]. destruct (pi_awaited0 r e He Hr) as [key' ?]. exists key'. by right.
  - intros key' r [[<- <-]|[Hne Hk]]%lookup_insert_Some; [by eexists|]. destruct (pi_map0 key' r Hk) as [e He]. exists e. by apply Hold.
  - intros c k Hk Ho. destruct (pi_alive0 c k Hk Ho) as (key' & r & e & Hm & He & Hs). exists key', r, e. split; [|split; [by apply Hold|done]].
    rewrite lookup_insert_ne; [done|congruence].
  - congruence.
Qed.


(** The dial of [r] ends: its entry is ready, and it is no longer dialled. *)
Definition finished (r : nat) (err : option error) (s : option nat) (p : MuxPool) : MuxPool :=
  set_entries (alter (fun e => {| me_ready := true; me_session := s; me_err := err; me_opening := me_opening e |}) r (mp_entries p))
    (set_dialing (List.filter (fun d : string * nat => negb (Nat.eqb d.2 r)) (mp_dialing p)) p).
Ltac pool_fields := cbn [finished set_sessions set_carriers set_entries set_dialing set_workers mp_sessions mp_entries mp_carriers mp_dialing mp_workers mp_closed].
Lemma dialing_left r d l : d ∈ List.filter (fun d : string * nat => negb (Nat.eqb d.2 r)) l <-> d ∈ l /\ d.2 <> r.
Proof. rewrite !list_elem_of_In, filter_In, negb_true_iff, Nat.eqb_neq. done. Qed.
Lemma alter_at {A} (f : A -> A) (l : list A) i j y : alter f i l !! j = Some y -> exists x, l !! j = Some x /\ ((i = j /\ y = f x) \/ (i <> j /\ y = x)).
Proof.
  destruct (decide (i = j)) as [<-|Hne].
  - rewrite list_lookup_alter_eq. intros (x & Hx & ->)%fmap_Some. exists x. auto.
  - rewrite list_lookup_alter_ne by done. intros Hy. exists y. auto.
Qed.
Lemma alter_other {A} (f : A -> A) (l : list A) i j x : l !! j = Some x -> exists y, alter f i l !! j = Some y.
Proof. destruct (decide (i = j)) as [<-|Hne]; intros Hx; [rewrite list_lookup_alter_eq, Hx; cbn; eauto|rewrite list_lookup_alter_ne; eauto]. Qed.
Lemma alter_None {A} (f : A -> A) (l : list A) i j : alter f i l !! j = None -> l !! j = None.
Proof. destruct (l !! j) as [x|] eqn:E; [|done]. destruct (alter_other f l i j x E) as [y ->]. done. Qed.

Lemma dialed_entry p key r : pool_inv p -> (key, r) ∈ mp_dialing p ->
  exists e, mp_entries p !! r = Some e /\ me_ready e = false /\ me_session e = None /\ (mp_closed p = false -> mp_sessions p !! key = Some r).
Proof.
  intros Hi Hd. destruct (pi_dialing _ Hi _ _ Hd) as (e & He & Hr & Hm). exists e. split_and!; [done|done| |done].
  destruct (me_session e) as [c|] eqn:E; [|done]. destruct (pi_session _ Hi _ _ _ He E). congruence.
Qed.
(** Entries after the dial of [r] ended. *)
Lemma finished_entry r err s p r' e' :
  alter (fun e => {| me_ready := true; me_session := s; me_err := err; me_opening := me_opening e |}) r (mp_entries p) !! r' = Some e' ->
  exists e, mp_entries p !! r' = Some e /\ me_opening e' = me_opening e /\
  ((r = r' /\ me_ready e' = true /\ me_session e' = s) \/ (r <> r' /\ e' = e)).
Proof. intros (e & He & [[-> ->]|[Hne ->]])%alter_at; exists e; cbn; auto 6. Qed.

Lemma connect_ok_inv p key r : pool_inv p -> (key, r) ∈ mp_dialing p -> mp_closed p = false -> pool_inv (connectMux key r None p).
Proof.
  intros Hi Hd Hc. destruct (dialed_entry p key r Hi Hd) as (e0 & He0 & Hr0 & Hs0 & Hm0). set (c := length (mp_carriers p)).
  assert (Heq : connectMux key r None p = set_sessions (mp_sessions p) (set_carriers (mp_carriers p ++ [{| cr_streams := 0; cr_closed := false |}])
    (finished r None (Some c) p))) by (unfold connectMux; by rewrite Hc). rewrite Heq. clear Heq.
  assert (Hcar : forall c' k, (mp_carriers p ++ [{| cr_streams := 0; cr_closed := false |}]) !! c' = Some k ->
    (mp_carriers p !! c' = Some k /\ c' <> c) \/ (c' = c /\ k = {| cr_streams := 0; cr_closed := false |})).
  { intros c' k [Hk|[Hge Hk]]%lookup_app_Some; [left; split; [done|]|right].
    - apply lookup_lt_Some in Hk. unfold c. lia.
    - destruct (c' - length (mp_carriers p))%nat eqn:E; [|done]. cbn in Hk. split; [unfold c; lia|congruence]. }
  assert (Hlt : forall r' e' c', mp_entries p !! r' = Some e' -> me_session e' = Some c' -> c' <> c).
  { intros r' e' c' He' Hs' ->. destruct (pi_session _ Hi _ _ _ He' Hs') as [_ [k Hk]]. apply lookup_lt_Some in Hk. unfold c in Hk. lia. }
  pose proof (finished_entry r None (Some c) p) as Hent. destruct Hi. split; pool_fields.
  - done.
  - intros r' e' (e & He & -> & _)%Hent. by apply pi_opening0.
  - intros r' e' c' k (e & He & _ & [(<- & _ & Hs)|(Hne & ->)])%Hent Hs' Hk; rewrite ?Hs in Hs'.
    + injection Hs' as <-. destruct (Hcar _ _ Hk) as [[_ Hn]|[_ ->]]; [done|]. cbn [cr_streams]. pose proof (pi_idle0 _ _ He0 Hs0).
      pose proof (held_le r (mp_workers p)). unfold maxStreams. lia.
    + destruct (Hcar _ _ Hk) as [[Hk' _]|[-> _]]; [by eapply pi_streams0|by destruct (Hlt _ _ _ He Hs')].
  - intros c' k Hk. destruct (Hcar _ _ Hk) as [[Hk' _]|[_ ->]]; [by eapply pi_nonneg0|cbn; unfold maxStreams; lia].
  - intros r' e' c' (e & He & _ & [(<- & Hr & Hs)|(Hne & ->)])%Hent Hs'.
    + rewrite Hs in Hs'. injection Hs' as <-. split; [done|]. unfold c. rewrite list_lookup_middle by done. eauto.
    + destruct (pi_session0 _ _ _ He Hs') as [? [k Hk]]. split; [done|]. exists k. by apply lookup_app_l_Some.
  - intros r1 r2 e1 e2 c' (e1' & He1 & _ & C1)%Hent (e2' & He2 & _ & C2)%Hent S1 S2.
    destruct C1 as [(<- & _ & T1)|(N1 & ->)], C2 as [(<- & _ & T2)|(N2 & ->)]; try done.
    + rewrite T1 in S1. injection S1 as <-. by destruct (Hlt _ _ _ He2 S2).
    + rewrite T2 in S2. injection S2 as <-. by destruct (Hlt _ _ _ He1 S1).
    + by eapply pi_own0.
  - intros r' e' (e & He & _ & [(<- & _ & Hs)|(Hne & ->)])%Hent Hs'; [congruence|by eapply pi_idle0].
  - intros r' Hn. eapply pi_new0. by eapply alter_None.
  - intros key' r' [Hd' Hne]%dialing_left. cbn in Hne. destruct (pi_dialing0 _ _ Hd') as (e & He & Hrd & Hm). exists e.
    rewrite list_lookup_alter_ne by done. done.
  - intros r' e' (e & He & _ & [(<- & Hr & _)|(Hne & ->)])%Hent Hr'; [congruence|]. destruct (pi_awaited0 _ _ He Hr') as [key' Hk']. exists key'.
    apply dialing_left. split; [done|]. cbn. done.
  - intros key' r' Hk. destruct (pi_map0 _ _ Hk) as [e He]. destruct (alter_other (fun e => {| me_ready := true; me_session := Some c; me_err := None; me_opening := me_opening e |}) _ r _ _ He) as [y Hy].
    rewrite Hy. by eexists.
  - intros c' k Hk Ho. destruct (Hcar _ _ Hk) as [[Hk' _]|[-> _]].
    + destruct (pi_alive0 _ _ Hk' Ho) as (key' & r' & e & Hm & He & Hs). exists key', r', e. split; [done|]. split; [|done].
      rewrite list_lookup_alter_ne; [done|]. intros <-. congruence.
    + eexists key, r, _. split; [by apply Hm0|]. rewrite list_lookup_alter_eq, He0. cbn. done.
  - congruence.
Qed.

Lemma connect_err_inv p key r dialled : pool_inv p -> (key, r) ∈ mp_dialing p -> (mp_closed p = true \/ dialled <> None) -> pool_inv (connectMux key r dialled p).
Proof.
  intros Hi Hd Hcase. destruct (dialed_entry p key r Hi Hd) as (e0 & He0 & Hr0 & Hs0 & Hm0).
  set (sessions := if bool_decide (mp_sessions p !! key = Some r) then delete key (mp_sessions p) else mp_sessions p).
  assert (Heq : exists err carriers, connectMux key r dialled p = set_sessions sessions (set_carriers carriers (finished r err None p)) /\
    (carriers = mp_carriers p \/ carriers = mp_carriers p ++ [{| cr_streams := 0; cr_closed := true |}])).
  { assert (Hf : forall err, alter (fun e => {| me_ready := true; me_session := me_session e; me_err := Some err; me_opening := me_opening e |}) r (mp_entries p)
      = alter (fun e => {| me_ready := true; me_session := None; me_err := Some err; me_opening := me_opening e |}) r (mp_entries p)).
    { intros err. apply list_alter_ext; [|done]. intros e He. rewrite He0 in He. injection He as <-. by rewrite Hs0. }
    unfold connectMux, finished. destruct (mp_closed p), dialled as [err|]; [| | |by destruct Hcase].
    - exists (Some ErrClosed), (mp_carriers p). rewrite Hf. auto.
    - exists (Some ErrClosed), (mp_carriers p ++ [{| cr_streams := 0; cr_closed := true |}]). rewrite Hf. auto.
    - exists (Some err), (mp_carriers p). rewrite Hf. auto. }
  destruct Heq as (err & carriers & -> & Hcars).
  assert (Hcar : forall c k, carriers !! c = Some k -> mp_carriers p !! c = Some k \/ (cr_streams k = 0 /\ cr_closed k = true /\ c = length (mp_carriers p))).
  { intros c k. destruct Hcars as [-> | ->]; [by left|]. intros [?|[Hge Hk]]%lookup_app_Some; [by left|right].
    destruct (c - length (mp_carriers p))%nat eqn:E; [|done]. cbn in Hk. injection Hk as <-. split_and!; [done|done|lia]. }
  assert (Hkeep : forall c k, mp_carriers p !! c = Some k -> carriers !! c = Some k) by (intros c k Hk; destruct Hcars as [-> | ->]; [done|by apply lookup_app_l_Some]).
  assert (Hses : sessions ⊆ mp_sessions p) by (unfold sessions; destruct (bool_decide _); [apply delete_subseteq|done]).
  assert (Hstay : forall key' r', mp_sessions p !! key' = Some r' -> r' <> r -> sessions !! key' = Some r').
  { intros key' r' Hk Hne. unfold sessions. case_bool_decide; [|done]. rewrite lookup_delete_ne; [done|congruence]. }
  pose proof (finished_entry r err None p) as Hent. destruct Hi. split; pool_fields.
  - etrans; [|eassumption]. apply Nat2Z.inj_le. by apply map_subseteq_size.
  - intros r' e' (e & He & -> & _)%Hent. by apply pi_opening0.
  - intros r' e' c' k (e & He & _ & [(<- & _ & Hs)|(Hne & ->)])%Hent Hs' Hk; [congruence|]. destruct (Hcar _ _ Hk) as [Hk'|(_ & _ & ->)]; [by eapply pi_streams0|].
    destruct (pi_session0 _ _ _ He Hs') as [_ [k' Hk']]. apply lookup_lt_Some in Hk'. lia.
  - intros c' k Hk. destruct (Hcar _ _ Hk) as [Hk'|(-> & _)]; [by eapply pi_nonneg0|unfold maxStreams; lia].
  - intros r' e' c' (e & He & _ & [(<- & Hr & Hs)|(Hne & ->)])%Hent Hs'; [congruence|]. destruct (pi_session0 _ _ _ He Hs') as [? [k Hk]]. split; [done|]. exists k. by apply Hkeep.
  - intros r1 r2 e1 e2 c' (e1' & He1 & _ & C1)%Hent (e2' & He2 & _ & C2)%Hent S1 S2.
    destruct C1 as [(<- & _ & T1)|(N1 & ->)], C2 as [(<- & _ & T2)|(N2 & ->)]; try done; try congruence. by eapply pi_own0.
  - intros r' e' (e & He & _ & [(<- & _ & Hs)|(Hne & ->)])%Hent Hs'; [exact (pi_idle0 _ _ He0 Hs0)|by eapply pi_idle0].
  - intros r' Hn. eapply pi_new0. by eapply alter_None.
  - intros key' r' [Hd' Hne]%dialing_left. cbn in Hne. destruct (pi_dialing0 _ _ Hd') as (e & He & Hrd & Hm). exists e.
    rewrite list_lookup_alter_ne by done. split; [done|]. split; [done|]. intros Hc. apply Hstay; [by apply Hm|done].
  - intros r' e' (e & He & _ & [(<- & Hr & _)|(Hne & ->)])%Hent Hr'; [congruence|]. destruct (pi_awaited0 _ _ He Hr') as [key' Hk']. exists key'.
    apply dialing_left. split; [done|]. cbn. done.
  - intros key' r' Hk. destruct (pi_map0 key' r') as [e He]; [by eapply lookup_weaken|].
    destruct (alter_other (fun e => {| me_ready := true; me_session := None; me_err := err; me_opening := me_opening e |}) _ r _ _ He) as [y Hy]. rewrite Hy. by eexists.
  - intros c' k Hk Ho. destruct (Hcar _ _ Hk) as [Hk'|(_ & ? & _)]; [|congruence]. destruct (pi_alive0 _ _ Hk' Ho) as (key' & r' & e & Hm & He & Hs).
    assert (r' <> r) by congruence. exists key', r', e. split; [by apply Hstay|]. split; [|done]. by rewrite list_lookup_alter_ne.
  - intros Hc. unfold sessions. rewrite (pi_closed0 Hc). case_bool_decide; [apply delete_empty|done].
Qed.

(** A step that leaves the map and the dials as they are. *)
Lemma quiet_inv p p' : pool_inv p -> mp_sessions p' = mp_sessions p -> mp_closed p' = mp_closed p -> mp_dialing p' = mp_dialing p ->
  (forall r e', mp_entries p' !! r = Some e' -> exists e, mp_entries p !! r = Some e /\ me_ready e' = me_ready e /\ me_session e' = me_session e /\
     me_opening e' - workers_of r (mp_workers p') = me_opening e - workers_of r (mp_workers p)) ->
  (forall r e, mp_entries p !! r = Some e -> exists e', mp_entries p' !! r = Some e' /\ me_ready e' = me_ready e /\ me_session e' = me_session e) ->
  (forall r, (forall e, mp_entries p !! r = Some e -> me_session e = None) -> workers_of r (mp_workers p') = workers_of r (mp_workers p)) ->
  (forall c k', mp_carriers p' !! c = Some k' -> exists k, mp_carriers p !! c = Some k /\ (cr_closed k' = false -> cr_closed k = false) /\ 0 <= cr_streams k' <= maxStreams) ->
  (forall c k, mp_carriers p !! c = Some k -> is_Some (mp_carriers p' !! c)) ->
  (forall r e c k', mp_entries p !! r = Some e -> me_session e = Some c -> mp_carriers p' !! c = Some k' -> cr_streams k' + held r (mp_workers p') <= maxStreams) ->
  pool_inv p'.
Proof.
  intros [] Hs Hc Hd Hent Hent' Hidle Hcar Hcar' Hstr. split; rewrite ?Hs, ?Hc, ?Hd; try done.
  - intros r e' (e & He & _ & _ & Ho)%Hent. rewrite (pi_opening0 _ _ He) in Ho. lia.
  - intros r e' c k (e & He & _ & E & _)%Hent Hse Hk. rewrite E in Hse. by eapply Hstr.
  - intros c k' (k & _ & _ & ?)%Hcar. done.
  - intros r e' c (e & He & -> & -> & _)%Hent Hse. destruct (pi_session0 _ _ _ He Hse) as [? [k Hk]]. split; [done|]. by eapply Hcar'.
  - intros r r' e1 e2 c (e & He & _ & -> & _)%Hent (e' & He' & _ & -> & _)%Hent. by eapply pi_own0.
  - intros r e' (e & He & _ & -> & _)%Hent Hse. rewrite Hidle; [by eapply pi_idle0|]. congruence.
  - intros r Hr. assert (Hn : mp_entries p !! r = None). { destruct (mp_entries p !! r) eqn:E; [|done]. destruct (Hent' _ _ E) as (? & ? & _). congruence. }
    rewrite Hidle; [by apply pi_new0|]. congruence.
  - intros key r Hk. destruct (pi_dialing0 _ _ Hk) as (e & He & Hr & Hm). destruct (Hent' _ _ He) as (e' & He' & Hr' & _). exists e'. split; [done|]. split; [congruence|done].
  - intros r e' (e & He & -> & _)%Hent. by apply pi_awaited0.
  - intros key r Hk. destruct (pi_map0 _ _ Hk) as [e He]. destruct (Hent' _ _ He) as (e' & He' & _). by eexists.
  - intros c k' (k & Hk & Ho & _)%Hcar Hop. destruct (pi_alive0 _ _ Hk (Ho Hop)) as (key & r & e & Hm & He & Hse). destruct (Hent' _ _ He) as (e' & He' & _ & E). exists key, r, e'. split_and!; [done|done|congruence].
Qed.

Definition with_opening (n : Z) (e : muxEntry) : muxEntry :=
  {| me_ready := me_ready e; me_session := me_session e; me_err := me_err e; me_opening := me_opening e + n |}.

Lemma reserve_keeps p r : pool_inv p -> pool_inv (reserve r p).2.
Proof.
  intros Hi. unfold reserve. destruct (mp_closed p); [done|]. destruct (mp_entries p !! r) as [[[] [c|] er n]|] eqn:He; try done.
  destruct (mp_carriers p !! c) as [k|] eqn:Hk; [|done]. destruct (Z.leb_spec maxStreams (cr_streams k + n)) as [|Hlt]; [done|].
  pose proof (pi_opening _ Hi _ _ He) as Hop. cbn in Hop. cbn [snd]. set (f := fun e : muxEntry => _). eapply quiet_inv; [exact Hi|done|done|done|..]; pool_fields.
  - intros r' e' (e & He' & Hc)%alter_at. exists e. split; [done|]. unfold workers_of. cbn [sum_over fst]. fold (workers_of r' (mp_workers p)).
    destruct Hc as [[<- ->]|[Hne ->]]; cbn.
    + rewrite Nat.eqb_refl. split_and!; [done|done|lia].
    + apply Nat.eqb_neq in Hne. rewrite Hne. split_and!; [done|done|lia].
  - intros r' e He'. destruct (decide (r = r')) as [<-|Hne]; [rewrite list_lookup_alter_eq, He'; cbn; eauto|rewrite list_lookup_alter_ne by done; eauto].
  - intros r' Hn. unfold workers_of. cbn [sum_over fst]. destruct (Nat.eqb_spec r r') as [<-|]; [|lia]. by specialize (Hn _ He).
  - intros c' k' Hk'. exists k'. split; [done|]. split; [done|by eapply pi_nonneg].
  - eauto.
  - intros r' e c' k' He' Hs' Hk'. pose proof (pi_streams _ Hi _ _ _ _ He' Hs' Hk') as Hst. unfold held. cbn [sum_over fst snd negb]. fold (held r' (mp_workers p)).
    destruct (Nat.eqb_spec r r') as [<-|]; cbn; [|lia]. rewrite He in He'. injection He' as <-. cbn in Hs'. injection Hs' as <-. rewrite Hk in Hk'. injection Hk' as <-.
    pose proof (held_le r (mp_workers p)). lia.
Qed.

Lemma workers_set r i p b : mp_workers p !! i = Some (r, b) -> forall r', workers_of r' (<[i := (r, true)]> (mp_workers p)) = workers_of r' (mp_workers p).
Proof. intros Hi r'. unfold workers_of. rewrite (sum_over_set _ _ _ _ _ Hi). cbn. lia. Qed.
Lemma held_set r i p : mp_workers p !! i = Some (r, false) -> forall r', held r' (<[i := (r, true)]> (mp_workers p)) = held r' (mp_workers p) - (if Nat.eqb r r' then 1 else 0).
Proof. intros Hi r'. unfold held. rewrite (sum_over_set _ _ _ _ _ Hi). cbn. rewrite andb_false_r, andb_true_r. lia. Qed.

Lemma OpenStream_inv p r i ok : pool_inv p -> mp_workers p !! i = Some (r, false) -> pool_inv (OpenStream r i ok p).
Proof.
  intros Hi Hw. unfold OpenStream. set (ws := <[i := (r, true)]> (mp_workers p)).
  assert (Hplain : forall carriers, (forall c k', carriers !! c = Some k' -> exists k, mp_carriers p !! c = Some k /\ cr_closed k' = cr_closed k /\ 0 <= cr_streams k' <= maxStreams /\
      forall r' e, mp_entries p !! r' = Some e -> me_session e = Some c -> cr_streams k' + held r' ws <= maxStreams) ->
    (forall c k, mp_carriers p !! c = Some k -> is_Some (carriers !! c)) -> pool_inv (set_carriers carriers (set_workers ws p))).
  { intros carriers Hc Hc'. eapply quiet_inv; [exact Hi|done|done|done|..]; pool_fields.
    - intros r' e He. exists e. unfold ws. rewrite (workers_set _ _ _ _ Hw). auto.
    - eauto.
    - intros r' _. apply (workers_set _ _ _ _ Hw).
    - intros c k' (k & Hk & E & Hb & _)%Hc. exists k. split; [done|]. split; [congruence|done].
    - done.
    - intros r' e c k' He Hs (k & _ & _ & _ & Hst)%Hc. by eapply Hst. }
  assert (Hsame : pool_inv (set_workers ws p)).
  { apply (Hplain (mp_carriers p)); [|eauto]. intros c k Hk. exists k. split_and!; [done|done|by eapply (pi_nonneg _ Hi)..|]. intros r' e He Hs. pose proof (pi_streams _ Hi _ _ _ _ He Hs Hk).
    unfold ws. rewrite (held_set _ _ _ Hw). destruct (Nat.eqb r r'); lia. }
  destruct (mp_entries p !! r) as [[rd [c|] er n]|] eqn:He; [|done|done]. destruct ok; [|done]. apply Hplain.
  - intros c' k' (k & Hk & [[<- ->]|[Hne ->]])%alter_at; exists k; cbn.
    + pose proof (pi_streams _ Hi _ _ _ _ He eq_refl Hk) as Hst. pose proof (held_worker r (mp_workers p) ltac:(by eapply list_elem_of_lookup_2)). destruct (pi_nonneg _ Hi _ _ Hk).
      split_and!; [done|done|lia|lia|]. intros r' e He' Hs'. assert (r = r') as <- by (eapply (pi_own _ Hi); [exact He|exact He'|done|done]).
      unfold ws. rewrite (held_set _ _ _ Hw), Nat.eqb_refl. lia.
    + split_and!; [done|done|by eapply (pi_nonneg _ Hi)..|]. intros r' e He' Hs'. pose proof (pi_streams _ Hi _ _ _ _ He' Hs' Hk). unfold ws. rewrite (held_set _ _ _ Hw). destruct (Nat.eqb r r'); lia.
  - intros c' k Hk. destruct (alter_other (add_stream 1) _ c _ _ Hk) as [y Hy]. rewrite Hy. by eexists.
Qed.

Lemma release_inv p r i : pool_inv p -> mp_workers p !! i = Some (r, true) -> pool_inv (release r i p).
Proof.
  intros Hi Hw. assert (Hwk : forall r', workers_of r' (delete i (mp_workers p)) = workers_of r' (mp_workers p) - (if Nat.eqb r r' then 1 else 0)).
  { intros r'. unfold workers_of. rewrite (sum_over_delete _ _ _ _ Hw). done. }
  assert (Hh : forall r', held r' (delete i (mp_workers p)) = held r' (mp_workers p)).
  { intros r'. unfold held. rewrite (sum_over_delete _ _ _ _ Hw). cbn. rewrite andb_false_r. lia. }
  assert (Hpos : 0 < workers_of r (mp_workers p)).
  { specialize (Hwk r). rewrite Nat.eqb_refl in Hwk. pose proof (held_le r (delete i (mp_workers p))). lia. }
  unfold release. eapply quiet_inv; [exact Hi|done|done|done|..]; pool_fields.
  - intros r' e' (e & He' & Hc)%alter_at. exists e. split; [done|]. rewrite Hwk. destruct Hc as [[<- ->]|[Hne ->]]; cbn.
    + rewrite Nat.eqb_refl. split_and!; [done|done|lia].
    + apply Nat.eqb_neq in Hne. rewrite Hne. split_and!; [done|done|lia].
  - intros r' e He'. destruct (decide (r = r')) as [<-|Hne]; [rewrite list_lookup_alter_eq, He'; cbn; eauto|rewrite list_lookup_alter_ne by done; eauto].
  - intros r' Hn. rewrite Hwk. destruct (Nat.eqb_spec r r') as [<-|]; [|lia]. destruct (mp_entries p !! r) as [e|] eqn:E.
    + rewrite (pi_idle _ Hi _ _ E (Hn e eq_refl)) in Hpos. lia.
    + rewrite (pi_new _ Hi _ E) in Hpos. lia.
  - intros c' k' Hk'. exists k'. split; [done|]. split; [done|by eapply (pi_nonneg _ Hi)].
  - eauto.
  - intros r' e c' k' He' Hs' Hk'. rewrite Hh. by eapply (pi_streams _ Hi).
Qed.

Lemma ClosePool_inv p : pool_inv p -> pool_inv (ClosePool p).
Proof.
  intros Hi. unfold ClosePool. destruct (mp_closed p) eqn:Ec; [done|]. unfold close_carriers.
  assert (Hcar : forall c k', imap (fun i k => if bool_decide (i ∈ sessions_of p) then {| cr_streams := cr_streams k; cr_closed := true |} else k) (mp_carriers p) !! c = Some k' ->
    exists k, mp_carriers p !! c = Some k /\ cr_streams k' = cr_streams k /\ (cr_closed k' = false -> cr_closed k = false /\ c ∉ sessions_of p)).
  { intros c k'. rewrite list_lookup_imap. intros (k & Hk & ->)%fmap_Some. exists k. split; [done|]. case_bool_decide; cbn; [done|]. auto. }
  pose proof Hi as Hi'. destruct Hi'. split; pool_fields; try eassumption; try done.
  - intros r e c k' He Hs (k & Hk & -> & _)%Hcar. by eapply pi_streams0.
  - intros c k' (k & Hk & -> & _)%Hcar. by eapply pi_nonneg0.
  - intros r e c He Hs. destruct (pi_session0 _ _ _ He Hs) as [? [k Hk]]. split; [done|]. rewrite list_lookup_imap, Hk. cbn. by eexists.
  - intros key r Hd. destruct (pi_dialing0 _ _ Hd) as (e & He & Hr & _). exists e. done.
  - intros c k' (k & Hk & _ & Ho)%Hcar Hop. destruct (Ho Hop) as [Hop' Hno]. destruct (pi_alive0 _ _ Hk Hop') as (key & r & e & Hm & He & Hs). exfalso. apply Hno.
    unfold sessions_of. apply list_elem_of_omap. exists (key, r). split; [by apply elem_of_map_to_list|]. cbn. by rewrite He.
Qed.

Lemma mstep_inv p p' : pool_inv p -> mstep p p' -> pool_inv p'.
Proof.
  intros Hi. destruct 1 as [key|key r dialled Hd|r|r i ok Hw|r i Hw| |c k Hk Hpos|c].
  - by apply muxCarrier_inv.
  - destruct (mp_closed p) eqn:Ec; [apply connect_err_inv; auto|]. destruct dialled; [apply connect_err_inv; auto|]. by apply connect_ok_inv.
  - by apply reserve_keeps.
  - by apply OpenStream_inv.
  - by apply release_inv.
  - by apply ClosePool_inv.
  - eapply quiet_inv; [exact Hi|done|done|done|..]; pool_fields; [eauto|eauto|done|..].
    + intros c' k' (k0 & Hk0 & Hc)%alter_at. exists k0. split; [done|]. destruct (pi_nonneg _ Hi _ _ Hk0). destruct Hc as [[<- ->]|[_ ->]]; cbn; [|done].
      rewrite Hk in Hk0. injection Hk0 as <-. split; [done|lia].
    + intros c' k' Hk'. destruct (alter_other (add_stream (-1)) _ c _ _ Hk') as [y Hy]. rewrite Hy. by eexists.
    + intros r e c' k' He Hs (k0 & Hk0 & Hc)%alter_at. pose proof (pi_streams _ Hi _ _ _ _ He Hs Hk0). destruct Hc as [[<- ->]|[_ ->]]; cbn; lia.
  - eapply quiet_inv; [exact Hi|done|done|done|..]; pool_fields; [eauto|eauto|done|..].
    + intros c' k' (k0 & Hk0 & Hc)%alter_at. exists k0. split; [done|]. pose proof (pi_nonneg _ Hi _ _ Hk0). by destruct Hc as [[<- ->]|[_ ->]]; cbn.
    + intros c' k' Hk'. destruct (alter_other (fun k => {| cr_streams := cr_streams k; cr_closed := true |}) _ c _ _ Hk') as [y Hy]. rewrite Hy. by eexists.
    + intros r e c' k' He Hs (k0 & Hk0 & Hc)%alter_at. pose proof (pi_streams _ Hi _ _ _ _ He Hs Hk0). by destruct Hc as [[<- ->]|[_ ->]]; cbn.
Qed.

(** C38: the pool keeps its bounds and leaks nothing.  In every state it can
    reach, through any interleaving of dials, streams, failures and [Close]:
    at most 64 carriers are kept or being dialled and at most 256 streams are
    on each; while the pool is open at most one dial is under way per key;
    whoever waits for an entry waits for a dial that is under way; and every
    carrier that is not closed is in the table of a pool that is open. *)
Theorem mux_bounded p : rtc mstep new_pool p ->
  Z.of_nat (size (mp_sessions p)) <= 64 /\
  (forall c k, mp_carriers p !! c = Some k -> 0 <= cr_streams k <= 256) /\
  (forall key r r', mp_closed p = false -> (key, r) ∈ mp_dialing p -> (key, r') ∈ mp_dialing p -> r = r') /\
  (forall r e, mp_entries p !! r = Some e -> awaited r p = None -> exists key, (key, r) ∈ mp_dialing p) /\
  (forall c k, mp_carriers p !! c = Some k -> cr_closed k = false ->
     mp_closed p = false /\ exists key r e, mp_sessions p !! key = Some r /\ mp_entries p !! r = Some e /\ me_session e = Some c).
Proof.
  intros Hrun. assert (Hi : pool_inv p).
  { pose proof new_pool_inv as H0. induction Hrun as [|a b c Hstep _ IH] in H0; [done|]. apply IH. by eapply mstep_inv. }
  split; [apply Hi|]. split; [apply Hi|]. split; [|split].
  - intros key r r' Hc H1 H2. destruct (pi_dialing _ Hi _ _ H1) as (_ & _ & _ & M1), (pi_dialing _ Hi _ _ H2) as (_ & _ & _ & M2). specialize (M1 Hc). specialize (M2 Hc). congruence.
  - intros r e He Haw. unfold awaited in Haw. rewrite He in Haw. destruct (me_ready e) eqn:E; [done|]. by eapply (pi_awaited _ Hi).
  - intros c k Hk Ho. destruct (pi_alive _ Hi _ _ Hk Ho) as (key & r & e & Hm & He & Hs). split; [|by exists key, r, e].
    destruct (mp_closed p) eqn:Ec; [|done]. rewrite (pi_closed _ Hi Ec) in Hm. done.
Qed.

(** Two dials of one key share a carrier; a stream is opened on it. *)
Definition pool1 : MuxPool := (muxCarrier "exit" new_pool).2.
Definition pool2 : MuxPool := (muxCarrier "exit" pool1).2.
Definition pool3 : MuxPool := connectMux "exit" 0 None pool2.
Definition pool4 : MuxPool := (reserve 0 pool3).2.
Definition shared_pool : MuxPool := OpenStream 0 0 true pool4.
Example shared_streams : cr_streams <$> mp_carriers shared_pool !! 0%nat = Some 1.
Proof. evaluates. Qed.
Lemma shared_runs : rtc mstep new_pool shared_pool.
Proof.
  assert (Hd : mp_dialing pool2 = [("exit", 0%nat)]) by evaluates. assert (Hw : mp_workers pool4 !! 0%nat = Some (0%nat, false)) by evaluates.
  assert (Hin : ("exit", 0%nat) ∈ mp_dialing pool2) by (rewrite Hd; apply list_elem_of_here).
  apply (rtc_l _ _ pool1); [exact (ms_carrier new_pool "exit")|]. apply (rtc_l _ _ pool2); [exact (ms_carrier pool1 "exit")|].
  apply (rtc_l _ _ pool3); [exact (ms_connect pool2 "exit" 0 None Hin)|]. apply (rtc_l _ _ pool4); [exact (ms_reserve pool3 0)|].
  apply rtc_once. exact (ms_open pool4 0 0 true Hw).
Qed.
Lemma mux_bounded_witness : exists k, mp_carriers shared_pool !! 0%nat = Some k /\ 0 <= cr_streams k <= 256.
Proof.
  destruct (mux_bounded shared_pool shared_runs) as (_ & H & _). destruct (mp_carriers shared_pool !! 0%nat) as [k|] eqn:E.
  - exists k. split; [reflexivity|]. exact (H 0%nat k E).
  - vm_compute in E. discriminate E.
Defined.
