(* ===== verification/Slots.v ===== *)
(** * Connection slots of an account (internal/agent/limits.go [acquire])

    An account has on each agent a pool of slots: so many connections and so
    many client addresses at a time.  [acquire] hands out a function that
    gives the slot back, once, however often it is called; it is the slot's
    number here.  The token bucket of the same pool is not modelled: it
    computes with floating-point numbers. *)

From S2P Require Import Prelude Tx AgentState.
From stdpp Require Import base gmap strings list relations.
From Stdlib Require Import Ascii String.
Local Open Scope Z_scope.
Local Abbreviation length := List.length.

(** An address is its canonical text: [ParseAddr], [Unmap] and [WithZone]
    have been applied; [None] when the peer has no numeric address. *)
Record resourcePool := { rp_limits : ResourceLimits; rp_connections : Z; rp_ips : gmap string Z; rp_slots : list (string * bool) }.
Definition no_resources : ResourceLimits := {| RL_MaxRules := 0; RL_MaxConnections := 0; RL_MaxIPs := 0; RL_BytesPerSecond := 0 |}.
Definition new_resources : resourcePool := {| rp_limits := no_resources; rp_connections := 0; rp_ips := ∅; rp_slots := [] |}.
Definition ips_at (p : resourcePool) (ip : string) : Z := default 0 (rp_ips p !! ip).

Definition configure (limits : ResourceLimits) (p : resourcePool) : resourcePool :=
  {| rp_limits := limits; rp_connections := rp_connections p; rp_ips := rp_ips p; rp_slots := rp_slots p |}.
Definition acquire (peer : option string) (p : resourcePool) : option nat * resourcePool :=
  match peer with
  | None => (None, p)
  | Some ip =>
      if (0 <? RL_MaxConnections (rp_limits p)) && (RL_MaxConnections (rp_limits p) <=? rp_connections p) then (None, p) else
      if (0 <? RL_MaxIPs (rp_limits p)) && (ips_at p ip =? 0) && (RL_MaxIPs (rp_limits p) <=? Z.of_nat (size (rp_ips p))) then (None, p) else
      (Some (length (rp_slots p)),
       {| rp_limits := rp_limits p; rp_connections := rp_connections p + 1; rp_ips := <[ip := ips_at p ip + 1]> (rp_ips p);
          rp_slots := (rp_slots p ++ [(ip, false)])%list |})
  end.
(** The function that [acquire] returned for the slot: [once.Do]. *)
Definition free (i : nat) (p : resourcePool) : resourcePool :=
  match rp_slots p !! i with
  | Some (ip, false) =>
      let n := ips_at p ip - 1 in
      {| rp_limits := rp_limits p; rp_connections := rp_connections p - 1;
         rp_ips := if n =? 0 then delete ip (rp_ips p) else <[ip := n]> (rp_ips p); rp_slots := <[i := (ip, true)]> (rp_slots p) |}
  | _ => p
  end.

Inductive rstep (p : resourcePool) : resourcePool -> Prop :=
  | rs_configure limits : rstep p (configure limits p)
  | rs_acquire peer : rstep p (acquire peer p).2
  | rs_free i : rstep p (free i p).

(** ** The counters are the slots in use *)

Definition in_use (l : list (string * bool)) : Z := sum_over (fun s : string * bool => if s.2 then 0 else 1) l.
Definition in_use_by (ip : string) (l : list (string * bool)) : Z := sum_over (fun s : string * bool => if negb s.2 && String.eqb s.1 ip then 1 else 0) l.
Record slots_inv (p : resourcePool) : Prop := {
  si_connections : rp_connections p = in_use (rp_slots p);
  si_ips ip : ips_at p ip = in_use_by ip (rp_slots p);
  si_present ip n : rp_ips p !! ip = Some n -> 0 < n
}.

Lemma in_use_by_nonneg ip l : 0 <= in_use_by ip l.
Proof. apply sum_over_nonneg. intros s _. by destruct (negb s.2 && _). Qed.
Lemma ips_at_insert p ip n ip' l c s : ips_at {| rp_limits := l; rp_connections := c; rp_ips := <[ip := n]> (rp_ips p); rp_slots := s |} ip' = if decide (ip = ip') then n else ips_at p ip'.
Proof. unfold ips_at. cbn. destruct (decide (ip = ip')) as [->|]; [by rewrite lookup_insert_eq|by rewrite lookup_insert_ne]. Qed.

Lemma rstep_inv p p' : slots_inv p -> rstep p p' -> slots_inv p'.
Proof.
  intros [Hc Hi Hp]. pose proof (fun ip => in_use_by_nonneg ip (rp_slots p)) as Hnn.
  destruct 1 as [limits|peer|i]; [by split|..].
  - unfold acquire. destruct peer as [ip|]; [|by split]. do 2 (destruct (_ && _); [by split|]). split; cbn [snd rp_connections rp_slots rp_ips].
    + rewrite Hc. unfold in_use. rewrite sum_over_app. cbn. lia.
    + intros ip'. rewrite ips_at_insert. unfold in_use_by. rewrite sum_over_app. cbn. fold (in_use_by ip' (rp_slots p)). rewrite !Hi.
      destruct (decide (ip = ip')) as [->|Hne]; [rewrite String.eqb_refl; lia|]. apply String.eqb_neq in Hne. rewrite Hne. lia.
    + intros ip' n [[<- <-]|[_ Hn]]%lookup_insert_Some; [rewrite Hi; specialize (Hnn ip); lia|by eapply Hp].
  - unfold free. destruct (rp_slots p !! i) as [[ip []]|] eqn:E; [by split| |by split].
    assert (Huse : forall ip', in_use_by ip' (<[i := (ip, true)]> (rp_slots p)) = in_use_by ip' (rp_slots p) - if decide (ip = ip') then 1 else 0).
    { intros ip'. unfold in_use_by. rewrite (sum_over_set _ _ _ _ _ E). cbn. destruct (decide (ip = ip')) as [->|Hne]; [rewrite String.eqb_refl; lia|].
      apply String.eqb_neq in Hne. rewrite Hne. lia. }
    assert (Hpos : 1 <= ips_at p ip).
    { specialize (Huse ip). rewrite decide_True in Huse by done. rewrite Hi. pose proof (in_use_by_nonneg ip (<[i := (ip, true)]> (rp_slots p))). lia. }
    split; cbn [rp_connections rp_slots rp_ips].
    + rewrite Hc. unfold in_use. rewrite (sum_over_set _ _ _ _ _ E). cbn. lia.
    + intros ip'. rewrite Huse, <- Hi. destruct (Z.eqb_spec (ips_at p ip - 1) 0) as [E0|Hn].
      * unfold ips_at at 1. cbn. destruct (decide (ip = ip')) as [<-|Hne]; [rewrite lookup_delete_eq; cbn; lia|]. rewrite lookup_delete_ne by done. fold (ips_at p ip'). lia.
      * rewrite ips_at_insert. destruct (decide (ip = ip')) as [<-|]; lia.
    + intros ip' n. destruct (Z.eqb_spec (ips_at p ip - 1) 0); [intros [_ Hn]%lookup_delete_Some; by eapply Hp|].
      intros [[<- <-]|[_ Hn]]%lookup_insert_Some; [lia|by eapply Hp].
Qed.

(** Slots are counted exactly.  In every state a pool can reach, the
    counters are the slots handed out and not given back, in all and by
    address, and only addresses in use are counted; a slot is refused exactly
    when the account has all its connections, or all its addresses and the
    peer's is not one of them; and giving a slot back twice does nothing. *)
Theorem slots_exact p ip : rtc rstep new_resources p ->
  rp_connections p = in_use (rp_slots p) /\ (forall ip', ips_at p ip' = in_use_by ip' (rp_slots p) /\ (is_Some (rp_ips p !! ip') <-> 0 < in_use_by ip' (rp_slots p))) /\
  ((acquire (Some ip) p).1 = None <->
     0 < RL_MaxConnections (rp_limits p) <= in_use (rp_slots p) \/
     (0 < RL_MaxIPs (rp_limits p) <= Z.of_nat (size (rp_ips p)) /\ in_use_by ip (rp_slots p) = 0)) /\
  forall i, free i (free i p) = free i p.
Proof.
  intros Hrun. assert (Hinv : slots_inv p).
  { assert (H0 : slots_inv new_resources) by (split; done). induction Hrun as [|a b c Hstep _ IH] in H0; [done|]. apply IH. by eapply rstep_inv. }
  destruct Hinv as [Hc Hi Hp]. split; [done|]. split; [|split].
  - intros ip'. split; [done|]. rewrite <- Hi. unfold ips_at. destruct (rp_ips p !! ip') as [n|] eqn:E; cbn; split; [by eauto|by eexists|by intros [? ?]|lia].
  - rewrite <- Hc, <- Hi. unfold acquire.
    destruct ((0 <? RL_MaxConnections (rp_limits p)) && (RL_MaxConnections (rp_limits p) <=? rp_connections p)) eqn:E1; [bool_to_prop; split; [lia|done]|].
    destruct ((0 <? RL_MaxIPs (rp_limits p)) && (ips_at p ip =? 0) && (RL_MaxIPs (rp_limits p) <=? Z.of_nat (size (rp_ips p)))) eqn:E2; [bool_to_prop; split; [lia|done]|].
    cbn. split; [done|]. intros Hcase. exfalso. apply andb_false_iff in E1. apply andb_false_iff in E2 as [E2|E2]; [apply andb_false_iff in E2|];
      destruct E1 as [E1|E1]; try destruct E2 as [E2|E2]; bool_to_prop; lia.
  - intros i. unfold free at 1. destruct (rp_slots (free i p) !! i) as [[ip' []]|] eqn:E; [done| |done]. exfalso. unfold free in E.
    destruct (rp_slots p !! i) as [[ip2 []]|] eqn:E'; cbn in E; [congruence| |congruence]. rewrite list_lookup_insert_eq in E by (by eapply lookup_lt_Some). done.
Qed.

Definition two_connections : ResourceLimits := {| RL_MaxRules := 0; RL_MaxConnections := 2; RL_MaxIPs := 1; RL_BytesPerSecond := 0 |}.
Definition one_client : resourcePool := (acquire (Some "192.0.2.1") (configure two_connections new_resources)).2.
Lemma slots_exact_witness : (acquire (Some "192.0.2.2") one_client).1 = None /\ in_use (rp_slots one_client) = 1.
Proof.
  assert (Hrun : rtc rstep new_resources one_client).
  { apply (rtc_l _ _ (configure two_connections new_resources)); [exact (rs_configure new_resources two_connections)|].
    apply rtc_once. exact (rs_acquire (configure two_connections new_resources) (Some "192.0.2.1")). }
  destruct (slots_exact one_client "192.0.2.2" Hrun) as (H1 & _ & [_ H2] & _). split; [|rewrite <- H1; evaluates].
  apply H2. right. assert (Hs : Z.of_nat (size (rp_ips one_client)) = 1) by evaluates. rewrite Hs. split; [|evaluates]. split; [reflexivity|]. vm_compute. discriminate.
Defined.
