(* ===== verification/Addresses.v ===== *)
(** * Network addresses

    What is used of Go's net and strconv on "host:port" strings. *)

From S2P Require Import Prelude Tx GoStrings.
From stdpp Require Import base strings list.
From Stdlib Require Import Ascii String.
Local Open Scope string_scope.
Local Open Scope Z_scope.

Definition has_byte (c : ascii) (s : string) : bool := let '(_, _, found) := Cut c s in found.

(** What is before and after the last [c] (strings.LastIndexByte). *)
Fixpoint cut_last (c : ascii) (s : string) : option (string * string) :=
  match s with
  | "" => None
  | String a s' =>
      match cut_last c s' with
      | Some (before, after) => Some (String a before, after)
      | None => if Ascii.eqb a c then Some ("", s') else None
      end
  end.

Definition ErrAddr : error := ErrMsg "address".

(** [net.SplitHostPort]: the port is after the last colon; a host with colons
    is in brackets, and there are no other brackets. *)
Definition SplitHostPort (s : string) : res (string * string) :=
  match cut_last ":" s with
  | None => Err ErrAddr
  | Some (before, port) =>
      match s with
      | String "[" s' =>
          let '(host, rest, found) := Cut "]" s' in
          if negb found || negb (String.eqb before ("[" ++ host ++ "]")) then Err ErrAddr else
          if has_byte "[" s' || has_byte "]" rest then Err ErrAddr else Ok (host, port)
      | _ =>
          if has_byte ":" before then Err ErrAddr else
          if has_byte "[" s || has_byte "]" s then Err ErrAddr else Ok (before, port)
      end
  end.
Definition JoinHostPort (host port : string) : string :=
  if has_byte ":" host then "[" ++ host ++ "]:" ++ port else host ++ ":" ++ port.

(** [strconv.Atoi], which takes a sign. *)
Definition Atoi (s : string) : option Z :=
  match s with
  | String "+" s => ParseInt s
  | String "-" s => Z.opp <$> ParseInt s
  | _ => ParseInt s
  end.

(** The port of a listening address, between 1 and 65535. *)
Definition port_of (listen : string) : option Z :=
  match SplitHostPort listen with
  | Ok (_, p) => match Atoi p with Some n => if (1 <=? n) && (n <=? 65535) then Some n else None | None => None end
  | Err _ => None
  end.
Lemma port_of_range listen p : port_of listen = Some p -> 1 <= p <= 65535.
Proof. unfold port_of. destruct (SplitHostPort listen) as [[h s]|]; [|done]. destruct (Atoi s) as [n|]; [|done]. destruct (_ && _) eqn:E; [|done]. intros [= <-]. bool_to_prop. lia. Qed.

(** ** Joining and splitting *)

Lemma has_byte_cons c a s : has_byte c (String a s) = Ascii.eqb a c || has_byte c s.
Proof. unfold has_byte. cbn. destruct (Ascii.eqb a c); [done|]. by destruct (Cut c s) as [[b r] f]. Qed.
Lemma has_byte_app c s s' : has_byte c (s ++ s') = has_byte c s || has_byte c s'.
Proof. induction s as [|a s IH]; [done|]. by rewrite string_app_cons, !has_byte_cons, IH, orb_assoc. Qed.
Lemma cut_last_none c s : has_byte c s = false -> cut_last c s = None.
Proof. induction s as [|a s IH]; [done|]. rewrite has_byte_cons. intros [Ha Hs]%orb_false_elim. cbn. by rewrite (IH Hs), Ha. Qed.
Lemma cut_last_app c s s' : has_byte c s' = false -> cut_last c (s ++ String c s') = Some (s, s').
Proof. intros Hs. induction s as [|a s IH]; [change ("" ++ String c s') with (String c s'); simpl; by rewrite (cut_last_none _ _ Hs), Ascii.eqb_refl|]. rewrite string_app_cons. simpl. by rewrite IH. Qed.
Lemma Cut_app c s s' : has_byte c s = false -> Cut c (s ++ String c s') = (s, s', true).
Proof.
  induction s as [|a s IH]; [change ("" ++ String c s') with (String c s'); simpl; by rewrite Ascii.eqb_refl|]. rewrite has_byte_cons. intros [Ha Hs]%orb_false_elim. rewrite string_app_cons. simpl. by rewrite Ha, (IH Hs).
Qed.

(** A string with none of the bytes that delimit an address. *)
Definition plain (s : string) : bool := negb (has_byte ":" s) && negb (has_byte "[" s) && negb (has_byte "]" s).
Lemma all_digits_plain s : all_digits s = true -> plain s = true.
Proof.
  intros H. assert (Hc : forall c, is_digit c = false -> has_byte c s = false).
  { intros c Hc. induction s as [|a s IH]; [done|]. cbn in H. apply andb_prop in H as [Ha Hs]. rewrite has_byte_cons, (IH Hs), orb_false_r. destruct (Ascii.eqb_spec a c); [congruence|done]. }
  unfold plain. by rewrite !Hc.
Qed.

Lemma SplitHostPort_bracket host port : has_byte "[" host = false -> has_byte "]" host = false -> plain port = true ->
  SplitHostPort (String "[" (host ++ String "]" (String ":" port))) = Ok (host, port).
Proof.
  intros Ho Hc [[Hp1%negb_true_iff Hp2%negb_true_iff]%andb_prop Hp3%negb_true_iff]%andb_prop. unfold SplitHostPort.
  replace (String "[" (host ++ String "]" (String ":" port))) with (String "[" (host ++ "]") ++ String ":" port) at 1 by (rewrite string_app_cons, <- string_app_assoc; done).
  rewrite (cut_last_app _ _ _ Hp1), (Cut_app _ _ _ Hc). cbn [negb orb]. change ("[" ++ host ++ "]") with (String "[" (host ++ "]")). rewrite String.eqb_refl. cbn [negb].
  by rewrite has_byte_app, !has_byte_cons, Ho, Hp2, Hp3.
Qed.
Lemma SplitHostPort_plain host port : plain host = true -> plain port = true -> SplitHostPort (host ++ String ":" port) = Ok (host, port).
Proof.
  intros [[Hh1%negb_true_iff Hh2%negb_true_iff]%andb_prop Hh3%negb_true_iff]%andb_prop [[Hp1%negb_true_iff Hp2%negb_true_iff]%andb_prop Hp3%negb_true_iff]%andb_prop.
  unfold SplitHostPort. rewrite (cut_last_app _ _ _ Hp1), Hh1, !has_byte_app, !has_byte_cons, Hh2, Hh3, Hp2, Hp3. cbn [orb Ascii.eqb Bool.eqb].
  destruct host as [|a host]; [done|]. rewrite string_app_cons. rewrite has_byte_cons in Hh2. apply orb_false_elim in Hh2 as [Ha _].
  destruct a as [b0 b1 b2 b3 b4 b5 b6 b7]. destruct b0, b1, b2, b3, b4, b5, b6, b7; try done.
Qed.
(** Splitting inverts joining, for hosts without brackets. *)
Lemma SplitHostPort_Join host port : has_byte "[" host = false -> has_byte "]" host = false -> plain port = true -> SplitHostPort (JoinHostPort host port) = Ok (host, port).
Proof.
  intros Ho Hc Hp. unfold JoinHostPort. destruct (has_byte ":" host) eqn:Hh; [by apply SplitHostPort_bracket|]. apply SplitHostPort_plain; [|done]. unfold plain. by rewrite Hh, Ho, Hc.
Qed.

Lemma FormatInt_digits n : 0 <= n <= MaxInt64 -> all_digits (FormatInt n) = true /\ FormatInt n <> "".
Proof.
  intros Hn. apply ParseInt_FormatInt in Hn. unfold ParseInt in Hn. destruct (String.eqb (FormatInt n) "" || negb (all_digits (FormatInt n))) eqn:E; [done|]. apply orb_false_elim in E as [E1%String.eqb_neq E2%negb_false_iff]. done.
Qed.
Lemma Atoi_FormatInt n : 0 <= n <= MaxInt64 -> Atoi (FormatInt n) = Some n.
Proof.
  intros Hn. destruct (FormatInt_digits n Hn) as [Hd Hne]. unfold Atoi. pose proof (ParseInt_FormatInt n Hn) as Hpi. destruct (FormatInt n) as [|a s]; [done|]. cbn in Hd. apply andb_prop in Hd as [Ha _].
  destruct a as [b0 b1 b2 b3 b4 b5 b6 b7]. destruct b0, b1, b2, b3, b4, b5, b6, b7; try done; exact Hpi.
Qed.
Lemma port_of_Join ip p : has_byte "[" ip = false -> has_byte "]" ip = false -> 1 <= p <= 65535 -> port_of (JoinHostPort ip (FormatInt p)) = Some p.
Proof.
  intros Ho Hc Hp. assert (Hm : 0 <= p <= MaxInt64) by (unfold MaxInt64; lia). destruct (FormatInt_digits p Hm) as [Hd _]. unfold port_of.
  rewrite SplitHostPort_Join by auto using all_digits_plain. rewrite (Atoi_FormatInt p Hm). destruct (Z.leb_spec 1 p), (Z.leb_spec p 65535); try lia. done.
Qed.
Lemma port_of_colon p : 1 <= p <= 65535 -> port_of (":" ++ FormatInt p) = Some p.
Proof. intros Hp. exact (port_of_Join "" p eq_refl eq_refl Hp). Qed.
