(* ===== verification/Ports.v ===== *)
(** * Ports of nodes (internal/platform)

    A node has one set of ports per network.  A rule that listens by itself
    has a row in cp_ports, a managed or plain exit rows in cp_exit_ports, and
    a shared TLS ingress of a group a row in cp_ingress_ports; rules behind an
    ingress or behind a parent rule share its port and are told apart by their
    server names.  Whoever saves a rule (resources.go), an exit (exits.go,
    exit_ports.go) or a group (tls_ingress.go) reserves ports in the same
    transaction; a rule's port and an ingress's port are given back when the
    node acknowledges a configuration without them (ack in agents.go).

    The state is the part of the control plane's tables that decides about
    ports.  Leases of a rule are written by the lease desk; the audit log and
    events are left out. *)

From S2P Require Import Prelude Tx GoStrings Digest Addresses Rational Streams.
From stdpp Require Import base gmap strings list sorting.
From Stdlib Require Import Ascii String.
Local Open Scope string_scope.
Local Open Scope Z_scope.
Local Abbreviation length := List.length.

(** ** Data (contract/types.go, advanced.go, exits.go) *)

Record SharedTLS := { ParentID : string; IngressID : string; ServerName : string }.
(** [H_Runtime]: one of the fields only the panel sets (Inspect,
    StagedInspection, PreferIPv6; of a tunnel also ServiceID). *)
Record TunnelHop := { H_Transport : string; H_Endpoint : string; H_ServerName : string; H_Token : string; H_Runtime : bool }.
Record Tunnel := {
  T_Endpoint : string; T_ServerName : string; T_Token : string; T_Mux : bool; T_Reverse : string;
  T_Chain : list TunnelHop; T_Obfuscation : option ObfuscationConfig; T_Runtime : bool
}.
(** [Q_Runtime]: EffectivePolicy, RouteCandidates or Business is set.
    [Q_Rest]: fields that are only passed on. *)
Record Rule := {
  Q_ID : string; Q_UserID : string; Q_NodeID : string; Q_GroupID : string; Q_Name : string; Q_Network : string; Q_Transport : string;
  Q_Listen : string; Q_Target : string; Q_Enabled : bool; Q_Version : Z; Q_ExitGroupID : string; Q_ExitID : string; Q_SelectedExitID : string;
  Q_BillingMultiplier : string; Q_SharedTLS : option SharedTLS; Q_Tunnel : option Tunnel; Q_BlockedProtocols : list string;
  Q_Lease : option string; Q_StandbyLease : option string; Q_Runtime : bool; Q_Rest : string
}.
Record SharedTLSIngressSettings := { S_Enabled : bool; S_ListenIP : string; S_Port : Z }.
Record GroupAdvanced := {
  A_SharedTLSIngress : option SharedTLSIngressSettings; A_PolicyVersion : Z; A_TLSInboundPolicy : Z; A_IPv6Group : list string; A_ReverseGroup : list string
}.
Record Group := {
  G_ID : string; G_Type : string; G_PortMin : Z; G_PortMax : Z; G_MaxRules : Z; G_Multiplier : string; G_ChainGroupIDs : list string;
  G_Advanced : option GroupAdvanced; G_Version : Z
}.
Record Exit := {
  X_ID : string; X_GroupID : string; X_NodeID : string; X_Version : Z; X_Managed : bool; X_Listen : string; X_Transport : string;
  X_Tunnel : Tunnel; X_UDP : option string  (* its endpoint *)
}.

(** The tables (storage/store.go). *)
Record node_row := { n_desired : Z; n_applied : Z; n_error : string }.
Record saved_rule := { sr_rule : Rule; sr_version : Z; sr_deleted : bool; sr_release : Z }.
Record ingress_row := { in_group : string; in_node : string; in_listen : string; in_enabled : bool }.
Abbreviation port := (string * string * Z)%type.  (* node, network, number *)
Record Tables := {
  d_users : gmap string (bool * string);  (* disabled, role *)
  d_nodes : gmap string node_row;
  d_groups : gmap string Group;
  d_node_groups : gset (string * string);
  d_rules : gmap string saved_rule;
  d_exits : gmap string Exit;
  d_ports : gmap port string;
  d_exit_ports : gset (port * string);
  d_ingresses : gmap string ingress_row;
  d_ingress_ports : gmap port (string * Z)  (* the ingress, and release_version *)
}.
Definition set_nodes f d := {| d_users := d_users d; d_nodes := f (d_nodes d); d_groups := d_groups d; d_node_groups := d_node_groups d; d_rules := d_rules d; d_exits := d_exits d; d_ports := d_ports d; d_exit_ports := d_exit_ports d; d_ingresses := d_ingresses d; d_ingress_ports := d_ingress_ports d |}.
Definition set_groups f d := {| d_users := d_users d; d_nodes := d_nodes d; d_groups := f (d_groups d); d_node_groups := d_node_groups d; d_rules := d_rules d; d_exits := d_exits d; d_ports := d_ports d; d_exit_ports := d_exit_ports d; d_ingresses := d_ingresses d; d_ingress_ports := d_ingress_ports d |}.
Definition set_node_groups f d := {| d_users := d_users d; d_nodes := d_nodes d; d_groups := d_groups d; d_node_groups := f (d_node_groups d); d_rules := d_rules d; d_exits := d_exits d; d_ports := d_ports d; d_exit_ports := d_exit_ports d; d_ingresses := d_ingresses d; d_ingress_ports := d_ingress_ports d |}.
Definition set_rules f d := {| d_users := d_users d; d_nodes := d_nodes d; d_groups := d_groups d; d_node_groups := d_node_groups d; d_rules := f (d_rules d); d_exits := d_exits d; d_ports := d_ports d; d_exit_ports := d_exit_ports d; d_ingresses := d_ingresses d; d_ingress_ports := d_ingress_ports d |}.
Definition set_exits f d := {| d_users := d_users d; d_nodes := d_nodes d; d_groups := d_groups d; d_node_groups := d_node_groups d; d_rules := d_rules d; d_exits := f (d_exits d); d_ports := d_ports d; d_exit_ports := d_exit_ports d; d_ingresses := d_ingresses d; d_ingress_ports := d_ingress_ports d |}.
Definition set_ports f d := {| d_users := d_users d; d_nodes := d_nodes d; d_groups := d_groups d; d_node_groups := d_node_groups d; d_rules := d_rules d; d_exits := d_exits d; d_ports := f (d_ports d); d_exit_ports := d_exit_ports d; d_ingresses := d_ingresses d; d_ingress_ports := d_ingress_ports d |}.
Definition set_exit_ports f d := {| d_users := d_users d; d_nodes := d_nodes d; d_groups := d_groups d; d_node_groups := d_node_groups d; d_rules := d_rules d; d_exits := d_exits d; d_ports := d_ports d; d_exit_ports := f (d_exit_ports d); d_ingresses := d_ingresses d; d_ingress_ports := d_ingress_ports d |}.
Definition set_ingresses f d := {| d_users := d_users d; d_nodes := d_nodes d; d_groups := d_groups d; d_node_groups := d_node_groups d; d_rules := d_rules d; d_exits := d_exits d; d_ports := d_ports d; d_exit_ports := d_exit_ports d; d_ingresses := f (d_ingresses d); d_ingress_ports := d_ingress_ports d |}.
Definition set_ingress_ports f d := {| d_users := d_users d; d_nodes := d_nodes d; d_groups := d_groups d; d_node_groups := d_node_groups d; d_rules := d_rules d; d_exits := d_exits d; d_ports := d_ports d; d_exit_ports := d_exit_ports d; d_ingresses := d_ingresses d; d_ingress_ports := f (d_ingress_ports d) |}.

(** What the operations below ask of the rest of the panel and of Go's
    libraries.  None of it writes to the tables. *)
Class Surroundings := {
  ParseIP : string -> option string;  (* the address in its canonical text *)
  ParseIP_text s text : ParseIP s = Some text -> has_byte "[" text = false /\ has_byte "]" text = false;
  url_host : string -> res (string * string);  (* host and port of a URL *)
  ToASCII : string -> option string;  (* idna, of the name trimmed, in lower case and without a final dot *)
  ValidateUDPExit : string -> string -> string -> res unit;
  ValidateChain : TunnelHop -> list TunnelHop -> res unit;
  ValidateOptions : Rule -> res unit;  (* ValidateAdvanced, but for shared TLS *)
  NormalizeBlocked : list string -> res (list string);
  resolveExitTx : Rule -> Tables -> res (string * option Tunnel * string * string);
  nodeAvailableTx : string -> Tables -> res unit;
  groupAuthorized : string -> string -> Tables -> bool;
  accountMaxRules : string -> Tables -> res Z;
  entryPolicyDenied : Group -> Rule -> bool;
  resourceCapabilities : Rule -> Tables -> res bool;
  allocateLease : Rule -> Tables -> res string;
  groupAllowed : Group -> Tables -> res unit;
  exitAllowed : Exit -> Tables -> res unit
}.
(** The identifier of an ingress: the first half of the SHA-256 of its group
    and node. *)
Definition ingressID (group node : string) : string :=
  EncodeToString (take 16 (Sum256 (group ++ String "000" node))).
Lemma ingressID_some group node : ingressID group node <> "".
Proof.
  unfold ingressID, Sum256. assert (Hb : forall fuel ws h, length h = 8%nat -> length (blocks fuel ws h) = 8%nat).
  { assert (Hround : forall h kw, length h = 8%nat -> length (step_round h kw) = 8%nat).
    { intros h kw Hh. do 8 (destruct h as [|? h]; [done|]). by destruct h. }
    assert (Hrounds : forall l h, length h = 8%nat -> length (foldl step_round h l) = 8%nat).
    { induction l as [|kw l IH]; intros h Hh; cbn [foldl]; auto. }
    induction fuel as [|fuel IH]; intros ws h Hh; [done|]. destruct ws as [|w ws]; [done|]. cbn [blocks]. apply IH. unfold compress. rewrite length_zip_with, Hh, Hrounds by done. done. }
  specialize (Hb (length (words (pad (bytes_of (group ++ String "000" node))))) (words (pad (bytes_of (group ++ String "000" node)))) initial_hash eq_refl).
  destruct (blocks _ _ _) as [|x xs]; [done|]. done.
Qed.

Section Ports.
Context `{RatSyntax} `{Surroundings}.

(** ** Shared ports (tls_ingress.go, shared_tls.go) *)

Definition sharedParent (r : Rule) : string := match Q_SharedTLS r with Some t => ParentID t | None => "" end.
Definition managedTLS (r : Rule) : bool := match Q_SharedTLS r with Some t => negb (String.eqb (IngressID t) "") | None => false end.
Definition sharesPort (r : Rule) : bool := managedTLS r || negb (String.eqb (sharedParent r) "").

Definition CanEnter (g : Group) : bool := String.eqb (G_Type g) "" || String.eqb (G_Type g) "entry".
Definition GroupPolicyVersion : Z := 2.
Definition activeAdvanced (g : Group) : bool := match G_Advanced g with Some a => A_PolicyVersion a =? GroupPolicyVersion | None => false end.
Definition ingressSettings (g : Group) : option SharedTLSIngressSettings :=
  if CanEnter g && activeAdvanced g then a ← G_Advanced g; A_SharedTLSIngress a else None.
Definition ingress_listen (v : SharedTLSIngressSettings) : string := JoinHostPort (S_ListenIP v) (FormatInt (S_Port v)).

Definition validateIngressSettings (a : option GroupAdvanced) : res (option GroupAdvanced) :=
  match a with
  | Some ({| A_SharedTLSIngress := Some v |} as a) =>
      let ip := if String.eqb (S_ListenIP v) "" then "0.0.0.0" else S_ListenIP v in
      let n := if S_Port v =? 0 then 443 else S_Port v in
      match ParseIP ip with
      | Some text =>
          if (n <? 1) || (65535 <? n) then Err (ErrMsg "shared TLS ingress requires an IP and port") else
          Ok (Some {| A_SharedTLSIngress := Some {| S_Enabled := S_Enabled v; S_ListenIP := text; S_Port := n |}; A_PolicyVersion := A_PolicyVersion a;
                      A_TLSInboundPolicy := A_TLSInboundPolicy a; A_IPv6Group := A_IPv6Group a; A_ReverseGroup := A_ReverseGroup a |})
      | None => Err (ErrMsg "shared TLS ingress requires an IP and port")
      end
  | _ => Ok a
  end.

(** ** Reservations *)

Definition rule_at (p : port) (d : Tables) : bool := bool_decide (is_Some (d_ports d !! p)).
Definition exit_at (p : port) (d : Tables) : bool := existsb (fun pe => bool_decide (pe.1 = p)) (elements (d_exit_ports d)).
Definition ingress_at (p : port) (d : Tables) : bool := bool_decide (is_Some (d_ingress_ports d !! p)).
Definition other_ingress_at (p : port) (ingress : string) (d : Tables) : bool :=
  match d_ingress_ports d !! p with Some (i, _) => negb (String.eqb i ingress) | None => false end.
(** [SELECT (SELECT COUNT ...) + (SELECT COUNT ...) + (SELECT COUNT ...)] is 0. *)
Definition unreserved (p : port) (d : Tables) : bool := negb (rule_at p d || exit_at p d || ingress_at p d).

(** The ports of the range, from a random one on and around. *)
Fixpoint scan_ports (node network : string) (lo span start i : Z) (n : nat) (d : Tables) : option Z :=
  match n with
  | O => None
  | S n =>
      let p := lo + (start + i) mod span in
      if unreserved (node, network, p) d then Some p else scan_ports node network lo span start (i + 1) n d
  end.
Definition allocateListen (g : Group) (node network : string) (random : Z) : Tx Tables string :=
  guard_err (negb ((G_PortMax g <? G_PortMin g) || (G_PortMin g <? 1) || (65535 <? G_PortMax g))) (ErrMsg "no port range") ;;
  let span := G_PortMax g - G_PortMin g + 1 in
  found ← gets (scan_ports node network (G_PortMin g) span (random mod span) 0 (Z.to_nat span));
  found ← or_fail found (ErrMsg "no free port");
  mret (":" ++ FormatInt found).

(** ** What a rule may be (resources.go, contract/advanced.go) *)

Definition label_byte (c : ascii) : bool :=
  let n := nat_of_ascii c in (97 <=? n)%nat && (n <=? 122)%nat || is_digit c || Ascii.eqb c "-".
Fixpoint all_bytes (f : ascii -> bool) (s : string) : bool := match s with "" => true | String a s => f a && all_bytes f s end.
Definition first_byte (s : string) : option ascii := match s with "" => None | String a _ => Some a end.
Definition valid_label (l : string) : bool :=
  (1 <=? String.length l)%nat && (String.length l <=? 63)%nat && negb (bool_decide (first_byte l = Some "-"%char))
  && negb (bool_decide (first_byte (rev_string l) = Some "-"%char)) && all_bytes label_byte l.
Definition ValidServerName (s : string) : bool :=
  (1 <=? String.length s)%nat && (String.length s <=? 253)%nat && negb (bool_decide (is_Some (ParseIP s))) && forallb valid_label (Split "." s).
Definition ValidateAdvanced (r : Rule) : res unit :=
  match ValidateOptions r with
  | Err e => Err e
  | Ok _ =>
      match Q_SharedTLS r with
      | Some t =>
          if negb (String.eqb (Q_Network r) "tcp") || (String.eqb (ParentID t) (Q_ID r) && negb (String.eqb (Q_ID r) ""))
             || (negb (String.eqb (ParentID t) "") && negb (String.eqb (IngressID t) "")) || negb (ValidServerName (ServerName t))
          then Err (ErrMsg "shared TLS requires TCP, an exact DNS SNI and a distinct parent") else Ok tt
      | None => Ok tt
      end
  end.

Definition transports : list string := ["direct"; "direct-tls"; "secure-direct"; "tls"; "tls_simple"; "ws"; "wss"; "http"; "quic"].
Definition is_transport (s : string) (r : Rule) : bool := String.eqb (Q_Transport r) s.
Definition hop_of (r : Rule) (t : Tunnel) : TunnelHop :=
  {| H_Transport := Q_Transport r; H_Endpoint := T_Endpoint t; H_ServerName := T_ServerName t; H_Token := T_Token t; H_Runtime := false |}.
(** The part of validateRule about the tunnel. *)
Definition validate_tunnel (r : Rule) : res unit :=
  let tunnel f := match Q_Tunnel r with Some t => f t | None => false end in
  let no_tunnel := negb (bool_decide (is_Some (Q_Tunnel r))) in
  let chained t := (0 <? length (T_Chain t))%nat in
  let tcp := String.eqb (Q_Network r) "tcp" in
  if negb (is_transport "direct" r) && negb (is_transport "direct-tls" r) && (no_tunnel || tunnel (fun t => String.eqb (T_Endpoint t) "" || String.eqb (T_Token t) ""))
  then Err (ErrMsg "tunnel endpoint and credential required") else
  if is_transport "direct" r && negb no_tunnel then Err (ErrMsg "direct forwarding cannot contain a tunnel") else
  if is_transport "direct-tls" r && tunnel (fun t => negb (String.eqb (T_Endpoint t) "") || negb (String.eqb (T_Token t) "") || chained t)
  then Err (ErrMsg "direct-tls only accepts a verification name, not a tunnel") else
  if is_transport "direct-tls" r && negb tcp then Err (ErrMsg "direct-tls supports tcp only") else
  if is_transport "secure-direct" r && negb tcp then Err (ErrMsg "secure-direct supports tcp only") else
  if is_transport "secure-direct" r && tunnel chained then Err (ErrMsg "secure-direct does not support tunnel chaining") else
  if is_transport "secure-direct" r && tunnel (fun t => T_Mux t || negb (String.eqb (T_Reverse t) ""))
  then Err (ErrMsg "secure-direct does not support mux or reverse routing") else
  if is_transport "secure-direct" r && (no_tunnel || tunnel (fun t => negb (bool_decide (is_Some (T_Obfuscation t)))))
  then Err (ErrMsg "secure-direct requires obfuscation") else
  match (if is_transport "secure-direct" r then match Q_Tunnel r with Some t => ValidateObfuscation (T_Obfuscation t) | None => Ok tt end else Ok tt) with
  | Err e => Err e
  | Ok _ =>
      if is_transport "quic" r && (negb (String.eqb (Q_Network r) "udp") || no_tunnel || tunnel (fun t => T_Mux t || negb (String.eqb (T_Reverse t) "") || chained t))
      then Err (ErrMsg "QUIC DATAGRAM requires single-exit UDP") else
      match Q_Tunnel r with
      | None => Ok tt
      | Some t =>
          if is_transport "quic" r then ValidateUDPExit (T_Endpoint t) (T_ServerName t) (T_Token t) else
          if is_transport "direct" r || is_transport "direct-tls" r then Ok tt else ValidateChain (hop_of r t) (T_Chain t)
      end
  end.
Definition validateRule (r : Rule) : res Z :=
  if (190 <? String.length (Q_Name r))%nat || String.eqb (TrimSpace (Q_Name r)) "" || negb (bool_decide (Q_Network r ∈ ["tcp"; "udp"])) || negb (bool_decide (Q_Transport r ∈ transports))
  then Err (ErrMsg "invalid name, network or transport") else
  match SplitHostPort (Q_Listen r) with
  | Err _ => Err (ErrMsg "listen must be IP:port")
  | Ok (host, _) =>
      if negb (String.eqb host "") && negb (bool_decide (is_Some (ParseIP host))) then Err (ErrMsg "listen must use an IP address") else
      match port_of (Q_Listen r) with
      | None => Err (ErrMsg "invalid port")
      | Some p =>
          match SplitHostPort (Q_Target r) with
          | Ok (h, _) =>
              if String.eqb h "" then Err (ErrMsg "target must be host:port") else
              match port_of (Q_Target r) with
              | None => Err (ErrMsg "invalid target port")
              | Some _ =>
                  match validate_tunnel r with
                  | Err e => Err e
                  | Ok _ => match ValidateAdvanced r with Err e => Err e | Ok _ => Ok p end
                  end
              end
          | Err _ => Err (ErrMsg "target must be host:port")
          end
      end
  end.

(** ** Who shares a port *)

Definition live_rules (node : string) (d : Tables) : list Rule :=
  omap (fun kr : string * saved_rule => if String.eqb (Q_NodeID (sr_rule kr.2)) node && negb (sr_deleted kr.2) then Some (sr_rule kr.2) else None) (map_to_list (d_rules d)).
(** Do the two answer on one port? *)
Definition same_socket (r v : Rule) : bool :=
  match Q_SharedTLS r, Q_SharedTLS v with
  | Some t, Some u => managedTLS r && String.eqb (IngressID u) (IngressID t) || negb (managedTLS r) && String.eqb (Q_Listen v) (Q_Listen r)
  | _, _ => false
  end.
Definition server_name (r : Rule) : string := match Q_SharedTLS r with Some t => ServerName t | None => "" end.
Definition may_share (r v : Rule) : bool :=
  bool_decide (is_Some (Q_SharedTLS v)) && negb (managedTLS v) && String.eqb (sharedParent v) "" && String.eqb (Q_UserID v) (Q_UserID r) && String.eqb (Q_GroupID v) (Q_GroupID r)
  && String.eqb (Q_Listen v) (Q_Listen r) && String.eqb (Q_Network v) (Q_Network r).
Fixpoint shared_loop (r : Rule) (siblings : list Rule) (found : bool) (count : Z) : res (bool * Z) :=
  match siblings with
  | [] => Ok (found, count)
  | v :: siblings =>
      if String.eqb (Q_ID v) (Q_ID r) then shared_loop r siblings found count else
      if String.eqb (sharedParent v) (Q_ID r) && (negb (bool_decide (is_Some (Q_SharedTLS r))) || negb (String.eqb (sharedParent r) ""))
      then Err (ErrMsg "shared TLS parent still has children") else
      let found := if String.eqb (Q_ID v) (sharedParent r) then may_share r v else found in
      if same_socket r v then
        if String.eqb (server_name r) (server_name v) then Err (ErrMsg "SNI already reserved") else shared_loop r siblings found (count + 1)
      else shared_loop r siblings found count
  end.
Definition validateSharedTx (r : Rule) : Tx Tables unit :=
  node ← gets (fun d => d_nodes d !! Q_NodeID r);
  or_fail node ErrNoRows ;;
  siblings ← gets (live_rules (Q_NodeID r));
  outcome ← of_res (shared_loop r siblings (String.eqb (sharedParent r) "") 0);
  guard_err (managedTLS r || outcome.1) (ErrMsg "shared TLS parent is unavailable or belongs to another owner/placement") ;;
  guard_err (outcome.2 <? 64) (ErrMsg "at most 64 SNI routes per port").

Definition set_shared (t : option SharedTLS) (listen : string) (r : Rule) : Rule :=
  {| Q_ID := Q_ID r; Q_UserID := Q_UserID r; Q_NodeID := Q_NodeID r; Q_GroupID := Q_GroupID r; Q_Name := Q_Name r; Q_Network := Q_Network r; Q_Transport := Q_Transport r;
     Q_Listen := listen; Q_Target := Q_Target r; Q_Enabled := Q_Enabled r; Q_Version := Q_Version r; Q_ExitGroupID := Q_ExitGroupID r; Q_ExitID := Q_ExitID r;
     Q_SelectedExitID := Q_SelectedExitID r; Q_BillingMultiplier := Q_BillingMultiplier r; Q_SharedTLS := t; Q_Tunnel := Q_Tunnel r; Q_BlockedProtocols := Q_BlockedProtocols r;
     Q_Lease := Q_Lease r; Q_StandbyLease := Q_StandbyLease r; Q_Runtime := Q_Runtime r; Q_Rest := Q_Rest r |}.
Definition bindTLSIngress (r : Rule) (g : Group) : Tx Tables Rule :=
  match Q_SharedTLS r with
  | Some t =>
      if negb (managedTLS r) then mret r else
      match ingressSettings g with
      | Some v =>
          guard_err (S_Enabled v && String.eqb (Q_Network r) "tcp" && String.eqb (ParentID t) "") (ErrMsg "shared TLS ingress unavailable") ;;
          let ingress := ingressID (G_ID g) (Q_NodeID r) in
          guard_err (String.eqb (IngressID t) "group" || String.eqb (IngressID t) ingress) (ErrMsg "shared TLS ingress belongs to another placement") ;;
          let listen := ingress_listen v in
          guard_err (String.eqb (Q_Listen r) "" || String.eqb (Q_Listen r) listen) (ErrMsg "shared TLS listen address is generated by the platform") ;;
          row ← gets (fun d => d_ingresses d !! ingress);
          guard_err (match row with
                     | Some i => String.eqb (in_node i) (Q_NodeID r) && String.eqb (in_group i) (G_ID g) && in_enabled i && String.eqb (in_listen i) listen
                     | None => false
                     end) (ErrMsg "shared TLS ingress not reserved") ;;
          match ToASCII (ServerName t) with
          | Some name =>
              guard_err (ValidServerName name) (ErrMsg "shared TLS requires an exact business SNI") ;;
              mret (set_shared (Some {| ParentID := ParentID t; IngressID := ingress; ServerName := name |}) listen r)
          | None => fail (ErrMsg "shared TLS requires an exact business SNI")
          end
      | None => fail (ErrMsg "shared TLS ingress unavailable")
      end
  | None => mret r
  end.

(** ** Limits *)

Definition count_rules (p : Rule -> bool) (d : Tables) : Z := map_sum (fun _ r => if p (sr_rule r) && negb (sr_deleted r) then 1 else 0) (d_rules d).
Definition checkRuleLimit (user : string) (g : Group) : Tx Tables unit :=
  max ← gets (accountMaxRules user);
  max ← of_res max;
  mine ← gets (count_rules (fun r => String.eqb (Q_UserID r) user));
  guard_err (negb ((0 <? max) && (max <=? mine))) (ErrMsg "plan rule limit reached") ;;
  here ← gets (count_rules (fun r => String.eqb (Q_UserID r) user && String.eqb (Q_GroupID r) (G_ID g)));
  guard_err (negb ((0 <? G_MaxRules g) && (G_MaxRules g <=? here))) (ErrMsg "rule limit reached").

Definition effectiveMultiplier (entry exit : string) : res string :=
  match SetString entry with
  | Some (an, ad) =>
      if an <=? 0 then Err (ErrMsg "invalid entry multiplier") else
      match SetString exit with
      | Some (bn, bd) =>
          if bn <=? 0 then Err (ErrMsg "invalid exit multiplier") else
          let '(n, m) := reduce (an * bn) (ad * bd) in
          if (2 ^ 63 <=? n) || (2 ^ 63 <=? m) then Err (ErrMsg "multiplier exceeds precision limit") else Ok (RatString (n, m))
      | None => Err (ErrMsg "invalid exit multiplier")
      end
  | None => Err (ErrMsg "invalid entry multiplier")
  end.

(** ** Saving a rule (resources.go) *)

Definition publish : Tx Tables unit := modify (set_nodes (fmap (fun n => {| n_desired := n_desired n + 1; n_applied := n_applied n; n_error := n_error n |}))).

Definition runtime_fields (r : Rule) : bool :=
  match Q_Tunnel r with Some t => T_Runtime t || existsb H_Runtime (T_Chain t) | None => false end.
(** An empty credential stands for the one that is stored, if the route is the
    same. *)
Definition inherit_hop (hop prior : TunnelHop) : TunnelHop :=
  if String.eqb (H_Token hop) "" && String.eqb (H_Transport hop) (H_Transport prior) && String.eqb (H_Endpoint hop) (H_Endpoint prior) && String.eqb (H_ServerName hop) (H_ServerName prior)
  then {| H_Transport := H_Transport hop; H_Endpoint := H_Endpoint hop; H_ServerName := H_ServerName hop; H_Token := H_Token prior; H_Runtime := H_Runtime hop |} else hop.
Fixpoint inherit_chain (chain prior : list TunnelHop) : list TunnelHop :=
  match chain, prior with
  | hop :: chain, p :: prior => inherit_hop hop p :: inherit_chain chain prior
  | chain, _ => chain
  end.
Definition inherit_tunnel (r old : Rule) : option Tunnel :=
  match Q_Tunnel r, Q_Tunnel old with
  | Some t, Some o =>
      if String.eqb (Q_ExitGroupID r) "" && String.eqb (Q_ExitGroupID old) "" then
        Some {| T_Endpoint := T_Endpoint t; T_ServerName := T_ServerName t;
                T_Token := if String.eqb (T_Token t) "" && String.eqb (Q_Transport r) (Q_Transport old) && String.eqb (T_Endpoint t) (T_Endpoint o) && String.eqb (T_ServerName t) (T_ServerName o)
                           then T_Token o else T_Token t;
                T_Mux := T_Mux t; T_Reverse := T_Reverse t; T_Chain := inherit_chain (T_Chain t) (T_Chain o); T_Obfuscation := T_Obfuscation t; T_Runtime := T_Runtime t |}
      else Some t
  | t, _ => t
  end.
Definition set_route (transport : string) (tunnel : option Tunnel) (exit : string) (r : Rule) : Rule :=
  {| Q_ID := Q_ID r; Q_UserID := Q_UserID r; Q_NodeID := Q_NodeID r; Q_GroupID := Q_GroupID r; Q_Name := Q_Name r; Q_Network := Q_Network r; Q_Transport := transport;
     Q_Listen := Q_Listen r; Q_Target := Q_Target r; Q_Enabled := Q_Enabled r; Q_Version := Q_Version r; Q_ExitGroupID := Q_ExitGroupID r; Q_ExitID := Q_ExitID r;
     Q_SelectedExitID := exit; Q_BillingMultiplier := Q_BillingMultiplier r; Q_SharedTLS := Q_SharedTLS r; Q_Tunnel := tunnel; Q_BlockedProtocols := Q_BlockedProtocols r;
     Q_Lease := Q_Lease r; Q_StandbyLease := Q_StandbyLease r; Q_Runtime := Q_Runtime r; Q_Rest := Q_Rest r |}.
Definition set_terms (multiplier : string) (blocked : list string) (version : Z) (lease standby : option string) (r : Rule) : Rule :=
  {| Q_ID := Q_ID r; Q_UserID := Q_UserID r; Q_NodeID := Q_NodeID r; Q_GroupID := Q_GroupID r; Q_Name := Q_Name r; Q_Network := Q_Network r; Q_Transport := Q_Transport r;
     Q_Listen := Q_Listen r; Q_Target := Q_Target r; Q_Enabled := Q_Enabled r; Q_Version := version; Q_ExitGroupID := Q_ExitGroupID r; Q_ExitID := Q_ExitID r;
     Q_SelectedExitID := Q_SelectedExitID r; Q_BillingMultiplier := multiplier; Q_SharedTLS := Q_SharedTLS r; Q_Tunnel := Q_Tunnel r; Q_BlockedProtocols := blocked;
     Q_Lease := lease; Q_StandbyLease := standby; Q_Runtime := Q_Runtime r; Q_Rest := Q_Rest r |}.

(** What an update takes from the rule that is stored, or why it is refused. *)
Definition update_of (actor role : string) (r : Rule) (row : saved_rule) : res Rule :=
  let old := sr_rule row in
  if sr_deleted row || negb (Q_Version old =? Q_Version r) || (negb (String.eqb role "admin") && negb (String.eqb (Q_UserID old) actor)) then Err ErrConflict else
  if negb (String.eqb (Q_NodeID r) (Q_NodeID old)) || negb (String.eqb (Q_GroupID r) (Q_GroupID old)) || negb (String.eqb (Q_UserID r) (Q_UserID old))
     || (negb (managedTLS old) && negb (String.eqb (Q_Listen r) (Q_Listen old))) || negb (String.eqb (Q_Network r) (Q_Network old))
  then Err (ErrMsg "listener, owner and placement are immutable; delete and recreate after ACK") else
  let ingress r := match Q_SharedTLS r with Some t => IngressID t | None => "" end in
  if negb (String.eqb (sharedParent r) (sharedParent old)) || negb (Bool.eqb (managedTLS r) (managedTLS old)) || (managedTLS old && negb (String.eqb (ingress r) (ingress old)))
  then Err (ErrMsg "shared TLS parent is immutable") else
  Ok (set_terms (Q_BillingMultiplier r) (Q_BlockedProtocols r) (Q_Version r) (Q_Lease old) (Q_StandbyLease old) (set_route (Q_Transport r) (inherit_tunnel r old) (Q_SelectedExitID r) r)).

(** The row of the rule after the save. *)
Definition store_saved (r : Rule) (p : Z) (create : bool) (expected : Z) : Tx Tables unit :=
  row ← gets (fun d => d_rules d !! Q_ID r);
  if create then
    guard_err (negb (bool_decide (is_Some row))) ErrConstraint ;;
    modify (set_rules (<[Q_ID r := {| sr_rule := r; sr_version := Q_Version r; sr_deleted := false; sr_release := 0 |}]>)) ;;
    if sharesPort r then mret tt else
    taken ← gets (rule_at (Q_NodeID r, Q_Network r, p));
    guard_err (negb taken) (ErrMsg "physical machine port reserved (all IP addresses)") ;;
    modify (set_ports (<[(Q_NodeID r, Q_Network r, p) := Q_ID r]>))
  else
    match row with
    | Some old =>
        guard_err ((sr_version old =? expected) && negb (sr_deleted old)) ErrConflict ;;
        modify (set_rules (<[Q_ID r := {| sr_rule := r; sr_version := Q_Version r; sr_deleted := false; sr_release := sr_release old |}]>))
    | None => fail ErrConflict
    end.

Definition fund (r : Rule) : Tx Tables (option string) :=
  if Q_Enabled r && negb (bool_decide (is_Some (Q_Lease r))) then
    lease ← gets (allocateLease r);
    lease ← of_res lease;
    mret (Some lease)
  else mret (Q_Lease r).

(** The TLS policy and the port range of the group. *)
Definition tls_denies (g : Group) (r : Rule) (owner_role : string) : bool :=
  let tls := match G_Advanced g with Some a => A_TLSInboundPolicy a | None => 0 end in
  activeAdvanced g && ((0 <? tls) && negb (String.eqb (Q_Network r) "tcp") || (tls =? 2) && negb (String.eqb owner_role "admin") && negb (sharesPort r)).
Definition group_denies (g : Group) (r : Rule) (p : Z) : bool :=
  (negb (managedTLS r) && ((p <? G_PortMin g) || (G_PortMax g <? p))) || entryPolicyDenied g r.

Definition saveRuleTx (actor role : string) (r : Rule) (create : bool) (random : Z) : Tx Tables Rule :=
  guard_err (negb (Q_Runtime r)) (ErrMsg "runtime fields are server-generated") ;;
  guard_err (negb (runtime_fields r)) (ErrMsg "runtime inspection fields are server-generated") ;;
  owner ← gets (fun d => d_users d !! Q_UserID r);
  owner ← or_fail owner ErrNoRows;
  guard_err (negb owner.1) (ErrMsg "owner disabled") ;;
  node ← gets (fun d => d_nodes d !! Q_NodeID r);
  or_fail node ErrNoRows ;;
  let expected := Q_Version r in
  row ← gets (fun d => d_rules d !! Q_ID r);
  let old := sr_rule <$> (if create then None else row) in
  r ← (if create then mret (set_terms (Q_BillingMultiplier r) (Q_BlockedProtocols r) (Q_Version r) (Q_Lease r) None r) else row ← or_fail row ErrNoRows; of_res (update_of actor role r row));
  route ← gets (resolveExitTx r);
  route ← of_res route;
  let '(transport, tunnel, exit, exitMultiplier) := route in
  let r := set_route transport tunnel exit r in
  member ← gets (fun d => bool_decide ((Q_NodeID r, Q_GroupID r) ∈ d_node_groups d));
  g ← gets (fun d => d_groups d !! Q_GroupID r);
  g ← or_fail g (ErrMsg "node not in group");
  guard_err member (ErrMsg "node not in group") ;;
  available ← gets (nodeAvailableTx (Q_NodeID r));
  of_res available ;;
  r ← bindTLSIngress r g;
  r ← (if String.eqb (TrimSpace (Q_Listen r)) "" then listen ← allocateListen g (Q_NodeID r) (Q_Network r) random; mret (set_shared (Q_SharedTLS r) listen r) else mret r);
  p ← of_res (validateRule r);
  exit_there ← gets (exit_at (Q_NodeID r, Q_Network r, p));
  guard_err (negb exit_there) (ErrMsg "physical port reserved by exit listener") ;;
  ingress_there ← gets (ingress_at (Q_NodeID r, Q_Network r, p));
  guard_err (managedTLS r || negb ingress_there) (ErrMsg "physical port reserved by shared TLS ingress") ;;
  authorized ← gets (groupAuthorized (Q_GroupID r) actor);
  guard_err (String.eqb role "admin" || authorized) (ErrMsg "group not authorized") ;;
  multiplier ← of_res (effectiveMultiplier (G_Multiplier g) exitMultiplier);
  let changed := match old with
                 | Some o => negb (String.eqb (Q_BillingMultiplier o) multiplier) || negb (String.eqb (Q_ExitGroupID o) (Q_ExitGroupID r)) || negb (String.eqb (Q_SelectedExitID o) (Q_SelectedExitID r))
                 | None => false
                 end in
  (if create then checkRuleLimit (Q_UserID r) g else mret tt) ;;
  guard_err (negb (tls_denies g r owner.2)) (ErrMsg "TLS inbound group policy denied") ;;
  guard_err (negb (group_denies g r p)) (ErrMsg "group policy denied") ;;
  blocked ← of_res (NormalizeBlocked (Q_BlockedProtocols r));
  let r := set_terms multiplier blocked (if create then 1 else expected + 1) (if changed then None else Q_Lease r) (if changed then None else Q_StandbyLease r) r in
  validateSharedTx r ;;
  supported ← gets (resourceCapabilities r);
  supported ← (if Q_Enabled r || managedTLS r then of_res supported else mret true);
  guard_err supported (ErrMsg "Agent does not support this rule configuration") ;;
  lease ← fund r;
  let r := set_terms (Q_BillingMultiplier r) (Q_BlockedProtocols r) (Q_Version r) lease (Q_StandbyLease r) r in
  store_saved r p create expected ;;
  publish ;;
  mret r.

(** The request: a user saves his own rules, an administrator anyone's. *)
Definition with_owner (rule owner : string) (r : Rule) : Rule :=
  {| Q_ID := rule; Q_UserID := owner; Q_NodeID := Q_NodeID r; Q_GroupID := Q_GroupID r; Q_Name := Q_Name r; Q_Network := Q_Network r; Q_Transport := Q_Transport r;
     Q_Listen := Q_Listen r; Q_Target := Q_Target r; Q_Enabled := Q_Enabled r; Q_Version := Q_Version r; Q_ExitGroupID := Q_ExitGroupID r; Q_ExitID := Q_ExitID r;
     Q_SelectedExitID := Q_SelectedExitID r; Q_BillingMultiplier := Q_BillingMultiplier r; Q_SharedTLS := Q_SharedTLS r; Q_Tunnel := Q_Tunnel r; Q_BlockedProtocols := Q_BlockedProtocols r;
     Q_Lease := None; Q_StandbyLease := None; Q_Runtime := Q_Runtime r; Q_Rest := Q_Rest r |}.
Definition saveRule (actor role path : string) (r : Rule) (random : Z) : Tx Tables Rule :=
  fresh ← id;
  let owner := if negb (String.eqb role "admin") || String.eqb (Q_UserID r) "" then actor else Q_UserID r in
  let create := String.eqb path "" in
  saveRuleTx actor role (with_owner (if create then fresh else path) owner r) create random.

(** ** Deleting a rule *)

Definition bare (rule node : string) : Rule :=
  {| Q_ID := rule; Q_UserID := ""; Q_NodeID := node; Q_GroupID := ""; Q_Name := ""; Q_Network := ""; Q_Transport := ""; Q_Listen := ""; Q_Target := ""; Q_Enabled := false;
     Q_Version := 0; Q_ExitGroupID := ""; Q_ExitID := ""; Q_SelectedExitID := ""; Q_BillingMultiplier := ""; Q_SharedTLS := None; Q_Tunnel := None; Q_BlockedProtocols := [];
     Q_Lease := None; Q_StandbyLease := None; Q_Runtime := false; Q_Rest := "" |}.
Definition deleteRule (actor role rule : string) (version : Z) : Tx Tables unit :=
  row ← gets (fun d => d_rules d !! rule);
  row ← or_fail row ErrNoRows;
  guard_err ((sr_version row =? version) && negb (sr_deleted row)) ErrNoRows ;;
  guard_err (String.eqb role "admin" || String.eqb actor (Q_UserID (sr_rule row))) ErrConflict ;;
  validateSharedTx (bare rule (Q_NodeID (sr_rule row))) ;;
  publish ;;
  node ← gets (fun d => d_nodes d !! Q_NodeID (sr_rule row));
  node ← or_fail node ErrNoRows;
  modify (set_rules (<[rule := {| sr_rule := sr_rule row; sr_version := version + 1; sr_deleted := true; sr_release := n_desired node |}]>)).

(** ** Exits (contract/exits.go, exit_ports.go, exits.go) *)

Definition exitEndpointPort (transport endpoint : string) : res Z :=
  let number address := match port_of address with Some p => Ok p | None => Err (ErrMsg "invalid exit listening port") end in
  if String.eqb transport "ws" || String.eqb transport "wss" then
    match url_host endpoint with
    | Err e => Err e
    | Ok (host, "") => Ok (if String.eqb transport "wss" then 443 else 80)
    | Ok (host, _) => number host
    end
  else number endpoint.
Definition ExitListeningPorts (e : Exit) : res (list (string * Z)) :=
  if negb (String.eqb (T_Reverse (X_Tunnel e)) "") then Ok [] else
  match exitEndpointPort (if X_Managed e then "tls" else X_Transport e) (if X_Managed e then X_Listen e else T_Endpoint (X_Tunnel e)) with
  | Err e => Err e
  | Ok tcp =>
      match X_UDP e with
      | None => Ok [("tcp", tcp)]
      | Some endpoint => match exitEndpointPort "quic" endpoint with Err e => Err e | Ok udp => Ok [("tcp", tcp); ("udp", udp)] end
      end
  end.
Definition reserve_one (e : Exit) (np : string * Z) : Tx Tables unit :=
  free ← gets (unreserved (X_NodeID e, np.1, np.2));
  guard_err free (ErrMsg "physical exit port already reserved") ;;
  modify (set_exit_ports (fun s => {[ ((X_NodeID e, np.1, np.2), X_ID e) ]} ∪ s)).
Definition reserveExitPorts (e : Exit) : Tx Tables unit :=
  node ← gets (fun d => d_nodes d !! X_NodeID e);
  or_fail node ErrNoRows ;;
  modify (set_exit_ports (filter (fun pe => pe.2 <> X_ID e))) ;;
  ports ← of_res (ExitListeningPorts e);
  for_each ports (reserve_one e).

(** The migration of panels from before cp_exit_ports (storage/exit_ports.go):
    every exit gets its ports, whoever else has them. *)
Definition legacy_ports (ke : string * Exit) : res (list (port * string)) :=
  match ExitListeningPorts ke.2 with
  | Err e => Err e
  | Ok ports => Ok ((fun np : string * Z => ((X_NodeID ke.2, np.1, np.2), ke.1)) <$> ports)
  end.
Fixpoint collect_legacy (exits : list (string * Exit)) : res (list (port * string)) :=
  match exits with
  | [] => Ok []
  | ke :: exits => match legacy_ports ke, collect_legacy exits with
                   | Ok l, Ok rest => Ok (l ++ rest)%list
                   | Err e, _ | _, Err e => Err e
                   end
  end.
Definition backfillExitPorts : Tx Tables unit :=
  items ← gets (fun d => collect_legacy (map_to_list (d_exits d)));
  items ← of_res items;
  modify (set_exit_ports (fun s => list_to_set items ∪ s)).

Definition with_version (exit : string) (version : Z) (e : Exit) : Exit :=
  {| X_ID := exit; X_GroupID := X_GroupID e; X_NodeID := X_NodeID e; X_Version := version; X_Managed := X_Managed e; X_Listen := X_Listen e; X_Transport := X_Transport e;
     X_Tunnel := X_Tunnel e; X_UDP := X_UDP e |}.
Definition saveExit (path : string) (e : Exit) : Tx Tables unit :=
  fresh ← id;
  let create := String.eqb path "" in
  let expected := X_Version e in
  let e := with_version (if create then fresh else path) (if create then 1 else expected + 1) e in
  allowed ← gets (exitAllowed e);
  of_res allowed ;;
  reserveExitPorts e ;;
  row ← gets (fun d => d_exits d !! X_ID e);
  guard_err (match row with Some old => negb create && (X_Version old =? expected) | None => create end) ErrConflict ;;
  modify (set_exits (<[X_ID e := e]>)) ;;
  publish.

(** ** Shared TLS ingresses (tls_ingress.go) *)

Definition node_groups (node : string) (d : Tables) : list string :=
  merge_sort String.le ((filter (fun ng : string * string => ng.1 = node) (elements (d_node_groups d))).*2).
(** The groups of the node with an ingress. *)
Definition wanted_groups (node : string) (d : Tables) : list (string * SharedTLSIngressSettings) :=
  omap (fun gid => g ← d_groups d !! gid; v ← ingressSettings g; if S_Enabled v then Some (gid, v) else None) (node_groups node d).

(** An ingress that goes away or moves: its port is to be released with the
    next version. *)
Definition release_ingress (node : string) (desired : Z) (wanted : list (string * SharedTLSIngressSettings)) (saved : string * ingress_row) (d : Tables) : Tables :=
  let conf := list_find (fun gv => ingressID gv.1 node = saved.1) wanted in
  let moved := match conf with Some (_, gv) => negb (String.eqb (ingress_listen gv.2) (in_listen saved.2)) | None => true end in
  let d := if in_enabled saved.2 && moved
           then set_ingress_ports (fmap (fun ir : string * Z => if String.eqb ir.1 saved.1 && (ir.2 =? 0) then (ir.1, desired + 1) else ir)) d else d in
  match conf with
  | Some _ => d
  | None => set_ingresses (alter (fun i => {| in_group := in_group i; in_node := in_node i; in_listen := in_listen i; in_enabled := false |}) saved.1) d
  end.
Definition acquire_ingress (node : string) (gv : string * SharedTLSIngressSettings) : Tx Tables unit :=
  let ingress := ingressID gv.1 node in
  let p := (node, "tcp", S_Port gv.2) in
  taken ← gets (fun d => rule_at p d || exit_at p d || other_ingress_at p ingress d);
  guard_err (negb taken) (ErrMsg "shared TLS ingress port already reserved on physical node") ;;
  modify (set_ingress_ports (<[p := (ingress, 0)]>)) ;;
  modify (set_ingresses (<[ingress := {| in_group := gv.1; in_node := node; in_listen := ingress_listen gv.2; in_enabled := true |}]>)).
Definition sync_node (node : string) : Tx Tables unit :=
  row ← gets (fun d => d_nodes d !! node);
  row ← or_fail row ErrNoRows;
  wanted ← gets (wanted_groups node);
  old ← gets (fun d => filter (fun ki : string * ingress_row => in_node ki.2 = node) (map_to_list (d_ingresses d)));
  modify (fun d => foldl (fun d saved => release_ingress node (n_desired row) wanted saved d) d old) ;;
  for_each wanted (acquire_ingress node).
Definition syncTLSIngresses : Tx Tables unit :=
  nodes ← gets (fun d => (map_to_list (d_nodes d)).*1);
  for_each nodes sync_node.

(** ** Groups (resources.go, groups_delete.go) *)

Definition with_settings (gid : string) (version : Z) (a : option GroupAdvanced) (g : Group) : Group :=
  {| G_ID := gid; G_Type := G_Type g; G_PortMin := G_PortMin g; G_PortMax := G_PortMax g; G_MaxRules := G_MaxRules g; G_Multiplier := G_Multiplier g;
     G_ChainGroupIDs := G_ChainGroupIDs g; G_Advanced := a; G_Version := version |}.
Definition saveGroup (path : string) (g : Group) : Tx Tables unit :=
  advanced ← of_res (validateIngressSettings (G_Advanced g));
  guard_err ((1 <=? G_PortMin g) && (G_PortMax g <=? 65535) && (G_PortMin g <=? G_PortMax g) && (0 <=? G_MaxRules g)) (ErrMsg "invalid group name or port range") ;;
  fresh ← id;
  let create := String.eqb path "" in
  let expected := G_Version g in
  let g := with_settings (if create then fresh else path) (if create then 1 else expected + 1) advanced g in
  allowed ← gets (groupAllowed g);
  of_res allowed ;;
  row ← gets (fun d => d_groups d !! G_ID g);
  guard_err (match row with Some old => negb create && (G_Version old =? expected) | None => create end) ErrConflict ;;
  modify (set_groups (<[G_ID g := g]>)) ;;
  syncTLSIngresses ;;
  publish.

Definition refers_to (target : string) (g : Group) : bool :=
  bool_decide (target ∈ G_ChainGroupIDs g) || match G_Advanced g with Some a => bool_decide (target ∈ A_IPv6Group a) || bool_decide (target ∈ A_ReverseGroup a) | None => false end.
Definition exit_in (target x : string) (d : Tables) : bool := match d_exits d !! x with Some e => String.eqb (X_GroupID e) target | None => false end.
(** Does the rule use the group, by itself or by one of its exits?  A deleted
    rule does until its node has acknowledged that. *)
Definition rule_in_use (target : string) (d : Tables) (r : saved_rule) : bool :=
  let exit_of x := exit_in target x d in
  let q := sr_rule r in
  match d_nodes d !! Q_NodeID q with
  | Some n => (String.eqb (Q_GroupID q) target || String.eqb (Q_ExitGroupID q) target || exit_of (Q_ExitID q) || exit_of (Q_SelectedExitID q)) && (negb (sr_deleted r) || (n_applied n <? sr_release r))
  | None => false
  end.
Definition rule_port_of (target : string) (d : Tables) (rule : string) : bool := match d_rules d !! rule with Some r => String.eqb (Q_GroupID (sr_rule r)) target | None => false end.
Definition ingress_port_of (target : string) (d : Tables) (ingress : string) : bool := match d_ingresses d !! ingress with Some i => String.eqb (in_group i) target | None => false end.
Definition drop_group (target : string) (d : Tables) : Tables :=
  set_groups (delete target) (set_node_groups (filter (fun ng => ng.2 <> target)) (set_exits (filter (fun ke => X_GroupID ke.2 <> target))
    (set_exit_ports (filter (fun pe => exit_in target pe.2 d = false))
      (set_rules (filter (fun kr => ~ (Q_GroupID (sr_rule kr.2) = target /\ sr_deleted kr.2 = true))) (set_ingresses (filter (fun ki => in_group ki.2 <> target)) d))))).
Definition deleteGroup (target : string) (version : Z) : Tx Tables unit :=
  row ← gets (fun d => d_groups d !! target);
  row ← or_fail row ErrNoRows;
  guard_err (G_Version row =? version) ErrConflict ;;
  referred ← gets (fun d => existsb (fun kg => negb (String.eqb kg.1 target) && refers_to target kg.2) (map_to_list (d_groups d)));
  guard_err (negb referred) ErrConflict ;;
  used ← gets (fun d => existsb (fun kr => rule_in_use target d kr.2) (map_to_list (d_rules d)));
  guard_err (negb used) ErrConflict ;;
  held ← gets (fun d => existsb (fun pr => rule_port_of target d pr.2) (map_to_list (d_ports d)));
  guard_err (negb held) ErrConflict ;;
  held ← gets (fun d => existsb (fun pi => ingress_port_of target d pi.2.1) (map_to_list (d_ingress_ports d)));
  guard_err (negb held) ErrConflict ;;
  modify (fun d => set_nodes (map_imap (fun node n => Some (if bool_decide ((node, target) ∈ d_node_groups d)
                                                        then {| n_desired := n_desired n + 1; n_applied := n_applied n; n_error := n_error n |} else n))) d) ;;
  modify (drop_group target) ;;
  publish.

(** ** Nodes (agents.go, operations.go) *)

Definition registerNode (groups : list string) : Tx Tables string :=
  node ← id;
  known ← gets (fun d => forallb (fun gid => match d_groups d !! gid with Some g => negb (String.eqb (G_Type g) "chain_exit") | None => false end) groups);
  guard_err known (ErrMsg "invalid enrollment") ;;
  taken ← gets (fun d => bool_decide (is_Some (d_nodes d !! node)));
  guard_err (negb taken) ErrConstraint ;;
  modify (set_nodes (<[node := {| n_desired := 1; n_applied := 0; n_error := "" |}]>)) ;;
  modify (set_node_groups (fun s => list_to_set ((fun g => (node, g)) <$> groups) ∪ s)) ;;
  syncTLSIngresses ;;
  mret node.

(** What an agent reports of a configuration: the version, the one it runs,
    what went wrong, and whether what it can do has changed. *)
Record Ack := { K_Version : Z; K_AppliedVersion : Z; K_Error : string; K_ProfilesChanged : bool; K_CapabilitiesChanged : bool }.
(** The ports of what a configuration of this version is without. *)
Definition ack_release (node : string) (applied : Z) : Tx Tables unit :=
  rules ← gets d_rules;
  let gone rule := match rules !! rule with Some r => String.eqb (Q_NodeID (sr_rule r)) node && sr_deleted r && (sr_release r <=? applied) | None => false end in
  modify (set_ports (filter (fun pr : port * string => ~ (pr.1.1.1 = node /\ gone pr.2 = true)))) ;;
  modify (set_ingress_ports (filter (fun pi : port * (string * Z) => ~ (pi.1.1.1 = node /\ 0 < pi.2.2 <= applied)))).
Definition ack (node : string) (k : Ack) : Tx Tables unit :=
  guard_err (negb ((2000 <? Z.of_nat (String.length (K_Error k))) || (K_Version k <? 1) || (K_AppliedVersion k <? 0) || (K_Version k <? K_AppliedVersion k)
                   || (String.eqb (K_Error k) "" && negb (K_AppliedVersion k =? K_Version k)))) (ErrMsg "invalid ACK") ;;
  n ← gets (fun d => d_nodes d !! node);
  n ← or_fail n ErrConflict;
  guard_err ((n_desired n =? K_Version k) && (n_applied n <=? K_AppliedVersion k)) ErrConflict ;;
  modify (set_nodes (<[node := {| n_desired := n_desired n; n_applied := K_AppliedVersion k; n_error := K_Error k |}]>)) ;;
  (if K_ProfilesChanged k then publish else mret tt) ;;
  (if K_CapabilitiesChanged k then publish else mret tt) ;;
  if negb (String.eqb (K_Error k) "") then mret tt else ack_release node (K_AppliedVersion k).

(** The agent of the node has removed itself. *)
Definition uninstalled (node : string) : Tx Tables unit :=
  modify (fun d => set_ingress_ports (filter (fun pi : port * (string * Z) => pi.1.1.1 <> node)) (set_ingresses (filter (fun ki : string * ingress_row => in_node ki.2 <> node))
    (set_node_groups (filter (fun ng : string * string => ng.1 <> node)) (set_exits (filter (fun ke : string * Exit => X_NodeID ke.2 <> node)) d)))) ;;
  publish.
End Ports.
