(* ===== verification/PortsInv.v ===== *)
(** * The ports of nodes: what holds in every state

    The tables of the control plane with the configurations that nodes were
    sent, and the invariant of all steps. *)

From S2P Require Import Prelude Tx GoStrings Addresses Rational Streams Ports.
From stdpp Require Import base gmap strings list sorting relations.
From Stdlib Require Import Ascii String.
Local Open Scope string_scope.
Local Open Scope Z_scope.
Local Abbreviation length := List.length.

(** ** Blank addresses have no port *)

Lemma has_byte_rev c s : has_byte c (rev_string s) = has_byte c s.
Proof. induction s as [|a s IH]; [done|]. cbn. rewrite has_byte_app, IH, !has_byte_cons, orb_false_r. apply orb_comm. Qed.
Lemma has_prefix_app p s : has_prefix p s = true -> s = p ++ str_drop (String.length p) s.
Proof.
  revert s. induction p as [|a p IH]; intros s H; [done|]. destruct s as [|b s]; [done|]. cbn in *. apply andb_prop in H as [Ha%Ascii.eqb_eq Hs]. subst. by rewrite string_app_cons, <- IH.
Qed.
Lemma trim_left_byte c n ps s : (forall p, p ∈ ps -> has_byte c p = false) -> has_byte c (trim_left n ps s) = has_byte c s.
Proof.
  intros Hps. revert s. induction n as [|n IH]; intros s; [done|]. cbn. destruct (list_find _ ps) as [[i p]|] eqn:E; [|done].
  apply list_find_Some in E as (Hin & Hp%Is_true_true & _). apply list_elem_of_lookup_2 in Hin. rewrite IH. transitivity (has_byte c (p ++ str_drop (String.length p) s)); [by rewrite has_byte_app, (Hps p Hin)|by rewrite <- has_prefix_app].
Qed.
Lemma blank_no_port s : TrimSpace s = "" -> port_of s = None.
Proof.
  unfold TrimSpace. intros H. assert (Hs : has_byte ":" s = false).
  { apply (f_equal (has_byte ":")) in H. rewrite has_byte_rev, trim_left_byte, has_byte_rev, trim_left_byte in H; [done| |].
    all: intros p Hp; revert p Hp; apply Forall_forall; vm_compute; repeat constructor. }
  unfold port_of, SplitHostPort. by rewrite (cut_last_none _ _ Hs).
Qed.

(** ** Reservations *)

Lemma exit_at_false p d : exit_at p d = false <-> forall e, (p, e) ∉ d_exit_ports d.
Proof.
  unfold exit_at. split.
  - intros H e Hin. assert (existsb (fun pe : port * string => bool_decide (pe.1 = p)) (elements (d_exit_ports d)) = true) as Ht; [|congruence].
    apply existsb_exists. exists (p, e). split; [by apply list_elem_of_In, elem_of_elements|]. by apply bool_decide_eq_true_2.
  - intros H. apply not_true_iff_false. intros ([x e] & Hin%list_elem_of_In%elem_of_elements & Hx%bool_decide_eq_true)%existsb_exists. cbn in Hx. subst. by eapply H.
Qed.
Lemma rule_at_false p d : rule_at p d = false <-> d_ports d !! p = None.
Proof. unfold rule_at. rewrite bool_decide_eq_false. symmetry. apply eq_None_not_Some. Qed.
Lemma ingress_at_false p d : ingress_at p d = false <-> d_ingress_ports d !! p = None.
Proof. unfold ingress_at. rewrite bool_decide_eq_false. symmetry. apply eq_None_not_Some. Qed.
Lemma unreserved_spec p d : unreserved p d = true <-> d_ports d !! p = None /\ (forall e, (p, e) ∉ d_exit_ports d) /\ d_ingress_ports d !! p = None.
Proof. unfold unreserved. rewrite negb_true_iff, !orb_false_iff, rule_at_false, exit_at_false, ingress_at_false. tauto. Qed.

(** The identifiers that the panel draws for groups and nodes, and that no two
    ingresses of theirs on different nodes have the same hash. *)
Class KnownIDs := {
  known_group : string -> Prop;
  known_node : string -> Prop;
  ids_differ g n g' n' : known_group g -> known_node n -> known_group g' -> known_node n' -> ingressID g n = ingressID g' n' -> n = n'
}.

Section Inv.
Context `{RatSyntax} `{Surroundings} `{KnownIDs}.

(** What a node was sent: a version, the rules that listen by themselves and
    the ingresses, with their ports. *)
Record listeners := { c_node : string; c_version : Z; c_rules : list (string * string * Z); c_ingresses : list (string * Z) }.
Definition listens (node : string) (kr : string * saved_rule) : option (string * string * Z) :=
  if String.eqb (Q_NodeID (sr_rule kr.2)) node && negb (sr_deleted kr.2) && negb (sharesPort (sr_rule kr.2))
  then (fun p => (kr.1, Q_Network (sr_rule kr.2), p)) <$> port_of (Q_Listen (sr_rule kr.2)) else None.
Definition answers (node : string) (ki : string * ingress_row) : option (string * Z) :=
  if String.eqb (in_node ki.2) node && in_enabled ki.2 then (fun p => (ki.1, p)) <$> port_of (in_listen ki.2) else None.
(** Read by nodeConfig in one transaction; a configuration has at most these. *)
Definition snapshot (node : string) (version : Z) (d : Tables) : listeners :=
  {| c_node := node; c_version := version; c_rules := omap (listens node) (map_to_list (d_rules d)); c_ingresses := omap (answers node) (map_to_list (d_ingresses d)) |}.

Record psys := { p_db : Tables; p_sent : list listeners }.
Definition with_pdb (d : Tables) (s : psys) : psys := {| p_db := d; p_sent := p_sent s |}.

(** Fields of a rule that are fixed when it is created. *)
Definition same_place (r r' : Rule) : Prop :=
  Q_ID r' = Q_ID r /\ Q_UserID r' = Q_UserID r /\ Q_NodeID r' = Q_NodeID r /\ Q_GroupID r' = Q_GroupID r /\ Q_Network r' = Q_Network r /\ Q_Listen r' = Q_Listen r /\ Q_SharedTLS r' = Q_SharedTLS r.

Inductive pstep (s : psys) : psys -> Prop :=
  | ps_saveRule env actor role path r random : pstep s (with_pdb (Write (saveRule actor role path r random) env (p_db s)).2 s)
  | ps_saveRuleTx env actor role r create random : pstep s (with_pdb (Write (saveRuleTx actor role r create random) env (p_db s)).2 s)
  | ps_deleteRule env actor role rule version : pstep s (with_pdb (Write (deleteRule actor role rule version) env (p_db s)).2 s)
  | ps_saveExit env path e : pstep s (with_pdb (Write (saveExit path e) env (p_db s)).2 s)
  | ps_saveGroup env path g : (path = "" -> known_group (env_rand env 0)) -> pstep s (with_pdb (Write (saveGroup path g) env (p_db s)).2 s)
  | ps_deleteGroup env target version : pstep s (with_pdb (Write (deleteGroup target version) env (p_db s)).2 s)
  | ps_registerNode env groups : known_node (env_rand env 0) -> pstep s (with_pdb (Write (registerNode groups) env (p_db s)).2 s)
  | ps_ack env node k : pstep s (with_pdb (Write (ack node k) env (p_db s)).2 s)
  | ps_config node n : d_nodes (p_db s) !! node = Some n -> pstep s {| p_db := p_db s; p_sent := snapshot node (n_desired n) (p_db s) :: p_sent s |}
  (* the agent is gone with whatever it was sent *)
  | ps_uninstalled env node : pstep s {| p_db := (Write (uninstalled node) env (p_db s)).2; p_sent := filter (fun c => c_node c <> node) (p_sent s) |}
  (* the lease desk and the refresh of exits write rules back *)
  | ps_rewrite rule row r' : d_rules (p_db s) !! rule = Some row -> same_place (sr_rule row) r' ->
      pstep s (with_pdb (set_rules (<[rule := {| sr_rule := r'; sr_version := sr_version row; sr_deleted := sr_deleted row; sr_release := sr_release row |}]>) (p_db s)) s)
  | ps_bump node n : d_nodes (p_db s) !! node = Some n ->
      pstep s (with_pdb (set_nodes (<[node := {| n_desired := n_desired n + 1; n_applied := n_applied n; n_error := n_error n |}]>) (p_db s)) s)
  | ps_users users : pstep s (with_pdb {| d_users := users; d_nodes := d_nodes (p_db s); d_groups := d_groups (p_db s); d_node_groups := d_node_groups (p_db s); d_rules := d_rules (p_db s);
      d_exits := d_exits (p_db s); d_ports := d_ports (p_db s); d_exit_ports := d_exit_ports (p_db s); d_ingresses := d_ingresses (p_db s); d_ingress_ports := d_ingress_ports (p_db s) |} s).
Definition new_panel : psys :=
  {| p_db := {| d_users := ∅; d_nodes := ∅; d_groups := ∅; d_node_groups := ∅; d_rules := ∅; d_exits := ∅; d_ports := ∅; d_exit_ports := ∅; d_ingresses := ∅; d_ingress_ports := ∅ |}; p_sent := [] |}.

(** ** The invariant of the tables *)

Inductive port_owner := ByRule (rule : string) | ByExit (exit : string) | ByIngress (ingress : string).
(** Who has the port reserved. *)
Definition has_port (d : Tables) (x : port) (o : port_owner) : Prop :=
  match o with
  | ByRule k => d_ports d !! x = Some k
  | ByExit e => (x, e) ∈ d_exit_ports d
  | ByIngress i => exists release, d_ingress_ports d !! x = Some (i, release)
  end.

(** The tables the panel started with: ports that had several owners then
    may still have them. *)
Context (origin : Tables).
Definition exclusive (d : Tables) : Prop := forall x o o', has_port d x o -> has_port d x o' -> o = o' \/ (has_port origin x o /\ has_port origin x o').
Lemma exclusive_fewer d d' : exclusive d -> (forall x o, has_port d' x o -> has_port d x o) -> exclusive d'.
Proof. intros Hd Hf x o o' Ho Ho'. by apply Hd; apply Hf. Qed.
(** One port gets an owner that nobody else has. *)
Lemma exclusive_one_more d d' x o : exclusive d -> (forall o', has_port d x o' -> o' = o) ->
  (forall y o', has_port d' y o' -> has_port d y o' \/ (y = x /\ o' = o)) -> exclusive d'.
Proof.
  intros Hd Hfree Hf y o1 o2 [Ho1|[E1 ->]]%Hf [Ho2|[E2 ->]]%Hf; [by apply Hd| | |by left]; subst y; left; [|symmetry]; by apply Hfree.
Qed.

Definition sound_settings (g : Group) : Prop := forall v, ingressSettings g = Some v -> port_of (ingress_listen v) = Some (S_Port v).
(** All but that enabled ingresses have their ports, which is not so while
    they are being moved. *)
Record pinv0 (d : Tables) : Prop := {
  pi_rules k r : d_rules d !! k = Some r -> Q_ID (sr_rule r) = k /\ exists n, d_nodes d !! Q_NodeID (sr_rule r) = Some n;
  pi_owner node network p k : d_ports d !! (node, network, p) = Some k ->
    exists r, d_rules d !! k = Some r /\ Q_NodeID (sr_rule r) = node /\ Q_Network (sr_rule r) = network /\ port_of (Q_Listen (sr_rule r)) = Some p /\ sharesPort (sr_rule r) = false;
  pi_live k r : d_rules d !! k = Some r -> sr_deleted r = false -> exists p, port_of (Q_Listen (sr_rule r)) = Some p /\
    (sharesPort (sr_rule r) = false -> d_ports d !! (Q_NodeID (sr_rule r), Q_Network (sr_rule r), p) = Some k);
  pi_one : exclusive d;
  pi_ingress i row : d_ingresses d !! i = Some row -> i = ingressID (in_group row) (in_node row) /\ known_group (in_group row) /\ known_node (in_node row);
  pi_port_ingress x i rel : d_ingress_ports d !! x = Some (i, rel) -> (exists g, i = ingressID g x.1.1 /\ known_group g /\ known_node x.1.1) /\ 0 <= rel;
  pi_nodes k n : d_nodes d !! k = Some n -> 0 <= n_applied n <= n_desired n;
  pi_known k n : d_nodes d !! k = Some n -> known_node k;
  pi_groups k g : d_groups d !! k = Some g -> G_ID g = k /\ known_group k /\ sound_settings g
}.
Definition placed (d : Tables) (i : string) (row : ingress_row) : Prop :=
  exists p, port_of (in_listen row) = Some p /\ d_ingress_ports d !! (in_node row, "tcp", p) = Some (i, 0).
Definition enabled_ok (d : Tables) : Prop := forall i row, d_ingresses d !! i = Some row -> in_enabled row = true -> placed d i row.

(** ** The invariant of what was sent: the node has moved on, or the ports
    are still reserved and cannot be released before it does. *)
Definition rule_held (d : Tables) (node : string) (version : Z) (l : string * string * Z) : Prop :=
  d_ports d !! (node, l.1.2, l.2) = Some l.1.1 /\ forall r, d_rules d !! l.1.1 = Some r -> sr_deleted r = true -> version < sr_release r.
Definition ingress_held (d : Tables) (node : string) (version : Z) (l : string * Z) : Prop :=
  exists rel, d_ingress_ports d !! (node, "tcp", l.2) = Some (l.1, rel) /\ (rel = 0 \/ version < rel).
Definition sent_ok (d : Tables) (c : listeners) : Prop :=
  exists n, d_nodes d !! c_node c = Some n /\ c_version c <= n_desired n /\
    (c_version c < n_applied n \/ (Forall (rule_held d (c_node c) (c_version c)) (c_rules c) /\ Forall (ingress_held d (c_node c) (c_version c)) (c_ingresses c))).

(** ** Nodes only advance *)
Definition advances (d d' : Tables) : Prop := forall k n, d_nodes d !! k = Some n -> exists n', d_nodes d' !! k = Some n' /\ n_desired n <= n_desired n' /\ n_applied n <= n_applied n'.
Lemma advances_same d d' : d_nodes d' = d_nodes d -> advances d d'.
Proof. intros E k n Hn. rewrite E. eauto with lia. Qed.

(** What is held stays held if the ports stay, and what is newly deleted or
    released is so from a later version on. *)
Lemma sent_step d d' c : sent_ok d c -> advances d d' ->
  (forall network p k, d_ports d !! (c_node c, network, p) = Some k -> d_ports d' !! (c_node c, network, p) = Some k \/
     exists r n', d_rules d !! k = Some r /\ sr_deleted r = true /\ d_nodes d' !! c_node c = Some n' /\ sr_release r <= n_applied n') ->
  (forall k r', d_rules d' !! k = Some r' -> sr_deleted r' = true -> is_Some (d_rules d !! k) -> (exists r, d_rules d !! k = Some r /\ sr_deleted r = true /\ sr_release r' = sr_release r) \/
     forall n, d_nodes d !! c_node c = Some n -> Q_NodeID (sr_rule r') = c_node c -> n_desired n < sr_release r') ->
  (forall p i rel, d_ingress_ports d !! (c_node c, "tcp", p) = Some (i, rel) ->
     (exists rel', d_ingress_ports d' !! (c_node c, "tcp", p) = Some (i, rel') /\ (rel' = rel \/ rel' = 0 \/ forall n, d_nodes d !! c_node c = Some n -> n_desired n < rel')) \/
     (0 < rel /\ exists n', d_nodes d' !! c_node c = Some n' /\ rel <= n_applied n')) ->
  pinv0 d -> pinv0 d' -> sent_ok d' c.
Proof.
  intros (n & Hn & Hv & Hheld) Hadv Hports Hrules Hing Hi Hi'. destruct (Hadv _ _ Hn) as (n' & Hn' & Hd & Ha). exists n'. split; [done|]. split; [lia|].
  destruct Hheld as [?|[Hr Hig]]; [left; lia|]. destruct (decide (c_version c < n_applied n')) as [|Hnot]; [by left|right]. split.
  - eapply Forall_impl; [exact Hr|]. intros [[k network] p] [Hp Hk]. cbn [fst snd] in *. destruct (Hports _ _ _ Hp) as [Hp'|(r & n2 & Hrow & Hdel & Hn2 & Hrel)].
    + split; [done|]. intros r' Hr' Hdel'. cbn [fst snd] in *. destruct (pi_owner _ Hi _ _ _ _ Hp) as (r0 & Hr0 & _). destruct (Hrules _ _ Hr' Hdel') as [(r & Hrow & Hdel & ->)|Hnew]; [by eexists|by apply Hk|].
      destruct (pi_owner _ Hi' _ _ _ _ Hp') as (r2 & Hr2 & Hnode & _). assert (r2 = r') as -> by congruence. specialize (Hnew _ Hn Hnode). lia.
    + specialize (Hk _ Hrow Hdel). assert (n2 = n') as -> by congruence. lia.
  - eapply Forall_impl; [exact Hig|]. intros [i p] (rel & Hp & Hrel). cbn [fst snd] in *. destruct (Hing _ _ _ Hp) as [(rel' & Hp' & Hc)|(Hpos & n2 & Hn2 & Hle)].
    + exists rel'. split; [done|]. destruct Hc as [->|[->|Hnew]]; [done|by left|right]. specialize (Hnew _ Hn). lia.
    + assert (n2 = n') as -> by congruence. lia.
Qed.

(** ** What saving a rule does *)

(** Two versions of a rule at one place, behind the same socket. *)
Definition kept (r r' : Rule) : Prop :=
  Q_ID r' = Q_ID r /\ Q_UserID r' = Q_UserID r /\ Q_NodeID r' = Q_NodeID r /\ Q_GroupID r' = Q_GroupID r /\ Q_Network r' = Q_Network r /\
  managedTLS r' = managedTLS r /\ sharedParent r' = sharedParent r.
Lemma kept_place_trans r1 r2 r3 : kept r1 r2 -> kept r2 r3 -> kept r1 r3.
Proof. unfold kept. intuition congruence. Qed.
Lemma kept_shares r r' : kept r r' -> sharesPort r' = sharesPort r.
Proof. unfold kept, sharesPort. intros (_ & _ & _ & _ & _ & -> & ->). done. Qed.

Lemma bindTLSIngress_Ok r g env d t r' d' t' : bindTLSIngress r g env d t = (Ok (r', d'), t') -> d' = d /\ kept r r' /\ (managedTLS r = false -> r' = r).
Proof.
  unfold bindTLSIngress. destruct (Q_SharedTLS r) as [tls|] eqn:Et; [|intros Hr; tx_inv Hr; done]. destruct (managedTLS r) eqn:Em; cbn [negb]; [|intros Hr; tx_inv Hr; done].
  destruct (ingressSettings g) as [v|]; [|done]. intros Hr. apply tx_bind_Ok in Hr as (? & ? & ? & (Hg & -> & ->)%guard_Ok & Hr). tx_inv Hr.
  destruct (ToASCII (ServerName tls)) as [name|]; [|done]. match goal with Hx : mbind _ _ _ _ _ = _ |- _ => tx_inv Hx end. split; [done|]. split; [|done].
  unfold kept, managedTLS, sharedParent in *. cbn. rewrite Et. rewrite Et in Em. split_and!; try done. rewrite Em. apply negb_true_iff, String.eqb_neq, ingressID_some.
Qed.
(** What is checked of the rule itself. *)
Record well_formed (r : Rule) : Prop := {
  wf_network : Q_Network r ∈ ["tcp"; "udp"];
  wf_port : is_Some (port_of (Q_Listen r));
  wf_shared t : Q_SharedTLS r = Some t -> Q_Network r = "tcp" /\ ValidServerName (ServerName t) = true /\ (ParentID t = "" \/ IngressID t = "")
}.
Lemma ValidateAdvanced_Ok r t : ValidateAdvanced r = Ok tt -> Q_SharedTLS r = Some t -> Q_Network r = "tcp" /\ ValidServerName (ServerName t) = true /\ (ParentID t = "" \/ IngressID t = "").
Proof.
  unfold ValidateAdvanced. intros Hv Ht. rewrite Ht in Hv. destruct (ValidateOptions r); [|done]. destruct (_ || _) eqn:E; [done|]. apply orb_false_elim in E as [[[E1 _]%orb_false_elim E2]%orb_false_elim E3].
  apply negb_false_iff in E1, E3. apply String.eqb_eq in E1. split_and!; [done|done|]. apply andb_false_iff in E2 as [E2|E2]; apply negb_false_iff, String.eqb_eq in E2; auto.
Qed.
Lemma validateRule_Ok r p : validateRule r = Ok p -> port_of (Q_Listen r) = Some p /\ well_formed r.
Proof.
  unfold validateRule. destruct (_ || _) eqn:E; [done|]. apply orb_false_elim in E as [[_ Hnet%negb_false_iff]%orb_false_elim _]. apply bool_decide_eq_true in Hnet.
  destruct (SplitHostPort (Q_Listen r)) as [[h x]|]; [|done]. destruct (_ && _); [done|]. destruct (port_of (Q_Listen r)) as [q|] eqn:Ep; [|done].
  destruct (SplitHostPort (Q_Target r)) as [[h' x']|]; [|done]. destruct (String.eqb h' ""); [done|]. destruct (port_of (Q_Target r)); [|done]. destruct (validate_tunnel r); [|done]. destruct (ValidateAdvanced r) as [[]|] eqn:Ea; [|done].
  intros [= ->]. split; [done|]. split; [done|rewrite Ep; by eexists|]. intros t Ht. by eapply ValidateAdvanced_Ok.
Qed.
Lemma validateShared_Ok r env d t u d' t' : validateSharedTx r env d t = (Ok (u, d'), t') -> d' = d /\
  exists found count, shared_loop r (live_rules (Q_NodeID r) d) (String.eqb (sharedParent r) "") 0 = Ok (found, count) /\ (managedTLS r = true \/ found = true) /\ count < 64.
Proof. unfold validateSharedTx. intros Hr. tx_inv Hr. split; [done|]. match goal with x : (bool * Z)%type |- _ => destruct x as [found count] end. cbn in *. bool_to_prop. eauto 10. Qed.
Lemma update_of_Ok actor role r row r' : update_of actor role r row = Ok r' -> sr_deleted row = false /\ Q_ID r' = Q_ID r /\ Q_NodeID r' = Q_NodeID r /\ Q_Listen r' = Q_Listen r /\ Q_SharedTLS r' = Q_SharedTLS r /\
  Q_UserID r' = Q_UserID (sr_rule row) /\ Q_NodeID r' = Q_NodeID (sr_rule row) /\ Q_GroupID r' = Q_GroupID (sr_rule row) /\ Q_Network r' = Q_Network (sr_rule row) /\
  managedTLS r' = managedTLS (sr_rule row) /\ sharedParent r' = sharedParent (sr_rule row) /\ (managedTLS (sr_rule row) = false -> Q_Listen r' = Q_Listen (sr_rule row)).
Proof.
  unfold update_of. destruct (sr_deleted row) eqn:Hdel; [done|]. cbn [orb]. destruct (negb _ || _); [done|].
  destruct (_ || negb (String.eqb (Q_Network r) _)) eqn:E1; [done|]. destruct (negb (String.eqb (sharedParent r) _) || _ || _) eqn:E2; [done|]. intros [= <-].
  repeat (apply orb_false_elim in E1 as [E1 ?]). apply orb_false_elim in E2 as [[E2 E3]%orb_false_elim _].
  repeat match goal with Hx : negb (String.eqb _ _) = false |- _ => apply negb_false_iff, String.eqb_eq in Hx end. apply negb_false_iff in E3. apply Bool.eqb_prop in E3.
  split_and!; try done. intros Hm. match goal with Hx : negb (managedTLS _) && _ = false |- _ => rewrite Hm in Hx; cbn in Hx; apply negb_false_iff, String.eqb_eq in Hx end. done.
Qed.
Lemma allocate_Ok g node network random env d t listen d' t' : allocateListen g node network random env d t = (Ok (listen, d'), t') -> d' = d.
Proof. unfold allocateListen. intros Hr. tx_inv Hr. done. Qed.
Lemma checkRuleLimit_Ok user g env d t u d' t' : checkRuleLimit user g env d t = (Ok (u, d'), t') -> d' = d.
Proof. unfold checkRuleLimit. intros Hr. tx_inv Hr. done. Qed.
Lemma fund_Ok r env d t u d' t' : fund r env d t = (Ok (u, d'), t') -> d' = d.
Proof. unfold fund. destruct (_ && _); intros Hr; tx_inv Hr; done. Qed.

(** The tables after the rule is stored, before the new version is published. *)
Definition stored (r : Rule) (p : Z) (create : bool) (d d' : Tables) : Prop :=
  if create then d_rules d !! Q_ID r = None /\
    let d1 := set_rules (<[Q_ID r := {| sr_rule := r; sr_version := Q_Version r; sr_deleted := false; sr_release := 0 |}]>) d in
    (sharesPort r = true /\ d' = d1) \/
    (sharesPort r = false /\ d_ports d !! (Q_NodeID r, Q_Network r, p) = None /\ d' = set_ports (<[(Q_NodeID r, Q_Network r, p) := Q_ID r]>) d1)
  else exists old, d_rules d !! Q_ID r = Some old /\ sr_deleted old = false /\ kept (sr_rule old) r /\ (managedTLS (sr_rule old) = false -> Q_Listen r = Q_Listen (sr_rule old)) /\
    d' = set_rules (<[Q_ID r := {| sr_rule := r; sr_version := Q_Version r; sr_deleted := false; sr_release := sr_release old |}]>) d.
Definition publish_in (d : Tables) : Tables := set_nodes (fmap (fun n => {| n_desired := n_desired n + 1; n_applied := n_applied n; n_error := n_error n |})) d.

(** A rule as it is when the checks are over. *)
Record checked (r : Rule) (p : Z) (d : Tables) : Prop := {
  ck_node : is_Some (d_nodes d !! Q_NodeID r);
  ck_port : port_of (Q_Listen r) = Some p;
  ck_exit : exit_at (Q_NodeID r, Q_Network r, p) d = false;
  ck_ingress : managedTLS r = true \/ ingress_at (Q_NodeID r, Q_Network r, p) d = false;
  ck_form : well_formed r;
  ck_shared : exists found count, shared_loop r (live_rules (Q_NodeID r) d) (String.eqb (sharedParent r) "") 0 = Ok (found, count) /\ (managedTLS r = true \/ found = true) /\ count < 64
}.

(** What a rule has taken over of the one that is stored. *)
Definition succeeds (create : bool) (d : Tables) (r : Rule) : Prop :=
  create = true \/ exists old, d_rules d !! Q_ID r = Some old /\ sr_deleted old = false /\ kept (sr_rule old) r /\ (managedTLS (sr_rule old) = false -> Q_Listen r = Q_Listen (sr_rule old)).
Lemma succeeds_kept create d r r' : succeeds create d r -> kept r r' -> (managedTLS r = false -> Q_Listen r' = Q_Listen r) -> succeeds create d r'.
Proof.
  intros [->|(old & Hold & Hdel & Hk & Hl)] Hk' Hl'; [by left|right]. exists old. pose proof (proj1 Hk') as E1. rewrite E1. split_and!; [done|done|eapply kept_place_trans; [exact Hk|exact Hk']|].
  intros Hm. rewrite Hl', Hl; [done|done|]. by rewrite (proj1 (proj2 (proj2 (proj2 (proj2 (proj2 Hk)))))).
Qed.
Lemma store_saved_Ok r p create expected env d t u d' t' : store_saved r p create expected env d t = (Ok (u, d'), t') -> succeeds create d r -> stored r p create d d'.
Proof.
  unfold store_saved. intros Hr Hs. apply tx_bind_Ok in Hr as (row & d1 & t1 & (-> & -> & ->)%gets_Ok & Hr). destruct create; cbn [stored].
  - apply tx_bind_Ok in Hr as (? & ? & ? & (Hg & -> & ->)%guard_Ok & Hr). apply negb_true_iff, bool_decide_eq_false, eq_None_not_Some in Hg. split; [done|].
    apply tx_bind_Ok in Hr as (? & ? & ? & Hset & Hr). tx_inv Hset. destruct (sharesPort r) eqn:Es; [tx_inv Hr; by left|]. right. split; [done|]. tx_inv Hr.
    match goal with Hx : negb (rule_at _ _) = true |- _ => apply negb_true_iff, rule_at_false in Hx; done end.
  - destruct Hs as [|(old & Hold & Hdel & Hk & Hl)]; [done|]. rewrite Hold in Hr. tx_inv Hr. eauto 10.
Qed.

Lemma shared_loop_terms m b v l sl r siblings found count : shared_loop (set_terms m b v l sl r) siblings found count = shared_loop r siblings found count.
Proof.
  revert found count. induction siblings as [|x siblings IH]; intros found count; [done|]. cbn [shared_loop]. rewrite !IH. done.
Qed.
Lemma saveRuleTx_Ok actor role r create random env d t r' d' t' :
  (forall k row, d_rules d !! k = Some row -> Q_ID (sr_rule row) = k /\ (sr_deleted row = false -> is_Some (port_of (Q_Listen (sr_rule row))))) ->
  saveRuleTx actor role r create random env d t = (Ok (r', d'), t') -> exists p d1, checked r' p d /\ stored r' p create d d1 /\ d' = publish_in d1.
Proof.
  intros Hids Hrun. unfold saveRuleTx in Hrun. do 5 (apply tx_bind_Ok in Hrun as (? & ? & ? & Hm & Hrun); tx_inv Hm).
  apply tx_bind_Ok in Hrun as (nrow & ? & ? & (-> & -> & ->)%gets_Ok & Hrun). apply tx_bind_Ok in Hrun as (n & ? & ? & (Hnode & -> & ->)%or_fail_Ok & Hrun).
  apply tx_bind_Ok in Hrun as (row & d0 & t0 & (-> & -> & ->)%gets_Ok & Hrun). apply tx_bind_Ok in Hrun as (r1 & d0 & t0 & Hold & Hrun).
  assert (d0 = d /\ succeeds create d r1 /\ Q_NodeID r1 = Q_NodeID r) as (-> & Hs1 & Hn1).
  { destruct create; [tx_inv Hold; split_and!; [done|by left|done]|]. apply tx_bind_Ok in Hold as (old & ? & ? & (Ho1 & -> & ->)%or_fail_Ok & (Hu & -> & ->)%of_res_Ok).
    apply update_of_Ok in Hu as (Hdel & E1 & En & E2 & E3 & E4 & E5 & E6 & E7 & E8 & E9 & E10). split_and!; [done|right|done]. exists old. rewrite E1. destruct (Hids _ _ Ho1) as [Hid _].
    split_and!; [done|done| |done]. unfold kept. rewrite Hid. split_and!; done. }
  apply tx_bind_Ok in Hrun as (route & ? & ? & (-> & -> & ->)%gets_Ok & Hrun). apply tx_bind_Ok in Hrun as ([[[transport tunnel] exit] mult] & ? & ? & (_ & -> & ->)%of_res_Ok & Hrun).
  set (r2 := set_route transport tunnel exit r1) in Hrun. assert (Hs2 : succeeds create d r2) by (eapply succeeds_kept; [exact Hs1|done|done]).
  do 6 (apply tx_bind_Ok in Hrun as (? & ? & ? & Hm & Hrun); tx_inv Hm). apply tx_bind_Ok in Hrun as (r3 & ? & ? & (-> & Hk3 & Hsame3)%bindTLSIngress_Ok & Hrun).
  assert (Hs3 : succeeds create d r3) by (eapply succeeds_kept; [exact Hs2|exact Hk3|intros Hm; by rewrite (Hsame3 Hm)]).
  apply tx_bind_Ok in Hrun as (r4 & d4 & t4 & Hlisten & Hrun).
  assert (d4 = d /\ kept r3 r4 /\ succeeds create d r4) as (-> & Hk4 & Hs4).
  { destruct (String.eqb_spec (TrimSpace (Q_Listen r3)) "") as [Hb|_]; [|tx_inv Hlisten; done]. apply tx_bind_Ok in Hlisten as (listen & ? & ? & ->%allocate_Ok & (-> & -> & ->)%mret_Ok). split; [done|]. split; [done|].
    destruct Hs3 as [->|(old & Hold' & Hdel & Hk & Hl)]; [by left|right]. exists old. split_and!; [done|done|done|]. intros Hm. destruct (Hids _ _ Hold') as [_ Hp]. specialize (Hp Hdel).
    apply blank_no_port in Hb. rewrite (Hl Hm) in Hb. rewrite Hb in Hp. by destruct Hp. }
  apply tx_bind_Ok in Hrun as (p & ? & ? & ([Hp Hform]%validateRule_Ok & -> & ->)%of_res_Ok & Hrun). apply tx_bind_Ok in Hrun as (ex & ? & ? & (-> & -> & ->)%gets_Ok & Hrun).
  apply tx_bind_Ok in Hrun as (? & ? & ? & (Hex & -> & ->)%guard_Ok & Hrun). apply tx_bind_Ok in Hrun as (ing & ? & ? & (-> & -> & ->)%gets_Ok & Hrun).
  apply tx_bind_Ok in Hrun as (? & ? & ? & (Hing & -> & ->)%guard_Ok & Hrun). do 3 (apply tx_bind_Ok in Hrun as (? & ? & ? & Hm & Hrun); tx_inv Hm).
  apply tx_bind_Ok in Hrun as (? & d5 & t5 & Hlim & Hrun). assert (d5 = d) as -> by (destruct create; [by apply checkRuleLimit_Ok in Hlim|tx_inv Hlim; done]).
  do 3 (apply tx_bind_Ok in Hrun as (? & ? & ? & Hm & Hrun); tx_inv Hm). match type of Hrun with context [validateSharedTx ?x] => set (r5 := x) in Hrun end.
  apply tx_bind_Ok in Hrun as (? & ? & ? & [-> Hsh]%validateShared_Ok & Hrun). apply tx_bind_Ok in Hrun as (sup & ? & ? & (-> & -> & ->)%gets_Ok & Hrun).
  apply tx_bind_Ok in Hrun as (sup & d5 & t6 & Hsup & Hrun). assert (d5 = d) as -> by (destruct (Q_Enabled r5 || managedTLS r5); [by apply of_res_Ok in Hsup as (_ & -> & _)|by apply mret_Ok in Hsup as (_ & -> & _)]).
  apply tx_bind_Ok in Hrun as (? & ? & ? & (_ & -> & ->)%guard_Ok & Hrun). apply tx_bind_Ok in Hrun as (lease & ? & ? & ->%fund_Ok & Hrun).
  match type of Hrun with context [store_saved ?x] => set (r6 := x) in Hrun end.
  apply tx_bind_Ok in Hrun as (? & d1 & ? & Hstore & Hrun). apply store_saved_Ok in Hstore; [|eapply succeeds_kept; [exact Hs4|done|done]].
  apply tx_bind_Ok in Hrun as (? & d2 & ? & Hpub & (-> & -> & ->)%mret_Ok). unfold publish in Hpub. tx_inv Hpub. exists p, d1. split; [|done]. apply negb_true_iff in Hex.
  split; [|done|exact Hex|(apply orb_prop in Hing as [?|?%negb_true_iff]; [by left|by right])|by destruct Hform|unfold r6; rewrite shared_loop_terms; exact Hsh].
  destruct Hk4 as (_ & _ & E4 & _), Hk3 as (_ & _ & E3 & _). change (is_Some (d_nodes d !! Q_NodeID r4)). rewrite E4, E3. change (Q_NodeID r2) with (Q_NodeID r1). rewrite Hn1. by eexists.
Qed.

(** ** Every step keeps the invariant *)

Record pgood (sent : list listeners) (d : Tables) : Prop := { pg_inv : pinv0 d; pg_enabled : enabled_ok d; pg_sent : Forall (sent_ok d) sent }.

Lemma pinv_nodes d f : pinv0 d -> (forall k n, d_nodes d !! k = Some n -> is_Some (f (d_nodes d) !! k)) -> (forall k n, f (d_nodes d) !! k = Some n -> 0 <= n_applied n <= n_desired n) ->
  (forall k n, f (d_nodes d) !! k = Some n -> known_node k) -> pinv0 (set_nodes f d).
Proof.
  intros Hi Hk Hb Hkn. destruct Hi. split; try exact pi_one0; cbn; try done. intros k r Hr. destruct (pi_rules0 _ _ Hr) as (E & n & Hn). split; [done|]. by apply Hk in Hn.
Qed.
(** Only the versions of nodes change, and they advance. *)
Lemma good_nodes sent d f : pgood sent d -> advances d (set_nodes f d) -> (forall k n, f (d_nodes d) !! k = Some n -> 0 <= n_applied n <= n_desired n) ->
  (forall k n, f (d_nodes d) !! k = Some n -> known_node k) -> pgood sent (set_nodes f d).
Proof.
  intros [Hi He Hs] Hadv Hb Hkn. assert (Hi' : pinv0 (set_nodes f d)). { apply pinv_nodes; [done| |done|done]. intros k n Hn. destruct (Hadv _ _ Hn) as (n' & Hn' & _). by eexists. }
  split; [done|exact He|]. eapply Forall_impl; [exact Hs|]. intros c Hc. eapply sent_step; eauto.
Qed.
Lemma good_publish sent d : pgood sent d -> pgood sent (publish_in d).
Proof.
  intros Hg. apply good_nodes; [done| | |].
  - intros k n Hn. cbn. rewrite lookup_fmap, Hn. cbn. eexists. split; [done|]. cbn. lia.
  - intros k n. rewrite lookup_fmap. destruct (d_nodes d !! k) as [n0|] eqn:E; [|done]. cbn. intros [= <-]. cbn. pose proof (pi_nodes _ (pg_inv _ _ Hg) _ _ E). lia.
  - intros k n. rewrite lookup_fmap. destruct (d_nodes d !! k) as [n0|] eqn:E; [|done]. intros _. by eapply (pi_known _ (pg_inv _ _ Hg)).
Qed.

Lemma good_stored sent r p create d d' : pgood sent d -> checked r p d -> stored r p create d d' -> pgood sent d'.
Proof.
  intros [Hi He Hs] [[n Hnode] Hport Hex Hing _ _] Hst.
  assert (Hgood : pinv0 d' -> d_nodes d' = d_nodes d -> d_ingresses d' = d_ingresses d -> d_ingress_ports d' = d_ingress_ports d ->
    (forall x k, d_ports d !! x = Some k -> d_ports d' !! x = Some k) -> (forall k row', d_rules d' !! k = Some row' -> sr_deleted row' = true -> d_rules d !! k = Some row') -> pgood sent d').
  { intros Hi' En Ei Eip Hp Hr. split; [done| |].
    - intros i row. unfold placed. rewrite Ei, Eip. apply He.
    - eapply Forall_impl; [exact Hs|]. intros c Hc. eapply sent_step; [exact Hc|by apply advances_same|intros; left; auto| | |done|done].
      + intros k row' Hrow Hdel _. left. exists row'. eauto.
      + intros x i rel. rewrite Eip. eauto 10. }
  destruct create; cbn [stored] in Hst.
  - destruct Hst as [Hfresh [[Hsh ->]|(Hsh & Hfree & ->)]]; apply Hgood; try done.
    + destruct Hi. split; try exact pi_one0; cbn; try done.
      * intros k row [[<- <-]|[_ Hr]]%lookup_insert_Some; [|by apply pi_rules0]. cbn. eauto.
      * intros node network q k Hk. destruct (pi_owner0 _ _ _ _ Hk) as (row & Hrow & Hrest). exists row. split; [|done]. rewrite lookup_insert_ne; [done|]. intros <-. congruence.
      * intros k row [[<- <-]|[_ Hr]]%lookup_insert_Some; [|by apply pi_live0]. intros _. exists p. split; [done|]. cbn. congruence.
    + intros k row'. cbn. intros [[<- <-]|[_ Hr]]%lookup_insert_Some; [done|done].
    + assert (Hni : d_ingress_ports d !! (Q_NodeID r, Q_Network r, p) = None) by (destruct Hing as [Hm|Hni]; [by unfold sharesPort in Hsh; rewrite Hm in Hsh|by apply ingress_at_false]).
      rewrite exit_at_false in Hex. match goal with |- pinv0 ?y => assert (Hone : exclusive y) end.
      { eapply (exclusive_one_more d _ (Q_NodeID r, Q_Network r, p) (ByRule (Q_ID r))); [exact (pi_one _ Hi)| |].
        - intros [k|e|i]; cbn; [congruence|by intros []%Hex|intros [? ?]; congruence].
        - intros y [k|e|i]; cbn; [intros [[<- <-]|[_ ?]]%lookup_insert_Some; auto|auto|auto]. }
      destruct Hi. split; cbn; try done.
      * intros k row [[<- <-]|[_ Hr]]%lookup_insert_Some; [|by apply pi_rules0]. cbn. eauto.
      * intros node network q k [[[= <- <- <-] <-]|[_ Hk]]%lookup_insert_Some; [eexists; split; [apply lookup_insert_eq|]; done|].
        destruct (pi_owner0 _ _ _ _ Hk) as (row & Hrow & Hrest). exists row. split; [|done]. rewrite lookup_insert_ne; [done|]. intros <-. congruence.
      * intros k row [[<- <-]|[Hne Hr]]%lookup_insert_Some Hdel; [exists p; split; [done|]; intros _; apply lookup_insert_eq|]. destruct (pi_live0 _ _ Hr Hdel) as (q & Hq & Hown). exists q. split; [done|].
        intros Hns. specialize (Hown Hns). rewrite lookup_insert_ne; [done|]. intros E. rewrite E in Hfree. congruence.
    + intros x k Hk. cbn. rewrite lookup_insert_ne; [done|]. intros <-. congruence.
    + intros k row'. cbn. intros [[<- <-]|[_ Hr]]%lookup_insert_Some; [done|done].
  - destruct Hst as (old & Hold & Hdel & Hk & Hl & ->). apply Hgood; try done.
    + pose proof (kept_shares _ _ Hk) as Hsh. destruct Hk as (Eid & Eu & En & Eg & Enet & Em & Ep).
      assert (Hlisten : sharesPort r = false -> Q_Listen r = Q_Listen (sr_rule old)) by (intros Hns; apply Hl; rewrite Hsh in Hns; by apply orb_false_elim in Hns as [? _]).
      destruct Hi. split; try exact pi_one0; cbn; try done.
      * intros k row [[<- <-]|[_ Hr]]%lookup_insert_Some; [|by apply pi_rules0]. cbn. eauto.
      * intros node network q k Hk. destruct (pi_owner0 _ _ _ _ Hk) as (row & Hrow & E1 & E2 & E3 & E4). destruct (decide (k = Q_ID r)) as [->|Hne]; [|exists row; rewrite lookup_insert_ne by done; done].
        assert (row = old) as -> by congruence. rewrite E4 in Hsh. eexists. split; [apply lookup_insert_eq|]. cbn. rewrite En, Enet, (Hlisten Hsh). done.
      * intros k row [[<- <-]|[_ Hr]]%lookup_insert_Some; [|by apply pi_live0]. intros _. exists p. split; [done|]. cbn. intros Hns. rewrite En, Enet.
        destruct (pi_live0 _ _ Hold Hdel) as (q & Hq & Hown). rewrite <- (Hlisten Hns) in Hq. assert (q = p) as -> by congruence. apply Hown. congruence.
    + intros k row'. cbn. intros [[<- <-]|[_ Hr]]%lookup_insert_Some; [done|done].
Qed.

Lemma good_saveRuleTx sent actor role r create random env d t r' d' t' : pgood sent d -> saveRuleTx actor role r create random env d t = (Ok (r', d'), t') -> pgood sent d'.
Proof.
  intros Hg Hrun. apply saveRuleTx_Ok in Hrun as (p & d1 & Hc & Hst & ->); [by eapply good_publish, good_stored|].
  intros k row Hr. destruct (pi_rules _ (pg_inv _ _ Hg) _ _ Hr) as [E _]. split; [done|]. intros Hdel. destruct (pi_live _ (pg_inv _ _ Hg) _ _ Hr Hdel) as (q & Hq & _). by eexists.
Qed.

Lemma good_deleteRule sent actor role rule version env d t u d' t' : pgood sent d -> deleteRule actor role rule version env d t = (Ok (u, d'), t') -> pgood sent d'.
Proof.
  intros Hg Hrun. unfold deleteRule in Hrun. do 4 (apply tx_bind_Ok in Hrun as (? & ? & ? & Hm & Hrun); tx_inv Hm). rename x into row. bool_to_prop.
  apply tx_bind_Ok in Hrun as (? & ? & ? & [-> _]%validateShared_Ok & Hrun). unfold publish in Hrun. tx_inv Hrun. rename x4 into node.
  match goal with |- pgood _ (set_rules _ ?x) => change x with (publish_in d) end. pose proof (good_publish _ _ Hg) as [Hi1 He1 _]. destruct Hg as [Hi He Hs].
  match goal with Hx : d_rules d !! rule = Some row |- _ => rename Hx into Hrow end. match goal with Hx : _ = Some node |- _ => rename Hx into Hnode end. cbn in Hnode.
  assert (Hi' : pinv0 (set_rules (<[rule := {| sr_rule := sr_rule row; sr_version := sr_version row + 1; sr_deleted := true; sr_release := n_desired node |}]>) (publish_in d))).
  { destruct Hi1. split; try exact pi_one0; cbn; try done.
    - intros k r [[<- <-]|[_ Hr]]%lookup_insert_Some; [|by apply pi_rules0]. exact (pi_rules0 _ _ Hrow).
    - intros n network p k Hk. destruct (pi_owner0 _ _ _ _ Hk) as (r & Hr & Hrest). cbn in Hr. destruct (decide (k = rule)) as [->|Hne]; [|exists r; rewrite lookup_insert_ne by done; done].
      eexists. split; [apply lookup_insert_eq|]. cbn. assert (r = row) as -> by congruence. done.
    - intros k r [[<- <-]|[_ Hr]]%lookup_insert_Some; [done|]. by apply pi_live0. }
  split; [done|exact He1|]. eapply Forall_impl; [exact Hs|]. intros c Hc. eapply sent_step; [exact Hc| | | | |done|done].
  - intros k n Hn. cbn. rewrite lookup_fmap, Hn. cbn. eexists. split; [done|]. cbn. lia.
  - intros network p k Hp. by left.
  - intros k r'. cbn. intros [[<- <-]|[_ Hr]]%lookup_insert_Some Hdel _; [right|left; eauto]. cbn. intros n Hn Ec. rewrite Ec, lookup_fmap, Hn in Hnode. injection Hnode as <-. cbn. lia.
  - intros p i rel Hp. left. eauto.
Qed.

(** ** Exits *)

Lemma good_exit_ports sent d f : pgood sent d -> exclusive (set_exit_ports f d) -> pgood sent (set_exit_ports f d).
Proof.
  intros [Hi He Hs] Hf. assert (Hi' : pinv0 (set_exit_ports f d)) by (destruct Hi; split; try exact pi_one0; done).
  split; [done|exact He|]. eapply Forall_impl; [exact Hs|]. intros c Hc. eapply sent_step; [exact Hc|by apply advances_same|by left| | |done|done]; cbn; eauto.
Qed.
Lemma good_exit_filter sent d (P : port * string -> Prop) `{!forall x, Decision (P x)} : pgood sent d -> pgood sent (set_exit_ports (filter P) d).
Proof.
  intros Hg. apply good_exit_ports; [done|]. eapply exclusive_fewer; [exact (pi_one _ (pg_inv _ _ Hg))|]. intros x [k|e|i]; cbn; [done|by intros [_ ?]%elem_of_filter|done].
Qed.
Lemma good_reserve_one sent e np env d t u d' t' : pgood sent d -> reserve_one e np env d t = (Ok (u, d'), t') -> pgood sent d'.
Proof.
  intros Hg Hrun. unfold reserve_one in Hrun. tx_inv Hrun. match goal with Hx : unreserved _ _ = true |- _ => apply unreserved_spec in Hx as (Hp & Hnox & Hin) end.
  clear x. apply good_exit_ports; [done|]. eapply (exclusive_one_more d _ (X_NodeID e, np.1, np.2) (ByExit (X_ID e))); [exact (pi_one _ (pg_inv _ _ Hg))| |].
  - intros [k|e'|i]; cbn; [congruence|by intros []%Hnox|intros [? ?]; congruence].
  - intros y [k|e'|i]; cbn; [auto| |auto]. intros [[= -> ->]%elem_of_singleton|?]%elem_of_union; auto.
Qed.
(** Tables the invariant does not speak of. *)
Lemma good_exits sent d f : pgood sent d -> pgood sent (set_exits f d).
Proof.
  intros [Hi He Hs]. assert (Hi' : pinv0 (set_exits f d)) by (destruct Hi; split; try exact pi_one0; done). split; [done|exact He|]. eapply Forall_impl; [exact Hs|].
  intros c Hc. eapply sent_step; [exact Hc|by apply advances_same|by left| | |done|done]; cbn; eauto.
Qed.
Lemma good_node_groups sent d f : pgood sent d -> pgood sent (set_node_groups f d).
Proof.
  intros [Hi He Hs]. assert (Hi' : pinv0 (set_node_groups f d)) by (destruct Hi; split; try exact pi_one0; done). split; [done|exact He|]. eapply Forall_impl; [exact Hs|].
  intros c Hc. eapply sent_step; [exact Hc|by apply advances_same|by left| | |done|done]; cbn; eauto.
Qed.
Lemma good_for_each {A} sent (f : A -> Tx Tables unit) : (forall a env d t u d' t', pgood sent d -> f a env d t = (Ok (u, d'), t') -> pgood sent d') ->
  forall l env d t u d' t', pgood sent d -> for_each l f env d t = (Ok (u, d'), t') -> pgood sent d'.
Proof.
  intros Hf l. induction l as [|a l IH]; intros env d t u d' t' Hg Hrun; cbn [for_each] in Hrun; [by tx_inv Hrun|].
  apply tx_bind_Ok in Hrun as (? & d1 & t1 & Hone & Hrun). eapply IH; [|exact Hrun]. by eapply Hf.
Qed.
Lemma good_saveExit sent path e env d t u d' t' : pgood sent d -> saveExit path e env d t = (Ok (u, d'), t') -> pgood sent d'.
Proof.
  intros Hg Hrun. unfold saveExit in Hrun. do 3 (apply tx_bind_Ok in Hrun as (? & ? & ? & Hm & Hrun); tx_inv Hm). apply tx_bind_Ok in Hrun as (? & d1 & t1 & Hres & Hrun).
  unfold publish in Hrun. tx_inv Hrun. apply good_publish, good_exits. unfold reserveExitPorts in Hres. do 4 (apply tx_bind_Ok in Hres as (? & ? & ? & Hm & Hres); tx_inv Hm).
  refine (good_for_each sent _ _ _ _ _ _ _ _ _ _ Hres); [|apply good_exit_filter; exact Hg]. intros ? ? ? ? ? ? ?. by apply good_reserve_one.
Qed.

(** ** Ingresses *)

Section Sync.
Context (sent : list listeners) (node : string) (row : node_row) (wanted : list (string * SharedTLSIngressSettings)).
Hypothesis wanted_sound : forall gv, gv ∈ wanted -> port_of (ingress_listen gv.2) = Some (S_Port gv.2) /\ known_group gv.1.

(** While the ingresses of the node move: those that are enabled are placed,
    or in [todo]. *)
Record syncing (todo : string -> Prop) (d : Tables) : Prop := {
  sy_inv : pinv0 d;
  sy_sent : Forall (sent_ok d) sent;
  sy_node : d_nodes d !! node = Some row;
  sy_enabled i r : d_ingresses d !! i = Some r -> in_enabled r = true -> placed d i r \/ (in_node r = node /\ todo i)
}.
Definition in_wanted (i : string) : Prop := exists gv, gv ∈ wanted /\ ingressID gv.1 node = i.

(** Ports of the ingress that is released. *)
Definition to_release (ingress : string) (ir : string * Z) : string * Z := if String.eqb ir.1 ingress && (ir.2 =? 0) then (ir.1, n_desired row + 1) else ir.
Lemma to_release_fst ingress ir : (to_release ingress ir).1 = ir.1.
Proof. unfold to_release. by destruct (_ && _). Qed.
Lemma syncing_release todo d ingress g : syncing todo d -> ingress = ingressID g node -> known_group g -> todo ingress -> (forall r, d_ingresses d !! ingress = Some r -> in_node r = node) ->
  syncing todo (set_ingress_ports (fmap (to_release ingress)) d).
Proof.
  intros [Hi Hs Hn He] Hg Hkg Htodo Hown. assert (Hb := pi_nodes _ Hi _ _ Hn).
  assert (Hi' : pinv0 (set_ingress_ports (fmap (to_release ingress)) d)).
  { match goal with |- pinv0 ?y => assert (Hone : exclusive y) end.
    { eapply exclusive_fewer; [exact (pi_one _ Hi)|]. intros x [k|e|i]; cbn; [done|done|]. intros [rel Hx]. rewrite lookup_fmap in Hx. apply fmap_Some in Hx as ([i0 rel0] & Hx & Eq).
      apply (f_equal fst) in Eq. rewrite to_release_fst in Eq. cbn in Eq. subst i0. eauto. }
    destruct Hi. split; cbn; try done.
    - intros x i rel. rewrite lookup_fmap. destruct (d_ingress_ports d !! x) as [[i0 rel0]|] eqn:E; [|done]. cbn. intros [= Hx]. destruct (pi_port_ingress0 _ _ _ E) as [He0 Hr0]. unfold to_release in Hx.
      destruct (_ && _); injection Hx as <- <-; (split; [done|lia]). }
  split; [done| |done|].
  - eapply Forall_impl; [exact Hs|]. intros c Hc. eapply sent_step; [exact Hc|by apply advances_same|by left|cbn; eauto| |done|done].
    intros p i rel Hp. left. cbn. rewrite lookup_fmap, Hp. unfold to_release. cbn [fmap option_fmap option_map fst snd]. destruct (String.eqb_spec i ingress) as [->|]; cbn [andb]; [|eauto]. destruct (rel =? 0); cbn [andb]; [|eauto].
    eexists. split; [done|]. right. right. intros n Hnode. destruct (pi_port_ingress _ Hi _ _ _ Hp) as [(g' & Hg' & Hk1 & Hk2) _]. cbn in Hg', Hk2. rewrite Hg in Hg'. apply ids_differ in Hg' as Hcn; [|done|by eapply (pi_known _ Hi)|done|done]. rewrite <- Hcn in Hnode. assert (n = row) as -> by congruence. lia.
  - intros i r Hr Hen. destruct (decide (i = ingress)) as [->|Hne]; [right; split; [by apply Hown|done]|]. destruct (He _ _ Hr Hen) as [(p & Hp & Hip)|?]; [left|by right]. exists p. split; [done|]. cbn. rewrite lookup_fmap, Hip. cbn. unfold to_release. cbn.
    destruct (String.eqb_spec i ingress); [done|]. done.
Qed.
Lemma syncing_disable todo d ingress : syncing todo d ->
  syncing (fun i => todo i /\ i <> ingress) (set_ingresses (alter (fun i => {| in_group := in_group i; in_node := in_node i; in_listen := in_listen i; in_enabled := false |}) ingress) d).
Proof.
  intros [Hi Hs Hn He]. set (d' := set_ingresses _ d). assert (Hi' : pinv0 d').
  { destruct Hi. split; try exact pi_one0; cbn; try done. intros i r Hr. unfold d' in Hr. cbn in Hr. apply lookup_alter_Some in Hr as [(-> & r0 & Hr & ->)|[_ Hr]]; [exact (pi_ingress0 _ _ Hr)|by apply pi_ingress0]. }
  split; [done| |done|].
  - eapply Forall_impl; [exact Hs|]. intros c Hc. eapply sent_step; [exact Hc|by apply advances_same|by left| | |done|done]; cbn; eauto.
  - intros i r Hr Hen. unfold d' in Hr. cbn in Hr. apply lookup_alter_Some in Hr as [(-> & r0 & Hr & ->)|[Hne Hr]]; [done|]. destruct (He _ _ Hr Hen) as [Hp|[? ?]]; [by left|right]. done.
Qed.
Lemma syncing_weaken (todo todo' : string -> Prop) d : syncing todo d -> (forall i, todo i -> todo' i) -> syncing todo' d.
Proof. intros [Hi Hs Hn He] Ht. split; [done..|]. intros i r Hr Hen. destruct (He _ _ Hr Hen) as [?|[? ?]]; eauto. Qed.

Lemma syncing_release_ingress saved d g : syncing in_wanted d -> saved.1 = ingressID g node -> known_group g -> syncing in_wanted (release_ingress node (n_desired row) wanted saved d).
Proof.
  intros Hsy Hid Hkg. assert (Hown : forall r, d_ingresses d !! saved.1 = Some r -> in_node r = node).
  { intros r Hr. apply (pi_ingress _ (sy_inv _ _ Hsy)) in Hr as (Hr & Hk1 & Hk2). rewrite Hid in Hr. symmetry. apply ids_differ in Hr; try done. by eapply (pi_known _ (sy_inv _ _ Hsy)), sy_node. }
  unfold release_ingress. change (fun ir : string * Z => if String.eqb ir.1 saved.1 && (ir.2 =? 0) then (ir.1, n_desired row + 1) else ir) with (to_release saved.1).
  destruct (list_find _ wanted) as [[j gv]|] eqn:E.
  - apply list_find_Some in E as (Hin%list_elem_of_lookup_2 & Hgv & _). destruct (in_enabled saved.2 && _); [|done]. eapply syncing_release; [done|exact Hid|done|by exists gv|done].
  - assert (Hw : syncing (fun i => in_wanted i \/ i = saved.1) d) by (eapply syncing_weaken; [exact Hsy|tauto]).
    eapply syncing_weaken; [apply syncing_disable with (ingress := saved.1) (todo := fun i => in_wanted i \/ i = saved.1)|cbn; tauto].
    destruct (in_enabled saved.2 && _); [|done]. eapply syncing_release; [done|exact Hid|done|by right|done].
Qed.
Lemma syncing_release_all l d : syncing in_wanted d -> (forall saved, saved ∈ l -> exists g, saved.1 = ingressID g node /\ known_group g) ->
  syncing in_wanted (foldl (fun d saved => release_ingress node (n_desired row) wanted saved d) d l).
Proof.
  revert d. induction l as [|saved l IH]; intros d Hsy Hl; [done|]. cbn. apply IH; [|intros x Hx; apply Hl; by right]. destruct (Hl saved) as (g & Hg & Hkg); [left|]. by eapply syncing_release_ingress.
Qed.
Lemma syncing_acquire todo gv env d t u d' t' : syncing todo d -> port_of (ingress_listen gv.2) = Some (S_Port gv.2) /\ known_group gv.1 -> acquire_ingress node gv env d t = (Ok (u, d'), t') ->
  syncing (fun i => todo i /\ i <> ingressID gv.1 node) d'.
Proof.
  intros [Hi Hs Hn He] [Hgv Hkg] Hrun. unfold acquire_ingress in Hrun. tx_inv Hrun. apply negb_true_iff, orb_false_elim in Hg as [[Hr Hx]%orb_false_elim Ho]. rewrite rule_at_false in Hr. rewrite exit_at_false in Hx.
  set (ingress := ingressID gv.1 node) in *. clear x. set (x := (node, "tcp", S_Port gv.2)) in *.
  assert (Hwas : forall i rel, d_ingress_ports d !! x = Some (i, rel) -> i = ingress).
  { intros i rel E. unfold other_ingress_at in Ho. rewrite E in Ho. by apply negb_false_iff, String.eqb_eq in Ho. }
  match goal with |- syncing _ ?y => set (d' := y) end. assert (Hi' : pinv0 d').
  { assert (Hkn : known_node node) by (by eapply (pi_known _ Hi)). assert (Hone : exclusive d').
    { eapply (exclusive_one_more d d' x (ByIngress ingress)); [exact (pi_one _ Hi)| |].
      - intros [k|e|i]; cbn; [congruence|by intros []%Hx|intros [rel Hrel]; by rewrite (Hwas _ _ Hrel)].
      - intros y [k|e|i]; cbn; [auto|auto|]. intros [rel [[<- [= <- <-]]|[_ Hir]]%lookup_insert_Some]; [by right|left; eauto]. }
    destruct Hi. split; try exact pi_one0; cbn; try done.
    - intros i r [[<- <-]|[_ Hir]]%lookup_insert_Some; [done|by apply pi_ingress0].
    - intros y i rel [[<- [= <- <-]]|[_ Hir]]%lookup_insert_Some; [|by eapply pi_port_ingress0]. split; [by exists gv.1|lia]. }
  split; [done| |done|].
  - eapply Forall_impl; [exact Hs|]. intros c Hc. eapply sent_step; [exact Hc|by apply advances_same|by left|cbn; eauto| |done|done].
    intros p i rel Hp. left. cbn. destruct (decide (x = (c_node c, "tcp", p))) as [Ex|Hne]; [|rewrite lookup_insert_ne by done; eauto]. rewrite <- Ex in Hp |- *. rewrite (Hwas _ _ Hp), lookup_insert_eq. eauto.
  - intros i r. cbn. intros [[<- <-]|[Hne Hir]]%lookup_insert_Some Hen; [left; exists (S_Port gv.2); split; [done|]; cbn; apply lookup_insert_eq|].
    destruct (He _ _ Hir Hen) as [(p & Hp & Hip)|[? ?]]; [left|right; by split_and!]. exists p. split; [done|]. cbn. rewrite lookup_insert_ne; [done|]. intros Ex. rewrite <- Ex in Hip. by apply Hwas in Hip.
Qed.
Lemma syncing_acquire_all l env d t u d' t' todo : syncing todo d -> (forall gv, gv ∈ l -> gv ∈ wanted) -> (forall i, todo i -> exists gv, gv ∈ l /\ ingressID gv.1 node = i) ->
  for_each l (acquire_ingress node) env d t = (Ok (u, d'), t') -> syncing (fun _ => False) d'.
Proof.
  revert d t todo. induction l as [|gv l IH]; intros d t todo Hsy Hl Htodo Hrun; cbn [for_each] in Hrun.
  - tx_inv Hrun. eapply syncing_weaken; [exact Hsy|]. intros i (gv & Hin & _)%Htodo. set_solver.
  - apply tx_bind_Ok in Hrun as (? & d1 & t1 & Hone & Hrun). eapply IH; [eapply syncing_acquire; [exact Hsy| |exact Hone]| | |exact Hrun].
    + apply wanted_sound, Hl. left.
    + intros gv1 Hin. apply Hl. by right.
    + intros i [(gv' & [->|Hin]%elem_of_cons & <-)%Htodo Hne]; [done|eauto].
Qed.
End Sync.

Lemma wanted_groups_sound node d : pinv0 d -> forall gv, gv ∈ wanted_groups node d -> port_of (ingress_listen gv.2) = Some (S_Port gv.2) /\ known_group gv.1.
Proof.
  intros Hi [gid v] (x & _ & Hx)%list_elem_of_omap. destruct (d_groups d !! x) as [g|] eqn:Eg; [|done]. cbn in Hx. destruct (ingressSettings g) as [v'|] eqn:Ev; [|done]. cbn in Hx. destruct (S_Enabled v'); [|done].
  injection Hx as <- <-. destruct (pi_groups _ Hi _ _ Eg) as (_ & Hk & Hg). split; [by apply Hg|done].
Qed.
Lemma good_sync_node sent node env d t u d' t' : pgood sent d -> sync_node node env d t = (Ok (u, d'), t') -> pgood sent d'.
Proof.
  intros [Hi He Hs] Hrun. unfold sync_node in Hrun. do 5 (apply tx_bind_Ok in Hrun as (? & ? & ? & Hm & Hrun); tx_inv Hm). rename x into row.
  assert (Hsy : syncing sent node row (in_wanted node (wanted_groups node d)) d) by (split; [done|done|done|intros; left; by apply He]).
  eapply syncing_release_all in Hsy.
  - eapply syncing_acquire_all in Hsy; [|by apply wanted_groups_sound|done| |exact Hrun]; [|intros i (gv & Hin & Hgv); eauto]. destruct Hsy as [Hi1 Hs1 _ He1]. split; [done| |done]. intros i r Hr Hen. by destruct (He1 _ _ Hr Hen) as [?|[_ []]].
  - intros saved [Hnode Hin%elem_of_map_to_list']%list_elem_of_filter. apply (pi_ingress _ Hi) in Hin as (Hin & Hkg & _). rewrite Hnode in Hin. eauto.
Qed.
Lemma good_sync sent env d t u d' t' : pgood sent d -> syncTLSIngresses env d t = (Ok (u, d'), t') -> pgood sent d'.
Proof.
  intros Hg Hrun. unfold syncTLSIngresses in Hrun. apply tx_bind_Ok in Hrun as (nodes & ? & ? & (-> & -> & ->)%gets_Ok & Hrun). refine (good_for_each sent sync_node _ _ _ _ _ _ _ _ Hg Hrun). intros ? ? ? ? ? ? ?. by apply good_sync_node.
Qed.

(** ** Groups *)

Lemma good_groups sent d f : pgood sent d -> (forall k g, f (d_groups d) !! k = Some g -> G_ID g = k /\ known_group k /\ sound_settings g) -> pgood sent (set_groups f d).
Proof.
  intros [Hi He Hs] Hf. assert (Hi' : pinv0 (set_groups f d)) by (destruct Hi; split; try exact pi_one0; done). split; [done|exact He|]. eapply Forall_impl; [exact Hs|].
  intros c Hc. eapply sent_step; [exact Hc|by apply advances_same|by left| | |done|done]; cbn; eauto.
Qed.
Lemma validated_sound a a' gid version g : validateIngressSettings a = Ok a' -> sound_settings (with_settings gid version a' g).
Proof.
  intros Hv v Hs. unfold ingressSettings in Hs. cbn in Hs. destruct (_ && _); [|done]. destruct a' as [a2|]; [|done]. cbn in Hs. unfold validateIngressSettings in Hv.
  destruct a as [[[v0|] ? ? ? ?]|]; cbn in Hv; [|injection Hv as <-; by cbn in Hs|done].
  destruct (ParseIP _) as [text|] eqn:Ep; [|done]. destruct (_ || _) eqn:Eb; [done|]. injection Hv as <-. cbn in Hs. injection Hs as <-. unfold ingress_listen. cbn [S_ListenIP S_Port].
  apply ParseIP_text in Ep as [Ho Hc]. apply orb_false_elim in Eb as [Eb1 Eb2]. apply port_of_Join; [done|done|lia].
Qed.
Lemma good_saveGroup sent path g env d u d' t' : (path = "" -> known_group (env_rand env 0)) -> pgood sent d -> saveGroup path g env d 0%nat = (Ok (u, d'), t') -> pgood sent d'.
Proof.
  intros Hkg Hg Hrun. unfold saveGroup in Hrun. apply tx_bind_Ok in Hrun as (advanced & ? & ? & (Hv & -> & ->)%of_res_Ok & Hrun).
  apply tx_bind_Ok in Hrun as (? & ? & ? & (_ & -> & ->)%guard_Ok & Hrun). apply tx_bind_Ok in Hrun as (fresh & ? & ? & Hid & Hrun). injection Hid as <- <- <-.
  do 5 (apply tx_bind_Ok in Hrun as (? & ? & ? & Hm & Hrun); tx_inv Hm).
  apply tx_bind_Ok in Hrun as (? & d1 & ? & Hsync & Hrun). unfold publish in Hrun. tx_inv Hrun. apply good_publish. eapply good_sync; [|exact Hsync]. apply good_groups; [done|].
  intros k g1 [[<- <-]|[_ Hk]]%lookup_insert_Some; [|by apply (pi_groups _ (pg_inv _ _ Hg))]. split; [done|]. split; [|by eapply validated_sound].
  cbn [G_ID with_settings] in *. destruct (String.eqb_spec path "") as [Hp|Hp]; [by apply Hkg|]. destruct (d_groups d !! path) as [old|] eqn:Eo; [|done].
  by apply (pi_groups _ (pg_inv _ _ Hg)) in Eo as (_ & ? & _).
Qed.
Lemma good_registerNode sent groups env d u d' t' : known_node (env_rand env 0) -> pgood sent d -> registerNode groups env d 0%nat = (Ok (u, d'), t') -> pgood sent d'.
Proof.
  intros Hkn Hg Hrun. unfold registerNode in Hrun. apply tx_bind_Ok in Hrun as (fresh & ? & ? & Hid & Hrun). injection Hid as <- <- <-. do 6 (apply tx_bind_Ok in Hrun as (? & ? & ? & Hm & Hrun); tx_inv Hm). apply tx_bind_Ok in Hrun as (? & d1 & ? & Hsync & (-> & -> & ->)%mret_Ok).
  eapply good_sync; [|exact Hsync]. apply good_node_groups, good_nodes; [done| | |].
  - intros k n Hn. exists n. split; [|lia]. cbn. rewrite lookup_insert_ne; [done|]. intros <-. match goal with Hx : negb (bool_decide _) = true |- _ => apply negb_true_iff, bool_decide_eq_false in Hx; apply Hx; by eexists end.
  - intros k n [[<- <-]|[_ Hk]]%lookup_insert_Some; [cbn; lia|]. by apply (pi_nodes _ (pg_inv _ _ Hg)) in Hk.
  - intros k n [[<- <-]|[_ Hk]]%lookup_insert_Some; [done|]. by apply (pi_known _ (pg_inv _ _ Hg)) in Hk.
Qed.

Lemma good_rules_filter sent d (P : string * saved_rule -> Prop) `{!forall x, Decision (P x)} : pgood sent d ->
  (forall k r, d_rules d !! k = Some r -> ~ P (k, r) -> sr_deleted r = true /\ forall x, d_ports d !! x <> Some k) -> pgood sent (set_rules (filter P) d).
Proof.
  intros [Hi He Hs] HP. assert (Hi' : pinv0 (set_rules (filter P) d)).
  { destruct Hi. split; try exact pi_one0; cbn; try done.
    - intros k r [Hr _]%map_lookup_filter_Some. by apply pi_rules0.
    - intros node network p k Hk. destruct (pi_owner0 _ _ _ _ Hk) as (r & Hr & Hrest). exists r. split; [|done]. apply map_lookup_filter_Some. split; [done|].
      destruct (decide (P (k, r))) as [|Hn]; [done|]. destruct (HP _ _ Hr Hn) as [_ Hno]. by destruct (Hno _ Hk).
    - intros k r [Hr _]%map_lookup_filter_Some. by apply pi_live0. }
  split; [done|exact He|]. eapply Forall_impl; [exact Hs|]. intros c Hc. eapply sent_step; [exact Hc|by apply advances_same|by left| |cbn; eauto|done|done].
  intros k r [Hr _]%map_lookup_filter_Some Hdel _. left. eauto.
Qed.
Lemma good_ingresses_filter sent d (P : string * ingress_row -> Prop) `{!forall x, Decision (P x)} : pgood sent d -> pgood sent (set_ingresses (filter P) d).
Proof.
  intros [Hi He Hs]. assert (Hi' : pinv0 (set_ingresses (filter P) d)). { destruct Hi. split; try exact pi_one0; cbn; try done. intros i r [Hr _]%map_lookup_filter_Some. by apply pi_ingress0. }
  split; [done| |].
  - intros i r [Hr _]%map_lookup_filter_Some. by apply He.
  - eapply Forall_impl; [exact Hs|]. intros c Hc. eapply sent_step; [exact Hc|by apply advances_same|by left| | |done|done]; cbn; eauto.
Qed.
Lemma existsb_map_false {K A} `{Countable K} (f : K * A -> bool) (m : gmap K A) k a : existsb f (map_to_list m) = false -> m !! k = Some a -> f (k, a) = false.
Proof.
  intros Hf Hk. apply not_true_iff_false. intros Ht. apply not_true_iff_false in Hf. apply Hf, existsb_exists. exists (k, a). split; [|done]. by apply list_elem_of_In, elem_of_map_to_list.
Qed.
Lemma good_deleteGroup sent target version env d t u d' t' : pgood sent d -> deleteGroup target version env d t = (Ok (u, d'), t') -> pgood sent d'.
Proof.
  intros Hg Hrun. unfold deleteGroup, publish in Hrun. tx_inv Hrun.
  match goal with Hx : negb (existsb (fun pr => rule_port_of _ _ _) _) = true |- _ => apply negb_true_iff in Hx; rename Hx into Hheld end.
  match goal with |- pgood _ (set_nodes _ (drop_group _ ?y)) => set (d1 := y) end. apply good_publish. assert (Hgd : pgood sent d1).
  { apply good_nodes; [done| | |].
    - intros k n Hn. cbn. rewrite map_lookup_imap, Hn. cbn. destruct (bool_decide _); (eexists; split; [done|cbn; lia]).
    - intros k n. rewrite map_lookup_imap. destruct (d_nodes d !! k) as [n0|] eqn:En; [|done]. cbn. pose proof (pi_nodes _ (pg_inv _ _ Hg) _ _ En). destruct (bool_decide _); intros [= <-]; cbn; lia.
    - intros k n. rewrite map_lookup_imap. destruct (d_nodes d !! k) as [n0|] eqn:En; [|done]. intros _. by eapply (pi_known _ (pg_inv _ _ Hg)). }
  unfold drop_group. apply good_groups; [|intros k g [_ Hk]%lookup_delete_Some; by apply (pi_groups _ (pg_inv _ _ Hg))].
  apply good_node_groups, good_exits, good_exit_filter, good_rules_filter; [by apply good_ingresses_filter|]. intros k r Hr Hn. cbn [fst snd] in Hn. apply dec_stable in Hn as [Hgr Hdel]. split; [done|]. intros y Hy.
  apply (existsb_map_false _ _ _ _ Hheld) in Hy. unfold rule_port_of in Hy. cbn in Hy. cbn in Hr. rewrite Hr in Hy. apply String.eqb_neq in Hy. done.
Qed.

(** ** Nodes *)

(** What the node has acknowledged to be without is released. *)
Lemma good_release sent d node n v (gone : string -> bool) : pgood sent d -> d_nodes d !! node = Some n -> v <= n_applied n ->
  (forall k, gone k = true -> exists r, d_rules d !! k = Some r /\ sr_deleted r = true /\ sr_release r <= v) ->
  pgood sent (set_ingress_ports (filter (fun pi : port * (string * Z) => ~ (pi.1.1.1 = node /\ 0 < pi.2.2 <= v))) (set_ports (filter (fun pr : port * string => ~ (pr.1.1.1 = node /\ gone pr.2 = true))) d)).
Proof.
  intros [Hi He Hs] Hn Hv Hgone. match goal with |- pgood _ ?y => set (d' := y) end.
  assert (Hp : forall x k, d_ports d' !! x = Some k -> d_ports d !! x = Some k) by (intros x k [Hk _]%map_lookup_filter_Some; done).
  assert (Hip : forall x i, d_ingress_ports d' !! x = Some i -> d_ingress_ports d !! x = Some i) by (intros x k [Hk _]%map_lookup_filter_Some; done).
  assert (Hi' : pinv0 d').
  { assert (Hone : exclusive d').
    { eapply exclusive_fewer; [exact (pi_one _ Hi)|]. intros x [k|e|i]; cbn; [apply Hp|done|]. intros [rel Hx%Hip]. eauto. }
    destruct Hi. split; try exact pi_one0; try done.
    - intros ? ? ? ? Hk%Hp. by apply pi_owner0.
    - intros k r Hr Hdel. destruct (pi_live0 _ _ Hr Hdel) as (p & Hport & Hown). exists p. split; [done|]. intros Hns. apply map_lookup_filter_Some. split; [by apply Hown|]. cbn. intros [_ Hgk].
      destruct (Hgone _ Hgk) as (r' & Hr' & Hdel' & _). cbn in Hr. congruence.
    - intros x i rel Hx%Hip. by eapply pi_port_ingress0. }
  split; [done| |].
  - intros i r Hr Hen. destruct (He _ _ Hr Hen) as (p & Hport & Hown). exists p. split; [done|]. apply map_lookup_filter_Some. split; [done|]. cbn. lia.
  - eapply Forall_impl; [exact Hs|]. intros c Hc. eapply sent_step; [exact Hc|by apply advances_same| |cbn; eauto| |done|done].
    + intros network p k Hk. destruct (decide (c_node c = node /\ gone k = true)) as [[E Hgk]|Hn']; [right|left; by apply map_lookup_filter_Some].
      destruct (Hgone _ Hgk) as (r & Hr & Hdel & Hrel). exists r, n. rewrite E. split_and!; [done|done|done|lia].
    + intros p i rel Hk. destruct (decide (c_node c = node /\ 0 < rel <= v)) as [[E Hrel]|Hn']; [right|left; exists rel; split; [by apply map_lookup_filter_Some|by left]].
      split; [lia|]. exists n. rewrite E. split; [done|lia].
Qed.
Lemma good_ack sent node k env d t u d' t' : pgood sent d -> ack node k env d t = (Ok (u, d'), t') -> pgood sent d'.
Proof.
  intros Hg Hrun. unfold ack in Hrun. apply tx_bind_Ok in Hrun as (? & ? & ? & (Hk & -> & ->)%guard_Ok & Hrun). do 4 (apply tx_bind_Ok in Hrun as (? & ? & ? & Hm & Hrun); tx_inv Hm).
  match goal with Hx : d_nodes d !! node = Some ?y |- _ => rename Hx into Hn; rename y into n end. match goal with Hx : _ && _ = true |- _ => apply andb_prop in Hx as [Hd%Z.eqb_eq Ha%Z.leb_le] end.
  match type of Hrun with context [set_nodes ?f d] => set (d1 := set_nodes f d) in Hrun end. apply negb_true_iff in Hk. repeat (apply orb_false_elim in Hk as [Hk ?]).
  assert (Hgd : pgood sent d1).
  { apply good_nodes; [done| | |].
    - intros k0 n0 Hn0. cbn. destruct (decide (k0 = node)) as [->|Hne]; [|rewrite lookup_insert_ne by done; eauto with lia]. rewrite lookup_insert_eq. eexists. split; [done|]. assert (n0 = n) as -> by congruence. cbn. lia.
    - intros k0 n0 [[<- <-]|[_ Hk0]]%lookup_insert_Some; [cbn; lia|]. by apply (pi_nodes _ (pg_inv _ _ Hg)) in Hk0.
    - intros k0 n0 [[<- <-]|[_ Hk0]]%lookup_insert_Some; by eapply (pi_known _ (pg_inv _ _ Hg)). }
  assert (Hpub : forall (b : bool) d1 t1 u1 d2 t2, (if b then publish else mret tt) env d1 t1 = (Ok (u1, d2), t2) -> pgood sent d1 /\ (exists n1, d_nodes d1 !! node = Some n1 /\ n_applied n1 = K_AppliedVersion k) ->
    pgood sent d2 /\ (exists n1, d_nodes d2 !! node = Some n1 /\ n_applied n1 = K_AppliedVersion k)).
  { intros b d2 t1 u1 d3 t2 Hb [Hg2 (n1 & Hn1 & Ha1)]. destruct b; [|tx_inv Hb; eauto]. unfold publish in Hb. tx_inv Hb. split; [by apply good_publish|]. cbn. rewrite lookup_fmap, Hn1. eexists. split; [done|]. done. }
  apply tx_bind_Ok in Hrun as (? & d2 & ? & Hb1 & Hrun). apply Hpub in Hb1; [|split; [done|]; cbn; rewrite lookup_insert_eq; eexists; done].
  apply tx_bind_Ok in Hrun as (? & d3 & ? & Hb2 & Hrun). apply Hpub in Hb2 as [Hg3 (n3 & Hn3 & Ha3)]; [|done].
  destruct (negb (String.eqb (K_Error k) "")); [tx_inv Hrun; done|]. unfold ack_release in Hrun. tx_inv Hrun.
  apply (good_release sent d3 node n3 (K_AppliedVersion k) (fun rule => match d_rules d3 !! rule with Some r => String.eqb (Q_NodeID (sr_rule r)) node && sr_deleted r && (sr_release r <=? K_AppliedVersion k) | None => false end)); [done|exact Hn3|lia|].
  intros rule Hgone. destruct (d_rules d3 !! rule) as [r|]; [|done]. exists r. bool_to_prop. split_and!; [done|done|lia].
Qed.

Lemma good_uninstalled sent node env d t u d' t' : pgood sent d -> uninstalled node env d t = (Ok (u, d'), t') -> pgood (filter (fun c => c_node c <> node) sent) d'.
Proof.
  intros Hg Hrun. unfold uninstalled, publish in Hrun. tx_inv Hrun. clear x. apply good_publish. match goal with |- pgood _ (set_ingress_ports ?f (set_ingresses ?g (set_node_groups ?h (set_exits ?e d)))) => set (d1 := set_ingresses g (set_node_groups h (set_exits e d))) end.
  assert (Hg1 : pgood sent d1) by (apply good_ingresses_filter, good_node_groups, good_exits; done).
  assert (Hout : forall i r, d_ingresses d1 !! i = Some r -> in_node r <> node) by (intros i r [_ Hr]%map_lookup_filter_Some; done). clearbody d1. destruct Hg1 as [Hi He Hs].
  match goal with |- pgood _ ?y => set (d' := y) end.
  assert (Hip : forall x i, d_ingress_ports d' !! x = Some i -> d_ingress_ports d1 !! x = Some i) by (intros x k [Hk _]%map_lookup_filter_Some; done).
  assert (Hi' : pinv0 d').
  { assert (Hone : exclusive d').
    { eapply exclusive_fewer; [exact (pi_one _ Hi)|]. intros x [k|e|i]; cbn; [done|done|]. intros [rel Hx%Hip]. eauto. }
    destruct Hi. split; try exact pi_one0; try done. intros x i rel Hx%Hip. by eapply pi_port_ingress0. }
  split; [done| |].
  - intros i r Hr Hen. destruct (He _ _ Hr Hen) as (p & Hport & Hown). exists p. split; [done|]. apply map_lookup_filter_Some. split; [done|]. cbn. by eapply Hout.
  - rewrite Forall_forall in Hs |- *. intros c [Hcn Hc%Hs]%list_elem_of_filter. eapply sent_step; [exact Hc|by apply advances_same|by left|cbn; eauto| |done|done].
    intros p i rel Hk. left. exists rel. split; [by apply map_lookup_filter_Some|by left].
Qed.
Lemma good_rewrite sent d rule row r' : pgood sent d -> d_rules d !! rule = Some row -> same_place (sr_rule row) r' ->
  pgood sent (set_rules (<[rule := {| sr_rule := r'; sr_version := sr_version row; sr_deleted := sr_deleted row; sr_release := sr_release row |}]>) d).
Proof.
  intros [Hi He Hs] Hrow (E1 & E2 & E3 & E4 & E5 & E6 & E7). match goal with |- pgood _ ?y => set (d' := y) end.
  assert (Hsh : sharesPort r' = sharesPort (sr_rule row)) by (unfold sharesPort, managedTLS, sharedParent; by rewrite E7). assert (Hi' : pinv0 d').
  { destruct Hi. split; try exact pi_one0; cbn; try done.
    - intros k r [[<- <-]|[_ Hr]]%lookup_insert_Some; [|by apply pi_rules0]. cbn. rewrite E1, E3. by apply pi_rules0.
    - intros node network p k Hk. destruct (pi_owner0 _ _ _ _ Hk) as (r & Hr & Hrest). destruct (decide (k = rule)) as [->|Hne]; [|exists r; rewrite lookup_insert_ne by done; done].
      eexists. split; [apply lookup_insert_eq|]. cbn. assert (r = row) as -> by congruence. by rewrite E3, E5, E6, Hsh.
    - intros k r [[<- <-]|[_ Hr]]%lookup_insert_Some; [|by apply pi_live0]. cbn. rewrite E3, E5, E6, Hsh. by apply pi_live0. }
  split; [done|exact He|]. eapply Forall_impl; [exact Hs|]. intros c Hc. eapply sent_step; [exact Hc|by apply advances_same|by left| |cbn; eauto|done|done].
  intros k r. cbn. intros [[<- <-]|[_ Hr]]%lookup_insert_Some Hdel _; left; eauto.
Qed.
Lemma good_config sent d node n : pgood sent d -> d_nodes d !! node = Some n -> pgood (snapshot node (n_desired n) d :: sent) d.
Proof.
  intros [Hi He Hs] Hn. split; [done|done|]. constructor; [|done]. exists n. cbn. split; [done|]. split; [lia|]. right. split; apply Forall_forall.
  - intros l ([k r] & Hin%elem_of_map_to_list & Hl)%list_elem_of_omap. unfold listens in Hl. cbn in Hl. destruct (_ && _) eqn:Ec; [|done]. apply fmap_Some in Hl as (p & Hp & ->). apply andb_prop in Ec as [[En%String.eqb_eq Hdel%negb_true_iff]%andb_prop Hsh%negb_true_iff].
    destruct (pi_live _ Hi _ _ Hin Hdel) as (q & Hq & Hown). assert (q = p) as -> by congruence. split; cbn; [rewrite <- En; by apply Hown|]. intros r2 Hr2 Hd2. congruence.
  - intros l ([i r] & Hin%elem_of_map_to_list & Hl)%list_elem_of_omap. unfold answers in Hl. cbn in Hl. destruct (_ && _) eqn:Ec; [|done]. apply fmap_Some in Hl as (p & Hp & ->). apply andb_prop in Ec as [En%String.eqb_eq Hen].
    destruct (He _ _ Hin Hen) as (q & Hq & Hown). assert (q = p) as -> by congruence. exists 0. rewrite En in Hown. cbn. eauto.
Qed.

(** ** All steps *)

Lemma good_Write {A} sent (m : Tx Tables A) env d : pgood sent d -> (forall a d' t', m env d 0%nat = (Ok (a, d'), t') -> pgood sent d') -> pgood sent (Write m env d).2.
Proof. intros Hg Hm. destruct (Write m env d) as [[a|e] d'] eqn:E; [apply Write_Ok in E as [t E]; by eapply Hm|by apply Write_Err in E as ->]. Qed.
Lemma pstep_good s s' : pgood (p_sent s) (p_db s) -> pstep s s' -> pgood (p_sent s') (p_db s').
Proof.
  intros Hg Hstep. destruct Hstep as [env actor role path r random|env actor role r create random|env actor role rule version|env path e|env path g Hkg|env target version|env groups Hkn|env node k|node n Hn|env node|rule row r' Hr Hp|node n Hn|users];
    cbn [p_sent p_db with_pdb]; try (apply good_Write; [done|]; intros a d' t' Hrun).
  - unfold saveRule in Hrun. apply tx_bind_Ok in Hrun as (fresh & ? & ? & Hid & Hrun). tx_inv Hid. by eapply good_saveRuleTx.
  - by eapply good_saveRuleTx.
  - by eapply good_deleteRule.
  - by eapply good_saveExit.
  - by eapply good_saveGroup.
  - by eapply good_deleteGroup.
  - by eapply good_registerNode.
  - by eapply good_ack.
  - by apply good_config.
  - destruct (Write (uninstalled node) env (p_db s)) as [[a|e] d'] eqn:E; [apply Write_Ok in E as [t E]; by eapply good_uninstalled|]. apply Write_Err in E as ->. destruct Hg as [Hi He Hs]. split; [done|done|]. rewrite Forall_forall in Hs |- *. intros c [_ Hc]%list_elem_of_filter. by apply Hs.
  - by apply good_rewrite.
  - apply good_nodes; [done| | |].
    + intros k n0 Hn0. cbn. destruct (decide (k = node)) as [->|Hne]; [|rewrite lookup_insert_ne by done; eauto with lia]. rewrite lookup_insert_eq. eexists. split; [done|]. assert (n0 = n) as -> by congruence. cbn. lia.
    + intros k n0 [[<- <-]|[_ Hk]]%lookup_insert_Some; [cbn; pose proof (pi_nodes _ (pg_inv _ _ Hg) _ _ Hn); lia|]. by apply (pi_nodes _ (pg_inv _ _ Hg)) in Hk.
    + intros k n0 [[<- <-]|[_ Hk]]%lookup_insert_Some; by eapply (pi_known _ (pg_inv _ _ Hg)).
  - destruct Hg as [Hi He Hs]. match goal with |- pgood _ ?y => assert (Hi' : pinv0 y) by (destruct Hi; split; try exact pi_one0; done) end. split; [done|exact He|]. eapply Forall_impl; [exact Hs|]. intros c Hc.
    eapply sent_step; [exact Hc|by apply advances_same|by left| | |done|done]; cbn; eauto.
Qed.
Lemma psteps_good s s' : rtc pstep s s' -> pgood (p_sent s) (p_db s) -> pgood (p_sent s') (p_db s').
Proof. induction 1 as [s|s1 s2 s3 Hstep _ IH]; [done|]. intros Hg. by eapply IH, pstep_good. Qed.
Lemma new_panel_good : pgood [] (p_db new_panel).
Proof. split; [|done|constructor]. split; cbn; try done; try (intros; set_solver). intros x [k|e|i]; cbn; [done|set_solver|by intros o' [rel ?]]. Qed.
Definition preaches (s : psys) : Prop := rtc pstep new_panel s.
(** A panel starts empty; or it comes from a version that did not reserve the
    ports of exits, with whatever exits that version had stored, and the
    migration gives these their ports. *)
Inductive pstart : psys -> Prop :=
  | start_new : pstart new_panel
  | start_upgraded s exits env d : preaches s -> d_exit_ports (p_db s) = ∅ ->
      Write backfillExitPorts env (set_exits (fun _ => exits) (p_db s)) = (Ok tt, d) -> pstart (with_pdb d s).
End Inv.
Section Starts.
Context `{RatSyntax} `{Surroundings} `{KnownIDs}.
Lemma preaches_good origin s : preaches s -> pgood origin (p_sent s) (p_db s).
Proof. intros Hr. eapply psteps_good; [exact Hr|apply new_panel_good]. Qed.
Lemma backfill_Ok env d u d' : Write backfillExitPorts env d = (Ok u, d') -> exists f, d' = set_exit_ports f d.
Proof. intros [t Hr]%Write_Ok. unfold backfillExitPorts in Hr. tx_inv Hr. by eexists. Qed.
(** The migrated tables are an origin of their own. *)
Lemma pstart_good s : pstart s -> pgood (p_db s) (p_sent s) (p_db s).
Proof.
  intros [|s0 exits env d Hr He Hb]; [apply new_panel_good|]. apply backfill_Ok in Hb as [f ->]. pose proof (preaches_good (set_exit_ports f (set_exits (fun _ => exits) (p_db s0))) _ Hr) as Hg.
  apply good_exit_ports; [by apply good_exits|]. intros x o o' Ho Ho'. by right.
Qed.
Lemma new_panel_free x o : ~ has_port (p_db new_panel) x o.
Proof. destruct o; cbn; [by rewrite lookup_empty|set_solver|intros [? Hx]; by rewrite lookup_empty in Hx]. Qed.
(** Only exits share ports then. *)
Lemma pstart_shared s x o o' : pstart s -> has_port (p_db s) x o -> has_port (p_db s) x o' -> o = o' \/ exists e, o = ByExit e \/ o' = ByExit e.
Proof.
  intros [|s0 exits env d Hr He Hb]; [by destruct o as [k|e|i]; cbn; [|set_solver|intros [? ?]]|]. apply backfill_Ok in Hb as [f ->]. pose proof (pi_one _ _ (pg_inv _ _ _ (preaches_good (p_db new_panel) _ Hr))) as Hone.
  intros Ho Ho'. destruct o as [k|e|i]; [|right; eauto|]; (destruct o' as [k'|e'|i']; [|right; eauto|]); left.
  all: match goal with |- ?a = ?b => destruct (Hone x a b Ho Ho') as [?|[Hx _]]; [done|by apply new_panel_free in Hx] end.
Qed.
End Starts.
