(* ===== verification/PortGuarantees.v ===== *)
(** * What the control plane guarantees about ports

    A physical port has one owner; who has it keeps it until the node has
    acknowledged to be without it; rules that share a port can be told apart;
    and a rule without an address gets a free port if there is one. *)

From S2P Require Import Prelude Tx GoStrings Addresses Rational Streams Ports PortsInv.
From stdpp Require Import base gmap strings list sorting relations pretty.
From Stdlib Require Import Ascii String.
Local Open Scope string_scope.
Local Open Scope Z_scope.
Local Abbreviation length := List.length.

Section Shared.
Context `{RatSyntax} `{Surroundings} `{KnownIDs}.

(** ** Rules that share a port *)

Definition live (d : Tables) (k : string) (r : Rule) : Prop := exists row, d_rules d !! k = Some row /\ sr_deleted row = false /\ sr_rule row = r.
Definition collide (r v : Rule) : Prop := Q_NodeID r = Q_NodeID v /\ same_socket r v = true /\ same_socket v r = true /\ server_name r = server_name v.
Record pshared (d : Tables) : Prop := {
  sh_id k r : live d k r -> Q_ID r = k;
  sh_form k r : live d k r -> well_formed r;
  sh_names k r k' v : live d k r -> live d k' v -> collide r v -> k = k';
  sh_parent k r : live d k r -> sharedParent r <> "" -> exists v, live d (sharedParent r) v /\ Q_NodeID v = Q_NodeID r /\ may_share r v = true
}.

Lemma live_rules_In d node v : (forall k r, live d k r -> Q_ID r = k) -> v ∈ live_rules node d <-> live d (Q_ID v) v /\ Q_NodeID v = node.
Proof.
  intros Hid. unfold live_rules. rewrite list_elem_of_omap. split.
  - intros ([k row] & Hin%elem_of_map_to_list & Hc). cbn in Hc. destruct (_ && _) eqn:E; [|done]. injection Hc as <-. apply andb_prop in E as [En%String.eqb_eq Hdel%negb_true_iff].
    assert (Hl : live d k (sr_rule row)) by (by exists row). split; [|done]. by rewrite (Hid _ _ Hl).
  - intros [(row & Hrow & Hdel & <-) Hn]. exists (Q_ID (sr_rule row), row). split; [by apply elem_of_map_to_list|]. cbn. by rewrite Hdel, Hn, String.eqb_refl.
Qed.
Lemma shared_loop_Ok r l found0 count0 found count : shared_loop r l found0 count0 = Ok (found, count) ->
  (forall v, v ∈ l -> Q_ID v <> Q_ID r -> same_socket r v = true -> server_name r <> server_name v) /\
  (forall v, v ∈ l -> Q_ID v <> Q_ID r -> sharedParent v = Q_ID r -> is_Some (Q_SharedTLS r) /\ sharedParent r = "") /\
  (found = true -> found0 = true \/ exists v, v ∈ l /\ Q_ID v <> Q_ID r /\ Q_ID v = sharedParent r /\ may_share r v = true).
Proof.
  revert found0 count0. induction l as [|x l IH]; intros found0 count0 Hr; cbn [shared_loop] in Hr; [injection Hr as <- <-; split_and!; [set_solver|set_solver|auto]|].
  destruct (String.eqb_spec (Q_ID x) (Q_ID r)) as [Eid|Hne].
  - apply IH in Hr as (H1' & H2' & H3'). split_and!.
    + intros v [->|Hin]%elem_of_cons Hv; [done|]. by apply H1'.
    + intros v [->|Hin]%elem_of_cons Hv; [done|]. by apply H2'.
    + intros [?|(v & Hin & Hv)]%H3'; [by left|right]. exists v. split; [by right|done].
  - destruct (_ && (_ || _)) eqn:Ech; [done|].
    assert (Hx2 : sharedParent x = Q_ID r -> is_Some (Q_SharedTLS r) /\ sharedParent r = "").
    { intros Ep. rewrite Ep, String.eqb_refl in Ech. cbn in Ech. apply orb_false_elim in Ech as [E1%negb_false_iff E2%negb_false_iff]. by apply bool_decide_eq_true in E1; apply String.eqb_eq in E2. }
    assert (Hfin : forall count1 (Hr : shared_loop r l (if String.eqb (Q_ID x) (sharedParent r) then may_share r x else found0) count1 = Ok (found, count)),
      (same_socket r x = true -> server_name r <> server_name x) -> (forall v, v ∈ x :: l -> Q_ID v <> Q_ID r -> same_socket r v = true -> server_name r <> server_name v) /\
      (forall v, v ∈ x :: l -> Q_ID v <> Q_ID r -> sharedParent v = Q_ID r -> is_Some (Q_SharedTLS r) /\ sharedParent r = "") /\
      (found = true -> found0 = true \/ exists v, v ∈ x :: l /\ Q_ID v <> Q_ID r /\ Q_ID v = sharedParent r /\ may_share r v = true)).
    { intros count1 Hr1 Hx1. apply IH in Hr1 as (H1' & H2' & H3'). split_and!.
      - intros v [->|Hin]%elem_of_cons Hv; [done|]. by apply H1'.
      - intros v [->|Hin]%elem_of_cons Hv; [done|]. by apply H2'.
      - intros [Hf|(v & Hin & Hv)]%H3'; [|right; exists v; split; [by right|done]]. destruct (String.eqb_spec (Q_ID x) (sharedParent r)) as [Ep|]; [right|by left]. exists x. split; [left|done]. }
    destruct (same_socket r x) eqn:Es; [|by eapply Hfin]. destruct (String.eqb_spec (server_name r) (server_name x)); [done|]. by eapply Hfin.
Qed.

Lemma live_insert d rule row k r : live (set_rules (<[rule := row]>) d) k r <-> (k = rule /\ sr_deleted row = false /\ sr_rule row = r) \/ (k <> rule /\ live d k r).
Proof.
  unfold live. cbn. split.
  - intros (row' & [[<- <-]|[Hne Hr]]%lookup_insert_Some & Hd & Hs); [by left|right]. split; [done|]. eauto.
  - intros [(-> & Hd & Hs)|(Hne & row' & Hr & Hd)]; [exists row; split; [apply lookup_insert_eq|done]|]. exists row'. rewrite lookup_insert_ne; done.
Qed.
Lemma live_same d d' k r : d_rules d' = d_rules d -> live d' k r <-> live d k r.
Proof. intros E. unfold live. by rewrite E. Qed.
Lemma pshared_live d d' : pshared d -> (forall k r, live d' k r <-> live d k r) -> pshared d'.
Proof.
  intros [H1' H2' H3' H4'] Hl. split.
  - intros k r Hk%Hl. auto.
  - intros k r Hk%Hl. eauto.
  - intros k r k' v Hk%Hl Hk'%Hl. eauto.
  - intros k r Hk%Hl Hp. destruct (H4' _ _ Hk Hp) as (v & Hv & Hrest). exists v. split; [by apply Hl|done].
Qed.
Lemma collide_sym r v : collide r v -> collide v r.
Proof. unfold collide. intuition congruence. Qed.

(** A rule [r] that was checked is put in the place of what has its
    identifier. *)
Lemma pshared_insert d rule row p : pshared d -> Q_ID (sr_rule row) = rule -> sr_deleted row = false -> checked (sr_rule row) p d ->
  (forall old, live d rule old -> kept old (sr_rule row) /\ (managedTLS old = false -> Q_Listen (sr_rule row) = Q_Listen old)) -> pshared (set_rules (<[rule := row]>) d).
Proof.
  intros Hsh Hid Hdel Hc Hold. set (r := sr_rule row) in *. destruct (ck_shared _ _ _ Hc) as (found & count & Hloop & Hfound & _). apply shared_loop_Ok in Hloop as (Hnames & Hkids & Hpar).
  assert (Hin : forall k v, live d k v -> k <> rule -> Q_NodeID v = Q_NodeID r -> v ∈ live_rules (Q_NodeID r) d /\ Q_ID v <> Q_ID r).
  { intros k v Hv Hne Hn. pose proof (sh_id _ Hsh _ _ Hv) as E. split; [|congruence]. apply live_rules_In; [apply Hsh|]. by rewrite E. }
  assert (Hself : forall k v, live d k v -> k <> rule -> collide r v -> False).
  { intros k v Hv Hne (Hn & Hs1 & Hs2 & Hs). destruct (Hin _ _ Hv Hne ltac:(done)) as [Hi Hi']. by eapply Hnames. }
  split.
  - intros k v [(-> & _ & <-)|[_ Hv]]%live_insert; [done|by apply Hsh].
  - intros k v [(-> & _ & <-)|[_ Hv]]%live_insert; [by apply Hc|by eapply sh_form].
  - intros k v k' v' [(-> & _ & <-)|[Hk Hv]]%live_insert [(-> & _ & <-)|[Hk' Hv']]%live_insert Hcol; [done| | |by eapply sh_names].
    + by destruct (Hself _ _ Hv' Hk').
    + by destruct (Hself _ _ Hv Hk (collide_sym _ _ Hcol)).
  - intros k v [(-> & _ & <-)|[Hk Hv]]%live_insert Hp.
    + destruct Hfound as [Hm|Hf].
      * unfold managedTLS, sharedParent in *. fold r in Hp. destruct (Q_SharedTLS r) as [t|] eqn:Et; [|done]. apply negb_true_iff, String.eqb_neq in Hm. by destruct (wf_shared _ (ck_form _ _ _ Hc) _ Et) as (_ & _ & [|]).
      * destruct (Hpar Hf) as [Hb|(v & Hl & Hne & Hv & Hm)]; [by apply String.eqb_eq in Hb|]. apply live_rules_In in Hl as [Hl Hn]; [|apply Hsh]. rewrite Hv in Hl. fold r. exists v. split_and!; [|done|done].
        apply live_insert. right. split; [congruence|done].
    + destruct (sh_parent _ Hsh _ _ Hv Hp) as (q & Hq & Hn & Hm). destruct (decide (sharedParent v = rule)) as [E|Hne]; [|exists q; split; [apply live_insert; by right|done]].
      rewrite E in Hq. destruct (Hold _ Hq) as [(_ & Eu & En & Eg & Enet & Em & Ep) Hl]. destruct (Hin _ _ Hv Hk ltac:(congruence)) as [Hi Hi']. destruct (Hkids _ Hi Hi' ltac:(congruence)) as [Hsome Hroot].
      exists r. split; [apply live_insert; by left|]. split; [congruence|]. unfold may_share in *. apply andb_prop in Hm as [[[[[[_ Hm1%negb_true_iff]%andb_prop _]%andb_prop Hu]%andb_prop Hg]%andb_prop Hli]%andb_prop Hne].
      rewrite Hroot, Eu, Eg, Enet, (Hl Hm1), Hu, Hg, Hli, Hne, Em, Hm1. by rewrite bool_decide_eq_true_2.
Qed.

(** ** Steps that leave the rules alone *)

Ltac same_rules :=
  repeat lazymatch goal with
  | |- hoare _ (mbind _ _) _ => apply hoare_bind_inv; [|intros ?]
  | |- hoare _ (for_each _ _) _ => apply keeps_for_each; intros ? _
  | |- hoare _ (if ?b then _ else _) _ => destruct b
  | |- hoare _ _ _ => hoare_step; try done
  end.
Lemma publish_rules rules : keeps (fun d => d_rules d = rules) publish.
Proof. unfold publish. same_rules. Qed.
Lemma release_rules node desired wanted l d : d_rules (foldl (fun d saved => release_ingress node desired wanted saved d) d l) = d_rules d.
Proof. revert d. induction l as [|x l IH]; intros d; [done|]. cbn [foldl]. rewrite IH. unfold release_ingress. by destruct (list_find _ wanted), (in_enabled x.2 && _). Qed.
Lemma sync_rules rules : keeps (fun d => d_rules d = rules) syncTLSIngresses.
Proof.
  unfold syncTLSIngresses, sync_node, acquire_ingress. same_rules. by rewrite release_rules.
Qed.
Lemma saveExit_rules rules path e : keeps (fun d => d_rules d = rules) (saveExit path e).
Proof. unfold saveExit, reserveExitPorts, reserve_one. same_rules; apply publish_rules. Qed.
Lemma saveGroup_rules rules path g : keeps (fun d => d_rules d = rules) (saveGroup path g).
Proof. unfold saveGroup. same_rules; first [apply sync_rules|apply publish_rules]. Qed.
Lemma registerNode_rules rules groups : keeps (fun d => d_rules d = rules) (registerNode groups).
Proof. unfold registerNode. same_rules; apply sync_rules. Qed.
Lemma ack_rules rules node k : keeps (fun d => d_rules d = rules) (ack node k).
Proof. unfold ack, ack_release. same_rules; apply publish_rules. Qed.
Lemma uninstalled_rules rules node : keeps (fun d => d_rules d = rules) (uninstalled node).
Proof. unfold uninstalled. same_rules; apply publish_rules. Qed.

Lemma pshared_same {A} (m : Tx Tables A) env d : (forall rules, keeps (fun d => d_rules d = rules) m) -> pshared d -> pshared (Write m env d).2.
Proof. intros Hm Hs. eapply pshared_live; [exact Hs|]. intros k r. apply live_same. exact (keeps_Write _ m env d (Hm (d_rules d)) eq_refl). Qed.
Lemma pshared_stored r p create d d' : pshared d -> checked r p d -> stored r p create d d' -> pshared d'.
Proof.
  intros Hs Hc Hst. destruct create; cbn in Hst.
  - destruct Hst as [Hfresh Hst]. assert (Hins : pshared (set_rules (<[Q_ID r := {| sr_rule := r; sr_version := Q_Version r; sr_deleted := false; sr_release := 0 |}]>) d)).
    { eapply pshared_insert; [done|done|done|exact Hc|]. intros old (row & Hrow & _). congruence. }
    destruct Hst as [[_ ->]|(_ & _ & ->)]; [done|]. eapply pshared_live; [exact Hins|]. intros k v. by apply live_same.
  - destruct Hst as (old & Hold & Hdel & Hk & Hl & ->). eapply pshared_insert; [done|done|done|exact Hc|]. intros old' (row & Hrow & Hdel' & <-). assert (row = old) as -> by congruence. done.
Qed.
Lemma pshared_saveRuleTx origin actor role r create random env d t r' d' t' : pinv0 origin d -> pshared d -> saveRuleTx actor role r create random env d t = (Ok (r', d'), t') -> pshared d'.
Proof.
  intros Hi Hs Hrun. apply saveRuleTx_Ok in Hrun as (p & d1 & Hc & Hst & ->).
  - eapply pshared_live; [by eapply pshared_stored|]. intros k v. by apply live_same.
  - intros k row Hr. destruct (pi_rules _ _ Hi _ _ Hr) as [E _]. split; [done|]. intros Hdel. destruct (pi_live _ _ Hi _ _ Hr Hdel) as (q & Hq & _). by eexists.
Qed.
Lemma pshared_delete d k0 r0 (d' : Tables) : pshared d -> live d k0 r0 -> (forall k v, live d' k v <-> k <> k0 /\ live d k v) ->
  (forall v, v ∈ live_rules (Q_NodeID r0) d -> Q_ID v <> k0 -> sharedParent v <> k0) -> pshared d'.
Proof.
  intros Hs Hr0 Hl Hkids. split.
  - intros k v [_ Hv]%Hl. by apply Hs.
  - intros k v [_ Hv]%Hl. by eapply sh_form.
  - intros k v k' v' [_ Hv]%Hl [_ Hv']%Hl. by eapply sh_names.
  - intros k v [Hne Hv]%Hl Hp. destruct (sh_parent _ Hs _ _ Hv Hp) as (q & Hq & Hn & Hm). exists q. split; [|done]. apply Hl. split; [|done]. intros E. rewrite E in Hq.
    assert (q = r0) as ->. { destruct Hq as (row & Hrow & _ & <-), Hr0 as (row0 & Hrow0 & _ & <-). congruence. }
    pose proof (sh_id _ Hs _ _ Hv) as Ev. apply (Hkids v); [|congruence|done]. apply live_rules_In; [apply Hs|]. by rewrite Ev.
Qed.
Lemma pshared_deleteRule actor role rule version env d t u d' t' : pshared d -> deleteRule actor role rule version env d t = (Ok (u, d'), t') -> pshared d'.
Proof.
  intros Hs Hrun. unfold deleteRule in Hrun. do 4 (apply tx_bind_Ok in Hrun as (? & ? & ? & Hm & Hrun); tx_inv Hm). rename x into row. rename Ho into Hrow. apply andb_prop in Hg as [_ Hdel%negb_true_iff].
  apply tx_bind_Ok in Hrun as (? & ? & ? & [-> (found & count & Hloop & _)]%validateShared_Ok & Hrun). unfold publish in Hrun. tx_inv Hrun. apply shared_loop_Ok in Hloop as (_ & Hkids & _).
  eapply (pshared_delete d rule (sr_rule row)); [done|by exists row| |].
  - intros k v. rewrite live_insert. cbn [sr_deleted]. rewrite (live_same d); [|done]. intuition congruence.
  - intros v Hv Hne Hp. destruct (Hkids v Hv Hne Hp) as [[? ?] _]. done.
Qed.
Lemma deleteGroup_live target version env d t u d' t' : deleteGroup target version env d t = (Ok (u, d'), t') -> forall k r, live d' k r <-> live d k r.
Proof.
  intros Hrun. unfold deleteGroup, publish in Hrun. tx_inv Hrun. intros k r. unfold live. cbn. split.
  - intros (row & [Hr _]%map_lookup_filter_Some & Hrest). eauto.
  - intros (row & Hr & Hdel & Hrest). exists row. split; [|done]. apply map_lookup_filter_Some. split; [done|]. cbn. rewrite Hdel. by intros [_ ?].
Qed.
Lemma pshared_rewrite d rule row r' : pshared d -> d_rules d !! rule = Some row -> same_place (sr_rule row) r' ->
  pshared (set_rules (<[rule := {| sr_rule := r'; sr_version := sr_version row; sr_deleted := sr_deleted row; sr_release := sr_release row |}]>) d).
Proof.
  intros Hs Hrow Hp. set (d' := set_rules _ d). destruct (sr_deleted row) eqn:Hdel.
  - eapply pshared_live; [exact Hs|]. intros k v. unfold d'. rewrite live_insert. cbn. split; [intuition congruence|]. intros Hv. right. split; [|done]. intros ->. destruct Hv as (row' & Hr & Hd & _). congruence.
  - assert (Hl : forall k v, live d' k v -> exists v0, live d k v0 /\ same_place v0 v).
    { intros k v [(-> & _ & <-)|[_ Hv]]%live_insert; [exists (sr_rule row); split; [by exists row|done]|]. exists v. split; [done|]. unfold same_place. tauto. }
    assert (Hb : forall k v0, live d k v0 -> exists v, live d' k v /\ same_place v0 v).
    { intros k v0 Hv. destruct (decide (k = rule)) as [->|Hne]; [|exists v0; split; [apply live_insert; by right|unfold same_place; tauto]]. exists r'. split; [apply live_insert; by left|]. destruct Hv as (row' & Hr & _ & <-). by assert (row' = row) as -> by congruence. }
    assert (Hplace : forall v v', same_place v v' -> sharedParent v' = sharedParent v /\ managedTLS v' = managedTLS v /\ server_name v' = server_name v).
    { intros v v' (_ & _ & _ & _ & _ & _ & E). unfold sharedParent, managedTLS, server_name. by rewrite E. }
    split.
    + intros k v (v0 & Hv & E1 & _)%Hl. rewrite E1. by apply Hs.
    + intros k v (v0 & Hv & _ & _ & _ & _ & E5 & E6 & E7)%Hl. destruct (sh_form _ Hs _ _ Hv) as [W1 W2 W3]. split; [by rewrite E5|by rewrite E6|intros t; rewrite E7, E5; apply W3].
    + intros k v k' v' (v0 & Hv & Hp0)%Hl (v1 & Hv' & Hp1)%Hl (C1 & C2 & C3 & C4). eapply (sh_names _ Hs k v0 k' v1 Hv Hv'). destruct (Hplace _ _ Hp0) as (P1 & P2 & P3), (Hplace _ _ Hp1) as (Q1 & Q2 & Q3).
      destruct Hp0 as (_ & _ & E3 & _ & _ & E6 & E7), Hp1 as (_ & _ & F3 & _ & _ & F6 & F7). unfold collide, same_socket in *. rewrite E7, F7, P2, Q2, E6, F6 in *. repeat split; congruence.
    + intros k v (v0 & Hv & Hp0)%Hl Hne. destruct (Hplace _ _ Hp0) as (P1 & _). rewrite P1 in Hne |- *. destruct (sh_parent _ Hs _ _ Hv Hne) as (q0 & Hq & Hn & Hm). destruct (Hb _ _ Hq) as (q & Hq' & Hp1). exists q. split; [done|].
      destruct (Hplace _ _ Hp1) as (Q1 & Q2 & _). destruct Hp0 as (_ & E2 & E3 & E4 & E5 & E6 & _), Hp1 as (_ & F2 & F3 & F4 & F5 & F6 & F7). split; [congruence|]. unfold may_share in *. rewrite F7, Q2, Q1, F2, F4, F6, F5, E2, E4, E6, E5. done.
Qed.
Lemma pstep_shared origin s s' : pgood origin (p_sent s) (p_db s) -> pshared (p_db s) -> pstep s s' -> pshared (p_db s').
Proof.
  intros Hg Hs Hstep.
  assert (HW : forall A (m : Tx Tables A) env, (forall a d' t', m env (p_db s) 0%nat = (Ok (a, d'), t') -> pshared d') -> pshared (Write m env (p_db s)).2).
  { intros A m env Hm. destruct (Write m env (p_db s)) as [[a|e] d'] eqn:E; [apply Write_Ok in E as [t E]; by eapply Hm|by apply Write_Err in E as ->]. }
  destruct Hstep as [env actor role path r random|env actor role r create random|env actor role rule version|env path e|env path g Hkg|env target version|env groups Hkn|env node k|node n Hn|env node|rule row r' Hr Hp|node n Hn|users];
    cbn [p_db with_pdb]; try done.
  - apply HW. intros a d' t' Hrun. unfold saveRule in Hrun. apply tx_bind_Ok in Hrun as (fresh & ? & ? & Hid & Hrun). tx_inv Hid. eapply pshared_saveRuleTx; [apply Hg|done|exact Hrun].
  - apply HW. intros a d' t' Hrun. eapply pshared_saveRuleTx; [apply Hg|done|exact Hrun].
  - apply HW. intros a d' t' Hrun. by eapply pshared_deleteRule.
  - apply pshared_same; [|done]. intros rules. apply saveExit_rules.
  - apply pshared_same; [|done]. intros rules. apply saveGroup_rules.
  - apply HW. intros a d' t' Hrun. eapply pshared_live; [exact Hs|by eapply deleteGroup_live].
  - apply pshared_same; [|done]. intros rules. apply registerNode_rules.
  - apply pshared_same; [|done]. intros rules. apply ack_rules.
  - apply pshared_same; [|done]. intros rules. apply uninstalled_rules.
  - by apply pshared_rewrite.
  - eapply pshared_live; [exact Hs|]. intros. by apply live_same.
  - eapply pshared_live; [exact Hs|]. intros. by apply live_same.
Qed.
Lemma psteps_shared origin s s' : rtc pstep s s' -> pgood origin (p_sent s) (p_db s) -> pshared (p_db s) -> pshared (p_db s').
Proof. induction 1 as [s|s1 s2 s3 Hstep _ IH]; [done|]. intros Hg Hs. apply IH; [by eapply pstep_good|by eapply pstep_shared]. Qed.
Lemma preaches_shared s : preaches s -> pshared (p_db s).
Proof.
  intros Hr. eapply (psteps_shared (p_db new_panel)); [exact Hr|apply new_panel_good|].
  assert (Hnone : forall k r, live (p_db new_panel) k r -> False) by (intros k r (row & Hrow & _); cbn in Hrow; by rewrite lookup_empty in Hrow).
  split; intros; exfalso; eauto.
Qed.

(** ** The theorems *)

Lemma has_port_one d x o o' : pinv0 (p_db new_panel) d -> has_port d x o -> has_port d x o' -> o = o'.
Proof. intros Hi Ho Ho'. destruct (pi_one _ _ Hi _ _ _ Ho Ho') as [?|[Hx _]]; [done|by apply new_panel_free in Hx]. Qed.

(** C25: However rules, exits, groups and nodes are saved and removed, a port
    of a node has at most one owner among all rules, exits and ingresses; a
    rule that listens by itself has its port, and so has an enabled ingress.
    A panel that was upgraded from a version that did not reserve the ports of
    exits is the exception the migration makes: a port may have several owners
    if each of them had it when the panel was migrated and one of them is an
    exit; new conflicts are refused there too.  Ingresses of groups and nodes
    whose identifiers the panel draws have different hashes ([KnownIDs]). *)
Theorem ports_exclusive s0 s : pstart s0 -> rtc pstep s0 s ->
  (forall x o o', has_port (p_db s) x o -> has_port (p_db s) x o' ->
     o = o' \/ (has_port (p_db s0) x o /\ has_port (p_db s0) x o' /\ exists e, o = ByExit e \/ o' = ByExit e)) /\
  (s0 = new_panel -> forall x o o', has_port (p_db s) x o -> has_port (p_db s) x o' -> o = o') /\
  (forall k r, live (p_db s) k r -> sharesPort r = false -> exists p, port_of (Q_Listen r) = Some p /\ has_port (p_db s) (Q_NodeID r, Q_Network r, p) (ByRule k)) /\
  (forall i row, d_ingresses (p_db s) !! i = Some row -> in_enabled row = true -> exists p, port_of (in_listen row) = Some p /\ has_port (p_db s) (in_node row, "tcp", p) (ByIngress i)).
Proof.
  intros Hst Hr. pose proof (psteps_good _ _ _ Hr (pstart_good _ Hst)) as [Hi He _]. split_and!.
  - intros x o o' Ho Ho'. destruct (pi_one _ _ Hi _ _ _ Ho Ho') as [?|[H1' H2']]; [by left|]. destruct (pstart_shared _ _ _ _ Hst H1' H2') as [?|?]; [by left|by right].
  - intros -> x o o'. by apply has_port_one.
  - intros k r (row & Hrow & Hdel & <-) Hns. destruct (pi_live _ _ Hi _ _ Hrow Hdel) as (p & Hp & Hown). exists p. split; [done|by apply Hown].
  - intros i row Hrow Hen. destruct (He _ _ Hrow Hen) as (p & Hp & Hown). exists p. split; [done|by exists 0].
Qed.


(** C27: Every rule that is not deleted is well formed: its identifier, network
    and port are valid, and shared TLS is on TCP with a valid server name; two
    rules on one socket have different names; and a rule behind a parent has a
    live parent of the same owner, group and address that is not behind one
    itself. *)
Theorem rules_well_formed s : preaches s ->
  (forall k r, live (p_db s) k r -> Q_ID r = k /\ well_formed r) /\
  (forall k r k' v, live (p_db s) k r -> live (p_db s) k' v -> collide r v -> k = k') /\
  (forall k r, live (p_db s) k r -> sharedParent r <> "" -> exists v, live (p_db s) (sharedParent r) v /\ Q_NodeID v = Q_NodeID r /\ may_share r v = true).
Proof.
  intros [H1' H2' H3' H4']%preaches_shared. split_and!; eauto.
Qed.

(** ** A port for a rule without an address *)

Lemma scan_ports_Some node network lo span start n i d p : 0 < span -> scan_ports node network lo span start i n d = Some p -> lo <= p < lo + span /\ unreserved (node, network, p) d = true.
Proof.
  intros Hs. revert i. induction n as [|n IH]; intros i Hp; [done|]. cbn [scan_ports] in Hp. destruct (unreserved (node, network, lo + (start + i) mod span) d) eqn:E; [|exact (IH _ Hp)]. injection Hp as <-. split; [|done]. pose proof (Z.mod_pos_bound (start + i) span Hs). lia.
Qed.
Lemma scan_ports_None node network lo span start n i d : scan_ports node network lo span start i n d = None -> forall j, i <= j < i + Z.of_nat n -> unreserved (node, network, lo + (start + j) mod span) d = false.
Proof.
  revert i. induction n as [|n IH]; intros i Hp j Hj; [lia|]. cbn [scan_ports] in Hp. destruct (unreserved (node, network, lo + (start + i) mod span) d) eqn:E; [done|]. destruct (decide (j = i)) as [->|Hne]; [done|]. apply (IH _ Hp). lia.
Qed.
(** Every port of the range is visited. *)
Lemma visited span start q : 0 < span -> 0 <= q < span -> exists j, 0 <= j < span /\ (start + j) mod span = q.
Proof.
  intros Hs Hq. exists ((q - start) mod span). split; [by apply Z.mod_pos_bound|]. rewrite Zplus_mod_idemp_r. replace (start + (q - start)) with q by lia. by apply Z.mod_small.
Qed.

(** C28: A rule without an address is given a port of its group's range that
    nobody has on the node, whatever the random start is, if there is one; if
    not, it is told so. *)
Theorem listen_found g node network random env d t : 1 <= G_PortMin g <= G_PortMax g -> G_PortMax g <= 65535 ->
  (exists p, G_PortMin g <= p <= G_PortMax g /\ unreserved (node, network, p) d = true /\ port_of (":" ++ FormatInt p) = Some p /\
     allocateListen g node network random env d t = (Ok (":" ++ FormatInt p, d), t)) \/
  ((forall p, G_PortMin g <= p <= G_PortMax g -> unreserved (node, network, p) d = false) /\ allocateListen g node network random env d t = (Err (ErrMsg "no free port"), t)).
Proof.
  intros H1' H2'. unfold allocateListen. destruct (Z.ltb_spec (G_PortMax g) (G_PortMin g)); [lia|]. destruct (Z.ltb_spec (G_PortMin g) 1); [lia|]. destruct (Z.ltb_spec 65535 (G_PortMax g)); [lia|].
  set (span := G_PortMax g - G_PortMin g + 1). assert (Hs : 0 < span) by lia. cbn. unfold mbind, tx_bind, gets, or_fail. cbn.
  destruct (scan_ports _ _ _ _ _ _ _ _) as [p|] eqn:E; [left|right].
  - apply scan_ports_Some in E as [Hp Hfree]; [|done]. exists p. split_and!; [lia|lia|done|apply port_of_colon; lia|done].
  - split; [|done]. intros p Hp. destruct (visited span (random mod span) (p - G_PortMin g) Hs) as (j & Hj & Ej); [lia|].
    rewrite <- (scan_ports_None _ _ _ _ _ _ _ _ E j) by lia. do 2 f_equal. lia.
Qed.
End Shared.

(** ** A run *)
Module PortDemo.

(** One group and one node. *)
#[local] Program Instance demo_ids : KnownIDs := {| known_group g := g = "g"; known_node n := n = "n" |}.
Next Obligation. intros g n g' n' -> -> -> ->. done. Qed.
#[local] Program Instance demo_surroundings : Surroundings :=
  {| ParseIP s := if bool_decide (s ∈ ["0.0.0.0"; "::1"]) then Some s else None;
     url_host s := Ok (s, ""); ToASCII s := Some s; ValidateUDPExit _ _ _ := Ok tt; ValidateChain _ _ := Ok tt; ValidateOptions _ := Ok tt; NormalizeBlocked l := Ok l;
     resolveExitTx r _ := Ok (Q_Transport r, Q_Tunnel r, "", "1"); nodeAvailableTx _ _ := Ok tt; groupAuthorized _ _ _ := true; accountMaxRules _ _ := Ok 0; entryPolicyDenied _ _ := false;
     resourceCapabilities _ _ := Ok true; allocateLease _ _ := Ok "lease"; groupAllowed _ _ := Ok tt; exitAllowed _ _ := Ok tt |}.
Next Obligation. intros s text. cbn. case_bool_decide as Hin; [|done]. intros [= <-]. apply elem_of_cons in Hin as [->|Hin]; [done|]. apply list_elem_of_singleton in Hin as ->. done. Qed.

Definition ids (name : string) : Env := {| env_now := fun _ => 0; env_rand := fun _ => name |}.
Definition demo_group : Group :=
  {| G_ID := ""; G_Type := "entry"; G_PortMin := 1000; G_PortMax := 1001; G_MaxRules := 0; G_Multiplier := "1"; G_ChainGroupIDs := [];
     G_Advanced := Some {| A_SharedTLSIngress := Some {| S_Enabled := true; S_ListenIP := ""; S_Port := 0 |}; A_PolicyVersion := 2; A_TLSInboundPolicy := 0; A_IPv6Group := []; A_ReverseGroup := [] |};
     G_Version := 0 |}.
Definition demo_rule (listen : string) : Rule :=
  {| Q_ID := ""; Q_UserID := ""; Q_NodeID := "n"; Q_GroupID := "g"; Q_Name := "web"; Q_Network := "tcp"; Q_Transport := "direct"; Q_Listen := listen; Q_Target := "target:80"; Q_Enabled := true;
     Q_Version := 0; Q_ExitGroupID := ""; Q_ExitID := ""; Q_SelectedExitID := ""; Q_BillingMultiplier := ""; Q_SharedTLS := None; Q_Tunnel := None; Q_BlockedProtocols := [];
     Q_Lease := None; Q_StandbyLease := None; Q_Runtime := false; Q_Rest := "" |}.

Definition s1 : psys := with_pdb {| d_users := {[ "alice" := (false, "admin") ]}; d_nodes := ∅; d_groups := ∅; d_node_groups := ∅; d_rules := ∅; d_exits := ∅; d_ports := ∅; d_exit_ports := ∅; d_ingresses := ∅; d_ingress_ports := ∅ |} new_panel.
Definition s2 : psys := with_pdb (Write (saveGroup "" demo_group) (ids "g") (p_db s1)).2 s1.
Definition s3 : psys := with_pdb (Write (registerNode ["g"]) (ids "n") (p_db s2)).2 s2.
Definition s4 : psys := with_pdb (Write (saveRule "alice" "admin" "" (demo_rule "") 1) (ids "r1") (p_db s3)).2 s3.

Lemma reach4 : preaches s4.
Proof.
  unfold preaches. apply (rtc_r _ s3); [|exact (ps_saveRule s3 (ids "r1") "alice" "admin" "" (demo_rule "") 1)]. apply (rtc_r _ s2); [|exact (ps_registerNode s2 (ids "n") ["g"] eq_refl)].
  apply (rtc_r _ s1); [|exact (ps_saveGroup s1 (ids "g") "" demo_group (fun _ => eq_refl))]. apply rtc_once. exact (ps_users new_panel {[ "alice" := (false, "admin") ]}).
Qed.

(** The rule was given port 1001; the ingress of the group has port 443.  A
    panel that had two exits on port 9443 before it was migrated keeps both. *)
Definition old_exit (exit : string) : Exit :=
  {| X_ID := exit; X_GroupID := "g"; X_NodeID := "n"; X_Version := 1; X_Managed := true; X_Listen := ":9443"; X_Transport := "tls";
     X_Tunnel := {| T_Endpoint := "e:1"; T_ServerName := "e"; T_Token := "t"; T_Mux := false; T_Reverse := ""; T_Chain := []; T_Obfuscation := None; T_Runtime := false |}; X_UDP := None |}.
Definition migrated : psys := with_pdb (Write backfillExitPorts (ids "") (set_exits (fun _ => {[ "a" := old_exit "a"; "b" := old_exit "b" ]}) (p_db s4))).2 s4.
Lemma migrated_start : pstart migrated.
Proof. eapply (start_upgraded s4 {[ "a" := old_exit "a"; "b" := old_exit "b" ]} (ids "")); [exact reach4|vm_compute; reflexivity|]. vm_compute. reflexivity. Qed.
Lemma ports_exclusive_witness : has_port (p_db s4) ("n", "tcp", 1001) (ByRule "r1") /\ (forall o, has_port (p_db s4) ("n", "tcp", 1001) o -> o = ByRule "r1") /\
  (exists i, has_port (p_db s4) ("n", "tcp", 443) (ByIngress i)) /\
  has_port (p_db migrated) ("n", "tcp", 9443) (ByExit "a") /\ has_port (p_db migrated) ("n", "tcp", 9443) (ByExit "b") /\
  (forall k, has_port (p_db migrated) ("n", "tcp", 1001) (ByRule k) -> ByRule k = ByRule "r1").
Proof.
  assert (Hown : has_port (p_db s4) ("n", "tcp", 1001) (ByRule "r1")) by (vm_compute; reflexivity). split; [exact Hown|]. split; [|split; [|split; [|split]]].
  - intros o Ho. exact (proj1 (proj2 (ports_exclusive new_panel s4 start_new reach4)) eq_refl _ _ _ Ho Hown).
  - eexists. cbn. eexists. vm_compute. reflexivity.
  - apply (bool_decide_eq_true_1 (((("n", "tcp", 9443)), "a") ∈ d_exit_ports (p_db migrated))). vm_compute. reflexivity.
  - apply (bool_decide_eq_true_1 (((("n", "tcp", 9443)), "b") ∈ d_exit_ports (p_db migrated))). vm_compute. reflexivity.
  - intros k Ho. assert (Hown' : has_port (p_db migrated) ("n", "tcp", 1001) (ByRule "r1")) by (vm_compute; reflexivity).
    destruct (proj1 (ports_exclusive migrated migrated migrated_start (rtc_refl _ _)) _ _ _ Ho Hown') as [E|(_ & _ & e & [E|E])]; [exact E|discriminate E|discriminate E].
Defined.
Lemma rules_well_formed_witness : exists r, live (p_db s4) "r1" r /\ well_formed r.
Proof.
  assert (Hl : exists r, live (p_db s4) "r1" r) by (eexists _, _; split; [vm_compute; reflexivity|split; reflexivity]). destruct Hl as [r Hl]. exists r. split; [exact Hl|].
  apply (proj1 (rules_well_formed s4 reach4) "r1" r Hl).
Defined.
Lemma listen_found_witness : allocateListen demo_group "n" "tcp" 7 (ids "") (p_db s4) 0%nat = (Ok (":1000", p_db s4), 0%nat).
Proof.
  destruct (listen_found demo_group "n" "tcp" 7 (ids "") (p_db s4) 0%nat) as [(p & Hp & Hfree & _ & Hrun)|[Hnone _]].
  - vm_compute. split; discriminate.
  - vm_compute. discriminate.
  - assert (p = 1000) as ->; [|exact Hrun]. cbn in Hp. destruct (decide (p = 1001)) as [->|]; [vm_compute in Hfree; discriminate|]. lia.
  - assert (Hc : unreserved ("n", "tcp", 1000) (p_db s4) = false) by (apply Hnone; cbn; lia). vm_compute in Hc. discriminate.
Defined.
End PortDemo.
