(* ===== verification/Webhooks.v ===== *)
(** * Webhooks (internal/commerce/events.go, webhook_settings.go)

    A user subscribes to events of his account.  [emitEventTx] (Wallet) writes
    an event and a delivery for each subscription in the transaction that
    causes it; a worker claims deliveries that are due, calls the destination
    and notes the outcome.  A claim counts as an attempt and takes the
    delivery away for five minutes, so a worker that dies costs an attempt and
    not the delivery.

    Whether a URL may be called, whether the owner may still see an event, and
    what a call answers are parameters. *)

From S2P Require Import Prelude Tx GoStrings Calendar Schema Wallet.
From stdpp Require Import base gmap strings list sorting relations.
From Stdlib Require Import Ascii String.
Local Open Scope string_scope.
Local Open Scope Z_scope.
Local Abbreviation length := List.length.

Definition webhookEvents : string :=
  "*,payment.received,wallet.recharge,wallet.purchase,wallet.purchase_refund,purchase.refunded,commission.refunded,wallet.addon,wallet.redeem,wallet.commission,wallet.commission_reversal,wallet.refund_reserve,wallet.refund_release,entitlement.purchased,entitlement.addon,entitlement.redeemed,refund.completed,refund.canceled,node.created,node.online,node.offline,node.recovered,entitlement.expiring,entitlement.expired,entitlement.low_quota,alerts.policy_updated".

(** The loop over the events, with those seen before. *)
Fixpoint check_events (seen events : list string) : bool :=
  match events with
  | [] => true
  | e :: events => negb (bool_decide (e ∈ seen)) && eventAllowed webhookEvents e && check_events (e :: seen) events
  end.
Definition validateWebhookEvents (events : list string) : res unit :=
  if (length events =? 0)%nat || (32 <? length events)%nat then Err (ErrMsg "invalid webhook events") else
  if negb (check_events [] events) then Err (ErrMsg "invalid webhook event") else
  if bool_decide ("*" ∈ events) && negb (length events =? 1)%nat then Err (ErrMsg "wildcard cannot be combined with named events") else Ok tt.

Definition tokenSecret : Tx DB string := a ← id; b ← id; mret (a ++ b).

Section Subscriptions.
Context (validNotificationURL : string -> string -> bool) (validWebhookURL : string -> bool).

Definition CreateNotification (user rawURL : string) (events : list string) (adminScope : bool) (format : string) : Tx DB string :=
  let format := if String.eqb format "" then "webhook" else format in
  guard_err (validNotificationURL rawURL format) (ErrMsg "invalid notification destination or format") ;;
  guard_err (negb ((2048 <? Z.of_nat (String.length rawURL)) || (negb (String.eqb format "telegram") && negb (validWebhookURL rawURL))
                   || (length events =? 0)%nat || (32 <? length events)%nat)) (ErrMsg "webhook requires HTTPS URL and events") ;;
  of_res (validateWebhookEvents events) ;;
  secret ← tokenSecret;
  sub ← id;
  walletTx user ;;
  mine ← SELECT_where Webhooks (fun _ w => String.eqb (wh_user w) user);
  guard_err (length mine <? 8)%nat (ErrMsg "webhook subscription limit reached") ;;
  INSERT Webhooks sub {| wh_user := user; wh_url := rawURL; wh_secret := secret; wh_events := String.concat "," events; wh_enabled := true;
                         wh_format := format; wh_muted_until := 0; wh_version := 1; wh_admin := adminScope |} ;;
  mret sub.
End Subscriptions.

Definition suppressed (r : delivery_row) : delivery_row :=
  {| dl_attempts := 12; dl_next := dl_next r; dl_error := "suppressed"; dl_delivered := dl_delivered r |}.
Definition revoked (r : delivery_row) : delivery_row :=
  {| dl_attempts := 12; dl_next := dl_next r; dl_error := "access_revoked"; dl_delivered := dl_delivered r |}.
Definition undelivered (r : delivery_row) : bool := negb (bool_decide (is_Some (dl_delivered r))).

(** A mute of at most 30 days; one that has passed is none. *)
Definition mute_of (until : option Z) : Tx DB Z :=
  match until with
  | None => mret 0
  | Some until =>
      now ← Now;
      if until <=? now then mret 0 else
      now ← Now;
      guard_err (until <=? now + 30 * day) (ErrMsg "mute exceeds 30 days") ;;
      mret (UnixMilli until)
  end.
Definition UpdateWebhook (user sub : string) (events : list string) (enabled : bool) (mutedUntil : option Z) (version : Z) : Tx DB unit :=
  of_res (validateWebhookEvents events) ;;
  muted ← mute_of mutedUntil;
  row ← SELECT Webhooks sub;
  w ← or_fail row ErrNoRows;
  guard_err (String.eqb (wh_user w) user) ErrNoRows ;;
  guard_err (wh_version w =? version) ErrConflict ;;
  UPSERT Webhooks sub {| wh_user := wh_user w; wh_url := wh_url w; wh_secret := wh_secret w; wh_events := String.concat "," events; wh_enabled := enabled;
                         wh_format := wh_format w; wh_muted_until := muted; wh_version := wh_version w + 1; wh_admin := wh_admin w |} ;;
  kinds ← gets (t_get Events);
  let unwanted event := match kinds !! event with Some e => negb (bool_decide (ev_kind e ∈ events)) | None => false end in
  if enabled && (muted =? 0) && bool_decide (events = ["*"]) then mret tt else
  UPDATE_all Deliveries (fun k r => String.eqb k.2 sub && undelivered r && (dl_attempts r <? 12) && (negb (enabled && (muted =? 0)) || unwanted k.1)) suppressed.

Definition DeleteWebhook (user sub : string) : Tx DB unit :=
  row ← SELECT Webhooks sub;
  guard_err (match row with Some w => String.eqb (wh_user w) user | None => false end) ErrNoRows ;;
  DELETE Webhooks sub ;;
  modify (t_set Deliveries (filter (fun kr : string * string * delivery_row => kr.1.2 <> sub))).

(** ** Delivery *)

(** What the worker has read of a delivery that was due. *)
Record delivery := { y_event : string; y_sub : string; y_attempts : Z; y_row : event_row }.

Definition delivery_order (x y : string * string * delivery_row) : Prop :=
  dl_next x.2 < dl_next y.2 \/ (dl_next x.2 = dl_next y.2 /\ Is_true (String.leb x.1.1 y.1.1)).
#[export] Instance delivery_order_dec x y : Decision (delivery_order x y).
Proof. unfold delivery_order. apply _. Defined.
Definition awake (now : Z) (w : webhook_row) : bool := wh_enabled w && (wh_muted_until w <=? UnixMilli now).
Definition is_due (now : Z) (d : DB) (key : string * string) (r : delivery_row) : bool :=
  match t_get Events d !! key.1, t_get Webhooks d !! key.2 with
  | Some _, Some w => awake now w && undelivered r && (dl_next r <=? UnixMilli now) && (dl_attempts r <? 12)
  | _, _ => false
  end.
Definition due (now : Z) (limit : nat) (d : DB) : list delivery :=
  omap (fun kr : string * string * delivery_row =>
          (fun e => {| y_event := kr.1.1; y_sub := kr.1.2; y_attempts := dl_attempts kr.2; y_row := e |}) <$> t_get Events d !! kr.1.1)
    (take limit (merge_sort delivery_order (rows_where Deliveries (is_due now d) d))).

Section Delivery.
Context (EventVisible : string -> event_row -> bool -> DB -> res bool).

(** The transaction before a call: is the delivery still wanted, and is this
    worker the one to make the attempt? *)
Definition claim_delivery (y : delivery) : Tx DB bool :=
  now ← Now;
  row ← SELECT Webhooks (y_sub y);
  match row with
  | None => mret false
  | Some w =>
      if negb (awake now w) then mret false else
      account ← savepoint (CheckAccount (wh_user w));
      match account with
      | Err ErrAccountDisabled => mret false
      | Err e => fail e
      | Ok _ =>
          allowed ← gets (EventVisible (wh_user w) (y_row y) (wh_admin w));
          allowed ← of_res allowed;
          if negb allowed then UPDATE Deliveries (y_event y, y_sub y) undelivered revoked ;; mret false else
          later ← Now;
          now ← Now;
          n ← UPDATE Deliveries (y_event y, y_sub y)
                (fun r => undelivered r && (dl_next r <=? UnixMilli now) && (dl_attempts r =? y_attempts y))
                (fun r => {| dl_attempts := dl_attempts r + 1; dl_next := UnixMilli (later + 5 * minute); dl_error := dl_error r; dl_delivered := dl_delivered r |});
          mret (n =? 1)
      end
  end.

(** [for n := 1; n < attempts && delay < time.Hour; n++ { delay *= 2 }] *)
Fixpoint double_delay (fuel : nat) (n attempts delay : Z) : Z :=
  match fuel with
  | O => delay
  | S fuel => if (n <? attempts) && (delay <? hour) then double_delay fuel (n + 1) attempts (2 * delay) else delay
  end.
Definition backoff (attempts : Z) : Z :=
  let attempts := Z.min attempts 31 in Z.min (double_delay 31 1 attempts (30 * second)) hour.

(** The transaction after the call of an attempt, which succeeded or not. *)
Definition standing (attempts : Z) (r : delivery_row) : bool :=
  undelivered r && (dl_attempts r =? attempts) && negb (String.eqb (dl_error r) "suppressed") && negb (String.eqb (dl_error r) "access_revoked").
Definition report (event sub : string) (attempts : Z) (ok : bool) : Tx DB unit :=
  now ← Now;
  (if ok then UPDATE Deliveries (event, sub) (standing attempts)
                (fun r => {| dl_attempts := dl_attempts r; dl_next := dl_next r; dl_error := ""; dl_delivered := Some (stamp now) |})
   else UPDATE Deliveries (event, sub) (standing attempts)
                (fun r => {| dl_attempts := Z.min attempts 31; dl_next := UnixMilli (now + backoff attempts); dl_error := "delivery_failed"; dl_delivered := dl_delivered r |})) ;;
  mret tt.

(** [PruneEvents]: events of more than 30 days, and their deliveries. *)
Definition old_events (now : Z) (d : DB) : list string :=
  (take 100 (order_by (fun ke : string * event_row => (stamp (ev_created ke.2), ke.1))
     (rows_where Events (fun _ e => String.ltb (stamp (ev_created e)) (stamp (now - 30 * day))) d))).*1.
Definition prune_event (event : string) (d : DB) : DB :=
  t_set Events (delete event) (t_set Deliveries (filter (fun kr : string * string * delivery_row => kr.1.1 <> event)) d).
Definition prune_events (ids : list string) : Tx DB unit := for_each ids (fun event => modify (prune_event event)).

(** What happens to a delivery of the round: the environments of its two
    transactions, and the answer to its call; [None] when there is no body to
    send. *)
Record happening := { hp_claim : Env; hp_answer : option bool; hp_report : Env }.
Fixpoint deliver_all (list : list delivery) (oracle : nat -> happening) (count : nat) (d : DB) : nat * option error * DB :=
  match list with
  | [] => (count, None, d)
  | y :: list =>
      let h := oracle (length list) in
      match Write (claim_delivery y) (hp_claim h) d with
      | (Err e, d) => (count, Some e, d)
      | (Ok false, d) => deliver_all list oracle count d
      | (Ok true, d) =>
          match hp_answer h with
          | None => (count, Some (ErrMsg "unknown notification format"), d)
          | Some ok =>
              match Write (report (y_event y) (y_sub y) (y_attempts y + 1) ok) (hp_report h) d with
              | (Err e, d) => (count, Some e, d)
              | (Ok _, d) => deliver_all list oracle (S count) d
              end
          end
      end
  end.
Definition RunWebhookDelivery (limit : Z) (now : Z) (oracle : nat -> happening) (d : DB) : nat * option error * DB :=
  let limit := if (limit <=? 0) || (100 <? limit) then 20 else limit in
  deliver_all (due now (Z.to_nat limit) d) oracle 0 d.
End Delivery.
