(* ===== verification/WebhookGuarantees.v ===== *)
(** * What webhooks guarantee

    With any number of workers that are interrupted anywhere: no attempt of a
    delivery is made twice and none has more than twelve; nothing that was
    delivered, suppressed or removed is called again; and an undisturbed round
    delivers what is due. *)

From S2P Require Import Prelude Tx GoStrings Calendar Schema Wallet Webhooks.
From stdpp Require Import base gmap strings list sorting relations.
From Stdlib Require Import Ascii String.
Local Open Scope string_scope.
Local Open Scope Z_scope.
Local Abbreviation length := List.length.

(** A call that was begun: the event, the subscription, which attempt. *)
Abbreviation call := (string * string * Z)%type.

Section Guarantees.
Context (EventVisible : string -> event_row -> bool -> DB -> res bool).

(** The database, what workers have read, the calls under way, and the
    identifiers events ever had. *)
Record hsys := { h_db : DB; h_due : list delivery; h_calls : list call; h_seen : list string }.
Definition with_hdb (d : DB) (s : hsys) : hsys := {| h_db := d; h_due := h_due s; h_calls := h_calls s; h_seen := h_seen s |}.

Inductive hstep (s : hsys) : list call -> hsys -> Prop :=
  | hs_select now limit : hstep s [] {| h_db := h_db s; h_due := due now limit (h_db s) ++ h_due s; h_calls := h_calls s; h_seen := h_seen s |}
  | hs_claim env y d' : y ∈ h_due s -> Write (claim_delivery EventVisible y) env (h_db s) = (Ok true, d') ->
      hstep s [(y_event y, y_sub y, y_attempts y + 1)]
        {| h_db := d'; h_due := h_due s; h_calls := (y_event y, y_sub y, y_attempts y + 1) :: h_calls s; h_seen := h_seen s |}
  | hs_skip env y r d' : y ∈ h_due s -> Write (claim_delivery EventVisible y) env (h_db s) = (r, d') -> r <> Ok true -> hstep s [] (with_hdb d' s)
  | hs_report env n c ok : h_calls s !! n = Some c ->
      hstep s [] {| h_db := (Write (report c.1.1 c.1.2 c.2 ok) env (h_db s)).2; h_due := h_due s; h_calls := delete n (h_calls s); h_seen := h_seen s |}
  | hs_die n : hstep s [] {| h_db := h_db s; h_due := h_due s; h_calls := delete n (h_calls s); h_seen := h_seen s |}
  | hs_update env user sub events enabled muted version : hstep s [] (with_hdb (Write (UpdateWebhook user sub events enabled muted version) env (h_db s)).2 s)
  | hs_delete env user sub : hstep s [] (with_hdb (Write (DeleteWebhook user sub) env (h_db s)).2 s)
  | hs_prune env ids : hstep s [] (with_hdb (Write (prune_events ids) env (h_db s)).2 s)
  (* an event, under an identifier that was not drawn before *)
  | hs_emit env user kind data : env_rand env 0 ∉ h_seen s ->
      hstep s [] {| h_db := (Write (emitEventTx user kind data) env (h_db s)).2; h_due := h_due s; h_calls := h_calls s; h_seen := env_rand env 0 :: h_seen s |}
  (* the rest of the panel *)
  | hs_other d' : t_get Deliveries d' = t_get Deliveries (h_db s) -> hstep s [] (with_hdb d' s).
Inductive hruns (s : hsys) : list call -> hsys -> Prop :=
  | hr_refl : hruns s [] s
  | hr_step calls s1 calls1 s2 : hruns s calls s1 -> hstep s1 calls1 s2 -> hruns s (calls ++ calls1) s2.
Definition no_deliveries (d : DB) : hsys := {| h_db := t_set Deliveries (fun _ => ∅) d; h_due := []; h_calls := []; h_seen := [] |}.

(** ** How deliveries change *)

Definition closed (r : delivery_row) : Prop := undelivered r = false \/ dl_attempts r = 12.
(** A delivery that was suppressed or revoked. *)
Definition marked (r : delivery_row) : Prop := dl_error r = "suppressed" \/ dl_error r = "access_revoked".
Record dmoves (r r' : delivery_row) : Prop := {
  dm_attempts : dl_attempts r <= 12 -> dl_attempts r <= dl_attempts r' <= 12;
  dm_closed : dl_attempts r <= 12 -> closed r -> closed r';
  dm_delivered t : dl_delivered r = Some t -> dl_delivered r' = Some t;
  dm_marked : (marked r -> dl_attempts r = 12) -> marked r' -> dl_attempts r' = 12
}.
Lemma dmoves_refl r : dmoves r r.
Proof. split; auto. lia. Qed.
(** The rows after a step: those of before, and new ones of events in [new]. *)
Definition devolves (new : list string) (d d' : DB) : Prop := forall event sub r', t_get Deliveries d' !! (event, sub) = Some r' ->
  (exists r, t_get Deliveries d !! (event, sub) = Some r /\ dmoves r r') \/
  (t_get Deliveries d !! (event, sub) = None /\ event ∈ new /\ dl_attempts r' = 0 /\ dl_error r' = "").
Lemma devolves_same new d d' : t_get Deliveries d' = t_get Deliveries d -> devolves new d d'.
Proof. intros E event sub r'. rewrite E. intros Hr. left. eauto using dmoves_refl. Qed.
Lemma devolves_update new d key r r' : t_get Deliveries d !! key = Some r -> dmoves r r' -> devolves new d (t_set Deliveries (<[key := r']>) d).
Proof.
  intros Hk Hm event sub r2. cbn. intros [[E ->]|[_ Hr]]%lookup_insert_Some; left; [subst key|]; eauto using dmoves_refl.
Qed.
Lemma devolves_filter new (d : DB) (P : string * string * delivery_row -> Prop) `{!forall x, Decision (P x)} (f : DB -> DB) :
  (forall d, t_get Deliveries (f d) = filter P (t_get Deliveries d)) -> devolves new d (f d).
Proof. intros Hf event sub r'. rewrite Hf. intros [Hr _]%map_lookup_filter_Some. left. eauto using dmoves_refl. Qed.
Lemma dmoves_final r error : undelivered r = true -> dmoves r {| dl_attempts := 12; dl_next := dl_next r; dl_error := error; dl_delivered := dl_delivered r |}.
Proof. intros Hu. split; cbn; [lia|by right|done|done]. Qed.

Lemma CheckAccount_same user env d t a d' t' : savepoint (CheckAccount user) env d t = (Ok (a, d'), t') -> d' = d.
Proof.
  unfold savepoint. destruct (CheckAccount user env d t) as [[[u d1]|e] t1] eqn:E; [|by intros [= _ <- _]]. intros [= <- <- <-]. unfold CheckAccount in E. tx_inv E. apply SELECT_Ok in Hm as [-> ->].
  destruct (t_get Users d !! user); [|done]. by apply guard_Ok in Hk as (_ & -> & _).
Qed.

(** A claim: it succeeds on a row it has read, or gives the delivery up, or
    does nothing. *)
Lemma claim_Ok y env d t b d' t' : claim_delivery EventVisible y env d t = (Ok (b, d'), t') ->
  (b = true /\ exists r next, t_get Deliveries d !! (y_event y, y_sub y) = Some r /\ undelivered r = true /\ dl_attempts r = y_attempts y /\
     d' = t_set Deliveries (<[(y_event y, y_sub y) := {| dl_attempts := dl_attempts r + 1; dl_next := next; dl_error := dl_error r; dl_delivered := dl_delivered r |}]>) d) \/
  (b = false /\ (d' = d \/ exists r, t_get Deliveries d !! (y_event y, y_sub y) = Some r /\ undelivered r = true /\ d' = t_set Deliveries (<[(y_event y, y_sub y) := revoked r]>) d)).
Proof.
  unfold claim_delivery. intros Hrun. tx_inv Hrun. apply SELECT_Ok in Hm as [-> ->]. destruct (t_get Webhooks d !! y_sub y) as [w|]; [|tx_inv Hk0; auto].
  destruct (negb (awake _ w)); [tx_inv Hk0; auto|]. apply tx_bind_Ok in Hk0 as (account & d1 & t1 & Hacc & Hk). apply CheckAccount_same in Hacc as ->.
  destruct account as [u|[]]; try (by tx_inv Hk); [|tx_inv Hk; auto].
  apply tx_bind_Ok in Hk as (v & d1 & t2 & (-> & -> & ->)%gets_Ok & Hk). apply tx_bind_Ok in Hk as (allowed & d1 & t3 & (_ & -> & ->)%of_res_Ok & Hk). destruct allowed; cbn [negb] in Hk.
  - apply tx_bind_Ok in Hk as (later & d1 & t4 & ->%Now_Ok & Hk). apply tx_bind_Ok in Hk as (now & d1 & t5 & ->%Now_Ok & Hk). apply tx_bind_Ok in Hk as (n & d1 & t6 & Hu & (-> & -> & _)%mret_Ok).
    apply UPDATE_Ok in Hu as [(r & Hr & Hp & -> & ->)|(_ & -> & ->)]; [|by auto]. left. split; [done|]. bool_to_prop. eexists r, _. split_and!; [done|tauto|lia|reflexivity].
  - apply tx_bind_Ok in Hk as (n & d1 & t6 & Hu & (-> & -> & _)%mret_Ok). right. split; [done|]. apply UPDATE_Ok in Hu as [(r & Hr & Hp & _ & ->)|(_ & _ & ->)]; eauto.
Qed.

Lemma report_evolves new event sub n ok env d : devolves new d (Write (report event sub n ok) env d).2.
Proof.
  destruct (Write _ _ _) as [[u|e] d'] eqn:E; [|apply Write_Err in E as ->; by apply devolves_same]. apply Write_Ok in E as [t E]. cbn [snd]. unfold report in E. tx_inv E.
  assert (Hup : forall f, (forall r, standing n r = true -> dmoves r (f r)) -> forall a m1 m2 d2, UPDATE Deliveries (event, sub) (standing n) f env d m1 = (Ok (a, d2), m2) -> devolves new d d2).
  { intros f Hf a m1 m2 d2 Hrun. apply UPDATE_Ok in Hrun as [(r & Hr & Hp & _ & ->)|(_ & _ & ->)]; [eapply devolves_update; [exact Hr|auto]|by apply devolves_same]. }
  destruct ok; (eapply Hup; [|exact Hm]); intros r Hr; unfold standing in Hr; apply andb_prop in Hr as [[[Hu Hn%Z.eqb_eq]%andb_prop _]%andb_prop _]; split; cbn; try lia.
  - intros _ _. by left.
  - intros t1 E1. unfold undelivered in Hu. rewrite E1 in Hu. apply negb_true_iff in Hu. by rewrite bool_decide_eq_true_2 in Hu by eauto.
  - by intros _ [|].
  - intros _ [Hc|Hc]; [congruence|]. right. cbn. lia.
  - done.
  - by intros _ [|].
Qed.

Lemma update_evolves new user sub events enabled muted version env d : devolves new d (Write (UpdateWebhook user sub events enabled muted version) env d).2.
Proof.
  destruct (Write _ _ _) as [[u|e] d'] eqn:E; [|apply Write_Err in E as ->; by apply devolves_same]. apply Write_Ok in E as [t E]. cbn [snd]. unfold UpdateWebhook in E.
  assert (Hmute : forall x t1 m d1 t2, mute_of x env d t1 = (Ok (m, d1), t2) -> d1 = d).
  { intros x t1 m d1 t2. unfold mute_of. destruct x as [until|]; intros Hm; tx_inv Hm; [|done]. destruct (until <=? _); tx_inv Hk; done. }
  tx_inv E. apply Hmute in Hm as ->. apply SELECT_Ok in Hm0 as [_ ->]. apply UPSERT_Ok in Hm1 as ->. destruct (enabled && _ && _); [tx_inv Hk0; by apply devolves_same|].
  apply UPDATE_all_Ok in Hk0 as ->. intros event sub' r'. cbn. rewrite map_lookup_imap. destruct (deliveries d !! (event, sub')) as [r|] eqn:Er; [|done]. cbn. intros [= <-]. left. exists r. split; [done|].
  destruct (String.eqb sub' sub && _ && _ && _) eqn:Ec; [|apply dmoves_refl]. bool_to_prop. apply dmoves_final. tauto.
Qed.
Lemma delete_evolves new user sub env d : devolves new d (Write (DeleteWebhook user sub) env d).2.
Proof.
  destruct (Write _ _ _) as [[u|e] d'] eqn:E; [|apply Write_Err in E as ->; by apply devolves_same]. apply Write_Ok in E as [t E]. cbn [snd]. unfold DeleteWebhook in E. tx_inv E.
  apply SELECT_Ok in Hm as [-> ->]. apply DELETE_Ok in Hm0 as ->. by eapply (devolves_filter new d _ (fun d => t_set Deliveries _ (t_set Webhooks (delete sub) d))).
Qed.
Lemma prune_events_evolves new ids env d : devolves new d (Write (prune_events ids) env d).2.
Proof.
  destruct (Write _ _ _) as [[u|e] d'] eqn:E; [|apply Write_Err in E as ->; by apply devolves_same]. apply Write_Ok in E as [t E]. cbn [snd].
  assert (Hsub : forall key r, t_get Deliveries d' !! key = Some r -> t_get Deliveries d !! key = Some r).
  { unfold prune_events in E. revert d t E. generalize 0%nat. induction ids as [|event ids IH]; intros n d t E key r; cbn [for_each] in E; tx_inv E; [done|].
    intros Hr. apply (IH _ _ _ Hk) in Hr. cbn in Hr. by apply map_lookup_filter_Some in Hr as [Hr _]. }
  intros event sub r' Hr%Hsub. left. eauto using dmoves_refl.
Qed.
Lemma emit_evolves user kind data env d : devolves [env_rand env 0] d (Write (emitEventTx user kind data) env d).2.
Proof.
  destruct (Write _ _ _) as [[u|e] d'] eqn:E; [|apply Write_Err in E as ->; by apply devolves_same]. apply Write_Ok in E as [t E]. cbn [snd]. unfold emitEventTx in E.
  destruct (_ || _); [tx_inv E; by apply devolves_same|]. apply tx_bind_Ok in E as (event & d1 & t1 & Hid & E). unfold id in Hid. injection Hid as <- <- <-. tx_inv E.
  apply INSERT_Ok in Hm as (_ & _ & ->). apply SELECT_where_Ok in Hm0 as [-> ->].
  assert (Hrun : forall subs d1 n a d2 t2, devolves [env_rand env 0] d d1 -> (forall key r, t_get Deliveries d !! key = Some r -> t_get Deliveries d1 !! key = Some r) ->
    for_each subs (deliver (env_rand env 0) kind) env d1 n = (Ok (a, d2), t2) -> devolves [env_rand env 0] d d2).
  { intros subs. induction subs as [|[sub w] subs IH]; intros d1 n a d2 t2 Hd Hold Hr; cbn [for_each] in Hr; [by tx_inv Hr|]. apply tx_bind_Ok in Hr as (b & d3 & t3 & Hone & Hr).
    unfold deliver in Hone. destruct (_ && _); [tx_inv Hone; by eapply IH|]. apply INSERT_ignore_Ok in Hone as [[_ ->]|[Hn ->]]; [by eapply IH|]. eapply IH; [| |exact Hr].
    - intros event sub' r'. cbn. intros [[[= <- <-] <-]|[_ Hr']]%lookup_insert_Some; [|by apply Hd]. right. split; [|split; [left|split; done]].
      destruct (t_get Deliveries d !! (env_rand env 0, sub)) as [r|] eqn:Er; [|done]. apply Hold in Er. cbn [fst] in *. congruence.
    - intros key r Hk. cbn. rewrite lookup_insert_ne; [by apply Hold|]. intros <-. apply Hold in Hk. cbn [fst] in *. congruence. }
  refine (Hrun _ _ _ _ _ _ _ _ Hk0); [by apply devolves_same|done].
Qed.

(** ** The invariant *)

Record hinv (calls : list call) (s : hsys) : Prop := {
  hi_nodup : NoDup calls;
  hi_calls event sub n : (event, sub, n) ∈ calls -> 1 <= n <= 12 /\ event ∈ h_seen s /\
    forall r, t_get Deliveries (h_db s) !! (event, sub) = Some r -> n <= dl_attempts r;
  hi_rows event sub r : t_get Deliveries (h_db s) !! (event, sub) = Some r -> 0 <= dl_attempts r <= 12 /\ event ∈ h_seen s /\ (marked r -> dl_attempts r = 12);
  hi_due y : y ∈ h_due s -> 0 <= y_attempts y < 12
}.

Lemma hstep_evolves calls s calls1 s' : hinv calls s -> hstep s calls1 s' -> exists new, devolves new (h_db s) (h_db s') /\
  (forall event, event ∈ new -> event ∉ h_seen s) /\ (forall event, event ∈ h_seen s' <-> event ∈ new \/ event ∈ h_seen s).
Proof.
  intros Hi Hstep. assert (Hnone : forall d', devolves [] (h_db s) d' -> exists new, devolves new (h_db s) d' /\ (forall event, event ∈ new -> event ∉ h_seen s) /\ (forall event, event ∈ h_seen s <-> event ∈ new \/ event ∈ h_seen s)).
  { intros d' Hd. exists []. split; [done|]. set_solver. }
  destruct Hstep as [now limit|env y d' Hy Hw|env y r d' Hy Hw _|env n c ok Hc|n|env user sub events enabled muted version|env user sub|env ids|env user kind data Hn|d' Hd]; cbn [h_db h_seen with_hdb].
  - by apply Hnone, devolves_same.
  - apply Write_Ok in Hw as [t [(_ & r & next & Hr & Hu & Ha & ->)|[Hb _]]%claim_Ok]; [|done]. apply Hnone. eapply devolves_update; [exact Hr|].
    destruct (hi_due _ _ Hi _ Hy). split; cbn; [lia| |done|intros Hk Hmk; specialize (Hk Hmk); lia]. intros _ [Hc|Hc]; [congruence|lia].
  - apply Hnone. destruct r as [b|e]; [|apply Write_Err in Hw as ->; by apply devolves_same].
    apply Write_Ok in Hw as [t [(_ & r & next & Hr & Hu & Ha & ->)|(_ & [->|(r & Hr & Hu & ->)])]%claim_Ok]; [|by apply devolves_same|].
    + eapply devolves_update; [exact Hr|]. destruct (hi_due _ _ Hi _ Hy). split; cbn; [lia| |done|intros Hk Hmk; specialize (Hk Hmk); lia]. intros _ [Hc|Hc]; [congruence|lia].
    + eapply devolves_update; [exact Hr|by apply dmoves_final].
  - apply Hnone, report_evolves.
  - by apply Hnone, devolves_same.
  - apply Hnone, update_evolves.
  - apply Hnone, delete_evolves.
  - apply Hnone, prune_events_evolves.
  - exists [env_rand env 0]. split; [apply emit_evolves|]. set_solver.
  - by apply Hnone, devolves_same.
Qed.

(** A call is begun on a delivery that is open, with the next number. *)
Lemma hstep_call s calls1 s' event sub n : hstep s calls1 s' -> (event, sub, n) ∈ calls1 -> calls1 = [(event, sub, n)] /\
  exists y r r', y ∈ h_due s /\ y_attempts y + 1 = n /\ t_get Deliveries (h_db s) !! (event, sub) = Some r /\ undelivered r = true /\ dl_attempts r + 1 = n /\
    t_get Deliveries (h_db s') !! (event, sub) = Some r' /\ dl_attempts r' = n.
Proof.
  destruct 1 as [now limit|env y d' Hy Hw|env y r d' Hy Hw _|env m c ok Hc|m|env user sub' events enabled muted version|env user sub'|env ids|env user kind data Hn|d' Hd]; intros Hin;
    try (by apply not_elem_of_nil in Hin). apply list_elem_of_singleton in Hin as [= -> -> ->]. split; [done|].
  apply Write_Ok in Hw as [t [(_ & r & next & Hr & Hu & Ha & ->)|[Hb _]]%claim_Ok]; [|done]. exists y, r. eexists. split_and!; [done|done|done|done|lia|cbn; apply lookup_insert_eq|cbn; lia].
Qed.

Lemma hstep_due s calls1 s' y : hstep s calls1 s' -> y ∈ h_due s' -> y ∈ h_due s \/ exists event sub r, t_get Deliveries (h_db s) !! (event, sub) = Some r /\ y_attempts y = dl_attempts r /\ dl_attempts r < 12.
Proof.
  destruct 1 as [now limit| | | | | | | | |]; cbn [h_due with_hdb]; auto. intros [Hin|Hin]%elem_of_app; [right|by left].
  unfold due in Hin. apply list_elem_of_omap in Hin as ([[event sub] r] & Hin & Hy). apply (subseteq_take limit) in Hin. rewrite merge_sort_Permutation in Hin.
  unfold rows_where in Hin. apply list_elem_of_filter in Hin as [Hp Hin]. apply elem_of_map_to_list in Hin. apply fmap_Some in Hy as (e & _ & ->). exists event, sub, r. cbn in *. split_and!; [done|done|].
  unfold is_due in Hp. cbn in Hp. destruct (events (h_db s) !! event), (webhooks (h_db s) !! sub); try done. apply Is_true_true in Hp. bool_to_prop. lia.
Qed.

Lemma hinv_step calls s calls1 s' : hinv calls s -> hstep s calls1 s' -> hinv (calls ++ calls1) s'.
Proof.
  intros Hi Hstep. destruct (hstep_evolves _ _ _ _ Hi Hstep) as (new & He & Hnew & Hseen).
  assert (Hrows : forall event sub r, t_get Deliveries (h_db s') !! (event, sub) = Some r -> 0 <= dl_attempts r <= 12 /\ event ∈ h_seen s' /\ (marked r -> dl_attempts r = 12)).
  { intros event sub r' Hr'. rewrite Hseen. destruct (He _ _ _ Hr') as [(r & Hr & Hm)|(_ & Hin & -> & Herr)]; [|split_and!; [lia|lia|by left|unfold marked; rewrite Herr; by intros [|]]]. destruct (hi_rows _ _ Hi _ _ _ Hr) as (Hb & ? & Hk).
    destruct (dm_attempts _ _ Hm); [lia|]. split_and!; [lia|lia|by right|by apply (dm_marked _ _ Hm)]. }
  assert (Hold : forall event sub n, (event, sub, n) ∈ calls -> 1 <= n <= 12 /\ event ∈ h_seen s' /\ forall r, t_get Deliveries (h_db s') !! (event, sub) = Some r -> n <= dl_attempts r).
  { intros event sub n Hin. destruct (hi_calls _ _ Hi _ _ _ Hin) as (Hn & Hs & Hr). split; [done|]. split; [rewrite Hseen; by right|]. intros r' Hr'.
    destruct (He _ _ _ Hr') as [(r & Hr0 & Hm)|(_ & Hin' & _)]; [|by destruct (Hnew event)]. specialize (Hr _ Hr0). destruct (hi_rows _ _ Hi _ _ _ Hr0). destruct (dm_attempts _ _ Hm); lia. }
  split; [| |done|].
  - apply NoDup_app. split_and!; [apply Hi| |].
    + intros [[event sub] n] Hin Hin1. destruct (hstep_call _ _ _ _ _ _ Hstep Hin1) as (_ & y & r & r' & _ & _ & Hr & _ & Ha & _). destruct (hi_calls _ _ Hi _ _ _ Hin) as (_ & _ & Hle). specialize (Hle _ Hr). lia.
    + destruct calls1 as [|[[event sub] n] l]; [constructor|]. destruct (hstep_call _ _ _ event sub n Hstep ltac:(left)) as [-> _]. apply NoDup_singleton.
  - intros event sub n [Hin|Hin]%elem_of_app; [auto|]. destruct (hstep_call _ _ _ _ _ _ Hstep Hin) as (_ & y & r & r' & Hy & Hn & Hr & _ & Ha & Hr' & Ha').
    destruct (hi_due _ _ Hi _ Hy), (Hrows _ _ _ Hr'). split; [lia|]. split; [tauto|]. intros r2 Hr2. assert (r2 = r') as -> by congruence. lia.
  - intros y Hy. destruct (hstep_due _ _ _ _ Hstep Hy) as [?|(event & sub & r & Hr & -> & Hlt)]; [by apply (hi_due _ _ Hi)|]. destruct (hi_rows _ _ Hi _ _ _ Hr). lia.
Qed.
Lemma hinv_new d : hinv [] (no_deliveries d).
Proof. split; cbn; try (intros; set_solver). constructor. Qed.
Lemma hruns_inv s calls0 calls s' : hinv calls0 s -> hruns s calls s' -> hinv (calls0 ++ calls) s'.
Proof. intros Hi. induction 1 as [|calls s1 calls1 s2 _ IH Hstep]; [by rewrite app_nil_r|]. rewrite app_assoc. by eapply hinv_step. Qed.

(** ** What is over stays over *)

(** A delivery of an event that is gone, delivered, or given up. *)
Definition ended (event sub : string) (d : DB) : Prop := forall r, t_get Deliveries d !! (event, sub) = Some r -> closed r.

Lemma ended_step calls s calls1 s' event sub : hinv calls s -> hstep s calls1 s' -> event ∈ h_seen s -> ended event sub (h_db s) ->
  ended event sub (h_db s') /\ forall n, (event, sub, n) ∉ calls1.
Proof.
  intros Hi Hstep Hseen Hend. split.
  - destruct (hstep_evolves _ _ _ _ Hi Hstep) as (new & He & Hnew & _). intros r' Hr'. destruct (He _ _ _ Hr') as [(r & Hr & Hm)|(_ & Hin & _)]; [|by destruct (Hnew event)].
    eapply dm_closed; [exact Hm| |by apply Hend]. apply (hi_rows _ _ Hi) in Hr. lia.
  - intros n Hin. destruct (hstep_call _ _ _ _ _ _ Hstep Hin) as (_ & y & r & r' & Hy & Hn & Hr & Hu & Ha & _). apply (hi_due _ _ Hi) in Hy. destruct (Hend _ Hr); [congruence|lia].
Qed.
Lemma seen_step calls s calls1 s' event : hinv calls s -> hstep s calls1 s' -> event ∈ h_seen s -> event ∈ h_seen s'.
Proof. intros Hi Hstep Hin. destruct (hstep_evolves _ _ _ _ Hi Hstep) as (new & _ & _ & ->). by right. Qed.
Lemma ended_runs calls0 s calls s' event sub : hinv calls0 s -> hruns s calls s' -> event ∈ h_seen s -> ended event sub (h_db s) ->
  event ∈ h_seen s' /\ ended event sub (h_db s') /\ forall n, (event, sub, n) ∉ calls.
Proof.
  intros Hi Hruns Hseen Hend. induction Hruns as [|calls s1 calls1 s2 Hruns (Hs & He & Hc) Hstep]; [split_and!; [done|done|]; intros n; apply not_elem_of_nil|].
  pose proof (hruns_inv _ _ _ _ Hi Hruns) as Hi1. destruct (ended_step _ _ _ _ _ _ Hi1 Hstep Hs He) as [He2 Hc2]. split_and!; [by eapply seen_step|done|].
  intros n [?|?]%elem_of_app; [by eapply Hc|by eapply Hc2].
Qed.

(** What ends a delivery: its subscription is removed, or saved disabled or
    muted, or the success of its call is reported while the claim stands. *)
Inductive hends (event sub : string) (s : hsys) : hsys -> Prop :=
  | ends_delete env user d' : Write (DeleteWebhook user sub) env (h_db s) = (Ok tt, d') -> hends event sub s (with_hdb d' s)
  | ends_update env user events enabled muted version w d' : Write (UpdateWebhook user sub events enabled muted version) env (h_db s) = (Ok tt, d') ->
      t_get Webhooks d' !! sub = Some w -> wh_enabled w = false \/ wh_muted_until w <> 0 -> hends event sub s (with_hdb d' s)
  | ends_report env k n r d' : h_calls s !! k = Some (event, sub, n) -> t_get Deliveries (h_db s) !! (event, sub) = Some r -> standing n r = true ->
      Write (report event sub n true) env (h_db s) = (Ok tt, d') ->
      hends event sub s {| h_db := d'; h_due := h_due s; h_calls := delete k (h_calls s); h_seen := h_seen s |}.

Lemma hends_step event sub s s' : hends event sub s s' -> hstep s [] s'.
Proof.
  destruct 1 as [env user d' Hw|env user events enabled muted version w d' Hw _ _|env k n r d' Hk _ _ Hw].
  - replace d' with (Write (DeleteWebhook user sub) env (h_db s)).2 by (by rewrite Hw). constructor.
  - replace d' with (Write (UpdateWebhook user sub events enabled muted version) env (h_db s)).2 by (by rewrite Hw). constructor.
  - replace d' with (Write (report event sub n true) env (h_db s)).2 by (by rewrite Hw). exact (hs_report s env k _ true Hk).
Qed.
Lemma update_ends user sub events enabled muted version env d d' w : Write (UpdateWebhook user sub events enabled muted version) env d = (Ok tt, d') ->
  t_get Webhooks d' !! sub = Some w -> wh_enabled w = false \/ wh_muted_until w <> 0 ->
  (forall event r, t_get Deliveries d !! (event, sub) = Some r -> dl_attempts r <= 12) -> forall event, ended event sub d'.
Proof.
  intros E Hw Hoff Hb event r'. apply Write_Ok in E as [t E]. unfold UpdateWebhook in E. apply tx_bind_Ok in E as (u & d1 & t1 & (_ & -> & ->)%of_res_Ok & E).
  apply tx_bind_Ok in E as (m & d1 & t2 & Hm & E). tx_inv E. apply SELECT_Ok in Hm0 as [_ ->]. apply UPSERT_Ok in Hm1 as ->.
  assert (d1 = d) as -> by (revert Hm; unfold mute_of; destruct muted as [until|]; intros Hm; tx_inv Hm; [destruct (until <=? _); tx_inv Hk|]; done).
  assert (Hon : enabled && (m =? 0) = false).
  { assert (wh_enabled w = enabled /\ wh_muted_until w = m) as [<- <-].
    { destruct (enabled && _ && _); [tx_inv Hk0|apply UPDATE_all_Ok in Hk0 as ->]; cbn in Hw; rewrite lookup_insert_eq in Hw; injection Hw as <-; done. }
    destruct Hoff as [->|Hne]; [done|]. destruct (wh_enabled w); [|done]. cbn. lia. }
  rewrite Hon in Hk0. cbn [andb] in Hk0. apply UPDATE_all_Ok in Hk0 as ->. cbn. rewrite map_lookup_imap. destruct (deliveries d !! (event, sub)) as [r|] eqn:Er; [|done].
  cbn. intros [= <-]. rewrite String.eqb_refl, !andb_true_r. cbn [andb]. destruct (undelivered r) eqn:Hu; [|by left]. cbn [andb]. specialize (Hb _ _ Er).
  destruct (Z.ltb_spec (dl_attempts r) 12); right; cbn; [done|lia].
Qed.
Lemma hends_ended calls event sub s s' : hinv calls s -> hends event sub s s' -> ended event sub (h_db s').
Proof.
  intros Hi Hends. destruct Hends as [env user d' Hw|env user events enabled muted version w d' Hw Hr Hoff|env k n r d' Hk Hr Hst Hw]; cbn [h_db with_hdb].
  - apply Write_Ok in Hw as [t E]. unfold DeleteWebhook in E. tx_inv E. intros r. cbn. by intros [_ []]%map_lookup_filter_Some.
  - eapply update_ends; eauto. intros e r Hrow. apply (hi_rows _ _ Hi) in Hrow. lia.
  - apply Write_Ok in Hw as [t E]. unfold report in E. tx_inv E. apply UPDATE_Ok in Hm as [(r0 & _ & _ & _ & ->)|(Hno & _)]; [|rewrite (Hno _ Hr) in Hst; done].
    intros r1. cbn. rewrite lookup_insert_eq. intros [= <-]. by left.
Qed.

(** C29: With any number of workers that are interrupted anywhere, no attempt
    of a delivery is begun twice: the calls of an event to a subscription have
    different numbers from 1 to 12, so there are at most twelve of them. *)
Theorem webhook_attempts d calls s : hruns (no_deliveries d) calls s ->
  NoDup calls /\ (forall event sub n, (event, sub, n) ∈ calls -> 1 <= n <= 12) /\
  forall event sub, (length (filter (fun c : call => c.1 = (event, sub)) calls) <= 12)%nat.
Proof.
  intros Hruns. pose proof (hruns_inv _ _ _ _ (hinv_new d) Hruns) as [Hnd Hc _ _]. cbn [app] in *. assert (Hb : forall event sub n, (event, sub, n) ∈ calls -> 1 <= n <= 12) by (intros event sub n Hin; by apply (Hc event sub n)).
  split_and!; [done|done|]. intros event sub. rewrite <- (length_seqZ 1 12 : length (seqZ 1 12) = 12%nat). rewrite <- (length_fmap (fun n => (event, sub, n)) (seqZ 1 12)).
  apply submseteq_length, NoDup_submseteq; [by apply NoDup_filter|]. intros [[e u] n] [[= -> ->] Hin]%list_elem_of_filter. apply list_elem_of_fmap. exists n. split; [done|].
  apply elem_of_seqZ. apply Hb in Hin. lia.
Qed.

(** C30: A delivery that ended is never called again, by whatever workers read
    it before.  It ends when its subscription is removed, or saved disabled or
    muted, even when it is enabled again later, and when a worker has reported
    the success of its call while its claim stood, that is, before the next
    claim and before a change of the subscription suppressed it.  A successful
    call whose report is lost or comes too late does not end the delivery: it
    is called again, as in [WebhookDemo.unreported_repeated]. *)
Theorem webhook_over d calls s event sub s1 later s2 : hruns (no_deliveries d) calls s -> event ∈ h_seen s -> hends event sub s s1 -> hruns s1 later s2 ->
  ended event sub (h_db s2) /\ forall n, (event, sub, n) ∉ later.
Proof.
  intros Hruns Hseen Hends Hlater. pose proof (hruns_inv _ _ _ _ (hinv_new d) Hruns) as Hi. pose proof (hends_step _ _ _ _ Hends) as Hstep.
  destruct (ended_runs _ _ _ _ event sub (hinv_step _ _ _ _ Hi Hstep) Hlater) as (_ & He & Hc); [by eapply seen_step|by eapply hends_ended|done].
Qed.

(** ** An undisturbed round *)

Definition on (m : gmap (string * string) delivery_row) (d : DB) : DB := t_set Deliveries (fun _ => m) d.
Lemma on_self d : on (t_get Deliveries d) d = d.
Proof. by destruct d. Qed.

(** The owner of the subscription has an account in good standing and may see
    the event. *)
Definition wanted (d : DB) (y : delivery) : Prop := forall w, t_get Webhooks d !! y_sub y = Some w ->
  (exists u, t_get Users d !! wh_user w = Some u /\ u_disabled u = false) /\ forall m, EventVisible (wh_user w) (y_row y) (wh_admin w) (on m d) = Ok true.
(** What [due] has read of [y] is so in the deliveries [m]. *)
Definition open_in (now : Z) (d : DB) (m : gmap (string * string) delivery_row) (y : delivery) : Prop :=
  (exists w, t_get Webhooks d !! y_sub y = Some w /\ awake now w = true) /\
  exists r, m !! (y_event y, y_sub y) = Some r /\ undelivered r = true /\ dl_next r <= UnixMilli now /\ dl_attempts r = y_attempts y /\
    dl_error r <> "suppressed" /\ dl_error r <> "access_revoked".
Definition delivered_in (m : gmap (string * string) delivery_row) (y : delivery) : Prop :=
  exists r, m !! (y_event y, y_sub y) = Some r /\ dl_attempts r = y_attempts y + 1 /\ is_Some (dl_delivered r).

Lemma UnixMilli_le a b : a <= b -> UnixMilli a <= UnixMilli b.
Proof. intros H. unfold UnixMilli. by apply Z.div_le_mono. Qed.

Lemma claim_open now d m y env : wanted d y -> open_in now d m y -> (forall n, now <= env_now env n) ->
  exists r, undelivered r = true /\ dl_attempts r = y_attempts y + 1 /\ dl_error r <> "suppressed" /\ dl_error r <> "access_revoked" /\
    Write (claim_delivery EventVisible y) env (on m d) = (Ok true, on (<[(y_event y, y_sub y) := r]> m) d).
Proof.
  intros Hw ((w & Ew & Haw) & r & Er & Hu & Hn & Ha & Hs & Hv) Henv. destruct (Hw _ Ew) as ((u & Eu & Hd) & Hvis).
  exists {| dl_attempts := dl_attempts r + 1; dl_next := UnixMilli (env_now env 1 + 5 * minute); dl_error := dl_error r; dl_delivered := dl_delivered r |}.
  split_and!; [done|cbn; lia|done|done|]. specialize (Hvis m). unfold on, Write, claim_delivery, SELECT, UPDATE, savepoint, CheckAccount, gets, modify, Now, mbind, tx_bind in *. cbn in *.
  rewrite Ew. assert (awake (env_now env 0) w = true) as ->. { unfold awake in *. apply andb_prop in Haw as [-> ?]. pose proof (UnixMilli_le _ _ (Henv 0%nat)). cbn. lia. }
  cbn. unfold SELECT, gets, mbind, tx_bind. cbn. rewrite Eu, Hd. cbn. rewrite Hvis. cbn. unfold gets, mbind, tx_bind. cbn. rewrite Er, Hu. pose proof (UnixMilli_le _ _ (Henv 2%nat)).
  replace (dl_next r <=? UnixMilli (env_now env 2)) with true by lia. replace (dl_attempts r =? y_attempts y) with true by lia. done.
Qed.
Lemma report_open d m y env r : m !! (y_event y, y_sub y) = Some r -> undelivered r = true -> dl_attempts r = y_attempts y + 1 -> dl_error r <> "suppressed" -> dl_error r <> "access_revoked" ->
  exists r', dl_attempts r' = dl_attempts r /\ is_Some (dl_delivered r') /\ Write (report (y_event y) (y_sub y) (y_attempts y + 1) true) env (on m d) = (Ok tt, on (<[(y_event y, y_sub y) := r']> m) d).
Proof.
  intros Er Hu Ha Hs Hv. exists {| dl_attempts := dl_attempts r; dl_next := dl_next r; dl_error := ""; dl_delivered := Some (stamp (env_now env 0)) |}. split_and!; [done|by eexists|].
  unfold on, Write, report, UPDATE, gets, modify, Now, mbind, tx_bind. cbn. rewrite Er. unfold standing. rewrite Hu. replace (dl_attempts r =? y_attempts y + 1) with true by lia.
  apply String.eqb_neq in Hs, Hv. rewrite Hs, Hv. done.
Qed.

Abbreviation key_of y := (y_event y, y_sub y).
Lemma deliver_all_open now d oracle : (forall i, hp_answer (oracle i) = Some true /\ forall n, now <= env_now (hp_claim (oracle i)) n) -> forall list m count,
  NoDup (((fun y => key_of y) <$> list)) -> Forall (wanted d) list -> Forall (open_in now d m) list ->
  exists m', deliver_all EventVisible list oracle count (on m d) = ((count + length list)%nat, None, on m' d) /\ Forall (delivered_in m') list /\
    forall key, key ∉ ((fun y => key_of y) <$> list) -> m' !! key = m !! key.
Proof.
  intros Hor list. induction list as [|y list IH]; intros m count Hnd Hw Ho; [exists m; cbn; rewrite Nat.add_0_r; split_and!; [done|constructor|done]|].
  rewrite fmap_cons in Hnd. apply NoDup_cons in Hnd as [Hnew Hnd]. apply Forall_cons in Hw as [Hwy Hw]. apply Forall_cons in Ho as [Hoy Ho].
  destruct (Hor (length list)) as [Hans Henv]. destruct (claim_open _ _ _ _ _ Hwy Hoy Henv) as (r & Hu & Ha & Hs & Hv & Hclaim).
  destruct (report_open d (<[key_of y := r]> m) y (hp_report (oracle (length list))) r) as (r' & Ha' & Hd' & Hrep); [apply lookup_insert_eq|done|done|done|done|].
  rewrite insert_insert_eq in Hrep. destruct (IH (<[key_of y := r']> m) (S count) Hnd Hw) as (m' & Hrun & Hdel & Hrest).
  { rewrite Forall_forall in Ho |- *. intros z Hz. destruct (Ho z Hz) as (Hwz & rz & Ez & Hz'). split; [done|]. exists rz. split; [|done]. rewrite lookup_insert_ne; [done|].
    intros Heq. apply Hnew. rewrite Heq. apply list_elem_of_fmap. by exists z. }
  exists m'. split_and!.
  - cbn [deliver_all]. rewrite Hclaim, Hans, Hrep, Hrun. cbn. by rewrite Nat.add_succ_r.
  - constructor; [|done]. exists r'. rewrite (Hrest _ Hnew), lookup_insert_eq. split_and!; [done|lia|done].
  - intros key. rewrite fmap_cons, not_elem_of_cons. intros [Hne Hin]. rewrite (Hrest _ Hin), lookup_insert_ne; congruence.
Qed.
Lemma due_In now limit d y : y ∈ due now limit d -> exists r, t_get Deliveries d !! key_of y = Some r /\ is_due now d (key_of y) r = true /\ y_attempts y = dl_attempts r.
Proof.
  unfold due. intros ([[event sub] r] & Hin & Hy)%list_elem_of_omap. apply (subseteq_take limit) in Hin. rewrite merge_sort_Permutation in Hin.
  apply list_elem_of_filter in Hin as [Hp Hin%elem_of_map_to_list]. apply fmap_Some in Hy as (e & _ & ->). exists r. cbn in *. split_and!; [done|by apply Is_true_true|done].
Qed.
Lemma NoDup_omap {A B K} (f : A -> option B) (g : B -> K) (h : A -> K) l : (forall x y, f x = Some y -> g y = h x) -> NoDup (h <$> l) -> NoDup (g <$> omap f l).
Proof.
  intros Hf. induction l as [|x l IH]; [done|]. rewrite fmap_cons, NoDup_cons. intros [Hx Hl]. cbn. destruct (f x) as [y|] eqn:E; [|auto]. rewrite fmap_cons, NoDup_cons. split; [|auto].
  rewrite (Hf _ _ E). intros (y' & Hg & (x' & Hx' & E')%list_elem_of_omap)%list_elem_of_fmap. apply Hx. rewrite Hg, (Hf _ _ E'). by apply list_elem_of_fmap_2.
Qed.
Lemma due_NoDup now limit d : NoDup ((fun y => key_of y) <$> due now limit d).
Proof.
  unfold due. apply (NoDup_omap _ _ fst). { intros [[event sub] r] y (e & _ & ->)%fmap_Some. done. }
  eapply sublist_NoDup; [|apply fmap_sublist, sublist_take]. rewrite merge_sort_Permutation. unfold rows_where. eapply sublist_NoDup; [|apply fmap_sublist, sublist_filter]; apply NoDup_fst_map_to_list.
Qed.

(** In every reachable state, a round whose calls are answered and whose
    clocks do not run backwards delivers all it reads as due, in one attempt
    each, if the accounts are in good standing and may see the events; it
    changes no other delivery and nothing else. *)
Theorem webhook_round d0 calls s limit now oracle : hruns (no_deliveries d0) calls s ->
  (forall i, hp_answer (oracle i) = Some true /\ forall n, now <= env_now (hp_claim (oracle i)) n) ->
  let list := due now (Z.to_nat (if (limit <=? 0) || (100 <? limit) then 20 else limit)) (h_db s) in
  Forall (wanted (h_db s)) list -> exists m, RunWebhookDelivery EventVisible limit now oracle (h_db s) = (length list, None, on m (h_db s)) /\
    Forall (delivered_in m) list /\ forall key, key ∉ ((fun y => key_of y) <$> list) -> m !! key = t_get Deliveries (h_db s) !! key.
Proof.
  intros Hruns Hor list Hw. pose proof (hruns_inv _ _ _ _ (hinv_new d0) Hruns) as Hi. unfold RunWebhookDelivery. fold list.
  assert (Ho : Forall (open_in now (h_db s) (t_get Deliveries (h_db s))) list).
  { apply Forall_forall. intros y (r & Hr & Hd & Ha)%due_In. unfold is_due in Hd. cbn [fst snd] in Hd. destruct (t_get Events (h_db s) !! y_event y), (t_get Webhooks (h_db s) !! y_sub y) as [w|] eqn:Ew; try done.
    destruct (hi_rows _ _ Hi _ _ _ Hr) as (_ & _ & Hk). apply andb_prop in Hd as [[[Haw Hu]%andb_prop Hn]%andb_prop Hlt]. split; [by exists w|]. exists r.
    split_and!; [done|done|lia|done| |]; intros Herr; (destruct Hk; [by (left + right)|lia]). }
  destruct (deliver_all_open now (h_db s) oracle Hor list _ 0 (due_NoDup _ _ _) Hw Ho) as (m & Hrun & Hdel & Hrest). rewrite on_self in Hrun. by exists m.
Qed.
End Guarantees.

(** ** A run: an event is delivered at the second attempt *)
Module WebhookDemo.

Definition all_visible (user : string) (e : event_row) (admin : bool) (d : DB) : res bool := Ok true.
Definition hooked : DB :=
  t_set Webhooks (fun _ => {[ "hook" := {| wh_user := "alice"; wh_url := "https://example.org"; wh_secret := "s"; wh_events := "*"; wh_enabled := true;
                                           wh_format := "webhook"; wh_muted_until := 0; wh_version := 1; wh_admin := false |} ]})
    (t_set Users (fun _ => {[ "alice" := {| u_disabled := false; u_role := "user" |} ]}) empty_db).
(** Minute [n], with one identifier to draw. *)
Definition at_minute (n : Z) : Env := {| env_now := fun _ => n * minute; env_rand := fun _ => "event" |}.

Definition start : hsys := no_deliveries hooked.
Definition emitted : hsys := {| h_db := (Write (emitEventTx "alice" "node.online" []) (at_minute 1) (h_db start)).2; h_due := []; h_calls := []; h_seen := ["event"] |}.
Definition first : delivery := {| y_event := "event"; y_sub := "hook"; y_attempts := 0; y_row := {| ev_user := "alice"; ev_kind := "node.online"; ev_data := []; ev_created := 1 * minute |} |}.
Definition selected : hsys := {| h_db := h_db emitted; h_due := [first]; h_calls := []; h_seen := ["event"] |}.
Definition claimed : hsys := {| h_db := (Write (claim_delivery all_visible first) (at_minute 2) (h_db selected)).2; h_due := [first]; h_calls := [("event", "hook", 1)]; h_seen := ["event"] |}.
Definition failed : hsys := {| h_db := (Write (report "event" "hook" 1 false) (at_minute 3) (h_db claimed)).2; h_due := [first]; h_calls := []; h_seen := ["event"] |}.
Definition finished : hsys := {| h_db := (Write (report "event" "hook" 1 true) (at_minute 3) (h_db claimed)).2; h_due := [first]; h_calls := []; h_seen := ["event"] |}.

Lemma claim_run s env y : y ∈ h_due s -> (Write (claim_delivery all_visible y) env (h_db s)).1 = Ok true ->
  hstep all_visible s [(y_event y, y_sub y, y_attempts y + 1)]
    {| h_db := (Write (claim_delivery all_visible y) env (h_db s)).2; h_due := h_due s; h_calls := (y_event y, y_sub y, y_attempts y + 1) :: h_calls s; h_seen := h_seen s |}.
Proof. intros Hy Hr. eapply hs_claim; [done|]. rewrite <- Hr. apply surjective_pairing. Qed.
Lemma run_claimed : hruns all_visible start [("event", "hook", 1)] claimed.
Proof.
  change [("event", "hook", 1)] with ((([] ++ []) ++ []) ++ [("event", "hook", 1)])%list. eapply hr_step; [eapply hr_step; [eapply hr_step; [constructor|]|]|].
  - exact (hs_emit all_visible start (at_minute 1) "alice" "node.online" [] ltac:(set_solver)).
  - replace selected with {| h_db := h_db emitted; h_due := (due (2 * minute) 20 (h_db emitted) ++ h_due emitted)%list; h_calls := []; h_seen := ["event"] |} by (vm_compute; reflexivity).
    exact (hs_select all_visible emitted (2 * minute) 20).
  - exact (claim_run selected (at_minute 2) first ltac:(left) ltac:(vm_compute; reflexivity)).
Qed.
Lemma run_failed : hruns all_visible start [("event", "hook", 1)] failed.
Proof. change [("event", "hook", 1)] with ([("event", "hook", 1)] ++ [])%list. eapply hr_step; [exact run_claimed|]. exact (hs_report all_visible claimed (at_minute 3) 0 _ false eq_refl). Qed.

Lemma webhook_attempts_witness : NoDup [("event", "hook", 1)] /\ t_get Deliveries (h_db failed) !! ("event", "hook") =
  Some {| dl_attempts := 1; dl_next := 210000; dl_error := "delivery_failed"; dl_delivered := None |}.
Proof. split; [apply (webhook_attempts all_visible hooked _ failed run_failed)|vm_compute; reflexivity]. Defined.

(** The call succeeds, and a worker that still has the delivery comes late. *)
Lemma late_ends : hends "event" "hook" claimed finished.
Proof. eapply (ends_report "event" "hook" claimed (at_minute 3) 0 1); [reflexivity|vm_compute; reflexivity|vm_compute; reflexivity|]. vm_compute. reflexivity. Qed.
Lemma webhook_over_witness : ended "event" "hook" (h_db finished) /\ (Write (claim_delivery all_visible first) (at_minute 60) (h_db finished)).1 = Ok false.
Proof.
  split; [|vm_compute; reflexivity].
  apply (webhook_over all_visible hooked [("event", "hook", 1)] claimed "event" "hook" finished [] finished run_claimed); [left|exact late_ends|constructor].
Defined.

(** Delivery is at least once: the worker dies after its call, successful or
    not, and before its report; six minutes later the delivery is due and is
    called again. *)
Definition lost : hsys := {| h_db := h_db claimed; h_due := [first]; h_calls := []; h_seen := ["event"] |}.
Definition again : delivery := {| y_event := "event"; y_sub := "hook"; y_attempts := 1; y_row := y_row first |}.
Definition reselected : hsys := {| h_db := h_db claimed; h_due := [again; first]; h_calls := []; h_seen := ["event"] |}.
Definition called_again : hsys := {| h_db := (Write (claim_delivery all_visible again) (at_minute 8) (h_db reselected)).2; h_due := [again; first]; h_calls := [("event", "hook", 2)]; h_seen := ["event"] |}.
Example unreported_repeated : hruns all_visible start [("event", "hook", 1); ("event", "hook", 2)] called_again.
Proof.
  change [("event", "hook", 1); ("event", "hook", 2)] with ((([("event", "hook", 1)] ++ []) ++ []) ++ [("event", "hook", 2)])%list.
  eapply hr_step; [eapply hr_step; [eapply hr_step; [exact run_claimed|]|]|].
  - exact (hs_die all_visible claimed 0).
  - replace reselected with {| h_db := h_db lost; h_due := (due (8 * minute) 20 (h_db lost) ++ h_due lost)%list; h_calls := []; h_seen := ["event"] |} by (vm_compute; reflexivity).
    exact (hs_select all_visible lost (8 * minute) 20).
  - exact (claim_run reselected (at_minute 8) again ltac:(left) ltac:(vm_compute; reflexivity)).
Qed.

(** The next round, half a minute later, delivers. *)
Definition calm (i : nat) : happening := {| hp_claim := at_minute 4; hp_answer := Some true; hp_report := at_minute 4 |}.
Lemma webhook_round_witness : exists m, RunWebhookDelivery all_visible 0 (4 * minute) calm (h_db failed) = (1%nat, None, on m (h_db failed)) /\
  exists r, m !! ("event", "hook") = Some r /\ dl_attempts r = 2 /\ is_Some (dl_delivered r).
Proof.
  destruct (webhook_round all_visible hooked _ failed 0 (4 * minute) calm run_failed) as (m & Hrun & Hdel & _).
  - intros i. split; [reflexivity|]. intros n. unfold calm, at_minute, hp_claim, env_now. lia.
  - apply Forall_forall. intros y _ w Hw. assert (Eu : exists u, t_get Users (h_db failed) !! "alice" = Some u /\ u_disabled u = false) by (vm_compute; eauto).
    assert (Ew : forall k w, t_get Webhooks (h_db failed) !! k = Some w -> wh_user w = "alice").
    { intros k w0. replace (t_get Webhooks (h_db failed)) with (t_get Webhooks hooked) by (vm_compute; reflexivity).
      unfold hooked. cbn. intros [_ <-]%lookup_singleton_Some. reflexivity. }
    rewrite (Ew _ _ Hw). split; [exact Eu|reflexivity].
  - exists m. split; [rewrite Hrun; vm_compute; reflexivity|].
    assert (Hd : due (4 * minute) (Z.to_nat 20) (h_db failed) = [{| y_event := "event"; y_sub := "hook"; y_attempts := 1; y_row := y_row first |}]) by (vm_compute; reflexivity).
    cbn [Z.leb Z.compare orb] in Hdel. rewrite Hd in Hdel. apply Forall_cons in Hdel as [Hy _]. exact Hy.
Defined.
End WebhookDemo.
