(* ===== verification/Tasks.v ===== *)
(** * Background tasks of the panel (internal/platform/tasks.go)

    A user asks for an export or an import of rules; a worker claims the task
    with a random token and carries it out, each item of an import in a
    transaction of its own.  Several workers may be at it: one that stalls for
    five minutes loses its task to another, and finds out from the token.

    What a transaction does to the rules (platform/import_preview.go,
    resources.go) is a class of operations, and so is encoding/json: the
    theorems hold for any.  The tables here are those of the tasks and the
    columns of cp_users that tasks read; [R] is the rest of the panel. *)

From S2P Require Import Prelude Tx Calendar Digest.
From stdpp Require Import base gmap strings list sorting relations.
From Stdlib Require Import Ascii String.
Local Open Scope string_scope.
Local Open Scope Z_scope.
Local Abbreviation length := List.length.

Definition digest (s : string) : string := EncodeToString (Sum256 s).

Record account := { ac_role : string; ac_disabled : bool }.
Record task_row := {
  k_user : string; k_kind : string; k_status : string; k_payload : string; k_hash : string; k_result : string; k_error : string;
  k_created : Z; k_updated : Z; k_cancel : bool; k_claim : string; k_key : string; k_admin : bool
}.
Record exportPayload := { x_RuleIDs : list string; x_Admin : bool }.
Record importPayload (Rule : Type) := { i_Mode : string; i_Rules : list Rule; i_Admin : bool }.
Record taskItem (Rule : Type) := { t_Index : nat; t_Rule : option Rule; t_Error : string }.
Arguments i_Mode {Rule}. Arguments i_Rules {Rule}. Arguments i_Admin {Rule}. Arguments Build_importPayload {Rule}.
Arguments t_Index {Rule}. Arguments t_Rule {Rule}. Arguments t_Error {Rule}. Arguments Build_taskItem {Rule}.

Record Tables (R : Type) := {
  d_tasks : gmap string task_row; d_items : gmap (string * nat) string; d_accounts : gmap string account; d_rest : R
}.
Arguments d_tasks {R}. Arguments d_items {R}. Arguments d_accounts {R}. Arguments d_rest {R}. Arguments Build_Tables {R}.

(** ** What tasks use of the rules and of encoding/json *)

(** [rule_rows] are the rows of the export's query, decoded and hydrated. *)
Class RuleService (Rule R : Type) := {
  importInputTx : gmap string account -> string -> bool -> Rule -> string -> Tx R Rule;
  rule_rows : bool -> string -> list string -> R -> list (res Rule);
  redact : Rule -> Rule
}.
Class TaskJSON (Rule : Type) := {
  marshal_import : importPayload Rule -> option string;
  unmarshal_import : string -> option (importPayload Rule);
  marshal_export : exportPayload -> option string;
  unmarshal_export : string -> option exportPayload;
  marshal_item : taskItem Rule -> option string;
  unmarshal_item : string -> option (taskItem Rule);
  marshal_items : list (taskItem Rule) -> option string;
  marshal_rules : list Rule -> option string
}.
Class TaskJSONLaws (Rule : Type) `{TaskJSON Rule} : Prop := {
  item_text item raw : marshal_item item = Some raw -> unmarshal_item raw = Some item;
  item_total item : is_Some (marshal_item item);
  items_total items : is_Some (marshal_items items)
}.
Definition ErrJSON : error := ErrMsg "json".

Section Tasks.
Context {Rule R : Type} `{RuleService Rule R} `{TaskJSON Rule}.
Implicit Types (d : Tables R) (k : task_row).

Definition set_tasks (f : gmap string task_row -> gmap string task_row) (d : Tables R) : Tables R :=
  {| d_tasks := f (d_tasks d); d_items := d_items d; d_accounts := d_accounts d; d_rest := d_rest d |}.
Definition set_items (f : gmap (string * nat) string -> gmap (string * nat) string) (d : Tables R) : Tables R :=
  {| d_tasks := d_tasks d; d_items := f (d_items d); d_accounts := d_accounts d; d_rest := d_rest d |}.
Definition set_rest (r : R) (d : Tables R) : Tables R :=
  {| d_tasks := d_tasks d; d_items := d_items d; d_accounts := d_accounts d; d_rest := r |}.
Definition on_rest {A} (m : Tx R A) : Tx (Tables R) A := fun env d t =>
  match m env (d_rest d) t with
  | (Ok (a, r), t) => (Ok (a, set_rest r d), t)
  | (Err e, t) => (Err e, t)
  end.
Definition Unix_now {S} : Tx S Z := now ← Now; mret (now / second).

Definition pending (k : task_row) : bool := String.eqb (k_status k) "pending".
Definition running (k : task_row) : bool := String.eqb (k_status k) "running".
Definition active (k : task_row) : bool := pending k || running k.
Definition set_state (status claim : string) (updated : Z) (k : task_row) : task_row :=
  {| k_user := k_user k; k_kind := k_kind k; k_status := status; k_payload := k_payload k; k_hash := k_hash k; k_result := k_result k; k_error := k_error k;
     k_created := k_created k; k_updated := updated; k_cancel := k_cancel k; k_claim := claim; k_key := k_key k; k_admin := k_admin k |}.
Definition request_cancel (k : task_row) : task_row :=
  {| k_user := k_user k; k_kind := k_kind k; k_status := k_status k; k_payload := k_payload k; k_hash := k_hash k; k_result := k_result k; k_error := k_error k;
     k_created := k_created k; k_updated := k_updated k; k_cancel := true; k_claim := k_claim k; k_key := k_key k; k_admin := k_admin k |}.
Definition finished (status result message : string) (now : Z) (k : task_row) : task_row :=
  {| k_user := k_user k; k_kind := k_kind k; k_status := status; k_payload := ""; k_hash := k_hash k; k_result := result; k_error := message;
     k_created := k_created k; k_updated := now; k_cancel := k_cancel k; k_claim := k_claim k; k_key := k_key k; k_admin := k_admin k |}.
Definition drop_result (k : task_row) : task_row :=
  {| k_user := k_user k; k_kind := k_kind k; k_status := k_status k; k_payload := k_payload k; k_hash := k_hash k; k_result := ""; k_error := k_error k;
     k_created := k_created k; k_updated := k_updated k; k_cancel := k_cancel k; k_claim := k_claim k; k_key := k_key k; k_admin := k_admin k |}.

(** ** Requests *)

Definition task_by_key (user key : string) (d : Tables R) : option (string * task_row) :=
  head (filter (fun tk : string * task_row => k_user tk.2 = user /\ k_key tk.2 = key) (map_to_list (d_tasks d))).
Definition active_tasks (user : string) (d : Tables R) : Z :=
  map_sum (fun _ k => if String.eqb (k_user k) user && active k then 1 else 0) (d_tasks d).

(** The task the caller is told of: a new one, or the one that has the key. *)
Definition createTask (actor role kind key payload : string) : Tx (Tables R) (string * string) :=
  guard_err ((1 <=? String.length key)%nat && (String.length key <=? 128)%nat) (ErrMsg "idempotency_key required (1-128 characters)") ;;
  now ← Unix_now;
  task ← id;
  u ← gets (fun d => d_accounts d !! actor);
  u ← or_fail u ErrNoRows;
  guard_err (negb (ac_disabled u)) ErrConflict ;;
  prior ← gets (task_by_key actor key);
  match prior with
  | Some (old, k) =>
      guard_err (String.eqb (k_kind k) kind && String.eqb (k_hash k) (digest payload)) ErrConflict ;;
      mret (old, k_status k)
  | None =>
      n ← gets (active_tasks actor);
      guard_err (n <? 10) (ErrMsg "too many active tasks") ;;
      used ← gets (fun d => bool_decide (is_Some (d_tasks d !! task)));
      guard_err (negb used) ErrConstraint ;;
      modify (set_tasks (<[task := {| k_user := actor; k_kind := kind; k_status := "pending"; k_payload := payload; k_hash := digest payload; k_result := ""; k_error := "";
                                     k_created := now; k_updated := now; k_cancel := false; k_claim := ""; k_key := key; k_admin := String.eqb role "admin" |}]>)) ;;
      mret (task, "pending")
  end.
Definition createExportTask (actor role key : string) (ids : list string) : Tx (Tables R) (string * string) :=
  guard_err (length ids <=? 500)%nat (ErrMsg "select at most 500 rules or export all") ;;
  payload ← or_fail (marshal_export {| x_RuleIDs := ids; x_Admin := String.eqb role "admin" |}) ErrJSON;
  createTask actor role "rules.export" key payload.
Definition validImportMode (mode : string) : bool :=
  String.eqb mode "" || String.eqb mode "create" || String.eqb mode "update_by_port".
Definition createImportTask (actor role key mode : string) (rules : list Rule) : Tx (Tables R) (string * string) :=
  guard_err ((1 <=? length rules)%nat && (length rules <=? 1000)%nat && validImportMode mode) (ErrMsg "import requires 1-1000 rules") ;;
  payload ← or_fail (marshal_import {| i_Mode := mode; i_Rules := rules; i_Admin := String.eqb role "admin" |}) (ErrMsg "import too large");
  guard_err (Z.of_nat (String.length payload) <=? 2 ^ 20) (ErrMsg "import too large") ;;
  createTask actor role "rules.import" key payload.

Definition cancelTask (actor role task : string) : Tx (Tables R) unit :=
  row ← gets (fun d => d_tasks d !! task);
  guard_err (match row with Some k => (String.eqb (k_user k) actor || String.eqb role "admin") && active k | None => false end) ErrNoRows ;;
  modify (set_tasks (alter request_cancel task)).

(** ** Work *)

Definition errTaskCanceled : error := ErrMsg "task canceled".

Definition taskGuard (task claim owner : string) (requiresAdmin : bool) : Tx (Tables R) unit :=
  u ← gets (fun d => d_accounts d !! owner);
  u ← or_fail u ErrNoRows;
  guard_err (negb (ac_disabled u || requiresAdmin && negb (String.eqb (ac_role u) "admin"))) (ErrMsg "task permission revoked") ;;
  row ← gets (fun d => d_tasks d !! task);
  match row with
  | Some k =>
      guard_err (running k) ErrNoRows ;;
      guard_err (String.eqb (k_claim k) claim) ErrConflict ;;
      guard_err (negb (k_cancel k)) errTaskCanceled
  | None => fail ErrNoRows
  end.

Definition rejected : string := "rule rejected; check permissions, policy, entitlement and port availability".
Definition outcome_of (i : nat) (r : res Rule) : taskItem Rule :=
  match r with
  | Ok output => {| t_Index := i; t_Rule := Some (redact output); t_Error := "" |}
  | Err _ => {| t_Index := i; t_Rule := None; t_Error := rejected |}
  end.
Definition touch (task claim : string) (now : Z) (m : gmap string task_row) : gmap string task_row :=
  alter (fun k => if String.eqb (k_claim k) claim then set_state (k_status k) (k_claim k) now k else k) task m.
(** One round of the loop of [runImportTask]. *)
Definition import_item (task claim owner : string) (admin : bool) (p : importPayload Rule) (i : nat) (input : Rule) : Tx (Tables R) unit :=
  taskGuard task claim owner admin ;;
  prior ← gets (fun d => d_items d !! (task, i));
  match prior with
  | Some _ => mret tt
  | None =>
      accounts ← gets d_accounts;
      r ← savepoint (on_rest (importInputTx accounts owner (i_Admin p) input (i_Mode p)));
      raw ← or_fail (marshal_item (outcome_of i r)) ErrJSON;
      modify (set_items (<[(task, i) := raw]>)) ;;
      now ← Unix_now;
      modify (set_tasks (touch task claim now))
  end.

Definition by_index (x y : nat * string) : Prop := (x.1 <= y.1)%nat.
#[export] Instance by_index_dec x y : Decision (by_index x y).
Proof. unfold by_index. apply _. Defined.
Definition rows_of (task : string) (d : Tables R) : list (nat * string) :=
  merge_sort by_index
    (omap (fun r : string * nat * string => if decide (r.1.1 = task) then Some (r.1.2, r.2) else None) (map_to_list (d_items d))).
Definition importResult (task : string) (d : Tables R) : res (string * bool) :=
  match mapM (fun r : nat * string => unmarshal_item r.2) (rows_of task d) with
  | None => Err ErrJSON
  | Some items =>
      match marshal_items items with
      | None => Err ErrJSON
      | Some raw => Ok (raw, existsb (fun item : taskItem Rule => negb (String.eqb (t_Error item) "")) items)
      end
  end.

Definition finishTask (task claim status result message : string) : Tx (Tables R) unit :=
  row ← gets (fun d => d_tasks d !! task);
  match row with
  | Some k =>
      guard_err (running k) ErrNoRows ;;
      guard_err (String.eqb (k_claim k) claim) ErrConflict ;;
      now ← Unix_now;
      let result := if k_cancel k && String.eqb (k_kind k) "rules.export" then "" else result in
      let status := if k_cancel k then "canceled" else status in
      modify (set_tasks (<[task := finished status result message now k]>))
  | None => fail ErrNoRows
  end.

(** The loop over the rows of an export: redacted, at most 10000. *)
Fixpoint export_rows (rows : list (res Rule)) (items : list Rule) : res (list Rule) :=
  match rows with
  | [] => Ok items
  | Err e :: _ => Err e
  | Ok rule :: rows =>
      let items := (items ++ [redact rule])%list in
      if 10000 <? Z.of_nat (length items) then Err (ErrMsg "export exceeds 10000 rules") else export_rows rows items
  end.
Definition export_items (task claim owner : string) (admin : bool) (p : exportPayload) : Tx (Tables R) (list Rule) :=
  taskGuard task claim owner admin ;;
  rest ← gets d_rest;
  of_res (export_rows (rule_rows (x_Admin p) owner (x_RuleIDs p) rest) []).

(** A worker at a task, between two accesses to the database. *)
Inductive stage :=
  | Claimed
  | Importing (owner : string) (admin : bool) (p : importPayload Rule) (i : nat)
  | Collecting
  | Exporting (owner : string) (admin : bool) (p : exportPayload)
  | Finishing (status result message : string)
  | Failed (e : error)
  | Reporting (status result message : string)
  | Over (e : option error).
Record job := { j_task : string; j_claim : string; j_stage : stage }.
Definition at_stage (j : job) (s : stage) : job := {| j_task := j_task j; j_claim := j_claim j; j_stage := s |}.

(** What becomes of a call: it runs, its context ends before it does anything,
    or its context ends while it commits. *)
Inductive fate := Runs | Lost (e : error) | Late (e : error).
Definition attempt {A} (f : fate) (m : Tx (Tables R) A) (env : Env) (d : Tables R) : res A * Tables R :=
  match f with
  | Runs => Write m env d
  | Lost e => (Err e, d)
  | Late e => (Err e, (Write m env d).2)
  end.
Definition query {A} (f : fate) (m : Tables R -> res A) (d : Tables R) : res A :=
  match f with Runs => m d | Lost e | Late e => Err e end.

(** The row [runTask] reads, and what it goes on with. *)
Definition start_task (task claim : string) (d : Tables R) : res stage :=
  match d_tasks d !! task with
  | Some k =>
      if negb (String.eqb (k_claim k) claim) then Err ErrNoRows else
      if String.eqb (k_kind k) "rules.import" then
        match unmarshal_import (k_payload k) with
        | Some p => Ok (Importing (k_user k) (k_admin k) p 0)
        | None => Err (ErrMsg "invalid payload")
        end
      else if negb (String.eqb (k_kind k) "rules.export") then Ok (Finishing "failed" "" "unsupported task")
      else match unmarshal_export (k_payload k) with
           | Some p => Ok (Exporting (k_user k) (k_admin k) p)
           | None => Err (ErrMsg "invalid payload")
           end
  | None => Err ErrNoRows
  end.
Definition or_failed {A} (r : res A) (next : A -> stage) : stage := match r with Ok a => next a | Err e => Failed e end.
Definition task_failed : string := "task failed; check resource access and configuration".

(** [runTask], then, where it fails, the rest of the round of [RunTasks]. *)
Definition job_step (env : Env) (f : fate) (j : job) (d : Tables R) : job * Tables R :=
  let task := j_task j in
  let claim := j_claim j in
  match j_stage j with
  | Claimed => (at_stage j (or_failed (query f (start_task task claim) d) (fun s => s)), d)
  | Importing owner admin p i =>
      match i_Rules p !! i with
      | None => (at_stage j Collecting, d)
      | Some input => let '(r, d) := attempt f (import_item task claim owner admin p i input) env d in
                      (at_stage j (or_failed r (fun _ => Importing owner admin p (S i))), d)
      end
  | Collecting =>
      let next := fun r : string * bool => Finishing (if r.2 then "completed_with_errors" else "completed") r.1 "" in
      (at_stage j (or_failed (query f (importResult task) d) next), d)
  | Exporting owner admin p =>
      let '(r, d) := attempt f (export_items task claim owner admin p) env d in
      (at_stage j (or_failed r (fun items => match marshal_rules items with Some raw => Finishing "completed" raw "" | None => Failed ErrJSON end)), d)
  | Finishing status result message =>
      let '(r, d) := attempt f (finishTask task claim status result message) env d in (at_stage j (or_failed r (fun _ => Over None)), d)
  | Failed e =>
      let next := match query f (importResult task) d with
                  | Ok r => if decide (e = errTaskCanceled) then Reporting "canceled" r.1 "" else Reporting "failed" r.1 task_failed
                  | Err e => Over (Some e)
                  end in (at_stage j next, d)
  | Reporting status result message =>
      let '(r, d) := attempt f (finishTask task claim status result message) env d in
      (at_stage j (Over (match r with Ok _ => None | Err e => Some e end)), d)
  | Over _ => (j, d)
  end.

(** ** The worker *)

(** Tasks that nobody has worked on for five minutes. *)
Definition reclaimed (now : Z) : Tables R -> Tables R :=
  set_tasks (fmap (fun k => if running k && (k_updated k <? (now - 300 * second) / second) then set_state "pending" "" (k_updated k) k else k)).
Definition reclaim : Tx (Tables R) unit := now ← Now; modify (reclaimed now).
Definition claim_task (task : string) : Tx (Tables R) (option string) :=
  claim ← id;
  now ← Unix_now;
  row ← gets (fun d => d_tasks d !! task);
  match row with
  | Some k => if pending k then modify (set_tasks (<[task := set_state "running" claim now k]>)) ;; mret (Some claim) else mret None
  | None => mret None
  end.
Definition task_order (x y : string * task_row) : Prop :=
  k_created x.2 < k_created y.2 \/ (k_created x.2 = k_created y.2 /\ Is_true (String.leb x.1 y.1)).
#[export] Instance task_order_dec x y : Decision (task_order x y).
Proof. unfold task_order. apply _. Defined.
Definition pending_ids (limit : nat) (d : Tables R) : list string :=
  (take limit (merge_sort task_order (filter (fun tk : string * task_row => pending tk.2 = true) (map_to_list (d_tasks d))))).*1.

(** [oracle] gives each access to the database its clock, identifiers and
    fate.  A job takes one access per item and six more at most. *)
Definition job_fuel (task : string) (d : Tables R) : nat :=
  match d_tasks d !! task with
  | Some k => match unmarshal_import (k_payload k) with Some p => length (i_Rules p) | None => 0 end
  | None => 0
  end + 8.
Fixpoint run_job (fuel : nat) (oracle : nat -> Env * fate) (n : nat) (j : job) (d : Tables R) : option error * Tables R * nat :=
  match j_stage j, fuel with
  | Over e, _ => (e, d, n)
  | _, O => (None, d, n)
  | _, S fuel => let '(j, d) := job_step (oracle n).1 (oracle n).2 j d in run_job fuel oracle (S n) j d
  end.
Fixpoint run_tasks (oracle : nat -> Env * fate) (ids : list string) (n count : nat) (d : Tables R) : nat * option error * Tables R :=
  match ids with
  | [] => (count, None, d)
  | task :: ids =>
      let '(r, d) := attempt (oracle n).2 (claim_task task) (oracle n).1 d in
      match r with
      | Err e => (count, Some e, d)
      | Ok None => run_tasks oracle ids (S n) count d
      | Ok (Some claim) =>
          let '(e, d, n) := run_job (job_fuel task d) oracle (S n) {| j_task := task; j_claim := claim; j_stage := Claimed |} d in
          match e with Some e => (S count, Some e, d) | None => run_tasks oracle ids n (S count) d end
      end
  end.
(** The number of tasks it claimed, and why it stopped early. *)
Definition RunTasks (oracle : nat -> Env * fate) (limit : Z) (d : Tables R) : nat * option error * Tables R :=
  let limit := if (limit <=? 0) || (50 <? limit) then 10 else limit in
  let '(r, d) := attempt (oracle 0%nat).2 reclaim (oracle 0%nat).1 d in
  match r with
  | Err e => (0%nat, Some e, d)
  | Ok _ => match query (oracle 1%nat).2 (fun d => Ok (pending_ids (Z.to_nat limit) d)) d with
            | Err e => (0%nat, Some e, d)
            | Ok ids => run_tasks oracle ids 2 0 d
            end
  end.

(** ** Retention *)

Definition prune_order (x y : string * task_row) : Prop :=
  k_updated x.2 < k_updated y.2 \/ (k_updated x.2 = k_updated y.2 /\ Is_true (String.leb x.1 y.1)).
#[export] Instance prune_order_dec x y : Decision (prune_order x y).
Proof. unfold prune_order. apply _. Defined.
Definition prunable_tasks (now : Z) (d : Tables R) : list string :=
  (take 100 (merge_sort prune_order (filter (fun tk : string * task_row =>
     active tk.2 = false /\ k_result tk.2 <> "" /\ k_updated tk.2 < (now - 7 * 86400 * second) / second) (map_to_list (d_tasks d))))).*1.
Definition prune_task (task : string) (d : Tables R) : Tables R :=
  set_tasks (alter drop_result task) (set_items (filter (fun r : string * nat * string => r.1.1 <> task)) d).
Definition prune_tasks (ids : list string) : Tx (Tables R) unit := for_each ids (fun task => modify (prune_task task)).

(** ** The system *)

(** The database, the workers at their tasks, and the lists of tasks whose
    results somebody is about to drop. *)
Record sys := { s_db : Tables R; s_jobs : list job; s_pruning : list (list string) }.
Definition with_db (d : Tables R) (s : sys) : sys := {| s_db := d; s_jobs := s_jobs s; s_pruning := s_pruning s |}.

Inductive event :=
  | Created (task kind payload : string)
  | Applied (task : string) (i : nat) (raw : string).

(** A task that was not there before; an item whose row was not. *)
Definition creation (d d' : Tables R) (task : string) : list event :=
  match d_tasks d !! task, d_tasks d' !! task with None, Some k => [Created task (k_kind k) (k_payload k)] | _, _ => [] end.
Definition application (d d' : Tables R) (j : job) : list event :=
  match j_stage j with
  | Importing _ _ _ i => match d_items d !! (j_task j, i), d_items d' !! (j_task j, i) with None, Some raw => [Applied (j_task j) i raw] | _, _ => [] end
  | _ => []
  end.

(** Workers start, go on, stall and die at any time; accounts and the rest of
    the panel change in any way. *)
Inductive tstep (s : sys) : list event -> sys -> Prop :=
  | ts_export env actor role key ids a d' : Write (createExportTask actor role key ids) env (s_db s) = (Ok a, d') ->
      tstep s (creation (s_db s) d' a.1) (with_db d' s)
  | ts_import env actor role key mode rules a d' : Write (createImportTask actor role key mode rules) env (s_db s) = (Ok a, d') ->
      tstep s (creation (s_db s) d' a.1) (with_db d' s)
  | ts_cancel env actor role task : tstep s [] (with_db (Write (cancelTask actor role task) env (s_db s)).2 s)
  | ts_reclaim env : tstep s [] (with_db (Write reclaim env (s_db s)).2 s)
  | ts_claim env task claim d' : Write (claim_task task) env (s_db s) = (Ok (Some claim), d') ->
      tstep s [] {| s_db := d'; s_jobs := {| j_task := task; j_claim := claim; j_stage := Claimed |} :: s_jobs s; s_pruning := s_pruning s |}
  | ts_job env f n j j' d' : s_jobs s !! n = Some j -> job_step env f j (s_db s) = (j', d') ->
      tstep s (application (s_db s) d' j) {| s_db := d'; s_jobs := <[n := j']> (s_jobs s); s_pruning := s_pruning s |}
  | ts_die n : tstep s [] {| s_db := s_db s; s_jobs := delete n (s_jobs s); s_pruning := s_pruning s |}
  | ts_select now : tstep s [] {| s_db := s_db s; s_jobs := s_jobs s; s_pruning := prunable_tasks now (s_db s) :: s_pruning s |}
  | ts_prune env ids : ids ∈ s_pruning s -> tstep s [] (with_db (Write (prune_tasks ids) env (s_db s)).2 s)
  | ts_control accounts rest : tstep s [] (with_db {| d_tasks := d_tasks (s_db s); d_items := d_items (s_db s); d_accounts := accounts; d_rest := rest |} s).
Inductive truns (s : sys) : list event -> sys -> Prop :=
  | tr_refl : truns s [] s
  | tr_step evs s1 evs1 s2 : truns s evs s1 -> tstep s1 evs1 s2 -> truns s (evs ++ evs1) s2.
Definition new_panel (accounts : gmap string account) (rest : R) : sys :=
  {| s_db := {| d_tasks := ∅; d_items := ∅; d_accounts := accounts; d_rest := rest |}; s_jobs := []; s_pruning := [] |}.

Definition applied (evs : list event) : list (string * nat) :=
  omap (fun e => match e with Applied task i _ => Some (task, i) | Created _ _ _ => None end) evs.
End Tasks.
Arguments stage : clear implicits.
Arguments job : clear implicits.
Arguments sys : clear implicits.
