(* ===== verification/TaskInv.v ===== *)
(** * What tasks keep

    What each transaction of a task does, how a row of cp_tasks may change,
    and the invariant of the system: the rows of an import's items are the
    items that were applied, and a worker that gets to the end of an import
    has them all. *)

From S2P Require Import Prelude Tx Calendar Digest Tasks.
From stdpp Require Import base gmap strings list sorting relations.
From Stdlib Require Import Ascii String.
Local Open Scope string_scope.
Local Open Scope Z_scope.
Local Abbreviation length := List.length.

Section TaskInv.
Context {Rule R : Type} `{RuleService Rule R} `{TaskJSON Rule} `{!TaskJSONLaws Rule}.
Implicit Types (d : Tables R) (k : task_row).

(** ** Transactions *)

Definition new_task (k : task_row) : Prop :=
  k_status k = "pending" /\ k_cancel k = false /\ k_result k = "".
Lemma createTask_Ok actor role kind key payload env d t a d' t' :
  createTask actor role kind key payload env d t = (Ok (a, d'), t') ->
  (d' = d /\ is_Some (d_tasks d !! a.1)) \/
  (d_tasks d !! a.1 = None /\ active_tasks actor d < 10 /\ task_by_key actor key d = None /\
   exists k, d' = set_tasks (<[a.1 := k]>) d /\ new_task k /\ k_user k = actor /\ k_kind k = kind /\ k_key k = key /\ k_payload k = payload).
Proof.
  unfold createTask, Unix_now. intros Hrun. tx_inv Hrun. destruct (task_by_key actor key _) as [[old k]|] eqn:Ek.
  - tx_inv Hk. left. split; [done|]. apply head_Some_elem_of, list_elem_of_filter in Ek as [_ Ek]. apply elem_of_map_to_list in Ek. cbn. eauto.
  - tx_inv Hk. right. cbn [fst]. apply negb_true_iff in Hg2. bool_to_prop. split_and!; [|lia|done|].
    + destruct (d_tasks _ !! _) as [k|] eqn:E; [|done]. exfalso. apply Hg2. eauto.
    + eexists. split; [done|]. done.
Qed.

Lemma taskGuard_Ok task claim owner admin env d t a d' t' : taskGuard task claim owner admin env d t = (Ok (a, d'), t') ->
  d' = d /\ exists k, d_tasks d !! task = Some k /\ running k = true /\ k_claim k = claim /\ k_cancel k = false.
Proof.
  unfold taskGuard. intros Hrun. tx_inv Hrun. destruct (d_tasks d !! task) as [k|]; [|done]. tx_inv Hk0. split; [done|].
  exists k. apply negb_true_iff in Hg2. apply String.eqb_eq in Hg1. done.
Qed.

Lemma on_rest_Ok {A} (m : Tx R A) env d t a d' t' : on_rest m env d t = (Ok (a, d'), t') -> exists r, d' = set_rest r d.
Proof. unfold on_rest. destruct (m env (d_rest d) t) as [[[a1 r]|e] t1]; [|done]. intros [= <- <- <-]. eauto. Qed.

Lemma import_item_Ok task claim owner admin p i input env d t a d' t' :
  import_item task claim owner admin p i input env d t = (Ok (a, d'), t') ->
  (exists k, d_tasks d !! task = Some k /\ running k = true /\ k_claim k = claim /\ k_cancel k = false) /\
  ((d' = d /\ is_Some (d_items d !! (task, i))) \/
   (d_items d !! (task, i) = None /\ exists rest r raw now,
      marshal_item (outcome_of i r) = Some raw /\ d' = set_tasks (touch task claim now) (set_items (<[(task, i) := raw]>) (set_rest rest d)))).
Proof.
  unfold import_item, Unix_now. intros Hrun. tx_inv Hrun. apply taskGuard_Ok in Hm as [-> Hk']. split; [done|].
  destruct (d_items d !! (task, i)) as [raw|] eqn:E; [tx_inv Hk0; left; eauto|]. tx_inv Hk0. right. split; [done|].
  unfold savepoint in Hm. destruct (on_rest _ _ _ _) as [[[out d1]|e] t1] eqn:Er.
  - injection Hm as <- <- <-. apply on_rest_Ok in Er as [rest ->]. eauto 10.
  - injection Hm as <- <- <-. exists (d_rest d). destruct d. eauto 10.
Qed.

Lemma finishTask_Ok task claim status result message env d t a d' t' :
  finishTask task claim status result message env d t = (Ok (a, d'), t') ->
  exists k now, d_tasks d !! task = Some k /\ running k = true /\ k_claim k = claim /\
    d' = set_tasks (<[task := finished (if k_cancel k then "canceled" else status) (if k_cancel k && String.eqb (k_kind k) "rules.export" then "" else result) message now k]>) d.
Proof.
  unfold finishTask, Unix_now. intros Hrun. tx_inv Hrun. destruct (d_tasks d !! task) as [k|]; [|done]. tx_inv Hk. apply String.eqb_eq in Hg0. eauto 10.
Qed.
Lemma export_items_Ok task claim owner admin p env d t a d' t' : export_items task claim owner admin p env d t = (Ok (a, d'), t') -> d' = d.
Proof. unfold export_items. intros Hrun. tx_inv Hrun. by apply taskGuard_Ok in Hm as [-> _]. Qed.

(** What an access of a worker to the database did to it. *)
Inductive job_effect (j : job Rule) (d d' : Tables R) : Prop :=
  | je_none : d' = d -> job_effect j d d'
  | je_item owner admin p i input k rest r raw now : j_stage j = Importing owner admin p i -> i_Rules p !! i = Some input ->
      d_tasks d !! j_task j = Some k -> running k = true -> k_claim k = j_claim j -> k_cancel k = false ->
      d_items d !! (j_task j, i) = None -> marshal_item (outcome_of i r) = Some raw ->
      d' = set_tasks (touch (j_task j) (j_claim j) now) (set_items (<[(j_task j, i) := raw]>) (set_rest rest d)) -> job_effect j d d'
  | je_finish status result message k now : (j_stage j = Finishing status result message \/ j_stage j = Reporting status result message) ->
      d_tasks d !! j_task j = Some k -> running k = true -> k_claim k = j_claim j ->
      d' = set_tasks (<[j_task j := finished (if k_cancel k then "canceled" else status)
                                      (if k_cancel k && String.eqb (k_kind k) "rules.export" then "" else result) message now k]>) d -> job_effect j d d'.

Lemma attempt_effect {A} f (m : Tx (Tables R) A) env d r d' : attempt f m env d = (r, d') ->
  d' = d \/ exists a t, m env d 0%nat = (Ok (a, d'), t).
Proof.
  unfold attempt. assert (Hw : forall r d', Write m env d = (r, d') -> d' = d \/ exists a t, m env d 0%nat = (Ok (a, d'), t)).
  { intros [a|e] d1 E; [apply Write_Ok in E as [t E]; eauto|apply Write_Err in E; auto]. }
  destruct f; [apply Hw|intros [= <- <-]; auto|]. destruct (Write m env d) as [r1 d1] eqn:E. intros [= <- <-]. by eapply Hw.
Qed.
Lemma job_step_effect env f j d j' d' : job_step env f j d = (j', d') -> job_effect j d d' /\ j_task j' = j_task j /\ j_claim j' = j_claim j.
Proof.
  assert (Hsame : forall st, (at_stage j st, d) = (j', d') -> job_effect j d d' /\ j_task j' = j_task j /\ j_claim j' = j_claim j)
    by (intros st [= <- <-]; split; [by apply je_none|done]).
  assert (Hfin : forall st rs ms g, (j_stage j = Finishing st rs ms \/ j_stage j = Reporting st rs ms) ->
    (let '(r, d1) := attempt f (finishTask (j_task j) (j_claim j) st rs ms) env d in (at_stage j (g r), d1)) = (j', d') ->
    job_effect j d d' /\ j_task j' = j_task j /\ j_claim j' = j_claim j).
  { intros st rs ms g Hj. destruct (attempt _ _ _ _) as [r d1] eqn:E. intros [= <- <-]. split; [|done]. apply attempt_effect in E as [->|(a & t & E)]; [by apply je_none|].
    apply finishTask_Ok in E as (k & now & Hk & Hr & Hc & ->). by eapply je_finish. }
  unfold job_step. destruct (j_stage j) as [|owner admin p i| |owner admin p|st rs ms|e|st rs ms|e] eqn:Ej; try apply Hsame.
  - destruct (i_Rules p !! i) as [input|] eqn:Ei; [|apply Hsame]. destruct (attempt _ _ _ _) as [r d1] eqn:E. intros [= <- <-]. split; [|done].
    apply attempt_effect in E as [->|(a & t & E)]; [by apply je_none|].
    apply import_item_Ok in E as [(k & Hk & Hr & Hc & Hx) [[-> _]|(Hn & rest & r1 & raw & now & Hm & ->)]]; [by apply je_none|by eapply je_item].
  - destruct (attempt _ _ _ _) as [r d1] eqn:E. intros [= <- <-]. split; [|done]. apply je_none. apply attempt_effect in E as [->|(a & t & E)]; [done|by apply export_items_Ok in E].
  - eapply (Hfin st rs ms (fun r => or_failed r (fun _ => Over None))). by left.
  - eapply (Hfin st rs ms (fun r => Over (match r with Ok _ => None | Err e => Some e end))). by right.
  - intros [= <- <-]. split; [by apply je_none|done].
Qed.

(** ** How rows change *)

Section Moves.
(** [F]: how the row of a task may get its final state. *)
Context (F : string -> task_row -> task_row -> Prop).

Record moves (task : string) (k k' : task_row) : Prop := {
  mv_same : k_user k' = k_user k /\ k_kind k' = k_kind k /\ k_key k' = k_key k;
  mv_final : active k = false -> k_status k' = k_status k /\ (k_result k' = k_result k \/ k_result k' = "");
  mv_payload : active k' = true -> active k = true /\ k_payload k' = k_payload k;
  mv_cancel : k_cancel k = true -> k_cancel k' = true /\ (active k = true -> active k' = true \/ k_status k' = "canceled");
  mv_done : active k = true -> active k' = false -> F task k k'
}.
Lemma moves_refl task k : moves task k k.
Proof. split; auto. congruence. Qed.
Lemma moves_final task k k' : moves task k k' -> active k = false -> active k' = false.
Proof. intros Hm Ha. destruct (mv_final _ _ _ Hm Ha) as [E _]. unfold active, pending, running in *. by rewrite E. Qed.

(** One access to the database: [evs] are the tasks it created and the items
    it applied. *)
Record evolves (d : Tables R) (evs : list event) (d' : Tables R) : Prop := {
  ev_rows task k : d_tasks d !! task = Some k -> exists k', d_tasks d' !! task = Some k' /\ moves task k k';
  ev_new task k : d_tasks d' !! task = Some k -> d_tasks d !! task = None -> new_task k /\ evs = [Created task (k_kind k) (k_payload k)];
  ev_items task i raw : d_items d !! (task, i) = Some raw ->
    d_items d' !! (task, i) = Some raw \/ exists k, d_tasks d !! task = Some k /\ active k = false;
  ev_fresh task i raw : d_items d' !! (task, i) = Some raw -> d_items d !! (task, i) = Some raw \/ evs = [Applied task i raw];
  ev_applied task i raw : Applied task i raw ∈ evs -> evs = [Applied task i raw] /\ d_items d !! (task, i) = None /\ d_items d' !! (task, i) = Some raw /\
    exists k, d_tasks d !! task = Some k /\ running k = true /\ k_cancel k = false
}.

Lemma evolves_refl d : evolves d [] d.
Proof. split; [eauto using moves_refl|intros; congruence|auto|auto|set_solver]. Qed.
(** A change of rows that are there. *)
Lemma evolves_rows d (f : gmap string task_row -> gmap string task_row) :
  (forall task, f (d_tasks d) !! task = d_tasks d !! task \/ exists k k', d_tasks d !! task = Some k /\ f (d_tasks d) !! task = Some k' /\ moves task k k') ->
  evolves d [] (set_tasks f d).
Proof.
  intros Hf. split; cbn [set_tasks d_tasks d_items]; [| |auto|auto|set_solver].
  - intros task k Hk. destruct (Hf task) as [E|(k1 & k2 & E1 & E2 & Hm)]; [rewrite E; eauto using moves_refl|]. rewrite Hk in E1. injection E1 as <-. eauto.
  - intros task k Hk Hn. destruct (Hf task) as [E|(k1 & k2 & E1 & _)]; congruence.
Qed.
Lemma insert_moves (m : gmap string task_row) task k k' : m !! task = Some k -> moves task k k' ->
  forall task', <[task := k']> m !! task' = m !! task' \/ exists k1 k2, m !! task' = Some k1 /\ <[task := k']> m !! task' = Some k2 /\ moves task' k1 k2.
Proof. intros Hk Hm task'. destruct (decide (task = task')) as [<-|]; [right; exists k, k'; by rewrite lookup_insert_eq|left; by rewrite lookup_insert_ne]. Qed.
Lemma alter_moves (m : gmap string task_row) task g : (forall k, m !! task = Some k -> moves task k (g k)) ->
  forall task', alter g task m !! task' = m !! task' \/ exists k1 k2, m !! task' = Some k1 /\ alter g task m !! task' = Some k2 /\ moves task' k1 k2.
Proof.
  intros Hm task'. destruct (decide (task = task')) as [<-|]; [|left; by rewrite lookup_alter_ne].
  destruct (m !! task) as [k|] eqn:E; [right|left; by rewrite lookup_alter_eq, E]. exists k, (g k). rewrite lookup_alter_eq, E. auto.
Qed.

Lemma moves_state task k status claim now : active k = true -> status = "pending" \/ status = "running" -> moves task k (set_state status claim now k).
Proof.
  intros Ha Hs. assert (Ha' : active (set_state status claim now k) = true) by (by destruct Hs as [-> | ->]). split; try (cbn; tauto); congruence.
Qed.
Lemma moves_touch task claim now (m : gmap string task_row) task' :
  touch task claim now m !! task' = m !! task' \/ exists k k', m !! task' = Some k /\ touch task claim now m !! task' = Some k' /\ moves task' k k'.
Proof. apply alter_moves. intros k _. destruct (String.eqb (k_claim k) claim); [|apply moves_refl]. split; cbn; auto. unfold active, pending, running. cbn. congruence. Qed.
Lemma running_active k : running k = true -> active k = true.
Proof. intros Hr. unfold active. rewrite Hr. apply orb_true_r. Qed.
Lemma moves_finished task k status result message now : running k = true -> status <> "pending" -> status <> "running" ->
  F task k (finished (if k_cancel k then "canceled" else status) result message now k) ->
  moves task k (finished (if k_cancel k then "canceled" else status) result message now k).
Proof.
  intros Hr Hp Hn HF. apply running_active in Hr. split; cbn; [done|congruence| | |done].
  - unfold active, pending, running. cbn. destruct (k_cancel k); [done|]. intros Ha. apply orb_true_iff in Ha as [E%String.eqb_eq|E%String.eqb_eq]; congruence.
  - intros ->. auto.
Qed.

(** What a worker that finishes a task writes into its row. *)
Definition finishing (j : job Rule) (status result message : string) (now : Z) (k : task_row) : task_row :=
  finished (if k_cancel k then "canceled" else status) (if k_cancel k && String.eqb (k_kind k) "rules.export" then "" else result) message now k.
Definition may_finish (j : job Rule) : Prop := forall status result message now k,
  j_stage j = Finishing status result message \/ j_stage j = Reporting status result message -> running k = true ->
  F (j_task j) k (finishing j status result message now k).

(** ** Steps *)

Definition stage_final (s : stage Rule) : Prop :=
  match s with Finishing st _ _ | Reporting st _ _ => st <> "pending" /\ st <> "running" | _ => True end.
Definition dropped (d : Tables R) (ids : list string) : Prop :=
  forall task, task ∈ ids -> exists k, d_tasks d !! task = Some k /\ active k = false.

Lemma job_effect_evolves j d d' : job_effect j d d' -> stage_final (j_stage j) -> may_finish j -> evolves d (application d d' j) d'.
Proof.
  destruct 1 as [->|owner admin p i input k rest r raw now Hj Hi Hk Hr Hc Hx Hn Hraw ->|st rs ms k now Hj Hk Hr Hc ->]; intros Hst Hmay.
  - assert (application d d j = []) as -> by (unfold application; destruct (j_stage j); try done; by destruct (d_items d !! _)). apply evolves_refl.
  - unfold application. rewrite Hj, Hn. cbn [set_tasks set_items set_rest d_items]. rewrite lookup_insert_eq. split; cbn [set_tasks set_items set_rest d_items d_tasks].
    + intros task k1 Hk1. destruct (moves_touch (j_task j) (j_claim j) now (d_tasks d) task) as [E|(k2 & k3 & E2 & E3 & Hm)]; [rewrite E; eauto using moves_refl|].
      rewrite Hk1 in E2. injection E2 as <-. eauto.
    + intros task k1 Hk1 Hn1. destruct (moves_touch (j_task j) (j_claim j) now (d_tasks d) task) as [E|(k2 & k3 & E2 & _)]; congruence.
    + intros task n raw1 Hraw1. left. rewrite lookup_insert_ne; [done|]. intros [= <- <-]. congruence.
    + intros task n raw1 [[[= <- <-] ->]|[_ Hraw1]]%lookup_insert_Some; auto.
    + intros task n raw1 [= -> -> ->]%list_elem_of_singleton. rewrite lookup_insert_eq. eauto 10.
  - assert (Hf : forall d2, d_items d2 = d_items d -> application d d2 j = []) by (intros d2 E; unfold application; destruct Hj as [-> | ->]; done).
    rewrite Hf by done. apply evolves_rows, insert_moves with k; [done|]. destruct Hj as [Ej|Ej]; apply (Hmay st rs ms now k) in Hr as HF; auto; rewrite Ej in Hst; by apply moves_finished; try apply Hst.
Qed.

Lemma create_evolves actor role kind key payload env d t a d' t' :
  createTask actor role kind key payload env d t = (Ok (a, d'), t') -> evolves d (creation d d' a.1) d'.
Proof.
  intros [[-> [k Hk]]|(Hn & _ & _ & k & -> & Hnew & _)]%createTask_Ok.
  - unfold creation. rewrite Hk. apply evolves_refl.
  - unfold creation. rewrite Hn. cbn [set_tasks d_tasks]. rewrite lookup_insert_eq. split; cbn [set_tasks d_tasks d_items]; [| |auto|auto|set_solver].
    + intros task k1 Hk1. rewrite lookup_insert_ne by congruence. eauto using moves_refl.
    + intros task k1 [[<- <-]|[_ Hk1]]%lookup_insert_Some Hn1; [done|congruence].
Qed.

Lemma prune_tasks_Ok ids env d t a d' t' : prune_tasks ids env d t = (Ok (a, d'), t') -> d' = fold_left (fun d task => prune_task task d) ids d.
Proof. unfold prune_tasks. revert d t. induction ids as [|task ids IH]; intros d t Hrun; cbn [for_each] in Hrun; tx_inv Hrun; [done|]. by apply IH in Hk. Qed.
Lemma prune_evolves ids env d : dropped d ids -> evolves d [] (Write (prune_tasks ids) env d).2.
Proof.
  intros Hd. destruct (Write (prune_tasks ids) env d) as [[a|e] d'] eqn:E; [|apply Write_Err in E as ->; apply evolves_refl].
  apply Write_Ok in E as [t E]. apply prune_tasks_Ok in E as ->. cbn [snd].
  assert (Hrun : forall l d1, (forall task, task ∈ l -> task ∈ ids) -> evolves d [] d1 -> evolves d [] (fold_left (fun d task => prune_task task d) l d1)).
  { intros l. induction l as [|task l IH]; intros d1 Hsub He; [done|]. cbn [fold_left]. apply IH; [set_solver|]. destruct (Hd task) as (k & Hk & Ha); [set_solver|].
    destruct He as [H1 H2 H3 H4 H5]. split; cbn [prune_task set_tasks set_items d_tasks d_items].
    - intros task1 k1 Hk1. destruct (H1 task1 k1 Hk1) as (k2 & E2 & Hm). destruct (decide (task = task1)) as [<-|Hne]; [|rewrite lookup_alter_ne by done; eauto].
      rewrite lookup_alter_eq, E2. exists (drop_result k2). split; [done|]. destruct Hm as [M1 M2 M3 M4 M5]. assert (k1 = k) as -> by congruence.
      split; cbn; auto; [|congruence]. intros Hf. destruct (M2 Hf). auto.
    - intros task1 k1 Hk1 Hn1. destruct (decide (task = task1)) as [<-|Hne]; [congruence|]. rewrite lookup_alter_ne in Hk1 by done. eauto.
    - intros task1 i raw Hi. destruct (decide (task1 = task)) as [->|Hne]; [eauto|]. destruct (H3 _ _ _ Hi) as [Hi1|?]; [left|auto]. by apply map_lookup_filter_Some.
    - intros task1 i raw [Hi _]%map_lookup_filter_Some. auto.
    - set_solver. }
  apply Hrun; [done|apply evolves_refl].
Qed.

Lemma tstep_evolves s evs s' : tstep s evs s' -> (forall j, j ∈ s_jobs s -> stage_final (j_stage j) /\ may_finish j) ->
  (forall ids, ids ∈ s_pruning s -> dropped (s_db s) ids) -> evolves (s_db s) evs (s_db s').
Proof.
  intros Hstep Hj Hp. destruct Hstep as [env actor role key ids a d' Hw|env actor role key mode rules a d' Hw|env actor role task|env|env task claim d' Hw|env f n j j' d' Hn Hs|n|now|env ids Hin|accounts rest];
    cbn [s_db with_db]; try apply evolves_refl.
  - apply Write_Ok in Hw as [t Hw]. unfold createExportTask in Hw. tx_inv Hw. by eapply create_evolves.
  - apply Write_Ok in Hw as [t Hw]. unfold createImportTask in Hw. tx_inv Hw. by eapply create_evolves.
  - destruct (Write _ _ _) as [[a|e] d'] eqn:E; [|apply Write_Err in E as ->; apply evolves_refl]. apply Write_Ok in E as [t E]. unfold cancelTask in E. tx_inv E.
    apply evolves_rows, alter_moves. intros k _. split; cbn; auto. unfold active, pending, running. cbn. congruence.
  - destruct (Write _ _ _) as [[a|e] d'] eqn:E; [|apply Write_Err in E as ->; apply evolves_refl]. apply Write_Ok in E as [t E]. unfold reclaim in E. tx_inv E.
    apply evolves_rows. intros task. rewrite lookup_fmap. destruct (d_tasks (s_db s) !! task) as [k|] eqn:Ek; [right|by left]. eexists _, _. split; [done|]. split; [done|].
    destruct (running k) eqn:Er; [|apply moves_refl]. destruct (_ <? _); [|apply moves_refl]. apply moves_state; [by apply running_active|by left].
  - apply Write_Ok in Hw as [t Hw]. unfold claim_task, Unix_now in Hw. tx_inv Hw. destruct (d_tasks (s_db s) !! task) as [k|] eqn:Ek; [|tx_inv Hk; done].
    destruct (pending k) eqn:Ep; [|tx_inv Hk; done]. tx_inv Hk. apply evolves_rows, insert_moves with k; [done|]. apply moves_state; [unfold active; by rewrite Ep|by right].
  - apply job_step_effect in Hs as [He _]. apply job_effect_evolves; [done|..]; apply Hj; by eapply list_elem_of_lookup_2.
  - apply prune_evolves. by apply Hp.
  - split; cbn; [eauto using moves_refl|intros; congruence|auto|auto|set_solver].
Qed.
End Moves.

(** ** The invariant *)

Definition creation_of (task : string) (evs : list event) : option (string * string) :=
  head (omap (fun e => match e with Created task' kind payload => if decide (task' = task) then Some (kind, payload) else None | _ => None end) evs).
Definition import_of (evs : list event) (task : string) (p : importPayload Rule) : Prop :=
  exists payload, creation_of task evs = Some ("rules.import", payload) /\ unmarshal_import payload = Some p.
Definition has_error (item : taskItem Rule) : bool := negb (String.eqb (t_Error item) "").

(** The end of an import: every one of its items was applied, and the status
    and the result are those of the items. *)
Definition summary (evs : list event) (task status result : string) : Prop :=
  exists p items, import_of evs task p /\ length items = length (i_Rules p) /\
    (forall i item, items !! i = Some item -> t_Index item = i /\ exists raw, Applied task i raw ∈ evs /\ unmarshal_item raw = Some item) /\
    marshal_items items = Some result /\ status = (if existsb has_error items then "completed_with_errors" else "completed").

Definition over (d : Tables R) (task : string) : Prop := exists k, d_tasks d !! task = Some k /\ active k = false.
Definition rows_upto (d : Tables R) (task : string) (n : nat) : Prop := forall i, (i < n)%nat -> is_Some (d_items d !! (task, i)).
Definition job_ok (evs : list event) (d : Tables R) (j : job Rule) : Prop :=
  match j_stage j with
  | Importing _ _ p i => over d (j_task j) \/ (import_of evs (j_task j) p /\ rows_upto d (j_task j) i)
  | Collecting => over d (j_task j) \/ exists p, import_of evs (j_task j) p /\ rows_upto d (j_task j) (length (i_Rules p))
  | Exporting _ _ _ => over d (j_task j) \/ exists payload, creation_of (j_task j) evs = Some ("rules.export", payload)
  | Finishing st rs _ => st = "failed" \/ ((st = "completed" \/ st = "completed_with_errors") /\
      (over d (j_task j) \/ summary evs (j_task j) st rs \/ exists payload, creation_of (j_task j) evs = Some ("rules.export", payload)))
  | Reporting st _ _ => st = "failed" \/ st = "canceled"
  | _ => True
  end.
Record tinv (evs : list event) (s : sys Rule R) : Prop := {
  ti_nodup : NoDup (applied evs);
  ti_applied task i : (task, i) ∈ applied evs -> exists k, d_tasks (s_db s) !! task = Some k /\ (active k = false \/ is_Some (d_items (s_db s) !! (task, i)));
  ti_pruning ids : ids ∈ s_pruning s -> dropped (s_db s) ids;
  ti_created task k : d_tasks (s_db s) !! task = Some k ->
    exists payload, creation_of task evs = Some (k_kind k, payload) /\ (active k = true -> k_payload k = payload);
  ti_uncreated task : d_tasks (s_db s) !! task = None -> creation_of task evs = None;
  ti_rows task i raw : d_items (s_db s) !! (task, i) = Some raw -> Applied task i raw ∈ evs /\
    (exists item, unmarshal_item raw = Some item /\ t_Index item = i) /\ exists p, import_of evs task p /\ (i < length (i_Rules p))%nat;
  ti_jobs j : j ∈ s_jobs s -> job_ok evs (s_db s) j;
  ti_done task k : d_tasks (s_db s) !! task = Some k -> k_kind k = "rules.import" ->
    k_status k = "completed" \/ k_status k = "completed_with_errors" ->
    exists result, summary evs task (k_status k) result /\ (k_result k = result \/ k_result k = "")
}.

Lemma job_ok_final evs d j : job_ok evs d j -> stage_final (j_stage j).
Proof.
  unfold job_ok. destruct (j_stage j) as [| | | |st rs ms| |st rs ms|]; try done; cbn.
  - intros [->|[[->| ->] _]]; split; discriminate.
  - intros [->| ->]; split; discriminate.
Qed.

(** Facts of the past stay. *)
Lemma creation_app task evs evs1 : creation_of task (evs ++ evs1) = match creation_of task evs with Some c => Some c | None => creation_of task evs1 end.
Proof. unfold creation_of. rewrite omap_app. by destruct (omap _ evs). Qed.
Lemma import_app evs evs1 task p : import_of evs task p -> import_of (evs ++ evs1) task p.
Proof. intros (pl & E & Hu). exists pl. by rewrite creation_app, E. Qed.
Lemma import_unique evs task p p' : import_of evs task p -> import_of evs task p' -> p = p'.
Proof. intros (pl & E & Hu) (pl' & E' & Hu'). congruence. Qed.
Lemma summary_app evs evs1 task st rs : summary evs task st rs -> summary (evs ++ evs1) task st rs.
Proof.
  intros (p & items & Hp & Hl & Hi & Hm & Hs). exists p, items. split_and!; [by apply import_app|done| |done|done].
  intros i item E. destruct (Hi i item E) as (? & raw & Hin & ?). split; [done|]. exists raw. split; [|done]. apply elem_of_app. by left.
Qed.
Lemma over_stays F d evs1 d' task : evolves F d evs1 d' -> over d task -> over d' task.
Proof. intros He (k & Hk & Ha). destruct (ev_rows _ _ _ _ He _ _ Hk) as (k' & Hk' & Hm). exists k'. split; [done|]. by eapply moves_final. Qed.
Lemma rows_evolves F d evs1 d' task n : evolves F d evs1 d' -> rows_upto d task n -> over d' task \/ rows_upto d' task n.
Proof.
  intros He. induction n as [|n IH]; intros Hr; [right; intros i Hi; lia|]. destruct IH as [?|IH]; [intros i Hi; apply Hr; lia|by left|].
  destruct (Hr n) as [raw Hraw]; [lia|]. destruct (ev_items _ _ _ _ He _ _ _ Hraw) as [Hn|Ho]; [|left; by eapply over_stays].
  right. intros i Hi. destruct (decide (i = n)) as [->|]; [by eexists|apply IH; lia].
Qed.
Lemma job_ok_evolves F evs d evs1 d' j : evolves F d evs1 d' -> job_ok evs d j -> job_ok (evs ++ evs1) d' j.
Proof.
  intros He. unfold job_ok. pose proof (over_stays F d evs1 d' (j_task j) He) as Ho.
  assert (Hx : (exists payload, creation_of (j_task j) evs = Some ("rules.export", payload)) -> exists payload, creation_of (j_task j) (evs ++ evs1) = Some ("rules.export", payload)).
  { intros [pl E]. exists pl. by rewrite creation_app, E. }
  destruct (j_stage j) as [|owner admin p i| | |st rs ms| | |]; try done.
  - intros [?|[Hp Hr]]; [auto|]. destruct (rows_evolves _ _ _ _ _ _ He Hr); [auto|right]. split; [by apply import_app|done].
  - intros [?|(p & Hp & Hr)]; [auto|]. destruct (rows_evolves _ _ _ _ _ _ He Hr); [auto|right]. exists p. split; [by apply import_app|done].
  - intros [?|?]; auto.
  - intros [?|[Hs [?|[?|?]]]]; [by left|right; split; [done|]..]; auto using summary_app.
Qed.

(** ** Collecting the items of an import *)

Lemma rows_elem task d i raw : (i, raw) ∈ omap (fun r : string * nat * string => if decide (r.1.1 = task) then Some (r.1.2, r.2) else None) (map_to_list (d_items d)) <->
  d_items d !! (task, i) = Some raw.
Proof.
  rewrite list_elem_of_omap. split.
  - intros ([[task' i'] raw'] & Hin & E). cbn in E. destruct (decide (task' = task)) as [->|]; [|done]. injection E as -> ->. by apply elem_of_map_to_list in Hin.
  - intros E. exists (task, i, raw). split; [by apply elem_of_map_to_list|]. cbn. by rewrite decide_True.
Qed.
Lemma rows_nodup task (l : list (string * nat * string)) : NoDup l ->
  NoDup (omap (fun r : string * nat * string => if decide (r.1.1 = task) then Some (r.1.2, r.2) else None) l).
Proof.
  induction 1 as [|[[task' i] raw] l Hn _ IH]; cbn; [constructor|]. destruct (decide (task' = task)) as [->|]; [|done]. constructor; [|done].
  intros ([[task' i'] raw'] & Hin & E)%list_elem_of_omap. cbn in E. destruct (decide (task' = task)) as [->|]; [|done]. congruence.
Qed.
Lemma seq_by_index (f : nat -> string) m n : StronglySorted by_index ((fun i => (i, f i)) <$> seq m n).
Proof.
  revert m. induction n as [|n IH]; intros m; cbn; constructor; [apply IH|]. apply Forall_fmap, Forall_forall. intros i Hi%elem_of_seq. unfold by_index. cbn. lia.
Qed.
(** With a row for each of the first [n] items and no other, in order. *)
Lemma rows_in_order task d n : rows_upto d task n -> (forall i raw, d_items d !! (task, i) = Some raw -> (i < n)%nat) ->
  rows_of task d = (fun i => (i, default "" (d_items d !! (task, i)))) <$> seq 0 n.
Proof.
  intros Hr Hb. unfold rows_of. set (l := omap _ _). set (l' := fmap _ _).
  assert (Hperm : l ≡ₚ l').
  { apply NoDup_Permutation; [apply rows_nodup, NoDup_map_to_list|apply NoDup_fmap; [intros ? ? [= ? _]; done|apply NoDup_seq]|].
    intros [i raw]. unfold l, l'. rewrite rows_elem, list_elem_of_fmap. split.
    - intros E. exists i. rewrite E. split; [done|]. apply elem_of_seq. apply Hb in E. lia.
    - intros (i' & E & Hi%elem_of_seq). destruct (Hr i') as [raw' E']; [lia|]. rewrite E' in E. cbn in E. congruence. }
  assert (Htotal : Total by_index) by (intros x y; unfold by_index; lia). assert (Htrans : Transitive by_index) by (intros x y z; unfold by_index; lia).
  apply (StronglySorted_unique_strong by_index).
  - intros [i raw] [i' raw'] H1 H2 L1 L2. unfold by_index in *. cbn in *. assert (i = i') as <- by lia. f_equal.
    rewrite merge_sort_Permutation in H1. apply rows_elem in H1. unfold l' in H2. apply list_elem_of_fmap in H2 as (i' & [= -> ->] & _). by rewrite H1.
  - by apply StronglySorted_merge_sort.
  - apply seq_by_index.
  - by rewrite merge_sort_Permutation.
Qed.
Lemma importResult_summary evs s task p result failed : tinv evs s -> import_of evs task p -> rows_upto (s_db s) task (length (i_Rules p)) ->
  importResult task (s_db s) = Ok (result, failed) ->
  summary evs task (if failed then "completed_with_errors" else "completed") result.
Proof.
  intros Hi Hp Hr. unfold importResult. rewrite (rows_in_order task (s_db s) (length (i_Rules p)) Hr).
  2: { intros i raw (_ & _ & p' & Hp' & Hlt)%(ti_rows _ _ Hi). by rewrite (import_unique _ _ _ _ Hp Hp'). }
  destruct (mapM _ _) as [items|] eqn:Em; [|done]. destruct (marshal_items items) as [raw|] eqn:Er; [|done]. intros [= -> <-].
  apply mapM_Some_1, Forall2_fmap_l in Em. exists p, items. split_and!; [done| | |done|by destruct (existsb _ items)].
  - apply Forall2_length in Em. rewrite length_seq in Em. done.
  - intros i item Ei. apply (Forall2_lookup_r _ _ _ _ _ Em) in Ei as (i' & [-> Hlt]%lookup_seq & Hu). cbn in Hu. destruct (Hr i) as [raw Hraw]; [done|]. rewrite Hraw in Hu. cbn in Hu.
    destruct (ti_rows _ _ Hi _ _ _ Hraw) as (Ha & (item' & Hu' & Hx) & _). assert (item' = item) as -> by congruence. eauto.
Qed.

(** ** Every step keeps the invariant *)

Lemma start_task_ok evs s task claim st : tinv evs s -> start_task task claim (s_db s) = Ok st ->
  job_ok evs (s_db s) {| j_task := task; j_claim := claim; j_stage := st |}.
Proof.
  intros Hi. unfold start_task. destruct (d_tasks (s_db s) !! task) as [k|] eqn:Ek; [|done]. destruct (negb _); [done|].
  destruct (ti_created _ _ Hi _ _ Ek) as (pl & Hc & Hp). assert (Ho : over (s_db s) task \/ k_payload k = pl).
  { destruct (active k) eqn:Ea; [right; auto|left; by exists k]. }
  destruct (String.eqb_spec (k_kind k) "rules.import") as [Ei|_].
  - destruct (unmarshal_import (k_payload k)) as [p|] eqn:Eu; [|done]. intros [= <-]. destruct Ho as [?|Ho]; [by left|right]. cbn [j_task].
    split; [exists pl; rewrite Hc, Ei; split; congruence|intros i Hlt; lia].
  - destruct (String.eqb_spec (k_kind k) "rules.export") as [Ex|_]; cbn [negb]; [|intros [= <-]; by left].
    destruct (unmarshal_export (k_payload k)) as [p|] eqn:Eu; [|done]. intros [= <-]. right. exists pl. cbn [j_task]. by rewrite Hc, Ex.
Qed.

Lemma job_step_ok F env f evs evs1 s j j' d' : tinv evs s -> j ∈ s_jobs s -> job_step env f j (s_db s) = (j', d') -> evolves F (s_db s) evs1 d' ->
  job_ok (evs ++ evs1) d' j'.
Proof.
  intros Hi Hin Hstep He. pose proof (ti_jobs _ _ Hi _ Hin) as Hj. assert (Hsame : job_ok evs (s_db s) j' -> job_ok (evs ++ evs1) d' j') by (by eapply job_ok_evolves).
  assert (Hsame' : forall st, (at_stage j st, s_db s) = (j', d') -> job_ok evs (s_db s) (at_stage j st) -> job_ok (evs ++ evs1) d' j') by (intros st [= <- <-]; done).
  unfold job_step in Hstep. unfold job_ok in Hj. destruct (j_stage j) as [|owner admin p i| |owner admin p|st rs ms|e|st rs ms|e] eqn:Ej.
  - eapply Hsame'; [exact Hstep|]. unfold query. destruct f; cbn [or_failed]; [|done|done].
    destruct (start_task _ _ _) as [st|e] eqn:E; [|done]. exact (start_task_ok _ _ _ _ _ Hi E).
  - destruct (i_Rules p !! i) as [input|] eqn:Ei.
    2: { eapply Hsame'; [exact Hstep|]. destruct Hj as [Ho|[Hp Hr]]; [by left|right]. exists p. split; [done|]. apply lookup_ge_None in Ei. intros n Hn. apply Hr. lia. }
    destruct (attempt _ _ _ _) as [[a|e] d1] eqn:E; injection Hstep as <- <-; [|done]. unfold attempt in E. destruct f; [|done|done].
    apply Write_Ok in E as [t E]. apply import_item_Ok in E as [_ Hcase]. unfold job_ok. cbn [at_stage j_stage j_task or_failed].
    destruct Hj as [Ho|[Hp Hr]]; [left; by eapply over_stays|]. destruct (rows_evolves _ _ _ _ _ _ He Hr) as [Ho|Hr']; [by left|right].
    split; [by apply import_app|]. intros n Hn. destruct (decide (n = i)) as [->|]; [|apply Hr'; lia].
    destruct Hcase as [[-> ?]|(_ & rest & r & raw & now & _ & ->)]; [done|]. cbn. rewrite lookup_insert_eq. by eexists.
  - eapply Hsame'; [exact Hstep|]. unfold query. destruct f; cbn [or_failed]; [|done|done]. destruct (importResult _ _) as [[rs b]|e] eqn:E; cbn [or_failed fst snd]; [|done].
    right. split; [destruct b; auto|]. destruct Hj as [?|(p & Hp & Hr)]; [by left|right; left]. by eapply importResult_summary.
  - destruct (attempt _ _ _ _) as [[items|e] d1]; injection Hstep as <- <-; cbn [or_failed]; [|done]. destruct (marshal_rules items) as [raw|]; [|done].
    right. split; [by left|]. cbn [at_stage j_task]. destruct Hj as [Ho|[pl Hc]]; [left; by eapply over_stays|right; right]. exists pl. by rewrite creation_app, Hc.
  - destruct (attempt _ _ _ _) as [[a|e] d1]; by injection Hstep as <- <-.
  - eapply Hsame'; [exact Hstep|]. destruct (query _ _ _) as [r|e']; [|done]. destruct (decide _); [by right|by left].
  - destruct (attempt _ _ _ _) as [r d1]; by injection Hstep as <- <-.
  - injection Hstep as <- <-. apply Hsame. unfold job_ok. by rewrite Ej.
Qed.

(** How a task gets its final state: from a worker that holds it. *)
Definition by_worker (s : sys Rule R) (task : string) (k k' : task_row) : Prop :=
  exists j st rs ms now, j ∈ s_jobs s /\ j_task j = task /\ (j_stage j = Finishing st rs ms \/ j_stage j = Reporting st rs ms) /\ k' = finishing j st rs ms now k.
Lemma step_evolves evs s evs1 s' : tinv evs s -> tstep s evs1 s' -> evolves (by_worker s) (s_db s) evs1 (s_db s').
Proof.
  intros Hi Hstep. eapply tstep_evolves; [exact Hstep| |by apply (ti_pruning _ _ Hi)]. intros j Hj. split; [by eapply job_ok_final, (ti_jobs _ _ Hi)|].
  intros st rs ms now k Hst _. exists j, st, rs, ms, now. done.
Qed.
Lemma step_jobs evs s evs1 s' : tinv evs s -> tstep s evs1 s' -> (forall j, j ∈ s_jobs s' -> job_ok (evs ++ evs1) (s_db s') j) /\
  (forall ids, ids ∈ s_pruning s' -> dropped (s_db s') ids).
Proof.
  intros Hi Hstep. pose proof (step_evolves _ _ _ _ Hi Hstep) as He.
  assert (Hold : forall j, j ∈ s_jobs s -> job_ok (evs ++ evs1) (s_db s') j) by (intros j Hj; eapply job_ok_evolves; [exact He|by apply (ti_jobs _ _ Hi)]).
  assert (Hids : forall ids, ids ∈ s_pruning s -> dropped (s_db s') ids) by (intros ids Hin task Ht; eapply over_stays; [exact He|by apply (ti_pruning _ _ Hi ids)]).
  destruct Hstep as [env actor role key ids a d' Hw|env actor role key mode rules a d' Hw|env actor role task|env|env task claim d' Hw|env f n j j' d' Hn Hs|n|now|env ids Hin|accounts rest];
    cbn [s_db s_jobs s_pruning with_db] in *; try (split; assumption).
  - split; [|done]. intros j [->|Hj]%elem_of_cons; [done|auto].
  - split; [|done]. intros j1 [m Hm]%list_elem_of_lookup. destruct (decide (n = m)) as [<-|Hne].
    + rewrite list_lookup_insert_eq in Hm by (by eapply lookup_lt_Some). injection Hm as <-. eapply job_step_ok; [exact Hi| |exact Hs|exact He]. by eapply list_elem_of_lookup_2.
    + rewrite list_lookup_insert_ne in Hm by done. apply Hold. by eapply list_elem_of_lookup_2.
  - split; [|done]. intros j Hj. apply Hold. revert Hj. rewrite delete_take_drop, elem_of_app. intros [Hj|Hj]; [by eapply subseteq_take|by eapply subseteq_drop].
  - split; [done|]. intros ids [->|Hin]%elem_of_cons; [|auto]. intros task Ht. unfold prunable_tasks in Ht. apply list_elem_of_fmap in Ht as ([task' k] & -> & Hin).
    apply (subseteq_take 100) in Hin. rewrite merge_sort_Permutation in Hin. apply list_elem_of_filter in Hin as [(Ha & _) Hin]. apply elem_of_map_to_list in Hin. exists k. done.
Qed.

Lemma creation_no_item d d' a task i raw : Applied task i raw ∉ creation d d' a.
Proof. unfold creation. destruct (d_tasks d !! a), (d_tasks d' !! a); set_solver. Qed.
(** An item that is applied: by a worker at that item of the import. *)
Lemma applied_by evs s evs1 s' task i raw : tinv evs s -> tstep s evs1 s' -> Applied task i raw ∈ evs1 ->
  (exists item, unmarshal_item raw = Some item /\ t_Index item = i) /\ exists p, import_of evs task p /\ (i < length (i_Rules p))%nat.
Proof.
  intros Hi Hstep. destruct Hstep as [env actor role key ids a d' Hw|env actor role key mode rules a d' Hw|env actor role tk|env|env tk claim d' Hw|env f n j j' d' Hn Hs|n|now|env ids Hin|accounts rest];
    try (intros []%not_elem_of_nil); try (intros []%creation_no_item).
  intros Hin. apply job_step_effect in Hs as [He _]. apply list_elem_of_lookup_2 in Hn. destruct He as [->|owner admin p i1 input k rest r raw1 now Hj Hx Hk Hr Hc _ Hnone Hraw ->|st rs ms k now Hj Hk Hr Hc ->].
  - exfalso. unfold application in Hin. destruct (j_stage j); try set_solver. destruct (d_items _ !! _); set_solver.
  - unfold application in Hin. rewrite Hj, Hnone in Hin. cbn [set_tasks set_items d_items] in Hin. rewrite lookup_insert_eq in Hin. apply list_elem_of_singleton in Hin as [= -> -> ->].
    split; [exists (outcome_of i1 r); split; [by apply item_text|by destruct r]|]. pose proof (ti_jobs _ _ Hi _ Hn) as Hok. unfold job_ok in Hok. rewrite Hj in Hok. destruct Hok as [(k1 & Hk1 & Ha)|[Hp _]].
    + apply running_active in Hr. congruence.
    + exists p. split; [done|]. by eapply lookup_lt_Some.
  - exfalso. unfold application in Hin. destruct Hj as [Hj|Hj]; rewrite Hj in Hin; set_solver.
Qed.

Lemma applied_app evs evs1 : applied (evs ++ evs1) = (applied evs ++ applied evs1)%list.
Proof. apply omap_app. Qed.
Lemma step_once evs s evs1 s' : tinv evs s -> tstep s evs1 s' -> NoDup (applied (evs ++ evs1)) /\
  forall task i, (task, i) ∈ applied (evs ++ evs1) -> exists k, d_tasks (s_db s') !! task = Some k /\ (active k = false \/ is_Some (d_items (s_db s') !! (task, i))).
Proof.
  intros Hi Hstep. pose proof (step_evolves _ _ _ _ Hi Hstep) as He. rewrite applied_app.
  assert (Hcases : applied evs1 = [] \/ exists task i raw, evs1 = [Applied task i raw]).
  { destruct (applied evs1) as [|[task i] l] eqn:E; [by left|right]. assert (Hin : (task, i) ∈ applied evs1) by (rewrite E; left).
    apply list_elem_of_omap in Hin as ([|task' i' raw] & Hin & [= -> ->]). destruct (ev_applied _ _ _ _ He _ _ _ Hin) as [-> _]. eauto. }
  assert (Hold : forall task i, (task, i) ∈ applied evs -> exists k, d_tasks (s_db s') !! task = Some k /\ (active k = false \/ is_Some (d_items (s_db s') !! (task, i)))).
  { intros task i (k & Hk & Ho)%(ti_applied _ _ Hi). destruct (ev_rows _ _ _ _ He _ _ Hk) as (k' & Hk' & Hm). exists k'. split; [done|]. destruct Ho as [Ho|[raw Hraw]]; [left; by eapply moves_final|].
    destruct (ev_items _ _ _ _ He _ _ _ Hraw) as [?|(k1 & Hk1 & Ha)]; [right; by eexists|left]. eapply moves_final; [exact Hm|congruence]. }
  destruct Hcases as [->|(task & i & raw & ->)]; [rewrite app_nil_r; split; [apply Hi|done]|]. cbn.
  destruct (ev_applied _ _ _ _ He task i raw ltac:(left)) as (_ & Hn & Hs & k & Hk & Hr & _). split.
  - apply NoDup_app. split_and!; [apply Hi| |apply NoDup_singleton]. intros [task' i'] Hin [= -> ->]%list_elem_of_singleton. apply (ti_applied _ _ Hi) in Hin as (k1 & Hk1 & [Ha|[raw1 Hx]]); [|congruence].
    apply running_active in Hr. congruence.
  - intros task' i' [Hin|[= -> ->]%list_elem_of_singleton]%elem_of_app; [auto|]. destruct (ev_rows _ _ _ _ He _ _ Hk) as (k' & Hk' & _). exists k'. split; [done|]. right. by eexists.
Qed.

Lemma step_done evs s evs1 s' task k : tinv evs s -> tstep s evs1 s' -> d_tasks (s_db s') !! task = Some k -> k_kind k = "rules.import" ->
  k_status k = "completed" \/ k_status k = "completed_with_errors" ->
  exists result, summary (evs ++ evs1) task (k_status k) result /\ (k_result k = result \/ k_result k = "").
Proof.
  intros Hi Hstep Hk Hkind Hst. pose proof (step_evolves _ _ _ _ Hi Hstep) as He. destruct (d_tasks (s_db s) !! task) as [k0|] eqn:Ek0.
  2: { destruct (ev_new _ _ _ _ He _ _ Hk Ek0) as [(Hp & _) _]. rewrite Hp in Hst. by destruct Hst. }
  destruct (ev_rows _ _ _ _ He _ _ Ek0) as (k' & Hk' & Hm). assert (k' = k) as -> by congruence. destruct (mv_same _ _ _ _ Hm) as (_ & Hkk & _). destruct (active k0) eqn:Ea.
  - assert (Ha : active k = false) by (unfold active, pending, running; by destruct Hst as [-> | ->]). destruct (mv_done _ _ _ _ Hm Ea Ha) as (j & st & rs & ms & now & Hj & Ht & Hstage & ->).
    unfold finishing in *. cbn [finished k_status k_result k_kind] in *. destruct (k_cancel k0); [by destruct Hst|]. cbn [andb]. exists rs. split; [|by left].
    apply summary_app. pose proof (ti_jobs _ _ Hi _ Hj) as Hok. unfold job_ok in Hok. destruct Hstage as [E|E]; rewrite E in Hok.
    + destruct Hok as [->|[_ [(k1 & Hk1 & Ha1)|[Hs|[pl Hc]]]]]; [by destruct Hst|rewrite Ht in Hk1; congruence|by rewrite <- Ht|].
      destruct (ti_created _ _ Hi _ _ Ek0) as (pl1 & Hc1 & _). rewrite Ht in Hc. congruence.
    + destruct Hok as [-> | ->]; by destruct Hst.
  - destruct (mv_final _ _ _ _ Hm Ea) as [Es Er]. rewrite Es in *. destruct (ti_done _ _ Hi _ _ Ek0 ltac:(congruence) Hst) as (result & Hs & Hres). exists result. split; [by apply summary_app|].
    destruct Er as [-> | ->]; auto.
Qed.

Lemma step_uncreated s evs1 s' task : tstep s evs1 s' -> d_tasks (s_db s') !! task = None -> creation_of task evs1 = None.
Proof.
  assert (Hc : forall d d' a, d_tasks d' !! task = None -> creation_of task (creation d d' a) = None).
  { intros d d' a Hn. unfold creation. destruct (d_tasks d !! a) eqn:E1; [done|]. destruct (d_tasks d' !! a) eqn:E2; [|done]. unfold creation_of. cbn. rewrite decide_False; [done|congruence]. }
  destruct 1; try done; cbn [with_db s_db]; [by apply Hc..|]. intros _. unfold application. destruct (j_stage _); try done. destruct (d_items (s_db s) !! _); [done|]. by destruct (d_items d' !! _).
Qed.
Lemma tinv_step evs s evs1 s' : tinv evs s -> tstep s evs1 s' -> tinv (evs ++ evs1) s'.
Proof.
  intros Hi Hstep. pose proof (step_evolves _ _ _ _ Hi Hstep) as He. destruct (step_jobs _ _ _ _ Hi Hstep) as [Hjobs Hprune]. destruct (step_once _ _ _ _ Hi Hstep) as [Hnd Happ].
  split; [done|done|done| | | |done|by intros; eapply step_done].
  - intros task k Hk. destruct (d_tasks (s_db s) !! task) as [k0|] eqn:Ek0.
    + destruct (ev_rows _ _ _ _ He _ _ Ek0) as (k' & Hk' & Hm). assert (k' = k) as -> by congruence. destruct (ti_created _ _ Hi _ _ Ek0) as (pl & Hc & Hp). exists pl.
      destruct (mv_same _ _ _ _ Hm) as (_ & -> & _). split; [by rewrite creation_app, Hc|]. intros Ha. destruct (mv_payload _ _ _ _ Hm Ha) as [Ha0 ->]. auto.
    + destruct (ev_new _ _ _ _ He _ _ Hk Ek0) as [_ ->]. exists (k_payload k). split; [|done]. rewrite creation_app, (ti_uncreated _ _ Hi _ Ek0). unfold creation_of. cbn. by rewrite decide_True.
  - intros task Hn. destruct (d_tasks (s_db s) !! task) as [k0|] eqn:Ek0; [destruct (ev_rows _ _ _ _ He _ _ Ek0) as (k' & Hk' & _); congruence|].
    rewrite creation_app, (ti_uncreated _ _ Hi _ Ek0). by eapply step_uncreated.
  - intros task i raw Hraw. destruct (ev_fresh _ _ _ _ He _ _ _ Hraw) as [Hold|E].
    + destruct (ti_rows _ _ Hi _ _ _ Hold) as (Ha & Hd & p & Hp & Hlt). split; [apply elem_of_app; by left|]. split; [done|]. exists p. split; [by apply import_app|done].
    + assert (Hin : Applied task i raw ∈ evs1) by (rewrite E; left). destruct (applied_by _ _ _ _ _ _ _ Hi Hstep Hin) as (Hd & p & Hp & Hlt).
      split; [apply elem_of_app; by right|]. split; [done|]. exists p. split; [by apply import_app|done].
Qed.
Lemma tinv_new accounts rest : tinv [] (new_panel accounts rest).
Proof. split; cbn; try (intros; set_solver). constructor. Qed.
Lemma truns_inv s evs0 evs s' : tinv evs0 s -> truns s evs s' -> tinv (evs0 ++ evs) s'.
Proof. intros Hi. induction 1 as [|evs s1 evs1 s2 _ IH Hstep]; [by rewrite app_nil_r|]. rewrite app_assoc. by eapply tinv_step. Qed.
End TaskInv.
