(* ===== verification/TaskGuarantees.v ===== *)
(** * What tasks guarantee

    However many workers there are, whatever they are interrupted by, and
    whatever else happens to the panel: an item of an import is applied at
    most once, a completed import has applied them all and reports them, a
    canceled task does nothing more, users have a limited number of tasks; and
    a worker that is not interrupted finishes every task it is to run. *)

From S2P Require Import Prelude Tx Calendar Digest Tasks TaskInv.
From stdpp Require Import base gmap strings list sorting relations countable.
From Stdlib Require Import Ascii String.
Local Open Scope string_scope.
Local Open Scope Z_scope.
Local Abbreviation length := List.length.

Section Guarantees.
Context {Rule R : Type} `{RuleService Rule R} `{TaskJSON Rule} `{!TaskJSONLaws Rule}.
Implicit Types (s : sys Rule R) (d : Tables R).

Lemma reachable_tinv accounts rest evs s : truns (new_panel accounts rest) evs s -> tinv evs s.
Proof. intros Hrun. apply (truns_inv _ [] _ _ (tinv_new accounts rest) Hrun). Qed.

(** C21: an item of an import is applied at most once, and only by the worker
    that holds the task.  In no run is an item applied twice; and when the
    next access of a worker changes anything of the panel outside the tables
    of tasks, it is at an item of a running task that nobody has canceled,
    whose token it has, that was not applied before, and that is marked as
    applied in the same transaction. *)
Theorem tasks_once accounts rest evs s : truns (new_panel accounts rest) evs s ->
  NoDup (applied evs) /\
  forall n j env f j' d', s_jobs s !! n = Some j -> job_step env f j (s_db s) = (j', d') -> d_rest d' <> d_rest (s_db s) ->
    exists owner admin p i k, j_stage j = Importing owner admin p i /\ (j_task j, i) ∉ applied evs /\ is_Some (d_items d' !! (j_task j, i)) /\
      d_tasks (s_db s) !! j_task j = Some k /\ running k = true /\ k_claim k = j_claim j /\ k_cancel k = false.
Proof.
  intros Hi%reachable_tinv. split; [apply Hi|]. intros n j env f j' d' Hn [He _]%job_step_effect Hne.
  destruct He as [->|owner admin p i input k rest' r raw now Hj Hx Hk Hr Hc Hcan Hnone Hraw ->|st rs ms k now Hj Hk Hr Hc ->]; [done| |done].
  exists owner, admin, p, i, k. split_and!; [done| | |done|done|done|done].
  - intros (k1 & Hk1 & [Ha|[raw1 Hraw1]])%(ti_applied _ _ Hi); [|congruence]. apply running_active in Hr. congruence.
  - cbn. rewrite lookup_insert_eq. by eexists.
Qed.

(** C22: a completed import is complete.  When an import has the status
    completed or completed_with_errors, every rule of the payload it was
    created with has been applied; its result lists the items in order,
    exactly as they were recorded, until it is dropped; and the status says
    whether one of them was rejected. *)
Theorem tasks_complete accounts rest evs s task k : truns (new_panel accounts rest) evs s -> d_tasks (s_db s) !! task = Some k ->
  k_kind k = "rules.import" -> k_status k = "completed" \/ k_status k = "completed_with_errors" ->
  exists payload p items result, Created task "rules.import" payload ∈ evs /\ unmarshal_import payload = Some p /\ length items = length (i_Rules p) /\
    (forall i item, items !! i = Some item -> t_Index item = i /\ exists raw, Applied task i raw ∈ evs /\ unmarshal_item raw = Some item) /\
    marshal_items items = Some result /\ (k_result k = result \/ k_result k = "") /\
    (k_status k = "completed_with_errors" <-> exists item, item ∈ items /\ t_Error item <> "").
Proof.
  intros Hi%reachable_tinv Hk Hkind Hst. destruct (ti_done _ _ Hi _ _ Hk Hkind Hst) as (result & (p & items & (pl & Hc & Hu) & Hl & Hitems & Hm & Hs) & Hres).
  exists pl, p, items, result. split_and!; try done.
  - unfold creation_of in Hc. apply head_Some_elem_of, list_elem_of_omap in Hc as ([task' kind payload|] & Hin & E); [|done].
    destruct (decide (task' = task)) as [->|]; [|done]. by injection E as -> ->.
  - rewrite Hs. destruct (existsb has_error items) eqn:E.
    + apply existsb_exists in E as (item & Hin & He). split; [|done]. intros _. exists item. split; [by apply list_elem_of_In|].
      unfold has_error in He. apply negb_true_iff in He. by apply String.eqb_neq.
    + split; [done|]. intros (item & Hin & He). exfalso. apply not_true_iff_false in E. apply E, existsb_exists. exists item. split; [by apply list_elem_of_In|].
      unfold has_error. apply negb_true_iff. by apply String.eqb_neq.
Qed.

(** C23: a canceled task does nothing more.  Once a cancellation of a task that
    is not finished has been accepted, whatever happens then, no item of it is
    applied any more, and it can only end as canceled. *)
Theorem tasks_canceled accounts rest evs s evs1 s' task k : truns (new_panel accounts rest) evs s ->
  d_tasks (s_db s) !! task = Some k -> active k = true -> k_cancel k = true -> truns s evs1 s' ->
  (forall i, (task, i) ∉ applied evs1) /\
  exists k', d_tasks (s_db s') !! task = Some k' /\ k_cancel k' = true /\ (active k' = true \/ k_status k' = "canceled").
Proof.
  intros Hi%reachable_tinv Hk Ha Hc. induction 1 as [|evs1 s1 evs2 s2 Hrun IH Hstep].
  - split; [intros i []%not_elem_of_nil|]. exists k. auto.
  - destruct IH as (Hno & k1 & Hk1 & Hc1 & Hst1). pose proof (step_evolves _ _ _ _ (truns_inv _ _ _ _ Hi Hrun) Hstep) as He.
    destruct (ev_rows _ _ _ _ He _ _ Hk1) as (k2 & Hk2 & Hm). destruct (mv_cancel _ _ _ _ Hm Hc1) as [Hc2 Hst2]. split.
    + intros i. rewrite applied_app. intros [Hin|Hin]%elem_of_app; [by eapply Hno|]. apply list_elem_of_omap in Hin as ([|task' i' raw] & Hin & [= -> ->]).
      destruct (ev_applied _ _ _ _ He _ _ _ Hin) as (_ & _ & _ & k3 & Hk3 & _ & Hc3). congruence.
    + exists k2. split_and!; [done|done|]. destruct (active k1) eqn:E; [auto|]. right. destruct (mv_final _ _ _ _ Hm E) as [-> _]. by destruct Hst1.
Qed.

(** ** Limits *)

Lemma map_sum_shrinks (f : string -> task_row -> Z) (m m' : gmap string task_row) : (forall key v, m !! key = Some v -> 0 <= f key v) ->
  (forall key v', m' !! key = Some v' -> exists v, m !! key = Some v /\ f key v' <= f key v) -> map_sum f m' <= map_sum f m.
Proof.
  revert m. induction m' as [|key v' m' Hn IH] using map_ind; intros m Hpos Hrel.
  - rewrite map_sum_empty. by apply map_sum_nonneg.
  - destruct (Hrel key v') as (v & Hv & Hle); [apply lookup_insert_eq|]. rewrite map_sum_insert_None by done. pose proof (map_sum_delete f m key v Hv).
    assert (Hdel : map_sum f m' <= map_sum f (delete key m)); [|lia]. apply IH.
    + intros key1 v1 [_ Hv1]%lookup_delete_Some. by apply Hpos.
    + intros key1 v1 Hv1. assert (key <> key1) by (intros <-; congruence). destruct (Hrel key1 v1) as (v2 & Hv2 & Hle2); [by rewrite lookup_insert_ne|].
      exists v2. by rewrite lookup_delete_ne.
Qed.
Definition counts (user : string) (k : task_row) : Z := if String.eqb (k_user k) user && active k then 1 else 0.
Lemma active_shrinks F (d : Tables R) evs d' user : evolves F d evs d' -> (forall task, d_tasks d' !! task <> None -> d_tasks d !! task <> None) ->
  active_tasks user d' <= active_tasks user d.
Proof.
  intros He Hdom. apply (map_sum_shrinks (fun _ => counts user)); [intros; unfold counts; by destruct (_ && _)|]. intros task k' Hk'.
  destruct (d_tasks d !! task) as [k|] eqn:Ek; [|exfalso; apply (Hdom task); congruence]. destruct (ev_rows _ _ _ _ He _ _ Ek) as (k1 & Hk1 & Hm). assert (k1 = k') as -> by congruence.
  exists k. split; [done|]. unfold counts. destruct (mv_same _ _ _ _ Hm) as (-> & _). destruct (String.eqb (k_user k) user); cbn; [|done].
  destruct (active k') eqn:E; [|by destruct (active k)]. by destruct (mv_payload _ _ _ _ Hm E) as [-> _].
Qed.

Definition limited (d : Tables R) : Prop :=
  (forall user, active_tasks user d <= 10) /\
  forall t1 t2 k1 k2, d_tasks d !! t1 = Some k1 -> d_tasks d !! t2 = Some k2 -> k_user k1 = k_user k2 -> k_key k1 = k_key k2 -> t1 = t2.

Lemma limited_create actor role kind key payload env (d : Tables R) t a d' t' : createTask actor role kind key payload env d t = (Ok (a, d'), t') -> limited d -> limited d'.
Proof.
  intros [[-> _]|(Hn & Hlt & Hkey & k & -> & Hnew & Hu & Hkd & Hkk & _)]%createTask_Ok [Hact Huniq]; [done|]. split.
  - intros user. unfold active_tasks in *. cbn [set_tasks d_tasks]. rewrite map_sum_insert_None by done. specialize (Hact user). rewrite Hu. destruct (String.eqb_spec actor user) as [->|]; cbn [andb]; [|lia].
    destruct (active k); lia.
  - assert (Hno : forall t1 k1, d_tasks d !! t1 = Some k1 -> k_user k1 = actor -> k_key k1 = key -> False).
    { intros t1 k1 Hk1 E1 E2. unfold task_by_key in Hkey. apply head_None in Hkey. assert (Hin : (t1, k1) ∈ filter (fun tk : string * task_row => k_user tk.2 = actor /\ k_key tk.2 = key) (map_to_list (d_tasks d))).
      { apply list_elem_of_filter. split; [done|]. by apply elem_of_map_to_list. } rewrite Hkey in Hin. by apply not_elem_of_nil in Hin. }
    cbn [set_tasks d_tasks]. intros t1 t2 k1 k2 [[<- <-]|[Ht1 Hk1]]%lookup_insert_Some [[<- <-]|[Ht2 Hk2]]%lookup_insert_Some Eu Ek; [done|exfalso|exfalso|by eapply Huniq].
    + eapply Hno; [exact Hk2|congruence|congruence].
    + eapply Hno; [exact Hk1|congruence|congruence].
Qed.
Lemma limited_evolves F (d : Tables R) evs d' : evolves F d evs d' -> (forall task, d_tasks d' !! task <> None -> d_tasks d !! task <> None) -> limited d -> limited d'.
Proof.
  intros He Hdom [Hact Huniq]. split; [intros user; etrans; [by eapply active_shrinks|apply Hact]|].
  assert (Hback : forall t1 k1, d_tasks d' !! t1 = Some k1 -> exists k0, d_tasks d !! t1 = Some k0 /\ k_user k1 = k_user k0 /\ k_key k1 = k_key k0).
  { intros t1 k1 Hk1. destruct (d_tasks d !! t1) as [k0|] eqn:E; [|exfalso; apply (Hdom t1); congruence]. destruct (ev_rows _ _ _ _ He _ _ E) as (k2 & Hk2 & Hm). assert (k2 = k1) as -> by congruence.
    exists k0. destruct (mv_same _ _ _ _ Hm) as (? & _ & ?). done. }
  intros t1 t2 k1 k2 (k3 & H3 & U3 & K3)%Hback (k4 & H4 & U4 & K4)%Hback Eu Ek. eapply Huniq; [exact H3|exact H4|congruence|congruence].
Qed.

(** Tasks are limited and not repeated.  A user never has more than 10
    tasks that are not finished, and two tasks of a user never have the same
    idempotency key. *)
Theorem tasks_limited accounts rest evs s : truns (new_panel accounts rest) evs s -> limited (s_db s).
Proof.
  intros Hrun. pose proof (tinv_new (Rule := Rule) accounts rest) as H00. induction Hrun as [|evs s1 evs1 s2 Hrun IH Hstep].
  - split; [intros user; unfold active_tasks; cbn; rewrite map_sum_empty; lia|]. intros t1 t2 k1 k2 E1. cbn in E1. by rewrite lookup_empty in E1.
  - pose proof (step_evolves _ _ _ _ (truns_inv _ _ _ _ H00 Hrun) Hstep) as He.
    assert (Hrest : (forall task kind pl, Created task kind pl ∉ evs1) -> limited (s_db s2)).
    { intros Hno. eapply limited_evolves; [exact He| |done]. intros task Hk' Hn. destruct (d_tasks (s_db s2) !! task) as [k|] eqn:Ek; [|done].
      destruct (ev_new _ _ _ _ He _ _ Ek Hn) as [_ ->]. eapply Hno. left. }
    destruct Hstep as [env actor role key ids a d' Hw|env actor role key mode rules a d' Hw|env actor role task|env|env task claim d' Hw|env f n j j' d' Hn Hs|n|now|env ids Hin|ac re];
      try (apply Hrest; intros; apply not_elem_of_nil).
    + apply Write_Ok in Hw as [t Hw]. unfold createExportTask in Hw. tx_inv Hw. by eapply limited_create.
    + apply Write_Ok in Hw as [t Hw]. unfold createImportTask in Hw. tx_inv Hw. by eapply limited_create.
    + apply Hrest. intros task kind pl. unfold application. destruct (j_stage j); try apply not_elem_of_nil. destruct (d_items (s_db s1) !! _); [apply not_elem_of_nil|].
      destruct (d_items d' !! _); [|apply not_elem_of_nil]. by intros E%list_elem_of_singleton.
Qed.

(** ** Progress *)

Definition holds (d : Tables R) (j : job Rule) : Prop := exists k, d_tasks d !! j_task j = Some k /\ running k = true /\ k_claim k = j_claim j.
Definition decodable (d : Tables R) : Prop := forall task i raw, d_items d !! (task, i) = Some raw -> is_Some (unmarshal_item raw).
Definition steps_left (d : Tables R) (j : job Rule) : nat :=
  match j_stage j with
  | Claimed => job_fuel (j_task j) d - 2
  | Importing _ _ p i => 5 + (length (i_Rules p) - i)
  | Collecting | Exporting _ _ _ => 4
  | Finishing _ _ _ => 3
  | Failed _ => 2
  | Reporting _ _ _ => 1
  | Over _ => 0
  end.

Lemma importResult_total task d : decodable d -> exists r, importResult task d = Ok r.
Proof.
  intros Hd. unfold importResult. assert (Hm : is_Some (mapM (fun r : nat * string => unmarshal_item r.2) (rows_of task d))).
  { apply mapM_is_Some, Forall_forall. intros [i raw] Hin%list_elem_of_In. unfold rows_of in Hin. rewrite merge_sort_Permutation in Hin. apply rows_elem in Hin. by eapply Hd. }
  destruct Hm as [items ->]. destruct (items_total items) as [raw ->]. eauto.
Qed.
Lemma finishTask_runs task claim st rs ms env d k : d_tasks d !! task = Some k -> running k = true -> k_claim k = claim ->
  exists now, Write (finishTask task claim st rs ms) env d =
    (Ok tt, set_tasks (<[task := finished (if k_cancel k then "canceled" else st) (if k_cancel k && String.eqb (k_kind k) "rules.export" then "" else rs) ms now k]>) d).
Proof.
  intros Hk Hr <-. eexists. unfold Write, finishTask, mbind, tx_bind, gets. rewrite Hk. unfold guard_err, mret, tx_ret. rewrite Hr, String.eqb_refl. reflexivity.
Qed.
Lemma finished_over st k d task rs ms now : st <> "pending" -> st <> "running" ->
  over (set_tasks (<[task := finished (if k_cancel k then "canceled" else st) rs ms now k]>) d) task.
Proof.
  intros H1 H2. eexists. cbn. rewrite lookup_insert_eq. split; [done|]. unfold active, pending, running. cbn. destruct (k_cancel k); [done|]. by apply orb_false_iff; split; apply String.eqb_neq.
Qed.

(** After a step a worker has less to do, or is done with its task. *)
Record progress (d : Tables R) (j : job Rule) (d' : Tables R) (j' : job Rule) : Prop := {
  pg_same : j_task j' = j_task j /\ j_claim j' = j_claim j;
  pg_decodable : decodable d';
  pg_others task : task <> j_task j -> d_tasks d' !! task = d_tasks d !! task;
  pg_next : (j_stage j' = Over None /\ over d' (j_task j)) \/ (holds d' j' /\ stage_final (j_stage j') /\ (0 < steps_left d' j' < steps_left d j)%nat)
}.
Lemma progress_stays d j st : holds d j -> decodable d -> stage_final st -> (0 < steps_left d (at_stage j st) < steps_left d j)%nat -> progress d j d (at_stage j st).
Proof. intros Hh Hd Hf Hs. split; auto. Qed.
Lemma progress_finish env d j st rs ms g : holds d j -> decodable d -> stage_final (Finishing st rs ms : stage Rule) -> (forall u, g (Ok u) = Over None) ->
  let '(r, d') := attempt Runs (finishTask (j_task j) (j_claim j) st rs ms) env d in progress d j d' (at_stage j (g r)).
Proof.
  intros (k & Hk & Hr & Hc) Hd [H1 H2] Hg. destruct (finishTask_runs (j_task j) (j_claim j) st rs ms env d k Hk Hr Hc) as [now E]. unfold attempt. rewrite E.
  split; [done|exact Hd| |left; split; [apply Hg|by apply finished_over]]. intros task Hne. cbn. by rewrite lookup_insert_ne.
Qed.

Lemma start_progress d j : holds d j -> decodable d -> j_stage j = Claimed -> progress d j d (at_stage j (or_failed (start_task (j_task j) (j_claim j) d) (fun x => x))).
Proof.
  intros Hh Hd Ej. assert (Hgo : forall st, stage_final st -> (0 < steps_left d (at_stage j st) < job_fuel (j_task j) d - 2)%nat -> progress d j d (at_stage j st)).
  { intros st Hf Hs. apply progress_stays; [done|done|done|]. unfold steps_left at 3. by rewrite Ej. }
  destruct Hh as (k & Hk & Hr & Hc). unfold start_task. unfold job_fuel in Hgo. rewrite Hk in *. rewrite Hc, String.eqb_refl. cbn [negb].
  destruct (unmarshal_import (k_payload k)) as [p|]; destruct (String.eqb (k_kind k) "rules.import"); try (apply Hgo; cbn; [done|lia]);
    destruct (String.eqb (k_kind k) "rules.export"); cbn [negb or_failed]; try (apply Hgo; cbn; [done|lia]);
    destruct (unmarshal_export (k_payload k)); apply Hgo; cbn; try done; lia.
Qed.
Lemma item_progress env d j owner admin p i input : holds d j -> decodable d -> j_stage j = Importing owner admin p i -> i_Rules p !! i = Some input ->
  let '(r, d') := attempt Runs (import_item (j_task j) (j_claim j) owner admin p i input) env d in
  progress d j d' (at_stage j (or_failed r (fun _ => Importing owner admin p (S i)))).
Proof.
  intros Hh Hd Ej Ei. assert (Hs : steps_left d j = (5 + (length (i_Rules p) - i))%nat) by (unfold steps_left; by rewrite Ej). apply lookup_lt_Some in Ei as Hlt.
  unfold attempt. destruct (Write _ env d) as [[u|e] d'] eqn:E.
  2: { apply Write_Err in E as ->. apply progress_stays; [done|done|done|]. rewrite Hs. cbn. lia. }
  apply Write_Ok in E as [t E]. apply import_item_Ok in E as [_ [[-> _]|(Hn & rest & r & raw & now & Hraw & ->)]]; cbn [or_failed].
  - apply progress_stays; [done|done|done|]. rewrite Hs. cbn. lia.
  - destruct Hh as (k & Hk & Hr & Hc). split; [done| | |right; split; [|split; [done|rewrite Hs; cbn; lia]]].
    + intros task n raw1. cbn. intros [[[= <- <-] <-]|[_ Hx]]%lookup_insert_Some; [|by eapply Hd]. rewrite (item_text _ _ Hraw). by eexists.
    + intros task Hne. cbn. unfold touch. by rewrite lookup_alter_ne.
    + unfold holds. cbn [at_stage j_task j_claim set_tasks d_tasks]. unfold touch. rewrite lookup_alter_eq. cbn [set_items set_rest d_tasks]. rewrite Hk. cbn. rewrite Hc, String.eqb_refl. eauto.
Qed.

Lemma job_progress env d j j' d' : holds d j -> decodable d -> stage_final (j_stage j) -> (0 < steps_left d j)%nat ->
  job_step env Runs j d = (j', d') -> progress d j d' j'.
Proof.
  intros Hh Hd Hf Hno. unfold job_step. destruct (j_stage j) as [|owner admin p i| |owner admin p|st rs ms|e|st rs ms|e] eqn:Ej.
  - intros [= <- <-]. by apply start_progress.
  - destruct (i_Rules p !! i) as [input|] eqn:Ei.
    + pose proof (item_progress env d j owner admin p i input Hh Hd Ej Ei) as Hp. destruct (attempt _ _ _ _) as [r d1]. by intros [= <- <-].
    + intros [= <- <-]. apply progress_stays; [done|done|done|]. unfold steps_left. rewrite Ej. cbn. lia.
  - destruct (importResult_total (j_task j) d Hd) as [[rs b] E]. unfold query. rewrite E. intros [= <- <-]. apply progress_stays; [done|done|by destruct b|]. unfold steps_left. rewrite Ej. cbn. lia.
  - unfold attempt. destruct (Write _ _ _) as [[items|e] d1] eqn:E; intros [= <- <-].
    + apply Write_Ok in E as [t ->%export_items_Ok]. cbn [or_failed]. destruct (marshal_rules items); apply progress_stays; try done; unfold steps_left; rewrite Ej; cbn; lia.
    + apply Write_Err in E as ->. apply progress_stays; try done. unfold steps_left. rewrite Ej. cbn. lia.
  - pose proof (progress_finish env d j st rs ms (fun r => or_failed r (fun _ => Over None)) Hh Hd Hf ltac:(done)) as Hp. destruct (attempt _ _ _ _) as [r d1]. by intros [= <- <-].
  - destruct (importResult_total (j_task j) d Hd) as [r E]. unfold query. rewrite E. intros [= <- <-]. apply progress_stays; [done|done| |].
    + by destruct (decide _).
    + unfold steps_left. rewrite Ej. cbn. destruct (decide _); lia.
  - pose proof (progress_finish env d j st rs ms (fun r => Over (match r with Ok _ => None | Err e => Some e end)) Hh Hd Hf ltac:(done)) as Hp.
    destruct (attempt _ _ _ _) as [r d1]. by intros [= <- <-].
  - unfold steps_left in Hno. rewrite Ej in Hno. lia.
Qed.

Section Undisturbed.
Context (oracle : nat -> Env * fate) (Hruns : forall n, (oracle n).2 = Runs).

Lemma run_job_finishes fuel n j d e d' n' : holds d j -> decodable d -> stage_final (j_stage j) -> (0 < steps_left d j <= fuel)%nat ->
  run_job fuel oracle n j d = (e, d', n') ->
  e = None /\ over d' (j_task j) /\ decodable d' /\ forall task, task <> j_task j -> d_tasks d' !! task = d_tasks d !! task.
Proof.
  revert n j d. induction fuel as [|fuel IH]; intros n j d Hh Hd Hf Hs Hrun; [lia|].
  assert (Hgo : (let '(j1, d1) := job_step (oracle n).1 Runs j d in run_job fuel oracle (S n) j1 d1) = (e, d', n')).
  { rewrite <- (Hruns n). revert Hrun. cbn [run_job]. destruct (j_stage j) eqn:Ej; try done. unfold steps_left in Hs. rewrite Ej in Hs. lia. }
  clear Hrun. destruct (job_step (oracle n).1 Runs j d) as [j1 d1] eqn:E.
  destruct (job_progress _ _ _ _ _ Hh Hd Hf (proj1 Hs) E) as [[Ht Hc] Hd1 Hoth [[Hend Hov]|(Hh1 & Hf1 & Hs1)]].
  - assert (Hret : run_job fuel oracle (S n) j1 d1 = (None, d1, S n)) by (destruct fuel; cbn [run_job]; by rewrite Hend). rewrite Hret in Hgo. injection Hgo as <- <- <-. done.
  - destruct (IH (S n) j1 d1 Hh1 Hd1 Hf1 ltac:(lia) Hgo) as (-> & Hov & Hd' & Ho'). rewrite Ht in Hov, Ho'. split_and!; [done|done|done|]. intros task Hne. by rewrite Ho', Hoth.
Qed.

Lemma claim_runs task env d k : d_tasks d !! task = Some k -> pending k = true ->
  exists claim now, Write (claim_task task) env d = (Ok (Some claim), set_tasks (<[task := set_state "running" claim now k]>) d).
Proof.
  intros Hk Hp. eexists _, _. unfold Write, claim_task, Unix_now, mbind, tx_bind, gets, id, Now, mret, tx_ret. rewrite Hk, Hp. reflexivity.
Qed.
Lemma run_tasks_finish ids n count d : NoDup ids -> (forall task, task ∈ ids -> exists k, d_tasks d !! task = Some k /\ pending k = true) -> decodable d ->
  exists d', run_tasks oracle ids n count d = ((count + length ids)%nat, None, d') /\ (forall task, task ∈ ids -> over d' task) /\
    forall task, task ∉ ids -> d_tasks d' !! task = d_tasks d !! task.
Proof.
  intros Hnd. revert n count d. induction Hnd as [|task ids Hnin Hnd IH]; intros n count d Hp Hd; cbn [run_tasks].
  { exists d. split; [cbn; by rewrite Nat.add_0_r|]. split; [set_solver|done]. }
  destruct (Hp task ltac:(left)) as (k & Hk & Hpk). destruct (claim_runs task (oracle n).1 d k Hk Hpk) as (claim & now & E). unfold attempt. rewrite Hruns, E.
  set (d1 := set_tasks _ d). set (j := {| j_task := task; j_claim := claim; j_stage := Claimed |}). destruct (run_job _ _ _ _ _) as [[e d2] n2] eqn:Er.
  assert (Hj : holds d1 j) by (eexists; cbn; rewrite lookup_insert_eq; done).
  assert (Hfuel : (0 < steps_left d1 j <= job_fuel task d1)%nat) by (unfold steps_left, job_fuel; cbn [j j_stage j_task]; lia).
  destruct (run_job_finishes _ _ _ _ _ _ _ Hj Hd I Hfuel Er) as (-> & Hov & Hd2 & Hoth). cbn [j_task j] in *.
  assert (Hsame : forall t, t <> task -> d_tasks d2 !! t = d_tasks d !! t) by (intros t Ht; rewrite Hoth by done; cbn; by rewrite lookup_insert_ne).
  destruct (IH n2 (S count) d2) as (d' & Hrun & Hall & Hrest); [|done|].
  { intros t Ht. rewrite Hsame by (intros ->; done). apply Hp. by right. }
  exists d'. split; [rewrite Hrun; cbn; do 2 f_equal; lia|]. split.
  - intros t [->|Ht]%elem_of_cons; [|auto]. destruct Hov as (k1 & Hk1 & Ha). exists k1. by rewrite Hrest.
  - intros t Ht. rewrite Hrest by set_solver. apply Hsame. set_solver.
Qed.
End Undisturbed.

Lemma reachable_decodable evs s : tinv evs s -> decodable (s_db s).
Proof. intros Hi task i raw Hraw. destruct (ti_rows _ _ Hi _ _ _ Hraw) as (_ & (item & -> & _) & _). by eexists. Qed.
Lemma pending_ids_spec limit d : NoDup (pending_ids limit d) /\ forall task, task ∈ pending_ids limit d -> exists k, d_tasks d !! task = Some k /\ pending k = true.
Proof.
  unfold pending_ids. split.
  - eapply (sublist_NoDup _ _ ); [|apply (fmap_sublist fst), sublist_take]. rewrite merge_sort_Permutation. apply NoDup_fst_filter, NoDup_fst_map_to_list.
  - intros task ([task' k] & -> & Hin)%list_elem_of_fmap. apply (subseteq_take limit) in Hin. rewrite merge_sort_Permutation in Hin.
    apply list_elem_of_filter in Hin as [Hp Hin]. apply elem_of_map_to_list in Hin. by exists k.
Qed.
(** [RunTasks] is a run of the system, whatever happens to its calls. *)
Lemma truns_app s evs s1 evs1 s2 : truns s evs s1 -> truns s1 evs1 s2 -> truns s (evs ++ evs1) s2.
Proof. intros H1. induction 1 as [|evs1 s2 evs2 s3 _ IH Hstep]; [by rewrite app_nil_r|]. rewrite app_assoc. by econstructor. Qed.
Lemma truns_one s evs s1 : tstep s evs s1 -> truns s evs s1.
Proof. intros Hs. apply (tr_step s [] s evs s1); [constructor|done]. Qed.
Lemma run_job_run oracle fuel n j s e d' n' : s_jobs s !! 0%nat = Some j -> run_job fuel oracle n j (s_db s) = (e, d', n') ->
  exists evs s', truns s evs s' /\ s_db s' = d'.
Proof.
  revert n j s. induction fuel as [|fuel IH]; intros n j s Hj Hrun.
  { exists [], s. split; [constructor|]. cbn in Hrun. destruct (j_stage j); by injection Hrun. }
  cbn [run_job] in Hrun. destruct (job_step (oracle n).1 (oracle n).2 j (s_db s)) as [j1 d1] eqn:E.
  assert (Hstep := ts_job s _ _ _ _ _ _ Hj E). set (s1 := {| s_db := d1; s_jobs := <[0%nat := j1]> (s_jobs s); s_pruning := s_pruning s |}) in Hstep.
  assert (Hj1 : s_jobs s1 !! 0%nat = Some j1) by (apply list_lookup_insert_eq; by eapply lookup_lt_Some).
  assert (Hgo : run_job fuel oracle (S n) j1 (s_db s1) = (e, d', n') -> exists evs s', truns s evs s' /\ s_db s' = d').
  { intros (evs & s' & Hr & <-)%IH; [|done]. exists (application (s_db s) d1 j ++ evs)%list, s'. split; [|done]. eapply truns_app; [by apply truns_one|done]. }
  destruct (j_stage j); try (by apply Hgo). injection Hrun as <- <- <-. exists [], s. split; [constructor|done].
Qed.
Lemma run_tasks_run oracle ids n count s c e d' : run_tasks oracle ids n count (s_db s) = (c, e, d') -> exists evs s', truns s evs s' /\ s_db s' = d'.
Proof.
  revert n count s. induction ids as [|task ids IH]; intros n count s; cbn [run_tasks]; [intros [= <- <- <-]; exists [], s; split; [constructor|done]|].
  assert (Hclaim : forall claim d1, Write (claim_task task) (oracle n).1 (s_db s) = (Ok (Some claim), d1) ->
    exists s1, truns s [] s1 /\ s_db s1 = d1 /\ s_jobs s1 !! 0%nat = Some {| j_task := task; j_claim := claim; j_stage := Claimed |}).
  { intros claim d1 E. eexists. split; [apply truns_one, (ts_claim s _ _ _ _ E)|done]. }
  assert (Hnone : forall r d1, Write (claim_task task) (oracle n).1 (s_db s) = (r, d1) -> (forall claim, r <> Ok (Some claim)) -> d1 = s_db s).
  { intros [o|e1] d1 E Hr; [|by apply Write_Err in E]. apply Write_Ok in E as [t E]. unfold claim_task, Unix_now in E. tx_inv E. destruct (d_tasks (s_db s) !! task) as [k|]; [|by tx_inv Hk].
    destruct (pending k); [|by tx_inv Hk]. tx_inv Hk. by edestruct Hr. }
  assert (Hdb : forall r d1, Write (claim_task task) (oracle n).1 (s_db s) = (r, d1) -> exists s1, truns s [] s1 /\ s_db s1 = d1).
  { intros [[claim|]|e1] d1 E; [destruct (Hclaim _ _ E) as (s1 & ? & ? & _); eauto|apply Hnone in E as ->; [|done]..]; exists s; split; by try constructor. }
  unfold attempt. destruct (oracle n) as [env f]. cbn [fst snd] in *. destruct f as [|e1|e1].
  - destruct (Write (claim_task task) env (s_db s)) as [[[claim|]|e1] d1] eqn:E.
    + destruct (Hclaim _ _ eq_refl) as (s1 & Hr1 & Hd1 & Hj1). rewrite <- Hd1. destruct (run_job _ _ _ _ _) as [[e2 d2] n2] eqn:Er. apply run_job_run in Er as (evs2 & s2 & Hr2 & <-); [|done].
      assert (Hr12 : truns s evs2 s2) by exact (truns_app _ _ _ _ _ Hr1 Hr2). destruct e2 as [e2|]; [intros [= <- <- <-]; eauto|]. intros (evs3 & s3 & Hr3 & <-)%IH. exists (evs2 ++ evs3)%list, s3. split; [by eapply truns_app|done].
    + rewrite (Hnone _ _ eq_refl) by done. apply IH.
    + destruct (Hdb _ _ eq_refl) as (s1 & ? & ?). intros [= <- <- <-]. eauto.
  - intros [= <- <- <-]. exists [], s. split; [constructor|done].
  - destruct (Write (claim_task task) env (s_db s)) as [r d1] eqn:E. destruct (Hdb _ _ eq_refl) as (s1 & ? & ?). intros [= <- <- <-]. eauto.
Qed.
Lemma RunTasks_run oracle limit s c e d' : RunTasks oracle limit (s_db s) = (c, e, d') -> exists evs s', truns s evs s' /\ s_db s' = d'.
Proof.
  assert (Hre : truns s [] (with_db (Write reclaim (oracle 0%nat).1 (s_db s)).2 s)) by (apply truns_one; constructor).
  unfold RunTasks, attempt. destruct (oracle 0%nat) as [env f]. cbn [fst snd] in *. destruct (Write reclaim env (s_db s)) as [r d1] eqn:E. cbn [snd] in Hre.
  assert (Hend : exists evs s', truns s evs s' /\ s_db s' = d1) by (by eexists _, _; split; [exact Hre|]).
  destruct f; [destruct r as [u|e1]; [|by intros [= <- <- <-]]|intros [= <- <- <-]; exists [], s; split; [constructor|done]|by intros [= <- <- <-]].
  destruct (query _ _ _) as [ids|e1]; [|by intros [= <- <- <-]]. intros Hrun. apply (run_tasks_run oracle _ _ _ (with_db d1 s)) in Hrun as (evs & s' & Hr & <-).
  exists evs, s'. split; [|done]. exact (truns_app _ _ _ _ _ Hre Hr).
Qed.

(** C24: a worker that is not interrupted finishes its tasks.  From any state
    that can be reached, and however the tasks in it got there, a round of
    [RunTasks] without failures takes up the tasks that are pending, the
    oldest first, or that nobody has worked on for five minutes; each of them
    has a final state afterwards, and no other task changes its row but to
    become pending again.  The round is a run of the system, so all of the
    above holds of it. *)
Theorem tasks_finish accounts rest evs s oracle limit : truns (new_panel accounts rest) evs s -> (forall n, (oracle n).2 = Runs) ->
  let d1 := reclaimed (env_now (oracle 0%nat).1 0) (s_db s) in
  let ids := pending_ids (if (limit <=? 0) || (50 <? limit) then 10 else Z.to_nat limit) d1 in
  exists evs1 s', truns s evs1 s' /\ RunTasks oracle limit (s_db s) = (length ids, None, s_db s') /\
    (forall task, task ∈ ids -> over (s_db s') task) /\ forall task, task ∉ ids -> d_tasks (s_db s') !! task = d_tasks d1 !! task.
Proof.
  intros Hi%reachable_tinv Hruns d1 ids. destruct (pending_ids_spec (if (limit <=? 0) || (50 <? limit) then 10 else Z.to_nat limit) d1) as [Hnd Hp].
  destruct (run_tasks_finish oracle Hruns ids 2 0 d1 Hnd Hp) as (d' & Hrun & Hall & Hrest); [by apply (reachable_decodable evs s)|].
  assert (E : Write reclaim (oracle 0%nat).1 (s_db s) = (Ok tt, d1)) by reflexivity.
  assert (Hround : RunTasks oracle limit (s_db s) = (length ids, None, d')).
  { change (0 + length ids)%nat with (length ids) in Hrun. unfold RunTasks, attempt, query. rewrite !Hruns, E. rewrite <- Hrun. unfold ids. by destruct (_ || _). }
  destruct (RunTasks_run _ _ _ _ _ _ Hround) as (evs1 & s' & Hr & <-). eauto 10.
Qed.
End Guarantees.

(** ** The theorems on a concrete panel *)

(** Rules are texts; the text "bad" is refused.  Documents are written as the
    bits of their number. *)
Fixpoint bits (p : positive) : string :=
  match p with xH => "" | xO p => String "0" (bits p) | xI p => String "1" (bits p) end.
Fixpoint of_bits (s : string) : positive :=
  match s with EmptyString => xH | String c s => if Ascii.eqb c "0" then xO (of_bits s) else xI (of_bits s) end.
Lemma of_bits_bits p : of_bits (bits p) = p.
Proof. induction p; cbn; congruence. Qed.
Definition written {A} `{Countable A} (a : A) : string := bits (encode a).
Definition read_back {A} `{Countable A} (s : string) : option A := decode (of_bits s).
Lemma read_written {A} `{Countable A} (a : A) : read_back (written a) = Some a.
Proof. unfold read_back, written. rewrite of_bits_bits. apply decode_encode. Qed.

Section Demo.
#[local] Instance demo_rules : RuleService string (list string) := {|
  importInputTx := fun _ owner _ rule _ => guard_err (negb (String.eqb rule "bad")) (ErrMsg "refused") ;; modify (fun l => l ++ [rule])%list ;; mret rule;
  rule_rows := fun _ _ _ l => Ok <$> l;
  redact := fun rule => rule |}.
#[local] Instance demo_json : TaskJSON string := {|
  marshal_import := fun p => Some (written (i_Mode p, i_Rules p, i_Admin p));
  unmarshal_import := fun s => (fun p : string * list string * bool => {| i_Mode := p.1.1; i_Rules := p.1.2; i_Admin := p.2 |}) <$> read_back s;
  marshal_export := fun p => Some (written (x_RuleIDs p, x_Admin p));
  unmarshal_export := fun s => (fun p : list string * bool => {| x_RuleIDs := p.1; x_Admin := p.2 |}) <$> read_back s;
  marshal_item := fun i => Some (written (t_Index i, t_Rule i, t_Error i));
  unmarshal_item := fun s => (fun p : nat * option string * string => {| t_Index := p.1.1; t_Rule := p.1.2; t_Error := p.2 |}) <$> read_back s;
  marshal_items := fun l => Some (written ((fun i : taskItem string => (t_Index i, t_Rule i, t_Error i)) <$> l));
  marshal_rules := fun l => Some (written l) |}.
#[local] Instance demo_laws : TaskJSONLaws string.
Proof.
  split; [|by eexists|by eexists]. intros [i r e] raw [= <-]. cbn [unmarshal_item demo_json]. rewrite read_written. reflexivity.
Qed.

Inductive act :=
  | AImport (env : Env) (actor role key mode : string) (rules : list string)
  | ACancel (env : Env) (actor role task : string)
  | AReclaim (env : Env)
  | AClaim (env : Env) (task : string)
  | AJob (env : Env) (f : fate) (n : nat).
Definition do_act (a : act) (s : sys string (list string)) : list event * sys string (list string) :=
  match a with
  | AImport env actor role key mode rules =>
      match Write (createImportTask actor role key mode rules) env (s_db s) with
      | (Ok a, d') => (creation (s_db s) d' a.1, with_db d' s)
      | (Err _, _) => ([], s)
      end
  | ACancel env actor role task => ([], with_db (Write (cancelTask actor role task) env (s_db s)).2 s)
  | AReclaim env => ([], with_db (Write reclaim env (s_db s)).2 s)
  | AClaim env task =>
      match Write (claim_task task) env (s_db s) with
      | (Ok (Some claim), d') => ([], {| s_db := d'; s_jobs := {| j_task := task; j_claim := claim; j_stage := Claimed |} :: s_jobs s; s_pruning := s_pruning s |})
      | _ => ([], s)
      end
  | AJob env f n =>
      match s_jobs s !! n with
      | Some j => let '(j', d') := job_step env f j (s_db s) in (application (s_db s) d' j, {| s_db := d'; s_jobs := <[n := j']> (s_jobs s); s_pruning := s_pruning s |})
      | None => ([], s)
      end
  end.
Fixpoint do_acts (l : list act) (s : sys string (list string)) : list event * sys string (list string) :=
  match l with
  | [] => ([], s)
  | a :: l => let '(evs, s) := do_act a s in let '(evs', s) := do_acts l s in ((evs ++ evs')%list, s)
  end.
Lemma do_act_run a s : truns s (do_act a s).1 (do_act a s).2.
Proof.
  destruct a as [env actor role key mode rules|env actor role task|env|env task|env f n]; cbn [do_act].
  - destruct (Write _ _ _) as [[a|e] d'] eqn:E; [|constructor]. apply truns_one. by apply ts_import with env actor role key mode rules.
  - apply truns_one. constructor.
  - apply truns_one. constructor.
  - destruct (Write _ _ _) as [[[claim|]|e] d'] eqn:E; [|constructor..]. apply truns_one. by apply ts_claim with env.
  - destruct (s_jobs s !! n) as [j|] eqn:Ej; [|constructor]. destruct (job_step env f j (s_db s)) as [j' d'] eqn:E. apply truns_one. by apply ts_job with env f.
Qed.
Lemma do_acts_run l s : truns s (do_acts l s).1 (do_acts l s).2.
Proof.
  revert s. induction l as [|a l IH]; intros s; [constructor|]. cbn. pose proof (do_act_run a s) as Ha. destruct (do_act a s) as [evs s1]. specialize (IH s1). destruct (do_acts l s1) as [evs' s2].
  by eapply truns_app.
Qed.

Definition at_time (seconds : Z) (name : string) : Env := {| env_now := fun _ => seconds * second; env_rand := fun _ => name |}.
Definition alice : gmap string account := {[ "alice" := {| ac_role := "user"; ac_disabled := false |} ]}.
Definition panel0 : sys string (list string) := new_panel alice [].
(** A worker stalls after the first of two rules; another takes over and comes
    to the end; then the first one goes on. *)
Definition stalled : list act :=
  [AImport (at_time 100 "task") "alice" "user" "key" "create" ["a"; "bad"]; AClaim (at_time 101 "one") "task"; AJob (at_time 101 "") Runs 0; AJob (at_time 102 "") Runs 0].
Definition overtaken : list act :=
  [AReclaim (at_time 500 ""); AClaim (at_time 500 "two") "task"; AJob (at_time 501 "") Runs 0; AJob (at_time 501 "") Runs 0; AJob (at_time 501 "") Runs 0;
   AJob (at_time 501 "") Runs 0; AJob (at_time 502 "") Runs 0; AJob (at_time 502 "") Runs 0; AJob (at_time 503 "") Runs 1; AJob (at_time 503 "") Runs 1; AJob (at_time 503 "") Runs 1].
Definition both : list event * sys string (list string) := do_acts (stalled ++ overtaken)%list panel0.
Example both_end : applied both.1 = [("task", 0%nat); ("task", 1%nat)] /\ k_status <$> d_tasks (s_db both.2) !! "task" = Some "completed_with_errors" /\ d_rest (s_db both.2) = ["a"].
Proof. split_and!; vm_compute; reflexivity. Qed.

Lemma tasks_once_witness : NoDup (applied both.1).
Proof. destruct (tasks_once alice [] both.1 both.2 (do_acts_run (stalled ++ overtaken)%list panel0)) as [H _]. exact H. Defined.

Lemma both_task : exists k, d_tasks (s_db both.2) !! "task" = Some k /\ k_kind k = "rules.import" /\ k_status k = "completed_with_errors".
Proof. vm_compute. eexists. split; [reflexivity|]. split; reflexivity. Qed.
Lemma tasks_complete_witness : exists payload p (items : list (taskItem string)), Created "task" "rules.import" payload ∈ both.1 /\ unmarshal_import payload = Some p /\
  length items = length (i_Rules p) /\ exists item, item ∈ items /\ t_Error item <> "".
Proof.
  destruct both_task as (k & Hk & Hkind & Hst).
  destruct (tasks_complete alice [] both.1 both.2 "task" k (do_acts_run (stalled ++ overtaken)%list panel0) Hk Hkind (or_intror Hst)) as (pl & p & items & rs & H1 & H2 & H3 & _ & _ & _ & H4).
  exists pl, p, items. split; [exact H1|]. split; [exact H2|]. split; [exact H3|]. apply H4. exact Hst.
Defined.

(** The same with a cancellation before the second worker starts. *)
Definition canceled_at : list event * sys string (list string) := do_acts (stalled ++ [ACancel (at_time 103 "") "alice" "user" "task"])%list panel0.
Definition canceled_end : list event * sys string (list string) := do_acts overtaken canceled_at.2.
Lemma canceled_task : exists k, d_tasks (s_db canceled_at.2) !! "task" = Some k /\ active k = true /\ k_cancel k = true.
Proof. vm_compute. eexists. split; [reflexivity|]. split; reflexivity. Qed.
Lemma tasks_canceled_witness : ("task", 1%nat) ∉ applied canceled_end.1 /\ exists k, d_tasks (s_db canceled_end.2) !! "task" = Some k /\ k_cancel k = true.
Proof.
  destruct canceled_task as (k & Hk & Ha & Hc).
  destruct (tasks_canceled alice [] canceled_at.1 canceled_at.2 canceled_end.1 canceled_end.2 "task" k) as (H1 & k' & H2 & H3 & _).
  - apply do_acts_run.
  - exact Hk.
  - exact Ha.
  - exact Hc.
  - apply do_acts_run.
  - split; [apply H1|]. exists k'. split; [exact H2|exact H3].
Defined.

Lemma tasks_limited_witness : active_tasks "alice" (s_db both.2) <= 10.
Proof. destruct (tasks_limited alice [] both.1 both.2 (do_acts_run (stalled ++ overtaken)%list panel0)) as [H _]. apply H. Defined.

Definition calm (n : nat) : Env * fate := (at_time 500 "three", Runs).
Lemma tasks_finish_witness : exists s' : sys string (list string), (RunTasks calm 0 (s_db (do_acts stalled panel0).2)).1 = (1%nat, None) /\ over (s_db s') "task".
Proof.
  destruct (tasks_finish alice [] (do_acts stalled panel0).1 (do_acts stalled panel0).2 calm 0 (do_acts_run stalled panel0) (fun _ => eq_refl)) as (evs & s' & _ & Hrun & Hall & _).
  assert (Hids : pending_ids 10 (reclaimed (500 * second) (s_db (do_acts stalled panel0).2)) = ["task"]) by (vm_compute; reflexivity).
  exists s'. split; [vm_compute; reflexivity|]. apply Hall. apply (eq_ind_r (fun l => "task" ∈ l) (list_elem_of_here "task" []) Hids).
Defined.
End Demo.
