(* ===== verification/Findings.v ===== *)
(** * Where the program does not do what it means to

    Behaviours the model reproduces.  Most theorems run the definitions on
    concrete inputs; the others hold for every payload of the size they
    name. *)

From S2P Require Import Prelude Tx GoStrings Calendar Digest Rational PlanRules Schema Wallet Plans Quota Purchases Refunds Payments Commerce Scenarios.
From S2P Require Import AgentState AgentCredits AgentStore AgentScenarios Policy.
From S2P Require Import Bytes Streams StreamLaws StreamTrip StreamGuarantees Failover FailoverGuarantees Webhooks.
From stdpp Require Import base gmap strings list.
From Stdlib Require Import Ascii String.
Local Open Scope string_scope.
Local Open Scope Z_scope.

(** ** A refunded plan becomes unlimited

    Alice buys the plan, has it refunded in full, and is then leased
    traffic again and again. *)
Definition refunded_history : list op :=
  [OpAdjustUserBalance "root" "alice" "gift" "gift" 1000;
   OpCreatePlan demo_plan;
   OpPurchase "alice" "e1-0" "buy" 0 1;
   OpRefundPurchase "root" "e2-0" "refund" "cancelled" 1000;
   OpAllocate "alice" "rule" "node" "1" 268435456;
   OpAllocate "alice" "rule" "node" "1" 268435456].

(** After a full refund the entitlement has quota 0, which allocation
    takes as unlimited: the refunded user gets 512 MiB of leases. *)
Theorem full_refund_is_unlimited :
  let d := run (numbered refunded_history) demo_start in
  answers (numbered refunded_history) demo_start = replicate 6 (Ok tt) /\ Wallet d "alice" = 1000 /\
  option_map (fun e => (e_quota e, e_allocated e)) (entitlements d !! "e2-0") = Some (0, 536870912).
Proof. vm_compute. done. Qed.

(** ** Stored times do not sort by time

    [stamp] drops the trailing zeros of the fraction, so half a second
    after a full second sorts before it, and money of the earlier recharge
    is spent last. *)
Theorem stamp_not_chronological :
  let t := 1700000000 * second in
  let early := new_source "alice" "first" 10 t in
  let late := new_source "alice" "second" 10 (t + second / 2) in
  f_created early < f_created late /\ order_by source_key [("a", early); ("b", late)] = [("b", late); ("a", early)].
Proof. vm_compute. done. Qed.

(** ** Two exhausted leases in one batch stop the agent for good

    When two charges of one batch exhaust two leases while a window has
    unwritten progress, the progress is logged twice under one sequence
    number; the second copy is refused after the log was synced.  The store
    fails, and no restart, at whatever time and on whatever disk, gets past
    the log. *)
Theorem exhausted_pair_stops_agent :
  failed s5 = false /\ failed s6 = true /\
  forall now ios, (OpenStore now ios (saved s6) (log s6)).1 = Err (ErrMsg "invalid credit progress").
Proof.
  split; [vm_compute; done|]. split; [vm_compute; done|]. intros now ios. vm_compute. reflexivity.
Qed.

(** ** A restart behind the clock stops the agent for good *)
Definition s7 : Store := (OpenStore (t0 - 1) (fun _ => good_disk) (saved s5) (log s5)).2.

(** When the clock is behind the start of a window at start-up (a device
    that boots before its time is set), the recovery record ends before it
    starts and is refused after it was synced; every later start, with the
    right time, is refused too. *)
Theorem clock_behind_stops_agent :
  (OpenStore (t0 - 1) (fun _ => good_disk) (saved s5) (log s5)).1 = Err (ErrMsg "invalid credit usage") /\
  forall now ios, (OpenStore now ios (saved s7) (log s7)).1 = Err (ErrMsg "invalid credit usage").
Proof. split; [vm_compute; done|]. intros now ios. vm_compute. reflexivity. Qed.

(** ** A star in a path defeats a blocked-path pattern *)

(** The pattern loop takes a star of the pattern for a literal one when the
    path has a star there, and never comes back: a path that the pattern
    matches is not blocked. *)
Theorem star_in_path_not_blocked :
  let layer := {| GroupID := []; Inspection := None; AllowedHosts := []; BlockedHosts := []; BlockedPaths := [bytes_of "/admin/*"];
                  BlockedApps := []; TLSRequired := false; RejectEmptySNI := false |} in
  glob (bytes_of "/admin/*") (bytes_of "/admin/*x") /\ MatchPath (bytes_of "/admin/*") (bytes_of "/admin/*x") = false /\
  CheckHTTP Ok [layer] (bytes_of "example.com") (bytes_of "/admin/*x") false = Ok tt.
Proof.
  split; [|split; vm_compute; reflexivity]. vm_compute. repeat (apply glob_byte; [done|]). apply glob_star_take. exists 2%nat. split; [simpl; lia|]. constructor.
Qed.

(** ** A query string defeats a blocked-path pattern

    HTTP/1 and HTTP/2 requests are checked without their query; the
    WebSocket inbound checks the whole request URI. *)
Theorem query_not_blocked :
  let layer := {| GroupID := []; Inspection := None; AllowedHosts := []; BlockedHosts := []; BlockedPaths := [bytes_of "/admin"];
                  BlockedApps := []; TLSRequired := false; RejectEmptySNI := false |} in
  CheckHTTP Ok [layer] (bytes_of "example.com") (bytes_of "/admin") false <> Ok tt /\
  CheckHTTP Ok [layer] (bytes_of "example.com") (bytes_of "/admin?x=1") false = Ok tt.
Proof. split; vm_compute; [discriminate|reflexivity]. Qed.

(** ** A padded frame can crash its reader

    The index behind the payload is computed in the 16 bits of its length.  A
    payload of 65534 or 65535 bytes, which the writer accepts, makes the
    reader slice from 2 to 0 or 1, which panics; the frame is read before the
    peer has shown a token. *)
Theorem padding_index_wraps lo hi pad p : lo <= hi -> 65534 <= zlen p <= 65535 ->
  exists f, ObfuscateWrite (RandomPaddingObfs lo hi) (Some pad) p = Ok f /\ DeobfuscateRead (RandomPaddingObfs lo hi) f = Err errPanic.
Proof.
  intros Hr Hp. unfold ObfuscateWrite. rewrite (proj2 (Z.ltb_ge maxUint16Payload _)) by (unfold maxUint16Payload; lia). rewrite (proj2 (Z.leb_gt _ 0)) by lia.
  eexists. split; [reflexivity|]. rewrite uint16_small by lia. unfold DeobfuscateRead.
  assert (Hu : Uint16 (PutUint16 (zlen p) ++ p ++ pad)%list 0 = zlen p) by (apply (Uint16_at []); lia). rewrite Hu.
  assert (Hz : zlen (PutUint16 (zlen p) ++ p ++ pad)%list = 2 + zlen p + zlen pad) by (unfold zlen; rewrite !length_app, PutUint16_length; lia).
  assert (0 <= zlen pad) by (unfold zlen; lia). rewrite !Hz, !(proj2 (Z.ltb_ge _ _)) by lia. unfold slice.
  assert (Hw : uint16 (2 + zlen p) <= 1); [|by rewrite (proj2 (Z.leb_gt _ _)) by lia].
  unfold uint16. replace (2 + zlen p) with (zlen p - 65534 + 1 * 2 ^ 16) by lia. rewrite Z.mod_add, Z.mod_small; lia.
Qed.

(** ** TLS mimicry breaks every large transfer

    A relay writes up to 32 KiB at once, a session makes one frame of it, and
    the frame is refused because it is longer than a TLS record: nothing is
    sent and the relay closes both sides. *)
Theorem mimic_refuses_large_writes p (s : Session (connection outbound)) o :
  s_conn s = Obfuscated o -> oc_strategy o = TLSTrafficMimicObfs -> 16380 <= zlen p <= maxFrame ->
  exists s', Session_Write p s = (0, Some (ErrMsg "TLS mimic payload too large"), s') /\ wire (s_conn s') = wire (s_conn s).
Proof.
  intros Hc Ho Hp. unfold maxFrame in Hp. unfold Session_Write. rewrite Hc. destruct p as [|x p]; [unfold zlen in Hp; cbn in Hp; lia|].
  set (q := x :: p) in *. assert (Hq : q <> []) by done. assert (Hl : exists n, List.length q = S n) by (by eexists). destruct Hl as [n ->].
  cbn [write_frames]. rewrite (proj2 (Z.ltb_ge maxFrame _)) by (unfold maxFrame; lia). unfold zlen at 1. rewrite Nat2Z.id, firstn_all. unfold writeFrame.
  rewrite (proj2 (Z.ltb_ge maxFrame _)) by (unfold maxFrame; lia). unfold writeAll. rewrite frame_size.
  assert (Hz : zlen (frame dataFrame q) = 5 + zlen q) by (unfold zlen; rewrite frame_size; lia).
  assert (Hw : io_Write (frame dataFrame q) (Obfuscated o) = (0, Some (ErrMsg "TLS mimic payload too large"),
    Obfuscated {| oc_conn := oc_conn o; oc_strategy := oc_strategy o; oc_readBuf := oc_readBuf o; oc_random := drop 1 (oc_random o) |})).
  { unfold io_Write, connection_Writer, io_Write, obfsConn_Writer, obfsConn_Write. rewrite Ho. cbn [ObfuscateWrite]. rewrite frame_size. cbn [Nat.eqb Nat.add].
    by rewrite (proj2 (Z.ltb_lt maxTLSRecordPayload _)) by (rewrite Hz; unfold maxTLSRecordPayload; lia). }
  assert (Hloop : forall fuel, writeAll_loop (S fuel) (frame dataFrame q) (Obfuscated o) = (Some (ErrMsg "TLS mimic payload too large"),
    Obfuscated {| oc_conn := oc_conn o; oc_strategy := oc_strategy o; oc_readBuf := oc_readBuf o; oc_random := drop 1 (oc_random o) |})).
  { intros fuel. unfold frame in *. cbn [writeAll_loop]. by rewrite Hw. }
  change (5 + List.length q)%nat with (S (4 + List.length q)). rewrite Hloop. subst q. cbn [with_conn s_conn]. eexists. split; [reflexivity|]. done.
Qed.

(** ** Equal delays are accepted and then refuse every write

    The configuration is valid with the least delay equal to the greatest;
    the range of the delay is then empty and no write succeeds. *)
Theorem equal_delays_refuse_writes ms rnd p : 0 <= ms <= 1000 ->
  let cfg := {| Strategy := "timing-perturb"; Param := fun _ => Some ms |} in
  exists o, newObfuscator (Some cfg) = Ok (Some o) /\ ValidateObfuscation (Some cfg) = Ok tt /\ ObfuscateWrite o rnd p = Err (ErrMsg "invalid delay range").
Proof.
  intros Hm cfg. exists (TimingPerturbObfs (ms * millisecond) (ms * millisecond)).
  assert (Hn : newObfuscator (Some cfg) = Ok (Some (TimingPerturbObfs (ms * millisecond) (ms * millisecond)))).
  { unfold newObfuscator, cfg. cbn [Strategy Param String.eqb Ascii.eqb Bool.eqb fmap option_fmap option_map default from_option].
    rewrite wrap64_id by (unfold in_int64, MinInt64, MaxInt64, millisecond; lia). unfold millisecond, Datatypes.id.
    destruct (Z.ltb_spec (ms * 1000000) 0); [lia|]. destruct (Z.ltb_spec (1000 * 1000000) (ms * 1000000)); [lia|]. by rewrite Z.ltb_irrefl. }
  split; [done|]. unfold ValidateObfuscation. rewrite Hn. split; [done|]. unfold ObfuscateWrite. rewrite Z.sub_diag. done.
Qed.

(** ** Changing a rule while it dials stops the agent

    A change of the rule empties the table of its routes and cancels the
    context of its dials.  A dial that is then under way finds the context
    over and clears the flag of an entry that is gone. *)
Definition rule_changed (i : nat) : attempt :=
  {| a_selected := 0; a_between := fun _ => ∅; a_ended := ContextOver (ErrMsg "context canceled"); a_marked := second |}.
Theorem rule_change_panics : (dialCandidates demo_route rule_changed ∅).1 = Panicked.
Proof. evaluates. Qed.

(** ** Two dials can probe one route at a time

    A dial that began before the route failed reports late, which clears the
    flag of the probe that is still under way; one cool-down later the next
    dial probes too. *)
Definition probed_twice : list (option string) :=
  let v := {| O_ID := "r"; O_ExitGroupID := ""; O_Target := "a:1"; O_Path := "direct"; O_Candidates := []; O_Backends := []; O_Multiplier := "1";
              O_Policy := Some {| Failover := Some {| MaxFail := 1; CooldownSec := 1 |}; Hash := "h" |} |} in
  let pick t bk := (V_ID <$> (selectCandidate v [] t bk).1, (selectCandidate v [] t bk).2) in
  let '(first, bk) := pick 0 ∅ in
  let '(second_, bk) := pick 1 bk in
  let bk := markCandidate v "a:1" true 2 bk in                     (* the second dial fails *)
  let '(probe, bk) := pick (2 * second) bk in                      (* a probe begins *)
  let bk := markCandidate v "a:1" true (3 * second) bk in          (* the first dial fails *)
  let '(again, bk) := pick (4 * second) bk in                      (* another one *)
  [first; second_; probe; again].
Theorem route_probed_twice : probed_twice = [Some "a:1"; Some "a:1"; Some "a:1"; Some "a:1"].
Proof. evaluates. Qed.

(** ** Webhooks of disabled accounts hold up those of others

    A round reads the first deliveries that are due.  The claim of one whose
    owner is disabled ends without a change of the row, so the next round
    reads it again. *)
Section Starved.
Context (EventVisible : string -> event_row -> bool -> DB -> res bool).

Definition owner_disabled (d : DB) (y : delivery) : Prop :=
  exists w u, t_get Webhooks d !! y_sub y = Some w /\ t_get Users d !! wh_user w = Some u /\ u_disabled u = true.
Lemma claim_disabled d y env : owner_disabled d y -> Write (claim_delivery EventVisible y) env d = (Ok false, d).
Proof.
  intros (w & u & Hw & Hu & Hd). unfold Write, claim_delivery, SELECT, savepoint, CheckAccount, gets, Now, mbind, tx_bind. rewrite Hw. destruct (negb (awake (env_now env 0) w)); [done|].
  cbn. unfold SELECT, gets, mbind, tx_bind. cbn in *. rewrite Hu, Hd. done.
Qed.
Theorem disabled_account_starves_webhooks limit now oracle d :
  Forall (owner_disabled d) (due now (Z.to_nat (if (limit <=? 0) || (100 <? limit) then 20 else limit)) d) -> RunWebhookDelivery EventVisible limit now oracle d = (0%nat, None, d).
Proof.
  unfold RunWebhookDelivery. generalize (due now (Z.to_nat (if (limit <=? 0) || (100 <? limit) then 20 else limit)) d). intros list. induction list as [|y list IH]; [done|].
  intros [Hy Hl]%Forall_cons. cbn [deliver_all]. rewrite (claim_disabled _ _ _ Hy). auto.
Qed.
End Starved.

(** With rounds of one delivery, that of an account in good standing waits
    behind that of a disabled one; a day does not change that. *)
Definition held_up : DB :=
  let hook user := {| wh_user := user; wh_url := "https://example.org"; wh_secret := "s"; wh_events := "*"; wh_enabled := true;
                      wh_format := "webhook"; wh_muted_until := 0; wh_version := 1; wh_admin := false |} in
  let event user := {| ev_user := user; ev_kind := "node.offline"; ev_data := []; ev_created := 0 |} in
  let delivery := {| dl_attempts := 0; dl_next := 0; dl_error := ""; dl_delivered := None |} in
  t_set Webhooks (fun _ => {[ "a" := hook "mallory"; "b" := hook "alice" ]}) (t_set Events (fun _ => {[ "1" := event "mallory"; "2" := event "alice" ]})
    (t_set Deliveries (fun _ => {[ ("1", "a") := delivery; ("2", "b") := delivery ]})
      (platform {[ "mallory" := {| u_disabled := true; u_role := "user" |}; "alice" := {| u_disabled := false; u_role := "user" |} ]} ∅ ∅ ∅ ∅ empty_db))).
Theorem alice_starves oracle : RunWebhookDelivery (fun _ _ _ _ => Ok true) 1 (24 * hour) oracle held_up = (0%nat, None, held_up).
Proof.
  apply disabled_account_starves_webhooks. change (Z.to_nat _) with 1%nat.
  assert (Hd : due (24 * hour) 1 held_up = [{| y_event := "1"; y_sub := "a"; y_attempts := 0; y_row := {| ev_user := "mallory"; ev_kind := "node.offline"; ev_data := []; ev_created := 0 |} |}]) by (vm_compute; reflexivity).
  rewrite Hd. constructor; [|constructor]. eexists _, _. split; [vm_compute; reflexivity|]. split; [vm_compute; reflexivity|reflexivity].
Qed.

From S2P Require Import Ports PortsInv PortGuarantees.

(** ** The port of an exit is given away while the node still uses it

    A comment in tls_ingress.go says that reservations remain until the node
    acknowledges removal.  Those of rules and ingresses do ([ports_held]).
    Saving an exit drops its reservations first: moved to another port, its
    old port goes to a new rule before the node has acknowledged anything. *)
Section ExitMoved.
Existing Instance PortDemo.demo_ids.
Existing Instance PortDemo.demo_surroundings.

Definition moving_exit (listen : string) (version : Z) : Exit :=
  {| X_ID := ""; X_GroupID := "g"; X_NodeID := "n"; X_Version := version; X_Managed := true; X_Listen := listen; X_Transport := "tls";
     X_Tunnel := {| T_Endpoint := "e:1"; T_ServerName := "e"; T_Token := "t"; T_Mux := false; T_Reverse := ""; T_Chain := []; T_Obfuscation := None; T_Runtime := false |}; X_UDP := None |}.
Definition exit_saved : Tables := (Write (saveExit "" (moving_exit ":1000" 0)) (PortDemo.ids "x") (p_db PortDemo.s3)).2.
Definition exit_moved : Tables := (Write (saveExit "x" (moving_exit ":1001" 1)) (PortDemo.ids "") exit_saved).2.
Theorem exit_port_given_away :
  has_port exit_saved ("n", "tcp", 1000) (ByExit "x") /\ n_applied <$> d_nodes exit_moved !! "n" = Some 0 /\
  has_port (Write (saveRule "alice" "admin" "" (PortDemo.demo_rule ":1000") 0) (PortDemo.ids "r1") exit_moved).2 ("n", "tcp", 1000) (ByRule "r1").
Proof. cbn [has_port]. split; [|split; vm_compute; reflexivity]. apply (bool_decide_eq_true_1 (((("n", "tcp", 1000)), "x") ∈ d_exit_ports exit_saved)). vm_compute. reflexivity. Qed.
End ExitMoved.

From S2P Require Import Desk DeskInv DeskSystem DeskProgress DeskScenarios NodeConfig FleetBooks FleetEvents FleetStore FleetWriter FleetCredits FleetPanel Fleet FleetScenarios.

(** ** A lease that expires while a request is handled

    A batch whose requests are checked just before the lease of
    [FleetScenarios] expires and stamped just after. *)
Definition expiry : Z := NL_ExpiresAt fleet_lease.
Definition across_expiry : timing :=
  {| tm_start := awake;
     tm_request := fun _ => {| at_choice := expiry - 1; at_check := expiry - 1; at_close := expiry + 1; at_stamp := expiry + 1 |};
     tm_end := expiry + 1 |}.
Lemma across_ticks : ticks awake across_expiry.
Proof. split; [done|]. intros i. vm_compute. split_and!; discriminate. Qed.

Definition f_late : Fleet :=
  set_drawn (draw (f_drawn f_applied) 1 packet_ids)
    (set_clock (tm_end across_expiry) (set_store (processCharges across_expiry good_disk packet_ids [packet] (f_store f_applied)).2 f_applied)).
Lemma late_runs : runs_to f_late.
Proof.
  eapply rtc_r; [apply applied_runs|]. apply (fs_charges "node" f_applied across_expiry good_disk packet_ids [packet]); [exact across_ticks|..].
  - apply (one_fresh (f_drawn f_applied) "11111111111111111111111111111111"); [done|]. change (f_drawn f_applied) with (∅ : gset string).
    apply not_elem_of_empty.
  - apply Forall_singleton. by vm_compute.
  - apply Forall_singleton. by apply rule_known.
Qed.

(** A direct charge that was checked in time and stamped after the lease
    expired is answered with success and spooled; the panel refuses every
    report with it, at whatever time, and the agent does not start again: the
    spool it reads back is refused as invalid. *)
Theorem late_charge_stops_agent :
  fleet_reachable "node" f_late /\ bytes <$> Pending (state (f_store f_late)) = [60] /\
  (forall env, exists e, usage_handler env "node" (Pending (state (f_store f_late))) (f_panel f_late) = (Err e, f_panel f_late)) /\
  (forall now ios, (OpenStore now ios (saved (f_store f_late)) (log (f_store f_late))).1 = Err (ErrMsg "invalid durable pending usage")).
Proof.
  pose proof (runs_reachable _ late_runs) as Hf. split; [exact Hf|]. split; [vm_compute; reflexivity|].
  split; [|intros now ios; vm_compute; reflexivity]. intros env. apply fleet_reachable_inv, fl_panel in Hf.
  set (records := Pending (state (f_store f_late))).
  destruct (usage_handler env "node" records (f_panel f_late)) as [[ids|e] p] eqn:E; [exfalso|apply usage_handler_Err in E as ->; eauto].
  unfold usage_handler in E. destruct (500 <? _); [done|].
  destruct (Write (persistUsageBatch shop_options "node" records) env (f_panel f_late)) as [[[]|e] p'] eqn:Ew; [|done]. apply Write_Ok in Ew as [t Ew].
  assert (Hu : exists u l c, u ∈ records /\ cp_usage (f_panel f_late) !! U_ID u = None /\ rule_leases (f_panel f_late) !! U_LeaseID u = Some l /\
    paid l /\ leases (shop (f_panel f_late)) !! U_LeaseID u = Some c /\ le_expires c < U_EndedAt u).
  { eexists _, _, _. split; [vm_compute; apply elem_of_cons; left; reflexivity|]. split; [vm_compute; reflexivity|].
    split; [vm_compute; reflexivity|]. split; [vm_compute; discriminate|]. split; [vm_compute; reflexivity|]. vm_compute. reflexivity. }
  destruct Hu as (u & l & c & Hu & Hnew & Hl & Hp & Hc & Hx). pose proof (persist_on_time _ _ _ _ _ _ _ _ Hf Ew u Hu Hnew l c Hl Hp Hc). lia.
Qed.

(** A reservation that was checked in time and stamped after its end is
    written to the log and refused when it is applied; the log is refused at
    every later start. *)
Definition late_window : Store := (processReserveBatch across_expiry (fun _ => good_disk) window_ids [refill] (f_store f_applied)).2.
Theorem late_reservation_stops_agent :
  failed (f_store f_applied) = false /\ failed late_window = true /\
  forall now ios, (OpenStore now ios (saved late_window) (log late_window)).1 = Err (ErrMsg "invalid credit window").
Proof. split; [vm_compute; done|]. split; [vm_compute; done|]. intros now ios. vm_compute. reflexivity. Qed.
